(* ===== verification/_CoqProject ===== *)
-Q . S2P
Prelude.v
Containers.v
PoolTx.v
PendingQueue.v
ReadyQueue.v
ReadyInvariant.v
ReadyProofs.v
Pool.v
PoolProofs.v
PoolProps.v
Miner.v
PoolContent.v
Time.v
Snapshots.v
StateDb.v
BlockStates.v
Blockchain.v
Fees.v
Executor.v
ExecutorProofs.v
Backend.v
SampleNode.v
Validation.v
Mining.v
ChainInvariant.v
MiningProofs.v
Service.v
Printer.v
PrinterProofs.v
ExpectCall.v
ExpectEmit.v
ExpectRevert.v
ExpectDispatch.v
SafeMemory.v
Mock.v
Prank.v
FsPermissions.v
FsCheats.v
InlineConfig.v
Bytecode.v
Coverage.v
FuzzInt.v
Shrink.v
Assert.v
MultiFork.v
MultiForkProofs.v
ForkState.v
ForkBackend.v
ForkCheats.v
ForkTx.v
ForkSelect.v
ForkCalls.v
ForkManager.v
ForkProps.v
ForkSample.v
ForkTxProofs.v
FoldedTrace.v
GasMetering.v
Linking.v
LinkingProofs.v
Filters.v
ReadyLinks.v
GasOracle.v
ChainQueries.v
QueriesProofs.v
EthApi.v
EthApiProofs.v
SenderSearch.v
Recording.v
RecordingProofs.v
TestExec.v
InvariantRun.v
TestSample.v
FuzzRun.v
FuzzSample.v
TestResults.v
TestRunner.v
SuiteRun.v
SuiteSample.v
