(* ===== verification/Prelude.v ===== *)
(** * base-anvil: a verification development

    base-anvil is a Foundry tool chain: a local Ethereum node (anvil), a test
    runner with cheatcodes (forge), a Solidity formatter and command line
    tools.  This library translates the parts that hold the tool chain's own
    logic, as opposed to what it delegates to revm, alloy or the network, and
    proves what makes each of them correct.  Paths below are relative to
    [src/crates].

    ** The program's parts and the files that model them

    The node.  A transaction that a client submits becomes a pool
    transaction with the markers (sender and nonce) it requires and provides.
    The pool keeps it with the waiting transactions until what it requires is
    provided, then with the ready ones.  The miner, woken by the pool or a
    timer, takes ready transactions in the order of the ready iterator; the
    backend asks the block clock and the fee manager for the next block's
    timestamp and fees, stores the block, keeps the state before it as a
    historical state, and the pool prunes the markers the block provides.

    - [PoolTx], [PendingQueue], [ReadyQueue]: anvil/src/eth/pool/transactions.rs.
      [TransactionPriority] and [to_marker], [PendingTransactions] and
      [mark_and_unlock], [ReadyTransactions] (adding with replacement,
      removing with dependents, pruning) and [TransactionsIterator].
    - [ReadyInvariant], [ReadyProofs]: the invariant of the ready queue and
      the specification of its operations.
    - [Pool], [PoolProofs], [PoolProps]: [PoolInner] and the operations of
      [Pool] in anvil/src/eth/pool/mod.rs, with [required_marker] of
      anvil/src/eth/api.rs; the pool's invariant; the claims about it.
      [PoolContent] says what the operations leave in the pool, for the
      components that use it.
    - [ReadyLinks]: the links between ready transactions lead
      from nonce to nonce, so the iterator over them ends.
    - [Miner]: anvil/src/eth/miner.rs, the poll of each mining mode.
    - [Time]: [TimeManager] of anvil/src/eth/backend/time.rs.
    - [Fees]: [FeeManager], [FeeDetails] and the fee history cache of
      anvil/src/eth/fees.rs.
    - [Snapshots]: evm/core/src/state_snapshot.rs and the snapshots of
      anvil/src/eth/backend/mem/in_memory_db.rs.
    - [StateDb]: emptying a database into a snapshot and restoring it,
      anvil/src/eth/backend/db.rs and mem/in_memory_db.rs.
    - [BlockStates]: [InMemoryBlockStates] of mem/storage.rs and
      [DiskStateCache] of mem/cache.rs.
    - [Blockchain]: [BlockchainStorage] and [Blockchain] of mem/storage.rs.
    - [Executor], [ExecutorProofs]: [TransactionExecutor] of
      anvil/src/eth/backend/executor.rs (its iterator over the pending
      transactions, and the block with its receipts), with the impersonation
      of backend/cheats.rs.
    - [Backend]: the state of the in-memory backend of
      anvil/src/eth/backend/mem/mod.rs, its getters and setters; [SampleNode]
      is a concrete small node for the witnesses.
    - [Validation]: [validate_pool_transaction_for] of mem/mod.rs.
    - [Mining], [ChainInvariant], [MiningProofs]: [do_mine_block], pending
      blocks, state snapshots and their reverts, [rollback] and [reorg] of
      mem/mod.rs, composed of the components above; what it means that a
      node's chain is unbroken; the claims.
    - [Service]: [NodeService] and [BlockProducer] of anvil/src/service.rs
      with the pool's listener: a poll is a step, and the executor of
      blocking tasks may run a task between any two of them.
    - [Filters]: anvil/src/filter.rs and pubsub.rs with the
      handlers of api.rs that install and poll filters, over the channels by
      which the backend announces blocks; a channel is an entry of a store.

    The node's clients.  The handlers of the RPC API send transactions to the
    pool, mine, rewind and set up the node, and answer questions about its
    chain and its pool.

    - [ChainQueries], [QueriesProofs]: blocks, transactions, receipts, logs
      and historic states, the reads of mem/mod.rs; their answers.
    - [GasOracle]: [eth_estimateGas], suggested fees and
      [eth_feeHistory] of anvil/src/eth/api.rs.
    - [EthApi], [EthApiProofs]: the handlers of api.rs over the pool, the
      miner and the backend; any sequence of them.
    - [SenderSearch]: [transaction_by_sender_and_nonce] of api.rs.

    The cheatcodes.  An inspector sees every call, create, log and
    instruction of a test; a cheatcode call changes the inspector's state,
    and the hooks use that state to change or judge what the test does.

    - [ExpectCall], [ExpectEmit], [ExpectRevert], [ExpectDispatch]: the
      [expect*] cheatcodes of cheatcodes/src/test/expect.rs, [assume.rs],
      [revert_handlers.rs], error.rs, and their hooks in
      cheatcodes/src/inspector.rs; [ExpectDispatch] has every overload and
      the verdict at the end of a test.
    - [SafeMemory]: [expectSafeMemory] and [check_mem_opcodes].
    - [Mock]: cheatcodes/src/evm/mock.rs and the call hook.
    - [Prank]: cheatcodes/src/evm/prank.rs and the call and create hooks.
    - [Assert]: cheatcodes/src/test/assert.rs.
    - [GasMetering]: pausing and resetting the gas
      meter, gas snapshots (cheatcodes/src/evm.rs and the hooks of
      inspector.rs) and their comparison with an earlier run
      (forge/src/cmd/test/mod.rs).
    - [Recording], [RecordingProofs]: the recorders of
      storage accesses, logs, mapping slots (common/src/mapping_slots.rs) and
      account accesses, their hooks in inspector.rs and their cheatcodes in
      cheatcodes/src/evm.rs and evm/mapping.rs.
    - [FsPermissions], [FsCheats]: config/src/fs_permissions.rs, the path
      checks of cheatcodes/src/config.rs, and the file system cheatcodes of
      cheatcodes/src/fs.rs with common/src/fs.rs, as programs that list the
      calls they make to the operating system.

    Forks.  All tests share one handler that connects to remote chains; a
    test's backend holds its own forks, swaps the active one under the running
    call and keeps snapshots of all of it.  The fork cheatcodes drive the
    backend, and a fork can be moved to the point before a transaction by
    replaying its block.

    - [MultiFork], [MultiForkProofs]: [MultiForkHandler] and [ForkId] of
      evm/core/src/fork/multi.rs; a poll is a function of what it receives.
    - [ForkState]: the journal, [Fork], [BackendInner] and the functions that
      move accounts between forks, evm/core/src/backend/mod.rs, with
      snapshot.rs.
    - [ForkBackend]: the operations of [Backend] as programs over the running
      call (its environment and journal, the backend and the handler), and
      the copies of [CowBackend] (cow.rs).
    - [ForkCheats]: cheatcodes/src/evm/fork.rs and the snapshot cheatcodes of
      evm.rs.
    - [ForkTx]: the operations of [Backend] that execute transactions, with
      [configure_tx_env] of evm/core/src/utils.rs.
    - [ForkSelect], [ForkCalls]: the invariant of the backend's tables and the
      specification of every operation; [ForkManager]: [MultiForkHandler]
      implements the interface they are proved against; [ForkProps],
      [ForkTxProofs]: the claims; [ForkSample] is a small instance with two
      forks for the witnesses.

    Fuzzing and coverage.  A fuzzed test draws values, and shrinks a failing
    value or call sequence; coverage counts the instructions that run and ties
    them to source items.

    - [FuzzInt]: evm/fuzz/src/strategies/uint.rs and int.rs.
    - [Shrink]: evm/evm/src/executors/invariant/shrink.rs.
    - [Bytecode]: evm/core/src/bytecode.rs and ic.rs.
    - [Coverage]: evm/coverage/src/lib.rs, anchors.rs and inspector.rs, whose
      collector keeps a pointer into a store of maps.

    Tests.  A test contract is deployed and set up by an executor over revm;
    each of its test functions then runs on a copy: a unit or table test by
    calls, a fuzz test by workers that share a counter of runs and a claim of
    the first failure, an invariant test by a campaign of generated calls whose
    failing sequence is shrunk ([Shrink]) and replayed.  Suites and functions
    run in parallel and share the flag of fail-fast and Ctrl-C.

    - [TestExec]: [Executor] of evm/evm/src/executors/mod.rs, the results and
      errors of calls, [EarlyExit]; [execute_tx] of executors/invariant/mod.rs.
    - [InvariantRun]: [invariant_fuzz] and what it calls
      in invariant/mod.rs, result.rs and error.rs.
    - [FuzzRun]: executors/fuzz/mod.rs; a step is one turn of
      one worker.
    - [TestResults]: forge/src/result.rs, common/src/traits.rs, the filter
      that reruns failures, and the replay of a sequence
      (executors/invariant/replay.rs).
    - [TestRunner]: the set-up and the functions of forge/src/runner.rs.
    - [SuiteRun]: [run_tests] and multi_runner.rs, a step being one move of a
      thread.
    - [TestSample], [FuzzSample], [SuiteSample]: a small test contract for the
      witnesses and the departures.

    Traces and linking.  A test's call trace becomes a flame graph; before a
    contract runs, the libraries it refers to are found, ordered and linked.

    - [FoldedTrace]: evm/traces/src/folded_stack_trace.rs.
    - [Linking], [LinkingProofs]: linking/src/lib.rs: the
      search for libraries, then the two ways to give them addresses.

    The formatter.  A traversal of the syntax tree sends strings, breaks and
    boxes to a pretty printer that decides where lines break.

    - [Printer], [PrinterProofs]: fmt/src/pp (Oppen's algorithm: [mod.rs],
      [ring.rs], [convenience.rs]).
    - [InlineConfig]: common/src/comments/inline_config.rs, the comments that
      disable the formatter or a lint.

    [Prelude] (this file) and [Containers] hold what the components share:
    results and panics, machine integers, loops, vectors; ordered sets, hash
    iteration orders, sums over maps.

    ** How code becomes definitions

    A definition has the name of the function, method or type it translates,
    a field the name of the field.  [&mut self] is a state that is passed and
    returned.  [Result] is [result], whose bind is the [?] operator; where the
    code changes the state before it fails, the operation returns the new
    state beside its result.  A panic ([unwrap], [expect], [assert!], an index
    out of range, an arithmetic overflow) is the [None] of an [option]: a
    theorem that ends in [Some] shows that there is none.  A [HashMap] is a
    [gmap]; where the code iterates over a hash container, the order is the
    interface [HashOrder] and theorems hold for every order.  A [BTreeSet] is
    the ascending list of its elements under the code's comparison.  Integers
    are [Z] with the width written out: [wrap_u64], [saturating_add],
    [checked].

    Code outside the repository is an interface (a [Class] or the variables
    of a Section): transactions ([TxEnvelope]), headers and their hashes
    ([BlockTypes]), the fee rules of the protocol and floating point
    ([FeeRules]), statuses and ABI coding ([RevertEnv]), printing of words
    ([LogFormat]), loading an account ([PrankJournal]), the databases of
    historical states ([FullDatabase] with its laws [FullDatabaseLaws], which
    [StateDb] proves for [CacheDB] and [BlockStates] uses), revm's execution
    and the node's database ([EvmTypes], [Evm], [BlockHashing], [NodeEnv]),
    a call of the EVM and how its outcome depends on gas ([CallEnv] with
    [CallLaws]), filters and prices in answers ([ChainQueries.RpcTypes]),
    decoding transactions and making bytecode ([ApiEnv] with [ApiLaws]),
    the journal and the databases of a test ([RevmTypes], [RevmDb] with
    [RevmLaws]), remote chains and the transactions read from them
    ([ForkTypes], [RpcTypes], [RpcDb], [ForkEvm]), the calls that a test makes
    ([Shrink]), the printing of values ([Assert]), the operating system
    ([Os]), the gas of a frame and the memory it pays for ([GasTypes] with
    [GasLaws]), bytecode with its unlinked libraries and the addresses of
    deployed code ([LinkTypes] with [LinkLaws]), the hash of a mapping's slot
    and the journal that recorders read ([RecEnv] with [RecLaws]), revm, the
    database and the ABI as an executor of tests uses them ([ExecTypes],
    [ExecEnv]), what generates the inputs of campaigns and of fuzz tests
    ([InputSource] with [InputLaws] and [NoDelays], [FuzzSource]), the names of
    contracts and the configuration and files of the runner ([Identify],
    [RunnerEnv]), logs and what matches them ([LogTypes]), the compiler's source map ([InlineConfig.SourceMap]).  What the
    backend asks of the fork handler is an interface too ([ForkManager] with
    [ForkManagerLaws]), proved for the handler of the repository.  What is assumed of
    an interface is a law or a named hypothesis, and concrete instances show
    in the witnesses ([.._witness]) that it can hold.

    ** Termination and fuel

    A [while] loop is [loop step fuel], its fuel computed from the state: one
    more than a measure that every round decreases, as its proof shows with
    [loop_total].  The measures: the stack and the entries still in the queue
    for removal and pruning, the markers still to be provided for adding, the
    length of the vectors for block states, the scan stack and the buffer for
    the printer, the distance to the snapshot counter for snapshots, the width
    of the interval for integers that shrink (at most two tests more than the
    start has bits), the length of the code for its instructions, the batches
    still queued for the service, the artifacts not yet found for the search
    of libraries ([collect_fuel]), the hashes seen for the parents of a
    mapping's slot ([insert_fuel]), the nodes of an arena for its depth, the
    libraries not yet deployed for linking, the logarithm of the interval for
    the searches for gas and for a block ([search_fuel], [search_rounds]), the
    depth and the rejects that are allowed for a run of a campaign
    ([calls_fuel]) and its number of runs for the campaign.
    The fuel of the ready iterator is a parameter of what collects it;
    [ready_iterator_ends] gives the amount that is enough, and the theorems
    on handlers ([eventually]) hold from there on.  A poll of the service that does not return
    is shown in [full_batch_never_yields]; elsewhere no theorem
    assumes that a loop ends.

    ** What the theorems show

    - Pool: any sequence of operations from the empty pool runs without a
      panic and keeps the invariant ([pool_calls_safe]): the two queues are
      disjoint and consistent with their indices, nothing that waits has all
      its markers, ready transactions provide distinct markers.  On top of it:
      the outcome of adding on every branch, replacement by fee, removal of
      dependents, the order of the iterator, and that the transactions a node
      submits form a chain.
    - Miner, clock, fees: what each mining mode takes; that timestamps do not
      decrease and exact timestamps are met; the percentile rewards and the
      window of the fee history.
    - Storage: round trips of snapshots and of states through the disk, the
      bound on states in memory, unwinding a chain.
    - Block production: the outcome of every transaction of a block and the
      sums in its header; when validation accepts a transaction; that mining,
      reverting to a snapshot and a reorganisation keep the chain unbroken,
      and what they change; that the service mines batches in the order the
      miner chose them, and all of them.
    - Clients: polls of a filter answer, whatever other clients do, the logs
      of the blocks mined since the last poll as the storage has them then,
      and so every log exactly once as long as no block is rolled back before
      it is polled for ([logs_delivered_once]), as a subscription does; what
      is evicted leaves nothing behind ([filters_leak_nothing]).
    - Queries and handlers: whatever clients send, mine, drop or set, the node
      stays well formed and each call returns ([api_calls_safe]); [anvil_mine]
      mines the blocks it is asked for; logs are answered in the order of the
      chain with their positions, and receipts, logs and transactions of a
      mined block agree; the gas that is estimated for a call that is not a
      plain transfer is the least that is enough, above the base cost; which requests that the node completes it
      then accepts; which transaction of a sender is found.
    - Forks: no two answers of the handler carry the same identifier and every
      request is answered once its connection is decided; any sequence of fork
      and snapshot cheatcodes, rolls beyond 2^64 excepted, runs without a
      panic and keeps the tables of the backend consistent
      ([backend_steps_safe]); leaving a fork and coming back restores its
      accounts and block whatever the EVM did to the other fork; persistent
      accounts come along, over a selection and over a roll; a snapshot is
      restored whatever happened since; rolling to a transaction replays those
      before it, or the whole block when it is not found, and what it does to
      a running call on another fork.
    - Fuzzing: shrinking ends at a value or a call sequence that still fails
      and cannot be reduced by one, if no check of a part fails with an error;
      signed values shrink like their
      magnitudes; what is generated fits its type.
    - Tests: the calls that a campaign without delays made in a run
      ([campaign_made]) and reports for a broken invariant break it when they
      are replayed ([reported_sequence_breaks]); a campaign that reports
      no failure has made its runs with all their calls
      ([campaign_makes_its_runs]); however the workers of a fuzz test
      interleave, its verdict is that of the claimed failure, and without one
      the configured runs were made ([fuzz_verdict]); a run of suites leaves a
      function out only after a failure under fail-fast or Ctrl-C, and gives
      the others the results they have alone ([undisturbed_run_is_complete]).
    - Coverage: the maps between program and instruction counters are inverse;
      the collector counts every executed instruction and follows no dangling
      pointer; a report sums hit maps up, in any order.
    - Files: the paths that a cheatcode names are allowed, [foundry.toml] is
      not named to be changed, only reading directories and the recursive
      cheatcodes reach further ([fs_calls_permitted]), and the longest
      permission decides; comments disable what
      counting open blocks says.
    - Cheatcodes: verdicts characterised without the hooks' bookkeeping: by
      the calls of the trace, by subsequences of the events, by counting
      reverts, by the most specific mock, by the ranges declared safe.
    - Recorders: what is recorded over any nesting of calls and creates,
      of which none is mocked or reverts as expected, is what a recursion over
      them gives, in the order of execution and marked as reverted where a
      call around it reverted ([accesses_follow_calls]); the state diff is the
      difference of the storage before and after, if no call halts either
      ([state_diff_is_difference]); keys, parents and children of mapping
      slots agree, and the hook panics exactly on a hash of memory that is not
      there yet ([mapping_slots_consistent]).
    - Gas: a paused frame spends nothing however calls nest; what a gas
      snapshot measures; what the comparison with an earlier run decides.
    - Traces and linking: the lines of a folded trace carry the frames' own
      gas, which adds up to that of the test; the search for libraries ends
      at those that references lead to, in the presence of cycles; libraries
      are deployed after those they refer to, at the addresses they are
      linked with.
    - Printer: balanced tokens whose breaks carry no text print without a
      panic, and the output without its white space is the text of the tokens,
      at every margin.
    - Where the code departs from what it means to do, a theorem of kind error
      or a lemma shows it on concrete states: a poll that does not return
      ([full_batch_never_yields]), transactions that wait although they are
      ready ([skipped_transactions_wait]), a snapshot that breaks the chain
      ([stale_snapshot_breaks_chain]), exchanged arguments
      ([next_fees_exchange_blob_gas]), a link that is not removed
      ([removed_stay_in_unlocks]), a waiting transaction that is not dropped
      ([drop_misses_waiting]), an event counted per emitter
      ([two_emitters_not_found]), pranks forgotten at the end of a create
      ([create_end_drops_outer_pranks]), a tag without a block
      ([safe_tag_before_genesis]), gas weighed twice
      ([rewards_weigh_cumulative_gas]), an underflow
      ([fee_history_underflow]), text lost by a replaced break
      ([replaced_break_loses_text]), a value outside of the shrinking range
      ([int_complicate_leaves_range]), a call dropped by an error
      ([error_drops_call]), a permission that is ignored
      ([read_write_after_read_is_lost]), a file removed with its directory
      ([remove_dir_removes_foundry_toml]), a clone that counts elsewhere
      ([clone_counts_in_the_original]), a fork that starts with the time
      another test had set ([created_fork_inherits_updates]), a snapshot that
      leaves a fork selected ([memory_snapshot_keeps_fork]), a block number
      that panics ([roll_fork_panics]), gas that is counted between snapshots
      ([gas_snapshot_measures_witness]), differences forgotten by a check
      ([snapshot_check_verdict]), a library address that panics
      ([create2_panics_on_invalid_address]), a request that panics
      ([fee_history_panics]), a percentile that is rounded
      ([half_percent_rounded]), an estimate one too high
      ([estimate_one_too_much]), a subscription that stalls
      ([subscription_stalls]), reverts that are not marked
      ([expected_revert_not_marked], [halted_call_not_marked]), a mocked call
      that ends the record of its caller ([mocked_call_ends_caller]), balances
      listed under the wrong account ([delegate_call_balances]) or as zero
      ([running_call_balance]), a hash that panics a recorder
      ([hash_outside_memory_panics]), logs that a rollback loses
      ([rolled_back_block_not_told]), paths that are reached unchecked
      ([remove_dir_passes_longer_permission], [create_dir_makes_parents],
      [read_dir_lists_walk]), a reported call that was never made
      ([after_failure_reports_unmade_call]), a failure that is replaced or not
      found again ([after_failure_replaced], [failed_handler_not_replayed]),
      delays that come late ([delays_late]), a failure reported as skipped
      ([failure_reported_as_skipped]), logs of another worker
      ([logs_of_another_worker]), a filter that matches every test
      ([rerun_filter_after_setup]), a table test failed by an interruption
      ([interrupted_table_fails]), and snapshots that cannot be deleted
      ([cow_keeps_setup_snapshots]).

    ** What is not modelled

    The EVM (revm), serialization of RPC types, servers and
    clients, the building and signing of transaction requests, tracing,
    the forked database of the node, the syntax tree traversal
    of the formatter and of the coverage analysis, the remaining cheatcodes,
    which mostly call libraries, and the command line tools.  Of the forks:
    the thread that drives the handler and its periodic flush of caches, and
    what an inspector keeps when a transaction on a fork fails.  Locks are
    left out: each operation runs under its lock.  The next components in
    line: the mutators and dictionaries of the fuzzer, the selection of the
    contracts that a campaign targets, and the number conversions of cast. *)
From stdpp Require Import base list gmap strings sorting.
From Stdlib Require Import ZArith Lia.

(** ** Results and panics

    A Rust [Result<A, E>] is a [result E A], a monad for stdpp's notations
    ([x ← r; k] is the [?] operator).  A computation that can panic
    ([unwrap], [expect], [assert!], an index out of range) returns an
    [option]: [None] is the panic, so that a theorem that ends in [Some]
    shows that the code does not panic. *)
Inductive result (E A : Type) : Type :=
| Ok (a : A)
| Err (e : E).
Arguments Ok {E A} a.
Arguments Err {E A} e.

#[export] Instance result_ret {E} : MRet (result E) := λ A a, Ok a.
#[export] Instance result_bind {E} : MBind (result E) :=
  λ A B f r, match r with Ok a => f a | Err e => Err e end.
#[export] Instance result_fmap {E} : FMap (result E) :=
  λ A B f r, match r with Ok a => Ok (f a) | Err e => Err e end.

Declare Scope anvil_scope.
Delimit Scope anvil_scope with anvil.
Open Scope anvil_scope.
Open Scope Z_scope.

(** ** Automation

    [auto with anvil] closes the membership facts of loops over lists;
    [decide_bools] evaluates the boolean guards of the code that the context
    decides. *)
Create HintDb anvil.
#[export] Hint Resolve list_elem_of_here list_elem_of_further : anvil.
#[export] Hint Resolve Nat.lt_succ_diag_r Nat.le_refl : anvil.

Ltac guard_solver := solve [done | lia | congruence | intros ?; done].
Ltac decide_bool :=
  match goal with
  | |- context [bool_decide ?P] =>
      first [ rewrite (bool_decide_true P) by guard_solver
            | rewrite (bool_decide_false P) by guard_solver ]
  end.
Ltac decide_bools := decide_bool; repeat decide_bool; cbn [andb orb negb].

(** [ensure!(c, msg)]: returns the error when [c] does not hold. *)
Definition ensure {E} (c : bool) (e : E) : result E unit :=
  if c then Ok tt else Err e.

Lemma bind_Ok {E A B} (r : result E A) (f : A → result E B) b :
  r ≫= f = Ok b ↔ ∃ a, r = Ok a ∧ f a = Ok b.
Proof.
  destruct r as [a|e]; split; simpl.
  - intros Hf. by exists a.
  - by intros (? & [= ->] & ?).
  - done.
  - by intros (? & ? & ?).
Qed.
Lemma ensure_Ok {E} c (e : E) u : ensure c e = Ok u ↔ c = true.
Proof. by destruct c, u. Qed.

(** ** Machine integers *)
Definition u64_max : Z := 2 ^ 64 - 1.
Definition u128_max : Z := 2 ^ 128 - 1.
Definition u256_max : Z := 2 ^ 256 - 1.
Definition usize_max : Z := 2 ^ 64 - 1.
Definition i128_max : Z := 2 ^ 127 - 1.
Definition i128_min : Z := - 2 ^ 127.
Definition in_u64 (z : Z) : Prop := 0 ≤ z ≤ u64_max.
Definition in_u128 (z : Z) : Prop := 0 ≤ z ≤ u128_max.
Definition in_u256 (z : Z) : Prop := 0 ≤ z ≤ u256_max.

(** Two's complement truncation ([as u64], [wrapping_add] and the plain
    operators of a build without overflow checks). *)
Definition wrap_u64 (z : Z) : Z := z mod 2 ^ 64.
Definition wrap_u128 (z : Z) : Z := z mod 2 ^ 128.
Definition wrap_u256 (z : Z) : Z := z mod 2 ^ 256.
Definition wrap_signed (w z : Z) : Z := (z + 2 ^ (w - 1)) mod 2 ^ w - 2 ^ (w - 1).

Definition saturating_add (hi a b : Z) : Z := Z.min hi (a + b).
Definition saturating_sub (a b : Z) : Z := Z.max 0 (a - b).
Definition clamp (lo hi z : Z) : Z := Z.max lo (Z.min hi z).

(** The plain operators, whose overflow panics in a build with overflow
    checks: where the result is [Some], both kinds of build compute it. *)
Definition checked (hi z : Z) : option Z :=
  if bool_decide (0 ≤ z ≤ hi) then Some z else None.

Lemma checked_Some hi z z' : checked hi z = Some z' ↔ z' = z ∧ 0 ≤ z ≤ hi.
Proof. unfold checked. case_bool_decide; naive_solver. Qed.
Lemma checked_in hi z : 0 ≤ z ≤ hi → checked hi z = Some z.
Proof. intros. by apply checked_Some. Qed.
Lemma checked_None hi z : checked hi z = None ↔ ¬ (0 ≤ z ≤ hi).
Proof. unfold checked. case_bool_decide; naive_solver. Qed.

(** Halving an interval takes a bit off its length. *)
Lemma log2_up_half n k : 1 < n → 2 * k ≤ n + 1 → Z.log2_up k < Z.log2_up n.
Proof.
  intros Hn Hk. pose proof (Z.log2_up_spec n Hn) as [_ Hu].
  assert (1 ≤ Z.log2_up n) by (pose proof (Z.log2_up_pos n Hn); lia).
  assert (2 ^ Z.log2_up n = 2 * 2 ^ (Z.log2_up n - 1)) as Hp.
  { rewrite <- Z.pow_succ_r by lia. f_equal. lia. }
  pose proof (Z.log2_up_le_mono k (2 ^ (Z.log2_up n - 1)) ltac:(lia)) as Hmono.
  rewrite Z.log2_up_pow2 in Hmono by lia. lia.
Qed.

Lemma wrap_u64_small z : in_u64 z → wrap_u64 z = z.
Proof. intros ?. apply Z.mod_small. unfold in_u64, u64_max in *. lia. Qed.
Lemma wrap_u256_small z : in_u256 z → wrap_u256 z = z.
Proof. intros ?. apply Z.mod_small. unfold in_u256, u256_max in *. lia. Qed.
Lemma wrap_u64_range z : in_u64 (wrap_u64 z).
Proof.
  unfold in_u64, wrap_u64, u64_max.
  pose proof (Z.mod_pos_bound z (2 ^ 64)). lia.
Qed.
Lemma wrap_signed_small w z :
  0 < w → - 2 ^ (w - 1) ≤ z < 2 ^ (w - 1) → wrap_signed w z = z.
Proof.
  intros Hw Hz. unfold wrap_signed.
  replace (2 ^ w) with (2 * 2 ^ (w - 1)).
  - rewrite Z.mod_small; lia.
  - rewrite <- Z.pow_succ_r by lia. f_equal. lia.
Qed.
Lemma wrap_signed_range w z :
  0 < w → - 2 ^ (w - 1) ≤ wrap_signed w z < 2 ^ (w - 1).
Proof.
  intros Hw. unfold wrap_signed.
  assert (2 ^ w = 2 * 2 ^ (w - 1)) as ->.
  { rewrite <- Z.pow_succ_r by lia. f_equal. lia. }
  assert (0 < 2 ^ (w - 1)) by (apply Z.pow_pos_nonneg; lia).
  pose proof (Z.mod_pos_bound (z + 2 ^ (w - 1)) (2 * 2 ^ (w - 1))). lia.
Qed.

(** [to_le_bytes] and [to_be_bytes] of an integer of [n] bytes. *)
Fixpoint le_bytes (n : nat) (z : Z) : list Z :=
  match n with O => [] | S n => z mod 256 :: le_bytes n (z / 256) end.
Definition be_bytes (n : nat) (z : Z) : list Z := reverse (le_bytes n z).

Lemma length_le_bytes (n : nat) z : length (le_bytes n z) = n.
Proof. revert z. induction n; intros z; simpl; auto. Qed.
Lemma le_bytes_inj (n : nat) z z' :
  0 ≤ z < 256 ^ Z.of_nat n → 0 ≤ z' < 256 ^ Z.of_nat n → le_bytes n z = le_bytes n z' → z = z'.
Proof.
  revert z z'. induction n as [|n IH]; intros z z' Hz Hz'.
  { rewrite Z.pow_0_r in *. lia. }
  rewrite Nat2Z.inj_succ, Z.pow_succ_r in Hz, Hz' by lia. simpl.
  intros [= Hm Hd]. apply IH in Hd.
  - rewrite (Z.div_mod z 256), (Z.div_mod z' 256) by lia. lia.
  - split; [apply Z.div_pos; lia|apply Z.div_lt_upper_bound; lia].
  - split; [apply Z.div_pos; lia|apply Z.div_lt_upper_bound; lia].
Qed.

(** ** Loops

    [fold_m] is a [for] loop whose body may panic; [loop] a [while] loop
    whose body continues ([inl]) or leaves the loop ([inr]), run with fuel.
    The two [_total] lemmas are the loop rules every component uses: they
    give a result, hence neither a panic nor exhausted fuel. *)
Fixpoint fold_m {A B} (f : B → A → option B) (b : B) (l : list A) : option B :=
  match l with
  | [] => Some b
  | a :: l' => match f b a with Some b' => fold_m f b' l' | None => None end
  end.

Lemma fold_m_total {A B} (f : B → A → option B) (P : list A → B → Prop) :
  (∀ a l b, P (a :: l) b → ∃ b', f b a = Some b' ∧ P l b') →
  ∀ l b, P l b → ∃ b', fold_m f b l = Some b' ∧ P [] b'.
Proof.
  intros Hf l. induction l as [|a l IH]; intros b Hb; simpl; [eauto|].
  destruct (Hf _ _ _ Hb) as (b' & -> & Hb'). eauto.
Qed.

Lemma fold_m_app {A B} (f : B → A → option B) b l1 l2 :
  fold_m f b (l1 ++ l2) = match fold_m f b l1 with
                          | Some b' => fold_m f b' l2 | None => None end.
Proof. revert b. induction l1; intros b; simpl; [done|]. by case_match. Qed.

Fixpoint loop {S R} (step : S → option (S + R)) (fuel : nat) (s : S) : option R :=
  match fuel with
  | O => None
  | Datatypes.S fuel =>
      match step s with
      | None => None
      | Some (inr r) => Some r
      | Some (inl s') => loop step fuel s'
      end
  end.

Lemma loop_total {S R} (step : S → option (S + R)) (P : S → Prop)
    (Q : R → Prop) (m : S → nat) :
  (∀ s, P s → match step s with
              | Some (inl s') => P s' ∧ (m s' < m s)%nat
              | Some (inr r) => Q r
              | None => False end) →
  ∀ fuel s, (m s < fuel)%nat → P s → ∃ r, loop step fuel s = Some r ∧ Q r.
Proof.
  intros Hstep. induction fuel as [|fuel IH]; intros s Hm HP; [lia|]; simpl.
  specialize (Hstep s HP). destruct (step s) as [[s'|r]|]; [|by eauto|done].
  destruct Hstep. apply IH; [lia|done].
Qed.

(** Without termination: what the result of a loop satisfies. *)
Lemma loop_post {S R} (step : S → option (S + R)) (P : S → Prop) (Q : R → Prop) :
  (∀ s, P s → match step s with
              | Some (inl s') => P s'
              | Some (inr r) => Q r
              | None => True end) →
  ∀ fuel s r, P s → loop step fuel s = Some r → Q r.
Proof.
  intros Hstep. induction fuel as [|fuel IH]; intros s r HP; [done|]; simpl.
  specialize (Hstep s HP). destruct (step s) as [[s'|r']|]; [by apply IH|by intros [= <-]|done].
Qed.

(** The result of a loop does not depend on the fuel. *)
Lemma loop_fuel {S R} (step : S → option (S + R)) n m s r :
  loop step n s = Some r → (n ≤ m)%nat → loop step m s = Some r.
Proof.
  revert m s. induction n as [|n IH]; intros m s Hl Hm; [done|].
  destruct m as [|m]; [lia|]. simpl in *.
  destruct (step s) as [[s'|r']|]; [|done|done]. apply IH; [done|lia].
Qed.

(** ** Vectors *)
(** [Iterator::position]. *)
Fixpoint position {A} (p : A → bool) (l : list A) : option nat :=
  match l with
  | [] => None
  | a :: l' => if p a then Some O else S <$> position p l'
  end.

(** [Vec::swap_remove] without the removed element: the last element takes
    the place of the removed one. *)
Definition swap_remove {A} (l : list A) (i : nat) : list A :=
  match last l with
  | Some x => take (pred (length l)) (<[i := x]> l)
  | None => []
  end.

(** [Vec::pop]: the last element and the vector without it. *)
Definition vec_pop {A} (l : list A) : option (A * list A) :=
  match last l with
  | Some x => Some (x, take (pred (length l)) l)
  | None => None
  end.

Lemma vec_pop_snoc {A} (l : list A) x : vec_pop (l ++ [x]) = Some (x, l).
Proof.
  unfold vec_pop. rewrite last_snoc, length_app. simpl.
  replace (pred (length l + 1)) with (length l) by lia.
  by rewrite take_app_length.
Qed.
Lemma vec_pop_Some {A} (l l' : list A) x : vec_pop l = Some (x, l') → l = l' ++ [x].
Proof.
  destruct l as [|y l _] using rev_ind; [done|].
  rewrite vec_pop_snoc. by intros [= -> ->].
Qed.
Lemma vec_pop_None {A} (l : list A) : vec_pop l = None → l = [].
Proof. destruct l as [|y l _] using rev_ind; [done|]. by rewrite vec_pop_snoc. Qed.

Lemma filter_nil_iff {A} (P : A → Prop) `{∀ x, Decision (P x)} (l : list A) :
  filter P l = [] ↔ Forall (λ x, ¬ P x) l.
Proof.
  induction l as [|x l IH]; [done|]. rewrite filter_cons, Forall_cons, <- IH.
  destruct (decide (P x)); naive_solver.
Qed.

Lemma position_Some {A} (p : A → bool) l i :
  position p l = Some i → ∃ x, l !! i = Some x ∧ p x = true.
Proof.
  revert i. induction l as [|a l IH]; intros i; simpl; [done|].
  destruct (p a) eqn:Hp.
  - intros [= <-]. eauto.
  - intros (j & Hj & ->)%fmap_Some. simpl. eauto.
Qed.
Lemma position_None {A} (p : A → bool) l x :
  position p l = None → x ∈ l → p x = false.
Proof.
  induction l as [|a l IH]; simpl; [by intros _ ?%not_elem_of_nil|].
  destruct (p a) eqn:Hp; [done|].
  intros ?%fmap_None [->|?]%elem_of_cons; auto.
Qed.

Lemma swap_remove_Permutation {A} (l : list A) i x :
  l !! i = Some x → l ≡ₚ x :: swap_remove l i.
Proof.
  intros Hi. unfold swap_remove.
  destruct l as [|y l _] using rev_ind; [done|].
  rewrite last_snoc, length_app. simpl.
  replace (pred (length l + 1)) with (length l) by lia.
  destruct (decide (i = length l)) as [->|Hne].
  - rewrite list_lookup_middle in Hi by done. injection Hi as ->.
    rewrite insert_app_r_alt, Nat.sub_diag by lia. simpl.
    rewrite take_app_length. by rewrite Permutation_app_comm.
  - apply lookup_lt_Some in Hi as Hlt. rewrite length_app in Hlt. simpl in Hlt.
    rewrite lookup_app_l in Hi by lia.
    rewrite insert_app_l by lia.
    rewrite take_app_length' by (by rewrite length_insert).
    rewrite insert_take_drop by lia.
    rewrite <- (take_drop_middle l i x Hi) at 1.
    rewrite <- app_assoc. simpl. solve_Permutation.
Qed.

Lemma swap_remove_length {A} (l : list A) i :
  (i < length l)%nat → length (swap_remove l i) = pred (length l).
Proof.
  intros [x Hx]%lookup_lt_is_Some. apply swap_remove_Permutation in Hx.
  apply Permutation_length in Hx. simpl in Hx. lia.
Qed.
Lemma swap_remove_subset {A} (l : list A) i x :
  (i < length l)%nat → x ∈ swap_remove l i → x ∈ l.
Proof.
  intros [y Hy]%lookup_lt_is_Some Hx. rewrite (swap_remove_Permutation _ _ _ Hy).
  by apply list_elem_of_further.
Qed.
