(* ===== verification/Containers.v ===== *)
(** * Containers of the Rust standard library

    The parts of [std::collections] the components share: ordered sets
    ([BTreeSet], as the ascending list of its elements), the iteration order
    of the hash containers (an interface: any order that lists each element
    once), and sums over finite maps, the measure of most loops. *)
From stdpp Require Import base list gmap strings sorting.
From Stdlib Require Import ZArith Lia.
From S2P Require Import Prelude.

(** ** Hash iteration order

    [HashSet] and [HashMap] list their elements in an unspecified order.
    The development is parametric in it: an instance gives the order, the
    law is all the theorems use. *)
Class HashOrder (K : Type) `{Countable K} := {
  iter_set : gset K → list K;
  iter_set_perm X : iter_set X ≡ₚ elements X
}.

(** The order of stdpp's own enumeration, for evaluation. *)
Definition elements_order (K : Type) `{Countable K} : HashOrder K :=
  {| iter_set X := elements X; iter_set_perm X := reflexivity _ |}.

(** [HashMap::values] / [HashMap::iter]. *)
Definition iter_map {K A} `{HashOrder K} (m : gmap K A) : list (K * A) :=
  omap (λ k, pair k <$> m !! k) (iter_set (dom m)).
Definition map_values {K A} `{HashOrder K} (m : gmap K A) : list A :=
  (iter_map m).*2.

Section hash_order.
Context {K : Type} `{HashOrder K}.
Implicit Types X : gset K.

Lemma elem_of_iter_set X k : k ∈ iter_set X ↔ k ∈ X.
Proof. by rewrite iter_set_perm, elem_of_elements. Qed.
Lemma NoDup_iter_set X : NoDup (iter_set X).
Proof. rewrite iter_set_perm. apply NoDup_elements. Qed.

Lemma elem_of_iter_map {A} (m : gmap K A) k a :
  (k, a) ∈ iter_map m ↔ m !! k = Some a.
Proof.
  unfold iter_map. rewrite list_elem_of_omap. split.
  - intros (k' & _ & (a' & ? & [= -> ->])%fmap_Some). done.
  - intros Hk. exists k. rewrite elem_of_iter_set, Hk, elem_of_dom.
    split; [by eexists|done].
Qed.
Lemma iter_map_keys {A} (m : gmap K A) : (iter_map m).*1 = iter_set (dom m).
Proof.
  unfold iter_map. assert (Hdom : ∀ k, k ∈ iter_set (dom m) → is_Some (m !! k)).
  { intros k. by rewrite elem_of_iter_set, elem_of_dom. }
  induction (iter_set (dom m)) as [|k l IH]; simpl; [done|].
  destruct (Hdom k) as [a ->]; [auto with anvil|]. simpl. f_equal.
  apply IH. intros k' ?. by apply Hdom, list_elem_of_further.
Qed.
Lemma NoDup_iter_map_keys {A} (m : gmap K A) : NoDup (iter_map m).*1.
Proof. rewrite iter_map_keys. apply NoDup_iter_set. Qed.
Lemma elem_of_map_values {A} (m : gmap K A) a :
  a ∈ map_values m ↔ ∃ k, m !! k = Some a.
Proof.
  unfold map_values. rewrite list_elem_of_fmap. split.
  - intros ([k b] & -> & ?%elem_of_iter_map). by exists k.
  - intros [k ?]. exists (k, a). by rewrite elem_of_iter_map.
Qed.
End hash_order.

(** ** Sums over maps *)
Definition map_sum {K A} `{Countable K} (f : A → nat) (m : gmap K A) : nat :=
  sum_list_with (f ∘ snd) (map_to_list m).

Section map_sum.
Context {K A : Type} `{Countable K}.
Implicit Types (m : gmap K A) (f : A → nat).

#[local] Instance sum_list_with_perm {B} (g : B → nat) :
  Proper ((≡ₚ) ==> (=)) (sum_list_with g).
Proof. intros l1 l2 Hl. induction Hl; simpl; lia. Qed.

Lemma map_sum_delete f m k a :
  m !! k = Some a → map_sum f m = (f a + map_sum f (delete k m))%nat.
Proof.
  intros Hk. unfold map_sum. by rewrite <- (map_to_list_delete m k a Hk).
Qed.
Lemma map_sum_insert_None f m k a :
  m !! k = None → map_sum f (<[k := a]> m) = (f a + map_sum f m)%nat.
Proof. intros Hk. unfold map_sum. by rewrite (map_to_list_insert m k a Hk). Qed.
Lemma map_sum_insert f m k a b :
  m !! k = Some a →
  (map_sum f (<[k := b]> m) + f a = map_sum f m + f b)%nat.
Proof.
  intros Hk. rewrite <- insert_delete_eq.
  rewrite map_sum_insert_None by apply lookup_delete_eq.
  rewrite (map_sum_delete f m k a Hk). lia.
Qed.
Lemma map_sum_fmap {B} (g : B → A) f (m : gmap K B) :
  map_sum f (g <$> m) = map_sum (f ∘ g) m.
Proof.
  unfold map_sum. rewrite (map_to_list_fmap g m).
  induction (map_to_list m) as [|[k b] l IH]; [done|]. csimpl in *. by rewrite IH.
Qed.
Lemma map_sum_lookup_le f m k a : m !! k = Some a → (f a ≤ map_sum f m)%nat.
Proof. intros Hk. rewrite (map_sum_delete f m k a Hk). lia. Qed.
End map_sum.

(** ** Ordered sets

    [BTreeSet] only looks at elements through their [Ord] instance: an
    element that compares [Equal] to a stored one is the stored one.  The
    set is the ascending list of its elements. *)
Class CmpOrder {A} (cmp : A → A → comparison) : Prop := {
  cmp_antisym x y : cmp y x = CompOpp (cmp x y);
  cmp_trans x y z : cmp x y = Lt → cmp y z = Lt → cmp x z = Lt;
  cmp_Eq x y z : cmp x y = Eq → cmp x z = cmp y z
}.

Section btree_set.
Context {A : Type} (cmp : A → A → comparison).

(** [BTreeSet::insert]: an element equal to a stored one is not stored. *)
Fixpoint bt_insert (x : A) (l : list A) : list A :=
  match l with
  | [] => [x]
  | y :: l' => match cmp x y with
               | Lt => x :: l
               | Eq => l
               | Gt => y :: bt_insert x l'
               end
  end.
(** [BTreeSet::remove]. *)
Fixpoint bt_remove (x : A) (l : list A) : list A :=
  match l with
  | [] => []
  | y :: l' => match cmp x y with
               | Lt => l
               | Eq => l'
               | Gt => y :: bt_remove x l'
               end
  end.
(** [BTreeSet::take]: the stored element and the set without it. *)
Fixpoint bt_take (x : A) (l : list A) : option A :=
  match l with
  | [] => None
  | y :: l' => match cmp x y with
               | Lt => None
               | Eq => Some y
               | Gt => bt_take x l'
               end
  end.

Definition bt_sorted : list A → Prop := StronglySorted (λ x y, cmp x y = Lt).

Lemma bt_insert_elem x y l : y ∈ bt_insert x l → y = x ∨ y ∈ l.
Proof.
  induction l as [|z l IH]; simpl.
  - intros ?%list_elem_of_singleton. auto.
  - destruct (cmp x z); rewrite ?elem_of_cons; naive_solver.
Qed.
Lemma bt_insert_old x y l : y ∈ l → y ∈ bt_insert x l.
Proof.
  induction l as [|z l IH]; simpl; [by intros ?%not_elem_of_nil|].
  destruct (cmp x z); rewrite ?elem_of_cons; naive_solver.
Qed.
Lemma bt_insert_new x l :
  x ∈ bt_insert x l ∨ ∃ y, y ∈ l ∧ cmp x y = Eq.
Proof.
  induction l as [|z l IH]; simpl; [left; by apply list_elem_of_singleton|].
  destruct (cmp x z) eqn:?; rewrite ?elem_of_cons;
    setoid_rewrite elem_of_cons; naive_solver.
Qed.
Lemma bt_remove_elem x y l : y ∈ bt_remove x l → y ∈ l.
Proof.
  induction l as [|z l IH]; simpl; [done|].
  destruct (cmp x z); rewrite ?elem_of_cons; naive_solver.
Qed.
Lemma bt_take_Some x y l : bt_take x l = Some y → y ∈ l ∧ cmp x y = Eq.
Proof.
  induction l as [|z l IH]; simpl; [done|].
  destruct (cmp x z) eqn:?; rewrite elem_of_cons; naive_solver.
Qed.
Lemma bt_remove_length x y l :
  bt_take x l = Some y → length l = S (length (bt_remove x l)).
Proof.
  induction l as [|z l IH]; simpl; [done|].
  destruct (cmp x z); simpl; naive_solver.
Qed.

Context `{!CmpOrder cmp}.

Lemma cmp_refl x : cmp x x = Eq.
Proof. pose proof (cmp_antisym x x) as Hx. by destruct (cmp x x). Qed.
Lemma cmp_Gt x y : cmp x y = Gt → cmp y x = Lt.
Proof. intros Hx. by rewrite cmp_antisym, Hx. Qed.

Lemma bt_insert_sorted x l : bt_sorted l → bt_sorted (bt_insert x l).
Proof.
  induction 1 as [|y l Hl IH Hy]; simpl; [repeat constructor|].
  destruct (cmp x y) eqn:Hxy; [by constructor| |].
  - constructor; [by constructor|]. constructor; [done|].
    eapply Forall_impl; [exact Hy|]. intros z ?. by eapply cmp_trans.
  - constructor; [done|]. apply Forall_forall. intros z [->|Hz]%bt_insert_elem.
    + by apply cmp_Gt.
    + rewrite Forall_forall in Hy. by apply Hy.
Qed.
Lemma bt_remove_sorted x l : bt_sorted l → bt_sorted (bt_remove x l).
Proof.
  induction 1 as [|y l Hl IH Hy]; simpl; [constructor|].
  destruct (cmp x y); [done|by constructor|].
  constructor; [done|]. rewrite Forall_forall in *. intros z Hz%bt_remove_elem.
  auto.
Qed.
Lemma bt_remove_spec x y l :
  bt_sorted l → y ∈ bt_remove x l ↔ y ∈ l ∧ cmp x y ≠ Eq.
Proof.
  induction 1 as [|z l Hl IH Hz]; simpl.
  { split; [by intros ?%not_elem_of_nil|by intros [?%not_elem_of_nil _]]. }
  rewrite Forall_forall in Hz.
  destruct (cmp x z) eqn:Hxz; rewrite ?elem_of_cons.
  - split.
    + intros Hy. split; [by auto|]. rewrite (cmp_Eq _ _ _ Hxz), (Hz y Hy). done.
    + intros [[->|?] ?]; [done|done].
  - split; [|tauto]. intros Hy. split; [done|].
    destruct Hy as [->|Hy]; [by rewrite Hxz|].
    by rewrite (cmp_trans _ _ _ Hxz (Hz y Hy)).
  - rewrite IH. split; [|naive_solver]. intros [->|[??]]; [|by auto].
    split; [by auto|]. by rewrite Hxz.
Qed.
Lemma bt_take_last x l :
  bt_sorted l → last l = Some x → bt_take x l = Some x.
Proof.
  induction 1 as [|y l Hl IH Hy]; simpl; [done|].
  destruct l as [|z l]; [intros [= ->]; by rewrite cmp_refl|].
  intros Hx. rewrite (cmp_antisym y x).
  rewrite Forall_forall in Hy. rewrite (Hy x); [by apply IH|].
  by apply last_Some_elem_of.
Qed.
(** [next_back] is the greatest element. *)
Lemma bt_last_max x y l :
  bt_sorted l → last l = Some x → y ∈ l → y = x ∨ cmp y x = Lt.
Proof.
  induction 1 as [|z l Hl IH Hz]; [done|].
  destruct l as [|w l].
  - intros [= ->] ->%list_elem_of_singleton. auto.
  - intros Hx [->|Hy]%elem_of_cons; [|by apply IH].
    right. rewrite Forall_forall in Hz. apply Hz.
    by apply last_Some_elem_of.
Qed.
End btree_set.
