(* ===== verification/PoolTx.v ===== *)
(** * The queues of the transaction pool

    Models [crates/anvil/src/eth/pool/transactions.rs]: markers and
    priorities, [PendingTransactions] (transactions that wait for markers),
    [ReadyTransactions] (transactions that can be mined) and the iterator
    that orders ready transactions.  An [Arc<PoolTransaction>] is never
    written through, so it is the transaction itself; a [HashMap] is a
    [gmap], a [HashSet] a [gset] listed in an unspecified order
    ([HashOrder]), a [BTreeSet] its ascending list. *)
From stdpp Require Import base list gmap strings sorting.
From Stdlib Require Import ZArith Lia Ascii.
From S2P Require Import Prelude Containers.

(** A 32 byte hash and a 20 byte address are numbers; a marker is bytes. *)
Abbreviation TxHash := Z.
Abbreviation Address := Z.
Abbreviation TxMarker := (list Z).

Definition to_marker (nonce : Z) (from : Address) : TxMarker :=
  le_bytes 8 nonce ++ be_bytes 20 from.

(** The consensus transaction types are not part of this repository: the
    pool only asks an envelope for its fee cap and its type. *)
Class TxEnvelope (Tx : Type) := {
  tx_max_fee_per_gas : Tx → Z;
  tx_ty : Tx → Z
}.

Inductive TransactionOrder := Fifo | Fees.
#[export] Instance TransactionOrder_eq_dec : EqDecision TransactionOrder.
Proof. solve_decision. Defined.

(** [str::to_lowercase] on ASCII. *)
Definition ascii_lower (c : ascii) : ascii :=
  let n := nat_of_ascii c in
  if ((65 <=? n) && (n <=? 90))%nat then ascii_of_nat (n + 32) else c.
Fixpoint to_lowercase (s : string) : string :=
  match s with
  | EmptyString => EmptyString
  | String c s => String (ascii_lower c) (to_lowercase s)
  end.

Definition TransactionOrder_from_str (s : string) : result string TransactionOrder :=
  let s := to_lowercase s in
  if String.eqb s "fees" then Ok Fees
  else if String.eqb s "fifo" then Ok Fifo
  else Err ("Unknown TransactionOrder: `" +:+ s +:+ "`")%string.

(** A pending transaction of the node: envelope, recovered sender, hash. *)
Record PendingTransaction (Tx : Type) := mkPendingTransaction {
  transaction : Tx;
  sender : Address;
  pt_hash : TxHash
}.
Arguments mkPendingTransaction {Tx}.
Arguments transaction {Tx}.
Arguments sender {Tx}.
Arguments pt_hash {Tx}.

Record PoolTransaction (Tx : Type) := mkPoolTransaction {
  pending_transaction : PendingTransaction Tx;
  requires : list TxMarker;
  provides : list TxMarker;
  tx_priority : Z
}.
Arguments mkPoolTransaction {Tx}.
Arguments pending_transaction {Tx}.
Arguments requires {Tx}.
Arguments provides {Tx}.
Arguments tx_priority {Tx}.

Record PendingPoolTransaction (Tx : Type) := mkPendingPoolTransaction {
  pp_transaction : PoolTransaction Tx;
  missing_markers : gset TxMarker;
  added_at : Z
}.
Arguments mkPendingPoolTransaction {Tx}.
Arguments pp_transaction {Tx}.
Arguments missing_markers {Tx}.
Arguments added_at {Tx}.

Record PendingTransactions (Tx : Type) := mkPendingTransactions {
  required_markers : gmap TxMarker (gset TxHash);
  waiting_markers : gmap (list TxMarker) TxHash;
  waiting_queue : gmap TxHash (PendingPoolTransaction Tx)
}.
Arguments mkPendingTransactions {Tx}.
Arguments required_markers {Tx}.
Arguments waiting_markers {Tx}.
Arguments waiting_queue {Tx}.

Record PoolTransactionRef (Tx : Type) := mkPoolTransactionRef {
  ref_transaction : PoolTransaction Tx;
  ref_id : Z
}.
Arguments mkPoolTransactionRef {Tx}.
Arguments ref_transaction {Tx}.
Arguments ref_id {Tx}.

Record ReadyTransaction (Tx : Type) := mkReadyTransaction {
  rt_transaction : PoolTransactionRef Tx;
  unlocks : list TxHash;
  requires_offset : Z
}.
Arguments mkReadyTransaction {Tx}.
Arguments rt_transaction {Tx}.
Arguments unlocks {Tx}.
Arguments requires_offset {Tx}.

Record ReadyTransactions (Tx : Type) := mkReadyTransactions {
  rts_id : Z;
  provided_markers : gmap TxMarker TxHash;
  ready_tx : gmap TxHash (ReadyTransaction Tx);
  independent_transactions : list (PoolTransactionRef Tx)
}.
Arguments mkReadyTransactions {Tx}.
Arguments rts_id {Tx}.
Arguments provided_markers {Tx}.
Arguments ready_tx {Tx}.
Arguments independent_transactions {Tx}.

(** The errors of the pool ([PoolError] of [eth/error.rs]). *)
Inductive PoolError (Tx : Type) :=
| CyclicTransaction
| ReplacementUnderpriced (tx : PoolTransaction Tx)
| AlreadyImported (tx : PoolTransaction Tx).
Arguments CyclicTransaction {Tx}.
Arguments ReplacementUnderpriced {Tx} tx.
Arguments AlreadyImported {Tx} tx.

Section pool_transaction.
Context {Tx : Type} `{TxEnvelope Tx}.

Definition priority (o : TransactionOrder) (tx : Tx) : Z :=
  match o with Fifo => 0 | Fees => tx_max_fee_per_gas tx end.

Definition new_pool_transaction (t : PendingTransaction Tx) : PoolTransaction Tx :=
  mkPoolTransaction t [] [] 0.
Definition hash (tx : PoolTransaction Tx) : TxHash := pt_hash (pending_transaction tx).
Definition max_fee_per_gas (tx : PoolTransaction Tx) : Z :=
  tx_max_fee_per_gas (transaction (pending_transaction tx)).
Definition tx_type (tx : PoolTransaction Tx) : Z :=
  tx_ty (transaction (pending_transaction tx)).

(** ** [PendingPoolTransaction] *)
Definition new_pending (tx : PoolTransaction Tx) (provided : gmap TxMarker TxHash)
    (now : Z) : PendingPoolTransaction Tx :=
  mkPendingPoolTransaction tx
    (list_to_set (filter (λ marker, provided !! marker = None) (requires tx))) now.
Definition mark (marker : TxMarker) (tx : PendingPoolTransaction Tx)
    : PendingPoolTransaction Tx :=
  mkPendingPoolTransaction (pp_transaction tx) (missing_markers tx ∖ {[marker]})
    (added_at tx).
Definition is_ready (tx : PendingPoolTransaction Tx) : bool :=
  bool_decide (missing_markers tx = ∅).
Definition pp_hash (tx : PendingPoolTransaction Tx) : TxHash := hash (pp_transaction tx).

(** ** [PoolTransactionRef] and [ReadyTransaction] *)
Definition ref_hash (r : PoolTransactionRef Tx) : TxHash := hash (ref_transaction r).
(** [Ord for PoolTransactionRef]: by priority, then the older one is greater. *)
Definition ref_cmp (a b : PoolTransactionRef Tx) : comparison :=
  match tx_priority (ref_transaction a) ?= tx_priority (ref_transaction b) with
  | Eq => ref_id b ?= ref_id a
  | c => c
  end.
Definition rt_pool_tx (r : ReadyTransaction Tx) : PoolTransaction Tx :=
  ref_transaction (rt_transaction r).
Definition rt_provides (r : ReadyTransaction Tx) : list TxMarker := provides (rt_pool_tx r).
Definition rt_max_fee_per_gas (r : ReadyTransaction Tx) : Z :=
  max_fee_per_gas (rt_pool_tx r).
End pool_transaction.
