(* ===== verification/PendingQueue.v ===== *)
(** * Transactions waiting for markers

    [PendingTransactions] of [eth/pool/transactions.rs]: the three indices
    of the waiting pool and every operation on them, the invariant that ties
    [required_markers] to [waiting_queue] (so that the two [expect] calls of
    [mark_and_unlock] cannot fire), and the functional specification of
    [mark_and_unlock]. *)
From stdpp Require Import base list gmap strings sorting.
From Stdlib Require Import ZArith Lia.
From S2P Require Import Prelude Containers PoolTx.

Section pending_queue.
Context {Tx : Type} `{TxEnvelope Tx}.
Context `{!HashOrder TxHash} `{!HashOrder TxMarker}.
Implicit Types (s : PendingTransactions Tx) (tx : PendingPoolTransaction Tx).

Definition pending_default : PendingTransactions Tx := mkPendingTransactions ∅ ∅ ∅.
Definition pending_len s : nat := size (waiting_queue s).
Definition pending_is_empty s : bool := bool_decide (waiting_queue s = ∅).
Definition pending_clear s : PendingTransactions Tx := mkPendingTransactions ∅ ∅ ∅.
Definition pending_txs s : list (PoolTransaction Tx) :=
  pp_transaction <$> map_values (waiting_queue s).
Definition pending_contains s (h : TxHash) : bool :=
  bool_decide (is_Some (waiting_queue s !! h)).
Definition pending_get s (h : TxHash) : option (PendingPoolTransaction Tx) :=
  waiting_queue s !! h.

(** [required_markers.entry(marker).or_default().insert(hash)] for the
    missing markers of a transaction. *)
Definition add_required (h : TxHash) (rm : gmap TxMarker (gset TxHash))
    (marker : TxMarker) : gmap TxMarker (gset TxHash) :=
  <[marker := {[h]} ∪ default ∅ (rm !! marker)]> rm.

(** [PendingTransactions::add_transaction]; the two [assert!]s panic. *)
Definition pending_add_transaction s tx
    : option (PendingTransactions Tx * result (PoolError Tx) unit) :=
  if is_ready tx then None
  else if pending_contains s (pp_hash tx) then None
  else
    let underpriced :=
      match waiting_markers s !! provides (pp_transaction tx) ≫= pending_get s with
      | Some replace =>
          max_fee_per_gas (pp_transaction tx) <? max_fee_per_gas (pp_transaction replace)
      | None => false
      end in
    if underpriced then Some (s, Err (ReplacementUnderpriced (pp_transaction tx)))
    else
      Some (mkPendingTransactions
              (foldl (add_required (pp_hash tx)) (required_markers s)
                 (iter_set (missing_markers tx)))
              (<[provides (pp_transaction tx) := pp_hash tx]> (waiting_markers s))
              (<[pp_hash tx := tx]> (waiting_queue s)), Ok tt).

(** The body of the inner loop of [mark_and_unlock]. *)
Definition unlock_hash (m : TxMarker)
    (st : PendingTransactions Tx * list (PendingPoolTransaction Tx)) (h : TxHash)
    : option (PendingTransactions Tx * list (PendingPoolTransaction Tx)) :=
  let '(s, unlocked_ready) := st in
  tx ← waiting_queue s !! h;
  let tx := mark m tx in
  if is_ready tx then
    Some (mkPendingTransactions (required_markers s)
            (delete (provides (pp_transaction tx)) (waiting_markers s))
            (delete h (waiting_queue s)), unlocked_ready ++ [tx])
  else
    Some (mkPendingTransactions (required_markers s) (waiting_markers s)
            (<[h := tx]> (waiting_queue s)), unlocked_ready).

Definition unlock_mark
    (st : PendingTransactions Tx * list (PendingPoolTransaction Tx)) (m : TxMarker)
    : option (PendingTransactions Tx * list (PendingPoolTransaction Tx)) :=
  let '(s, unlocked_ready) := st in
  match required_markers s !! m with
  | None => Some (s, unlocked_ready)
  | Some tx_hashes =>
      fold_m (unlock_hash m)
        (mkPendingTransactions (delete m (required_markers s)) (waiting_markers s)
           (waiting_queue s), unlocked_ready)
        (iter_set tx_hashes)
  end.

Definition mark_and_unlock s (markers : list TxMarker)
    : option (PendingTransactions Tx * list (PendingPoolTransaction Tx)) :=
  fold_m unlock_mark (s, []) markers.

(** [PendingTransactions::remove]. *)
Definition drop_required (h : TxHash) (rm : gmap TxMarker (gset TxHash))
    (marker : TxMarker) : gmap TxMarker (gset TxHash) :=
  match rm !! marker with
  | Some required =>
      let required := required ∖ {[h]} in
      if decide (required = ∅) then delete marker rm else <[marker := required]> rm
  | None => rm
  end.

Definition pending_remove_hash (st : PendingTransactions Tx * list (PoolTransaction Tx))
    (h : TxHash) : PendingTransactions Tx * list (PoolTransaction Tx) :=
  let '(s, removed) := st in
  match waiting_queue s !! h with
  | None => (s, removed)
  | Some waiting_tx =>
      (mkPendingTransactions
         (foldl (drop_required h) (required_markers s)
            (iter_set (missing_markers waiting_tx)))
         (delete (provides (pp_transaction waiting_tx)) (waiting_markers s))
         (delete h (waiting_queue s)),
       removed ++ [pp_transaction waiting_tx])
  end.

Definition pending_remove s (hashes : list TxHash)
    : PendingTransactions Tx * list (PoolTransaction Tx) :=
  foldl pending_remove_hash (s, []) hashes.

(** ** Invariant *)
Definition required s (m : TxMarker) : gset TxHash := default ∅ (required_markers s !! m).

Record pending_wf s : Prop := {
  pw_hash h tx : waiting_queue s !! h = Some tx → pp_hash tx = h;
  pw_missing h tx : waiting_queue s !! h = Some tx → missing_markers tx ≠ ∅;
  pw_required m h :
    h ∈ required s m ↔
    ∃ tx, waiting_queue s !! h = Some tx ∧ m ∈ missing_markers tx
}.

(** ** What marking means: markers [M] are provided from now on *)
Definition check_off (M : gset TxMarker) tx : PendingPoolTransaction Tx :=
  mkPendingPoolTransaction (pp_transaction tx) (missing_markers tx ∖ M) (added_at tx).
Definition stays (M : gset TxMarker) tx : option (PendingPoolTransaction Tx) :=
  if decide (missing_markers tx ⊆ M) then None else Some (check_off M tx).
Definition leaves (M : gset TxMarker) tx : option (PendingPoolTransaction Tx) :=
  if decide (missing_markers tx ⊆ M) then Some (check_off M tx) else None.

Lemma is_ready_spec tx : is_ready tx = true ↔ missing_markers tx = ∅.
Proof. apply bool_decide_eq_true. Qed.
Lemma pending_contains_spec s h : pending_contains s h = true ↔ is_Some (waiting_queue s !! h).
Proof. apply bool_decide_eq_true. Qed.

Lemma pending_default_wf : pending_wf pending_default.
Proof. split; unfold required; simpl; [done..|]. intros m h.
  rewrite lookup_empty. simpl. set_solver. Qed.

Lemma lookup_add_required h l rm m :
  default ∅ (foldl (add_required h) rm l !! m) =
  (if decide (m ∈ l) then {[h]} else ∅) ∪ default ∅ (rm !! m).
Proof.
  revert rm. induction l as [|m' l IH]; intros rm; simpl.
  { set_solver. }
  rewrite IH. unfold add_required. destruct (decide (m = m')) as [->|Hm].
  - rewrite lookup_insert_eq. simpl. repeat case_decide; set_solver.
  - rewrite lookup_insert_ne by done. repeat case_decide; set_solver.
Qed.

Lemma lookup_drop_required h l rm m :
  default ∅ (foldl (drop_required h) rm l !! m) =
  default ∅ (rm !! m) ∖ (if decide (m ∈ l) then {[h]} else ∅).
Proof.
  revert rm. induction l as [|m' l IH]; intros rm; simpl.
  { set_solver. }
  rewrite IH. unfold drop_required.
  assert (Hone : ∀ X : gset TxHash, rm !! m' = Some X →
    default ∅ ((if decide (X ∖ {[h]} = ∅) then delete m' rm
                else <[m' := X ∖ {[h]}]> rm) !! m) =
    if decide (m = m') then X ∖ {[h]} else default ∅ (rm !! m)).
  { intros X HX. destruct (decide (X ∖ {[h]} = ∅)) as [HX0|HX0];
      destruct (decide (m = m')) as [->|]; simplify_map_eq; rewrite ?HX0; done. }
  destruct (rm !! m') as [X|] eqn:HX.
  - rewrite Hone by done. destruct (decide (m = m')) as [->|].
    + rewrite HX. simpl. repeat case_decide; set_solver.
    + repeat case_decide; set_solver.
  - destruct (decide (m = m')) as [->|].
    + rewrite HX. simpl. set_solver.
    + repeat case_decide; set_solver.
Qed.

(** ** Adding and removing *)
Lemma pending_add_spec s tx :
  pending_wf s → missing_markers tx ≠ ∅ → waiting_queue s !! pp_hash tx = None →
  ∃ s' r, pending_add_transaction s tx = Some (s', r) ∧ pending_wf s' ∧
    match r with
    | Ok _ => waiting_queue s' = <[pp_hash tx := tx]> (waiting_queue s)
    | Err e => s' = s ∧ e = ReplacementUnderpriced (pp_transaction tx)
    end.
Proof.
  intros Hwf Hm Hh. unfold pending_add_transaction.
  destruct (is_ready tx) eqn:Hr; [by apply is_ready_spec in Hr|].
  destruct (pending_contains s (pp_hash tx)) eqn:Hc.
  { apply pending_contains_spec in Hc as [??]. congruence. }
  case_match; [by eauto 10|].
  eexists _, _. split; [reflexivity|]. split; [|done].
  destruct Hwf as [Hw1 Hw2 Hw3]. split; simpl.
  - intros h tx' [[<- <-]|[? ?]]%lookup_insert_Some; [done|by apply Hw1].
  - intros h tx' [[<- <-]|[? ?]]%lookup_insert_Some; [done|by eapply Hw2].
  - intros m h. specialize (Hw3 m h). unfold required in *. simpl.
    rewrite lookup_add_required, lookup_insert.
    rewrite (decide_ext _ _ _ _ (elem_of_iter_set (missing_markers tx) m)).
    destruct (decide (pp_hash tx = h)) as [<-|Hne].
    + split.
      * intros Hin. exists tx. split; [done|]. destruct (decide (m ∈ missing_markers tx)); [done|].
        assert (pp_hash tx ∈ default ∅ (required_markers s !! m)) as Hx%Hw3 by set_solver.
        destruct Hx as (? & ? & ?). congruence.
      * intros (tx' & [= <-] & ?). rewrite decide_True by done. set_solver.
    + rewrite <- Hw3. case_decide; set_solver.
Qed.

Lemma pending_remove_hash_wf s removed h s' removed' :
  pending_wf s → pending_remove_hash (s, removed) h = (s', removed') →
  pending_wf s' ∧ waiting_queue s' = delete h (waiting_queue s) ∧
  removed' = removed ++ option_list (pp_transaction <$> waiting_queue s !! h).
Proof.
  intros Hwf. unfold pending_remove_hash.
  destruct (waiting_queue s !! h) as [tx|] eqn:Hh; simpl; intros [= <- <-].
  2: { rewrite delete_id, app_nil_r; done. }
  split; [|done]. destruct Hwf as [Hw1 Hw2 Hw3]. split; simpl.
  - intros h' tx' [??]%lookup_delete_Some. by apply Hw1.
  - intros h' tx' [??]%lookup_delete_Some. by eapply Hw2.
  - intros m h'. specialize (Hw3 m h'). unfold required in *. simpl.
    rewrite lookup_drop_required.
    rewrite (decide_ext _ _ _ _ (elem_of_iter_set (missing_markers tx) m)).
    rewrite elem_of_difference, Hw3. setoid_rewrite lookup_delete_Some.
    destruct (decide (h = h')) as [<-|Hne].
    + split; [|naive_solver]. intros [(tx' & ? & ?) Hn]. simplify_eq.
      rewrite decide_True in Hn by done. set_solver.
    + assert (h' ∉ (if decide (m ∈ missing_markers tx) then {[h]} else (∅ : gset TxHash))).
      { case_decide; set_solver. }
      naive_solver.
Qed.

(** ** Unlocking *)
Lemma difference_subset_union (X M1 M2 : gset TxMarker) : X ∖ M1 ⊆ M2 ↔ X ⊆ M1 ∪ M2.
Proof.
  split; [|set_solver]. intros Hs m ?. destruct (decide (m ∈ M1)); set_solver.
Qed.
Lemma stays_compose M1 M2 tx :
  stays M1 tx ≫= stays M2 = stays (M1 ∪ M2) tx.
Proof.
  unfold stays. destruct (decide (missing_markers tx ⊆ M1)) as [H1|H1]; simpl.
  { rewrite decide_True by set_solver. done. }
  rewrite (decide_ext _ _ _ _ (difference_subset_union (missing_markers tx) M1 M2)).
  case_decide; [done|].
  f_equal. unfold check_off. simpl. f_equal. set_solver.
Qed.
Lemma leaves_compose M1 M2 tx t :
  leaves (M1 ∪ M2) tx = Some t ↔
  leaves M1 tx = Some t ∨ stays M1 tx ≫= leaves M2 = Some t.
Proof.
  unfold stays, leaves. destruct (decide (missing_markers tx ⊆ M1)) as [H1|H1]; simpl.
  - rewrite decide_True by set_solver.
    assert (check_off (M1 ∪ M2) tx = check_off M1 tx) as ->; [|naive_solver].
    unfold check_off. f_equal. set_solver.
  - rewrite (decide_ext _ _ _ _ (difference_subset_union (missing_markers tx) M1 M2)).
    assert (check_off M2 (check_off M1 tx) = check_off (M1 ∪ M2) tx) as ->; [|naive_solver].
    unfold check_off. simpl. f_equal. set_solver.
Qed.
Lemma stays_empty tx : missing_markers tx ≠ ∅ → stays ∅ tx = Some tx.
Proof.
  intros Hm. unfold stays. rewrite decide_False by set_solver.
  f_equal. destruct tx. unfold check_off. simpl. f_equal. set_solver.
Qed.
Lemma mark_check_off m tx : mark m tx = check_off {[m]} tx.
Proof. done. Qed.
Lemma stays_hash M tx t : stays M tx = Some t → pp_hash t = pp_hash tx.
Proof. unfold stays. case_decide; [done|]. by intros [= <-]. Qed.
Lemma leaves_hash M tx t : leaves M tx = Some t → pp_hash t = pp_hash tx.
Proof. unfold leaves. case_decide; [|done]. by intros [= <-]. Qed.
Lemma stays_notin m tx :
  missing_markers tx ≠ ∅ → m ∉ missing_markers tx → stays {[m]} tx = Some tx.
Proof.
  intros Hne Hm. unfold stays. rewrite decide_False by set_solver.
  f_equal. destruct tx. unfold check_off. simpl in *. f_equal. set_solver.
Qed.
Lemma leaves_notin m tx :
  missing_markers tx ≠ ∅ → m ∉ missing_markers tx → leaves {[m]} tx = None.
Proof. intros Hne Hm. unfold leaves. rewrite decide_False by set_solver. done. Qed.
(** [unlocked s0 M new]: the transactions in [new] are those of [s0] whose
    missing markers are all in [M], each listed once. *)
Definition unlocked (wq : gmap TxHash (PendingPoolTransaction Tx)) (M : gset TxMarker)
    (new : list (PendingPoolTransaction Tx)) : Prop :=
  NoDup (pp_hash <$> new) ∧
  ∀ t, t ∈ new ↔ ∃ h tx, wq !! h = Some tx ∧ leaves M tx = Some t.

(** The inner loop: [l] are the hashes still to be marked. *)
Definition unlock_inv s0 m out0 (l : list TxHash)
    (st : PendingTransactions Tx * list (PendingPoolTransaction Tx)) : Prop :=
  NoDup l ∧ (∀ h, h ∈ l → ∃ tx, waiting_queue s0 !! h = Some tx) ∧
  required_markers st.1 = delete m (required_markers s0) ∧
  (∀ h, waiting_queue st.1 !! h =
    if decide (h ∈ l) then waiting_queue s0 !! h
    else (waiting_queue s0 !! h ≫= stays {[m]})) ∧
  ∃ new, st.2 = out0 ++ new ∧ NoDup (pp_hash <$> new) ∧
    ∀ t, t ∈ new ↔ ∃ h tx, (h ∉ l) ∧ waiting_queue s0 !! h = Some tx ∧ leaves {[m]} tx = Some t.

(** The transactions of [new] after the head of the loop was marked. *)
Lemma unlock_new_leave s0 m h l tx new :
  pending_wf s0 → waiting_queue s0 !! h = Some tx → h ∉ l → missing_markers tx ⊆ {[m]} →
  NoDup (pp_hash <$> new) →
  (∀ t, t ∈ new ↔ ∃ h' tx', (h' ∉ h :: l) ∧ waiting_queue s0 !! h' = Some tx' ∧ leaves {[m]} tx' = Some t) →
  NoDup (pp_hash <$> (new ++ [check_off {[m]} tx])) ∧
  ∀ t, t ∈ new ++ [check_off {[m]} tx] ↔
    ∃ h' tx', (h' ∉ l) ∧ waiting_queue s0 !! h' = Some tx' ∧ leaves {[m]} tx' = Some t.
Proof.
  intros Hwf Htx Hh Hsub Hnd Hnew. split.
  - rewrite fmap_app, NoDup_app. split_and!; [done| |apply NoDup_singleton].
    intros ? (t & -> & (h' & tx' & Hh' & Htx' & Hlv)%Hnew)%list_elem_of_fmap
      Heq%list_elem_of_singleton.
    apply leaves_hash in Hlv. apply Hwf in Htx, Htx'.
    apply Hh'. rewrite <- Htx', <- Hlv, Heq.
    change (pp_hash (check_off {[m]} tx)) with (pp_hash tx). rewrite Htx.
    auto with anvil.
  - intros t. rewrite elem_of_app, list_elem_of_singleton, Hnew. split.
    + intros [(h' & tx' & Hh' & ? & ?)| ->].
      * exists h', tx'. rewrite elem_of_cons in Hh'. tauto.
      * exists h, tx. unfold leaves. by rewrite decide_True.
    + intros (h' & tx' & Hh' & Htx' & Hlv). destruct (decide (h' = h)) as [->|].
      * right. simplify_eq. unfold leaves in Hlv. case_decide; naive_solver.
      * left. exists h', tx'. rewrite elem_of_cons. tauto.
Qed.
Lemma unlock_new_stay s0 m h l tx (new : list (PendingPoolTransaction Tx)) :
  waiting_queue s0 !! h = Some tx → ¬ missing_markers tx ⊆ {[m]} →
  (∀ t, t ∈ new ↔ ∃ h' tx', (h' ∉ h :: l) ∧ waiting_queue s0 !! h' = Some tx' ∧ leaves {[m]} tx' = Some t) →
  ∀ t, t ∈ new ↔ ∃ h' tx', (h' ∉ l) ∧ waiting_queue s0 !! h' = Some tx' ∧ leaves {[m]} tx' = Some t.
Proof.
  intros Htx Hsub Hnew t. rewrite Hnew.
  split; intros (h' & tx' & Hh' & Htx' & Hlv); exists h', tx';
    [rewrite elem_of_cons in Hh'; tauto|].
  split_and!; [|done|done]. intros [->|?]%elem_of_cons; [|done].
  simplify_eq. unfold leaves in Hlv. by rewrite decide_False in Hlv.
Qed.

Lemma unlock_hash_step s0 m out0 h l st :
  pending_wf s0 → unlock_inv s0 m out0 (h :: l) st →
  ∃ st', unlock_hash m st h = Some st' ∧ unlock_inv s0 m out0 l st'.
Proof.
  intros Hwf. destruct st as [s out].
  intros ([Hh Hl]%NoDup_cons & Hin & Hrm & Hwq & new & Hout & Hnd & Hnew); simpl in *.
  destruct (Hin h) as [tx Htx]; [by apply list_elem_of_here|].
  assert (waiting_queue s !! h = Some tx) as Hsh.
  { rewrite Hwq. by rewrite decide_True by apply list_elem_of_here. }
  rewrite Hsh. simpl. rewrite mark_check_off.
  assert (Hother : ∀ h', h' ≠ h → waiting_queue s !! h' =
    if decide (h' ∈ l) then waiting_queue s0 !! h' else (waiting_queue s0 !! h' ≫= stays {[m]})).
  { intros h' Hne. rewrite Hwq. apply decide_ext. rewrite elem_of_cons. tauto. }
  destruct (is_ready (check_off {[m]} tx)) eqn:Hr.
  - apply is_ready_spec in Hr. simpl in Hr.
    assert (missing_markers tx ⊆ {[m]}) as Hsub by by apply empty_difference_subseteq_L.
    eexists (_, _). split; [reflexivity|]. split_and!; simpl; [done|by auto with anvil|done| |].
    + intros h'. rewrite lookup_delete. destruct (decide (h = h')) as [<-|?]; [|by apply Hother].
      rewrite decide_False by done. rewrite Htx. simpl. unfold stays. by rewrite decide_True.
    + exists (new ++ [check_off {[m]} tx]). split; [by rewrite Hout, <- app_assoc|].
      by apply (unlock_new_leave s0 m h).
  - assert (¬ missing_markers tx ⊆ {[m]}) as Hsub.
    { intros Hsub. apply not_true_iff_false in Hr. apply Hr, is_ready_spec. simpl.
      by apply subseteq_empty_difference_L. }
    eexists (_, _). split; [reflexivity|]. split_and!; simpl; [done|by auto with anvil|done| |].
    + intros h'. rewrite lookup_insert. destruct (decide (h = h')) as [<-|?]; [|by apply Hother].
      rewrite decide_False by done. rewrite Htx. simpl. unfold stays. by rewrite decide_False.
    + exists new. split_and!; [done|done|]. by apply (unlock_new_stay s0 m h l tx).
Qed.

Lemma stays_wf s0 s m :
  pending_wf s0 → required_markers s = delete m (required_markers s0) →
  (∀ h, waiting_queue s !! h = (waiting_queue s0 !! h ≫= stays {[m]})) → pending_wf s.
Proof.
  intros [Hw1 Hw2 Hw3] Hrm Hwq.
  assert (Hlk : ∀ h t, waiting_queue s !! h = Some t ↔
    ∃ tx, waiting_queue s0 !! h = Some tx ∧ ¬ missing_markers tx ⊆ {[m]} ∧
      t = check_off {[m]} tx).
  { intros h t. rewrite Hwq, bind_Some. f_equiv. intros tx. f_equiv.
    unfold stays. destruct (decide (missing_markers tx ⊆ {[m]})) as [Hs|Hs].
    - split; [done|]. by intros [Hn _].
    - split; [by intros [= <-]|]. by intros [_ ->]. }
  split.
  - intros h t (tx & Htx & _ & ->)%Hlk. exact (Hw1 _ _ Htx).
  - intros h t (tx & Htx & Hns & ->)%Hlk. simpl. by intros ?%empty_difference_subseteq_L.
  - intros m' h. unfold required. rewrite Hrm, lookup_delete.
    setoid_rewrite Hlk. clear Hlk Hwq Hrm. case_decide as Hm; simpl.
    + subst m'. split; [by intros ?%not_elem_of_empty|].
      intros (t & (tx & _ & _ & ->) & Hin). simpl in Hin.
      rewrite elem_of_difference, elem_of_singleton in Hin. by destruct Hin as [_ []].
    + fold (required s0 m'). rewrite Hw3. clear Hw1 Hw2 Hw3. split.
      * intros (tx & Htx & Hin). exists (check_off {[m]} tx).
        assert (m' ∉ ({[m]} : gset TxMarker)) by (by rewrite elem_of_singleton).
        split; [|simpl; by apply elem_of_difference].
        exists tx. split_and!; [done| |done]. intros Hsub. by apply Hsub in Hin.
      * intros (t & (tx & Htx & _ & ->) & Hin). simpl in Hin.
        apply elem_of_difference in Hin as [Hin _]. by exists tx.
Qed.

Lemma unlock_mark_spec s out m :
  pending_wf s →
  ∃ s' new, unlock_mark (s, out) m = Some (s', out ++ new) ∧ pending_wf s' ∧
    (∀ h, waiting_queue s' !! h = waiting_queue s !! h ≫= stays {[m]}) ∧
    unlocked (waiting_queue s) {[m]} new.
Proof.
  intros Hwf. simpl. pose proof Hwf as [Hw1 Hw2 Hw3].
  assert (Hno : ∀ h tx, h ∉ required s m → waiting_queue s !! h = Some tx →
    m ∉ missing_markers tx).
  { intros h tx Hh Htx Hm. apply Hh, Hw3. eauto. }
  unfold required in Hno. destruct (required_markers s !! m) as [X|] eqn:HX; simpl in Hno.
  - edestruct (fold_m_total (unlock_hash m) (unlock_inv s m out)) as ([s' out'] & Hf & Hinv).
    { intros h l st Hst. by apply unlock_hash_step. }
    2: { destruct Hinv as (_ & _ & Hrm & Hwq & new & Hout & Hnew). simpl in *.
         exists s', new. rewrite <- Hout. split; [exact Hf|].
         assert (∀ h, waiting_queue s' !! h = waiting_queue s !! h ≫= stays {[m]}) as Hwq'.
         { intros h. by rewrite Hwq. }
         split_and!; [by eapply stays_wf|done|split; [apply Hnew|]].
         intros t. rewrite (proj2 Hnew). setoid_rewrite elem_of_nil. naive_solver. }
    split_and!; simpl.
    + apply NoDup_iter_set.
    + intros h Hh%elem_of_iter_set. destruct (Hw3 m h) as [Hr _].
      unfold required in Hr. rewrite HX in Hr. naive_solver.
    + done.
    + intros h. rewrite (decide_ext _ _ _ _ (elem_of_iter_set X h)). case_decide; [done|].
      destruct (waiting_queue s !! h) as [tx|] eqn:Htx; simpl; [|done].
      symmetry. apply stays_notin; eauto.
    + exists []. rewrite app_nil_r. split_and!; [done|constructor|].
      intros t. split; [by intros ?%not_elem_of_nil|].
      intros (h & tx & Hh & Htx & Hlv). rewrite elem_of_iter_set in Hh.
      rewrite leaves_notin in Hlv; [done|by eauto..].
  - assert (∀ h, waiting_queue s !! h = waiting_queue s !! h ≫= stays {[m]}) as Hst.
    { intros h. destruct (waiting_queue s !! h) as [tx|] eqn:Htx; simpl; [|done].
      symmetry. apply stays_notin; [by eauto|]. eapply Hno; [|done]. set_solver. }
    exists s, []. rewrite app_nil_r. split_and!; [done..|]. split; [constructor|].
    intros t. split; [by intros ?%not_elem_of_nil|].
    intros (h & tx & Htx & Hlv). rewrite leaves_notin in Hlv; [done|by eauto|].
    eapply Hno; [|done]. set_solver.
Qed.

(** The loop over the markers: what happened so far is the effect of the
    set of markers already handled. *)
Lemma unlock_marks_spec s0 ms s out seen :
  pending_wf s0 → pending_wf s →
  (∀ h, waiting_queue s !! h = waiting_queue s0 !! h ≫= stays seen) →
  unlocked (waiting_queue s0) seen out →
  ∃ s' out', fold_m unlock_mark (s, out) ms = Some (s', out') ∧ pending_wf s' ∧
    (∀ h, waiting_queue s' !! h = waiting_queue s0 !! h ≫= stays (seen ∪ list_to_set ms)) ∧
    unlocked (waiting_queue s0) (seen ∪ list_to_set ms) out'.
Proof.
  intros Hwf0. revert s out seen. induction ms as [|m ms IH]; intros s out seen Hwf Hwq [Hnd Hout].
  { exists s, out. simpl. rewrite (right_id_L ∅ (∪) seen). done. }
  cbn [fold_m].
  destruct (unlock_mark_spec s out m Hwf) as (s' & new & -> & Hwf' & Hwq' & Hnd' & Hnew).
  replace (seen ∪ list_to_set (m :: ms)) with ((seen ∪ {[m]}) ∪ list_to_set ms : gset TxMarker)
    by set_solver.
  apply IH; [done|..].
  - intros h. rewrite Hwq', Hwq. destruct (waiting_queue s0 !! h) as [tx|]; simpl; [|done].
    apply stays_compose.
  - split.
    + rewrite fmap_app, NoDup_app. split_and!; [done| |done].
      intros ? (t & -> & (h & tx & Htx & Hlv)%Hout)%list_elem_of_fmap
        (t' & Heq & (h' & tx' & Htx' & Hlv')%Hnew)%list_elem_of_fmap.
      apply Hwf in Htx' as Hh'. apply Hwf0 in Htx as Hh.
      apply leaves_hash in Hlv' as Hl'. apply leaves_hash in Hlv as Hl.
      assert (h = h') as <- by congruence. rewrite Hwq, Htx in Htx'. simpl in Htx'.
      clear -Htx' Hlv. unfold stays, leaves in *. by case_decide.
    + intros t. rewrite elem_of_app, Hout, Hnew. setoid_rewrite leaves_compose.
      setoid_rewrite Hwq. split.
      * intros [(h & tx & ? & ?)|(h & tx & (tx0 & ? & ?)%bind_Some & ?)];
          [by eauto|]. exists h, tx0. split; [done|]. right. apply bind_Some. by exists tx.
      * intros (h & tx & Htx & [?|(tx1 & ? & ?)%bind_Some]); [by eauto|].
        right. exists h, tx1. by rewrite Htx.
Qed.

Lemma mark_and_unlock_spec s ms :
  pending_wf s →
  ∃ s' out, mark_and_unlock s ms = Some (s', out) ∧ pending_wf s' ∧
    (∀ h, waiting_queue s' !! h = waiting_queue s !! h ≫= stays (list_to_set ms)) ∧
    unlocked (waiting_queue s) (list_to_set ms) out.
Proof.
  intros Hwf. unfold mark_and_unlock.
  assert (∀ X : gset TxMarker, X = ∅ ∪ X) as Hu by set_solver.
  rewrite (Hu (list_to_set ms)). apply unlock_marks_spec; [done..| |].
  - intros h. destruct (waiting_queue s !! h) as [tx|] eqn:Htx; simpl; [|done].
    symmetry. apply stays_empty. by eapply Hwf.
  - split; [constructor|]. intros t. split; [by intros ?%not_elem_of_nil|].
    intros (h & tx & Htx & Hlv). unfold leaves in Hlv. case_decide as Hs; [|done].
    destruct (pw_missing _ Hwf _ _ Htx). set_solver.
Qed.
End pending_queue.
