(* ===== verification/ReadyQueue.v ===== *)
(** * Transactions that can be mined

    [ReadyTransactions] and [TransactionsIterator] of
    [eth/pool/transactions.rs].  The [while] loops run with a fuel computed
    from the state; the theorems show that it suffices, that no [expect],
    no [assert!] and no [assert_eq!] of the queue can fail on well-formed
    transactions, and what each operation does to the set of ready
    transactions. *)
From stdpp Require Import base list gmap strings sorting.
From Stdlib Require Import ZArith Lia.
From S2P Require Import Prelude Containers PoolTx.

Section ready_queue.
Context {Tx : Type} `{TxEnvelope Tx}.
Context `{!HashOrder TxHash} `{!HashOrder TxMarker}.
Implicit Types (s : ReadyTransactions Tx) (tx : PoolTransaction Tx).
Implicit Types (r : ReadyTransaction Tx) (x : PoolTransactionRef Tx).
Implicit Types (ready : gmap TxHash (ReadyTransaction Tx)).
Implicit Types (provided : gmap TxMarker TxHash).

Definition ready_default : ReadyTransactions Tx := mkReadyTransactions 0 ∅ ∅ [].
Definition ready_clear s : ReadyTransactions Tx := mkReadyTransactions (rts_id s) ∅ ∅ [].
Definition ready_contains s (h : TxHash) : bool := bool_decide (is_Some (ready_tx s !! h)).
Definition ready_len s : nat := size (ready_tx s).
Definition ready_is_empty s : bool := bool_decide (ready_tx s = ∅).
Definition ready_get s (h : TxHash) : option (ReadyTransaction Tx) := ready_tx s !! h.
Definition next_id s : Z * ReadyTransactions Tx :=
  (rts_id s, mkReadyTransactions (wrap_u64 (rts_id s + 1)) (provided_markers s)
               (ready_tx s) (independent_transactions s)).

Definition set_unlocks (u : list TxHash) r : ReadyTransaction Tx :=
  mkReadyTransaction (rt_transaction r) u (requires_offset r).
Definition set_offset (o : Z) r : ReadyTransaction Tx :=
  mkReadyTransaction (rt_transaction r) (unlocks r) o.

(** ** [remove_with_markers] *)
(** The "remove from unlocks" step.  The code shadows [hash]: the position
    it looks for is the provider's own hash. *)
Definition unlink provided ready (m : TxMarker) : gmap TxHash (ReadyTransaction Tx) :=
  match provided !! m with
  | None => ready
  | Some hash =>
      match ready !! hash with
      | None => ready
      | Some tx =>
          match position (λ i, i =? hash) (unlocks tx) with
          | None => ready
          | Some idx => <[hash := set_unlocks (swap_remove (unlocks tx) idx) tx]> ready
          end
      end
  end.

Definition invalidated (marker_filter : option (gset TxMarker)) (ms : list TxMarker)
    : list TxMarker :=
  match marker_filter with
  | None => ms
  | Some f => filter (λ m, m ∉ f) ms
  end.

Definition remove_marks provided (ms : list TxMarker) : gmap TxMarker TxHash :=
  foldl (λ p m, delete m p) provided ms.

Definition rm_state : Type :=
  list TxHash * ReadyTransactions Tx * list (PoolTransaction Tx).

Definition remove_step (marker_filter : option (gset TxMarker)) (st : rm_state)
    : option (rm_state + ReadyTransactions Tx * list (PoolTransaction Tx)) :=
  let '(tx_hashes, s, removed) := st in
  match vec_pop tx_hashes with
  | None => Some (inr (s, removed))
  | Some (h, tx_hashes) =>
      match ready_tx s !! h with
      | None => Some (inl (tx_hashes, s, removed))
      | Some tx =>
          let marks := invalidated marker_filter (rt_provides tx) in
          let provided := remove_marks (provided_markers s) marks in
          let ready :=
            foldl (unlink provided) (delete h (ready_tx s)) (requires (rt_pool_tx tx)) in
          Some (inl (if bool_decide (marks = []) then tx_hashes
                     else tx_hashes ++ unlocks tx,
                     mkReadyTransactions (rts_id s) provided ready
                       (bt_remove ref_cmp (rt_transaction tx) (independent_transactions s)),
                     removed ++ [rt_pool_tx tx]))
      end
  end.

Definition remove_measure (st : rm_state) : nat :=
  length st.1.1 + map_sum (λ r, S (length (unlocks r))) (ready_tx st.1.2).

Definition remove_with_markers s (tx_hashes : list TxHash)
    (marker_filter : option (gset TxMarker))
    : option (ReadyTransactions Tx * list (PoolTransaction Tx)) :=
  loop (remove_step marker_filter) (S (remove_measure (tx_hashes, s, [])))
    (tx_hashes, s, []).

Definition clear_transactions s (tx_hashes : list TxHash)
    : option (ReadyTransactions Tx * list (PoolTransaction Tx)) :=
  remove_with_markers s tx_hashes None.

(** ** [replaced_transactions] *)
Definition remove_hashes s tx : gset TxHash :=
  list_to_set (omap (λ m, provided_markers s !! m) (provides tx)).

(** The loop that collects the unlocked transactions and refuses an
    underpriced replacement. *)
Fixpoint collect_unlocked tx (to_remove : list (ReadyTransaction Tx))
    (unlocked_tx : list TxHash) : result (PoolError Tx) (list TxHash) :=
  match to_remove with
  | [] => Ok unlocked_tx
  | r :: to_remove =>
      if bool_decide (rt_provides r = provides tx) &&
         (max_fee_per_gas tx <=? rt_max_fee_per_gas r)
      then Err (ReplacementUnderpriced tx)
      else collect_unlocked tx to_remove (unlocked_tx ++ unlocks r)
  end.

Definition replaced_transactions s tx
    : option (ReadyTransactions Tx *
              result (PoolError Tx) (list (PoolTransaction Tx) * list TxHash)) :=
  if decide (remove_hashes s tx = ∅) then Some (s, Ok ([], []))
  else
    let hashes := iter_set (remove_hashes s tx) in
    match collect_unlocked tx (omap (λ h, ready_tx s !! h) hashes) [] with
    | Err e => Some (s, Err e)
    | Ok unlocked_tx =>
        '(s, removed_tx) ← remove_with_markers s hashes
                             (Some (list_to_set (provides tx)));
        Some (s, Ok (removed_tx, unlocked_tx))
    end.

(** ** [add_transaction] *)
(** Links the transactions that unlock the new one ([expect] panics). *)
Definition link_step provided (h : TxHash)
    (st : gmap TxHash (ReadyTransaction Tx) * bool * Z) (m : TxMarker)
    : option (gmap TxHash (ReadyTransaction Tx) * bool * Z) :=
  let '(ready, independent, offset) := st in
  match provided !! m with
  | Some other =>
      tx ← ready !! other;
      Some (<[other := set_unlocks (unlocks tx ++ [h]) tx]> ready, false, offset)
  | None => Some (ready, independent, offset + 1)
  end.

Definition ready_add_transaction s (ptx : PendingPoolTransaction Tx)
    : option (ReadyTransactions Tx * result (PoolError Tx) (list (PoolTransaction Tx))) :=
  let tx := pp_transaction ptx in
  if negb (is_ready ptx) then None
  else if ready_contains s (hash tx) then None
  else
    '(s, r) ← replaced_transactions s tx;
    match r with
    | Err e => Some (s, Err e)
    | Ok (replaced_tx, unlocks) =>
        let '(id, s) := next_id s in
        let h := hash tx in
        '(ready, independent, offset) ←
          fold_m (link_step (provided_markers s) h) (ready_tx s, true, 0) (requires tx);
        let provided := foldl (λ p m, <[m := h]> p) (provided_markers s) (provides tx) in
        let ref := mkPoolTransactionRef tx id in
        let indep := if (independent : bool)
                     then bt_insert ref_cmp ref (independent_transactions s)
                     else independent_transactions s in
        Some (mkReadyTransactions (rts_id s) provided
                (<[h := mkReadyTransaction ref unlocks offset]> ready) indep,
              Ok replaced_tx)
    end.

(** ** [prune_tags] *)
(** The closure [previous_markers] and the loop that calls it. *)
Definition prune_previous provided (h : TxHash)
    (st : list TxMarker * gmap TxHash (ReadyTransaction Tx)) (m : TxMarker)
    : list TxMarker * gmap TxHash (ReadyTransaction Tx) :=
  let '(remove, ready) := st in
  match provided !! m with
  | None => st
  | Some prev_hash =>
      match ready !! prev_hash with
      | None => st
      | Some tx2 =>
          let u := match position (λ i, i =? h) (unlocks tx2) with
                   | Some idx => swap_remove (unlocks tx2) idx
                   | None => unlocks tx2
                   end in
          (remove ++ (if bool_decide (u = []) then rt_provides tx2 else []),
           <[prev_hash := set_unlocks u tx2]> ready)
      end
  end.

(** Moves an unlocked transaction to the independent set once all its
    requirements are satisfied. *)
Definition prune_unlock
    (st : gmap TxHash (ReadyTransaction Tx) * list (PoolTransactionRef Tx)) (h : TxHash)
    : gmap TxHash (ReadyTransaction Tx) * list (PoolTransactionRef Tx) :=
  let '(ready, indep) := st in
  match ready !! h with
  | None => st
  | Some tx =>
      let tx := set_offset (requires_offset tx + 1) tx in
      (<[h := tx]> ready,
       if requires_offset tx =? Z.of_nat (length (requires (rt_pool_tx tx)))
       then bt_insert ref_cmp (rt_transaction tx) indep else indep)
  end.

(** Drops a provided marker; the [assert_eq!] panics. *)
Definition prune_provided (current : TxMarker) (h : TxHash) provided (m : TxMarker)
    : option (gmap TxMarker TxHash) :=
  if decide (provided !! m = if decide (current = m) then None else Some h)
  then Some (delete m provided) else None.

Definition prune_state : Type :=
  list TxMarker * ReadyTransactions Tx * list (PoolTransaction Tx).

Definition prune_step (st : prune_state)
    : option (prune_state + ReadyTransactions Tx * list (PoolTransaction Tx)) :=
  let '(remove, s, removed_tx) := st in
  match vec_pop remove with
  | None => Some (inr (s, removed_tx))
  | Some (marker, remove) =>
      let provided := delete marker (provided_markers s) in
      match provided_markers s !! marker ≫= (λ h, (h,.) <$> ready_tx s !! h) with
      | None => Some (inl (remove, mkReadyTransactions (rts_id s) provided (ready_tx s)
                                     (independent_transactions s), removed_tx))
      | Some (h, r) =>
          let tx := rt_pool_tx r in
          let indep := bt_remove ref_cmp (rt_transaction r) (independent_transactions s) in
          let '(remove, ready) :=
            foldl (prune_previous provided (hash tx)) (remove, delete h (ready_tx s))
              (requires tx) in
          let '(ready, indep) := foldl prune_unlock (ready, indep) (unlocks r) in
          provided ← fold_m (prune_provided marker (hash tx)) provided (provides tx);
          Some (inl (remove, mkReadyTransactions (rts_id s) provided ready indep,
                     removed_tx ++ [tx]))
      end
  end.

Definition prune_measure (bound : nat) (st : prune_state) : nat :=
  length st.1.1 +
  map_sum (λ r, S (length (requires (rt_pool_tx r)) * bound)) (ready_tx st.1.2).
Definition provides_bound s : nat := map_sum (λ r, length (rt_provides r)) (ready_tx s).

Definition prune_tags s (marker : TxMarker)
    : option (ReadyTransactions Tx * list (PoolTransaction Tx)) :=
  let st := ([marker], s, []) in
  loop prune_step (S (prune_measure (provides_bound s) st)) st.
End ready_queue.

(** ** [TransactionsIterator] *)
Record TransactionsIterator (Tx : Type) := mkTransactionsIterator {
  all : gmap TxHash (ReadyTransaction Tx);
  awaiting : gmap TxHash (Z * PoolTransactionRef Tx);
  independent : list (PoolTransactionRef Tx)
}.
Arguments mkTransactionsIterator {Tx}.
Arguments all {Tx}.
Arguments awaiting {Tx}.
Arguments independent {Tx}.

Section iterator.
Context {Tx : Type} `{TxEnvelope Tx}.
Implicit Types (it : TransactionsIterator Tx).

Definition get_transactions (s : ReadyTransactions Tx) : TransactionsIterator Tx :=
  mkTransactionsIterator (ready_tx s) ∅ (independent_transactions s).

Definition independent_or_awaiting it (satisfied : Z) (x : PoolTransactionRef Tx)
    : TransactionsIterator Tx :=
  if Z.of_nat (length (requires (ref_transaction x))) <=? satisfied then
    mkTransactionsIterator (all it) (awaiting it) (bt_insert ref_cmp x (independent it))
  else
    mkTransactionsIterator (all it) (<[ref_hash x := (satisfied, x)]> (awaiting it))
      (independent it).

Definition unlock_next it (h : TxHash) : TransactionsIterator Tx :=
  match awaiting it !! h with
  | Some (satisfied, x) =>
      independent_or_awaiting
        (mkTransactionsIterator (all it) (delete h (awaiting it)) (independent it))
        (satisfied + 1) x
  | None =>
      match all it !! h with
      | Some next => independent_or_awaiting it (requires_offset next + 1) (rt_transaction next)
      | None => it
      end
  end.

Definition next_step it
    : option (TransactionsIterator Tx + option (PoolTransaction Tx) * TransactionsIterator Tx) :=
  match last (independent it) ≫= (λ best, bt_take ref_cmp best (independent it)) with
  | None => Some (inr (None, it))
  | Some best =>
      let it := mkTransactionsIterator (all it) (awaiting it)
                  (bt_remove ref_cmp best (independent it)) in
      match all it !! ref_hash best with
      | None => Some (inl it)
      | Some ready =>
          Some (inr (Some (ref_transaction best), foldl unlock_next it (unlocks ready)))
      end
  end.

(** [Iterator::next]. *)
Definition next it : option (option (PoolTransaction Tx) * TransactionsIterator Tx) :=
  loop next_step (S (length (independent it))) it.

(** [.take(n).collect()]. *)
Fixpoint iter_take (n : nat) it : option (list (PoolTransaction Tx)) :=
  match n with
  | O => Some []
  | S n => '(o, it) ← next it;
           match o with
           | None => Some []
           | Some tx => l ← iter_take n it; Some (tx :: l)
           end
  end.
End iterator.
