(* ===== verification/ReadyInvariant.v ===== *)
(** * Invariant of the ready queue

    [ready_inv F id provided refs indep] relates the marker index, the ready
    transactions (their references: links and offsets do not matter), the
    independent set and the id counter.  [F] are markers whose entry may
    dangle, which is only the case in the middle of a replacement. *)
From stdpp Require Import base list gmap strings sorting.
From Stdlib Require Import ZArith Lia.
From S2P Require Import Prelude Containers PoolTx ReadyQueue.

Section ready_invariant.
Context {Tx : Type} `{TxEnvelope Tx}.
Context `{!HashOrder TxHash} `{!HashOrder TxMarker}.
Implicit Types (s : ReadyTransactions Tx) (tx : PoolTransaction Tx).
Implicit Types (r : ReadyTransaction Tx) (x y : PoolTransactionRef Tx).
Implicit Types (ready : gmap TxHash (ReadyTransaction Tx)).
Implicit Types (provided : gmap TxMarker TxHash) (F : gset TxMarker).
Implicit Types (refs : gmap TxHash (PoolTransactionRef Tx)).

(** A transaction provides a marker once and never one it requires. *)
Record tx_wf tx : Prop := {
  tw_provides : NoDup (provides tx);
  tw_disjoint m : m ∈ requires tx → m ∉ provides tx
}.

#[export] Instance ref_cmp_order : CmpOrder (@ref_cmp Tx).
Proof.
  split; unfold ref_cmp.
  - intros x y. rewrite (Z.compare_antisym (tx_priority (ref_transaction x))).
    destruct (tx_priority (ref_transaction x) ?= _); simpl; try done.
    apply Z.compare_antisym.
  - intros x y z.
    destruct (Z.compare_spec (tx_priority (ref_transaction x))
      (tx_priority (ref_transaction y))) as [Hxy|Hxy|]; [| |done];
    destruct (Z.compare_spec (tx_priority (ref_transaction y))
      (tx_priority (ref_transaction z))) as [Hyz|Hyz|]; try done; intros H1 H2.
    + rewrite Hxy, (proj2 (Z.compare_eq_iff _ _) Hyz).
      rewrite Z.compare_lt_iff in H1, H2. rewrite Z.compare_lt_iff. lia.
    + by rewrite Hxy, (proj2 (Z.compare_lt_iff _ _) Hyz).
    + by rewrite <- Hyz, (proj2 (Z.compare_lt_iff _ _) Hxy).
    + by rewrite (proj2 (Z.compare_lt_iff _ _) (Z.lt_trans _ _ _ Hxy Hyz)).
  - intros x y z.
    destruct (Z.compare_spec (tx_priority (ref_transaction x))
      (tx_priority (ref_transaction y))) as [->| |]; try done.
    by intros ->%Z.compare_eq_iff.
Qed.

Definition ready_refs ready : gmap TxHash (PoolTransactionRef Tx) := rt_transaction <$> ready.

Record ready_inv F (id : Z) provided refs (indep : list (PoolTransactionRef Tx)) : Prop := {
  ri_hash h x : refs !! h = Some x → ref_hash x = h;
  ri_wf h x : refs !! h = Some x → tx_wf (ref_transaction x);
  ri_id h x : refs !! h = Some x → 0 ≤ ref_id x < id;
  ri_id_inj h h' x x' :
    refs !! h = Some x → refs !! h' = Some x' → ref_id x = ref_id x' → h = h';
  ri_provides h x m :
    refs !! h = Some x → m ∈ provides (ref_transaction x) → provided !! m = Some h;
  ri_provided m h :
    provided !! m = Some h →
    m ∈ F ∨ ∃ x, refs !! h = Some x ∧ m ∈ provides (ref_transaction x);
  ri_indep x : x ∈ indep → refs !! ref_hash x = Some x;
  ri_sorted : bt_sorted ref_cmp indep
}.

Definition ready_inv_upto F s : Prop :=
  ready_inv F (rts_id s) (provided_markers s) (ready_refs (ready_tx s))
    (independent_transactions s).
Definition ready_wf s : Prop := ready_inv_upto ∅ s.

Lemma ready_default_wf : ready_wf ready_default.
Proof.
  split; simpl; unfold ready_refs; rewrite ?fmap_empty; try done.
  - by intros ? ?%not_elem_of_nil.
  - constructor.
Qed.
Lemma ready_clear_wf s : ready_wf s → ready_wf (ready_clear s).
Proof.
  intros _. split; simpl; unfold ready_refs; rewrite ?fmap_empty; try done.
  - by intros ? ?%not_elem_of_nil.
  - constructor.
Qed.

Lemma ready_inv_weaken F F' id provided refs indep :
  F ⊆ F' → ready_inv F id provided refs indep → ready_inv F' id provided refs indep.
Proof. intros HF []. split; [done..| |done|done]. intros m h Hm.
  destruct (ri_provided0 m h Hm); eauto. Qed.

(** ** References are not affected by link updates *)
Lemma ready_refs_lookup ready h : ready_refs ready !! h = rt_transaction <$> ready !! h.
Proof. apply lookup_fmap. Qed.
Lemma ready_refs_update ready h r r' :
  ready !! h = Some r → rt_transaction r' = rt_transaction r →
  ready_refs (<[h := r']> ready) = ready_refs ready.
Proof.
  intros Hh Hr. unfold ready_refs. rewrite fmap_insert, Hr.
  apply insert_id. by rewrite lookup_fmap, Hh.
Qed.
Lemma ready_refs_delete ready h : ready_refs (delete h ready) = delete h (ready_refs ready).
Proof. apply fmap_delete. Qed.
Lemma ready_refs_insert ready h r :
  ready_refs (<[h := r]> ready) = <[h := rt_transaction r]> (ready_refs ready).
Proof. apply fmap_insert. Qed.

Lemma unlink_refs provided ready m : ready_refs (unlink provided ready m) = ready_refs ready.
Proof.
  unfold unlink. repeat case_match; try done. by eapply ready_refs_update.
Qed.
Lemma foldl_unlink_refs provided ready ms :
  ready_refs (foldl (unlink provided) ready ms) = ready_refs ready.
Proof.
  revert ready. induction ms as [|m ms IH]; intros ready; simpl; [done|].
  by rewrite IH, unlink_refs.
Qed.
Lemma prune_previous_refs provided h rem ready ms :
  ready_refs (foldl (prune_previous provided h) (rem, ready) ms).2 = ready_refs ready.
Proof.
  revert rem ready. induction ms as [|m ms IH]; intros rem ready; [done|].
  cbn [foldl prune_previous]. repeat case_match; rewrite IH; try done;
    by eapply ready_refs_update.
Qed.
Lemma prune_unlock_refs ready indep hs :
  ready_refs (foldl prune_unlock (ready, indep) hs).1 = ready_refs ready.
Proof.
  revert ready indep. induction hs as [|h hs IH]; intros ready indep; [done|].
  cbn [foldl prune_unlock]. case_match; rewrite IH; [|done]. by eapply ready_refs_update.
Qed.
Lemma prune_unlock_indep refs ready indep hs :
  ready_refs ready = refs →
  (∀ x, x ∈ indep → refs !! ref_hash x = Some x) → bt_sorted ref_cmp indep →
  (∀ h x, refs !! h = Some x → ref_hash x = h) →
  (∀ x, x ∈ (foldl prune_unlock (ready, indep) hs).2 → refs !! ref_hash x = Some x) ∧
  bt_sorted ref_cmp (foldl prune_unlock (ready, indep) hs).2.
Proof.
  intros Hrefs Hin Hs Hh. revert ready indep Hrefs Hin Hs.
  induction hs as [|h hs IH]; intros ready indep Hrefs Hin Hs; [done|].
  cbn [foldl prune_unlock]. destruct (ready !! h) as [r|] eqn:Hr; [|by apply IH].
  assert (refs !! h = Some (rt_transaction r)) as Hx.
  { by rewrite <- Hrefs, ready_refs_lookup, Hr. }
  apply IH.
  - rewrite <- Hrefs. by eapply ready_refs_update.
  - case_match; [|done]. intros y [->|?]%bt_insert_elem; [|by apply Hin]. simpl.
    by rewrite (Hh _ _ Hx).
  - case_match; [|done]. apply (bt_insert_sorted ref_cmp); done.
Qed.

(** ** Removing a transaction *)
Lemma lookup_remove_marks provided ms m :
  remove_marks provided ms !! m = if decide (m ∈ ms) then None else provided !! m.
Proof.
  unfold remove_marks. revert provided.
  induction ms as [|m' ms IH]; intros provided; simpl; [done|].
  rewrite IH, lookup_delete. repeat case_decide; set_solver.
Qed.

(** [F'] are the markers whose index entries are kept. *)
Lemma ready_inv_delete F id provided refs indep h x provided' :
  ready_inv F id provided refs indep → refs !! h = Some x →
  (∀ m, m ∈ provides (ref_transaction x) → m ∉ F → provided' !! m = None) →
  (∀ m, ¬ (m ∈ provides (ref_transaction x) ∧ m ∉ F) → provided' !! m = provided !! m) →
  ready_inv F id provided' (delete h refs) (bt_remove ref_cmp x indep).
Proof.
  intros Hinv Hx HpN HpS. pose proof (ri_sorted _ _ _ _ _ Hinv) as Hs. split.
  - intros h' x' [_ ?]%lookup_delete_Some. by eapply Hinv.
  - intros h' x' [_ ?]%lookup_delete_Some. by eapply Hinv.
  - intros h' x' [_ ?]%lookup_delete_Some. by eapply Hinv.
  - intros h1 h2 x1 x2 [_ ?]%lookup_delete_Some [_ ?]%lookup_delete_Some.
    by eapply Hinv.
  - intros h' x' m [Hne Hx']%lookup_delete_Some Hm.
    pose proof (ri_provides _ _ _ _ _ Hinv _ _ _ Hx' Hm) as Hp'.
    rewrite HpS; [done|]. intros [Hm' _].
    pose proof (ri_provides _ _ _ _ _ Hinv _ _ _ Hx Hm'). congruence.
  - intros m h' Hm.
    destruct (decide (m ∈ provides (ref_transaction x) ∧ m ∉ F)) as [[??]|Hd].
    { by rewrite HpN in Hm. }
    rewrite HpS in Hm by done. destruct (ri_provided _ _ _ _ _ Hinv _ _ Hm) as [?|(x' & Hx' & Hm')]; [by left|].
    destruct (decide (m ∈ F)) as [?|HF]; [by left|]. right. exists x'.
    split; [|done]. apply lookup_delete_Some. split; [|done]. intros <-.
    simplify_eq. by apply Hd.
  - intros y Hy. apply (bt_remove_spec ref_cmp x y indep Hs) in Hy as [Hy Hne].
    apply lookup_delete_Some. pose proof (ri_indep _ _ _ _ _ Hinv _ Hy) as Hyr.
    split; [|done]. intros ->. apply Hne. rewrite Hyr in Hx. simplify_eq.
    apply (cmp_refl ref_cmp).
  - apply (bt_remove_sorted ref_cmp); done.
Qed.

(** ** Adding a transaction *)
Lemma lookup_insert_marks (h : TxHash) provided ms m :
  foldl (λ p m, <[m := h]> p) provided ms !! m =
  if decide (m ∈ ms) then Some h else provided !! m.
Proof.
  revert provided. induction ms as [|m' ms IH]; intros provided; simpl; [done|].
  rewrite IH, lookup_insert. repeat case_decide; set_solver.
Qed.

Lemma ready_inv_insert F id provided refs indep h x indep' :
  ready_inv F id provided refs indep → tx_wf (ref_transaction x) →
  F ⊆ list_to_set (provides (ref_transaction x)) →
  refs !! h = None → ref_hash x = h → ref_id x = id → 0 ≤ id →
  (∀ h' x' m, refs !! h' = Some x' → m ∈ provides (ref_transaction x') →
    m ∉ provides (ref_transaction x)) →
  indep' = indep ∨ indep' = bt_insert ref_cmp x indep →
  ready_inv ∅ (id + 1) (foldl (λ p m, <[m := h]> p) provided (provides (ref_transaction x)))
    (<[h := x]> refs) indep'.
Proof.
  intros Hinv Hwf HF Hh Hxh Hid Hid0 Hdisj Hindep.
  pose proof (ri_sorted _ _ _ _ _ Hinv) as Hs. split.
  - intros h' x' [[<- <-]|[_ ?]]%lookup_insert_Some; [done|by eapply Hinv].
  - intros h' x' [[<- <-]|[_ ?]]%lookup_insert_Some; [done|by eapply Hinv].
  - intros h' x' [[<- <-]|[_ Hx']]%lookup_insert_Some; [lia|].
    apply (ri_id _ _ _ _ _ Hinv) in Hx'. lia.
  - intros h1 h2 x1 x2 [[<- <-]|[? Hx1]]%lookup_insert_Some
      [[<- <-]|[? Hx2]]%lookup_insert_Some Heq; [done| | |by eapply Hinv].
    + apply (ri_id _ _ _ _ _ Hinv) in Hx2. lia.
    + apply (ri_id _ _ _ _ _ Hinv) in Hx1. lia.
  - intros h' x' m. rewrite lookup_insert_marks.
    intros [[<- <-]|[? Hx']]%lookup_insert_Some Hm; [by rewrite decide_True|].
    rewrite decide_False by (by eapply Hdisj). by eapply Hinv.
  - intros m h'. rewrite lookup_insert_marks. case_decide as Hm.
    + intros [= <-]. right. exists x. by rewrite lookup_insert_eq.
    + intros Hp. right. destruct (ri_provided _ _ _ _ _ Hinv _ _ Hp) as [HmF|(x' & Hx' & ?)].
      * apply HF, elem_of_list_to_set in HmF. done.
      * exists x'. rewrite lookup_insert_ne; [done|]. intros <-. congruence.
  - assert (∀ y, y ∈ indep → <[h:=x]> refs !! ref_hash y = Some y) as Hold.
    { intros y Hy%(ri_indep _ _ _ _ _ Hinv). rewrite lookup_insert_ne; [done|].
      intros ->. congruence. }
    destruct Hindep as [->| ->]; [done|].
    intros y [->|?]%bt_insert_elem; [|by apply Hold].
    rewrite Hxh. apply lookup_insert_eq.
  - destruct Hindep as [->| ->]; [done|]. apply (bt_insert_sorted ref_cmp); done.
Qed.
End ready_invariant.
