(* ===== verification/ReadyProofs.v ===== *)
(** * Correctness of the ready queue

    Each operation of [ReadyTransactions] terminates without a panic,
    preserves [ready_wf] and has the stated effect; [TransactionsIterator]
    yields the greatest independent transaction. *)
From stdpp Require Import base list gmap strings sorting.
From Stdlib Require Import ZArith Lia.
From S2P Require Import Prelude Containers PoolTx ReadyQueue ReadyInvariant.

Section remove.
Context {Tx : Type} `{TxEnvelope Tx}.
Implicit Types (s : ReadyTransactions Tx) (tx : PoolTransaction Tx).
Implicit Types (r : ReadyTransaction Tx) (x y : PoolTransactionRef Tx).
Implicit Types (ready : gmap TxHash (ReadyTransaction Tx)).

(** ** The shadowed [unlink] *)
(** [unlink] only ever takes a transaction's own hash out of its unlocks. *)
Definition same_links ready0 ready : Prop :=
  ∀ h r, ready !! h = Some r → ∃ r0, ready0 !! h = Some r0 ∧
    rt_transaction r = rt_transaction r0 ∧
    ∀ u, u ∈ unlocks r0 → u ∈ unlocks r ∨ u = h.

Lemma same_links_refl ready : same_links ready ready.
Proof. intros h r Hr. exists r. auto. Qed.
Lemma same_links_trans m1 m2 m3 : same_links m1 m2 → same_links m2 m3 → same_links m1 m3.
Proof.
  intros H12 H23 h r Hr. destruct (H23 h r Hr) as (r2 & Hr2 & He2 & Hu2).
  destruct (H12 h r2 Hr2) as (r1 & Hr1 & He1 & Hu1).
  exists r1. split_and!; [done|congruence|]. intros u [?| ->]%Hu1; auto.
Qed.
Lemma same_links_delete ready h : same_links ready (delete h ready).
Proof. intros h' r [_ Hr]%lookup_delete_Some. exists r. auto. Qed.

Lemma unlink_same_links provided ready m : same_links ready (unlink provided ready m).
Proof.
  unfold unlink. destruct (provided !! m) as [h|]; [|apply same_links_refl].
  destruct (ready !! h) as [r|] eqn:Hr; [|apply same_links_refl].
  destruct (position _ _) as [i|] eqn:Hi; [|apply same_links_refl].
  apply position_Some in Hi as (u & Hu & ->%Z.eqb_eq).
  intros h' r' [[<- <-]|[_ ?]]%lookup_insert_Some; [|exists r'; auto].
  exists r. split_and!; [done..|]. intros u Huin. simpl.
  rewrite (swap_remove_Permutation _ _ _ Hu), elem_of_cons in Huin. tauto.
Qed.
Lemma foldl_unlink_same_links provided ready ms :
  same_links ready (foldl (unlink provided) ready ms).
Proof.
  revert ready. induction ms as [|m ms IH]; intros ready; simpl.
  - apply same_links_refl.
  - eapply same_links_trans; [apply unlink_same_links|apply IH].
Qed.
Lemma unlink_measure provided ready m :
  (map_sum (λ r, S (length (unlocks r))) (unlink provided ready m) ≤
   map_sum (λ r, S (length (unlocks r))) ready)%nat.
Proof.
  unfold unlink. destruct (provided !! m) as [h|]; [|done].
  destruct (ready !! h) as [r|] eqn:Hr; [|done].
  destruct (position _ _) as [i|] eqn:Hi; [|done].
  apply position_Some in Hi as (u & Hu%lookup_lt_Some & _).
  pose proof (map_sum_insert (λ r, S (length (unlocks r))) ready h r
    (set_unlocks (swap_remove (unlocks r) i) r) Hr) as Hsum.
  cbn [unlocks set_unlocks] in Hsum. rewrite swap_remove_length in Hsum by done. lia.
Qed.
Lemma foldl_unlink_measure provided ready ms :
  (map_sum (λ r, S (length (unlocks r))) (foldl (unlink provided) ready ms) ≤
   map_sum (λ r, S (length (unlocks r))) ready)%nat.
Proof.
  revert ready. induction ms as [|m ms IH]; intros ready; simpl; [done|].
  etrans; [apply IH|apply unlink_measure].
Qed.

(** ** [remove_with_markers] *)
Definition filter_set (f : option (gset TxMarker)) : gset TxMarker := default ∅ f.

Lemma elem_of_invalidated f ms m : m ∈ invalidated f ms ↔ m ∈ ms ∧ m ∉ filter_set f.
Proof.
  unfold invalidated, filter_set. destruct f; simpl.
  - rewrite list_elem_of_filter. tauto.
  - set_solver.
Qed.

(** What holds in the loop: [st] is the state of the loop started from [s0]
    with the hashes [hs]. *)
Record remove_inv s0 (hs : list TxHash) f (st : rm_state (Tx := Tx)) : Prop := {
  rmi_inv : ready_inv_upto (filter_set f) st.1.2;
  rmi_id : rts_id st.1.2 = rts_id s0;
  rmi_links : same_links (ready_tx s0) (ready_tx st.1.2);
  rmi_hashes h : h ∈ hs → h ∈ st.1.1 ∨ ready_tx st.1.2 !! h = None;
  rmi_removed tx : tx ∈ st.2 → ∃ h r0, ready_tx s0 !! h = Some r0 ∧
    tx = rt_pool_tx r0 ∧ ready_tx st.1.2 !! h = None;
  rmi_account h r0 : ready_tx s0 !! h = Some r0 → ready_tx st.1.2 !! h = None →
    rt_pool_tx r0 ∈ st.2 ∧
    (invalidated f (rt_provides r0) ≠ [] →
     ∀ u, u ∈ unlocks r0 → u ∈ st.1.1 ∨ u = h ∨ ready_tx st.1.2 !! u = None)
}.

Lemma ready_lookup_None ready h : ready_refs ready !! h = None ↔ ready !! h = None.
Proof. rewrite ready_refs_lookup. apply fmap_None. Qed.

Lemma remove_inv_skip s0 hs f stack h s removed :
  remove_inv s0 hs f (stack ++ [h], s, removed) → ready_tx s !! h = None →
  remove_inv s0 hs f (stack, s, removed).
Proof.
  intros [Hinv Hid Hlinks Hhs Hrem Hacc] Hr. split; simpl in *; [done..| | |].
  - intros h' [[?| ->%list_elem_of_singleton]%elem_of_app|?]%Hhs; auto.
  - done.
  - intros h' r0 Hr0 Hn. destruct (Hacc _ _ Hr0 Hn) as [Hin Hu]. split; [done|].
    intros Hne u Hu'. destruct (Hu Hne u Hu') as [Hs|[?|?]]; auto.
    apply elem_of_app in Hs as [?| ->%list_elem_of_singleton]; auto.
Qed.

(** What is left to remove once [h] is taken from the stack. *)
Lemma stack_left (b : bool) (stack l : list TxHash) (h x : TxHash) :
  x ∈ stack ++ [h] → x ∈ (if b then stack else stack ++ l) ∨ x = h.
Proof. destruct b; rewrite !elem_of_app, list_elem_of_singleton; tauto. Qed.

Lemma remove_inv_take s0 hs f stack h s removed r :
  remove_inv s0 hs f (stack ++ [h], s, removed) → ready_tx s !! h = Some r →
  let marks := invalidated f (rt_provides r) in
  let provided := remove_marks (provided_markers s) marks in
  let ready := foldl (unlink provided) (delete h (ready_tx s)) (requires (rt_pool_tx r)) in
  remove_inv s0 hs f
    (if bool_decide (marks = []) then stack else stack ++ unlocks r,
     mkReadyTransactions (rts_id s) provided ready
       (bt_remove ref_cmp (rt_transaction r) (independent_transactions s)),
     removed ++ [rt_pool_tx r]).
Proof.
  intros [Hinv Hid Hlinks Hhs Hrem Hacc] Hr marks provided ready. simpl in *.
  assert (ready_refs ready = delete h (ready_refs (ready_tx s))) as Hrefs.
  { unfold ready. by rewrite foldl_unlink_refs, ready_refs_delete. }
  assert (∀ h', ready !! h' = None ↔ h' = h ∨ ready_tx s !! h' = None) as HNone.
  { intros h'. rewrite <- ready_lookup_None, Hrefs, lookup_delete_None, ready_lookup_None.
    naive_solver. }
  destruct (Hlinks h r Hr) as (r0 & Hr0 & Heq & Hu0).
  split; simpl.
  - unfold ready_inv_upto in *. simpl. rewrite Hrefs.
    eapply ready_inv_delete; [exact Hinv|by rewrite ready_refs_lookup, Hr|..].
    all: intros m; unfold provided; rewrite lookup_remove_marks.
    + intros ??. rewrite decide_True; [done|]. by apply elem_of_invalidated.
    + intros Hn. rewrite decide_False; [done|]. by intros ?%elem_of_invalidated.
  - done.
  - eapply same_links_trans; [done|].
    eapply same_links_trans; [apply same_links_delete|apply foldl_unlink_same_links].
  - intros h' Hh'. rewrite HNone. destruct (Hhs h' Hh') as [Hs|?]; [|by auto].
    apply (stack_left (bool_decide (marks = [])) _ (unlocks r)) in Hs. tauto.
  - intros tx [(h' & r1 & ? & ? & ?)%Hrem| ->%list_elem_of_singleton]%elem_of_app.
    + exists h', r1. rewrite HNone. auto.
    + exists h, r0. rewrite HNone. unfold rt_pool_tx. rewrite Heq. auto.
  - intros h' r1 Hr1 Hn. rewrite elem_of_app, list_elem_of_singleton.
    destruct (decide (h' = h)) as [->|Hne].
    + simplify_eq. unfold rt_pool_tx at 2. rewrite <- Heq. split; [by right|].
      intros Hm u Hu. unfold marks.
      assert (rt_provides r = rt_provides r0) as -> by (unfold rt_provides, rt_pool_tx; congruence).
      decide_bools. rewrite elem_of_app.
      destruct (Hu0 u Hu) as [?|?]; auto.
    + rewrite HNone in Hn. destruct Hn as [|Hn]; [done|].
      destruct (Hacc _ _ Hr1 Hn) as [Hin Hu]. split; [by left|].
      intros Hm u Hu'. rewrite HNone. destruct (Hu Hm u Hu') as [Hs|[?|?]]; auto.
      apply (stack_left (bool_decide (marks = [])) _ (unlocks r)) in Hs. tauto.
Qed.

Lemma remove_step_spec s0 hs f st :
  remove_inv s0 hs f st →
  match remove_step f st with
  | Some (inl st') => remove_inv s0 hs f st' ∧ (remove_measure st' < remove_measure st)%nat
  | Some (inr (s', removed')) => remove_inv s0 hs f ([], s', removed')
  | None => False
  end.
Proof.
  intros Hinv. destruct st as [[stack s] removed]. cbn [remove_step].
  destruct (vec_pop stack) as [[h stack']|] eqn:Hpop; cycle 1.
  { apply vec_pop_None in Hpop as ->. done. }
  apply vec_pop_Some in Hpop as ->.
  destruct (ready_tx s !! h) as [r|] eqn:Hr; cycle 1.
  { split; [by eapply remove_inv_skip|unfold remove_measure; simpl; rewrite length_app; simpl; lia]. }
  split; [by apply remove_inv_take|]. unfold remove_measure. simpl.
  set (provided := remove_marks _ _).
  pose proof (foldl_unlink_measure provided (delete h (ready_tx s)) (requires (rt_pool_tx r))) as Hlen.
  rewrite (map_sum_delete (λ r, S (length (unlocks r))) (ready_tx s) h r Hr).
  case_bool_decide; rewrite !length_app; simpl; lia.
Qed.

Lemma remove_with_markers_spec s hs f :
  ready_inv_upto (filter_set f) s →
  ∃ s' removed, remove_with_markers s hs f = Some (s', removed) ∧
    remove_inv s hs f ([], s', removed).
Proof.
  intros Hinv. unfold remove_with_markers.
  assert (remove_inv s hs f (hs, s, [])) as Hinit.
  { split; simpl; [exact Hinv|done|apply same_links_refl|by auto| |].
    - by intros ? ?%not_elem_of_nil.
    - intros; congruence. }
  destruct (loop_total (remove_step f) (remove_inv s hs f)
    (λ res, remove_inv s hs f ([], res.1, res.2)) remove_measure) with
    (fuel := S (remove_measure (hs, s, [] : list (PoolTransaction Tx)))) (s := (hs, s, [] : list (PoolTransaction Tx)))
    as ([s' removed] & Hl & Hr); [|lia|done|eauto].
  intros st Hst. pose proof (remove_step_spec _ _ _ _ Hst) as Hstep.
  by destruct (remove_step f st) as [[st'|[s' rem']]|].
Qed.

(** ** The two queries that only read *)
Lemma ready_contains_spec s h : ready_contains s h = true ↔ is_Some (ready_tx s !! h).
Proof. apply bool_decide_eq_true. Qed.
End remove.

Section add.
Context {Tx : Type} `{TxEnvelope Tx}.
Context `{!HashOrder TxHash} `{!HashOrder TxMarker}.
Implicit Types (s : ReadyTransactions Tx) (tx : PoolTransaction Tx).
Implicit Types (r : ReadyTransaction Tx) (x y : PoolTransactionRef Tx).
Implicit Types (ready : gmap TxHash (ReadyTransaction Tx)).

(** ** [replaced_transactions] *)
Lemma collect_unlocked_spec tx rs acc :
  match collect_unlocked tx rs acc with
  | Ok l => l = acc ++ concat (unlocks <$> rs)
  | Err e => e = ReplacementUnderpriced tx ∧
      ∃ r, r ∈ rs ∧ rt_provides r = provides tx ∧ max_fee_per_gas tx ≤ rt_max_fee_per_gas r
  end.
Proof.
  revert acc. induction rs as [|r rs IH]; intros acc; simpl; [by rewrite app_nil_r|].
  destruct (bool_decide (rt_provides r = provides tx) && _) eqn:Hb.
  - apply andb_true_iff in Hb as [?%bool_decide_eq_true ?%Z.leb_le].
    split; [done|]. exists r. by split_and!; [auto with anvil|..].
  - specialize (IH (acc ++ unlocks r)). destruct (collect_unlocked tx rs _).
    + rewrite IH. by rewrite <- app_assoc.
    + destruct IH as (? & r' & ? & ? & ?). split; [done|]. exists r'.
      by split_and!; [apply list_elem_of_further|..].
Qed.

Lemma elem_of_remove_hashes s tx h :
  h ∈ remove_hashes s tx ↔ ∃ m, m ∈ provides tx ∧ provided_markers s !! m = Some h.
Proof. unfold remove_hashes. by rewrite elem_of_list_to_set, list_elem_of_omap. Qed.

(** The state after the transactions that [tx] replaces are gone: only the
    markers of [tx] can dangle and no ready transaction provides them. *)
Definition replaced_state s tx s' : Prop :=
  ready_inv_upto (list_to_set (provides tx)) s' ∧ rts_id s' = rts_id s ∧
  ∀ h x, ready_refs (ready_tx s') !! h = Some x →
    ready_refs (ready_tx s) !! h = Some x ∧
    ∀ m, m ∈ provides (ref_transaction x) → m ∉ provides tx.

Lemma replaced_transactions_spec s tx :
  ready_wf s →
  ∃ s' res, replaced_transactions s tx = Some (s', res) ∧
    match res with
    | Ok (removed, _) => replaced_state s tx s' ∧ ∀ h x,
        ready_refs (ready_tx s) !! h = Some x → ready_refs (ready_tx s') !! h = None →
        ref_transaction x ∈ removed
    | Err e => s' = s ∧ e = ReplacementUnderpriced tx ∧ ∃ h r,
        ready_tx s !! h = Some r ∧ rt_provides r = provides tx ∧
        max_fee_per_gas tx ≤ rt_max_fee_per_gas r
    end.
Proof.
  intros Hwf. unfold replaced_transactions. destruct (decide _) as [He|Hne].
  { exists s. eexists. split; [reflexivity|].
    split; [|intros; congruence]. split_and!; [|done|].
    - eapply ready_inv_weaken; [|exact Hwf]. set_solver.
    - intros h x Hx. split; [done|]. intros m Hm Hm'.
      pose proof (ri_provides _ _ _ _ _ Hwf _ _ _ Hx Hm) as Hp.
      assert (h ∈ remove_hashes s tx) by (apply elem_of_remove_hashes; eauto).
      rewrite He in *. set_solver. }
  pose proof (collect_unlocked_spec tx
    (omap (λ h, ready_tx s !! h) (iter_set (remove_hashes s tx))) []) as Hc.
  destruct (collect_unlocked _ _ _) as [l|e].
  - assert (ready_inv_upto (filter_set (Some (list_to_set (provides tx)))) s) as Hinv.
    { eapply ready_inv_weaken; [|exact Hwf]. set_solver. }
    destruct (remove_with_markers_spec s (iter_set (remove_hashes s tx)) _ Hinv)
      as (s' & removed & -> & [Hinv' Hid Hlinks Hhs _ Hacc]).
    simpl in *. do 2 eexists. split; [reflexivity|]. split.
    2: { intros h x. rewrite ready_refs_lookup. intros (r & Hr & ->)%fmap_Some.
         rewrite ready_refs_lookup. intros Hn%fmap_None. by apply (Hacc _ _ Hr Hn). }
    split_and!; [done..|].
    intros h x. rewrite ready_refs_lookup. intros (r & Hr & ->)%fmap_Some.
    destruct (Hlinks h r Hr) as (r0 & Hr0 & Heq & _). rewrite Heq.
    assert (ready_refs (ready_tx s) !! h = Some (rt_transaction r0)) as Hx0.
    { by rewrite ready_refs_lookup, Hr0. }
    split; [done|]. intros m Hm Hm'.
    pose proof (ri_provides _ _ _ _ _ Hwf _ _ _ Hx0 Hm) as Hp.
    destruct (Hhs h) as [?%not_elem_of_nil|?]; [|done|congruence].
    apply elem_of_iter_set, elem_of_remove_hashes. eauto.
  - destruct Hc as (-> & r & (h & _ & Hr)%list_elem_of_omap & ? & ?).
    do 2 eexists. split; [reflexivity|]. split_and!; eauto 10.
Qed.

(** ** [add_transaction] *)
(** A transaction is linked to each provider of a marker it requires; its
    offset counts the requirements nobody in the queue provides. *)
Lemma link_fold_spec provided h ms ready indep offset :
  (∀ m h', m ∈ ms → provided !! m = Some h' → is_Some (ready_refs ready !! h')) →
  ∃ ready' indep', fold_m (link_step provided h) (ready, indep, offset) ms =
      Some (ready', indep', offset + Z.of_nat (length (filter (λ m, provided !! m = None) ms)))
    ∧ ready_refs ready' = ready_refs ready
    ∧ indep' = indep && bool_decide (Forall (λ m, provided !! m = None) ms).
Proof.
  revert ready indep offset. induction ms as [|m ms IH]; intros ready indep offset Hp.
  { exists ready, indep. simpl. rewrite Z.add_0_r, andb_true_r. done. }
  cbn [fold_m link_step]. rewrite filter_cons.
  destruct (provided !! m) as [h'|] eqn:Hm.
  - rewrite decide_False by done.
    destruct (Hp m h') as [x Hx]; [by apply list_elem_of_here|done|].
    rewrite ready_refs_lookup in Hx. apply fmap_Some in Hx as (r & Hr & ->).
    rewrite Hr. simpl.
    assert (Hrefs : ready_refs (<[h':=set_unlocks (unlocks r ++ [h]) r]> ready) = ready_refs ready).
    { by eapply ready_refs_update. }
    destruct (IH (<[h':=set_unlocks (unlocks r ++ [h]) r]> ready) false offset)
      as (ready' & indep' & -> & Hr' & ->).
    { rewrite Hrefs. intros m' h''  ? ?. eapply Hp; [by apply list_elem_of_further|done]. }
    exists ready'. eexists. split; [reflexivity|]. split; [congruence|].
    rewrite (bool_decide_false (Forall _ (m :: ms))); [by rewrite andb_false_r|].
    intros [? _]%Forall_cons. congruence.
  - rewrite decide_True by done.
    destruct (IH ready indep (offset + 1)) as (ready' & indep' & -> & Hr' & ->).
    { intros m' h''  ? ?. eapply Hp; [by apply list_elem_of_further|done]. }
    exists ready'. eexists. split; [simpl; do 2 f_equal; lia|]. split; [done|].
    f_equal. apply bool_decide_ext. rewrite Forall_cons. naive_solver.
Qed.

Lemma ready_add_spec s (ptx : PendingPoolTransaction Tx) :
  ready_wf s → tx_wf (pp_transaction ptx) → is_ready ptx = true →
  ready_tx s !! pp_hash ptx = None → 0 ≤ rts_id s < u64_max →
  ∃ s' res, ready_add_transaction s ptx = Some (s', res) ∧ ready_wf s' ∧
    match res with
    | Ok replaced => rts_id s' = rts_id s + 1 ∧
        (∃ r, ready_tx s' !! pp_hash ptx = Some r ∧
           rt_transaction r = mkPoolTransactionRef (pp_transaction ptx) (rts_id s)) ∧
        (∀ m, m ∈ provides (pp_transaction ptx) →
           provided_markers s' !! m = Some (pp_hash ptx)) ∧
        (∀ h x, h ≠ pp_hash ptx → ready_refs (ready_tx s') !! h = Some x →
           ready_refs (ready_tx s) !! h = Some x) ∧
        (∀ h x, ready_refs (ready_tx s) !! h = Some x →
           ready_refs (ready_tx s') !! h = None → ref_transaction x ∈ replaced)
    | Err e => s' = s ∧ e = ReplacementUnderpriced (pp_transaction ptx) ∧ ∃ h r,
        ready_tx s !! h = Some r ∧ rt_provides r = provides (pp_transaction ptx) ∧
        max_fee_per_gas (pp_transaction ptx) ≤ rt_max_fee_per_gas r
    end.
Proof.
  intros Hwf Htx Hready Hh Hid. unfold ready_add_transaction. rewrite Hready. simpl.
  fold (pp_hash ptx). set (tx := pp_transaction ptx) in *.
  destruct (ready_contains s (pp_hash ptx)) eqn:Hc.
  { apply ready_contains_spec in Hc as [??]. congruence. }
  destruct (replaced_transactions_spec s tx Hwf) as (s1 & res & -> & Hres).
  destruct res as [[removed unl]|e]; simpl.
  2: { destruct Hres as (-> & ? & ?). do 2 eexists. split; [reflexivity|]. done. }
  destruct Hres as [(Hinv & Hid1 & Hrefs) Hacc].
  destruct (link_fold_spec (provided_markers s1) (pp_hash ptx) (requires tx)
    (ready_tx s1) true 0) as (ready' & indep' & -> & Hr' & _).
  { intros m h' Hm Hp. destruct (ri_provided _ _ _ _ _ Hinv _ _ Hp) as [Hm'|(x & -> & _)]; [|done].
    apply elem_of_list_to_set in Hm'. by destruct (tw_disjoint _ Htx m). }
  simpl. assert (ready_refs (ready_tx s1) !! pp_hash ptx = None) as HhN.
  { destruct (ready_refs (ready_tx s1) !! pp_hash ptx) as [x|] eqn:Hx; [|done].
    apply Hrefs in Hx as [Hx _]. by rewrite ready_refs_lookup, Hh in Hx. }
  do 2 eexists. split; [reflexivity|].
  rewrite Hid1, wrap_u64_small by (unfold in_u64; lia).
  split.
  - unfold ready_wf, ready_inv_upto in *. simpl. rewrite ready_refs_insert, Hr'. simpl.
    rewrite Hid1 in Hinv.
    eapply (ready_inv_insert _ _ _ _ _ _ (mkPoolTransactionRef tx (rts_id s)));
      try done; [lia|by intros h' x' m [_ Hd]%Hrefs; apply Hd|].
    destruct indep'; auto.
  - split_and!; simpl; [done| | | |].
    + eexists. split; [apply lookup_insert_eq|done].
    + intros m Hm. rewrite lookup_insert_marks. by rewrite decide_True.
    + intros h x Hne. rewrite ready_refs_insert, lookup_insert_ne by done.
      rewrite Hr'. intros Hx. apply (Hrefs _ _ Hx).
    + intros h x Hx. rewrite ready_refs_insert, lookup_insert_None, Hr'.
      intros [Hn _]. by eapply Hacc.
Qed.
End add.

Section prune.
Context {Tx : Type} `{TxEnvelope Tx}.
Implicit Types (s : ReadyTransactions Tx) (tx : PoolTransaction Tx).
Implicit Types (r : ReadyTransaction Tx) (x y : PoolTransactionRef Tx).
Implicit Types (ready : gmap TxHash (ReadyTransaction Tx)).

Definition requires_weight (bound : nat) x : nat :=
  S (length (requires (ref_transaction x)) * bound).

Lemma prune_measure_refs bound (st : prune_state (Tx := Tx)) :
  prune_measure bound st =
  (length st.1.1 + map_sum (requires_weight bound) (ready_refs (ready_tx st.1.2)))%nat.
Proof. unfold prune_measure, ready_refs. by rewrite map_sum_fmap. Qed.

Lemma prune_previous_length provided h bound rem ready ms :
  (∀ k x, ready_refs ready !! k = Some x →
     (length (provides (ref_transaction x)) ≤ bound)%nat) →
  (length (foldl (prune_previous provided h) (rem, ready) ms).1 ≤
   length rem + length ms * bound)%nat.
Proof.
  revert rem ready. induction ms as [|m ms IH]; intros rem ready Hb; cbn [foldl]; [simpl; lia|].
  cbn [prune_previous]. destruct (provided !! m) as [h'|]; [|specialize (IH rem ready Hb); simpl; lia].
  destruct (ready !! h') as [r|] eqn:Hr; [|specialize (IH rem ready Hb); simpl; lia].
  set (u := match position _ _ with Some _ => _ | None => _ end).
  etrans; [apply IH|].
  - intros k x. erewrite ready_refs_update; [apply Hb|done|done].
  - rewrite length_app. specialize (Hb h' (rt_transaction r)).
    rewrite ready_refs_lookup, Hr in Hb. specialize (Hb eq_refl).
    unfold rt_provides, rt_pool_tx. case_bool_decide; simpl; lia.
Qed.

Lemma prune_previous_incl provided h rem ready ms m :
  m ∈ rem → m ∈ (foldl (prune_previous provided h) (rem, ready) ms).1.
Proof.
  revert rem ready. induction ms as [|m' ms IH]; intros rem ready Hm; [done|].
  cbn [foldl prune_previous]. repeat case_match; apply IH; try done;
    apply elem_of_app; by left.
Qed.

Lemma prune_provided_spec marker h provided ms :
  NoDup ms → (∀ m, m ∈ ms → provided !! m = if decide (marker = m) then None else Some h) →
  ∃ provided', fold_m (prune_provided marker h) provided ms = Some provided' ∧
    ∀ m, provided' !! m = if decide (m ∈ ms) then None else provided !! m.
Proof.
  revert provided. induction ms as [|m ms IH]; intros provided Hnd Hp.
  { exists provided. done. }
  apply NoDup_cons in Hnd as [Hm Hnd]. cbn [fold_m]. unfold prune_provided at 1.
  rewrite decide_True by (apply Hp, list_elem_of_here).
  destruct (IH (delete m provided) Hnd) as (provided' & -> & Hp').
  - intros m' Hm'. rewrite lookup_delete_ne by (intros ->; done).
    apply Hp. by auto with anvil.
  - exists provided'. split; [done|]. intros m'. rewrite Hp', lookup_delete.
    repeat case_decide; set_solver.
Qed.

Record prune_inv s0 marker0 bound (st : prune_state (Tx := Tx)) : Prop := {
  pri_wf : ready_wf st.1.2;
  pri_id : rts_id st.1.2 = rts_id s0;
  pri_refs : ready_refs (ready_tx st.1.2) ⊆ ready_refs (ready_tx s0);
  pri_bound h x : ready_refs (ready_tx st.1.2) !! h = Some x →
    (length (provides (ref_transaction x)) ≤ bound)%nat;
  pri_marker : marker0 ∈ st.1.1 ∨ provided_markers st.1.2 !! marker0 = None;
  pri_removed tx : tx ∈ st.2 → ∃ h x, ready_refs (ready_tx s0) !! h = Some x ∧
    tx = ref_transaction x ∧ ready_refs (ready_tx st.1.2) !! h = None;
  pri_account h x : ready_refs (ready_tx s0) !! h = Some x →
    ready_refs (ready_tx st.1.2) !! h = None → ref_transaction x ∈ st.2
}.

(** The transaction that provides the marker leaves the queue: its
    previous transactions are unlinked and may be pruned too, its unlocked
    ones become independent, the markers it provides go. *)
Record prune_removes s (marker : TxMarker) (h : TxHash) (r : ReadyTransaction Tx)
    (stack' stack1 : list TxMarker)
    (provided2 : gmap TxMarker TxHash) (ready2 : gmap TxHash (ReadyTransaction Tx))
    (indep2 : list (PoolTransactionRef Tx)) : Prop := {
  prr_refs : ready_refs ready2 = delete h (ready_refs (ready_tx s));
  prr_provided m : provided2 !! m =
    if decide (m ∈ provides (rt_pool_tx r)) then None else delete marker (provided_markers s) !! m;
  prr_stack bound : (∀ k y, ready_refs (ready_tx s) !! k = Some y →
      (length (provides (ref_transaction y)) ≤ bound)%nat) →
    (length stack1 ≤ length stack' + length (requires (rt_pool_tx r)) * bound)%nat;
  prr_incl m : m ∈ stack' → m ∈ stack1;
  prr_wf : ready_wf (mkReadyTransactions (rts_id s) provided2 ready2 indep2)
}.

Lemma prune_step_removes stack' s removed marker h :
  ready_wf s → provided_markers s !! marker = Some h →
  ∃ r stack1 provided2 ready2 indep2,
    ready_tx s !! h = Some r ∧ marker ∈ provides (rt_pool_tx r) ∧
    prune_step (stack' ++ [marker], s, removed) =
      Some (inl (stack1, mkReadyTransactions (rts_id s) provided2 ready2 indep2,
                 removed ++ [rt_pool_tx r])) ∧
    prune_removes s marker h r stack' stack1 provided2 ready2 indep2.
Proof.
  intros Hwf Hp.
  destruct (ri_provided _ _ _ _ _ Hwf _ _ Hp) as [?%not_elem_of_empty|(x & Hx & Hxm)]; [done|].
  pose proof Hx as Hx'. rewrite ready_refs_lookup in Hx'. apply fmap_Some in Hx' as (r & Hr & ->).
  set (tx := rt_pool_tx r). assert (hash tx = h) as Hh by apply (ri_hash _ _ _ _ _ Hwf _ _ Hx).
  set (provided1 := delete marker (provided_markers s)).
  destruct (foldl (prune_previous provided1 h) (stack', delete h (ready_tx s)) (requires tx))
    as [stack1 ready1] eqn:Hprev.
  assert (ready_refs ready1 = delete h (ready_refs (ready_tx s))) as Hr1.
  { pose proof (prune_previous_refs provided1 h stack' (delete h (ready_tx s)) (requires tx)) as Hf.
    rewrite Hprev in Hf. simpl in Hf. by rewrite Hf, ready_refs_delete. }
  set (indep1 := bt_remove ref_cmp (rt_transaction r) (independent_transactions s)).
  destruct (foldl prune_unlock (ready1, indep1) (unlocks r)) as [ready2 indep2] eqn:Hun.
  pose proof (prune_unlock_refs ready1 indep1 (unlocks r)) as Hr2. rewrite Hun, Hr1 in Hr2. simpl in Hr2.
  destruct (prune_provided_spec marker h provided1 (provides tx)) as (provided2 & Hpp & Hp2).
  { apply (ri_wf _ _ _ _ _ Hwf _ _ Hx). }
  { intros m Hm'. unfold provided1. rewrite lookup_delete. case_decide; [done|].
    apply (ri_provides _ _ _ _ _ Hwf _ _ _ Hx Hm'). }
  assert (ready_inv ∅ (rts_id s) provided2 (delete h (ready_refs (ready_tx s))) indep1) as Hwf'.
  { apply (ready_inv_delete _ _ _ _ _ _ _ _ Hwf Hx).
    - intros m Hm' _. by rewrite Hp2, decide_True.
    - intros m Hm'. pose proof (not_elem_of_empty (C := gset TxMarker) m).
      rewrite Hp2, decide_False by tauto. apply lookup_delete_ne. intros <-. tauto. }
  destruct (prune_unlock_indep (delete h (ready_refs (ready_tx s))) ready1 indep1 (unlocks r))
    as [Hin2 Hs2]; [done|apply Hwf'|apply Hwf'|apply Hwf'|].
  rewrite Hun in Hin2, Hs2. simpl in Hin2, Hs2.
  exists r, stack1, provided2, ready2, indep2. split; [done|]. split; [done|]. split.
  - cbn [prune_step]. rewrite vec_pop_snoc, Hp. cbn. rewrite Hr. cbn. fold tx. rewrite Hh.
    fold provided1. rewrite Hprev. fold indep1. rewrite Hun, Hpp. done.
  - split; [done|done| | |].
    + intros bound Hb. pose proof (prune_previous_length provided1 h bound stack' (delete h (ready_tx s))
        (requires tx)) as Hf. rewrite Hprev in Hf. apply Hf.
      intros k y. rewrite ready_refs_delete. intros [_ ?]%lookup_delete_Some. by eapply Hb.
    + intros m Hm. pose proof (prune_previous_incl provided1 h stack' (delete h (ready_tx s))
        (requires tx) m Hm) as Hf. by rewrite Hprev in Hf.
    + unfold ready_wf, ready_inv_upto. simpl. rewrite Hr2. destruct Hwf'. by split.
Qed.

Lemma prune_step_spec s0 marker0 bound st :
  prune_inv s0 marker0 bound st →
  match prune_step st with
  | Some (inl st') => prune_inv s0 marker0 bound st' ∧
      (prune_measure bound st' < prune_measure bound st)%nat
  | Some (inr (s', removed')) => prune_inv s0 marker0 bound ([], s', removed')
  | None => False
  end.
Proof.
  intros Hinv. destruct st as [[stack s] removed].
  destruct (vec_pop stack) as [[marker stack']|] eqn:Hpop; cycle 1.
  { cbn [prune_step]. rewrite Hpop. apply vec_pop_None in Hpop as ->. done. }
  apply vec_pop_Some in Hpop as ->. destruct Hinv as [Hwf Hid Hrefs Hb Hm Hrem Hacc].
  simpl in Hwf, Hid, Hrefs, Hb, Hm, Hrem, Hacc.
  destruct (provided_markers s !! marker) as [h|] eqn:Hp; cycle 1.
  { cbn [prune_step]. rewrite vec_pop_snoc, Hp. rewrite delete_id by done. split.
    - split; simpl; [by destruct s|done..| |done|done].
      destruct Hm as [[?| ->%list_elem_of_singleton]%elem_of_app|?]; auto.
    - unfold prune_measure. simpl. rewrite length_app. simpl. lia. }
  destruct (prune_step_removes stack' s removed marker h Hwf Hp)
    as (r & stack1 & provided2 & ready2 & indep2 & Hr & Hmr & -> & [Hr2 Hp2 Hlen Hincl Hwf2]).
  assert (ready_refs (ready_tx s) !! h = Some (rt_transaction r)) as Hx by by rewrite ready_refs_lookup, Hr.
  split; [split; simpl|].
  - done.
  - done.
  - rewrite Hr2. etrans; [apply delete_subseteq|done].
  - intros k y. rewrite Hr2. intros [_ ?]%lookup_delete_Some. by eapply Hb.
  - rewrite Hp2. destruct (decide (marker0 = marker)) as [->|Hne].
    + right. rewrite lookup_delete_eq. by case_decide.
    + destruct Hm as [[Hs| ->%list_elem_of_singleton]%elem_of_app|Hn]; [by left; apply Hincl|done|].
      right. case_decide; [done|]. by rewrite lookup_delete_ne.
  - intros tx' [Hin| ->%list_elem_of_singleton]%elem_of_app.
    + destruct (Hrem _ Hin) as (k & y & ? & ? & Hn). exists k, y. split_and!; [done..|].
      rewrite Hr2. apply lookup_delete_None. by right.
    + exists h, (rt_transaction r). split_and!; [by eapply lookup_weaken|done|].
      rewrite Hr2. apply lookup_delete_eq.
  - intros k y Hy. rewrite Hr2, elem_of_app, list_elem_of_singleton.
    intros [->|Hn]%lookup_delete_None; [right|left; by eapply Hacc].
    assert (ready_refs (ready_tx s0) !! k = Some (rt_transaction r)) by (by eapply lookup_weaken).
    simplify_eq. done.
  - rewrite !prune_measure_refs. cbn [fst snd ready_tx]. rewrite Hr2.
    rewrite (map_sum_delete (requires_weight bound) (ready_refs (ready_tx s)) h _ Hx).
    specialize (Hlen bound Hb). unfold requires_weight at 2. fold (rt_pool_tx r). rewrite length_app. simpl. lia.
Qed.

(** What [prune_tags] leaves behind. *)
Lemma prune_tags_total s marker :
  ready_wf s →
  ∃ s' removed, prune_tags s marker = Some (s', removed) ∧
    prune_inv s marker (provides_bound s) ([], s', removed).
Proof.
  intros Hwf. unfold prune_tags.
  set (st := ([marker], s, [] : list (PoolTransaction Tx))).
  assert (prune_inv s marker (provides_bound s) st) as Hinit.
  { split; simpl; [exact Hwf|done|done| | | |].
    - intros h x. rewrite ready_refs_lookup. intros (r & Hr & ->)%fmap_Some.
      apply (map_sum_lookup_le (λ r, length (rt_provides r)) _ _ _ Hr).
    - left. apply list_elem_of_here.
    - by intros ? ?%not_elem_of_nil.
    - intros; congruence. }
  destruct (loop_total prune_step (prune_inv s marker (provides_bound s))
    (λ res, prune_inv s marker (provides_bound s) ([], res.1, res.2))
    (prune_measure (provides_bound s))) with
    (fuel := S (prune_measure (provides_bound s) st)) (s := st)
    as ([s' removed] & Hl & Hr); [|lia|done|eauto].
  intros st' Hst. pose proof (prune_step_spec _ _ _ _ Hst) as Hstep.
  by destruct (prune_step st') as [[st''|[s' rem']]|].
Qed.

(** Nothing happens when nobody provides the marker. *)
Lemma prune_tags_absent s marker :
  provided_markers s !! marker = None → prune_tags s marker = Some (s, []).
Proof.
  intros Hm. unfold prune_tags. cbn [loop prune_step].
  change [marker] with ([] ++ [marker]). rewrite vec_pop_snoc, Hm. simpl.
  rewrite delete_id by done.
  unfold prune_measure. simpl. by destruct s.
Qed.
End prune.

Section iterator_proofs.
Context {Tx : Type} `{TxEnvelope Tx}.
Implicit Types (it : TransactionsIterator Tx) (x y : PoolTransactionRef Tx).

Lemma independent_or_awaiting_spec it n x :
  bt_sorted ref_cmp (independent it) →
  all (independent_or_awaiting it n x) = all it ∧
  bt_sorted ref_cmp (independent (independent_or_awaiting it n x)).
Proof.
  intros Hs. unfold independent_or_awaiting. case_match; simpl; split; try done.
  by apply (bt_insert_sorted ref_cmp).
Qed.
Lemma unlock_next_spec it hs :
  bt_sorted ref_cmp (independent it) →
  all (foldl unlock_next it hs) = all it ∧
  bt_sorted ref_cmp (independent (foldl unlock_next it hs)).
Proof.
  revert it. induction hs as [|h hs IH]; intros it Hs; simpl; [done|].
  assert (all (unlock_next it h) = all it ∧ bt_sorted ref_cmp (independent (unlock_next it h)))
    as [<- Hs'].
  { unfold unlock_next. destruct (awaiting it !! h) as [[n x]|].
    - by apply (independent_or_awaiting_spec (mkTransactionsIterator _ _ _)).
    - destruct (all it !! h); [by apply independent_or_awaiting_spec|done]. }
  by apply IH.
Qed.

(** A step of [next] from [it0]: nothing but references to transactions
    that left the pool has been skipped. *)
Definition next_inv it0 it : Prop :=
  all it = all it0 ∧ bt_sorted ref_cmp (independent it) ∧
  (∀ y, y ∈ independent it → y ∈ independent it0) ∧
  (∀ y, y ∈ independent it0 → y ∈ independent it ∨ all it0 !! ref_hash y = None).

Definition next_post it0 (res : option (PoolTransaction Tx) * TransactionsIterator Tx) : Prop :=
  all res.2 = all it0 ∧ bt_sorted ref_cmp (independent res.2) ∧
  match res.1 with
  | None => ∀ y, y ∈ independent it0 → all it0 !! ref_hash y = None
  | Some tx => ∃ x, x ∈ independent it0 ∧ ref_transaction x = tx ∧
      is_Some (all it0 !! ref_hash x) ∧
      ∀ y, y ∈ independent it0 → is_Some (all it0 !! ref_hash y) →
        y = x ∨ ref_cmp y x = Lt
  end.

Lemma next_step_spec it0 it :
  next_inv it0 it →
  match next_step it with
  | Some (inl it') => next_inv it0 it' ∧
      (length (independent it') < length (independent it))%nat
  | Some (inr res) => next_post it0 res
  | None => False
  end.
Proof.
  intros (Hall & Hs & Hsub & Hold). unfold next_step.
  destruct (last (independent it)) as [best|] eqn:Hl; simpl; cycle 1.
  { apply last_None in Hl. split_and!; simpl; [done..|]. intros y Hy.
    destruct (Hold y Hy) as [Hy'|?]; [|done]. rewrite Hl in Hy'. by apply not_elem_of_nil in Hy'. }
  pose proof (bt_take_last ref_cmp best _ Hs Hl) as Ht. rewrite Ht.
  pose proof (bt_remove_length ref_cmp _ _ _ Ht) as Hlen.
  assert (Hrem : ∀ y, y ∈ independent it → y = best ∨ y ∈ bt_remove ref_cmp best (independent it)).
  { intros y Hy. destruct (bt_last_max ref_cmp best y _ Hs Hl Hy) as [?|Hlt]; [by left|right].
    apply (bt_remove_spec ref_cmp best y _ Hs). split; [done|].
    rewrite cmp_antisym, Hlt. done. }
  destruct (all it !! ref_hash best) as [r|] eqn:Hb; simpl.
  - assert (bt_sorted ref_cmp (bt_remove ref_cmp best (independent it))) as Hs'
      by by apply (bt_remove_sorted ref_cmp).
    destruct (unlock_next_spec (mkTransactionsIterator (all it) (awaiting it)
      (bt_remove ref_cmp best (independent it))) (unlocks r) Hs') as [Ha' Hs''].
    split_and!; simpl; [by rewrite Ha'|done|].
    apply last_Some_elem_of in Hl as Hbin. exists best.
    split_and!; [by apply Hsub|done|rewrite <- Hall, Hb; by eexists|].
    intros y Hy [??]. destruct (Hold y Hy) as [Hy'|?]; [|congruence].
    by apply (bt_last_max ref_cmp best y _ Hs Hl).
  - rewrite Hlen. split; [|lia]. split_and!; simpl; [done| | |].
    + by apply (bt_remove_sorted ref_cmp).
    + intros y Hy. by eapply Hsub, bt_remove_elem.
    + intros y Hy. destruct (Hold y Hy) as [Hy'|?]; [|by right].
      destruct (Hrem y Hy') as [->|?]; [right|by left]. by rewrite <- Hall.
Qed.

Lemma next_spec it :
  bt_sorted ref_cmp (independent it) → ∃ res, next it = Some res ∧ next_post it res.
Proof.
  intros Hs. unfold next.
  apply (loop_total next_step (next_inv it) (next_post it) (length ∘ independent)).
  - intros it' Hi. pose proof (next_step_spec _ _ Hi). by destruct (next_step it') as [[]|].
  - simpl. lia.
  - split_and!; auto.
Qed.

Lemma iter_take_spec n it :
  bt_sorted ref_cmp (independent it) →
  ∃ l, iter_take n it = Some l ∧ (length l ≤ n)%nat ∧
    ∀ tx, tx ∈ l → ∃ h r, all it !! h = Some r ∧ h = hash tx.
Proof.
  revert it. induction n as [|n IH]; intros it Hs; cbn [iter_take].
  { exists []. split_and!; [done|done|]. by intros ? ?%not_elem_of_nil. }
  destruct (next_spec it Hs) as ([o it'] & -> & Ha & Hs' & Ho). simpl in *.
  destruct o as [tx|].
  - destruct (IH it' Hs') as (l & -> & Hlen & Hl). simpl.
    exists (tx :: l). split_and!; [done|simpl; lia|].
    intros tx' [->|Hin]%elem_of_cons.
    + destruct Ho as (x & _ & <- & [r Hr] & _). by exists (ref_hash x), r.
    + rewrite <- Ha. by apply Hl.
  - exists []. split_and!; [done|simpl; lia|]. by intros ? ?%not_elem_of_nil.
Qed.
End iterator_proofs.
