(* ===== verification/Pool.v ===== *)
(** * The transaction pool

    [PoolInner] of [crates/anvil/src/eth/pool/mod.rs]: the two queues and
    the operations that move transactions between them.  A state change that
    precedes an error is kept: an operation returns the new state and its
    [Result]; [None] is a panic. *)
From stdpp Require Import base list gmap strings sorting.
From Stdlib Require Import ZArith Lia.
From S2P Require Import Prelude Containers PoolTx PendingQueue ReadyQueue.

Record PoolInner (Tx : Type) := mkPoolInner {
  ready_transactions : ReadyTransactions Tx;
  pending_transactions : PendingTransactions Tx
}.
Arguments mkPoolInner {Tx}.
Arguments ready_transactions {Tx}.
Arguments pending_transactions {Tx}.

(** [ReadyTransaction] of [mod.rs]: the report about an added transaction. *)
Record AddedReady (Tx : Type) := mkAddedReady {
  ar_hash : TxHash;
  promoted : list TxHash;
  discarded : list TxHash;
  removed : list (PoolTransaction Tx)
}.
Arguments mkAddedReady {Tx}.
Arguments ar_hash {Tx}.
Arguments promoted {Tx}.
Arguments discarded {Tx}.
Arguments removed {Tx}.

Inductive AddedTransaction (Tx : Type) :=
| AddedToReady (r : AddedReady Tx)
| AddedToPending (h : TxHash).
Arguments AddedToReady {Tx} r.
Arguments AddedToPending {Tx} h.

Record PruneResult (Tx : Type) := mkPruneResult {
  pr_promoted : list (AddedTransaction Tx);
  pr_failed : list TxHash;
  pr_pruned : list (PoolTransaction Tx)
}.
Arguments mkPruneResult {Tx}.
Arguments pr_promoted {Tx}.
Arguments pr_failed {Tx}.
Arguments pr_pruned {Tx}.

(** [MinedBlockOutcome] of [eth/backend/mem/storage.rs]. *)
Record MinedBlockOutcome (Tx : Type) := mkMinedBlockOutcome {
  mbo_block_number : Z;
  included : list (PoolTransaction Tx);
  invalid : list (PoolTransaction Tx)
}.
Arguments mkMinedBlockOutcome {Tx}.
Arguments mbo_block_number {Tx}.
Arguments included {Tx}.
Arguments invalid {Tx}.

Section pool.
Context {Tx : Type} `{TxEnvelope Tx}.
Context `{!HashOrder TxHash} `{!HashOrder TxMarker}.
Implicit Types (p : PoolInner Tx) (tx : PoolTransaction Tx).

Definition added_hash (a : AddedTransaction Tx) : TxHash :=
  match a with AddedToReady r => ar_hash r | AddedToPending h => h end.

Definition pool_default : PoolInner Tx := mkPoolInner ready_default pending_default.
Definition pool_clear p : PoolInner Tx :=
  mkPoolInner (ready_clear (ready_transactions p)) (pending_clear (pending_transactions p)).
Definition pool_contains p (h : TxHash) : bool :=
  pending_contains (pending_transactions p) h || ready_contains (ready_transactions p) h.
Definition get_transaction p (h : TxHash) : option (PendingTransaction Tx) :=
  match pending_get (pending_transactions p) h with
  | Some pending => Some (pending_transaction (pp_transaction pending))
  | None => r ← ready_get (ready_transactions p) h; Some (pending_transaction (rt_pool_tx r))
  end.
(** [Pool::txpool_status]: numbers of ready and of waiting transactions. *)
Definition txpool_status p : Z * Z :=
  let as_u64 n := if decide (Z.of_nat n ≤ u64_max) then Z.of_nat n else 0 in
  (as_u64 (ready_len (ready_transactions p)), as_u64 (pending_len (pending_transactions p))).

Definition new_added (h : TxHash) : AddedReady Tx := mkAddedReady h [] [] [].

(** One round of the [while] loop of [add_ready_transaction]. *)
Definition queue_state : Type :=
  list (PendingPoolTransaction Tx) * bool * AddedReady Tx * PoolInner Tx.

Definition add_ready_step (st : queue_state)
    : option (queue_state + PoolInner Tx * result (PoolError Tx) (AddedReady Tx)) :=
  let '(tx_queue, is_new_tx, ready, p) := st in
  match tx_queue with
  | [] => Some (inr (p, Ok ready))
  | current_tx :: tx_queue =>
      '(pending, unlocked) ←
        mark_and_unlock (pending_transactions p) (provides (pp_transaction current_tx));
      let tx_queue := tx_queue ++ unlocked in
      let current_hash := pp_hash current_tx in
      '(rts, res) ← ready_add_transaction (ready_transactions p) current_tx;
      let p := mkPoolInner rts pending in
      match res with
      | Ok replaced =>
          Some (inl (tx_queue, false,
            mkAddedReady (ar_hash ready)
              (if is_new_tx : bool then promoted ready else promoted ready ++ [current_hash])
              (discarded ready) (removed ready ++ replaced), p))
      | Err err =>
          if is_new_tx : bool then Some (inr (p, Err err))
          else
            Some (inl (tx_queue, false,
              mkAddedReady (ar_hash ready) (promoted ready)
                (discarded ready ++ [current_hash]) (removed ready), p))
      end
  end.

Definition queue_measure (st : queue_state) : nat :=
  length st.1.1.1 + size (waiting_queue (pending_transactions st.2)).

Definition add_ready_transaction p (ptx : PendingPoolTransaction Tx)
    : option (PoolInner Tx * result (PoolError Tx) (AddedTransaction Tx)) :=
  let h := pp_hash ptx in
  let st := ([ptx], true, new_added h, p) in
  '(p, res) ← loop add_ready_step (S (queue_measure st)) st;
  match res with
  | Err e => Some (p, Err e)
  | Ok ready =>
      if bool_decide (h ∈ (hash <$> removed ready)) then
        '(rts, _) ← clear_transactions (ready_transactions p) (promoted ready);
        Some (mkPoolInner rts (pending_transactions p), Err CyclicTransaction)
      else Some (p, Ok (AddedToReady ready))
  end.

(** [PoolInner::add_transaction], at time [now]. *)
Definition add_transaction p tx (now : Z)
    : option (PoolInner Tx * result (PoolError Tx) (AddedTransaction Tx)) :=
  if pool_contains p (hash tx) then Some (p, Err (AlreadyImported tx))
  else
    let ptx := new_pending tx (provided_markers (ready_transactions p)) now in
    if negb (is_ready ptx) then
      '(pending, res) ← pending_add_transaction (pending_transactions p) ptx;
      let p := mkPoolInner (ready_transactions p) pending in
      match res with
      | Err e => Some (p, Err e)
      | Ok _ => Some (p, Ok (AddedToPending (hash tx)))
      end
    else add_ready_transaction p ptx.

(** [PoolInner::prune_markers]: first all markers, then the promotions. *)
Definition prune_marker
    (st : PoolInner Tx * list (PendingPoolTransaction Tx) * list (PoolTransaction Tx))
    (m : TxMarker)
    : option (PoolInner Tx * list (PendingPoolTransaction Tx) * list (PoolTransaction Tx)) :=
  let '(p, imports, pruned) := st in
  '(pending, unlocked) ← mark_and_unlock (pending_transactions p) [m];
  '(rts, txs) ← prune_tags (ready_transactions p) m;
  Some (mkPoolInner rts pending, imports ++ unlocked, pruned ++ txs).

Definition promote_import (st : PoolInner Tx * list (AddedTransaction Tx) * list TxHash)
    (ptx : PendingPoolTransaction Tx)
    : option (PoolInner Tx * list (AddedTransaction Tx) * list TxHash) :=
  let '(p, promoted, failed) := st in
  '(p, res) ← add_ready_transaction p ptx;
  match res with
  | Ok res => Some (p, promoted ++ [res], failed)
  | Err _ => Some (p, promoted, failed ++ [pp_hash ptx])
  end.

Definition prune_markers p (markers : list TxMarker) : option (PoolInner Tx * PruneResult Tx) :=
  '(p, imports, pruned) ← fold_m prune_marker (p, [], []) markers;
  '(p, promoted, failed) ← fold_m promote_import (p, [], []) imports;
  Some (p, mkPruneResult promoted failed pruned).

Definition remove_invalid p (tx_hashes : list TxHash)
    : option (PoolInner Tx * list (PoolTransaction Tx)) :=
  match tx_hashes with
  | [] => Some (p, [])
  | _ =>
      '(rts, removed) ← remove_with_markers (ready_transactions p) tx_hashes None;
      let '(pending, removed') := pending_remove (pending_transactions p) tx_hashes in
      Some (mkPoolInner rts pending, removed ++ removed')
  end.

(** [Pool::on_mined_block]. *)
Definition on_mined_block p (outcome : MinedBlockOutcome Tx)
    : option (PoolInner Tx * PruneResult Tx) :=
  '(p, _) ← remove_invalid p (hash <$> invalid outcome);
  prune_markers p (mjoin (provides <$> included outcome)).

(** [Pool::drop_transaction]. *)
Definition drop_transaction p (h : TxHash)
    : option (PoolInner Tx * option (PoolTransaction Tx)) :=
  '(rts, removed) ← remove_with_markers (ready_transactions p) [h] None;
  Some (mkPoolInner rts (pending_transactions p),
        snd <$> list_find (λ t, pt_hash (pending_transaction t) = h) removed).
End pool.

(** [required_marker] of [eth/api.rs]: a transaction ahead of the account's
    nonce waits for the transaction with the previous nonce. *)
Definition required_marker (provided_nonce on_chain_nonce : Z) (from : Address)
    : list TxMarker :=
  if provided_nonce =? on_chain_nonce then []
  else
    let prev_nonce := saturating_sub provided_nonce 1 in
    if on_chain_nonce <=? prev_nonce then [to_marker prev_nonce from] else [].

(** [EthApi::add_pending_transaction] and its callers build the transaction
    that goes to the pool like this. *)
Definition node_transaction {Tx} `{TxEnvelope Tx} (order : TransactionOrder)
    (t : PendingTransaction Tx) (nonce on_chain_nonce : Z) : PoolTransaction Tx :=
  mkPoolTransaction t (required_marker nonce on_chain_nonce (sender t))
    [to_marker nonce (sender t)] (priority order (transaction t)).
