(* ===== verification/PoolProofs.v ===== *)
(** * Correctness of the transaction pool

    The pool invariant [pool_wf], its preservation by every operation
    (which never panics), what an accepted transaction finds in the pool and
    the facts about the markers that a node submits. *)
From stdpp Require Import base list gmap strings sorting.
From Stdlib Require Import ZArith Lia.
From S2P Require Import Prelude Containers PoolTx PendingQueue ReadyQueue ReadyInvariant.
From S2P Require Import ReadyProofs Pool.

(** ** Markers *)

Definition is_address (a : Address) : Prop := 0 ≤ a < 2 ^ 160.

Lemma to_marker_inj nonce from nonce' from' :
  in_u64 nonce → in_u64 nonce' → is_address from → is_address from' →
  to_marker nonce from = to_marker nonce' from' → nonce = nonce' ∧ from = from'.
Proof.
  unfold in_u64, u64_max, is_address. intros Hn Hn' Ha Ha'.
  unfold to_marker. intros [Hl Hr]%app_inj_1; [|by rewrite !length_le_bytes].
  apply le_bytes_inj in Hl; [|simpl; lia..].
  apply (inj reverse), le_bytes_inj in Hr; [done|simpl; lia..].
Qed.

Lemma node_transaction_wf {Tx} `{TxEnvelope Tx} order (t : PendingTransaction Tx)
    nonce on_chain_nonce :
  in_u64 nonce → in_u64 on_chain_nonce → is_address (sender t) →
  tx_wf (node_transaction order t nonce on_chain_nonce).
Proof.
  intros Hn Hc Ha. split; simpl; [apply NoDup_singleton|].
  intros m Hm Hp. apply list_elem_of_singleton in Hp as ->.
  unfold required_marker, saturating_sub in Hm. case_match; [by apply not_elem_of_nil in Hm|].
  case_match; [|by apply not_elem_of_nil in Hm].
  apply list_elem_of_singleton in Hm. unfold in_u64, u64_max in *.
  apply to_marker_inj in Hm as [Hm _]; [|unfold in_u64, u64_max; lia..|done|done]. lia.
Qed.

Section pool_proofs.
Context {Tx : Type} `{TxEnvelope Tx}.
Context `{!HashOrder TxHash} `{!HashOrder TxMarker}.
Implicit Types (p : PoolInner Tx) (tx : PoolTransaction Tx).
Implicit Types (ptx : PendingPoolTransaction Tx).

Abbreviation waiting p := (waiting_queue (pending_transactions p)).
Abbreviation ready p := (ready_tx (ready_transactions p)).

Record pool_wf p : Prop := {
  pool_pending : pending_wf (pending_transactions p);
  pool_ready : ready_wf (ready_transactions p);
  pool_waiting_wf h ptx : waiting p !! h = Some ptx → tx_wf (pp_transaction ptx);
  pool_disjoint h : is_Some (waiting p !! h) → ready p !! h = None
}.

(** The 64 bit id counter does not wrap: there is room for the waiting
    transactions and [extra] more. *)
Definition id_room p (extra : nat) : Prop :=
  0 ≤ rts_id (ready_transactions p) ∧
  rts_id (ready_transactions p) + Z.of_nat (size (waiting p)) + Z.of_nat extra ≤ u64_max.

(** Transactions on their way from the waiting to the ready queue. *)
Definition in_transit p (txs : list (PendingPoolTransaction Tx)) : Prop :=
  NoDup (pp_hash <$> txs) ∧
  ∀ ptx, ptx ∈ txs → is_ready ptx = true ∧ tx_wf (pp_transaction ptx) ∧
    waiting p !! pp_hash ptx = None ∧ ready p !! pp_hash ptx = None.

(** [p'] holds no hash that neither [p] nor [hs] had. *)
Definition no_new p p' (hs : list TxHash) : Prop :=
  (∀ h, is_Some (waiting p' !! h) → is_Some (waiting p !! h)) ∧
  (∀ h, is_Some (ready p' !! h) →
     is_Some (ready p !! h) ∨ is_Some (waiting p !! h) ∨ h ∈ hs).

Lemma pool_default_wf : pool_wf pool_default.
Proof.
  split; simpl; [apply pending_default_wf|apply ready_default_wf|done|].
  by intros h _.
Qed.

(** ** Unlocking moves transactions out of the waiting queue *)
Lemma unlocked_size (wq wq' : gmap TxHash (PendingPoolTransaction Tx)) M out :
  (∀ h ptx, wq !! h = Some ptx → pp_hash ptx = h) →
  (∀ h, wq' !! h = wq !! h ≫= stays M) → unlocked wq M out →
  (length out + size wq' ≤ size wq)%nat.
Proof.
  intros Hhash Hwq [Hnd Hout].
  rewrite <- (length_fmap pp_hash out), <- !size_dom.
  rewrite <- (size_list_to_set (C := gset TxHash) (pp_hash <$> out)) by done.
  rewrite <- size_union.
  - apply subseteq_size. intros h. rewrite elem_of_union, elem_of_list_to_set, !elem_of_dom.
    intros [(t & -> & (h' & ptx & Hp & Hl)%Hout)%list_elem_of_fmap|[t Ht]].
    + apply leaves_hash in Hl as ->. rewrite (Hhash _ _ Hp). by eexists.
    + rewrite Hwq in Ht. apply bind_Some in Ht as (ptx & ? & _). by eexists.
  - intros h. rewrite elem_of_list_to_set, elem_of_dom.
    intros (t & -> & (h' & ptx & Hp & Hl)%Hout)%list_elem_of_fmap [t' Ht'].
    apply leaves_hash in Hl as Hh. rewrite Hh, Hwq, (Hhash _ _ Hp), Hp in Ht'. simpl in Ht'.
    unfold leaves, stays in *. by case_decide.
Qed.

(** Marking [ms]: the pool, the transactions in transit and the unlocked
    ones. *)
Lemma unlock_step p ms txs :
  pool_wf p → in_transit p txs →
  ∃ pending' unl, mark_and_unlock (pending_transactions p) ms = Some (pending', unl) ∧
    let p' := mkPoolInner (ready_transactions p) pending' in
    pool_wf p' ∧ in_transit p' (txs ++ unl) ∧ no_new p p' [] ∧
    (length unl + size (waiting p') ≤ size (waiting p))%nat ∧
    (∀ ptx, ptx ∈ unl → is_Some (waiting p !! pp_hash ptx)).
Proof.
  intros [Hpw Hrw Hww Hd] [Hnd Htr].
  destruct (mark_and_unlock_spec _ ms Hpw) as (pending' & unl & -> & Hpw' & Hwq & Hunl).
  exists pending', unl. split; [done|]. simpl.
  assert (Hfrom : ∀ ptx, ptx ∈ unl → ∃ ptx0, waiting p !! pp_hash ptx = Some ptx0 ∧
    leaves (list_to_set ms) ptx0 = Some ptx).
  { intros ptx (h & ptx0 & Hp0 & Hl)%Hunl. exists ptx0.
    by rewrite (leaves_hash _ _ _ Hl), (pw_hash _ Hpw _ _ Hp0). }
  assert (Hstay : ∀ h ptx, waiting_queue pending' !! h = Some ptx → ∃ ptx0,
    waiting p !! h = Some ptx0 ∧ stays (list_to_set ms) ptx0 = Some ptx).
  { intros h ptx. rewrite Hwq. apply bind_Some. }
  split_and!.
  - split; simpl; [done|done| |].
    + intros h ptx (ptx0 & Hp0 & Hs)%Hstay. apply Hww in Hp0.
      unfold stays in Hs. case_decide; [done|]. by injection Hs as <-.
    + intros h [ptx (ptx0 & Hp0 & _)%Hstay]. apply Hd. by eexists.
  - split.
    + rewrite fmap_app, NoDup_app. split_and!; [done| |apply Hunl].
      intros ? (t & -> & Ht)%list_elem_of_fmap (t' & Heq & (ptx0 & Hp0 & _)%Hfrom)%list_elem_of_fmap.
      rewrite <- Heq in Hp0. apply Htr in Ht as (_ & _ & Hn & _). congruence.
    + intros ptx [Hin|Hin]%elem_of_app; simpl.
      * apply Htr in Hin as (? & ? & Hn & ?). split_and!; [done..| |done].
        by rewrite Hwq, Hn.
      * destruct (Hfrom _ Hin) as (ptx0 & Hp0 & Hl). rewrite Hwq, Hp0. simpl.
        unfold leaves, stays in *. case_decide as Hs; [|done]. injection Hl as <-. simpl.
        split_and!; [|by eapply Hww|done|apply Hd; by eexists].
        apply is_ready_spec. simpl. by apply subseteq_empty_difference_L.
  - split; [|by auto]. intros h [ptx (ptx0 & ? & _)%Hstay]. by eexists.
  - by eapply unlocked_size; [apply Hpw|..].
  - intros ptx (ptx0 & ? & _)%Hfrom. by eexists.
Qed.

(** Moving the first transaction in transit to the ready queue. *)
Lemma ready_step p ptx txs k :
  pool_wf p → in_transit p (ptx :: txs) → id_room p (S k) →
  ∃ rts res, ready_add_transaction (ready_transactions p) ptx = Some (rts, res) ∧
    let p' := mkPoolInner rts (pending_transactions p) in
    pool_wf p' ∧ in_transit p' txs ∧ id_room p' k ∧ no_new p p' [pp_hash ptx] ∧
    match res with
    | Err e => rts = ready_transactions p ∧ e = ReplacementUnderpriced (pp_transaction ptx)
    | Ok replaced =>
        (∃ r, ready p' !! pp_hash ptx = Some r ∧ rt_pool_tx r = pp_transaction ptx) ∧
        (∀ h r, ready p !! h = Some r → ready p' !! h = None → rt_pool_tx r ∈ replaced) ∧
        ∀ h r, h ≠ pp_hash ptx → ready p' !! h = Some r →
          ∃ r0, ready p !! h = Some r0 ∧ rt_pool_tx r0 = rt_pool_tx r
    end.
Proof.
  intros [Hpw Hrw Hww Hd] [[Hh Hnd]%NoDup_cons Htr] Hroom.
  destruct (Htr ptx) as (Hr & Hwf & Hw & Hn); [auto with anvil|].
  assert (0 ≤ rts_id (ready_transactions p) < u64_max) as Hid by (unfold id_room in *; lia).
  destruct (ready_add_spec _ _ Hrw Hwf Hr Hn Hid) as (rts & res & -> & Hrw' & Hres).
  exists rts, res. split; [done|]. simpl.
  assert (rts_id rts = rts_id (ready_transactions p) ∨
          rts_id rts = rts_id (ready_transactions p) + 1) as Hid'.
  { destruct res; [right; apply Hres|left; by destruct Hres as [-> _]]. }
  assert (Hnew : ∀ h, is_Some (ready_tx rts !! h) → is_Some (ready p !! h) ∨ h = pp_hash ptx).
  { intros h Hs. destruct res as [replaced|e]; [|by destruct Hres as [-> _]; left].
    destruct (decide (h = pp_hash ptx)) as [->|Hne]; [by right|left].
    destruct Hs as [r Hs]. destruct Hres as (_ & _ & _ & Hold & _).
    specialize (Hold h (rt_transaction r) Hne). rewrite !ready_refs_lookup, Hs in Hold.
    destruct (ready p !! h); [by eexists|]. by specialize (Hold eq_refl). }
  assert (Hnone : ∀ h, h ≠ pp_hash ptx → ready p !! h = None → ready_tx rts !! h = None).
  { intros h Hne Hp0. destruct (ready_tx rts !! h) eqn:Hs; [|done].
    destruct (Hnew h) as [[??]|?]; [by eexists|congruence|done]. }
  split_and!.
  - split; simpl; [done|done|done|]. intros h Hs. apply Hnone; [|by apply Hd].
    intros ->. destruct Hs. congruence.
  - split; [done|]. intros ptx' Hin. destruct (Htr ptx') as (? & ? & ? & ?);
      [by auto with anvil|]. split_and!; [done..|]. apply Hnone; [|done].
    intros Heq. apply Hh. rewrite <- Heq. by apply list_elem_of_fmap_2.
  - unfold id_room in *. simpl. lia.
  - split; simpl; [by auto|]. intros h [?| ->]%Hnew; [by left|].
    right. right. apply list_elem_of_here.
  - destruct res as [replaced|e]; [|by destruct Hres as (? & ? & _)].
    destruct Hres as (_ & (r & Hr' & Heq) & _ & Hold & Hacc). split_and!.
    + exists r. split; [done|]. unfold rt_pool_tx. by rewrite Heq.
    + intros h r' Hr0 Hn'. apply (Hacc h (rt_transaction r')).
      * by rewrite ready_refs_lookup, Hr0.
      * by rewrite ready_refs_lookup, Hn'.
    + intros h r' Hne Hs. specialize (Hold h (rt_transaction r') Hne).
      rewrite !ready_refs_lookup, Hs in Hold.
      destruct (proj1 (fmap_Some _ _ _) (Hold eq_refl)) as (r0 & ? & Heq0).
      exists r0. split; [done|]. unfold rt_pool_tx. by rewrite Heq0.
Qed.

Lemma no_new_weaken p p' hs hs' : no_new p p' hs → (∀ h, h ∈ hs → h ∈ hs') → no_new p p' hs'.
Proof. intros [Ha Hb] Hs. split; [done|]. intros h [?|[?|?]]%Hb; naive_solver. Qed.
Lemma no_new_trans p1 p2 p3 hs hs' :
  no_new p1 p2 hs → no_new p2 p3 hs' → (∀ h, h ∈ hs' → h ∈ hs ∨ is_Some (waiting p1 !! h)) →
  no_new p1 p3 hs.
Proof. intros [Ha Hb] [Hc Hd] Hs. split; [by auto|]. intros h [?|[?|?]]%Hd; naive_solver. Qed.

Lemma remove_total p hs :
  pool_wf p →
  ∃ rts removed, remove_with_markers (ready_transactions p) hs None = Some (rts, removed) ∧
    remove_inv (ready_transactions p) hs None ([], rts, removed) ∧
    let p' := mkPoolInner rts (pending_transactions p) in
    pool_wf p' ∧ no_new p p' [] ∧ rts_id rts = rts_id (ready_transactions p).
Proof.
  intros [Hpw Hrw Hww Hd].
  destruct (remove_with_markers_spec (ready_transactions p) hs None Hrw)
    as (rts & removed & Hrm & Hinv).
  exists rts, removed. split; [done|]. split; [done|].
  assert (Hsub : ∀ h, is_Some (ready_tx rts !! h) → is_Some (ready p !! h)).
  { intros h [r Hr]. destruct (rmi_links _ _ _ _ Hinv h r Hr) as (r0 & ? & _). by eexists. }
  split_and!; [split; simpl; try done|split; simpl; auto|apply (rmi_id _ _ _ _ Hinv)].
  - apply (rmi_inv _ _ _ _ Hinv).
  - intros h Hs%Hd. destruct (ready_tx rts !! h) eqn:Hr; [|done].
    destruct (Hsub h) as [??]; [by eexists|]. congruence.
Qed.

(** ** [add_ready_transaction] *)
Record queue_inv p0 (ptx0 : PendingPoolTransaction Tx) (k : nat) (st : queue_state) : Prop := {
  qi_wf : pool_wf st.2;
  qi_transit : in_transit st.2 st.1.1.1;
  qi_room : id_room st.2 (length st.1.1.1 + k);
  qi_new : no_new p0 st.2 [pp_hash ptx0];
  qi_from ptx : ptx ∈ st.1.1.1 → pp_hash ptx = pp_hash ptx0 ∨ is_Some (waiting p0 !! pp_hash ptx);
  qi_hash : ar_hash st.1.2 = pp_hash ptx0;
  qi_added :
    if st.1.1.2 then st.1.1.1 = [ptx0]
    else (∃ r, ready st.2 !! pp_hash ptx0 = Some r ∧ rt_pool_tx r = pp_transaction ptx0) ∨
         pp_transaction ptx0 ∈ removed st.1.2
}.

Definition queue_post p0 (ptx0 : PendingPoolTransaction Tx) (k : nat)
    (res : PoolInner Tx * result (PoolError Tx) (AddedReady Tx)) : Prop :=
  pool_wf res.1 ∧ id_room res.1 k ∧ no_new p0 res.1 [pp_hash ptx0] ∧
  match res.2 with
  | Ok a => ar_hash a = pp_hash ptx0 ∧
      ((∃ r, ready res.1 !! pp_hash ptx0 = Some r ∧ rt_pool_tx r = pp_transaction ptx0) ∨
       pp_transaction ptx0 ∈ removed a)
  | Err e => e = ReplacementUnderpriced (pp_transaction ptx0)
  end.

Lemma add_ready_step_spec p0 ptx0 k st :
  queue_inv p0 ptx0 k st →
  match add_ready_step st with
  | Some (inl st') => queue_inv p0 ptx0 k st' ∧ (queue_measure st' < queue_measure st)%nat
  | Some (inr res) => queue_post p0 ptx0 k res
  | None => False
  end.
Proof.
  destruct st as [[[queue is_new] rd] p]. intros [Hwf Htr Hroom Hnew Hfrom Hhash Hadd].
  simpl in *. destruct queue as [|ptx queue].
  { split_and!; simpl; [done..|]. split; [done|]. by destruct is_new. }
  destruct (unlock_step p (provides (pp_transaction ptx)) (ptx :: queue) Hwf Htr)
    as (pending' & unl & -> & Hwf1 & Htr1 & Hnew1 & Hsize & Hunl). simpl in Htr1. simpl.
  set (p1 := mkPoolInner (ready_transactions p) pending') in *.
  assert (id_room p1 (S (length (queue ++ unl)) + k)) as Hroom1.
  { unfold id_room in *. simpl in *. rewrite length_app. lia. }
  destruct (ready_step p1 ptx (queue ++ unl) _ Hwf1 Htr1 Hroom1) as (rts & res & Hra & Hstep).
  change (ready_transactions p1) with (ready_transactions p) in Hra. rewrite Hra. simpl.
  destruct Hstep as (Hwf2 & Htr2 & Hroom2 & Hnew2 & Hres). simpl in *.
  set (p2 := mkPoolInner rts pending') in *.
  assert (no_new p p2 [pp_hash ptx]) as Hnewp.
  { eapply no_new_trans; [|exact Hnew2|by auto].
    eapply no_new_weaken; [exact Hnew1|by intros ? ?%not_elem_of_nil]. }
  assert (no_new p0 p2 [pp_hash ptx0]) as Hnew3.
  { eapply no_new_trans; [exact Hnew|exact Hnewp|].
    intros h ->%list_elem_of_singleton. rewrite list_elem_of_singleton.
    apply Hfrom, list_elem_of_here. }
  assert (∀ t, t ∈ queue ++ unl → pp_hash t = pp_hash ptx0 ∨ is_Some (waiting p0 !! pp_hash t))
    as Hfrom'.
  { intros t [Ht|Ht]%elem_of_app; [by apply Hfrom, list_elem_of_further|].
    right. by apply Hnew, Hunl. }
  assert (queue_measure (queue ++ unl, false, rd, p2) < queue_measure (ptx :: queue, is_new, rd, p))%nat
    as Hmeas.
  { unfold queue_measure. simpl. rewrite length_app. lia. }
  destruct res as [replaced|e].
  - destruct Hres as (Hin & Hacc & Hold). split; [|exact Hmeas]. split; simpl; try done.
    destruct is_new.
    + injection Hadd as -> ->. by left.
    + rewrite elem_of_app. destruct Hadd as [(r & Hr & Heq)|?]; [|by auto].
      destruct (ready_tx rts !! pp_hash ptx0) as [r'|] eqn:Hr'.
      * left. exists r'. split; [done|]. rewrite <- Heq.
        destruct (Hold (pp_hash ptx0) r') as (r0 & Hr0 & <-); [|done|congruence].
        intros Hh. destruct Htr as [_ Htr].
        destruct (Htr ptx) as (_ & _ & _ & Hn); [auto with anvil|]. congruence.
      * right. right. rewrite <- Heq. by apply (Hacc (pp_hash ptx0)).
  - destruct Hres as [-> ->]. destruct is_new.
    + injection Hadd as -> ->. split_and!; simpl; try done.
      unfold id_room in *. simpl in *. lia.
    + split; [|exact Hmeas]. split; simpl; try done.
Qed.

Lemma add_ready_total p ptx k :
  pool_wf p → in_transit p [ptx] → id_room p (S k) →
  ∃ p' res, add_ready_transaction p ptx = Some (p', res) ∧
    pool_wf p' ∧ id_room p' k ∧ no_new p p' [pp_hash ptx] ∧
    match res with
    | Ok (AddedToReady a) => ar_hash a = pp_hash ptx ∧
        ∃ r, ready p' !! pp_hash ptx = Some r ∧ rt_pool_tx r = pp_transaction ptx
    | Ok (AddedToPending _) => False
    | Err e => e = CyclicTransaction ∨ e = ReplacementUnderpriced (pp_transaction ptx)
    end.
Proof.
  intros Hwf Htr Hroom. unfold add_ready_transaction.
  set (st := ([ptx], true, new_added (pp_hash ptx), p)).
  assert (queue_inv p ptx k st) as Hinit.
  { split; simpl; try done.
    - split; [done|]. by auto.
    - intros t ->%list_elem_of_singleton. by left. }
  destruct (loop_total add_ready_step (queue_inv p ptx k) (queue_post p ptx k) queue_measure)
    with (fuel := S (queue_measure st)) (s := st)
    as ([p1 res] & -> & Hwf1 & Hroom1 & Hnew1 & Hres); [|lia|done|].
  { intros st' Hst. pose proof (add_ready_step_spec _ _ _ _ Hst) as Hstep.
    by destruct (add_ready_step st') as [[]|]. }
  simpl in *. destruct res as [a|e]; [|by eauto 10].
  destruct Hres as [Ha Hres]. case_bool_decide as Hc.
  - destruct (remove_total p1 (promoted a) Hwf1)
      as (rts & rem & Hrm & _ & Hwf2 & Hnew2 & Hid2).
    unfold clear_transactions. rewrite Hrm. simpl.
    do 2 eexists. split; [reflexivity|]. split_and!; [done| | |by left].
    + unfold id_room in *. simpl. lia.
    + eapply no_new_trans; [exact Hnew1|exact Hnew2|by intros ? ?%not_elem_of_nil].
  - do 2 eexists. split; [reflexivity|]. split_and!; [done..|].
    destruct Hres as [?|Hin]; [done|]. destruct Hc.
    apply list_elem_of_fmap. by exists (pp_transaction ptx).
Qed.

(** ** [add_transaction] *)
Lemma pool_contains_spec p h :
  pool_contains p h = true ↔ is_Some (waiting p !! h) ∨ is_Some (ready p !! h).
Proof.
  unfold pool_contains. rewrite orb_true_iff, pending_contains_spec.
  by rewrite ready_contains_spec.
Qed.
Lemma pool_contains_false p h :
  pool_contains p h = false ↔ waiting p !! h = None ∧ ready p !! h = None.
Proof.
  rewrite <- not_true_iff_false, pool_contains_spec, !eq_None_not_Some. tauto.
Qed.
Lemma pool_contains_new p p' hs h :
  no_new p p' hs → pool_contains p' h = true → pool_contains p h = true ∨ h ∈ hs.
Proof.
  intros [Ha Hb]. rewrite !pool_contains_spec. intros [?%Ha|[?|[?|?]]%Hb]; auto.
Qed.

(** The outcome of [add_transaction], case by case. *)
Definition add_outcome p tx p' (res : result (PoolError Tx) (AddedTransaction Tx)) : Prop :=
  match res with
  | Ok (AddedToReady a) => ar_hash a = hash tx ∧
      (∀ m, m ∈ requires tx → is_Some (provided_markers (ready_transactions p) !! m)) ∧
      ∃ r, ready p' !! hash tx = Some r ∧ rt_pool_tx r = tx
  | Ok (AddedToPending h) => h = hash tx ∧ ready_transactions p' = ready_transactions p ∧
      ∃ ptx, waiting p' = <[hash tx := ptx]> (waiting p) ∧ pp_transaction ptx = tx ∧
        ∀ m, m ∈ missing_markers ptx ↔
          m ∈ requires tx ∧ provided_markers (ready_transactions p) !! m = None
  | Err (AlreadyImported tx') => tx' = tx ∧ p' = p ∧ pool_contains p (hash tx) = true
  | Err (ReplacementUnderpriced tx') => tx' = tx
  | Err CyclicTransaction => True
  end.

Lemma new_pending_missing tx provided now m :
  m ∈ missing_markers (new_pending tx provided now) ↔
  m ∈ requires tx ∧ provided !! m = None.
Proof. simpl. rewrite elem_of_list_to_set, list_elem_of_filter. tauto. Qed.

Lemma add_transaction_total p tx now k :
  pool_wf p → tx_wf tx → id_room p (S k) →
  ∃ p' res, add_transaction p tx now = Some (p', res) ∧ pool_wf p' ∧ id_room p' k ∧
    no_new (mkPoolInner (ready_transactions p)
      (mkPendingTransactions ∅ ∅ (<[hash tx := new_pending tx ∅ now]> (waiting p)))) p' [hash tx] ∧
    add_outcome p tx p' res.
Proof.
  intros Hwf Htx Hroom. unfold add_transaction.
  assert (Hself : ∀ p', no_new p p' [hash tx] → no_new (mkPoolInner (ready_transactions p)
      (mkPendingTransactions ∅ ∅ (<[hash tx := new_pending tx ∅ now]> (waiting p)))) p' [hash tx]).
  { intros p' [Ha Hb]. split; simpl.
    - intros h Hs%Ha. rewrite lookup_insert_is_Some'. by right.
    - intros h [?|[?|?]]%Hb; [by auto| |by auto].
      right. left. rewrite lookup_insert_is_Some'. by right. }
  destruct (pool_contains p (hash tx)) eqn:Hc.
  { do 2 eexists. split; [reflexivity|]. split_and!; [done| |apply Hself; split; auto|done].
    unfold id_room in *. lia. }
  apply pool_contains_false in Hc as [Hw Hr].
  set (ptx := new_pending tx (provided_markers (ready_transactions p)) now).
  destruct (is_ready ptx) eqn:Hready; simpl.
  - assert (in_transit p [ptx]) as Htr.
    { split; [apply NoDup_singleton|]. by intros t ->%list_elem_of_singleton. }
    destruct (add_ready_total p ptx k Hwf Htr Hroom) as (p' & res & -> & Hwf' & Hroom' & Hnew & Hres).
    do 2 eexists. split; [reflexivity|]. split_and!; [done|done|by apply Hself|].
    destruct res as [[a|h]|e]; simpl; [|done|by destruct Hres as [-> | ->]].
    destruct Hres as [Ha Hin]. split_and!; [done| |done].
    intros m Hm. apply is_ready_spec in Hready.
    destruct (provided_markers (ready_transactions p) !! m) eqn:Hp; [by eexists|].
    assert (m ∈ missing_markers ptx) by by apply new_pending_missing.
    rewrite Hready in *. by apply not_elem_of_empty in H0.
  - assert (missing_markers ptx ≠ ∅) as Hm.
    { intros Hm%is_ready_spec. congruence. }
    destruct (pending_add_spec (pending_transactions p) ptx) as (s' & res & -> & Hpw & Hres);
      [apply Hwf|done|done|]. simpl.
    destruct res as [u|e].
    + do 2 eexists. split; [reflexivity|]. simpl in *.
      change (pp_hash ptx) with (hash tx) in Hres.
      split_and!; [| | |done|done|].
      * destruct Hwf as [? ? Hww Hd]. split; simpl; [done|done| |].
        -- intros h t. rewrite Hres. intros [[<- <-]|[_ ?]]%lookup_insert_Some; [done|by eapply Hww].
        -- intros h. rewrite Hres, lookup_insert_is_Some'. intros [<-|?]; [done|by apply Hd].
      * unfold id_room in *. simpl. rewrite Hres, map_size_insert_None by done. lia.
      * split; simpl; [|by auto]. intros h. by rewrite Hres, !lookup_insert_is_Some'.
      * exists ptx. split_and!; [done|done|]. apply new_pending_missing.
    + destruct Hres as [-> ->]. do 2 eexists. split; [reflexivity|].
      split_and!; [by destruct p| |apply Hself; by split; auto|done].
      unfold id_room in *. simpl. lia.
Qed.

(** ** Pruning *)
Lemma prune_total p m :
  pool_wf p →
  ∃ rts txs, prune_tags (ready_transactions p) m = Some (rts, txs) ∧
    let p' := mkPoolInner rts (pending_transactions p) in
    pool_wf p' ∧ no_new p p' [] ∧ rts_id rts = rts_id (ready_transactions p) ∧
    provided_markers rts !! m = None.
Proof.
  intros [Hpw Hrw Hww Hd].
  destruct (prune_tags_total (ready_transactions p) m Hrw) as (rts & txs & Hp & Hinv).
  exists rts, txs. split; [done|].
  assert (Hsub : ∀ h, is_Some (ready_tx rts !! h) → is_Some (ready p !! h)).
  { intros h [r Hr]. pose proof (pri_refs _ _ _ _ Hinv) as Hs. simpl in Hs.
    eapply lookup_weaken with (i := h) (x := rt_transaction r) in Hs;
      [|by rewrite ready_refs_lookup, Hr].
    rewrite ready_refs_lookup in Hs. apply fmap_Some in Hs as (r0 & ? & _). by eexists. }
  split_and!; [split; simpl; try done|split; simpl; auto|apply (pri_id _ _ _ _ Hinv)|].
  - apply (pri_wf _ _ _ _ Hinv).
  - intros h Hs%Hd. destruct (ready_tx rts !! h) eqn:Hr; [|done].
    destruct (Hsub h) as [??]; [by eexists|]. congruence.
  - destruct (pri_marker _ _ _ _ Hinv) as [?%not_elem_of_nil|?]; done.
Qed.

Lemma in_transit_no_new p p' txs :
  in_transit p txs → no_new p p' [] → in_transit p' txs.
Proof.
  intros [Hnd Htr] [Ha Hb]. split; [done|]. intros ptx Hin.
  destruct (Htr _ Hin) as (? & ? & Hw & Hr). split_and!; [done..| |].
  - apply eq_None_not_Some. intros Hs%Ha. rewrite Hw in Hs. by destruct Hs.
  - apply eq_None_not_Some. intros [Hs|[Hs|Hs%not_elem_of_nil]]%Hb; [| |done].
    + rewrite Hr in Hs. by destruct Hs.
    + rewrite Hw in Hs. by destruct Hs.
Qed.

Definition prune_loop_inv p0 (k : nat)
    (st : PoolInner Tx * list (PendingPoolTransaction Tx) * list (PoolTransaction Tx)) : Prop :=
  pool_wf st.1.1 ∧ in_transit st.1.1 st.1.2 ∧ id_room st.1.1 (length st.1.2 + k) ∧
  no_new p0 st.1.1 [] ∧ ∀ t, t ∈ st.1.2 → is_Some (waiting p0 !! pp_hash t).

Lemma prune_marker_spec p0 k st m :
  prune_loop_inv p0 k st → ∃ st', prune_marker st m = Some st' ∧ prune_loop_inv p0 k st'.
Proof.
  destruct st as [[p imports] pruned]. intros (Hwf & Htr & Hroom & Hnew & Hfrom). simpl in *.
  destruct (unlock_step p [m] imports Hwf Htr)
    as (pending' & unl & -> & Hwf1 & Htr1 & Hnew1 & Hsize & Hunl). simpl.
  destruct (prune_total _ m Hwf1) as (rts & txs & Hp & Hwf2 & Hnew2 & Hid & _).
  simpl in *. rewrite Hp. simpl. eexists. split; [reflexivity|].
  split_and!; simpl; [done|by eapply in_transit_no_new| | |].
  - unfold id_room in *. simpl in *. rewrite length_app. lia.
  - eapply no_new_trans; [exact Hnew| |by intros ? ?%not_elem_of_nil].
    eapply no_new_trans; [exact Hnew1|exact Hnew2|by intros ? ?%not_elem_of_nil].
  - intros t [?|?%Hunl]%elem_of_app; [by apply Hfrom|]. by apply Hnew.
Qed.

Definition promote_inv (k : nat) (imports : list (PendingPoolTransaction Tx))
    (st : PoolInner Tx * list (AddedTransaction Tx) * list TxHash) : Prop :=
  pool_wf st.1.1 ∧ in_transit st.1.1 imports ∧ id_room st.1.1 (length imports + k).

Lemma promote_import_spec k ptx imports st :
  promote_inv k (ptx :: imports) st →
  ∃ st', promote_import st ptx = Some st' ∧ promote_inv k imports st'.
Proof.
  destruct st as [[p promoted] failed]. intros (Hwf & Htr & Hroom). simpl in *.
  assert (in_transit p [ptx]) as Htr1.
  { split; [apply NoDup_singleton|]. intros t ->%list_elem_of_singleton.
    apply Htr, list_elem_of_here. }
  destruct (add_ready_total p ptx _ Hwf Htr1 Hroom) as (p' & res & -> & Hwf' & Hroom' & [Ha Hb] & _).
  simpl. assert (in_transit p' imports) as Htr'.
  { destruct Htr as [[Hh Hnd]%NoDup_cons Htr]. split; [done|]. intros t Ht.
    destruct (Htr t) as (? & ? & Hw & Hr); [by auto with anvil|].
    split_and!; [done..| |].
    - apply eq_None_not_Some. intros Hs%Ha. rewrite Hw in Hs. by destruct Hs.
    - apply eq_None_not_Some. intros [Hs|[Hs|Hs%list_elem_of_singleton]]%Hb.
      + rewrite Hr in Hs. by destruct Hs.
      + rewrite Hw in Hs. by destruct Hs.
      + apply Hh. rewrite <- Hs. by apply list_elem_of_fmap_2. }
  destruct res; (eexists; split; [reflexivity|]; by split_and!).
Qed.

Lemma prune_markers_total p ms k :
  pool_wf p → id_room p k →
  ∃ p' res, prune_markers p ms = Some (p', res) ∧ pool_wf p' ∧ id_room p' k.
Proof.
  intros Hwf Hroom. unfold prune_markers.
  destruct (fold_m_total prune_marker (λ _, prune_loop_inv p k)) with
    (l := ms) (b := (p, [] : list (PendingPoolTransaction Tx), [] : list (PoolTransaction Tx)))
    as ([[p1 imports] pruned] & -> & Hinv).
  { intros m l st. apply prune_marker_spec. }
  { split_and!; simpl; [done| |done|split; by auto|by intros ? ?%not_elem_of_nil].
    split; [constructor|]. by intros ? ?%not_elem_of_nil. }
  destruct Hinv as (Hwf1 & Htr1 & Hroom1 & _). simpl in *.
  destruct (fold_m_total promote_import (promote_inv k)) with
    (l := imports) (b := (p1, [] : list (AddedTransaction Tx), [] : list TxHash))
    as ([[p2 promoted] failed] & -> & Hinv2).
  { intros ptx l st. apply promote_import_spec. }
  { by split_and!. }
  simpl. do 2 eexists. split; [reflexivity|]. split; apply Hinv2.
Qed.

(** ** Removing *)
Lemma pending_remove_wf (s : PendingTransactions Tx) hs removed s' removed' :
  pending_wf s → foldl pending_remove_hash (s, removed) hs = (s', removed') →
  pending_wf s' ∧ (∀ h, waiting_queue s' !! h = if decide (h ∈ hs) then None else waiting_queue s !! h).
Proof.
  revert s removed. induction hs as [|h hs IH]; intros s removed Hwf; cbn [foldl].
  { intros [= <- <-]. done. }
  destruct (pending_remove_hash (s, removed) h) as [s1 removed1] eqn:H1.
  destruct (pending_remove_hash_wf _ _ _ _ _ Hwf H1) as (Hwf1 & Hq & _).
  intros Hf. destruct (IH s1 removed1 Hwf1 Hf) as [Hwf' Hq']. split; [done|].
  intros h'. rewrite Hq', Hq, lookup_delete. repeat case_decide; set_solver.
Qed.

Lemma remove_invalid_total p hs k :
  pool_wf p → id_room p k →
  ∃ p' removed, remove_invalid p hs = Some (p', removed) ∧ pool_wf p' ∧ id_room p' k ∧
    no_new p p' [] ∧ ∀ h, h ∈ hs → pool_contains p' h = false.
Proof.
  intros Hwf Hroom. unfold remove_invalid. destruct hs as [|h0 hs0] eqn:Hhs.
  { exists p, []. split_and!; [done..|split; by auto|by intros ? ?%not_elem_of_nil]. }
  rewrite <- Hhs. clear Hhs.
  destruct (remove_total p hs Hwf) as (rts & rem & Hrm & Hinv & Hwf1 & Hnew & Hid).
  rewrite Hrm. simpl. destruct (pending_remove _ _) as [pend rem'] eqn:Hp.
  destruct (pending_remove_wf _ _ _ _ _ (pool_pending _ Hwf) Hp) as [Hpw Hq].
  assert (waiting_queue pend ⊆ waiting p) as Hsub.
  { apply map_subseteq_spec. intros h t. rewrite Hq. by case_decide. }
  assert (Hsome : ∀ h, is_Some (waiting_queue pend !! h) → is_Some (waiting p !! h)).
  { intros h [t Ht]. exists t. by eapply lookup_weaken. }
  do 2 eexists. split; [reflexivity|]. destruct Hwf1 as [_ Hrw Hww Hd]. simpl in *.
  split_and!.
  - split; simpl; [done|done| |by auto]. intros h t Ht. apply (Hww h).
    by eapply lookup_weaken.
  - unfold id_room in *. simpl.
    pose proof (map_subseteq_size (waiting_queue pend) (waiting p) Hsub). lia.
  - split; simpl; [done|]. by apply Hnew.
  - intros h Hh. apply pool_contains_false. simpl. rewrite Hq, decide_True by done.
    split; [done|]. destruct (rmi_hashes _ _ _ _ Hinv h Hh) as [?%not_elem_of_nil|?]; done.
Qed.

Lemma on_mined_block_total p outcome k :
  pool_wf p → id_room p k →
  ∃ p' res, on_mined_block p outcome = Some (p', res) ∧ pool_wf p' ∧ id_room p' k.
Proof.
  intros Hwf Hroom. unfold on_mined_block.
  destruct (remove_invalid_total p (hash <$> invalid outcome) k Hwf Hroom)
    as (p1 & rem & -> & Hwf1 & Hroom1 & _). simpl.
  by apply prune_markers_total.
Qed.
End pool_proofs.
