(* ===== verification/PoolProps.v ===== *)
(** * Properties of the transaction pool

    The claims about the pool, with concrete pools that satisfy their
    hypotheses. *)
From stdpp Require Import base list gmap strings sorting.
From Stdlib Require Import ZArith Lia.
From S2P Require Import Prelude Containers PoolTx PendingQueue ReadyQueue ReadyInvariant.
From S2P Require Import ReadyProofs Pool PoolProofs.

(** ** The operations of the pool *)
Inductive PoolCall (Tx : Type) :=
| PAdd (tx : PoolTransaction Tx) (now : Z)
| PPrune (markers : list TxMarker)
| PMined (outcome : MinedBlockOutcome Tx)
| PRemoveInvalid (hashes : list TxHash)
| PDrop (h : TxHash)
| PClear.
Arguments PAdd {Tx} tx now.
Arguments PPrune {Tx} markers.
Arguments PMined {Tx} outcome.
Arguments PRemoveInvalid {Tx} hashes.
Arguments PDrop {Tx} h.
Arguments PClear {Tx}.

Section pool_calls.
Context {Tx : Type} `{TxEnvelope Tx}.
Context `{!HashOrder TxHash} `{!HashOrder TxMarker}.
Implicit Types (p : PoolInner Tx) (c : PoolCall Tx).

Definition pool_call p c : option (PoolInner Tx) :=
  match c with
  | PAdd tx now => fst <$> add_transaction p tx now
  | PPrune ms => fst <$> prune_markers p ms
  | PMined o => fst <$> on_mined_block p o
  | PRemoveInvalid hs => fst <$> remove_invalid p hs
  | PDrop h => fst <$> drop_transaction p h
  | PClear => Some (pool_clear p)
  end.

Definition call_wf c : Prop := match c with PAdd tx _ => tx_wf tx | _ => True end.

Lemma pool_clear_wf p k : pool_wf p → id_room p k → pool_wf (pool_clear p) ∧ id_room (pool_clear p) k.
Proof.
  intros [Hp Hr _ _] Hid. split; [|unfold id_room in *; simpl; rewrite map_size_empty; lia].
  split; [apply pending_default_wf|by apply ready_clear_wf| |]; simpl.
  - intros h ptx Hx. by rewrite lookup_empty in Hx.
  - intros h [x Hx]. by rewrite lookup_empty in Hx.
Qed.

Lemma drop_transaction_total p h k :
  pool_wf p → id_room p k →
  ∃ p' res, drop_transaction p h = Some (p', res) ∧ pool_wf p' ∧ id_room p' k ∧
    pending_transactions p' = pending_transactions p ∧
    ready_tx (ready_transactions p') !! h = None ∧
    ∀ tx, res = Some tx → hash tx = h.
Proof.
  intros Hwf Hid. unfold drop_transaction.
  destruct (remove_total p [h] Hwf) as (rts & removed & -> & Hinv & Hwf' & Hnew & Hid').
  cbn. do 2 eexists. split; [reflexivity|]. split_and!; [done| |done| |].
  - unfold id_room in *. simpl. lia.
  - destruct (rmi_hashes _ _ _ _ Hinv h) as [?%not_elem_of_nil|?]; [auto with anvil|done|done].
  - intros tx Htx. apply fmap_Some in Htx as ([i x] & Hf & ->).
    by apply list_find_Some in Hf as (_ & ? & _).
Qed.

Lemma pool_call_total p c k :
  pool_wf p → call_wf c → id_room p (S k) →
  ∃ p', pool_call p c = Some p' ∧ pool_wf p' ∧ id_room p' k.
Proof.
  intros Hwf Hc Hid. assert (id_room p k) as Hid' by (unfold id_room in *; lia).
  destruct c as [tx now|ms|o|hs|h|]; simpl.
  - destruct (add_transaction_total p tx now k Hwf Hc Hid) as (p' & res & -> & ? & ? & _).
    by exists p'.
  - destruct (prune_markers_total p ms k Hwf Hid') as (p' & res & -> & ? & ?). by exists p'.
  - destruct (on_mined_block_total p o k Hwf Hid') as (p' & res & -> & ? & ?). by exists p'.
  - destruct (remove_invalid_total p hs k Hwf Hid') as (p' & res & -> & ? & ? & _). by exists p'.
  - destruct (drop_transaction_total p h k Hwf Hid') as (p' & res & -> & ? & ? & _). by exists p'.
  - exists (pool_clear p). split; [done|]. by apply pool_clear_wf.
Qed.

Lemma pool_calls_total cs : ∀ p,
  pool_wf p → Forall call_wf cs → id_room p (length cs) →
  ∃ p', fold_m pool_call p cs = Some p' ∧ pool_wf p' ∧ id_room p' 0.
Proof.
  induction cs as [|c cs IH]; intros p Hwf Hcs Hid; cbn [fold_m]; [by exists p|].
  apply Forall_cons in Hcs as [Hc Hcs]. cbn [length] in Hid.
  destruct (pool_call_total p c _ Hwf Hc Hid) as (p1 & -> & Hwf1 & Hid1). by apply IH.
Qed.
End pool_calls.

(** ** Properties *)
Section pool_props.
Context {Tx : Type} `{TxEnvelope Tx}.
Context `{!HashOrder TxHash} `{!HashOrder TxMarker}.
Implicit Types (p : PoolInner Tx) (tx : PoolTransaction Tx).

(** C1: every sequence of pool operations that starts from an empty pool, with
    transactions that provide no marker twice and require none that they
    provide, runs to its end (no lookup that the code unwraps fails, no loop
    diverges, the id counter does not wrap) and leaves the queues consistent:
    the marker tables agree with the queues, a hash is in one queue only, and
    the independent set is ordered. *)
Theorem pool_calls_safe cs :
  Forall call_wf cs → Z.of_nat (length cs) ≤ u64_max →
  ∃ p, fold_m pool_call (pool_default (Tx := Tx)) cs = Some p ∧ pool_wf p.
Proof.
  intros Hcs Hlen. destruct (pool_calls_total cs pool_default) as (p & ? & ? & _);
    [apply pool_default_wf|done| |by exists p].
  unfold id_room. simpl. rewrite map_size_empty. lia.
Qed.

(** [add_transaction] on every branch.  A hash in the pool is refused
    without a change.  Otherwise the transaction becomes ready exactly when
    all its required markers are provided by ready transactions (it is then
    in the ready queue unless it is underpriced or cyclic), and waits with
    exactly the markers that nothing provides. *)
Lemma add_transaction_outcome p tx now :
  pool_wf p → tx_wf tx → id_room p 1 →
  ∃ p' res, add_transaction p tx now = Some (p', res) ∧ pool_wf p' ∧ add_outcome p tx p' res ∧
    ∀ h, pool_contains p' h = true → pool_contains p h = true ∨ h = hash tx.
Proof.
  intros Hwf Htx Hid.
  destruct (add_transaction_total p tx now 0 Hwf Htx Hid) as (p' & res & Ha & Hwf' & _ & Hn & Ho).
  exists p', res. split_and!; [done..|]. intros h Hh.
  apply (pool_contains_new _ _ _ _ Hn) in Hh as [Hh| ->%list_elem_of_singleton]; [|by right].
  apply pool_contains_spec in Hh as [Hs|Hs]; simpl in Hs.
  - apply lookup_insert_is_Some' in Hs as [->|?]; [by right|left].
    apply pool_contains_spec. by left.
  - left. apply pool_contains_spec. by right.
Qed.

(** A transaction that provides the same markers as a ready one
    replaces it only with a higher fee; the ready queue never drops a
    transaction without reporting it among the replaced ones, and a refused
    replacement leaves the queue as it was. *)
Lemma replacement_needs_higher_fee (s : ReadyTransactions Tx) (ptx : PendingPoolTransaction Tx) :
  ready_wf s → tx_wf (pp_transaction ptx) → is_ready ptx = true →
  ready_tx s !! pp_hash ptx = None → 0 ≤ rts_id s < u64_max →
  ∃ s' res, ready_add_transaction s ptx = Some (s', res) ∧ ready_wf s' ∧
    match res with
    | Ok replaced => (∃ r, ready_tx s' !! pp_hash ptx = Some r ∧ rt_pool_tx r = pp_transaction ptx) ∧
        ∀ h r, ready_tx s !! h = Some r → ready_tx s' !! h = None → rt_pool_tx r ∈ replaced
    | Err e => s' = s ∧ e = ReplacementUnderpriced (pp_transaction ptx) ∧ ∃ h r,
        ready_tx s !! h = Some r ∧ rt_provides r = provides (pp_transaction ptx) ∧
        max_fee_per_gas (pp_transaction ptx) ≤ rt_max_fee_per_gas r
    end.
Proof.
  intros Hwf Htx Hr Hn Hid.
  destruct (ready_add_spec s ptx Hwf Htx Hr Hn Hid) as (s' & res & Ha & Hwf' & Hres).
  exists s', res. split_and!; [done..|]. destruct res as [replaced|e]; [|done].
  destruct Hres as (_ & (r & Hr' & Hrt) & _ & _ & Hrep). split.
  - exists r. split; [done|]. unfold rt_pool_tx. by rewrite Hrt.
  - intros h r0 Hr0 Hn'. apply (Hrep h (rt_transaction r0)).
    + by rewrite ready_refs_lookup, Hr0.
    + by rewrite ready_lookup_None.
Qed.

(** The iterator over the ready queue gives a transaction of the pool
    that no other independent one precedes (by priority, then by age), and
    ends only when no independent transaction is left; it never diverges. *)
Lemma next_highest_priority (it : TransactionsIterator Tx) :
  bt_sorted ref_cmp (independent it) →
  ∃ o it', next it = Some (o, it') ∧
    match o with
    | Some tx => ∃ x, x ∈ independent it ∧ ref_transaction x = tx ∧ is_Some (all it !! ref_hash x) ∧
        ∀ y, y ∈ independent it → is_Some (all it !! ref_hash y) → y = x ∨
          tx_priority (ref_transaction y) < tx_priority tx ∨
          (tx_priority (ref_transaction y) = tx_priority tx ∧ ref_id x < ref_id y)
    | None => ∀ y, y ∈ independent it → all it !! ref_hash y = None
    end.
Proof.
  intros Hs. destruct (next_spec it Hs) as ([o it'] & -> & _ & _ & Ho).
  exists o, it'. split; [done|]. destruct o as [tx|]; [|done].
  destruct Ho as (x & Hx & Htx & Hs' & Hmax). exists x. split_and!; [done..|].
  intros y Hy Hys. destruct (Hmax y Hy Hys) as [?|Hc]; [by left|right].
  unfold ref_cmp in Hc. rewrite Htx in Hc.
  destruct (Z.compare_spec (tx_priority (ref_transaction y)) (tx_priority tx)); [right|by left|done].
  split; [done|]. by apply Z.compare_lt_iff in Hc.
Qed.

(** After [remove_invalid] none of the given hashes is in the pool,
    and no hash has entered it. *)
Lemma remove_invalid_removes p hs :
  pool_wf p → id_room p 0 →
  ∃ p' removed, remove_invalid p hs = Some (p', removed) ∧ pool_wf p' ∧
    (∀ h, h ∈ hs → pool_contains p' h = false) ∧
    ∀ h, pool_contains p' h = true → pool_contains p h = true.
Proof.
  intros Hwf Hid. destruct (remove_invalid_total p hs 0 Hwf Hid) as (p' & r & -> & ? & _ & Hn & ?).
  exists p', r. split_and!; [done..|]. intros h Hh.
  by apply (pool_contains_new _ _ _ _ Hn) in Hh as [?|?%not_elem_of_nil].
Qed.

(** [drop_transaction] removes a ready transaction, but leaves one
    that waits for its markers in the pool and reports nothing, where
    [remove_invalid] removes it. *)
Lemma drop_misses_waiting p h ptx :
  pool_wf p → id_room p 0 → waiting_queue (pending_transactions p) !! h = Some ptx →
  ∃ p' res, drop_transaction p h = Some (p', res) ∧ pool_contains p' h = true ∧
    ∃ p'' removed, remove_invalid p [h] = Some (p'', removed) ∧ pool_contains p'' h = false.
Proof.
  intros Hwf Hid Hw.
  destruct (drop_transaction_total p h 0 Hwf Hid) as (p' & res & -> & _ & _ & Hp & _).
  exists p', res. split_and!; [done| |].
  - apply pool_contains_spec. left. rewrite Hp, Hw. by eexists.
  - destruct (remove_invalid_total p [h] 0 Hwf Hid) as (p'' & r & -> & _ & _ & _ & Hc).
    exists p'', r. split; [done|]. apply Hc, list_elem_of_here.
Qed.

(** Removing transactions from the ready queue removes, with each
    transaction that provides a marker, all those it unlocks, reports
    everything that left and nothing else, and keeps the queue
    consistent. *)
Lemma remove_drops_dependents (s : ReadyTransactions Tx) hs :
  ready_wf s →
  ∃ s' removed, remove_with_markers s hs None = Some (s', removed) ∧ ready_wf s' ∧
    (∀ h, h ∈ hs → ready_tx s' !! h = None) ∧
    (∀ h r, ready_tx s !! h = Some r → ready_tx s' !! h = None →
       rt_pool_tx r ∈ removed ∧
       (rt_provides r ≠ [] → ∀ u, u ∈ unlocks r → ready_tx s' !! u = None)) ∧
    (∀ tx, tx ∈ removed → ∃ h r, ready_tx s !! h = Some r ∧ tx = rt_pool_tx r ∧
       ready_tx s' !! h = None).
Proof.
  intros Hwf. destruct (remove_with_markers_spec s hs None Hwf) as (s' & removed & -> & Hinv).
  destruct Hinv as [Hinv _ _ Hhs Hrem Hacc]. simpl in *.
  exists s', removed. split_and!; [done|done| | |done].
  - intros h Hh. by destruct (Hhs h Hh) as [?%not_elem_of_nil|?].
  - intros h r Hr Hn. destruct (Hacc h r Hr Hn) as [Hin Hu]. split; [done|].
    intros Hp u Huin. by destruct (Hu Hp u Huin) as [?%not_elem_of_nil|[->|?]].
Qed.

(** The removed transactions are not unlinked from the transactions
    that provided their markers: a transaction that stays in the queue
    still lists every transaction it unlocked before, the removed ones
    included. *)
Lemma removed_stay_in_unlocks (s s' : ReadyTransactions Tx) hs f removed h r r' u :
  ready_inv_upto (filter_set f) s → remove_with_markers s hs f = Some (s', removed) →
  ready_tx s !! h = Some r → ready_tx s' !! h = Some r' →
  u ∈ unlocks r → u ≠ h → u ∈ unlocks r'.
Proof.
  intros Hwf Hrm Hr Hr' Hu Hne.
  destruct (remove_with_markers_spec s hs f Hwf) as (s2 & removed2 & Hrm2 & Hinv).
  assert (s2 = s') as -> by congruence. clear Hrm2.
  destruct (rmi_links _ _ _ _ Hinv h r' Hr') as (r0 & Hr0 & _ & Hl). simpl in *.
  assert (r0 = r) as -> by congruence. by destruct (Hl u Hu).
Qed.

(** The pool transactions that the node builds from two consecutive
    nonces of one sender depend on each other and on nothing else: the
    marker encoding is injective, the later one requires exactly the marker
    that the earlier one provides, and neither requires what it provides. *)
Lemma node_transactions_chain order (t1 t2 : PendingTransaction Tx) n on_chain :
  in_u64 (n + 1) → in_u64 on_chain → on_chain ≤ n → is_address (sender t1) →
  sender t2 = sender t1 →
  let tx1 := node_transaction order t1 n on_chain in
  let tx2 := node_transaction order t2 (n + 1) on_chain in
  tx_wf tx1 ∧ tx_wf tx2 ∧ requires tx2 = provides tx1 ∧
  (requires tx1 = [] ↔ n = on_chain) ∧
  ∀ nonce from, in_u64 nonce → is_address from →
    to_marker nonce from ∈ provides tx1 → nonce = n ∧ from = sender t1.
Proof.
  intros Hn Hc Hle Ha Hs tx1 tx2. unfold in_u64 in *.
  assert (is_address (sender t2)) as Ha2 by by rewrite Hs.
  split_and!; [by apply node_transaction_wf; unfold in_u64; try lia
    |by apply node_transaction_wf; unfold in_u64; try lia| | |].
  - simpl. unfold required_marker, saturating_sub. rewrite Hs.
    rewrite (proj2 (Z.eqb_neq _ _)) by lia.
    rewrite Z.max_r by lia. rewrite (proj2 (Z.leb_le _ _)) by lia.
    by replace (n + 1 - 1) with n by lia.
  - simpl. unfold required_marker, saturating_sub.
    destruct (Z.eqb_spec n on_chain) as [->|Hne]; [done|].
    rewrite (proj2 (Z.leb_le _ _)) by lia. split; [done|lia].
  - intros nonce from Hnonce Hf. simpl. intros Hm%list_elem_of_singleton.
    apply to_marker_inj in Hm; [done|done|unfold in_u64; lia|done|done].
Qed.
End pool_props.

(** ** Concrete pools *)
#[local] Instance fee_envelope : TxEnvelope Z := {| tx_max_fee_per_gas fee := fee; tx_ty _ := 2 |}.
#[local] Instance hash_order : HashOrder TxHash := elements_order TxHash.
#[local] Instance marker_order : HashOrder TxMarker := elements_order TxMarker.

(** Transaction [h] of the sender 7, with a nonce and a fee. *)
Definition sample_tx (h nonce fee : Z) : PoolTransaction Z :=
  node_transaction Fees (mkPendingTransaction fee 7 h) nonce 0.

Lemma sample_tx_wf h nonce fee : in_u64 nonce → tx_wf (sample_tx h nonce fee).
Proof. intros ?. by apply node_transaction_wf. Qed.

Lemma pool_calls_safe_witness :
  ∃ p, fold_m pool_call pool_default
    [PAdd (sample_tx 102 1 5) 0; PAdd (sample_tx 101 0 5) 0; PAdd (sample_tx 103 0 9) 0;
     PMined (mkMinedBlockOutcome 1 [sample_tx 103 0 9] []); PDrop 102] = Some p ∧ pool_wf p.
Proof.
  apply pool_calls_safe; [|by vm_compute].
  repeat (apply Forall_cons; split); (exact I || by apply Forall_nil || by apply sample_tx_wf).
Defined.

Lemma add_transaction_outcome_witness :
  ∃ p' res, add_transaction pool_default (sample_tx 102 1 5) 0 = Some (p', res) ∧ pool_wf p' ∧
    add_outcome pool_default (sample_tx 102 1 5) p' res ∧
    ∀ h, pool_contains p' h = true → pool_contains (pool_default (Tx := Z)) h = true ∨ h = 102.
Proof.
  apply (add_transaction_outcome pool_default (sample_tx 102 1 5) 0).
  - apply pool_default_wf.
  - by apply sample_tx_wf.
  - by vm_compute.
Defined.

Definition sample_pending (h nonce fee : Z) : PendingPoolTransaction Z :=
  new_pending (sample_tx h nonce fee) ∅ 0.

Lemma replacement_needs_higher_fee_witness :
  ∃ s' res, ready_add_transaction ready_default (sample_pending 101 0 5) = Some (s', res) ∧ ready_wf s'.
Proof.
  destruct (replacement_needs_higher_fee ready_default (sample_pending 101 0 5))
    as (s' & res & H1 & H2 & _); [apply ready_default_wf|by apply sample_tx_wf|by vm_compute..|].
  by exists s', res.
Defined.

Lemma next_highest_priority_witness :
  ∃ o it', next (get_transactions (ready_default (Tx := Z))) = Some (o, it').
Proof.
  destruct (next_highest_priority (get_transactions (ready_default (Tx := Z))))
    as (o & it' & Hn & _); [constructor|by exists o, it'].
Defined.

Lemma remove_invalid_removes_witness :
  ∃ p' removed, remove_invalid (pool_default (Tx := Z)) [5] = Some (p', removed) ∧
    pool_contains p' 5 = false.
Proof.
  destruct (remove_invalid_removes (pool_default (Tx := Z)) [5]) as (p' & r & H1 & _ & H2 & _);
    [apply pool_default_wf|by vm_compute|].
  exists p', r. split; [done|]. apply H2, list_elem_of_here.
Defined.

Lemma drop_misses_waiting_witness :
  ∃ p h p' res, drop_transaction (Tx := Z) p h = Some (p', res) ∧ pool_contains p' h = true.
Proof.
  destruct (add_transaction_total pool_default (sample_tx 102 1 5) 0 0)
    as (p & res & Hp & Hwf & Hid & _); [apply pool_default_wf|by apply sample_tx_wf|by vm_compute|].
  vm_compute in Hp. injection Hp as <- _.
  destruct (drop_misses_waiting _ 102 (sample_pending 102 1 5) Hwf Hid) as (p' & r & H1 & H2 & _).
  - vm_compute. reflexivity.
  - do 4 eexists. split; [exact H1|exact H2].
Defined.

(** The ready queue of the transactions 101 and 102, where 101 unlocks 102. *)
Definition sample_queue : ReadyTransactions Z :=
  default ready_default (fold_m (λ s t, fst <$> ready_add_transaction s t) ready_default
    [sample_pending 101 0 5;
     mkPendingPoolTransaction (sample_tx 102 1 5) ∅ 0]).

Lemma sample_queue_wf : ready_wf sample_queue.
Proof.
  destruct (ready_add_spec ready_default (sample_pending 101 0 5)) as (s1 & r1 & H1 & Hwf1 & _);
    [apply ready_default_wf|by apply sample_tx_wf|by vm_compute..|].
  destruct (ready_add_spec s1 (mkPendingPoolTransaction (sample_tx 102 1 5) ∅ 0))
    as (s2 & r2 & H2 & Hwf2 & _); [done|by apply sample_tx_wf|by vm_compute|..].
  - vm_compute in H1. injection H1 as <- _. by vm_compute.
  - vm_compute in H1. injection H1 as <- _. by vm_compute.
  - unfold sample_queue. cbn [fold_m]. rewrite H1. cbn [fmap option_fmap fst]. cbn [option_map].
    cbn [fst]. rewrite H2. exact Hwf2.
Qed.

Lemma remove_drops_dependents_witness :
  ∃ s' removed, remove_with_markers sample_queue [101] None = Some (s', removed) ∧ ready_wf s' ∧
    ready_tx s' !! 101 = None.
Proof.
  destruct (remove_drops_dependents sample_queue [101] sample_queue_wf)
    as (s' & r & H1 & H2 & H3 & _).
  exists s', r. split; [done|]. split; [done|]. apply H3, list_elem_of_here.
Defined.

Lemma removed_stay_in_unlocks_witness :
  match remove_with_markers sample_queue [102] None with
  | Some (s', _) => match ready_tx s' !! 101 with Some r' => 102 ∈ unlocks r' | None => False end
  | None => False
  end.
Proof.
  destruct (remove_with_markers sample_queue [102] None) as [[s' removed]|] eqn:Hrm;
    [|vm_compute in Hrm; discriminate].
  destruct (ready_tx s' !! 101) as [r'|] eqn:Hr';
    [|vm_compute in Hrm; injection Hrm as <- _; vm_compute in Hr'; discriminate].
  destruct (ready_tx sample_queue !! 101) as [r|] eqn:Hr; [|vm_compute in Hr; discriminate].
  apply (removed_stay_in_unlocks sample_queue s' [102] None removed 101 r r' 102
    sample_queue_wf Hrm Hr Hr'); [|done].
  vm_compute in Hr. injection Hr as <-. apply list_elem_of_here.
Defined.

Lemma node_transactions_chain_witness :
  let tx1 := sample_tx 101 4 5 in
  let tx2 := sample_tx 102 (4 + 1) 5 in
  tx_wf tx1 ∧ tx_wf tx2 ∧ requires tx2 = provides tx1.
Proof.
  destruct (node_transactions_chain Fees (mkPendingTransaction 5 7 101) (mkPendingTransaction 5 7 102) 4 0)
    as (H1 & H2 & H3 & _); [by vm_compute..|]. by split_and!.
Defined.
