(* ===== verification/Miner.v ===== *)
(** * The miner: anvil/src/eth/miner.rs

    What a poll of the miner takes from the pool, per mining mode.  A poll's
    result is [Some txs] (ready) or [None] (pending), inside the option of
    the development's panics.  The streams of the runtime are explicit: [rx]
    holds the notifications that wait in the channel of a
    [ReadyTransactionMiner], [tick] says whether the interval has elapsed. *)
From stdpp Require Import base list gmap strings sorting.
From Stdlib Require Import ZArith Lia.
From S2P Require Import Prelude Containers PoolTx PendingQueue ReadyQueue ReadyInvariant.
From S2P Require Import ReadyProofs Pool PoolProofs PoolProps.

Record ReadyTransactionMiner := mkReadyTransactionMiner {
  max_transactions : nat;
  has_pending_txs : option bool;
  rx : list TxHash
}.

Record FixedBlockTimeMiner := mkFixedBlockTimeMiner { period : Z; tick : bool }.

Inductive MiningMode :=
| MNone
| MAuto (m : ReadyTransactionMiner)
| MFixedBlockTime (m : FixedBlockTimeMiner)
| MMixed (a : ReadyTransactionMiner) (f : FixedBlockTimeMiner).

Record Miner (Tx : Type) := mkMiner {
  mode : MiningMode;
  force_transactions : option (list (PoolTransaction Tx));
  woken : bool
}.
Arguments mkMiner {Tx}.
Arguments mode {Tx}.
Arguments force_transactions {Tx}.
Arguments woken {Tx}.

Section miner.
Context {Tx : Type} `{TxEnvelope Tx}.
Implicit Types (p : PoolInner Tx) (tx : PoolTransaction Tx).

Definition instant (max : nat) (listener : list TxHash) : MiningMode :=
  MAuto (mkReadyTransactionMiner max None listener).
Definition interval_mode (duration : Z) : MiningMode :=
  MFixedBlockTime (mkFixedBlockTimeMiner duration false).
Definition mixed (max : nat) (listener : list TxHash) (duration : Z) : MiningMode :=
  MMixed (mkReadyTransactionMiner max None listener) (mkFixedBlockTimeMiner duration false).

Definition miner_new (m : MiningMode) : Miner Tx := mkMiner m None false.
Definition with_forced_transactions (m : Miner Tx) (txs : option (list (PoolTransaction Tx)))
    : Miner Tx := mkMiner (mode m) txs (woken m).
Definition is_auto_mine (m : Miner Tx) : bool :=
  match mode m with MAuto _ => true | _ => false end.
Definition get_interval (m : Miner Tx) : option Z :=
  match mode m with MFixedBlockTime f => Some (period f) | _ => None end.
Definition set_mining_mode (m : Miner Tx) (new_mode : MiningMode) : Miner Tx :=
  mkMiner new_mode (force_transactions m) true.

(** [Pool::ready_transactions]. *)
Definition ready_iterator p : TransactionsIterator Tx := get_transactions (ready_transactions p).

Definition auto_poll (m : ReadyTransactionMiner) p
    : option (ReadyTransactionMiner * option (list (PoolTransaction Tx))) :=
  let known := match rx m with [] => has_pending_txs m | _ => Some true end in
  if bool_decide (known = Some false)
  then Some (mkReadyTransactionMiner (max_transactions m) known [], None)
  else
    txs ← iter_take (max_transactions m) (ready_iterator p);
    let m := mkReadyTransactionMiner (max_transactions m)
               (Some (bool_decide (max_transactions m ≤ length txs)%nat)) [] in
    Some (m, match txs with [] => None | _ => Some txs end).

(** [collect] of an iterator that ends within [fuel] transactions. *)
Fixpoint iter_collect (fuel : nat) (it : TransactionsIterator Tx)
    : option (list (PoolTransaction Tx)) :=
  match fuel with
  | O => None
  | S fuel =>
      '(o, it) ← next it;
      match o with
      | None => Some []
      | Some tx => l ← iter_collect fuel it; Some (tx :: l)
      end
  end.

Definition fixed_poll (fuel : nat) (m : FixedBlockTimeMiner) p
    : option (FixedBlockTimeMiner * option (list (PoolTransaction Tx))) :=
  if tick m
  then txs ← iter_collect fuel (ready_iterator p);
       Some (mkFixedBlockTimeMiner (period m) false, Some txs)
  else Some (m, None).

(** The transactions of both miners, without duplicates. *)
Definition push_unique (auto_txs : list (PoolTransaction Tx)) tx : list (PoolTransaction Tx) :=
  if existsb (λ a, bool_decide (hash a = hash tx)) auto_txs then auto_txs else auto_txs ++ [tx].
Definition combine_txs (a f : option (list (PoolTransaction Tx))) :=
  match a, f with
  | Some a, Some f => Some (foldl push_unique a f)
  | Some a, None => Some a
  | None, f => f
  end.

Definition mode_poll (fuel : nat) (m : MiningMode) p
    : option (MiningMode * option (list (PoolTransaction Tx))) :=
  match m with
  | MNone => Some (MNone, None)
  | MAuto m => '(m, txs) ← auto_poll m p; Some (MAuto m, txs)
  | MFixedBlockTime m => '(m, txs) ← fixed_poll fuel m p; Some (MFixedBlockTime m, txs)
  | MMixed a f =>
      '(a, auto_txs) ← auto_poll a p;
      '(f, fixed_txs) ← fixed_poll fuel f p;
      Some (MMixed a f, combine_txs auto_txs fixed_txs)
  end.

Definition miner_poll (fuel : nat) (m : Miner Tx) p
    : option (Miner Tx * option (list (PoolTransaction Tx))) :=
  '(md, next) ← mode_poll fuel (mode m) p;
  match next with
  | None => Some (mkMiner md (force_transactions m) (woken m), None)
  | Some next =>
      match force_transactions m with
      | Some forced => Some (mkMiner md None (woken m), Some (forced ++ next))
      | None => Some (mkMiner md None (woken m), Some next)
      end
  end.
End miner.

Section miner_proofs.
Context {Tx : Type} `{TxEnvelope Tx}.
Context `{!HashOrder TxHash} `{!HashOrder TxMarker}.
Implicit Types (p : PoolInner Tx) (tx : PoolTransaction Tx).

Lemma ready_iterator_sorted p : pool_wf p → bt_sorted ref_cmp (independent (ready_iterator p)).
Proof. intros Hwf. apply (ri_sorted _ _ _ _ _ (pool_ready _ Hwf)). Qed.

(** A well-formed pool with an independent transaction gives one. *)
Lemma iter_take_nonempty n p l :
  pool_wf p → independent_transactions (ready_transactions p) ≠ [] →
  iter_take (S n) (ready_iterator p) = Some l → l ≠ [].
Proof.
  intros Hwf Hne. cbn [iter_take].
  destruct (next_spec _ (ready_iterator_sorted p Hwf)) as ([o it'] & -> & _ & _ & Ho).
  simpl in *. destruct o as [tx|].
  - by destruct (iter_take n it'); intros [= <-].
  - destruct (independent_transactions (ready_transactions p)) as [|x l'] eqn:Hi; [done|].
    specialize (Ho x (list_elem_of_here _ _)).
    pose proof (ri_indep _ _ _ _ _ (pool_ready _ Hwf) x) as Hx.
    rewrite Hi, ready_refs_lookup, Ho in Hx. by specialize (Hx (list_elem_of_here _ _)).
Qed.

Lemma push_unique_cases (a : list (PoolTransaction Tx)) tx :
  (push_unique a tx = a ∧ hash tx ∈ hash <$> a) ∨
  (push_unique a tx = a ++ [tx] ∧ hash tx ∉ hash <$> a).
Proof.
  unfold push_unique. destruct (existsb _ a) eqn:He; [left|right]; (split; [done|]).
  - apply existsb_exists in He as (a0 & Ha0%list_elem_of_In & Heq%bool_decide_eq_true).
    rewrite <- Heq. by apply list_elem_of_fmap_2.
  - intros (a0 & Heq & Ha0)%list_elem_of_fmap.
    assert (existsb (λ a, bool_decide (hash a = hash tx)) a = true); [|congruence].
    apply existsb_exists. exists a0. split; [by apply list_elem_of_In|by apply bool_decide_true].
Qed.

Lemma push_unique_fold (f a : list (PoolTransaction Tx)) :
  let l := foldl push_unique a f in
  (∃ l', l = a ++ l') ∧ (∀ tx, tx ∈ l → tx ∈ a ∨ tx ∈ f) ∧
  (∀ h, h ∈ hash <$> l ↔ h ∈ hash <$> a ∨ h ∈ hash <$> f) ∧
  (NoDup (hash <$> a) → NoDup (hash <$> l)).
Proof.
  revert a. induction f as [|tx f IH]; intros a; cbn [foldl].
  { split_and!; [exists []; by rewrite app_nil_r|by left| |done].
    intros h. simpl. rewrite elem_of_nil. tauto. }
  destruct (IH (push_unique a tx)) as ((l' & Hl) & Hin & Hh & Hnd). clear IH.
  cbn [fmap list_fmap]. setoid_rewrite elem_of_cons.
  destruct (push_unique_cases a tx) as [[Heq Ht]|[Heq Ht]]; rewrite Heq in *.
  - split_and!; [by exists l'| | |done].
    + intros tx' [?|?]%Hin; auto.
    + intros h. rewrite Hh. split; [tauto|]. intros [?|[->|?]]; auto.
  - split_and!.
    + exists (tx :: l'). by rewrite Hl, <- app_assoc.
    + intros tx' [[?| ->%list_elem_of_singleton]%elem_of_app|?]%Hin; auto.
    + intros h. rewrite Hh, fmap_app, elem_of_app. simpl. rewrite list_elem_of_singleton. tauto.
    + intros Ha. apply Hnd. rewrite fmap_app. apply NoDup_app.
      split_and!; [done| |apply NoDup_singleton].
      by intros h Hha ->%list_elem_of_singleton.
Qed.
End miner_proofs.

(** ** Properties *)
Section miner_props.
Context {Tx : Type} `{TxEnvelope Tx}.
Context `{!HashOrder TxHash} `{!HashOrder TxMarker}.
Implicit Types (p : PoolInner Tx) (tx : PoolTransaction Tx).

(** A poll of the automatic miner always returns and drains its
    channel; it stays pending without looking at the pool exactly when
    nothing was announced since it found the pool drained; otherwise it
    gives at most [max_transactions] transactions of the pool, and at
    least one when there is an independent one. *)
Lemma auto_poll_spec m p :
  pool_wf p →
  ∃ m' res, auto_poll m p = Some (m', res) ∧
    max_transactions m' = max_transactions m ∧ rx m' = [] ∧
    match res with
    | Some txs => txs ≠ [] ∧ (length txs ≤ max_transactions m)%nat ∧
        has_pending_txs m' = Some (bool_decide (max_transactions m ≤ length txs)%nat) ∧
        ∀ tx, tx ∈ txs → is_Some (ready_tx (ready_transactions p) !! hash tx)
    | None => (rx m = [] ∧ has_pending_txs m = Some false) ∨ max_transactions m = O ∨
        independent_transactions (ready_transactions p) = []
    end.
Proof.
  intros Hwf. unfold auto_poll.
  case_bool_decide as Hk.
  { do 2 eexists. split; [reflexivity|]. split_and!; [done..|left].
    by destruct (rx m). }
  destruct (iter_take_spec (max_transactions m) (ready_iterator p) (ready_iterator_sorted p Hwf))
    as (l & Hl & Hlen & Hin). rewrite Hl. cbn.
  do 2 eexists. split; [reflexivity|]. split_and!; [done..|].
  destruct l as [|tx l].
  - right. destruct (max_transactions m) as [|n]; [by left|right].
    destruct (decide (independent_transactions (ready_transactions p) = [])) as [|Hne]; [done|].
    by destruct (iter_take_nonempty n p [] Hwf Hne Hl).
  - split_and!; [done|done|done|]. intros tx' Htx.
    destruct (Hin tx' Htx) as (h & r & Hr & ->). by exists r.
Qed.

(** A poll of the mixed miner that is ready gives the transactions of
    the automatic miner first, adds those of the interval miner whose hash
    is not among them, and no hash twice; the forced transactions precede
    them once, at the first ready poll. *)
Lemma mixed_poll_spec fuel (m : Miner Tx) p m' (txs auto_txs fixed_txs : list (PoolTransaction Tx)) a f :
  mode m = MMixed a f → miner_poll fuel m p = Some (m', Some txs) →
  (snd <$> auto_poll a p) = Some (Some auto_txs) →
  (snd <$> fixed_poll fuel f p) = Some (Some fixed_txs) →
  NoDup (hash <$> auto_txs) →
  ∃ added, txs = default [] (force_transactions m) ++ auto_txs ++ added ∧
    NoDup (hash <$> (auto_txs ++ added)) ∧
    (∀ tx, tx ∈ added → tx ∈ auto_txs ∨ tx ∈ fixed_txs) ∧
    (∀ h : TxHash, h ∈ hash <$> fixed_txs → h ∈ hash <$> (auto_txs ++ added)) ∧
    force_transactions m' = None.
Proof.
  intros Hm Hp Ha Hf Hnd. unfold miner_poll in Hp. rewrite Hm in Hp. unfold mode_poll in Hp.
  destruct (auto_poll a p) as [[a' ra]|]; [|done]. cbn in Ha, Hp. injection Ha as ->.
  destruct (fixed_poll fuel f p) as [[f' rf]|]; [|done]. cbn in Hf, Hp. injection Hf as ->.
  destruct (push_unique_fold fixed_txs auto_txs) as ((l' & Hl) & Hin & Hh & Hnd').
  cbn in Hp. rewrite Hl in *. exists l'.
  assert (txs = default [] (force_transactions m) ++ auto_txs ++ l' ∧ force_transactions m' = None)
    as [-> ->] by (by destruct (force_transactions m); injection Hp as <- <-).
  split_and!; [done|by apply Hnd'| | |done].
  - intros tx Htx. apply Hin. apply elem_of_app. by right.
  - intros h Hfx. apply Hh. by right.
Qed.
End miner_props.

#[local] Existing Instance fee_envelope.
#[local] Existing Instance hash_order.
#[local] Existing Instance marker_order.

Lemma auto_poll_spec_witness :
  ∃ m' res, auto_poll (mkReadyTransactionMiner 3 None [5]) (pool_default (Tx := Z)) = Some (m', res) ∧
    rx m' = [].
Proof.
  destruct (auto_poll_spec (mkReadyTransactionMiner 3 None [5]) (pool_default (Tx := Z)))
    as (m' & res & H1 & _ & H2 & _); [apply pool_default_wf|by exists m', res].
Defined.

(** The pool with the ready transactions 101 and 102. *)
Definition sample_pool : PoolInner Z := mkPoolInner sample_queue pending_default.

Lemma mixed_poll_spec_witness :
  ∃ added, [sample_tx 9 0 1; sample_tx 101 0 5; sample_tx 102 1 5] =
      [sample_tx 9 0 1] ++ [sample_tx 101 0 5] ++ added ∧
    NoDup (hash <$> ([sample_tx 101 0 5] ++ added)).
Proof.
  destruct (mixed_poll_spec 5
    (mkMiner (MMixed (mkReadyTransactionMiner 1 None []) (mkFixedBlockTimeMiner 6 true))
       (Some [sample_tx 9 0 1]) false) sample_pool
    (mkMiner (MMixed (mkReadyTransactionMiner 1 (Some true) []) (mkFixedBlockTimeMiner 6 false))
       None false)
    [sample_tx 9 0 1; sample_tx 101 0 5; sample_tx 102 1 5]
    [sample_tx 101 0 5] [sample_tx 101 0 5; sample_tx 102 1 5]
    (mkReadyTransactionMiner 1 None []) (mkFixedBlockTimeMiner 6 true))
    as (added & H1 & H2 & _);
    [reflexivity|vm_compute; reflexivity|vm_compute; reflexivity|vm_compute; reflexivity
    |apply NoDup_singleton|].
  by exists added.
Defined.
