(* ===== verification/PoolContent.v ===== *)
(** * What is in the pool was added to it

    A predicate that holds of every transaction of the pool is kept by
    [add_transaction] when the new transaction has it, and by
    [on_mined_block]; the miner's polls only hand out transactions that
    have it.  The node (Service.v) uses this to know what its batches are
    made of. *)
From stdpp Require Import base list gmap strings sorting.
From Stdlib Require Import ZArith Lia.
From S2P Require Import Prelude Containers PoolTx PendingQueue ReadyQueue ReadyInvariant.
From S2P Require Import ReadyProofs Pool PoolProofs Miner.

Section content.
Context {Tx : Type} `{TxEnvelope Tx}.
Context `{!HashOrder TxHash} `{!HashOrder TxMarker}.
Variable P : PoolTransaction Tx → Prop.
Implicit Types (p : PoolInner Tx) (tx : PoolTransaction Tx) (it : TransactionsIterator Tx).

#[local] Abbreviation waiting p := (waiting_queue (pending_transactions p)).
#[local] Abbreviation ready p := (ready_tx (ready_transactions p)).

Record pool_all p : Prop := {
  pa_waiting h ptx : waiting p !! h = Some ptx → P (pp_transaction ptx);
  pa_ready h r : ready p !! h = Some r → P (rt_pool_tx r)
}.
Definition transit_all (l : list (PendingPoolTransaction Tx)) : Prop :=
  ∀ ptx, ptx ∈ l → P (pp_transaction ptx).

Lemma pool_default_all : pool_all pool_default.
Proof. by split. Qed.

Lemma transit_all_app l1 l2 : transit_all l1 → transit_all l2 → transit_all (l1 ++ l2).
Proof. intros H1 H2 ptx [?|?]%elem_of_app; auto. Qed.

(** Marking: what leaves the waiting queue was in it. *)
Lemma mark_all p ms pending' unl :
  pending_wf (pending_transactions p) → pool_all p →
  mark_and_unlock (pending_transactions p) ms = Some (pending', unl) →
  pool_all (mkPoolInner (ready_transactions p) pending') ∧ transit_all unl.
Proof.
  intros Hpw [Hw Hr] Hm.
  destruct (mark_and_unlock_spec _ ms Hpw) as (s' & out & Hm' & _ & Hwq & [_ Hout]).
  rewrite Hm in Hm'. injection Hm' as <- <-. split; [split; simpl|].
  - intros h ptx. rewrite Hwq. intros (ptx0 & Hp0%Hw & Hs)%bind_Some.
    unfold stays in Hs. case_decide; [done|]. by injection Hs as <-.
  - done.
  - intros ptx (h & ptx0 & Hp0%Hw & Hl)%Hout. unfold leaves in Hl.
    case_decide; [|done]. by injection Hl as <-.
Qed.

(** A transaction moves to the ready queue. *)
Lemma ready_all p ptx txs k rts res :
  pool_wf p → in_transit p (ptx :: txs) → id_room p (S k) → pool_all p → P (pp_transaction ptx) →
  ready_add_transaction (ready_transactions p) ptx = Some (rts, res) →
  pool_all (mkPoolInner rts (pending_transactions p)).
Proof.
  intros Hwf Htr Hroom [Hw Hr] HP Ha.
  destruct (ready_step p ptx txs k Hwf Htr Hroom) as (rts' & res' & Ha' & _ & _ & _ & _ & Hres).
  rewrite Ha in Ha'. injection Ha' as <- <-. split; simpl; [done|]. intros h r Hh.
  destruct res as [replaced|e]; [|destruct Hres as [-> _]; by eapply Hr].
  destruct Hres as ((r0 & Hr0 & Heq) & _ & Hold). simpl in *.
  destruct (decide (h = pp_hash ptx)) as [->|Hne].
  - rewrite Hh in Hr0. injection Hr0 as ->. by rewrite Heq.
  - destruct (Hold h r Hne Hh) as (r1 & ? & <-). by eapply Hr.
Qed.

Lemma add_ready_step_all p0 ptx0 k st :
  queue_inv p0 ptx0 k st → pool_all st.2 → transit_all st.1.1.1 →
  match add_ready_step st with
  | Some (inl st') => pool_all st'.2 ∧ transit_all st'.1.1.1
  | Some (inr res) => pool_all res.1
  | None => True
  end.
Proof.
  destruct st as [[[queue is_new] rd] p]. intros [Hwf Htr Hroom _ _ _ _] Hp Hq. simpl in *.
  destruct queue as [|ptx queue]; [done|].
  destruct (unlock_step p (provides (pp_transaction ptx)) (ptx :: queue) Hwf Htr)
    as (pending' & unl & Hm & Hwf1 & Htr1 & _ & Hsize & _). simpl in Htr1.
  destruct (mark_all _ _ _ _ (pool_pending _ Hwf) Hp Hm) as [Hp1 Hunl].
  set (p1 := mkPoolInner (ready_transactions p) pending') in *.
  assert (id_room p1 (S (length (queue ++ unl)) + k)) as Hroom1.
  { unfold id_room in *. simpl in *. rewrite length_app. lia. }
  destruct (ready_step p1 ptx (queue ++ unl) _ Hwf1 Htr1 Hroom1) as (rts & res & Hra & _).
  assert (pool_all (mkPoolInner rts pending')) as Hp2.
  { eapply (ready_all p1); [done|exact Htr1|exact Hroom1|done|apply Hq; auto with anvil|done]. }
  cbn. rewrite Hm. cbn. change (ready_transactions p1) with (ready_transactions p) in Hra.
  rewrite Hra. cbn.
  assert (transit_all (queue ++ unl)) as Hq'.
  { apply transit_all_app; [|done]. intros t Ht. apply Hq. auto with anvil. }
  destruct res; [done|]. by destruct is_new.
Qed.

Lemma remove_all p hs rts removed :
  pool_wf p → pool_all p → remove_with_markers (ready_transactions p) hs None = Some (rts, removed) →
  pool_all (mkPoolInner rts (pending_transactions p)).
Proof.
  intros Hwf [Hw Hr] Hrm. destruct (remove_total p hs Hwf) as (rts' & rem' & Hrm' & Hinv & _).
  rewrite Hrm in Hrm'. injection Hrm' as <- <-. split; simpl; [done|]. intros h r Hh.
  destruct (rmi_links _ _ _ _ Hinv h r Hh) as (r0 & Hr0%Hr & Heq & _).
  unfold rt_pool_tx in *. by rewrite Heq.
Qed.

Lemma add_ready_all p ptx k p' res :
  pool_wf p → in_transit p [ptx] → id_room p (S k) → pool_all p → P (pp_transaction ptx) →
  add_ready_transaction p ptx = Some (p', res) → pool_all p'.
Proof.
  intros Hwf Htr Hroom Hp HP. unfold add_ready_transaction.
  set (st := ([ptx], true, new_added (pp_hash ptx), p)).
  assert (queue_inv p ptx k st) as Hinit.
  { split; simpl; try done.
    - split; [done|]. by auto.
    - intros t ->%list_elem_of_singleton. by left. }
  destruct (loop_total add_ready_step
    (λ st, queue_inv p ptx k st ∧ pool_all st.2 ∧ transit_all st.1.1.1)
    (λ res, queue_post p ptx k res ∧ pool_all res.1) queue_measure)
    with (fuel := S (queue_measure st)) (s := st)
    as ([p1 r1] & -> & (Hwf1 & _) & Hp1); [|lia| |].
  { intros st' (Hi & Ha & Ht). pose proof (add_ready_step_spec _ _ _ _ Hi) as Hstep.
    pose proof (add_ready_step_all _ _ _ _ Hi Ha Ht) as Hall.
    destruct (add_ready_step st') as [[]|]; [|done|done]. by destruct Hstep. }
  { split_and!; [done|done|]. by intros t ->%list_elem_of_singleton. }
  cbn [mbind option_bind fst snd] in *. destruct r1 as [a|e]; [|by intros [= <- _]]. case_bool_decide; [|by intros [= <- _]].
  unfold clear_transactions. destruct (remove_with_markers (ready_transactions p1) (promoted a) None) as [[rts rem]|] eqn:Hrm;
    [|done].
  cbn. intros [= <- _]. by eapply remove_all.
Qed.

Lemma add_transaction_all p tx now k p' res :
  pool_wf p → tx_wf tx → id_room p (S k) → pool_all p → P tx →
  add_transaction p tx now = Some (p', res) → pool_all p'.
Proof.
  intros Hwf Htx Hroom Hp HP. unfold add_transaction.
  destruct (pool_contains p (hash tx)) eqn:Hc; [by intros [= <- _]|].
  apply pool_contains_false in Hc as [Hw Hr].
  destruct (is_ready _) eqn:Hready; simpl.
  - apply (add_ready_all p _ k); [done| |done|done|done]. split; [apply NoDup_singleton|].
    by intros t ->%list_elem_of_singleton.
  - set (ptx := new_pending _ _ _) in *.
    assert (missing_markers ptx ≠ ∅) as Hm by (intros Hm%is_ready_spec; congruence).
    destruct (pending_add_spec (pending_transactions p) ptx) as (s' & r & -> & _ & Hres);
      [apply Hwf|done|done|]. simpl. destruct Hp as [Hpw Hpr].
    assert (pool_all (mkPoolInner (ready_transactions p) s')) as Hall.
    { split; simpl; [|done]. intros h t. destruct r as [u|e].
      - rewrite Hres. intros [[<- <-]|[_ ?]]%lookup_insert_Some; [done|by eapply Hpw].
      - destruct Hres as [-> _]. by apply Hpw. }
    destruct r; by intros [= <- _].
Qed.

(** ** A mined block *)
Lemma prune_marker_all p0 k st m :
  prune_loop_inv p0 k st → pool_all st.1.1 → transit_all st.1.2 →
  ∀ st', prune_marker st m = Some st' → pool_all st'.1.1 ∧ transit_all st'.1.2.
Proof.
  destruct st as [[p imports] pruned]. intros (Hwf & Htr & _) Hp Hi st'. simpl in *.
  destruct (unlock_step p [m] imports Hwf Htr) as (pending' & unl & Hm & Hwf1 & _).
  destruct (mark_all _ _ _ _ (pool_pending _ Hwf) Hp Hm) as [[Hw Hr] Hunl].
  unfold prune_marker. rewrite Hm. simpl. destruct (prune_tags_total (ready_transactions p) m) as (rts & txs & Hpt & Hinv).
  { apply Hwf. }
  rewrite Hpt. simpl. intros [= <-]. simpl. split; [split; simpl|by apply transit_all_app].
  - done.
  - intros h r Hh. pose proof (pri_refs _ _ _ _ Hinv) as Hs. simpl in Hs.
    eapply lookup_weaken with (i := h) (x := rt_transaction r) in Hs;
      [|by rewrite ready_refs_lookup, Hh].
    rewrite ready_refs_lookup in Hs. apply fmap_Some in Hs as (r0 & Hr0%Hr & Heq).
    unfold rt_pool_tx in *. by rewrite Heq.
Qed.

Lemma promote_import_all k ptx imports st :
  promote_inv k (ptx :: imports) st → pool_all st.1.1 → P (pp_transaction ptx) →
  ∀ st', promote_import st ptx = Some st' → pool_all st'.1.1.
Proof.
  destruct st as [[p promoted] failed]. intros (Hwf & Htr & Hroom) Hp HP st'. simpl in *.
  destruct (add_ready_transaction p ptx) as [[p' res]|] eqn:Ha; [|done]. cbn. intros Hst'.
  assert (st'.1.1 = p') as -> by (by destruct res; injection Hst' as <-).
  eapply (add_ready_all p ptx _); [done| |exact Hroom|done|done|exact Ha].
  split; [apply NoDup_singleton|]. intros t ->%list_elem_of_singleton. apply Htr. auto with anvil.
Qed.

Lemma prune_markers_all p ms k p' res :
  pool_wf p → id_room p k → pool_all p → prune_markers p ms = Some (p', res) → pool_all p'.
Proof.
  intros Hwf Hroom Hp. unfold prune_markers.
  destruct (fold_m_total prune_marker
    (λ _ st, prune_loop_inv p k st ∧ pool_all st.1.1 ∧ transit_all st.1.2)) with
    (l := ms) (b := (p, [] : list (PendingPoolTransaction Tx), [] : list (PoolTransaction Tx)))
    as ([[p1 imports] pruned] & -> & Hinv & Hp1 & Hi).
  { intros m l st (Hi & Ha & Ht). destruct (prune_marker_spec _ _ _ m Hi) as (st' & Hst' & Hi').
    exists st'. split; [done|]. split; [done|]. exact (prune_marker_all p k st m Hi Ha Ht st' Hst'). }
  { split_and!; simpl; [|done|by intros ? ?%not_elem_of_nil].
    split_and!; simpl; [done| |done|split; by auto|by intros ? ?%not_elem_of_nil].
    split; [constructor|]. by intros ? ?%not_elem_of_nil. }
  destruct Hinv as (Hwf1 & Htr1 & Hroom1 & _). simpl in *.
  destruct (fold_m_total promote_import
    (λ l st, promote_inv k l st ∧ pool_all st.1.1 ∧ transit_all l)) with
    (l := imports) (b := (p1, [] : list (AddedTransaction Tx), [] : list TxHash))
    as ([[p2 promoted] failed] & -> & _ & Hp2 & _).
  { intros ptx l st (Hpi & Ha & Ht). destruct (promote_import_spec k ptx l st Hpi) as (st' & Hst' & Hi').
    exists st'. split; [done|]. split_and!; [done| |].
    - eapply promote_import_all; [done..| |done]. apply Ht. auto with anvil.
    - intros t Hin. apply Ht. auto with anvil. }
  { by split_and!. }
  simpl. by intros [= <- _].
Qed.

Lemma remove_invalid_all p hs k p' rem :
  pool_wf p → id_room p k → pool_all p → remove_invalid p hs = Some (p', rem) → pool_all p'.
Proof.
  intros Hwf Hroom Hp. unfold remove_invalid. destruct hs as [|h0 hs0] eqn:Hhs; [by intros [= <- _]|].
  rewrite <- Hhs. destruct (remove_with_markers (ready_transactions p) hs None)
    as [[rts rm]|] eqn:Hrm; [|done].
  cbn. destruct (pending_remove _ _) as [pend rem'] eqn:Hpr. intros [= <- _].
  destruct (remove_all _ _ _ _ Hwf Hp Hrm) as [Hw Hr]. simpl in *.
  destruct (pending_remove_wf _ _ _ _ _ (pool_pending _ Hwf) Hpr) as [_ Hq].
  split; simpl; [|done]. intros h t. rewrite Hq. case_decide; [done|]. apply Hw.
Qed.
Lemma drop_transaction_all p h p' t :
  pool_wf p → pool_all p → drop_transaction p h = Some (p', t) → pool_all p'.
Proof.
  intros Hwf Hp. unfold drop_transaction.
  destruct (remove_with_markers (ready_transactions p) [h] None) as [[rts rm]|] eqn:Hrm; [|done].
  cbn. intros [= <- _]. by eapply remove_all.
Qed.

Lemma on_mined_block_all p outcome k p' res :
  pool_wf p → id_room p k → pool_all p → on_mined_block p outcome = Some (p', res) → pool_all p'.
Proof.
  intros Hwf Hroom Hp. unfold on_mined_block.
  destruct (remove_invalid_total p (hash <$> invalid outcome) k Hwf Hroom)
    as (p1 & rem & Hri & Hwf1 & Hroom1 & _). rewrite Hri. cbn.
  intros Hpm. eapply (prune_markers_all p1 _ k); [done..| |exact Hpm].
  by eapply (remove_invalid_all p _ k).
Qed.

(** ** The iterator and the miner's polls *)
Definition iter_all it : Prop :=
  (∀ x, x ∈ independent it → P (ref_transaction x)) ∧
  (∀ h n x, awaiting it !! h = Some (n, x) → P (ref_transaction x)) ∧
  ∀ h r, all it !! h = Some r → P (rt_pool_tx r).

Lemma independent_or_awaiting_all it n x :
  iter_all it → P (ref_transaction x) → iter_all (independent_or_awaiting it n x).
Proof.
  intros (Hi & Ha & Hr) HP. unfold independent_or_awaiting. case_match; split_and!; simpl; try done.
  - intros y [->|?]%bt_insert_elem; auto.
  - intros h m y [[<- [= <- <-]]|[_ ?]]%lookup_insert_Some; [done|by eapply Ha].
Qed.

Lemma unlock_next_all it h : iter_all it → iter_all (unlock_next it h).
Proof.
  intros Hit. unfold unlock_next. pose proof Hit as (Hi & Ha & Hr).
  destruct (awaiting it !! h) as [[n x]|] eqn:Hx.
  - apply independent_or_awaiting_all; [|by eapply Ha]. split_and!; simpl; [done| |done].
    intros h' m y [_ ?]%lookup_delete_Some. by eapply Ha.
  - destruct (all it !! h) as [r|] eqn:Hh; [|done]. apply independent_or_awaiting_all; [done|].
    by apply (Hr h).
Qed.

Lemma unlock_all hs : ∀ it, iter_all it → iter_all (foldl unlock_next it hs).
Proof. induction hs as [|h hs IH]; intros it Hit; [done|]. by apply IH, unlock_next_all. Qed.

Definition next_all_post (res : option (PoolTransaction Tx) * TransactionsIterator Tx) : Prop :=
  iter_all res.2 ∧ ∀ tx, res.1 = Some tx → P tx.

Lemma next_step_all it : iter_all it →
  match next_step it with
  | Some (inl it') => iter_all it'
  | Some (inr res) => next_all_post res
  | None => True
  end.
Proof.
  intros Hit. unfold next_step. destruct (_ ≫= _) as [best|] eqn:Hb; [|by split].
  apply bind_Some in Hb as (x & _ & [Hx _]%bt_take_Some). pose proof Hit as (Hi & Ha & Hr).
  assert (iter_all (mkTransactionsIterator (all it) (awaiting it)
    (bt_remove ref_cmp best (independent it)))) as Hit'.
  { split_and!; simpl; [|done|done]. intros y Hy%bt_remove_elem. by apply Hi. }
  simpl. destruct (all it !! ref_hash best) as [r|]; [|done]. split; [by apply unlock_all|].
  intros tx [= <-]. by apply Hi.
Qed.

Lemma next_all it res : iter_all it → next it = Some res → next_all_post res.
Proof. apply (loop_post next_step iter_all), next_step_all. Qed.

Lemma iter_take_all n : ∀ it l, iter_all it → iter_take n it = Some l → Forall P l.
Proof.
  induction n as [|n IH]; intros it l Hit; cbn [iter_take]; [intros [= <-]; constructor|].
  destruct (next it) as [[o it']|] eqn:Hn; [|done]. destruct (next_all _ _ Hit Hn) as [Hit' Ho].
  cbn. destruct o as [tx|]; [|intros [= <-]; constructor].
  destruct (iter_take n it') as [l'|] eqn:Ht; [|done]. intros [= <-].
  constructor; [by apply Ho|by eapply IH].
Qed.
Lemma iter_collect_all n : ∀ it l, iter_all it → iter_collect n it = Some l → Forall P l.
Proof.
  induction n as [|n IH]; intros it l Hit; cbn [iter_collect]; [done|].
  destruct (next it) as [[o it']|] eqn:Hn; [|done]. destruct (next_all _ _ Hit Hn) as [Hit' Ho].
  cbn. destruct o as [tx|]; [|intros [= <-]; constructor].
  destruct (iter_collect n it') as [l'|] eqn:Ht; [|done]. intros [= <-].
  constructor; [by apply Ho|by eapply IH].
Qed.

Lemma ready_iterator_all p : pool_wf p → pool_all p → iter_all (ready_iterator p).
Proof.
  intros Hwf [Hw Hr]. split_and!; simpl; [|done|done]. intros x Hx.
  apply (ri_indep _ _ _ _ _ (pool_ready _ Hwf)) in Hx. rewrite ready_refs_lookup in Hx.
  apply fmap_Some in Hx as (r & Hh%Hr & ->). done.
Qed.

Definition all_of (l : option (list (PoolTransaction Tx))) : Prop := ∀ txs, l = Some txs → Forall P txs.

Lemma auto_poll_all m p m' l :
  pool_wf p → pool_all p → auto_poll m p = Some (m', l) → all_of l.
Proof.
  intros Hwf Hp. unfold auto_poll. case_bool_decide; [by intros [= _ <-]|].
  destruct (iter_take _ _) as [l'|] eqn:Ht; [|done]. cbn.
  apply iter_take_all in Ht; [|by apply ready_iterator_all].
  intros [= _ <-] txs. destruct l'; [done|]. by intros [= <-].
Qed.
Lemma fixed_poll_all fuel m p m' l :
  pool_wf p → pool_all p → fixed_poll fuel m p = Some (m', l) → all_of l.
Proof.
  intros Hwf Hp. unfold fixed_poll. destruct (tick m); [|by intros [= _ <-]].
  destruct (iter_collect _ _) as [l'|] eqn:Ht; [|done]. cbn.
  apply iter_collect_all in Ht; [|by apply ready_iterator_all]. by intros [= _ <-] txs [= <-].
Qed.
Lemma combine_all a f : all_of a → all_of f → all_of (combine_txs a f).
Proof.
  intros Ha Hf. destruct a as [a|]; [|done]. destruct f as [f|]; [|done]. intros txs [= <-].
  destruct (push_unique_fold f a) as (_ & Hin & _). apply Forall_forall. intros tx [Ht|Ht]%Hin.
  - by eapply (proj1 (Forall_forall _ a)); [apply Ha|].
  - by eapply (proj1 (Forall_forall _ f)); [apply Hf|].
Qed.

Lemma mode_poll_all fuel m p m' l :
  pool_wf p → pool_all p → mode_poll fuel m p = Some (m', l) → all_of l.
Proof.
  intros Hwf Hp. destruct m as [|a|f|a f]; cbn.
  - by intros [= _ <-].
  - destruct (auto_poll a p) as [[a' l']|] eqn:Ha; [|done]. cbn. intros [= _ <-].
    by eapply auto_poll_all.
  - destruct (fixed_poll fuel f p) as [[f' l']|] eqn:Hf; [|done]. cbn. intros [= _ <-].
    by eapply fixed_poll_all.
  - destruct (auto_poll a p) as [[a' la]|] eqn:Ha; [|done]. cbn.
    destruct (fixed_poll fuel f p) as [[f' lf]|] eqn:Hf; [|done]. cbn. intros [= _ <-].
    apply combine_all; [by eapply auto_poll_all|by eapply fixed_poll_all].
Qed.

(** A poll of the miner, whose forced transactions satisfy the predicate. *)
Lemma miner_poll_all fuel m p m' l :
  pool_wf p → pool_all p → all_of (force_transactions m) → miner_poll fuel m p = Some (m', l) →
  all_of l ∧ all_of (force_transactions m').
Proof.
  intros Hwf Hp Hforce. unfold miner_poll.
  destruct (mode_poll fuel (mode m) p) as [[md next]|] eqn:Hm; [|done].
  apply mode_poll_all in Hm; [|done..]. cbn. destruct next as [next|]; [|by intros [= <- <-]].
  destruct (force_transactions m) as [forced|]; intros [= <- <-]; (split; [|done]).
  - intros txs [= <-]. apply Forall_app. split; [by apply Hforce|by apply Hm].
  - intros txs [= <-]. by apply Hm.
Qed.
End content.
