(* ===== verification/Time.v ===== *)
(** * The block clock: [TimeManager] of anvil/src/eth/backend/time.rs

    The locks of the source are the fields of a record; the system clock,
    which [duration_since_unix_epoch] reads, is the argument [now] (seconds)
    of the operations that read it. *)
From stdpp Require Import base list sorting.
From Stdlib Require Import ZArith Lia.
From S2P Require Import Prelude.

Record TimeManager := mkTimeManager {
  offset : Z;                       (* i128 *)
  last_timestamp : Z;               (* u64 *)
  next_exact_timestamp : option Z;  (* u64 *)
  interval : option Z;              (* u64 *)
}.

Inductive TimestampError := TimestampTooLow (timestamp : Z).

Definition i128_saturating_add (a b : Z) : Z := clamp i128_min i128_max (a + b).

Definition reset (t : TimeManager) (now start_timestamp : Z) : TimeManager :=
  mkTimeManager (start_timestamp - now) start_timestamp None (interval t).

Definition time_new (now start_timestamp : Z) : TimeManager :=
  reset (mkTimeManager 0 0 None None) now start_timestamp.

Definition add_offset (t : TimeManager) (off : Z) : TimeManager * Z :=
  let next := i128_saturating_add (offset t) off in
  (mkTimeManager next (last_timestamp t) (next_exact_timestamp t) (interval t), next).

Definition increase_time (t : TimeManager) (seconds : Z) : TimeManager * Z :=
  add_offset t seconds.

Definition set_next_block_timestamp (t : TimeManager) (timestamp : Z)
    : TimeManager * result TimestampError unit :=
  if bool_decide (timestamp < last_timestamp t)
  then (t, Err (TimestampTooLow timestamp))
  else (mkTimeManager (offset t) (last_timestamp t) (Some timestamp) (interval t), Ok tt).

Definition set_block_timestamp_interval (t : TimeManager) (i : Z) : TimeManager :=
  mkTimeManager (offset t) (last_timestamp t) (next_exact_timestamp t) (Some i).

Definition remove_block_timestamp_interval (t : TimeManager) : TimeManager * bool :=
  (mkTimeManager (offset t) (last_timestamp t) (next_exact_timestamp t) None,
   bool_decide (is_Some (interval t))).

(** The timestamp before the monotonicity correction. *)
Definition proposed_timestamp (t : TimeManager) (now : Z) : Z * bool :=
  match next_exact_timestamp t, interval t with
  | Some next, _ => (next, true)
  | None, Some i => (saturating_add u64_max (last_timestamp t) i, false)
  | None, None => (wrap_u64 (i128_saturating_add now (offset t)), false)
  end.

Definition compute_next_timestamp (t : TimeManager) (now : Z) : option (Z * option Z) :=
  let '(proposed, update_offset) := proposed_timestamp t now in
  next ← (if bool_decide (proposed < last_timestamp t)
          then checked u64_max (last_timestamp t + 1) else Some proposed);
  Some (next, if update_offset then Some (next - now) else None).

Definition next_timestamp (t : TimeManager) (now : Z) : option (TimeManager * Z) :=
  '(next, next_offset) ← compute_next_timestamp t now;
  Some (mkTimeManager (default (offset t) next_offset) next None (interval t), next).

Definition current_call_timestamp (t : TimeManager) (now : Z) : option Z :=
  fst <$> compute_next_timestamp t now.

(** The calls that the node makes on its clock, and the timestamps that a
    sequence of them gives to blocks. *)
Inductive TimeCall :=
| CIncreaseTime (seconds : Z)
| CSetNext (timestamp : Z)
| CSetInterval (i : Z)
| CRemoveInterval
| CNext (now : Z).

Definition time_call (st : TimeManager * list Z) (c : TimeCall)
    : option (TimeManager * list Z) :=
  let '(t, out) := st in
  match c with
  | CIncreaseTime s => Some ((increase_time t s).1, out)
  | CSetNext ts => Some ((set_next_block_timestamp t ts).1, out)
  | CSetInterval i => Some (set_block_timestamp_interval t i, out)
  | CRemoveInterval => Some ((remove_block_timestamp_interval t).1, out)
  | CNext now => '(t', ts) ← next_timestamp t now; Some (t', out ++ [ts])
  end.

Definition call_in_range (c : TimeCall) : Prop :=
  match c with
  | CIncreaseTime z | CSetNext z | CSetInterval z | CNext z => in_u64 z
  | CRemoveInterval => True
  end.

(** The values have the types of their fields. *)
Record time_wf (t : TimeManager) : Prop := {
  tw_offset : i128_min ≤ offset t ≤ i128_max;
  tw_last : in_u64 (last_timestamp t);
  tw_next : ∀ ts, next_exact_timestamp t = Some ts → in_u64 ts;
  tw_interval : ∀ i, interval t = Some i → in_u64 i;
}.

Lemma clamp_range lo hi z : lo ≤ hi → lo ≤ clamp lo hi z ≤ hi.
Proof. unfold clamp. lia. Qed.

Ltac time_unfold :=
  unfold i128_saturating_add, saturating_add, clamp, in_u64, u64_max, i128_min, i128_max in *;
  simpl in *.

Lemma proposed_in_range t now : time_wf t → in_u64 (proposed_timestamp t now).1.
Proof.
  intros [Hoff Hlast Hnext Hint]. unfold proposed_timestamp.
  destruct (next_exact_timestamp t) as [ts|]; [by apply Hnext|].
  destruct (interval t) as [i|]; [|apply wrap_u64_range].
  specialize (Hint i eq_refl). time_unfold. lia.
Qed.

(** [compute_next_timestamp] panics only when the clock is at its end and is
    asked to go back. *)
Lemma compute_next_spec t now :
  time_wf t →
  match compute_next_timestamp t now with
  | Some (next, off) =>
      in_u64 next ∧ last_timestamp t ≤ next ∧
      next = (let p := (proposed_timestamp t now).1 in
              if decide (p < last_timestamp t) then last_timestamp t + 1 else p) ∧
      off = (if (proposed_timestamp t now).2 then Some (next - now) else None)
  | None => last_timestamp t = u64_max ∧ (proposed_timestamp t now).1 < u64_max
  end.
Proof.
  intros Hwf. pose proof (proposed_in_range t now Hwf) as Hp.
  pose proof (tw_last _ Hwf) as Hl. unfold compute_next_timestamp.
  destruct (proposed_timestamp t now) as [p upd]. simpl in *.
  case_bool_decide as Hlt; simpl.
  - rewrite decide_True by done. unfold checked. case_bool_decide as Hc; simpl.
    + split_and!; [done|lia|done|done].
    + time_unfold. lia.
  - rewrite decide_False by done. split_and!; [done|lia|done|done].
Qed.

Lemma next_timestamp_spec t now t' ts :
  time_wf t → in_u64 now → next_timestamp t now = Some (t', ts) →
  time_wf t' ∧ last_timestamp t ≤ ts ∧ last_timestamp t' = ts ∧
  next_exact_timestamp t' = None ∧ interval t' = interval t.
Proof.
  intros Hwf Hnow. unfold next_timestamp.
  pose proof (compute_next_spec t now Hwf) as Hc.
  destruct (compute_next_timestamp t now) as [[next off]|]; simpl; [|done].
  intros [= <- <-]. destruct Hc as (Hin & Hle & _ & ->). split_and!; [|done..].
  destruct Hwf. split; simpl; [|done|done|done].
  destruct (proposed_timestamp t now).2; simpl; [|done].
  time_unfold. lia.
Qed.

Lemma time_call_spec t out c st' :
  time_wf t → call_in_range c → time_call (t, out) c = Some st' →
  time_wf st'.1 ∧ last_timestamp t ≤ last_timestamp st'.1 ∧
  (st'.2 = out ∨ st'.2 = out ++ [last_timestamp st'.1]).
Proof.
  intros Hwf Hc Hcall. pose proof Hwf as [? ? ? ?]. destruct c; simpl in *.
  - injection Hcall as <-. split_and!; [split; simpl; try done|done|by left].
    apply clamp_range. time_unfold. lia.
  - injection Hcall as <-. unfold set_next_block_timestamp.
    case_bool_decide; simpl; split_and!; [done|done|by left| |done|by left].
    split; simpl; try done. by intros ? [= <-].
  - injection Hcall as <-. split_and!; [split; simpl; try done|done|by left].
    by intros ? [= <-].
  - injection Hcall as <-. by split_and!; [split; simpl|simpl|left].
  - destruct (next_timestamp t now) as [[t' ts]|] eqn:Hn; simpl in Hcall; [|done].
    injection Hcall as <-. apply next_timestamp_spec in Hn as (? & ? & Hl & _); [|done|done].
    simpl. rewrite Hl. split_and!; [done|done|by right].
Qed.

Lemma time_calls_sorted cs : ∀ t out st',
  time_wf t → Forall call_in_range cs → fold_m time_call (t, out) cs = Some st' →
  ∃ new, st'.2 = out ++ new ∧ Sorted Z.le (last_timestamp t :: new).
Proof.
  induction cs as [|c cs IH]; intros t out st' Hwf Hcs Hf; cbn [fold_m] in Hf.
  { injection Hf as <-. exists []. rewrite app_nil_r. by repeat constructor. }
  apply Forall_cons in Hcs as [Hc Hcs].
  destruct (time_call (t, out) c) as [[t1 out1]|] eqn:H1; [|done].
  destruct (time_call_spec _ _ _ _ Hwf Hc H1) as (Hwf1 & Hle & Hout). simpl in *.
  destruct (IH _ _ _ Hwf1 Hcs Hf) as (new & -> & Hs).
  destruct Hout as [-> | ->].
  - exists new. split; [done|]. apply Sorted_inv in Hs as [Hs Hhd].
    constructor; [done|]. destruct new; constructor.
    apply HdRel_inv in Hhd. lia.
  - exists (last_timestamp t1 :: new). rewrite <- app_assoc. split; [done|].
    constructor; [done|by constructor].
Qed.

(** ** Properties *)

(** The timestamps that the clock gives to blocks never decrease,
    whatever offsets, intervals and exact timestamps are set in between and
    whatever the system clock does. *)
Lemma timestamps_monotone t cs t' out :
  time_wf t → Forall call_in_range cs →
  fold_m time_call (t, []) cs = Some (t', out) →
  StronglySorted Z.le (last_timestamp t :: out).
Proof.
  intros Hwf Hcs Hf. apply Sorted_StronglySorted; [intros ???; lia|].
  by destruct (time_calls_sorted _ _ _ _ Hwf Hcs Hf) as (new & [= ->] & ?).
Qed.

Lemma timestamps_monotone_witness :
  StronglySorted Z.le [100; 100; 101; 200; 210; 215].
Proof.
  apply (timestamps_monotone (time_new 1000 100)
    [CNext 1000; CNext 900; CSetNext 200; CNext 950; CSetNext 150; CIncreaseTime 5;
     CNext 955; CSetInterval 5; CNext 2] (mkTimeManager (-745) 215 None (Some 5))).
  - by split.
  - repeat constructor; done.
  - vm_compute. reflexivity.
Defined.

(** An accepted [set_next_block_timestamp] is the timestamp of the next
    block, and shifts the clock: without an interval, a block mined [d]
    seconds later is stamped [d] seconds later.  A timestamp below the last
    block's is refused and changes nothing. *)
Lemma next_block_timestamp_exact t now d ts :
  time_wf t → in_u64 now → in_u64 (now + d) → 0 ≤ d → in_u64 ts → in_u64 (ts + d) →
  if decide (ts < last_timestamp t)
  then set_next_block_timestamp t ts = (t, Err (TimestampTooLow ts))
  else ∃ t1 t2, set_next_block_timestamp t ts = (t1, Ok tt) ∧
    current_call_timestamp t1 now = Some ts ∧
    next_timestamp t1 now = Some (t2, ts) ∧
    (interval t = None → current_call_timestamp t2 (now + d) = Some (ts + d)).
Proof.
  intros Hwf Hnow Hd Hd0 Hts Htsd. unfold set_next_block_timestamp.
  destruct (decide _) as [Hlt|Hge]; [by rewrite bool_decide_true|].
  decide_bools. do 2 eexists. split; [reflexivity|].
  unfold current_call_timestamp, next_timestamp, compute_next_timestamp. simpl.
  decide_bools. simpl. split_and!; [done|reflexivity|].
  intros Hi. unfold proposed_timestamp. simpl. rewrite Hi. simpl.
  assert (i128_saturating_add (now + d) (ts - now) = ts + d) as ->.
  { time_unfold. lia. }
  rewrite wrap_u64_small by done.
  decide_bools. done.
Qed.

Lemma next_block_timestamp_exact_witness :
  ∃ t1 t2, set_next_block_timestamp (time_new 1000 100) 500 = (t1, Ok tt) ∧
    current_call_timestamp t1 1010 = Some 500 ∧
    next_timestamp t1 1010 = Some (t2, 500) ∧
    (interval (time_new 1000 100) = None → current_call_timestamp t2 (1010 + 7) = Some (500 + 7)).
Proof.
  apply (next_block_timestamp_exact (time_new 1000 100) 1010 7 500);
    [by split|try (vm_compute; split; discriminate)..]; vm_compute; discriminate.
Defined.
