(* ===== verification/Snapshots.v ===== *)
(** * State snapshots: evm/core/src/state_snapshot.rs

    [StateSnapshots] keeps the snapshots under ascending ids; removing one
    also drops the snapshots taken after it.  The ids are 256-bit unsigned
    integers whose [+] wraps. *)
From stdpp Require Import base gmap list.
From Stdlib Require Import ZArith Lia.
From S2P Require Import Prelude.

Record StateSnapshots (T : Type) := mkStateSnapshots {
  snapshot_id : Z;
  state_snapshots : gmap Z T;
}.
Arguments mkStateSnapshots {T} _ _.
Arguments snapshot_id {T} _.
Arguments state_snapshots {T} _.

(** What a revert does with the snapshot it uses. *)
Inductive RevertStateSnapshotAction := RevertRemove | RevertKeep.
Definition is_keep (a : RevertStateSnapshotAction) : bool :=
  match a with RevertKeep => true | RevertRemove => false end.

Section snapshots.
Context {T : Type}.
Implicit Types s : StateSnapshots T.

Definition snapshots_default : StateSnapshots T := mkStateSnapshots 0 ∅.

Definition snapshots_next_id s : StateSnapshots T * Z :=
  let id := snapshot_id s in
  (mkStateSnapshots (saturating_add u256_max id 1) (state_snapshots s), id).

Definition snapshots_get s (id : Z) : option T := state_snapshots s !! id.

(** One iteration of the loop that drops the later snapshots. *)
Definition revert_step (st : StateSnapshots T * Z)
    : option ((StateSnapshots T * Z) + StateSnapshots T) :=
  let '(s, to_revert) := st in
  if bool_decide (to_revert < snapshot_id s)
  then Some (inl (mkStateSnapshots (snapshot_id s) (delete to_revert (state_snapshots s)),
                  wrap_u256 (to_revert + 1)))
  else Some (inr s).

Definition snapshots_remove s (id : Z) : option (StateSnapshots T * option T) :=
  let snapshot_state := state_snapshots s !! id in
  let s := mkStateSnapshots (snapshot_id s) (delete id (state_snapshots s)) in
  s' ← loop revert_step (S (Z.to_nat (snapshot_id s))) (s, wrap_u256 (id + 1));
  Some (s', snapshot_state).

Definition snapshots_clear s : StateSnapshots T := mkStateSnapshots (snapshot_id s) ∅.

Definition remove_at s (id : Z) : StateSnapshots T * option T :=
  (mkStateSnapshots (snapshot_id s) (delete id (state_snapshots s)), state_snapshots s !! id).

Definition snapshots_insert s (x : T) : StateSnapshots T * Z :=
  let '(s, id) := snapshots_next_id s in
  (mkStateSnapshots (snapshot_id s) (<[id := x]> (state_snapshots s)), id).

Definition insert_at s (x : T) (id : Z) : StateSnapshots T :=
  mkStateSnapshots (snapshot_id s) (<[id := x]> (state_snapshots s)).
End snapshots.

(** The in-memory database of anvil: the current state and its snapshots. *)
Record MemDb (T : Type) := mkMemDb {
  inner : T;
  db_snapshots : StateSnapshots T;
}.
Arguments mkMemDb {T} _ _.
Arguments inner {T} _.
Arguments db_snapshots {T} _.

Section mem_db.
Context {T : Type}.
Implicit Types d : MemDb T.

Definition snapshot_state d : MemDb T * Z :=
  let '(s, id) := snapshots_insert (db_snapshots d) (inner d) in
  (mkMemDb (inner d) s, id).

Definition revert_state d (id : Z) (action : RevertStateSnapshotAction)
    : option (MemDb T * bool) :=
  '(s, found) ← snapshots_remove (db_snapshots d) id;
  match found with
  | Some snap =>
      let s := if is_keep action then insert_at s snap id else s in
      Some (mkMemDb snap s, true)
  | None => Some (mkMemDb (inner d) s, false)
  end.
End mem_db.

Section snapshots_proofs.
Context {T : Type}.
Implicit Types s : StateSnapshots T.

(** Ids are below the counter. *)
Record snapshots_wf s : Prop := {
  sw_id : in_u256 (snapshot_id s);
  sw_keys : ∀ id x, state_snapshots s !! id = Some x → 0 ≤ id < snapshot_id s;
}.

Lemma snapshots_default_wf : snapshots_wf (@snapshots_default T).
Proof. split; [done|by intros ??]. Qed.

(** Dropping from [from] upwards removes exactly the ids from [from] on. *)
Lemma revert_loop_spec s : in_u256 (snapshot_id s) → ∀ fuel (m : gmap Z T) from,
  0 ≤ from ≤ u256_max → (Z.to_nat (snapshot_id s - from) < fuel)%nat →
  ∃ m', loop revert_step fuel (mkStateSnapshots (snapshot_id s) m, from) =
    Some (mkStateSnapshots (snapshot_id s) m') ∧
    ∀ id, m' !! id = (if decide (from ≤ id < snapshot_id s) then None else m !! id).
Proof.
  intros Hid. induction fuel as [|fuel IH]; intros m from Hfrom Hfuel; [lia|].
  simpl. case_bool_decide as Hlt; simpl.
  - unfold in_u256 in Hid.
    rewrite wrap_u256_small by (unfold in_u256; lia).
    destruct (IH (delete from m) (from + 1)) as (m' & -> & Hm'); [lia..|].
    exists m'. split; [done|]. intros id. rewrite Hm', lookup_delete.
    repeat case_decide; try done; try lia.
  - exists m. split; [done|]. intros id. by rewrite decide_False by lia.
Qed.

Lemma snapshots_remove_spec s id :
  snapshots_wf s → 0 ≤ id < u256_max →
  ∃ s', snapshots_remove s id = Some (s', state_snapshots s !! id) ∧
    snapshots_wf s' ∧ snapshot_id s' = snapshot_id s ∧
    ∀ id', state_snapshots s' !! id' =
      (if decide (id ≤ id') then None else state_snapshots s !! id').
Proof.
  intros [Hid Hkeys] Hr. unfold snapshots_remove. cbn [snapshot_id state_snapshots].
  rewrite wrap_u256_small by (unfold in_u256; lia).
  destruct (revert_loop_spec s Hid (S (Z.to_nat (snapshot_id s)))
    (delete id (state_snapshots s)) (id + 1)) as (m' & Hl & Hm').
  { lia. } { lia. }
  cbn [snapshot_id] in *. rewrite Hl. cbn. eexists. split; [reflexivity|].
  assert (Hlook : ∀ id', m' !! id' =
    (if decide (id ≤ id') then None else state_snapshots s !! id')).
  { intros id'. rewrite Hm', lookup_delete.
    destruct (state_snapshots s !! id') as [x|] eqn:Hx; [apply Hkeys in Hx|];
      repeat case_decide; done || lia. }
  split_and!; [|done|done]. split; simpl; [done|].
  intros id' x. rewrite Hlook. case_decide; [done|]. apply Hkeys.
Qed.

Lemma snapshots_insert_spec s x :
  snapshots_wf s → snapshot_id s < u256_max →
  ∃ s', snapshots_insert s x = (s', snapshot_id s) ∧ snapshots_wf s' ∧
    snapshot_id s' = snapshot_id s + 1 ∧ state_snapshots s !! snapshot_id s = None ∧
    state_snapshots s' = <[snapshot_id s := x]> (state_snapshots s).
Proof.
  intros [Hid Hkeys] Hlt. unfold snapshots_insert, snapshots_next_id. simpl.
  unfold saturating_add. rewrite Z.min_r by lia.
  unfold in_u256 in Hid. eexists. split; [done|]. simpl.
  split_and!; [|done| |done].
  - split; simpl; [unfold in_u256; lia|].
    intros id y [[<- _]|[_ Hy%Hkeys]]%lookup_insert_Some; lia.
  - destruct (state_snapshots s !! snapshot_id s) eqn:Hx; [|done].
    apply Hkeys in Hx. lia.
Qed.
End snapshots_proofs.

(** ** Properties *)

(** Reverting a database to a snapshot restores the state it was taken
    in, whatever states and further snapshots came after; the later snapshots
    are gone, the earlier ones remain, and the snapshot itself remains exactly
    when the action keeps it. *)
Lemma revert_restores_snapshot {T} (d : MemDb T) later new action :
  snapshots_wf (db_snapshots d) →
  snapshot_id (db_snapshots d) + Z.of_nat (length later) < u256_max →
  let '(d1, id) := snapshot_state d in
  let d2 := foldl (λ d x, (snapshot_state (mkMemDb x (db_snapshots d))).1) d1 later in
  ∃ d3, revert_state (mkMemDb new (db_snapshots d2)) id action = Some (d3, true) ∧
    inner d3 = inner d ∧ snapshots_wf (db_snapshots d3) ∧
    ∀ id', snapshots_get (db_snapshots d3) id' =
      if decide (id' = id) then (if is_keep action then Some (inner d) else None)
      else snapshots_get (db_snapshots d) id'.
Proof.
  intros Hwf Hlt. unfold snapshot_state at 1.
  destruct (snapshots_insert_spec (db_snapshots d) (inner d) Hwf) as (s1 & -> & Hwf1 & Hid1 & Hn & Hs1);
    [lia|].
  set (id := snapshot_id (db_snapshots d)) in *.
  set (d1 := mkMemDb (inner d) s1).
  assert (∃ d2, foldl (λ d x, (snapshot_state (mkMemDb x (db_snapshots d))).1) d1 later = d2 ∧
    snapshots_wf (db_snapshots d2) ∧ id < snapshot_id (db_snapshots d2) ∧
    ∀ id', id' ≤ id → state_snapshots (db_snapshots d2) !! id' = state_snapshots s1 !! id')
    as (d2 & -> & Hwf2 & Hid2 & Hs2).
  { assert (snapshots_wf (db_snapshots d1) ∧ id < snapshot_id (db_snapshots d1) ∧
      snapshot_id (db_snapshots d1) + Z.of_nat (length later) ≤ u256_max ∧
      ∀ id', id' ≤ id → state_snapshots (db_snapshots d1) !! id' = state_snapshots s1 !! id')
      as (H1 & H2 & H3 & H4) by (split_and!; simpl; [done|lia|lia|done]).
    clearbody d1. clear Hlt. revert d1 H1 H2 H3 H4.
    induction later as [|x later IH]; intros d1 H1 H2 H3 H4; cbn [foldl]; [by exists d1|].
    simpl in H3.
    destruct (snapshots_insert_spec (db_snapshots d1) x H1) as (s2 & Hins & ? & ? & _ & Hs2); [lia|].
    assert ((snapshot_state (mkMemDb x (db_snapshots d1))).1 = mkMemDb x s2) as ->
      by (unfold snapshot_state; cbn [db_snapshots inner]; by rewrite Hins).
    apply IH; simpl; [done|lia|lia|].
    intros id' ?. rewrite Hs2, lookup_insert_ne by lia. by apply H4. }
  assert (in_u256 id) by apply Hwf. unfold in_u256 in *.
  unfold revert_state. simpl.
  destruct (snapshots_remove_spec (db_snapshots d2) id Hwf2) as (s3 & Hrm & Hwf3 & Hid3 & Hs3).
  { destruct (sw_id _ Hwf2). lia. }
  rewrite Hrm, Hs2, Hs1, lookup_insert_eq by lia. cbn.
  eexists. split; [reflexivity|]. split; [done|]. cbn.
  assert (Hg : ∀ id', id' ≠ id → snapshots_get s3 id' = snapshots_get (db_snapshots d) id').
  { intros id' Hne. unfold snapshots_get. rewrite Hs3. case_decide as Hle.
    - destruct (state_snapshots (db_snapshots d) !! id') eqn:Hx; [|done].
      apply Hwf in Hx. fold id in Hx. lia.
    - rewrite Hs2, Hs1 by lia. by rewrite lookup_insert_ne by done. }
  assert (snapshots_get s3 id = None) as Hself.
  { unfold snapshots_get. rewrite Hs3. by rewrite decide_True by lia. }
  destruct (is_keep action).
  - split.
    + destruct Hwf3 as [? Hk]. split; simpl; [done|].
      intros id' x [[<- _]|[_ Hy%Hk]]%lookup_insert_Some; lia.
    + intros id'. case_decide as Heq; unfold snapshots_get; simpl.
      * subst. by rewrite lookup_insert_eq.
      * rewrite lookup_insert_ne by done. by apply Hg.
  - split; [done|]. intros id'. case_decide; [by subst|by apply Hg].
Qed.

Lemma revert_restores_snapshot_witness :
  ∃ d3, revert_state (mkMemDb 9 (mkStateSnapshots 3 (<[2 := 12]> (<[1 := 11]> {[0 := 10]})))) 0 RevertKeep
      = Some (d3, true) ∧ inner d3 = 10.
Proof.
  destruct (revert_restores_snapshot (mkMemDb 10 (@snapshots_default Z)) [11; 12] 9 RevertKeep)
    as (d3 & H1 & H2 & _).
  - apply snapshots_default_wf.
  - vm_compute. reflexivity.
  - exists d3. split; [exact H1|exact H2].
Defined.

(** Removing with the largest id finds no snapshot and yet drops all of
    them: the id after it wraps to zero, where the loop starts. *)
Lemma remove_max_drops_all {T} (s : StateSnapshots T) :
  snapshots_wf s → snapshot_id s < u256_max →
  snapshots_remove s u256_max = Some (mkStateSnapshots (snapshot_id s) ∅, None).
Proof.
  intros [Hid Hk] Hlt. unfold snapshots_remove.
  assert (state_snapshots s !! u256_max = None) as Hn.
  { destruct (state_snapshots s !! u256_max) eqn:Hx; [|done]. apply Hk in Hx. lia. }
  rewrite Hn. cbn [snapshot_id state_snapshots]. replace (wrap_u256 (u256_max + 1)) with 0 by done.
  destruct (revert_loop_spec s Hid (S (Z.to_nat (snapshot_id s)))
    (delete u256_max (state_snapshots s)) 0) as (m' & Hl & Hm'); [done|lia|].
  cbn [snapshot_id state_snapshots]. rewrite Hl. cbn. do 3 f_equal. apply map_eq. intros id.
  rewrite Hm', lookup_empty, lookup_delete. case_decide; [done|].
  case_decide; [done|]. destruct (state_snapshots s !! id) eqn:Hx; [|done].
  apply Hk in Hx. lia.
Qed.

Lemma remove_max_drops_all_witness :
  snapshots_remove (mkStateSnapshots 2 (<[1 := 11]> {[0 := 10]})) u256_max =
    Some (mkStateSnapshots 2 ∅, None).
Proof.
  apply (remove_max_drops_all (mkStateSnapshots 2 (<[1 := 11]> {[0 := 10]}))).
  - split; [by vm_compute|]. intros id x. simpl.
    intros [[<- _]|[_ [<- _]%lookup_singleton_Some]]%lookup_insert_Some; lia.
  - vm_compute. reflexivity.
Defined.
