(* ===== verification/StateDb.v ===== *)
(** * Database states and their snapshots: anvil/src/eth/backend/db.rs

    [CacheDB] with the operations of [MaybeFullDatabase] (a database is
    emptied into a [StateSnapshot], written to disk, and restored from it),
    the interface [FullDatabase] with its laws, and their proof for
    [CacheDB].  The account types are revm's: a record
    with the fields this code uses; bytecode and the account status are
    abstract. *)
From stdpp Require Import base gmap list.
From Stdlib Require Import ZArith Lia.
From S2P Require Import Prelude Containers.

#[local] Abbreviation Address := Z (only parsing).
#[local] Abbreviation U256 := Z (only parsing).
#[local] Abbreviation B256 := Z (only parsing).

Record AccountInfo (Code : Type) := mkAccountInfo {
  ai_balance : U256;
  ai_nonce : Z;
  code_hash : B256;
  code : option Code;
}.
Arguments mkAccountInfo {Code} _ _ _ _.
Arguments ai_balance {Code} _.
Arguments ai_nonce {Code} _.
Arguments code_hash {Code} _.
Arguments code {Code} _.

Record DbAccount (Code St : Type) := mkDbAccount {
  info : AccountInfo Code;
  account_state : St;
  storage : gmap U256 U256;
}.
Arguments mkDbAccount {Code St} _ _ _.
Arguments info {Code St} _.
Arguments account_state {Code St} _.
Arguments storage {Code St} _.

Record CacheDB (Code St : Type) := mkCacheDB {
  accounts : gmap Address (DbAccount Code St);
  contracts : gmap B256 Code;
  block_hashes : gmap U256 B256;
}.
Arguments mkCacheDB {Code St} _ _ _.
Arguments accounts {Code St} _.
Arguments contracts {Code St} _.
Arguments block_hashes {Code St} _.

Record StateSnapshot (Code : Type) := mkStateSnapshot {
  snap_accounts : gmap Address (AccountInfo Code);
  snap_storage : gmap Address (gmap U256 U256);
  snap_block_hashes : gmap U256 B256;
}.
Arguments mkStateSnapshot {Code} _ _ _.
Arguments snap_accounts {Code} _.
Arguments snap_storage {Code} _.
Arguments snap_block_hashes {Code} _.

(** [MaybeFullDatabase]: a state that can be written out and restored, which
    is what the historical states ask of a database ([new_db] is the empty
    one).  The laws: writing a state out and restoring it gives an equivalent
    state, and equivalent states are written out alike. *)
Class FullDatabase (Db Snap : Type) := {
  clear_into : Db → Db * Snap;
  read_as : Db → Snap;
  init_from : Db → Snap → Db;
  new_db : Db;
}.
Class FullDatabaseLaws (Db Snap : Type) `{!Equiv Db, !FullDatabase Db Snap} : Prop := {
  full_db_equivalence :: Equivalence (≡@{Db});
  read_as_proper :: Proper ((≡@{Db}) ==> (=)) read_as;
  init_from_clear (d : Db) : init_from (clear_into d).1 (clear_into d).2 ≡ d;
}.

Section state_db.
Context {Code St : Type} (default_state : St) `{!HashOrder Address}.
Implicit Types (d : CacheDB Code St) (i : AccountInfo Code) (s : StateSnapshot Code).

Definition with_code i (c : option Code) : AccountInfo Code :=
  mkAccountInfo (ai_balance i) (ai_nonce i) (code_hash i) c.

(** One account of the loop of [clear_into_state_snapshot]: its code leaves
    the contracts for the snapshot. *)
Definition clear_account
    (st : gmap B256 Code * gmap Address (AccountInfo Code) * gmap Address (gmap U256 U256))
    (a : Address * DbAccount Code St) :=
  let '(ct, accs, sts) := st in
  let h := code_hash (info a.2) in
  (delete h ct, <[a.1 := with_code (info a.2) (ct !! h)]> accs, <[a.1 := storage a.2]> sts).

Definition clear_into_state_snapshot d : CacheDB Code St * StateSnapshot Code :=
  let '(ct, accs, sts) := foldl clear_account (contracts d, ∅, ∅) (iter_map (accounts d)) in
  (mkCacheDB ∅ ct ∅, mkStateSnapshot accs sts (block_hashes d)).

Definition read_as_state_snapshot d : StateSnapshot Code :=
  mkStateSnapshot
    ((λ acc, with_code (info acc) (contracts d !! code_hash (info acc))) <$> accounts d)
    (storage <$> accounts d) (block_hashes d).

Definition clear_db d : CacheDB Code St := (clear_into_state_snapshot d).1.

(** One account of the loop of [init_from_state_snapshot]. *)
Definition init_account
    (st : gmap B256 Code * gmap Address (DbAccount Code St) * gmap Address (gmap U256 U256))
    (a : Address * AccountInfo Code) :=
  let '(ct, accs, sts) := st in
  (match code a.2 with Some c => <[code_hash a.2 := c]> ct | None => ct end,
   <[a.1 := mkDbAccount (with_code a.2 None) default_state (default ∅ (sts !! a.1))]> accs,
   delete a.1 sts).

Definition init_from_state_snapshot d s : CacheDB Code St :=
  let '(ct, accs, _) :=
    foldl init_account (contracts d, accounts d, snap_storage s) (iter_map (snap_accounts s)) in
  mkCacheDB accs ct (snap_block_hashes s).

(** ** The loops *)
Lemma clear_fold l : ∀ ct accs sts ct' accs' sts',
  NoDup l.*1 → foldl clear_account (ct, accs, sts) l = (ct', accs', sts') →
  ct' ⊆ ct ∧
  (∀ k c, ct !! k = Some c → ct' !! k = Some c ∨
     ∃ addr i, addr ∈ l.*1 ∧ accs' !! addr = Some i ∧ code_hash i = k ∧ code i = Some c) ∧
  (∀ addr acc, (addr, acc) ∈ l → sts' !! addr = Some (storage acc) ∧
     ∃ oc, accs' !! addr = Some (with_code (info acc) oc) ∧
       (oc = None ∨ oc = ct !! code_hash (info acc))) ∧
  (∀ addr, addr ∉ l.*1 → accs' !! addr = accs !! addr ∧ sts' !! addr = sts !! addr).
Proof.
  induction l as [|[a acc] l IH]; intros ct accs sts ct' accs' sts' Hnd Hf; simpl in Hf.
  { injection Hf as <- <- <-. split_and!; [done|by left| |done].
    by intros ?? ?%not_elem_of_nil. }
  simpl in Hnd. apply NoDup_cons in Hnd as [Ha Hnd].
  set (h := code_hash (info acc)) in *.
  destruct (IH _ _ _ _ _ _ Hnd Hf) as (Hsub & Hct & Hin & Hout).
  destruct (Hout a Ha) as [Hacc Hst]. rewrite lookup_insert_eq in Hacc; rewrite lookup_insert_eq in Hst.
  split_and!.
  - etrans; [exact Hsub|]. apply delete_subseteq.
  - intros k c Hk. destruct (decide (k = h)) as [->|Hne].
    + right. exists a, (with_code (info acc) (ct !! h)).
      split_and!; [apply list_elem_of_here|done|done|done].
    + destruct (Hct k c) as [?|(addr & i & ? & ? & ? & ?)].
      * by rewrite lookup_delete_ne.
      * by left.
      * right. exists addr, i. split_and!; [by apply list_elem_of_further|done..].
  - intros addr acc2 [[= -> ->]|Hl]%elem_of_cons.
    + split; [done|]. exists (ct !! h). split; [done|by right].
    + destruct (Hin _ _ Hl) as (? & oc & ? & [->|Hoc]); (split; [done|]).
      * exists None. split; [done|by left].
      * exists oc. split; [done|]. rewrite Hoc, lookup_delete.
        case_decide; [by left|by right].
  - intros addr [Hne Hni]%not_elem_of_cons. destruct (Hout addr Hni) as [-> ->].
    by rewrite !lookup_insert_ne by done.
Qed.

Lemma init_fold l : ∀ ct accs sts ct' accs' sts',
  NoDup l.*1 → foldl init_account (ct, accs, sts) l = (ct', accs', sts') →
  (∀ addr i, (addr, i) ∈ l →
     accs' !! addr = Some (mkDbAccount (with_code i None) default_state (default ∅ (sts !! addr)))) ∧
  (∀ addr, addr ∉ l.*1 → accs' !! addr = accs !! addr) ∧
  (∀ k c, ct' !! k = Some c → ct !! k = Some c ∨
     ∃ addr i, (addr, i) ∈ l ∧ code_hash i = k ∧ code i = Some c) ∧
  (∀ k, is_Some (ct !! k) → is_Some (ct' !! k)) ∧
  (∀ addr i, (addr, i) ∈ l → is_Some (code i) → is_Some (ct' !! code_hash i)).
Proof.
  induction l as [|[a i] l IH]; intros ct accs sts ct' accs' sts' Hnd Hf; simpl in Hf.
  { injection Hf as <- <- _. split_and!; [|done|by left|done|];
      by intros ?? ?%not_elem_of_nil. }
  simpl in Hnd. apply NoDup_cons in Hnd as [Ha Hnd].
  destruct (IH _ _ _ _ _ _ Hnd Hf) as (Hin & Hout & Hct & Hmono & Hcode).
  split_and!.
  - intros addr i2 [[= -> ->]|Hl]%elem_of_cons.
    + rewrite (Hout a Ha). by rewrite lookup_insert_eq.
    + rewrite (Hin _ _ Hl). do 2 f_equal. rewrite lookup_delete_ne; [done|].
      intros ->. apply Ha. by apply (list_elem_of_fmap_2 fst) in Hl.
  - intros addr [Hne Hni]%not_elem_of_cons. rewrite (Hout addr Hni).
    by rewrite lookup_insert_ne by done.
  - intros k c Hk. destruct (Hct k c Hk) as [Hk'|(addr & i2 & Hl & ? & ?)].
    + destruct (code i) as [c0|] eqn:Hc; [|by left].
      apply lookup_insert_Some in Hk' as [[<- <-]|[_ ?]]; [|by left].
      right. exists a, i. split_and!; [auto with anvil|done..].
    + right. exists addr, i2. split_and!; [by auto with anvil|done..].
  - intros k Hk. apply Hmono. destruct (code i); [|done].
    rewrite lookup_insert_is_Some'. by right.
  - intros addr i2 [[= -> ->]|Hl]%elem_of_cons Hs; [|by eapply Hcode].
    apply Hmono. destruct Hs as [c ->]. rewrite lookup_insert_eq. by eexists.
Qed.

(** What a snapshot holds of the accounts of [d]. *)
Definition snapshot_of d (accs : gmap Address (AccountInfo Code))
    (sts : gmap Address (gmap U256 U256)) : Prop :=
  (∀ addr acc, accounts d !! addr = Some acc → sts !! addr = Some (storage acc) ∧
    ∃ oc, accs !! addr = Some (with_code (info acc) oc) ∧
      (oc = None ∨ oc = contracts d !! code_hash (info acc))) ∧
  (∀ addr i, accs !! addr = Some i → ∃ acc oc, accounts d !! addr = Some acc ∧
    i = with_code (info acc) oc ∧ (oc = None ∨ oc = contracts d !! code_hash (info acc))).

Lemma clear_snapshot_of d ct accs sts :
  foldl clear_account (contracts d, ∅, ∅) (iter_map (accounts d)) = (ct, accs, sts) →
  snapshot_of d accs sts ∧ ct ⊆ contracts d ∧
  ∀ k c, contracts d !! k = Some c → ct !! k = Some c ∨
    ∃ addr i, accs !! addr = Some i ∧ code_hash i = k ∧ code i = Some c.
Proof.
  intros (Hsub & Hct & Hin & Hout)%clear_fold; [|apply NoDup_iter_map_keys].
  assert (Hacc : ∀ addr acc, accounts d !! addr = Some acc → sts !! addr = Some (storage acc) ∧
    ∃ oc, accs !! addr = Some (with_code (info acc) oc) ∧
      (oc = None ∨ oc = contracts d !! code_hash (info acc))).
  { intros addr acc Ha. apply Hin. by apply elem_of_iter_map. }
  split_and!; [split; [done|]|done|].
  - intros addr i Ha. destruct (accounts d !! addr) as [acc|] eqn:Hd.
    + destruct (Hacc _ _ Hd) as (_ & oc & Ha' & ?). exists acc, oc. split_and!; [done|congruence|done].
    + destruct (Hout addr) as [Hn _].
      * rewrite iter_map_keys, elem_of_iter_set, not_elem_of_dom. done.
      * rewrite lookup_empty in Hn. congruence.
  - intros k c Hk. destruct (Hct k c Hk) as [?|(addr & i & _ & ?)]; [by left|right; by exists addr, i].
Qed.

Lemma clear_init_restores d :
  let '(cleared, s) := clear_into_state_snapshot d in
  accounts cleared = ∅ ∧ block_hashes cleared = ∅ ∧
  init_from_state_snapshot cleared s =
    mkCacheDB ((λ acc, mkDbAccount (with_code (info acc) None) default_state (storage acc)) <$> accounts d)
      (contracts d) (block_hashes d).
Proof.
  unfold clear_into_state_snapshot.
  destruct (foldl clear_account _ _) as [[ct accs] sts] eqn:Hc.
  apply clear_snapshot_of in Hc as ([Hacc Hacc'] & Hsub & Hct).
  split_and!; [done|done|]. unfold init_from_state_snapshot. simpl.
  destruct (foldl init_account _ _) as [[ct' accs'] sts'] eqn:Hi.
  apply init_fold in Hi as (Hin' & Hout' & Hct' & Hmono & Hcode); [|apply NoDup_iter_map_keys].
  f_equal; apply map_eq.
  - intros addr. rewrite lookup_fmap. destruct (accounts d !! addr) as [acc|] eqn:Hd; simpl.
    + destruct (Hacc _ _ Hd) as (Hst & oc & Ha & _).
      rewrite (Hin' addr (with_code (info acc) oc)) by (by apply elem_of_iter_map).
      by rewrite Hst.
    + rewrite Hout', lookup_empty; [done|].
      rewrite iter_map_keys, elem_of_iter_set, not_elem_of_dom.
      destruct (accs !! addr) eqn:Ha; [|done].
      apply Hacc' in Ha as (? & ? & ? & _). congruence.
  - intros k. destruct (ct' !! k) as [c'|] eqn:Hk'.
    + apply Hct' in Hk' as [Hk'|(addr & i & Ha%elem_of_iter_map & <- & Hci)].
      * symmetry. by eapply lookup_weaken.
      * apply Hacc' in Ha as (acc & oc & _ & -> & [-> | ->]); simpl in *; congruence.
    + destruct (contracts d !! k) as [c|] eqn:Hk; [|done].
      destruct (Hct k c Hk) as [Hin|(addr & i & Ha & <- & Hci)].
      * destruct (Hmono k) as [? ?]; [by eexists|congruence].
      * destruct (Hcode addr i) as [? ?]; [by apply elem_of_iter_map|by rewrite Hci|congruence].
Qed.
End state_db.

(** ** [CacheDB] as a full database

    Two states are equivalent when their accounts agree up to the code copies
    inside them and the account statuses. *)
Definition account_view {Code St} (acc : DbAccount Code St) :=
  (with_code (info acc) None, storage acc).
#[export] Instance CacheDB_equiv {Code St} : Equiv (CacheDB Code St) := λ d d',
  account_view <$> accounts d = account_view <$> accounts d' ∧
  contracts d = contracts d' ∧ block_hashes d = block_hashes d'.

#[export] Instance CacheDB_full_database {Code St} `{!Inhabited St, !HashOrder Z} :
    FullDatabase (CacheDB Code St) (StateSnapshot Code) := {|
  clear_into := clear_into_state_snapshot;
  read_as := read_as_state_snapshot;
  init_from := init_from_state_snapshot inhabitant;
  new_db := mkCacheDB ∅ ∅ ∅;
|}.

Lemma read_as_view {Code St} (d : CacheDB Code St) :
  read_as_state_snapshot d =
    mkStateSnapshot
      ((λ v : AccountInfo Code * gmap U256 U256, with_code v.1 (contracts d !! code_hash v.1)) <$>
         (account_view <$> accounts d))
      (snd <$> (account_view <$> accounts d)) (block_hashes d).
Proof.
  unfold read_as_state_snapshot. f_equal; rewrite <- map_fmap_compose; by apply map_fmap_ext.
Qed.

#[export] Instance CacheDB_laws {Code St} `{!Inhabited St, !HashOrder Z} :
    FullDatabaseLaws (CacheDB Code St) (StateSnapshot Code).
Proof.
  split.
  - split.
    + by intros d.
    + intros d d' (? & ? & ?). by split_and!.
    + intros d1 d2 d3 (? & ? & ?) (? & ? & ?). split_and!; by etrans.
  - intros d d' (Ha & Hc & Hb). cbn [read_as CacheDB_full_database].
    by rewrite !read_as_view, Ha, Hc, Hb.
  - intros d. cbn [init_from clear_into CacheDB_full_database].
    pose proof (clear_init_restores inhabitant d) as Hd.
    destruct (clear_into_state_snapshot d) as [d' s]. destruct Hd as (_ & _ & Hd).
    cbn [fst snd]. rewrite Hd. split_and!; [|done..]. cbn [accounts]. rewrite <- map_fmap_compose. by apply map_fmap_ext.
Qed.

(** ** Properties *)

(** Writing a state out and reading it back restores it: after
    [clear_into_state_snapshot] and [init_from_state_snapshot] of the result,
    the accounts have their balance, nonce, code hash and storage, every
    contract is back (also one shared by several accounts, of which only one
    carries the code in the snapshot) and so are the block hashes; the code
    copies inside the accounts and the account statuses are reset, and a
    snapshot read from the restored state is the one read from the original. *)
Lemma state_snapshot_roundtrip {Code St} (default_state : St) `{!HashOrder Z}
    (d : CacheDB Code St) :
  let '(cleared, s) := clear_into_state_snapshot d in
  let restored := init_from_state_snapshot default_state cleared s in
  accounts cleared = ∅ ∧ block_hashes cleared = ∅ ∧
  restored =
    mkCacheDB ((λ acc, mkDbAccount (with_code (info acc) None) default_state (storage acc)) <$> accounts d)
      (contracts d) (block_hashes d) ∧
  read_as_state_snapshot restored = read_as_state_snapshot d.
Proof.
  pose proof (clear_init_restores default_state d) as Hr.
  pose proof (init_from_clear (FullDatabaseLaws := @CacheDB_laws _ _ (populate default_state) _) d) as He.
  cbn [init_from clear_into CacheDB_full_database inhabitant] in He.
  destruct (clear_into_state_snapshot d) as [cleared s]. destruct Hr as (Hacc & Hbh & Hr).
  split_and!; [done..|].
  exact (read_as_proper (FullDatabaseLaws := @CacheDB_laws _ _ (populate default_state) _) _ _ He).
Qed.
