(* ===== verification/BlockStates.v ===== *)
(** * Historical states: [InMemoryBlockStates] of
    anvil/src/eth/backend/mem/storage.rs and the [DiskStateCache] of
    anvil/src/eth/backend/mem/cache.rs

    Recent states are kept in memory, older ones are emptied into a snapshot
    on disk, the oldest are dropped.  A state is an instance of the interface
    [FullDatabase] of the file [StateDb] (the trait object that a [StateDb]
    holds), whose laws give back an evicted state.  Files are written by
    a task of the runtime: [cache_write] only queues it. *)
From stdpp Require Import base gmap list.
From Stdlib Require Import ZArith Lia.
From S2P Require Import Prelude Containers StateDb.

#[local] Abbreviation B256 := Z (only parsing).

Definition DEFAULT_HISTORY_LIMIT : nat := 500%nat.
Definition MIN_HISTORY_LIMIT : nat := 10%nat.
Definition MAX_ON_DISK_HISTORY_LIMIT : nat := 3600%nat.

(** ** The disk cache *)
(** [temp_dir] is the content of the temporary directory once it is created,
    [tasks] the spawned writes that have not run, [can_create] whether the
    file system lets the directory be created. *)
Record DiskStateCache (Snap : Type) := mkDiskStateCache {
  temp_dir : option (gmap B256 Snap);
  tasks : list (B256 * Snap);
  can_create : bool;
}.
Arguments mkDiskStateCache {Snap} _ _ _.
Arguments temp_dir {Snap} _.
Arguments tasks {Snap} _.
Arguments can_create {Snap} _.

Section disk_cache.
Context {Snap : Type}.
Implicit Types c : DiskStateCache Snap.

(** The directory, created on first use. *)
Definition with_cache_file c : DiskStateCache Snap * option (gmap B256 Snap) :=
  let dir := match temp_dir c with
             | Some dir => Some dir
             | None => if can_create c then Some ∅ else None
             end in
  (mkDiskStateCache dir (tasks c) (can_create c), dir).

Definition cache_write c (h : B256) (s : Snap) : DiskStateCache Snap :=
  let '(c, dir) := with_cache_file c in
  match dir with
  | Some _ => mkDiskStateCache (temp_dir c) (tasks c ++ [(h, s)]) (can_create c)
  | None => c
  end.

Definition cache_read c (h : B256) : DiskStateCache Snap * option Snap :=
  let '(c, dir) := with_cache_file c in
  (c, dir ≫= λ d, d !! h).

Definition cache_remove c (h : B256) : DiskStateCache Snap :=
  let '(c, dir) := with_cache_file c in
  mkDiskStateCache (delete h <$> dir) (tasks c) (can_create c).

(** The runtime runs the [i]-th queued write, which may fail. *)
Definition run_task c (i : nat) (written : bool) : DiskStateCache Snap :=
  match tasks c !! i with
  | Some (h, s) =>
      mkDiskStateCache (if written then (λ d, <[h := s]> d) <$> temp_dir c else temp_dir c)
        (delete i (tasks c)) (can_create c)
  | None => c
  end.
End disk_cache.

(** ** The states *)
Record InMemoryBlockStates (Db Snap : Type) := mkBlockStates {
  states : gmap B256 Db;
  on_disk_states : gmap B256 Db;
  in_memory_limit : nat;
  min_in_memory_limit : nat;
  max_on_disk_limit : nat;
  oldest_on_disk : list B256;
  present : list B256;
  disk_cache : DiskStateCache Snap;
}.
Arguments mkBlockStates {Db Snap} _ _ _ _ _ _ _ _.
Arguments states {Db Snap} _.
Arguments on_disk_states {Db Snap} _.
Arguments in_memory_limit {Db Snap} _.
Arguments min_in_memory_limit {Db Snap} _.
Arguments max_on_disk_limit {Db Snap} _.
Arguments oldest_on_disk {Db Snap} _.
Arguments present {Db Snap} _.
Arguments disk_cache {Db Snap} _.

Section block_states.
Context {Db Snap : Type} `{!FullDatabase Db Snap} `{!HashOrder B256}.
Implicit Types s : InMemoryBlockStates Db Snap.

Definition states_new (cache : DiskStateCache Snap) (in_memory on_disk : nat)
    : InMemoryBlockStates Db Snap :=
  mkBlockStates ∅ ∅ in_memory (in_memory `min` MIN_HISTORY_LIMIT) on_disk [] [] cache.

Definition set_max_on_disk s (n : nat) : InMemoryBlockStates Db Snap :=
  mkBlockStates (states s) (on_disk_states s) (in_memory_limit s) (min_in_memory_limit s)
    n (oldest_on_disk s) (present s) (disk_cache s).
Definition memory_only s := set_max_on_disk s 0.
Definition set_cache_limit s (limit : nat) : InMemoryBlockStates Db Snap :=
  mkBlockStates (states s) (on_disk_states s) limit (min_in_memory_limit s)
    (max_on_disk_limit s) (oldest_on_disk s) (present s) (disk_cache s).
Definition set_disk_cache s (c : DiskStateCache Snap) : InMemoryBlockStates Db Snap :=
  mkBlockStates (states s) (on_disk_states s) (in_memory_limit s) (min_in_memory_limit s)
    (max_on_disk_limit s) (oldest_on_disk s) (present s) c.

Definition is_memory_only s : bool := bool_decide (max_on_disk_limit s = O).

(** The state of the evicted block [h] goes to disk, when that is
    supported. *)
Definition evict s (h : B256) (present' : list B256) : InMemoryBlockStates Db Snap :=
  match states s !! h with
  | Some state =>
      if is_memory_only s
      then mkBlockStates (delete h (states s)) (on_disk_states s) (in_memory_limit s)
             (min_in_memory_limit s) (max_on_disk_limit s) (oldest_on_disk s) present'
             (disk_cache s)
      else let '(state, snap) := clear_into state in
           mkBlockStates (delete h (states s)) (<[h := state]> (on_disk_states s))
             (in_memory_limit s) (min_in_memory_limit s) (max_on_disk_limit s)
             (oldest_on_disk s ++ [h]) present' (cache_write (disk_cache s) h snap)
  | None =>
      mkBlockStates (states s) (on_disk_states s) (in_memory_limit s) (min_in_memory_limit s)
        (max_on_disk_limit s) (oldest_on_disk s) present' (disk_cache s)
  end.

Definition memory_step s : option (InMemoryBlockStates Db Snap + InMemoryBlockStates Db Snap) :=
  Some (if bool_decide (in_memory_limit s ≤ length (present s))%nat
        then match present s with
             | h :: present' => inl (evict s h present')
             | [] => inl s
             end
        else inr s).

Definition disk_step s : option (InMemoryBlockStates Db Snap + InMemoryBlockStates Db Snap) :=
  Some (if negb (is_memory_only s) &&
           bool_decide (max_on_disk_limit s ≤ length (oldest_on_disk s))%nat
        then match oldest_on_disk s with
             | h :: oldest' =>
                 inl (mkBlockStates (states s) (delete h (on_disk_states s)) (in_memory_limit s)
                   (min_in_memory_limit s) (max_on_disk_limit s) oldest' (present s)
                   (cache_remove (disk_cache s) h))
             | [] => inl s
             end
        else inr s).

Definition enforce_limits s : option (InMemoryBlockStates Db Snap) :=
  s ← loop memory_step (S (length (present s))) s;
  loop disk_step (S (length (oldest_on_disk s))) s.

Definition update_interval_mine_block_time s (block_time_secs : Z)
    : option (InMemoryBlockStates Db Snap) :=
  if bool_decide (block_time_secs ≤ 2)
  then enforce_limits (set_cache_limit s (DEFAULT_HISTORY_LIMIT * 3))
  else Some s.

Definition states_insert s (h : B256) (state : Db) : option (InMemoryBlockStates Db Snap) :=
  let s := if negb (is_memory_only s) &&
              bool_decide (in_memory_limit s ≤ length (present s))%nat
           then set_cache_limit s ((in_memory_limit s - 1) `max` min_in_memory_limit s)
           else s in
  s ← enforce_limits s;
  Some (mkBlockStates (<[h := state]> (states s)) (on_disk_states s) (in_memory_limit s)
    (min_in_memory_limit s) (max_on_disk_limit s) (oldest_on_disk s) (present s ++ [h])
    (disk_cache s)).

Definition get_state s (h : B256) : option Db := states s !! h.

Definition get_on_disk_state s (h : B256) : InMemoryBlockStates Db Snap * option Db :=
  match on_disk_states s !! h with
  | Some state =>
      let '(c, cached) := cache_read (disk_cache s) h in
      match cached with
      | Some snap =>
          let state := init_from state snap in
          (mkBlockStates (states s) (<[h := state]> (on_disk_states s)) (in_memory_limit s)
             (min_in_memory_limit s) (max_on_disk_limit s) (oldest_on_disk s) (present s) c,
           Some state)
      | None => (set_disk_cache s c, None)
      end
  | None => (s, None)
  end.

Definition states_clear s : InMemoryBlockStates Db Snap :=
  mkBlockStates ∅ ∅ (in_memory_limit s) (min_in_memory_limit s) (max_on_disk_limit s) [] []
    (foldl cache_remove (disk_cache s) (oldest_on_disk s)).

Definition read_disk_snapshot (st : DiskStateCache Snap * list (B256 * Snap)) (h : B256) :=
  let '(c, out) := st in
  let '(c, snap) := cache_read c h in
  (c, match snap with Some x => out ++ [(h, x)] | None => out end).

Definition serialized_states s : InMemoryBlockStates Db Snap * list (B256 * Snap) :=
  let out := (λ p, (p.1, read_as p.2)) <$> iter_map (states s) in
  let '(c, out) := foldl read_disk_snapshot (disk_cache s, out) (iter_map (on_disk_states s)).*1 in
  (set_disk_cache s c, out).

Definition load_states s (l : list (B256 * Snap)) : option (InMemoryBlockStates Db Snap) :=
  fold_m (λ s p, states_insert s p.1 (init_from new_db p.2)) s l.

(** ** Invariant *)
Record states_wf s : Prop := {
  st_limit : (0 < min_in_memory_limit s ≤ in_memory_limit s)%nat;
  st_states : ∀ h, is_Some (states s !! h) → h ∈ present s;
  st_disk : ∀ h, is_Some (on_disk_states s !! h) → h ∈ oldest_on_disk s;
  st_mem : max_on_disk_limit s = O → oldest_on_disk s = [];
}.

Lemma states_new_wf cache n m : (0 < n)%nat → states_wf (states_new cache n m).
Proof.
  intros Hn. unfold states_new, MIN_HISTORY_LIMIT.
  split; simpl; [lia| | |done]; by intros h [? ?].
Qed.

(** What the loops keep: the limits, and the blocks are dropped from the
    front. *)
Definition same_limits s s' : Prop :=
  in_memory_limit s' = in_memory_limit s ∧ min_in_memory_limit s' = min_in_memory_limit s ∧
  max_on_disk_limit s' = max_on_disk_limit s.

Lemma evict_spec s h l :
  states_wf s → present s = h :: l →
  states_wf (evict s h l) ∧ same_limits s (evict s h l) ∧ present (evict s h l) = l ∧
  (∀ h', h' ≠ h → states (evict s h l) !! h' = states s !! h') ∧
  states (evict s h l) !! h = None.
Proof.
  intros [Hlim Hst Hd Hm] Hp. unfold evict.
  assert (Hpres : ∀ h', is_Some (delete h (states s) !! h') → h' ∈ l).
  { intros h' [x [Hne Hx]%lookup_delete_Some].
    assert (h' ∈ present s) as Hin by (apply Hst; by eexists).
    rewrite Hp in Hin. by apply elem_of_cons in Hin as [->|?]. }
  destruct (states s !! h) as [st|] eqn:Hs.
  - destruct (is_memory_only s) eqn:Hmo.
    + split_and!; [split; simpl; done|done|done| |apply lookup_delete_eq].
      intros h' ?. by apply lookup_delete_ne.
    + destruct (clear_into st) as [st' snap]. split_and!; [|done|done| |apply lookup_delete_eq].
      * split; simpl; [done|done| |].
        -- intros h'. rewrite lookup_insert_is_Some'. intros [<-|?]; apply elem_of_app;
             [by right; auto with anvil|by left; apply Hd].
        -- intros H0. apply bool_decide_eq_false in Hmo. done.
      * intros h' ?. by apply lookup_delete_ne.
  - split_and!; [|done|done|done|done]. split; simpl; [done| |done|done].
    intros h' Hs'. apply Hpres. rewrite lookup_delete_ne; [done|].
    intros <-. rewrite Hs in Hs'. by destruct Hs'.
Qed.

(** What both loops keep of the states they started from: the dropped
    blocks are the oldest [k]. *)
Record kept s0 (k : nat) s : Prop := {
  k_wf : states_wf s;
  k_limits : same_limits s0 s;
  k_present : present s = drop k (present s0);
  k_states : ∀ h, h ∉ take k (present s0) → states s !! h = states s0 !! h;
}.

Lemma kept_refl s : states_wf s → kept s 0 s.
Proof. intros ?. by split. Qed.

Lemma memory_loop_total s0 :
  states_wf s0 →
  ∃ s, loop memory_step (S (length (present s0))) s0 = Some s ∧
    ∃ k, kept s0 k s ∧ (length (present s) < in_memory_limit s)%nat ∧
      (k = O ∨ (length (present s0) - k + 1 = in_memory_limit s0)%nat).
Proof.
  intros Hwf0.
  destruct (loop_total memory_step
    (λ s, ∃ k, kept s0 k s ∧ (k = O ∨ (in_memory_limit s0 ≤ length (present s0) - k + 1)%nat))
    (λ s, ∃ k, kept s0 k s ∧ (length (present s) < in_memory_limit s)%nat ∧
      (k = O ∨ (length (present s0) - k + 1 = in_memory_limit s0)%nat))
    (λ s, length (present s))) with (fuel := S (length (present s0))) (s := s0)
    as (s & Hl & Hs).
  - intros s (k & Hk & Hkl). unfold memory_step. pose proof (k_present _ _ _ Hk) as Hp.
    pose proof (k_limits _ _ _ Hk) as (Hl1 & Hl2 & Hl3).
    assert (length (present s) = length (present s0) - k)%nat as Hlen
      by (by rewrite Hp, length_drop).
    case_bool_decide as Hc.
    + destruct (present s) as [|h l] eqn:Hpr.
      { simpl in Hc. destruct (st_limit _ (k_wf _ _ _ Hk)). lia. }
      destruct (evict_spec s h l (k_wf _ _ _ Hk) Hpr) as (Hwf & (E1 & E2 & E3) & Hp' & Hne & _).
      split; [|rewrite Hp'; simpl; lia].
      assert (present s0 !! k = Some h) as Hkh.
      { rewrite <- (Nat.add_0_r k), <- lookup_drop, <- Hp. done. }
      exists (S k). split; [|right; simpl in *; lia]. split; [done| | |].
      * repeat split; congruence.
      * rewrite Hp'. rewrite (drop_S _ h) in Hp by done. congruence.
      * intros h'. rewrite (take_S_r _ _ h) by done.
        rewrite not_elem_of_app, not_elem_of_cons. intros (? & ? & _).
        rewrite Hne by done. by apply (k_states _ _ _ Hk).
    + exists k. split_and!; [done|lia|]. destruct Hkl; [by left|right; lia].
  - lia.
  - exists 0%nat. split; [by apply kept_refl|by left].
  - eauto.
Qed.

Lemma disk_loop_total s0 :
  states_wf s0 →
  ∃ s, loop disk_step (S (length (oldest_on_disk s0))) s0 = Some s ∧
    states_wf s ∧ same_limits s0 s ∧ present s = present s0 ∧ states s = states s0 ∧
    (length (oldest_on_disk s) < max_on_disk_limit s ∨ max_on_disk_limit s = O)%nat.
Proof.
  intros Hwf0.
  destruct (loop_total disk_step
    (λ s, states_wf s ∧ same_limits s0 s ∧ present s = present s0 ∧ states s = states s0)
    (λ s, (states_wf s ∧ same_limits s0 s ∧ present s = present s0 ∧ states s = states s0) ∧
      (length (oldest_on_disk s) < max_on_disk_limit s ∨ max_on_disk_limit s = O)%nat)
    (λ s, length (oldest_on_disk s))) with (fuel := S (length (oldest_on_disk s0))) (s := s0)
    as (s & Hl & (? & ? & ? & ?) & ?).
  - intros s (Hwf & Hlims & Hp & Hs). pose proof Hwf as [Hlim Hst Hd Hm].
    unfold disk_step, is_memory_only.
    destruct (bool_decide_reflect (max_on_disk_limit s = O)) as [Hmo|Hmo]; simpl; [by auto 10|].
    case_bool_decide as Hc; [|split; [done|left; lia]].
    destruct (oldest_on_disk s) as [|h l] eqn:Ho; [simpl in Hc; lia|].
    split; [|simpl; lia]. split_and!; [|done..].
    split; simpl; [done|done| |by intros ?].
    intros h' [x [Hne Hx]%lookup_delete_Some].
    assert (h' ∈ h :: l) as Hin by (apply Hd; by eexists).
    by apply elem_of_cons in Hin as [->|?].
  - lia.
  - done.
  - eauto 10.
Qed.

Lemma enforce_limits_total s0 :
  states_wf s0 →
  ∃ s k, enforce_limits s0 = Some s ∧ kept s0 k s ∧
    (length (present s) < in_memory_limit s)%nat ∧
    (k = O ∨ (length (present s0) - k + 1 = in_memory_limit s0)%nat) ∧
    (length (oldest_on_disk s) < max_on_disk_limit s ∨ max_on_disk_limit s = O)%nat.
Proof.
  intros Hwf. unfold enforce_limits.
  destruct (memory_loop_total s0 Hwf) as (s1 & -> & k & [Hwf1 (L1 & L2 & L3) Hp1 Hs1] & Hlen & Hk).
  cbn [mbind option_bind]. destruct (disk_loop_total s1 Hwf1) as (s & -> & Hwf2 & (M1 & M2 & M3) & Hp2 & Hs2 & Hd).
  exists s, k. split_and!; [done| |congruence|done|done].
  split; [done| |congruence|].
  - repeat split; congruence.
  - intros h Hh. rewrite Hs2. by apply Hs1.
Qed.
End block_states.

(** ** Properties *)
Section block_states_props.
Context {Db Snap : Type} `{!FullDatabase Db Snap} `{!HashOrder B256}.
Implicit Types s : InMemoryBlockStates Db Snap.

Lemma states_insert_spec s h state :
  states_wf s →
  ∃ s' k, states_insert s h state = Some s' ∧ states_wf s' ∧
    (in_memory_limit s' ≤ in_memory_limit s)%nat ∧
    min_in_memory_limit s' = min_in_memory_limit s ∧
    present s' = drop k (present s) ++ [h] ∧
    (length (present s') ≤ in_memory_limit s')%nat ∧
    (k = O ∨ length (present s') = in_memory_limit s') ∧
    (max_on_disk_limit s' = O ∨ length (oldest_on_disk s') < max_on_disk_limit s')%nat ∧
    get_state s' h = Some state ∧
    ∀ h', h' ≠ h → h' ∉ take k (present s) → get_state s' h' = get_state s h'.
Proof.
  intros Hwf. unfold states_insert.
  set (s1 := if _ && _ then _ else s).
  assert (states_wf s1 ∧ present s1 = present s ∧ states s1 = states s ∧
    (in_memory_limit s1 ≤ in_memory_limit s)%nat ∧
    min_in_memory_limit s1 = min_in_memory_limit s) as (Hwf1 & Hp1 & Hs1 & Hl1 & Hm1).
  { subst s1. destruct (_ && _); [|by split_and!].
    destruct Hwf as [Hlim ? ? ?]. split_and!; simpl; [|done|done|lia|done].
    split; simpl; [lia|done..]. }
  clearbody s1.
  destruct (enforce_limits_total s1 Hwf1)
    as (s2 & k & -> & [Hwf2 (L1 & L2 & L3) Hp2 Hs2] & Hlen & Hk & Hd).
  cbn [mbind option_bind]. exists (mkBlockStates (<[h := state]> (states s2)) (on_disk_states s2)
    (in_memory_limit s2) (min_in_memory_limit s2) (max_on_disk_limit s2) (oldest_on_disk s2)
    (present s2 ++ [h]) (disk_cache s2)), k.
  rewrite Hp1 in *.
  split_and!; cbn; [done| |lia|congruence|by rewrite Hp2| | | | |].
  - destruct Hwf2 as [? Hst ? ?]. split; simpl; [done| |done|done].
    intros h'. rewrite lookup_insert_is_Some', elem_of_app, list_elem_of_singleton.
    intros [->|?]; [by right|left; by apply Hst].
  - rewrite length_app. simpl. lia.
  - rewrite length_app, Hp2, length_drop in *. simpl.
    destruct Hk as [?|Hk]; [by left|right; lia].
  - destruct Hd; [by right|by left].
  - apply lookup_insert_eq.
  - intros h' Hne Hh'. unfold get_state. simpl. rewrite lookup_insert_ne by done.
    rewrite Hs2 by done. by rewrite Hs1.
Qed.

(** C37: with a positive minimum of states in memory that is not above the
    limit (with a limit of zero the code never returns), inserting a block's
    state returns, keeps the number of states in memory within the limit
    (which only shrinks, down to its minimum) and the number on disk below its
    own, drops none but the oldest blocks, and only as many as the limit asks
    for; the new state and those of the blocks that stay are read back
    unchanged. *)
Theorem insert_state_bounded s h state :
  states_wf s →
  ∃ s' k, states_insert s h state = Some s' ∧ states_wf s' ∧
    (in_memory_limit s' ≤ in_memory_limit s)%nat ∧
    min_in_memory_limit s' = min_in_memory_limit s ∧
    present s' = drop k (present s) ++ [h] ∧
    (length (present s') ≤ in_memory_limit s')%nat ∧
    (k = O ∨ length (present s') = in_memory_limit s') ∧
    (max_on_disk_limit s' = O ∨ length (oldest_on_disk s') < max_on_disk_limit s')%nat ∧
    get_state s' h = Some state ∧
    ∀ h', h' ≠ h → h' ∉ take k (present s) → get_state s' h' = get_state s h'.
Proof. apply states_insert_spec. Qed.

(** A state that leaves the memory is not lost: once the runtime has
    written its file, [get_on_disk_state] returns a state equivalent to it
    (for [CacheDB]: with the same accounts, storage, contracts and block
    hashes), of which the same snapshot is read. *)
Lemma evicted_state_on_disk `{!Equiv Db, !FullDatabaseLaws Db Snap} s h l state :
  states s !! h = Some state → max_on_disk_limit s ≠ O → can_create (disk_cache s) = true →
  let s1 := evict s h l in
  let c1 := run_task (disk_cache s1) (length (tasks (disk_cache s))) true in
  get_state s1 h = None ∧ oldest_on_disk s1 = oldest_on_disk s ++ [h] ∧
  ∃ restored, (get_on_disk_state (set_disk_cache s1 c1) h).2 = Some restored ∧
    restored ≡ state ∧ read_as restored = read_as state.
Proof.
  intros Hs Hd Hc. unfold evict, is_memory_only. rewrite Hs. decide_bools.
  pose proof (init_from_clear state) as Hr.
  destruct (clear_into state) as [db snap]. cbn [fst snd] in Hr. cbv zeta. split_and!.
  - apply lookup_delete_eq.
  - done.
  - exists (init_from db snap). split_and!; [|done|by rewrite Hr].
    unfold get_on_disk_state, set_disk_cache, cache_write, with_cache_file. simpl.
    rewrite lookup_insert_eq, Hc.
    destruct (temp_dir (disk_cache s)) as [d|]; unfold run_task; simpl;
      rewrite list_lookup_middle by done; unfold cache_read, with_cache_file; simpl;
      by rewrite lookup_insert_eq.
Qed.
End block_states_props.

(** A database that holds one number, for evaluation. *)
#[local] Instance number_db : FullDatabase (option Z) Z :=
  {| clear_into d := (None, default 0 d); read_as d := default 0 d;
     init_from _ s := Some s; new_db := None |}.

Lemma insert_state_bounded_witness :
  ∃ s' k, states_insert (mkBlockStates {[1 := Some 10]} ∅ 1 1 2 [] [1]
      (mkDiskStateCache None [] true)) 2 (Some 20) = Some s' ∧
    present s' = drop k [1] ++ [2] ∧ get_state s' 2 = Some (Some 20).
Proof.
  destruct (insert_state_bounded (mkBlockStates {[1 := Some 10]} ∅ 1 1 2 [] [1]
      (mkDiskStateCache None [] true)) 2 (Some 20)) as (s' & k & H1 & _ & _ & _ & H2 & _ & _ & _ & H3 & _).
  - split; simpl; [lia| | |done].
    + intros h [x [<- _]%lookup_singleton_Some]. apply list_elem_of_here.
    + intros h [x Hx]. by rewrite lookup_empty in Hx.
  - by exists s', k.
Defined.

(** A [CacheDB] with one account and its contract, whose code is a number. *)
#[local] Instance address_order : HashOrder Z := elements_order Z.
Definition sample_state : CacheDB Z bool :=
  mkCacheDB {[7 := mkDbAccount (mkAccountInfo 100 1 55 None) true {[3 := 4]}]} {[55 := 9]} ∅.

Lemma evicted_state_on_disk_witness :
  let s := mkBlockStates {[1 := sample_state]} ∅ 1 1 2 [] [1] (mkDiskStateCache None [] true) in
  ∃ restored,
    (get_on_disk_state (set_disk_cache (evict s 1 []) (run_task (disk_cache (evict s 1 [])) 0 true)) 1).2
      = Some restored ∧ read_as restored = read_as sample_state.
Proof.
  intros s.
  destruct (evicted_state_on_disk s 1 [] sample_state) as (_ & _ & restored & Hr & _ & Hs);
    [done|done|done|].
  by exists restored.
Defined.
