(* ===== verification/Blockchain.v ===== *)
(** * Mined blocks and transactions: [BlockchainStorage] and [Blockchain] of
    anvil/src/eth/backend/mem/storage.rs

    Headers and transactions are the types of other crates: the storage only
    hashes a header, reads its number and hashes a transaction, the interface
    [BlockTypes]. *)
From stdpp Require Import base gmap list.
From Stdlib Require Import ZArith Lia.
From S2P Require Import Prelude.

#[local] Abbreviation B256 := Z (only parsing).

Class BlockTypes (Header Tx Mined : Type) := {
  hash_slow : Header → B256;
  header_number : Header → Z;
  block_tx_hash : Tx → B256;
  mined_hash : Mined → B256;
}.

Record Block (Header Tx : Type) := mkBlock {
  header : Header;
  body_transactions : list Tx;
}.
Arguments mkBlock {Header Tx} _ _.
Arguments header {Header Tx} _.
Arguments body_transactions {Header Tx} _.

Record BlockchainStorage (Header Tx Mined : Type) := mkBlockchainStorage {
  blocks : gmap B256 (Block Header Tx);
  hashes : gmap Z B256;
  best_hash : B256;
  best_number : Z;
  genesis_hash : B256;
  transactions : gmap B256 Mined;
  total_difficulty : Z;
}.
Arguments mkBlockchainStorage {Header Tx Mined} _ _ _ _ _ _ _.
Arguments blocks {Header Tx Mined} _.
Arguments hashes {Header Tx Mined} _.
Arguments best_hash {Header Tx Mined} _.
Arguments best_number {Header Tx Mined} _.
Arguments genesis_hash {Header Tx Mined} _.
Arguments transactions {Header Tx Mined} _.
Arguments total_difficulty {Header Tx Mined} _.

Inductive BlockNumberOrTag :=
| Latest | Finalized | Safe | Earliest | Pending | Number (num : Z).

Inductive BlockId := IdHash (block_hash : B256) | IdNumber (num : BlockNumberOrTag).

Section blockchain.
Context {Header Tx Mined : Type} `{!BlockTypes Header Tx Mined}.
Implicit Types s : BlockchainStorage Header Tx Mined.

(** [BlockchainStorage::new], from the genesis block that it creates. *)
Definition storage_new (genesis : Block Header Tx) (genesis_number : Z)
    : BlockchainStorage Header Tx Mined :=
  let h := hash_slow (header genesis) in
  mkBlockchainStorage {[h := genesis]} {[genesis_number := h]} h genesis_number h ∅ 0.

Definition forked (block_number : Z) (block_hash : B256) (td : Z)
    : BlockchainStorage Header Tx Mined :=
  mkBlockchainStorage ∅ {[block_number := block_hash]} block_hash block_number 0 ∅ td.

Definition storage_empty : BlockchainStorage Header Tx Mined :=
  mkBlockchainStorage ∅ ∅ 0 0 0 ∅ 0.

Definition remove_block_transactions s (block_hash : B256)
    : BlockchainStorage Header Tx Mined :=
  match blocks s !! block_hash with
  | Some b =>
      mkBlockchainStorage (<[block_hash := mkBlock (header b) []]> (blocks s)) (hashes s)
        (best_hash s) (best_number s) (genesis_hash s)
        (foldl (λ m tx, delete (block_tx_hash tx) m) (transactions s) (body_transactions b))
        (total_difficulty s)
  | None => s
  end.

Definition remove_block_transactions_by_number s (num : Z)
    : BlockchainStorage Header Tx Mined :=
  match hashes s !! num with
  | Some h => remove_block_transactions s h
  | None => s
  end.

Definition unwind_block (st : BlockchainStorage Header Tx Mined * list (Block Header Tx)) (i : Z) :=
  let '(s, removed) := st in
  match hashes s !! i with
  | Some h =>
      let s := remove_block_transactions_by_number s i in
      (mkBlockchainStorage (delete h (blocks s)) (delete i (hashes s)) (best_hash s)
         (best_number s) (genesis_hash s) (transactions s) (total_difficulty s),
       match blocks s !! h with Some b => removed ++ [b] | None => removed end)
  | None => (s, removed)
  end.

Definition unwind_to s (block_number : Z) (block_hash : B256)
    : option (BlockchainStorage Header Tx Mined * list (Block Header Tx)) :=
  first ← checked u64_max (block_number + 1);
  let '(s, removed) :=
    foldl unwind_block (s, []) (seqZ first (best_number s - block_number)) in
  Some (mkBlockchainStorage (blocks s) (hashes s) block_hash block_number (genesis_hash s)
          (transactions s) (total_difficulty s), removed).

Definition block_hash_of s (number : BlockNumberOrTag) : option B256 :=
  let slots_in_an_epoch := 32 in
  match number with
  | Latest => Some (best_hash s)
  | Earliest => Some (genesis_hash s)
  | Pending => None
  | Number num => hashes s !! num
  | Safe =>
      if bool_decide (slots_in_an_epoch < best_number s)
      then hashes s !! (best_number s - slots_in_an_epoch) else Some (genesis_hash s)
  | Finalized =>
      if bool_decide (slots_in_an_epoch * 2 < best_number s)
      then hashes s !! (best_number s - slots_in_an_epoch * 2) else Some (genesis_hash s)
  end.

Definition load_block s (b : Block Header Tx) : BlockchainStorage Header Tx Mined :=
  let h := hash_slow (header b) in
  mkBlockchainStorage (<[h := b]> (blocks s)) (<[header_number (header b) := h]> (hashes s))
    (best_hash s) (best_number s) (genesis_hash s) (transactions s) (total_difficulty s).
Definition load_blocks s (l : list (Block Header Tx)) := foldl load_block s l.

Definition load_transaction s (t : Mined) : BlockchainStorage Header Tx Mined :=
  mkBlockchainStorage (blocks s) (hashes s) (best_hash s) (best_number s) (genesis_hash s)
    (<[mined_hash t := t]> (transactions s)) (total_difficulty s).
Definition load_transactions s (l : list Mined) := foldl load_transaction s l.

Definition blockchain_hash s (id : BlockId) : option B256 :=
  match id with IdHash h => Some h | IdNumber num => block_hash_of s num end.
Definition get_block_by_hash s (h : B256) : option (Block Header Tx) := blocks s !! h.
Definition get_transaction_by_hash s (h : B256) : option Mined := transactions s !! h.
Definition blocks_count s : nat := size (blocks s).

(** ** Unwinding *)
Lemma delete_fold (txs : list Tx) (m : gmap B256 Mined) t :
  let m' := foldl (λ m tx, delete (block_tx_hash tx) m) m txs in
  (t ∈ block_tx_hash <$> txs → m' !! t = None) ∧
  (t ∉ block_tx_hash <$> txs → m' !! t = m !! t).
Proof.
  revert m. induction txs as [|tx txs IH]; intros m; simpl.
  { split; [by intros ?%not_elem_of_nil|done]. }
  destruct (IH (delete (block_tx_hash tx) m)) as [IH1 IH2]. split.
  - intros [->|?]%elem_of_cons; [|by apply IH1].
    destruct (decide (block_tx_hash tx ∈ block_tx_hash <$> txs)) as [|Hni]; [by apply IH1|].
    by rewrite (IH2 Hni), lookup_delete_eq.
  - intros [? ?]%not_elem_of_cons. by rewrite IH2, lookup_delete_ne.
Qed.

(** The transactions and the block that unwinding the block [h] drops. *)
Definition txs_of s (h : B256) : list B256 :=
  match blocks s !! h with Some b => block_tx_hash <$> body_transactions b | None => [] end.
Definition emptied s (h : B256) : list (Block Header Tx) :=
  match blocks s !! h with Some b => [mkBlock (header b) []] | None => [] end.

Lemma unwind_block_Some s removed i h :
  hashes s !! i = Some h →
  ∃ txs, unwind_block (s, removed) i =
      (mkBlockchainStorage (delete h (blocks s)) (delete i (hashes s)) (best_hash s)
         (best_number s) (genesis_hash s) txs (total_difficulty s), removed ++ emptied s h) ∧
    (∀ t, t ∈ txs_of s h → txs !! t = None) ∧
    (∀ t, t ∉ txs_of s h → txs !! t = transactions s !! t).
Proof.
  intros Hi. unfold unwind_block, remove_block_transactions_by_number,
    remove_block_transactions, emptied, txs_of. rewrite Hi.
  destruct (blocks s !! h) as [b|] eqn:Hb; cbn.
  - rewrite lookup_insert_eq, delete_insert_eq. eexists. split; [reflexivity|].
    split; intros t; apply delete_fold.
  - rewrite Hb, app_nil_r. eexists. split; [reflexivity|]. split; [|done].
    by intros t ?%not_elem_of_nil.
Qed.

(** The chain maps numbers to distinct block hashes. *)
Definition hashes_inj s : Prop :=
  ∀ i j h, hashes s !! i = Some h → hashes s !! j = Some h → i = j.

(** Block [h], respectively transaction [t], belongs to the numbers [ns]. *)
Definition in_dropped s (ns : list Z) (h : B256) : Prop :=
  ∃ i, i ∈ ns ∧ hashes s !! i = Some h.
Definition tx_dropped s (ns : list Z) (t : B256) : Prop :=
  ∃ h, in_dropped s ns h ∧ t ∈ txs_of s h.

Record unwound s (ns : list Z) s' (removed : list (Block Header Tx)) : Prop := {
  uw_number_gone : ∀ i, i ∈ ns → hashes s' !! i = None;
  uw_number : ∀ i, i ∉ ns → hashes s' !! i = hashes s !! i;
  uw_gone : ∀ h, in_dropped s ns h → blocks s' !! h = None;
  uw_blocks : ∀ h, ¬ in_dropped s ns h → blocks s' !! h = blocks s !! h;
  uw_tx_gone : ∀ t, tx_dropped s ns t → transactions s' !! t = None;
  uw_txs : ∀ t, ¬ tx_dropped s ns t → transactions s' !! t = transactions s !! t;
  uw_removed : removed =
    mjoin ((λ i, match hashes s !! i with Some h => emptied s h | None => [] end) <$> ns);
  uw_genesis : genesis_hash s' = genesis_hash s;
  uw_difficulty : total_difficulty s' = total_difficulty s;
}.

Lemma in_dropped_snoc s ns i h :
  in_dropped s (ns ++ [i]) h ↔ in_dropped s ns h ∨ hashes s !! i = Some h.
Proof.
  unfold in_dropped. setoid_rewrite elem_of_app. setoid_rewrite list_elem_of_singleton. split.
  - intros (j & [?| ->] & ?); eauto.
  - intros [(j & ? & ?)|?]; eauto.
Qed.
Lemma tx_dropped_snoc s ns i t :
  tx_dropped s (ns ++ [i]) t ↔
  tx_dropped s ns t ∨ ∃ h, hashes s !! i = Some h ∧ t ∈ txs_of s h.
Proof.
  unfold tx_dropped. setoid_rewrite in_dropped_snoc. split.
  - intros (h & [?|?] & ?); eauto.
  - intros [(h & ? & ?)|(h & ? & ?)]; eauto.
Qed.
Lemma not_elem_of_snoc {A} (x i : A) ns : x ∉ ns ++ [i] ↔ (x ∉ ns) ∧ x ≠ i.
Proof. rewrite elem_of_app, list_elem_of_singleton. tauto. Qed.

Lemma unwind_snoc s ns s' removed i :
  hashes_inj s → i ∉ ns → unwound s ns s' removed →
  ∃ s'' removed', unwind_block (s', removed) i = (s'', removed') ∧
    unwound s (ns ++ [i]) s'' removed'.
Proof.
  intros Hinj Hi [Hng Hn Hgone Hbl Htxg Htx Hrem Hg Htd].
  pose proof (Hn i Hi) as Hhi. destruct (hashes s !! i) as [h|] eqn:Hi'.
  - assert (¬ in_dropped s ns h) as Hnd.
    { intros (j & Hj & Hjh). apply Hi. by rewrite (Hinj i j h). }
    destruct (unwind_block_Some s' removed i h Hhi) as (txs & -> & Htg & Htk).
    do 2 eexists. split; [reflexivity|].
    assert (txs_of s' h = txs_of s h ∧ emptied s' h = emptied s h) as [Htxs Hem].
    { unfold txs_of, emptied. by rewrite (Hbl h Hnd). }
    rewrite Htxs in *. split; cbn; [| | | | | |rewrite fmap_app, join_app; cbn|done..].
    + intros j [?| ->%list_elem_of_singleton]%elem_of_app; rewrite lookup_delete; case_decide; by auto.
    + intros j [? ?]%not_elem_of_snoc. rewrite lookup_delete_ne; auto.
    + intros h' Hd. rewrite lookup_delete. case_decide; [done|].
      apply in_dropped_snoc in Hd as [?|?]; [auto|congruence].
    + intros h'. rewrite in_dropped_snoc. intros Hnd'. rewrite lookup_delete_ne; [auto|].
      intros <-. tauto.
    + intros t. rewrite tx_dropped_snoc. intros Ht.
      destruct (decide (t ∈ txs_of s h)) as [|Hnt]; [auto|]. rewrite Htk by done.
      destruct Ht as [?|(h' & ? & ?)]; [auto|]. by replace h with h' in Hnt by congruence.
    + intros t. rewrite tx_dropped_snoc. intros Hnt. rewrite Htk; [|intros ?; apply Hnt; by eauto].
      apply Htx. tauto.
    + by rewrite Hi', app_nil_r, Hem, Hrem.
  - unfold unwind_block. rewrite Hhi. do 2 eexists. split; [reflexivity|].
    split; [| | | | | |rewrite fmap_app, join_app; cbn|done..].
    + intros j [?| ->%list_elem_of_singleton]%elem_of_app; auto.
    + intros j [? ?]%not_elem_of_snoc. auto.
    + intros h'. rewrite in_dropped_snoc. intros [?|?]; [auto|congruence].
    + intros h'. rewrite in_dropped_snoc. auto.
    + intros t. rewrite tx_dropped_snoc. intros [?|(? & ? & ?)]; [auto|congruence].
    + intros t. rewrite tx_dropped_snoc. auto.
    + by rewrite Hi', !app_nil_r.
Qed.

Lemma unwind_fold s l : ∀ ns s' removed,
  hashes_inj s → NoDup (ns ++ l) → unwound s ns s' removed →
  ∃ s'' removed', foldl unwind_block (s', removed) l = (s'', removed') ∧
    unwound s (ns ++ l) s'' removed'.
Proof.
  induction l as [|i l IH]; intros ns s' removed Hinj Hnd Hu; cbn [foldl].
  { do 2 eexists. split; [reflexivity|]. by rewrite app_nil_r. }
  destruct (unwind_snoc s ns s' removed i Hinj) as (s1 & r1 & -> & Hu1); [|done|].
  { intros Hin. apply NoDup_app in Hnd as (_ & Hd & _).
    apply (Hd i Hin). apply list_elem_of_here. }
  destruct (IH (ns ++ [i]) s1 r1 Hinj) as (s2 & r2 & ? & Hu2); [by rewrite <- app_assoc|done|].
  exists s2, r2. split; [done|]. by rewrite <- app_assoc in Hu2.
Qed.

Lemma unwound_nil s : unwound s [] s [].
Proof.
  split; try done; try (intros i ?%not_elem_of_nil; done).
  - by intros h (i & ?%not_elem_of_nil & _).
  - by intros t (h & (i & ?%not_elem_of_nil & _) & _).
Qed.

Lemma unwind_to_total s n h :
  hashes_inj s → 0 ≤ n < u64_max →
  ∃ s' removed, unwind_to s n h = Some (s', removed) ∧
    unwound s (seqZ (n + 1) (best_number s - n)) s' removed ∧
    best_number s' = n ∧ best_hash s' = h.
Proof.
  intros Hinj Hn. unfold unwind_to. rewrite checked_in by lia. cbn.
  destruct (unwind_fold s (seqZ (n + 1) (best_number s - n)) [] s [] Hinj)
    as (s1 & r1 & -> & [? ? ? ? ? ? ? ? ?]).
  - simpl. apply NoDup_seqZ.
  - apply unwound_nil.
  - do 2 eexists. split; [reflexivity|]. split_and!; [|done|done]. by split.
Qed.

(** ** Properties *)

(** Unwinding the chain to block [n] removes from the storage exactly
    the blocks above [n] up to the best one, with the numbers and the
    transactions that belong to them, and returns these blocks in ascending
    order (emptied of their transactions); every other block, number and
    transaction stays, and [n] is the new best block. *)
Lemma unwind_to_spec s n h :
  hashes_inj s → 0 ≤ n < u64_max →
  ∃ s' removed, unwind_to s n h = Some (s', removed) ∧
    unwound s (seqZ (n + 1) (best_number s - n)) s' removed ∧
    best_number s' = n ∧ best_hash s' = h.
Proof. apply unwind_to_total. Qed.

(** On a chain whose genesis block has number [g], once the best block
    is more than an epoch above zero but less than one above [g], the tags
    [safe] and [finalized] name no block, although the genesis block counts
    as safe. *)
Lemma safe_tag_before_genesis s g :
  (∀ i, is_Some (hashes s !! i) → g ≤ i) →
  32 < best_number s → best_number s < g + 32 → block_hash_of s Safe = None.
Proof.
  intros Hg Hlo Hhi. unfold block_hash_of. decide_bools.
  destruct (hashes s !! _) eqn:Hh; [|done]. ospecialize (Hg _ _); [by eexists|]. lia.
Qed.
End blockchain.

#[local] Instance number_blocks : BlockTypes Z Z Z :=
  {| hash_slow h := h + 1000; header_number h := h; block_tx_hash t := t; mined_hash t := t |}.

Lemma unwind_to_spec_witness :
  let s := load_transactions (load_blocks (storage_new (mkBlock 0 []) 0)
    [mkBlock 1 [11]; mkBlock 2 [12; 13]]) [11; 12; 13] in
  ∃ s' removed, unwind_to s 1 1001 = Some (s', removed) ∧
    unwound s (seqZ (1 + 1) (best_number s - 1)) s' removed ∧
    best_number s' = 1 ∧ best_hash s' = 1001.
Proof.
  intros s. apply (unwind_to_spec s 1 1001); [|by vm_compute].
  intros i j h. unfold s. cbn.
  rewrite !lookup_insert_Some, !lookup_singleton_Some. lia.
Defined.

Lemma safe_tag_before_genesis_witness :
  block_hash_of (mkBlockchainStorage (Header := Z) (Tx := Z) (Mined := Z) ∅
    (<[101 := 1101]> {[100 := 1100]}) 1101 101 1100 ∅ 0) Safe = None.
Proof.
  apply (safe_tag_before_genesis _ 100); [|by vm_compute..].
  intros i [h Hh]. cbn in Hh. revert Hh. rewrite lookup_insert_Some, lookup_singleton_Some. lia.
Defined.
