(* ===== verification/Fees.v ===== *)
(** * Fees: anvil/src/eth/fees.rs

    [FeeManager] (the fees of the next block), [FeeDetails] (the fee fields
    of a request) and the fee history cache.  The fee rules of the protocol
    and their parameter types belong to other crates: the interface
    [FeeRules].  Floating point ratios are the type [Float] of the
    interface; the percentile computation keeps its own order of operations
    on exact values (half percents [k], gas [g]: [k * g / 200] rounded down,
    which is what the code computes as long as the gas fits the mantissa). *)
From stdpp Require Import base gmap list sorting.
From Stdlib Require Import ZArith Lia.
From S2P Require Import Prelude.

Class FeeRules (Float BaseFeeParams BlobParams : Type) := {
  LONDON : Z;
  CANCUN : Z;
  elasticity_multiplier : BaseFeeParams → Z;
  calc_next_block_base_fee : Z → Z → Z → BaseFeeParams → Z;
  calc_blob_fee : BlobParams → Z → Z;
  next_block_excess_blob_gas_osaka : BlobParams → Z → Z → Z → Z;
  float_div : Z → Z → Float;
  MAX_BLOBS_PER_BLOCK_ELECTRA : Z;
}.

Definition MAX_FEE_HISTORY_CACHE_SIZE : Z := 2048.
Definition INITIAL_BASE_FEE : Z := 1000000000.
Definition INITIAL_GAS_PRICE : Z := 1875000000.
Definition MIN_SUGGESTED_PRIORITY_FEE : Z := 1000000000.

Record BlobExcessGasAndPrice := mkBlobExcessGasAndPrice {
  excess_blob_gas : Z;
  blob_gasprice : Z;
}.

Record FeeManager (Float BaseFeeParams BlobParams : Type) := mkFeeManager {
  fm_spec_id : Z;
  fm_blob_params : BlobParams;
  fm_base_fee : Z;
  fm_min_priority_fee_enforced : bool;
  fm_blob_excess_gas_and_price : BlobExcessGasAndPrice;
  fm_gas_price : Z;
  fm_elasticity : Float;
  fm_base_fee_params : BaseFeeParams;
}.
Arguments mkFeeManager {Float BaseFeeParams BlobParams} _ _ _ _ _ _ _ _.
Arguments fm_spec_id {Float BaseFeeParams BlobParams} _.
Arguments fm_blob_params {Float BaseFeeParams BlobParams} _.
Arguments fm_base_fee {Float BaseFeeParams BlobParams} _.
Arguments fm_min_priority_fee_enforced {Float BaseFeeParams BlobParams} _.
Arguments fm_blob_excess_gas_and_price {Float BaseFeeParams BlobParams} _.
Arguments fm_gas_price {Float BaseFeeParams BlobParams} _.
Arguments fm_elasticity {Float BaseFeeParams BlobParams} _.
Arguments fm_base_fee_params {Float BaseFeeParams BlobParams} _.

Section fee_manager.
Context {Float BaseFeeParams BlobParams : Type} `{!FeeRules Float BaseFeeParams BlobParams}.
#[local] Abbreviation Manager := (FeeManager Float BaseFeeParams BlobParams).
Implicit Types f : Manager.

Definition fee_manager_new (spec_id base_fee : Z) (enforced : bool) (gas_price : Z)
    (blob : BlobExcessGasAndPrice) (blob_params : BlobParams) (params : BaseFeeParams) : Manager :=
  mkFeeManager spec_id blob_params base_fee enforced blob gas_price
    (float_div 1 (elasticity_multiplier params)) params.

Definition is_eip1559 f : bool := bool_decide (LONDON ≤ fm_spec_id f).
Definition is_eip4844 f : bool := bool_decide (CANCUN ≤ fm_spec_id f).
Definition base_fee_per_blob_gas f : Z :=
  if is_eip4844 f then blob_gasprice (fm_blob_excess_gas_and_price f) else 0.
Definition blob_gas_price f : Z := if is_eip4844 f then base_fee_per_blob_gas f else 0.
Definition base_fee f : Z := if is_eip1559 f then fm_base_fee f else 0.
Definition raw_gas_price f : Z := fm_gas_price f.
Definition excess_blob_gas_and_price f : option BlobExcessGasAndPrice :=
  if is_eip4844 f then Some (fm_blob_excess_gas_and_price f) else None.

Definition set_gas_price f (price : Z) : Manager :=
  mkFeeManager (fm_spec_id f) (fm_blob_params f) (fm_base_fee f) (fm_min_priority_fee_enforced f)
    (fm_blob_excess_gas_and_price f) price (fm_elasticity f) (fm_base_fee_params f).
Definition set_base_fee f (fee : Z) : Manager :=
  mkFeeManager (fm_spec_id f) (fm_blob_params f) fee (fm_min_priority_fee_enforced f)
    (fm_blob_excess_gas_and_price f) (fm_gas_price f) (fm_elasticity f) (fm_base_fee_params f).
Definition set_blob_excess_gas_and_price f (b : BlobExcessGasAndPrice) : Manager :=
  mkFeeManager (fm_spec_id f) (fm_blob_params f) (fm_base_fee f) (fm_min_priority_fee_enforced f)
    b (fm_gas_price f) (fm_elasticity f) (fm_base_fee_params f).
Definition set_blob_params f (p : BlobParams) : Manager :=
  mkFeeManager (fm_spec_id f) p (fm_base_fee f) (fm_min_priority_fee_enforced f)
    (fm_blob_excess_gas_and_price f) (fm_gas_price f) (fm_elasticity f) (fm_base_fee_params f).

Definition get_next_block_base_fee_per_gas f (gas_used gas_limit last_fee_per_gas : Z) : Z :=
  if bool_decide (base_fee f = 0) then 0
  else calc_next_block_base_fee gas_used gas_limit last_fee_per_gas (fm_base_fee_params f).
Definition get_next_block_blob_base_fee_per_gas f : Z :=
  calc_blob_fee (fm_blob_params f) (excess_blob_gas (fm_blob_excess_gas_and_price f)).
Definition get_next_block_blob_excess_gas f (blob_gas_used blob_excess_gas : Z) : Z :=
  next_block_excess_blob_gas_osaka (fm_blob_params f) blob_excess_gas blob_gas_used (base_fee f).
End fee_manager.

(** ** The fee fields of a request *)
Record FeeDetails := mkFeeDetails {
  gas_price : option Z;
  max_fee_per_gas : option Z;
  max_priority_fee_per_gas : option Z;
  max_fee_per_blob_gas : option Z;
}.

Inductive FeeError := InvalidFeeInput.

Definition fees_zero : FeeDetails := mkFeeDetails (Some 0) (Some 0) (Some 0) None.

Definition or_zero_fees (d : FeeDetails) : FeeDetails :=
  let no_fees := bool_decide (gas_price d = None) && bool_decide (max_fee_per_gas d = None) in
  mkFeeDetails (if no_fees then Some 0 else gas_price d)
    (if no_fees then Some 0 else max_fee_per_gas d)
    (max_priority_fee_per_gas d)
    (if no_fees then None else max_fee_per_blob_gas d).

Definition fees_split (d : FeeDetails) : option Z * option Z * option Z * option Z :=
  (gas_price d, max_fee_per_gas d, max_priority_fee_per_gas d, max_fee_per_blob_gas d).

(** The check that both EIP-1559 branches make. *)
Definition priority_too_high (max_fee max_priority : option Z) : bool :=
  match max_priority with
  | Some p => bool_decide (default 0 max_fee < p)
  | None => false
  end.

Definition fees_new (request_gas_price request_max_fee request_priority blob : option Z)
    : result FeeError FeeDetails :=
  match request_gas_price, request_max_fee, request_priority, blob with
  | gp, None, None, None => Ok (mkFeeDetails gp gp gp None)
  | _, max_fee, max_priority, None =>
      if priority_too_high max_fee max_priority then Err InvalidFeeInput
      else Ok (mkFeeDetails max_fee max_fee max_priority None)
  | _, max_fee, max_priority, blob =>
      if priority_too_high max_fee max_priority then Err InvalidFeeInput
      else Ok (mkFeeDetails max_fee max_fee max_priority blob)
  end.

(** ** The fee history *)
Record FeeHistoryCacheItem (Float : Type) := mkItem {
  item_base_fee : Z;
  gas_used_ratio : Float;
  item_base_fee_per_blob_gas : option Z;
  blob_gas_used_ratio : Float;
  item_excess_blob_gas : option Z;
  item_blob_gas_used : option Z;
  rewards : list Z;
}.
Arguments mkItem {Float} _ _ _ _ _ _ _.
Arguments rewards {Float} _.

(** The header fields and the stored block and receipts that
    [create_cache_entry] reads.  [sb_tips] holds, per transaction of the
    block, its effective tip over the base fee if there is one. *)
Record FeeHeader := mkFeeHeader {
  h_base_fee_per_gas : option Z;
  h_excess_blob_gas : option Z;
  h_blob_gas_used : option Z;
  h_blob_fee : option Z;
}.
Record StoredBlock := mkStoredBlock {
  sb_number : Z;
  sb_gas_used : Z;
  sb_gas_limit : Z;
  sb_blob_gas_used : option Z;
  sb_tips : list (option Z);
}.

(** [sort_by_key], which is stable. *)
Fixpoint insert_by_key {A} (key : A → Z) (x : A) (l : list A) : list A :=
  match l with
  | [] => [x]
  | y :: l' => if bool_decide (key x ≤ key y) then x :: l else y :: insert_by_key key x l'
  end.
Definition sort_by_key {A} (key : A → Z) (l : list A) : list A := foldr (insert_by_key key) [] l.

(** The pairs (gas used, effective reward) of the block's receipts, given
    by their cumulative gas. *)
Definition tx_rewards (cumulative_gas_used : list Z) (tips : list (option Z)) : list (Z * Z) :=
  imap (λ i gas, (gas, default 0 (mjoin (tips !! i)))) cumulative_gas_used.

Fixpoint reward_at (target sum_gas : Z) (txs : list (Z * Z)) : option Z :=
  match txs with
  | [] => None
  | (gas, reward) :: txs' =>
      let sum_gas := sum_gas + gas in
      if bool_decide (target ≤ sum_gas) then Some reward else reward_at target sum_gas txs'
  end.

(** The 201 percentiles, in half percents. *)
Definition reward_percentiles : list Z := seqZ 0 201.
Definition target_gas (k gas_used : Z) : Z := (k * gas_used) / 200.

Definition percentile_rewards (gas_used : Z) (txs : list (Z * Z)) : list Z :=
  omap (λ k, reward_at (target_gas k gas_used) 0 (sort_by_key snd txs)) reward_percentiles.

Section fee_history.
Context {Float BaseFeeParams BlobParams : Type} `{!FeeRules Float BaseFeeParams BlobParams}.
#[local] Abbreviation Item := (FeeHistoryCacheItem Float).

Definition create_cache_entry (header : FeeHeader) (current_block : option StoredBlock)
    (current_receipts : option (list Z)) : Item * option Z :=
  let base := default 0 (h_base_fee_per_gas header) in
  match current_block, current_receipts with
  | Some block, Some receipts =>
      (mkItem base (float_div (sb_gas_used block) (sb_gas_limit block)) (h_blob_fee header)
         (match sb_blob_gas_used block with
          | Some g => float_div g MAX_BLOBS_PER_BLOCK_ELECTRA
          | None => float_div 0 1
          end)
         (h_excess_blob_gas header) (h_blob_gas_used header)
         (percentile_rewards (sb_gas_used block) (tx_rewards receipts (sb_tips block))),
       Some (sb_number block))
  | _, _ =>
      (mkItem base (float_div 0 1) (h_blob_fee header) (float_div 0 1)
         (h_excess_blob_gas header) (h_blob_gas_used header)
         (replicate (length reward_percentiles) 0), None)
  end.

Definition insert_cache_entry (fee_history_limit : Z) (cache : gmap Z Item) (item : Item)
    (block_number : option Z) : option (gmap Z Item) :=
  match block_number with
  | Some n =>
      let cache := <[n := item]> cache in
      let pop_next := saturating_sub n fee_history_limit in
      let num_remove := saturating_sub (Z.of_nat (size cache)) fee_history_limit in
      fold_m (λ cache num, key ← checked u64_max (pop_next - num); Some (delete key cache))
        cache (seqZ 0 num_remove)
  | None => Some cache
  end.

Definition insert_cache_entry_for_block (limit : Z) (cache : gmap Z Item) (header : FeeHeader)
    (current_block : option StoredBlock) (current_receipts : option (list Z))
    : option (gmap Z Item) :=
  let '(item, n) := create_cache_entry header current_block current_receipts in
  insert_cache_entry limit cache item n.
End fee_history.

(** ** Percentiles *)
Section percentiles.
Lemma insert_by_key_perm {A} (key : A → Z) x l : insert_by_key key x l ≡ₚ x :: l.
Proof.
  induction l as [|y l IH]; simpl; [done|]. case_bool_decide; [done|].
  rewrite IH. apply Permutation_swap.
Qed.
Lemma sort_by_key_perm {A} (key : A → Z) l : sort_by_key key l ≡ₚ l.
Proof. induction l as [|x l IH]; simpl; [done|]. by rewrite insert_by_key_perm, IH. Qed.

#[local] Abbreviation by_reward := (λ x y : Z * Z, x.2 ≤ y.2).
Lemma insert_by_key_sorted (x : Z * Z) l :
  StronglySorted by_reward l → StronglySorted by_reward (insert_by_key snd x l).
Proof.
  induction l as [|y l IH]; intros Hs; simpl; [by repeat constructor|].
  apply StronglySorted_inv in Hs as [Hs Hy]. case_bool_decide as Hle.
  - constructor; [by constructor|]. constructor; [done|].
    eapply Forall_impl; [exact Hy|]. simpl. lia.
  - constructor; [by apply IH|]. rewrite insert_by_key_perm. constructor; [lia|done].
Qed.
Lemma sort_by_key_sorted (l : list (Z * Z)) : StronglySorted by_reward (sort_by_key snd l).
Proof. induction l; simpl; [constructor|by apply insert_by_key_sorted]. Qed.

(** The total gas as the code counts it. *)
Definition total_gas (txs : list (Z * Z)) : Z := foldr (λ t s, t.1 + s) 0 txs.
#[export] Instance total_gas_perm : Proper ((≡ₚ) ==> (=)) total_gas.
Proof. intros l1 l2 Hl. induction Hl; simpl; lia. Qed.

Lemma reward_at_Some target txs sum :
  target ≤ sum + total_gas txs → txs ≠ [] →
  ∃ r, reward_at target sum txs = Some r ∧ r ∈ txs.*2.
Proof.
  revert sum. induction txs as [|[g r] txs IH]; intros sum Ht Hne; [done|]. simpl in *.
  case_bool_decide as Hc.
  - exists r. split; [done|apply list_elem_of_here].
  - destruct (decide (txs = [])) as [->|Hne']; [simpl in *; lia|].
    destruct (IH (sum + g)) as (r' & -> & ?); [lia|done|].
    exists r'. split; [done|by auto with anvil].
Qed.
Lemma reward_at_in target txs sum r : reward_at target sum txs = Some r → r ∈ txs.*2.
Proof.
  revert sum. induction txs as [|[g r'] txs IH]; intros sum; simpl; [done|].
  case_bool_decide; [intros [= ->]; auto with anvil|].
  intros ?. apply list_elem_of_further. by eapply IH.
Qed.
Lemma reward_at_mono t1 t2 txs sum r1 r2 :
  StronglySorted by_reward txs → t1 ≤ t2 →
  reward_at t1 sum txs = Some r1 → reward_at t2 sum txs = Some r2 → r1 ≤ r2.
Proof.
  intros Hs Ht. revert sum. induction txs as [|[g r] txs IH]; intros sum; simpl; [done|].
  apply StronglySorted_inv in Hs as [Hs Hr].
  repeat case_bool_decide; try lia.
  - intros [= ->] [= ->]. lia.
  - intros [= ->] Hin%reward_at_in. apply list_elem_of_fmap in Hin as (x & -> & Hx).
    rewrite Forall_forall in Hr. by apply (Hr x Hx).
  - by apply IH.
Qed.

Lemma omap_total_length {A B} (f : A → option B) l :
  (∀ x, x ∈ l → is_Some (f x)) → length (omap f l) = length l.
Proof.
  induction l as [|x l IH]; intros Hf; simpl; [done|].
  destruct (Hf x) as [y ->]; [auto with anvil|]. simpl. f_equal. apply IH.
  intros ??. by apply Hf, list_elem_of_further.
Qed.
Lemma omap_sorted (f : Z → option Z) l :
  StronglySorted Z.le l →
  (∀ x y a b, x ≤ y → f x = Some a → f y = Some b → a ≤ b) →
  StronglySorted Z.le (omap f l).
Proof.
  intros Hs Hf. induction Hs as [|x l Hs IH Hx]; simpl; [constructor|].
  destruct (f x) as [a|] eqn:Ha; [|done]. constructor; [done|].
  apply Forall_forall. intros b (y & Hy & Hb)%list_elem_of_omap.
  rewrite Forall_forall in Hx. eauto.
Qed.
Lemma seqZ_sorted m n : StronglySorted Z.le (seqZ m n).
Proof.
  destruct (decide (0 ≤ n)) as [Hn|?]; [|rewrite seqZ_nil by lia; constructor].
  revert m. pattern n. apply natlike_ind; [|clear n Hn|done].
  - intros m. rewrite seqZ_nil by lia. constructor.
  - intros n Hn IH m. rewrite seqZ_cons by lia.
    replace (Z.pred (Z.succ n)) with n by lia. constructor; [apply IH|].
    apply Forall_forall. intros x Hx%elem_of_seqZ. lia.
Qed.

Lemma target_gas_mono k1 k2 g : 0 ≤ g → k1 ≤ k2 → target_gas k1 g ≤ target_gas k2 g.
Proof. intros. unfold target_gas. apply Z.div_le_mono; [lia|nia]. Qed.
Lemma target_gas_le k g : 0 ≤ g → 0 ≤ k ≤ 200 → target_gas k g ≤ g.
Proof. intros. unfold target_gas. apply Z.div_le_upper_bound; [lia|nia]. Qed.
End percentiles.

(** ** The cache *)
Section cache.
Context {Float : Type}.
Implicit Types cache : gmap Z (FeeHistoryCacheItem Float).

(** The cache holds exactly the [len] blocks below [hi]. *)
Definition cache_window cache (hi len : Z) : Prop :=
  ∀ n, is_Some (cache !! n) ↔ hi - len ≤ n < hi.

Lemma cache_window_size cache hi len :
  0 ≤ len → cache_window cache hi len → Z.of_nat (size cache) = len.
Proof.
  intros Hlen Hw. rewrite <- size_dom.
  assert (dom cache = list_to_set (seqZ (hi - len) len)) as ->.
  { apply set_eq. intros n. rewrite elem_of_dom, (Hw n), elem_of_list_to_set, elem_of_seqZ. lia. }
  rewrite size_list_to_set by apply NoDup_seqZ. rewrite length_seqZ. lia.
Qed.

Lemma insert_cache_entry_next limit cache item hi len :
  0 < limit → 0 ≤ len ≤ limit → len ≤ hi ≤ u64_max → cache_window cache hi len →
  ∃ cache', insert_cache_entry limit cache item (Some hi) = Some cache' ∧
    cache_window cache' (hi + 1) (Z.min (len + 1) limit) ∧
    ∀ n, hi + 1 - limit ≤ n → cache' !! n = <[hi := item]> cache !! n.
Proof.
  intros Hlim Hlen Hhi Hw. unfold insert_cache_entry.
  assert (cache_window (<[hi := item]> cache) (hi + 1) (len + 1)) as Hw'.
  { intros n. rewrite lookup_insert_is_Some', (Hw n). lia. }
  rewrite (cache_window_size _ (hi + 1) (len + 1)) by (done || lia).
  unfold saturating_sub. destruct (decide (len = limit)) as [->|Hne].
  - replace (Z.max 0 (limit + 1 - limit)) with 1 by lia.
    rewrite seqZ_cons, seqZ_nil by lia. cbn [fold_m].
    rewrite Z.max_r, Z.sub_0_r by lia. rewrite checked_in by lia. cbn.
    eexists. split; [reflexivity|]. split.
    + intros n. rewrite lookup_delete_is_Some, (Hw' n). lia.
    + intros n Hn. rewrite lookup_delete_ne by lia. done.
  - replace (Z.max 0 (len + 1 - limit)) with 0 by lia.
    rewrite seqZ_nil by lia. eexists. split; [reflexivity|]. split; [|done].
    rewrite Z.min_l by lia. done.
Qed.

(** Inserting the items of consecutive blocks, from [n] on. *)
Fixpoint insert_blocks limit cache (n : Z) (items : list (FeeHistoryCacheItem Float)) :=
  match items with
  | [] => Some cache
  | item :: items' =>
      cache' ← insert_cache_entry limit cache item (Some n);
      insert_blocks limit cache' (n + 1) items'
  end.

Lemma insert_blocks_spec limit items : ∀ cache hi len,
  0 < limit → 0 ≤ len ≤ limit → len ≤ hi → hi + Z.of_nat (length items) ≤ u64_max →
  cache_window cache hi len →
  let hi' := hi + Z.of_nat (length items) in
  ∃ cache', insert_blocks limit cache hi items = Some cache' ∧
    cache_window cache' hi' (Z.min (len + Z.of_nat (length items)) limit) ∧
    ∀ n, hi' - limit ≤ n → cache' !! n =
      (if bool_decide (hi ≤ n) then items !! Z.to_nat (n - hi) else cache !! n).
Proof.
  induction items as [|item items IH]; intros cache hi len Hlim Hlen Hhi Hu Hw;
    cbn [length insert_blocks] in *.
  { exists cache. split_and!; [done| |].
    - rewrite Z.min_l by lia. intros n. rewrite (Hw n). lia.
    - intros n Hn. case_bool_decide; [|done].
      destruct (cache !! n) eqn:Hc; [|done]. opose proof (proj1 (Hw n) _); [by eexists|]. lia. }
  destruct (insert_cache_entry_next limit cache item hi len) as (c1 & -> & Hw1 & Hl1); [done..|lia|done|].
  simpl. destruct (IH c1 (hi + 1) (Z.min (len + 1) limit)) as (c2 & -> & Hw2 & Hl2); [done|lia..|done|].
  exists c2. split; [done|]. split.
  - intros n. rewrite (Hw2 n). lia.
  - intros n Hn. rewrite Hl2 by lia. case_bool_decide as Hc.
    + decide_bools.
      replace (Z.to_nat (n - hi)) with (S (Z.to_nat (n - (hi + 1)))) by lia. done.
    + rewrite Hl1 by lia. destruct (decide (n = hi)) as [->|Hne].
      * rewrite lookup_insert_eq. decide_bools. by rewrite Z.sub_diag.
      * rewrite lookup_insert_ne by done. by decide_bools.
Qed.
End cache.

(** ** Properties *)

(** With non-negative gas and at least the block's gas in the receipts,
    the rewards of a cache entry are 201 values, one per percentile,
    non-decreasing, each the effective reward of a transaction. *)
Lemma percentile_rewards_spec gas_used txs :
  0 ≤ gas_used ≤ total_gas txs → txs ≠ [] →
  let l := percentile_rewards gas_used txs in
  length l = 201%nat ∧ StronglySorted Z.le l ∧ ∀ r, r ∈ l → r ∈ txs.*2.
Proof.
  intros Hg Hne. unfold percentile_rewards.
  pose proof (sort_by_key_perm snd txs) as Hp.
  assert (total_gas (sort_by_key snd txs) = total_gas txs) as Htot by by rewrite Hp.
  assert (sort_by_key snd txs ≠ []) as Hne'.
  { intros Hn. rewrite Hn in Hp. by apply Permutation_nil_l in Hp. }
  split_and!.
  - rewrite omap_total_length; [done|]. intros k Hk%elem_of_seqZ.
    pose proof (target_gas_le k gas_used).
    destruct (reward_at_Some (target_gas k gas_used) (sort_by_key snd txs) 0) as (r & -> & _);
      [lia|done|by eexists].
  - apply omap_sorted; [apply seqZ_sorted|]. intros x y a b Hxy.
    apply reward_at_mono; [apply sort_by_key_sorted|]. apply target_gas_mono; lia.
  - intros r (k & _ & Hr%reward_at_in)%list_elem_of_omap. by rewrite Hp in Hr.
Qed.

Lemma percentile_rewards_spec_witness :
  StronglySorted Z.le (percentile_rewards 63000 [(21000, 5); (42000, 7); (63000, 1)]).
Proof. apply (percentile_rewards_spec 63000 [(21000, 5); (42000, 7); (63000, 1)]); [by vm_compute|done]. Defined.

(** The gas that weighs a transaction is the receipt's cumulative gas:
    of two transactions that use the same gas, the second one paying less,
    the entry reports the lower reward at every percentile, the hundredth
    included. *)
Lemma rewards_weigh_cumulative_gas g a b :
  0 < g → b < a →
  percentile_rewards (2 * g) (tx_rewards [g; 2 * g] [Some a; Some b]) = replicate 201 b.
Proof.
  intros Hg Hba. unfold percentile_rewards, tx_rewards. cbn [imap].
  assert (sort_by_key snd [(g, a); (2 * g, b)] = [(2 * g, b); (g, a)]) as Hs.
  { cbn. decide_bools. done. }
  cbn [lookup list_lookup mjoin option_join default from_option]. cbn in Hs |- *.
  rewrite Hs. unfold reward_percentiles.
  assert (Hall : ∀ l, (∀ k, k ∈ l → 0 ≤ k ≤ 200) →
    omap (λ k, reward_at (target_gas k (2 * g)) 0 [(2 * g, b); (g, a)]) l = replicate (length l) b).
  { intros l. induction l as [|k l IH]; intros Hl; [done|]. cbn [omap list_omap reward_at length replicate].
    rewrite bool_decide_true.
    - f_equal. apply IH. intros ??. by apply Hl, list_elem_of_further.
    - pose proof (target_gas_le k (2 * g)). specialize (Hl k (list_elem_of_here _ _)). lia. }
  apply (Hall (seqZ 0 201)). intros k Hk%elem_of_seqZ. lia.
Qed.

Lemma rewards_weigh_cumulative_gas_witness :
  percentile_rewards (2 * 21000) (tx_rewards [21000; 2 * 21000] [Some 10; Some 1]) = replicate 201 1.
Proof. apply (rewards_weigh_cumulative_gas 21000 10 1); lia. Defined.

(** Over consecutive blocks the cache never overflows and holds exactly
    the entries of the last [limit] blocks. *)
Lemma fee_history_window {Float} limit n (items : list (FeeHistoryCacheItem Float)) :
  0 < limit → 0 ≤ n → n + Z.of_nat (length items) ≤ u64_max →
  ∃ cache, insert_blocks limit ∅ n items = Some cache ∧
    ∀ i, cache !! i =
      if bool_decide (Z.max n (n + Z.of_nat (length items) - limit) ≤ i)
      then items !! Z.to_nat (i - n) else None.
Proof.
  intros Hlim Hn Hu.
  destruct (insert_blocks_spec limit items ∅ n 0) as (cache & -> & Hw & Hl); [lia..| |].
  { intros i. rewrite lookup_empty, is_Some_alt. lia. }
  exists cache. split; [done|]. intros i. case_bool_decide as Hi.
  - rewrite Hl by lia. by decide_bools.
  - destruct (cache !! i) eqn:Hc; [|done]. opose proof (proj1 (Hw i) _); [by eexists|]. lia.
Qed.

Lemma fee_history_window_witness :
  ∃ cache, insert_blocks 2 ∅ 7 [mkItem 0 tt None tt None None []; mkItem 1 tt None tt None None [];
      mkItem 2 tt None tt None None []] = Some cache ∧
    ∀ i, cache !! i = if bool_decide (Z.max 7 (7 + Z.of_nat 3 - 2) ≤ i)
      then [mkItem 0 tt None tt None None []; mkItem 1 tt None tt None None [];
        mkItem 2 tt None tt None None []] !! Z.to_nat (i - 7) else None.
Proof. apply (fee_history_window 2 7 [_; _; _]); vm_compute; congruence. Defined.

(** Once the chain goes back below the cache limit while the cache holds
    more entries than the limit (the stale ones of higher blocks), the key to
    drop underflows. *)
Lemma fee_history_underflow {Float} limit n (cache : gmap Z (FeeHistoryCacheItem Float)) item :
  0 ≤ n ≤ limit → cache !! n = None → limit < Z.of_nat (size cache) →
  insert_cache_entry limit cache item (Some n) = None.
Proof.
  intros Hn Hc Hs. unfold insert_cache_entry. rewrite map_size_insert_None by done.
  unfold saturating_sub. rewrite Z.max_l by lia.
  rewrite seqZ_cons, seqZ_cons by lia. cbn [fold_m]. rewrite checked_in by (unfold u64_max; lia).
  cbn. assert (checked u64_max (0 - Z.succ 0) = None) as -> by done. done.
Qed.

Lemma fee_history_underflow_witness :
  insert_cache_entry 1 (<[9 := mkItem 0 tt None tt None None []]> {[8 := mkItem 0 tt None tt None None []]})
    (mkItem 0 tt None tt None None []) (Some 0) = None.
Proof. apply fee_history_underflow; [lia|by vm_compute..]. Defined.

(** A request's fees are accepted exactly when the priority fee does not
    exceed the fee cap (absent counts as zero) or only a gas price is given;
    the accepted fees satisfy the same bound, have the cap as gas price and
    keep the blob fee. *)
Lemma fees_new_spec gp max_fee max_priority blob :
  match fees_new gp max_fee max_priority blob with
  | Ok d =>
      gas_price d = max_fee_per_gas d ∧ max_fee_per_blob_gas d = blob ∧
      (∀ p, max_priority_fee_per_gas d = Some p → p ≤ default 0 (max_fee_per_gas d)) ∧
      max_fee_per_gas d =
        (if bool_decide ((max_fee, max_priority, blob) = (None, None, None)) then gp else max_fee)
  | Err InvalidFeeInput => ∃ p, max_priority = Some p ∧ default 0 max_fee < p
  end.
Proof.
  unfold fees_new. destruct gp as [g|], max_fee as [m|], max_priority as [p|], blob as [b|];
    simpl; try case_bool_decide; simpl; split_and?; try done; try (by eexists);
    try (intros ? [= <-]; simpl; lia).
Qed.
