(* ===== verification/Executor.v ===== *)
(** * Executing the transactions of a block: anvil/src/eth/backend/executor.rs,
    with the cheats of anvil/src/eth/backend/cheats.rs and the transaction
    wrapper of anvil/core/src/eth/transaction/mod.rs

    [TransactionExecutor] runs the pending transactions in their order against
    the database and builds a block of those that were executed.  The EVM, its
    database and the envelope types belong to other crates: the interface
    [Evm].  An executor is generic in the validator, the interface
    [TransactionValidator] of validate.rs.  Logging and traces are left out. *)
From stdpp Require Import base list gmap.
From Stdlib Require Import ZArith Lia.
From S2P Require Import Prelude Containers PoolTx Fees StateDb.
#[local] Open Scope list_scope.

#[local] Abbreviation B256 := Z (only parsing).
#[local] Abbreviation Bytes := (list Z) (only parsing).

(** ** Types and operations of other crates *)
Class EvmTypes := {
  Envelope : Type;               (* the consensus transaction *)
  Db : Type;
  Code : Type;
  TxEnv : Type;
  RecoveredAuth : Type;
  SignedAuth : Type;
  Log : Type;
  Bloom : Type;
  Status : Type;                 (* [InstructionResult] *)
  DatabaseError : Type;
  InvalidTransaction : Type;     (* the EVM's reason *)
  OtherEvmError : Type;
}.

(** The variants of [FoundryTxEnvelope]. *)
Inductive TxKind := Legacy | Eip2930 | Eip1559 | Eip4844 | Eip7702 | Deposit | Tempo.
#[export] Instance TxKind_eq_dec : EqDecision TxKind.
Proof. solve_decision. Defined.

(** What the code reads of an envelope. *)
Class ConsensusTx (Tx : Type) := {
  tx_kind : Tx → TxKind;
  tx_gas_limit : Tx → Z;
  tx_nonce : Tx → Z;
  tx_chain_id : Tx → option Z;
  tx_to : Tx → option Address;
  tx_value : Tx → Z;
  tx_max_fee : Tx → Z;
  tx_max_priority_fee : Tx → option Z;
  tx_blob_gas_used : Tx → option Z;
  tx_blob_count : Tx → nat;
  tx_max_fee_per_blob_gas : Tx → option Z;
  tx_blobs_valid : Tx → bool;
  tx_mint : Tx → Z;
  tx_hash : Tx → TxHash;
  impersonated_hash : Tx → Address → TxHash;
  tx_recover : Tx → option Address;
}.

(** ** [MaybeImpersonatedTransaction] *)
Record MaybeImpersonated (E : Type) := mkMaybeImpersonated {
  envelope : E;
  impersonated_sender : option Address;
}.
Arguments mkMaybeImpersonated {E} _ _.
Arguments envelope {E} _.
Arguments impersonated_sender {E} _.

Section impersonation.
Context {E : Type} `{!ConsensusTx E}.
Definition maybe_hash (t : MaybeImpersonated E) : TxHash :=
  match impersonated_sender t with
  | Some s => impersonated_hash (envelope t) s
  | None => tx_hash (envelope t)
  end.
Definition maybe_recover (t : MaybeImpersonated E) : option Address :=
  match impersonated_sender t with Some s => Some s | None => tx_recover (envelope t) end.

(** [PendingTransaction::new], [with_impersonated] and
    [from_maybe_impersonated]. *)
Definition pending_new (e : E) : option (PendingTransaction (MaybeImpersonated E)) :=
  s ← tx_recover e;
  Some (mkPendingTransaction (mkMaybeImpersonated e None) s (tx_hash e)).
Definition with_impersonated (e : E) (s : Address) : PendingTransaction (MaybeImpersonated E) :=
  mkPendingTransaction (mkMaybeImpersonated e (Some s)) s (impersonated_hash e s).
Definition from_maybe_impersonated (t : MaybeImpersonated E)
    : option (PendingTransaction (MaybeImpersonated E)) :=
  match impersonated_sender t with
  | Some s => Some (with_impersonated (envelope t) s)
  | None => pending_new (envelope t)
  end.

(** A pending transaction that one of these built. *)
Definition pending_wf (t : PendingTransaction (MaybeImpersonated E)) : Prop :=
  pt_hash t = maybe_hash (transaction t) ∧ Some (sender t) = maybe_recover (transaction t).
Lemma from_maybe_impersonated_wf m t :
  from_maybe_impersonated m = Some t → transaction t = m ∧ pending_wf t.
Proof.
  destruct m as [e [s|]]; unfold from_maybe_impersonated, pending_new; cbn.
  - by intros [= <-].
  - destruct (tx_recover e) as [s|] eqn:Hs; cbn; [|done]. intros [= <-].
    unfold pending_wf, maybe_recover. cbn. by rewrite Hs.
Qed.
End impersonation.

(** ** The cheats of the node *)
Record CheatsState := mkCheatsState {
  impersonated_accounts : gset Address;
  auto_impersonate_accounts : bool;
  signature_overrides : gmap Bytes Address;
}.
Definition impersonate (c : CheatsState) (addr : Address) : CheatsState * bool :=
  (mkCheatsState ({[addr]} ∪ impersonated_accounts c) (auto_impersonate_accounts c)
     (signature_overrides c), bool_decide (addr ∈ impersonated_accounts c)).
Definition stop_impersonating (c : CheatsState) (addr : Address) : CheatsState :=
  mkCheatsState (impersonated_accounts c ∖ {[addr]}) (auto_impersonate_accounts c)
    (signature_overrides c).
Definition is_impersonated (c : CheatsState) (addr : Address) : bool :=
  auto_impersonate_accounts c || bool_decide (addr ∈ impersonated_accounts c).
Definition set_auto_impersonate_account (c : CheatsState) (enabled : bool) : CheatsState :=
  mkCheatsState (impersonated_accounts c) enabled (signature_overrides c).
Definition add_recover_override (c : CheatsState) (sig : Bytes) (addr : Address) : CheatsState :=
  mkCheatsState (impersonated_accounts c) (auto_impersonate_accounts c)
    (<[sig := addr]> (signature_overrides c)).
Definition get_recover_override (c : CheatsState) (sig : Bytes) : option Address :=
  signature_overrides c !! sig.
Definition has_recover_overrides (c : CheatsState) : bool :=
  negb (bool_decide (signature_overrides c = ∅)).

(** ** Environments *)
Record BlockEnv := mkBlockEnv {
  be_number : Z;            (* U256 *)
  be_beneficiary : Address;
  be_timestamp : Z;         (* U256 *)
  be_difficulty : Z;
  be_prevrandao : option B256;
  be_gas_limit : Z;         (* u64 *)
  be_basefee : Z;           (* u64 *)
  be_blob_excess_gas_and_price : option BlobExcessGasAndPrice;
}.
Record CfgEnv := mkCfgEnv {
  cfg_chain_id : Z;
  cfg_spec : Z;
  disable_block_gas_limit : bool;
  disable_base_fee : bool;
  cfg_tx_gas_limit_cap : option Z;
}.
Record EvmEnv := mkEvmEnv { block_env : BlockEnv; cfg_env : CfgEnv }.
Record TxContext `{EvmTypes} := mkEnv {
  evm_env : EvmEnv;
  env_tx : TxEnv;
  is_optimism : bool;
}.
Arguments mkEnv {_}.

(** The outcome of a transaction in the EVM: [ExecutionResult]. *)
Inductive Output := OCall (data : Bytes) | OCreate (data : Bytes) (addr : option Address).
Definition into_data (o : Output) : Bytes := match o with OCall d | OCreate d _ => d end.

Inductive ExecutionResult `{EvmTypes} :=
| ESuccess (reason : Status) (gas : Z) (logs : list Log) (output : Output)
| ERevert (gas : Z) (output : Bytes) (logs : list Log)
| EHalt (reason : Status) (gas : Z) (logs : list Log).
Inductive TransactResult `{EvmTypes} :=
| TOk (r : ExecutionResult)
| TDatabase (e : DatabaseError)
| TTransaction (e : InvalidTransaction)
| TOther (e : OtherEvmError).

(** The statuses of a success and of a halt are those that the conversions of
    the EVM give ([into], [op_haltreason_to_instruction_result]). *)
Class Evm `{EvmTypes} := {
  envelope_tx :: ConsensusTx Envelope;
  SPURIOUS_DRAGON : Z;
  MERGE : Z;
  SHANGHAI : Z;
  PRAGUE : Z;
  SPEC_LONDON : Z;
  SPEC_CANCUN : Z;
  Revert : Status;
  SelfDestruct : Status;
  status_u8 : Status → Z;
  account_default : AccountInfo Code;
  tx_gas_limit_cap : CfgEnv → Z;
  from_recovered_tx : Envelope → Address → TxEnv;
  te_gas_limit : TxEnv → Z;
  te_authorization_list : TxEnv → list RecoveredAuth;
  with_authorization_list : TxEnv → list RecoveredAuth → TxEnv;
  with_enveloped_tx : TxEnv → Envelope → TxEnv;
  signed_authorization_list : Envelope → list SignedAuth;
  auth_authority : RecoveredAuth → option Address;
  auth_with_authority : RecoveredAuth → Address → RecoveredAuth;
  auth_signature : SignedAuth → option Bytes;
  db_basic : Db → Address → Db * result DatabaseError (option (AccountInfo Code));
  transact_commit : CheatsState → TxContext → Db → Db * TransactResult;
  maybe_state_root : Db → option B256;
  bloom_default : Bloom;
  accrue : Bloom → Bytes → Bloom;
  log_address : Log → Bytes;
  log_topics : Log → list Bytes;
}.

(** The errors of validation and of the EVM ([InvalidTransactionError]); the
    details of the messages are left out, the conversion of the EVM's reasons
    is [EvmReason]. *)
Inductive InvalidTransactionError `{EvmTypes} :=
| NonceTooLow
| NonceTooHigh
| InsufficientFunds
| GasTooLow
| GasTooHigh
| TipAboveFeeCap
| FeeCapTooLow
| InvalidChainId
| IncompatibleEIP155
| BlobFeeCapTooLow (max_fee price : Z)
| NoBlobHashes
| TooManyBlobs (have max : nat)
| BlobTransactionValidationError
| EvmReason (e : InvalidTransaction).

#[local] Abbreviation NodeTx := (MaybeImpersonated Envelope) (only parsing).

(** [validate_pool_transaction_for] is what the executor asks. *)
Class TransactionValidator `{EvmTypes} := {
  validate_pool_transaction_for : PendingTransaction (MaybeImpersonated Envelope) → AccountInfo Code →
    TxContext → result InvalidTransactionError unit
}.

Record ExecutedTransaction `{EvmTypes} := mkExecutedTransaction {
  et_transaction : PoolTransaction (MaybeImpersonated Envelope);
  et_exit_reason : Status;
  et_out : option Output;
  et_gas_used : Z;
  et_logs : list Log;
  et_nonce : Z;
}.
Arguments mkExecutedTransaction {_}.

Inductive TransactionExecutionOutcome `{EvmTypes} :=
| Executed (tx : ExecutedTransaction)
| Invalid (tx : PoolTransaction (MaybeImpersonated Envelope)) (e : InvalidTransactionError)
| BlockGasExhausted (tx : PoolTransaction (MaybeImpersonated Envelope))
| BlobGasExhausted (tx : PoolTransaction (MaybeImpersonated Envelope))
| TransactionGasExhausted (tx : PoolTransaction (MaybeImpersonated Envelope))
| OutcomeDatabaseError (tx : PoolTransaction (MaybeImpersonated Envelope)) (e : DatabaseError).

(** A receipt, with the extra fields of a deposit's ([deposit_nonce] and
    [deposit_receipt_version]). *)
Record Receipt `{EvmTypes} := mkReceipt {
  receipt_kind : TxKind;
  receipt_status : bool;
  receipt_cumulative_gas_used : Z;
  receipt_logs : list Log;
  receipt_deposit : option (Z * Z);
}.
Arguments mkReceipt {_}.

Record TransactionInfo `{EvmTypes} := mkTransactionInfo {
  ti_hash : TxHash;
  ti_index : Z;
  ti_from : Address;
  ti_to : option Address;
  ti_contract_address : option Address;
  ti_exit : Status;
  ti_out : option Bytes;
  ti_nonce : Z;
  ti_gas_used : Z;
}.
Arguments mkTransactionInfo {_}.

(** A header, without the fields that are constants or depend on the fork
    alone (ommers, extra data, nonce, withdrawals and requests roots). *)
Record Header `{EvmTypes} := mkHeader {
  h_parent_hash : B256;
  h_beneficiary : Address;
  h_state_root : B256;
  h_transactions_root : B256;
  h_receipts_root : B256;
  h_logs_bloom : Bloom;
  h_difficulty : Z;
  h_number : Z;
  h_gas_limit : Z;
  h_gas_used : Z;
  h_timestamp : Z;
  h_mix_hash : B256;
  h_base_fee_per_gas : option Z;
  h_blob_gas_used : option Z;
  h_excess_blob_gas : option Z;
}.
Arguments mkHeader {_}.

(** Roots and hashes of headers ([hash_slow]) are computed by other crates. *)
Class BlockHashing `{EvmTypes} := {
  calculate_receipt_root : list Receipt → B256;
  calculate_transaction_root : list (MaybeImpersonated Envelope) → B256;
  header_hash : Header → B256;
}.

Record BlockInfo `{EvmTypes} := mkBlockInfo {
  bi_header : Header;
  bi_body : list (MaybeImpersonated Envelope);
  bi_transactions : list TransactionInfo;
  bi_receipts : list Receipt;
}.
Arguments mkBlockInfo {_}.
Record ExecutedTransactions `{EvmTypes} := mkExecutedTransactions {
  ex_block : BlockInfo;
  ex_included : list (PoolTransaction (MaybeImpersonated Envelope));
  ex_invalid : list (PoolTransaction (MaybeImpersonated Envelope));
}.
Arguments mkExecutedTransactions {_}.

(** The executor; the fields that only configure printing and tracing are
    left out. *)
Record TransactionExecutor `{EvmTypes} := mkExecutor {
  te_db : Db;
  te_pending : list (PoolTransaction (MaybeImpersonated Envelope));
  te_evm_env : EvmEnv;
  te_parent_hash : B256;
  te_gas_used : Z;
  te_blob_gas_used : Z;
  te_is_optimism : bool;
  te_max_blob_gas_per_block : Z;
  te_cheats : CheatsState;
}.
Arguments mkExecutor {_}.

(** What [execute] collects. *)
Record BlockBuild `{EvmTypes} := mkBuild {
  b_transactions : list (MaybeImpersonated Envelope);
  b_infos : list TransactionInfo;
  b_receipts : list Receipt;
  b_bloom : Bloom;
  b_cumulative_gas_used : Z;
  b_cumulative_blob_gas : option Z;
  b_invalid : list (PoolTransaction (MaybeImpersonated Envelope));
  b_included : list (PoolTransaction (MaybeImpersonated Envelope));
}.
Arguments mkBuild {_}.

Section executor.
Context `{!EvmTypes, !Evm, !TransactionValidator, !BlockHashing}.
Implicit Types (x : TransactionExecutor) (b : BlockBuild) (ptx : PoolTransaction NodeTx).

Definition saturating_u64_add (a b : Z) : Z := saturating_add u64_max a b.

(** [create_receipt]: the receipt and the gas used so far; the arm of the
    Tempo transactions is a [todo!]. *)
Definition create_receipt (t : ExecutedTransaction) (cumulative : Z) : option (Receipt * Z) :=
  let cumulative := saturating_u64_add cumulative (et_gas_used t) in
  let status := bool_decide (status_u8 (et_exit_reason t) ≤ status_u8 SelfDestruct) in
  let kind := tx_kind (envelope (transaction (pending_transaction (et_transaction t)))) in
  match kind with
  | Tempo => None
  | Deposit => Some (mkReceipt kind status cumulative (et_logs t) (Some (0, 1)), cumulative)
  | _ => Some (mkReceipt kind status cumulative (et_logs t) None, cumulative)
  end.

Definition build_logs_bloom (logs : list Log) (bloom : Bloom) : Bloom :=
  foldl (λ bl l, foldl accrue (accrue bl (log_address l)) (log_topics l)) bloom logs.

(** A recovered authorization without an authority gets the one that the
    cheats have for its signature. *)
Definition cheated_auth (c : CheatsState) (a : SignedAuth * RecoveredAuth) : RecoveredAuth :=
  match auth_authority a.2, auth_signature a.1 ≫= get_recover_override c with
  | None, Some addr => auth_with_authority a.2 addr
  | _, _ => a.2
  end.

Definition env_for x (t : PendingTransaction NodeTx) : TxContext :=
  let e := envelope (transaction t) in
  let tx_env := from_recovered_tx e (sender t) in
  let tx_env :=
    if bool_decide (tx_kind e = Eip7702) && has_recover_overrides (te_cheats x)
    then with_authorization_list tx_env
           (cheated_auth (te_cheats x) <$>
              zip (signed_authorization_list e) (te_authorization_list tx_env))
    else tx_env in
  let tx_env := if te_is_optimism x then with_enveloped_tx tx_env e else tx_env in
  mkEnv (te_evm_env x) tx_env (te_is_optimism x).

Definition set_db x (d : Db) : TransactionExecutor :=
  mkExecutor d (te_pending x) (te_evm_env x) (te_parent_hash x) (te_gas_used x)
    (te_blob_gas_used x) (te_is_optimism x) (te_max_blob_gas_per_block x) (te_cheats x).
Definition set_pending x pending : TransactionExecutor :=
  mkExecutor (te_db x) pending (te_evm_env x) (te_parent_hash x) (te_gas_used x)
    (te_blob_gas_used x) (te_is_optimism x) (te_max_blob_gas_per_block x) (te_cheats x).
Definition set_gas x (gas blob : Z) : TransactionExecutor :=
  mkExecutor (te_db x) (te_pending x) (te_evm_env x) (te_parent_hash x) gas blob
    (te_is_optimism x) (te_max_blob_gas_per_block x) (te_cheats x).

(** Exit reason, gas, output and logs of an execution. *)
Definition split_result (r : ExecutionResult) : Status * Z * option Output * list Log :=
  match r with
  | ESuccess reason gas logs output => (reason, gas, Some output, logs)
  | ERevert gas output logs => (Revert, gas, Some (OCall output), logs)
  | EHalt reason gas logs => (reason, gas, None, logs)
  end.

(** The transaction passed the checks: it is run and committed. *)
Definition transact x ptx (env : TxContext) (account : AccountInfo Code)
    : option (TransactionExecutionOutcome * TransactionExecutor) :=
  let '(d, res) := transact_commit (te_cheats x) env (te_db x) in
  let x := set_db x d in
  match res with
  | TDatabase e => Some (OutcomeDatabaseError ptx e, x)
  | TTransaction e => Some (Invalid ptx (EvmReason e), x)
  | TOther _ => None
  | TOk r =>
      let '(exit_reason, gas_used, out, logs) := split_result r in
      let blob := match tx_blob_gas_used (envelope (transaction (pending_transaction ptx))) with
                  | Some g => saturating_u64_add (te_blob_gas_used x) g
                  | None => te_blob_gas_used x
                  end in
      Some (Executed (mkExecutedTransaction ptx exit_reason out gas_used logs (ai_nonce account)),
            set_gas x (saturating_u64_add (te_gas_used x) gas_used) blob)
  end.

(** [Iterator::next] for a transaction taken from the pending ones. *)
Definition outcome_of x ptx : option (TransactionExecutionOutcome * TransactionExecutor) :=
  let t := pending_transaction ptx in
  let e := envelope (transaction t) in
  let '(d, res) := db_basic (te_db x) (sender t) in
  let x := set_db x d in
  match res with
  | Err err => Some (OutcomeDatabaseError ptx err, x)
  | Ok acc =>
      let account := default account_default acc in
      let env := env_for x t in
      let cfg := cfg_env (te_evm_env x) in
      let block := block_env (te_evm_env x) in
      let max_block_gas := saturating_u64_add (te_gas_used x) (te_gas_limit (env_tx env)) in
      if negb (disable_block_gas_limit cfg) && bool_decide (be_gas_limit block < max_block_gas)
      then Some (BlockGasExhausted ptx, x)
      else if bool_decide (cfg_tx_gas_limit_cap cfg = None) &&
              bool_decide (tx_gas_limit_cap cfg < tx_gas_limit e)
      then Some (TransactionGasExhausted ptx, x)
      else
        let max_blob_gas :=
          saturating_u64_add (te_blob_gas_used x) (default 0 (tx_blob_gas_used e)) in
        if bool_decide (te_max_blob_gas_per_block x < max_blob_gas)
        then Some (BlobGasExhausted ptx, x)
        else
          match validate_pool_transaction_for t account env with
          | Err err => Some (Invalid ptx err, x)
          | Ok _ => transact x ptx env account
          end
  end.

Definition executor_next x : option (option TransactionExecutionOutcome * TransactionExecutor) :=
  match te_pending x with
  | [] => Some (None, x)
  | ptx :: pending =>
      '(o, x) ← outcome_of (set_pending x pending) ptx;
      Some (Some o, x)
  end.

(** ** [execute] *)
Definition build_new (is_cancun : bool) : BlockBuild :=
  mkBuild [] [] [] bloom_default 0 (if is_cancun then Some 0 else None) [] [].

(** An executed transaction enters the block. *)
Definition include_tx (is_cancun : bool) b (t : ExecutedTransaction) : option BlockBuild :=
  let ptx := et_transaction t in
  let pt := pending_transaction ptx in
  let e := envelope (transaction pt) in
  let blob :=
    if is_cancun
    then Some (saturating_u64_add (default 0 (b_cumulative_blob_gas b)) (default 0 (tx_blob_gas_used e)))
    else b_cumulative_blob_gas b in
  '(receipt, cumulative) ← create_receipt t (b_cumulative_gas_used b);
  let contract_address := match et_out t with Some (OCreate _ addr) => addr | _ => None end in
  let info := mkTransactionInfo (hash ptx) (wrap_u64 (Z.of_nat (length (b_infos b)))) (sender pt)
    (tx_to e) contract_address (et_exit_reason t) (into_data <$> et_out t) (et_nonce t)
    (et_gas_used t) in
  Some (mkBuild (b_transactions b ++ [transaction pt]) (b_infos b ++ [info])
          (b_receipts b ++ [receipt]) (build_logs_bloom (et_logs t) (b_bloom b)) cumulative blob
          (b_invalid b) (b_included b ++ [ptx])).

Definition on_outcome (is_cancun : bool) b (o : TransactionExecutionOutcome) : option BlockBuild :=
  match o with
  | Executed t => include_tx is_cancun b t
  | Invalid ptx _ =>
      Some (mkBuild (b_transactions b) (b_infos b) (b_receipts b) (b_bloom b)
              (b_cumulative_gas_used b) (b_cumulative_blob_gas b) (b_invalid b ++ [ptx])
              (b_included b))
  | BlockGasExhausted _ | BlobGasExhausted _ | TransactionGasExhausted _
  | OutcomeDatabaseError _ _ => Some b
  end.

(** One iteration of the loop over the executor. *)
Definition execute_step (is_cancun : bool) (st : TransactionExecutor * BlockBuild)
    : option (TransactionExecutor * BlockBuild + TransactionExecutor * BlockBuild) :=
  let '(x, b) := st in
  '(o, x) ← executor_next x;
  match o with
  | None => Some (inr (x, b))
  | Some o => b ← on_outcome is_cancun b o; Some (inl (x, b))
  end.

(** [create_block]: the header with its transactions root. *)
Definition create_block (h : Header) (txs : list NodeTx) : Header * list NodeTx :=
  (mkHeader (h_parent_hash h) (h_beneficiary h) (h_state_root h) (calculate_transaction_root txs)
     (h_receipts_root h) (h_logs_bloom h) (h_difficulty h) (h_number h) (h_gas_limit h)
     (h_gas_used h) (h_timestamp h) (h_mix_hash h) (h_base_fee_per_gas h) (h_blob_gas_used h)
     (h_excess_blob_gas h), txs).

Definition saturating_to_u64 (z : Z) : Z := Z.min u64_max z.

Definition block_header x b (is_cancun : bool) : Header :=
  let block := block_env (te_evm_env x) in
  mkHeader (te_parent_hash x) (be_beneficiary block) (default 0 (maybe_state_root (te_db x)))
    0 (calculate_receipt_root (b_receipts b)) (b_bloom b) (be_difficulty block)
    (saturating_to_u64 (be_number block)) (be_gas_limit block) (b_cumulative_gas_used b)
    (saturating_to_u64 (be_timestamp block)) (default 0 (be_prevrandao block))
    (if bool_decide (SPEC_LONDON ≤ cfg_spec (cfg_env (te_evm_env x)))
     then Some (be_basefee block) else None)
    (b_cumulative_blob_gas b)
    (if is_cancun then excess_blob_gas <$> be_blob_excess_gas_and_price block else None).

(** Executes the pending transactions; also returns the database. *)
Definition execute x : option (ExecutedTransactions * Db) :=
  let is_cancun := bool_decide (SPEC_CANCUN ≤ cfg_spec (cfg_env (te_evm_env x))) in
  '(x, b) ← loop (execute_step is_cancun) (S (length (te_pending x))) (x, build_new is_cancun);
  let '(header, body) := create_block (block_header x b is_cancun) (b_transactions b) in
  Some (mkExecutedTransactions (mkBlockInfo header body (b_infos b) (b_receipts b))
          (b_included b) (b_invalid b), te_db x).
End executor.
