(* ===== verification/ExecutorProofs.v ===== *)
(** * Correctness of block execution

    Every pending transaction has exactly one outcome, in order; the block
    holds the executed ones with consecutive indices and cumulative gas; its
    gas and blob gas stay within the limits. *)
From stdpp Require Import base list gmap.
From Stdlib Require Import ZArith Lia.
From S2P Require Import Prelude Containers PoolTx Fees StateDb Executor.
#[local] Open Scope list_scope.
#[local] Abbreviation NodeTx := (MaybeImpersonated Envelope) (only parsing).

Section executor_proofs.
Context `{!EvmTypes, !Evm, !TransactionValidator, !BlockHashing}.
Implicit Types (x : TransactionExecutor) (b : BlockBuild) (ptx : PoolTransaction NodeTx).
Implicit Types (o : TransactionExecutionOutcome).

Definition outcome_tx o : PoolTransaction NodeTx :=
  match o with
  | Executed t => et_transaction t
  | Invalid ptx _ | BlockGasExhausted ptx | BlobGasExhausted ptx | TransactionGasExhausted ptx
  | OutcomeDatabaseError ptx _ => ptx
  end.
Definition executed o : option ExecutedTransaction :=
  match o with Executed t => Some t | _ => None end.
Definition invalid_tx o : option (PoolTransaction NodeTx) :=
  match o with Invalid ptx _ => Some ptx | _ => None end.

Definition ptx_envelope ptx : Envelope := envelope (transaction (pending_transaction ptx)).
Definition blob_gas_of ptx : Z := default 0 (tx_blob_gas_used (ptx_envelope ptx)).
Definition not_tempo ptx : Prop := tx_kind (ptx_envelope ptx) ≠ Tempo.

(** Saturating sums of gas. *)
Definition sat_sum (l : list Z) : Z := foldl saturating_u64_add 0 l.
Lemma sat_sum_snoc l g : sat_sum (l ++ [g]) = saturating_u64_add (sat_sum l) g.
Proof. unfold sat_sum. by rewrite foldl_app. Qed.

(** What is fixed while a block is executed. *)
Definition same_setup x x' : Prop :=
  te_evm_env x' = te_evm_env x ∧ te_parent_hash x' = te_parent_hash x ∧
  te_is_optimism x' = te_is_optimism x ∧ te_cheats x' = te_cheats x ∧
  te_max_blob_gas_per_block x' = te_max_blob_gas_per_block x.

(** The EVM reports no error of its own other than an invalid transaction or
    a database error, and does not use more gas than the transaction's
    limit. *)
Class EvmLaws : Prop := {
  evm_no_other c env d d' e : transact_commit c env d ≠ (d', TOther e);
  evm_gas c env d d' r : transact_commit c env d = (d', TOk r) →
    0 ≤ (split_result r).1.1.2 ≤ te_gas_limit (env_tx env);
}.
Context `{!EvmLaws}.

Definition gas_limit_ok x (gas : Z) : Prop :=
  disable_block_gas_limit (cfg_env (te_evm_env x)) = false →
  gas ≤ be_gas_limit (block_env (te_evm_env x)).

(** The counters after an outcome. *)
Definition outcome_gas x x' o : Prop :=
  match o with
  | Executed t =>
      te_gas_used x' = saturating_u64_add (te_gas_used x) (et_gas_used t) ∧
      te_blob_gas_used x' = saturating_u64_add (te_blob_gas_used x) (blob_gas_of (et_transaction t)) ∧
      gas_limit_ok x (te_gas_used x') ∧ te_blob_gas_used x' ≤ te_max_blob_gas_per_block x
  | _ => te_gas_used x' = te_gas_used x ∧ te_blob_gas_used x' = te_blob_gas_used x
  end.

Lemma transact_spec x ptx env account :
  te_blob_gas_used x ≤ u64_max → 
  (disable_block_gas_limit (cfg_env (te_evm_env x)) = false →
     saturating_u64_add (te_gas_used x) (te_gas_limit (env_tx env)) ≤
       be_gas_limit (block_env (te_evm_env x))) →
  saturating_u64_add (te_blob_gas_used x) (blob_gas_of ptx) ≤ te_max_blob_gas_per_block x →
  ∃ o x', transact x ptx env account = Some (o, x') ∧ te_pending x' = te_pending x ∧
    same_setup x x' ∧ outcome_tx o = ptx ∧ outcome_gas x x' o.
Proof.
  intros Hb Hgas Hblob. unfold transact.
  destruct (transact_commit _ _ _) as [d res] eqn:Ht.
  destruct res as [r|e|e|e].
  - pose proof (evm_gas _ _ _ _ _ Ht) as Hr.
    destruct (split_result r) as [[[reason gas] out] logs] eqn:Hs. cbn in Hr.
    do 2 eexists. split; [reflexivity|]. split_and!; [done..|]. cbn. split_and!; [done| | |].
    + unfold blob_gas_of, ptx_envelope, saturating_u64_add, saturating_add in *.
      destruct (tx_blob_gas_used _); cbn; [done|]. lia.
    + intros Hd. specialize (Hgas Hd). unfold saturating_u64_add, saturating_add in *. cbn. lia.
    + revert Hblob. unfold blob_gas_of, ptx_envelope, saturating_u64_add, saturating_add.
      destruct (tx_blob_gas_used _); cbn; lia.
  - do 2 eexists. split; [reflexivity|]. by split_and!.
  - do 2 eexists. split; [reflexivity|]. by split_and!.
  - by apply evm_no_other in Ht.
Qed.

Lemma outcome_of_spec x ptx :
  te_blob_gas_used x ≤ u64_max →
  ∃ o x', outcome_of x ptx = Some (o, x') ∧ te_pending x' = te_pending x ∧
    same_setup x x' ∧ outcome_tx o = ptx ∧ outcome_gas x x' o.
Proof.
  intros Hb. unfold outcome_of. destruct (db_basic _ _) as [d [acc|e]].
  2: { do 2 eexists. split; [reflexivity|]. by split_and!. }
  destruct (negb _ && _) eqn:Hbg; [do 2 eexists; split; [reflexivity|]; by split_and!|].
  assert (Hgas : disable_block_gas_limit (cfg_env (te_evm_env x)) = false →
    ¬ be_gas_limit (block_env (te_evm_env x)) < saturating_u64_add (te_gas_used x)
        (te_gas_limit (env_tx (env_for (set_db x d) (pending_transaction ptx))))).
  { intros Hd. cbn [set_db te_evm_env te_gas_used] in Hbg. rewrite Hd in Hbg.
    by apply bool_decide_eq_false in Hbg. }
  clear Hbg. destruct (bool_decide (cfg_tx_gas_limit_cap _ = None) && _);
    [do 2 eexists; split; [reflexivity|]; by split_and!|].
  case_bool_decide as Hbl; [do 2 eexists; split; [reflexivity|]; by split_and!|].
  destruct (validate_pool_transaction_for _ _ _) as [?|err];
    [|do 2 eexists; split; [reflexivity|]; by split_and!].
  apply (transact_spec (set_db x d)); [done| |].
  - intros Hd. by apply Z.nlt_ge, Hgas.
  - by apply Z.nlt_ge.
Qed.

Lemma same_setup_refl x : same_setup x x.
Proof. by split_and!. Qed.
Lemma same_setup_trans x1 x2 x3 : same_setup x1 x2 → same_setup x2 x3 → same_setup x1 x3.
Proof. intros (? & ? & ? & ? & ?) (? & ? & ? & ? & ?). split_and!; congruence. Qed.

(** ** The loop *)
(** The block that the outcomes [os] give. *)
Definition included_of (os : list TransactionExecutionOutcome) : list (PoolTransaction NodeTx) :=
  et_transaction <$> omap executed os.
Definition gas_of (os : list TransactionExecutionOutcome) : list Z := et_gas_used <$> omap executed os.
Definition blob_of (os : list TransactionExecutionOutcome) : list Z := blob_gas_of <$> included_of os.

Record built (is_cancun : bool) (os : list TransactionExecutionOutcome) b : Prop := {
  built_included : b_included b = included_of os;
  built_invalid : b_invalid b = omap invalid_tx os;
  built_body : b_transactions b = (λ ptx, transaction (pending_transaction ptx)) <$> included_of os;
  built_hashes : ti_hash <$> b_infos b = hash <$> included_of os;
  built_info_gas : ti_gas_used <$> b_infos b = gas_of os;
  built_index i info : b_infos b !! i = Some info → ti_index info = wrap_u64 (Z.of_nat i);
  built_receipts : length (b_receipts b) = length (included_of os);
  built_receipt i r : b_receipts b !! i = Some r →
    receipt_cumulative_gas_used r = sat_sum (take (S i) (gas_of os));
  built_gas : b_cumulative_gas_used b = sat_sum (gas_of os);
  built_blob : b_cumulative_blob_gas b = if is_cancun then Some (sat_sum (blob_of os)) else None;
}.

Lemma built_new is_cancun : built is_cancun [] (build_new is_cancun).
Proof. split; try done. Qed.

Lemma built_skip is_cancun os b o :
  built is_cancun os b → executed o = None →
  ∃ b', on_outcome is_cancun b o = Some b' ∧ built is_cancun (os ++ [o]) b'.
Proof.
  intros [] Ho. destruct o; try done; eexists; (split; [reflexivity|]);
    split; unfold gas_of, blob_of, included_of in *; cbn;
    rewrite ?omap_app; cbn; rewrite ?app_nil_r; try done; by f_equal.
Qed.

Lemma create_receipt_spec t cumulative :
  not_tempo (et_transaction t) → ∃ r, create_receipt t cumulative =
    Some (r, saturating_u64_add cumulative (et_gas_used t)) ∧
    receipt_cumulative_gas_used r = saturating_u64_add cumulative (et_gas_used t).
Proof.
  intros Ht. unfold create_receipt. unfold not_tempo, ptx_envelope in Ht.
  destruct (tx_kind _); try done; (eexists; split; reflexivity).
Qed.

(** Appending at the end of a list whose elements have a property by index. *)
Lemma lookup_snoc_cases {A} (l : list A) a i y :
  (l ++ [a]) !! i = Some y → l !! i = Some y ∨ (i = length l ∧ y = a).
Proof.
  intros [?|[Hi Hx]]%lookup_app_Some; [by left|right].
  destruct (i - length l)%nat as [|n] eqn:Hn; [|done]. injection Hx as <-. split; [lia|done].
Qed.

Lemma built_include is_cancun os b t :
  built is_cancun os b → not_tempo (et_transaction t) →
  ∃ b', on_outcome is_cancun b (Executed t) = Some b' ∧ built is_cancun (os ++ [Executed t]) b'.
Proof.
  intros [Hin Hinv Hbody Hh Hg Hidx Hlen Hr Hgas Hblob] Ht. cbn [on_outcome]. unfold include_tx.
  destruct (create_receipt_spec t (b_cumulative_gas_used b) Ht) as (r & -> & Hrc).
  cbn [mbind option_bind]. eexists. split; [reflexivity|].
  assert (Hos : omap executed (os ++ [Executed t]) = omap executed os ++ [t]) by by rewrite omap_app.
  assert (Hl : length (gas_of os) = length (b_receipts b))
    by (rewrite Hlen; unfold gas_of, included_of; by rewrite !length_fmap).
  assert (Hl2 : length (b_infos b) = length (gas_of os))
    by (rewrite <- Hg; by rewrite length_fmap).
  split; cbn; unfold blob_of, included_of, gas_of in *; rewrite ?Hos, ?fmap_app; cbn.
  - by rewrite Hin.
  - rewrite omap_app. cbn. by rewrite app_nil_r.
  - by rewrite Hbody.
  - by rewrite Hh.
  - by rewrite Hg.
  - intros i info [?|[-> ->]]%lookup_snoc_cases; [by apply Hidx|done].
  - rewrite !length_app, Hlen. done.
  - intros i r0 [Hi|[-> ->]]%lookup_snoc_cases.
    + rewrite (Hr _ _ Hi). apply lookup_lt_Some in Hi. rewrite take_app_le by lia. done.
    + rewrite <- Hl, take_ge by (rewrite length_app; cbn; lia).
      by rewrite Hrc, Hgas, sat_sum_snoc.
  - by rewrite Hgas, sat_sum_snoc.
  - rewrite Hblob. destruct is_cancun; [|done]. cbn. by rewrite sat_sum_snoc.
Qed.

(** The outcomes of taking transactions from the executor. *)
Inductive runs x : list TransactionExecutionOutcome → TransactionExecutor → Prop :=
| runs_nil : runs x [] x
| runs_snoc os x1 o x2 :
    runs x os x1 → executor_next x1 = Some (Some o, x2) → runs x (os ++ [o]) x2.

Lemma sat_sum_max l : sat_sum l ≤ u64_max.
Proof.
  destruct l as [|g l _] using rev_ind; [done|]. rewrite sat_sum_snoc.
  unfold saturating_u64_add, saturating_add. lia.
Qed.

(** What holds between two transactions: [os] are the outcomes so far. *)
Record executing x0 (is_cancun : bool) (os : list TransactionExecutionOutcome) x b : Prop := {
  exe_runs : runs x0 os x;
  exe_pending : (outcome_tx <$> os) ++ te_pending x = te_pending x0;
  exe_setup : same_setup x0 x;
  exe_built : built is_cancun os b;
  exe_gas : te_gas_used x = sat_sum (gas_of os);
  exe_blob : te_blob_gas_used x = sat_sum (blob_of os);
  exe_gas_limit : gas_of os = [] ∨ gas_limit_ok x0 (te_gas_used x);
  exe_blob_limit : blob_of os = [] ∨ te_blob_gas_used x ≤ te_max_blob_gas_per_block x0;
  exe_no_tempo : Forall not_tempo (te_pending x);
}.

Lemma gas_of_snoc os o :
  gas_of (os ++ [o]) = gas_of os ++ match executed o with Some t => [et_gas_used t] | None => [] end ∧
  blob_of (os ++ [o]) = blob_of os ++
    match executed o with Some t => [blob_gas_of (et_transaction t)] | None => [] end.
Proof.
  unfold gas_of, blob_of, included_of. rewrite !omap_app, !fmap_app. cbn. by destruct (executed o).
Qed.

Lemma executing_step x0 is_cancun os x b ptx pending :
  executing x0 is_cancun os x b → te_pending x = ptx :: pending →
  ∃ o x' b', executor_next x = Some (Some o, x') ∧ on_outcome is_cancun b o = Some b' ∧
    te_pending x' = pending ∧ executing x0 is_cancun (os ++ [o]) x' b'.
Proof.
  intros [Hruns Hpend Hsetup Hbuilt Hgas Hblob Hgl Hbl Hnt] Hp.
  destruct (outcome_of_spec (set_pending x pending) ptx) as (o & x' & Ho & Hp' & Hs & Htx & Hog).
  { cbn. rewrite Hblob. apply sat_sum_max. }
  assert (Hnext : executor_next x = Some (Some o, x')).
  { unfold executor_next. by rewrite Hp, Ho. }
  rewrite Hp, Forall_cons in Hnt. destruct Hnt as [Hptx Hnt].
  assert (∃ b', on_outcome is_cancun b o = Some b' ∧ built is_cancun (os ++ [o]) b') as (b' & Hb' & Hbuilt').
  { destruct (executed o) as [t|] eqn:He; [|by apply built_skip].
    destruct o; try done. injection He as ->. apply built_include; [done|]. cbn in Htx. by rewrite Htx. }
  exists o, x', b'. split_and!; [done..|]. destruct (gas_of_snoc os o) as [Hg Hb].
  assert (Hsx : same_setup x0 x') by (by eapply same_setup_trans).
  destruct Hsetup as (He & _ & _ & _ & Hmax).
  split; [by econstructor| |done|done| | | | |by rewrite Hp'].
  - rewrite fmap_app, Hp', <- Hpend, Hp, <- app_assoc. cbn. by rewrite Htx.
  - rewrite Hg. destruct o; cbn in Hog |- *; apply proj1 in Hog as Hx;
      rewrite ?app_nil_r, ?sat_sum_snoc; congruence.
  - rewrite Hb. destruct o; cbn in Hog |- *; apply proj2 in Hog as Hx; try apply proj1 in Hx;
      rewrite ?app_nil_r, ?sat_sum_snoc; congruence.
  - rewrite Hg. destruct o; cbn in Hog |- *; destruct Hog as [Hx Hog]; cbn in Hx;
      [right; unfold gas_limit_ok in *; cbn in Hog; rewrite He in Hog; by apply Hog|..];
      by rewrite Hx, app_nil_r.
  - rewrite Hb. destruct o; cbn in Hog |- *; destruct Hog as (_ & Hog); cbn in Hog;
      [right; rewrite <- Hmax; apply Hog|..]; rewrite Hog, app_nil_r; done.
Qed.

(** A block that is executed from the start. *)
Definition fresh x : Prop := te_gas_used x = 0 ∧ te_blob_gas_used x = 0.

Lemma executing_start x is_cancun :
  fresh x → Forall not_tempo (te_pending x) → executing x is_cancun [] x (build_new is_cancun).
Proof.
  intros [Hg Hb] Hn. split; try done; try apply runs_nil; try apply built_new; by left.
Qed.

Lemma execute_loop x is_cancun :
  fresh x → Forall not_tempo (te_pending x) →
  ∃ r, loop (execute_step is_cancun) (S (length (te_pending x))) (x, build_new is_cancun) = Some r ∧
    te_pending r.1 = [] ∧ ∃ os, executing x is_cancun os r.1 r.2.
Proof.
  intros Hf Hn.
  apply (loop_total (execute_step is_cancun) (λ st, ∃ os, executing x is_cancun os st.1 st.2)
    (λ r, te_pending r.1 = [] ∧ ∃ os, executing x is_cancun os r.1 r.2)
    (λ st, length (te_pending st.1))); [|cbn; lia|].
  - intros [x1 b1] (os & He). cbn in He |- *. destruct (te_pending x1) as [|ptx pending] eqn:Hp.
    + unfold executor_next. rewrite Hp. cbn. split; [done|by exists os].
    + destruct (executing_step _ _ _ _ _ _ _ He Hp) as (o & x2 & b2 & -> & Ho & Hp2 & He2). cbn.
      rewrite Ho. cbn. rewrite Hp2. split; [by exists (os ++ [o])|lia].
  - exists []. by apply executing_start.
Qed.

(** The block that the outcomes [os] of the pending transactions give. *)
Definition block_of x (os : list TransactionExecutionOutcome) (res : ExecutedTransactions) : Prop :=
  let block := ex_block res in
  ex_included res = included_of os ∧ ex_invalid res = omap invalid_tx os ∧
  bi_body block = (λ ptx, transaction (pending_transaction ptx)) <$> included_of os ∧
  ti_hash <$> bi_transactions block = hash <$> included_of os ∧
  (∀ i info, bi_transactions block !! i = Some info → ti_index info = wrap_u64 (Z.of_nat i)) ∧
  length (bi_receipts block) = length (included_of os) ∧
  (∀ i r, bi_receipts block !! i = Some r →
    receipt_cumulative_gas_used r = sat_sum (take (S i) (gas_of os))) ∧
  h_gas_used (bi_header block) = sat_sum (gas_of os) ∧
  gas_limit_ok x (h_gas_used (bi_header block)) ∧
  (∀ blob, h_blob_gas_used (bi_header block) = Some blob →
    blob = sat_sum (blob_of os) ∧ blob ≤ te_max_blob_gas_per_block x).

(** The fields of the header that do not depend on the transactions. *)
Definition header_from x (h : Header) : Prop :=
  let block := block_env (te_evm_env x) in
  h_parent_hash h = te_parent_hash x ∧ h_number h = saturating_to_u64 (be_number block) ∧
  h_timestamp h = saturating_to_u64 (be_timestamp block) ∧ h_gas_limit h = be_gas_limit block ∧
  h_beneficiary h = be_beneficiary block ∧ h_mix_hash h = default 0 (be_prevrandao block) ∧
  h_base_fee_per_gas h =
    (if bool_decide (SPEC_LONDON ≤ cfg_spec (cfg_env (te_evm_env x))) then Some (be_basefee block) else None).

Lemma execute_total x :
  fresh x → 0 ≤ te_max_blob_gas_per_block x → Forall not_tempo (te_pending x) →
  (disable_block_gas_limit (cfg_env (te_evm_env x)) = false →
    0 ≤ be_gas_limit (block_env (te_evm_env x))) →
  ∃ os x' res, execute x = Some (res, te_db x') ∧ runs x os x' ∧ te_pending x' = [] ∧
    outcome_tx <$> os = te_pending x ∧ block_of x os res ∧ header_from x (bi_header (ex_block res)).
Proof.
  intros Hf Hmax Hnt Hlim. unfold execute. set (is_cancun := bool_decide _).
  destruct (execute_loop x is_cancun Hf Hnt) as ([x' b] & -> & Hp & os & He). cbn in Hp, He |- *.
  destruct He as [Hruns Hpend (Henv & Hpar & _) [] Hgas Hblob Hgl Hbl _].
  exists os, x'. eexists. split; [reflexivity|]. unfold block_of, header_from. cbn.
  rewrite Henv, Hpar. split_and!; try done.
  - by rewrite Hp, app_nil_r in Hpend.
  - rewrite built_gas0. destruct Hgl as [->|Hgl]; [done|by rewrite <- Hgas].
  - intros blob. rewrite built_blob0. destruct is_cancun; [|done]. intros [= <-].
    split; [done|]. destruct Hbl as [->|Hbl]; [done|by rewrite <- Hblob].
Qed.

(** C3: executing a block of transactions none of which is a Tempo transaction
    (whose receipt is still to be written in the code, it panics) never panics
    and gives every pending transaction exactly one outcome, in order. The
    block holds exactly the executed ones (the others are invalid, or skipped
    for their gas or a database error): its body, the infos with the indices
    0, 1, 2, ..., and the receipts, whose cumulative gas is the sum of the gas
    used so far; the header has the total, which stays within the block's gas
    limit unless the limit is disabled, and the blob gas, within the limit of
    the blob parameters. It is relied on that the EVM fails in no other way
    than by an invalid transaction or an error of the database, on others the
    code panics, and uses no more gas than the limit of the transaction; the
    executor is new and its limits are not negative. *)
Theorem execute_spec x :
  fresh x → 0 ≤ te_max_blob_gas_per_block x → Forall not_tempo (te_pending x) →
  (disable_block_gas_limit (cfg_env (te_evm_env x)) = false →
    0 ≤ be_gas_limit (block_env (te_evm_env x))) →
  ∃ os x' res, execute x = Some (res, te_db x') ∧ runs x os x' ∧ te_pending x' = [] ∧
    outcome_tx <$> os = te_pending x ∧ block_of x os res.
Proof.
  intros. destruct (execute_total x) as (os & x' & res & ? & ? & ? & ? & ? & _); [done..|].
  by exists os, x', res.
Qed.
End executor_proofs.

(** ** A small EVM, for evaluation

    A transaction is its nonce and its gas limit; it runs when its nonce is
    the account's, costs 21000 gas, logs the nonce and the sender, and increases
    the nonce. *)
#[export] Instance small_types : EvmTypes := {|
  Envelope := Z * Z; Db := gmap Z (AccountInfo unit); Code := unit; TxEnv := Z * Z * Address;
  RecoveredAuth := unit; SignedAuth := unit; Log := Z; Bloom := list (list Z); Status := Z;
  DatabaseError := unit; InvalidTransaction := unit; OtherEvmError := unit;
|}.
#[export] Instance small_tx : ConsensusTx (Z * Z) := {|
  tx_kind _ := Eip1559; tx_gas_limit := snd; tx_nonce := fst; tx_chain_id _ := Some 31337;
  tx_to _ := Some 7; tx_value _ := 0; tx_max_fee _ := 10; tx_max_priority_fee _ := Some 1;
  tx_blob_gas_used _ := None; tx_blob_count _ := 0%nat; tx_max_fee_per_blob_gas _ := None;
  tx_blobs_valid _ := true; tx_mint _ := 0; tx_hash e := e.1 * 1000; impersonated_hash e s := e.1 * 1000 + s;
  tx_recover e := Some 1;
|}.
Definition small_account : AccountInfo unit := mkAccountInfo 1000000000 0 0 None.
Definition small_commit (e : Z * Z * Address) (d : gmap Z (AccountInfo unit))
    : gmap Z (AccountInfo unit) * TransactResult :=
  let '(nonce, limit, from) := e in
  let a := default small_account (d !! from) in
  if bool_decide (nonce = ai_nonce a ∧ 21000 ≤ limit)
  then (<[from := mkAccountInfo (ai_balance a) (nonce + 1) 0 None]> d,
        TOk (ESuccess 1 21000 [nonce; from] (OCall [])))
  else (d, TTransaction tt).
#[export] Instance small_evm : Evm := {|
  envelope_tx := small_tx; SPURIOUS_DRAGON := 4; MERGE := 15; SHANGHAI := 16; PRAGUE := 18;
  SPEC_LONDON := 12; SPEC_CANCUN := 17; Revert := 16; SelfDestruct := 3; status_u8 s := s;
  account_default := small_account; tx_gas_limit_cap _ := u64_max;
  from_recovered_tx e s := (e, s); te_gas_limit e := e.1.2; te_authorization_list _ := [];
  with_authorization_list e _ := e; with_enveloped_tx e _ := e; signed_authorization_list _ := [];
  auth_authority _ := None; auth_with_authority a _ := a; auth_signature _ := None;
  db_basic d a := (d, Ok ((λ i, mkAccountInfo (ai_balance i) (wrap_u64 (ai_nonce i)) (code_hash i) (code i)) <$> d !! a)); transact_commit _ env d := small_commit (env_tx env) d;
  maybe_state_root _ := None; bloom_default := []; accrue b i := b ++ [i];
  log_address l := [l]; log_topics _ := [];
|}.
#[export] Instance small_validator : TransactionValidator :=
  {| validate_pool_transaction_for _ _ _ := Ok tt |}.
(** A hash that determines the header. *)
Definition small_header_hash (h : Header) : Z :=
  Z.pos (encode [h_parent_hash h; h_beneficiary h; h_state_root h; h_transactions_root h;
    h_receipts_root h; Z.pos (encode (h_logs_bloom h : list (list Z))); h_difficulty h; h_number h;
    h_gas_limit h; h_gas_used h; h_timestamp h; h_mix_hash h; Z.pos (encode (h_base_fee_per_gas h));
    Z.pos (encode (h_blob_gas_used h)); Z.pos (encode (h_excess_blob_gas h))]).
#[export] Instance small_hashing : BlockHashing := {|
  calculate_receipt_root l := Z.of_nat (length l); calculate_transaction_root l := Z.of_nat (length l);
  header_hash := small_header_hash |}.
Lemma small_header_hash_inj (h h' : Header) : header_hash h = header_hash h' → h = h'.
Proof.
  unfold header_hash, small_hashing, small_header_hash. destruct h, h'. cbn. intros Heq.
  injection Heq as Heq. apply (inj encode) in Heq.
  simplify_eq.
  repeat match goal with H : encode _ = encode _ |- _ => apply (inj encode) in H end.
  by subst.
Qed.
#[export] Instance small_laws : EvmLaws.
Proof.
  split; intros c [env [[nonce limit] from] op] d d'; cbn; unfold small_commit; case_bool_decide;
    try done. intros r [= <- <-]. cbn. lia.
Qed.

Definition small_ptx (from nonce limit : Z) : PoolTransaction (MaybeImpersonated (Z * Z)) :=
  new_pool_transaction (with_impersonated (nonce, limit) from).
Definition small_env : EvmEnv :=
  mkEvmEnv (mkBlockEnv 1 9 1000 0 None 100000 7 None) (mkCfgEnv 31337 20 false false None).
Definition small_executor pending : TransactionExecutor :=
  mkExecutor ∅ pending small_env 77 0 0 false 0 (mkCheatsState ∅ false ∅).

(** The second transaction is for a later nonce, the third does not fit. *)
Lemma execute_spec_witness :
  ∃ res d, execute (small_executor [small_ptx 1 0 21000; small_ptx 1 5 21000; small_ptx 2 0 90000;
      small_ptx 1 1 30000]) = Some (res, d) ∧
    hash <$> ex_included res = [1; 1001] ∧ hash <$> ex_invalid res = [5001] ∧
    h_gas_used (bi_header (ex_block res)) ≤ 100000.
Proof.
  destruct (execute_spec (small_executor [small_ptx 1 0 21000; small_ptx 1 5 21000; small_ptx 2 0 90000;
      small_ptx 1 1 30000])) as (os & x' & res & Hx & _ & _ & _ & Hblock).
  - done.
  - done.
  - by repeat constructor.
  - done.
  - exists res, (te_db x'). split; [done|].
    destruct Hblock as (_ & _ & _ & _ & _ & _ & _ & _ & Hg & _).
    assert (Hs : Some (res, te_db x') = execute (small_executor [small_ptx 1 0 21000;
      small_ptx 1 5 21000; small_ptx 2 0 90000; small_ptx 1 1 30000])) by done.
    vm_compute in Hs. injection Hs as Hres _. rewrite Hres in *. split_and!; [done..|]. by apply Hg.
Defined.
