(* ===== verification/Backend.v ===== *)
(** * The state of the node's backend: [Backend] of
    anvil/src/eth/backend/mem/mod.rs

    The record of everything a backend keeps (a node that is not forked), its
    getters and setters, the environment of the next block, and the validation
    of pool transactions.  What the node asks of other crates besides the EVM
    is the interface [NodeEnv]. *)
From stdpp Require Import base list gmap.
From Stdlib Require Import ZArith Lia.
From S2P Require Import Prelude Containers PoolTx Fees Time Snapshots StateDb BlockStates.
From S2P Require Import Blockchain Executor.
#[local] Open Scope list_scope.

#[local] Abbreviation B256 := Z (only parsing).
#[local] Abbreviation Bytes := (list Z) (only parsing).

Class NodeEnv (BlobParams : Type) `{EvmTypes} := {
  OSAKA : Z;
  osaka_params : BlobParams;
  prague_params : BlobParams;
  cancun_params : BlobParams;
  max_blob_gas_per_block : BlobParams → Z;
  max_blob_count : BlobParams → nat;
  BLOB_FRACTION_PRAGUE : Z;
  BLOB_FRACTION_CANCUN : Z;
  blob_price : Z → Z → Z;                 (* [BlobExcessGasAndPrice::new] *)
  keccak256 : Bytes → B256;
  is_arbitrum : Z → bool;
  chrono_in_range : Z → bool;             (* [DateTime::from_timestamp] is [Some] *)
  node_insert_block_hash : Db → Z → B256 → Db;
  node_set_storage_at : Db → Address → Z → Z → Db * result DatabaseError unit;
  node_insert_account : Db → Address → AccountInfo Code → Db;
  node_clear : Db → Db;
  node_full_db : Db → option (gmap Address (DbAccount Code bool));
  node_cache_over : Db → Db;              (* [CacheDB::new(&db)] *)
  default_blob : option BlobExcessGasAndPrice;  (* of [BlockEnv::default] *)
  default_tx_env : TxEnv;                 (* of the backend's own environment *)
}.

Record MinedTransaction `{EvmTypes} := mkMinedTransaction {
  mt_info : TransactionInfo;
  mt_receipt : Receipt;
  mt_block_hash : B256;
  mt_block_number : Z;
}.
Arguments mkMinedTransaction {_}.

#[export] Instance block_types `{!EvmTypes, !Evm, !BlockHashing} :
    BlockTypes Header (MaybeImpersonated Envelope) MinedTransaction := {|
  hash_slow := header_hash;
  header_number := h_number;
  block_tx_hash := maybe_hash;
  mined_hash t := ti_hash (mt_info t);
|}.

Record PruneStateHistoryConfig := mkPruneConfig {
  prune_enabled : bool;
  max_memory_history : option nat;
}.
Definition is_state_history_supported (c : PruneStateHistoryConfig) : bool :=
  negb (prune_enabled c) || bool_decide (is_Some (max_memory_history c)).
Definition is_config_enabled (c : PruneStateHistoryConfig) : bool := prune_enabled c.

(** The errors that the modelled operations return. *)
Inductive BlockchainError `{EvmTypes} :=
| BlockNotFound
| DataUnavailable
| BlockOutOfRange (current requested : Z)
| InvalidTransactionErr (e : InvalidTransactionError)
| DatabaseErr (e : DatabaseError)
| PoolErr (e : PoolError (MaybeImpersonated Envelope))
| TimestampErr (e : TimestampError)
| EmptyRawTransactionData
| FailedToDecodeSignedTransaction
| RecoveryError
| RpcInvalidParams
| EIP1559TransactionUnsupportedAtHardfork
| EIP2930TransactionUnsupportedAtHardfork
| EIP4844TransactionUnsupportedAtHardfork
| EIP7702TransactionUnsupportedAtHardfork
| DepositTransactionUnsupported
| Internal.

(** A backend that is not forked; printing, tracing and wallet fields are left
    out, and the environment of calls is [default_tx_env]. *)
Record Backend (Float BaseFeeParams BlobParams Snap : Type) `{EvmTypes} := mkBackend {
  bk_time : TimeManager;
  bk_fees : FeeManager Float BaseFeeParams BlobParams;
  bk_env : EvmEnv;
  bk_is_optimism : bool;
  bk_storage : BlockchainStorage Header (MaybeImpersonated Envelope) MinedTransaction;
  bk_states : InMemoryBlockStates Db Snap;
  bk_db : MemDb Db;
  bk_active_snapshots : gmap Z (Z * B256);
  bk_cheats : CheatsState;
  bk_transaction_block_keeper : option nat;
  bk_prune : PruneStateHistoryConfig;
  bk_disable_pool_balance_checks : bool;
  bk_slots_in_an_epoch : Z;
}.
Arguments mkBackend {_ _ _ _ _}.
Arguments bk_time {_ _ _ _ _}.
Arguments bk_fees {_ _ _ _ _}.
Arguments bk_env {_ _ _ _ _}.
Arguments bk_is_optimism {_ _ _ _ _}.
Arguments bk_storage {_ _ _ _ _}.
Arguments bk_states {_ _ _ _ _}.
Arguments bk_db {_ _ _ _ _}.
Arguments bk_active_snapshots {_ _ _ _ _}.
Arguments bk_cheats {_ _ _ _ _}.
Arguments bk_transaction_block_keeper {_ _ _ _ _}.
Arguments bk_prune {_ _ _ _ _}.
Arguments bk_disable_pool_balance_checks {_ _ _ _ _}.
Arguments bk_slots_in_an_epoch {_ _ _ _ _}.

(** Updates of the fields that the operations change. *)
Section setters.
Context {Float BaseFeeParams BlobParams Snap : Type} `{!EvmTypes}.
#[local] Abbreviation Node := (Backend Float BaseFeeParams BlobParams Snap).
Implicit Types b : Node.
Definition with_time b t : Node := mkBackend t (bk_fees b) (bk_env b) (bk_is_optimism b)
  (bk_storage b) (bk_states b) (bk_db b) (bk_active_snapshots b) (bk_cheats b)
  (bk_transaction_block_keeper b) (bk_prune b) (bk_disable_pool_balance_checks b) (bk_slots_in_an_epoch b).
Definition with_fees b f : Node := mkBackend (bk_time b) f (bk_env b) (bk_is_optimism b)
  (bk_storage b) (bk_states b) (bk_db b) (bk_active_snapshots b) (bk_cheats b)
  (bk_transaction_block_keeper b) (bk_prune b) (bk_disable_pool_balance_checks b) (bk_slots_in_an_epoch b).
Definition with_env b e : Node := mkBackend (bk_time b) (bk_fees b) e (bk_is_optimism b)
  (bk_storage b) (bk_states b) (bk_db b) (bk_active_snapshots b) (bk_cheats b)
  (bk_transaction_block_keeper b) (bk_prune b) (bk_disable_pool_balance_checks b) (bk_slots_in_an_epoch b).
Definition with_storage b s : Node := mkBackend (bk_time b) (bk_fees b) (bk_env b) (bk_is_optimism b)
  s (bk_states b) (bk_db b) (bk_active_snapshots b) (bk_cheats b)
  (bk_transaction_block_keeper b) (bk_prune b) (bk_disable_pool_balance_checks b) (bk_slots_in_an_epoch b).
Definition with_states b s : Node := mkBackend (bk_time b) (bk_fees b) (bk_env b) (bk_is_optimism b)
  (bk_storage b) s (bk_db b) (bk_active_snapshots b) (bk_cheats b)
  (bk_transaction_block_keeper b) (bk_prune b) (bk_disable_pool_balance_checks b) (bk_slots_in_an_epoch b).
Definition with_db b d : Node := mkBackend (bk_time b) (bk_fees b) (bk_env b) (bk_is_optimism b)
  (bk_storage b) (bk_states b) d (bk_active_snapshots b) (bk_cheats b)
  (bk_transaction_block_keeper b) (bk_prune b) (bk_disable_pool_balance_checks b) (bk_slots_in_an_epoch b).
Definition with_snapshots b m : Node := mkBackend (bk_time b) (bk_fees b) (bk_env b) (bk_is_optimism b)
  (bk_storage b) (bk_states b) (bk_db b) m (bk_cheats b)
  (bk_transaction_block_keeper b) (bk_prune b) (bk_disable_pool_balance_checks b) (bk_slots_in_an_epoch b).
Definition with_cheats b c : Node := mkBackend (bk_time b) (bk_fees b) (bk_env b) (bk_is_optimism b)
  (bk_storage b) (bk_states b) (bk_db b) (bk_active_snapshots b) c
  (bk_transaction_block_keeper b) (bk_prune b) (bk_disable_pool_balance_checks b) (bk_slots_in_an_epoch b).
End setters.

(** Updates of environments. *)
Definition be_with_number (e : BlockEnv) (n : Z) : BlockEnv :=
  mkBlockEnv n (be_beneficiary e) (be_timestamp e) (be_difficulty e) (be_prevrandao e)
    (be_gas_limit e) (be_basefee e) (be_blob_excess_gas_and_price e).
Definition be_with_gas_limit (e : BlockEnv) (g : Z) : BlockEnv :=
  mkBlockEnv (be_number e) (be_beneficiary e) (be_timestamp e) (be_difficulty e) (be_prevrandao e)
    g (be_basefee e) (be_blob_excess_gas_and_price e).
Definition be_with_coinbase (e : BlockEnv) (a : Address) : BlockEnv :=
  mkBlockEnv (be_number e) a (be_timestamp e) (be_difficulty e) (be_prevrandao e)
    (be_gas_limit e) (be_basefee e) (be_blob_excess_gas_and_price e).

Section backend.
Context {Float BaseFeeParams BlobParams Snap : Type}.
Context `{!FeeRules Float BaseFeeParams BlobParams, !EvmTypes, !Evm, !BlockHashing, !NodeEnv BlobParams}.
#[local] Abbreviation Node := (Backend Float BaseFeeParams BlobParams Snap).
#[local] Abbreviation NodeTx := (MaybeImpersonated Envelope) (only parsing).
Implicit Types b : Node.

Definition bk_best_hash b : B256 := best_hash (bk_storage b).
Definition bk_best_number b : Z := best_number (bk_storage b).
Definition bk_coinbase b : Address := be_beneficiary (block_env (bk_env b)).
Definition bk_chain_id b : Z := cfg_chain_id (cfg_env (bk_env b)).
Definition bk_gas_limit b : Z := be_gas_limit (block_env (bk_env b)).
Definition bk_base_fee b : Z := base_fee (bk_fees b).
Definition bk_excess_blob_gas_and_price b := excess_blob_gas_and_price (bk_fees b).
Definition bk_is_eip3675 b : bool := bool_decide (MERGE ≤ cfg_spec (cfg_env (bk_env b))).
Definition set_block_number b (n : Z) : Node :=
  with_env b (mkEvmEnv (be_with_number (block_env (bk_env b)) n) (cfg_env (bk_env b))).
Definition set_gas_limit b (g : Z) : Node :=
  with_env b (mkEvmEnv (be_with_gas_limit (block_env (bk_env b)) g) (cfg_env (bk_env b))).
Definition set_coinbase b (a : Address) : Node :=
  with_env b (mkEvmEnv (be_with_coinbase (block_env (bk_env b)) a) (cfg_env (bk_env b))).
Definition bk_set_base_fee b (fee : Z) : Node := with_fees b (set_base_fee (bk_fees b) fee).
Definition bk_impersonate b (a : Address) : Node * bool :=
  let '(c, res) := impersonate (bk_cheats b) a in (with_cheats b c, res).
Definition bk_stop_impersonating b (a : Address) : Node :=
  with_cheats b (stop_impersonating (bk_cheats b) a).
Definition bk_auto_impersonate b (enabled : bool) : Node :=
  with_cheats b (set_auto_impersonate_account (bk_cheats b) enabled).

Definition blob_params b : BlobParams :=
  let spec := cfg_spec (cfg_env (bk_env b)) in
  if bool_decide (OSAKA ≤ spec) then osaka_params
  else if bool_decide (PRAGUE ≤ spec) then prague_params
  else cancun_params.
Definition skip_blob_validation b (impersonator : option Address) : bool :=
  auto_impersonate_accounts (bk_cheats b) ||
  match impersonator with
  | Some a => bool_decide (a ∈ impersonated_accounts (bk_cheats b))
  | None => false
  end.
Definition get_blob_base_fee_update_fraction_by_spec_id (spec : Z) : Z :=
  if bool_decide (PRAGUE ≤ spec) then BLOB_FRACTION_PRAGUE else BLOB_FRACTION_CANCUN.

(** The environment of the next block, for calls and validation. *)
Definition next_env b (now : Z) : option EvmEnv :=
  ts ← current_call_timestamp (bk_time b) now;
  let e := block_env (bk_env b) in
  Some (mkEvmEnv
    (mkBlockEnv (saturating_add u256_max (be_number e) 1) (be_beneficiary e) ts (be_difficulty e)
       (be_prevrandao e) (be_gas_limit e) (bk_base_fee b) (bk_excess_blob_gas_and_price b))
    (cfg_env (bk_env b))).
End backend.
