(* ===== verification/SampleNode.v ===== *)
(** * A small node, for evaluation

    A backend over the small EVM of [ExecutorProofs]: its genesis block is
    block 0, the fees follow simple rules. *)
From stdpp Require Import base list gmap.
From Stdlib Require Import ZArith Lia.
From S2P Require Import Prelude Containers PoolTx Fees Time Snapshots StateDb BlockStates.
From S2P Require Import Blockchain Executor ExecutorProofs Backend.

#[export] Instance small_fee_rules : FeeRules unit unit unit := {|
  LONDON := 12; CANCUN := 17; elasticity_multiplier _ := 2;
  calc_next_block_base_fee used limit fee _ := fee + used / 1000;
  calc_blob_fee _ excess := 1 + excess;
  next_block_excess_blob_gas_osaka _ excess used _ := excess + used / 3;
  float_div _ _ := tt; MAX_BLOBS_PER_BLOCK_ELECTRA := 9;
|}.
#[export] Instance small_node_env : NodeEnv unit := {|
  OSAKA := 19; osaka_params := tt; prague_params := tt; cancun_params := tt;
  max_blob_gas_per_block _ := 786432; max_blob_count _ := 6%nat;
  BLOB_FRACTION_PRAGUE := 5007716; BLOB_FRACTION_CANCUN := 3338477;
  blob_price excess fraction := 1 + excess / fraction; keccak256 l := 0; is_arbitrum _ := false;
  chrono_in_range ts := bool_decide (0 ≤ ts ≤ 8210266876799);
  node_insert_block_hash d _ _ := d; node_set_storage_at d _ _ _ := (d, Ok tt);
  node_insert_account d a i := <[a := i]> d; node_clear _ := ∅;
  node_full_db d := Some ((λ i, mkDbAccount i true ∅) <$> d); node_cache_over d := d;
  default_blob := Some (mkBlobExcessGasAndPrice 0 1); default_tx_env := (0, 0, 0);
|}.
#[export] Instance small_full_db : FullDatabase (gmap Z (AccountInfo unit)) (gmap Z (AccountInfo unit)) := {|
  clear_into d := (∅, d); read_as d := d; init_from _ s := s; new_db := ∅;
|}.
#[export] Instance small_order : HashOrder Z := elements_order Z.

Definition small_genesis : Block Header (MaybeImpersonated (Z * Z)) :=
  mkBlock (mkHeader 0 9 0 0 0 [] 0 0 100000 0 1000 0 (Some 7) None None) [].
Definition small_backend : Backend unit unit unit (gmap Z (AccountInfo unit)) :=
  mkBackend (time_new 1000 1000)
    (fee_manager_new 20 7 false 7 (mkBlobExcessGasAndPrice 0 1) tt tt)
    (mkEvmEnv (mkBlockEnv 0 9 1000 0 (Some 0) 100000 7 None) (mkCfgEnv 31337 20 false false None))
    false (storage_new small_genesis 0)
    (states_new (mkDiskStateCache None [] true) 10 0) (mkMemDb ∅ snapshots_default) ∅
    (mkCheatsState ∅ false ∅) None (mkPruneConfig false None) false 32.
