(* ===== verification/Validation.v ===== *)
(** * Validation of transactions: [TransactionValidator for Backend] in
    anvil/src/eth/backend/mem/mod.rs

    The checks of a transaction against an account and an environment, in the
    order of the code.  The blob product is a plain [u128] product, which
    wraps in a release build. *)
From stdpp Require Import base list gmap.
From Stdlib Require Import ZArith Lia.
From S2P Require Import Prelude Containers PoolTx Fees Time Snapshots StateDb BlockStates.
From S2P Require Import Blockchain Executor ExecutorProofs Backend SampleNode.

Definition MIN_TRANSACTION_GAS : Z := 21000.

Section validation.
Context {Float BaseFeeParams BlobParams Snap : Type}.
Context `{!FeeRules Float BaseFeeParams BlobParams, !EvmTypes, !Evm, !NodeEnv BlobParams}.
#[local] Abbreviation Node := (Backend Float BaseFeeParams BlobParams Snap).
#[local] Abbreviation NodeTx := (MaybeImpersonated Envelope) (only parsing).
Implicit Types (b : Node) (e : Envelope) (env : TxContext) (a : AccountInfo Code).
#[local] Abbreviation verdict := (result InvalidTransactionError unit).

Definition tx_spec env : Z := cfg_spec (cfg_env (evm_env env)).
Definition tx_block env : BlockEnv := block_env (evm_env env).

(** A transaction for another chain: the branch of a legacy transaction looks
    again for a chain id that is known to be there. *)
Definition check_chain_id b e env : verdict :=
  match tx_chain_id e with
  | Some tx_chain =>
      if bool_decide (bk_chain_id b = tx_chain) then Ok tt
      else match tx_kind e with
           | Legacy =>
               if bool_decide (SPURIOUS_DRAGON ≤ tx_spec env) && bool_decide (tx_chain_id e = None)
               then Err IncompatibleEIP155 else Ok tt
           | _ => Err InvalidChainId
           end
  | None => Ok tt
  end.

Definition is_deposit e : bool := bool_decide (tx_kind e = Deposit).
Definition is_eip4844_tx e : bool := bool_decide (tx_kind e = Eip4844).

Definition check_nonce e a : verdict :=
  ensure (negb (bool_decide (tx_nonce e < ai_nonce a) && negb (is_deposit e))) NonceTooLow.

Definition check_blobs b e env (s : Address) : verdict :=
  if bool_decide (SPEC_CANCUN ≤ tx_spec env) && is_eip4844_tx e then
    let blob_count := tx_blob_count e in
    _ ← ensure (negb (bool_decide (blob_count = O))) NoBlobHashes;
    _ ← ensure (negb (bool_decide (max_blob_count (blob_params b) < blob_count)%nat))
          (TooManyBlobs blob_count (max_blob_count (blob_params b)));
    if skip_blob_validation b (Some s) then Ok tt
    else ensure (tx_blobs_valid e) BlobTransactionValidationError
  else Ok tt.

Definition check_gas e env : verdict :=
  _ ← ensure (negb (bool_decide (tx_gas_limit e < MIN_TRANSACTION_GAS))) GasTooLow;
  let cfg := cfg_env (evm_env env) in
  _ ← ensure (negb (negb (disable_block_gas_limit cfg) &&
                    bool_decide (be_gas_limit (tx_block env) < tx_gas_limit e))) GasTooHigh;
  ensure (negb (bool_decide (cfg_tx_gas_limit_cap cfg = None) &&
                bool_decide (tx_gas_limit_cap cfg < tx_gas_limit e))) GasTooHigh.

Definition check_fees e env : verdict :=
  if bool_decide (SPEC_LONDON ≤ tx_spec env) then
    _ ← ensure (negb (bool_decide (tx_max_fee e < be_basefee (tx_block env)) && negb (is_deposit e)))
          FeeCapTooLow;
    match tx_max_priority_fee e with
    | Some tip => ensure (negb (bool_decide (tx_max_fee e < tip))) TipAboveFeeCap
    | None => Ok tt
    end
  else Ok tt.

Definition check_blob_fee e env : verdict :=
  if bool_decide (SPEC_CANCUN ≤ tx_spec env) && is_eip4844_tx e then
    match tx_max_fee_per_blob_gas e, be_blob_excess_gas_and_price (tx_block env) with
    | Some max_fee, Some blob =>
        ensure (negb (bool_decide (max_fee < blob_gasprice blob)))
          (BlobFeeCapTooLow max_fee (blob_gasprice blob))
    | _, _ => Ok tt
    end
  else Ok tt.

Definition max_cost e : Z :=
  saturating_add u128_max (Z.min u128_max (tx_gas_limit e * tx_max_fee e))
    (wrap_u128 (default 0 (tx_blob_gas_used e) * default 0 (tx_max_fee_per_blob_gas e))).

Definition check_funds e a : verdict :=
  let value := tx_value e in
  if is_deposit e then
    ensure (negb (bool_decide (wrap_u256 (ai_balance a + tx_mint e) < value))) InsufficientFunds
  else
    match checked u128_max (max_cost e + Z.min u128_max value) with
    | Some req_funds => ensure (negb (bool_decide (ai_balance a < req_funds))) InsufficientFunds
    | None => Err InsufficientFunds
    end.

(** [validate_pool_transaction_for]. *)
Definition validate_pool_for b (t : PendingTransaction NodeTx) a env : verdict :=
  let e := envelope (transaction t) in
  _ ← check_chain_id b e env;
  _ ← check_nonce e a;
  _ ← check_blobs b e env (sender t);
  if bk_disable_pool_balance_checks b then Ok tt else
  _ ← check_gas e env;
  _ ← check_fees e env;
  _ ← check_blob_fee e env;
  check_funds e a.

(** [validate_for]: ready to be executed. *)
Definition validate_for b (t : PendingTransaction NodeTx) a env : verdict :=
  _ ← validate_pool_for b t a env;
  ensure (negb (bool_decide (ai_nonce a < tx_nonce (envelope (transaction t))))) NonceTooHigh.

(** The backend as the validator of its executor. *)
Definition backend_validator b : TransactionValidator :=
  {| validate_pool_transaction_for t a env := validate_pool_for b t a env |}.

(** [validate_pool_transaction]: against the account and the next block. *)
Definition validate_pool_transaction b (t : PendingTransaction NodeTx) (now : Z)
    : option (result BlockchainError unit) :=
  match (db_basic (inner (bk_db b)) (sender t)).2 with
  | Err err => Some (Err (DatabaseErr err))
  | Ok acc =>
      env ← next_env b now;
      Some (match validate_pool_for b t (default account_default acc)
                    (mkEnv env default_tx_env (bk_is_optimism b)) with
            | Ok _ => Ok tt
            | Err err => Err (InvalidTransactionErr err)
            end)
  end.

(** ** What validation accepts *)
Lemma ensure_negb {E} (c : bool) (err : E) u : ensure (negb c) err = Ok u ↔ c = false.
Proof. by destruct c, u. Qed.

Definition pays e (price : Z) : Z := tx_gas_limit e * price + tx_value e.
(** The amounts have the types of their fields, and the cost fits. *)
Definition amounts_ok e : Prop :=
  in_u64 (tx_gas_limit e) ∧ in_u128 (tx_max_fee e) ∧ in_u256 (tx_value e) ∧
  pays e (tx_max_fee e) ≤ u128_max.
(** Neither blobs nor a deposit. *)
Definition plain_tx e : Prop :=
  tx_kind e ≠ Deposit ∧ tx_kind e ≠ Eip4844 ∧ tx_blob_gas_used e = None.

Lemma max_cost_plain e :
  plain_tx e → amounts_ok e → max_cost e = tx_gas_limit e * tx_max_fee e.
Proof.
  intros (_ & _ & Hb) (Hg & Hf & Hv & Hp). unfold max_cost. rewrite Hb. cbn.
  unfold wrap_u128, saturating_add, pays, in_u64, in_u128, in_u256, u128_max in *.
  rewrite Zmod_0_l. nia.
Qed.

Lemma check_funds_plain e a :
  plain_tx e → amounts_ok e →
  check_funds e a = Ok tt ↔ pays e (tx_max_fee e) ≤ ai_balance a.
Proof.
  intros Hpl Ham. pose proof (max_cost_plain e Hpl Ham) as Hc. destruct Hpl as (Hd & _ & _).
  destruct Ham as (Hg & Hf & Hv & Hp). unfold check_funds, is_deposit.
  unfold in_u64, in_u128, in_u256, pays, u128_max in *.
  rewrite bool_decide_false by done. rewrite Hc.
  assert (0 ≤ tx_gas_limit e * tx_max_fee e) by nia.
  rewrite checked_in by (unfold u128_max; lia). rewrite ensure_negb, bool_decide_eq_false.
  unfold u128_max. lia.
Qed.

Lemma bind_unit {E} (r : result E unit) (k : result E unit) :
  (_ ← r; k) = Ok tt ↔ r = Ok tt ∧ k = Ok tt.
Proof. destruct r as [[]|?]; naive_solver. Qed.

Lemma check_chain_id_Ok b e env :
  check_chain_id b e env = Ok tt ↔
    (∀ id, tx_chain_id e = Some id → id = bk_chain_id b ∨ tx_kind e = Legacy).
Proof.
  unfold check_chain_id. destruct (tx_chain_id e) as [id|]; [|naive_solver].
  case_bool_decide as Hc; [naive_solver|].
  rewrite (bool_decide_false (Some id = None)) by done. rewrite andb_false_r.
  destruct (tx_kind e); naive_solver.
Qed.

Lemma check_nonce_Ok e a : plain_tx e → check_nonce e a = Ok tt ↔ ai_nonce a ≤ tx_nonce e.
Proof.
  intros (Hd & _). unfold check_nonce, is_deposit. rewrite (bool_decide_false (tx_kind e = Deposit)) by done.
  rewrite andb_true_r, ensure_negb, bool_decide_eq_false. lia.
Qed.

Lemma check_gas_Ok e env :
  check_gas e env = Ok tt ↔ MIN_TRANSACTION_GAS ≤ tx_gas_limit e ∧
    (disable_block_gas_limit (cfg_env (evm_env env)) = false →
       tx_gas_limit e ≤ be_gas_limit (tx_block env)) ∧
    (cfg_tx_gas_limit_cap (cfg_env (evm_env env)) = None →
       tx_gas_limit e ≤ tx_gas_limit_cap (cfg_env (evm_env env))).
Proof.
  unfold check_gas. rewrite !bind_unit, !ensure_negb, !andb_false_iff, !bool_decide_eq_false,
    negb_false_iff, !Z.nlt_ge.
  destruct (disable_block_gas_limit _), (cfg_tx_gas_limit_cap _); intuition (done || congruence).
Qed.

Lemma check_fees_Ok e env : plain_tx e →
  check_fees e env = Ok tt ↔ (SPEC_LONDON ≤ tx_spec env →
    be_basefee (tx_block env) ≤ tx_max_fee e ∧
    ∀ tip, tx_max_priority_fee e = Some tip → tip ≤ tx_max_fee e).
Proof.
  intros (Hd & _). unfold check_fees, is_deposit. case_bool_decide as Hl; [|naive_solver].
  rewrite bind_unit, ensure_negb, (bool_decide_false (tx_kind e = Deposit)) by done. rewrite andb_true_r.
  rewrite bool_decide_eq_false, Z.nlt_ge.
  destruct (tx_max_priority_fee e) as [tip|]; [|naive_solver].
  rewrite ensure_negb, bool_decide_eq_false, Z.nlt_ge. naive_solver.
Qed.

(** C23: while the pool's balance checks are enabled, a transaction without
    blobs that is no deposit and whose cost fits in 128 bits is accepted into
    the pool exactly when its chain id is the node's (or it is a legacy
    transaction: their chain id is not looked at), its nonce is not used up,
    its gas limit is between the minimum and the limits of the block (unless
    that limit is disabled) and of the fork (unless another cap is
    configured), from London on its fee cap covers the base fee and the tip,
    and the sender can pay for the gas at the fee cap and the value. *)
Theorem validate_pool_spec b (t : PendingTransaction NodeTx) a env :
  let e := envelope (transaction t) in
  plain_tx e → amounts_ok e → bk_disable_pool_balance_checks b = false →
  validate_pool_for b t a env = Ok tt ↔
    (∀ id, tx_chain_id e = Some id → id = bk_chain_id b ∨ tx_kind e = Legacy) ∧
    ai_nonce a ≤ tx_nonce e ∧
    MIN_TRANSACTION_GAS ≤ tx_gas_limit e ∧
    (disable_block_gas_limit (cfg_env (evm_env env)) = false →
       tx_gas_limit e ≤ be_gas_limit (tx_block env)) ∧
    (cfg_tx_gas_limit_cap (cfg_env (evm_env env)) = None →
       tx_gas_limit e ≤ tx_gas_limit_cap (cfg_env (evm_env env))) ∧
    (SPEC_LONDON ≤ tx_spec env →
       be_basefee (tx_block env) ≤ tx_max_fee e ∧
       ∀ tip, tx_max_priority_fee e = Some tip → tip ≤ tx_max_fee e) ∧
    pays e (tx_max_fee e) ≤ ai_balance a.
Proof.
  intros e Hpl Ham Hen. unfold validate_pool_for. fold e. rewrite Hen.
  assert (is_eip4844_tx e = false) as H4844 by (apply bool_decide_eq_false; apply Hpl).
  unfold check_blobs, check_blob_fee. rewrite H4844, !andb_false_r.
  rewrite !bind_unit, check_chain_id_Ok, check_nonce_Ok, check_gas_Ok, check_fees_Ok,
    check_funds_plain by done. tauto.
Qed.
End validation.

Lemma validate_pool_spec_witness :
  validate_pool_for small_backend (with_impersonated (0, 21000) 1) (mkAccountInfo 210000 0 0 None)
    (mkEnv (bk_env small_backend) default_tx_env false) = Ok tt.
Proof.
  refine (proj2 (validate_pool_spec small_backend (with_impersonated (0, 21000) 1)
    (mkAccountInfo 210000 0 0 None) (mkEnv (bk_env small_backend) default_tx_env false) _ _ _) _).
  - done.
  - by vm_compute.
  - done.
  - split_and!; try done; [by intros id [= <-]; left|].
    intros _. split; [done|]. by intros tip [= <-].
Defined.
