(* ===== verification/Mining.v ===== *)
(** * Block production: [do_mine_block], snapshots, rollback and reorg of
    [Backend] (anvil/src/eth/backend/mem/mod.rs)

    The operations that extend and rewind the chain.  [now] is the system
    clock that the time manager reads; [None] is a panic.  An operation that
    can fail returns the backend with the changes made so far. *)
From stdpp Require Import base list gmap.
From Stdlib Require Import ZArith Lia.
From S2P Require Import Prelude Containers PoolTx Pool Fees Time Snapshots StateDb BlockStates.
From S2P Require Import Blockchain Executor Backend Validation.
#[local] Open Scope list_scope.

#[local] Abbreviation B256 := Z (only parsing).

Section mining.
Context {Float BaseFeeParams BlobParams Snap : Type}.
Context `{!FeeRules Float BaseFeeParams BlobParams, !EvmTypes, !Evm, !BlockHashing, !NodeEnv BlobParams}.
Context `{!FullDatabase Db Snap, !HashOrder Address}.
#[local] Abbreviation Node := (Backend Float BaseFeeParams BlobParams Snap).
#[local] Abbreviation NodeTx := (MaybeImpersonated Envelope) (only parsing).
#[local] Abbreviation Storage := (BlockchainStorage Header (MaybeImpersonated Envelope) MinedTransaction).
Implicit Types b : Node.

(** The environment that a block is mined in, but for its timestamp. *)
Definition mining_env b : EvmEnv :=
  let e := block_env (bk_env b) in
  let cfg := cfg_env (bk_env b) in
  let block_number := saturating_add u64_max (bk_best_number b) 1 in
  mkEvmEnv
    (mkBlockEnv
       (if is_arbitrum (cfg_chain_id cfg) then block_number
        else saturating_add u256_max (be_number e) 1)
       (be_beneficiary e) (be_timestamp e) (be_difficulty e)
       (Some (keccak256 (be_bytes 32 (bk_best_hash b) ++ le_bytes 8 block_number)))
       (be_gas_limit e) (bk_base_fee b) (bk_excess_blob_gas_and_price b))
    (mkCfgEnv (cfg_chain_id cfg) (cfg_spec cfg) (disable_block_gas_limit cfg)
       (disable_base_fee cfg || bool_decide (be_basefee e = 0)) (cfg_tx_gas_limit_cap cfg)).

Definition env_at (env : EvmEnv) (ts : Z) : EvmEnv :=
  let e := block_env env in
  mkEvmEnv (mkBlockEnv (be_number e) (be_beneficiary e) ts (be_difficulty e) (be_prevrandao e)
              (be_gas_limit e) (be_basefee e) (be_blob_excess_gas_and_price e)) (cfg_env env).

Definition executor_for b (d : Db) (env : EvmEnv) (txs : list (PoolTransaction NodeTx)) :
    TransactionExecutor :=
  mkExecutor d txs env (bk_best_hash b) 0 0 (bk_is_optimism b)
    (max_blob_gas_per_block (blob_params b)) (bk_cheats b).

Definition db_insert_block_hash (d : MemDb Db) (n : Z) (h : B256) : MemDb Db :=
  mkMemDb (node_insert_block_hash (inner d) n h) (db_snapshots d).

Definition insert_mined (h : B256) (n : Z) (m : gmap B256 MinedTransaction)
    (p : TransactionInfo * Receipt) : gmap B256 MinedTransaction :=
  <[ti_hash p.1 := mkMinedTransaction p.1 p.2 h n]> m.

(** The storage with the new block [n] of hash [h]. *)
Definition store_block b (s : Storage) (n : Z) (h : B256) (block : BlockInfo) : Storage :=
  mkBlockchainStorage
    (<[h := mkBlock (bi_header block) (bi_body block)]> (blocks s)) (<[n := h]> (hashes s)) h n
    (genesis_hash s)
    (foldl (insert_mined h n) (transactions s) (zip (bi_transactions block) (bi_receipts block)))
    (if bk_is_eip3675 b then total_difficulty s
     else saturating_add u256_max (total_difficulty s) (h_difficulty (bi_header block))).

(** Old transactions beyond the limit of the node are dropped. *)
Definition keep_transactions b (s : Storage) (n : Z) : Storage :=
  match bk_transaction_block_keeper b with
  | Some keep =>
      if bool_decide (keep < blocks_count s)%nat
      then remove_block_transactions_by_number s (saturating_sub n (Z.of_nat keep))
      else s
  | None => s
  end.

(** The fees of the block after [h].  The two arguments of
    [get_next_block_blob_excess_gas] are in the order of the call. *)
Definition fees_after b (spec : Z) (h : Header) : FeeManager Float BaseFeeParams BlobParams :=
  let f := bk_fees b in
  let next_fee := get_next_block_base_fee_per_gas f (h_gas_used h) (h_gas_limit h)
                    (default 0 (h_base_fee_per_gas h)) in
  let next_excess := get_next_block_blob_excess_gas f (default 0 (h_excess_blob_gas h))
                       (default 0 (h_blob_gas_used h)) in
  set_blob_excess_gas_and_price (set_base_fee f next_fee)
    (mkBlobExcessGasAndPrice next_excess
       (blob_price next_excess (get_blob_base_fee_update_fraction_by_spec_id spec))).

Definition no_difficulty (env : EvmEnv) : EvmEnv :=
  let e := block_env env in
  mkEvmEnv (mkBlockEnv (be_number e) (be_beneficiary e) (be_timestamp e) 0 (be_prevrandao e)
              (be_gas_limit e) (be_basefee e) (be_blob_excess_gas_and_price e)) (cfg_env env).

Definition do_mine_block b (now : Z) (txs : list (PoolTransaction NodeTx))
    : option (MinedBlockOutcome NodeTx * Node) :=
  let block_number := saturating_add u64_max (bk_best_number b) 1 in
  states ← (if is_state_history_supported (bk_prune b)
            then states_insert (bk_states b) (bk_best_hash b) (inner (bk_db b))
            else Some (bk_states b));
  '(time, ts) ← next_timestamp (bk_time b) now;
  let env := env_at (mining_env b) ts in
  '(executed, d) ← @execute _ _ (backend_validator b) _ (executor_for b (inner (bk_db b)) env txs);
  let block := ex_block executed in
  let block_hash := header_hash (bi_header block) in
  let db := db_insert_block_hash (mkMemDb d (db_snapshots (bk_db b))) (h_number (bi_header block))
              block_hash in
  let s := store_block b (bk_storage b) block_number block_hash block in
  let s := keep_transactions b s block_number in
  let env := no_difficulty env in
  if negb (chrono_in_range (h_timestamp (bi_header block))) then None else
  let fees := fees_after b (cfg_spec (cfg_env env)) (bi_header block) in
  Some (mkMinedBlockOutcome block_number (ex_included executed) (ex_invalid executed),
        mkBackend time fees env (bk_is_optimism b) s states db (bk_active_snapshots b)
          (bk_cheats b) (bk_transaction_block_keeper b) (bk_prune b)
          (bk_disable_pool_balance_checks b) (bk_slots_in_an_epoch b)).

(** The pending block: the pool transactions executed on a copy. *)
Definition pending_block b (now : Z) (txs : list (PoolTransaction NodeTx))
    : option (BlockInfo * Db) :=
  env ← next_env b now;
  '(executed, d) ← @execute _ _ (backend_validator b) _
                     (executor_for b (node_cache_over (inner (bk_db b))) env txs);
  Some (ex_block executed, d).

(** ** Snapshots *)
Definition create_state_snapshot b : Node * Z :=
  let '(d, id) := snapshot_state (bk_db b) in
  (with_snapshots (with_db b d) (<[id := (bk_best_number b, bk_best_hash b)]> (bk_active_snapshots b)),
   id).

(** One block above the snapshot's. *)
Definition revert_block (s : Storage) (n : Z) : Storage :=
  match hashes s !! n with
  | Some h =>
      match blocks s !! h with
      | Some block =>
          mkBlockchainStorage (delete h (blocks s)) (delete n (hashes s)) (best_hash s)
            (best_number s) (genesis_hash s)
            (foldl (λ m tx, delete (maybe_hash tx) m) (transactions s) (body_transactions block))
            (total_difficulty s)
      | None =>
          mkBlockchainStorage (delete h (blocks s)) (delete n (hashes s)) (best_hash s)
            (best_number s) (genesis_hash s) (transactions s) (total_difficulty s)
      end
  | None => s
  end.

Definition revert_blocks (s : Storage) (num : Z) (hash : B256) : option Storage :=
  first ← checked u64_max (num + 1);
  let s := foldl revert_block s (reverse (seqZ first (best_number s - num))) in
  Some (mkBlockchainStorage (blocks s) (hashes s) hash num (genesis_hash s) (transactions s)
          (total_difficulty s)).

Definition reverted_env b (num : Z) (h : Header) : EvmEnv :=
  let e := block_env (bk_env b) in
  mkEvmEnv (mkBlockEnv num (be_beneficiary e) (h_timestamp h) (h_difficulty h)
              (Some (h_mix_hash h)) (h_gas_limit h) (be_basefee e) default_blob)
    (cfg_env (bk_env b)).

Definition revert_state_snapshot b (now id : Z) : option (Node * result BlockchainError bool) :=
  let entry := bk_active_snapshots b !! id in
  let b := with_snapshots b (delete id (bk_active_snapshots b)) in
  let finish b :=
    '(d, res) ← revert_state (bk_db b) id RevertRemove;
    Some (with_db b d, Ok res) in
  match entry with
  | None => finish b
  | Some (num, hash) =>
      s ← revert_blocks (bk_storage b) num hash;
      let b := with_storage b s in
      match get_block_by_hash s hash with
      | None => Some (b, Err BlockNotFound)
      | Some block =>
          let h := header block in
          finish (with_env (with_time b (reset (bk_time b) now (h_timestamp h))) (reverted_env b num h))
      end
  end.

(** ** Rollback and reorg *)
(** The state that the historical states have for a block. *)
Definition common_state b (hash : B256)
    : InMemoryBlockStates Db Snap * result BlockchainError (gmap Address (DbAccount Code bool)) :=
  let as_full d := match node_full_db d with Some m => Ok m | None => Err DataUnavailable end in
  match get_state (bk_states b) hash with
  | Some d => (bk_states b, as_full d)
  | None =>
      let '(states, d) := get_on_disk_state (bk_states b) hash in
      (states, match d with Some d => as_full d | None => Err DataUnavailable end)
  end.

Definition restore_slot (addr : Address) (st : Db * result DatabaseError unit) (kv : Z * Z) :=
  match st.2 with
  | Ok _ => node_set_storage_at st.1 addr kv.1 kv.2
  | Err _ => st
  end.
Definition restore_account (st : Db * result DatabaseError unit) (a : Address * DbAccount Code bool) :=
  match st.2 with
  | Ok _ =>
      let st := foldl (restore_slot a.1) st (iter_map (StateDb.storage a.2)) in
      match st.2 with
      | Ok _ => (node_insert_account st.1 a.1 (StateDb.info a.2), Ok tt)
      | Err _ => st
      end
  | Err _ => st
  end.

Definition rollback b (now : Z) (common : Block Header NodeTx)
    : option (Node * result BlockchainError unit) :=
  let h := header common in
  let '(states, state) := common_state b (header_hash h) in
  let b := with_states b states in
  match state with
  | Err e => Some (b, Err e)
  | Ok accounts =>
      let '(d, res) := foldl restore_account (node_clear (inner (bk_db b)), Ok tt) (iter_map accounts) in
      let b := with_db b (mkMemDb d (db_snapshots (bk_db b))) in
      match res with
      | Err e => Some (b, Err (DatabaseErr e))
      | Ok _ =>
          '(s, _) ← unwind_to (bk_storage b) (h_number h) (header_hash h);
          let e := block_env (bk_env b) in
          let env := mkEvmEnv (mkBlockEnv (h_number h) (be_beneficiary e) (h_timestamp h)
                       (h_difficulty h) (Some (h_mix_hash h)) (h_gas_limit h) (be_basefee e)
                       (be_blob_excess_gas_and_price e)) (cfg_env (bk_env b)) in
          Some (with_time (with_env (with_storage b s) env)
                  (reset (bk_time b) now (saturating_to_u64 (h_timestamp h))), Ok tt)
      end
  end.

(** As many new blocks as there are clock readings, with the transactions
    given for them. *)
Definition reorg_block (tx_pairs : gmap Z (list (PoolTransaction NodeTx))) b (p : Z * Z) : option Node :=
  snd <$> do_mine_block b p.2 (default [] (tx_pairs !! p.1)).
Definition reorg b (now : Z) (nows : list Z) (tx_pairs : gmap Z (list (PoolTransaction NodeTx)))
    (common : Block Header NodeTx) : option (Node * result BlockchainError unit) :=
  '(b, res) ← rollback b now common;
  match res with
  | Err e => Some (b, Err e)
  | Ok _ =>
      b ← fold_m (reorg_block tx_pairs) b (zip (seqZ 0 (Z.of_nat (length nows))) nows);
      Some (b, Ok tt)
  end.
End mining.
