(* ===== verification/ChainInvariant.v ===== *)
(** * The chain invariant

    [chain_wf g s]: the storage holds an unbroken chain from the genesis block
    of number [g] to the best block, each block linked to its parent by the
    hash in its header, and every recorded transaction belongs to a block of
    the chain.  It is kept when a block is added, when blocks are unwound and
    when old transactions are dropped.  Block hashes identify headers. *)
From stdpp Require Import base list gmap.
From Stdlib Require Import ZArith Lia.
From S2P Require Import Prelude Containers PoolTx Fees StateDb Blockchain Executor Backend Mining.
#[local] Open Scope list_scope.
#[local] Abbreviation B256 := Z (only parsing).

(** Hashes of headers do not collide and are not the zero hash, the parent of
    a genesis block. *)
Class HashLaws `{!EvmTypes, !BlockHashing} : Prop := {
  header_hash_inj (h h' : Header) : header_hash h = header_hash h' → h = h';
  header_hash_nonzero (h : Header) : header_hash h ≠ 0;
}.

Section chain.
Context `{!EvmTypes, !Evm, !BlockHashing, !HashLaws}.
#[local] Abbreviation Storage := (BlockchainStorage Header (MaybeImpersonated Envelope) MinedTransaction).
Implicit Types (s : Storage) (h : B256) (m : MinedTransaction).

Record chain_wf (g : Z) s : Prop := {
  cw_best : hashes s !! best_number s = Some (best_hash s);
  cw_range n h : hashes s !! n = Some h → g ≤ n ≤ best_number s;
  cw_full n : g ≤ n ≤ best_number s → is_Some (hashes s !! n);
  cw_block n h : hashes s !! n = Some h → ∃ b, blocks s !! h = Some b ∧ header_hash (header b) = h;
  cw_link n h b : hashes s !! n = Some h → blocks s !! h = Some b → g < n →
    hashes s !! (n - 1) = Some (h_parent_hash (header b));
  cw_genesis b : hashes s !! g = Some (genesis_hash s) ∧
    (blocks s !! genesis_hash s = Some b → h_parent_hash (header b) = 0);
  cw_tx t m : transactions s !! t = Some m → ti_hash (mt_info m) = t ∧
    hashes s !! mt_block_number m = Some (mt_block_hash m) ∧ t ∈ txs_of s (mt_block_hash m);
}.

(** The header of a block in the chain is what its hash says. *)
Lemma cw_header g s n hd :
  chain_wf g s → hashes s !! n = Some (header_hash hd) →
  ∃ body, blocks s !! header_hash hd = Some (mkBlock hd body).
Proof.
  intros Hwf Hn. destruct (cw_block _ _ Hwf _ _ Hn) as ([hd' body] & Hb & Heq).
  apply header_hash_inj in Heq. cbn in Heq. subst hd'. by exists body.
Qed.

Lemma cw_inj g s : chain_wf g s → hashes_inj s.
Proof.
  intros Hwf.
  assert (∀ k : nat, ∀ i j h, g ≤ i → i - g ≤ Z.of_nat k → i < j →
    hashes s !! i = Some h → hashes s !! j = Some h → False) as Hlt.
  { induction k as [|k IH]; intros i j h Hgi Hk Hij Hi Hj;
      destruct (cw_block _ _ Hwf _ _ Hj) as (b & Hb & Hh);
      pose proof (cw_link _ _ Hwf j h b Hj Hb ltac:(lia)) as Hpj.
    - assert (i = g) as -> by lia. destruct (cw_genesis _ _ Hwf b) as [Hg Hp].
      assert (h = genesis_hash s) as -> by congruence. rewrite (Hp Hb) in Hpj.
      destruct (cw_block _ _ Hwf _ _ Hpj) as (b0 & _ & Hh0). by apply header_hash_nonzero in Hh0.
    - destruct (decide (i = g)) as [->|Hne]; [by eapply (IH g j); eauto; lia|].
      pose proof (cw_link _ _ Hwf i h b Hi Hb ltac:(lia)) as Hpi.
      by eapply (IH (i - 1) (j - 1)); eauto; lia. }
  intros i j h Hi Hj. pose proof (cw_range _ _ Hwf _ _ Hi). pose proof (cw_range _ _ Hwf _ _ Hj).
  destruct (Z.lt_trichotomy i j) as [?|[?|?]]; [exfalso|done|exfalso].
  - by apply (Hlt (Z.to_nat (i - g)) i j h); first [lia|done].
  - by apply (Hlt (Z.to_nat (j - g)) j i h); first [lia|done].
Qed.

Lemma genesis_chain_wf (blk : Block Header (MaybeImpersonated Envelope)) n :
  h_parent_hash (header blk) = 0 → chain_wf n (storage_new blk n).
Proof.
  intros Hp. unfold storage_new.
  split; cbn.
  - by rewrite lookup_singleton_eq.
  - intros i h [<- _]%lookup_singleton_Some. lia.
  - intros i Hi. replace i with n by lia. rewrite lookup_singleton_eq. by eexists.
  - intros i h [_ <-]%lookup_singleton_Some. exists blk. split; [|done]. apply lookup_insert_eq.
  - intros i h b [<- _]%lookup_singleton_Some. lia.
  - intros b. rewrite lookup_singleton_eq. split; [done|]. intros Hb. rewrite lookup_insert_eq in Hb. by injection Hb as <-.
  - intros t m Ht. by rewrite lookup_empty in Ht.
Qed.

(** ** A new block *)
(** A block whose parent is the best one is not in the chain. *)
Lemma fresh_hash g s hd :
  chain_wf g s → h_parent_hash hd = best_hash s → ∀ n, hashes s !! n ≠ Some (header_hash hd).
Proof.
  intros Hwf Hp n Hn. destruct (cw_header _ _ _ _ Hwf Hn) as (body & Hb).
  pose proof (cw_range _ _ Hwf _ _ Hn). pose proof (cw_best _ _ Hwf) as Hbest.
  destruct (decide (n = g)) as [->|Hne].
  - destruct (cw_genesis _ _ Hwf (mkBlock hd body)) as [Hg Hz].
    rewrite Hn in Hg. injection Hg as Hg. rewrite <- Hg in Hz. specialize (Hz Hb). cbn in Hz.
    destruct (cw_block _ _ Hwf _ _ Hbest) as (b0 & _ & Hh0).
    rewrite <- Hp, Hz in Hh0. by apply header_hash_nonzero in Hh0.
  - pose proof (cw_link _ _ Hwf n _ _ Hn Hb ltac:(lia)) as Hl. cbn in Hl. rewrite Hp in Hl.
    assert (n - 1 = best_number s) by (by eapply (cw_inj g s Hwf)). lia.
Qed.

(** The transactions of the new block. *)
Lemma insert_mined_lookup (h : B256) n l : ∀ (txs : gmap B256 MinedTransaction) t,
  let txs' := foldl (insert_mined h n) txs l in
  (t ∈ (ti_hash ∘ fst <$> l) → ∃ p, p ∈ l ∧ ti_hash p.1 = t ∧
     txs' !! t = Some (mkMinedTransaction p.1 p.2 h n)) ∧
  (t ∉ (ti_hash ∘ fst <$> l) → txs' !! t = txs !! t).
Proof.
  induction l as [|p l IH]; intros txs t; cbn [foldl].
  { split; [by intros ?%not_elem_of_nil|done]. }
  destruct (IH (insert_mined h n txs p) t) as [IH1 IH2]. cbn [fmap list_fmap]. split.
  - intros Hin. destruct (decide (t ∈ (ti_hash ∘ fst <$> l))) as [Ht|Ht].
    + destruct (IH1 Ht) as (q & ? & ? & ?). exists q. split_and!; [by right|done..].
    + apply elem_of_cons in Hin as [->|?]; [|done]. exists p. split_and!; [by left|done|].
      rewrite IH2 by done. by apply lookup_insert_eq.
  - intros [Hne Hn]%not_elem_of_cons. rewrite IH2 by done. apply lookup_insert_ne. intros Heq. by apply Hne.
Qed.

(** ** Dropping transactions and unwinding *)
Lemma remove_transactions_wf g s h : chain_wf g s → chain_wf g (remove_block_transactions s h).
Proof.
  intros Hwf. unfold remove_block_transactions.
  destruct (blocks s !! h) as [b|] eqn:Hb; [|done].
  assert (Hblk : ∀ h' b', <[h := mkBlock (header b) []]> (blocks s) !! h' = Some b' →
    ∃ b0, blocks s !! h' = Some b0 ∧ header b' = header b0).
  { intros h' b' [[<- <-]|[_ Hb']]%lookup_insert_Some; [by exists b|by exists b']. }
  split; cbn; try apply Hwf.
  - intros n h' Hn. destruct (cw_block _ _ Hwf _ _ Hn) as (b' & Hb' & Hh).
    destruct (decide (h = h')) as [->|Hne].
    + rewrite lookup_insert_eq. eexists. split; [done|]. cbn. congruence.
    + rewrite lookup_insert_ne by done. by exists b'.
  - intros n h' b' Hn (b0 & Hb0 & ->)%Hblk Hg. by apply (cw_link _ _ Hwf n h').
  - intros b'. split; [by apply (cw_genesis _ _ Hwf b)|].
    intros (b0 & Hb0 & ->)%Hblk. by apply (cw_genesis _ _ Hwf b0).
  - intros t m. destruct (delete_fold (body_transactions b) (transactions s) t) as [Hd Hk].
    cbn in Hd, Hk. destruct (decide (t ∈ maybe_hash <$> body_transactions b)) as [Hin|Hnin];
      [by rewrite Hd|rewrite Hk by done]. intros Ht.
    destruct (cw_tx _ _ Hwf _ _ Ht) as (? & ? & Htx). split_and!; [done..|].
    unfold txs_of in *. cbn. destruct (decide (h = mt_block_hash m)) as [->|Hne].
    + by rewrite Hb in Htx.
    + by rewrite lookup_insert_ne.
Qed.

Definition set_best s (n : Z) h : Storage :=
  mkBlockchainStorage (blocks s) (hashes s) h n (genesis_hash s) (transactions s) (total_difficulty s).

Lemma unwound_wf g s ns s' removed n h :
  chain_wf g s → unwound s ns s' removed → (∀ i, i ∈ ns ↔ n < i ≤ best_number s) →
  hashes s !! n = Some h →
  chain_wf g (set_best s' n h) ∧ ∀ i, i ≤ n → hashes s' !! i = hashes s !! i.
Proof.
  intros Hwf [Hng Hnk Hbg Hbk Htg Htk _ Hgen _] Hns Hn.
  pose proof (cw_range _ _ Hwf _ _ Hn) as Hrn.
  assert (Hlow : ∀ i, i ≤ n → hashes s' !! i = hashes s !! i).
  { intros i Hi. apply Hnk. rewrite Hns. lia. }
  assert (Hcase : ∀ i h', hashes s' !! i = Some h' →
    i ≤ n ∧ hashes s !! i = Some h' ∧ blocks s' !! h' = blocks s !! h').
  { intros i h' Hi. destruct (decide (i ∈ ns)) as [Hin|Hnin]; [by rewrite Hng in Hi|].
    rewrite Hnk in Hi by done. pose proof (cw_range _ _ Hwf _ _ Hi) as Hr.
    assert (i ≤ n) by (rewrite Hns in Hnin; lia). split_and!; [done..|]. apply Hbk.
    intros (j & Hj & Hjh). assert (i = j) as -> by (by eapply (cw_inj g s Hwf)).
    apply Hns in Hj. lia. }
  split; [|done]. split; cbn.
  - by rewrite Hlow by lia.
  - intros i h' (? & Hi & _)%Hcase. apply (cw_range _ _ Hwf) in Hi. lia.
  - intros i Hi. rewrite Hlow by lia. apply (cw_full _ _ Hwf). lia.
  - intros i h' (? & Hi & ->)%Hcase. by apply (cw_block _ _ Hwf i).
  - intros i h' b (? & Hi & ->)%Hcase Hb Hg. rewrite Hlow by lia. by apply (cw_link _ _ Hwf i h').
  - intros b. destruct (cw_genesis _ _ Hwf b) as [Hg Hz]. rewrite Hgen.
    assert (Hg' : hashes s' !! g = Some (genesis_hash s)) by (rewrite Hlow by lia; done).
    split; [done|]. by destruct (Hcase _ _ Hg') as (_ & _ & ->).
  - intros t m Ht.
    assert (¬ tx_dropped s ns t) as Hnd by (intros Hd; rewrite (Htg _ Hd) in Ht; done).
    rewrite Htk in Ht by done. destruct (cw_tx _ _ Hwf _ _ Ht) as (Hm & Hnum & Htx).
    assert (Hnum' : hashes s' !! mt_block_number m = Some (mt_block_hash m)).
    { rewrite Hnk; [done|]. intros Hin. apply Hnd. exists (mt_block_hash m).
      split; [by exists (mt_block_number m)|done]. }
    split_and!; [done..|]. unfold txs_of in *. cbn. by destruct (Hcase _ _ Hnum') as (_ & _ & ->).
Qed.

Context {Float BaseFeeParams BlobParams Snap : Type}.
#[local] Abbreviation Node := (Backend Float BaseFeeParams BlobParams Snap).

Lemma store_block_wf (b : Node) g s block :
  let hd := bi_header block in
  let s' := store_block b s (best_number s + 1) (header_hash hd) block in
  chain_wf g s → h_parent_hash hd = best_hash s →
  ti_hash <$> bi_transactions block = maybe_hash <$> bi_body block →
  length (bi_receipts block) = length (bi_transactions block) →
  chain_wf g s' ∧ (∀ n, n ≠ best_number s + 1 → hashes s' !! n = hashes s !! n).
Proof.
  intros hd s' Hwf Hp Hbody Hlen. pose proof (fresh_hash g s hd Hwf Hp) as Hfresh.
  assert (Hother : ∀ n, n ≠ best_number s + 1 → hashes s' !! n = hashes s !! n).
  { intros n Hn. cbn. by rewrite lookup_insert_ne. }
  assert (Hnew : hashes s' !! (best_number s + 1) = Some (header_hash hd)) by apply lookup_insert_eq.
  assert (Hcase : ∀ n h, hashes s' !! n = Some h →
    (n = best_number s + 1 ∧ h = header_hash hd) ∨
    (n ≠ best_number s + 1 ∧ hashes s !! n = Some h ∧ blocks s' !! h = blocks s !! h)).
  { intros n h Hn. destruct (decide (n = best_number s + 1)) as [->|Hne].
    - left. split; [done|]. congruence.
    - right. rewrite Hother in Hn by done. split_and!; [done..|]. cbn.
      apply lookup_insert_ne. intros Heq. rewrite <- Heq in Hn. by eapply Hfresh. }
  pose proof (cw_best _ _ Hwf) as Hbest. pose proof (cw_range _ _ Hwf _ _ Hbest) as Hrange.
  split; [|done]. split.
  - done.
  - intros n h [[-> _]|(_ & Hn & _)]%Hcase; cbn; [lia|].
    apply (cw_range _ _ Hwf) in Hn. lia.
  - intros n. cbn. intros Hn. destruct (decide (n = best_number s + 1)) as [->|Hne].
    + rewrite lookup_insert_eq. by eexists.
    + rewrite lookup_insert_ne by done. apply (cw_full _ _ Hwf). lia.
  - intros n h [[_ ->]|(_ & Hn & ->)]%Hcase; [|by apply (cw_block _ _ Hwf n)].
    exists (mkBlock hd (bi_body block)). cbn. by rewrite lookup_insert_eq.
  - intros n h b0 [[-> ->]|(Hne & Hn & ->)]%Hcase Hb Hg.
    + cbn in Hb. rewrite lookup_insert_eq in Hb. injection Hb as <-. cbn [header].
      rewrite Hother by lia. replace (best_number s + 1 - 1) with (best_number s) by lia. by rewrite Hbest, <- Hp.
    + pose proof (cw_link _ _ Hwf n h b0 Hn Hb Hg) as Hl. rewrite Hother; [done|].
      apply (cw_range _ _ Hwf) in Hn. lia.
  - intros b0. destruct (cw_genesis _ _ Hwf b0) as [Hg Hz]. cbn [genesis_hash store_block s'].
    split; [by rewrite Hother by lia|]. cbn. rewrite lookup_insert_ne; [done|].
    intros Heq. rewrite <- Heq in Hg. by apply Hfresh in Hg.
  - intros t m Ht. cbn in Ht.
    assert (Hl : ti_hash ∘ fst <$> zip (bi_transactions block) (bi_receipts block) =
      maybe_hash <$> bi_body block).
    { rewrite list_fmap_compose, fst_zip by lia. done. }
    destruct (insert_mined_lookup (header_hash hd) (best_number s + 1)
      (zip (bi_transactions block) (bi_receipts block)) (transactions s) t) as [Hi Hn].
    rewrite Hl in Hi, Hn.
    destruct (decide (t ∈ maybe_hash <$> bi_body block)) as [Hin|Hnin].
    + destruct (Hi Hin) as (p & _ & Hpt & Hlook). fold hd in Hlook. rewrite Hlook in Ht.
      injection Ht as <-. cbn [mt_info mt_block_hash mt_block_number]. split_and!; [done|done|].
      unfold txs_of. cbn. by rewrite lookup_insert_eq.
    + rewrite (Hn Hnin) in Ht. destruct (cw_tx _ _ Hwf _ _ Ht) as (? & Hnum & Htx).
      split_and!; [done| |].
      * rewrite Hother; [done|]. apply (cw_range _ _ Hwf) in Hnum. lia.
      * unfold txs_of in *. cbn. rewrite lookup_insert_ne; [done|].
        intros Heq. rewrite <- Heq in Hnum. by apply Hfresh in Hnum.
Qed.

Lemma keep_transactions_wf (b : Node) g s n :
  chain_wf g s → chain_wf g (keep_transactions b s n) ∧
    hashes (keep_transactions b s n) = hashes s ∧ best_number (keep_transactions b s n) = best_number s ∧
    best_hash (keep_transactions b s n) = best_hash s.
Proof.
  intros Hwf. unfold keep_transactions, remove_block_transactions_by_number.
  destruct (bk_transaction_block_keeper b); [|by split_and!].
  case_bool_decide; [|by split_and!]. destruct (hashes s !! _) as [h|]; [|by split_and!].
  split; [by apply remove_transactions_wf|].
  unfold remove_block_transactions. by destruct (blocks s !! h).
Qed.

(** The loop of a snapshot's revert drops the same blocks as unwinding, in
    the opposite order. *)
Lemma revert_block_unwind s removed n : revert_block s n = (unwind_block (s, removed) n).1.
Proof.
  unfold revert_block, unwind_block, remove_block_transactions_by_number, remove_block_transactions.
  destruct (hashes s !! n) as [h|]; [|done]. destruct (blocks s !! h) as [b|]; [|done].
  cbn. by rewrite delete_insert_eq.
Qed.
Lemma revert_fold l : ∀ s removed, foldl revert_block s l = (foldl unwind_block (s, removed) l).1.
Proof.
  induction l as [|n l IH]; intros s removed; cbn [foldl]; [done|].
  rewrite (revert_block_unwind s removed). by destruct (unwind_block (s, removed) n) as [s1 r1].
Qed.

Lemma revert_blocks_wf g s n h :
  chain_wf g s → hashes s !! n = Some h → 0 ≤ n < u64_max →
  ∃ s', revert_blocks s n h = Some s' ∧ chain_wf g s' ∧ best_number s' = n ∧ best_hash s' = h ∧
    ∀ i, i ≤ n → hashes s' !! i = hashes s !! i.
Proof.
  intros Hwf Hn Hr. unfold revert_blocks. rewrite checked_in by lia. cbn [mbind option_bind].
  destruct (unwind_fold s (reverse (seqZ (n + 1) (best_number s - n))) [] s [] (cw_inj g s Hwf))
    as (s1 & r1 & Hf & Hu).
  { cbn. rewrite reverse_Permutation. apply NoDup_seqZ. }
  { apply unwound_nil. }
  rewrite (revert_fold _ s []), Hf. cbn [fst]. eexists. split; [reflexivity|].
  destruct (unwound_wf g s _ s1 r1 n h Hwf Hu) as [Hwf1 Hlow]; [|done|by split_and!].
  intros i. cbn. rewrite elem_of_reverse, elem_of_seqZ. lia.
Qed.

Lemma unwind_to_wf g s n h :
  chain_wf g s → hashes s !! n = Some h → 0 ≤ n < u64_max →
  ∃ s' removed, unwind_to s n h = Some (s', removed) ∧ chain_wf g s' ∧ best_number s' = n ∧
    best_hash s' = h ∧ ∀ i, i ≤ n → hashes s' !! i = hashes s !! i.
Proof.
  intros Hwf Hn Hr. destruct (unwind_to_total s n h (cw_inj g s Hwf) Hr) as (s' & r & Hu & Hun & Hbn & Hbh).
  exists s', r. split; [done|].
  destruct (unwound_wf g s _ s' r n h Hwf Hun) as [Hwf1 Hlow]; [|done|].
  { intros i. rewrite elem_of_seqZ. lia. }
  split_and!; try done. destruct s'. cbn in *. by subst.
Qed.

(** Reverting and unwinding only remove blocks. *)
Lemma revert_fold_sub l h0 b0 : ∀ s,
  blocks (foldl revert_block s l) !! h0 = Some b0 → blocks s !! h0 = Some b0.
Proof.
  induction l as [|i l IH]; intros s; cbn [foldl]; [done|]. intros Hb%IH. revert Hb.
  unfold revert_block. destruct (hashes s !! i) as [hi|]; [|done].
  destruct (blocks s !! hi); cbn; by intros [_ ?]%lookup_delete_Some.
Qed.
Lemma revert_blocks_sub s n h s' h0 b0 :
  revert_blocks s n h = Some s' → blocks s' !! h0 = Some b0 → blocks s !! h0 = Some b0.
Proof.
  unfold revert_blocks. intros (first & _ & Hs)%bind_Some. injection Hs as <-. apply revert_fold_sub.
Qed.
Lemma unwind_to_sub s n h s' removed h0 b0 :
  unwind_to s n h = Some (s', removed) → blocks s' !! h0 = Some b0 → blocks s !! h0 = Some b0.
Proof.
  unfold unwind_to. intros (first & _ & Hs)%bind_Some.
  destruct (foldl unwind_block _ _) as [s1 r1] eqn:Hf. injection Hs as <- _. cbn. intros Hb.
  eapply revert_fold_sub. by rewrite (revert_fold _ s []), Hf.
Qed.
End chain.
