(* ===== verification/MiningProofs.v ===== *)
(** * Correctness of block production

    Mining extends the chain by one block that is linked to the best one,
    records the included transactions and keeps the state before the block;
    reverting, rolling back and reorganizing keep the chain unbroken. *)
From stdpp Require Import base list gmap.
From Stdlib Require Import ZArith Lia.
From S2P Require Import Prelude Containers PoolTx Pool Fees Time Snapshots StateDb BlockStates.
From S2P Require Import Blockchain Executor ExecutorProofs Backend SampleNode Validation Mining.
From S2P Require Import ChainInvariant.
#[local] Open Scope list_scope.
#[local] Abbreviation B256 := Z (only parsing).

(** The limits of the blob parameters are not negative, and writing to an
    account of the in-memory database does not fail. *)
Class NodeLaws (BlobParams : Type) `{!EvmTypes, !NodeEnv BlobParams} : Prop := {
  max_blob_gas_nonneg (p : BlobParams) : 0 ≤ max_blob_gas_per_block p;
  set_storage_ok d a k v : (node_set_storage_at d a k v).2 = Ok tt;
}.

Section mining_proofs.
Context {Float BaseFeeParams BlobParams Snap : Type}.
Context `{!FeeRules Float BaseFeeParams BlobParams, !EvmTypes, !Evm, !BlockHashing, !NodeEnv BlobParams}.
Context `{!FullDatabase Db Snap, !HashOrder Address}.
Context `{!EvmLaws, !HashLaws, !NodeLaws BlobParams}.
#[local] Abbreviation Node := (Backend Float BaseFeeParams BlobParams Snap).
#[local] Abbreviation NodeTx := (MaybeImpersonated Envelope) (only parsing).
Implicit Types (b : Node) (ptx : PoolTransaction NodeTx).

Record node_wf (g : Z) b : Prop := {
  nw_genesis : 0 ≤ g;
  nw_chain : chain_wf g (bk_storage b);
  nw_states : states_wf (bk_states b);
  nw_gas_limit : 0 ≤ be_gas_limit (block_env (bk_env b));
  nw_headers h blk : blocks (bk_storage b) !! h = Some blk → 0 ≤ h_gas_limit (header blk);
}.

(** Transactions as the node builds them. *)
Definition txs_ok (txs : list (PoolTransaction NodeTx)) : Prop :=
  Forall (λ ptx, not_tempo ptx ∧ pending_wf (pending_transaction ptx)) txs.

(** The clock gives the timestamp [ts] and the log of the node can print it. *)
Definition clock_ok b (now : Z) (time : TimeManager) (ts : Z) : Prop :=
  next_timestamp (bk_time b) now = Some (time, ts) ∧
  chrono_in_range (saturating_to_u64 ts) = true.

(** The header of the block mined on [b]. *)
Definition mined_header b (ts : Z) (h : Header) : Prop :=
  h_parent_hash h = bk_best_hash b ∧ h_timestamp h = saturating_to_u64 ts ∧
  h_number h = saturating_to_u64 (be_number (block_env (mining_env b))) ∧
  h_gas_limit h = be_gas_limit (block_env (bk_env b)) ∧
  h_base_fee_per_gas h = (if bool_decide (SPEC_LONDON ≤ cfg_spec (cfg_env (bk_env b)))
                          then Some (bk_base_fee b) else None) ∧
  (disable_block_gas_limit (cfg_env (bk_env b)) = false → h_gas_used h ≤ h_gas_limit h).

Record mined (g : Z) b (txs : list (PoolTransaction NodeTx)) (time : TimeManager) (ts : Z)
    (outcome : MinedBlockOutcome NodeTx) b' : Prop := {
  m_wf : node_wf g b';
  m_number : mbo_block_number outcome = bk_best_number b + 1;
  m_best : bk_best_number b' = bk_best_number b + 1;
  m_block : ∃ hd body, blocks (bk_storage b') !! bk_best_hash b' = Some (mkBlock hd body) ∧
    mined_header b ts hd ∧ bk_best_hash b' = header_hash hd ∧
    bk_fees b' = fees_after b (cfg_spec (cfg_env (bk_env b))) hd;
  m_chain n : n ≤ bk_best_number b → hashes (bk_storage b') !! n = hashes (bk_storage b) !! n;
  m_outcomes : ∃ os, outcome_tx <$> os = txs ∧ included outcome = included_of os ∧
    invalid outcome = omap invalid_tx os;
  m_recorded : bk_transaction_block_keeper b = None → ∀ ptx, ptx ∈ included outcome →
    ∃ m, transactions (bk_storage b') !! hash ptx = Some m ∧
      mt_block_hash m = bk_best_hash b' ∧ mt_block_number m = bk_best_number b';
  m_state : is_state_history_supported (bk_prune b) = true →
    get_state (bk_states b') (bk_best_hash b) = Some (inner (bk_db b));
  m_time : bk_time b' = time;
  m_db : db_snapshots (bk_db b') = db_snapshots (bk_db b);
  m_active : bk_active_snapshots b' = bk_active_snapshots b;
}.

(** The hashes of a block's transactions are those of the pool's. *)
Lemma body_hashes (txs : list (PoolTransaction NodeTx)) :
  Forall (λ ptx, pending_wf (pending_transaction ptx)) txs →
  maybe_hash <$> ((λ ptx, transaction (pending_transaction ptx)) <$> txs) = hash <$> txs.
Proof.
  induction 1 as [|ptx txs [Hh _] _ IH]; [done|]. cbn. by rewrite IH, <- Hh.
Qed.

Lemma included_sub os (P : PoolTransaction NodeTx → Prop) :
  Forall P (outcome_tx <$> os) → Forall P (included_of os).
Proof.
  induction os as [|o os IH]; cbn; [done|]. intros [Ho Hos]%Forall_cons.
  unfold included_of in *. cbn. destruct o; cbn in *; by auto.
Qed.

Lemma states_kept b :
  states_wf (bk_states b) →
  ∃ states, (if is_state_history_supported (bk_prune b)
             then states_insert (bk_states b) (bk_best_hash b) (inner (bk_db b))
             else Some (bk_states b)) = Some states ∧ states_wf states ∧
    (is_state_history_supported (bk_prune b) = true →
       get_state states (bk_best_hash b) = Some (inner (bk_db b))).
Proof.
  intros Hwf. destruct (is_state_history_supported _); [|by exists (bk_states b)].
  destruct (states_insert_spec (bk_states b) (bk_best_hash b) (inner (bk_db b)) Hwf)
    as (s' & k & -> & ? & _ & _ & _ & _ & _ & _ & ? & _).
  by exists s'.
Qed.

(** Each transaction of the block can be looked up. *)
Lemma store_block_recorded b (s : BlockchainStorage Header NodeTx MinedTransaction) n block t :
  length (bi_receipts block) = length (bi_transactions block) →
  t ∈ ti_hash <$> bi_transactions block →
  ∃ m, transactions (store_block b s n (header_hash (bi_header block)) block) !! t = Some m ∧
    mt_block_hash m = header_hash (bi_header block) ∧ mt_block_number m = n.
Proof.
  intros Hlen Ht. cbn.
  destruct (insert_mined_lookup (header_hash (bi_header block)) n
    (zip (bi_transactions block) (bi_receipts block)) (transactions s) t) as [Hi _].
  destruct Hi as (p & _ & _ & ->); [|by eexists].
  rewrite list_fmap_compose, fst_zip by lia. done.
Qed.

Lemma keep_transactions_blocks b (s : BlockchainStorage Header NodeTx MinedTransaction) n h blk :
  blocks (keep_transactions b s n) !! h = Some blk →
  ∃ blk0, blocks s !! h = Some blk0 ∧ header blk = header blk0.
Proof.
  unfold keep_transactions, remove_block_transactions_by_number, remove_block_transactions.
  destruct (bk_transaction_block_keeper b); [|by eauto]. case_bool_decide; [|by eauto].
  destruct (hashes s !! _) as [h0|]; [|by eauto]. destruct (blocks s !! h0) as [b0|] eqn:Hb0; [|by eauto].
  cbn. intros [[<- <-]|[_ ?]]%lookup_insert_Some; eauto.
Qed.

Lemma next_number b :
  bk_best_number b < u64_max → saturating_add u64_max (bk_best_number b) 1 = bk_best_number b + 1.
Proof. unfold saturating_add. lia. Qed.

Lemma mine_block_total g b now txs time ts :
  node_wf g b → txs_ok txs → bk_best_number b < u64_max → clock_ok b now time ts →
  ∃ outcome b', do_mine_block b now txs = Some (outcome, b') ∧ mined g b txs time ts outcome b'.
Proof.
  intros [Hg Hchain Hst Hgl Hhd] Htxs Hbest [Htime Hchrono]. unfold do_mine_block.
  destruct (states_kept b Hst) as (states & -> & Hst' & Hstate). cbn [mbind option_bind].
  rewrite Htime. cbn [mbind option_bind]. rewrite next_number by done. unfold bk_best_number in *.
  set (env := env_at (mining_env b) ts).
  destruct (@execute_total _ _ (backend_validator b) _ _ (executor_for b (inner (bk_db b)) env txs))
    as (os & x' & res & -> & _ & _ & Hos & Hblock & Hhead); [done|apply max_blob_gas_nonneg| | |].
  { apply (Forall_impl _ _ _ Htxs). by intros ptx [? _]. }
  { by intros _. }
  cbn [mbind option_bind].
  destruct Hblock as (Hinc & Hinv & Hbody & Hinfo & _ & Hrec & _ & _ & Hgas & _).
  destruct Hhead as (Hpar & Hnum & Hts & Hlim & _ & _ & Hfee). cbn in Hos, Hpar, Hnum, Hts, Hlim, Hfee.
  rewrite Hts, Hchrono. cbn [negb].
  do 2 eexists. split; [reflexivity|].
  assert (Hincl : Forall (λ ptx, pending_wf (pending_transaction ptx)) (included_of os)).
  { apply included_sub. rewrite Hos. apply (Forall_impl _ _ _ Htxs). by intros ptx [_ ?]. }
  assert (Hlen : length (bi_receipts (ex_block res)) = length (bi_transactions (ex_block res))).
  { rewrite Hrec. rewrite <- (length_fmap ti_hash (bi_transactions _)), Hinfo. by rewrite length_fmap. }
  destruct (store_block_wf b g (bk_storage b) (ex_block res) Hchain) as [Hwf1 Hlow];
    [done|by rewrite Hinfo, Hbody, body_hashes|done|].
  destruct (keep_transactions_wf b g _ (best_number (bk_storage b) + 1) Hwf1) as (Hwf2 & Hh2 & Hn2 & Hb2).
  split; cbn.
  - split; cbn; [done..|]. intros h blk (blk0 & Hb0 & ->)%keep_transactions_blocks.
    cbn in Hb0. apply lookup_insert_Some in Hb0 as [[_ <-]|[_ Hb0]]; [cbn; lia|by eapply Hhd].
  - done.
  - exact Hn2.
  - unfold bk_best_hash. cbn. rewrite Hb2. cbn. exists (bi_header (ex_block res)).
    destruct (cw_header g _ (best_number (bk_storage b) + 1) (bi_header (ex_block res)) Hwf2) as (body & Hb).
    { rewrite Hh2. cbn. by rewrite lookup_insert_eq. }
    exists body. split_and!; [done| |done|done].
    split_and!; [done..|]. intros Hd. rewrite Hlim. by apply Hgas.
  - intros n Hn. rewrite Hh2. apply Hlow. unfold bk_best_number in Hn. lia.
  - exists os. by split_and!.
  - intros Hk ptx Hin. unfold bk_best_hash. cbn. rewrite Hb2. cbn.
    unfold keep_transactions. rewrite Hk. cbn.
    apply (store_block_recorded b (bk_storage b)); [done|].
    rewrite Hinfo, <- Hinc. by apply list_elem_of_fmap_2.
  - done.
  - done.
  - done.
  - done.
Qed.

(** Mining only fails to return when the clock or the log panics. *)
Lemma mine_block_clock g b now txs r :
  node_wf g b → txs_ok txs → bk_best_number b < u64_max → do_mine_block b now txs = Some r →
  ∃ time ts, clock_ok b now time ts.
Proof.
  intros [Hg Hchain Hst Hgl _] Htxs Hbest. unfold do_mine_block.
  destruct (states_kept b Hst) as (states & -> & _). cbn [mbind option_bind].
  destruct (next_timestamp (bk_time b) now) as [[time ts]|] eqn:Ht; [|done]. cbn [mbind option_bind].
  destruct (@execute_total _ _ (backend_validator b) _ _
    (executor_for b (inner (bk_db b)) (env_at (mining_env b) ts) txs))
    as (os & x' & res & -> & _ & _ & _ & _ & Hhead); [done|apply max_blob_gas_nonneg| |by intros _|].
  { apply (Forall_impl _ _ _ Htxs). by intros ptx [? _]. }
  cbn [mbind option_bind]. destruct Hhead as (_ & _ & Hts & _). cbn in Hts. rewrite Hts.
  destruct (chrono_in_range _) eqn:Hc; [|done]. intros _. by exists time, ts.
Qed.

(** One block mined, at any time and with any transactions of the node. *)
Definition mine_step b b' : Prop :=
  bk_best_number b < u64_max ∧ ∃ now txs outcome, txs_ok txs ∧
    do_mine_block b now txs = Some (outcome, b').

Lemma mine_step_mined g b b' :
  node_wf g b → mine_step b b' → ∃ txs time ts outcome, mined g b txs time ts outcome b'.
Proof.
  intros Hwf (Hlt & now & txs & outcome & Htxs & Hm).
  destruct (mine_block_clock g b now txs _ Hwf Htxs Hlt Hm) as (time & ts & Hc).
  destruct (mine_block_total g b now txs time ts Hwf Htxs Hlt Hc) as (o & b2 & Hm2 & Hmined).
  rewrite Hm in Hm2. injection Hm2 as -> ->. by exists txs, time, ts, o.
Qed.

(** ** Snapshots *)
(** What the node does between taking a snapshot and reverting to it. *)
Inductive node_step b : Node → Prop :=
| step_mine b' : mine_step b b' → node_step b b'
| step_snapshot : snapshot_id (db_snapshots (bk_db b)) < u256_max →
    node_step b (create_state_snapshot b).1.

(** The database keeps the snapshot [id] of the state [d], taken at [num]. *)
Record has_snapshot b (id num : Z) (h : B256) (d : Db) : Prop := {
  hs_wf : snapshots_wf (db_snapshots (bk_db b));
  hs_id : 0 ≤ id < u256_max;
  hs_later : id < snapshot_id (db_snapshots (bk_db b));
  hs_state : state_snapshots (db_snapshots (bk_db b)) !! id = Some d;
  hs_active : bk_active_snapshots b !! id = Some (num, h);
}.

Lemma create_snapshot_spec g b :
  node_wf g b → snapshots_wf (db_snapshots (bk_db b)) →
  snapshot_id (db_snapshots (bk_db b)) < u256_max →
  let b' := (create_state_snapshot b).1 in
  node_wf g b' ∧ bk_storage b' = bk_storage b ∧ inner (bk_db b') = inner (bk_db b) ∧
  has_snapshot b' (create_state_snapshot b).2 (bk_best_number b) (bk_best_hash b) (inner (bk_db b)) ∧
  ∀ id num h d, has_snapshot b id num h d → has_snapshot b' id num h d.
Proof.
  intros [] Hs Hlt. unfold create_state_snapshot, snapshot_state.
  destruct (snapshots_insert_spec (db_snapshots (bk_db b)) (inner (bk_db b)) Hs Hlt)
    as (s' & -> & Hwf' & Hid & _ & Hm). cbn.
  split_and!; [by split|done|done| |].
  - split; cbn; [done| |lia| |].
    + destruct (sw_id _ Hs). lia.
    + by rewrite Hm, lookup_insert_eq.
    + by rewrite lookup_insert_eq.
  - intros id num h d [_ Hr Hl Hst Hact].
    assert (snapshot_id (db_snapshots (bk_db b)) ≠ id) by lia.
    split; cbn; [done|done|lia| |].
    + by rewrite Hm, lookup_insert_ne.
    + by rewrite lookup_insert_ne.
Qed.

Lemma node_steps g b b' id num h d :
  node_wf g b → has_snapshot b id num h d → rtc node_step b b' →
  node_wf g b' ∧ has_snapshot b' id num h d ∧ bk_best_number b ≤ bk_best_number b' ∧
  ∀ n, n ≤ bk_best_number b → hashes (bk_storage b') !! n = hashes (bk_storage b) !! n.
Proof.
  intros Hwf Hh Hr. revert Hwf Hh. induction Hr as [b|b b1 b' Hs Hr IH]; intros Hwf Hh.
  { split_and!; [done|done|lia|done]. }
  assert (node_wf g b1 ∧ has_snapshot b1 id num h d ∧ bk_best_number b ≤ bk_best_number b1 ∧
    ∀ n, n ≤ bk_best_number b → hashes (bk_storage b1) !! n = hashes (bk_storage b) !! n)
    as (Hwf1 & Hh1 & Hle1 & Hlow1).
  { destruct Hs as [b1 Hs|Hlt].
    - destruct (mine_step_mined g b b1 Hwf Hs) as (txs & time & ts & o & [Hwf1 _ Hn _ Hc _ _ _ _ Hdb Ha]).
      split_and!; [done| |lia|done]. destruct Hh. split; rewrite ?Hdb, ?Ha; done.
    - destruct (create_snapshot_spec g b Hwf (hs_wf _ _ _ _ _ Hh) Hlt) as (Hwf1 & Hst & _ & _ & Hk).
      unfold bk_best_number. rewrite Hst. split_and!; [done|by apply Hk|lia|done]. }
  destruct (IH Hwf1 Hh1) as (Hwf' & Hh' & Hle & Hlow). split_and!; [done..|lia|].
  intros n Hn. rewrite Hlow by lia. by apply Hlow1.
Qed.

Lemma revert_snapshot_total g b now id num h d :
  node_wf g b → has_snapshot b id num h d → hashes (bk_storage b) !! num = Some h → num < u64_max →
  ∃ b', revert_state_snapshot b now id = Some (b', Ok true) ∧ node_wf g b' ∧
    bk_best_number b' = num ∧ bk_best_hash b' = h ∧ inner (bk_db b') = d ∧
    (∀ n, n ≤ num → hashes (bk_storage b') !! n = hashes (bk_storage b) !! n) ∧
    ∃ blk, blocks (bk_storage b') !! h = Some blk ∧ header_hash (header blk) = h ∧
      last_timestamp (bk_time b') = h_timestamp (header blk) ∧
      be_number (block_env (bk_env b')) = num ∧
      be_timestamp (block_env (bk_env b')) = h_timestamp (header blk).
Proof.
  intros [Hg Hchain Hst Hgl Hhd] [Hsw Hid _ Hs Ha] Hn Hlt. unfold revert_state_snapshot.
  rewrite Ha. pose proof (cw_range _ _ Hchain _ _ Hn).
  destruct (revert_blocks_wf g (bk_storage b) num h Hchain Hn ltac:(lia))
    as (s' & Hrev & Hwf' & Hbn & Hbh & Hlow).
  cbn [with_snapshots bk_storage]. rewrite Hrev. cbn [mbind option_bind].
  pose proof (cw_best _ _ Hwf') as Hbest. rewrite Hbn, Hbh in Hbest.
  destruct (cw_block _ _ Hwf' _ _ Hbest) as (blk & Hblk & Hhash).
  unfold get_block_by_hash. rewrite Hblk. unfold revert_state. cbn [with_env with_time with_storage with_snapshots bk_db].
  destruct (snapshots_remove_spec (db_snapshots (bk_db b)) id Hsw Hid) as (s2 & -> & _).
  rewrite Hs. cbn. eexists. split; [reflexivity|]. unfold bk_best_number, bk_best_hash. cbn.
  assert (Hsub : ∀ h0 blk0, blocks s' !! h0 = Some blk0 → blocks (bk_storage b) !! h0 = Some blk0)
    by (intros ??; by apply (revert_blocks_sub _ num h)).
  split_and!; [|done..| |].
  - split; cbn; [done..| |].
    + exact (Hhd _ _ (Hsub _ _ Hblk)).
    + intros h0 blk0 Hb0. exact (Hhd _ _ (Hsub _ _ Hb0)).
  - intros n Hle. by apply Hlow.
  - by exists blk.
Qed.

(** ** Rollback and reorg *)
Lemma on_disk_state_wf s (h : B256) :
  states_wf s → states_wf (get_on_disk_state s h).1.
Proof.
  intros [Hl Hs Hd Hm]. unfold get_on_disk_state. destruct (on_disk_states s !! h) as [d|] eqn:Hh; [|by split].
  destruct (cache_read _ _) as [c [snap|]]; cbn; [|by split].
  split; cbn; [done..| |done]. intros h' [->|?]%lookup_insert_is_Some'; [|by apply Hd].
  apply Hd. by exists d.
Qed.

Lemma common_state_wf b h : states_wf (bk_states b) → states_wf (common_state b h).1.
Proof.
  intros Hwf. unfold common_state. destruct (get_state _ _); [done|].
  pose proof (on_disk_state_wf _ h Hwf). by destruct (get_on_disk_state _ _).
Qed.

Lemma restore_slots_ok addr l : ∀ d : Db, ∃ d', foldl (restore_slot addr) (d, Ok tt) l = (d', Ok tt).
Proof.
  induction l as [|kv l IH]; intros d; cbn [foldl]; [by exists d|].
  unfold restore_slot at 2. cbn. pose proof (set_storage_ok d addr kv.1 kv.2) as Hok.
  destruct (node_set_storage_at d addr kv.1 kv.2) as [d1 r]. cbn in Hok. subst r. apply IH.
Qed.
Lemma restore_accounts_ok l : ∀ d : Db, ∃ d', foldl restore_account (d, Ok tt) l = (d', Ok tt).
Proof.
  induction l as [|a l IH]; intros d; cbn [foldl]; [by exists d|].
  unfold restore_account at 2. cbn.
  destruct (restore_slots_ok a.1 (iter_map (StateDb.storage a.2)) d) as (d1 & ->). cbn. apply IH.
Qed.

(** [common] is on the chain and its state can be read. *)
Record can_roll_back b (common : Block Header NodeTx) : Prop := {
  rb_chain : hashes (bk_storage b) !! h_number (header common) = Some (header_hash (header common));
  rb_number : h_number (header common) < u64_max;
  rb_timestamp : in_u64 (h_timestamp (header common));
  rb_state : ∃ accounts, (common_state b (header_hash (header common))).2 = Ok accounts;
}.

Lemma rollback_total g b now common :
  node_wf g b → can_roll_back b common →
  ∃ b', rollback b now common = Some (b', Ok tt) ∧ node_wf g b' ∧
    bk_best_number b' = h_number (header common) ∧
    bk_best_hash b' = header_hash (header common) ∧
    bk_time b' = reset (bk_time b) now (h_timestamp (header common)) ∧
    ∀ n, n ≤ h_number (header common) → hashes (bk_storage b') !! n = hashes (bk_storage b) !! n.
Proof.
  intros [Hg Hchain Hst Hgl Hhd] [Hrc Hlt Hts [accounts Hacc]]. unfold rollback.
  pose proof (common_state_wf b (header_hash (header common)) Hst) as Hst'.
  destruct (common_state b _) as [states r]. cbn in Hst', Hacc. subst r.
  destruct (restore_accounts_ok (iter_map accounts) (node_clear (inner (bk_db (with_states b states)))))
    as (d & ->). cbn [with_states with_db bk_storage].
  pose proof (cw_range _ _ Hchain _ _ Hrc).
  destruct (unwind_to_wf g (bk_storage b) _ _ Hchain Hrc ltac:(lia))
    as (s' & removed & Hu & Hwf' & Hbn & Hbh & Hlow).
  rewrite Hu. cbn [mbind option_bind]. eexists. split; [reflexivity|].
  pose proof (cw_best _ _ Hwf') as Hbest. rewrite Hbn, Hbh in Hbest.
  destruct (cw_header g s' _ _ Hwf' Hbest) as (body & Hblk).
  assert (Hsub : ∀ h0 blk0, blocks s' !! h0 = Some blk0 → blocks (bk_storage b) !! h0 = Some blk0)
    by (intros ??; by eapply unwind_to_sub).
  split_and!; [|done..| |done].
  - split; cbn; [done..| |].
    + exact (Hhd _ _ (Hsub _ _ Hblk)).
    + intros h0 blk0 Hb0. exact (Hhd _ _ (Hsub _ _ Hb0)).
  - cbn. unfold saturating_to_u64. unfold in_u64 in Hts. by rewrite Z.min_r by lia.
Qed.

(** The clock readings [nows] give timestamps that can be printed. *)
Fixpoint clock_runs (t : TimeManager) (nows : list Z) : Prop :=
  match nows with
  | [] => True
  | now :: nows => ∃ t' ts, next_timestamp t now = Some (t', ts) ∧
      chrono_in_range (saturating_to_u64 ts) = true ∧ clock_runs t' nows
  end.

Lemma reorg_blocks_total g txs nows : ∀ b i,
  node_wf g b → bk_best_number b + Z.of_nat (length nows) ≤ u64_max →
  clock_runs (bk_time b) nows → (∀ k l, txs !! k = Some l → txs_ok l) →
  ∃ b', fold_m (reorg_block txs) b (zip (seqZ i (Z.of_nat (length nows))) nows) = Some b' ∧
    node_wf g b' ∧ bk_best_number b' = bk_best_number b + Z.of_nat (length nows) ∧
    ∀ n, n ≤ bk_best_number b → hashes (bk_storage b') !! n = hashes (bk_storage b) !! n.
Proof.
  induction nows as [|now nows IH]; intros b i Hwf Hroom Hclock Htxs.
  { exists b. cbn. split_and!; [by rewrite zip_with_nil_r|done|lia|done]. }
  cbn [length] in *. destruct Hclock as (t' & ts & Hnext & Hchr & Hclock).
  assert (txs_ok (default [] (txs !! i))) as Hl.
  { destruct (txs !! i) eqn:Ht; [by eapply Htxs|by constructor]. }
  destruct (mine_block_total g b now _ t' ts Hwf Hl ltac:(lia)) as (o & b1 & Hm & Hmined); [by split|].
  destruct Hmined as [Hwf1 _ Hn1 _ Hlow1 _ _ _ Ht1 _ _].
  rewrite <- Ht1 in Hclock.
  destruct (IH b1 (i + 1) Hwf1 ltac:(lia) Hclock Htxs) as (b' & Hf & Hwf' & Hn' & Hlow').
  exists b'. split_and!; [|done|lia|].
  - rewrite seqZ_cons by lia. cbn [zip zip_with fold_m]. unfold reorg_block at 1. cbn [fst snd].
    rewrite Hm. cbn [fmap option_fmap option_map snd].
    replace (Z.pred (Z.of_nat (S (length nows)))) with (Z.of_nat (length nows)) by lia.
    by replace (Z.succ i) with (i + 1) by lia.
  - intros n Hn. rewrite Hlow' by lia. by apply Hlow1.
Qed.

(** ** Properties *)



(** C30: a reorg of depth [d] from a block of the chain whose state is
    available ends with [d] blocks above it, keeps the chain unbroken and
    every block up to the common one, as long as the clock gives each new
    block a timestamp that can be printed, the given transactions are well
    formed and none is a Tempo transaction. *)
Theorem reorg_replaces_blocks g b now nows txs common :
  node_wf g b → can_roll_back b common →
  h_number (header common) + Z.of_nat (length nows) ≤ u64_max →
  clock_runs (reset (bk_time b) now (h_timestamp (header common))) nows →
  (∀ k l, txs !! k = Some l → txs_ok l) →
  ∃ b', reorg b now nows txs common = Some (b', Ok tt) ∧ node_wf g b' ∧
    bk_best_number b' = h_number (header common) + Z.of_nat (length nows) ∧
    ∀ n, n ≤ h_number (header common) → hashes (bk_storage b') !! n = hashes (bk_storage b) !! n.
Proof.
  intros Hwf Hc Hroom Hclock Htxs.
  destruct (rollback_total g b now common Hwf Hc) as (b1 & Hr & Hwf1 & Hn1 & _ & Ht1 & Hlow1).
  rewrite <- Ht1 in Hclock. rewrite <- Hn1 in Hroom.
  destruct (reorg_blocks_total g txs nows b1 0 Hwf1 Hroom Hclock Htxs) as (b' & Hf & Hwf' & Hn' & Hlow').
  exists b'. unfold reorg. rewrite Hr. cbn [mbind option_bind]. rewrite Hf. cbn [mbind option_bind].
  split_and!; [done..|lia|]. intros n Hn. rewrite Hlow' by lia. by apply Hlow1.
Qed.

(** Reverting to a snapshot whose block has left the chain (a snapshot
    that is newer than one reverted to before stays on the backend's list)
    fails, but only after the storage was changed: its best hash is then
    that of a block that does not exist, and the chain is broken. *)
Lemma stale_snapshot_breaks_chain g b now id num h :
  node_wf g b → bk_active_snapshots b !! id = Some (num, h) →
  blocks (bk_storage b) !! h = None → 0 ≤ num < u64_max →
  ∃ b', revert_state_snapshot b now id = Some (b', Err BlockNotFound) ∧
    bk_best_hash b' = h ∧ blocks (bk_storage b') !! h = None ∧
    ∀ g', ¬ chain_wf g' (bk_storage b').
Proof.
  intros Hwf Ha Hb Hn. unfold revert_state_snapshot. rewrite Ha.
  cbn [with_snapshots bk_storage].
  destruct (revert_blocks (bk_storage b) num h) as [s|] eqn:Hr.
  2: { unfold revert_blocks in Hr. rewrite checked_in in Hr by lia. done. }
  cbn [mbind option_bind].
  assert (blocks s !! h = None) as Hs.
  { destruct (blocks s !! h) eqn:Hx; [|done]. apply (revert_blocks_sub _ _ _ _ _ _ Hr) in Hx. congruence. }
  assert (best_hash s = h) as Hbh.
  { unfold revert_blocks in Hr. rewrite checked_in in Hr by lia. by injection Hr as <-. }
  unfold get_block_by_hash. rewrite Hs. eexists. split; [reflexivity|].
  split_and!; [done..|]. intros g' Hwf'. cbn in Hwf'.
  destruct (cw_block _ _ Hwf' _ _ (cw_best _ _ Hwf')) as (blk & Hblk & _). congruence.
Qed.

(** The excess blob gas of the next block is computed with the parent's
    excess and used blob gas exchanged: [do_mine_block] passes them in the
    opposite order of the parameters of [get_next_block_blob_excess_gas].
    The base fee is the one of the fee rules. *)
Lemma next_fees_exchange_blob_gas g b now txs time ts outcome b' :
  node_wf g b → txs_ok txs → bk_best_number b < u64_max → clock_ok b now time ts →
  do_mine_block b now txs = Some (outcome, b') →
  ∃ hd body, blocks (bk_storage b') !! bk_best_hash b' = Some (mkBlock hd body) ∧
    let excess := default 0 (h_excess_blob_gas hd) in
    let used := default 0 (h_blob_gas_used hd) in
    excess_blob_gas (fm_blob_excess_gas_and_price (bk_fees b')) =
      next_block_excess_blob_gas_osaka (fm_blob_params (bk_fees b)) used excess (bk_base_fee b) ∧
    fm_base_fee (bk_fees b') =
      (if bool_decide (bk_base_fee b = 0) then 0
       else calc_next_block_base_fee (h_gas_used hd) (h_gas_limit hd)
              (default 0 (h_base_fee_per_gas hd)) (fm_base_fee_params (bk_fees b))).
Proof.
  intros Hwf Htxs Hlt Hc Hm.
  destruct (mine_block_total g b now txs time ts Hwf Htxs Hlt Hc) as (o & b2 & Hm2 & Hmined).
  rewrite Hm in Hm2. injection Hm2 as <- <-.
  destruct (m_block _ _ _ _ _ _ _ Hmined) as (hd & body & Hb & _ & _ & ->). by exists hd, body.
Qed.
End mining_proofs.

(** ** The small node *)
#[export] Instance small_hash_laws : HashLaws.
Proof. split; [apply small_header_hash_inj|done]. Qed.
#[export] Instance small_node_laws : NodeLaws unit.
Proof. by split. Qed.

Lemma small_backend_wf : node_wf 0 small_backend.
Proof.
  split; cbn; [done|exact (genesis_chain_wf small_genesis 0 eq_refl)|by apply states_new_wf; lia|done|].
  intros h blk [_ <-]%lookup_singleton_Some. done.
Qed.


(** The node after a block that only the first transaction is included in. *)
Definition mined_backend : Backend unit unit unit (gmap Z (AccountInfo unit)) :=
  match do_mine_block (create_state_snapshot small_backend).1 1005 [small_ptx 1 0 21000] with
  | Some (_, b) => b | None => small_backend end.
Lemma mined_backend_step : mine_step (create_state_snapshot small_backend).1 mined_backend.
Proof.
  split; [done|]. exists 1005, [small_ptx 1 0 21000]. unfold mined_backend.
  destruct (mine_block_total 0 (create_state_snapshot small_backend).1 1005 [small_ptx 1 0 21000]
    (mkTimeManager 0 1005 None None) 1005) as (o & b' & -> & _).
  - apply (create_snapshot_spec 0 small_backend small_backend_wf); [apply snapshots_default_wf|done].
  - by repeat constructor.
  - done.
  - done.
  - exists o. split; [by repeat constructor|done].
Qed.


Lemma reorg_replaces_blocks_witness :
  ∃ b', reorg mined_backend 1010 [1010; 1011] {[1 := [small_ptx 1 0 21000]]} small_genesis =
      Some (b', Ok tt) ∧ bk_best_number b' = 2.
Proof.
  destruct (reorg_replaces_blocks 0 mined_backend 1010 [1010; 1011] {[1 := [small_ptx 1 0 21000]]}
    small_genesis) as (b' & Hr & _ & Hn & _).
  - destruct (create_snapshot_spec 0 small_backend small_backend_wf) as (Hwf & _);
      [apply snapshots_default_wf|done|].
    destruct (mine_step_mined 0 _ _ Hwf mined_backend_step) as (? & ? & ? & ? & Hm).
    apply (m_wf _ _ _ _ _ _ _ Hm).
  - split; [by vm_compute|done|done|]. by eexists.
  - done.
  - cbn [clock_runs]. do 2 (do 2 eexists; split; [by vm_compute|]; split; [by vm_compute|]). done.
  - intros k l [_ <-]%lookup_singleton_Some. by repeat constructor.
  - exists b'. exact (conj Hr Hn).
Defined.

Lemma stale_snapshot_breaks_chain_witness :
  ∃ b', revert_state_snapshot
      (with_snapshots small_backend {[3 := (5, 77)]}) 1010 3 = Some (b', Err BlockNotFound) ∧
    bk_best_hash b' = 77.
Proof.
  destruct (stale_snapshot_breaks_chain 0 (with_snapshots small_backend {[3 := (5, 77)]}) 1010 3 5 77)
    as (b' & H1 & H2 & _).
  - destruct small_backend_wf. by split.
  - by vm_compute.
  - by vm_compute.
  - done.
  - by exists b'.
Defined.

Lemma next_fees_exchange_blob_gas_witness :
  ∃ hd body, blocks (bk_storage mined_backend) !! bk_best_hash mined_backend = Some (mkBlock hd body) ∧
    fm_base_fee (bk_fees mined_backend) = 28.
Proof.
  destruct (next_fees_exchange_blob_gas 0 (create_state_snapshot small_backend).1 1005
    [small_ptx 1 0 21000] (mkTimeManager 0 1005 None None) 1005
    (mkMinedBlockOutcome 1 [small_ptx 1 0 21000] []) mined_backend) as (hd & body & Hb & _ & _).
  - apply (create_snapshot_spec 0 small_backend small_backend_wf); [apply snapshots_default_wf|done].
  - by repeat constructor.
  - done.
  - done.
  - by vm_compute.
  - exists hd, body. split; [done|by vm_compute].
Defined.
