(* ===== verification/Service.v ===== *)
(** * The node service: anvil/src/service.rs

    [NodeService] drives block production: it polls the miner for batches of
    pool transactions, queues them at the [BlockProducer], which mines one
    block at a time in a background task, and prunes the pool after each
    block.  The backend is shared with the task; a task runs [do_mine_block]
    in one step.  [None] is a panic.  Logging, the fee history task and the
    filters of a poll are left out. *)
From stdpp Require Import base list gmap relations.
From Stdlib Require Import ZArith Lia.
From S2P Require Import Prelude Containers PoolTx PendingQueue ReadyQueue ReadyInvariant ReadyProofs.
From S2P Require Import Pool PoolProofs Miner PoolContent Fees Time Snapshots StateDb BlockStates.
From S2P Require Import Blockchain Executor ExecutorProofs Backend SampleNode Mining ChainInvariant.
From S2P Require Import MiningProofs.
#[local] Open Scope list_scope.

(** The transactions of the node as the pool sees them: the fee cap and the
    type byte of the envelope. *)
Definition tx_type (k : TxKind) : Z :=
  match k with
  | Legacy => 0 | Eip2930 => 1 | Eip1559 => 2 | Eip4844 => 3 | Eip7702 => 4
  | Deposit => 126 | Tempo => 0x76
  end.
#[export] Instance node_envelope `{!EvmTypes, !Evm} : TxEnvelope (MaybeImpersonated Envelope) := {|
  tx_max_fee_per_gas t := tx_max_fee (envelope t);
  tx_ty t := tx_type (tx_kind (envelope t));
|}.

Section service.
Context {Float BaseFeeParams BlobParams Snap : Type}.
Context `{!FeeRules Float BaseFeeParams BlobParams, !EvmTypes, !Evm, !BlockHashing, !NodeEnv BlobParams}.
Context `{!FullDatabase Db Snap, !HashOrder Address, !HashOrder TxMarker}.
#[local] Abbreviation Node := (Backend Float BaseFeeParams BlobParams Snap).
#[local] Abbreviation NodeTx := (MaybeImpersonated Envelope) (only parsing).
#[local] Abbreviation Batch := (list (PoolTransaction (MaybeImpersonated Envelope))).

(** The background task of the producer. *)
Inductive MiningTask :=
| Running (txs : Batch)
| Finished (outcome : MinedBlockOutcome NodeTx)
| Panicked.

(** [NodeService] with its [BlockProducer]: [sv_idle] says whether the
    producer holds the backend. *)
Record NodeService := mkNodeService {
  sv_pool : PoolInner NodeTx;
  sv_miner : Miner NodeTx;
  sv_backend : Node;
  sv_idle : bool;
  sv_mining : option MiningTask;
  sv_queued : list Batch;
}.
Implicit Types sv : NodeService.

Definition service_new (p : PoolInner NodeTx) (b : Node) (m : Miner NodeTx) : NodeService :=
  mkNodeService p m b true None [].

Definition with_pool sv p : NodeService :=
  mkNodeService p (sv_miner sv) (sv_backend sv) (sv_idle sv) (sv_mining sv) (sv_queued sv).
Definition with_producer sv (idle : bool) (mining : option MiningTask) (queued : list Batch) : NodeService :=
  mkNodeService (sv_pool sv) (sv_miner sv) (sv_backend sv) idle mining queued.

(** ** [BlockProducer::poll_next] *)
Definition producer_spawn sv : NodeService :=
  match sv_queued sv with
  | [] => sv
  | txs :: queued =>
      if sv_idle sv then with_producer sv false (Some (Running txs)) queued else sv
  end.

Definition producer_poll sv : option (NodeService * option (MinedBlockOutcome NodeTx)) :=
  let sv := producer_spawn sv in
  match sv_mining sv with
  | None => Some (sv, None)
  | Some (Running _) => Some (sv, None)
  | Some (Finished outcome) => Some (with_producer sv true None (sv_queued sv), Some outcome)
  | Some Panicked => None
  end.

(** What the spawned task does, when the clock reads [now]. *)
Definition run_task (now : Z) sv : NodeService :=
  match sv_mining sv with
  | Some (Running txs) =>
      match do_mine_block (sv_backend sv) now txs with
      | Some (outcome, b) =>
          mkNodeService (sv_pool sv) (sv_miner sv) b (sv_idle sv) (Some (Finished outcome)) (sv_queued sv)
      | None => with_producer sv (sv_idle sv) (Some Panicked) (sv_queued sv)
      end
  | _ => sv
  end.

(** ** [NodeService::poll] *)
(** The inner loop's condition and body: was a block finished? *)
Definition poll_block sv : option (NodeService * bool) :=
  '(sv, outcome) ← producer_poll sv;
  match outcome with
  | Some outcome => '(p, _) ← on_mined_block (sv_pool sv) outcome; Some (with_pool sv p, true)
  | None => Some (sv, false)
  end.

(** Was the miner ready? *)
Definition poll_miner (fuel : nat) sv : option (NodeService * bool) :=
  '(m, txs) ← miner_poll fuel (sv_miner sv) (sv_pool sv);
  let with_queued (queued : list Batch) : NodeService :=
    mkNodeService (sv_pool sv) m (sv_backend sv) (sv_idle sv) (sv_mining sv) queued in
  Some (match txs with
        | Some txs => (with_queued (sv_queued sv ++ [txs]), true)
        | None => (with_queued (sv_queued sv), false)
        end).

(** One turn of the two loops, while no task makes progress. *)
Definition poll_turn (fuel : nat) sv : option (NodeService + NodeService) :=
  '(sv, mined) ← poll_block sv;
  if mined : bool then Some (inl sv)
  else
    '(sv, fed) ← poll_miner fuel sv;
    Some (if fed : bool then inl sv else inr sv).
Definition service_poll (fuel turns : nat) sv : option NodeService := loop (poll_turn fuel) turns sv.

(** ** Requests: [Pool::add_transaction] notifies the miner's channel, which
    holds one more message than its buffer. *)
Definition TX_LISTENER_BUFFER_SIZE : nat := 2048.
Definition notify_listener (rx : list TxHash) (h : TxHash) : list TxHash :=
  if bool_decide (length rx < S TX_LISTENER_BUFFER_SIZE)%nat then rx ++ [h] else rx.
Definition notify_mode (hs : list TxHash) (m : MiningMode) : MiningMode :=
  let notify a := mkReadyTransactionMiner (max_transactions a) (has_pending_txs a)
                    (foldl notify_listener (rx a) hs) in
  match m with
  | MAuto a => MAuto (notify a)
  | MMixed a f => MMixed (notify a) f
  | m => m
  end.
Definition service_add sv (tx : PoolTransaction NodeTx) (now : Z) :
    option (NodeService * result (PoolError NodeTx) (AddedTransaction NodeTx)) :=
  '(p, res) ← add_transaction (sv_pool sv) tx now;
  let hs := match res with Ok (AddedToReady r) => ar_hash r :: promoted r | _ => [] end in
  let m := mkMiner (notify_mode hs (mode (sv_miner sv))) (force_transactions (sv_miner sv))
             (woken (sv_miner sv)) in
  Some (mkNodeService p m (sv_backend sv) (sv_idle sv) (sv_mining sv) (sv_queued sv), res).

(** ** The steps of a running node, in any order, with what they log *)
Inductive event := Handed (txs : Batch) | Mined (txs : Batch).

Definition node_tx_ok (tx : PoolTransaction NodeTx) : Prop :=
  not_tempo tx ∧ Executor.pending_wf (pending_transaction tx).

Inductive service_step sv : list event → NodeService → Prop :=
| step_add tx now sv' res :
    tx_wf tx → node_tx_ok tx → id_room (sv_pool sv) 1 →
    service_add sv tx now = Some (sv', res) → service_step sv [] sv'
| step_block sv' mined : poll_block sv = Some (sv', mined) → service_step sv [] sv'
| step_hand fuel sv' txs :
    poll_miner fuel sv = Some (sv', true) → sv_queued sv' = sv_queued sv ++ [txs] →
    service_step sv [Handed txs] sv'
| step_no_hand fuel sv' : poll_miner fuel sv = Some (sv', false) → service_step sv [] sv'
| step_task now txs :
    sv_mining sv = Some (Running txs) → bk_best_number (sv_backend sv) < u64_max →
    is_Some (do_mine_block (sv_backend sv) now txs) → service_step sv [Mined txs] (run_task now sv).

Inductive service_run sv : list event → NodeService → Prop :=
| run_none : service_run sv [] sv
| run_step evs sv1 evs' sv2 :
    service_run sv evs sv1 → service_step sv1 evs' sv2 → service_run sv (evs ++ evs') sv2.

Definition handed (evs : list event) : list Batch :=
  omap (λ e, match e with Handed txs => Some txs | _ => None end) evs.
Definition mined_batches (evs : list event) : list Batch :=
  omap (λ e, match e with Mined txs => Some txs | _ => None end) evs.
(** The batch that is being mined. *)
Definition busy sv : list Batch :=
  match sv_mining sv with Some (Running txs) => [txs] | _ => [] end.

(** One block is mined at a time, the pool and the backend are well formed,
    and everything on its way to a block is a transaction of the node. *)
Record service_wf (g : Z) sv : Prop := {
  sw_pool : pool_wf (sv_pool sv);
  sw_room : id_room (sv_pool sv) 0;
  sw_txs : pool_all node_tx_ok (sv_pool sv);
  sw_forced : all_of node_tx_ok (force_transactions (sv_miner sv));
  sw_node : node_wf g (sv_backend sv);
  sw_queued : Forall txs_ok (sv_queued sv);
  sw_idle : sv_idle sv = true ↔ sv_mining sv = None;
  sw_busy : Forall txs_ok (busy sv);
  sw_panic : sv_mining sv ≠ Some Panicked;
}.

Context `{!EvmLaws, !HashLaws, !NodeLaws BlobParams}.

(** ** Each step keeps the invariant *)
Lemma producer_spawn_wf g sv : service_wf g sv →
  service_wf g (producer_spawn sv) ∧
  busy (producer_spawn sv) ++ sv_queued (producer_spawn sv) = busy sv ++ sv_queued sv.
Proof.
  intros Hwf. unfold producer_spawn. destruct (sv_queued sv) as [|txs queued] eqn:Hq; [by rewrite Hq|].
  destruct (sv_idle sv) eqn:Hi; [|by rewrite Hq].
  pose proof (sw_queued _ _ Hwf) as Hok. rewrite Hq in Hok. apply Forall_cons in Hok as [Ht Hok].
  apply (sw_idle _ _ Hwf) in Hi. split.
  - destruct Hwf. split; cbn; try done. by repeat constructor.
  - unfold busy. by rewrite Hi.
Qed.

Lemma poll_block_total g sv : service_wf g sv →
  ∃ sv' mined, poll_block sv = Some (sv', mined) ∧ service_wf g sv' ∧
    busy sv' ++ sv_queued sv' = busy sv ++ sv_queued sv ∧ sv_backend sv' = sv_backend sv ∧
    (mined = true ↔ ∃ o, sv_mining sv = Some (Finished o)).
Proof.
  intros Hwf. destruct (producer_spawn_wf g sv Hwf) as [Hwf1 Hb]. unfold poll_block, producer_poll.
  assert (sv_backend (producer_spawn sv) = sv_backend sv) as Hbk.
  { unfold producer_spawn. by destruct (sv_queued sv), (sv_idle sv). }
  assert (∀ o, sv_mining (producer_spawn sv) = Some (Finished o) ↔ sv_mining sv = Some (Finished o)) as Hm.
  { intros o. unfold producer_spawn. destruct (sv_queued sv); [done|].
    destruct (sv_idle sv) eqn:Hi; [|done]. apply (sw_idle _ _ Hwf) in Hi. by rewrite Hi. }
  set (sv1 := producer_spawn sv) in *.
  destruct (sv_mining sv1) as [[txs|o|]|] eqn:Hs; cbn [mbind option_bind].
  - exists sv1, false. split_and!; [done..|]. split; [done|]. intros [o Ho%Hm]. congruence.
  - cbn [with_producer sv_pool].
    destruct (on_mined_block_total (sv_pool sv1) o 0) as (p' & res & Hp & Hpw & Hpr);
      [apply Hwf1..|]. rewrite Hp. cbn [mbind option_bind].
    do 2 eexists. split; [reflexivity|]. split_and!.
    + pose proof (on_mined_block_all node_tx_ok _ _ 0 _ _ (sw_pool _ _ Hwf1) (sw_room _ _ Hwf1)
        (sw_txs _ _ Hwf1) Hp). destruct Hwf1. by split.
    + rewrite <- Hb. unfold busy. by rewrite Hs.
    + done.
    + split; [|done]. intros _. exists o. by apply Hm.
  - by destruct (sw_panic _ _ Hwf1).
  - exists sv1, false. split_and!; [done..|]. split; [done|]. intros [o Ho%Hm]. congruence.
Qed.

Lemma poll_miner_wf g fuel sv sv' fed : service_wf g sv → poll_miner fuel sv = Some (sv', fed) →
  service_wf g sv' ∧ busy sv' = busy sv ∧ sv_backend sv' = sv_backend sv ∧
  (fed = false → sv_queued sv' = sv_queued sv).
Proof.
  intros Hwf. unfold poll_miner.
  destruct (miner_poll fuel (sv_miner sv) (sv_pool sv)) as [[m txs]|] eqn:Hm; [|done].
  apply (miner_poll_all node_tx_ok) in Hm as [Ht Hf]; [|apply Hwf..]. cbn.
  destruct Hwf. destruct txs as [txs|]; intros [= <- <-]; (split; [split; cbn; try done|done]).
  apply Forall_app. split; [done|]. constructor; [by apply Ht|constructor].
Qed.

Lemma run_task_total g sv now txs r : service_wf g sv → sv_mining sv = Some (Running txs) →
  bk_best_number (sv_backend sv) < u64_max → do_mine_block (sv_backend sv) now txs = Some r →
  service_wf g (run_task now sv) ∧ sv_mining (run_task now sv) = Some (Finished r.1) ∧
  sv_queued (run_task now sv) = sv_queued sv ∧
  sv_backend (run_task now sv) = r.2 ∧
  bk_best_number r.2 = bk_best_number (sv_backend sv) + 1.
Proof.
  intros Hwf Hm Hlt Hmine. unfold run_task. rewrite Hm, Hmine. destruct r as [o b].
  pose proof (sw_busy _ _ Hwf) as Hb. unfold busy in Hb. rewrite Hm in Hb.
  apply Forall_cons in Hb as [Htxs _].
  destruct (mine_block_clock g _ now txs _ (sw_node _ _ Hwf) Htxs Hlt Hmine) as (time & ts & Hc).
  destruct (mine_block_total g _ now txs time ts (sw_node _ _ Hwf) Htxs Hlt Hc) as (o' & b' & Hm' & Hd).
  rewrite Hmine in Hm'. injection Hm' as <- <-.
  split_and!; [|done..|apply (m_best _ _ _ _ _ _ _ Hd)].
  pose proof (m_wf _ _ _ _ _ _ _ Hd). destruct Hwf as [????????]. split; cbn; try done.
  rewrite sw_idle0, Hm. by split.
Qed.

Lemma service_add_wf g sv tx now sv' res : service_wf g sv → tx_wf tx → node_tx_ok tx →
  id_room (sv_pool sv) 1 → service_add sv tx now = Some (sv', res) →
  service_wf g sv' ∧ busy sv' = busy sv ∧ sv_queued sv' = sv_queued sv ∧ sv_backend sv' = sv_backend sv.
Proof.
  intros Hwf Htx Hok Hroom. unfold service_add.
  destruct (add_transaction_total (sv_pool sv) tx now 0 (sw_pool _ _ Hwf) Htx Hroom)
    as (p' & r & Ha & Hpw & Hpr & _).
  pose proof (add_transaction_all node_tx_ok _ tx now 0 _ _ (sw_pool _ _ Hwf) Htx Hroom
    (sw_txs _ _ Hwf) Hok Ha) as Hall.
  rewrite Ha. cbn [mbind option_bind]. intros [= <- <-]. destruct Hwf. by split; [split|].
Qed.

Lemma service_step_wf g sv evs sv' : service_wf g sv → service_step sv evs sv' →
  service_wf g sv' ∧
  busy sv ++ sv_queued sv ++ handed evs = mined_batches evs ++ busy sv' ++ sv_queued sv' ∧
  bk_best_number (sv_backend sv') =
    bk_best_number (sv_backend sv) + Z.of_nat (length (mined_batches evs)).
Proof.
  intros Hwf Hs. destruct Hs as [tx now sv' res Htx Hok Hroom Ha|sv' m Hp|fuel sv' txs Hp Hq|fuel sv' Hp
    |now txs Hm Hlt [r Hr]]; cbn [handed mined_batches omap list_omap length app].
  - destruct (service_add_wf g _ _ _ _ _ Hwf Htx Hok Hroom Ha) as (? & -> & -> & ->).
    rewrite app_nil_r. split_and!; [done..|lia].
  - destruct (poll_block_total g sv Hwf) as (sv2 & m2 & Hp2 & Hwf2 & Hb & Hbk & _).
    rewrite Hp in Hp2. injection Hp2 as <- <-. rewrite app_nil_r, Hb, Hbk. split_and!; [done..|lia].
  - destruct (poll_miner_wf g _ _ _ _ Hwf Hp) as (? & -> & -> & _). rewrite Hq.
    split_and!; [done..|lia].
  - destruct (poll_miner_wf g _ _ _ _ Hwf Hp) as (? & -> & -> & Hq). rewrite Hq by done.
    rewrite app_nil_r. split_and!; [done..|lia].
  - destruct (run_task_total g _ _ _ _ Hwf Hm Hlt Hr) as (? & Hm' & -> & -> & Hn).
    unfold busy. rewrite Hm, Hm', app_nil_r, Hn. split_and!; [done..|cbn; lia].
Qed.

Lemma handed_app e1 e2 : handed (e1 ++ e2) = handed e1 ++ handed e2.
Proof. apply omap_app. Qed.
Lemma mined_app e1 e2 : mined_batches (e1 ++ e2) = mined_batches e1 ++ mined_batches e2.
Proof. apply omap_app. Qed.

(** C22: whatever the order of requests, polls and task progress, one block is
    mined at a time, and the batches that the miner hands out are mined each
    exactly once and in the order in which they were handed out: those handed
    out are those mined, then the one being mined, then those queued; the chain
    grows by one block for each.  Throughout, the node stays well formed, a
    poll of the block producer returns, and mining the batch at hand returns
    if the clock gives a timestamp that can be printed.  A step that mines is
    one in which it returns: with another timestamp it panics.  Presupposed is
    that the transactions that are added are well formed and none is a Tempo
    transaction, that the pool's identifiers and the block numbers have room,
    and that a poll of the miner is one that ends. *)
Theorem batches_mined_in_order g p b m evs sv :
  service_wf g (service_new p b m) → service_run (service_new p b m) evs sv →
  service_wf g sv ∧ handed evs = mined_batches evs ++ busy sv ++ sv_queued sv ∧
  bk_best_number (sv_backend sv) = bk_best_number b + Z.of_nat (length (mined_batches evs)) ∧
  (∃ sv' mined, poll_block sv = Some (sv', mined)) ∧
  (∀ now txs time ts, sv_mining sv = Some (Running txs) → bk_best_number (sv_backend sv) < u64_max →
     clock_ok (sv_backend sv) now time ts → is_Some (do_mine_block (sv_backend sv) now txs)).
Proof.
  intros Hwf Hr.
  cut (service_wf g sv ∧ handed evs = mined_batches evs ++ busy sv ++ sv_queued sv ∧
    bk_best_number (sv_backend sv) = bk_best_number b + Z.of_nat (length (mined_batches evs))).
  { intros (Hwf' & Hh & Hn). split_and!; [done..| |].
    - destruct (poll_block_total g sv Hwf') as (sv' & mined & Hp & _). by exists sv', mined.
    - intros now txs time ts Hm Hlt Hc. pose proof (sw_busy _ _ Hwf') as Hb. unfold busy in Hb. rewrite Hm in Hb.
      apply Forall_cons in Hb as [Htxs _].
      destruct (mine_block_total g _ now txs time ts (sw_node _ _ Hwf') Htxs Hlt Hc) as (o & b' & -> & _). by eexists. }
  induction Hr as [|evs sv1 evs' sv2 Hr IH Hs].
  { split_and!; [done|done|cbn; lia]. }
  destruct IH as (Hwf1 & Hh1 & Hn1). destruct (service_step_wf g _ _ _ Hwf1 Hs) as (Hwf2 & Hh2 & Hn2).
  split; [done|]. rewrite handed_app, mined_app, Hh1, length_app, <- !app_assoc.
  split; [|lia]. f_equal. by rewrite <- Hh2.
Qed.

(** ** Draining the queue *)
(** The task finishes, the block is taken and the next task starts, for each
    clock reading. *)
Fixpoint drain (nows : list Z) sv : option NodeService :=
  match nows with
  | [] => Some sv
  | now :: nows =>
      '(sv, _) ← poll_block sv;
      '(sv, _) ← poll_block (run_task now sv);
      drain nows sv
  end.

(** Nothing has finished that was not taken. *)
Definition nothing_finished sv : Prop := sv_mining sv = None ∨ ∃ txs, sv_mining sv = Some (Running txs).

Lemma spawn_running g sv txs rest :
  service_wf g sv → nothing_finished sv → busy sv ++ sv_queued sv = txs :: rest →
  let sv1 := producer_spawn sv in
  poll_block sv = Some (sv1, false) ∧ sv_mining sv1 = Some (Running txs) ∧ sv_queued sv1 = rest ∧
  sv_backend sv1 = sv_backend sv.
Proof.
  intros Hwf Hnf Hq. unfold poll_block, producer_poll, producer_spawn.
  pose proof (sw_idle _ _ Hwf) as Hidle. unfold busy in Hq. destruct Hnf as [Hm|[txs' Hm]]; rewrite Hm in *.
  - cbn in Hq. rewrite Hq. rewrite (proj2 Hidle eq_refl). done.
  - injection Hq as -> Hr. assert (sv_idle sv = false) as Hi.
    { destruct (sv_idle sv); [|done]. by discriminate (proj1 Hidle eq_refl). }
    rewrite Hi. destruct (sv_queued sv) eqn:Hqq; rewrite Hm; cbn; rewrite Hqq; by split_and!.
Qed.

Lemma take_finished g sv o : service_wf g sv → sv_mining sv = Some (Finished o) →
  ∃ sv', poll_block sv = Some (sv', true) ∧ service_wf g sv' ∧ sv_mining sv' = None ∧
    sv_queued sv' = sv_queued sv ∧ sv_backend sv' = sv_backend sv.
Proof.
  intros Hwf Hm. destruct (poll_block_total g sv Hwf) as (sv' & m & Hp & Hwf' & Hb & Hbk & Hf).
  assert (m = true) as -> by (apply Hf; by exists o). exists sv'. split_and!; [done|done| | |done].
  all: pose proof (sw_idle _ _ Hwf) as Hidle; rewrite Hm in Hidle.
  all: assert (producer_spawn sv = sv) as Hs
    by (unfold producer_spawn; destruct (sv_queued sv); [done|]; destruct (sv_idle sv); [|done];
        discriminate (proj1 Hidle eq_refl)).
  all: unfold poll_block, producer_poll in Hp; rewrite Hs, Hm in Hp; cbn [mbind option_bind] in Hp.
  all: by destruct (on_mined_block _ o) as [[p' ?]|]; [injection Hp as <-|].
Qed.

Lemma drain_round g sv now rest txs time ts :
  service_wf g sv → nothing_finished sv → busy sv ++ sv_queued sv = txs :: rest →
  bk_best_number (sv_backend sv) < u64_max → clock_ok (sv_backend sv) now time ts →
  ∃ sv1 m1 sv2 m2, poll_block sv = Some (sv1, m1) ∧ poll_block (run_task now sv1) = Some (sv2, m2) ∧
    service_wf g sv2 ∧ nothing_finished sv2 ∧ busy sv2 ++ sv_queued sv2 = rest ∧
    bk_best_number (sv_backend sv2) = bk_best_number (sv_backend sv) + 1 ∧
    bk_time (sv_backend sv2) = time.
Proof.
  intros Hwf Hnf Hq Hlt Hc. destruct (spawn_running g sv txs rest Hwf Hnf Hq) as (Hp & Hm & Hr & Hbk).
  destruct (producer_spawn_wf g sv Hwf) as [Hwf1 _]. set (sv1 := producer_spawn sv) in *.
  rewrite <- Hbk in Hlt, Hc. pose proof (sw_busy _ _ Hwf1) as Htxs. unfold busy in Htxs. rewrite Hm in Htxs.
  apply Forall_cons in Htxs as [Htxs _].
  destruct (mine_block_total g _ now txs time ts (sw_node _ _ Hwf1) Htxs Hlt Hc) as (o & b & Hmine & Hd).
  destruct (run_task_total g sv1 now txs _ Hwf1 Hm Hlt Hmine) as (Hwf2 & Hm2 & Hq2 & Hb2 & Hn2).
  destruct (take_finished g _ o Hwf2 Hm2) as (sv2 & Hp2 & Hwf3 & Hm3 & Hq3 & Hb3).
  exists sv1, false, sv2, true. split_and!; [done..|by left| | |].
  - unfold busy. rewrite Hm3, Hq3, Hq2. done.
  - rewrite Hb3, Hb2, Hn2. by rewrite Hbk.
  - rewrite Hb3, Hb2. apply (m_time _ _ _ _ _ _ _ Hd).
Qed.

Lemma drain_total g nows : ∀ sv,
  service_wf g sv → nothing_finished sv → length nows = length (busy sv ++ sv_queued sv) →
  bk_best_number (sv_backend sv) + Z.of_nat (length nows) ≤ u64_max →
  clock_runs (bk_time (sv_backend sv)) nows →
  ∃ sv', drain nows sv = Some sv' ∧ service_wf g sv' ∧ sv_queued sv' = [] ∧ sv_mining sv' = None ∧
    bk_best_number (sv_backend sv') = bk_best_number (sv_backend sv) + Z.of_nat (length nows).
Proof.
  induction nows as [|now nows IH]; intros sv Hwf Hnf Hlen Hroom Hclock.
  { exists sv. symmetry in Hlen. apply nil_length_inv in Hlen. apply app_eq_nil in Hlen as [Hb Hq].
    split_and!; [done..| |cbn; lia]. destruct Hnf as [|[txs Hm]]; [done|]. unfold busy in Hb. by rewrite Hm in Hb. }
  destruct (busy sv ++ sv_queued sv) as [|txs rest] eqn:Hq; [done|]. cbn [length] in *.
  destruct Hclock as (time & ts & Hts & Hc & Hclock).
  destruct (drain_round g sv now rest txs time ts Hwf Hnf Hq) as
    (sv1 & m1 & sv2 & m2 & Hp1 & Hp2 & Hwf2 & Hnf2 & Hq2 & Hn2 & Ht2); [lia|done|].
  destruct (IH sv2 Hwf2 Hnf2) as (sv' & Hd & Hwf' & Hq' & Hm' & Hn').
  { rewrite Hq2. by injection Hlen. }
  { rewrite Hn2. lia. }
  { by rewrite Ht2. }
  exists sv'. cbn [drain]. rewrite Hp1. cbn [mbind option_bind]. rewrite Hp2. cbn [mbind option_bind].
  split_and!; [done..|]. rewrite Hn', Hn2. lia.
Qed.

(** The backlog of batches drains: with a clock reading for the batch
    being mined and for each one queued, that many rounds of starting a task,
    running it and taking its block leave nothing queued or in progress, and
    the chain is longer by that many blocks. *)
Lemma queued_batches_drain g sv nows :
  service_wf g sv → nothing_finished sv → length nows = length (busy sv ++ sv_queued sv) →
  bk_best_number (sv_backend sv) + Z.of_nat (length nows) ≤ u64_max →
  clock_runs (bk_time (sv_backend sv)) nows →
  ∃ sv', drain nows sv = Some sv' ∧ sv_queued sv' = [] ∧ sv_mining sv' = None ∧ sv_idle sv' = true ∧
    bk_best_number (sv_backend sv') = bk_best_number (sv_backend sv) + Z.of_nat (length nows).
Proof.
  intros Hwf Hnf Hl Hr Hc. destruct (drain_total g nows sv Hwf Hnf Hl Hr Hc) as (sv' & ? & Hwf' & ? & Hm & ?).
  exists sv'. split_and!; [done..| |done]. by apply (sw_idle _ _ Hwf').
Qed.

(** ** What the automatic miner makes of the loop *)
Lemma auto_poll_full m (p : PoolInner NodeTx) txs : has_pending_txs m ≠ Some false → rx m = [] →
  iter_take (max_transactions m) (ready_iterator p) = Some txs → length txs = max_transactions m →
  max_transactions m ≠ O →
  auto_poll m p = Some (mkReadyTransactionMiner (max_transactions m) (Some true) [], Some txs).
Proof.
  intros Hh Hr Ht Hl Hne. unfold auto_poll. rewrite Hr, bool_decide_false by done. rewrite Ht. cbn.
  rewrite Hl, bool_decide_true by done. destruct txs; [by rewrite <- Hl in Hne|done].
Qed.

(** While a batch is being mined, the turns of a poll do nothing but queue
    the same batch again. *)
Definition spins sv (m : ReadyTransactionMiner) (txs : Batch) : Prop :=
  (∃ txs', sv_mining sv = Some (Running txs')) ∧ sv_idle sv = false ∧
  mode (sv_miner sv) = MAuto m ∧ force_transactions (sv_miner sv) = None ∧
  has_pending_txs m ≠ Some false ∧ rx m = [] ∧ max_transactions m ≠ O ∧
  iter_take (max_transactions m) (ready_iterator (sv_pool sv)) = Some txs ∧
  length txs = max_transactions m.

Lemma spinning_turn fuel sv m txs : spins sv m txs →
  ∃ sv' m', poll_turn fuel sv = Some (inl sv') ∧ spins sv' m' txs ∧
    sv_queued sv' = sv_queued sv ++ [txs].
Proof.
  intros ((txs' & Hm) & Hi & Hmode & Hforce & Hh & Hr & Hne & Ht & Hl).
  pose proof (auto_poll_full m (sv_pool sv) txs Hh Hr Ht Hl Hne) as Ha.
  assert (poll_block sv = Some (sv, false)) as Hp.
  { unfold poll_block, producer_poll, producer_spawn. rewrite Hi.
    destruct (sv_queued sv); by rewrite Hm. }
  unfold poll_turn. rewrite Hp. cbn [mbind option_bind]. unfold poll_miner, miner_poll.
  rewrite Hmode. unfold mode_poll. rewrite Ha. cbn [mbind option_bind]. rewrite Hforce.
  cbn [mbind option_bind]. do 2 eexists. split; [reflexivity|]. split; [|done].
  split_and!; cbn; try done. by exists txs'.
Qed.

(** A poll of the service does not return while a block is
    being mined when the pool holds a full batch for the automatic miner
    ([max_transactions] ready transactions): the miner is ready at every
    turn, and every turn queues the same batch once more. *)
Lemma full_batch_never_yields fuel sv m txs :
  spins sv m txs →
  (∀ turns, service_poll fuel turns sv = None) ∧
  ∀ n, ∃ sv', Nat.iter n (λ o, o ≫= λ sv, poll_turn fuel sv ≫= λ r,
                 match r with inl sv => Some sv | inr _ => None end) (Some sv) = Some sv' ∧
    sv_queued sv' = sv_queued sv ++ replicate n txs.
Proof.
  intros Hs. split.
  - intros turns. revert sv m Hs. induction turns as [|turns IH]; intros sv m Hs; [done|].
    destruct (spinning_turn fuel sv m txs Hs) as (sv' & m' & Ht & Hs' & _).
    unfold service_poll in *. cbn [loop]. rewrite Ht. by eapply IH.
  - intros n. assert (∃ sv' m', Nat.iter n (λ o, o ≫= λ sv, poll_turn fuel sv ≫= λ r,
      match r with inl sv => Some sv | inr _ => None end) (Some sv) = Some sv' ∧ spins sv' m' txs ∧
      sv_queued sv' = sv_queued sv ++ replicate n txs) as (sv' & m' & ? & ? & ?); [|by exists sv'].
    induction n as [|n (sv' & m' & Hi & Hs' & Hq)].
    { exists sv, m. split_and!; [done..|]. by rewrite app_nil_r. }
    destruct (spinning_turn fuel sv' m' txs Hs') as (sv2 & m2 & Ht & Hs2 & Hq2).
    exists sv2, m2. cbn [Nat.iter nat_rect]. unfold Nat.iter in Hi. rewrite Hi. cbn. rewrite Ht. cbn.
    split_and!; [done..|]. by rewrite Hq2, Hq, <- app_assoc, <- replicate_cons_app.
Qed.

(** Once the automatic miner handed out fewer than
    [max_transactions] transactions, it stays pending until a transaction is
    announced, whatever became of the batch and whatever the pool holds: a
    transaction of the batch that the block skipped (no gas left) stays ready
    in the pool and is not handed out again. *)
Lemma skipped_transactions_wait fuel sv sv1 m txs sv2 :
  mode (sv_miner sv) = MAuto m → force_transactions (sv_miner sv) = None →
  poll_miner fuel sv = Some (sv1, true) → sv_queued sv1 = sv_queued sv ++ [txs] →
  (length txs < max_transactions m)%nat → sv_miner sv2 = sv_miner sv1 →
  poll_miner fuel sv2 = Some (sv2, false).
Proof.
  intros Hmode Hforce. unfold poll_miner, miner_poll. rewrite Hmode, Hforce. unfold mode_poll, auto_poll.
  case_bool_decide; [done|].
  destruct (iter_take (max_transactions m) (ready_iterator (sv_pool sv))) as [l|]; [|done].
  cbn [mbind option_bind]. destruct l as [|tx l]; cbn [mbind option_bind]; [done|].
  intros [= <-]. cbn. intros Hq%(inj _). injection Hq as <-. intros Hlen Hm. rewrite Hm. cbn.
  rewrite (bool_decide_false (max_transactions m ≤ _)%nat) by (cbn in Hlen; lia).
  rewrite bool_decide_true by done. cbn. destruct sv2. cbn in Hm. rewrite Hm. cbn in Hlen.
  by rewrite (bool_decide_false (max_transactions m ≤ S (length l))%nat) by lia.
Qed.
End service.

(** ** The small node at work *)
#[local] Instance small_markers : HashOrder TxMarker := elements_order TxMarker.

Definition small_service (m : MiningMode) : NodeService :=
  service_new pool_default small_backend (miner_new m).
Lemma small_service_wf m : service_wf 0 (small_service m).
Proof.
  split; cbn; try done.
  - apply pool_default_wf.
  - apply small_backend_wf.
Qed.

(** A request adds a transaction, the miner hands it out, and it is mined. *)
Definition small_added : NodeService :=
  default (small_service MNone)
    (fst <$> service_add (small_service (instant 10 [])) (small_ptx 1 0 21000) 1).
Definition small_handed : NodeService := default small_added (fst <$> poll_miner 5 small_added).
Definition small_running : NodeService := default small_added (fst <$> poll_block small_handed).

Lemma small_tx_ok nonce : node_tx_ok (small_ptx 1 nonce 21000).
Proof. by split. Qed.
Lemma small_tx_wf nonce : tx_wf (small_ptx 1 nonce 21000).
Proof. split; cbn; [apply NoDup_nil_2|by intros m ?%not_elem_of_nil]. Qed.

Definition small_tx1 : PoolTransaction (MaybeImpersonated (@Envelope small_types)) :=
  small_ptx 1 0 21000.
Definition small_batch : list (PoolTransaction (MaybeImpersonated (@Envelope small_types))) :=
  [small_tx1].
Lemma batches_mined_in_order_witness :
  handed ([] ++ [Handed small_batch] ++ [] ++ [Mined small_batch]) =
    [small_batch] ∧
  bk_best_number (sv_backend (run_task 1005 small_running)) = 1.
Proof.
  destruct (batches_mined_in_order 0 pool_default small_backend (miner_new (instant 10 []))
    ((([] ++ []) ++ [Handed small_batch]) ++ [] ++ [Mined small_batch])
    (run_task 1005 small_running)) as (_ & _ & Hn & _).
  - exact (small_service_wf _).
  - rewrite app_assoc. eapply run_step; [eapply run_step; [eapply run_step; [eapply run_step|]|]|].
    + apply run_none.
    + eapply (step_add _ small_tx1 1 small_added);
        [apply small_tx_wf|apply small_tx_ok|by vm_compute|by vm_compute].
    + eapply (step_hand _ 5 small_handed); by vm_compute.
    + eapply (step_block _ small_running false). by vm_compute.
    + eapply step_task; [by vm_compute|by vm_compute|]. vm_compute. by eexists.
  - by split.
Defined.

(** Two batches are queued; two rounds drain them. *)
Definition small_backlog : NodeService :=
  with_producer (small_service MNone) true None [small_batch; [small_ptx 1 5 21000]].
Lemma queued_batches_drain_witness :
  ∃ sv', drain [1005; 1010] small_backlog = Some sv' ∧ sv_queued sv' = [] ∧
    bk_best_number (sv_backend sv') = 2.
Proof.
  destruct (queued_batches_drain 0 small_backlog [1005; 1010]) as (sv' & Hd & Hq & _ & _ & Hn).
  - destruct (small_service_wf MNone). split; cbn; try done.
    constructor; [|constructor; [|constructor]]; constructor; (done || constructor).
  - by left.
  - done.
  - done.
  - cbn [clock_runs]. do 2 (do 2 eexists; split; [by vm_compute|]; split; [by vm_compute|]). done.
  - exists sv'. exact (conj Hd (conj Hq Hn)).
Defined.

(** One transaction fills a batch of one, and the first batch is being
    mined. *)
Definition small_spinning : NodeService :=
  let sv := default (small_service MNone)
    (fst <$> service_add (small_service (instant 1 [])) small_tx1 1) in
  mkNodeService (sv_pool sv) (mkMiner (instant 1 []) None false) (sv_backend sv) false
    (Some (Running small_batch)) [].
Lemma full_batch_never_yields_witness : service_poll 5 100 small_spinning = None.
Proof.
  apply (full_batch_never_yields 5 small_spinning (mkReadyTransactionMiner 1 None []) small_batch).
  split_and!; [by exists small_batch|done..| |done]. by vm_compute.
Defined.

(** The transaction was handed out; it is not looked at again. *)
Lemma skipped_transactions_wait_witness :
  poll_miner 5 (mkNodeService (sv_pool small_added) (sv_miner small_handed) (sv_backend small_added)
    true None []) =
  Some (mkNodeService (sv_pool small_added) (sv_miner small_handed) (sv_backend small_added)
    true None [], false).
Proof.
  apply (skipped_transactions_wait 5 small_added small_handed (mkReadyTransactionMiner 10 None [1])
    small_batch); [by vm_compute|done|by vm_compute|by vm_compute|cbn; lia|done].
Defined.
