(* ===== verification/Printer.v ===== *)
(** * The pretty printer: fmt/src/pp

    Oppen's algorithm as the formatter uses it: tokens are buffered with
    their sizes until it is known whether they fit on the line.  [RingBuffer]
    (ring.rs) is the list of its elements with the index of the first one;
    an index that is not in it, and the other [unwrap]s, are the panic [None].
    The debug marks ([DEBUG], a constant [false] unless an environment
    variable is set at compile time) are left out.  Strings are bytes. *)
From stdpp Require Import base list strings.
From Stdlib Require Import ZArith Lia Ascii.
From S2P Require Import Prelude.
#[local] Open Scope list_scope.

Definition MIN_SPACE : Z := 40.
Definition SIZE_INFINITY : Z := 65535.

Inductive Breaks := Consistent | Inconsistent.

Inductive IndentStyle := Visual | Block (offset : Z).

Record BreakToken := mkBreakToken {
  bt_offset : Z;
  blank_space : Z;
  pre_break : option string;
  post_break : option string;
  if_nonempty : bool;
  never_break : bool;
}.
Definition break_default : BreakToken := mkBreakToken 0 0 None None false false.

Record BeginToken := mkBeginToken { bg_indent : IndentStyle; breaks : Breaks }.

Inductive Token :=
| TString (s : string)
| TBreak (b : BreakToken)
| TBegin (b : BeginToken)
| TEnd.

Inductive PrintFrame := Fits (b : Breaks) | Broken (indent : Z) (b : Breaks).

Record BufEntry := mkBufEntry { token : Token; size : Z }.

(** ** The ring buffer *)
Record RingBuffer (T : Type) := mkRingBuffer { data : list T; rb_offset : nat }.
Arguments mkRingBuffer {T} _ _.
Arguments data {T} _.
Arguments rb_offset {T} _.

Section ring.
Context {T : Type}.
Implicit Types b : RingBuffer T.

Definition rb_new : RingBuffer T := mkRingBuffer [] 0.
Definition rb_is_empty b : bool := match data b with [] => true | _ => false end.
Definition rb_len b : nat := length (data b).
Definition rb_push b (x : T) : RingBuffer T * nat :=
  (mkRingBuffer (data b ++ [x]) (rb_offset b), (rb_offset b + length (data b))%nat).
Definition rb_clear b : RingBuffer T := mkRingBuffer [] (rb_offset b).
Definition rb_first b : option T := head (data b).
Definition rb_last b : option T := last (data b).
Definition rb_pop_first b : option (RingBuffer T * T) :=
  match data b with
  | x :: l => Some (mkRingBuffer l (S (rb_offset b)), x)
  | [] => None
  end.
Definition rb_second_last b : option T :=
  if bool_decide (2 ≤ rb_len b)%nat then data b !! (rb_len b - 2)%nat else None.
Definition rb_pop_last b : option (RingBuffer T) :=
  match data b with
  | [] => None
  | l => Some (mkRingBuffer (take (pred (length l)) l) (rb_offset b))
  end.
Definition rb_index b (i : nat) : option T :=
  if bool_decide (rb_offset b ≤ i)%nat then data b !! (i - rb_offset b)%nat else None.
Definition rb_update b (i : nat) (x : T) : RingBuffer T :=
  mkRingBuffer (<[(i - rb_offset b)%nat := x]> (data b)) (rb_offset b).
End ring.

(** ** The printer *)
Record Printer := mkPrinter {
  out : string;
  space : Z;
  buf : RingBuffer BufEntry;
  left_total : Z;
  right_total : Z;
  scan_stack : list nat;
  print_stack : list PrintFrame;     (* the last element is the top *)
  indent : Z;
  pending_indentation : Z;
  last_printed : option Token;
  margin : Z;
  indent_config : option Z;
}.

Definition with_out (p : Printer) (o : string) (sp pend : Z) : Printer :=
  mkPrinter o sp (buf p) (left_total p) (right_total p) (scan_stack p) (print_stack p) (indent p)
    pend (last_printed p) (margin p) (indent_config p).
Definition with_buf (p : Printer) (b : RingBuffer BufEntry) (st : list nat) : Printer :=
  mkPrinter (out p) (space p) b (left_total p) (right_total p) st (print_stack p) (indent p)
    (pending_indentation p) (last_printed p) (margin p) (indent_config p).
Definition with_totals (p : Printer) (l r : Z) : Printer :=
  mkPrinter (out p) (space p) (buf p) l r (scan_stack p) (print_stack p) (indent p)
    (pending_indentation p) (last_printed p) (margin p) (indent_config p).
Definition with_frames (p : Printer) (fs : list PrintFrame) (ind : Z) : Printer :=
  mkPrinter (out p) (space p) (buf p) (left_total p) (right_total p) (scan_stack p) fs ind
    (pending_indentation p) (last_printed p) (margin p) (indent_config p).
Definition with_last_printed (p : Printer) (t : Token) : Printer :=
  mkPrinter (out p) (space p) (buf p) (left_total p) (right_total p) (scan_stack p)
    (print_stack p) (indent p) (pending_indentation p) (Some t) (margin p) (indent_config p).

Definition str_len (s : string) : Z := Z.of_nat (String.length s).

Definition printer_new (m : Z) (use_tab_with_size : option Z) : Printer :=
  let m := clamp MIN_SPACE (SIZE_INFINITY - 1) m in
  mkPrinter "" m rb_new 0 0 [] [] 0 0 None m use_tab_with_size.

(** *** Printing *)
Fixpoint repeat_n (c : ascii) (n : nat) : string :=
  match n with O => EmptyString | S n => String c (repeat_n c n) end.

Definition tab : ascii := Ascii.ascii_of_nat 9.
Definition newline : ascii := Ascii.ascii_of_nat 10.

Definition print_indent (p : Printer) : option Printer :=
  ws ← match indent_config p with
       | Some tab_width =>
           if bool_decide (tab_width = 0) then None
           else Some (repeat_n tab (Z.to_nat (pending_indentation p / tab_width)) +:+
                      repeat_n " " (Z.to_nat (pending_indentation p mod tab_width)))
       | None => Some (repeat_n " " (Z.to_nat (pending_indentation p)))
       end;
  Some (with_out p (out p +:+ ws) (space p) 0).

Definition print_string (p : Printer) (s : string) : option Printer :=
  p ← print_indent p;
  Some (with_out p (out p +:+ s) (space p - str_len s) (pending_indentation p)).

Definition get_top (p : Printer) : PrintFrame :=
  default (Broken 0 Inconsistent) (last (print_stack p)).

(** [usize::try_from(i).unwrap()]. *)
Definition try_usize (i : Z) : option Z := if bool_decide (0 ≤ i) then Some i else None.

Definition print_begin (p : Printer) (t : BeginToken) (sz : Z) : option Printer :=
  if bool_decide (space p < sz) then
    ind ← match bg_indent t with
          | Block off => try_usize (indent p + off)
          | Visual => Some (wrap_u64 (margin p - space p))
          end;
    Some (with_frames p (print_stack p ++ [Broken (indent p) (breaks t)]) ind)
  else Some (with_frames p (print_stack p ++ [Fits (breaks t)]) (indent p)).

Definition print_end (p : Printer) : option Printer :=
  '(frame, frames) ← vec_pop (print_stack p);
  Some (with_frames p frames (match frame with Broken ind _ => ind | Fits _ => indent p end)).

Definition break_fits (p : Printer) (t : BreakToken) (sz : Z) : bool :=
  never_break t ||
  match get_top p with
  | Fits _ => true
  | Broken _ Consistent => false
  | Broken _ Inconsistent => bool_decide (sz ≤ space p)
  end.

Definition print_break (p : Printer) (t : BreakToken) (sz : Z) : option Printer :=
  if break_fits p t sz
  then Some (with_out p (out p) (space p - blank_space t) (pending_indentation p + blank_space t))
  else
    p ← match pre_break t with
        | Some pre => p ← print_indent p;
                      Some (with_out p (out p +:+ pre) (space p) (pending_indentation p))
        | None => Some p
        end;
    let ind := indent p + bt_offset t in
    pend ← try_usize ind;
    let p := with_out p (out p +:+ String newline "") (Z.max (margin p - ind) MIN_SPACE) pend in
    match post_break t with
    | Some post => p ← print_indent p;
                   Some (with_out p (out p +:+ post) (space p - str_len post) (pending_indentation p))
    | None => Some p
    end.

(** *** Scanning *)
(** One iteration of the loop of [check_stack], at the current depth. *)
Definition check_stack_step (st : Printer * Z) : option ((Printer * Z) + Printer) :=
  let '(p, depth) := st in
  match vec_pop (scan_stack p) with
  | None => Some (inr p)
  | Some (index, stack) =>
      entry ← rb_index (buf p) index;
      match token entry with
      | TBegin _ =>
          if bool_decide (depth = 0) then Some (inr p)
          else Some (inl (with_buf p (rb_update (buf p) index
                            (mkBufEntry (token entry) (size entry + right_total p))) stack,
                          depth - 1))
      | TEnd =>
          Some (inl (with_buf p (rb_update (buf p) index (mkBufEntry (token entry) 1)) stack,
                     depth + 1))
      | _ =>
          let p := with_buf p (rb_update (buf p) index
                     (mkBufEntry (token entry) (size entry + right_total p))) stack in
          Some (if bool_decide (depth = 0) then inr p else inl (p, depth))
      end
  end.

Definition check_stack (p : Printer) (depth : Z) : option Printer :=
  loop check_stack_step (S (length (scan_stack p))) (p, depth).

(** The [match] of [advance_left] on the popped entry. *)
Definition advance_token (p : Printer) (e : BufEntry) : option Printer :=
  match token e with
  | TString s => print_string (with_totals p (left_total p + size e) (right_total p)) s
  | TBreak t =>
      print_break (with_totals p (left_total p + blank_space t) (right_total p)) t (size e)
  | TBegin t => print_begin p t (size e)
  | TEnd => print_end p
  end.

(** One iteration of the loop of [advance_left]. *)
Definition advance_left_step (p : Printer) : option (Printer + Printer) :=
  first ← rb_first (buf p);
  if bool_decide (0 ≤ size first) then
    '(b, e) ← rb_pop_first (buf p);
    p ← advance_token (with_buf p b (scan_stack p)) e;
    let p := with_last_printed p (token e) in
    Some (if rb_is_empty (buf p) then inr p else inl p)
  else Some (inr p).

Definition advance_left (p : Printer) : option Printer :=
  loop advance_left_step (S (rb_len (buf p))) p.

(** One iteration of the loop of [check_stream]. *)
Definition check_stream_step (p : Printer) : option (Printer + Printer) :=
  if bool_decide (space p < right_total p - left_total p) then
    front ← head (scan_stack p);
    p ← (if bool_decide (front = rb_offset (buf p)) then
           first ← rb_first (buf p);
           Some (with_buf p (rb_update (buf p) front (mkBufEntry (token first) SIZE_INFINITY))
                   (tail (scan_stack p)))
         else Some p);
    p ← advance_left p;
    Some (if rb_is_empty (buf p) then inr p else inl p)
  else Some (inr p).

Definition check_stream (p : Printer) : option Printer :=
  loop check_stream_step (S (rb_len (buf p))) p.

Definition scan_eof (p : Printer) : option Printer :=
  match scan_stack p with
  | [] => Some p
  | _ => p ← check_stack p 0; advance_left p
  end.

(** The first token of an empty scan stack restarts the totals. *)
Definition restart (p : Printer) : Printer := with_totals (with_buf p (rb_clear (buf p)) []) 1 1.

Definition push_unresolved (p : Printer) (t : Token) (sz : Z) : Printer :=
  let '(b, i) := rb_push (buf p) (mkBufEntry t sz) in
  with_buf p b (scan_stack p ++ [i]).

Definition scan_begin (p : Printer) (t : BeginToken) : Printer :=
  let p := match scan_stack p with [] => restart p | _ => p end in
  push_unresolved p (TBegin t) (- right_total p).

(** [pop_last] and [pop_back] of the last break. *)
Definition drop_last (p : Printer) : option Printer :=
  b ← rb_pop_last (buf p);
  Some (with_buf p b (take (pred (length (scan_stack p))) (scan_stack p))).

Definition scan_end (p : Printer) : option Printer :=
  match scan_stack p with
  | [] => print_end p
  | _ =>
      let push p := Some (push_unresolved p TEnd (-1)) in
      match token <$> rb_last (buf p) with
      | Some (TBreak bt) =>
          match token <$> rb_second_last (buf p) with
          | Some (TBegin _) =>
              p ← drop_last p; p ← drop_last p;
              Some (with_totals p (left_total p) (right_total p - blank_space bt))
          | _ =>
              if if_nonempty bt then
                p ← drop_last p;
                push (with_totals p (left_total p) (right_total p - blank_space bt))
              else push p
          end
      | _ => push p
      end
  end.

Definition scan_break (p : Printer) (t : BreakToken) : option Printer :=
  p ← match scan_stack p with [] => Some (restart p) | _ => check_stack p 0 end;
  let p := push_unresolved p (TBreak t) (- right_total p) in
  Some (with_totals p (left_total p) (right_total p + blank_space t)).

Definition scan_string (p : Printer) (s : string) : option Printer :=
  match scan_stack p with
  | [] => print_string p s
  | _ =>
      let len := str_len s in
      let p := with_buf p (rb_push (buf p) (mkBufEntry (TString s) len)).1 (scan_stack p) in
      check_stream (with_totals p (left_total p) (right_total p + len))
  end.

(** [Printer::offset]. *)
Definition add_offset (p : Printer) (off : Z) : option Printer :=
  e ← rb_last (buf p);
  let last_index := (rb_offset (buf p) + rb_len (buf p) - 1)%nat in
  match token e with
  | TBreak t =>
      Some (with_buf p (rb_update (buf p) last_index
        (mkBufEntry (TBreak (mkBreakToken (bt_offset t + off) (blank_space t) (pre_break t)
           (post_break t) (if_nonempty t) (never_break t))) (size e))) (scan_stack p))
  | TBegin _ => Some p
  | TString _ | TEnd => None
  end.

(** *** Queries *)
Definition last_token_still_buffered (p : Printer) : option Token := token <$> rb_last (buf p).
Definition last_token (p : Printer) : option Token :=
  match last_token_still_buffered p with Some t => Some t | None => last_printed p end.

Definition replace_last_token_still_buffered (p : Printer) (t : Token) : option Printer :=
  e ← rb_last (buf p);
  Some (with_buf p (rb_update (buf p) (rb_offset (buf p) + rb_len (buf p) - 1)%nat
    (mkBufEntry t (size e))) (scan_stack p)).

Definition is_neverbreak (t : Token) : bool :=
  match t with TBreak b => never_break b | _ => false end.
Definition is_hardbreak (t : Token) : bool :=
  match t with
  | TBreak b => bool_decide (blank_space b = SIZE_INFINITY) && negb (never_break b)
  | _ => false
  end.

(** The index of the last token that is not an [End]. *)
Fixpoint last_non_end (l : list BufEntry) (n : nat) : option nat :=
  match n with
  | O => None
  | S n => match token <$> l !! n with
           | Some TEnd => last_non_end l n
           | _ => Some n
           end
  end.

Definition find_and_replace_last_token_still_buffered (p : Printer) (new_token : Token)
    (predicate : Token → bool) : Printer :=
  match last_non_end (data (buf p)) (rb_len (buf p)) with
  | Some i =>
      match data (buf p) !! i with
      | Some e =>
          if predicate (token e)
          then with_buf p (rb_update (buf p) (rb_offset (buf p) + i)%nat
                 (mkBufEntry new_token (size e))) (scan_stack p)
          else p
      | None => p
      end
  | None => p
  end.

Definition space_left (p : Printer) : Z :=
  let here := if bool_decide (space p < 0) then margin p else space p in
  match last_non_end (data (buf p)) (rb_len (buf p)) ≫= (data (buf p) !!.) with
  | Some e =>
      match token e with
      | TBreak b =>
          if bool_decide (SIZE_INFINITY ≤ blank_space b) && negb (never_break b)
          then margin p else here
      | _ => here
      end
  | None => here
  end.

(** Rust's [trim().is_empty()] and [ends_with] on ASCII strings. *)
Definition is_white (c : ascii) : bool :=
  let n := nat_of_ascii c in
  bool_decide (n = 32%nat) || bool_decide (9 ≤ n ≤ 13)%nat.
Definition trim_is_empty (s : string) : bool := forallb is_white (String.list_ascii_of_string s).
Definition ends_with_char (s : string) (c : ascii) : bool :=
  match last (String.list_ascii_of_string s) with
  | Some c' => bool_decide (c' = c)
  | None => false
  end.

(** The last buffered string decides, else the output. *)
Definition ends_with (p : Printer) (ch : ascii) : bool :=
  match last (omap (λ e, match token e with TString s => Some s | _ => None end) (data (buf p))) with
  | Some s => ends_with_char s ch
  | None => ends_with_char (out p) ch
  end.

Definition is_space (t : Token) : bool :=
  match t with
  | TBreak b => bool_decide (bt_offset b = 0) && bool_decide (blank_space b = 1)
  | TString s => ends_with_char s " "
  | _ => false
  end.

Definition last_token_is_neverbreak (p : Printer) : bool :=
  match last_token p with Some t => is_neverbreak t | None => false end.
Definition last_token_is_break (p : Printer) : bool :=
  match last_token p with Some (TBreak _) => true | _ => false end.
Definition last_token_is_space (p : Printer) : bool :=
  match last_token p with
  | Some t => if is_space t then true else ends_with_char (out p) " "
  | None => ends_with_char (out p) " "
  end.
Definition is_beginning_of_line (p : Printer) : bool :=
  match last_token p with
  | Some t => is_hardbreak t
  | None => bool_decide (out p = ""%string) || ends_with_char (out p) newline
  end.

Definition token_has_non_whitespace_content (t : Token) : bool :=
  match t with
  | TString s => negb (trim_is_empty s)
  | TBreak b => match pre_break b with Some s => negb (trim_is_empty s) | None => false end
  | _ => false
  end.

(** The scan of the buffer, last token first. *)
Fixpoint bol_scan (l : list Token) : option bool :=
  match l with
  | [] => None
  | t :: l => if is_hardbreak t then Some true
              else if token_has_non_whitespace_content t then Some false else bol_scan l
  end.

(** The characters after the last newline. *)
Definition last_line (s : string) : list ascii :=
  fold_left (λ acc c, if bool_decide (c = newline) then [] else acc ++ [c])
    (String.list_ascii_of_string s) [].

Definition is_bol_or_only_ind (p : Printer) : bool :=
  match bol_scan (rev (token <$> data (buf p))) with
  | Some b => b
  | None => forallb is_white (last_line (out p))
  end.

(** *** The operations of the formatter *)
Definition hardbreak_tok_offset (off : Z) : Token :=
  TBreak (mkBreakToken off SIZE_INFINITY None None false false).

Definition rbox (p : Printer) (ind : Z) (b : Breaks) : Printer :=
  scan_begin p (mkBeginToken (Block ind) b).
Definition ibox (p : Printer) (ind : Z) : Printer := rbox p ind Inconsistent.
Definition cbox (p : Printer) (ind : Z) : Printer := rbox p ind Consistent.
Definition visual_align (p : Printer) : Printer := scan_begin p (mkBeginToken Visual Consistent).
Definition break_offset (p : Printer) (n off : Z) : option Printer :=
  scan_break p (mkBreakToken off n None None false false).
Definition end_box (p : Printer) : option Printer := scan_end p.
Definition eof (p : Printer) : option string := out <$> scan_eof p.
Definition word (p : Printer) (w : string) : option Printer := scan_string p w.
Definition spaces (p : Printer) (n : Z) : option Printer := break_offset p n 0.
Definition zerobreak (p : Printer) : option Printer := spaces p 0.
Definition space_break (p : Printer) : option Printer := spaces p 1.
Definition hardbreak (p : Printer) : option Printer := spaces p SIZE_INFINITY.
Definition hardbreak_if_nonempty (p : Printer) : option Printer :=
  scan_break p (mkBreakToken 0 SIZE_INFINITY None None true false).
Definition neverbreak (p : Printer) : option Printer :=
  scan_break p (mkBreakToken 0 0 None None false true).
Definition word_space (p : Printer) (w : string) : option Printer := p ← word p w; space_break p.
Definition hardbreak_if_not_bol (p : Printer) : option Printer :=
  if is_bol_or_only_ind p then Some p
  else match last_token_still_buffered p with
       | Some (TBreak l) =>
           if bool_decide (bt_offset l = 0) then hardbreak p
           else replace_last_token_still_buffered p (hardbreak_tok_offset (bt_offset l))
       | _ => hardbreak p
       end.
Definition space_if_not_bol (p : Printer) : option Printer :=
  if is_bol_or_only_ind p then Some p else space_break p.
Definition nbsp (p : Printer) : option Printer := word p " ".
Definition space_or_nbsp (p : Printer) (b : bool) : option Printer :=
  if b then space_break p else nbsp p.
Definition word_nbsp (p : Printer) (w : string) : option Printer := p ← word p w; nbsp p.
