(* ===== verification/PrinterProofs.v ===== *)
(** * Correctness of the pretty printer

    The printer loses and reorders no text and never panics on balanced
    boxes.  The invariant describes the buffer by the list of its entries,
    each marked when its index is on the scan stack: the unmarked entries
    have their size, a marked one has the negated total at its position. *)
From stdpp Require Import base list strings.
From Stdlib Require Import ZArith Lia Ascii.
From S2P Require Import Prelude Printer.
#[local] Open Scope list_scope.
#[local] Arguments reverse : simpl never.

(** ** Text *)
Definition strip (s : string) : list ascii :=
  filter (λ c, is_white c = false) (String.list_ascii_of_string s).

#[global] Arguments strip : simpl never.

Lemma list_ascii_app s1 s2 :
  String.list_ascii_of_string (s1 +:+ s2) =
  String.list_ascii_of_string s1 ++ String.list_ascii_of_string s2.
Proof. induction s1 as [|c s1 IH]; [done|exact (f_equal (cons c) IH)]. Qed.
Lemma strip_app s1 s2 : strip (s1 +:+ s2) = strip s1 ++ strip s2.
Proof. unfold strip. by rewrite list_ascii_app, filter_app. Qed.
Lemma strip_repeat c n : is_white c = true → strip (repeat_n c n) = [].
Proof.
  intros Hc. unfold strip. induction n as [|n IH]; [done|]. cbn.
  rewrite decide_False by congruence. exact IH.
Qed.

Definition tok_text (t : Token) : list ascii :=
  match t with TString s => strip s | _ => [] end.
Definition text (ts : list Token) : list ascii := mjoin (tok_text <$> ts).
Lemma text_app ts1 ts2 : text (ts1 ++ ts2) = text ts1 ++ text ts2.
Proof. unfold text. by rewrite fmap_app, join_app. Qed.
Lemma text_one t : text [t] = tok_text t.
Proof. unfold text. cbn. by rewrite app_nil_r. Qed.

(** ** Well-formed token sequences *)
(** The boxes are balanced ([offs]: the offsets of the open boxes, innermost
    first), no indentation becomes negative, and breaks carry no text. *)
Definition tok_ok (offs : list Z) (t : Token) : option (list Z) :=
  match t with
  | TString _ => Some offs
  | TBreak b =>
      if bool_decide (0 ≤ blank_space b ∧ pre_break b = None ∧ post_break b = None ∧
                      0 ≤ default 0 (head offs) + bt_offset b)
      then Some offs else None
  | TBegin b =>
      match bg_indent b with
      | Visual => Some (0 :: offs)
      | Block off => if bool_decide (0 ≤ off) then Some (off :: offs) else None
      end
  | TEnd => match offs with [] => None | _ :: offs => Some offs end
  end.
Fixpoint toks_ok (offs : list Z) (ts : list Token) : option (list Z) :=
  match ts with
  | [] => Some offs
  | t :: ts => match tok_ok offs t with Some offs => toks_ok offs ts | None => None end
  end.

Lemma toks_ok_app offs ts1 ts2 :
  toks_ok offs (ts1 ++ ts2) =
  match toks_ok offs ts1 with Some offs => toks_ok offs ts2 | None => None end.
Proof.
  revert offs. induction ts1 as [|t ts1 IH]; intros offs; cbn; [done|].
  destruct (tok_ok offs t); [apply IH|done].
Qed.
Lemma toks_ok_snoc offs ts t offs' :
  toks_ok offs (ts ++ [t]) = Some offs' ↔ ∃ o, toks_ok offs ts = Some o ∧ tok_ok o t = Some offs'.
Proof.
  rewrite toks_ok_app. destruct (toks_ok offs ts) as [o|]; cbn.
  - split.
    + intros Ht. exists o. split; [done|]. by destruct (tok_ok o t).
    + intros (o' & [= <-] & ->). done.
  - split; [done|]. by intros (o' & ? & _).
Qed.
Lemma tok_ok_break o b o' : tok_ok o (TBreak b) = Some o' → o' = o ∧ 0 ≤ blank_space b.
Proof. cbn. case_bool_decide as Hb; [|done]. intros [= <-]. split; [done|lia]. Qed.

(** ** Frames *)
(** The print stack (innermost first) belongs to open boxes of these offsets:
    below a broken frame the indentation is at least the box's offset. *)
Fixpoint frames_ok (fs : list PrintFrame) (ind : Z) (offs : list Z) : Prop :=
  match fs, offs with
  | [], [] => 0 ≤ ind
  | Broken saved _ :: fs, o :: offs => o ≤ ind ∧ 0 ≤ ind ∧ frames_ok fs saved offs
  | Fits _ :: fs, o :: offs => frames_ok fs ind offs
  | _, _ => False
  end.
Lemma frames_ok_ind fs ind offs : frames_ok fs ind offs → 0 ≤ ind.
Proof.
  revert ind offs. induction fs as [|[|] fs IH]; intros ind [|o offs]; cbn; try done; try lia.
  apply IH.
Qed.

(** What printing a token leaves alone. *)
Record same_scan (p p' : Printer) : Prop := {
  ss_buf : buf p' = buf p;
  ss_left : left_total p' = left_total p;
  ss_right : right_total p' = right_total p;
  ss_stack : scan_stack p' = scan_stack p;
  ss_config : indent_config p' = indent_config p;
}.

Lemma print_indent_spec p :
  indent_config p ≠ Some 0 → ∃ ws, strip ws = [] ∧
    print_indent p = Some (with_out p (out p +:+ ws) (space p) 0).
Proof.
  intros Hc. unfold print_indent. destruct (indent_config p) as [w|]; cbn.
  - decide_bools. cbn. eexists. split; [|reflexivity].
    by rewrite strip_app, !strip_repeat.
  - eexists. split; [|reflexivity]. by rewrite strip_repeat.
Qed.

(** The printing of one token, as [advance_left] does it. *)
Definition print_token (p : Printer) (t : Token) (sz : Z) : option Printer :=
  match t with
  | TString s => print_string p s
  | TBreak b => print_break p b sz
  | TBegin b => print_begin p b sz
  | TEnd => print_end p
  end.

Lemma print_token_spec p t sz offs offs' :
  indent_config p ≠ Some 0 → frames_ok (reverse (print_stack p)) (indent p) offs →
  tok_ok offs t = Some offs' →
  ∃ p', print_token p t sz = Some p' ∧ same_scan p p' ∧
    frames_ok (reverse (print_stack p')) (indent p') offs' ∧
    strip (out p') = strip (out p) ++ tok_text t.
Proof.
  intros Hc Hf Ht. destruct t as [s|b|b|]; cbn [print_token tok_text].
  - injection Ht as <-. unfold print_string.
    destruct (print_indent_spec p Hc) as (ws & Hws & ->). cbn.
    eexists. split; [reflexivity|]. split_and!; [by split|done|]. cbn.
    by rewrite !strip_app, Hws, app_nil_r.
  - cbn in Ht. case_bool_decide as Hb; [|done]. injection Ht as <-.
    destruct Hb as (Hbl & Hpre & Hpost & Hoff). rewrite app_nil_r. unfold print_break.
    destruct (break_fits p b sz) eqn:Hfit.
    { eexists. split; [reflexivity|]. by split_and!; [split|cbn|cbn]. }
    rewrite Hpre, Hpost. cbn.
    assert (0 ≤ indent p + bt_offset b) as Hi.
    { unfold break_fits, get_top in Hfit. apply orb_false_iff in Hfit as [_ Hfit].
      revert Hf Hfit. destruct (print_stack p) as [|f fs _] using rev_ind.
      - rewrite reverse_nil. intros Hf _. destruct offs; cbn in *; [lia|done].
      - rewrite last_snoc, reverse_snoc. cbn. destruct f as [|saved bk]; [done|].
        destruct offs as [|o offs]; [done|]. cbn in *. lia. }
    unfold try_usize. decide_bools. cbn.
    eexists. split; [reflexivity|]. split_and!; [by split|done|]. cbn.
    rewrite strip_app. cbn. by rewrite app_nil_r.
  - rewrite app_nil_r. unfold print_begin. pose proof (frames_ok_ind _ _ _ Hf) as Hi.
    cbn in Ht. case_bool_decide.
    + destruct (bg_indent b) as [|off].
      * injection Ht as <-. cbn. eexists. split; [reflexivity|]. split_and!; [by split| |done].
        cbn. rewrite reverse_snoc. cbn. pose proof (wrap_u64_range (margin p - space p)) as [? _]. done.
      * case_bool_decide; [|done]. injection Ht as <-. unfold try_usize.
        decide_bools. cbn.
        eexists. split; [reflexivity|]. split_and!; [by split| |done].
        cbn. rewrite reverse_snoc. cbn. split_and!; [lia|lia|done].
    + eexists. split; [reflexivity|]. split_and!; [by split| |done].
      cbn. rewrite reverse_snoc. cbn. destruct (bg_indent b); [by injection Ht as <-|].
      case_bool_decide; [by injection Ht as <-|done].
  - rewrite app_nil_r. destruct offs as [|o offs]; [done|]. injection Ht as <-.
    unfold print_end. revert Hf.
    destruct (print_stack p) as [|f fs _] using rev_ind; [by rewrite reverse_nil|].
    rewrite reverse_snoc, vec_pop_snoc. cbn. intros Hf.
    eexists. split; [reflexivity|]. split_and!; [by split| |done].
    cbn. destruct f; cbn in Hf; [done|]. by destruct Hf as (_ & _ & ?).
Qed.

(** ** The marked buffer *)
Abbreviation marked := (list (BufEntry * bool)).
Implicit Types l : marked.

Fixpoint stack_of (off : nat) l : list nat :=
  match l with
  | [] => []
  | (_, m) :: l => (if m : bool then [off] else []) ++ stack_of (S off) l
  end.
(** The tokens on the scan stack. *)
Definition kinds l : list Token := omap (λ x, if x.2 : bool then Some (token x.1) else None) l.
Definition tokens l : list Token := token <$> l.*1.

Lemma stack_of_app off l1 l2 :
  stack_of off (l1 ++ l2) = stack_of off l1 ++ stack_of (off + length l1) l2.
Proof.
  revert off. induction l1 as [|[e m] l1 IH]; intros off; cbn.
  - by rewrite Nat.add_0_r.
  - rewrite IH, <- app_assoc. do 3 f_equal. lia.
Qed.
Lemma kinds_app l1 l2 : kinds (l1 ++ l2) = kinds l1 ++ kinds l2.
Proof. apply omap_app. Qed.
Lemma tokens_app l1 l2 : tokens (l1 ++ l2) = tokens l1 ++ tokens l2.
Proof. unfold tokens. by rewrite !fmap_app. Qed.
Lemma stack_of_nil off l : stack_of off l = [] ↔ kinds l = [].
Proof.
  revert off. induction l as [|[e m] l IH]; intros off; cbn; [done|].
  destruct m; cbn; [by split|]. apply IH.
Qed.
Lemma stack_of_length off l : length (stack_of off l) = length (kinds l).
Proof.
  revert off. induction l as [|[e m] l IH]; intros off; cbn; [done|].
  destruct m; cbn; by rewrite IH.
Qed.

(** The top of the scan stack is the last marked entry. *)
Lemma stack_of_pop off l i st :
  vec_pop (stack_of off l) = Some (i, st) →
  ∃ l1 e l2, l = l1 ++ (e, true) :: l2 ∧ i = (off + length l1)%nat ∧ st = stack_of off l1 ∧
    kinds l2 = [].
Proof.
  induction l as [|[e m] l IH] using rev_ind; [done|].
  rewrite stack_of_app. cbn. destruct m.
  - cbn. rewrite vec_pop_snoc. intros [= <- <-]. by exists l, e, [].
  - rewrite app_nil_r. intros (l1 & e' & l2 & -> & -> & -> & Hk)%IH.
    exists l1, e', (l2 ++ [(e, false)]). rewrite <- app_assoc. split_and!; [done..|].
    by rewrite kinds_app, Hk.
Qed.

(** *** Sizes *)
Definition weight (t : Token) : Z :=
  match t with TString s => str_len s | TBreak b => blank_space b | _ => 0 end.

Definition entry_ok (b : Z) (x : BufEntry * bool) : Prop :=
  let '(e, m) := x in
  match m : bool, token e with
  | true, TEnd => size e = -1
  | true, TString _ => False
  | true, _ => size e = - b
  | false, TString s => size e = str_len s
  | false, _ => 0 ≤ size e
  end.
Fixpoint buf_ok (b : Z) l (rt : Z) : Prop :=
  match l with
  | [] => rt = b
  | x :: l => entry_ok b x ∧ 0 ≤ weight (token x.1) ∧ buf_ok (b + weight (token x.1)) l rt
  end.

Lemma buf_ok_app b l1 l2 rt :
  buf_ok b (l1 ++ l2) rt ↔ ∃ c, buf_ok b l1 c ∧ buf_ok c l2 rt.
Proof.
  revert b. induction l1 as [|x l1 IH]; intros b; cbn.
  - split; [by exists b|]. by intros (c & -> & ?).
  - rewrite IH. split.
    + intros (? & ? & c & ? & ?). by exists c.
    + intros (c & (? & ? & ?) & ?). eauto 10.
Qed.
Lemma buf_ok_le b l rt : buf_ok b l rt → b ≤ rt.
Proof.
  revert b. induction l as [|x l IH]; intros b; cbn; [lia|].
  intros (_ & ? & ?%IH). lia.
Qed.
Lemma str_len_nonneg s : 0 ≤ str_len s.
Proof. unfold str_len. lia. Qed.
Lemma entry_unmarked b e : entry_ok b (e, false) → 0 ≤ size e.
Proof. cbn. destruct (token e); try done. intros ->. apply str_len_nonneg. Qed.
Lemma entry_marked b e : 1 ≤ b → entry_ok b (e, true) → size e < 0.
Proof. intros ?. cbn. destruct (token e); try done; lia. Qed.

(** *** Nesting of the scan stack (top first) *)
Definition is_begin (t : Token) : bool := match t with TBegin _ => true | _ => false end.

(** What [check_stack] leaves. *)
Fixpoint cs (d : nat) (ts : list Token) : list Token :=
  match ts with
  | [] => []
  | TBegin b :: ts' => match d with O => ts | S d => cs d ts' end
  | TEnd :: ts' => cs (S d) ts'
  | _ :: ts' => match d with O => ts' | _ => cs d ts' end
  end.
(** The boxes still open at depth [d]. *)
Fixpoint um (d : nat) (ts : list Token) : nat :=
  match ts with
  | [] => O
  | TBegin b :: ts => match d with O => S (um O ts) | S d => um d ts end
  | TEnd :: ts => um (S d) ts
  | _ :: ts => um d ts
  end.
(** A break is at the bottom or directly above the begin of its box. *)
Definition under_begin (ts : list Token) : Prop :=
  match ts with [] => True | t :: _ => is_begin t = true end.
Fixpoint bk (ts : list Token) : Prop :=
  match ts with
  | [] => True
  | TBreak _ :: ts => under_begin ts ∧ bk ts
  | TString _ :: _ => False
  | _ :: ts => bk ts
  end.

Lemma um_S d ts : um (S d) ts = pred (um d ts).
Proof. revert d. induction ts as [|[] ts IH]; intros d; cbn; try done. by destruct d. Qed.
Lemma cs_spec ts : ∀ d, bk ts →
  bk (cs d ts) ∧ under_begin (cs d ts) ∧ (um 0 (cs d ts) ≤ um d ts)%nat.
Proof.
  induction ts as [|[s|b|b|] ts IH]; intros d Hb; cbn in *.
  - done.
  - done.
  - destruct Hb as [Hu Hb]. destruct d; [by split_and!|by apply IH].
  - destruct d; [by split_and!|by apply IH].
  - by apply IH.
Qed.
Lemma cs_nil ts : ∀ d, bk ts → um d ts = O → cs d ts = [].
Proof.
  induction ts as [|[s|b|b|] ts IH]; intros d Hb Hu; cbn in *.
  - done.
  - done.
  - destruct Hb as [Hub Hb]. destruct d; [|by apply IH].
    by destruct ts as [|[] ts]; cbn in *.
  - destruct d; [done|by apply IH].
  - by apply IH.
Qed.
Lemma bk_app ts ts' : bk (ts ++ ts') → bk ts.
Proof.
  induction ts as [|[] ts IH]; cbn; try done.
  intros [Hu Hb]. split; [by destruct ts|by apply IH].
Qed.
Lemma um_app ts ts' d : (um d ts ≤ um d (ts ++ ts'))%nat.
Proof.
  revert d. induction ts as [|[] ts IH]; intros d; cbn; [lia|apply IH|apply IH| |apply IH].
  destruct d; [|apply IH]. specialize (IH O). lia.
Qed.

(** The begins and breaks at the end of the buffer are all unresolved. *)
Definition some_marked l : Prop := kinds l ≠ [] ∨ l = [].
Lemma some_marked_snoc l e : some_marked (l ++ [(e, true)]).
Proof.
  left. rewrite kinds_app. change (kinds [(e, true)]) with [token e].
  intros Hn%(f_equal length). rewrite length_app in Hn. cbn in Hn. lia.
Qed.
Lemma some_marked_reverse l : some_marked l → some_marked (reverse l).
Proof.
  intros [Hk| ->]; [left|by right]. intros Hn. apply Hk.
  apply Permutation_nil_r. rewrite <- Hn. unfold kinds. by rewrite reverse_Permutation.
Qed.
(** [tr] reads the buffer from its end. *)
Fixpoint tr l : Prop :=
  match l with
  | [] => True
  | (e, m) :: l =>
      match token e with
      | TBegin _ => m = true ∧ some_marked l ∧ tr l
      | TBreak _ => m = true ∧
          match l with
          | (e', _) :: _ => if is_begin (token e') then tr l else True
          | [] => True
          end
      | _ => True
      end
  end.

(** ** The invariant *)
Record core (p : Printer) l (offs : list Z) (T : list ascii) : Prop := {
  c_data : data (buf p) = l.*1;
  c_stack : scan_stack p = stack_of (rb_offset (buf p)) l;
  c_buf : buf_ok (left_total p) l (right_total p);
  c_left : 1 ≤ left_total p ∨ l = [];
  c_toks : ∃ offs0, frames_ok (reverse (print_stack p)) (indent p) offs0 ∧
    toks_ok offs0 (tokens l) = Some offs;
  c_text : strip (out p) ++ text (tokens l) = T;
  c_tab : indent_config p ≠ Some 0;
}.

(** Between the operations. *)
Record pinv (p : Printer) l (offs : list Z) (T : list ascii) : Prop := {
  i_core : core p l offs T;
  i_marked : some_marked l;
  i_tr : tr (reverse l);
  i_bk : bk (reverse (kinds l));
  i_um : (um 0 (reverse (kinds l)) ≤ length offs)%nat;
}.

Lemma core_nonempty p l offs T : core p l offs T → rb_is_empty (buf p) = bool_decide (l = []).
Proof. intros Hc. unfold rb_is_empty. rewrite (c_data _ _ _ _ Hc). by destruct l. Qed.

(** ** [advance_left] *)
Lemma advance_token_print p e b :
  entry_ok b (e, false) →
  advance_token p e =
    print_token (with_totals p (left_total p + weight (token e)) (right_total p)) (token e) (size e).
Proof.
  intros He. unfold entry_ok in He. unfold advance_token.
  destruct (token e); cbn; [by rewrite He|done|..]; rewrite Z.add_0_r; by destruct p.
Qed.

Lemma advance_left_step_spec p e l offs T :
  core p ((e, false) :: l) offs T →
  ∃ p', advance_left_step p = Some (if bool_decide (l = []) then inr p' else inl p') ∧
    core p' l offs T.
Proof.
  intros Hc. pose proof (c_data _ _ _ _ Hc) as Hd. destruct (c_buf _ _ _ _ Hc) as (He & Hw & Hb).
  pose proof (entry_unmarked _ _ He) as Hsz. destruct (c_toks _ _ _ _ Hc) as (offs0 & Hf & Ht).
  cbn in Hd, Ht, Hw, Hb. destruct (tok_ok offs0 (token e)) as [offs1|] eqn:Htok; [|done].
  set (q := with_buf p (mkRingBuffer l.*1 (S (rb_offset (buf p)))) (scan_stack p)).
  destruct (print_token_spec (with_totals q (left_total q + weight (token e)) (right_total q))
    (token e) (size e) offs0 offs1) as (p2 & Hp2 & [Hs1 Hs2 Hs3 Hs4 Hs5] & Hf' & Htx);
    [apply (c_tab _ _ _ _ Hc)|done|done|].
  rewrite <- (advance_token_print q e _ He) in Hp2.
  exists (with_last_printed p2 (token e)). split.
  - unfold advance_left_step, rb_first, rb_pop_first. rewrite Hd. cbn [head mbind option_bind].
    decide_bools. fold q. rewrite Hp2. cbn.
    rewrite Hs1. cbn. unfold rb_is_empty. cbn. by destruct l.
  - split; cbn; rewrite ?Hs1, ?Hs2, ?Hs3, ?Hs4, ?Hs5; cbn.
    + done.
    + by rewrite (c_stack _ _ _ _ Hc).
    + done.
    + destruct (c_left _ _ _ _ Hc); [left; lia|done].
    + by exists offs1.
    + rewrite Htx. rewrite <- (c_text _ _ _ _ Hc). unfold text, tokens. cbn.
      by rewrite <- app_assoc.
    + apply (c_tab _ _ _ _ Hc).
Qed.

Lemma advance_left_spec p l offs T :
  core p l offs T → l ≠ [] →
  ∃ p' l0 l', advance_left p = Some p' ∧ core p' l' offs T ∧ l = l0 ++ l' ∧ kinds l0 = [] ∧
    (∀ e l1, l = (e, false) :: l1 → l0 ≠ []) ∧ some_marked l'.
Proof.
  intros Hc Hne. unfold advance_left, rb_len. rewrite (c_data _ _ _ _ Hc), length_fmap.
  assert (∀ n, (length l < n)%nat → ∃ p' l0 l', loop advance_left_step n p = Some p' ∧
    core p' l' offs T ∧ l = l0 ++ l' ∧ kinds l0 = [] ∧
    (∀ e l1, l = (e, false) :: l1 → l0 ≠ []) ∧ some_marked l') as Hgen; [|apply Hgen; lia].
  revert p Hc Hne. induction l as [|[e m] l IH]; intros p Hc Hne n Hn; [done|].
  destruct n as [|n]; [lia|]. cbn [loop]. destruct m.
  - unfold advance_left_step, rb_first. rewrite (c_data _ _ _ _ Hc). cbn.
    destruct (c_buf _ _ _ _ Hc) as [He _]. destruct (c_left _ _ _ _ Hc) as [Hl|]; [|done].
    pose proof (entry_marked _ _ Hl He). decide_bools.
    exists p, [], ((e, true) :: l). split_and!; try done. by left.
  - destruct (advance_left_step_spec p e l offs T Hc) as (p' & -> & Hc').
    case_bool_decide as Hl.
    + subst l. exists p', [(e, false)], []. split_and!; try done. by right.
    + destruct (IH p' Hc' Hl n) as (p2 & l0 & l' & -> & Hc2 & -> & Hk & _ & Hm); [cbn in Hn; lia|].
      exists p2, ((e, false) :: l0), l'. by split_and!.
Qed.

(** ** [check_stack] *)
Lemma rb_index_middle (b : RingBuffer BufEntry) l1 e m l2 :
  data b = (l1 ++ (e, m) :: l2).*1 → rb_index b (rb_offset b + length l1) = Some e.
Proof.
  intros Hd. unfold rb_index. decide_bools.
  replace (rb_offset b + length l1 - rb_offset b)%nat with (length l1) by lia.
  by rewrite Hd, list_lookup_fmap, list_lookup_middle.
Qed.

(** Resolving the size of the last marked entry. *)
Lemma core_unmark p l1 e l2 sz offs T :
  core p (l1 ++ (e, true) :: l2) offs T → kinds l2 = [] → 0 ≤ sz →
  core (with_buf p (rb_update (buf p) (rb_offset (buf p) + length l1) (mkBufEntry (token e) sz))
          (stack_of (rb_offset (buf p)) l1))
    (l1 ++ (mkBufEntry (token e) sz, false) :: l2) offs T.
Proof.
  intros Hc Hk Hsz. destruct Hc as [Hd Hs Hb Hl Ht Htx Htab]. split; cbn.
  - replace (rb_offset (buf p) + length l1 - rb_offset (buf p))%nat with (length l1.*1)
      by (rewrite length_fmap; lia).
    rewrite Hd, !fmap_app. cbn. by rewrite insert_app_r_alt, Nat.sub_diag.
  - rewrite stack_of_app. cbn. rewrite (proj2 (stack_of_nil _ l2)), app_nil_r; done.
  - apply buf_ok_app in Hb as (c & H1 & H2 & H3 & H4). apply buf_ok_app. exists c.
    split; [done|]. cbn in *. split_and!; [|done|done]. by destruct (token e).
  - destruct Hl as [|Hnil]; [by left|by apply app_nil in Hnil as [_ ?]].
  - unfold tokens in *. rewrite !fmap_app in *. exact Ht.
  - unfold tokens in *. rewrite !fmap_app in *. exact Htx.
  - done.
Qed.

Lemma core_marked_size p l1 e l2 offs T :
  core p (l1 ++ (e, true) :: l2) offs T →
  match token e with TString _ => False | TEnd => True | _ => 0 ≤ size e + right_total p end.
Proof.
  intros Hc. destruct (proj1 (buf_ok_app _ _ _ _) (c_buf _ _ _ _ Hc)) as (c & _ & H2 & Hw & H4).
  apply buf_ok_le in H4. cbn in H2, Hw, H4. destruct (token e) eqn:Ht; cbn in *; try done; lia.
Qed.

Lemma kinds_top l1 e l2 :
  kinds l2 = [] → reverse (kinds (l1 ++ (e, true) :: l2)) = token e :: reverse (kinds l1).
Proof.
  intros Hk. rewrite kinds_app. change (kinds ((e, true) :: l2)) with (token e :: kinds l2).
  by rewrite Hk, reverse_snoc.
Qed.
Lemma kinds_unmarked l1 e l2 :
  kinds l2 = [] → kinds (l1 ++ (e, false) :: l2) = kinds l1.
Proof.
  intros Hk. rewrite kinds_app. change (kinds ((e, false) :: l2)) with (kinds l2).
  by rewrite Hk, app_nil_r.
Qed.

(** One iteration, at depth [d]. *)
Lemma check_stack_step_spec p l d offs T :
  core p l offs T →
  match check_stack_step (p, Z.of_nat d) with
  | Some (inr p') => ∃ l', core p' l' offs T ∧ tokens l' = tokens l ∧
      reverse (kinds l') = cs d (reverse (kinds l)) ∧
      (d = O → under_begin (reverse (kinds l)) → p' = p ∧ l' = l) ∧ left_total p' = left_total p
  | Some (inl (p', z)) => ∃ l' d', z = Z.of_nat d' ∧ core p' l' offs T ∧ tokens l' = tokens l ∧
      cs d' (reverse (kinds l')) = cs d (reverse (kinds l)) ∧
      (length (kinds l') < length (kinds l))%nat ∧
      (bk (reverse (kinds l)) → bk (reverse (kinds l'))) ∧
      ¬ (d = O ∧ under_begin (reverse (kinds l))) ∧ left_total p' = left_total p
  | None => False
  end.
Proof.
  intros Hc. unfold check_stack_step. rewrite (c_stack _ _ _ _ Hc).
  destruct (vec_pop _) as [[i st]|] eqn:Hpop; cycle 1.
  { apply vec_pop_None, stack_of_nil in Hpop. exists l. by rewrite Hpop. }
  apply stack_of_pop in Hpop as (l1 & e & l2 & -> & -> & -> & Hk).
  rewrite (rb_index_middle _ _ _ _ _ (c_data _ _ _ _ Hc)). cbn [mbind option_bind].
  pose proof (core_marked_size _ _ _ _ _ _ Hc) as Hsz.
  pose proof (λ sz, core_unmark p l1 e l2 sz offs T Hc Hk) as Hun.
  assert (Htk : ∀ sz, tokens (l1 ++ (mkBufEntry (token e) sz, false) :: l2) =
    tokens (l1 ++ (e, true) :: l2)) by (intros sz; by rewrite !tokens_app).
  rewrite (kinds_top _ _ _ Hk).
  assert (Hlen : (length (kinds l1) < length (kinds (l1 ++ (e, true) :: l2)))%nat).
  { rewrite kinds_app, length_app. cbn. lia. }
  destruct (token e) as [s|b|b|] eqn:Ht; [done|..].
  - case_bool_decide as Hd; [assert (d = O) as -> by lia|destruct d as [|d]; [done|]].
    + eexists. split; [by apply Hun|]. rewrite kinds_unmarked by done.
      by split_and!.
    + do 2 eexists. split; [reflexivity|]. split; [by apply Hun|].
      rewrite kinds_unmarked by done. split_and!; try done; [by intros [??]|by intros [??]].
  - case_bool_decide as Hd; [assert (d = O) as -> by lia|destruct d as [|d]; [done|]].
    + exists (l1 ++ (e, true) :: l2). rewrite (kinds_top _ _ _ Hk), Ht. by split_and!.
    + exists (l1 ++ (mkBufEntry (TBegin b) (size e + right_total p), false) :: l2), d.
      split; [lia|]. split; [by apply Hun|]. rewrite kinds_unmarked by done.
      split_and!; try done. by intros [??].
  - exists (l1 ++ (mkBufEntry TEnd 1, false) :: l2), (S d).
    split; [lia|]. split; [by apply Hun|]. rewrite kinds_unmarked by done.
    split_and!; try done. by intros [??].
Qed.

Lemma check_stack_spec p l d offs T :
  core p l offs T → bk (reverse (kinds l)) →
  ∃ p' l', check_stack p (Z.of_nat d) = Some p' ∧ core p' l' offs T ∧ tokens l' = tokens l ∧
    reverse (kinds l') = cs d (reverse (kinds l)) ∧
    (d = O → under_begin (reverse (kinds l)) → p' = p ∧ l' = l) ∧
    left_total p' = left_total p.
Proof.
  unfold check_stack. intros Hc. rewrite (c_stack _ _ _ _ Hc), stack_of_length.
  assert (∀ n, (length (kinds l) < n)%nat → bk (reverse (kinds l)) →
    ∃ p' l', loop check_stack_step n (p, Z.of_nat d) = Some p' ∧ core p' l' offs T ∧
      tokens l' = tokens l ∧ reverse (kinds l') = cs d (reverse (kinds l)) ∧
      (d = O → under_begin (reverse (kinds l)) → p' = p ∧ l' = l) ∧
      left_total p' = left_total p) as Hgen; [|apply Hgen; lia].
  intros n. revert p l d Hc. induction n as [|n IH]; intros p l d Hc Hn Hb; [lia|].
  cbn [loop]. pose proof (check_stack_step_spec p l d offs T Hc) as Hstep.
  destruct (check_stack_step (p, Z.of_nat d)) as [[[p1 z]|p1]|]; [|destruct Hstep as (l1 & ?); by exists p1, l1|done].
  destruct Hstep as (l1 & d1 & -> & Hc1 & Ht1 & Hcs & Hlen & Hbk & Hnot & Hl1).
  destruct (IH p1 l1 d1 Hc1) as (p2 & l2 & -> & Hc2 & Ht2 & Hk2 & _ & Hl2); [lia|by apply Hbk|].
  exists p2, l2. split_and!; [done|done|congruence|congruence| |congruence].
  intros Hd Hu. by destruct Hnot.
Qed.

(** ** [check_stream] *)
Lemma check_stream_step_spec p l offs T :
  core p l offs T → kinds l ≠ [] →
  check_stream_step p = Some (inr p) ∨
  ∃ p' l0 l', check_stream_step p = Some (if bool_decide (l' = []) then inr p' else inl p') ∧
    core p' l' offs T ∧ l = l0 ++ l' ∧ l0 ≠ [] ∧ some_marked l'.
Proof.
  intros Hc Hk. unfold check_stream_step. case_bool_decide; [right|by left].
  destruct l as [|[e m] l]; [done|]. rewrite (c_stack _ _ _ _ Hc). destruct m.
  - cbn [stack_of app head mbind option_bind tail]. decide_bools.
    unfold rb_first. rewrite (c_data _ _ _ _ Hc). cbn [fmap list_fmap fst head mbind option_bind].
    set (e' := mkBufEntry (token e) SIZE_INFINITY).
    assert (core (with_buf p (rb_update (buf p) (rb_offset (buf p)) e')
      (stack_of (S (rb_offset (buf p))) l)) ((e', false) :: l) offs T) as Hc1.
    { pose proof Hc as [Hd Hs (He & Hw & Hb) Hl Ht Htx Htab]. split; cbn.
      - by rewrite Hd, Nat.sub_diag.
      - done.
      - cbn in *. by destruct (token e).
      - by destruct Hl; [left|].
      - exact Ht.
      - exact Htx.
      - done. }
    destruct (advance_left_spec _ _ _ _ Hc1) as (p' & l0 & l' & -> & Hc' & Heq & _ & Hne & Hm); [done|].
    cbn [mbind option_bind]. destruct l0 as [|x l0]; [by destruct (Hne e' l)|].
    injection Heq as <- ->. exists p', ((e, true) :: l0), l'.
    rewrite (core_nonempty _ _ _ _ Hc'). by split_and!.
  - destruct (kinds l) as [|k ks] eqn:Hkl; [done|]. cbn [stack_of app].
    destruct (stack_of (S (rb_offset (buf p))) l) as [|i st] eqn:Hst.
    { apply stack_of_nil in Hst. congruence. }
    assert (i ≠ rb_offset (buf p)) as Hi.
    { assert (∀ o, (∃ st, stack_of o l = i :: st) → (o ≤ i)%nat) as Hge.
      { clear. induction l as [|[e []] l IH]; intros o [st Hst]; cbn in Hst; [done| |].
        - injection Hst as -> _. lia.
        - ospecialize (IH (S o) _); [by exists st|]. lia. }
      ospecialize (Hge (S (rb_offset (buf p))) _); [by exists st|]. lia. }
    cbn [head mbind option_bind]. decide_bools. cbn [mbind option_bind].
    destruct (advance_left_spec _ _ _ _ Hc) as (p' & l0 & l' & -> & Hc' & Heq & _ & Hne & Hm); [done|].
    cbn [mbind option_bind]. exists p', l0, l'. rewrite (core_nonempty _ _ _ _ Hc').
    split_and!; try done. by eapply Hne.
Qed.

Lemma check_stream_spec p l offs T :
  core p l offs T → kinds l ≠ [] →
  ∃ p' l0 l', check_stream p = Some p' ∧ core p' l' offs T ∧ l = l0 ++ l' ∧ some_marked l'.
Proof.
  intros Hc Hk. unfold check_stream, rb_len. rewrite (c_data _ _ _ _ Hc), length_fmap.
  assert (∀ n, (length l < n)%nat → ∃ p' l0 l', loop check_stream_step n p = Some p' ∧
    core p' l' offs T ∧ l = l0 ++ l' ∧ some_marked l') as Hgen; [|apply Hgen; lia].
  intros n. revert p l Hc Hk. induction n as [|n IH]; intros p l Hc Hk Hn; [lia|]. cbn [loop].
  destruct (check_stream_step_spec p l offs T Hc Hk)
    as [-> |(p1 & l0 & l1 & -> & Hc1 & -> & Hne & Hm)].
  - exists p, [], l. split_and!; [done..|by left].
  - case_bool_decide as Hl1.
    + exists p1, l0, l1. by split_and!.
    + destruct Hm as [Hm|]; [|done].
      destruct (IH p1 l1 Hc1 Hm) as (p2 & l2 & l3 & -> & Hc2 & -> & Hm2).
      { rewrite length_app in Hn. destruct l0; [done|cbn in Hn; lia]. }
      exists p2, (l0 ++ l2), l3. rewrite <- app_assoc. by split_and!.
Qed.

(** ** The operations *)
Lemma pinv_stack p l offs T :
  pinv p l offs T →
  match scan_stack p with [] => l = [] | _ => l ≠ [] ∧ kinds l ≠ [] ∧ 1 ≤ left_total p end.
Proof.
  intros [Hc Hm _ _ _]. rewrite (c_stack _ _ _ _ Hc).
  destruct (stack_of _ l) eqn:Hs.
  - apply stack_of_nil in Hs. by destruct Hm.
  - assert (kinds l ≠ []) as Hk by (intros Hk; by rewrite (proj2 (stack_of_nil _ l)) in Hs).
    split_and!; [by intros ->|done|]. by destruct (c_left _ _ _ _ Hc) as [| ->].
Qed.

Lemma restart_core p offs T : core p [] offs T → core (restart p) [] offs T.
Proof. intros [? ? ? ? ? ? ?]. split; cbn; try done. by right. Qed.

Lemma push_marked p l t offs offs' T :
  core p l offs T → 1 ≤ left_total p → tok_ok offs t = Some offs' →
  (∀ s, t ≠ TString s) →
  core (with_totals (push_unresolved p t (match t with TEnd => -1 | _ => - right_total p end))
          (left_total p) (right_total p + weight t))
    (l ++ [(mkBufEntry t (match t with TEnd => -1 | _ => - right_total p end), true)]) offs' T.
Proof.
  intros [Hd Hs Hb Hl Ht Htx Htab] Hleft Htok Hns. split; cbn.
  - by rewrite Hd, fmap_app.
  - rewrite stack_of_app, Hs, Hd, length_fmap. done.
  - apply buf_ok_app. exists (right_total p). split; [done|]. cbn.
    assert (0 ≤ weight t) as Hw.
    { destruct t; cbn; try lia; [by destruct (Hns s)|]. by apply tok_ok_break in Htok as [_ ?]. }
    split_and!; [|done|done]. by destruct t; [destruct (Hns s)|..].
  - by left.
  - destruct Ht as (offs0 & Hf & Ht). exists offs0. split; [done|].
    rewrite tokens_app. apply toks_ok_snoc. by exists offs.
  - rewrite tokens_app, text_app, app_assoc. change (out _) with (out p). rewrite Htx.
    change (tokens [(mkBufEntry t _, true)]) with [t].
    rewrite text_one. destruct t; cbn; try by rewrite app_nil_r. by destruct (Hns s).
  - done.
Qed.
Lemma with_totals_id p : with_totals p (left_total p) (right_total p + 0) = p.
Proof. rewrite Z.add_0_r. by destruct p. Qed.

Lemma scan_begin_inv p l t offs offs' T :
  pinv p l offs T → tok_ok offs (TBegin t) = Some offs' →
  ∃ l', pinv (scan_begin p t) l' offs' T.
Proof.
  intros Hp Ht. pose proof (pinv_stack _ _ _ _ Hp) as Hst.
  destruct Hp as [Hc Hm Htr Hbk Hum]. unfold scan_begin.
  set (p0 := match scan_stack p with [] => restart p | _ => p end).
  assert (core p0 l offs T ∧ 1 ≤ left_total p0) as [Hc0 Hl0].
  { unfold p0. destruct (scan_stack p); [subst; split; [by apply restart_core|done]|split; [done|apply Hst]]. }
  pose proof (push_marked p0 l (TBegin t) offs offs' T Hc0 Hl0 Ht) as Hpush.
  cbn [weight] in Hpush. ospecialize (Hpush _); [done|].
  eexists. split; [|apply some_marked_snoc|..].
  - rewrite <- (with_totals_id (push_unresolved p0 _ _)). exact Hpush.
  - rewrite reverse_snoc. cbn. split_and!; [done|by apply some_marked_reverse|done].
  - by rewrite kinds_top.
  - rewrite kinds_top by done. cbn in Ht. assert (length offs' = S (length offs)) as ->.
    { destruct (bg_indent t); [by injection Ht as <-|]. case_bool_decide; [by injection Ht as <-|done]. }
    cbn. lia.
Qed.

(** If the last token is a begin, the scan stack has it on top. *)
Lemma tr_under_begin l e m r :
  tr (reverse l) → reverse l = (e, m) :: r → is_begin (token e) = true →
  under_begin (reverse (kinds l)).
Proof.
  intros Htr Hr Hb. rewrite Hr in Htr. cbn in Htr. destruct (token e) eqn:He; try done.
  destruct Htr as (-> & _).
  rewrite <- (reverse_involutive l), Hr, reverse_cons, kinds_top by done.
  cbn. by rewrite He.
Qed.

(** The state in which [scan_break] pushes its token. *)
Lemma scan_break_ready p l offs T :
  pinv p l offs T →
  ∃ p1 l1, (match scan_stack p with [] => Some (restart p) | _ => check_stack p 0 end) = Some p1 ∧
    core p1 l1 offs T ∧ 1 ≤ left_total p1 ∧ under_begin (reverse (kinds l1)) ∧
    bk (reverse (kinds l1)) ∧ (um 0 (reverse (kinds l1)) ≤ length offs)%nat ∧
    match reverse l1 with
    | (e, _) :: _ => if is_begin (token e) then tr (reverse l1) else True
    | [] => True
    end.
Proof.
  intros Hp. pose proof (pinv_stack _ _ _ _ Hp) as Hst. destruct Hp as [Hc Hm Htr Hbk Hum].
  destruct (scan_stack p) as [|i st].
  { subst l. exists (restart p), []. split_and!; try done. by apply restart_core. }
  destruct Hst as (Hne & Hk & Hl).
  destruct (check_stack_spec p l 0 offs T Hc Hbk) as (p1 & l1 & Hcs & Hc1 & Ht1 & Hk1 & Hsame & Hl1).
  destruct (cs_spec _ 0 Hbk) as (Hb' & Hu' & Hum'). rewrite <- Hk1 in *.
  exists p1, l1. split_and!; [exact Hcs|done|lia|done|done|lia|].
  destruct (reverse l1) as [|[e m] r] eqn:Hr; [done|]. destruct (is_begin (token e)) eqn:Hb; [|done].
  apply (f_equal reverse) in Hr as Hr'. rewrite reverse_involutive, reverse_cons in Hr'.
  destruct l as [|[e' m'] l2 _] using rev_ind; [done|].
  rewrite Hr', !tokens_app in Ht1. apply app_inj_tail in Ht1 as [_ He].
  destruct Hsame as [_ Heq]; [done| |].
  - eapply tr_under_begin; [exact Htr|apply reverse_snoc|]. cbn in He. by rewrite <- He.
  - rewrite <- Hr, Heq. exact Htr.
Qed.

Lemma scan_break_inv p l t offs offs' T :
  pinv p l offs T → tok_ok offs (TBreak t) = Some offs' →
  ∃ p' l', scan_break p t = Some p' ∧ pinv p' l' offs' T.
Proof.
  intros Hp Ht. unfold scan_break.
  destruct (scan_break_ready _ _ _ _ Hp) as (p1 & l1 & -> & Hc1 & Hl1 & Hu1 & Hbk1 & Hum1 & Htr1).
  cbn [mbind option_bind]. do 2 eexists. split; [reflexivity|].
  pose proof (push_marked p1 l1 (TBreak t) offs offs' T Hc1 Hl1 Ht) as Hpush.
  ospecialize (Hpush _); [done|]. destruct (tok_ok_break _ _ _ Ht) as [-> _].
  split; [exact Hpush|apply some_marked_snoc|..].
  - rewrite reverse_snoc. cbn. split; [done|exact Htr1].
  - rewrite kinds_top by done. by split.
  - by rewrite kinds_top.
Qed.

(** Dropping the last token, which is marked. *)
Lemma drop_last_spec p l e :
  data (buf p) = (l ++ [(e, true)]).*1 → scan_stack p = stack_of (rb_offset (buf p)) (l ++ [(e, true)]) →
  drop_last p = Some (with_buf p (mkRingBuffer l.*1 (rb_offset (buf p))) (stack_of (rb_offset (buf p)) l)).
Proof.
  intros Hd Hs. unfold drop_last, rb_pop_last. rewrite Hd, Hs, stack_of_app, fmap_app. cbn.
  destruct (l.*1 ++ [e]) as [|x r] eqn:Hx; [by destruct l|]. rewrite <- Hx. cbn.
  assert (length r = length l.*1) as ->.
  { apply (f_equal length) in Hx. rewrite length_app in Hx. cbn in Hx. lia. }
  rewrite length_app. cbn. rewrite Nat.add_1_r. cbn. by rewrite !take_app_length.
Qed.

Lemma core_drop_break p l e b m offs T :
  core p (l ++ [(e, m)]) offs T → token e = TBreak b →
  core (with_totals (with_buf p (mkRingBuffer l.*1 (rb_offset (buf p)))
          (stack_of (rb_offset (buf p)) l)) (left_total p) (right_total p - blank_space b)) l offs T.
Proof.
  intros [Hd Hs Hb Hl Ht Htx Htab] He. split; cbn; try done.
  - apply buf_ok_app in Hb as (c & Hb & _ & _ & Hc). cbn in Hc. rewrite He in Hc. cbn in Hc.
    by replace (right_total p - blank_space b) with c by lia.
  - destruct Hl as [|Hl]; [by left|by apply app_nil in Hl as [_ ?]].
  - destruct Ht as (offs0 & Hf & Ht). exists offs0. split; [done|].
    rewrite tokens_app in Ht. apply toks_ok_snoc in Ht as (o & Ho & Ht). cbn in Ht. rewrite He in Ht.
    by apply tok_ok_break in Ht as [-> _].
  - rewrite tokens_app, text_app in Htx. cbn in Htx. unfold text in Htx. cbn in Htx. rewrite He in Htx.
    cbn in Htx. by rewrite app_nil_r in Htx.
Qed.

Lemma core_drop_begin p l e b m o offs T :
  core p (l ++ [(e, m)]) (o :: offs) T → token e = TBegin b →
  core (with_buf p (mkRingBuffer l.*1 (rb_offset (buf p))) (stack_of (rb_offset (buf p)) l)) l offs T.
Proof.
  intros [Hd Hs Hb Hl Ht Htx Htab] He. split; cbn; try done.
  - apply buf_ok_app in Hb as (c & Hb & _ & _ & Hc). cbn in Hc. rewrite He in Hc. cbn in Hc.
    by replace (right_total p) with c by lia.
  - destruct Hl as [|Hl]; [by left|by apply app_nil in Hl as [_ ?]].
  - destruct Ht as (offs0 & Hf & Ht). exists offs0. split; [done|].
    rewrite tokens_app in Ht. apply toks_ok_snoc in Ht as (o' & Ho & Ht). cbn in Ht. rewrite He in Ht.
    cbn in Ht. destruct (bg_indent b); [by injection Ht as _ <-|]. case_bool_decide; [|done].
    by injection Ht as _ <-.
  - rewrite tokens_app, text_app in Htx. cbn in Htx. unfold text in Htx. cbn in Htx. rewrite He in Htx.
    cbn in Htx. by rewrite app_nil_r in Htx.
Qed.

(** Pushing the end of a box. *)
Lemma push_end_inv p l o offs T :
  core p l (o :: offs) T → 1 ≤ left_total p → bk (reverse (kinds l)) →
  (um 0 (reverse (kinds l)) ≤ S (length offs))%nat →
  ∃ l', pinv (push_unresolved p TEnd (-1)) l' offs T.
Proof.
  intros Hc Hl Hbk Hum. pose proof (push_marked p l TEnd _ offs T Hc Hl eq_refl) as Hpush.
  ospecialize (Hpush _); [done|]. cbn [weight] in Hpush.
  eexists. split; [|apply some_marked_snoc|..].
  - rewrite <- (with_totals_id (push_unresolved p TEnd _)). exact Hpush.
  - by rewrite reverse_snoc.
  - by rewrite kinds_top.
  - rewrite kinds_top by done. cbn. rewrite um_S. lia.
Qed.

Lemma pinv_nil p offs T : core p [] offs T → pinv p [] offs T.
Proof.
  intros Hc. split; [done|by right|done|done|].
  change (um 0 (reverse (kinds []))) with O. lia.
Qed.

Lemma second_last_spec (b : RingBuffer BufEntry) l e m :
  data b = (l ++ [(e, m)]).*1 →
  rb_second_last b = match reverse l with (e2, _) :: _ => Some e2 | [] => None end.
Proof.
  intros Hd. unfold rb_second_last, rb_len. rewrite Hd.
  destruct l as [|[e2 m2] l _] using rev_ind.
  - by rewrite bool_decide_false by (cbn; lia).
  - rewrite reverse_snoc, length_fmap, !length_app. cbn [length]. decide_bools.
    replace (length l + 1 + 1 - 2)%nat with (length l) by lia.
    rewrite <- app_assoc, list_lookup_fmap. cbn [app]. by rewrite list_lookup_middle.
Qed.

(** A printed end: nothing is buffered. *)
Lemma print_end_inv p o offs T :
  core p [] (o :: offs) T → ∃ p', print_end p = Some p' ∧ pinv p' [] offs T.
Proof.
  intros [Hd Hs Hb Hl (offs0 & Hf & [= ->]) Htx Htab].
  destruct (print_token_spec p TEnd 0 (o :: offs) offs Htab Hf eq_refl)
    as (p' & Hp' & [Hs1 Hs2 Hs3 Hs4 Hs5] & Hf' & Htx'). cbn [print_token] in Hp'.
  exists p'. split; [done|]. apply pinv_nil.
  split; rewrite ?Hs1, ?Hs2, ?Hs3, ?Hs4, ?Hs5; try done.
  - by exists offs.
  - by rewrite Htx', app_nil_r.
Qed.

(** The end of a box whose last token is a break. *)
Lemma scan_end_break p l e bt o offs T :
  pinv p (l ++ [(e, true)]) (o :: offs) T → token e = TBreak bt → 1 ≤ left_total p →
  ∃ p' l', match token <$> rb_second_last (buf p) with
      | Some (TBegin _) =>
          p ← drop_last p; p ← drop_last p;
          Some (with_totals p (left_total p) (right_total p - blank_space bt))
      | _ =>
          if if_nonempty bt then
            p ← drop_last p;
            Some (push_unresolved (with_totals p (left_total p) (right_total p - blank_space bt)) TEnd (-1))
          else Some (push_unresolved p TEnd (-1))
      end = Some p' ∧ pinv p' l' offs T.
Proof.
  intros [Hc Hm Htr Hbk Hum] He Hleft.
  destruct (push_end_inv p _ o offs T Hc Hleft Hbk Hum) as (l' & Hpush).
  rewrite kinds_top, He in Hbk, Hum by done. destruct Hbk as [Hub Hbk]. cbn in Hum.
  pose proof (drop_last_spec p l e (c_data _ _ _ _ Hc) (c_stack _ _ _ _ Hc)) as Hdrop.
  pose proof (core_drop_break p l e bt true (o :: offs) T Hc He) as Hc1.
  rewrite Hdrop. rewrite (second_last_spec _ _ _ _ (c_data _ _ _ _ Hc)).
  rewrite reverse_snoc in Htr. cbn in Htr. rewrite He in Htr. destruct Htr as [_ Htr].
  set (p1 := with_buf p _ _) in *.
  assert (Hother : ∃ p' l', (if if_nonempty bt then
      p ← Some p1;
      Some (push_unresolved (with_totals p (left_total p) (right_total p - blank_space bt)) TEnd (-1))
    else Some (push_unresolved p TEnd (-1))) = Some p' ∧ pinv p' l' offs T).
  { destruct (if_nonempty bt); [|by exists (push_unresolved p TEnd (-1)), l'].
    destruct (push_end_inv _ _ o offs T Hc1 Hleft Hbk Hum) as (l2 & ?). cbn. by do 2 eexists. }
  destruct (reverse l) as [|[e2 m2] r] eqn:Hr; [exact Hother|].
  cbn [fmap option_fmap option_map].
  destruct (token e2) as [| |b2|] eqn:He2; [exact Hother..| |exact Hother].
  cbn in Htr. rewrite He2 in Htr. destruct Htr as (-> & Hsm & Htr).
  apply (f_equal reverse) in Hr as Hl. rewrite reverse_involutive, reverse_cons in Hl. subst l.
  cbn [mbind option_bind].
  pose proof (drop_last_spec p1 (reverse r) e2 eq_refl eq_refl) as Hdrop2.
  rewrite Hdrop2. cbn [mbind option_bind].
  do 2 eexists. split; [reflexivity|].
  pose proof (core_drop_begin _ (reverse r) e2 b2 true o offs T Hc1 He2) as Hc2.
  rewrite kinds_top, He2 in Hbk, Hum by done. cbn in Hum.
  split; [exact Hc2| |by rewrite reverse_involutive|exact Hbk|lia].
  rewrite <- (reverse_involutive r) in Hsm |- *. apply some_marked_reverse in Hsm.
  by rewrite !reverse_involutive in *.
Qed.

Lemma scan_end_inv p l offs offs' T :
  pinv p l offs T → tok_ok offs TEnd = Some offs' →
  ∃ p' l', scan_end p = Some p' ∧ pinv p' l' offs' T.
Proof.
  intros Hp Ht. destruct offs as [|o offs]; [done|]. injection Ht as <-.
  pose proof (pinv_stack _ _ _ _ Hp) as Hst. pose proof Hp as [Hc Hm Htr Hbk Hum].
  unfold scan_end. destruct (scan_stack p) as [|i st] eqn:Hs.
  { subst l. destruct (print_end_inv p o offs T Hc) as (p' & ? & ?). by exists p', []. }
  destruct Hst as (Hne & Hk & Hleft). clear Hs i st.
  destruct (push_end_inv p l o offs T Hc Hleft Hbk Hum) as (l' & Hpush).
  assert (∃ p' l', Some (push_unresolved p TEnd (-1)) = Some p' ∧ pinv p' l' offs T) as Hpush'
    by by exists (push_unresolved p TEnd (-1)), l'.
  assert (rb_last (buf p) = fst <$> last l) as ->.
  { unfold rb_last. by rewrite (c_data _ _ _ _ Hc), fmap_last. }
  destruct l as [|[e m] l _] using rev_ind; [done|]. rewrite last_snoc.
  cbn [fmap option_fmap option_map fst].
  destruct (token e) as [| bt | |] eqn:He; [exact Hpush'| |exact Hpush'|exact Hpush'].
  rewrite reverse_snoc in Htr. cbn in Htr. rewrite He in Htr. destruct Htr as [-> _].
  by apply (scan_end_break p l e bt o offs T).
Qed.

Lemma scan_string_inv p l offs s T :
  pinv p l offs T → ∃ p' l', scan_string p s = Some p' ∧ pinv p' l' offs (T ++ strip s).
Proof.
  intros Hp. pose proof (pinv_stack _ _ _ _ Hp) as Hst. destruct Hp as [Hc Hm Htr Hbk Hum].
  unfold scan_string. destruct (scan_stack p) as [|i st] eqn:Hs.
  - subst l. destruct Hc as [Hd Hs' Hb Hl (offs0 & Hf & [= ->]) Htx Htab].
    destruct (print_token_spec p (TString s) 0 offs offs Htab Hf eq_refl)
      as (p' & Hp' & [Hs1 Hs2 Hs3 Hs4 Hs5] & Hf' & Htx'). cbn [print_token] in Hp'.
    exists p', []. split; [done|]. apply pinv_nil.
    split; rewrite ?Hs1, ?Hs2, ?Hs3, ?Hs4, ?Hs5; try done.
    + by exists offs.
    + rewrite Htx', app_nil_r, <- Htx. by rewrite app_nil_r.
  - destruct Hst as (Hne & Hk & Hleft).
    set (p1 := with_totals _ _ _).
    set (x := (mkBufEntry (TString s) (str_len s), false)).
    assert (core p1 (l ++ [x]) offs (T ++ strip s)) as Hc1.
    { destruct Hc as [Hd Hs' Hb Hl (offs0 & Hf & Ht) Htx Htab]. split; cbn; try done.
      - by rewrite Hd, fmap_app.
      - rewrite stack_of_app, <- Hs', <- Hs. cbn. by rewrite app_nil_r.
      - apply buf_ok_app. exists (right_total p). split; [done|]. cbn.
        split_and!; [done|apply str_len_nonneg|done].
      - by left.
      - exists offs0. split; [done|]. rewrite tokens_app. apply toks_ok_snoc. by exists offs.
      - rewrite tokens_app, text_app, app_assoc, Htx. f_equal. apply (text_one (TString s)). }
    destruct (check_stream_spec p1 (l ++ [x]) offs _ Hc1) as (p2 & l0 & l' & Hcs & Hc2 & Heq & Hm2).
    { rewrite kinds_app. by intros [? _]%app_nil. }
    exists p2, l'. split; [exact Hcs|].
    assert (kinds l = kinds l0 ++ kinds l') as Hkl.
    { rewrite <- kinds_app, <- Heq, kinds_app. by rewrite app_nil_r. }
    rewrite Hkl, reverse_app in Hbk, Hum.
    split; [done|done| |by eapply bk_app|pose proof (um_app (reverse (kinds l')) (reverse (kinds l0)) 0); lia].
    destruct l' as [|y l' _] using rev_ind; [done|].
    rewrite app_assoc in Heq. apply app_inj_tail in Heq as [_ <-]. by rewrite reverse_snoc.
Qed.

Lemma scan_eof_spec p l T :
  pinv p l [] T → ∃ p', scan_eof p = Some p' ∧ strip (out p') = T.
Proof.
  intros Hp. pose proof (pinv_stack _ _ _ _ Hp) as Hst. destruct Hp as [Hc Hm Htr Hbk Hum].
  unfold scan_eof. destruct (scan_stack p) as [|i st].
  - subst l. exists p. split; [done|]. rewrite <- (c_text _ _ _ _ Hc). by rewrite app_nil_r.
  - destruct Hst as (Hne & Hk & _).
    destruct (check_stack_spec p l 0 [] T Hc Hbk) as (p1 & l1 & Hcs & Hc1 & Ht1 & Hk1 & _).
    change (Z.of_nat 0) with 0 in Hcs. rewrite Hcs. cbn [mbind option_bind].
    rewrite cs_nil in Hk1; [|done|cbn in Hum; lia].
    assert (kinds l1 = []) as Hk1'.
    { apply (f_equal reverse) in Hk1. by rewrite reverse_involutive in Hk1. }
    assert (l1 ≠ []) as Hne1.
    { intros ->. unfold tokens in Ht1. cbn in Ht1. symmetry in Ht1. apply fmap_nil_inv, fmap_nil_inv in Ht1. done. }
    destruct (advance_left_spec p1 l1 [] T Hc1 Hne1) as (p2 & l0 & l' & -> & Hc2 & -> & _ & _ & Hm2).
    exists p2. split; [done|]. rewrite kinds_app in Hk1'. apply app_nil in Hk1' as [_ Hk2].
    destruct Hm2 as [?| ->]; [done|]. rewrite <- (c_text _ _ _ _ Hc2). by rewrite app_nil_r.
Qed.

(** ** Token sequences *)
Definition scan_token (p : Printer) (t : Token) : option Printer :=
  match t with
  | TString s => scan_string p s
  | TBreak b => scan_break p b
  | TBegin b => Some (scan_begin p b)
  | TEnd => scan_end p
  end.
Definition print_tokens (p : Printer) (ts : list Token) : option string :=
  p ← fold_m scan_token p ts; eof p.

Lemma printer_new_inv m tab : tab ≠ Some 0 → pinv (printer_new m tab) [] [] [].
Proof.
  intros Htab. apply pinv_nil. split; cbn; try done.
  - by right.
  - exists []. by split.
Qed.

Lemma scan_token_inv p l t offs offs' T :
  pinv p l offs T → tok_ok offs t = Some offs' →
  ∃ p' l', scan_token p t = Some p' ∧ pinv p' l' offs' (T ++ tok_text t).
Proof.
  intros Hp Ht. destruct t as [s|b|b|]; cbn [scan_token tok_text]; rewrite ?app_nil_r.
  - injection Ht as <-. by eapply scan_string_inv.
  - by eapply scan_break_inv.
  - destruct (scan_begin_inv _ _ _ _ _ _ Hp Ht) as (l' & ?). by exists (scan_begin p b), l'.
  - by eapply scan_end_inv.
Qed.

Lemma scan_tokens_inv ts : ∀ p l offs offs' T,
  pinv p l offs T → toks_ok offs ts = Some offs' →
  ∃ p' l', fold_m scan_token p ts = Some p' ∧ pinv p' l' offs' (T ++ text ts).
Proof.
  induction ts as [|t ts IH]; intros p l offs offs' T Hp Ht.
  - injection Ht as <-. exists p, l. split; [done|]. by rewrite app_nil_r.
  - cbn [toks_ok] in Ht. destruct (tok_ok offs t) as [o|] eqn:Hto; [|done].
    destruct (scan_token_inv p l t offs o T Hp Hto) as (p1 & l1 & H1 & Hp1).
    cbn [fold_m]. rewrite H1. destruct (IH p1 l1 o offs' _ Hp1 Ht) as (p2 & l2 & -> & Hp2).
    exists p2, l2. split; [done|]. by rewrite <- app_assoc in Hp2.
Qed.

(** ** Properties *)

(** C4: printing any sequence of tokens with balanced boxes, non-negative
    blanks and non-negative indentations, whose breaks carry no text of their
    own for the end of the old line or the start of the new one, at any margin
    and with any width of a tab but zero, ends without a panic, and the output
    holds all the text of the string tokens, in order, with nothing but white
    space added. *)
Theorem print_tokens_text m tab ts :
  tab ≠ Some 0 → toks_ok [] ts = Some [] →
  ∃ s, print_tokens (printer_new m tab) ts = Some s ∧ strip s = text ts.
Proof.
  intros Htab Hts.
  destruct (scan_tokens_inv ts _ _ _ _ _ (printer_new_inv m tab Htab) Hts) as (p & l & Hf & Hp).
  destruct (scan_eof_spec _ _ _ Hp) as (p' & He & Htx).
  exists (out p'). unfold print_tokens, eof. rewrite Hf. cbn [mbind option_bind]. by rewrite He.
Qed.

Definition sample_tokens : list Token :=
  [TBegin (mkBeginToken (Block 4) Consistent); TString "function foo("; TBreak break_default;
   TString "uint256 aaaaaaaaaaaaaaaaaaaaaaaa,"; TBreak (mkBreakToken 0 1 None None false false);
   TString "uint256 b"; TBreak (mkBreakToken (-4) 0 None None false false); TEnd; TString ")"].

Lemma print_tokens_text_witness :
  ∃ s, print_tokens (printer_new 40 None) sample_tokens = Some s ∧ strip s = text sample_tokens.
Proof. apply (print_tokens_text 40 None sample_tokens); [done|vm_compute; reflexivity]. Defined.

(** Replacing a buffered break by a hard break
    ([hardbreak_if_not_bol] after a break with an offset) leaves the totals
    as they were; closing an empty box then subtracts the hard break's width
    from a total that never contained it, and the whole text that follows up
    to the end of the file is lost. *)
Lemma replaced_break_loses_text :
  (p ← word (rbox (printer_new 40 None) 0 Consistent) "x";
   p ← break_offset (rbox p 4 Consistent) 1 4;
   p ← hardbreak_if_not_bol p;
   p ← end_box p;
   p ← word p "y"; p ← end_box p; p ← hardbreak p;
   eof p) = Some ""%string.
Proof. vm_compute. reflexivity. Qed.
