(* ===== verification/ExpectCall.v ===== *)
(** * Expected calls: cheatcodes/src/test/expect.rs ([expect_call]) and
    cheatcodes/src/inspector.rs (the call hook and the end of the root call)

    Addresses and 256-bit values are integers, byte strings lists of bytes.
    The call counters count single events from zero and are left unbounded;
    the gas that a test gives is a [u64] whose overflow panics. *)
From stdpp Require Import base gmap list strings.
From Stdlib Require Import ZArith Lia.
From S2P Require Import Prelude Containers.

#[local] Abbreviation Address := Z (only parsing).
#[local] Abbreviation Bytes := (list Z) (only parsing).

Inductive ExpectedCallType := NonCount | Count.
#[export] Instance expected_call_type_eq : EqDecision ExpectedCallType.
Proof. solve_decision. Defined.

Record ExpectedCallData := mkExpectedCallData {
  ec_value : option Z;
  ec_gas : option Z;
  ec_min_gas : option Z;
  ec_count : Z;
  ec_type : ExpectedCallType;
}.

Abbreviation ExpectedCallTracker := (gmap Z (gmap (list Z) (ExpectedCallData * Z))).

(** The errors of [expect_call]. *)
Inductive ExpectCallError := CountedOnlyOnce | CannotOverwriteCounted.

(** The stipend of a call that carries value. *)
Definition add_stipend (value gas : option Z) : option (option Z) :=
  match gas with
  | Some g =>
      if bool_decide (0 < default 0 value) then Some <$> checked u64_max (g + 2300)
      else Some (Some g)
  | None => Some None
  end.

Definition expect_call (t : ExpectedCallTracker) (target : Address) (calldata : Bytes)
    (value gas min_gas : option Z) (count : Z) (call_type : ExpectedCallType)
    : option (ExpectedCallTracker * result ExpectCallError unit) :=
  let expecteds := default ∅ (t !! target) in
  gas ← add_stipend value gas;
  min_gas ← add_stipend value min_gas;
  let fresh := (mkExpectedCallData value gas min_gas count call_type, 0) in
  Some match call_type with
  | Count =>
      match expecteds !! calldata with
      | Some _ => (<[target := expecteds]> t, Err CountedOnlyOnce)
      | None => (<[target := <[calldata := fresh]> expecteds]> t, Ok tt)
      end
  | NonCount =>
      match expecteds !! calldata with
      | Some (expected, actual) =>
          if bool_decide (ec_type expected = NonCount)
          then (<[target := <[calldata := (mkExpectedCallData (ec_value expected) (ec_gas expected)
                   (ec_min_gas expected) (ec_count expected + 1) (ec_type expected), actual)]>
                   expecteds]> t, Ok tt)
          else (<[target := expecteds]> t, Err CannotOverwriteCounted)
      | None => (<[target := <[calldata := fresh]> expecteds]> t, Ok tt)
      end
  end.

(** ** The call hook *)
Record Call := mkCall {
  bytecode_address : Address;
  call_input : Bytes;
  transfer_value : option Z;
  gas_limit : Z;
}.

Definition call_matches (c : Call) (calldata : Bytes) (e : ExpectedCallData) : bool :=
  bool_decide (length calldata ≤ length (call_input c))%nat &&
  bool_decide (calldata = take (length calldata) (call_input c)) &&
  (match ec_value e with Some v => bool_decide (Some v = transfer_value c) | None => true end) &&
  (match ec_gas e with Some g => bool_decide (g = gas_limit c) | None => true end) &&
  (match ec_min_gas e with Some g => bool_decide (g ≤ gas_limit c) | None => true end).

Definition observe_call (t : ExpectedCallTracker) (c : Call) : ExpectedCallTracker :=
  match t !! bytecode_address c with
  | Some m =>
      <[bytecode_address c := map_imap (λ calldata x, Some
         (if call_matches c calldata x.1 then (x.1, x.2 + 1) else x)) m]> t
  | None => t
  end.

(** ** The end of the root call *)
Definition call_unmet (x : ExpectedCallData * Z) : bool :=
  match ec_type x.1 with
  | Count => bool_decide (ec_count x.1 ≠ x.2)
  | NonCount => bool_decide (x.2 < ec_count x.1)
  end.

(** The first unmet expectation, in the order of the maps. *)
Definition check_expected_calls `{!HashOrder Address, !HashOrder Bytes} (t : ExpectedCallTracker)
    : option (Address * Bytes * (ExpectedCallData * Z)) :=
  head (mjoin ((λ a : Address * gmap Bytes (ExpectedCallData * Z),
    (λ d : Bytes * (ExpectedCallData * Z), (a.1, d.1, d.2)) <$>
      filter (λ d, call_unmet d.2 = true) (iter_map a.2)) <$> iter_map t)).

(** ** Counting *)
Definition tracked (t : ExpectedCallTracker) (a : Address) (d : Bytes)
    : option (ExpectedCallData * Z) :=
  m ← t !! a; m !! d.

(** The calls of a trace that an expectation counts. *)
Definition matching_calls (a : Address) (d : Bytes) (e : ExpectedCallData) (cs : list Call) : Z :=
  Z.of_nat (length (filter (λ c, bytecode_address c = a ∧ call_matches c d e = true) cs)).

Lemma tracked_observe t c a d :
  tracked (observe_call t c) a d =
  (λ x, if decide (bytecode_address c = a ∧ call_matches c d x.1 = true)
        then (x.1, x.2 + 1) else x) <$> tracked t a d.
Proof.
  unfold tracked, observe_call. destruct (t !! bytecode_address c) as [m|] eqn:Hm.
  - destruct (decide (bytecode_address c = a)) as [<-|Hne].
    + rewrite lookup_insert_eq, Hm. cbn. rewrite map_lookup_imap.
      destruct (m !! d) as [x|]; cbn; [|done]. f_equal.
      destruct (call_matches c d x.1); [by rewrite decide_True|].
      by rewrite decide_False by (by intros [_ ?]).
    + rewrite lookup_insert_ne by done. destruct (t !! a) as [m'|]; cbn; [|done].
      destruct (m' !! d) as [x|]; cbn; [|done].
      by rewrite decide_False by (by intros [? _]).
  - destruct (decide (bytecode_address c = a)) as [<-|Hne]; [by rewrite Hm|].
    destruct (t !! a) as [m'|]; cbn; [|done]. destruct (m' !! d) as [x|]; cbn; [|done].
    by rewrite decide_False by (by intros [? _]).
Qed.

Lemma tracked_calls cs t a d :
  tracked (foldl observe_call t cs) a d =
  (λ x, (x.1, x.2 + matching_calls a d x.1 cs)) <$> tracked t a d.
Proof.
  revert t. induction cs as [|c cs IH]; intros t; cbn [foldl].
  - destruct (tracked t a d) as [[e n]|]; cbn; [|done]. unfold matching_calls. cbn. by rewrite Z.add_0_r.
  - rewrite IH, tracked_observe. destruct (tracked t a d) as [[e n]|]; cbn; [|done].
    unfold matching_calls. rewrite filter_cons.
    destruct (decide (bytecode_address c = a ∧ call_matches c d e = true)); cbn [fst snd length];
      do 2 f_equal. lia.
Qed.

Lemma check_expected_calls_None `{!HashOrder Address, !HashOrder Bytes} t :
  check_expected_calls t = None ↔ ∀ a d x, tracked t a d = Some x → call_unmet x = false.
Proof.
  unfold check_expected_calls. rewrite head_None. split.
  - intros Hn a d x Hx. unfold tracked in Hx. destruct (t !! a) as [m|] eqn:Hm; [|done]. cbn in Hx.
    destruct (call_unmet x) eqn:Hu; [|done].
    rewrite join_nil, Forall_fmap, Forall_forall in Hn.
    specialize (Hn (a, m)). rewrite elem_of_iter_map in Hn. specialize (Hn Hm). cbn in Hn.
    assert ((d, x) ∈ filter (λ d, call_unmet d.2 = true) (iter_map m)) as Hin.
    { apply list_elem_of_filter. split; [done|]. by apply elem_of_iter_map. }
    destruct (filter _ (iter_map m)); [by apply not_elem_of_nil in Hin|done].
  - intros Hall. rewrite join_nil, Forall_fmap. apply Forall_forall. intros [a m] Ha%elem_of_iter_map.
    cbn. destruct (filter _ (iter_map m)) as [|[d x] l] eqn:Hf; [done|].
    assert ((d, x) ∈ filter (λ d, call_unmet d.2 = true) (iter_map m)) as Hin
      by (rewrite Hf; auto with anvil).
    apply list_elem_of_filter in Hin as [Hu Hd%elem_of_iter_map].
    cbn in Hu. rewrite (Hall a d x) in Hu; [done|]. unfold tracked. by rewrite Ha.
Qed.

(** Repeating [expect_call] without a count. *)
Fixpoint expect_again (n : nat) (t : ExpectedCallTracker) (target : Address) (calldata : Bytes)
    : option ExpectedCallTracker :=
  match n with
  | O => Some t
  | S n =>
      '(t, r) ← expect_call t target calldata None None None 1 NonCount;
      match r with Ok _ => expect_again n t target calldata | Err _ => None end
  end.

Lemma expect_again_spec n t target calldata e k :
  tracked t target calldata = Some (e, k) → ec_type e = NonCount →
  ∃ t', expect_again n t target calldata = Some t' ∧
    tracked t' target calldata = Some (mkExpectedCallData (ec_value e) (ec_gas e) (ec_min_gas e)
      (ec_count e + Z.of_nat n) NonCount, k) ∧
    ∀ a d, (a, d) ≠ (target, calldata) → tracked t' a d = tracked t a d.
Proof.
  revert t e. induction n as [|n IH]; intros t e Ht He; cbn [expect_again].
  { exists t. split_and!; [done| |done]. rewrite Ht, Z.add_0_r, <- He. by destruct e. }
  unfold expect_call. unfold tracked in Ht. destruct (t !! target) as [m|] eqn:Hm; [|done].
  cbn in Ht |- *. rewrite Ht, He. decide_bools. cbn.
  destruct (IH (<[target := <[calldata := (mkExpectedCallData (ec_value e) (ec_gas e) (ec_min_gas e)
    (ec_count e + 1) NonCount, k)]> m]> t) (mkExpectedCallData (ec_value e) (ec_gas e) (ec_min_gas e)
    (ec_count e + 1) NonCount)) as (t' & -> & Ht' & Hoth).
  { unfold tracked. by rewrite lookup_insert_eq; cbn; rewrite lookup_insert_eq. }
  { done. }
  exists t'. split_and!; [done| |].
  - rewrite Ht'. cbn. do 3 f_equal. lia.
  - intros a d Hne. rewrite Hoth by done. unfold tracked.
    destruct (decide (a = target)) as [->|]; [|by rewrite lookup_insert_ne].
    rewrite lookup_insert_eq, Hm. cbn. rewrite lookup_insert_ne; [done|].
    intros ->. by apply Hne.
Qed.

(** The trackers of a test that expects one call, once and then [n] times. *)
Lemma expect_call_first target calldata value gas min_gas count call_type gas' min_gas' :
  add_stipend value gas = Some gas' → add_stipend value min_gas = Some min_gas' →
  expect_call ∅ target calldata value gas min_gas count call_type =
    Some ({[target := {[calldata := (mkExpectedCallData value gas' min_gas' count call_type, 0)]}]}, Ok tt).
Proof.
  intros Hg Hm. unfold expect_call. rewrite Hg, Hm. cbn. rewrite lookup_empty. cbn.
  rewrite lookup_empty. by destruct call_type.
Qed.

Lemma tracked_singleton (target : Address) (calldata : Bytes) (x : ExpectedCallData * Z) a d :
  tracked {[target := {[calldata := x]}]} a d =
  if decide ((a, d) = (target, calldata)) then Some x else None.
Proof.
  unfold tracked. destruct (decide (a = target)) as [->|Hne].
  - rewrite lookup_singleton_eq. cbn. destruct (decide (d = calldata)) as [->|Hd].
    + by rewrite lookup_singleton_eq, decide_True.
    + rewrite lookup_singleton_ne by done. rewrite decide_False; [done|]. congruence.
  - rewrite lookup_singleton_ne by done. rewrite decide_False; [done|]. congruence.
Qed.

(** The verdict on a tracker with one expectation. *)
Lemma check_one_expectation `{!HashOrder Address, !HashOrder Bytes} t target calldata e cs :
  tracked t target calldata = Some (e, 0) →
  (∀ a d, (a, d) ≠ (target, calldata) → tracked t a d = None) →
  check_expected_calls (foldl observe_call t cs) = None ↔
  call_unmet (e, matching_calls target calldata e cs) = false.
Proof.
  intros Ht Hoth. rewrite check_expected_calls_None. setoid_rewrite tracked_calls. split.
  - intros Ha. apply (Ha target calldata). by rewrite Ht.
  - intros Hu a d x. destruct (decide ((a, d) = (target, calldata))) as [[= -> ->]|Hne].
    + rewrite Ht. by intros [= <-].
    + by rewrite Hoth.
Qed.

Lemma add_stipend_Some value o :
  (∀ g, o = Some g → 0 ≤ g ≤ u64_max - 2300) → ∃ o', add_stipend value o = Some o'.
Proof.
  intros Ho. destruct o as [g|]; cbn; [|by eexists]. case_bool_decide; [|by eexists].
  specialize (Ho g eq_refl). rewrite checked_in by lia. by eexists.
Qed.

(** ** Properties *)

(** A test that expects a call [n + 1] times without a count passes
    exactly when the trace holds at least that many calls that start with the
    data and satisfy the value and gas of the first expectation; with a
    count, exactly when the number of such calls is the count.  Later
    expectations that differ in value or gas do not change this. *)
Lemma expect_call_verdict `{!HashOrder Address, !HashOrder Bytes} target calldata value gas min_gas
    count call_type n cs :
  (∀ g, gas = Some g → 0 ≤ g ≤ u64_max - 2300) →
  (∀ g, min_gas = Some g → 0 ≤ g ≤ u64_max - 2300) →
  (call_type = Count → n = O) → (call_type = NonCount → count = 1) →
  ∃ t t' e, expect_call ∅ target calldata value gas min_gas count call_type = Some (t, Ok tt) ∧
    expect_again n t target calldata = Some t' ∧
    ec_value e = value ∧
    (check_expected_calls (foldl observe_call t' cs) = None ↔
     match call_type with
     | NonCount => Z.of_nat (S n) ≤ matching_calls target calldata e cs
     | Count => matching_calls target calldata e cs = count
     end).
Proof.
  intros Hg Hmg Hn Hc.
  destruct (add_stipend_Some value gas Hg) as [gas' Hgas].
  destruct (add_stipend_Some value min_gas Hmg) as [min_gas' Hmin].
  rewrite (expect_call_first _ _ _ _ _ _ _ _ _ Hgas Hmin).
  set (e := mkExpectedCallData value gas' min_gas' count call_type).
  pose proof (tracked_singleton target calldata (e, 0)) as Htr.
  destruct call_type.
  - destruct (expect_again_spec n {[target := {[calldata := (e, 0)]}]} target calldata e 0)
      as (t' & Hagain & Ht' & Ho); [by rewrite Htr, decide_True|done|].
    do 2 eexists. exists (mkExpectedCallData value gas' min_gas' (count + Z.of_nat n) NonCount).
    split; [reflexivity|]. split; [exact Hagain|]. split; [reflexivity|].
    rewrite check_one_expectation; [|exact Ht'|].
    + unfold call_unmet. cbn. rewrite Hc by done. rewrite bool_decide_eq_false.
      unfold matching_calls. cbn. lia.
    + intros a d Hne. rewrite Ho, Htr by done. by rewrite decide_False.
  - rewrite (Hn eq_refl). do 2 eexists. exists e. split; [reflexivity|]. split; [reflexivity|].
    split; [reflexivity|].
    rewrite check_one_expectation; [|by rewrite Htr, decide_True|].
    + unfold call_unmet. cbn. rewrite bool_decide_eq_false. lia.
    + intros a d Hne. by rewrite Htr, decide_False.
Qed.

Lemma expect_call_verdict_witness :
  let _ := elements_order Z in let _ := elements_order (list Z) in
  ∃ t t' e, expect_call ∅ 7 [1; 2] (Some 5) None None 1 NonCount = Some (t, Ok tt) ∧
    expect_again 1 t 7 [1; 2] = Some t' ∧ ec_value e = Some 5 ∧
    (check_expected_calls (foldl observe_call t' [mkCall 7 [1; 2; 3] (Some 5) 100; mkCall 7 [1; 2] (Some 5) 9]) = None
     ↔ Z.of_nat 2 ≤ matching_calls 7 [1; 2] e [mkCall 7 [1; 2; 3] (Some 5) 100; mkCall 7 [1; 2] (Some 5) 9]).
Proof.
  intros o1 o2. apply (expect_call_verdict 7 [1; 2] (Some 5) None None 1 NonCount 1
    [mkCall 7 [1; 2; 3] (Some 5) 100; mkCall 7 [1; 2] (Some 5) 9]); done.
Defined.

(** A counted expectation can neither be repeated nor replaced by an
    uncounted one, nor a set one by a counted one; a refused [expectCall]
    changes no expectation. *)
Lemma expect_call_conflict t target calldata value gas min_gas count call_type e k t' r :
  tracked t target calldata = Some (e, k) → call_type = Count ∨ ec_type e = Count →
  expect_call t target calldata value gas min_gas count call_type = Some (t', r) →
  r ≠ Ok tt ∧ ∀ a d, tracked t' a d = tracked t a d.
Proof.
  intros Ht Hc. unfold tracked in Ht. destruct (t !! target) as [m|] eqn:Hm; [|done]. cbn in Ht.
  unfold expect_call. rewrite Hm. cbn. destruct (add_stipend value gas); cbn; [|done].
  destruct (add_stipend value min_gas); cbn; [|done]. rewrite Ht.
  assert (<[target := m]> t = t) as -> by by apply insert_id.
  destruct call_type; [|by intros [= <- <-]].
  case_bool_decide as Hty; [|by intros [= <- <-]]. destruct Hc; congruence.
Qed.

Lemma expect_call_conflict_witness :
  ∀ t' r, expect_call {[7 := {[ [1] := (mkExpectedCallData None None None 3 Count, 0) ]}]} 7 [1]
    None None None 1 NonCount = Some (t', r) → r ≠ Ok tt.
Proof.
  intros t' r Hr.
  by apply (expect_call_conflict _ 7 [1] None None None 1 NonCount
    (mkExpectedCallData None None None 3 Count) 0 t' r) in Hr as [? _]; [|reflexivity|right].
Defined.
