(* ===== verification/ExpectEmit.v ===== *)
(** * Expected events: cheatcodes/src/test/expect.rs ([expect_emit],
    [handle_expect_emit], [LogCountMap], [get_emit_mismatch_message]) and the
    checks at the end of a call in cheatcodes/src/inspector.rs

    A raw log is the pair of its topics and its data.  The five checks are a
    list of booleans (topics 0 to 3, data).  How words and bytes print is a
    parameter (alloy's formatting), as is the decoding of events with known
    signatures. *)
From stdpp Require Import base gmap list strings pretty.
From Stdlib Require Import ZArith Lia.
From S2P Require Import Prelude Containers.
#[local] Open Scope list_scope.

#[local] Abbreviation Address := Z (only parsing).
Abbreviation RawLog := (list Z * list Z)%type.

Definition topics (l : RawLog) : list Z := l.1.
Definition log_data (l : RawLog) : list Z := l.2.
Record Log := mkLog { log_address : Address; log_raw : RawLog }.

Record ExpectedEmit := mkExpectedEmit {
  em_depth : Z;
  em_log : option RawLog;
  em_checks : list bool;
  em_address : option Address;
  em_anonymous : bool;
  em_found : bool;
  em_count : Z;
  em_mismatch : option string;
}.
Definition set_log (e : ExpectedEmit) (l : RawLog) : ExpectedEmit :=
  mkExpectedEmit (em_depth e) (Some l) (em_checks e) (em_address e) (em_anonymous e) (em_found e)
    (em_count e) (em_mismatch e).
Definition set_found (e : ExpectedEmit) (f : bool) (m : option string) : ExpectedEmit :=
  mkExpectedEmit (em_depth e) (em_log e) (em_checks e) (em_address e) (em_anonymous e) f
    (em_count e) m.

(** [checks[i]]. *)
Definition check (checks : list bool) (i : nat) : bool := default false (checks !! i).

Definition topics_match (checks : list bool) (expected actual : list Z) : bool :=
  forallb (λ it : nat * Z, negb (check checks it.1) || bool_decide (expected !! it.1 = Some it.2))
    (imap pair actual).

Definition checks_topics_and_data (checks : list bool) (expected log : RawLog) : bool :=
  bool_decide (length (topics log) = length (topics expected)) &&
  topics_match checks (topics expected) (topics log) &&
  negb (check checks 4 && bool_decide (log_data expected ≠ log_data log)).

(** ** [LogCountMap] *)
Record LogCountMap := mkLogCountMap {
  lc_checks : list bool;
  lc_expected : RawLog;
  lc_map : gmap RawLog Z;
}.

(** [LogCountMap::new]: the log must have been filled. *)
Definition lc_new (e : ExpectedEmit) : option LogCountMap :=
  l ← em_log e; Some (mkLogCountMap (em_checks e) l ∅).

Definition satisfies_checks (m : LogCountMap) (l : RawLog) : bool :=
  checks_topics_and_data (lc_checks m) (lc_expected m) l.

Definition lc_insert (m : LogCountMap) (l : RawLog) : LogCountMap * bool :=
  match lc_map m !! l with
  | Some c => (mkLogCountMap (lc_checks m) (lc_expected m) (<[l := c + 1]> (lc_map m)), true)
  | None =>
      if satisfies_checks m l
      then (mkLogCountMap (lc_checks m) (lc_expected m) (<[l := 1]> (lc_map m)), true)
      else (m, false)
  end.

Definition count_unchecked (m : LogCountMap) : Z :=
  foldr (λ x s, x.2 + s) 0 (map_to_list (lc_map m)).
Definition lc_count (m : LogCountMap) (l : RawLog) : Z :=
  if satisfies_checks m l then count_unchecked m else 0.

Abbreviation ExpectedEmitTracker := (list (ExpectedEmit * gmap Z LogCountMap)).

Definition expect_emit (t : ExpectedEmitTracker) (depth : Z) (checks : list bool)
    (address : option Address) (anonymous : bool) (count : Z) : ExpectedEmitTracker :=
  let e := mkExpectedEmit depth None checks address anonymous false count None in
  match position (λ x, em_found x.1) t with
  | Some found_emit_pos => take found_emit_pos t ++ (e, ∅) :: drop found_emit_pos t
  | None => t ++ [(e, ∅)]
  end.

(** ** The mismatch message *)
Record DecodedCallLog := mkDecodedCallLog {
  dl_name : option string;
  dl_params : option (list (string * string));
}.

Definition name_mismatched_logs (expected actual : option DecodedCallLog) : string :=
  let name d := default "log"%string (d ≫= dl_name) in
  (name actual +:+ " != expected " +:+ name expected)%string.

(** [slice::chunks]. *)
Fixpoint chunks_fuel {A} (fuel n : nat) (l : list A) : list (list A) :=
  match fuel, l with
  | S fuel, _ :: _ => take n l :: chunks_fuel fuel n (drop n l)
  | _, _ => []
  end.
Definition chunks {A} (n : nat) (l : list A) : list (list A) := chunks_fuel (length l) n l.

Class LogFormat := {
  show_word : Z → string;
  show_address : Z → string;
  hex_prefixed : list Z → string;
}.

Section message.
Context `{!LogFormat}.

(** A mismatch: parameter index, expected and actual value.  The code
    renders it and parses the index back. *)
Definition Mismatch : Type := nat * string * string.

Definition topic_mismatches (checks : list bool) (is_anonymous : bool) (expected actual : list Z)
    : list Mismatch :=
  omap (λ x : nat * (Z * Z),
    let '(i, (e, a)) := x in
    if bool_decide (i = O) && negb is_anonymous then None
    else if bool_decide (i < length checks)%nat && check checks i && bool_decide (e ≠ a)
    then Some (if is_anonymous then i else (i - 1)%nat, show_word e, show_word a)
    else None) (imap pair (zip expected actual)).

Definition data_mismatches (num_indexed : nat) (expected actual : list Z) : list Mismatch :=
  omap (λ x : nat * (list Z * list Z),
    let '(i, (e, a)) := x in
    if bool_decide (e ≠ a) then Some ((num_indexed + i)%nat, hex_prefixed e, hex_prefixed a)
    else None) (imap pair (zip (chunks 32 expected) (chunks 32 actual))).

Definition show_mismatch (m : Mismatch) : string :=
  let '(i, e, a) := m in
  ("param " +:+ pretty i +:+ ": expected=" +:+ e +:+ ", got=" +:+ a)%string.

(** With decoded events, the parameter's name and decoded values. *)
Definition show_decoded (expected actual : list (string * string)) (m : Mismatch) : string :=
  let '(i, _, _) := m in
  match expected !! i, actual !! i with
  | Some (name, e), Some (_, a) =>
      ((if bool_decide (name = ""%string) then "param" +:+ pretty i else name) +:+
        ": expected=" +:+ e +:+ ", got=" +:+ a)%string
  | _, _ => show_mismatch m
  end.

Fixpoint join (sep : string) (l : list string) : string :=
  match l with
  | [] => ""
  | [s] => s
  | s :: l => s +:+ sep +:+ join sep l
  end%string.

Definition event_prefix (is_anonymous : bool) (expected actual : option DecodedCallLog) : string :=
  match expected, actual with
  | Some e, Some a =>
      if bool_decide (dl_name e = dl_name a)
      then (default "log" (dl_name e) +:+ " param mismatch")%string
      else if is_anonymous then "anonymous log mismatch" else "log mismatch"
  | _, _ => if is_anonymous then "anonymous log mismatch" else "log mismatch"
  end.

Definition get_emit_mismatch_message (checks : list bool) (expected actual : RawLog)
    (is_anonymous : bool) (expected_decoded actual_decoded : option DecodedCallLog) : string :=
  let generic := name_mismatched_logs expected_decoded actual_decoded in
  if bool_decide (length (topics actual) ≠ length (topics expected)) then generic
  else if negb is_anonymous && check checks 0 && bool_decide (topics expected ≠ []) &&
          bool_decide (topics actual ≠ []) &&
          bool_decide (head (topics expected) ≠ head (topics actual)) then generic
  else
    let differ := check checks 4 && bool_decide (log_data expected ≠ log_data actual) in
    if differ && (bool_decide (length (log_data expected) ≠ length (log_data actual)) ||
                  bool_decide (length (log_data expected) mod 32 ≠ 0)%nat ||
                  bool_decide (log_data expected = [])) then generic
    else
      let num_indexed := if is_anonymous then length (topics expected)
                         else (length (topics expected) - 1)%nat in
      let mismatches :=
        topic_mismatches checks is_anonymous (topics expected) (topics actual) ++
        (if differ then data_mismatches num_indexed (log_data expected) (log_data actual) else []) in
      match mismatches with
      | [] => generic
      | _ =>
          let detailed :=
            match expected_decoded ≫= dl_params, actual_decoded ≫= dl_params with
            | Some e, Some a => show_decoded e a <$> mismatches
            | _, _ => show_mismatch <$> mismatches
            end in
          (event_prefix is_anonymous expected_decoded actual_decoded +:+ " at " +:+
            join ", " detailed)%string
      end.
End message.

(** ** [handle_expect_emit] *)
(** What the handler does besides updating the queue: it reverts the
    interpreter, if there is one, or returns the reason. *)
Inductive EmitSignal := NoSignal | RevertInterpreter (msg : string) | ShouldFail (msg : string).

Definition signal (interpreter : bool) (msg : string) : EmitSignal :=
  if interpreter then RevertInterpreter msg else ShouldFail msg.

Section handle.
Context `{!LogFormat} `{!HashOrder Address}.
(** The signatures known to the test: none, or a decoder of logs. *)
Variable signatures_identifier : option (RawLog → option DecodedCallLog).

(** A [count = 0] expectation that the log violates. *)
Definition violates_zero (log : Log) (e : ExpectedEmit) : bool :=
  bool_decide (em_count e = 0) && negb (em_found e) &&
  match em_log e with
  | Some expected => checks_topics_and_data (em_checks e) expected (log_raw log)
  | None => false
  end &&
  (bool_decide (em_address e = None) || bool_decide (em_address e = Some (log_address log))).

Definition index_to_fill_or_check (t : ExpectedEmitTracker) (should_fill : bool) : nat :=
  if should_fill
  then (default (length t) (position (λ x, em_found x.1) t) - 1)%nat
  else default O (position (λ x, negb (em_found x.1) && bool_decide (0 < em_count x.1)) t).

(** The count of the log per emitter. *)
Definition count_log (e : ExpectedEmit) (m : gmap Z LogCountMap) (log : Log)
    : option (gmap Z LogCountMap) :=
  match m !! log_address log with
  | Some lc => Some (<[log_address log := (lc_insert lc (log_raw log)).1]> m)
  | None =>
      lc ← lc_new e;
      Some (if satisfies_checks lc (log_raw log)
            then <[log_address log := (lc_insert lc (log_raw log)).1]> m else m)
  end.

(** The closure that decides whether the event is found, with the
    mismatch it records. *)
Definition decide_found (e : ExpectedEmit) (expected : RawLog) (m : gmap Z LogCountMap) (log : Log)
    : bool * option string :=
  if negb (checks_topics_and_data (em_checks e) expected (log_raw log)) then
    let decoded l := match signatures_identifier with
                     | Some decode => if em_anonymous e then None else decode l
                     | None => None
                     end in
    (false, Some (get_emit_mismatch_message (em_checks e) expected (log_raw log) (em_anonymous e)
                    (decoded expected) (decoded (log_raw log))))
  else
    match em_address e with
    | Some emitter =>
        if bool_decide (emitter ≠ log_address log)
        then (false, Some ("log emitter mismatch: expected=" +:+ show_address emitter +:+ ", got=" +:+
                           show_address (log_address log))%string)
        else (match m !! emitter with
              | Some lc => bool_decide (em_count e ≤ lc_count lc (log_raw log))
              | None => false
              end, em_mismatch e)
    | None =>
        (match list_find (λ lc, satisfies_checks lc (log_raw log) = true) (map_values m) with
         | Some (_, lc) => bool_decide (em_count e ≤ lc_count lc (log_raw log))
         | None => false
         end, em_mismatch e)
    end.

Definition fill_or_check (t : ExpectedEmitTracker) (log : Log) (interpreter : bool) (i : nat)
    : option (ExpectedEmitTracker * EmitSignal) :=
  '(e, m) ← t !! i;
  let rest := take i t ++ drop (S i) t in
  match em_log e with
  | None =>
      if em_anonymous e || bool_decide (topics (log_raw log) ≠ [])
      then Some (take i rest ++ (set_log e (log_raw log), m) :: drop i rest, NoSignal)
      else Some (rest, signal interpreter "use vm.expectEmitAnonymous to match anonymous events")
  | Some expected =>
      m ← count_log e m log;
      let '(found, mismatch) := decide_found e expected m log in
      let e := set_found e found mismatch in
      Some (if found then rest ++ [(e, m)] else (e, m) :: rest, NoSignal)
  end.

Definition handle_expect_emit (t : ExpectedEmitTracker) (log : Log) (interpreter : bool)
    : option (ExpectedEmitTracker * EmitSignal) :=
  if forallb (λ x, em_found x.1) t then Some (t, NoSignal)
  else if existsb (λ x, violates_zero log x.1) t
  then Some (t, signal interpreter "log emitted but expected 0 times")
  else
    let should_fill := existsb (λ x, bool_decide (em_log x.1 = None)) t in
    if negb should_fill && forallb (λ x, em_found x.1 || bool_decide (em_count x.1 = 0)) t
    then Some (t, NoSignal)
    else fill_or_check t log interpreter (index_to_fill_or_check t should_fill).

(** ** The end of a call *)
Definition emit_count (x : ExpectedEmit * gmap Z LogCountMap) : Z :=
  let count lc := match em_log x.1 with Some l => lc_count lc l | None => count_unchecked lc end in
  match em_address x.1 with
  | Some emitter => match x.2 !! emitter with Some lc => count lc | None => 0 end
  | None => foldr (λ lc s, count lc + s) 0 (map_values x.2)
  end.

Inductive EmitError :=
| LogMismatch (msg : string)
| WrongCount (count expected : Z)
| EmitButReverted
| NoMoreLogs.

Definition check_expected_emits (t : ExpectedEmitTracker) (depth : Z) (is_static is_ok : bool)
    : ExpectedEmitTracker * option EmitError :=
  if existsb (λ x, bool_decide (em_depth x.1 = depth)) t && negb is_static then
    match list_find (λ x : ExpectedEmit * gmap Z LogCountMap,
            em_found x.1 = false ∧ 0 < em_count x.1) t with
    | Some (_, (e, _)) => (t, Some (LogMismatch (default "log != expected log"%string (em_mismatch e))))
    | None =>
        match list_find (λ x, emit_count x ≠ em_count x.1) t with
        | Some (_, x) =>
            (t, Some (if is_ok : bool then WrongCount (emit_count x) (em_count x.1)
                      else EmitButReverted))
        | None => ([], None)
        end
    end
  else (t, None).

(** The leftovers at the end of the root call. *)
Definition leftover_emits (t : ExpectedEmitTracker) (is_ok : bool)
    : ExpectedEmitTracker * option EmitError :=
  let t := filter (λ x : ExpectedEmit * gmap Z LogCountMap,
             em_found x.1 = false ∧ em_count x.1 ≠ 0) t in
  (t, match t with
      | [] => None
      | _ => Some (if is_ok then NoMoreLogs else EmitButReverted)
      end).
End handle.

(** ** The queue *)
(** Found events are at the back of the queue. *)
Definition unfound (t : ExpectedEmitTracker) : Prop := Forall (λ x, em_found x.1 = false) t.
Definition all_found (t : ExpectedEmitTracker) : Prop := Forall (λ x, em_found x.1 = true) t.
Definition emit_wf (t : ExpectedEmitTracker) : Prop := ∃ u f, t = u ++ f ∧ unfound u ∧ all_found f.

Lemma position_found u f :
  unfound u → all_found f →
  position (λ x, em_found x.1) (u ++ f) = match f with [] => None | _ => Some (length u) end.
Proof.
  intros Hu Hf. induction Hu as [|x u Hx Hu IH]; cbn.
  - destruct Hf as [|x f Hx Hf]; cbn; [done|]. by rewrite Hx.
  - rewrite Hx, IH. by destruct f.
Qed.
Lemma existsb_false_Forall {A} (p : A → bool) l : existsb p l = false ↔ Forall (λ x, p x = false) l.
Proof.
  induction l as [|x l IH]; cbn; [by split|].
  rewrite orb_false_iff, IH, Forall_cons. done.
Qed.
Lemma forallb_all_found t : forallb (λ x, em_found x.1) t = true ↔ all_found t.
Proof.
  unfold all_found. induction t as [|x t IH]; cbn; [by split|].
  rewrite andb_true_iff, IH, Forall_cons. done.
Qed.

Lemma expect_emit_wf t depth checks address anonymous count :
  emit_wf t → emit_wf (expect_emit t depth checks address anonymous count).
Proof.
  intros (u & f & -> & Hu & Hf). unfold expect_emit. rewrite position_found by done.
  set (e := mkExpectedEmit _ _ _ _ _ _ _ _).
  assert (unfound (u ++ [(e, ∅)])) as Hu' by (apply Forall_app; split; [done|by constructor]).
  destruct f as [|x f].
  - exists (u ++ [(e, ∅)]), []. rewrite !app_nil_r. by split_and!.
  - exists (u ++ [(e, ∅)]), (x :: f). rewrite take_app_length, drop_app_length.
    by rewrite <- app_assoc.
Qed.

Section handle_proofs.
Context `{!LogFormat} `{!HashOrder Address}.
Variable sigs : option (RawLog → option DecodedCallLog).

(** Checking an unfound event keeps the order of the queue. *)
Lemma fill_or_check_wf t log interpreter i u f :
  t = u ++ f → unfound u → all_found f → (i < length u)%nat →
  ∃ t' sg, fill_or_check sigs t log interpreter i = Some (t', sg) ∧ emit_wf t'.
Proof.
  intros -> Hu Hf Hi. unfold fill_or_check.
  destruct (lookup_lt_is_Some_2 u i Hi) as [[e m] He].
  rewrite (lookup_app_l_Some _ _ _ _ He). cbn [mbind option_bind].
  assert (take i (u ++ f) ++ drop (S i) (u ++ f) = (take i u ++ drop (S i) u) ++ f) as Hrest.
  { rewrite take_app_le, drop_app_le by lia. by rewrite app_assoc. }
  rewrite Hrest. set (rest := take i u ++ drop (S i) u).
  assert (unfound rest) as Hur.
  { unfold rest. apply Forall_app. split; [by apply Forall_take|by apply Forall_drop]. }
  assert (i ≤ length rest)%nat as Hlr.
  { unfold rest. rewrite length_app, length_take. lia. }
  assert (em_found e = false) as Hef by (by eapply (Forall_lookup_1 _ _ _ _ Hu) in He).
  destruct (em_log e) as [expected|] eqn:Hlog.
  - unfold count_log. assert (∃ lc, lc_new e = Some lc) as [lc Hlc] by (unfold lc_new; rewrite Hlog; by eexists).
    assert (∃ m', (match m !! log_address log with
      | Some lc => Some (<[log_address log := (lc_insert lc (log_raw log)).1]> m)
      | None => lc ← lc_new e; Some (if satisfies_checks lc (log_raw log)
          then <[log_address log := (lc_insert lc (log_raw log)).1]> m else m)
      end) = Some m') as [m' Hm'].
    { destruct (m !! log_address log); [by eexists|]. rewrite Hlc. by eexists. }
    rewrite Hm'. cbn [mbind option_bind].
    destruct (decide_found sigs e expected m' log) as [[] mm].
    + do 2 eexists. split; [reflexivity|]. exists rest, (f ++ [(set_found e true mm, m')]).
      rewrite app_assoc. split_and!; [done|done|]. apply Forall_app. split; [done|by constructor].
    + do 2 eexists. split; [reflexivity|]. exists ((set_found e false mm, m') :: rest), f.
      split_and!; [done|by constructor|done].
  - destruct (_ || _).
    + do 2 eexists. split; [reflexivity|].
      exists (take i rest ++ (set_log e (log_raw log), m) :: drop i rest), f.
      rewrite take_app_le, drop_app_le by lia. split_and!; [by rewrite <- app_assoc| |done].
      apply Forall_app. split; [by apply Forall_take|constructor; [done|by apply Forall_drop]].
    + do 2 eexists. split; [reflexivity|]. by exists rest, f.
Qed.

Lemma position_first {A} (p : A → bool) x l : p x = true → position p (x :: l) = Some O.
Proof. intros Hp. cbn. by rewrite Hp. Qed.

(** The first event to check is not found yet. *)
Lemma index_in_unfound u f should_fill :
  unfound u → all_found f → u ≠ [] →
  (should_fill = true ∨ forallb (λ x, em_found x.1 || bool_decide (em_count x.1 = 0)) (u ++ f) = false) →
  (index_to_fill_or_check (u ++ f) should_fill < length u)%nat.
Proof.
  intros Hu Hf Hne Hs. unfold index_to_fill_or_check. destruct should_fill.
  - rewrite position_found by done. destruct u as [|x u]; [done|].
    destruct f; cbn; [rewrite app_nil_r; lia|lia].
  - assert (∃ i, position (λ x : ExpectedEmit * gmap Z LogCountMap,
      negb (em_found x.1) && bool_decide (0 < em_count x.1)) (u ++ f) = Some i ∧ (i < length u)%nat ∨
      position (λ x : ExpectedEmit * gmap Z LogCountMap,
      negb (em_found x.1) && bool_decide (0 < em_count x.1)) (u ++ f) = None) as [i [[-> Hi]| ->]].
    { clear Hs Hne. induction Hu as [|x u Hx Hu IH]; cbn.
      - exists O. right. induction Hf as [|x f Hx Hf IH]; cbn; [done|]. by rewrite Hx, IH.
      - rewrite Hx. cbn. case_bool_decide; [exists O; left; split; [done|lia]|].
        destruct IH as [i [[-> Hi]| ->]]; [exists (S i); left; split; [done|lia]|exists O; by right]. }
    + done.
    + cbn. destruct u; [done|cbn; lia].
Qed.

Lemma handle_expect_emit_wf t log interpreter :
  emit_wf t → ∃ t' sg, handle_expect_emit sigs t log interpreter = Some (t', sg) ∧ emit_wf t'.
Proof.
  intros Hwf. pose proof Hwf as (u & f & Heq & Hu & Hf). unfold handle_expect_emit.
  destruct (forallb (λ x, em_found x.1) t) eqn:Hall; [by do 2 eexists|].
  destruct (existsb _ t); [by do 2 eexists|].
  destruct (negb _ && _) eqn:Hz; [by do 2 eexists|].
  assert (u ≠ []) as Hne.
  { intros ->. apply (not_true_iff_false (forallb (λ x, em_found x.1) t)) in Hall. apply Hall.
    apply forallb_all_found. by rewrite Heq. }
  eapply (fill_or_check_wf t); [exact Heq|done|done|]. rewrite Heq.
  apply index_in_unfound; [done..|]. apply andb_false_iff in Hz as [Hz|Hz].
  - left. apply negb_false_iff in Hz. by rewrite <- Heq.
  - right. by rewrite <- Heq.
Qed.
End handle_proofs.

(** ** Counting *)
Lemma checks_topics_and_data_refl checks l : checks_topics_and_data checks l l = true.
Proof.
  unfold checks_topics_and_data, topics_match. rewrite !andb_true_iff, bool_decide_eq_true.
  split_and!; [done| |].
  - rewrite forallb_forall. intros [i t] Hin%list_elem_of_In. cbn.
    apply list_elem_of_lookup in Hin as [j Hj]. rewrite list_lookup_imap in Hj.
    apply fmap_Some in Hj as (t' & Ht & [= -> ->]). rewrite Ht. decide_bools.
    apply orb_true_r.
  - decide_bools. by rewrite andb_false_r.
Qed.

Lemma foldr_counts_perm (l1 l2 : list (RawLog * Z)) :
  l1 ≡ₚ l2 → foldr (λ x s, x.2 + s) 0 l1 = foldr (λ x s, x.2 + s) 0 l2.
Proof. induction 1; cbn; lia. Qed.

Lemma count_unchecked_insert (checks : list bool) (expected : RawLog) (m : gmap RawLog Z) (l : RawLog) :
  count_unchecked (mkLogCountMap checks expected (<[l := default 0 (m !! l) + 1]> m)) =
  count_unchecked (mkLogCountMap checks expected m) + 1.
Proof.
  unfold count_unchecked. cbn. destruct (m !! l) as [c|] eqn:Hl; cbn.
  - rewrite <- insert_delete_eq.
    rewrite (foldr_counts_perm _ _ (map_to_list_insert _ l (c + 1) (lookup_delete_eq m l))).
    rewrite <- (foldr_counts_perm _ _ (map_to_list_delete m l c Hl)). cbn. lia.
  - rewrite (foldr_counts_perm _ _ (map_to_list_insert _ l _ Hl)). cbn. lia.
Qed.

(** The logs counted for one emitter all satisfy the checks of the event. *)
Definition lc_ok (e : ExpectedEmit) (lc : LogCountMap) : Prop :=
  lc_checks lc = em_checks e ∧ Some (lc_expected lc) = em_log e ∧
  ∀ l c, lc_map lc !! l = Some c → satisfies_checks lc l = true.

Lemma lc_insert_spec e lc l :
  lc_ok e lc →
  lc_ok e (lc_insert lc l).1 ∧
  count_unchecked (lc_insert lc l).1 =
    count_unchecked lc + (if satisfies_checks lc l then 1 else 0).
Proof.
  intros (Hc & He & Hm). unfold lc_insert. destruct lc as [checks expected m]. cbn in *.
  pose proof (count_unchecked_insert checks expected m l) as Hcount.
  unfold satisfies_checks in *. cbn in *.
  destruct (m !! l) as [c|] eqn:Hl; cbn in *.
  - rewrite (Hm l c Hl). split; [|done]. split_and!; [done..|]. intros l' c'. cbn.
    intros [[<- <-]|[_ ?]]%lookup_insert_Some; eauto.
  - destruct (checks_topics_and_data checks expected l) eqn:Hs; cbn; [|split; [done|lia]].
    split; [|exact Hcount]. split_and!; [done..|]. intros l' c'. cbn.
    intros [[<- <-]|[_ ?]]%lookup_insert_Some; eauto.
Qed.

(** ** Events in order *)
Section order.
Context `{!LogFormat} `{!HashOrder Address}.
Variable sigs : option (RawLog → option DecodedCallLog).

(** A log that an expected event accepts. *)
Definition em_matches (e : ExpectedEmit) (log : Log) : bool :=
  match em_log e with
  | Some expected => checks_topics_and_data (em_checks e) expected (log_raw log)
  | None => false
  end &&
  match em_address e with Some a => bool_decide (a = log_address log) | None => true end.

(** Filled events whose count does not depend on the order of a hash map:
    the emitter is given, or one occurrence is expected. *)
Definition emit_ok (x : ExpectedEmit * gmap Z LogCountMap) : Prop :=
  is_Some (em_log x.1) ∧ 1 ≤ em_count x.1 ∧ (em_address x.1 = None → em_count x.1 = 1) ∧
  ∀ a lc, x.2 !! a = Some lc → lc_ok x.1 lc.
Definition pending_emit (x : ExpectedEmit * gmap Z LogCountMap) : Prop :=
  emit_ok x ∧ em_found x.1 = false ∧ 0 ≤ emit_count x < em_count x.1 ∧
  (em_address x.1 = None → x.2 = ∅).
Definition found_emit (x : ExpectedEmit * gmap Z LogCountMap) : Prop :=
  is_Some (em_log x.1) ∧ em_found x.1 = true ∧ emit_count x = em_count x.1.

Lemma emit_count_set_found e m f mm : emit_count (set_found e f mm, m) = emit_count (e, m).
Proof. done. Qed.

Lemma emit_count_emitter e m a :
  em_address e = Some a → (∀ lc, m !! a = Some lc → lc_ok e lc) →
  emit_count (e, m) = match m !! a with Some lc => count_unchecked lc | None => 0 end.
Proof.
  intros Ha Hok. unfold emit_count. cbn. rewrite Ha.
  destruct (m !! a) as [lc|] eqn:Hm; [|done]. destruct (Hok _ eq_refl) as (Hc & He & _).
  rewrite <- He. unfold lc_count, satisfies_checks. by rewrite checks_topics_and_data_refl.
Qed.

Lemma iter_map_empty {A} : iter_map (∅ : gmap Address A) = [].
Proof.
  unfold iter_map. rewrite dom_empty_L. pose proof (iter_set_perm (∅ : gset Address)) as Hp.
  rewrite elements_empty in Hp. apply Permutation_nil_r in Hp. by rewrite Hp.
Qed.
Lemma map_values_singleton {A} (a : Address) (x : A) : map_values {[ a := x ]} = [x].
Proof.
  unfold map_values, iter_map. rewrite dom_singleton_L.
  pose proof (iter_set_perm ({[ a ]} : gset Address)) as Hp.
  rewrite elements_singleton in Hp. apply Permutation_singleton_r in Hp. rewrite Hp. cbn.
  by rewrite lookup_singleton_eq.
Qed.

(** The count of the emitter of the log after it was counted. *)
Lemma count_log_emitter e m log :
  is_Some (em_log e) → (∀ a lc, m !! a = Some lc → lc_ok e lc) →
  ∃ m', count_log e m log = Some m' ∧ (∀ a lc, m' !! a = Some lc → lc_ok e lc) ∧
    (∀ a, a ≠ log_address log → m' !! a = m !! a) ∧
    let count m := from_option count_unchecked 0 (m !! log_address log) in
    let sat := match em_log e with
               | Some l => checks_topics_and_data (em_checks e) l (log_raw log) | None => false end in
    count m' = count m + (if sat then 1 else 0) ∧ (sat = true → is_Some (m' !! log_address log)) ∧
    (m !! log_address log = None → sat = false → m' = m).
Proof.
  intros [l Hl] Hok. unfold count_log. destruct (m !! log_address log) as [lc|] eqn:Hm.
  - pose proof (Hok _ _ Hm) as Hlc. pose proof Hlc as (Hc & He & _).
    destruct (lc_insert_spec e lc (log_raw log) Hlc) as [Hlc' Hcount].
    eexists. split; [reflexivity|]. rewrite lookup_insert_eq. split_and!.
    + intros a lc'. intros [[_ <-]|[_ ?]]%lookup_insert_Some; eauto.
    + intros a Ha. by rewrite lookup_insert_ne by done.
    + cbn. rewrite Hcount. unfold satisfies_checks. rewrite Hc. rewrite <- He. done.
    + done.
    + done.
  - unfold lc_new. rewrite Hl. cbn.
    set (lc := mkLogCountMap (em_checks e) l ∅). change (checks_topics_and_data (em_checks e) l (log_raw log))
      with (satisfies_checks lc (log_raw log)).
    assert (lc_ok e lc) as Hlc by (split_and!; [done|by rewrite Hl|intros ??; cbn; by rewrite lookup_empty]).
    destruct (lc_insert_spec e lc (log_raw log) Hlc) as [Hlc' Hcount].
    eexists. split; [reflexivity|]. destruct (satisfies_checks lc (log_raw log)) eqn:Hs.
    + rewrite lookup_insert_eq. split_and!; [| | |done|done].
      * intros a lc'. intros [[_ <-]|[_ ?]]%lookup_insert_Some; eauto.
      * intros a Ha. by rewrite lookup_insert_ne by done.
      * cbn. rewrite Hcount. done.
    + rewrite Hm. split_and!; [exact Hok|done|done|done|done].
Qed.

(** Checking one event against one log counts it if it matches, and finds
    the event when the expected count is reached. *)
Lemma check_one e m log :
  pending_emit (e, m) →
  ∃ m' mm, count_log e m log = Some m' ∧
    (∀ a lc, m' !! a = Some lc → lc_ok e lc) ∧
    emit_count (e, m') = emit_count (e, m) + (if em_matches e log then 1 else 0) ∧
    (em_address e = None → em_matches e log = false → m' = ∅) ∧
    decide_found sigs e (default ([], []) (em_log e)) m' log =
      (em_matches e log && bool_decide (em_count e ≤ emit_count (e, m')), mm).
Proof.
  intros ((Hlog & Hc1 & Hcn & Hok) & Hf & Hcount & Hempty). cbn in *.
  destruct (count_log_emitter e m log Hlog Hok) as (m' & Hcl & Hok' & Hne & Hcnt & Hsat & Hsame).
  exists m'. unfold decide_found, em_matches. destruct Hlog as [l Hl]. rewrite Hl in *. cbn in *.
  destruct (checks_topics_and_data (em_checks e) l (log_raw log)) eqn:Hs; cbn in *.
  - assert (∀ lc, lc_ok e lc → satisfies_checks lc (log_raw log) = true) as Hsatisfies.
    { intros lc (Hc & He & _). unfold satisfies_checks. rewrite Hc. rewrite Hl in He.
      injection He as ->. done. }
    destruct (Hsat eq_refl) as [lc Hlc]. rewrite Hlc in Hcnt. cbn in Hcnt.
    destruct (em_address e) as [a|] eqn:Ha.
    + rewrite (emit_count_emitter e m a Ha), (emit_count_emitter e m' a Ha) by eauto.
      destruct (decide (a = log_address log)) as [->|Hnea].
      * rewrite (bool_decide_true (log_address log = _)) by done.
        decide_bools.
        rewrite Hlc. eexists. split_and!; [done|done| |done|].
        -- rewrite Hcnt. destruct (m !! log_address log); cbn; lia.
        -- unfold lc_count. by rewrite (Hsatisfies lc) by eauto.
      * rewrite (bool_decide_true (a ≠ _)) by done. rewrite (bool_decide_false (a = _)) by done.
        eexists. split_and!; [done|done| |done|reflexivity]. rewrite Hne by done. lia.
    + specialize (Hempty eq_refl). subst m. rewrite lookup_empty in Hcnt. cbn in Hcnt.
      assert (m' = {[ log_address log := lc ]}) as Hm'.
      { apply map_eq. intros a. destruct (decide (a = log_address log)) as [->|Hnea].
        - by rewrite lookup_singleton_eq.
        - rewrite lookup_singleton_ne by done. rewrite Hne by done. done. }
      assert (emit_count (e, m') = count_unchecked lc) as ->.
      { unfold emit_count. cbn. rewrite Ha, Hl, Hm', map_values_singleton. cbn.
        destruct (Hok' _ _ Hlc) as (Hck & Hex & _). unfold lc_count, satisfies_checks.
        rewrite Hck. rewrite Hl in Hex. injection Hex as ->. rewrite checks_topics_and_data_refl. lia. }
      assert (emit_count (e, ∅ : gmap Z LogCountMap) = 0) as ->.
      { unfold emit_count. cbn. rewrite Ha. unfold map_values. by rewrite iter_map_empty. }
      eexists. split_and!; [done|done|lia|done|]. rewrite Hm', map_values_singleton. cbn.
      rewrite decide_True by (by apply Hsatisfies; eauto). unfold lc_count.
      by rewrite (Hsatisfies lc) by eauto.
  - eexists. split_and!; [done|done| | |reflexivity].
    + destruct (em_address e) as [a|] eqn:Ha.
      * rewrite (emit_count_emitter e m a Ha), (emit_count_emitter e m' a Ha) by eauto.
        destruct (decide (a = log_address log)) as [->|Hnea].
        -- destruct (m !! log_address log), (m' !! log_address log); cbn in *; lia.
        -- rewrite Hne by done. lia.
      * specialize (Hempty eq_refl). subst m. rewrite (Hsame (lookup_empty _) eq_refl). lia.
    + intros Ha _. specialize (Hempty Ha). subst m. by apply Hsame.
Qed.

Definition depths (t : ExpectedEmitTracker) : list Z := (λ x, em_depth x.1) <$> t.

(** The occurrences still expected, in order. *)
Definition emits_left (u : ExpectedEmitTracker) : list (Log → bool) :=
  concat ((λ x, replicate (Z.to_nat (em_count x.1 - emit_count x)) (em_matches x.1)) <$> u).
Definition consume (ps : list (Log → bool)) (log : Log) : list (Log → bool) :=
  match ps with
  | p :: ps' => if p log then ps' else ps
  | [] => []
  end.

(** The handler on a log that is neither filled in nor forbidden checks
    the first pending event. *)
Lemma handle_checks_first x u f log interpreter :
  Forall pending_emit (x :: u) → Forall found_emit f →
  handle_expect_emit sigs (x :: u ++ f) log interpreter =
    fill_or_check sigs (x :: u ++ f) log interpreter 0.
Proof.
  intros Hu Hf. unfold handle_expect_emit.
  pose proof (Forall_inv Hu) as ((_ & Hc & _) & Hx & _). rewrite app_comm_cons.
  assert (forallb (λ x, em_found x.1) ((x :: u) ++ f) = false) as -> by (cbn; by rewrite Hx).
  assert (existsb (λ x, violates_zero log x.1) ((x :: u) ++ f) = false) as ->.
  { apply existsb_false_Forall, Forall_app. split; eapply Forall_impl; try done.
    - intros y ((_ & Hy & _) & _). unfold violates_zero. by decide_bools.
    - intros y (_ & Hy & _). unfold violates_zero. rewrite Hy. by rewrite andb_false_r. }
  assert (existsb (λ x : ExpectedEmit * gmap Z LogCountMap, bool_decide (em_log x.1 = None))
            ((x :: u) ++ f) = false) as ->.
  { apply existsb_false_Forall, Forall_app. split; eapply Forall_impl; try done.
    - intros y (([? ->] & _) & _). done.
    - intros y ([? ->] & _). done. }
  cbn [negb andb]. unfold index_to_fill_or_check.
  cbn. rewrite Hx. decide_bools. done.
Qed.

Lemma handle_expect_emit_step u f log interpreter :
  Forall pending_emit u → Forall found_emit f →
  ∃ u' f', handle_expect_emit sigs (u ++ f) log interpreter = Some (u' ++ f', NoSignal) ∧
    Forall pending_emit u' ∧ Forall found_emit f' ∧ emits_left u' = consume (emits_left u) log ∧
    depths (u' ++ f') ≡ₚ depths (u ++ f).
Proof.
  intros Hu Hf. destruct u as [|[e m] u].
  { exists [], f. unfold handle_expect_emit.
    rewrite (proj2 (forallb_all_found ([] ++ f))) by
      (eapply Forall_impl; [exact Hf|]; by intros ? (_ & ? & _)). done. }
  pose proof (Forall_inv Hu) as Hx. pose proof (Forall_inv_tail Hu) as Hu'.
  cbn [app]. rewrite (handle_checks_first (e, m)) by done. unfold fill_or_check. cbn [lookup list_lookup mbind option_bind take drop app].
  destruct (check_one e m log Hx) as (m' & mm & Hcl & Hok & Hcount & Hempty & Hd).
  pose proof Hx as ((Hlog & Hc1 & Hcn & _) & Hfd & Hlt & _). cbn in Hlog, Hc1, Hcn, Hlt, Hfd.
  destruct (em_log e) as [expected|] eqn:Hl; [|by destruct Hlog]. cbn in Hd.
  rewrite Hcl. cbn [mbind option_bind]. rewrite Hd.
  destruct (em_matches e log) eqn:Hmatch; cbn [andb].
  - case_bool_decide as Hreached.
    + exists u, (f ++ [(set_found e true mm, m')]). rewrite app_assoc.
      split_and!; [done|done| | |].
      * apply Forall_app. split; [done|]. apply Forall_singleton. split_and!; [cbn; by rewrite Hl|done|].
        rewrite emit_count_set_found. cbn. lia.
      * unfold emits_left. cbn. replace (em_count e - emit_count (e, m)) with 1 by lia.
        change (Z.to_nat 1) with 1%nat. cbn [replicate app consume]. by rewrite Hmatch.
      * unfold depths. rewrite !fmap_app, !fmap_cons, fmap_app. cbn. solve_Permutation.
    + exists ((set_found e false mm, m') :: u), f. split_and!; [done| |done| |done].
      * constructor; [|done]. unfold pending_emit. rewrite emit_count_set_found. cbn.
        split_and!; [|done|lia|lia|intros Ha; specialize (Hcn Ha); lia].
        unfold emit_ok. cbn. rewrite Hl. done.
      * unfold emits_left. rewrite fmap_cons. cbn [concat fst]. rewrite emit_count_set_found. cbn.
        replace (Z.to_nat (em_count e - emit_count (e, m))) with
          (S (Z.to_nat (em_count e - emit_count (e, m')))) by lia.
        cbn. by rewrite Hmatch.
  - exists ((set_found e false mm, m') :: u), f. split_and!; [done| |done| |done].
    + constructor; [|done]. unfold pending_emit. rewrite emit_count_set_found. cbn.
      split_and!; [|done|lia|lia|auto]. unfold emit_ok. cbn. rewrite Hl. done.
    + unfold emits_left. rewrite !fmap_cons. cbn [concat fst]. rewrite emit_count_set_found. cbn.
      rewrite Hcount, Z.add_0_r.
      destruct (Z.to_nat (em_count e - emit_count (e, m))) eqn:Hn; [lia|]. cbn. by rewrite Hmatch.
Qed.

(** ** A call *)
(** The logs of a call go through the handler one by one. *)
Definition handle_logs (interpreter : bool) (t : ExpectedEmitTracker) (logs : list Log)
    : option ExpectedEmitTracker :=
  fold_m (λ t log, r ← handle_expect_emit sigs t log interpreter;
                   match r.2 with NoSignal => Some r.1 | _ => None end) t logs.

(** [ps] accept a subsequence of the logs, in order. *)
Inductive emitted_in_order : list (Log → bool) → list Log → Prop :=
| emitted_all logs : emitted_in_order [] logs
| emitted_match p ps log logs :
    p log = true → emitted_in_order ps logs → emitted_in_order (p :: ps) (log :: logs)
| emitted_skip ps log logs : emitted_in_order ps logs → emitted_in_order ps (log :: logs).

Lemma emitted_in_order_tail p ps logs :
  emitted_in_order (p :: ps) logs → emitted_in_order ps logs.
Proof.
  intros He. remember (p :: ps) as qs eqn:Hqs. revert p ps Hqs.
  induction He as [|q qs log logs Hq He IH|qs log logs He IH]; intros p ps [= -> ->] || intros p ps ->.
  - by apply emitted_skip.
  - apply emitted_skip. by eapply IH.
Qed.
(** Taking the first log that matches loses nothing. *)
Lemma consume_in_order ps logs :
  emitted_in_order ps logs ↔ foldl consume ps logs = [].
Proof.
  split.
  - revert ps. induction logs as [|log logs IH]; intros ps He; cbn.
    + by inversion He.
    + apply IH. destruct ps as [|p ps]; [constructor|]. cbn.
      inversion He as [|? ? ? ? Hp He'|? ? ? He']; subst.
      * by rewrite Hp.
      * destruct (p log); [by eapply emitted_in_order_tail|done].
  - revert ps. induction logs as [|log logs IH]; intros ps; cbn.
    + intros ->. constructor.
    + intros He%IH. destruct ps as [|p ps]; [constructor|]. cbn in He.
      destruct (p log) eqn:Hp; [by apply emitted_match|by apply emitted_skip].
Qed.

Lemma handle_logs_total interpreter logs u f :
  Forall pending_emit u → Forall found_emit f →
  ∃ u' f', handle_logs interpreter (u ++ f) logs = Some (u' ++ f') ∧
    Forall pending_emit u' ∧ Forall found_emit f' ∧
    emits_left u' = foldl consume (emits_left u) logs ∧ depths (u' ++ f') ≡ₚ depths (u ++ f).
Proof.
  revert u f. induction logs as [|log logs IH]; intros u f Hu Hf; cbn; [by exists u, f|].
  destruct (handle_expect_emit_step u f log interpreter Hu Hf) as (u' & f' & -> & Hu' & Hf' & Hl & Hp).
  cbn. rewrite <- Hl. destruct (IH u' f' Hu' Hf') as (u2 & f2 & ? & ? & ? & ? & Hp').
  exists u2, f2. split_and!; [done..|]. by rewrite Hp', Hp.
Qed.

Lemma emits_left_nil u : Forall pending_emit u → emits_left u = [] → u = [].
Proof.
  destruct u as [|x u]; [done|]. intros Hu. pose proof (Forall_inv Hu) as (_ & _ & Hc & _).
  unfold emits_left. cbn. destruct (Z.to_nat (em_count x.1 - emit_count x)) eqn:Hn; [lia|done].
Qed.

(** The end of the call accepts the queue when nothing is pending. *)
Lemma check_expected_emits_verdict u f depth is_ok :
  Forall pending_emit u → Forall found_emit f → depth ∈ depths (u ++ f) →
  (check_expected_emits (u ++ f) depth false is_ok).2 = None ↔ u = [].
Proof.
  intros Hu Hf Hd. unfold check_expected_emits.
  assert (existsb (λ x, bool_decide (em_depth x.1 = depth)) (u ++ f) = true) as ->.
  { apply existsb_exists. apply list_elem_of_fmap in Hd as (x & -> & Hx).
    exists x. split; [by apply list_elem_of_In|by apply bool_decide_true]. }
  cbn [andb negb].
  destruct u as [|x u].
  - split; [done|]. intros _. cbn [app].
    destruct (list_find _ f) as [[i [e m]]|] eqn:Hfind.
    { apply list_find_Some in Hfind as (Hi & [He _] & _).
      apply (Forall_lookup_1 _ _ _ _ Hf) in Hi as (_ & Hi & _). cbn in He, Hi. congruence. }
    destruct (list_find (λ x, emit_count x ≠ em_count x.1) f) as [[i y]|] eqn:Hcnt; [|done].
    apply list_find_Some in Hcnt as (Hi & He & _).
    by apply (Forall_lookup_1 _ _ _ _ Hf) in Hi as (_ & _ & Hi).
  - split; [|done]. pose proof (Forall_inv Hu) as ((_ & Hc & _) & Hx & _).
    cbn. rewrite decide_True by (split; [done|lia]). by destruct x.
Qed.
End order.

Section claims.
Context `{!LogFormat} `{!HashOrder Address}.
Variable sigs : option (RawLog → option DecodedCallLog).

(** The handler of expected events never panics (the [expect] after
    the queue is searched, the [unwrap] of an expected log that must have
    been filled in), whatever logs it sees and whether or not it has an
    interpreter, and it keeps the events already found at the back of the
    queue, in the order they were found in front of which new
    expectations are declared. *)
Lemma emit_queue_safe t log interpreter depth checks address anonymous count :
  emit_wf t →
  emit_wf (expect_emit t depth checks address anonymous count) ∧
  ∃ t' sg, handle_expect_emit sigs t log interpreter = Some (t', sg) ∧ emit_wf t'.
Proof. intros Ht. split; [by apply expect_emit_wf|by apply handle_expect_emit_wf]. Qed.

(** A declared and filled in event, nothing of which was emitted yet. *)
Definition declared (x : ExpectedEmit * gmap Z LogCountMap) : Prop :=
  is_Some (em_log x.1) ∧ em_found x.1 = false ∧ 1 ≤ em_count x.1 ∧
  (em_address x.1 = None → em_count x.1 = 1) ∧ x.2 = ∅.

Lemma declared_pending x : declared x → pending_emit x ∧ emit_count x = 0.
Proof.
  destruct x as [e m]. intros (Hl & Hf & Hc & Hn & Hm). cbn in *. subst m.
  assert (emit_count (e, ∅ : gmap Z LogCountMap) = 0) as H0.
  { unfold emit_count. cbn. destruct (em_address e); [done|].
    unfold map_values. by rewrite iter_map_empty. }
  split; [|done]. split_and!; [|done|lia| |done].
  - unfold emit_ok. cbn. split_and!; [done..|]. intros a lc. by rewrite lookup_empty.
  - cbn in *. lia.
Qed.
(** The occurrences that declared events ask for, in order. *)
Definition occurrences (t : ExpectedEmitTracker) : list (Log → bool) :=
  concat ((λ x, replicate (Z.to_nat (em_count x.1)) (em_matches x.1)) <$> t).

Lemma declared_left t :
  Forall declared t → Forall pending_emit t ∧ emits_left t = occurrences t.
Proof.
  intros Ht. split; [eapply Forall_impl; [done|]; by intros x [? _]%declared_pending|].
  unfold emits_left, occurrences. f_equal. induction Ht as [|x t Hx Ht IH]; [done|].
  rewrite !fmap_cons, IH. f_equal. by rewrite (proj2 (declared_pending x Hx)), Z.sub_0_r.
Qed.

(** C5: the expected events that were declared (each with an emitter, or
    expected once) are accepted at the end of the call exactly when the
    logs of the call contain, in the order of the declarations and with
    any other logs in between, as many matching logs as each event asks
    for. *)
Theorem emits_match_in_order t logs depth is_ok interpreter :
  Forall declared t → depth ∈ depths t →
  ∃ t', handle_logs sigs interpreter t logs = Some t' ∧
    ((check_expected_emits t' depth false is_ok).2 = None ↔
     emitted_in_order (occurrences t) logs).
Proof.
  intros [Ht Hleft]%declared_left Hd.
  destruct (handle_logs_total sigs interpreter logs t [] Ht (Forall_nil_2 _))
    as (u & f & Hh & Hu & Hf & Hl & Hp). rewrite app_nil_r in Hh, Hp.
  exists (u ++ f). split; [done|]. rewrite check_expected_emits_verdict; [|done|done|by rewrite Hp].
  rewrite consume_in_order, <- Hleft, <- Hl. split; [by intros ->|by apply emits_left_nil].
Qed.

Lemma counts_one_sum (l : list LogCountMap) f :
  Forall (λ lc, f lc = 1) l → foldr (λ lc s, f lc + s) 0 l = Z.of_nat (length l).
Proof. induction 1 as [|lc l Hlc Hl IH]; [done|]. cbn. rewrite Hlc, IH. lia. Qed.

(** One log from one emitter. *)
Definition counted_once (checks : list bool) (l : RawLog) : LogCountMap :=
  mkLogCountMap checks l {[ l := 1 ]}.
Lemma counted_once_count checks l : lc_count (counted_once checks l) l = 1.
Proof.
  unfold lc_count, satisfies_checks. cbn. rewrite checks_topics_and_data_refl.
  unfold count_unchecked, counted_once. cbn [lc_map]. by rewrite map_to_list_singleton.
Qed.
(** The log is emitted once by an emitter that did not emit it before. *)
Lemma another_emitter depth checks anonymous l c m interpreter :
  let e := mkExpectedEmit depth (Some l) checks None anonymous false 2 None in
  let lc := counted_once checks l in
  m !! c = None → (∀ d x, m !! d = Some x → x = lc) →
  handle_expect_emit sigs [(e, m)] (mkLog c l) interpreter = Some ([(e, <[c := lc]> m)], NoSignal).
Proof.
  intros e lc Hm Hall. pose proof (checks_topics_and_data_refl checks l) as Hrefl.
  unfold handle_expect_emit, violates_zero, index_to_fill_or_check. cbn -[bool_decide].
  decide_bools.
  unfold fill_or_check. cbn -[decide_found count_log].
  assert (count_log e m (mkLog c l) = Some (<[c := lc]> m)) as ->.
  { unfold count_log, lc_new, lc_insert, satisfies_checks. cbn. rewrite Hm. cbn.
    by rewrite lookup_empty, Hrefl. }
  cbn -[decide_found]. unfold decide_found. cbn. rewrite Hrefl. cbn.
  destruct (list_find _ _) as [[i x]|] eqn:Hfind; [|done].
  apply list_find_Some in Hfind as (Hx%list_elem_of_lookup_2 & _ & _).
  apply elem_of_map_values in Hx as [d Hd]. assert (x = lc) as ->.
  { apply lookup_insert_Some in Hd as [[_ <-]|[_ ?]]; eauto. }
  unfold lc. rewrite counted_once_count. done.
Qed.

(** An event expected twice from any emitter is not found
    when two contracts emit it once each: the handler compares the count
    of one emitter with the expected count.  The check at the end of the
    call adds the counts of all emitters, but it first reports the event
    as not found: the call fails although the event was emitted as often
    as expected. *)
Lemma two_emitters_not_found depth checks anonymous l a b interpreter :
  a ≠ b →
  let e := mkExpectedEmit depth (Some l) checks None anonymous false 2 None in
  ∃ e' m, handle_logs sigs interpreter [(e, ∅)] [mkLog a l; mkLog b l] = Some [(e', m)] ∧
    emit_count (e', m) = em_count e' ∧
    (check_expected_emits [(e', m)] depth false true).2 = Some (LogMismatch "log != expected log").
Proof.
  intros Hab e.
  set (lc := mkLogCountMap checks l {[ l := 1 ]}).
  assert (lc_count lc l = 1) as Hone by apply counted_once_count.
  pose proof (another_emitter depth checks anonymous l) as Hstep.
  exists e, (<[b := lc]> {[ a := lc ]}). split; [|].
  - unfold handle_logs. cbn [fold_m]. rewrite Hstep by (done || by intros ??; rewrite lookup_empty).
    cbn [mbind option_bind snd fst]. rewrite Hstep; [done|by rewrite lookup_insert_ne by done|].
    intros d x [[_ <-]|[_ Hx]]%lookup_insert_Some; [done|by rewrite lookup_empty in Hx].
  - assert (emit_count (e, <[b := lc]> {[ a := lc ]}) = 2) as Hcount.
    { unfold emit_count. cbn. rewrite counts_one_sum.
      - unfold map_values. rewrite length_fmap. rewrite <- (length_fmap fst), iter_map_keys, iter_set_perm.
        rewrite dom_insert_L, dom_singleton_L.
        change (length (elements ({[b]} ∪ {[a]}))) with (size ({[b]} ∪ {[a]} : gset Z)).
        rewrite size_union by set_solver. by rewrite !size_singleton.
      - apply Forall_forall. intros x [d Hd]%elem_of_map_values.
        apply lookup_insert_Some in Hd as [[_ <-]|[_ Hd]]; [done|].
        apply lookup_singleton_Some in Hd as [_ <-]. done. }
    split; [by rewrite Hcount|]. unfold check_expected_emits. cbn. by decide_bools.
Qed.
End claims.

(** ** Witnesses *)
Definition plain_format : LogFormat :=
  {| show_word _ := ""%string; show_address _ := ""%string; hex_prefixed _ := ""%string |}.
Definition example_emit (count : Z) (address : option Z) (topic : Z) : ExpectedEmit :=
  mkExpectedEmit 1 (Some ([topic], [])) [true; true; true; true; true] address false false count None.
Definition example_queue : ExpectedEmitTracker :=
  [(example_emit 2 (Some 7) 10, ∅); (example_emit 1 None 11, ∅)].
Definition example_logs : list Log :=
  [mkLog 7 ([10], []); mkLog 8 ([10], []); mkLog 7 ([10], [5]); mkLog 7 ([10], []); mkLog 9 ([11], [])].

Lemma emit_queue_safe_witness :
  let t := [(example_emit 2 (Some 7) 10, ∅)] : ExpectedEmitTracker in
  emit_wf t ∧ ∃ t' sg, @handle_expect_emit plain_format (elements_order Z) None t (mkLog 7 ([10], [])) true
                        = Some (t', sg) ∧ emit_wf t'.
Proof.
  assert (emit_wf [(example_emit 2 (Some 7) 10, ∅)]) as Hwf.
  { exists [(example_emit 2 (Some 7) 10, ∅)], []. split_and!; [done|by constructor|constructor]. }
  split; [exact Hwf|].
  exact (proj2 (@emit_queue_safe plain_format (elements_order Z) None _ (mkLog 7 ([10], [])) true
                  1 [] None false 1 Hwf)).
Defined.

Lemma emits_match_in_order_witness :
  ∃ t', @handle_logs plain_format (elements_order Z) None true example_queue example_logs = Some t' ∧
    (@check_expected_emits (elements_order Z) t' 1 false true).2 = None.
Proof.
  assert (Forall declared example_queue) as Hq.
  { repeat (apply Forall_cons; split); [..|constructor].
    - split_and!; [by eexists|done|cbn; lia|done|done].
    - split_and!; [by eexists|done|cbn; lia|done|done]. }
  destruct (@emits_match_in_order plain_format (elements_order Z) None example_queue example_logs 1 true true
              Hq (list_elem_of_here _ _)) as (t' & Ht & Hv).
  exists t'. split; [exact Ht|]. apply Hv.
  apply emitted_match; [reflexivity|]. do 2 apply emitted_skip.
  apply emitted_match; [reflexivity|]. apply emitted_match; [reflexivity|]. apply emitted_all.
Defined.

Lemma two_emitters_not_found_witness :
  ∃ e' m, @handle_logs plain_format (elements_order Z) None true [(example_emit 2 None 10, ∅)]
      [mkLog 7 ([10], []); mkLog 8 ([10], [])] = Some [(e', m)] ∧
    @emit_count (elements_order Z) (e', m) = em_count e' ∧
    (@check_expected_emits (elements_order Z) [(e', m)] 1 false true).2
      = Some (LogMismatch "log != expected log").
Proof.
  exact (@two_emitters_not_found plain_format (elements_order Z) None 1 [true; true; true; true; true]
           false ([10], []) 7 8 true (ltac:(discriminate))).
Defined.
