(* ===== verification/ExpectRevert.v ===== *)
(** * Expected reverts: cheatcodes/src/test/revert_handlers.rs, assume.rs,
    [expect_revert] of expect.rs, the errors of cheatcodes/src/error.rs and
    the hooks of cheatcodes/src/inspector.rs that decide when a revert is
    compared with what the test expects

    The statuses of revm, ABI coding and the decoders of revert data are the
    interface [RevertEnv]. *)
From stdpp Require Import base gmap list strings.
From Stdlib Require Import ZArith Lia Ascii.
From S2P Require Import Prelude Containers.
#[local] Open Scope list_scope.

#[local] Abbreviation Address := Z (only parsing).
#[local] Abbreviation Bytes := (list Z) (only parsing).

(** ** Errors of cheatcodes *)
Inductive ErrorKind := ErrString (s : string) | ErrBytes (b : Bytes).

(** What the code takes from revm and alloy. *)
Class RevertEnv (Status : Type) := {
  return_ok : Status → bool;            (* [matches!(status, return_ok!())] *)
  return_revert : Status → bool;        (* [InterpreterResult::is_revert] *)
  status_return : Status;               (* [InstructionResult::Return] *)
  status_revert : Status;               (* [InstructionResult::Revert] *)
  cheatcode_error_abi : string → Bytes; (* [Vm::CheatcodeError::abi_encode] *)
  cheatcode_error_selector : Bytes;
  revert_selector : Bytes;
  string_abi_decode : Bytes → option string;
  bytes_abi_decode : Bytes → option Bytes;
  decode_error_string : Bytes → option string; (* [get_error("Error(string)")] *)
  from_utf8_lossy : Bytes → string;
  hex_encode_prefixed : Bytes → string;
  show_addr : Address → string;
  (* [RevertDecoder::decode] with the ABIs of the known contracts, if any *)
  revert_decoder : option (Bytes → Status → string);
  revert_not_ok s : return_revert s = true → return_ok s = false;
}.

(** [Error::abi_encode]. *)
Definition abi_encode {Status} `{!RevertEnv Status} (e : ErrorKind) : Bytes :=
  match e with
  | ErrString s => cheatcode_error_abi s
  | ErrBytes b => b
  end.

Definition DUMMY_CALL_OUTPUT : Bytes := replicate (Z.to_nat 8192) 0.
Definition DUMMY_CREATE_ADDRESS : Address := 1.
Definition MAGIC_ASSUME : Bytes :=
  (λ a, Z.of_nat (nat_of_ascii a)) <$> String.list_ascii_of_string "FOUNDRY::ASSUME".

(** ** State *)
Inductive ExpectedRevertKind := DefaultKind | CheatcodeKind (pending_processing : bool).

Record ExpectedRevert := mkExpectedRevert {
  er_reason : option Bytes;
  er_depth : Z;
  er_kind : ExpectedRevertKind;
  er_partial_match : bool;
  er_reverter : option Address;
  reverted_by : option Address;
  max_depth : Z;
  er_count : Z;
  actual_count : Z;
}.
Definition set_reverted_by (e : ExpectedRevert) (a : option Address) : ExpectedRevert :=
  mkExpectedRevert (er_reason e) (er_depth e) (er_kind e) (er_partial_match e) (er_reverter e) a
    (max_depth e) (er_count e) (actual_count e).
Definition set_max_depth (e : ExpectedRevert) (d : Z) : ExpectedRevert :=
  mkExpectedRevert (er_reason e) (er_depth e) (er_kind e) (er_partial_match e) (er_reverter e)
    (reverted_by e) d (er_count e) (actual_count e).
Definition set_kind (e : ExpectedRevert) (k : ExpectedRevertKind) : ExpectedRevert :=
  mkExpectedRevert (er_reason e) (er_depth e) k (er_partial_match e) (er_reverter e)
    (reverted_by e) (max_depth e) (er_count e) (actual_count e).
Definition count_one (e : ExpectedRevert) : ExpectedRevert :=
  mkExpectedRevert (er_reason e) (er_depth e) (er_kind e) (er_partial_match e) (er_reverter e)
    (reverted_by e) (max_depth e) (er_count e) (actual_count e + 1).

Record AcceptableRevertParameters := mkAcceptable {
  ac_reason : Bytes;
  ac_partial_match : bool;
  ac_reverter : option Address;
}.
Record AssumeNoRevert := mkAssumeNoRevert {
  as_depth : Z;
  as_reasons : list AcceptableRevertParameters;
  as_reverted_by : option Address;
}.

(** The trait of what [handle_revert] compares with. *)
Class RevertParameters (T : Type) := {
  reverter : T → option Address;
  reason : T → option Bytes;
  partial_match : T → bool;
}.
#[export] Instance acceptable_parameters : RevertParameters AcceptableRevertParameters :=
  {| reverter := ac_reverter; reason p := Some (ac_reason p); partial_match := ac_partial_match |}.
#[export] Instance expected_parameters : RevertParameters ExpectedRevert :=
  {| reverter := er_reverter; reason := er_reason; partial_match := er_partial_match |}.

(** [AcceptableRevertParameters::from]: the zero address stands for any. *)
Definition acceptable_from (revert_data : Bytes) (partial : bool) (rev : Address)
    : AcceptableRevertParameters :=
  mkAcceptable revert_data partial (if bool_decide (rev = 0) then None else Some rev).

(** [expect_revert]. *)
Definition expect_revert (st : option ExpectedRevert) (data : option Bytes) (depth : Z)
    (cheatcode partial : bool) (rev : option Address) (count : Z)
    : option ExpectedRevert * result ErrorKind unit :=
  match st with
  | Some _ =>
      (st, Err (ErrString "you must call another function prior to expecting a second revert"))
  | None =>
      (Some (mkExpectedRevert data depth (if cheatcode then CheatcodeKind true else DefaultKind)
               partial rev None depth count 0), Ok tt)
  end.

(** [assume_no_revert]. *)
Definition assume_no_revert (st : option AssumeNoRevert) (depth : Z)
    (parameters : list AcceptableRevertParameters) : option AssumeNoRevert * result ErrorKind unit :=
  match st with
  | Some _ =>
      (st, Err (ErrString
        "you must make another external call prior to calling assumeNoRevert again"))
  | None => (Some (mkAssumeNoRevert depth parameters None), Ok tt)
  end.

(** The cheatcodes [assume] and [assumeNoRevert]; a [PotentialRevert] is its
    revert data, whether the match is partial, and the reverter. *)
Inductive AssumeCheat :=
| assume (condition : bool)
| assumeNoRevert_0
| assumeNoRevert_1 (potentialRevert : Bytes * bool * Address)
| assumeNoRevert_2 (potentialReverts : list (Bytes * bool * Address)).

Definition apply_assume (st : option AssumeNoRevert) (depth : Z) (c : AssumeCheat)
    : option AssumeNoRevert * result ErrorKind unit :=
  let from (p : Bytes * bool * Address) := acceptable_from p.1.1 p.1.2 p.2 in
  match c with
  | assume condition => (st, ensure condition (ErrBytes MAGIC_ASSUME))
  | assumeNoRevert_0 => assume_no_revert st depth []
  | assumeNoRevert_1 p => assume_no_revert st depth [from p]
  | assumeNoRevert_2 ps => assume_no_revert st depth (from <$> ps)
  end.

(** ** Comparing reverts *)
(** [get(..4)]. *)
Definition first_four (b : Bytes) : option Bytes :=
  if bool_decide (4 ≤ length b)%nat then Some (take 4 b) else None.

(** [memmem::find(..).is_some()]. *)
Fixpoint contains (hay needle : Bytes) : bool :=
  bool_decide (take (length needle) hay = needle) ||
  match hay with [] => false | _ :: hay => contains hay needle end.

Definition string_of_bytes (b : Bytes) : string :=
  String.string_of_list_ascii ((λ x, ascii_of_nat (Z.to_nat x)) <$> b).

Section handlers.
Context {Status : Type} `{!RevertEnv Status}.

Definition stringify (data : Bytes) : string :=
  match string_abi_decode data with
  | Some s => s
  | None =>
      if forallb (λ x, bool_decide (x < 128)) data then string_of_bytes data
      else hex_encode_prefixed data
  end.

Definition decode_revert (revert : Bytes) : Bytes :=
  if bool_decide (first_four revert = Some cheatcode_error_selector) ||
     bool_decide (first_four revert = Some revert_selector)
  then default revert (bytes_abi_decode (drop 4 revert))
  else revert.

(** The description of a revert in an error. *)
Definition describe (status : Status) (data : Bytes) : string :=
  match revert_decoder with
  | Some decode => decode data status
  | None => stringify data
  end.

Definition handle_revert {T} `{!RevertParameters T} (is_cheatcode : bool) (params : T)
    (status : Status) (retdata : Bytes) (actual_reverter : option Address) : result ErrorKind unit :=
  match reverter params, actual_reverter with
  | Some expected, Some actual =>
      if bool_decide (expected ≠ actual)
      then Err (ErrString ("Reverter != expected reverter: " +:+ show_addr actual +:+ " != " +:+
                           show_addr expected)%string)
      else Ok tt
  | _, _ => Ok tt
  end ≫= λ _,
  match reason params with
  | None => Ok tt
  | Some expected_reason =>
      if bool_decide (expected_reason ≠ []) && bool_decide (retdata = [])
      then Err (ErrString "call reverted as expected, but without data")
      else if partial_match params && bool_decide (first_four retdata = first_four expected_reason)
      then Ok tt
      else
        let actual_revert := decode_revert retdata in
        if bool_decide (actual_revert = expected_reason) ||
           (is_cheatcode && contains actual_revert expected_reason)
        then Ok tt
        else if bool_decide (decode_error_string expected_reason = Some (from_utf8_lossy actual_revert))
        then Ok tt
        else
          let actual := describe status actual_revert in
          let expected := describe status expected_reason in
          if bool_decide (expected = actual) then Ok tt
          else Err (ErrString ("Error != expected error: " +:+ actual +:+ " != " +:+ expected)%string)
  end.

Definition handle_assume_no_revert (a : AssumeNoRevert) (status : Status) (retdata : Bytes)
    : result ErrorKind unit :=
  match as_reasons a with
  | [] => Ok tt
  | reasons =>
      if existsb (λ p, match handle_revert false p status retdata (as_reverted_by a) with
                       | Ok _ => true | Err _ => false end) reasons
      then Ok tt
      else Err (ErrBytes retdata)
  end.

(** The error of an expectation of no revert with a reason or a reverter. *)
Definition zero_reverts_error (e : ExpectedRevert) (retdata : Bytes) : ErrorKind :=
  let reason_match :=
    (λ r, bool_decide (decode_revert retdata = r)) <$> er_reason e in
  let reverter_match :=
    (λ a, bool_decide (reverted_by e = Some a)) <$> er_reverter e in
  let expected_reason := stringify (default [] (er_reason e)) in
  let expected_reverter := show_addr (default 0 (er_reverter e)) in
  let actual := stringify (decode_revert retdata) in
  let reverted_from := show_addr (default 0 (reverted_by e)) in
  ErrString
    match reason_match, reverter_match with
    | Some true, Some true =>
        "expected 0 reverts with reason: " +:+ expected_reason +:+ ", from address: " +:+
        expected_reverter +:+ ", but got one"
    | Some true, None => "expected 0 reverts with reason: " +:+ expected_reason +:+ ", but got one"
    | None, Some true => "expected 0 reverts from address: " +:+ expected_reverter +:+ ", but got one"
    | Some _, Some _ =>
        "call reverted with '" +:+ actual +:+ "' from " +:+ reverted_from +:+
        ", but expected 0 reverts with reason '" +:+ expected_reason +:+ "' from " +:+ expected_reverter
    | None, Some _ =>
        "call reverted with '" +:+ actual +:+ "' from " +:+ reverted_from +:+
        ", but expected 0 reverts from " +:+ expected_reverter
    | _, None => "call reverted with '" +:+ actual +:+ "' when it was expected not to revert"
    end%string.

Definition handle_expect_revert (is_cheatcode is_create internal_expect_revert : bool)
    (e : ExpectedRevert) (status : Status) (retdata : Bytes)
    : result ErrorKind (option Address * Bytes) :=
  let success_return :=
    if is_create then (Some DUMMY_CREATE_ADDRESS, []) else (None, DUMMY_CALL_OUTPUT) in
  ensure (is_cheatcode || internal_expect_revert || bool_decide (er_depth e < max_depth e))
    (ErrString "call didn't revert at a lower depth than cheatcode call depth") ≫= λ _,
  if bool_decide (er_count e = 0) then
    if bool_decide (er_reverter e = None) && bool_decide (er_reason e = None) then
      ensure (return_ok status) (ErrString "call reverted when it was expected not to revert") ≫= λ _,
      Ok success_return
    else if return_ok status then Ok success_return
    else Err (zero_reverts_error e retdata)
  else
    ensure (negb (return_ok status)) (ErrString "next call did not revert as expected") ≫= λ _,
    handle_revert is_cheatcode e status retdata (reverted_by e) ≫= λ _,
    Ok success_return.
End handlers.

(** ** The hooks of the inspector *)
Record CallEnd (Status : Type) := mkCallEnd {
  target_address : Address;
  curr_depth : Z;
  cheatcode_call : bool;
  result_status : Status;
  output : Bytes;
}.
Arguments mkCallEnd {Status}.
Arguments target_address {Status}.
Arguments curr_depth {Status}.
Arguments cheatcode_call {Status}.
Arguments result_status {Status}.
Arguments output {Status}.

(** The [call] hook: a call that is not to a cheatcode address. *)
Definition track_call_depth (st : option ExpectedRevert) (depth : Z) (cheatcode : bool)
    : option ExpectedRevert :=
  if cheatcode then st
  else (λ e, set_max_depth e (Z.max (saturating_add usize_max depth 1) (max_depth e))) <$> st.
(** The [initialize_interp] hook. *)
Definition track_frame_depth (st : option ExpectedRevert) (depth : Z) : option ExpectedRevert :=
  (λ e, set_max_depth e (Z.max depth (max_depth e))) <$> st.

Section hooks.
Context {Status : Type} `{!RevertEnv Status}.
Variable internal_expect_revert : bool.

(** What a hook does to the outcome: nothing, or it replaces the status and
    the output and returns from the hook. *)
Definition Outcome : Type := option (Status * Bytes).

(** The result of an expectation that was compared with an outcome. *)
Definition settle (e : ExpectedRevert) (r : result ErrorKind (option Address * Bytes))
    : option ExpectedRevert * Outcome :=
  match r with
  | Err error => (None, Some (status_revert, abi_encode error))
  | Ok (_, retdata) =>
      let e := count_one e in
      (if bool_decide (actual_count e < er_count e) then Some e else None,
       Some (status_return, retdata))
  end.

(** [call_end], the part about expected reverts. *)
Definition revert_call_end (st : option ExpectedRevert) (c : CallEnd Status)
    : option ExpectedRevert * Outcome :=
  match st with
  | None => (None, None)
  | Some e =>
      let e :=
        if return_revert (result_status c) && bool_decide (er_reverter e ≠ None) &&
           (bool_decide (reverted_by e = None) || bool_decide (1 < er_count e))
        then set_reverted_by e (Some (target_address c)) else e in
      if bool_decide (curr_depth c ≤ er_depth e) then
        let needs_processing :=
          match er_kind e with
          | DefaultKind => negb (cheatcode_call c)
          | CheatcodeKind pending => cheatcode_call c && negb pending
          end in
        if needs_processing
        then settle e (handle_expect_revert (cheatcode_call c) false internal_expect_revert e
                         (result_status c) (output c))
        else
          (Some match er_kind e with
                | CheatcodeKind _ => set_kind e (CheatcodeKind false)
                | DefaultKind => e
                end, None)
      else (Some e, None)
  end.

(** [create_end], the part about expected reverts; the third component is
    the address of the created contract. *)
Definition revert_create_end (st : option ExpectedRevert) (depth : Z) (status : Status)
    (out : Bytes) (address : option Address)
    : option ExpectedRevert * Outcome * option Address :=
  match st with
  | Some e =>
      if bool_decide (depth ≤ er_depth e) then
        match er_kind e with
        | DefaultKind =>
            let r := handle_expect_revert false true internal_expect_revert e status out in
            (settle e r, match r with Ok (created, _) => created | Err _ => address end)
        | CheatcodeKind _ => (st, None, address)
        end
      else (st, None, address)
  | None => (st, None, address)
  end.

(** [call_end], the part about [assumeNoRevert]: an anticipated revert
    only replaces the output. *)
Definition assume_call_end (st : option AssumeNoRevert) (c : CallEnd Status)
    : option AssumeNoRevert * Outcome :=
  match st with
  | None => (None, None)
  | Some a =>
      let a :=
        if return_revert (result_status c) && bool_decide (as_reverted_by a = None)
        then mkAssumeNoRevert (as_depth a) (as_reasons a) (Some (target_address c)) else a in
      if bool_decide (curr_depth c ≤ as_depth a) && negb (cheatcode_call c) then
        if return_revert (result_status c) then
          (None, Some match handle_assume_no_revert a (result_status c) (output c) with
                      | Ok _ => (result_status c, abi_encode (ErrBytes MAGIC_ASSUME))
                      | Err error => (status_revert, abi_encode error)
                      end)
        else (None, None)
      else (Some a, None)
  end.

(** The two parts in the order of [call_end]. *)
Definition call_end_reverts (a : option AssumeNoRevert) (st : option ExpectedRevert)
    (c : CallEnd Status) : option AssumeNoRevert * option ExpectedRevert * Outcome :=
  let '(a, out) := assume_call_end a c in
  match out with
  | Some _ => (a, st, out)
  | None => let '(st, out) := revert_call_end st c in (a, st, out)
  end.

(** Calls that end one after the other, with what happens to each. *)
Fixpoint revert_calls (st : option ExpectedRevert) (cs : list (CallEnd Status))
    : option ExpectedRevert * list Outcome :=
  match cs with
  | [] => (st, [])
  | c :: cs =>
      let '(st, out) := revert_call_end st c in
      let '(st, outs) := revert_calls st cs in (st, out :: outs)
  end.
End hooks.

(** ** Counting *)
Section proofs.
Context {Status : Type} `{!RevertEnv Status}.
Variable internal : bool.

(** A call that reverts the way the test expects. *)
Definition reverts_as_expected (e : ExpectedRevert) (c : CallEnd Status) : Prop :=
  return_revert (result_status c) = true ∧ cheatcode_call c = false ∧
  curr_depth c ≤ er_depth e ∧
  (er_reverter e = None ∨ er_reverter e = Some (target_address c)) ∧
  (er_reason e = None ∨ output c ≠ [] ∧ er_reason e = Some (decode_revert (output c))).
(** Two states of an expectation that differ in what was counted. *)
Definition same_expectation (e e' : ExpectedRevert) : Prop :=
  er_reason e' = er_reason e ∧ er_depth e' = er_depth e ∧ er_kind e' = er_kind e ∧
  er_reverter e' = er_reverter e ∧ er_count e' = er_count e ∧ max_depth e' = max_depth e.
(** A new reverter is recorded at the next revert. *)
Definition records_reverter (e : ExpectedRevert) : Prop :=
  reverted_by e = None ∨ 1 < er_count e.

Lemma revert_calls_none cs : revert_calls internal None cs = (None, replicate (length cs) None).
Proof. induction cs as [|c cs IH]; cbn; [done|]. by rewrite IH. Qed.

Lemma handle_revert_match (e : ExpectedRevert) c :
  reverts_as_expected e c →
  (reverted_by e = Some (target_address c) ∨ er_reverter e = None) →
  handle_revert false e (result_status c) (output c) (reverted_by e) = Ok tt.
Proof.
  intros (_ & _ & _ & Hrev & Hreason) Hby. unfold handle_revert. cbn.
  assert ((match er_reverter e, reverted_by e with
           | Some expected, Some actual =>
               if bool_decide (expected ≠ actual)
               then Err (ErrString ("Reverter != expected reverter: " +:+ show_addr actual +:+ " != " +:+
                                    show_addr expected)%string)
               else Ok tt
           | _, _ => Ok tt end) = Ok tt) as ->.
  { destruct (er_reverter e) as [a|] eqn:Ha; [|done]. destruct Hby as [-> |]; [|done].
    destruct Hrev as [|[= ->]]; [done|]. rewrite bool_decide_false; [done|]. intros Hd. by apply Hd. }
  cbn. destruct Hreason as [-> |[Hne ->]]; [done|].
  rewrite (bool_decide_false (output c = [])) by done. rewrite andb_false_r.
  destruct (_ && _); [done|]. by rewrite bool_decide_true.
Qed.

(** One expected revert: the result is replaced and the count goes up. *)
Lemma revert_call_end_match e c :
  reverts_as_expected e c → er_kind e = DefaultKind → records_reverter e → 1 ≤ er_count e →
  internal = true ∨ er_depth e < max_depth e →
  ∃ e', same_expectation e e' ∧ er_partial_match e' = er_partial_match e ∧ actual_count e' = actual_count e + 1 ∧
    revert_call_end internal (Some e) c =
      (if bool_decide (actual_count e' < er_count e) then Some e' else None,
       Some (status_return, DUMMY_CALL_OUTPUT)).
Proof.
  intros Hm Hkind Hrec Hcount Hdepth. pose proof Hm as (Hr & Hcc & Hd & Hrev & Hreason).
  unfold revert_call_end. rewrite Hr. cbn [andb].
  set (e1 := if bool_decide (er_reverter e ≠ None) && _ then _ else e).
  assert (same_expectation e e1 ∧ er_partial_match e1 = er_partial_match e ∧ actual_count e1 = actual_count e) as (Hs & Hp & Ha).
  { unfold e1. destruct (_ && _); done. }
  assert (reverted_by e1 = Some (target_address c) ∨ er_reverter e1 = None) as Hby.
  { unfold e1. destruct (er_reverter e) as [a|] eqn:Hra.
    - left. decide_bools. destruct Hrec as [Hn|Hn].
      + by rewrite Hn.
      + by rewrite (bool_decide_true (1 < _)), orb_true_r by done.
    - right. by decide_bools. }
  clearbody e1. pose proof Hs as (H1 & H2 & H3 & H4 & H5 & H6).
  rewrite H3, Hkind, Hcc, H2. decide_bools. cbn [negb].
  exists (count_one e1). split; [done|]. split; [done|]. split; [cbn; lia|].
  unfold handle_expect_revert, ensure. cbn [orb].
  assert (internal || bool_decide (er_depth e1 < max_depth e1) = true) as ->.
  { apply orb_true_iff. rewrite bool_decide_eq_true, H2, H6. done. }
  cbn [mbind result_bind]. decide_bools.
  rewrite (revert_not_ok _ Hr). cbn [negb mbind result_bind].
  rewrite handle_revert_match; [|unfold reverts_as_expected in *; by rewrite H1, H2, H4|done].
  cbn [mbind result_bind settle]. by rewrite <- H5.
Qed.

Lemma expected_reverts_run cs : ∀ e,
  Forall (reverts_as_expected e) cs → er_kind e = DefaultKind → records_reverter e →
  actual_count e < er_count e → 0 ≤ actual_count e → internal = true ∨ er_depth e < max_depth e →
  let left := Z.to_nat (er_count e - actual_count e) in
  (revert_calls internal (Some e) cs).2 =
    replicate (left `min` length cs) (Some (status_return, DUMMY_CALL_OUTPUT)) ++
    replicate (length cs - left) None ∧
  ((revert_calls internal (Some e) cs).1 = None ↔ (left ≤ length cs)%nat).
Proof.
  induction cs as [|c cs IH]; intros e Hcs Hk Hrec Hlt H0 Hd; cbn [length].
  { rewrite Nat.min_0_r. cbn. split; [done|]. split; [done|lia]. }
  apply Forall_cons in Hcs as [Hc Hcs].
  destruct (revert_call_end_match e c Hc Hk Hrec ltac:(lia) Hd) as (e' & Hs & _ & Ha & Heq).
  pose proof Hs as (S1 & S2 & S3 & S4 & S5 & S6).
  cbn [revert_calls]. rewrite Heq.
  case_bool_decide as Hmore.
  - specialize (IH e'). rewrite S5, S3, S2, S6, Ha in IH.
    destruct IH as [IH1 IH2]; [|done|right; lia|lia|lia|done|].
    { eapply Forall_impl; [done|]. intros x. unfold reverts_as_expected. by rewrite S1, S2, S4. }
    destruct (revert_calls internal (Some e') cs) as [st outs]. cbn in *.
    replace (Z.to_nat (er_count e - actual_count e)) with
      (S (Z.to_nat (er_count e - (actual_count e + 1)))) by lia.
    cbn. split; [by rewrite IH1|]. rewrite IH2. lia.
  - rewrite revert_calls_none. cbn. replace (er_count e - actual_count e) with 1 by lia.
    change (Z.to_nat 1) with 1%nat. cbn. rewrite Nat.sub_0_r. split; [done|]. split; [lia|done].
Qed.

Lemma handle_expect_revert_Ok ic e (status : Status) retdata x :
  handle_expect_revert ic false internal e status retdata = Ok x → x = (None, DUMMY_CALL_OUTPUT).
Proof.
  unfold handle_expect_revert. intros (? & _ & H)%bind_Ok. destruct (bool_decide (er_count e = 0)).
  - destruct (_ && _).
    + apply bind_Ok in H as (? & _ & [= <-]). done.
    + destruct (return_ok status); [|done]. by injection H as <-.
  - apply bind_Ok in H as (? & _ & H). apply bind_Ok in H as (? & _ & [= <-]). done.
Qed.
(** The last expected revert settles the expectation. *)
Lemma settle_last e r :
  er_count e ≤ actual_count e + 1 → (∀ x, r = Ok x → x = (None, DUMMY_CALL_OUTPUT)) →
  ∃ out, settle e r = (None, Some out) ∧
    (out = (status_return, DUMMY_CALL_OUTPUT) ∨ out.1 = status_revert).
Proof.
  intros Hc Hr. destruct r as [x|error]; cbn.
  - rewrite (Hr x eq_refl). decide_bools. eexists. split; [done|by left].
  - eexists. split; [done|by right].
Qed.

(** A call that the expectation is compared with and that is not what it asks
    for: it succeeds, reverts in another contract than the expected one, or
    reverts with another reason. *)
Definition fails_expectation (e : ExpectedRevert) (c : CallEnd Status) : Prop :=
  cheatcode_call c = false ∧ curr_depth c ≤ er_depth e ∧
  (return_ok (result_status c) = true ∨
   return_revert (result_status c) = true ∧
   ((∃ a, er_reverter e = Some a ∧ a ≠ target_address c) ∨
    ∃ err, handle_revert false e (result_status c) (output c) None = Err err)).

(** Such a call is made to fail and ends the expectation. *)
Lemma revert_call_end_fails e c :
  fails_expectation e c → er_kind e = DefaultKind → records_reverter e → 1 ≤ er_count e →
  ∃ err, revert_call_end internal (Some e) c = (None, Some (status_revert, err)).
Proof.
  intros (Hcc & Hd & Hf) Hkind Hrec Hcount. unfold revert_call_end.
  set (e1 := if return_revert _ && _ && _ then _ else e).
  assert (same_expectation e e1 ∧ er_partial_match e1 = er_partial_match e) as [(H1 & H2 & H3 & H4 & H5 & H6) H7].
  { unfold e1. by destruct (_ && _ && _). }
  assert (∃ err, handle_expect_revert false false internal e1 (result_status c) (output c) = Err err) as [err Herr].
  { unfold handle_expect_revert, ensure. destruct (false || internal || _); cbn [mbind result_bind]; [|by eexists].
    rewrite H5, bool_decide_false by lia. destruct Hf as [->|[Hr Hf]]; cbn [negb mbind result_bind]; [by eexists|].
    rewrite (revert_not_ok _ Hr). cbn [negb mbind result_bind].
    assert (∃ err, handle_revert false e1 (result_status c) (output c) (reverted_by e1) = Err err) as [err ->];
      [|by eexists].
    destruct Hf as [(a & Ha & Hne)|[err Herr]].
    - assert (reverted_by e1 = Some (target_address c)) as Hby.
      { unfold e1. rewrite Hr, Ha. cbn [andb]. rewrite bool_decide_true by done. cbn [andb].
        destruct Hrec as [Hn|Hn]; [by rewrite Hn|]. by rewrite (bool_decide_true (1 < _)), orb_true_r by done. }
      unfold handle_revert. cbn [reverter expected_parameters]. rewrite H4, Ha, Hby, (bool_decide_true (a ≠ target_address c)) by done. by eexists.
    - unfold handle_revert in *. cbn [reverter reason partial_match expected_parameters] in *. rewrite H4, H1, H7.
      destruct (er_reverter e) as [x|]; [|exists err; exact Herr].
      destruct (reverted_by e1) as [y|]; [|exists err; exact Herr].
      destruct (bool_decide (x ≠ y)); [by eexists|exists err; exact Herr]. }
  clearbody e1. rewrite H3, Hkind, Hcc, H2, bool_decide_true by done. cbn [negb]. rewrite Herr. by eexists.
Qed.

(** Fewer expected reverts than asked for leave the expectation. *)
Lemma expected_reverts_prefix cs : ∀ e l,
  Forall (reverts_as_expected e) cs → er_kind e = DefaultKind → records_reverter e →
  (length cs < Z.to_nat (er_count e - actual_count e))%nat → 0 ≤ actual_count e →
  internal = true ∨ er_depth e < max_depth e →
  ∃ e', same_expectation e e' ∧ er_partial_match e' = er_partial_match e ∧ records_reverter e' ∧
    revert_calls internal (Some e) (cs ++ l) =
      let '(st, outs) := revert_calls internal (Some e') l in
      (st, replicate (length cs) (Some (status_return, DUMMY_CALL_OUTPUT)) ++ outs).
Proof.
  induction cs as [|c cs IH]; intros e l Hcs Hk Hrec Hlt H0 Hd; cbn [length] in *.
  { exists e. split; [done|]. split; [done|]. split; [done|]. cbn. by destruct (revert_calls _ _ l). }
  apply Forall_cons in Hcs as [Hc Hcs].
  destruct (revert_call_end_match e c Hc Hk Hrec ltac:(lia) Hd) as (e' & Hs & Hp & Ha & Heq).
  pose proof Hs as (S1 & S2 & S3 & S4 & S5 & S6).
  cbn [revert_calls app]. rewrite Heq, bool_decide_true by lia.
  destruct (IH e' l) as (e2 & (T1 & T2 & T3 & T4 & T5 & T6) & Tp & Trec & Hrun).
  - eapply Forall_impl; [done|]. intros x. unfold reverts_as_expected. by rewrite S1, S2, S4.
  - congruence.
  - right. lia.
  - lia.
  - lia.
  - destruct Hd; [by left|right; congruence].
  - exists e2. split; [unfold same_expectation; split_and!; congruence|]. split; [congruence|]. split; [done|].
    rewrite Hrun. by destruct (revert_calls internal (Some e2) l).
Qed.

(** C38: an expectation of [count] reverts ([count ≥ 1]), not of a cheatcode's
    own revert, and the calls that end at the depth of the test, none of them
    to a cheatcode. As long as they match it (revert, in the expected
    contract, with the expected reason), the results of the first [count] of
    them are replaced by successful ones, and the expectation is then gone:
    any further call keeps its result; after fewer it is still there. If the
    next of those calls does not match before there were [count], because it
    succeeds, or reverts elsewhere or for another reason, it is made to fail,
    and the expectation is gone. The test is supposed to have made a call
    below the depth of the expectation, or internal expectations to be
    allowed. *)
Theorem expected_reverts_counted data depth partial rev count frame_depth cs :
  1 ≤ count → internal = true ∨ depth < frame_depth →
  let st := track_frame_depth (expect_revert None data depth false partial rev count).1 frame_depth in
  (∀ e, st = Some e → Forall (reverts_as_expected e) cs) →
  (let r := revert_calls internal st cs in
   r.2 = replicate (Z.to_nat count `min` length cs) (Some (status_return, DUMMY_CALL_OUTPUT)) ++
         replicate (length cs - Z.to_nat count) None ∧
   (r.1 = None ↔ (Z.to_nat count ≤ length cs)%nat)) ∧
  ∀ c rest, (length cs < Z.to_nat count)%nat → (∀ e, st = Some e → fails_expectation e c) →
    ∃ err, revert_calls internal st (cs ++ c :: rest) =
      (None, replicate (length cs) (Some (status_return, DUMMY_CALL_OUTPUT)) ++
             Some (status_revert, err) :: replicate (length rest) None).
Proof.
  intros Hcount Hdepth st Hcs. cbn in st. specialize (Hcs _ eq_refl). split.
  - pose proof (expected_reverts_run cs _ Hcs eq_refl (or_introl eq_refl)) as H.
    cbn in H. rewrite Z.sub_0_r in H. apply H; [lia|lia|].
    destruct Hdepth as [|Hd]; [by left|right; lia].
  - intros c rest Hlt Hc. specialize (Hc _ eq_refl).
    destruct (expected_reverts_prefix cs _ (c :: rest) Hcs eq_refl (or_introl eq_refl))
      as (e' & (S1 & S2 & S3 & S4 & S5 & S6) & Sp & Hrec & Hrun).
    { cbn. by rewrite Z.sub_0_r. } { done. } { destruct Hdepth as [|Hd]; [by left|right; cbn; lia]. }
    unfold st. rewrite Hrun. cbn [revert_calls].
    destruct (revert_call_end_fails e' c) as [err ->].
    + destruct Hc as (Hcc & Hcd & Hf). split; [done|]. rewrite S2. split; [done|].
      unfold handle_revert in *. cbn [reverter reason partial_match expected_parameters] in *. by rewrite S4, S1, Sp.
    + done.
    + done.
    + rewrite S5. cbn. lia.
    + rewrite revert_calls_none. by exists err.
Qed.

(** An expectation of no revert ([count = 0]) is settled by the first
    call at its depth: the call keeps succeeding when it did not revert
    and fails otherwise, whatever reason or reverter were given. *)
Lemma zero_reverts_verdict e (c : CallEnd Status) :
  er_count e = 0 → er_kind e = DefaultKind → cheatcode_call c = false → curr_depth c ≤ er_depth e →
  internal = true ∨ er_depth e < max_depth e → 0 ≤ actual_count e →
  ∃ out, revert_call_end internal (Some e) c =
    (None, Some (if return_ok (result_status c) then (status_return, DUMMY_CALL_OUTPUT)
                 else (status_revert, out))).
Proof.
  intros Hc Hk Hcc Hd Hdepth Ha. unfold revert_call_end.
  set (e1 := if _ && _ then _ else e).
  assert (same_expectation e e1 ∧ actual_count e1 = actual_count e) as [(H1 & H2 & H3 & H4 & H5 & H6) Ha1].
  { unfold e1. by destruct (_ && _). }
  clearbody e1. rewrite H3, Hk, H2, Hcc. decide_bools. cbn [negb].
  unfold handle_expect_revert, ensure. cbn [orb].
  assert (internal || bool_decide (er_depth e1 < max_depth e1) = true) as ->.
  { apply orb_true_iff. rewrite bool_decide_eq_true, H2, H6. done. }
  cbn [mbind result_bind]. decide_bools.
  unfold settle. destruct (_ && _).
  - destruct (return_ok (result_status c)); cbn; [|by eexists].
    exists []. decide_bools. done.
  - destruct (return_ok (result_status c)); cbn; [|by eexists].
    exists []. decide_bools. done.
Qed.

(** [_expectCheatcodeRevert] does not expect its own call to revert,
    nor any call that is not to a cheatcode: the first later cheatcode
    call at its depth is the one that is compared. *)
Lemma cheatcode_revert_skips_itself data depth own (others : list (CallEnd Status)) c :
  let st := (expect_revert None data depth true false None 1).1 in
  cheatcode_call own = true → curr_depth own ≤ depth →
  Forall (λ k, cheatcode_call k = false) others →
  cheatcode_call c = true → curr_depth c ≤ depth →
  ∃ out, revert_calls internal st (own :: others ++ [c]) =
    (None, None :: replicate (length others) None ++ [Some out]) ∧
    (out = (status_return, DUMMY_CALL_OUTPUT) ∨ out.1 = status_revert).
Proof.
  intros st Hown Hod Hothers Hc Hcd. unfold st. cbn [expect_revert fst].
  set (e0 := mkExpectedRevert _ _ _ _ _ _ _ _ _).
  set (e1 := set_kind e0 (CheatcodeKind false)).
  assert (revert_call_end internal (Some e0) own = (Some e1, None)) as Hfirst.
  { unfold revert_call_end. cbn.
    rewrite (andb_false_r (return_revert _)). cbn. decide_bools. cbn. by rewrite Hown. }
  assert (∃ out, revert_calls internal (Some e1) [c] = (None, [Some out]) ∧
    (out = (status_return, DUMMY_CALL_OUTPUT) ∨ out.1 = status_revert)) as (out & Hlast & Hout).
  { cbn. rewrite (andb_false_r (return_revert _)). cbn.
    decide_bools. rewrite Hc. cbn [andb negb].
    destruct (settle_last e1 (handle_expect_revert true false internal e1 (result_status c) (output c)))
      as (out & -> & Hout); [cbn; lia|apply handle_expect_revert_Ok|]. by exists out. }
  exists out. split; [|done]. cbn [revert_calls]. rewrite Hfirst.
  assert (∀ ks, Forall (λ k, cheatcode_call k = false) ks →
    revert_calls internal (Some e1) (ks ++ [c]) = (None, replicate (length ks) None ++ [Some out])) as Hks.
  { induction 1 as [|k ks Hk Hks IH]; [exact Hlast|]. cbn [revert_calls app].
    assert (revert_call_end internal (Some e1) k = (Some e1, None)) as ->.
    { unfold revert_call_end. cbn.
      rewrite (andb_false_r (return_revert _)). cbn. rewrite Hk. cbn. by case_bool_decide. }
    by rewrite IH. }
  by rewrite Hks.
Qed.

(** A partial match compares the first four bytes, but two
    revert data that are both shorter than four bytes have none and
    compare equal: any such revert is accepted, whatever its bytes. *)
Lemma short_partial_match {T} `{!RevertParameters T} is_cheatcode (p : T) status retdata expected :
  reverter p = None → reason p = Some expected → partial_match p = true →
  retdata ≠ [] → (length retdata < 4)%nat → (length expected < 4)%nat →
  handle_revert is_cheatcode p status retdata None = Ok tt.
Proof.
  intros Hr He Hp Hne Hl1 Hl2. unfold handle_revert. rewrite Hr, He, Hp. cbn.
  decide_bools. rewrite andb_false_r.
  unfold first_four. rewrite !(bool_decide_false (4 ≤ _)%nat) by lia. by rewrite bool_decide_true.
Qed.
End proofs.

(** ** Witnesses *)
Inductive SampleStatus := SOk | SRevert.
#[export] Instance sample_env : RevertEnv SampleStatus := {|
  return_ok s := match s with SOk => true | SRevert => false end;
  return_revert s := match s with SOk => false | SRevert => true end;
  status_return := SOk;
  status_revert := SRevert;
  cheatcode_error_abi s := [238];
  cheatcode_error_selector := [238; 170; 158; 111];
  revert_selector := [8; 195; 121; 160];
  string_abi_decode _ := None;
  bytes_abi_decode b := Some b;
  decode_error_string _ := None;
  from_utf8_lossy := string_of_bytes;
  hex_encode_prefixed _ := "0x"%string;
  show_addr _ := "0x"%string;
  revert_decoder := None;
  revert_not_ok s := match s with SOk => λ H, match diff_false_true H with end | SRevert => λ _, eq_refl end;
|}.
Definition sample_call (cheatcode : bool) (status : SampleStatus) : CallEnd SampleStatus :=
  mkCallEnd 7 1 cheatcode status [8; 195; 121; 160; 104; 105].

Lemma expected_reverts_counted_witness :
  revert_calls false (track_frame_depth (expect_revert None (Some [104; 105]) 1 false false (Some 7) 2).1 2)
    [sample_call false SRevert; sample_call false SRevert; sample_call false SRevert] =
  (None, [Some (SOk, DUMMY_CALL_OUTPUT); Some (SOk, DUMMY_CALL_OUTPUT); None]).
Proof.
  destruct (expected_reverts_counted false (Some [104; 105]) 1 false (Some 7) 2 2
    [sample_call false SRevert; sample_call false SRevert; sample_call false SRevert]) as [[H1 H2] _].
  - lia.
  - right. lia.
  - intros e [= <-]. repeat (apply Forall_cons; split); [..|constructor];
      (split_and!; [done|done|cbn; lia|by right|right; split; [done|reflexivity]]).
  - apply injective_projections; [apply H2; cbn; lia|exact H1].
Defined.

Lemma zero_reverts_verdict_witness :
  ∃ out, revert_call_end false
      (Some (mkExpectedRevert (Some [1]) 1 DefaultKind false None None 2 0 0)) (sample_call false SRevert) =
    (None, Some (SRevert, out)).
Proof.
  destruct (zero_reverts_verdict false (mkExpectedRevert (Some [1]) 1 DefaultKind false None None 2 0 0)
    (sample_call false SRevert)) as [out H]; [reflexivity|reflexivity|reflexivity|cbn; lia|right; cbn; lia|cbn; lia|].
  exists out. exact H.
Defined.

Lemma cheatcode_revert_skips_itself_witness :
  ∃ out, revert_calls false (expect_revert None None 1 true false None 1).1
      [sample_call true SOk; sample_call false SRevert; sample_call true SRevert] =
    (None, [None; None; Some out]).
Proof.
  destruct (cheatcode_revert_skips_itself false None 1 (sample_call true SOk) [sample_call false SRevert]
    (sample_call true SRevert)) as (out & H & _);
    [reflexivity|cbn; lia|by constructor|reflexivity|cbn; lia|].
  exists out. exact H.
Defined.

Lemma short_partial_match_witness :
  handle_revert (Status := SampleStatus) false (mkAcceptable [1; 2] true None) SRevert [3] None = Ok tt.
Proof. apply (short_partial_match _ _ _ _ [1; 2]); try done; cbn; lia. Defined.
