(* ===== verification/ExpectDispatch.v ===== *)
(** * The [expect*] cheatcodes: the [Cheatcode] implementations of
    cheatcodes/src/test/expect.rs, expected creates, and what the root call
    checks at its end (cheatcodes/src/inspector.rs)

    The overloads of a cheatcode are the constructors of one type, with the
    names of the generated call types; [revertData] is [bytes4] or [bytes]
    depending on the overload, bytes here.  The cheatcodes change the part of
    the inspector's state kept in [ExpectState]. *)
From stdpp Require Import base gmap list strings.
From Stdlib Require Import ZArith Lia.
From S2P Require Import Prelude Containers ExpectCall ExpectEmit ExpectRevert.
#[local] Open Scope list_scope.

#[local] Abbreviation Address := Z (only parsing).
#[local] Abbreviation Bytes := (list Z) (only parsing).

(** ** Creates *)
Inductive CreateScheme := Create | Create2.
#[export] Instance CreateScheme_eq_dec : EqDecision CreateScheme.
Proof. solve_decision. Defined.

Record ExpectedCreate := mkExpectedCreate {
  deployer : Address;
  bytecode : Bytes;
  create_scheme : CreateScheme;
}.
#[export] Instance ExpectedCreate_eq_dec : EqDecision ExpectedCreate.
Proof. solve_decision. Defined.

Definition expect_create (l : list ExpectedCreate) (code : Bytes) (from : Address) (scheme : CreateScheme)
    : list ExpectedCreate :=
  l ++ [mkExpectedCreate from code scheme].

(** [create_end]: a create that returned an address, with the code of the
    new account. *)
Definition observe_create (l : list ExpectedCreate) (caller : Address) (scheme : CreateScheme)
    (code : Bytes) : list ExpectedCreate :=
  match position (λ e, bool_decide (deployer e = caller) && bool_decide (create_scheme e = scheme) &&
                       bool_decide (bytecode e = code)) l with
  | Some index => swap_remove l index
  | None => l
  end.

(** ** State *)
Record ExpectState := mkExpectState {
  expected_calls : ExpectedCallTracker;
  expected_emits : ExpectedEmitTracker;
  expected_revert : option ExpectedRevert;
  expected_creates : list ExpectedCreate;
}.
Definition set_calls (s : ExpectState) (t : ExpectedCallTracker) : ExpectState :=
  mkExpectState t (expected_emits s) (expected_revert s) (expected_creates s).
Definition set_emits (s : ExpectState) (t : ExpectedEmitTracker) : ExpectState :=
  mkExpectState (expected_calls s) t (expected_revert s) (expected_creates s).
Definition set_revert (s : ExpectState) (r : option ExpectedRevert) : ExpectState :=
  mkExpectState (expected_calls s) (expected_emits s) r (expected_creates s).
Definition set_creates (s : ExpectState) (l : list ExpectedCreate) : ExpectState :=
  mkExpectState (expected_calls s) (expected_emits s) (expected_revert s) l.

(** ** Cheatcodes *)
Inductive ExpectCallCheat :=
| expectCall_0 (callee : Address) (data : Bytes)
| expectCall_1 (callee : Address) (data : Bytes) (count : Z)
| expectCall_2 (callee : Address) (msgValue : Z) (data : Bytes)
| expectCall_3 (callee : Address) (msgValue : Z) (data : Bytes) (count : Z)
| expectCall_4 (callee : Address) (msgValue gas : Z) (data : Bytes)
| expectCall_5 (callee : Address) (msgValue gas : Z) (data : Bytes) (count : Z)
| expectCallMinGas_0 (callee : Address) (msgValue minGas : Z) (data : Bytes)
| expectCallMinGas_1 (callee : Address) (msgValue minGas : Z) (data : Bytes) (count : Z).

Definition apply_expect_call (t : ExpectedCallTracker) (c : ExpectCallCheat)
    : option (ExpectedCallTracker * result ExpectCallError unit) :=
  match c with
  | expectCall_0 callee data => expect_call t callee data None None None 1 NonCount
  | expectCall_1 callee data count => expect_call t callee data None None None count Count
  | expectCall_2 callee msgValue data => expect_call t callee data (Some msgValue) None None 1 NonCount
  | expectCall_3 callee msgValue data count =>
      expect_call t callee data (Some msgValue) None None count Count
  | expectCall_4 callee msgValue gas data =>
      expect_call t callee data (Some msgValue) (Some gas) None 1 NonCount
  | expectCall_5 callee msgValue gas data count =>
      expect_call t callee data (Some msgValue) (Some gas) None count Count
  | expectCallMinGas_0 callee msgValue minGas data =>
      expect_call t callee data (Some msgValue) None (Some minGas) 1 NonCount
  | expectCallMinGas_1 callee msgValue minGas data count =>
      expect_call t callee data (Some msgValue) None (Some minGas) count Count
  end.

Inductive ExpectEmitCheat :=
| expectEmit_0 (checkTopic1 checkTopic2 checkTopic3 checkData : bool)
| expectEmit_1 (checkTopic1 checkTopic2 checkTopic3 checkData : bool) (emitter : Address)
| expectEmit_2
| expectEmit_3 (emitter : Address)
| expectEmit_4 (checkTopic1 checkTopic2 checkTopic3 checkData : bool) (count : Z)
| expectEmit_5 (checkTopic1 checkTopic2 checkTopic3 checkData : bool) (emitter : Address) (count : Z)
| expectEmit_6 (count : Z)
| expectEmit_7 (emitter : Address) (count : Z)
| expectEmitAnonymous_0 (checkTopic0 checkTopic1 checkTopic2 checkTopic3 checkData : bool)
| expectEmitAnonymous_1 (checkTopic0 checkTopic1 checkTopic2 checkTopic3 checkData : bool)
    (emitter : Address)
| expectEmitAnonymous_2
| expectEmitAnonymous_3 (emitter : Address).

Definition apply_expect_emit (t : ExpectedEmitTracker) (depth : Z) (c : ExpectEmitCheat)
    : ExpectedEmitTracker :=
  match c with
  | expectEmit_0 c1 c2 c3 cd => expect_emit t depth [true; c1; c2; c3; cd] None false 1
  | expectEmit_1 c1 c2 c3 cd emitter =>
      expect_emit t depth [true; c1; c2; c3; cd] (Some emitter) false 1
  | expectEmit_2 => expect_emit t depth (replicate 5 true) None false 1
  | expectEmit_3 emitter => expect_emit t depth (replicate 5 true) (Some emitter) false 1
  | expectEmit_4 c1 c2 c3 cd count => expect_emit t depth [true; c1; c2; c3; cd] None false count
  | expectEmit_5 c1 c2 c3 cd emitter count =>
      expect_emit t depth [true; c1; c2; c3; cd] (Some emitter) false count
  | expectEmit_6 count => expect_emit t depth (replicate 5 true) None false count
  | expectEmit_7 emitter count => expect_emit t depth (replicate 5 true) (Some emitter) false count
  | expectEmitAnonymous_0 c0 c1 c2 c3 cd => expect_emit t depth [c0; c1; c2; c3; cd] None true 1
  | expectEmitAnonymous_1 c0 c1 c2 c3 cd emitter =>
      expect_emit t depth [c0; c1; c2; c3; cd] (Some emitter) true 1
  | expectEmitAnonymous_2 => expect_emit t depth (replicate 5 true) None true 1
  | expectEmitAnonymous_3 emitter => expect_emit t depth (replicate 5 true) (Some emitter) true 1
  end.

(** [expectRevert] without and with a count, and the other cheatcodes that
    expect reverts. *)
Inductive ExpectRevertCheat :=
| expectRevert_0
| expectRevert_1 (revertData : Bytes)
| expectRevert_2 (revertData : Bytes)
| expectRevert_3 (reverter : Address)
| expectRevert_4 (revertData : Bytes) (reverter : Address)
| expectRevert_5 (revertData : Bytes) (reverter : Address).

Definition apply_expect_revert (st : option ExpectedRevert) (depth : Z) (c : ExpectRevertCheat)
    : option ExpectedRevert * result ErrorKind unit :=
  match c with
  | expectRevert_0 => expect_revert st None depth false false None 1
  | expectRevert_1 data => expect_revert st (Some data) depth false false None 1
  | expectRevert_2 data => expect_revert st (Some data) depth false false None 1
  | expectRevert_3 reverter => expect_revert st None depth false false (Some reverter) 1
  | expectRevert_4 data reverter => expect_revert st (Some data) depth false false (Some reverter) 1
  | expectRevert_5 data reverter => expect_revert st (Some data) depth false false (Some reverter) 1
  end.

Inductive ExpectCountedRevertCheat :=
| expectRevert_6 (count : Z)
| expectRevert_7 (revertData : Bytes) (count : Z)
| expectRevert_8 (revertData : Bytes) (count : Z)
| expectRevert_9 (reverter : Address) (count : Z)
| expectRevert_10 (revertData : Bytes) (reverter : Address) (count : Z)
| expectRevert_11 (revertData : Bytes) (reverter : Address) (count : Z).

Definition apply_expect_counted_revert (st : option ExpectedRevert) (depth : Z)
    (c : ExpectCountedRevertCheat) : option ExpectedRevert * result ErrorKind unit :=
  match c with
  | expectRevert_6 count => expect_revert st None depth false false None count
  | expectRevert_7 data count => expect_revert st (Some data) depth false false None count
  | expectRevert_8 data count => expect_revert st (Some data) depth false false None count
  | expectRevert_9 reverter count => expect_revert st None depth false false (Some reverter) count
  | expectRevert_10 data reverter count =>
      expect_revert st (Some data) depth false false (Some reverter) count
  | expectRevert_11 data reverter count =>
      expect_revert st (Some data) depth false false (Some reverter) count
  end.

Inductive ExpectOtherRevertCheat :=
| expectPartialRevert_0 (revertData : Bytes)
| expectPartialRevert_1 (revertData : Bytes) (reverter : Address)
| expectCheatcodeRevert_0
| expectCheatcodeRevert_1 (revertData : Bytes)
| expectCheatcodeRevert_2 (revertData : Bytes).

Definition apply_expect_other_revert (st : option ExpectedRevert) (depth : Z)
    (c : ExpectOtherRevertCheat) : option ExpectedRevert * result ErrorKind unit :=
  match c with
  | expectPartialRevert_0 data => expect_revert st (Some data) depth false true None 1
  | expectPartialRevert_1 data reverter =>
      expect_revert st (Some data) depth false true (Some reverter) 1
  | expectCheatcodeRevert_0 => expect_revert st None depth true false None 1
  | expectCheatcodeRevert_1 data => expect_revert st (Some data) depth true false None 1
  | expectCheatcodeRevert_2 data => expect_revert st (Some data) depth true false None 1
  end.

Inductive ExpectCreateCheat :=
| expectCreate (code : Bytes) (from : Address)
| expectCreate2 (code : Bytes) (from : Address).

Definition apply_expect_create (l : list ExpectedCreate) (c : ExpectCreateCheat) : list ExpectedCreate :=
  match c with
  | expectCreate code from => expect_create l code from Create
  | expectCreate2 code from => expect_create l code from Create2
  end.

Inductive ExpectCheat :=
| CheatCall (c : ExpectCallCheat)
| CheatEmit (c : ExpectEmitCheat)
| CheatRevert (c : ExpectRevertCheat)
| CheatCountedRevert (c : ExpectCountedRevertCheat)
| CheatOtherRevert (c : ExpectOtherRevertCheat)
| CheatCreate (c : ExpectCreateCheat).

Inductive ExpectError := CallError (e : ExpectCallError) | RevertCheatError (e : ErrorKind).

(** A cheatcode call at a call depth. *)
Definition apply_expect (s : ExpectState) (depth : Z) (c : ExpectCheat)
    : option (ExpectState * result ExpectError unit) :=
  let lift {E} (f : E → ExpectError) (r : result E unit) : result ExpectError unit :=
    match r with Ok x => Ok x | Err e => Err (f e) end in
  match c with
  | CheatCall c =>
      '(t, r) ← apply_expect_call (expected_calls s) c; Some (set_calls s t, lift CallError r)
  | CheatEmit c => Some (set_emits s (apply_expect_emit (expected_emits s) depth c), Ok tt)
  | CheatRevert c =>
      let '(st, r) := apply_expect_revert (expected_revert s) depth c in
      Some (set_revert s st, lift RevertCheatError r)
  | CheatCountedRevert c =>
      let '(st, r) := apply_expect_counted_revert (expected_revert s) depth c in
      Some (set_revert s st, lift RevertCheatError r)
  | CheatOtherRevert c =>
      let '(st, r) := apply_expect_other_revert (expected_revert s) depth c in
      Some (set_revert s st, lift RevertCheatError r)
  | CheatCreate c => Some (set_creates s (apply_expect_create (expected_creates s) c), Ok tt)
  end.

(** ** The end of the root call *)
Inductive RootError :=
| MissedCall (a : Address) (calldata : Bytes) (x : ExpectedCallData * Z)
| MissedEmit (e : EmitError)
| MissedCreate (e : ExpectedCreate).

(** What [call_end] checks when the call at depth 0 did not revert. *)
Definition root_call_end `{!HashOrder Address, !HashOrder Bytes} (s : ExpectState) (is_ok : bool)
    : ExpectState * option RootError :=
  match check_expected_calls (expected_calls s) with
  | Some (a, d, x) => (s, Some (MissedCall a d x))
  | None =>
      let '(t, err) := leftover_emits (expected_emits s) is_ok in
      let s := set_emits s t in
      (s, match err with
          | Some e => Some (MissedEmit e)
          | None => MissedCreate <$> head (expected_creates s)
          end)
  end.

(** ** Matching creates *)
Definition occurs (e : ExpectedCreate) (l : list ExpectedCreate) : nat :=
  length (filter (λ x, x = e) l).

Lemma occurs_perm e l l' : l ≡ₚ l' → occurs e l = occurs e l'.
Proof. intros H. unfold occurs. by rewrite H. Qed.
Lemma occurs_cons e x l : occurs e (x :: l) = ((if decide (x = e) then 1 else 0) + occurs e l)%nat.
Proof. unfold occurs. rewrite filter_cons. by destruct (decide (x = e)). Qed.
Lemma occurs_zero e l : e ∉ l → occurs e l = O.
Proof.
  intros He. unfold occurs. rewrite length_zero_iff_nil. apply filter_nil_iff, Forall_forall.
  by intros x Hx ->.
Qed.

(** One create takes away one occurrence of the expectation it meets. *)
Lemma occurs_observe l c e :
  occurs e (observe_create l (deployer c) (create_scheme c) (bytecode c)) =
  (occurs e l - (if decide (c = e) then 1 else 0))%nat.
Proof.
  unfold observe_create. set (p := λ x, _).
  assert (∀ x, p x = true ↔ x = c) as Hp.
  { intros x. unfold p. rewrite !andb_true_iff, !bool_decide_eq_true. split; [|by intros ->].
    destruct x, c; cbn. by intros [[-> ->] ->]. }
  destruct (position p l) as [i|] eqn:Hpos.
  - apply position_Some in Hpos as (x & Hi & ->%Hp).
    rewrite (occurs_perm e _ _ (swap_remove_Permutation _ _ _ Hi)), occurs_cons.
    destruct (decide (c = e)); lia.
  - destruct (decide (c = e)) as [<-|]; [|lia]. rewrite occurs_zero; [lia|].
    intros Hin. pose proof (position_None _ _ _ Hpos Hin) as Hf.
    by rewrite (proj2 (Hp c) eq_refl) in Hf.
Qed.

Definition observe_creates (l cs : list ExpectedCreate) : list ExpectedCreate :=
  foldl (λ l c, observe_create l (deployer c) (create_scheme c) (bytecode c)) l cs.

Lemma occurs_observe_all cs : ∀ l e, occurs e (observe_creates l cs) = (occurs e l - occurs e cs)%nat.
Proof.
  induction cs as [|c cs IH]; intros l e; [unfold observe_creates, occurs; cbn; lia|].
  change (observe_creates l (c :: cs))
    with (observe_creates (observe_create l (deployer c) (create_scheme c) (bytecode c)) cs).
  rewrite IH, occurs_observe, occurs_cons. lia.
Qed.

(** After any creates of a test, an expectation is left exactly as
    often as it was declared more often than it was met (same deployer,
    scheme and code, in any order); in particular nothing is left exactly
    when every expectation was met as often as it was declared. *)
Lemma expected_creates_matched l cs :
  (∀ e, occurs e (observe_creates l cs) = (occurs e l - occurs e cs)%nat) ∧
  (observe_creates l cs = [] ↔ ∀ e, (occurs e l ≤ occurs e cs)%nat).
Proof.
  split; [intros e; apply occurs_observe_all|]. split.
  - intros H e. pose proof (occurs_observe_all cs l e) as He. rewrite H in He. cbn in He. lia.
  - intros H. destruct (observe_creates l cs) as [|e l'] eqn:Hl; [done|].
    pose proof (occurs_observe_all cs l e) as He. rewrite Hl, occurs_cons, decide_True in He by done.
    specialize (H e). lia.
Qed.

(** ** The verdict of the root call *)
Lemma leftover_emits_None t is_ok :
  (leftover_emits t is_ok).2 = None ↔ ∀ x, x ∈ t → em_found x.1 = true ∨ em_count x.1 = 0.
Proof.
  unfold leftover_emits. cbn. set (P := λ x : ExpectedEmit * gmap Z LogCountMap, _).
  assert (filter P t = [] ↔ ∀ x, x ∈ t → em_found x.1 = true ∨ em_count x.1 = 0) as <-.
  { rewrite filter_nil_iff, Forall_forall. unfold P. split; intros H x Hx; specialize (H x Hx); cbn in *.
    - destruct (em_found x.1); [by left|]. destruct (decide (em_count x.1 = 0)); [by right|]. tauto.
    - intros [Hf Hc]. destruct H; congruence. }
  by destruct (filter P t).
Qed.

(** A test that did not revert passes exactly when every expected call
    was counted as often as it must be, every expected event was found
    (except those expected zero times) and no expected create is left. *)
Lemma root_verdict `{!HashOrder Address, !HashOrder Bytes} s is_ok :
  (root_call_end s is_ok).2 = None ↔
  (∀ a d x, tracked (expected_calls s) a d = Some x → call_unmet x = false) ∧
  (∀ x, x ∈ expected_emits s → em_found x.1 = true ∨ em_count x.1 = 0) ∧
  expected_creates s = [].
Proof.
  rewrite <- check_expected_calls_None, <- (leftover_emits_None _ is_ok), <- head_None.
  unfold root_call_end. destruct (check_expected_calls (expected_calls s)) as [[[a d] x]|].
  - split; [done|by intros [? _]].
  - destruct (leftover_emits (expected_emits s) is_ok) as [t [err|]]; cbn.
    + split; [done|by intros (_ & ? & _)].
    + rewrite fmap_None. tauto.
Qed.
