(* ===== verification/SafeMemory.v ===== *)
(** * Safe memory: [expect_safe_memory] of cheatcodes/src/test/expect.rs and
    [check_mem_opcodes] of cheatcodes/src/inspector.rs

    The interpreter is what the check reads of it: the opcode, the stack
    (top first) and the memory.  The selector of [stopExpectSafeMemory] is
    generated from the cheatcode specification, a parameter here. *)
From stdpp Require Import base gmap list.
From Stdlib Require Import ZArith Lia.
From S2P Require Import Prelude.
#[local] Open Scope list_scope.

(** A [Range<u64>], and the ranges allowed at each call depth. *)
Abbreviation MemRange := (Z * Z)%type.
Abbreviation AllowedWrites := (gmap Z (list MemRange)).

Definition range_contains (r : MemRange) (x : Z) : bool := bool_decide (r.1 ≤ x < r.2).

(** ** The cheatcodes *)
Inductive MemCheatError := StartGreaterThanEnd (start stop : Z).

Definition expect_safe_memory (m : AllowedWrites) (start stop depth : Z)
    : AllowedWrites * result MemCheatError unit :=
  if bool_decide (start < stop)
  then (<[depth := default [(0, 96)] (m !! depth) ++ [(start, stop)]]> m, Ok tt)
  else (m, Err (StartGreaterThanEnd start stop)).

Inductive MemCheat :=
| expectSafeMemory (min max : Z)
| stopExpectSafeMemory
| expectSafeMemoryCall (min max : Z).

Definition apply_mem_cheat (m : AllowedWrites) (depth : Z) (c : MemCheat)
    : AllowedWrites * result MemCheatError unit :=
  match c with
  | expectSafeMemory min max => expect_safe_memory m min max depth
  | stopExpectSafeMemory => (delete depth m, Ok tt)
  | expectSafeMemoryCall min max => expect_safe_memory m min max (depth + 1)
  end.

(** ** The check of an instruction *)
Inductive Opcode :=
| MSTORE | MSTORE8 | MLOAD | CALL
| CALLDATACOPY | CODECOPY | RETURNDATACOPY | EXTCODECOPY | CALLCODE | STATICCALL | DELEGATECALL
| KECCAK256 | LOG0 | LOG1 | LOG2 | LOG3 | LOG4 | CREATE | CREATE2 | RETURN | REVERT
| MCOPY | OtherOpcode.

Record MemInterpreter := mkInterp {
  opcode : Opcode;
  stack : list Z;
  memory : list Z;
}.

(** The table of the macro: the stack positions of the offset and the size,
    and whether the instruction writes. *)
Definition mem_operands (op : Opcode) : option (nat * nat * bool) :=
  match op with
  | CALLDATACOPY | CODECOPY | RETURNDATACOPY => Some (0, 2, true)%nat
  | EXTCODECOPY => Some (1, 3, true)%nat
  | CALLCODE => Some (5, 6, true)%nat
  | STATICCALL | DELEGATECALL => Some (4, 5, true)%nat
  | KECCAK256 | LOG0 | LOG1 | LOG2 | LOG3 | LOG4 => Some (0, 1, false)%nat
  | CREATE | CREATE2 => Some (1, 2, false)%nat
  | RETURN | REVERT => Some (0, 1, false)%nat
  | MSTORE | MSTORE8 | MLOAD | CALL | MCOPY | OtherOpcode => None
  end.

(** Nothing, or a revert that names the offset and the size. *)
Inductive MemVerdict := MemAllowed | MemDisallowed (offset size : Z).

(** [saturating_to::<u64>] of a word. *)
Definition to_u64 (z : Z) : Z := Z.min u64_max z.

(** [ranges.iter().any(|r| r.contains(&offset) && r.contains(&(offset + k)))]:
    the sum is only computed for a range that contains the offset. *)
Fixpoint any_contains (ranges : list MemRange) (offset k : Z) : option bool :=
  match ranges with
  | [] => Some false
  | r :: ranges =>
      b ← (if range_contains r offset
           then last ← checked u64_max (offset + k); Some (range_contains r last)
           else Some false);
      if b : bool then Some true else any_contains ranges offset k
  end.

(** [memory_word[..4]] of a slice of the memory. *)
Definition memory_prefix (memory : list Z) (offset len : Z) : option (list Z) :=
  if bool_decide (offset + len ≤ Z.of_nat (length memory)) && bool_decide (4 ≤ len)
  then Some (take 4 (drop (Z.to_nat offset) memory)) else None.

Definition CHEATCODE_ADDRESS : Z := 0x7109709ECfa91a80626fF3989D68f67F5b1DD12D.

Section check.
Variable stop_selector : list Z.

(** [try_or_return!(stack.peek(n))]: a missing operand ends the check. *)
Definition with_peek (i : MemInterpreter) (n : nat) (k : Z → option MemVerdict) : option MemVerdict :=
  match stack i !! n with Some x => k x | None => Some MemAllowed end.

Definition check_mstore (ranges : list MemRange) (i : MemInterpreter) : option MemVerdict :=
  with_peek i 0 (λ x,
    let offset := to_u64 x in
    ok ← any_contains ranges offset 31;
    if ok : bool then Some MemAllowed
    else with_peek i 1 (λ value, Some
           (if bool_decide (take 4 (be_bytes 32 value) = stop_selector) then MemAllowed
            else MemDisallowed offset 32))).

Definition check_mload (ranges : list MemRange) (i : MemInterpreter) : option MemVerdict :=
  with_peek i 0 (λ x,
    let offset := to_u64 x in
    if bool_decide (Z.of_nat (length (memory i)) ≤ offset)
    then ok ← any_contains ranges offset 31;
         Some (if ok : bool then MemAllowed else MemDisallowed offset 32)
    else Some MemAllowed).

Definition check_call (ranges : list MemRange) (i : MemInterpreter) : option MemVerdict :=
  with_peek i 5 (λ x, with_peek i 6 (λ y,
    let dest_offset := to_u64 x in
    let size := to_u64 y in
    ok ← any_contains ranges dest_offset (saturating_sub size 1);
    if ok : bool then Some MemAllowed
    else with_peek i 1 (λ to,
      if bool_decide (to mod 2 ^ 160 = CHEATCODE_ADDRESS)
      then with_peek i 3 (λ args_offset, with_peek i 4 (λ args_size,
             word ← memory_prefix (memory i) (to_u64 args_offset) (to_u64 args_size);
             Some (if bool_decide (word = stop_selector) then MemAllowed
                   else MemDisallowed dest_offset size)))
      else Some (MemDisallowed dest_offset size)))).

Definition check_table (ranges : list MemRange) (i : MemInterpreter) (offset_depth size_depth : nat)
    (writes : bool) : option MemVerdict :=
  with_peek i offset_depth (λ x, with_peek i size_depth (λ y,
    let dest_offset := to_u64 x in
    let size := to_u64 y in
    ok ← any_contains ranges dest_offset (saturating_sub size 1);
    if ok : bool then Some MemAllowed
    else if writes then Some (MemDisallowed dest_offset size)
    else
      stop ← checked u64_max (dest_offset + size);
      let len := Z.of_nat (length (memory i)) in
      Some (if bool_decide (len ≤ dest_offset) || bool_decide (len ≤ saturating_sub stop 1)
            then MemDisallowed dest_offset size else MemAllowed))).

Definition check_mem_opcodes (m : AllowedWrites) (depth : Z) (i : MemInterpreter) : option MemVerdict :=
  match m !! depth with
  | None => Some MemAllowed
  | Some ranges =>
      match opcode i with
      | MSTORE => check_mstore ranges i
      | MSTORE8 =>
          with_peek i 0 (λ x, let offset := to_u64 x in Some
            (if existsb (λ r, range_contains r offset) ranges then MemAllowed
             else MemDisallowed offset 1))
      | MLOAD => check_mload ranges i
      | CALL => check_call ranges i
      | op =>
          match mem_operands op with
          | Some (o, s, writes) => check_table ranges i o s writes
          | None => Some MemAllowed
          end
      end
  end.
End check.

(** ** What instructions write *)
(** The memory that an instruction writes: offset and size, from its
    operands. *)
Definition write_region (i : MemInterpreter) : option (Z * Z) :=
  let operands o s := x ← stack i !! o; y ← stack i !! s; Some (x, y) in
  match opcode i with
  | MSTORE => x ← stack i !! O; _ ← stack i !! 1%nat; Some (x, 32)
  | MSTORE8 => x ← stack i !! O; _ ← stack i !! 1%nat; Some (x, 1)
  | CALL | CALLCODE => operands 5%nat 6%nat
  | STATICCALL | DELEGATECALL => operands 4%nat 5%nat
  | CALLDATACOPY | CODECOPY | RETURNDATACOPY => operands 0%nat 2%nat
  | EXTCODECOPY => operands 1%nat 3%nat
  | MCOPY => operands 0%nat 2%nat
  | _ => None
  end.

(** The bytes lie in one of the ranges; an empty write still names an
    offset. *)
Definition in_ranges (ranges : list MemRange) (x size : Z) : Prop :=
  ∃ r, r ∈ ranges ∧ r.1 ≤ x ∧ x + Z.max size 1 ≤ r.2.

(** The instructions that the compiler emits for [stopExpectSafeMemory]. *)
Definition calls_stop (stop_selector : list Z) (i : MemInterpreter) : Prop :=
  match opcode i with
  | MSTORE => ∃ v, stack i !! 1%nat = Some v ∧ take 4 (be_bytes 32 v) = stop_selector
  | CALL => ∃ a, stack i !! 1%nat = Some a ∧ a mod 2 ^ 160 = CHEATCODE_ADDRESS
  | _ => False
  end.

Definition ranges_wf (ranges : list MemRange) : Prop := Forall (λ r, 0 ≤ r.1 ∧ r.2 ≤ u64_max) ranges.

Lemma any_contains_spec ranges x k :
  ranges_wf ranges → 0 ≤ x → 0 ≤ k ≤ u64_max →
  any_contains ranges (to_u64 x) k = Some true ↔ in_ranges ranges x (k + 1).
Proof.
  intros Hwf Hx Hk. unfold in_ranges, to_u64.
  induction Hwf as [|r ranges [Hr1 Hr2] Hwf IH]; cbn [any_contains].
  - split; [done|]. intros (r & Hr & _). by apply not_elem_of_nil in Hr.
  - unfold range_contains at 1. case_bool_decide as Hin.
    + destruct (checked u64_max (Z.min u64_max x + k)) as [last|] eqn:Hc; cbn [mbind option_bind].
      * apply checked_Some in Hc as [-> Hc]. unfold range_contains. case_bool_decide as Hlast.
        -- split; [intros _|done]. exists r. split; [auto with anvil|lia].
        -- rewrite IH. split; intros (r' & Hr' & Hb).
           ++ exists r'. split; [by auto with anvil|done].
           ++ apply elem_of_cons in Hr' as [-> |Hr']; [lia|]. by exists r'.
      * apply checked_None in Hc. split; [done|]. intros (r' & Hr' & Hb).
        assert (r'.2 ≤ u64_max).
        { apply elem_of_cons in Hr' as [-> |Hr']; [done|].
          rewrite Forall_forall in Hwf. by apply Hwf. }
        lia.
    + cbn [mbind option_bind]. rewrite IH. split; intros (r' & Hr' & Hb).
      * exists r'. split; [by auto with anvil|done].
      * apply elem_of_cons in Hr' as [-> |Hr']; [lia|]. by exists r'.
Qed.

Lemma operands_contained ranges x size :
  ranges_wf ranges → 0 ≤ x → 0 ≤ size ≤ u64_max →
  any_contains ranges (to_u64 x) (saturating_sub (to_u64 size) 1) = Some true ↔ in_ranges ranges x size.
Proof.
  intros Hwf Hx Hs. unfold saturating_sub, to_u64 at 2.
  rewrite any_contains_spec by (try done; lia).
  unfold in_ranges. by replace (Z.max (Z.max 0 (Z.min u64_max size - 1) + 1) 1) with (Z.max size 1) by lia.
Qed.

Section check_proofs.
Variable stop_selector : list Z.

Lemma check_table_write ranges i o s x size :
  ranges_wf ranges → stack i !! o = Some x → stack i !! s = Some size → 0 ≤ x → 0 ≤ size ≤ u64_max →
  check_table ranges i o s true = Some MemAllowed ↔ in_ranges ranges x size.
Proof.
  intros Hwf Hx Hs Hx0 Hs0. rewrite <- operands_contained by done.
  unfold check_table, with_peek. rewrite Hx, Hs.
  by destruct (any_contains _ _ _) as [[]|].
Qed.

Lemma check_call_write ranges i x size :
  ranges_wf ranges → stack i !! 5%nat = Some x → stack i !! 6%nat = Some size →
  0 ≤ x → 0 ≤ size ≤ u64_max →
  (∀ a, stack i !! 1%nat = Some a → a mod 2 ^ 160 ≠ CHEATCODE_ADDRESS) →
  check_call stop_selector ranges i = Some MemAllowed ↔ in_ranges ranges x size.
Proof.
  intros Hwf Hx Hs Hx0 Hs0 Hto. rewrite <- operands_contained by done.
  unfold check_call, with_peek. rewrite Hx, Hs.
  destruct (any_contains _ _ _) as [[]|]; cbn [mbind option_bind]; [done| |done].
  assert (∃ a, stack i !! 1%nat = Some a) as [a Ha].
  { apply lookup_lt_is_Some. apply lookup_lt_Some in Hx. lia. }
  rewrite Ha, bool_decide_false by (by apply Hto). done.
Qed.

Lemma check_mstore_write ranges i x v :
  ranges_wf ranges → stack i !! O = Some x → stack i !! 1%nat = Some v → 0 ≤ x →
  take 4 (be_bytes 32 v) ≠ stop_selector →
  check_mstore stop_selector ranges i = Some MemAllowed ↔ in_ranges ranges x 32.
Proof.
  intros Hwf Hx Hv Hx0 Hsel. rewrite <- (any_contains_spec _ _ 31); [|done|done|unfold u64_max; lia].
  unfold check_mstore, with_peek. rewrite Hx, Hv.
  destruct (any_contains _ _ _) as [[]|]; cbn [mbind option_bind]; [done| |done].
  by rewrite bool_decide_false.
Qed.

Lemma existsb_contains ranges x :
  ranges_wf ranges → 0 ≤ x →
  existsb (λ r, range_contains r (to_u64 x)) ranges = true ↔ in_ranges ranges x 1.
Proof.
  intros Hwf Hx. rewrite existsb_exists. unfold in_ranges, range_contains, to_u64, ranges_wf in *.
  rewrite Forall_forall in Hwf.
  split; intros (r & Hr & Hb); exists r.
  - apply list_elem_of_In in Hr. split; [done|]. apply bool_decide_eq_true in Hb. specialize (Hwf r Hr). lia.
  - split; [by apply list_elem_of_In|]. apply bool_decide_eq_true. specialize (Hwf r Hr). lia.
Qed.

(** The ranges of a sequence of [expectSafeMemory] calls. *)
Definition allow_ranges (depth : Z) (l : list MemRange) : AllowedWrites :=
  foldl (λ m r, (apply_mem_cheat m depth (expectSafeMemory r.1 r.2)).1) ∅ l.

Lemma allow_ranges_lookup depth l :
  Forall (λ r, r.1 < r.2) l → l ≠ [] → allow_ranges depth l !! depth = Some ((0, 96) :: l).
Proof.
  induction l as [|r l IH] using rev_ind; [done|]. intros [Hl Hr]%Forall_app _.
  apply Forall_inv in Hr.
  unfold allow_ranges. rewrite foldl_snoc. fold (allow_ranges depth l). cbn. unfold expect_safe_memory.
  rewrite bool_decide_true by exact Hr. cbn. rewrite lookup_insert_eq.
  destruct l as [|r0 l]; [unfold allow_ranges; cbn; rewrite lookup_empty; by destruct r|]. rewrite IH by done. by destruct r.
Qed.

(** After the ranges [l] were declared safe at a call depth, an
    instruction that writes memory passes the check exactly when the
    memory it writes lies in [0x00, 0x60) or in one of the ranges.  The
    instructions are those of the table (the compiler's code that calls
    [stopExpectSafeMemory] and [MCOPY] aside); offsets of any size are
    covered, sizes up to 2^64. *)
Lemma safe_memory_verdict depth l i x size :
  Forall (λ r, 0 ≤ r.1 < r.2 ∧ r.2 ≤ u64_max) l → l ≠ [] →
  write_region i = Some (x, size) → opcode i ≠ MCOPY → ¬ calls_stop stop_selector i →
  0 ≤ x → 0 ≤ size ≤ u64_max →
  check_mem_opcodes stop_selector (allow_ranges depth l) depth i = Some MemAllowed ↔
  in_ranges ((0, 96) :: l) x size.
Proof.
  intros Hl Hne Hreg Hop Hstop Hx Hs. unfold check_mem_opcodes.
  rewrite allow_ranges_lookup; [|eapply Forall_impl; [done|]; intros ? [[_ ?] _]; done|done].
  assert (ranges_wf ((0, 96) :: l)) as Hwf.
  { constructor; [unfold u64_max; cbn; lia|]. eapply Forall_impl; [done|]. cbn. lia. }
  unfold write_region, calls_stop in *.
  destruct (opcode i) eqn:Hopc; try done; cbn [mem_operands];
    apply bind_Some in Hreg as (x' & Hx' & Hreg); apply bind_Some in Hreg as (s' & Hs' & [= <- <-]).
  - apply (check_mstore_write _ _ x' s'); try done. intros Hv. apply Hstop. by exists s'.
  - unfold with_peek. rewrite Hx', <- existsb_contains by done. by destruct (existsb _ _).
  - apply check_call_write; try done. intros a Ha Hc. apply Hstop. by exists a.
  - by apply check_table_write.
  - by apply check_table_write.
  - by apply check_table_write.
  - by apply check_table_write.
  - by apply check_table_write.
  - by apply check_table_write.
  - by apply check_table_write.
Qed.

(** [MCOPY] writes memory but is not in the table: the check
    lets it write anywhere, although [expectSafeMemory] is documented to
    fail the test when other memory is written to. *)
Lemma mcopy_not_checked m depth mem dst src size :
  let i := mkInterp MCOPY [dst; src; size] mem in
  write_region i = Some (dst, size) ∧ check_mem_opcodes stop_selector m depth i = Some MemAllowed.
Proof. split; [done|]. unfold check_mem_opcodes. by destruct (m !! depth). Qed.
End check_proofs.

(** ** Witnesses *)
Lemma safe_memory_verdict_witness :
  check_mem_opcodes [1; 2; 3; 4] (allow_ranges 2 [(128, 160)]) 2 (mkInterp CALLDATACOPY [128; 0; 32] [])
    = Some MemAllowed ∧
  check_mem_opcodes [1; 2; 3; 4] (allow_ranges 2 [(128, 160)]) 2 (mkInterp MSTORE [129; 0] [])
    ≠ Some MemAllowed.
Proof.
  assert (Forall (λ r : MemRange, 0 ≤ r.1 < r.2 ∧ r.2 ≤ u64_max) [(128, 160)]) as Hl.
  { repeat (apply Forall_cons; split); [|constructor]. unfold u64_max. cbn. lia. }
  split.
  - apply (safe_memory_verdict _ 2 [(128, 160)] _ 128 32);
      [exact Hl|discriminate|reflexivity|discriminate|intros []|lia|unfold u64_max; lia|].
    exists (128, 160). split; [auto with anvil|cbn; lia].
  - intros H. apply (safe_memory_verdict _ 2 [(128, 160)] _ 129 32) in H;
      [|exact Hl|discriminate|reflexivity|discriminate
       |intros (v & [= <-] & Hv); vm_compute in Hv; discriminate|lia|unfold u64_max; lia].
    destruct H as (r & Hr & Hb). apply elem_of_cons in Hr as [-> |Hr]; [cbn in Hb; lia|].
    apply list_elem_of_singleton in Hr as ->. cbn in Hb. lia.
Defined.
