(* ===== verification/Mock.v ===== *)
(** * Mocked calls: cheatcodes/src/evm/mock.rs and the [call] hook of
    cheatcodes/src/inspector.rs

    The mocks of an address are a [BTreeMap], here its entries in the order
    of [MockCallDataContext]; a queue of return data is a list.  Loading an
    account can fail in the database, a parameter of the cheatcodes. *)
From stdpp Require Import base gmap list.
From Stdlib Require Import ZArith Lia Sorted.
From S2P Require Import Prelude Containers.
#[local] Open Scope list_scope.

#[local] Abbreviation Address := Z (only parsing).
#[local] Abbreviation Bytes := (list Z) (only parsing).

(** ** Data *)
Record MockCallDataContext := mkMockContext {
  calldata : Bytes;
  mock_value : option Z;
}.
#[export] Instance MockCallDataContext_eq_dec : EqDecision MockCallDataContext.
Proof. solve_decision. Defined.

Inductive MockRetType := RetReturn | RetRevert.
Record MockCallReturnData := mkMockReturn {
  ret_type : MockRetType;
  ret_data : Bytes;
}.

(** Lexicographic order of bytes, and [None] before [Some]. *)
Fixpoint bytes_cmp (a b : Bytes) : comparison :=
  match a, b with
  | [], [] => Eq
  | [], _ => Lt
  | _, [] => Gt
  | x :: a, y :: b => match x ?= y with Eq => bytes_cmp a b | c => c end
  end.
Definition value_cmp (a b : option Z) : comparison :=
  match a, b with
  | None, None => Eq
  | None, Some _ => Lt
  | Some _, None => Gt
  | Some x, Some y => x ?= y
  end.
(** [Ord::cmp]. *)
Definition context_cmp (a b : MockCallDataContext) : comparison :=
  match CompOpp (bytes_cmp (calldata a) (calldata b)) with
  | Eq => CompOpp (value_cmp (mock_value a) (mock_value b))
  | c => c
  end.

Abbreviation Mocks := (list (MockCallDataContext * list MockCallReturnData)).

(** [BTreeMap::insert] and [BTreeMap::get]. *)
Fixpoint mocks_insert (k : MockCallDataContext) (q : list MockCallReturnData) (m : Mocks) : Mocks :=
  match m with
  | [] => [(k, q)]
  | (k', q') :: m' =>
      match context_cmp k k' with
      | Lt => (k, q) :: m
      | Eq => (k', q) :: m'
      | Gt => (k', q') :: mocks_insert k q m'
      end
  end.
Definition mocks_find (p : MockCallDataContext → bool) (m : Mocks) : option nat :=
  position (λ x, p x.1) m.

Record MockState := mkMockState {
  mocked_calls : gmap Address Mocks;
  mocked_functions : gmap Address (gmap (list Z) Address);
  codes : gmap Address (list Z);
}.
Definition set_mocked (s : MockState) (m : gmap Address Mocks) : MockState :=
  mkMockState m (mocked_functions s) (codes s).

(** ** Cheatcodes *)
Definition mock_calls (s : MockState) (callee : Address) (cdata : Bytes) (value : option Z)
    (rdata_vec : list Bytes) (ty : MockRetType) : MockState :=
  set_mocked s (<[callee := mocks_insert (mkMockContext cdata value) (mkMockReturn ty <$> rdata_vec)
                              (default [] (mocked_calls s !! callee))]> (mocked_calls s)).
Definition mock_call (s : MockState) (callee : Address) (cdata : Bytes) (value : option Z)
    (rdata : Bytes) (ty : MockRetType) : MockState :=
  mock_calls s callee cdata value [rdata] ty.

Inductive MockCheat :=
| clearMockedCalls
| mockCall_0 (callee : Address) (data returnData : Bytes)
| mockCall_1 (callee : Address) (msgValue : Z) (data returnData : Bytes)
| mockCall_2 (callee : Address) (data returnData : Bytes)
| mockCall_3 (callee : Address) (msgValue : Z) (data returnData : Bytes)
| mockCalls_0 (callee : Address) (data : Bytes) (returnData : list Bytes)
| mockCalls_1 (callee : Address) (msgValue : Z) (data : Bytes) (returnData : list Bytes)
| mockCallRevert_0 (callee : Address) (data revertData : Bytes)
| mockCallRevert_1 (callee : Address) (msgValue : Z) (data revertData : Bytes)
| mockCallRevert_2 (callee : Address) (data revertData : Bytes)
| mockCallRevert_3 (callee : Address) (msgValue : Z) (data revertData : Bytes)
| mockFunction (callee target : Address) (data : Bytes).

Section cheats.
(** The error of [journaled_state.load_account]. *)
Context {E : Type} (load_error : Address → option E).

Definition make_acc_non_empty (s : MockState) (callee : Address) : result E MockState :=
  match load_error callee with
  | Some e => Err e
  | None =>
      Ok (if bool_decide (default [] (codes s !! callee) = [])
          then mkMockState (mocked_calls s) (mocked_functions s) (<[callee := [0]]> (codes s))
          else s)
  end.

Definition apply_mock (s : MockState) (c : MockCheat) : result E MockState :=
  match c with
  | clearMockedCalls => Ok (set_mocked s ∅)
  | mockCall_0 callee data rdata =>
      s ← make_acc_non_empty s callee; Ok (mock_call s callee data None rdata RetReturn)
  | mockCall_1 callee value data rdata =>
      s ← make_acc_non_empty s callee; Ok (mock_call s callee data (Some value) rdata RetReturn)
  | mockCall_2 callee data rdata =>
      s ← make_acc_non_empty s callee; Ok (mock_call s callee data None rdata RetReturn)
  | mockCall_3 callee value data rdata =>
      s ← make_acc_non_empty s callee; Ok (mock_call s callee data (Some value) rdata RetReturn)
  | mockCalls_0 callee data rdata =>
      s ← make_acc_non_empty s callee; Ok (mock_calls s callee data None rdata RetReturn)
  | mockCalls_1 callee value data rdata =>
      s ← make_acc_non_empty s callee; Ok (mock_calls s callee data (Some value) rdata RetReturn)
  | mockCallRevert_0 callee data rdata =>
      s ← make_acc_non_empty s callee; Ok (mock_call s callee data None rdata RetRevert)
  | mockCallRevert_1 callee value data rdata =>
      s ← make_acc_non_empty s callee; Ok (mock_call s callee data (Some value) rdata RetRevert)
  | mockCallRevert_2 callee data rdata =>
      s ← make_acc_non_empty s callee; Ok (mock_call s callee data None rdata RetRevert)
  | mockCallRevert_3 callee value data rdata =>
      s ← make_acc_non_empty s callee; Ok (mock_call s callee data (Some value) rdata RetRevert)
  | mockFunction callee target data =>
      Ok (mkMockState (mocked_calls s)
            (<[callee := <[data := target]> (default ∅ (mocked_functions s !! callee))]>
               (mocked_functions s)) (codes s))
  end.
End cheats.

(** ** The call hook *)
Record MockedCall := mkMockedCall {
  code_address : Address;
  input : Bytes;
  transfer_value : option Z;
}.

Definition mock_matches (c : MockedCall) (k : MockCallDataContext) : bool :=
  bool_decide (length (calldata k) ≤ length (input c))%nat &&
  bool_decide (take (length (calldata k)) (input c) = calldata k) &&
  match mock_value k with
  | None => true
  | Some v => bool_decide (Some v = transfer_value c)
  end.

(** The index of the entry whose queue answers the call. *)
Definition select_mock (c : MockedCall) (m : Mocks) : option nat :=
  let ctx := mkMockContext (input c) (transfer_value c) in
  match mocks_find (λ k, bool_decide (context_cmp k ctx = Eq)) m with
  | Some i => Some i
  | None => mocks_find (mock_matches c) m
  end.

(** The answer of a queue, and what is left of it. *)
Definition pop_return (q : list MockCallReturnData)
    : option MockCallReturnData * list MockCallReturnData :=
  match q with
  | [] => (None, [])
  | [x] => (Some x, [x])
  | x :: q => (Some x, q)
  end.

Definition answer_call (m : gmap Address Mocks) (c : MockedCall)
    : gmap Address Mocks * option MockCallReturnData :=
  match m !! code_address c with
  | None => (m, None)
  | Some mocks =>
      match select_mock c mocks with
      | None => (m, None)
      | Some i =>
          match mocks !! i with
          | None => (m, None)
          | Some (k, q) =>
              let '(x, q) := pop_return q in
              (<[code_address c := <[i := (k, q)]> mocks]> m, x)
          end
      end
  end.

(** [InspectorStackRefMut::call]: the address whose code runs when the
    function is mocked, for the whole input or for its selector. *)
Definition mocked_function (m : gmap Address (gmap (list Z) Address)) (c : MockedCall) : Address :=
  default (code_address c)
    (mocks ← m !! code_address c;
     match mocks !! input c with
     | Some target => Some target
     | None => if bool_decide (4 ≤ length (input c))%nat then mocks !! take 4 (input c) else None
     end).

(** ** The order of mocks *)
Lemma bytes_cmp_antisym a b : bytes_cmp b a = CompOpp (bytes_cmp a b).
Proof.
  revert b. induction a as [|x a IH]; intros [|y b]; cbn; [done..|].
  rewrite (Z.compare_antisym x y). destruct (x ?= y); cbn; auto.
Qed.
Lemma bytes_cmp_eq a b : bytes_cmp a b = Eq → a = b.
Proof.
  revert b. induction a as [|x a IH]; intros [|y b]; cbn; [done..|].
  destruct (x ?= y) eqn:Hc; [|done..]. apply Z.compare_eq in Hc as ->. by intros ->%IH.
Qed.
Lemma bytes_cmp_trans a b c : bytes_cmp a b = Gt → bytes_cmp b c = Gt → bytes_cmp a c = Gt.
Proof.
  revert b c. induction a as [|x a IH]; intros [|y b] [|z c]; cbn; [done..|].
  destruct (x ?= y) eqn:Hxy, (y ?= z) eqn:Hyz, (x ?= z) eqn:Hxz; try done;
    rewrite ?Z.compare_eq_iff, ?Z.compare_gt_iff, ?Z.compare_lt_iff in *; try lia.
  apply IH.
Qed.
Lemma value_cmp_eq a b : value_cmp a b = Eq → a = b.
Proof. destruct a, b; cbn; [|done..]. by intros ->%Z.compare_eq. Qed.
Lemma value_cmp_trans a b c : value_cmp a b = Gt → value_cmp b c = Gt → value_cmp a c = Gt.
Proof. destruct a, b, c; cbn; rewrite ?Z.compare_gt_iff; try done. lia. Qed.
Lemma value_cmp_antisym a b : value_cmp b a = CompOpp (value_cmp a b).
Proof. destruct a as [x|], b as [y|]; cbn; [|done..]. apply Z.compare_antisym. Qed.

Lemma context_cmp_eq a b : context_cmp a b = Eq ↔ a = b.
Proof.
  unfold context_cmp. split.
  - destruct (bytes_cmp (calldata a) (calldata b)) eqn:Hb; cbn; [|done..].
    apply bytes_cmp_eq in Hb. destruct (value_cmp _ _) eqn:Hv; cbn; [|done..].
    apply value_cmp_eq in Hv. destruct a, b; cbn in *. by subst.
  - intros ->. assert (∀ l, bytes_cmp l l = Eq) as ->.
    { induction l as [|x l IH]; cbn; [done|]. by rewrite Z.compare_refl. }
    cbn. destruct (mock_value b); cbn; [by rewrite Z.compare_refl|done].
Qed.
Lemma context_cmp_antisym a b : context_cmp b a = CompOpp (context_cmp a b).
Proof.
  unfold context_cmp. rewrite (bytes_cmp_antisym (calldata a)), (value_cmp_antisym (mock_value a)).
  by destruct (bytes_cmp _ _), (value_cmp _ _).
Qed.
#[export] Instance context_cmp_order : CmpOrder context_cmp.
Proof.
  split.
  - intros x y. apply context_cmp_antisym.
  - intros x y z. unfold context_cmp.
    destruct (bytes_cmp (calldata x) (calldata y)) eqn:Hxy, (bytes_cmp (calldata y) (calldata z)) eqn:Hyz;
      cbn; try done.
    + apply bytes_cmp_eq in Hxy as ->. rewrite Hyz. cbn.
      destruct (value_cmp (mock_value x) (mock_value y)) eqn:H1, (value_cmp (mock_value y) (mock_value z)) eqn:H2;
        cbn; try done. by rewrite (value_cmp_trans _ _ _ H1 H2).
    + apply bytes_cmp_eq in Hxy as ->. by rewrite Hyz.
    + apply bytes_cmp_eq in Hyz as <-. by rewrite Hxy.
    + by rewrite (bytes_cmp_trans _ _ _ Hxy Hyz).
  - intros x y z ->%context_cmp_eq. done.
Qed.

Definition mocks_sorted (m : Mocks) : Prop :=
  StronglySorted (λ x y, context_cmp x.1 y.1 = Lt) m.

Lemma mocks_insert_elem k q m x :
  x ∈ mocks_insert k q m → x = (k, q) ∨ x ∈ m.
Proof.
  induction m as [|[k' q'] m IH]; cbn.
  - intros ->%list_elem_of_singleton. by left.
  - destruct (context_cmp k k') eqn:Hc.
    + apply context_cmp_eq in Hc as ->. rewrite !elem_of_cons. tauto.
    + rewrite elem_of_cons. tauto.
    + rewrite !elem_of_cons. tauto.
Qed.
Lemma mocks_insert_sorted k q m : mocks_sorted m → mocks_sorted (mocks_insert k q m).
Proof.
  unfold mocks_sorted. induction 1 as [|[k' q'] m Hm IH Hall]; cbn; [by repeat constructor|].
  destruct (context_cmp k k') eqn:Hc.
  - by constructor.
  - constructor; [by constructor|]. constructor; [done|]. eapply Forall_impl; [exact Hall|].
    cbn. intros y Hy. by eapply cmp_trans.
  - constructor; [done|]. apply Forall_forall. intros x Hx%mocks_insert_elem. cbn.
    destruct Hx as [-> |Hx]; [cbn; by rewrite context_cmp_antisym, Hc|].
    by rewrite Forall_forall in Hall; apply Hall.
Qed.

(** The order only looks at the keys. *)
Lemma mocks_sorted_keys m m' : m.*1 = m'.*1 → mocks_sorted m → mocks_sorted m'.
Proof.
  unfold mocks_sorted. intros Hk H. revert m' Hk. induction H as [|x m Hm IH Hall]; intros [|y m'] Hk; [constructor|done..|].
  injection Hk as Hxy Hk. change (m.*1 = m'.*1) in Hk. constructor; [by apply IH|]. apply Forall_forall. intros z Hz.
  rewrite <- Hxy. assert (z.1 ∈ m.*1) as (z' & -> & Hz')%list_elem_of_fmap.
  { rewrite Hk. by apply list_elem_of_fmap_2. }
  rewrite Forall_forall in Hall. by apply Hall.
Qed.
Lemma insert_keys (m : Mocks) i k q q' : m !! i = Some (k, q) → (<[i := (k, q')]> m).*1 = m.*1.
Proof.
  intros Hi. rewrite list_fmap_insert. cbn. apply list_insert_id. by rewrite list_lookup_fmap, Hi.
Qed.

(** ** Reachable states *)
Section reachable.
Context {E : Type} (load_error : Address → option E).

Inductive mock_reachable : MockState → Prop :=
| mock_initial codes : mock_reachable (mkMockState ∅ ∅ codes)
| mock_cheat s c s' : mock_reachable s → apply_mock load_error s c = Ok s' → mock_reachable s'
| mock_answered s c :
    mock_reachable s → mock_reachable (set_mocked s (answer_call (mocked_calls s) c).1).

Definition mocks_wf (m : gmap Address Mocks) : Prop := ∀ a mocks, m !! a = Some mocks → mocks_sorted mocks.

Lemma mock_calls_wf s callee d v r ty :
  mocks_wf (mocked_calls s) → mocks_wf (mocked_calls (mock_calls s callee d v r ty)).
Proof.
  intros Hs a mocks. cbn. intros [[<- <-]|[_ Ha]]%lookup_insert_Some; [|by eapply Hs].
  apply mocks_insert_sorted. destruct (mocked_calls s !! callee) as [m|] eqn:Hm; [by eapply Hs|constructor].
Qed.
Lemma make_acc_mocked s callee s' :
  make_acc_non_empty load_error s callee = Ok s' → mocked_calls s' = mocked_calls s.
Proof. unfold make_acc_non_empty. destruct (load_error callee); [done|]. intros [= <-]. by case_bool_decide. Qed.

Lemma reachable_wf s : mock_reachable s → mocks_wf (mocked_calls s).
Proof.
  induction 1 as [codes|s c s' Hs IH Hc|s c Hs IH].
  - intros a mocks. cbn. by rewrite lookup_empty.
  - destruct c; cbn in Hc;
      try (apply bind_Ok in Hc as (s1 & Hs1 & [= <-]); apply make_acc_mocked in Hs1;
           unfold mock_call; apply mock_calls_wf; by rewrite Hs1).
    + injection Hc as <-. intros a mocks. cbn. by rewrite lookup_empty.
    + by injection Hc as <-.
  - cbn. unfold answer_call. destruct (mocked_calls s !! code_address c) as [mocks|] eqn:Hm; [|done].
    destruct (select_mock c mocks) as [i|]; [|done].
    destruct (mocks !! i) as [[k q]|] eqn:Hi; [|done].
    destruct (pop_return q) as [x q']. cbn.
    intros a mocks'. intros [[<- <-]|[_ Ha]]%lookup_insert_Some; [|by eapply IH].
    eapply mocks_sorted_keys; [symmetry; by eapply insert_keys|by eapply IH].
Qed.
End reachable.

(** ** Which mock answers *)
(** A mock with a longer calldata is more specific; of two with the same
    calldata the one that asks for a value is. *)
Definition less_specific (k k' : MockCallDataContext) : Prop :=
  (length (calldata k) < length (calldata k'))%nat ∨
  (calldata k = calldata k' ∧ mock_value k = None ∧ mock_value k' ≠ None).

Lemma bytes_cmp_prefixes l n m :
  (n ≤ length l)%nat → (m ≤ length l)%nat → bytes_cmp (take n l) (take m l) = Nat.compare n m.
Proof.
  revert n m. induction l as [|x l IH]; intros [|n] [|m] Hn Hm; cbn in *; try lia; try done.
  rewrite Z.compare_refl. apply IH; lia.
Qed.
Lemma mock_matches_spec c k :
  mock_matches c k = true ↔
  (length (calldata k) ≤ length (input c))%nat ∧ calldata k = take (length (calldata k)) (input c) ∧
  (mock_value k = None ∨ mock_value k = transfer_value c).
Proof.
  unfold mock_matches. rewrite !andb_true_iff, !bool_decide_eq_true. split.
  - intros [[? ?] Hv]. split_and!; [done|done|].
    destruct (mock_value k); [right; by apply bool_decide_eq_true in Hv|by left].
  - intros (? & ? & Hv). split_and!; [done|done|].
    destruct (mock_value k); [apply bool_decide_eq_true; by destruct Hv|done].
Qed.

(** Two mocks that match the same call are ordered by how specific they are. *)
Lemma context_order_specific c k k' :
  mock_matches c k = true → mock_matches c k' = true → context_cmp k k' = Lt → less_specific k' k.
Proof.
  intros (Hl & Hc & Hv)%mock_matches_spec (Hl' & Hc' & Hv')%mock_matches_spec Ho.
  unfold context_cmp in Ho. unfold less_specific.
  rewrite Hc, Hc', bytes_cmp_prefixes in Ho by done.
  destruct (Nat.compare_spec (length (calldata k)) (length (calldata k'))) as [Heq|Hlt|Hgt];
    cbn in Ho; [|done|by left].
  right. rewrite Hc, Hc', Heq. split; [done|].
  destruct (mock_value k) as [v|], (mock_value k') as [v'|]; cbn in Ho; try done.
  destruct Hv as [|Hv], Hv' as [|Hv']; try done. rewrite <- Hv in Hv'. injection Hv' as ->.
  by rewrite Z.compare_refl in Ho.
Qed.

(** The first match in the order is the most specific one. *)
Lemma mocks_find_first c m i k q :
  mocks_sorted m → mocks_find (mock_matches c) m = Some i → m !! i = Some (k, q) →
  mock_matches c k = true ∧
  ∀ k' q', (k', q') ∈ m → mock_matches c k' = true → k' = k ∨ less_specific k' k.
Proof.
  intros Hm. revert i. induction Hm as [|[k0 q0] m Hm IH Hall]; intros i; cbn; [done|].
  destruct (mock_matches c k0) eqn:Hk0.
  - intros [= <-] [= -> ->]. split; [done|]. intros k' q' [Heq|Hin]%elem_of_cons Hk'.
    + injection Heq as -> _. by left.
    + right. eapply context_order_specific; [done|done|]. rewrite Forall_forall in Hall. by apply (Hall (k', q')).
  - intros (j & Hj & ->)%fmap_Some Hi. cbn in Hi. destruct (IH j Hj Hi) as [Hk Hbest].
    split; [done|]. intros k' q' [Heq|Hin]%elem_of_cons Hk'; [|by eapply Hbest].
    injection Heq as -> _. congruence.
Qed.

Lemma select_mock_spec c m :
  mocks_sorted m →
  match select_mock c m with
  | Some i => ∃ k q, m !! i = Some (k, q) ∧ mock_matches c k = true ∧
      ∀ k' q', (k', q') ∈ m → mock_matches c k' = true → k' = k ∨ less_specific k' k
  | None => ∀ k q, (k, q) ∈ m → mock_matches c k = false
  end.
Proof.
  intros Hm. unfold select_mock. set (ctx := mkMockContext _ _).
  destruct (mocks_find (λ k, bool_decide (context_cmp k ctx = Eq)) m) as [i|] eqn:He.
  - apply position_Some in He as ([k q] & Hi & Hk%bool_decide_eq_true%context_cmp_eq). cbn in Hk. subst k.
    exists ctx, q. split; [done|].
    assert (mock_matches c ctx = true) as Hctx.
    { apply mock_matches_spec. cbn. split_and!; [done|by rewrite take_ge|by right]. }
    split; [done|]. intros k' q' _ Hk'.
    destruct (context_cmp ctx k') eqn:Hc.
    + apply context_cmp_eq in Hc as ->. by left.
    + right. by eapply context_order_specific.
    + exfalso. assert (less_specific ctx k') as [Hlen|(Hd & Hv & Hnv)].
      { eapply context_order_specific; [done..|]. by rewrite context_cmp_antisym, Hc. }
      * apply mock_matches_spec in Hk' as (Hl & _). cbn in Hlen. lia.
      * apply mock_matches_spec in Hk' as (_ & _ & [Hn|Hn]); [done|]. cbn in Hv. congruence.
  - destruct (mocks_find (mock_matches c) m) as [i|] eqn:Hf.
    + apply position_Some in Hf as Hi. destruct Hi as ([k q] & Hi & Hk).
      exists k, q. split; [done|]. by eapply mocks_find_first.
    + intros k q Hin. by apply (position_None _ _ _ Hf Hin).
Qed.

Section mock_props.
Context {E : Type} (load_error : Address → option E).

(** Whatever cheatcodes and calls came before, a call is answered from
    the queue of the most specific mock of its code address that matches
    it (its calldata is a prefix of the input and its value, if any, the
    value of the call): the longest calldata wins, then a mock with a
    value; a call that no mock matches is not answered. *)
Lemma mock_most_specific s c mocks :
  mock_reachable load_error s → mocked_calls s !! code_address c = Some mocks →
  (∃ k q, (k, q) ∈ mocks ∧ mock_matches c k = true ∧
     (∀ k' q', (k', q') ∈ mocks → mock_matches c k' = true → k' = k ∨ less_specific k' k) ∧
     (answer_call (mocked_calls s) c).2 = (pop_return q).1) ∨
  ((∀ k q, (k, q) ∈ mocks → mock_matches c k = false) ∧
   answer_call (mocked_calls s) c = (mocked_calls s, None)).
Proof.
  intros Hs Hm. pose proof (select_mock_spec c mocks (reachable_wf _ s Hs _ _ Hm)) as Hsel.
  unfold answer_call. rewrite Hm. destruct (select_mock c mocks) as [i|]; [|by right].
  destruct Hsel as (k & q & Hi & Hk & Hbest). left. exists k, q.
  split; [by eapply list_elem_of_lookup_2|]. split_and!; [done|done|].
  rewrite Hi. by destruct (pop_return q).
Qed.
End mock_props.

(** ** Queues of return data *)
(** The answers of calls made one after the other. *)
Fixpoint answers (m : gmap Address Mocks) (c : MockedCall) (n : nat)
    : list (option MockCallReturnData) :=
  match n with
  | O => []
  | S n => let '(m', x) := answer_call m c in x :: answers m' c n
  end.

Lemma mocks_find_keys p (m m' : Mocks) : m.*1 = m'.*1 → mocks_find p m = mocks_find p m'.
Proof.
  unfold mocks_find. revert m'. induction m as [|[k q] m IH]; intros [|[k' q'] m'] Hk; [done..|].
  injection Hk as Hkk Hk. change (m.*1 = m'.*1) in Hk. cbn in *. subst k'. rewrite (IH m') by done. done.
Qed.
Lemma mocks_find_insert k q m :
  ∃ i, mocks_find (λ x, bool_decide (context_cmp x k = Eq)) (mocks_insert k q m) = Some i ∧
       mocks_insert k q m !! i = Some (k, q).
Proof.
  unfold mocks_find. induction m as [|[k' q'] m (i & Hf & Hi)]; cbn.
  - exists O. by rewrite bool_decide_true by by apply context_cmp_eq.
  - destruct (context_cmp k k') eqn:Hc.
    + apply context_cmp_eq in Hc as ->. exists O. cbn. by rewrite bool_decide_true by by apply context_cmp_eq.
    + exists O. cbn. by rewrite bool_decide_true by by apply context_cmp_eq.
    + exists (S i). cbn. rewrite bool_decide_false, Hf; [done|].
      intros ->%context_cmp_eq. rewrite (proj2 (context_cmp_eq k k) eq_refl) in Hc. done.
Qed.

(** The queue of the selected entry after one answer. *)
Lemma answers_queue q : ∀ m c mocks i k n,
  q ≠ [] → m !! code_address c = Some mocks → select_mock c mocks = Some i → mocks !! i = Some (k, q) →
  answers m c n = (λ j, q !! Nat.min j (length q - 1)) <$> seq 0 n.
Proof.
  induction q as [|x q IH]; [done|]. intros m c mocks i k n _ Hm Hs Hi.
  assert (∀ q', select_mock c (<[i := (k, q')]> mocks) = Some i ∧
            <[i := (k, q')]> mocks !! i = Some (k, q')) as Hafter.
  { intros q'. split.
    - rewrite <- Hs. unfold select_mock. pose proof (insert_keys mocks i k _ q' Hi) as Hk.
      by rewrite !(mocks_find_keys _ _ _ Hk).
    - apply list_lookup_insert_eq. by eapply lookup_lt_Some. }
  destruct q as [|y q].
  - assert (∀ n m mocks, m !! code_address c = Some mocks → select_mock c mocks = Some i →
      mocks !! i = Some (k, [x]) → answers m c n = replicate n (Some x)) as Hlast.
    { clear. induction n as [|n IH]; intros m mocks Hm Hs Hi; [done|].
      cbn [answers]. unfold answer_call. rewrite Hm, Hs, Hi. cbn [pop_return].
      assert (<[i := (k, [x])]> mocks = mocks) as Hid by by apply list_insert_id.
      rewrite Hid. cbn. f_equal. apply (IH _ mocks); [by rewrite lookup_insert_eq|done|done]. }
    rewrite (Hlast n m mocks) by done. cbn.
    apply list_eq. intros j. rewrite list_lookup_fmap.
    destruct (decide (j < n)%nat) as [Hj|Hj].
    + rewrite lookup_replicate_2, lookup_seq_lt by lia. cbn. by rewrite Nat.min_0_r.
    + rewrite (lookup_ge_None_2 (replicate _ _)), (lookup_ge_None_2 (seq _ _)); [done|..];
        rewrite ?length_replicate, ?length_seq; lia.
  - destruct n as [|n]; [done|]. cbn [answers]. unfold answer_call. rewrite Hm, Hs, Hi. cbn [pop_return].
    destruct (Hafter (y :: q)) as [Hs' Hi'].
    rewrite (IH _ c _ i k n ltac:(done) (lookup_insert_eq _ _ _) Hs' Hi').
    cbn [seq fmap list_fmap]. rewrite Nat.min_0_l. f_equal.
    rewrite <- seq_shift, <- list_fmap_compose. apply list_fmap_ext. intros j z _. cbn.
    rewrite Nat.sub_0_r. by destruct q.
Qed.

(** [mockCalls] with the return data [rs]: the calls of the callee with
    exactly this calldata and value are answered by the elements of [rs] in
    order, and by the last one from then on. *)
Lemma mock_returns_in_order s callee cdata value rs ty n :
  rs ≠ [] →
  answers (mocked_calls (mock_calls s callee cdata value rs ty)) (mkMockedCall callee cdata value) n =
  (λ j, mkMockReturn ty <$> rs !! Nat.min j (length rs - 1)) <$> seq 0 n.
Proof.
  intros Hne. set (k := mkMockContext cdata value).
  destruct (mocks_find_insert k (mkMockReturn ty <$> rs) (default [] (mocked_calls s !! callee)))
    as (i & Hf & Hi).
  erewrite (answers_queue (mkMockReturn ty <$> rs)).
  - apply list_fmap_ext. intros j z _. by rewrite length_fmap, list_lookup_fmap.
  - by destruct rs.
  - cbn. by rewrite lookup_insert_eq.
  - unfold select_mock. cbn. fold k. by rewrite Hf.
  - exact Hi.
Qed.

(** ** Witnesses *)
Definition sample_mocks : MockState :=
  mock_call (mock_call (mkMockState ∅ ∅ ∅) 7 [1] None [10] RetReturn) 7 [1; 2] None [20] RetReturn.

Lemma mock_most_specific_witness :
  (answer_call (mocked_calls sample_mocks) (mkMockedCall 7 [1; 2; 3] None)).2
    = Some (mkMockReturn RetReturn [20]) ∧
  ∃ k q, mock_matches (mkMockedCall 7 [1; 2; 3] None) k = true ∧
    (answer_call (mocked_calls sample_mocks) (mkMockedCall 7 [1; 2; 3] None)).2 = (pop_return q).1.
Proof.
  split; [reflexivity|].
  set (none := λ _ : Z, None : option unit).
  assert (mock_reachable none (mock_call (mock_call (mkMockState ∅ ∅ {[ 7 := [1] ]}) 7 [1] None [10] RetReturn)
            7 [1; 2] None [20] RetReturn)) as Hr.
  { apply (mock_cheat none (mock_call (mkMockState ∅ ∅ {[ 7 := [1] ]}) 7 [1] None [10] RetReturn)
             (mockCall_0 7 [1; 2] [20])); [|reflexivity].
    apply (mock_cheat none (mkMockState ∅ ∅ {[ 7 := [1] ]}) (mockCall_0 7 [1] [10])); [|reflexivity].
    apply mock_initial. }
  destruct (mock_most_specific none _ (mkMockedCall 7 [1; 2; 3] None) _ Hr eq_refl)
    as [(k & q & _ & Hk & _ & Hq)|[Hno _]].
  - exists k, q. split; [exact Hk|exact Hq].
  - exfalso. specialize (Hno (mkMockContext [1] None) [mkMockReturn RetReturn [10]]).
    cut (true = false); [discriminate|]. apply Hno. cbn.
    apply list_elem_of_further, list_elem_of_here.
Defined.

Lemma mock_returns_in_order_witness :
  answers (mocked_calls (mock_calls (mkMockState ∅ ∅ ∅) 7 [1] (Some 0) [[10]; [20]] RetReturn))
    (mkMockedCall 7 [1] (Some 0)) 3 =
  [Some (mkMockReturn RetReturn [10]); Some (mkMockReturn RetReturn [20]); Some (mkMockReturn RetReturn [20])].
Proof.
  exact (mock_returns_in_order (mkMockState ∅ ∅ ∅) 7 [1] (Some 0) [[10]; [20]] RetReturn 3
           (ltac:(discriminate))).
Defined.
