(* ===== verification/Prank.v ===== *)
(** * Pranks: cheatcodes/src/evm/prank.rs and the hooks of
    cheatcodes/src/inspector.rs that apply and clean them up

    The [BTreeMap] of pranks by call depth is a finite map; [get_prank] reads
    its last entry at or below a depth.  The journal is what the cheatcode
    asks it: whether loading an account fails and whether it has code. *)
From stdpp Require Import base gmap list.
From Stdlib Require Import ZArith Lia.
From S2P Require Import Prelude.
#[local] Open Scope list_scope.

#[local] Abbreviation Address := Z (only parsing).

(** ** State *)
Record Prank := mkPrank {
  prank_caller : Address;
  prank_origin : Address;
  new_caller : Address;
  new_origin : option Address;
  prank_depth : nat;
  single_call : bool;
  delegate_call : bool;
  used : bool;
}.
Definition prank_new (caller origin nc : Address) (no : option Address) (depth : nat)
    (single delegate : bool) : Prank := mkPrank caller origin nc no depth single delegate false.
Definition first_time_applied (p : Prank) : option Prank :=
  if used p then None
  else Some (mkPrank (prank_caller p) (prank_origin p) (new_caller p) (new_origin p) (prank_depth p)
               (single_call p) (delegate_call p) true).

Record PrankState := mkPrankState {
  pranks : gmap nat Prank;
  tx_caller : Address;
  broadcasting : bool;
}.
Definition set_pranks (s : PrankState) (m : gmap nat Prank) : PrankState :=
  mkPrankState m (tx_caller s) (broadcasting s).
Definition set_origin (s : PrankState) (a : Address) : PrankState :=
  mkPrankState (pranks s) a (broadcasting s).

(** [self.pranks.range(..=depth).last()]. *)
Fixpoint get_prank (m : gmap nat Prank) (depth : nat) : option Prank :=
  match m !! depth with
  | Some p => Some p
  | None => match depth with O => None | S depth => get_prank m depth end
  end.

(** ** The cheatcodes *)
Inductive PrankError :=
| AccountError
| DelegateFromEoa
| PrankNotApplied
| CannotOverride
| Broadcasting.

Class PrankJournal := {
  account_error : Address → bool;
  has_code : Address → bool;
}.

Section cheats.
Context {J : PrankJournal}.

Definition prank (s : PrankState) (caller : Address) (depth : nat) (nc : Address)
    (no : option Address) (single delegate : bool) : result PrankError PrankState :=
  ensure (negb (account_error nc)) AccountError ≫= λ _,
  ensure (negb delegate || has_code nc) DelegateFromEoa ≫= λ _,
  match get_prank (pranks s) depth with
  | Some p =>
      ensure (used p) PrankNotApplied ≫= λ _,
      ensure (bool_decide (single = single_call p)) CannotOverride
  | None => Ok tt
  end ≫= λ _,
  ensure (negb (broadcasting s)) Broadcasting ≫= λ _,
  Ok (set_pranks s (<[depth := prank_new caller (tx_caller s) nc no depth single delegate]> (pranks s))).

Inductive PrankCheat :=
| prank_0 (msgSender : Address)
| startPrank_0 (msgSender : Address)
| prank_1 (msgSender txOrigin : Address)
| startPrank_1 (msgSender txOrigin : Address)
| prank_2 (msgSender : Address) (delegateCall : bool)
| startPrank_2 (msgSender : Address) (delegateCall : bool)
| prank_3 (msgSender txOrigin : Address) (delegateCall : bool)
| startPrank_3 (msgSender txOrigin : Address) (delegateCall : bool)
| stopPrank.

Definition apply_prank (s : PrankState) (caller : Address) (depth : nat) (c : PrankCheat)
    : result PrankError PrankState :=
  match c with
  | prank_0 a => prank s caller depth a None true false
  | startPrank_0 a => prank s caller depth a None false false
  | prank_1 a o => prank s caller depth a (Some o) true false
  | startPrank_1 a o => prank s caller depth a (Some o) false false
  | prank_2 a d => prank s caller depth a None true d
  | startPrank_2 a d => prank s caller depth a None false d
  | prank_3 a o d => prank s caller depth a (Some o) true d
  | startPrank_3 a o d => prank s caller depth a (Some o) false d
  | stopPrank => Ok (set_pranks s (delete depth (pranks s)))
  end.
End cheats.

(** ** The hooks *)
(** What the hooks change of a call: its caller and its target. *)
Record PrankCall := mkPrankCall {
  caller : Address;
  target_address : Address;
  is_delegatecall : bool;
}.

(** The part of [call] and [create] that sets the sender and the origin. *)
Definition apply_to_frame (s : PrankState) (depth : nat) (p : Prank) (from : Address)
    : PrankState * Address :=
  if bool_decide (prank_depth p ≤ depth)%nat && bool_decide (from = prank_caller p) then
    let at_depth := bool_decide (depth = prank_depth p) in
    let from := if at_depth then new_caller p else from in
    let s := match new_origin p with Some o => set_origin s o | None => s end in
    let applied := at_depth || bool_decide (new_origin p ≠ None) in
    (match first_time_applied p with
     | Some p' => if applied : bool then set_pranks s (<[depth := p']> (pranks s)) else s
     | None => s
     end, from)
  else (s, from).

Definition prank_call (s : PrankState) (depth : nat) (c : PrankCall) : PrankState * PrankCall :=
  match get_prank (pranks s) depth with
  | None => (s, c)
  | Some p =>
      let '(s, c) :=
        if delegate_call p && bool_decide (depth = prank_depth p) && is_delegatecall c
        then (match new_origin p with Some o => set_origin s o | None => s end,
              mkPrankCall (new_caller p) (new_caller p) true)
        else (s, c) in
      let '(s, from) := apply_to_frame s depth p (caller c) in
      (s, mkPrankCall from (target_address c) (is_delegatecall c))
  end.

Definition prank_create (s : PrankState) (depth : nat) (from : Address) : PrankState * Address :=
  match get_prank (pranks s) depth with
  | None => (s, from)
  | Some p => apply_to_frame s depth p from
  end.

(** [call_end] of a call that is not to a cheatcode address. *)
Definition prank_call_end (s : PrankState) (depth : nat) : PrankState :=
  match get_prank (pranks s) depth with
  | Some p =>
      if bool_decide (depth = prank_depth p) then
        let s := set_origin s (prank_origin p) in
        if single_call p then set_pranks s (delete depth (pranks s)) else s
      else s
  | None => s
  end.

(** [create_end]: a single-call prank takes the whole map. *)
Definition prank_create_end (s : PrankState) (depth : nat) : PrankState :=
  match get_prank (pranks s) depth with
  | Some p =>
      if bool_decide (depth = prank_depth p) then
        let s := set_origin s (prank_origin p) in
        if single_call p then set_pranks s ∅ else s
      else s
  | None => s
  end.

(** ** Nested frames *)
Section nested.
Context {J : PrankJournal}.

(** What can happen in frames deeper than [d]: cheatcodes, calls and
    creates.  The end of a create under a single-call prank of its own
    depth is left out. *)
Inductive nested_step (d : nat) : PrankState → PrankState → Prop :=
| nested_cheat s from k c s' :
    (d < k)%nat → apply_prank s from k c = Ok s' → nested_step d s s'
| nested_call s k c : (d < k)%nat → nested_step d s (prank_call s k c).1
| nested_call_end s k : (d < k)%nat → nested_step d s (prank_call_end s k)
| nested_create s k from : (d < k)%nat → nested_step d s (prank_create s k from).1
| nested_create_end s k p :
    (d < k)%nat → get_prank (pranks s) k = Some p → single_call p = false →
    nested_step d s (prank_create_end s k).

Lemma apply_to_frame_pranks s k p from d :
  (d < k)%nat → pranks (apply_to_frame s k p from).1 !! d = pranks s !! d.
Proof.
  intros Hd. unfold apply_to_frame. destruct (_ && _); [|done]. cbn.
  assert (∀ s, pranks (match new_origin p with Some o => set_origin s o | None => s end) = pranks s) as Ho
    by (intros s'; by destruct (new_origin p)).
  destruct (first_time_applied p); [|by rewrite Ho]. destruct (_ || _); cbn; rewrite Ho; [|done].
  by rewrite lookup_insert_ne by lia.
Qed.

Lemma prank_call_pranks s k c d :
  (d < k)%nat → pranks (prank_call s k c).1 !! d = pranks s !! d.
Proof.
  intros Hd. unfold prank_call. destruct (get_prank (pranks s) k) as [p|]; [|done].
  destruct (_ && _).
  - pose proof (apply_to_frame_pranks
      (match new_origin p with Some o => set_origin s o | None => s end) k p
      (caller (mkPrankCall (new_caller p) (new_caller p) true)) d Hd) as H.
    destruct (apply_to_frame _ _ _ _). cbn in *. rewrite H. by destruct (new_origin p).
  - pose proof (apply_to_frame_pranks s k p (caller c) d Hd) as H.
    by destruct (apply_to_frame _ _ _ _).
Qed.

Lemma nested_step_lookup d s s' : nested_step d s s' → pranks s' !! d = pranks s !! d.
Proof.
  intros Hs. destruct Hs as [s from k c s' Hk Hc|s k c Hk|s k Hk|s k from Hk|s k p Hk Hp Hsc].
  - assert (∀ nc no sg dg, prank s from k nc no sg dg = Ok s' → pranks s' !! d = pranks s !! d) as Hprank.
    { intros nc no sg dg. unfold prank. intros H.
      repeat (apply bind_Ok in H as (? & _ & H)). injection H as <-. cbn.
      by rewrite lookup_insert_ne by lia. }
    destruct c; cbn in Hc; try (by eapply Hprank). injection Hc as <-. cbn.
    by rewrite lookup_delete_ne by lia.
  - by apply prank_call_pranks.
  - unfold prank_call_end. destruct (get_prank _ _) as [p|]; [|done]. case_bool_decide; [|done].
    destruct (single_call p); cbn; [by rewrite lookup_delete_ne by lia|done].
  - unfold prank_create. destruct (get_prank _ _) as [p|]; [|done]. by apply apply_to_frame_pranks.
  - unfold prank_create_end. rewrite Hp, Hsc. by case_bool_decide.
Qed.

Lemma nested_lookup d s s' : rtc (nested_step d) s s' → pranks s' !! d = pranks s !! d.
Proof. induction 1 as [|s s1 s' Hs Hr IH]; [done|]. by rewrite IH, (nested_step_lookup _ _ _ Hs). Qed.

Lemma get_prank_here m d p : m !! d = Some p → get_prank m d = Some p.
Proof. intros H. destruct d; cbn; by rewrite H. Qed.

(** [vm.prank] at a call depth takes effect for the next call that the
    pranking contract makes, whatever the called contracts do (their own
    pranks included, except that no create ends under a single-call prank
    of theirs): that call has the new sender, and the new origin if there
    is one; when it ends the prank is gone and the transaction origin is
    the one at the time of the cheatcode. *)
Lemma prank_single_call s from d nc no s1 (c : PrankCall) s3 :
  prank s from d nc no true false = Ok s1 → caller c = from → rtc (nested_step d) (prank_call s1 d c).1 s3 →
  caller (prank_call s1 d c).2 = nc ∧
  tx_caller (prank_call s1 d c).1 = default (tx_caller s) no ∧
  pranks (prank_call_end s3 d) !! d = None ∧
  tx_caller (prank_call_end s3 d) = tx_caller s.
Proof.
  intros Hp Hc Hn. unfold prank in Hp.
  repeat (apply bind_Ok in Hp as (? & _ & Hp)). injection Hp as <-.
  set (p := prank_new from (tx_caller s) nc no d true false) in *.
  set (s1 := set_pranks s (<[d := p]> (pranks s))) in *.
  assert (get_prank (pranks s1) d = Some p) as Hget by (apply get_prank_here, lookup_insert_eq).
  assert (∃ p', pranks (prank_call s1 d c).1 !! d = Some p' ∧ prank_depth p' = d ∧ single_call p' = true ∧
            prank_origin p' = tx_caller s ∧ caller (prank_call s1 d c).2 = nc ∧
            tx_caller (prank_call s1 d c).1 = default (tx_caller s) no) as (p' & Hp' & Hd & Hsc & Ho & Hnc & Htx).
  { unfold prank_call. rewrite Hget. cbn. unfold apply_to_frame. cbn.
    rewrite (bool_decide_true (d ≤ d)%nat), (bool_decide_true (caller c = from)), (bool_decide_true (d = d)) by done.
    cbn. eexists. rewrite lookup_insert_eq. split; [done|]. by destruct no. }
  split; [done|]. split; [done|]. apply nested_lookup in Hn. rewrite Hp' in Hn.
  unfold prank_call_end. rewrite (get_prank_here _ _ _ Hn). decide_bools. rewrite Hsc. cbn.
  by rewrite lookup_delete_eq.
Qed.
End nested.

(** When a create made under a single-call prank ends, every
    prank is forgotten, also a [startPrank] of an outer contract that was
    not stopped; the end of a call under the same prank keeps it. *)
Lemma create_end_drops_outer_pranks s outer p_outer inner p_inner :
  (outer < inner)%nat → pranks s !! outer = Some p_outer →
  pranks s !! inner = Some p_inner → prank_depth p_inner = inner → single_call p_inner = true →
  pranks (prank_call_end s inner) !! outer = Some p_outer ∧
  pranks (prank_create_end s inner) !! outer = None.
Proof.
  intros Hlt Ho Hi Hd Hs. unfold prank_call_end, prank_create_end.
  rewrite (get_prank_here _ _ _ Hi), bool_decide_true, Hs by done. cbn.
  by rewrite lookup_delete_ne by lia.
Qed.

(** ** Witnesses *)
Definition plain_journal : PrankJournal := {| account_error _ := false; has_code _ := true |}.

Lemma prank_single_call_witness :
  let s := mkPrankState ∅ 100 false in
  ∃ s1, @prank plain_journal s 1 2 50 (Some 60) true false = Ok s1 ∧
    caller (prank_call s1 2 (mkPrankCall 1 9 false)).2 = 50 ∧
    tx_caller (prank_call s1 2 (mkPrankCall 1 9 false)).1 = 60 ∧
    pranks (prank_call_end (prank_call s1 2 (mkPrankCall 1 9 false)).1 2) !! 2%nat = None.
Proof.
  set (s1 := set_pranks (mkPrankState ∅ 100 false) {[ 2%nat := prank_new 1 100 50 (Some 60) 2 true false ]}).
  assert (@prank plain_journal (mkPrankState ∅ 100 false) 1 2 50 (Some 60) true false = Ok s1) as Hp
    by reflexivity.
  destruct (@prank_single_call plain_journal (mkPrankState ∅ 100 false) 1 2 50 (Some 60) s1
    (mkPrankCall 1 9 false) _ Hp eq_refl (rtc_refl _ _)) as (H1 & H2 & H3 & _).
  exists s1. split; [exact Hp|]. split; [exact H1|]. split; [exact H2|exact H3].
Defined.

Lemma create_end_drops_outer_pranks_witness :
  let s := mkPrankState {[ 1%nat := prank_new 1 100 50 None 1 false false;
                           2%nat := prank_new 2 100 60 None 2 true false ]} 100 false in
  pranks (prank_call_end s 2) !! 1%nat = Some (prank_new 1 100 50 None 1 false false) ∧
  pranks (prank_create_end s 2) !! 1%nat = None.
Proof.
  intros s. apply (create_end_drops_outer_pranks s 1 (prank_new 1 100 50 None 1 false false)
                     2 (prank_new 2 100 60 None 2 true false)); [lia|reflexivity..].
Defined.
