(* ===== verification/FsPermissions.v ===== *)
(** * Access to the file system: config/src/fs_permissions.rs and
    cheatcodes/src/config.rs

    What the configuration lets cheatcodes read and write.  A path is the list
    of its components, as [Path::components] gives them and as [Path]
    compares them, on a system without prefixes (Unix).  [canonicalize]
    resolves the links of an existing path ([None] for one that does not
    exist); it is the file system's. *)
From stdpp Require Import base list countable strings.
From Stdlib Require Import ZArith Lia.
From S2P Require Import Prelude.
#[local] Open Scope nat_scope.

(** ** Paths of the standard library *)
Inductive Component : Type := RootDir | CurDir | ParentDir | Normal (name : string).
#[export] Instance Component_eq_dec : EqDecision Component.
Proof. solve_decision. Defined.
#[export] Instance Component_countable : Countable Component.
Proof.
  refine (inj_countable'
    (λ c, match c with RootDir => inl 0 | CurDir => inl 1 | ParentDir => inl 2 | Normal s => inr s end)
    (λ x, match x with
          | inl 0 => RootDir | inl 1 => CurDir | inl _ => ParentDir | inr s => Normal s end) _).
  by intros [].
Defined.
Definition Path : Type := list Component.

Definition starts_with (path base : Path) : bool := bool_decide (base `prefix_of` path).
Definition is_absolute (path : Path) : bool := bool_decide (head path = Some RootDir).
Definition join (root path : Path) : Path :=
  if is_absolute path then path
  else match root with
       | [] => path
       | _ => root ++ match path with CurDir :: path => path | _ => path end
       end.
Definition strip_prefix (path base : Path) : option Path :=
  if starts_with path base then Some (drop (length base) path) else None.
Definition pop (path : Path) : Path :=
  match last path with
  | None | Some RootDir => path
  | Some _ => removelast path
  end.

(** ** [FsAccessPermission] *)
Inductive FsAccessKind : Type := Read | Write.
Inductive FsAccessPermission : Type := PermNone | PermRead | PermWrite | PermReadWrite.
#[export] Instance FsAccessKind_eq_dec : EqDecision FsAccessKind.
Proof. solve_decision. Defined.
#[export] Instance FsAccessPermission_eq_dec : EqDecision FsAccessPermission.
Proof. solve_decision. Defined.

Definition kind_display (k : FsAccessKind) : string :=
  match k with Read => "read" | Write => "write" end.
Definition is_granted (a : FsAccessPermission) (kind : FsAccessKind) : bool :=
  match a, kind with
  | PermReadWrite, _ => true
  | PermWrite, Write => true
  | PermRead, Read => true
  | PermNone, _ => false
  | _, _ => false
  end.
Definition permission_from_str (s : string) : result string FsAccessPermission :=
  if bool_decide (s ∈ ["true"; "read-write"; "readwrite"]) then Ok PermReadWrite
  else if bool_decide (s ∈ ["false"; "none"]) then Ok PermNone
  else if bool_decide (s = "read") then Ok PermRead
  else if bool_decide (s = "write") then Ok PermWrite
  else Err ("Unknown variant " +:+ s).
Definition permission_display (a : FsAccessPermission) : string :=
  match a with
  | PermReadWrite => "read-write" | PermNone => "none" | PermRead => "read" | PermWrite => "write"
  end.
(** What a configuration file holds: the untagged enum [Status]. *)
Inductive Status : Type := StatusBool (enabled : bool) | StatusString (val : string).
Definition permission_serialize (a : FsAccessPermission) : Status :=
  match a with
  | PermReadWrite => StatusBool true
  | PermNone => StatusBool false
  | PermRead => StatusString "read"
  | PermWrite => StatusString "write"
  end.
Definition permission_deserialize (s : Status) : result string FsAccessPermission :=
  match s with
  | StatusBool enabled => Ok (if enabled then PermReadWrite else PermNone)
  | StatusString val => permission_from_str val
  end.

(** ** [PathPermission] and [FsPermissions] *)
Record PathPermission := mkPathPermission { access : FsAccessPermission; path : Path }.
Definition FsPermissions : Type := list PathPermission.

Definition perm_add (s : FsPermissions) (permission : PathPermission) : FsPermissions :=
  s ++ [permission].
Definition join_all (s : FsPermissions) (root : Path) : FsPermissions :=
  (λ perm, mkPathPermission (access perm) (join root (path perm))) <$> s.
Definition perm_remove (s : FsPermissions) (p : Path) : FsPermissions :=
  filter (λ permission, path permission ≠ p) s.

(** The privilege kept of two permissions for paths of one length. *)
Definition merge_access (highest perm : FsAccessPermission) : FsAccessPermission :=
  match highest, perm with
  | PermReadWrite, _ | PermRead, PermWrite | PermWrite, PermRead => PermReadWrite
  | PermNone, perm => perm
  | existing_perm, _ => existing_perm
  end.

Section permissions.
Context (canonicalize : Path → option Path).
Implicit Types (s : FsPermissions) (perm : PathPermission).

Definition permission_path perm : Path := default (path perm) (canonicalize (path perm)).
Definition find_step (p : Path) (acc : nat * FsAccessPermission) perm : nat * FsAccessPermission :=
  let '(max_path_len, highest_permission) := acc in
  if starts_with p (permission_path perm) then
    let path_len := length (permission_path perm) in
    if bool_decide (max_path_len < path_len) then (path_len, access perm)
    else if bool_decide (path_len = max_path_len)
         then (max_path_len, merge_access highest_permission (access perm))
         else acc
  else acc.
Definition find_permission s (p : Path) : option FsAccessPermission :=
  let '(max_path_len, highest_permission) := foldl (find_step p) (0, PermNone) s in
  if bool_decide (0 < max_path_len) then Some highest_permission else None.
Definition is_path_allowed s (p : Path) (kind : FsAccessKind) : bool :=
  match find_permission s p with Some perm => is_granted perm kind | None => false end.
End permissions.

(** ** [CheatsConfig] *)

(** [normalize_path] of common/src/fs.rs. *)
Definition normalize_step (ret : Path) (c : Component) : Path :=
  match c with
  | RootDir => [RootDir]
  | CurDir => ret
  | ParentDir => pop ret
  | Normal c => ret ++ [Normal c]
  end.
Definition normalize_path (p : Path) : Path := foldl normalize_step [] p.

(** The fields of [CheatsConfig] that decide about paths. *)
Record CheatsConfig := mkCheatsConfig { root : Path; fs_permissions : FsPermissions }.
Definition cheats_config_new (config_root : Path) (permissions : FsPermissions) : CheatsConfig :=
  mkCheatsConfig config_root (join_all permissions config_root).

(** Errors of the checks: the message's path and kind, and [foundry.toml]. *)
Inductive PathError : Type :=
| NotAllowed (shown : Path) (kind : FsAccessKind)
| FoundryToml.

(** [str::to_lowercase] maps Unicode letters; [lowercase] is that mapping on
    a file name (a separator is not a letter, so a path maps by component). *)
Definition lowercase_path (lowercase : string → string) (p : Path) : Path :=
  (λ c, match c with Normal s => Normal (lowercase s) | c => c end) <$> p.

Section config.
Context (canonicalize : Path → option Path) (lowercase : string → string).
Implicit Types (c : CheatsConfig) (p : Path).

Definition normalized_path c p : Path :=
  let p := join (root c) p in default (normalize_path p) (canonicalize p).
Definition is_normalized_path_allowed c p (kind : FsAccessKind) : bool :=
  is_path_allowed canonicalize (fs_permissions c) p kind.
Definition config_is_path_allowed c p (kind : FsAccessKind) : bool :=
  is_normalized_path_allowed c (normalized_path c p) kind.
Definition ensure_path_allowed c p (kind : FsAccessKind) : result PathError Path :=
  let normalized := normalized_path c p in
  _ ← ensure (is_normalized_path_allowed c normalized kind)
             (NotAllowed (default p (strip_prefix normalized (root c))) kind);
  Ok normalized.
Definition is_foundry_toml c p : bool :=
  starts_with (lowercase_path lowercase (join (root c) [Normal "foundry.toml"]))
              (lowercase_path lowercase p).
Definition ensure_not_foundry_toml c p : result PathError unit :=
  ensure (negb (is_foundry_toml c p)) FoundryToml.
End config.

(** ** Round trips of the permissions' text *)
Lemma permission_text_roundtrip a :
  permission_from_str (permission_display a) = Ok a ∧
  permission_deserialize (permission_serialize a) = Ok a.
Proof. by destruct a. Qed.
Lemma permission_from_str_Ok s a :
  permission_from_str s = Ok a ↔
  s ∈ match a with
      | PermReadWrite => ["true"; "read-write"; "readwrite"]
      | PermNone => ["false"; "none"] | PermRead => ["read"] | PermWrite => ["write"]
      end.
Proof.
  unfold permission_from_str. split.
  - repeat case_bool_decide; intros [= <-]; subst; done || by apply list_elem_of_singleton.
  - rewrite !list_elem_of_In. destruct a; simpl; naive_solver.
Qed.

(** ** Merging permissions *)
Lemma merge_access_sound h a k :
  is_granted (merge_access h a) k = true → is_granted h k = true ∨ is_granted a k = true.
Proof. destruct h, a, k; naive_solver. Qed.
Lemma merge_access_keeps h a k : is_granted h k = true → is_granted (merge_access h a) k = true.
Proof. by destruct h, a, k. Qed.
Lemma merge_access_adds h a k :
  a ≠ PermReadWrite ∨ h = PermNone ∨ h = PermReadWrite →
  is_granted a k = true → is_granted (merge_access h a) k = true.
Proof. destruct h, a, k; naive_solver. Qed.

Section permissions_spec.
Context (canonicalize : Path → option Path) (p : Path).
Implicit Types (s : FsPermissions) (perm : PathPermission).
#[local] Abbreviation len perm := (length (permission_path canonicalize perm)).

Definition matches perm : Prop := permission_path canonicalize perm `prefix_of` p.
(** The permissions for the longest path that [p] is in. *)
Definition longest_match s perm : Prop :=
  perm ∈ s ∧ matches perm ∧ 0 < len perm ∧ ∀ q, q ∈ s → matches q → len q ≤ len perm.

(** What the loop knows after the permissions [s]. *)
Record found s (acc : nat * FsAccessPermission) : Prop := {
  found_max q : q ∈ s → matches q → len q ≤ acc.1;
  found_one : acc.1 = 0 ∨ ∃ q, q ∈ s ∧ matches q ∧ len q = acc.1;
  found_sound k : is_granted acc.2 k = true →
    ∃ q, q ∈ s ∧ matches q ∧ len q = acc.1 ∧ is_granted (access q) k = true;
  found_adds q k : q ∈ s → matches q → len q = acc.1 → access q ≠ PermReadWrite →
    is_granted (access q) k = true → is_granted acc.2 k = true;
  found_both q k : (∀ r, r ∈ s → matches r → len r = acc.1 → access r = PermNone ∨ access r = PermReadWrite) →
    q ∈ s → matches q → len q = acc.1 →
    is_granted (access q) k = true → is_granted acc.2 k = true;
}.

Lemma found_step s acc perm :
  found s acc → found (s ++ [perm]) (find_step canonicalize p acc perm).
Proof.
  destruct acc as [m a]. intros [Hmax Hone Hsound Hadds Hboth]; cbn in *.
  assert (∀ q, q ∈ s ++ [perm] ↔ q ∈ s ∨ q = perm) as Hin.
  { intros q. by rewrite elem_of_app, list_elem_of_singleton. }
  assert (¬ matches perm ∨ len perm < m → found (s ++ [perm]) (m, a)) as Hkeep.
  { intros Hno. split; cbn.
    - intros q [Hq| ->]%Hin Hmq; [by apply Hmax|destruct Hno; [done|lia]].
    - destruct Hone as [|(q & ? & ? & ?)]; [by left|right]. exists q. by rewrite Hin; auto.
    - intros k (q & ? & ? & ? & ?)%Hsound. exists q. by rewrite Hin; auto.
    - intros q k [Hq| ->]%Hin Hmq Hl; [by apply (Hadds q)|destruct Hno; [done|lia]].
    - intros q k Hall [Hq| ->]%Hin Hmq Hl; [|destruct Hno; [done|lia]].
      apply (Hboth q); try done. intros r ?. apply Hall, Hin. by left. }
  unfold find_step, starts_with.
  case_bool_decide as Hm; [|by auto]. fold (matches perm) in Hm.
  case_bool_decide as Hlt; [|case_bool_decide as Heq; [|apply Hkeep; lia]]; clear Hkeep.
  - assert (∀ q, q ∈ s → matches q → len q < len perm) as Hless.
    { intros q Hq Hmq. specialize (Hmax q Hq Hmq). lia. }
    split; cbn.
    + intros q [Hq| ->]%Hin Hmq; [|lia]. specialize (Hless q Hq Hmq). lia.
    + right. exists perm. rewrite Hin. auto.
    + intros k Hk. exists perm. rewrite Hin. auto.
    + intros q k [Hq| ->]%Hin Hmq Hl; [|done]. specialize (Hless q Hq Hmq). lia.
    + intros q k _ [Hq| ->]%Hin Hmq Hl; [|done]. specialize (Hless q Hq Hmq). lia.
  - subst m. split; cbn.
    + intros q [Hq| ->]%Hin Hmq; [by apply Hmax|lia].
    + right. exists perm. rewrite Hin. auto.
    + intros k [(q & ? & ? & ? & ?)%Hsound|Hk]%merge_access_sound;
        [exists q|exists perm]; rewrite Hin; auto.
    + intros q k [Hq| ->]%Hin Hmq Hl Hne Hk; [|apply merge_access_adds; auto].
      apply merge_access_keeps. by apply (Hadds q).
    + intros q k Hall Hq Hmq Hl Hk.
      assert (∀ r, r ∈ s → matches r → len r = len perm → access r = PermNone ∨ access r = PermReadWrite)
        as Hall' by (intros r ?; apply Hall, Hin; by left).
      apply Hin in Hq as [Hq| ->]; [apply merge_access_keeps; by apply (Hboth q)|].
      apply merge_access_adds; [|done]. right.
      destruct (decide (a = PermNone)) as [|Hn]; [by left|right].
      assert (∃ k, is_granted a k = true) as (k' & (r & Hr & Hmr & Hlr & Hg)%Hsound).
      { destruct a; [done|by exists Read|by exists Write|by exists Read]. }
      assert (∀ k, is_granted a k = true) as Ha.
      { intros k0. apply (Hboth r k0 Hall' Hr Hmr Hlr).
        destruct (Hall' r Hr Hmr Hlr) as [Hr'|Hr']; rewrite Hr' in *; done. }
      pose proof (Ha Read). pose proof (Ha Write). by destruct a.
Qed.

Lemma found_all s : found s (foldl (find_step canonicalize p) (0, PermNone) s).
Proof.
  induction s as [|perm s IH] using rev_ind.
  - split; cbn; [|by left|by intros []|..]; intros q; [intros []%not_elem_of_nil| |];
      intros k; [|intros _]; intros []%not_elem_of_nil.
  - rewrite foldl_app. by apply found_step.
Qed.
End permissions_spec.

(** ** Normalised paths *)
Definition plain (p : Path) : Prop := ∃ names, p = Normal <$> names ∨ p = RootDir :: (Normal <$> names).

Lemma plain_snoc p c : plain p → plain (p ++ [Normal c]).
Proof.
  intros (names & [-> | ->]); exists (names ++ [c]); rewrite fmap_app; [by left|by right].
Qed.
Lemma plain_pop p : plain p → plain (pop p).
Proof.
  intros (names & Hp). unfold pop. destruct names as [|c names _] using rev_ind.
  { destruct Hp as [-> | ->]; cbn; exists []; auto. }
  rewrite fmap_app in Hp. cbn [fmap list_fmap] in Hp.
  assert (p = (Normal <$> names) ++ [Normal c] ∨ p = (RootDir :: (Normal <$> names)) ++ [Normal c])
    as [-> | ->] by naive_solver; rewrite last_snoc, removelast_last; exists names; auto.
Qed.
Lemma normalize_path_plain p : plain (normalize_path p).
Proof.
  unfold normalize_path. assert (plain []) as Hr by (exists []; by left).
  revert Hr. generalize (@nil Component).
  induction p as [|c p IH]; intros r Hr; [done|]. cbn [foldl]. apply IH.
  destruct c; cbn; [exists []; by right|done|by apply plain_pop|by apply plain_snoc].
Qed.

(** Nothing is left of [.] and [..], so normalising again changes nothing. *)
Lemma normalize_plain p : plain p → normalize_path p = p.
Proof.
  assert (∀ names r, foldl normalize_step r (Normal <$> names) = r ++ (Normal <$> names)) as Hn.
  { induction names as [|c names IH]; intros r; cbn; [by rewrite app_nil_r|].
    rewrite IH. cbn. by rewrite <- app_assoc. }
  unfold normalize_path. intros (names & [-> | ->]); [apply Hn|]. cbn. apply Hn.
Qed.
Lemma normalize_path_idem p : normalize_path (normalize_path p) = normalize_path p.
Proof. apply normalize_plain, normalize_path_plain. Qed.

Lemma ensure_path_allowed_Ok canonicalize c p k q :
  ensure_path_allowed canonicalize c p k = Ok q ↔
  q = normalized_path canonicalize c p ∧ is_path_allowed canonicalize (fs_permissions c) q k = true.
Proof.
  unfold ensure_path_allowed, is_normalized_path_allowed. cbn zeta.
  destruct (is_path_allowed _ _ (normalized_path _ _ _) _) eqn:H; cbn.
  - split; [by intros [= <-]|by intros [-> _]].
  - split; [done|intros [-> Hq]; congruence].
Qed.

(** ** Properties *)

(** Cheatcodes may touch a path in some way only when a permission for the
    longest configured path it is in grants that; and such a permission does
    grant it, unless it is a [read-write] one that merges with others of the
    same length. *)
Lemma path_allowed_by_longest canonicalize s p k :
  (is_path_allowed canonicalize s p k = true →
    ∃ perm, longest_match canonicalize p s perm ∧ is_granted (access perm) k = true) ∧
  (∀ perm, longest_match canonicalize p s perm → is_granted (access perm) k = true →
    access perm ≠ PermReadWrite ∨
      (∀ q, longest_match canonicalize p s q → access q = PermNone ∨ access q = PermReadWrite) →
    is_path_allowed canonicalize s p k = true).
Proof.
  unfold is_path_allowed, find_permission.
  pose proof (found_all canonicalize p s) as Hf.
  destruct (foldl _ _ s) as [m a] eqn:Hm. destruct Hf as [Hmax Hone Hsound Hadds Hboth]; cbn in *.
  split.
  - case_bool_decide as H0; [|done]. intros (q & Hq & Hmq & <- & Hg)%Hsound. exists q. by split_and!.
  - intros perm (Hin & Hma & Hpos & Hbest) Hg Hcase. specialize (Hmax perm Hin Hma) as Hle.
    assert (length (permission_path canonicalize perm) = m) as Hlen.
    { destruct Hone as [->|(q & Hq & Hmq & <-)]; [lia|]. specialize (Hbest q Hq Hmq). lia. }
    rewrite bool_decide_true by lia. destruct Hcase as [Hne|Hall]; [by eapply Hadds|].
    eapply Hboth; [|done..]. intros r Hr Hmr Hlr. apply Hall. split_and!; [done|done|lia|].
    intros q' Hq' Hm'. rewrite Hlr. by apply Hmax.
Qed.

(** A project whose [out] may be read, and its [contracts] also written. *)
Definition out : Path := [RootDir; Normal "project"; Normal "out"].
Definition contracts : Path := out ++ [Normal "contracts"].
Definition project_permissions : FsPermissions :=
  [mkPathPermission PermRead out; mkPathPermission PermReadWrite contracts].
Definition token : Path := contracts ++ [Normal "Token.sol"].

Lemma path_allowed_by_longest_witness :
  longest_match (λ _, None) token project_permissions (mkPathPermission PermReadWrite contracts) ∧
  is_path_allowed (λ _, None) project_permissions token Write = true.
Proof.
  assert (∀ q, q ∈ project_permissions → q = mkPathPermission PermRead out ∨
    q = mkPathPermission PermReadWrite contracts) as Hin.
  { intros q. unfold project_permissions. rewrite !elem_of_cons. intros [Hq|[Hq|[]%not_elem_of_nil]]; auto. }
  assert (longest_match (λ _, None) token project_permissions (mkPathPermission PermReadWrite contracts)) as H.
  { split_and!.
    - by right; left.
    - by exists [Normal "Token.sol"].
    - cbn. lia.
    - intros q [-> | ->]%Hin _; cbn; lia. }
  split; [exact H|].
  apply (proj2 (path_allowed_by_longest (λ _, None) project_permissions token Write) _ H); [done|].
  right. intros q (Hq & _ & _ & Hbest). apply Hin in Hq as [-> | ->]; [|by right].
  specialize (Hbest (mkPathPermission PermReadWrite contracts)). cbn in Hbest.
  assert (4 ≤ 3); [|lia]. apply Hbest; [by right; left|by exists [Normal "Token.sol"]].
Defined.

(** The order of permissions for one path matters, although the highest is
    meant to win: [read-write] after [read] stays [read]. *)
Lemma read_write_after_read_is_lost :
  let read_out := mkPathPermission PermRead out in
  let all_out := mkPathPermission PermReadWrite out in
  find_permission (λ _, None) [read_out; all_out] token = Some PermRead ∧
  find_permission (λ _, None) [all_out; read_out] token = Some PermReadWrite.
Proof. by vm_compute. Qed.
