(* ===== verification/FsCheats.v ===== *)
(** * File system cheatcodes: cheatcodes/src/fs.rs and common/src/fs.rs

    The cheatcodes that read and write files, as programs over the operating
    system's calls ([SysOp]), whose meaning is the interface [Os].  A program
    returns the calls it made, each with the world it was made in, beside
    its result, so that which calls a cheatcode may make is a statement about
    that list.  What the system does for a call, it does: a path is checked as
    it is written, so links on it are followed, and a call that goes through a
    directory tree reaches paths that were not checked.  A string is the list of its UTF-8 bytes. *)
From stdpp Require Import base list gmap strings.
From Stdlib Require Import ZArith Lia.
From S2P Require Import Prelude FsPermissions.
#[local] Open Scope Z_scope.

(** ** The operating system *)
Definition Bytes : Type := list Z.

(** [std::fs::OpenOptions] *)
Record OpenOptions := mkOpenOptions
  { o_read : bool; o_write : bool; o_append : bool; o_create : bool; o_truncate : bool }.
(** [std::fs::Metadata]; times are in nanoseconds from the epoch, and not
    available on every platform. *)
Record Metadata := mkMetadata
  { m_is_dir : bool; m_is_symlink : bool; m_len : Z; m_readonly : bool;
    m_modified : option Z; m_accessed : option Z; m_created : option Z }.
(** What [walkdir] says of an entry, and of one that it could not read. *)
Record WalkEntry := mkWalkEntry
  { w_path : Path; w_depth : Z; w_is_dir : bool; w_path_is_symlink : bool }.
Record WalkError := mkWalkError { we_message : string; we_path : option Path; we_depth : Z }.

Class OsTypes := { World : Type; File : Type; Reader : Type; IoError : Type }.

Inductive SysOp `{OsTypes} : Type → Type :=
| PathExists (p : Path) : SysOp bool
| PathIsDir (p : Path) : SysOp bool
| PathIsFile (p : Path) : SysOp bool
| PathMetadata (p : Path) : SysOp (result IoError Metadata)
| FsCopy (from to : Path) : SysOp (result IoError Z)
| FsCreateDir (p : Path) : SysOp (result IoError unit)
| FsCreateDirAll (p : Path) : SysOp (result IoError unit)
| FsRemoveDir (p : Path) : SysOp (result IoError unit)
| FsRemoveDirAll (p : Path) : SysOp (result IoError unit)
| FsRemoveFile (p : Path) : SysOp (result IoError unit)
| FsReadLink (p : Path) : SysOp (result IoError Path)
| OpenFile (options : OpenOptions) (p : Path) : SysOp (result IoError File)
| FileLockShared (f : File) : SysOp (result IoError unit)
| FileLock (f : File) : SysOp (result IoError unit)
| FileUnlock (f : File) : SysOp (result IoError unit)
| FileMetadata (f : File) : SysOp (result IoError Metadata)
| FileReadToEnd (f : File) : SysOp (result IoError Bytes)
| FileWriteAll (f : File) (contents : Bytes) : SysOp (result IoError unit)
| BufReadLine (r : Reader) : SysOp (Reader * result IoError Bytes)
| Walk (p : Path) (max_depth : Z) (follow_links : bool) : SysOp (list (result WalkError WalkEntry)).

Class Os `{OsTypes} := {
  canonicalize : World → Path → option Path;
  lowercase : string → string;
  buf_reader : File → Reader;
  perform {A} : SysOp A → World → World * A;
}.

(** ** Errors and values *)
Inductive FsPathError {T : OsTypes} : Type :=
| WriteError (source : IoError) (p : Path)
| ReadError (source : IoError) (p : Path)
| NotUtf8 (p : Path)
| CopyError (source : IoError) (from to : Path)
| ReadLinkError (source : IoError) (p : Path)
| RemoveFileError (source : IoError) (p : Path)
| CreateDirError (source : IoError) (p : Path)
| RemoveDirError (source : IoError) (p : Path)
| OpenError (source : IoError) (p : Path)
| LockError (source : IoError) (p : Path)
| UnlockError (source : IoError) (p : Path).

Inductive CheatError {T : OsTypes} : Type :=
| Denied (e : PathError)
| FsPath (e : FsPathError)
| Io (e : IoError).

Record FsMetadata := mkFsMetadata
  { isDir : bool; isSymlink : bool; length : Z; readOnly : bool;
    modified : Z; accessed : Z; created : Z }.
Record DirEntry := mkDirEntry
  { errorMessage : string; de_path : Path; de_depth : Z; de_isDir : bool; de_isSymlink : bool }.
(** What a cheatcode ABI-encodes as its answer. *)
Inductive FsValue : Type :=
| VUnit | VBool (b : bool) | VUint (n : Z) | VBytes (b : Bytes) | VPath (p : Path)
| VMetadata (m : FsMetadata) | VEntries (l : list DirEntry).

(** [str::from_utf8]: well-formed UTF-8. *)
Fixpoint valid_utf8 (b : Bytes) : bool :=
  let cont x := bool_decide (128 ≤ x ≤ 191) in
  let between lo hi x := bool_decide (lo ≤ x ≤ hi) in
  match b with
  | [] => true
  | x :: b =>
      if between 0 127 x then valid_utf8 b else
      match b with
      | [] => false
      | y :: b =>
          if between 194 223 x then cont y && valid_utf8 b else
          match b with
          | [] => false
          | z :: b =>
              if between 224 239 x
              then between (if bool_decide (x = 224) then 160 else 128)
                     (if bool_decide (x = 237) then 159 else 191) y && cont z && valid_utf8 b
              else
              match b with
              | [] => false
              | w :: b =>
                  between 240 244 x &&
                  between (if bool_decide (x = 240) then 144 else 128)
                    (if bool_decide (x = 244) then 143 else 191) y &&
                  cont z && cont w && valid_utf8 b
              end
          end
      end
  end.

(** ** Programs *)
Section programs.
Context {T : OsTypes} {O : Os}.

Definition Event : Type := World * sigT SysOp.
(** The world, and [TestContext::opened_read_files]. *)
Record FsState := mkFsState { fs_world : World; opened_read_files : gmap Path Reader }.
Definition IO (A : Type) : Type := FsState → FsState * list Event * result CheatError A.

#[export] Instance io_ret : MRet IO := λ A a s, (s, [], Ok a).
#[export] Instance io_bind : MBind IO := λ A B f m s,
  match m s with
  | (s, log, Ok a) => let '(s, log', r) := f a s in (s, log ++ log', r)
  | (s, log, Err e) => (s, log, Err e)
  end.

Definition io_result {A} (r : result CheatError A) : IO A := λ s, (s, [], r).
Definition call {A} (op : SysOp A) : IO A := λ s,
  let '(w, a) := perform op (fs_world s) in
  (mkFsState w (opened_read_files s), [(fs_world s, existT A op)], Ok a).
Definition map_err {E F A} (f : E → F) (r : result E A) : result F A :=
  match r with Ok a => Ok a | Err e => Err (f e) end.
(** [operation.map_err(f)?] *)
Definition try_call {A} (op : SysOp (result IoError A)) (f : IoError → CheatError) : IO A :=
  r ← call op; io_result (map_err f r).
Definition opened_lookup (p : Path) : IO (option Reader) := λ s, (s, [], Ok (opened_read_files s !! p)).
Definition opened_insert (p : Path) (r : Reader) : IO unit := λ s,
  (mkFsState (fs_world s) (<[p := r]> (opened_read_files s)), [], Ok tt).
Definition opened_remove (p : Path) : IO unit := λ s,
  (mkFsState (fs_world s) (delete p (opened_read_files s)), [], Ok tt).

(** ** Wrappers of common/src/fs.rs *)
Definition fs_remove_file (p : Path) : IO unit := try_call (FsRemoveFile p) (λ e, FsPath (RemoveFileError e p)).
Definition fs_read_link (p : Path) : IO Path := try_call (FsReadLink p) (λ e, FsPath (ReadLinkError e p)).
Definition fs_copy (from to : Path) : IO Z := try_call (FsCopy from to) (λ e, FsPath (CopyError e from to)).
Definition fs_create_dir (p : Path) : IO unit := try_call (FsCreateDir p) (λ e, FsPath (CreateDirError e p)).
Definition fs_create_dir_all (p : Path) : IO unit := try_call (FsCreateDirAll p) (λ e, FsPath (CreateDirError e p)).
Definition fs_remove_dir (p : Path) : IO unit := try_call (FsRemoveDir p) (λ e, FsPath (RemoveDirError e p)).
Definition fs_remove_dir_all (p : Path) : IO unit := try_call (FsRemoveDirAll p) (λ e, FsPath (RemoveDirError e p)).
Definition fs_open (p : Path) : IO File :=
  try_call (OpenFile (mkOpenOptions true false false false false) p) (λ e, FsPath (OpenError e p)).

Definition read_inner (p : Path) (file : File) : IO Bytes :=
  _ ← try_call (FileMetadata file) (λ e, FsPath (OpenError e p));
  try_call (FileReadToEnd file) (λ e, FsPath (ReadError e p)).
Definition locked_read (p : Path) : IO Bytes :=
  file ← try_call (OpenFile (mkOpenOptions true false false false false) p) (λ e, FsPath (OpenError e p));
  _ ← try_call (FileLockShared file) (λ e, FsPath (LockError e p));
  contents ← read_inner p file;
  _ ← try_call (FileUnlock file) (λ e, FsPath (UnlockError e p));
  mret contents.
Definition locked_read_to_string (p : Path) : IO Bytes :=
  file ← try_call (OpenFile (mkOpenOptions true false false false false) p) (λ e, FsPath (OpenError e p));
  _ ← try_call (FileLockShared file) (λ e, FsPath (LockError e p));
  contents ← read_inner p file;
  _ ← try_call (FileUnlock file) (λ e, FsPath (UnlockError e p));
  io_result (if valid_utf8 contents then Ok contents else Err (FsPath (NotUtf8 p))).
Definition locked_write (p : Path) (contents : Bytes) : IO unit :=
  file ← try_call (OpenFile (mkOpenOptions false true false true true) p) (λ e, FsPath (OpenError e p));
  _ ← try_call (FileLock file) (λ e, FsPath (LockError e p));
  _ ← try_call (FileWriteAll file contents) (λ e, FsPath (WriteError e p));
  try_call (FileUnlock file) (λ e, FsPath (UnlockError e p)).
Definition locked_write_line (p : Path) (line : Bytes) : IO unit :=
  file ← try_call (OpenFile (mkOpenOptions false false true true false) p) (λ e, FsPath (OpenError e p));
  _ ← try_call (FileLock file) (λ e, FsPath (LockError e p));
  _ ← try_call (FileWriteAll file line) (λ e, FsPath (WriteError e p));
  _ ← try_call (FileWriteAll file [10]) (λ e, FsPath (WriteError e p));
  try_call (FileUnlock file) (λ e, FsPath (UnlockError e p)).

(** ** The cheatcodes *)
Record Cheats := mkCheats { config : CheatsConfig; fs_commit : bool }.
Implicit Types (st : Cheats).

Definition ensure_path st (p : Path) (kind : FsAccessKind) : IO Path := λ s,
  (s, [], map_err Denied (ensure_path_allowed (canonicalize (fs_world s)) (config st) p kind)).
Definition ensure_not_toml st (p : Path) : IO unit :=
  io_result (map_err Denied (ensure_not_foundry_toml lowercase (config st) p)).

(** [duration_since(UNIX_EPOCH)] of a time, its default for a time before the
    epoch, and the epoch for a time that is not available, in seconds. *)
Definition epoch_secs (time : option Z) : Z := Z.max 0 (default 0 time) / 10 ^ 9.
Definition fs_metadata (m : Metadata) : FsMetadata :=
  mkFsMetadata (m_is_dir m) (m_is_symlink m) (m_len m) (m_readonly m)
    (epoch_secs (m_modified m)) (epoch_secs (m_accessed m)) (epoch_secs (m_created m)).
Definition dir_entry (entry : result WalkError WalkEntry) : DirEntry :=
  match entry with
  | Ok e => mkDirEntry "" (w_path e) (w_depth e) (w_is_dir e) (w_path_is_symlink e)
  | Err e => mkDirEntry (we_message e) (default [] (we_path e)) (we_depth e) false false
  end.
(** The line without its newline. *)
Definition trim_newline (line : Bytes) : Bytes :=
  if bool_decide (last line = Some 10) then
    let line := removelast line in
    if bool_decide (last line = Some 13) then removelast line else line
  else line.

Definition write_file st (p : Path) (contents : Bytes) : IO FsValue :=
  p ← ensure_path st p Write;
  _ ← ensure_not_toml st p;
  _ ← (if fs_commit st then locked_write p contents else mret tt);
  mret VUnit.
Definition read_dir st (p : Path) (max_depth : Z) (follow_links : bool) : IO FsValue :=
  root ← ensure_path st p Read;
  paths ← call (Walk root (Z.min usize_max max_depth) follow_links);
  mret (VEntries (dir_entry <$> paths)).

Definition apply_exists st (p : Path) : IO FsValue :=
  p ← ensure_path st p Read; b ← call (PathExists p); mret (VBool b).
Definition apply_fsMetadata st (p : Path) : IO FsValue :=
  p ← ensure_path st p Read; m ← try_call (PathMetadata p) Io; mret (VMetadata (fs_metadata m)).
Definition apply_isDir st (p : Path) : IO FsValue :=
  p ← ensure_path st p Read; b ← call (PathIsDir p); mret (VBool b).
Definition apply_isFile st (p : Path) : IO FsValue :=
  p ← ensure_path st p Read; b ← call (PathIsFile p); mret (VBool b).
Definition apply_projectRoot st : IO FsValue := mret (VPath (root (config st))).
Definition apply_closeFile st (p : Path) : IO FsValue :=
  p ← ensure_path st p Read; _ ← opened_remove p; mret VUnit.
Definition apply_copyFile st (from to : Path) : IO FsValue :=
  from ← ensure_path st from Read;
  to ← ensure_path st to Write;
  _ ← ensure_not_toml st to;
  n ← fs_copy from to;
  mret (VUint n).
Definition apply_createDir st (p : Path) (recursive : bool) : IO FsValue :=
  p ← ensure_path st p Write;
  _ ← (if recursive then fs_create_dir_all p else fs_create_dir p);
  mret VUnit.
Definition apply_readFile st (p : Path) : IO FsValue :=
  p ← ensure_path st p Read; s ← locked_read_to_string p; mret (VBytes s).
Definition apply_readFileBinary st (p : Path) : IO FsValue :=
  p ← ensure_path st p Read; b ← locked_read p; mret (VBytes b).
Definition apply_readLine st (p : Path) : IO FsValue :=
  p ← ensure_path st p Read;
  entry ← opened_lookup p;
  reader ← match entry with
           | Some reader => mret reader
           | None => file ← fs_open p;
                     _ ← opened_insert p (buf_reader file);
                     mret (buf_reader file)
           end;
  res ← call (BufReadLine reader);
  _ ← opened_insert p res.1;
  line ← io_result (map_err Io res.2);
  mret (VBytes (trim_newline line)).
Definition apply_readLink st (p : Path) : IO FsValue :=
  p ← ensure_path st p Read; target ← fs_read_link p; mret (VPath target).
Definition apply_removeDir st (p : Path) (recursive : bool) : IO FsValue :=
  p ← ensure_path st p Write;
  _ ← (if recursive then fs_remove_dir_all p else fs_remove_dir p);
  mret VUnit.
Definition apply_removeFile st (p : Path) : IO FsValue :=
  p ← ensure_path st p Write;
  _ ← ensure_not_toml st p;
  _ ← opened_remove p;
  _ ← (if fs_commit st then fs_remove_file p else mret tt);
  mret VUnit.
Definition apply_writeLine st (p : Path) (line : Bytes) : IO FsValue :=
  p ← ensure_path st p Write;
  _ ← ensure_not_toml st p;
  _ ← (if fs_commit st then locked_write_line p line else mret tt);
  mret VUnit.

(** The calls of the group, and their dispatch. *)
Inductive FsCall : Type :=
| existsCall (p : Path) | fsMetadataCall (p : Path) | isDirCall (p : Path) | isFileCall (p : Path)
| projectRootCall | closeFileCall (p : Path) | copyFileCall (from to : Path)
| createDirCall (p : Path) (recursive : bool)
| readDir_0Call (p : Path) | readDir_1Call (p : Path) (maxDepth : Z)
| readDir_2Call (p : Path) (maxDepth : Z) (followLinks : bool)
| readFileCall (p : Path) | readFileBinaryCall (p : Path) | readLineCall (p : Path)
| readLinkCall (p : Path) | removeDirCall (p : Path) (recursive : bool) | removeFileCall (p : Path)
| writeFileCall (p : Path) (data : Bytes) | writeFileBinaryCall (p : Path) (data : Bytes)
| writeLineCall (p : Path) (data : Bytes).

Definition apply st (c : FsCall) : IO FsValue :=
  match c with
  | existsCall p => apply_exists st p
  | fsMetadataCall p => apply_fsMetadata st p
  | isDirCall p => apply_isDir st p
  | isFileCall p => apply_isFile st p
  | projectRootCall => apply_projectRoot st
  | closeFileCall p => apply_closeFile st p
  | copyFileCall from to => apply_copyFile st from to
  | createDirCall p recursive => apply_createDir st p recursive
  | readDir_0Call p => read_dir st p 1 false
  | readDir_1Call p maxDepth => read_dir st p maxDepth false
  | readDir_2Call p maxDepth followLinks => read_dir st p maxDepth followLinks
  | readFileCall p => apply_readFile st p
  | readFileBinaryCall p => apply_readFileBinary st p
  | readLineCall p => apply_readLine st p
  | readLinkCall p => apply_readLink st p
  | removeDirCall p recursive => apply_removeDir st p recursive
  | removeFileCall p => apply_removeFile st p
  | writeFileCall p data => write_file st p data
  | writeFileBinaryCall p data => write_file st p data
  | writeLineCall p data => apply_writeLine st p data
  end.

(** ** What a call is made for *)
(** The paths that a call names, and whether it reads or writes there.  These
    are its arguments only: what [Walk], [FsRemoveDirAll] and [FsCreateDirAll]
    reach below or above them is [reaches_further]. *)
Definition path_arguments {A} (op : SysOp A) : list (FsAccessKind * Path) :=
  match op with
  | PathExists p | PathIsDir p | PathIsFile p | PathMetadata p | FsReadLink p | Walk p _ _ => [(Read, p)]
  | FsCopy from to => [(Read, from); (Write, to)]
  | FsCreateDir p | FsCreateDirAll p | FsRemoveDir p | FsRemoveDirAll p | FsRemoveFile p => [(Write, p)]
  | OpenFile options p =>
      (if o_read options then [(Read, p)] else []) ++
      (if o_write options || o_append options then [(Write, p)] else [])
  | _ => []
  end.
(** The calls that go on to paths they do not name. *)
Definition reaches_further {A} (op : SysOp A) : bool :=
  match op with Walk _ _ _ | FsRemoveDirAll _ | FsCreateDirAll _ => true | _ => false end.
(** The file that a call creates, changes or removes (not a directory). *)
Definition changes_file {A} (op : SysOp A) : option Path :=
  match op with
  | FsCopy _ p | FsRemoveFile p => Some p
  | OpenFile options p => if o_write options || o_append options then Some p else None
  | _ => None
  end.
Definition changes_dir {A} (op : SysOp A) : option Path :=
  match op with
  | FsCreateDir p | FsCreateDirAll p | FsRemoveDir p | FsRemoveDirAll p => Some p
  | _ => None
  end.
End programs.

(** ** Rules for programs *)
Section rules.
Context {T : OsTypes} {O : Os} (I : Event → Prop).

(** From a world with [Pre], every call of [m] satisfies [I], and a result
    has [Post] in the world it leaves. *)
Definition holds {A} (Pre : World → Prop) (m : IO A) (Post : A → World → Prop) : Prop :=
  ∀ s, Pre (fs_world s) → let '(s', log, r) := m s in
    Forall I log ∧ match r with Ok a => Post a (fs_world s') | Err _ => True end.

Lemma holds_bind {A B} Pre (Mid : A → World → Prop) Post (m : IO A) (f : A → IO B) :
  holds Pre m Mid → (∀ a, holds (Mid a) (f a) Post) → holds Pre (m ≫= f) Post.
Proof.
  intros Hm Hf s Hs. specialize (Hm s Hs). unfold mbind, io_bind.
  destruct (m s) as [[s' log] [a|e]]; [|done]. destruct Hm as [Hl Ha].
  specialize (Hf a s' Ha). destruct (f a s') as [[s'' log'] r]. destruct Hf.
  split; [by apply Forall_app|done].
Qed.
Lemma holds_ret {A} Pre (a : A) : holds Pre (mret a) (λ _, Pre).
Proof. intros s Hs. by split. Qed.
Lemma holds_result {A} (Pre : World → Prop) (r : result CheatError A) :
  holds Pre (io_result r) (λ a w, r = Ok a ∧ Pre w).
Proof. intros s Hs. split; [done|]. by destruct r. Qed.
Lemma holds_call {A} (Pre : World → Prop) (op : SysOp A) :
  (∀ w, Pre w → I (w, existT A op)) → holds Pre (call op) (λ _ _, True).
Proof.
  intros Hop s Hs. unfold call. destruct (perform op (fs_world s)).
  split; [|done]. constructor; [by apply Hop|done].
Qed.
Lemma holds_weaken {A} (Pre Pre' : World → Prop) (Post Post' : A → World → Prop) m :
  holds Pre m Post → (∀ w, Pre' w → Pre w) → (∀ a w, Post a w → Post' a w) → holds Pre' m Post'.
Proof.
  intros Hm H1 H2 s Hs. specialize (Hm s (H1 _ Hs)). destruct (m s) as [[s' log] [a|e]]; naive_solver.
Qed.
Lemma holds_post {A} (Pre : World → Prop) (Post : A → World → Prop) m :
  holds Pre m Post → holds Pre m (λ _ _, True).
Proof. intros Hm. by eapply holds_weaken. Qed.
Lemma holds_try {A} (Pre : World → Prop) (op : SysOp (result IoError A)) f :
  (∀ w, Pre w → I (w, existT _ op)) → holds Pre (try_call op f) (λ _ _, True).
Proof.
  intros Hop. eapply holds_bind; [by apply holds_call|]. intros r. eapply holds_post, holds_result.
Qed.
Lemma holds_lookup (Pre : World → Prop) p : holds Pre (opened_lookup p) (λ _, Pre).
Proof. by split. Qed.
Lemma holds_insert (Pre : World → Prop) p r : holds Pre (opened_insert p r) (λ _, Pre).
Proof. by split. Qed.
Lemma holds_remove (Pre : World → Prop) p : holds Pre (opened_remove p) (λ _, Pre).
Proof. by split. Qed.
Lemma holds_ensure (Pre : World → Prop) st p k :
  holds Pre (ensure_path st p k) (λ q w, Pre w ∧
    is_path_allowed (canonicalize w) (fs_permissions (config st)) q k = true).
Proof.
  intros s Hs. unfold ensure_path. split; [done|].
  destruct (ensure_path_allowed _ _ _ _) eqn:H; [|done]. cbn. by apply ensure_path_allowed_Ok in H as [-> ?].
Qed.
Lemma holds_toml (Pre : World → Prop) st p :
  holds Pre (ensure_not_toml st p) (λ _ w, Pre w ∧ is_foundry_toml lowercase (config st) p = false).
Proof.
  intros s Hs. unfold ensure_not_toml, ensure_not_foundry_toml. split; [done|].
  by destruct (is_foundry_toml _ _ _).
Qed.
End rules.

(** Steps through a program; what is left are the calls that touch paths. *)
Ltac fs_step :=
  lazymatch goal with
  | |- holds _ _ (mbind _ (match _ with _ => _ end)) _ =>
      apply (holds_bind _ _ (λ _ _, True)); [|intros ?]
  | |- holds _ _ (mbind _ _) _ => eapply holds_bind; [|intros ?]
  | |- holds _ _ (mret _) _ => apply holds_ret || (eapply holds_post, holds_ret)
  | |- holds _ _ (call _) _ => apply holds_call
  | |- holds _ _ (try_call _ _) _ => apply holds_try
  | |- holds _ _ (io_result _) _ => apply holds_result || (eapply holds_post, holds_result)
  | |- holds _ _ (ensure_path _ _ _) _ => apply holds_ensure
  | |- holds _ _ (ensure_not_toml _ _) _ => apply holds_toml
  | |- holds _ _ (opened_lookup _) _ => apply holds_lookup
  | |- holds _ _ (opened_insert _ _) _ => apply holds_insert || (eapply holds_post, holds_insert)
  | |- holds _ _ (opened_remove _) _ => apply holds_remove || (eapply holds_post, holds_remove)
  | |- holds _ _ (match ?o with Some _ => _ | None => _ end) _ => destruct o
  | |- holds _ _ (if ?b then _ else _) _ => destruct b eqn:?
  end.
Ltac fs_steps :=
  unfold apply_exists, apply_fsMetadata, apply_isDir, apply_isFile, apply_projectRoot, apply_closeFile,
    apply_copyFile, apply_createDir, apply_readFile, apply_readFileBinary, apply_readLine, apply_readLink,
    apply_removeDir, apply_removeFile, apply_writeLine, write_file, read_dir, locked_read,
    locked_read_to_string, locked_write, locked_write_line, read_inner, fs_open, fs_copy, fs_create_dir,
    fs_create_dir_all, fs_remove_dir, fs_remove_dir_all, fs_remove_file, fs_read_link;
  repeat fs_step.

Section properties.
Context {T : OsTypes} {O : Os}.
Implicit Types (st : Cheats) (c : FsCall).

(** A call of a cheatcode only names paths that are allowed in the world it is
    made in, and never names [foundry.toml] to change it as a file. *)
Definition permitted st (e : Event) : Prop :=
  let '(w, existT A op) := e in
  Forall (λ '(k, p), is_path_allowed (canonicalize w) (fs_permissions (config st)) p k = true) (path_arguments op) ∧
  (∀ p, changes_file op = Some p → is_foundry_toml lowercase (config st) p = false).
Definition changes_nothing (e : Event) : Prop :=
  let '(_, existT A op) := e in changes_file op = None ∧ changes_dir op = None.
(** The cheatcodes that go through a tree of directories. *)
Definition recursive_call c : Prop :=
  match c with
  | createDirCall _ recursive | removeDirCall _ recursive => recursive = true
  | readDir_0Call _ | readDir_1Call _ _ | readDir_2Call _ _ _ => True
  | _ => False
  end.
Definition stays (e : Event) : Prop := let '(_, existT A op) := e in reaches_further op = false.
(** The cheatcodes that honour [fs_commit]. *)
Definition commits c : Prop :=
  match c with copyFileCall _ _ | createDirCall _ _ | removeDirCall _ _ => False | _ => True end.

Lemma calls_permitted st c : holds (permitted st) (λ _, True) (apply st c) (λ _ _, True).
Proof.
  destruct c; cbn [apply]; fs_steps; intros w; cbn; intros; destruct_and?.
  all: split; [by repeat constructor|naive_solver].
Qed.
Lemma uncommitted_calls_change_nothing st c :
  fs_commit st = false → commits c → holds changes_nothing (λ _, True) (apply st c) (λ _ _, True).
Proof.
  intros Hst Hc. destruct c; try done; cbn [apply]; fs_steps; try congruence; by intros w.
Qed.

Lemma calls_stay st c : ¬ recursive_call c → holds stays (λ _, True) (apply st c) (λ _ _, True).
Proof.
  intros Hc. destruct c; try (by destruct Hc); cbn [apply]; fs_steps; first [by intros w|by destruct Hc].
Qed.
(** The path that a call checks first, and for what. *)
Definition first_access c : option (Path * FsAccessKind) :=
  match c with
  | projectRootCall => None
  | existsCall p | fsMetadataCall p | isDirCall p | isFileCall p | closeFileCall p | copyFileCall p _
  | readDir_0Call p | readDir_1Call p _ | readDir_2Call p _ _ | readFileCall p | readFileBinaryCall p
  | readLineCall p | readLinkCall p => Some (p, Read)
  | createDirCall p _ | removeDirCall p _ | removeFileCall p | writeFileCall p _ | writeFileBinaryCall p _
  | writeLineCall p _ => Some (p, Write)
  end.

Lemma denied_bind {A} st s p k (f : Path → IO A) :
  config_is_path_allowed (canonicalize (fs_world s)) (config st) p k = false →
  ∃ shown, (ensure_path st p k ≫= f) s = (s, [], Err (Denied (NotAllowed shown k))).
Proof.
  unfold config_is_path_allowed. intros Hno. eexists.
  unfold mbind, io_bind, ensure_path, ensure_path_allowed. rewrite Hno. reflexivity.
Qed.

(** C34: every path that a file system cheatcode passes to the system is one
    that the permissions allow for what the call is made for, in the world it
    is made in, and no call names [foundry.toml] to change it as a file; only
    [readDir] and the recursive forms of [createDir] and [removeDir] make calls
    that go on to paths that are not checked, below, above or behind links;
    without [fs_commit] the cheatcodes that honour it change nothing; and one
    whose path is not allowed makes no call and changes no state, but fails
    with an error that says so.  Paths are checked as they are written: that a
    path may be a link to another place is not part of this. *)
Theorem fs_calls_permitted st c s :
  Forall (permitted st) (apply st c s).1.2 ∧
  (¬ recursive_call c → Forall stays (apply st c s).1.2) ∧
  (fs_commit st = false → commits c → Forall changes_nothing (apply st c s).1.2) ∧
  (∀ p k, first_access c = Some (p, k) →
    config_is_path_allowed (canonicalize (fs_world s)) (config st) p k = false →
    ∃ shown, apply st c s = (s, [], Err (Denied (NotAllowed shown k)))).
Proof.
  split_and!.
  - pose proof (calls_permitted st c s I) as H. destruct (apply st c s) as [[]]. apply H.
  - intros Hc. pose proof (calls_stay st c Hc s I) as H. destruct (apply st c s) as [[]]. apply H.
  - intros Hst Hc. pose proof (uncommitted_calls_change_nothing st c Hst Hc s I) as H.
    destruct (apply st c s) as [[]]. apply H.
  - intros p k Hf Hno. destruct c; try done; injection Hf as <- <-; by apply denied_bind.
Qed.

(** [readDir] lists whatever the walk yields: where it follows links, what is
    behind a link is listed without being checked. *)
Lemma read_dir_lists_walk st p max_depth follow_links s q :
  ensure_path_allowed (canonicalize (fs_world s)) (config st) p Read = Ok q →
  (apply st (readDir_2Call p max_depth follow_links) s).2
  = Ok (VEntries (dir_entry <$> (perform (Walk q (Z.min usize_max max_depth) follow_links) (fs_world s)).2)).
Proof.
  intros Hq. cbn [apply]. unfold read_dir, mbind, io_bind, ensure_path, call. rewrite Hq. cbn [map_err].
  by destruct (perform (Walk q _ _) (fs_world s)).
Qed.
End properties.

(** ** A small file system, for evaluation

    Its world is the list of the files and directories that were made; the
    calls that do not look at it answer as for an empty file. *)
#[export] Instance small_os_types : OsTypes :=
  {| World := list Path; File := Path; Reader := Path; IoError := unit |}.
Definition small_perform {A} (op : SysOp A) (w : list Path) : list Path * A :=
  match op in SysOp A return list Path * A with
  | PathExists p => (w, bool_decide (p ∈ w))
  | PathIsDir p => (w, bool_decide (p ∉ w))
  | PathIsFile p => (w, bool_decide (p ∈ w))
  | PathMetadata _ => (w, Err tt)
  | FsCopy _ to => (w ++ [to], Ok 0)
  | FsCreateDir _ => (w, Ok tt)
  | FsCreateDirAll p => (w ++ map (λ n, take n p) (seq 2 (pred (List.length p))), Ok tt)
  | FsRemoveDir _ => (w, Err tt)
  | FsRemoveDirAll p => (filter (λ q, starts_with q p = false) w, Ok tt)
  | FsRemoveFile p => (filter (λ q, q ≠ p) w, Ok tt)
  | FsReadLink p => (w, Ok p)
  | OpenFile o p => (if o_create o then w ++ [p] else w, Ok p)
  | FileLockShared _ => (w, Ok tt)
  | FileLock _ => (w, Ok tt)
  | FileUnlock _ => (w, Ok tt)
  | FileMetadata _ => (w, Err tt)
  | FileReadToEnd _ => (w, Ok [])
  | FileWriteAll _ _ => (w, Ok tt)
  | BufReadLine r => (w, (r, Ok []))
  | Walk _ _ _ => (w, [])
  end.
#[export] Instance small_os : Os := {|
  canonicalize _ _ := None; lowercase := id; buf_reader := id; perform := @small_perform |}.

Definition project : Path := [RootDir; Normal "project"].
Definition project_cheats : Cheats :=
  mkCheats (cheats_config_new project [mkPathPermission PermReadWrite [CurDir]]) true.
Definition toml_file : Path := project ++ [Normal "foundry.toml"].

(** Files outside the project and [foundry.toml] cannot be written. *)
Example write_outside :
  apply project_cheats (writeFileCall [ParentDir; Normal "x"] [1]) (mkFsState [toml_file] ∅) =
    (mkFsState [toml_file] ∅, [], Err (Denied (NotAllowed [ParentDir; Normal "x"] Write))).
Proof. by vm_compute. Qed.
Example write_foundry_toml :
  (apply project_cheats (writeFileCall [Normal "foundry.toml"] [1]) (mkFsState [toml_file] ∅)).2 =
    Err (Denied FoundryToml).
Proof. by vm_compute. Qed.

(** Removing the project's directory is not checked for [foundry.toml]: the
    file that [removeFile] refuses to remove is gone. *)
Lemma remove_dir_removes_foundry_toml :
  (apply project_cheats (removeFileCall [Normal "foundry.toml"]) (mkFsState [toml_file] ∅)).2 =
    Err (Denied FoundryToml) ∧
  fs_world (apply project_cheats (removeDirCall [CurDir] true) (mkFsState [toml_file] ∅)).1.1 = [].
Proof. by vm_compute. Qed.
(** A call that is not to commit its changes creates directories and copies
    files all the same. *)
Lemma copy_ignores_fs_commit :
  let st := mkCheats (config project_cheats) false in
  fs_world (apply st (copyFileCall [Normal "a"] [Normal "b"]) (mkFsState [project ++ [Normal "a"]] ∅)).1.1 =
    [project ++ [Normal "a"]; project ++ [Normal "b"]].
Proof. by vm_compute. Qed.

(** The recursive cheatcodes check the path they are given and not what they
    go on to: a directory that a longer permission makes read-only is removed
    with the one around it, and directories are made above the allowed one
    where none may be written. *)
Definition keep_cheats : Cheats :=
  mkCheats (cheats_config_new project
    [mkPathPermission PermReadWrite [CurDir]; mkPathPermission PermRead [CurDir; Normal "keep"]]) true.
Definition kept_file : Path := project ++ [Normal "keep"; Normal "a"].
Lemma remove_dir_passes_longer_permission :
  (apply keep_cheats (removeFileCall kept_file) (mkFsState [kept_file] ∅)).2 =
    Err (Denied (NotAllowed [Normal "keep"; Normal "a"] Write)) ∧
  fs_world (apply keep_cheats (removeDirCall [CurDir] true) (mkFsState [kept_file] ∅)).1.1 = [].
Proof. by vm_compute. Qed.
Definition deep_cheats : Cheats :=
  mkCheats (cheats_config_new project [mkPathPermission PermReadWrite [CurDir; Normal "a"; Normal "b"]]) true.
Lemma create_dir_makes_parents :
  (apply deep_cheats (createDirCall [Normal "a"] false) (mkFsState [project] ∅)).2 =
    Err (Denied (NotAllowed [Normal "a"] Write)) ∧
  fs_world (apply deep_cheats (createDirCall [Normal "a"; Normal "b"] true) (mkFsState [project] ∅)).1.1 =
    [project; project; project ++ [Normal "a"]; project ++ [Normal "a"; Normal "b"]].
Proof. by vm_compute. Qed.

Definition empty_project : FsState := mkFsState ([] : list Path) ∅.
Definition one_file : FsState := mkFsState [project ++ [Normal "a"]] ∅.
(** Without [fs_commit], [removeFile] makes no call at all, and for a path
    outside the project it fails. *)
Lemma fs_calls_permitted_witness :
  let st := mkCheats (config project_cheats) false in
  Forall changes_nothing (apply st (removeFileCall [Normal "a"]) one_file).1.2 ∧
  Forall stays (apply project_cheats (copyFileCall [Normal "a"] [Normal "b"]) empty_project).1.2 ∧
  ∃ shown, apply st (removeFileCall [ParentDir; Normal "x"]) empty_project =
    (empty_project, [], Err (Denied (NotAllowed shown Write))).
Proof.
  intros st. split_and!.
  - exact (proj1 (proj2 (proj2 (fs_calls_permitted st (removeFileCall [Normal "a"])
      one_file))) eq_refl I).
  - exact (proj1 (proj2 (fs_calls_permitted project_cheats (copyFileCall [Normal "a"] [Normal "b"])
      empty_project)) id).
  - destruct (fs_calls_permitted st (removeFileCall [ParentDir; Normal "x"]) empty_project) as (_ & _ & _ & Hno).
    by apply (Hno [ParentDir; Normal "x"] Write).
Defined.
