(* ===== verification/InlineConfig.v ===== *)
(** * Inline configuration: common/src/comments/inline_config.rs

    The comments that disable the formatter or a lint for a part of a source
    file: their syntax, the ranges they disable, and the question whether a
    span is disabled.  The source map and the search for the next item of the
    syntax tree are the compiler's ([SourceMap]); a string is the list of its
    characters' code points, a file the list of its bytes. *)
From stdpp Require Import base list gmap strings.
From Stdlib Require Import ZArith Lia Ascii.
From S2P Require Import Prelude Containers.
#[local] Open Scope Z_scope.

(** ** Strings of the standard library *)
Definition chars : Type := list Z.
Definition str (s : string) : chars := (λ a, Z.of_N (N_of_ascii a)) <$> String.list_ascii_of_string s.

(** [char::is_whitespace] *)
Definition is_whitespace (c : Z) : bool :=
  bool_decide (9 ≤ c ≤ 13) || bool_decide (c = 32) || bool_decide (c = 133) || bool_decide (c = 160) ||
  bool_decide (c = 5760) || bool_decide (8192 ≤ c ≤ 8202) || bool_decide (c = 8232) ||
  bool_decide (c = 8233) || bool_decide (c = 8239) || bool_decide (c = 8287) || bool_decide (c = 12288).
Fixpoint trim_start (s : chars) : chars :=
  match s with
  | c :: s' => if is_whitespace c then trim_start s' else s
  | [] => []
  end.
Definition trim (s : chars) : chars := reverse (trim_start (reverse (trim_start s))).
(** [find(c)]: the index of the first [c]. *)
Fixpoint find_char (c : Z) (s : chars) : option nat :=
  match s with
  | [] => None
  | d :: s => if bool_decide (c = d) then Some 0%nat else S <$> find_char c s
  end.
Definition rfind_char (c : Z) (s : chars) : option nat :=
  (λ i, (length s - 1 - i)%nat) <$> find_char c (reverse s).
Definition split_once (c : Z) (s : chars) : option (chars * chars) :=
  (λ i, (take i s, drop (S i) s)) <$> find_char c s.
Fixpoint split (c : Z) (s : chars) : list chars :=
  match s with
  | [] => [[]]
  | d :: s =>
      if bool_decide (c = d) then [] :: split c s
      else match split c s with
           | part :: parts => (d :: part) :: parts
           | [] => [[d]]
           end
  end.

(** ** [InlineConfigItem] *)
Inductive InlineConfigItem (I : Type) : Type :=
| DisableNextItem (ids : I) | DisableLine (ids : I) | DisableNextLine (ids : I)
| DisableStart (ids : I) | DisableEnd (ids : I).
Arguments DisableNextItem {I}. Arguments DisableLine {I}. Arguments DisableNextLine {I}.
Arguments DisableStart {I}. Arguments DisableEnd {I}.
Definition ids_of {I} (item : InlineConfigItem I) : I :=
  match item with
  | DisableNextItem ids | DisableLine ids | DisableNextLine ids | DisableStart ids | DisableEnd ids => ids
  end.

Inductive InvalidInlineConfigItem : Type := Syntax (s : chars) | Ids (ids : list chars).

(** The last match of [parse] and [from_str]. *)
Definition item_of_name {I} (disable : chars) (ids : I) : result InvalidInlineConfigItem (InlineConfigItem I) :=
  if bool_decide (disable = str "disable-next-item") then Ok (DisableNextItem ids)
  else if bool_decide (disable = str "disable-line") then Ok (DisableLine ids)
  else if bool_decide (disable = str "disable-next-line") then Ok (DisableNextLine ids)
  else if bool_decide (disable = str "disable-start") then Ok (DisableStart ids)
  else if bool_decide (disable = str "disable-end") then Ok (DisableEnd ids)
  else Err (Syntax disable).
Definition parse_ids (s relevant : chars) : result InvalidInlineConfigItem (list chars) :=
  if bool_decide (relevant = []) || bool_decide (relevant = str "all)") then Ok [str "all"]
  else match split_once 41 relevant with
       | Some (id_str, _) => Ok (trim <$> split 44 id_str)
       | None => Err (Syntax s)
       end.
Definition invalid_ids (available_ids ids : list chars) : list chars :=
  filter (λ id, id ≠ str "all" ∧ id ∉ available_ids) ids.
Definition parse (s : chars) (available_ids : list chars)
    : result InvalidInlineConfigItem (InlineConfigItem (list chars)) :=
  let '(disable, relevant) := default (s, []) (split_once 40 s) in
  ids ← parse_ids s relevant;
  match invalid_ids available_ids ids with
  | [] => item_of_name disable ids
  | invalid => Err (Ids invalid)
  end.
Definition from_str (s : chars) : result InvalidInlineConfigItem (InlineConfigItem unit) :=
  item_of_name s tt.

(** [parse_inline_config] of lint/src/sol/mod.rs reads the item of a comment
    after its prefix; [trim] and the tag are applied to the first line. *)
Definition strip_prefix (prefix s : chars) : option chars :=
  if bool_decide (prefix `prefix_of` s) then Some (drop (length prefix) s) else None.
Definition strip_suffix (suffix s : chars) : option chars :=
  if bool_decide (suffix `suffix_of` s) then Some (take (length s - length suffix) s) else None.
Definition lint_item (prefix suffix : option chars) (line : chars) : option chars :=
  let item := match prefix with Some p => default line (strip_prefix p line) | None => line end in
  let item := match suffix with Some p => default item (strip_suffix p item) | None => item end in
  trim <$> strip_prefix (str "forge-lint:") (trim_start item).

Example parse_lints :
  parse (str "disable-end(lint1, lint2)") [str "lint1"; str "lint2"] =
    Ok (DisableEnd [str "lint1"; str "lint2"]) ∧
  parse (str "disable-line") [] = Ok (DisableLine [str "all"]) ∧
  parse (str "disable-line(unknown)") [str "lint1"] = Err (Ids [str "unknown"]) ∧
  parse (str "disable-line(lint1") [str "lint1"] = Err (Syntax (str "disable-line(lint1")).
Proof. by vm_compute. Qed.

(** ** [InlineConfig] *)
Record Span := mkSpan { sp_lo : Z; sp_hi : Z }.
Record DisabledRange := mkRange { lo : Z; hi : Z }.
Definition includes (r : DisabledRange) (span : Span) : bool :=
  bool_decide (lo r ≤ sp_lo span) && bool_decide (sp_hi span ≤ hi r).

(** The compiler's sources.  [span_to_source] gives the file of a span and
    the span's range in it; the order of spans is only used by an assertion
    of builds with [debug_assertions]. *)
Class SourceMap := {
  SourceFile : Type;
  span_to_source : Span → option (SourceFile * (Z * Z));
  file_src : SourceFile → chars;
  absolute_position : SourceFile → Z → Z;
  span_le : Span → Span → bool;
  DUMMY : Span;
  debug_assertions : bool;
}.

Section inline_config.
Context {M : SourceMap} {Id : Type} `{HashOrder Id}.
Context (find_next_item : Z → option Span).

Definition InlineConfig : Type := gmap Id (list DisabledRange).
(** An open block: its depth, start and fallback end. *)
#[local] Abbreviation Blocks := (gmap Id (nat * Z * Z)).
#[local] Abbreviation Config := (gmap Id (list DisabledRange)).
Implicit Types (cfg : Config) (blocks : Blocks) (span : Span) (id : Id).

Definition disable cfg id (range : DisabledRange) : Config :=
  <[id := default [] (cfg !! id) ++ [range]]> cfg.
Definition disable_many cfg (ids : list Id) (range : DisabledRange) : Config :=
  foldl (λ cfg id, disable cfg id range) cfg ids.

(** [&src[..to]] and [&src[from..]], which panic beyond the end. *)
Definition slice_to (src : chars) (to : Z) : option chars :=
  if bool_decide (0 ≤ to ≤ Z.of_nat (length src)) then Some (take (Z.to_nat to) src) else None.
Definition slice_from (src : chars) (from : Z) : option chars :=
  if bool_decide (0 ≤ from ≤ Z.of_nat (length src)) then Some (drop (Z.to_nat from) src) else None.
Definition newline_from (src : chars) (from : Z) : option (option Z) :=
  rest ← slice_from src from; Some ((λ i, from + Z.of_nat i) <$> find_char 10 rest).

Definition line_range (file : SourceFile) (comment_range : Z * Z) : option DisabledRange :=
  let src := file_src file in
  before ← slice_to src comment_range.1;
  let start := default 0 (Z.of_nat <$> rfind_char 10 before) in
  newline ← newline_from src comment_range.2;
  let end_ := default (Z.of_nat (length src)) newline in
  Some (mkRange (absolute_position file start) (absolute_position file end_)).
Definition next_line_range (file : SourceFile) (comment_range : Z * Z) : option (option DisabledRange) :=
  let src := file_src file in
  newline ← newline_from src comment_range.2;
  match newline with
  | None => Some None
  | Some newline =>
      let next_line := newline + 1 in
      if bool_decide (next_line < Z.of_nat (length src)) then
        newline ← newline_from src next_line;
        let end_ := default (Z.of_nat (length src)) newline in
        Some (Some (mkRange (absolute_position file comment_range.1) (absolute_position file end_)))
      else Some None
  end.

Definition start_block (start eof : Z) blocks id : Blocks :=
  match blocks !! id with
  | Some (depth, lo, hi) => <[id := (S depth, lo, hi)]> blocks
  | None => <[id := (1%nat, start, eof)]> blocks
  end.
Definition end_block (end_ : Z) (st : Config * Blocks) id : Config * Blocks :=
  let '(cfg, blocks) := st in
  match blocks !! id with
  | Some (depth, lo, hi) =>
      let depth := (depth - 1)%nat in
      if bool_decide (depth = 0%nat) then (disable cfg id (mkRange lo end_), delete id blocks)
      else (cfg, <[id := (depth, lo, hi)]> blocks)
  | None => (cfg, blocks)
  end.

Definition disable_item (st : Config * Blocks) span (item : InlineConfigItem (list Id))
    : option (Config * Blocks) :=
  let '(cfg, blocks) := st in
  '(file, comment_range) ← span_to_source span;
  match item with
  | DisableNextItem ids =>
      Some (match find_next_item (sp_hi span) with
            | Some next_item => disable_many cfg ids (mkRange (sp_lo next_item) (sp_hi next_item))
            | None => cfg
            end, blocks)
  | DisableLine ids =>
      range ← line_range file comment_range; Some (disable_many cfg ids range, blocks)
  | DisableNextLine ids =>
      range ← next_line_range file comment_range;
      Some (match range with Some range => disable_many cfg ids range | None => cfg end, blocks)
  | DisableStart ids =>
      let eof := absolute_position file (Z.of_nat (length (file_src file))) in
      Some (cfg, foldl (start_block (sp_lo span) eof) blocks ids)
  | DisableEnd ids => Some (foldl (end_block (sp_hi span)) (cfg, blocks) ids)
  end.

Definition build_step (st : Span * (Config * Blocks)) (it : Span * InlineConfigItem (list Id))
    : option (Span * (Config * Blocks)) :=
  let '(prev_sp, st) := st in
  let '(sp, item) := it in
  if debug_assertions && negb (span_le prev_sp sp) then None
  else st ← disable_item st sp item; Some (if debug_assertions then sp else prev_sp, st).
Definition close_block cfg (b : Id * (nat * Z * Z)) : Config :=
  disable cfg b.1 (mkRange b.2.1.2 b.2.2).
Definition build (items : list (Span * InlineConfigItem (list Id))) : option InlineConfig :=
  '(_, (cfg, blocks)) ← fold_m build_step (DUMMY, (∅, ∅)) items;
  Some (foldl close_block cfg (iter_map blocks)).

Definition is_id_disabled_inner cfg span id : bool :=
  match cfg !! id with
  | Some ranges => existsb (λ range, includes range span) ranges
  | None => false
  end.
Definition is_id_disabled (all : Id) cfg span id : bool :=
  is_id_disabled_inner cfg span id ||
  (negb (bool_decide (id = all)) && is_id_disabled_inner cfg span all).
End inline_config.

(** [is_disabled], for configurations without ids. *)
Definition is_disabled (cfg : gmap unit (list DisabledRange)) (span : Span) : bool :=
  match cfg !! tt with
  | Some ranges => existsb (λ range, includes range span) ranges
  | None => false
  end.

(** ** What comments mean, without the bookkeeping *)
Section specification.
Context {M : SourceMap} {Id : Type} `{HashOrder Id}.
Context (find_next_item : Z → option Span).
#[local] Abbreviation Item := (Span * InlineConfigItem (list Id))%type.
Implicit Types (cfg : gmap Id (list DisabledRange)) (blocks : gmap Id (nat * Z * Z)) (it : Item) (x : Id).

Definition occ x (ids : list Id) : nat := length (filter (λ id, id = x) ids).
(** How many blocks for [x] are open after the comments [l]. *)
Definition depth_step x (d : nat) it : nat :=
  match it.2 with
  | DisableStart ids => (d + occ x ids)%nat
  | DisableEnd ids => (d - occ x ids)%nat
  | _ => d
  end.
Definition depth x (l : list Item) : nat := foldl (depth_step x) 0%nat l.
(** The range of a comment for a line or an item. *)
Definition item_range it : option DisabledRange :=
  match it.2 with
  | DisableNextItem _ => (λ next, mkRange (sp_lo next) (sp_hi next)) <$> find_next_item (sp_hi it.1)
  | DisableLine _ => '(file, range) ← span_to_source it.1; line_range file range
  | DisableNextLine _ => '(file, range) ← span_to_source it.1; mjoin (next_line_range file range)
  | _ => None
  end.
Definition region x it (r : DisabledRange) : Prop := x ∈ ids_of it.2 ∧ item_range it = Some r.
(** The comment lies in the file that ends at [E]. *)
Definition located (E : Z) it : Prop :=
  sp_lo it.1 ≤ sp_hi it.1 ∧
  ∃ file a b, span_to_source it.1 = Some (file, (a, b)) ∧ 0 ≤ a ≤ b ∧
    b ≤ Z.of_nat (length (file_src file)) ∧
    absolute_position file (Z.of_nat (length (file_src file))) = E.
Fixpoint ordered (prev : Span) (l : list Item) : Prop :=
  match l with
  | [] => True
  | it :: l => (debug_assertions = true → span_le prev it.1 = true) ∧
               ordered (if debug_assertions then it.1 else prev) l
  end.

(** ** The steps, as seen by one id *)
Definition ranges cfg x : list DisabledRange := default [] (cfg !! x).

Lemma ranges_disable cfg id x r :
  ranges (disable cfg id r) x = if bool_decide (id = x) then ranges cfg x ++ [r] else ranges cfg x.
Proof.
  unfold ranges, disable. case_bool_decide as Hx; [subst; by rewrite lookup_insert_eq|].
  by rewrite lookup_insert_ne.
Qed.
Lemma ranges_disable_many cfg ids x r r' :
  r' ∈ ranges (disable_many cfg ids r) x ↔ r' ∈ ranges cfg x ∨ (x ∈ ids ∧ r' = r).
Proof.
  unfold disable_many. revert cfg. induction ids as [|id ids IH]; intros cfg; cbn.
  { split; [by left|]. intros [?|[[]%not_elem_of_nil _]]; done. }
  rewrite IH, ranges_disable, elem_of_cons.
  case_bool_decide as Hx; [rewrite elem_of_app, list_elem_of_singleton|]; naive_solver.
Qed.

Lemma occ_cons x id ids : occ x (id :: ids) = ((if bool_decide (id = x) then 1 else 0) + occ x ids)%nat.
Proof. unfold occ. rewrite filter_cons. case_decide; [rewrite bool_decide_true|rewrite bool_decide_false]; done. Qed.

Lemma start_blocks_spec start eof ids blocks x :
  foldl (start_block start eof) blocks ids !! x =
  match blocks !! x with
  | Some (d, l, h) => Some ((d + occ x ids)%nat, l, h)
  | None => if bool_decide (occ x ids = 0%nat) then None else Some (occ x ids, start, eof)
  end.
Proof.
  revert blocks. induction ids as [|id ids IH]; intros blocks; cbn [foldl].
  { unfold occ. cbn. destruct (blocks !! x) as [[[d l] h]|]; [by rewrite Nat.add_0_r|done]. }
  rewrite IH, occ_cons. unfold start_block. destruct (decide (id = x)) as [Hx|Hx].
  - rewrite (bool_decide_true (id = x)) by done. subst id. destruct (blocks !! x) as [[[d l] h]|] eqn:Hb; rewrite lookup_insert_eq.
    { do 3 f_equal. lia. }
    by rewrite bool_decide_false by lia.
  - rewrite (bool_decide_false (id = x)) by done.
    destruct (blocks !! id) as [[[d l] h]|] eqn:Hb; by rewrite lookup_insert_ne by done.
Qed.
Lemma end_blocks_spec end_ ids cfg blocks x :
  let st := foldl (end_block end_) (cfg, blocks) ids in
  match blocks !! x with
  | None => ranges st.1 x = ranges cfg x ∧ st.2 !! x = None
  | Some (d, l, h) =>
      (0 < d)%nat →
      if bool_decide (occ x ids < d)%nat
      then ranges st.1 x = ranges cfg x ∧ st.2 !! x = Some ((d - occ x ids)%nat, l, h)
      else ranges st.1 x = ranges cfg x ++ [mkRange l end_] ∧ st.2 !! x = None
  end.
Proof.
  cbn zeta. revert cfg blocks. induction ids as [|id ids IH]; intros cfg blocks.
  { unfold occ. cbn. destruct (blocks !! x) as [[[d l] h]|] eqn:Hb; [|done]. intros Hd.
    rewrite bool_decide_true by lia. by rewrite Nat.sub_0_r. }
  cbn [foldl]. rewrite occ_cons.
  destruct (end_block end_ (cfg, blocks) id) as [cfg' blocks'] eqn:He. specialize (IH cfg' blocks').
  unfold end_block in He. destruct (decide (id = x)) as [Hx|Hx].
  - rewrite (bool_decide_true (id = x)) by done. subst id. destruct (blocks !! x) as [[[d l] h]|] eqn:Hb.
    2: { injection He as <- <-. by rewrite Hb in IH. }
    intros Hd. case_bool_decide as Hz; injection He as <- <-.
    + rewrite lookup_delete_eq in IH. rewrite bool_decide_false by lia.
      destruct IH as [-> ->]. by rewrite ranges_disable, bool_decide_true.
    + rewrite lookup_insert_eq in IH. specialize (IH ltac:(lia)).
      case_bool_decide; [rewrite bool_decide_true by lia|rewrite bool_decide_false by lia; done].
      destruct IH as [-> ->]. split; [done|]. do 3 f_equal. lia.
  - rewrite (bool_decide_false (id = x)) by done.
    assert (blocks' !! x = blocks !! x ∧ ranges cfg' x = ranges cfg x) as [Hb Hr].
    { destruct (blocks !! id) as [[[d l] h]|]; [|by injection He as <- <-].
      case_bool_decide; injection He as <- <-.
      - by rewrite lookup_delete_ne, ranges_disable, bool_decide_false.
      - by rewrite lookup_insert_ne. }
    rewrite Hb, Hr in IH. exact IH.
Qed.
Lemma close_blocks_spec l cfg x r :
  r ∈ ranges (foldl close_block cfg l) x ↔
  r ∈ ranges cfg x ∨ ∃ b, (x, b) ∈ l ∧ r = mkRange b.1.2 b.2.
Proof.
  revert cfg. induction l as [|[id b] l IH]; intros cfg; cbn [foldl].
  { split; [by left|]. intros [?|(b & []%not_elem_of_nil & _)]; done. }
  rewrite IH. unfold close_block at 1. rewrite ranges_disable. cbn.
  setoid_rewrite elem_of_cons.
  case_bool_decide as Hx; [rewrite elem_of_app, list_elem_of_singleton|]; naive_solver.
Qed.

Lemma inner_disabled cfg span x :
  is_id_disabled_inner cfg span x = true ↔ ∃ r, r ∈ ranges cfg x ∧ includes r span = true.
Proof.
  unfold is_id_disabled_inner, ranges. destruct (cfg !! x) as [l|]; cbn.
  - rewrite existsb_exists. setoid_rewrite list_elem_of_In. done.
  - split; [done|]. by intros (r & []%not_elem_of_nil & _).
Qed.

Lemma newline_from_total src from :
  0 ≤ from ≤ Z.of_nat (length src) → ∃ n, newline_from src from = Some n ∧ ∀ i, n = Some i → from ≤ i.
Proof.
  intros Hf. unfold newline_from, slice_from. rewrite bool_decide_true by done. cbn [mbind option_bind].
  eexists. split; [done|]. intros i (j & _ & ->)%fmap_Some. lia.
Qed.
Lemma line_ranges_total file a b :
  0 ≤ a ≤ b → b ≤ Z.of_nat (length (file_src file)) →
  (∃ r, line_range file (a, b) = Some r) ∧ ∃ o, next_line_range file (a, b) = Some o.
Proof.
  intros Ha Hb. destruct (newline_from_total (file_src file) b) as (n & Hn & Hle); [lia|].
  unfold line_range, next_line_range, slice_to. cbn [fst snd]. rewrite Hn, bool_decide_true by lia.
  cbn [mbind option_bind]. split; [by eexists|]. destruct n as [n|]; [|by eexists].
  specialize (Hle n eq_refl). case_bool_decide as Hlt; [|by eexists].
  destruct (newline_from_total (file_src file) (n + 1)) as (n' & -> & _); [lia|]. by eexists.
Qed.

(** What a comment does, as far as [x] can tell. *)
Lemma disable_item_effect E x it cfg blocks :
  located E it →
  ∃ cfg' blocks', disable_item find_next_item (cfg, blocks) it.1 it.2 = Some (cfg', blocks') ∧
    match it.2 with
    | DisableStart ids => cfg' = cfg ∧ blocks' = foldl (start_block (sp_lo it.1) E) blocks ids
    | DisableEnd ids => (cfg', blocks') = foldl (end_block (sp_hi it.1)) (cfg, blocks) ids
    | _ => blocks' = blocks ∧ ∀ r, r ∈ ranges cfg' x ↔ r ∈ ranges cfg x ∨ region x it r
    end.
Proof.
  destruct it as [sp item]. intros (_ & file & a & b & Hsp & Ha & Hb & HE); cbn [fst snd] in *.
  destruct (line_ranges_total file a b Ha Hb) as [(r1 & Hr1) (r2 & Hr2)].
  assert (∀ ids (o : option DisabledRange), item_range (sp, item) = o → ids_of item = ids →
    ∀ r, r ∈ ranges (match o with Some range => disable_many cfg ids range | None => cfg end) x ↔
      r ∈ ranges cfg x ∨ region x (sp, item) r) as Hmany.
  { intros ids o Ho <- r. unfold region. rewrite Ho. cbn [snd].
    destruct o as [range|]; [rewrite ranges_disable_many|]; naive_solver. }
  unfold disable_item. rewrite Hsp. cbn [mbind option_bind].
  destruct item as [ids|ids|ids|ids|ids]; cbn [ids_of] in Hmany.
  - eexists _, _. split; [reflexivity|]. split; [done|].
    specialize (Hmany ids _ eq_refl eq_refl). unfold item_range in Hmany. cbn in Hmany.
    by destruct (find_next_item (sp_hi sp)).
  - rewrite Hr1. eexists _, _. split; [reflexivity|]. split; [done|].
    apply (Hmany ids (Some r1)); [|done]. unfold item_range. cbn [fst snd]. by rewrite Hsp.
  - rewrite Hr2. eexists _, _. split; [reflexivity|]. split; [done|].
    apply (Hmany ids r2); [|done]. unfold item_range. cbn [fst snd]. rewrite Hsp. cbn. by rewrite Hr2.
  - eexists _, _. rewrite HE. by split.
  - destruct (foldl _ _ ids) as [cfg' blocks'] eqn:Hf. exists cfg', blocks'. by split.
Qed.

Section around_span.
Context (E : Z) (x : Id) (span : Span).
Hypothesis Hspan : sp_lo span < sp_hi span ≤ E.

Definition hit (cfg : gmap Id (list DisabledRange)) : Prop :=
  ∃ r, r ∈ ranges cfg x ∧ includes r span = true.
Definition region_hit (l : list Item) : Prop :=
  ∃ it r, it ∈ l ∧ region x it r ∧ includes r span = true.
(** An open block starts before the span, and would be closed at the end of
    the file. *)
Definition open (blocks : gmap Id (nat * Z * Z)) : Prop :=
  ∃ d l, blocks !! x = Some (d, l, E) ∧ l ≤ sp_lo span.
Definition blocks_wf (blocks : gmap Id (nat * Z * Z)) : Prop :=
  ∀ d l h, blocks !! x = Some (d, l, h) → (0 < d)%nat ∧ h = E.

Lemma region_hit_snoc l it :
  region_hit (l ++ [it]) ↔ region_hit l ∨ ∃ r, region x it r ∧ includes r span = true.
Proof.
  unfold region_hit. setoid_rewrite elem_of_app. setoid_rewrite list_elem_of_singleton. naive_solver.
Qed.
Lemma block_region it r : (match it.2 with DisableStart _ | DisableEnd _ => True | _ => False end) →
  ¬ region x it r.
Proof. intros Hb [_ Hr]. unfold item_range in Hr. by destruct it as [? []]. Qed.
Lemma includes_block l h : includes (mkRange l h) span = true ↔ l ≤ sp_lo span ∧ sp_hi span ≤ h.
Proof. unfold includes. cbn. by rewrite andb_true_iff, !bool_decide_eq_true. Qed.

Lemma hit_snoc cfg cfg' r : ranges cfg' x = ranges cfg x ++ [r] → hit cfg' ↔ hit cfg ∨ includes r span = true.
Proof.
  unfold hit. intros ->. setoid_rewrite elem_of_app. setoid_rewrite list_elem_of_singleton. naive_solver.
Qed.
Lemma hit_same cfg cfg' : ranges cfg' x = ranges cfg x → hit cfg' ↔ hit cfg.
Proof. unfold hit. by intros ->. Qed.
Lemma hit_region cfg cfg' it :
  (∀ r, r ∈ ranges cfg' x ↔ r ∈ ranges cfg x ∨ region x it r) →
  hit cfg' ↔ hit cfg ∨ ∃ r, region x it r ∧ includes r span = true.
Proof. unfold hit. intros Heq. setoid_rewrite Heq. naive_solver. Qed.

(** The end of blocks adds their range when it closes the last one. *)
Lemma end_blocks_around end_ ids cfg blocks cfg' blocks' :
  blocks_wf blocks → (cfg', blocks') = foldl (end_block end_) (cfg, blocks) ids →
  match blocks !! x with
  | None => (hit cfg' ↔ hit cfg) ∧ blocks' !! x = None
  | Some (d, l, h) =>
      if bool_decide (occ x ids < d)%nat
      then (hit cfg' ↔ hit cfg) ∧ blocks' !! x = Some ((d - occ x ids)%nat, l, h)
      else (hit cfg' ↔ hit cfg ∨ l ≤ sp_lo span ∧ sp_hi span ≤ end_) ∧ blocks' !! x = None
  end.
Proof.
  intros Hwf Heq. pose proof (end_blocks_spec end_ ids cfg blocks x) as Hs. rewrite <- Heq in Hs. cbn in Hs.
  destruct (blocks !! x) as [[[d l] h]|] eqn:Hb.
  - destruct (Hwf _ _ _ Hb) as [Hd _]. specialize (Hs Hd).
    case_bool_decide; destruct Hs as [Hr ->]; (split; [|done]); [by apply hit_same|].
    by rewrite (hit_snoc _ _ _ Hr), includes_block.
  - destruct Hs as [Hr ->]. split; [by apply hit_same|done].
Qed.

(** The comments before the span. *)
Record before_inv (l : list Item) (st : gmap Id (list DisabledRange) * gmap Id (nat * Z * Z)) : Prop := {
  bi_hit : hit st.1 ↔ region_hit l;
  bi_depth : match st.2 !! x with
             | None => depth x l = 0%nat
             | Some (d, lo, h) => d = depth x l ∧ (0 < d)%nat ∧ lo ≤ sp_lo span ∧ h = E
             end;
}.
Lemma before_wf l st : before_inv l st → blocks_wf st.2.
Proof. intros [_ Hd] d lo h Hb. rewrite Hb in Hd. naive_solver. Qed.

Lemma depth_snoc l it : depth x (l ++ [it]) = depth_step x (depth x l) it.
Proof. unfold depth. by rewrite foldl_app. Qed.
Lemma before_step l it st :
  located E it → sp_hi it.1 ≤ sp_lo span → before_inv l st →
  ∃ st', disable_item find_next_item st it.1 it.2 = Some st' ∧ before_inv (l ++ [it]) st'.
Proof.
  destruct st as [cfg blocks]. intros Hl Hhi Hinv. pose proof (before_wf _ _ Hinv) as Hwf.
  destruct Hinv as [Hhit Hdepth]; cbn [fst snd] in *. pose proof Hl as [Hle _].
  destruct (disable_item_effect E x it cfg blocks Hl) as (cfg' & blocks' & Hd & Heff).
  exists (cfg', blocks'). split; [done|].
  pose proof (λ r Hb, block_region it r Hb) as Hno.
  split; cbn [fst snd]; [rewrite region_hit_snoc, <- Hhit|rewrite depth_snoc; unfold depth_step];
    destruct (it.2) eqn:Hit.
  1-3: by apply hit_region, Heff.
  3-5: by destruct Heff as [-> _].
  - destruct Heff as [-> _]. naive_solver.
  - pose proof (end_blocks_around _ _ _ _ _ _ Hwf Heff) as Hs.
    assert (¬ ∃ r, region x it r ∧ includes r span = true) as Hnr by naive_solver.
    destruct (blocks !! x) as [[[d lo] h]|]; [case_bool_decide|]; destruct Hs as [-> _]; [tauto| |tauto].
    assert (¬ sp_hi span ≤ sp_hi it.1) by lia. tauto.
  - destruct Heff as [_ ->]. rewrite start_blocks_spec.
    destruct (blocks !! x) as [[[d lo] h]|].
    + destruct Hdepth as (-> & ? & ? & ->). split_and!; [done|lia|lia|done].
    + rewrite Hdepth. case_bool_decide; [lia|]. split_and!; [lia|lia|lia|done].
  - pose proof (end_blocks_around _ _ _ _ _ _ Hwf Heff) as Hs.
    destruct (blocks !! x) as [[[d lo] h]|]; [|destruct Hs as [_ ->]; lia].
    destruct Hdepth as (-> & Hd0 & Hlo & ->).
    case_bool_decide; destruct Hs as [_ ->]; [split_and!; [done|lia|done|done]|lia].
Qed.

(** The comments after it: what is already decided stays so. *)
Record after_inv (D : nat) (l : list Item) (st : gmap Id (list DisabledRange) * gmap Id (nat * Z * Z)) : Prop := {
  ai_wf : blocks_wf st.2;
  ai_covered : hit st.1 ∨ open st.2 ↔ region_hit l ∨ (0 < D)%nat;
}.
Lemma before_after l st : before_inv l st → after_inv (depth x l) l st.
Proof.
  intros Hinv. split; [by eapply before_wf|]. destruct Hinv as [-> Hd]. unfold open.
  destruct (st.2 !! x) as [[[d lo] h]|].
  - destruct Hd as (-> & ? & ? & ->). split; intros [?|?]; [by left|by right|by left|right; eauto].
  - rewrite Hd. split; intros [?|?]; [by left|naive_solver|by left|lia].
Qed.
Lemma start_blocks_around start ids blocks :
  blocks_wf blocks → sp_lo span < start →
  let blocks' := foldl (start_block start E) blocks ids in
  blocks_wf blocks' ∧ (open blocks' ↔ open blocks).
Proof.
  intros Hwf Hs. cbn zeta. unfold blocks_wf, open. rewrite start_blocks_spec.
  destruct (blocks !! x) as [[[d lo] h]|] eqn:Hb.
  - destruct (Hwf _ _ _ Hb) as [Hd ->]. split; [intros ??? [= <- <- <-]; split; [lia|done]|]. naive_solver.
  - case_bool_decide as Hz; [by split|].
    split; [intros ??? [= <- <- <-]; split; [lia|done]|].
    split; [|naive_solver]. intros (d & lo & [= <- <-] & ?). lia.
Qed.
Lemma end_blocks_covered end_ ids cfg blocks cfg' blocks' :
  blocks_wf blocks → sp_hi span ≤ end_ → (cfg', blocks') = foldl (end_block end_) (cfg, blocks) ids →
  blocks_wf blocks' ∧ (hit cfg' ∨ open blocks' ↔ hit cfg ∨ open blocks).
Proof.
  intros Hwf Hend Heq. pose proof (end_blocks_around _ _ _ _ _ _ Hwf Heq) as Hs. unfold blocks_wf, open.
  destruct (blocks !! x) as [[[d lo] h]|] eqn:Hb; [destruct (Hwf _ _ _ Hb) as [Hd ->]; case_bool_decide|];
    destruct Hs as [-> ->].
  - split; [intros ??? [= <- <- <-]; split; [lia|done]|]. naive_solver.
  - split; [done|]. naive_solver.
  - by split.
Qed.
Lemma after_step D l it st :
  located E it → sp_hi span ≤ sp_lo it.1 → after_inv D l st →
  ∃ st', disable_item find_next_item st it.1 it.2 = Some st' ∧ after_inv D (l ++ [it]) st'.
Proof.
  destruct st as [cfg blocks]. intros Hl Hlo [Hwf Hcov]; cbn [fst snd] in *. pose proof Hl as [Hle _].
  destruct (disable_item_effect E x it cfg blocks Hl) as (cfg' & blocks' & Hd & Heff).
  exists (cfg', blocks'). split; [done|].
  pose proof (λ r Hb, block_region it r Hb) as Hno.
  assert (blocks_wf blocks' ∧ (hit cfg' ∨ open blocks' ↔
    (hit cfg ∨ open blocks) ∨ ∃ r, region x it r ∧ includes r span = true)) as [Hwf' Hcov'].
  2: { split; [done|]. rewrite region_hit_snoc. cbn [fst snd]. tauto. }
  destruct (it.2) eqn:Hit.
  1-3: by destruct Heff as [-> ->%hit_region]; split; [done|tauto].
  - destruct Heff as [-> ->]. destruct (start_blocks_around (sp_lo it.1) ids blocks) as [Hw Ho]; [done|lia|].
    split; [done|]. naive_solver.
  - destruct (end_blocks_covered (sp_hi it.1) ids cfg blocks cfg' blocks') as [Hw Ho]; [done|lia|done|].
    split; [done|]. naive_solver.
Qed.
End around_span.

(** The loop of [build], with the assertion that the comments are in order. *)
Lemma build_steps (Inv : list Item → gmap Id (list DisabledRange) * gmap Id (nat * Z * Z) → Prop)
    (l rest : list Item) :
  (∀ done it st, it ∈ l → Inv done st →
    ∃ st', disable_item find_next_item st it.1 it.2 = Some st' ∧ Inv (done ++ [it]) st') →
  ∀ done prev st, ordered prev (l ++ rest) → Inv done st →
  ∃ prev' st', fold_m (build_step find_next_item) (prev, st) l = Some (prev', st') ∧
    ordered prev' rest ∧ Inv (done ++ l) st'.
Proof.
  induction l as [|it l IH]; intros Hstep done prev st Hord Hinv.
  { exists prev, st. by rewrite app_nil_r. }
  destruct Hord as [Hle Hord]. destruct (Hstep done it st) as (st' & Hd & Hinv'); [by left|done|].
  destruct it as [sp item]. cbn [fold_m build_step fst snd] in *. rewrite Hd. cbn [mbind option_bind].
  assert (debug_assertions && negb (span_le prev sp) = false) as ->.
  { destruct debug_assertions; [|done]. by rewrite Hle. }
  destruct (IH (λ d i s' Hi, Hstep d i s' (list_elem_of_further _ _ _ Hi)) (done ++ [(sp, item)]) _ st' Hord Hinv')
    as (prev' & st'' & Hf & Ho & Hi).
  exists prev', st''. rewrite <- app_assoc in Hi. by rewrite Hf.
Qed.

Definition off (span : Span) (before after : list Item) x : Prop :=
  region_hit x span (before ++ after) ∨ (0 < depth x before)%nat.
Lemma build_disables E before after span x :
  sp_lo span < sp_hi span ≤ E →
  Forall (located E) (before ++ after) → ordered DUMMY (before ++ after) →
  Forall (λ it, sp_hi it.1 ≤ sp_lo span) before → Forall (λ it, sp_hi span ≤ sp_lo it.1) after →
  ∃ cfg, build find_next_item (before ++ after) = Some cfg ∧
    (is_id_disabled_inner cfg span x = true ↔ off span before after x).
Proof.
  intros Hspan Hloc Hord Hb Ha. apply Forall_app in Hloc as [Hlb Hla].
  rewrite Forall_forall in Hlb, Hla, Hb, Ha.
  destruct (build_steps (before_inv E x span) before after) with (done := @nil Item) (prev := DUMMY)
    (st := (∅, ∅) : gmap Id (list DisabledRange) * gmap Id (nat * Z * Z))
    as (prev & st1 & H1 & Ho & Hinv1); [|done| |].
  { intros done it st Hit. apply before_step; auto. }
  { split; [|cbn [snd]; by rewrite lookup_empty]. unfold hit, region_hit, ranges. cbn [fst snd]. rewrite lookup_empty. cbn.
    split; [intros (r & []%not_elem_of_nil & _)|intros (it & r & []%not_elem_of_nil & _)]. }
  destruct (build_steps (after_inv E x span (depth x before)) after []) with (done := before) (prev := prev)
    (st := st1) as (prev' & [cfg blocks] & H2 & _ & [Hwf Hcov]).
  { intros done it st Hit. apply after_step; auto. }
  { by rewrite app_nil_r. }
  { by apply before_after. }
  exists (foldl close_block cfg (iter_map blocks)). split.
  { unfold build. by rewrite fold_m_app, H1, H2. }
  rewrite inner_disabled. unfold off. cbn [fst snd] in *. rewrite <- Hcov. unfold hit, open.
  setoid_rewrite close_blocks_spec. setoid_rewrite elem_of_iter_map.
  split.
  - intros (r & [?|([[d l] h] & Hr & ->)] & Hi); [naive_solver|]. right. destruct (Hwf _ _ _ Hr) as [_ ->].
    cbn in Hi. apply includes_block in Hi. naive_solver.
  - intros [?|(d & l & Hr & ?)]; [naive_solver|]. exists (mkRange l E). split; [right; by exists (d, l, E)|].
    apply includes_block. lia.
Qed.

(** C35: reading the comments of a file, in order, succeeds, and a span
    between two of them is disabled for an id exactly when a comment for a
    line or an item covers it, or more blocks were started than ended for
    the id by the comments before it, counted down no further than zero; and
    the same for the id that stands for all. *)
Theorem disabled_by_open_blocks E before after span x all :
  sp_lo span < sp_hi span ≤ E →
  Forall (located E) (before ++ after) → ordered DUMMY (before ++ after) →
  Forall (λ it, sp_hi it.1 ≤ sp_lo span) before → Forall (λ it, sp_hi span ≤ sp_lo it.1) after →
  ∃ cfg, build find_next_item (before ++ after) = Some cfg ∧
    (is_id_disabled all cfg span x = true ↔ off span before after x ∨ off span before after all).
Proof.
  intros Hspan Hloc Hord Hb Ha.
  destruct (build_disables E before after span x) as (cfg & Hc & Hx); [done..|].
  destruct (build_disables E before after span all) as (cfg' & Hc' & Hall); [done..|].
  exists cfg. split; [done|]. assert (cfg' = cfg) as -> by congruence.
  unfold is_id_disabled. rewrite orb_true_iff, andb_true_iff, negb_true_iff, bool_decide_eq_false, Hx, Hall.
  destruct (decide (x = all)) as [->|]; tauto.
Qed.
End specification.

(** ** Parsing only accepts known ids *)
Lemma parse_ids_known s available item id :
  parse s available = Ok item → id ∈ ids_of item → id = str "all" ∨ id ∈ available.
Proof.
  unfold parse. destruct (default _ _) as [disable relevant].
  destruct (parse_ids s relevant) as [ids|]; [|done]. cbn [mbind result_bind].
  destruct (invalid_ids available ids) eqn:Hinv; [|done]. intros Hitem Hid.
  assert (ids_of item = ids) as Heq.
  { unfold item_of_name in Hitem. repeat (case_bool_decide; [by injection Hitem as <-|]). done. }
  rewrite Heq in Hid. destruct (decide (id = str "all")) as [|Hne]; [by left|right].
  destruct (decide (id ∈ available)) as [|Hna]; [done|].
  assert (id ∈ invalid_ids available ids) as Hbad by (by apply list_elem_of_filter).
  rewrite Hinv in Hbad. by apply not_elem_of_nil in Hbad.
Qed.

(** ** A small file, for evaluation

    Twenty characters from position 0, one line. *)
#[local] Instance small_sources : SourceMap := {|
  SourceFile := unit; span_to_source sp := Some (tt, (sp_lo sp, sp_hi sp));
  file_src _ := replicate 20 97; absolute_position _ p := p;
  span_le a b := bool_decide (sp_lo a ≤ sp_lo b); DUMMY := mkSpan 0 0; debug_assertions := true;
|}.
#[local] Instance small_ids : HashOrder Z := elements_order Z.
Definition nested_blocks : list (Span * InlineConfigItem (list Z)) :=
  [(mkSpan 1 2, DisableStart [7]); (mkSpan 3 4, DisableStart [7; 8]); (mkSpan 5 6, DisableEnd [7])].
Definition last_end : list (Span * InlineConfigItem (list Z)) := [(mkSpan 10 11, DisableEnd [7])].

Lemma disabled_by_open_blocks_witness :
  off (λ _, None) (mkSpan 7 9) nested_blocks last_end 7 ∧
  ∃ cfg, build (λ _, None) (nested_blocks ++ last_end) = Some cfg ∧
    (is_id_disabled 0 cfg (mkSpan 7 9) 7 = true ↔
      off (λ _, None) (mkSpan 7 9) nested_blocks last_end 7 ∨
      off (λ _, None) (mkSpan 7 9) nested_blocks last_end 0).
Proof.
  split; [right; vm_compute; lia|].
  apply (disabled_by_open_blocks (λ _, None) 20 nested_blocks last_end (mkSpan 7 9) 7 0).
  - cbn. lia.
  - repeat constructor; cbn; try lia; eexists tt, _, _; (split; [reflexivity|]); cbn; lia.
  - by repeat split.
  - repeat constructor; cbn; lia.
  - repeat constructor; cbn; lia.
Defined.
Example nested_block_disables :
  (λ cfg, (is_id_disabled 0 cfg (mkSpan 7 9) 7, is_id_disabled 0 cfg (mkSpan 12 13) 7,
           is_id_disabled 0 cfg (mkSpan 12 13) 8, is_id_disabled 0 cfg (mkSpan 2 3) 8))
    <$> build (λ _, None) (nested_blocks ++ last_end) = Some (true, false, true, false).
Proof. by vm_compute. Qed.
