(* ===== verification/Bytecode.v ===== *)
(** * Bytecode: evm/core/src/bytecode.rs and ic.rs

    The iterator over the instructions of a contract's code, and the maps
    between program counters (offsets of bytes) and instruction counters
    (indices of instructions), which source maps use.  A byte is a [Z]. *)
From stdpp Require Import base list gmap sorting.
From Stdlib Require Import ZArith Lia Sorted.
From S2P Require Import Prelude.
#[local] Open Scope Z_scope.

Definition u32_max : Z := 2 ^ 32 - 1.
Definition wrap_u32 (z : Z) : Z := z mod 2 ^ 32.
Lemma wrap_u32_small z : 0 ≤ z ≤ u32_max → wrap_u32 z = z.
Proof. intros. apply Z.mod_small. unfold u32_max in *. lia. Qed.

(** Opcodes of revm, by their numbers in the EVM's specification. *)
Definition PUSH0 : Z := 95.
Definition PUSH1 : Z := 96.
Definition PUSH32 : Z := 127.
Definition JUMPI : Z := 87.

(** ** [InstIter] *)
Record Inst := mkInst { opcode : Z; immediate : list Z }.

Definition imm_len (op : Z) : Z :=
  if bool_decide (PUSH1 ≤ op ≤ PUSH32) then op - PUSH0 else 0.

(** [InstIter::next]: the instruction and what is left of the slice. *)
Definition inst_next (iter : list Z) : option (Inst * list Z) :=
  match iter with
  | [] => None
  | op :: iter =>
      let len := Z.to_nat (imm_len op) in
      if bool_decide (len ≤ length iter)%nat
      then Some (mkInst op (take len iter), drop len iter)
      else Some (mkInst op [], [])
  end.
(** [InstIterWithPc::next]. *)
Definition inst_next_pc (st : list Z * nat) : option ((nat * Inst) * (list Z * nat)) :=
  let '(iter, pc) := st in
  match inst_next iter with
  | Some (inst, iter) => Some ((pc, inst), (iter, (pc + (1 + length (immediate inst)))%nat))
  | None => None
  end.
(** All that [InstIter::new(code).with_pc()] yields; an instruction takes at
    least one byte, so the length of the code is enough fuel. *)
Fixpoint insts_from (fuel : nat) (st : list Z * nat) : list (nat * Inst) :=
  match fuel with
  | O => []
  | S fuel =>
      match inst_next_pc st with
      | Some (item, st) => item :: insts_from fuel st
      | None => []
      end
  end.
Definition with_pc (code : list Z) : list (nat * Inst) := insts_from (length code) (code, 0%nat).

(** ** [PcIcMap] and [IcPcMap] *)
Definition make_map (pc_first : bool) (code : list Z) : option (gmap Z Z) :=
  if bool_decide (Z.of_nat (length code) ≤ u32_max) then
    Some (foldl (λ map '(ic, (pc, _)),
      let pc := wrap_u32 (Z.of_nat pc) in
      let ic := wrap_u32 (Z.of_nat ic) in
      if pc_first : bool then <[pc := ic]> map else <[ic := pc]> map)
      (∅ : gmap Z Z) (imap pair (with_pc code)))
  else None.
Definition PcIcMap : Type := gmap Z Z.
Definition pc_ic_new (code : list Z) : option PcIcMap := make_map true code.
Definition pc_ic_get (m : PcIcMap) (pc : Z) : option Z := (m : gmap Z Z) !! pc.
Definition IcPcMap : Type := gmap Z Z.
Definition ic_pc_new (code : list Z) : option IcPcMap := make_map false code.
Definition ic_pc_get (m : IcPcMap) (ic : Z) : option Z := (m : gmap Z Z) !! ic.

(** ** Where instructions start *)

(** The bytes that the instruction at [op] covers: all that is left, when
    its immediate data is cut off. *)
Definition inst_end (code : list Z) (pc : nat) (op : Z) : nat :=
  let next := (pc + 1 + Z.to_nat (imm_len op))%nat in
  if bool_decide (next ≤ length code)%nat then next else length code.
Inductive inst_start (code : list Z) : nat → Prop :=
| start_first : code ≠ [] → inst_start code 0
| start_next pc op :
    inst_start code pc → code !! pc = Some op → (inst_end code pc op < length code)%nat →
    inst_start code (inst_end code pc op).

Lemma inst_start_lt code pc : inst_start code pc → (pc < length code)%nat.
Proof. intros []; [destruct code; [done|cbn; lia]|done]. Qed.

(** ** The iterator yields exactly the starts, in order *)
Section iterator.
Context (code : list Z).

(** The iterator stands at [pc]. *)
Definition at_pc (st : list Z * nat) : Prop :=
  st.1 = drop st.2 code ∧ (st.2 < length code → inst_start code st.2)%nat ∨ st.1 = [].

Record inst_at (pc : nat) (inst : Inst) : Prop := {
  inst_opcode : code !! pc = Some (opcode inst);
  inst_begins : inst_start code pc;
  inst_data : immediate inst = take (Z.to_nat (imm_len (opcode inst))) (drop (S pc) code) ∧
                length (immediate inst) = Z.to_nat (imm_len (opcode inst)) ∨
              immediate inst = [] ∧ (length code < pc + 1 + Z.to_nat (imm_len (opcode inst)))%nat;
}.

Lemma inst_next_pc_spec st pc inst st' :
  at_pc st → inst_next_pc st = Some ((pc, inst), st') →
  pc = st.2 ∧ inst_at pc inst ∧ (pc < st'.2)%nat ∧ at_pc st' ∧ (length st'.1 < length st.1)%nat ∧
  (st'.1 ≠ [] → st'.2 = inst_end code pc (opcode inst)) ∧
  (st'.1 = [] → inst_end code pc (opcode inst) = length code).
Proof.
  destruct st as [iter p]. unfold inst_next_pc, inst_next. intros Hat.
  destruct iter as [|op iter]; [done|]. destruct Hat as [[Hd Hs]|Hd]; [|done]; cbn [fst snd] in *.
  assert (p < length code)%nat as Hp.
  { assert (length (drop p code) ≠ 0)%nat by (by rewrite <- Hd). rewrite length_drop in *. lia. }
  specialize (Hs Hp).
  assert (code !! p = Some op) as Hop.
  { rewrite <- (Nat.add_0_r p), <- lookup_drop, <- Hd. done. }
  assert (iter = drop (S p) code) as Hiter.
  { rewrite (drop_S _ op) in Hd by done. by injection Hd. }
  assert (length iter = length code - S p)%nat as Hlen by (by rewrite Hiter, length_drop).
  case_bool_decide as Hfit; intros [= <- <- <-]; cbn [fst snd opcode immediate].
  - rewrite length_take, length_drop, Nat.min_l by done.
    assert (inst_end code p op = p + S (Z.to_nat (imm_len op)))%nat as Hend.
    { unfold inst_end. rewrite bool_decide_true by lia. lia. }
    split_and!; [done| |lia| |cbn; lia| |].
    + split; cbn; [done|done|]. left. rewrite <- Hiter. split; [done|]. rewrite length_take. lia.
    + left. cbn. rewrite Hiter, drop_drop. split; [f_equal; lia|].
      rewrite <- Hend. intros ?. by apply start_next.
    + by rewrite Hend.
    + intros Hnil. apply (f_equal length) in Hnil. rewrite length_drop in Hnil. cbn in Hnil. lia.
  - assert (inst_end code p op = length code) as Hend.
    { unfold inst_end. by rewrite bool_decide_false by lia. }
    split_and!; [done| |lia|by right|cbn; lia|done|done].
    split; cbn; [done|done|]. right. split; [done|lia].
Qed.

Lemma inst_end_gt pc op : (pc < length code → pc < inst_end code pc op)%nat.
Proof. unfold inst_end. case_bool_decide; lia. Qed.

(** No instruction starts inside another one. *)
Lemma inst_start_disjoint a b op :
  inst_start code a → inst_start code b → code !! a = Some op → (a < b)%nat → (inst_end code a op ≤ b)%nat.
Proof.
  remember (a + b)%nat as n eqn:Hn. revert a b op Hn.
  induction n as [n IH] using lt_wf_ind. intros a b op -> Ha Hb Hop Hlt.
  inversion Hb as [Hne Hz|b' op' Hb' Hop' Hend Hz]; subst; [lia|].
  pose proof (inst_start_lt _ _ Hb') as Hl. pose proof (inst_end_gt b' op' Hl) as Hgt.
  destruct (decide (a = b')) as [->|Hne]; [by assert (op = op') as -> by congruence|].
  destruct (decide (a < b')%nat) as [Hab|Hab].
  - specialize (IH (a + b')%nat ltac:(lia) a b' op eq_refl Ha Hb' Hop Hab). lia.
  - specialize (IH (b' + a)%nat ltac:(lia) b' a op' eq_refl Hb' Ha Hop' ltac:(lia)). lia.
Qed.

Lemma insts_from_spec fuel st :
  at_pc st → (length st.1 ≤ fuel)%nat →
  Forall (λ it, inst_at it.1 it.2 ∧ st.2 ≤ it.1)%nat (insts_from fuel st) ∧
  StronglySorted lt (insts_from fuel st).*1 ∧
  (st.1 ≠ [] → ∀ pc, inst_start code pc → (st.2 ≤ pc)%nat → pc ∈ (insts_from fuel st).*1).
Proof.
  revert st. induction fuel as [|fuel IH]; intros st Hat Hf.
  { destruct st as [[|] ?]; cbn in *; [|lia]. split_and!; [constructor..|done]. }
  cbn [insts_from]. destruct (inst_next_pc st) as [[[pc inst] st']|] eqn:Hn.
  2: { destruct st as [iter p]. unfold inst_next_pc, inst_next in Hn. destruct iter; [|by repeat case_match].
       split_and!; [constructor..|done]. }
  destruct (inst_next_pc_spec st pc inst st' Hat Hn) as (-> & Hi & Hpc & Hat' & Hlen & He & Hl).
  destruct (IH st' Hat' ltac:(lia)) as (Hall & Hsort & Hcomplete). cbn [fmap list_fmap fst].
  rewrite Forall_forall in Hall. split_and!.
  - constructor; [by split|]. apply Forall_forall. intros it Hit. specialize (Hall it Hit).
    split; [apply Hall|]. destruct Hall. lia.
  - constructor; [done|]. apply Forall_forall. intros p (it & -> & Hit)%list_elem_of_fmap.
    destruct (Hall it Hit). lia.
  - intros _ p Hp Hle. rewrite elem_of_cons. destruct (decide (p = st.2)) as [|Hne]; [by left|right].
    destruct Hi as [Hop Hb _].
    pose proof (inst_start_disjoint _ _ _ Hb Hp Hop ltac:(lia)) as Hnext.
    destruct (decide (st'.1 = [])) as [Hnil|Hnil].
    + rewrite (Hl Hnil) in Hnext. apply inst_start_lt in Hp. lia.
    + apply Hcomplete; [done..|]. by rewrite (He Hnil).
Qed.

Lemma with_pc_spec :
  Forall (λ it, inst_at it.1 it.2) (with_pc code) ∧ StronglySorted lt (with_pc code).*1 ∧
  ∀ pc, pc ∈ (with_pc code).*1 ↔ inst_start code pc.
Proof.
  destruct (insts_from_spec (length code) (code, 0%nat)) as (Hall & Hsort & Hcomplete).
  { left. cbn. split; [done|]. intros Hl. apply start_first. by destruct code; cbn in Hl; [lia|]. }
  { cbn. done. }
  fold (with_pc code) in Hall, Hsort, Hcomplete. rewrite Forall_forall in Hall. split_and!.
  - apply Forall_forall. intros it Hit. by apply Hall.
  - done.
  - intros pc. split.
    + intros (it & -> & Hit)%list_elem_of_fmap. apply (Hall it Hit).
    + intros Hp. apply Hcomplete; [|done|cbn; lia]. cbn. intros Hn. apply inst_start_lt in Hp.
      rewrite Hn in Hp. cbn in Hp. lia.
Qed.
End iterator.

(** ** The maps *)
Lemma StronglySorted_lt_NoDup (l : list nat) : StronglySorted lt l → NoDup l.
Proof.
  induction 1 as [|x l Hs IH Hall]; constructor; [|done].
  rewrite Forall_forall in Hall. intros Hx. specialize (Hall x Hx). lia.
Qed.
Lemma with_pc_length code : (length (with_pc code) ≤ length code)%nat.
Proof.
  unfold with_pc. generalize (code, 0%nat). induction (length code) as [|n IH]; intros st; cbn; [lia|].
  destruct (inst_next_pc st) as [[]|]; cbn; [|lia]. specialize (IH p0). lia.
Qed.

Section maps.
Context (code : list Z).
Hypothesis Hlen : Z.of_nat (length code) ≤ u32_max.

Lemma make_map_lookup pc_first :
  ∃ m, make_map pc_first code = Some m ∧ ∀ pc ic, m !! (if pc_first : bool then pc else ic) =
    Some (if pc_first : bool then ic else pc) ↔
    ∃ i p inst, with_pc code !! i = Some (p, inst) ∧ pc = Z.of_nat p ∧ ic = Z.of_nat i.
Proof.
  unfold make_map. rewrite bool_decide_true by done. eexists. split; [done|].
  destruct (with_pc_spec code) as (Hall & Hsort & _). pose proof (with_pc_length code) as Hl.
  apply StronglySorted_lt_NoDup in Hsort.
  assert (Forall (λ it, Z.of_nat it.1 ≤ u32_max) (with_pc code)) as Hpcs.
  { eapply Forall_impl; [done|]. intros it [_ Hs _]. apply inst_start_lt in Hs. lia. }
  clear Hall. assert (Z.of_nat (length (with_pc code)) ≤ u32_max) as Hics by lia. clear Hl.
  induction (with_pc code) as [|[p inst] l IH] using rev_ind; intros pc ic.
  { cbn. rewrite lookup_empty. split; [by destruct pc_first|]. by intros (i & ? & ? & ? & _). }
  rewrite imap_app, foldl_app, length_app in *. cbn in *. rewrite Nat.add_0_r.
  rewrite fmap_app in Hsort. apply NoDup_app in Hsort as (Hnd & Hdis & _).
  apply Forall_app in Hpcs as [Hpcs Hp]. rewrite Forall_singleton in Hp; cbn in Hp.
  specialize (IH Hnd Hpcs ltac:(unfold u32_max in *; lia)). rewrite !wrap_u32_small by (unfold u32_max in *; lia).
  assert ((∃ i p' inst', (l ++ [(p, inst)]) !! i = Some (p', inst') ∧ pc = Z.of_nat p' ∧ ic = Z.of_nat i) ↔
    (pc = Z.of_nat p ∧ ic = Z.of_nat (length l)) ∨
    ∃ i p' inst', l !! i = Some (p', inst') ∧ pc = Z.of_nat p' ∧ ic = Z.of_nat i) as ->.
  { setoid_rewrite lookup_app_Some. setoid_rewrite list_lookup_singleton_Some. split.
    - intros (i & p' & inst' & [Hi|(? & Hi & [= <- <-])] & -> & ->); [right; by exists i, p', inst'|left].
      split; [done|]. f_equal. lia.
    - intros [[-> ->]|(i & p' & inst' & ? & -> & ->)]; [|exists i, p', inst'; split_and!; [by left|done|done]].
      exists (length l), p, inst. rewrite Nat.sub_diag. split_and!; [right; split_and!; done|done..]. }
  rewrite <- IH. destruct pc_first.
  - rewrite lookup_insert_Some. split; [intros [[<- <-]|[_ ?]]; auto|].
    intros [[-> ->]|Hpc]; [by left|]. right. split; [|done]. intros <-.
    apply IH in Hpc as (i & p' & inst' & Hi & Heq & _). apply Nat2Z.inj in Heq as <-.
    apply (Hdis p); [|by left]. apply list_elem_of_fmap. exists (p, inst'). split; [done|].
    by apply list_elem_of_lookup_2 in Hi.
  - rewrite lookup_insert_Some. split; [intros [[<- <-]|[_ ?]]; auto|].
    intros [[-> ->]|Hpc]; [by left|]. right. split; [|done]. intros <-.
    apply IH in Hpc as (i & p' & inst' & Hi & _ & Heq). apply Nat2Z.inj in Heq as <-.
    apply lookup_lt_Some in Hi. lia.
Qed.

(** For code whose offsets fit in 32 bits the two maps exist and are
    inverse to each other: the program counters of the one are exactly the
    offsets where instructions start, and its instruction counters count
    them upwards from zero. *)
Lemma pc_ic_maps_inverse :
  ∃ pcs ics, pc_ic_new code = Some pcs ∧ ic_pc_new code = Some ics ∧
    (∀ pc ic, pc_ic_get pcs pc = Some ic ↔ ic_pc_get ics ic = Some pc) ∧
    (∀ pc, (∃ ic, pc_ic_get pcs pc = Some ic) ↔ ∃ p, pc = Z.of_nat p ∧ inst_start code p) ∧
    (∀ pc ic pc' ic', pc_ic_get pcs pc = Some ic → pc_ic_get pcs pc' = Some ic' → pc < pc' ↔ ic < ic') ∧
    (∀ ic, (∃ pc, ic_pc_get ics ic = Some pc) ↔ 0 ≤ ic < Z.of_nat (length (with_pc code))).
Proof.
  destruct (make_map_lookup true) as (pcs & Hpcs & H1). destruct (make_map_lookup false) as (ics & Hics & H2).
  destruct (with_pc_spec code) as (_ & Hsort & Hstart). cbn iota in *.
  exists pcs, ics. unfold pc_ic_get, ic_pc_get. split_and!; [done|done|..].
  - intros pc ic. by rewrite H1, H2.
  - intros pc. setoid_rewrite H1. setoid_rewrite <- Hstart. setoid_rewrite list_elem_of_fmap. split.
    + intros (_ & i & p & inst & Hi & -> & _). exists p. split; [done|]. exists (p, inst). split; [done|].
      by apply list_elem_of_lookup_2 in Hi.
    + intros (p & -> & [p' inst] & -> & [i Hi]%list_elem_of_lookup). eauto 10.
  - assert (∀ i j p q inst inst', with_pc code !! i = Some (p, inst) → with_pc code !! j = Some (q, inst') →
      (i < j)%nat → (p < q)%nat) as Hlt.
    { intros i j p q inst inst' Hi Hj Hij.
      apply (StronglySorted_app_1_elem_of lt (take (S i) (with_pc code)).*1 (drop (S i) (with_pc code)).*1).
      - by rewrite <- fmap_app, take_drop.
      - apply list_elem_of_fmap. exists (p, inst). split; [done|].
        apply (list_elem_of_lookup_2 _ i). by rewrite lookup_take_lt by lia.
      - apply list_elem_of_fmap. exists (q, inst'). split; [done|].
        apply (list_elem_of_lookup_2 _ (j - S i)). rewrite lookup_drop, <- Hj. f_equal. lia. }
    intros pc ic pc' ic' (i & p & inst & Hi & -> & ->)%H1 (j & q & inst' & Hj & -> & ->)%H1.
    destruct (lt_eq_lt_dec i j) as [[Hij| ->]|Hij].
    + specialize (Hlt i j p q inst inst' Hi Hj Hij). lia.
    + assert (p = q) as -> by congruence. lia.
    + specialize (Hlt j i q p inst' inst Hj Hi Hij). lia.
  - intros ic. setoid_rewrite H2. split.
    + intros (_ & i & p & inst & Hi%lookup_lt_Some & _ & ->). lia.
    + intros Hic. destruct (lookup_lt_is_Some_2 (with_pc code) (Z.to_nat ic)) as [[p inst] Hi]; [lia|].
      exists (Z.of_nat p), (Z.to_nat ic), p, inst. split_and!; [done|done|lia].
Qed.
End maps.

(** [PUSH1 5 JUMPI PUSH2 1], cut off. *)
Definition small_code : list Z := [96; 5; 87; 97; 1].
Lemma pc_ic_maps_inverse_witness :
  Z.of_nat (length small_code) ≤ u32_max ∧
  ∃ pcs ics, pc_ic_new small_code = Some pcs ∧ ic_pc_new small_code = Some ics ∧
    (∀ pc ic, pc_ic_get pcs pc = Some ic ↔ ic_pc_get ics ic = Some pc).
Proof.
  assert (Z.of_nat (length small_code) ≤ u32_max) as Hl by by vm_compute.
  split; [exact Hl|].
  destruct (pc_ic_maps_inverse small_code Hl) as (pcs & ics & H1 & H2 & H3 & _).
  exists pcs, ics. exact (conj H1 (conj H2 H3)).
Defined.
Example small_code_pcs : (fst <$> with_pc small_code) = [0; 2; 3]%nat.
Proof. by vm_compute. Qed.
