(* ===== verification/Coverage.v ===== *)
(** * Coverage: evm/coverage/src/lib.rs, anchors.rs and inspector.rs

    How executed instructions become hits of source items: the collector
    counts program counters per contract code, anchors tie source items to
    program counters through the source map, and a report adds the counts of
    hit maps to the items.  [None] is a panic or, for the collector, a use of
    a dangling pointer. *)
From stdpp Require Import base list gmap strings.
From Stdlib Require Import ZArith Lia.
From S2P Require Import Prelude Containers Bytecode.
#[local] Open Scope Z_scope.

(** ** [HitMap] and [HitMaps] *)
Record HitMap := mkHitMap { hm_hits : gmap Z Z; bytecode : list Z }.
Definition hitmap_new (code : list Z) : HitMap := mkHitMap ∅ code.
Definition hm_get (m : HitMap) (pc : Z) : option Z :=
  let n := default 0 (hm_hits m !! pc) in if bool_decide (n = 0) then None else Some n.
Definition hits (m : HitMap) (pc n : Z) : option HitMap :=
  total ← checked u32_max (default 0 (hm_hits m !! pc) + n);
  Some (mkHitMap (<[pc := total]> (hm_hits m)) (bytecode m)).
Definition hit (m : HitMap) (pc : Z) : option HitMap := hits m pc 1.

Section hash.
Context `{!HashOrder Z}.
Definition hm_merge (m other : HitMap) : option HitMap :=
  fold_m (λ m '(pc, n), hits m pc n) m (iter_map (hm_hits other)).

Definition HitMaps : Type := gmap Z HitMap.
Definition hms_merge (a other : gmap Z HitMap) : option (gmap Z HitMap) :=
  fold_m (λ (a : gmap Z HitMap) '(code_hash, other),
    match a !! code_hash with
    | Some e => e ← hm_merge e other; Some (<[code_hash := e]> a)
    | None => Some (<[code_hash := other]> a)
    end) a (iter_map other).
Definition merge_opt (a b : option (gmap Z HitMap)) : option (option (gmap Z HitMap)) :=
  match a, b with
  | a, None => Some a
  | None, Some b => Some (Some b)
  | Some a, Some b => a ← hms_merge a b; Some (Some a)
  end.
End hash.

(** ** Items and locations *)
Record SourceLocation := mkLoc
  { source_id : Z; contract_name : string; bytes_start : Z; bytes_end : Z;
    lines_start : Z; lines_end : Z }.
Definition loc_len (l : SourceLocation) : Z := wrap_u32 (Z.max 0 (bytes_end l - bytes_start l)).

Inductive CoverageItemKind : Type :=
| Line | Statement | Branch (branch_id path_id : Z) (is_first_opcode : bool) | Function (name : string).
Definition kind_ord_key (k : CoverageItemKind) : Z :=
  match k with Line => 0 | Statement => 1 | Branch _ _ _ => 2 | Function _ => 3 end.
Record CoverageItem := mkItem { kind : CoverageItemKind; loc : SourceLocation; item_hits : Z }.
(** Items compare by this key. *)
Definition item_ord_key (i : CoverageItem) : list Z :=
  [source_id (loc i); lines_start (loc i); lines_end (loc i); kind_ord_key (kind i);
   bytes_start (loc i); bytes_end (loc i)].
Definition add_hits (n : Z) (i : CoverageItem) : option CoverageItem :=
  total ← checked u32_max (item_hits i + n); Some (mkItem (kind i) (loc i) total).

Record ItemAnchor := mkAnchor { instruction : Z; item_id : Z }.

(** ** [SourceAnalysis] *)
Record SourceAnalysis := mkAnalysis { all_items : list CoverageItem; an_map : list (Z * Z) }.
Definition items_for_source (a : SourceAnalysis) (source : Z) : option (Z * list CoverageItem) :=
  let '(offset, len) := default (0, 0) (an_map a !! Z.to_nat source) in
  let offset := if bool_decide (offset = u32_max) then 0 else offset in
  if bool_decide (offset + len ≤ Z.of_nat (length (all_items a)))
  then Some (offset, take (Z.to_nat len) (drop (Z.to_nat offset) (all_items a)))
  else None.
Definition items_for_source_enumerated (a : SourceAnalysis) (source : Z) : option (list (Z * CoverageItem)) :=
  '(base_id, items) ← items_for_source a source;
  mapM (λ '(idx, item), id ← checked u32_max (base_id + Z.of_nat idx); Some (id, item)) (imap pair items).

(** ** Anchors

    An element of the compiler's source map: the source, if any, and the
    range of it that an instruction belongs to. *)
Record SourceElement := mkElement
  { se_index : option Z; se_index_i32 : Z; se_offset : Z; se_length : Z }.
Definition SourceMap : Type := list SourceElement.

Inductive AnchorError : Type := NoInstruction | NoPc | JumpOverflow | NoBranches.

Definition is_in_source_range (element : SourceElement) (location : SourceLocation) : option bool :=
  if negb (bool_decide (se_index_i32 element = wrap_signed 32 (source_id location))) then Some false
  else if negb (bool_decide (bytes_start location ≤ se_offset element)) then Some false
  else
    let start_of_ranges := Z.max (bytes_start location) (se_offset element) in
    end1 ← checked u32_max (bytes_start location + loc_len location);
    end2 ← checked u32_max (se_offset element + se_length element);
    Some (bool_decide (start_of_ranges ≤ Z.min end1 end2)).

(** [iter().position(..)], whose predicate may panic. *)
Fixpoint position {A} (f : A → option bool) (i : nat) (l : list A) : option (option nat) :=
  match l with
  | [] => Some None
  | a :: l => found ← f a; if found : bool then Some (Some i) else position f (S i) l
  end.
Definition find_anchor_simple (source_map : SourceMap) (ic_pc_map : IcPcMap) (id : Z) (l : SourceLocation)
    : option (result AnchorError ItemAnchor) :=
  found ← position (λ element, is_in_source_range element l) 0 source_map;
  Some (match found with
        | None => Err NoInstruction
        | Some ic =>
            match ic_pc_get ic_pc_map (wrap_u32 (Z.of_nat ic)) with
            | None => Err NoPc
            | Some pc => Ok (mkAnchor pc id)
            end
        end).

Definition from_be_bytes (l : list Z) : Z := foldl (λ acc b, acc * 256 + b) 0 l.
(** The two anchors of a jump: the instruction after it, and its target. *)
Definition jump_anchors (id next_pc : Z) (immediate : list Z) : ItemAnchor * ItemAnchor :=
  (mkAnchor (wrap_u32 (next_pc + 1)) id, mkAnchor (from_be_bytes immediate) id).
Fixpoint branch_loop (code : list Z) (source_map : SourceMap) (id : Z) (l : SourceLocation)
    (anchors : option (ItemAnchor * ItemAnchor)) (insts : list (nat * (nat * Inst)))
    : option (result AnchorError (option (ItemAnchor * ItemAnchor))) :=
  match insts with
  | [] => Some (Ok anchors)
  | (ic, (pc, inst)) :: insts =>
      if bool_decide (PUSH1 ≤ opcode inst ≤ PUSH32) then
        match source_map !! ic with
        | None => Some (Ok anchors)
        | Some element =>
            let push_size := length (immediate inst) in
            let next_pc := (pc + push_size + 1)%nat in
            in_range ← (if bool_decide (code !! next_pc = Some JUMPI)
                        then is_in_source_range element l else Some false);
            if in_range : bool then
              if bool_decide (push_size ≤ 4)%nat
              then branch_loop code source_map id l
                     (Some (jump_anchors id (Z.of_nat next_pc) (immediate inst))) insts
              else Some (Err JumpOverflow)
            else branch_loop code source_map id l anchors insts
        end
      else branch_loop code source_map id l anchors insts
  end.
Definition find_anchor_branch (code : list Z) (source_map : SourceMap) (id : Z) (l : SourceLocation)
    : option (result AnchorError (ItemAnchor * ItemAnchor)) :=
  res ← branch_loop code source_map id l None (imap pair (with_pc code));
  Some (match res with
        | Err e => Err e
        | Ok None => Err NoBranches
        | Ok (Some anchors) => Ok anchors
        end).

Definition find_anchor (code : list Z) (source_map : SourceMap) (ic_pc_map : IcPcMap)
    (it : Z * CoverageItem) : option (result AnchorError ItemAnchor) :=
  let '(id, item) := it in
  match kind item with
  | Branch _ path_id false =>
      res ← find_anchor_branch code source_map id (loc item);
      match res with
      | Err e => Some (Err e)
      | Ok (first, second) =>
          if bool_decide (path_id = 0) then Some (Ok first)
          else if bool_decide (path_id = 1) then Some (Ok second)
          else None
      end
  | _ => find_anchor_simple source_map ic_pc_map id (loc item)
  end.
(** The sources of a map, each at its first occurrence. *)
Fixpoint seen_sources (seen : gset Z) (source_map : SourceMap) : list Z :=
  match source_map with
  | [] => []
  | element :: source_map =>
      match se_index element with
      | Some source =>
          if bool_decide (source ∈ seen) then seen_sources seen source_map
          else source :: seen_sources ({[source]} ∪ seen) source_map
      | None => seen_sources seen source_map
      end
  end.
Definition result_ok {E A} (r : result E A) : option A := match r with Ok a => Some a | Err _ => None end.
Definition find_anchors (code : list Z) (source_map : SourceMap) (ic_pc_map : IcPcMap) (a : SourceAnalysis)
    : option (list ItemAnchor) :=
  items ← mapM (items_for_source_enumerated a) (seen_sources ∅ source_map);
  found ← mapM (find_anchor code source_map ic_pc_map) (mjoin items);
  Some (omap result_ok found).

(** [BytecodeData] of forge/src/cmd/coverage.rs. *)
Record BytecodeData := mkBytecodeData { bd_source_map : SourceMap; bd_bytecode : list Z; bd_ic_pc_map : IcPcMap }.
Definition bytecode_data_new (source_map : SourceMap) (code : list Z) : option BytecodeData :=
  ic_pc_map ← ic_pc_new code; Some (mkBytecodeData source_map code ic_pc_map).
Definition bd_find_anchors (d : BytecodeData) (a : SourceAnalysis) : option (list ItemAnchor) :=
  find_anchors (bd_bytecode d) (bd_source_map d) (bd_ic_pc_map d) a.

(** ** [CoverageReport] *)
Section report.
Context {Version : Type} `{!EqDecision Version, !Countable Version} `{!HashOrder Version, !HashOrder Z}.

Definition ContractId : Type := Version * Z * string.
Definition version (c : ContractId) : Version := c.1.1.
Record CoverageReport := mkReport {
  source_paths : gmap (Version * Z) string;
  source_paths_to_ids : gmap (Version * string) Z;
  analyses : gmap Version SourceAnalysis;
  anchors : gmap ContractId (list ItemAnchor * list ItemAnchor);
  bytecode_hits : gmap ContractId HitMap;
  source_maps : gmap ContractId (SourceMap * SourceMap);
}.
Definition report_default : CoverageReport := mkReport ∅ ∅ ∅ ∅ ∅ ∅.
Implicit Types (r : CoverageReport) (c : ContractId) (v : Version).

Definition add_source r v (source : Z) (path : string) : CoverageReport :=
  mkReport (<[(v, source) := path]> (source_paths r)) (<[(v, path) := source]> (source_paths_to_ids r))
    (analyses r) (anchors r) (bytecode_hits r) (source_maps r).
Definition get_source_id r v (path : string) : option Z := source_paths_to_ids r !! (v, path).
Definition add_source_maps r (maps : list (ContractId * (SourceMap * SourceMap))) : CoverageReport :=
  mkReport (source_paths r) (source_paths_to_ids r) (analyses r) (anchors r) (bytecode_hits r)
    (foldl (λ m '(c, s), <[c := s]> m) (source_maps r) maps).
Definition with_analyses r (a : gmap Version SourceAnalysis) : CoverageReport :=
  mkReport (source_paths r) (source_paths_to_ids r) a (anchors r) (bytecode_hits r) (source_maps r).
Definition add_analysis r v (a : SourceAnalysis) : CoverageReport :=
  with_analyses r (<[v := a]> (analyses r)).
Definition add_anchors r (l : list (ContractId * (list ItemAnchor * list ItemAnchor))) : CoverageReport :=
  mkReport (source_paths r) (source_paths_to_ids r) (analyses r)
    (foldl (λ m '(c, a), <[c := a]> m) (anchors r) l) (bytecode_hits r) (source_maps r).

Definition add_bytecode_hits r c (m : HitMap) : option CoverageReport :=
  merged ← match bytecode_hits r !! c with Some old => hm_merge old m | None => Some m end;
  Some (mkReport (source_paths r) (source_paths_to_ids r) (analyses r) (anchors r)
          (<[c := merged]> (bytecode_hits r)) (source_maps r)).
(** Adds to the item of an anchor, which has to exist. *)
Definition hit_item (l : list CoverageItem) (id n : Z) : option (list CoverageItem) :=
  item ← l !! Z.to_nat id; item ← add_hits n item; Some (<[Z.to_nat id := item]> l).
Definition anchor_step v (m : HitMap) (a : gmap Version SourceAnalysis) (anchor : ItemAnchor)
    : option (gmap Version SourceAnalysis) :=
  match hm_get m (instruction anchor) with
  | Some n =>
      analysis ← a !! v;
      items ← hit_item (all_items analysis) (item_id anchor) n;
      Some (<[v := mkAnalysis items (an_map analysis)]> a)
  | None => Some a
  end.
Definition contract_anchors r c (is_deployed_code : bool) : list ItemAnchor :=
  match anchors r !! c with
  | Some (creation, deployed) => if is_deployed_code then deployed else creation
  | None => []
  end.
Definition add_hit_map r c (m : HitMap) (is_deployed_code : bool) : option CoverageReport :=
  r ← add_bytecode_hits r c m;
  a ← fold_m (anchor_step (version c) m) (analyses r) (contract_anchors r c is_deployed_code);
  Some (with_analyses r a).
Definition keep_item r (predicate : string → bool) v (item : CoverageItem) : bool :=
  match source_paths r !! (v, source_id (loc item)) with
  | Some path => predicate path
  | None => false
  end.
Definition retain_sources r (predicate : string → bool) : CoverageReport :=
  with_analyses r (map_imap (λ v a,
    match filter (λ item, keep_item r predicate v item = true) (all_items a) with
    | [] => None
    | items => Some (mkAnalysis items (an_map a))
    end) (analyses r)).

(** ** Summaries *)
Record CoverageSummary := mkSummary
  { line_count : Z; line_hits : Z; statement_count : Z; statement_hits : Z;
    branch_count : Z; branch_hits : Z; function_count : Z; function_hits : Z }.
Definition summary_default : CoverageSummary := mkSummary 0 0 0 0 0 0 0 0.
Definition summary_merge (s other : CoverageSummary) : CoverageSummary :=
  mkSummary (line_count s + line_count other) (line_hits s + line_hits other)
    (statement_count s + statement_count other) (statement_hits s + statement_hits other)
    (branch_count s + branch_count other) (branch_hits s + branch_hits other)
    (function_count s + function_count other) (function_hits s + function_hits other).
Definition add_item (s : CoverageSummary) (item : CoverageItem) : CoverageSummary :=
  let '(mkSummary l lh st sth b bh f fh) := s in
  let n := if bool_decide (0 < item_hits item) then 1 else 0 in
  match kind item with
  | Line => mkSummary (l + 1) (lh + n) st sth b bh f fh
  | Statement => mkSummary l lh (st + 1) (sth + n) b bh f fh
  | Branch _ _ _ => mkSummary l lh st sth (b + 1) (bh + n) f fh
  | Function _ => mkSummary l lh st sth b bh (f + 1) (fh + n)
  end.
Definition from_items (items : list CoverageItem) : CoverageSummary := foldl add_item summary_default items.

Definition file_step {T} (f : T → CoverageItem → T) (t0 : T) r v (m : gmap string T) (item : CoverageItem)
    : gmap string T :=
  match source_paths r !! (v, source_id (loc item)) with
  | Some path => <[path := f (default t0 (m !! path)) item]> m
  | None => m
  end.
Definition by_file {T} (f : T → CoverageItem → T) (t0 : T) r : gmap string T :=
  foldl (λ m '(v, a), foldl (file_step f t0 r v) m (all_items a)) ∅ (iter_map (analyses r)).
Definition items_by_file r : gmap string (list CoverageItem) :=
  by_file (λ list item, list ++ [item]) [] r.
Definition summary_by_file r : gmap string CoverageSummary := by_file add_item summary_default r.
End report.

(** ** Merging adds counts *)
Definition count (m : HitMap) (pc : Z) : Z := default 0 (hm_hits m !! pc).
Definition zsum (l : list Z) : Z := foldr Z.add 0 l.
Definition counts_ok (m : HitMap) : Prop := ∀ pc, 0 ≤ count m pc.

Lemma count_insert h code k n pc :
  count (mkHitMap (<[k := n]> h) code) pc = if bool_decide (k = pc) then n else count (mkHitMap h code) pc.
Proof.
  unfold count. cbn. case_bool_decide as Hk; [subst; by rewrite lookup_insert_eq|by rewrite lookup_insert_ne].
Qed.
Lemma zsum_nonneg l : Forall (Z.le 0) l → 0 ≤ zsum l.
Proof.
  induction 1 as [|x l Hx _ IH]; [done|]. change (0 ≤ x + zsum l). lia.
Qed.

Lemma zsum_app l l' : zsum (l ++ l') = zsum l + zsum l'.
Proof.
  induction l as [|x l IH]; [change (zsum l' = 0 + zsum l'); lia|].
  change (x + zsum (l ++ l') = x + zsum l + zsum l'). lia.
Qed.

Section merging.
Context `{!HashOrder Z}.

Lemma iter_map_to_map (h : gmap Z Z) : list_to_map (iter_map h) = h.
Proof.
  apply map_eq. intros pc. apply option_eq. intros n.
  rewrite <- (elem_of_list_to_map (iter_map h)) by apply NoDup_iter_map_keys. apply elem_of_iter_map.
Qed.
Lemma hits_fold l m :
  NoDup l.*1 → (∀ pc, 0 ≤ count m pc) →
  (∀ pc, 0 ≤ default 0 ((list_to_map l : gmap Z Z) !! pc)) →
  (∀ pc, count m pc + default 0 ((list_to_map l : gmap Z Z) !! pc) ≤ u32_max) →
  ∃ m', fold_m (λ m '(pc, n), hits m pc n) m l = Some m' ∧ bytecode m' = bytecode m ∧
    ∀ pc, count m' pc = count m pc + default 0 ((list_to_map l : gmap Z Z) !! pc).
Proof.
  revert m. induction l as [|[k n] l IH]; intros m Hnd Hm Hl Hmax; cbn [fold_m].
  { exists m. split_and!; [done..|]. intros pc. cbn. rewrite lookup_empty. cbn. lia. }
  cbn [fmap list_fmap fst] in Hnd. apply NoDup_cons in Hnd as [Hk Hnd].
  assert ((list_to_map l : gmap Z Z) !! k = None) as Hnone by (by apply not_elem_of_list_to_map_1).
  pose proof (Hmax k) as Hmaxk. pose proof (Hl k) as Hlk. cbn in Hmaxk, Hlk. rewrite lookup_insert_eq in *.
  cbn in Hmaxk, Hlk.
  unfold hits at 1. fold (count m k). rewrite checked_in by (specialize (Hm k); lia). cbn [mbind option_bind].
  assert (∀ pc, default 0 ((list_to_map ((k, n) :: l) : gmap Z Z) !! pc) =
    if bool_decide (k = pc) then n else default 0 ((list_to_map l : gmap Z Z) !! pc)) as Hcons.
  { intros pc. cbn. case_bool_decide as Hp; [subst; by rewrite lookup_insert_eq|by rewrite lookup_insert_ne]. }
  assert (∀ pc, count (mkHitMap (<[k := count m k + n]> (hm_hits m)) (bytecode m)) pc =
    count m pc + if bool_decide (k = pc) then n else 0) as Hnew.
  { intros pc. rewrite count_insert. case_bool_decide; [by subst|]. unfold count. cbn. lia. }
  destruct (IH (mkHitMap (<[k := count m k + n]> (hm_hits m)) (bytecode m))) as (m' & Hf & Hb & Hc); [done|..].
  - intros pc. rewrite Hnew. specialize (Hm pc). specialize (Hl pc). case_bool_decide; lia.
  - intros pc. specialize (Hl pc). rewrite Hcons in Hl. case_bool_decide; [|done]. subst. by rewrite Hnone.
  - intros pc. rewrite Hnew. specialize (Hmax pc). rewrite Hcons in Hmax.
    case_bool_decide; [|lia]. subst. rewrite Hnone. cbn. lia.
  - exists m'. split_and!; [done..|]. intros pc. rewrite Hc, Hnew, Hcons.
    case_bool_decide; [|lia]. subst. rewrite Hnone. cbn. lia.
Qed.
Lemma hm_merge_spec m other :
  counts_ok m → counts_ok other → (∀ pc, count m pc + count other pc ≤ u32_max) →
  ∃ m', hm_merge m other = Some m' ∧ bytecode m' = bytecode m ∧
    ∀ pc, count m' pc = count m pc + count other pc.
Proof.
  intros Hm Ho Hmax. unfold hm_merge.
  destruct (hits_fold (iter_map (hm_hits other)) m) as (m' & Hf & Hb & Hc); rewrite ?iter_map_to_map in *;
    [apply NoDup_iter_map_keys|done..|]. by exists m'.
Qed.
End merging.

(** ** A report adds hit maps up *)
Section report_spec.
Context {Version : Type} `{!EqDecision Version, !Countable Version} `{!HashOrder Version, !HashOrder Z}.
Implicit Types (r : CoverageReport (Version := Version)) (c : ContractId (Version := Version)) (v : Version).

(** The hits that the anchors [l] carry from [m] to the item [i]. *)
Definition anchor_sum (m : HitMap) (i : nat) (l : list ItemAnchor) : Z :=
  zsum ((λ a, if bool_decide (Z.to_nat (item_id a) = i) then count m (instruction a) else 0) <$> l).
Definition anchors_in (len : nat) (l : list ItemAnchor) : Prop :=
  Forall (λ a, Z.to_nat (item_id a) < len)%nat l.
Definition item_at (r : CoverageReport (Version := Version)) v (i : nat) : option CoverageItem :=
  a ← analyses r !! v; all_items a !! i.
(** Every anchor is for an item that the report has. *)
Definition anchors_valid r : Prop :=
  ∀ c l, anchors r !! c = Some l → ∃ a, analyses r !! version c = Some a ∧
    anchors_in (length (all_items a)) l.1 ∧ anchors_in (length (all_items a)) l.2.

Lemma anchor_sum_nonneg m i l : counts_ok m → 0 ≤ anchor_sum m i l.
Proof.
  intros Hm. apply zsum_nonneg. apply Forall_fmap, Forall_forall. intros a _. cbn.
  case_bool_decide; [apply Hm|done].
Qed.

(** One hit map and its anchors. *)
Lemma anchor_fold v m l (a : gmap Version SourceAnalysis) an :
  counts_ok m → a !! v = Some an → anchors_in (length (all_items an)) l →
  (∀ i it, all_items an !! i = Some it → 0 ≤ item_hits it ∧ item_hits it + anchor_sum m i l ≤ u32_max) →
  ∃ items, fold_m (anchor_step v m) a l = Some (<[v := mkAnalysis items (an_map an)]> a) ∧
    length items = length (all_items an) ∧
    ∀ i it, all_items an !! i = Some it →
      items !! i = Some (mkItem (kind it) (loc it) (item_hits it + anchor_sum m i l)).
Proof.
  intros Hm. revert a an. induction l as [|x l IH]; intros a an Ha Hin Hmax; cbn [fold_m].
  { exists (all_items an). destruct an as [items map]; cbn in *. rewrite insert_id by done.
    split_and!; [done..|]. intros i [k lo h] Hi. rewrite Hi. unfold anchor_sum. cbn. by rewrite Z.add_0_r. }
  apply Forall_cons in Hin as [Hx Hin].
  assert (∀ i, anchor_sum m i (x :: l) =
    (if bool_decide (Z.to_nat (item_id x) = i) then count m (instruction x) else 0) + anchor_sum m i l) as Hsum
    by done.
  unfold anchor_step at 1. unfold hm_get. fold (count m (instruction x)). case_bool_decide as Hz.
  { destruct (IH a an Ha Hin) as (items & Hf & Hlen & Hit).
    - intros i it Hi. destruct (Hmax i it Hi) as [? Hb]. rewrite Hsum, Hz in Hb. split; [done|].
      by case_bool_decide.
    - exists items. split_and!; [done..|]. intros i it Hi. rewrite (Hit i it Hi), Hsum, Hz.
      by case_bool_decide. }
  rewrite Ha. cbn [mbind option_bind]. unfold hit_item.
  destruct (lookup_lt_is_Some_2 (all_items an) (Z.to_nat (item_id x)) Hx) as [it0 Hit0].
  rewrite Hit0. cbn [mbind option_bind]. unfold add_hits.
  destruct (Hmax _ _ Hit0) as [Hpos Hb0]. rewrite Hsum, bool_decide_true in Hb0 by done.
  pose proof (anchor_sum_nonneg m (Z.to_nat (item_id x)) l Hm) as Hnn. pose proof (Hm (instruction x)) as Hc.
  rewrite checked_in by lia. cbn [mbind option_bind].
  set (items0 := <[Z.to_nat (item_id x) := mkItem (kind it0) (loc it0) (item_hits it0 + count m (instruction x))]>
    (all_items an)).
  assert (length items0 = length (all_items an)) as Hlen0 by apply length_insert.
  assert (∀ i it, all_items an !! i = Some it → items0 !! i = Some (mkItem (kind it) (loc it)
    (item_hits it + if bool_decide (Z.to_nat (item_id x) = i) then count m (instruction x) else 0))) as Hit.
  { intros i it Hi. unfold items0. case_bool_decide as Heq.
    - subst i. assert (it = it0) as -> by congruence. by rewrite list_lookup_insert_eq.
    - rewrite list_lookup_insert_ne by done. rewrite Hi, Z.add_0_r. by destruct it. }
  destruct (IH (<[v := mkAnalysis items0 (an_map an)]> a) (mkAnalysis items0 (an_map an)))
    as (items & Hf & Hlen & Hits); cbn [all_items an_map] in *.
  - by rewrite lookup_insert_eq.
  - by rewrite Hlen0.
  - intros i it Hi. destruct (lookup_lt_is_Some_2 (all_items an) i) as [it' Hi'].
    { rewrite <- Hlen0. by eapply lookup_lt_Some. }
    rewrite (Hit _ _ Hi') in Hi. injection Hi as <-. cbn. destruct (Hmax _ _ Hi') as [? Hb]. rewrite Hsum in Hb.
    case_bool_decide; lia.
  - exists items. rewrite Hf, insert_insert_eq. split_and!; [done|by rewrite Hlen|].
    intros i it Hi. rewrite (Hits _ _ (Hit _ _ Hi)), Hsum. cbn [kind loc item_hits]. by rewrite Z.add_assoc.
Qed.

(** What the call [x] of [add_hit_map] adds to the item [i] of [v], and to
    the count of [pc] for the contract [c]. *)
#[local] Abbreviation Call := (ContractId (Version := Version) * HitMap * bool)%type.
Definition item_share r v (i : nat) (x : Call) : Z :=
  if bool_decide (version x.1.1 = v) then anchor_sum x.1.2 i (contract_anchors r x.1.1 x.2) else 0.
Definition pc_share c (pc : Z) (x : Call) : Z :=
  if bool_decide (x.1.1 = c) then count x.1.2 pc else 0.
Definition contract_count r c (pc : Z) : Z :=
  match bytecode_hits r !! c with Some m => count m pc | None => 0 end.
Definition call_step r (x : Call) : option (CoverageReport (Version := Version)) :=
  add_hit_map r x.1.1 x.1.2 x.2.

Lemma anchors_in_contract r c d :
  anchors_valid r → contract_anchors r c d = [] ∨ ∃ a, analyses r !! version c = Some a ∧
    anchors_in (length (all_items a)) (contract_anchors r c d).
Proof.
  intros Hv. unfold contract_anchors. destruct (anchors r !! c) as [[cr de]|] eqn:Hc; [right|by left].
  destruct (Hv c _ Hc) as (a & Ha & H1 & H2). exists a. split; [done|]. by destruct d.
Qed.
Lemma bytecode_hits_added r c m :
  counts_ok m → (∀ pc, 0 ≤ contract_count r c pc ∧ contract_count r c pc + count m pc ≤ u32_max) →
  ∃ r', add_bytecode_hits r c m = Some r' ∧ analyses r' = analyses r ∧ anchors r' = anchors r ∧
    ∀ c' pc, contract_count r' c' pc = contract_count r c' pc + pc_share c' pc (c, m, true).
Proof.
  intros Hm Hb. unfold add_bytecode_hits, contract_count, pc_share in *. cbn [fst snd].
  destruct (bytecode_hits r !! c) as [old|] eqn:Hc.
  - destruct (hm_merge_spec old m) as (m' & -> & _ & Hm'); [intros pc; apply Hb|done|apply Hb|].
    eexists. split; [done|]. split_and!; [done..|]. intros c' pc. cbn.
    case_bool_decide as Heq; [subst; rewrite lookup_insert_eq, Hc; apply Hm'|].
    rewrite lookup_insert_ne by done. lia.
  - eexists. split; [done|]. split_and!; [done..|]. intros c' pc. cbn.
    case_bool_decide as Heq; [subst; by rewrite lookup_insert_eq, Hc|].
    rewrite lookup_insert_ne by done. lia.
Qed.

(** One call. *)
Record adds (r r' : CoverageReport (Version := Version)) (item : Version → nat → Z)
    (pcs : ContractId (Version := Version) → Z → Z) : Prop := {
  adds_items v i it : item_at r v i = Some it →
    item_at r' v i = Some (mkItem (kind it) (loc it) (item_hits it + item v i));
  adds_pcs c pc : contract_count r' c pc = contract_count r c pc + pcs c pc;
  adds_anchors : anchors r' = anchors r;
  adds_valid : anchors_valid r → anchors_valid r';
  adds_back v i it : item_at r' v i = Some it → is_Some (item_at r v i);
}.
Definition room r (item : Version → nat → Z) (pcs : ContractId (Version := Version) → Z → Z) : Prop :=
  (∀ v i it, item_at r v i = Some it → 0 ≤ item_hits it ∧ item_hits it + item v i ≤ u32_max) ∧
  ∀ c pc, 0 ≤ contract_count r c pc ∧ contract_count r c pc + pcs c pc ≤ u32_max.

Lemma item_at_insert r v a v' i :
  item_at (with_analyses r (<[v := a]> (analyses r))) v' i =
    if bool_decide (v = v') then all_items a !! i else item_at r v' i.
Proof.
  unfold item_at. cbn. case_bool_decide; [subst; by rewrite lookup_insert_eq|by rewrite lookup_insert_ne].
Qed.
Lemma add_hit_map_spec r (x : Call) :
  anchors_valid r → counts_ok x.1.2 → room r (λ v i, item_share r v i x) (λ c pc, pc_share c pc x) →
  ∃ r', call_step r x = Some r' ∧ adds r r' (λ v i, item_share r v i x) (λ c pc, pc_share c pc x).
Proof.
  destruct x as [[c m] d]. intros Hv Hm [Hitems Hpcs]. unfold call_step, add_hit_map. cbn [fst snd] in *.
  destruct (bytecode_hits_added r c m Hm) as (r1 & -> & Ha & Han & Hc).
  { intros pc. specialize (Hpcs c pc). unfold pc_share in Hpcs. cbn in Hpcs.
    by rewrite bool_decide_true in Hpcs. }
  cbn [mbind option_bind]. rewrite Ha.
  assert (contract_anchors r1 c d = contract_anchors r c d) as -> by (unfold contract_anchors; by rewrite Han).
  assert (∀ v i, item_at (with_analyses r1 (analyses r)) v i = item_at r v i) as Hsame by done.
  destruct (anchors_in_contract r c d Hv) as [Hnil|(a & Hva & Hin)].
  { rewrite Hnil. cbn [fold_m mbind option_bind]. eexists. split; [done|].
    assert (∀ v i, item_share r v i (c, m, d) = 0) as Hz.
    { intros v i. unfold item_share. cbn. rewrite Hnil. by case_bool_decide. }
    split; cbn [anchors with_analyses]; [|by apply Hc|done| |].
    - intros v i [k l h] Hi. rewrite Hsame, Hi, Hz, Z.add_0_r. done.
    - intros Hval c' l Hl. cbn in *. rewrite Han in Hl. by apply Hval.
    - intros v i it Hi. rewrite Hsame in Hi. by eexists. }
  assert (∀ i it, all_items a !! i = Some it → item_at r (version c) i = Some it) as Hat.
  { intros i it Hi. unfold item_at. rewrite Hva. done. }
  destruct (anchor_fold (version c) m (contract_anchors r c d) (analyses r) a Hm Hva Hin)
    as (items & -> & Hlen & Hit).
  { intros i it Hi. specialize (Hitems _ _ _ (Hat _ _ Hi)). unfold item_share in Hitems. cbn in Hitems.
    by rewrite bool_decide_true in Hitems. }
  cbn [mbind option_bind]. eexists. split; [done|].
  set (a' := mkAnalysis items (an_map a)).
  assert (∀ v i, item_at (with_analyses r1 (<[version c := a']> (analyses r))) v i =
    if bool_decide (version c = v) then items !! i else item_at r v i) as Hnew.
  { intros v i. apply (item_at_insert r). }
  split; cbn [anchors with_analyses]; [|by apply Hc|done| |].
  - intros v i it Hi. rewrite Hnew. unfold item_share. cbn [fst snd]. case_bool_decide as Hver.
    + subst v. unfold item_at in Hi. rewrite Hva in Hi. by apply Hit.
    + rewrite Z.add_0_r, Hi. by destruct it.
  - intros Hval c' l Hl. cbn in Hl. rewrite Han in Hl. destruct (Hval _ _ Hl) as (b & Hb & H1 & H2). cbn.
    destruct (decide (version c = version c')) as [Heq|Hne].
    + rewrite <- Heq, lookup_insert_eq. exists a'. rewrite <- Heq in Hb.
      assert (b = a) as -> by congruence. cbn. by rewrite Hlen.
    + rewrite lookup_insert_ne by done. by exists b.
  - intros v i it. rewrite Hnew. case_bool_decide as Hver; [|by intros ->; eexists].
    subst v. intros Hi%lookup_lt_Some. rewrite Hlen in Hi.
    destruct (lookup_lt_is_Some_2 _ _ Hi) as [it' Hi']. exists it'. by apply Hat.
Qed.

Definition item_total r v (i : nat) (l : list Call) : Z := zsum (item_share r v i <$> l).
Definition pc_total c (pc : Z) (l : list Call) : Z := zsum (pc_share c pc <$> l).

Lemma item_share_nonneg r v i x : counts_ok x.1.2 → 0 ≤ item_share r v i x.
Proof. intros Hm. unfold item_share. case_bool_decide; [by apply anchor_sum_nonneg|done]. Qed.
Lemma totals_nonneg r v i c pc l :
  Forall (λ x : Call, counts_ok x.1.2) l → 0 ≤ item_total r v i l ∧ 0 ≤ pc_total c pc l.
Proof.
  intros Hl. split; apply zsum_nonneg, Forall_fmap; (eapply Forall_impl; [done|]); intros x Hx.
  - by apply item_share_nonneg.
  - unfold compose, pc_share. case_bool_decide; [apply Hx|done].
Qed.

(** Adding hit maps to a report never panics, as long as its anchors are
    for items it has and no total exceeds 32 bits: every item then has the
    hits it had plus, for every map and every anchor of that map's contract
    (its creation or its deployed code) for the item, the count at the
    anchor's program counter; every contract has the sum of its maps' counts
    at each program counter; so the order of the maps does not matter. *)
Lemma report_sums_hits r (l : list Call) :
  anchors_valid r → Forall (λ x : Call, counts_ok x.1.2) l →
  room r (λ v i, item_total r v i l) (λ c pc, pc_total c pc l) →
  ∃ r', fold_m call_step r l = Some r' ∧ adds r r' (λ v i, item_total r v i l) (λ c pc, pc_total c pc l).
Proof.
  intros Hv Hl. revert r Hv. induction Hl as [|x l Hx Hl IH]; intros r Hv [Hitems Hpcs]; cbn [fold_m].
  { exists r. split; [done|]. split; [| | | |by eexists].
    - intros v i [k lo h] ->. unfold item_total. cbn. by rewrite Z.add_0_r.
    - intros c pc. unfold pc_total. cbn. lia.
    - done.
    - done. }
  assert (∀ v i, item_total r v i (x :: l) = item_share r v i x + item_total r v i l) as Hi by done.
  assert (∀ c pc, pc_total c pc (x :: l) = pc_share c pc x + pc_total c pc l) as Hp by done.
  destruct (add_hit_map_spec r x Hv Hx) as (r1 & -> & [H1 H2 H3 H4 H5]).
  { split.
    - intros v i it Hit. destruct (Hitems v i it Hit). rewrite Hi in *.
      pose proof (proj1 (totals_nonneg r v i x.1.1 0 l Hl)). lia.
    - intros c pc. destruct (Hpcs c pc). rewrite Hp in *.
      pose proof (proj2 (totals_nonneg r (version c) 0 c pc l Hl)). lia. }
  assert (∀ v i, item_total r1 v i l = item_total r v i l) as Hsame.
  { intros v i. unfold item_total. f_equal. apply list_fmap_ext. intros _ y _.
    unfold item_share, contract_anchors. by rewrite H3. }
  destruct (IH r1 (H4 Hv)) as (r2 & Hf & [G1 G2 G3 G4 G5]).
  { split.
    - intros v i it Hit. destruct (H5 v i it Hit) as [it0 Hit0]. rewrite (H1 _ _ _ Hit0) in Hit.
      injection Hit as <-. cbn [item_hits]. rewrite Hsame. destruct (Hitems v i it0 Hit0). rewrite Hi in *.
      pose proof (item_share_nonneg r v i x Hx). lia.
    - intros c pc. rewrite H2. destruct (Hpcs c pc). rewrite Hp in *.
      assert (0 ≤ pc_share c pc x) by (unfold pc_share; case_bool_decide; [apply Hx|done]). lia. }
  exists r2. split; [done|]. split.
  - intros v i it Hit. rewrite (G1 _ _ _ (H1 _ _ _ Hit)), Hsame, Hi. cbn [kind loc item_hits].
    by rewrite Z.add_assoc.
  - intros c pc. rewrite G2, H2, Hp. lia.
  - by rewrite G3.
  - auto.
  - intros v i it Hit. destruct (G5 _ _ _ Hit) as [it1 Hit1]. by eapply H5.
Qed.
End report_spec.

(** ** Anchors found are anchors of the report *)
Lemma enumerated_in a source l :
  Forall (λ '(o, n), 0 ≤ o ∧ 0 ≤ n) (an_map a) →
  items_for_source_enumerated a source = Some l → Forall (λ it, Z.to_nat it.1 < length (all_items a))%nat l.
Proof.
  intros Hmap. unfold items_for_source_enumerated, items_for_source.
  destruct (default (0, 0) (an_map a !! Z.to_nat source)) as [offset len] eqn:Ho.
  assert (0 ≤ offset ∧ 0 ≤ len) as [Ho0 Hl0].
  { destruct (an_map a !! Z.to_nat source) as [p|] eqn:Hp; cbn in Ho; [|injection Ho as <- <-; lia].
    subst p. rewrite Forall_forall in Hmap. apply (Hmap (offset, len)). by eapply list_elem_of_lookup_2. }
  set (o := if bool_decide (offset = u32_max) then 0 else offset).
  assert (0 ≤ o) as Hop by (unfold o; case_bool_decide; lia).
  case_bool_decide as Hfit; [|done]. cbn [mbind option_bind]. intros Hm%mapM_Some.
  apply Forall_forall. intros it [k Hk]%list_elem_of_lookup.
  destruct (Forall2_lookup_r _ _ _ _ _ Hm Hk) as ([idx item] & Hx & Hid).
  rewrite list_lookup_imap in Hx. apply fmap_Some in Hx as (x & Hx & [= <- <-]).
  apply bind_Some in Hid as (id & [-> _]%checked_Some & [= <-]). cbn [fst].
  apply lookup_lt_Some in Hx. rewrite length_take, length_drop in Hx. lia.
Qed.

Lemma find_anchor_id code source_map ics it anchor :
  find_anchor code source_map ics it = Some (Ok anchor) → item_id anchor = it.1.
Proof.
  assert (∀ l id, find_anchor_simple source_map ics id l = Some (Ok anchor) → item_id anchor = id) as Hs.
  { intros l id. unfold find_anchor_simple. intros (found & _ & Hf)%bind_Some. injection Hf as Hf.
    destruct found; [|done]. destruct (ic_pc_get _ _); [|done]. by injection Hf as <-. }
  assert (∀ l id an insts p, (∀ q, an = Some q → item_id q.1 = id ∧ item_id q.2 = id) →
    branch_loop code source_map id l an insts = Some (Ok (Some p)) → item_id p.1 = id ∧ item_id p.2 = id) as Hb.
  { intros l id an insts p. revert an. induction insts as [|[ic [pc inst]] insts IH]; intros an Han; cbn [branch_loop].
    { intros [= ->]. by apply Han. }
    case_bool_decide; [|by apply IH]. destruct (source_map !! ic); [|by intros [= ->]; apply Han].
    intros ([] & _ & Hl)%bind_Some; [|by apply (IH an)].
    case_bool_decide; [|done]. revert Hl. apply IH. by intros q [= <-]. }
  destruct it as [id [k l h]]. unfold find_anchor. cbn [kind loc fst].
  destruct k as [| |b path []|]; try apply Hs. intros (res & Hr & Ha)%bind_Some.
  apply bind_Some in Hr as (o & Ho & Hr). injection Hr as <-.
  destruct o as [[p|]|]; [|done..]. destruct (Hb l id None _ p ltac:(done) Ho) as [H1 H2].
  destruct p as [first second]. cbn in *.
  repeat case_bool_decide; [by injection Ha as <-|by injection Ha as <-|done].
Qed.

Lemma find_anchors_in code source_map ics a l :
  Forall (λ '(o, n), 0 ≤ o ∧ 0 ≤ n) (an_map a) →
  find_anchors code source_map ics a = Some l → anchors_in (length (all_items a)) l.
Proof.
  intros Hmap. unfold find_anchors. intros (items & Hi & (found & Hf & [= <-])%bind_Some)%bind_Some.
  apply mapM_Some in Hi, Hf. apply Forall_forall. intros anchor (r & [k Hr]%list_elem_of_lookup & Ha)%list_elem_of_omap.
  destruct r as [anchor'|]; [|done]. injection Ha as ->.
  destruct (Forall2_lookup_r _ _ _ _ _ Hf Hr) as (it & Hit & Hfound).
  apply find_anchor_id in Hfound as ->. apply list_elem_of_lookup_2 in Hit.
  apply list_elem_of_join in Hit as (es & Hes & [j Hj]%list_elem_of_lookup).
  destruct (Forall2_lookup_r _ _ _ _ _ Hi Hj) as (source & _ & He).
  pose proof (enumerated_in a source es Hmap He) as Hall. rewrite Forall_forall in Hall. by apply Hall.
Qed.

(** Preparing a version: the anchors of its contracts, then its items. *)
Section prepare.
Context {Version : Type} `{!EqDecision Version, !Countable Version} `{!HashOrder Version, !HashOrder Z}.
Lemma add_version_valid (r : CoverageReport (Version := Version)) v a l :
  anchors_valid r → analyses r !! v = None →
  Forall (λ x, version x.1 = v ∧ anchors_in (length (all_items a)) x.2.1 ∧
               anchors_in (length (all_items a)) x.2.2) l →
  anchors_valid (add_analysis (add_anchors r l) v a).
Proof.
  intros Hv Hnone Hl c p. cbn. intros Hc.
  assert (anchors r !! c = Some p ∨ (c, p) ∈ l) as [Hold|Hnew].
  { revert Hc. generalize (anchors r). induction Hl as [|[c' p'] l _ _ IH]; intros m; cbn; [by left|].
    intros [Hm|?]%IH; [|by right; right]. apply lookup_insert_Some in Hm as [[<- <-]|[_ ?]]; [right; by left|by left]. }
  - destruct (Hv c p Hold) as (b & Hb & H1 & H2). exists b. rewrite lookup_insert_ne; [done|]. congruence.
  - rewrite Forall_forall in Hl. destruct (Hl _ Hnew) as (Hver & H1 & H2); cbn in *. subst v.
    exists a. by rewrite lookup_insert_eq.
Qed.
End prepare.

(** ** [LineCoverageCollector]

    The collector keeps a pointer into its own maps.  The store has the maps
    of every collector; a pointer names the collector whose maps it points
    into and the entry. *)
Record Interpreter := mkInterp { i_hash : Z; original_bytes : list Z; i_pc : Z }.
Record LineCoverageCollector := mkCollector
  { current_map : option (nat * Z); current_hash : Z; maps : nat }.
#[local] Abbreviation Store := (gmap nat (gmap Z HitMap)).
Implicit Types (c : LineCoverageCollector) (i : Interpreter).

Definition collector_default (id : nat) : LineCoverageCollector := mkCollector None 0 id.
Definition or_insert_map (m : gmap Z HitMap) i : gmap Z HitMap :=
  match m !! i_hash i with
  | Some _ => m
  | None => <[i_hash i := hitmap_new (original_bytes i)]> m
  end.
Definition insert_map (s : Store) c i : option (Store * LineCoverageCollector) :=
  m ← s !! maps c;
  Some (<[maps c := or_insert_map m i]> s, mkCollector (Some (maps c, i_hash i)) (i_hash i) (maps c)).
(** The pointer to the map, which the caller dereferences. *)
Definition get_or_insert_map (s : Store) c i : option (Store * LineCoverageCollector * (nat * Z)) :=
  '(s, c) ← (if bool_decide (current_hash c = i_hash i) then Some (s, c) else insert_map s c i);
  p ← current_map c; Some (s, c, p).
Definition deref (s : Store) (p : nat * Z) : option HitMap :=
  m ← s !! p.1; m !! p.2.
Definition update (s : Store) (p : nat * Z) (m : HitMap) : Store :=
  alter (insert p.2 m) p.1 s.
Definition initialize_interp (s : Store) c i : option (Store * LineCoverageCollector) :=
  '(s, c, p) ← get_or_insert_map s c i; _ ← deref s p; Some (s, c).
Definition step (s : Store) c i : option (Store * LineCoverageCollector) :=
  '(s, c, p) ← get_or_insert_map s c i;
  m ← deref s p; m ← hit m (wrap_u32 (i_pc i)); Some (update s p m, c).
Definition finish (s : Store) c : option (gmap Z HitMap) := s !! maps c.
(** [#[derive(Clone)]]: the maps are copied, the pointer is too. *)
Definition collector_clone (s : Store) c (id : nat) : option (Store * LineCoverageCollector) :=
  m ← s !! maps c;
  Some (<[id := m]> s, mkCollector (current_map c) (current_hash c) id).

Inductive Hook : Type := Init (i : Interpreter) | Step (i : Interpreter).
Definition hook_interp (h : Hook) : Interpreter := match h with Init i | Step i => i end.
Definition run_hook (st : Store * LineCoverageCollector) (h : Hook) : option (Store * LineCoverageCollector) :=
  match h with Init i => initialize_interp st.1 st.2 i | Step i => step st.1 st.2 i end.

(** How often the instruction at [pc] of the code [hash] was executed. *)
Definition executed (hooks : list Hook) (hash pc : Z) : Z :=
  zsum ((λ h, match h with
              | Step i => if bool_decide (i_hash i = hash ∧ wrap_u32 (i_pc i) = pc) then 1 else 0
              | Init _ => 0 end) <$> hooks).
Definition collected (m : gmap Z HitMap) (hash pc : Z) : Z :=
  match m !! hash with Some h => count h pc | None => 0 end.

(** The pointer is into the collector's own maps. *)
Record collector_ok (s : Store) c (done : list Hook) : Prop := {
  co_maps : ∃ m, s !! maps c = Some m ∧
    (∀ hash pc, collected m hash pc = executed done hash pc) ∧
    (current_hash c ≠ 0 → is_Some (m !! current_hash c));
  co_pointer : current_hash c ≠ 0 → current_map c = Some (maps c, current_hash c);
}.

Lemma executed_snoc hooks h hash pc :
  executed (hooks ++ [h]) hash pc = executed hooks hash pc + executed [h] hash pc.
Proof. unfold executed. by rewrite fmap_app, zsum_app. Qed.

Lemma collected_insert m hash h hash' pc :
  collected (<[hash := h]> m) hash' pc = if bool_decide (hash = hash') then count h pc else collected m hash' pc.
Proof.
  unfold collected. case_bool_decide; [subst; by rewrite lookup_insert_eq|by rewrite lookup_insert_ne].
Qed.
Lemma collected_or_insert m i hash pc : collected (or_insert_map m i) hash pc = collected m hash pc.
Proof.
  unfold or_insert_map. destruct (m !! i_hash i) eqn:Hm; [done|]. rewrite collected_insert.
  case_bool_decide; [subst|done]. unfold collected. by rewrite Hm.
Qed.

(** The pointer that the hooks use is to the entry of the current code. *)
Lemma get_map_spec s c i hooks :
  collector_ok s c hooks → i_hash i ≠ 0 →
  ∃ s' c' m h, get_or_insert_map s c i = Some (s', c', (maps c, i_hash i)) ∧
    maps c' = maps c ∧ current_hash c' = i_hash i ∧ current_map c' = Some (maps c, i_hash i) ∧
    s' !! maps c = Some m ∧ m !! i_hash i = Some h ∧ ∀ hash pc, collected m hash pc = executed hooks hash pc.
Proof.
  intros [(m & Hm & Hc & Hcur) Hp] Hi. unfold get_or_insert_map. case_bool_decide as Heq.
  - rewrite Heq in *. destruct (Hcur Hi) as [h Hh]. cbn [mbind option_bind]. rewrite (Hp Hi).
    exists s, c, m, h. by rewrite Heq, (Hp Hi).
  - unfold insert_map. rewrite Hm. cbn [mbind option_bind current_map].
    assert (∃ h, or_insert_map m i !! i_hash i = Some h) as [h Hh].
    { unfold or_insert_map. destruct (m !! i_hash i) eqn:Hmi; [by eexists|]. rewrite lookup_insert_eq. by eexists. }
    eexists _, _, (or_insert_map m i), h. split; [reflexivity|]. rewrite lookup_insert_eq. split_and!; [done..|].
    intros hash pc. by rewrite collected_or_insert.
Qed.

Lemma run_hook_spec s c hooks h :
  collector_ok s c hooks → i_hash (hook_interp h) ≠ 0 →
  (∀ hash pc, 0 ≤ executed hooks hash pc < u32_max) →
  ∃ s' c', run_hook (s, c) h = Some (s', c') ∧ maps c' = maps c ∧ collector_ok s' c' (hooks ++ [h]).
Proof.
  intros Hok Hi Hb. destruct (get_map_spec s c (hook_interp h) hooks Hok Hi)
    as (s' & c' & m & hm & Hg & Hmaps & Hch & Hcm & Hm & Hh & Hcol).
  assert (deref s' (maps c, i_hash (hook_interp h)) = Some hm) as Hd.
  { unfold deref. cbn [fst snd]. by rewrite Hm. }
  destruct h as [i|i]; cbn [hook_interp run_hook fst snd] in *.
  - exists s', c'. unfold initialize_interp. rewrite Hg. cbn [mbind option_bind]. rewrite Hd.
    split_and!; [done..|]. split; [|by rewrite Hmaps, Hch, Hcm]. exists m. rewrite Hmaps, Hch.
    split_and!; [done| |by eexists]. intros hash pc. rewrite Hcol, executed_snoc. unfold executed at 3. cbn. lia.
  - set (pc0 := wrap_u32 (i_pc i)).
    assert (count hm pc0 = executed hooks (i_hash i) pc0) as Hcnt.
    { rewrite <- Hcol. unfold collected. by rewrite Hh. }
    unfold step. rewrite Hg. cbn [mbind option_bind]. rewrite Hd. cbn [mbind option_bind].
    unfold hit, hits. fold pc0. fold (count hm pc0). rewrite checked_in.
    2: { specialize (Hb (i_hash i) pc0). rewrite Hcnt. lia. }
    cbn [mbind option_bind]. eexists _, c'. split; [reflexivity|]. split; [done|].
    split; [|by rewrite Hmaps, Hch, Hcm].
    exists (<[i_hash i := mkHitMap (<[pc0 := count hm pc0 + 1]> (hm_hits hm)) (bytecode hm)]> m).
    rewrite Hmaps, Hch. unfold update. cbn [fst snd]. rewrite lookup_alter_eq, Hm. split_and!; [done| |].
    2: { intros _. rewrite lookup_insert_eq. by eexists. }
    intros hash pc. rewrite executed_snoc, collected_insert, count_insert, <- Hcol. unfold executed. cbn.
    fold pc0. destruct (decide (i_hash i = hash)) as [Hhash|Hhash].
    + rewrite (bool_decide_true (i_hash i = hash)) by done. subst hash. unfold collected. rewrite Hh.
      case_bool_decide as Hpc; [rewrite bool_decide_true by done; subst; lia|].
      rewrite bool_decide_false by naive_solver. unfold count. cbn. lia.
    + rewrite (bool_decide_false (i_hash i = hash)) by done. rewrite bool_decide_false by naive_solver. lia.
Qed.

Lemma executed_bounds hooks hash pc : 0 ≤ executed hooks hash pc ≤ Z.of_nat (length hooks).
Proof.
  induction hooks as [|h hooks IH] using rev_ind; [done|].
  rewrite executed_snoc, length_app, Nat2Z.inj_add. unfold executed at 2 4. cbn.
  destruct h as [i|i]; [lia|]. case_bool_decide; lia.
Qed.

(** A collector that follows the execution of contracts never follows a
    dangling pointer nor panics, as long as no code has the hash zero and
    fewer than 2^32 instructions run: at the end its maps have, for every
    code and program counter, the number of times it was executed. *)
Lemma collector_counts_steps id hooks :
  Forall (λ h, i_hash (hook_interp h) ≠ 0) hooks → Z.of_nat (length hooks) ≤ u32_max →
  ∃ s c m, fold_m run_hook ({[id := ∅]}, collector_default id) hooks = Some (s, c) ∧
    finish s c = Some m ∧ ∀ hash pc, collected m hash pc = executed hooks hash pc.
Proof.
  intros Hh Hlen.
  destruct (fold_m_total run_hook (λ rest st, ∃ past, hooks = past ++ rest ∧ collector_ok st.1 st.2 past))
    with (l := hooks) (b := ({[id := ∅]} : gmap nat (gmap Z HitMap), collector_default id))
    as ((s & c) & Hf & past & -> & [(m & Hm & Hc & _) _]).
  - intros h rest [s c] (past & Heq & Hok). cbn [fst snd] in *.
    destruct (run_hook_spec s c past h Hok) as (s' & c' & Hr & _ & Hok').
    + subst hooks. rewrite Forall_app, Forall_cons in Hh. apply Hh.
    + intros hash pc. pose proof (executed_bounds past hash pc). subst hooks.
      rewrite length_app in Hlen. cbn in Hlen. lia.
    + exists (s', c'). split; [done|]. exists (past ++ [h]). by rewrite <- app_assoc.
  - exists []. split; [done|]. split; [|done]. exists ∅. cbn. rewrite lookup_singleton_eq.
    split_and!; [done| |done]. intros hash pc. unfold collected. by rewrite lookup_empty.
  - exists s, c, m. rewrite app_nil_r in *. by split_and!.
Qed.

(** ** Small runs, for evaluation *)
Definition small_interp (pc : Z) : Interpreter := mkInterp 5 small_code pc.

Lemma collector_counts_steps_witness :
  Z.of_nat 3 ≤ u32_max ∧
  ∃ s c m, fold_m run_hook ({[7%nat := ∅]}, collector_default 7)
      [Init (small_interp 0); Step (small_interp 0); Step (small_interp 0)] = Some (s, c) ∧
    finish s c = Some m ∧ collected m 5 0 = 2.
Proof.
  split; [by vm_compute|].
  destruct (collector_counts_steps 7 [Init (small_interp 0); Step (small_interp 0); Step (small_interp 0)])
    as (s & c & m & H1 & H2 & H3).
  - by repeat constructor.
  - by vm_compute.
  - exists s, c, m. split; [exact H1|]. split; [exact H2|]. rewrite H3. by vm_compute.
Defined.

(** A clone's pointer is still into the maps of the collector it was cloned
    from: its next step on the same code counts there, and not in its own. *)
Lemma clone_counts_in_the_original :
  (λ st, (default 0 (m ← st.1 !! 1%nat; Some (collected m 5 0)),
          default 0 (m ← st.1 !! 2%nat; Some (collected m 5 0)))) <$>
    (st ← run_hook ({[1%nat := ∅]}, collector_default 1) (Step (small_interp 0));
     '(s, c) ← collector_clone st.1 st.2 2;
     run_hook (s, c) (Step (small_interp 0))) = Some (2, 1).
Proof. by vm_compute. Qed.

#[local] Instance small_order : HashOrder Z := elements_order Z.
Definition small_item : CoverageItem := mkItem Statement (mkLoc 0 "C" 0 9 1 2) 4.
Definition small_contract : ContractId (Version := Z) := (1, 0, "C"%string).
Definition small_report : CoverageReport (Version := Z) :=
  mkReport ∅ ∅ {[1 := mkAnalysis [small_item] [(0, 1)]]}
    {[small_contract := ([], [mkAnchor 0 0; mkAnchor 2 0])]} ∅ ∅.
Definition small_calls : list (ContractId (Version := Z) * HitMap * bool) :=
  [(small_contract, mkHitMap {[0 := 1; 2 := 3]} small_code, true)].

Lemma small_counts pc : 0 ≤ count (mkHitMap {[0 := 1; 2 := 3]} small_code) pc ≤ 3.
Proof.
  unfold count. cbn [hm_hits]. rewrite lookup_insert, lookup_singleton. repeat case_decide; cbn; lia.
Qed.
Lemma small_items v (i : nat) it : item_at small_report v i = Some it → v = 1 ∧ i = 0%nat ∧ it = small_item.
Proof.
  unfold item_at. cbn [small_report analyses]. intros (a & Ha & Hi)%bind_Some.
  apply lookup_singleton_Some in Ha as [<- <-]. cbn in Hi.
  by apply list_lookup_singleton_Some in Hi as [-> ->].
Qed.

Lemma report_sums_hits_witness :
  ∃ r', fold_m call_step small_report small_calls = Some r' ∧
    item_at r' 1 0 = Some (mkItem Statement (mkLoc 0 "C" 0 9 1 2) 8).
Proof.
  destruct (report_sums_hits small_report small_calls) as (r' & Hf & Hadds).
  - intros c l Hl. cbn [small_report anchors] in Hl. apply lookup_singleton_Some in Hl as [<- <-].
    exists (mkAnalysis [small_item] [(0, 1)]). split; [by vm_compute|]. split; repeat constructor; cbn; lia.
  - repeat constructor. intros pc. apply small_counts.
  - split.
    + intros v i it (-> & -> & ->)%small_items. by vm_compute.
    + intros c pc. unfold contract_count. cbn [small_report bytecode_hits]. rewrite lookup_empty.
      unfold pc_total, small_calls, pc_share, u32_max. cbn [fmap list_fmap zsum foldr fst snd].
      pose proof (small_counts pc). case_bool_decide; lia.
  - exists r'. split; [exact Hf|].
    rewrite (adds_items _ _ _ _ Hadds 1 0%nat small_item) by done. by vm_compute.
Defined.
