(* ===== verification/FuzzInt.v ===== *)
(** * Fuzzing of integers: evm/fuzz/src/strategies/uint.rs and int.rs

    The value trees that shrink a failing integer, and the strategies that
    generate one.  The random numbers that a strategy draws are an argument;
    [U256] arithmetic wraps, the overflow of an [I256] sum panics ([None]).
    What a test says of a value is a function to [bool]: [true] when it
    fails. *)
From stdpp Require Import base list.
From Stdlib Require Import ZArith Lia.
From S2P Require Import Prelude.
#[local] Open Scope Z_scope.

(** ** [UintValueTree] *)
Record UintValueTree := mkUintTree { u_lo : Z; u_curr : Z; u_hi : Z; u_fixed : bool }.

Definition uint_new (start : Z) (fixed : bool) : UintValueTree := mkUintTree 0 start start fixed.

Definition uint_reposition (t : UintValueTree) : UintValueTree * bool :=
  let interval := wrap_u256 (u_hi t - u_lo t) in
  let new_mid := wrap_u256 (u_lo t + interval / 2) in
  if bool_decide (new_mid = u_curr t) then (t, false)
  else (mkUintTree (u_lo t) new_mid (u_hi t) (u_fixed t), true).

Definition uint_simplify (t : UintValueTree) : UintValueTree * bool :=
  if u_fixed t || bool_decide (u_hi t ≤ u_lo t) then (t, false)
  else uint_reposition (mkUintTree (u_lo t) (u_curr t) (u_curr t) (u_fixed t)).

Definition uint_complicate (t : UintValueTree) : UintValueTree * bool :=
  if u_fixed t || bool_decide (u_hi t ≤ u_lo t) then (t, false)
  else uint_reposition (mkUintTree (wrap_u256 (u_curr t + 1)) (u_curr t) (u_hi t) (u_fixed t)).

(** ** [IntValueTree] *)
Definition i256_min : Z := - 2 ^ 255.
Definition i256_max : Z := 2 ^ 255 - 1.
Definition in_i256 (z : Z) : Prop := i256_min ≤ z ≤ i256_max.
Definition checked_i256 (z : Z) : option Z :=
  if bool_decide (i256_min ≤ z ≤ i256_max) then Some z else None.

Record IntValueTree := mkIntTree { i_lo : Z; i_curr : Z; i_hi : Z; i_fixed : bool }.

Definition int_new (start : Z) (fixed : bool) : IntValueTree := mkIntTree 0 start start fixed.

Definition int_reposition (t : IntValueTree) : option (IntValueTree * bool) :=
  interval ← checked_i256 (i_hi t - i_lo t);
  new_mid ← checked_i256 (i_lo t + interval `quot` 2);
  Some (if bool_decide (new_mid = i_curr t) then (t, false)
        else (mkIntTree (i_lo t) new_mid (i_hi t) (i_fixed t), true)).

Definition magnitude_greater (lhs rhs : Z) : bool :=
  if bool_decide (lhs = 0) then false
  else xorb (bool_decide (rhs < lhs)) (bool_decide (lhs < 0)).

Definition int_simplify (t : IntValueTree) : option (IntValueTree * bool) :=
  if i_fixed t || negb (magnitude_greater (i_hi t) (i_lo t)) then Some (t, false)
  else int_reposition (mkIntTree (i_lo t) (i_curr t) (i_curr t) (i_fixed t)).

Definition int_complicate (t : IntValueTree) : option (IntValueTree * bool) :=
  if i_fixed t || negb (magnitude_greater (i_hi t) (i_lo t)) then Some (t, false)
  else
    lo ← (if negb (bool_decide (i_curr t = i256_min)) && negb (bool_decide (i_curr t = i256_max))
          then checked_i256 (i_curr t + (if bool_decide (i_hi t < 0) then -1 else 1))
          else Some (i_curr t));
    int_reposition (mkIntTree lo (i_curr t) (i_hi t) (i_fixed t)).

(** ** The strategies *)
(** What a strategy draws from the random number generator, each number in
    its range. *)
Record Draws := mkDraws {
  d_bias : nat;          (* below the total weight *)
  d_is_min : bool;
  d_offset : Z;          (* 0..4 *)
  d_kind : nat;          (* 0..4 *)
  d_index : nat;         (* below the number of fixtures *)
  d_bits : Z;            (* 0..=bits *)
  d_higher : Z;          (* u128 *)
  d_lower : Z;           (* u128 *)
  d_positive : bool;
}.

(** Cutting two 128 bit numbers to [x] bits. *)
Definition cut (x higher lower : Z) : Z * Z :=
  if bool_decide (x < 128) then (0, Z.land lower (Z.shiftl 1 x - 1))
  else if bool_decide (128 ≤ x < 256) then (Z.land higher (Z.shiftl 1 (x - 128) - 1), lower)
  else (higher, lower).

(** [from_limbs] of the four halves. *)
Definition limb (z : Z) : Z := wrap_u64 z.
Definition from_halves (higher lower : Z) : Z :=
  limb lower + 2 ^ 64 * limb (Z.shiftr lower 64) + 2 ^ 128 * limb higher +
  2 ^ 192 * limb (Z.shiftr higher 64).

Section strategies.
(** [DynSolValue] with its projections [as_uint] and [as_int]. *)
Context {DynSolValue : Type}.
Variables as_uint as_int : DynSolValue → option (Z * Z).

(** [UintStrategy] and [IntStrategy] have the same fields. *)
Record IntegerStrategy := mkStrategy {
  bits : Z;
  fixtures : list DynSolValue;
  edge_weight : nat;
  fixtures_weight : nat;
  random_weight : nat;
}.
Definition strategy_new (bits : Z) (fixtures : option (list DynSolValue)) : IntegerStrategy :=
  mkStrategy bits (default [] fixtures) 10 40 50.
Implicit Types s : IntegerStrategy.

Definition type_max s : Z :=
  if bool_decide (bits s < 256) then 2 ^ bits s - 1 else u256_max.

Definition uint_edge_tree s (d : Draws) : UintValueTree :=
  uint_new (if d_is_min d then d_offset d else saturating_sub (type_max s) (d_offset d)) false.
Definition uint_random_tree s (d : Draws) : UintValueTree :=
  let '(higher, lower) := cut (d_bits d) (d_higher d) (d_lower d) in
  uint_new (from_halves higher lower) false.
Definition uint_fixtures_tree s (d : Draws) : option UintValueTree :=
  match fixtures s with
  | [] => Some (uint_random_tree s d)
  | l =>
      fixture ← l !! d_index d;
      match as_uint fixture with
      | Some (n, b) => Some (if bool_decide (b = bits s) then uint_new n false else uint_random_tree s d)
      | None => Some (uint_random_tree s d)
      end
  end.
Definition uint_new_tree s (d : Draws) : option UintValueTree :=
  if bool_decide (d_bias d < edge_weight s)%nat then Some (uint_edge_tree s d)
  else if bool_decide (d_bias d < edge_weight s + fixtures_weight s)%nat then uint_fixtures_tree s d
  else Some (uint_random_tree s d).

(** [overflowing_from_sign_and_abs]. *)
Definition from_sign_and_abs (positive : bool) (abs : Z) : Z :=
  wrap_signed 256 (if positive then abs else - abs).

Definition int_edge_start s (d : Draws) : option Z :=
  let umax := 2 ^ (bits s - 1) - 1 in
  match d_kind d with
  | 0%nat => checked_i256 (from_sign_and_abs false (umax + 1) + d_offset d)
  | 1%nat => n ← checked_i256 (- d_offset d); checked_i256 (n - 1)
  | 2%nat => Some (d_offset d)
  | 3%nat => checked_i256 (from_sign_and_abs true umax - d_offset d)
  | _ => None
  end.
Definition int_edge_tree s (d : Draws) : option IntValueTree :=
  start ← int_edge_start s d; Some (int_new start false).
Definition int_random_tree s (d : Draws) : IntValueTree :=
  if bool_decide (d_bits d = 0) then int_new 0 false
  else
    let '(higher, lower) := cut (d_bits d - 1) (d_higher d) (d_lower d) in
    int_new (from_sign_and_abs (d_positive d) (from_halves higher lower)) false.
Definition int_fixtures_tree s (d : Draws) : option IntValueTree :=
  match fixtures s with
  | [] => Some (int_random_tree s d)
  | l =>
      fixture ← l !! d_index d;
      match as_int fixture with
      | Some (n, b) => Some (if bool_decide (b = bits s) then int_new n false else int_random_tree s d)
      | None => Some (int_random_tree s d)
      end
  end.
Definition int_new_tree s (d : Draws) : option IntValueTree :=
  if bool_decide (d_bias d < edge_weight s)%nat then int_edge_tree s d
  else if bool_decide (d_bias d < edge_weight s + fixtures_weight s)%nat then int_fixtures_tree s d
  else Some (int_random_tree s d).
End strategies.
Arguments mkStrategy {DynSolValue}.
Arguments bits {DynSolValue}.
Arguments fixtures {DynSolValue}.
Arguments edge_weight {DynSolValue}.
Arguments fixtures_weight {DynSolValue}.
Arguments random_weight {DynSolValue}.

(** ** Shrinking

    A value tree is driven by the test: the current value is simplified when
    it fails and complicated when it passes, until the tree says that there
    is nothing more to try. *)
Definition uint_probe (fails : Z → bool) (t : UintValueTree) : option (UintValueTree + UintValueTree) :=
  let '(t, more) := if fails (u_curr t) then uint_simplify t else uint_complicate t in
  Some (if more : bool then inl t else inr t).
Definition int_probe (fails : Z → bool) (t : IntValueTree) : option (IntValueTree + IntValueTree) :=
  '(t, more) ← if fails (i_curr t) then int_simplify t else int_complicate t;
  Some (if more : bool then inl t else inr t).

Definition u_mid (t : UintValueTree) : Z := u_lo t + (u_hi t - u_lo t) / 2.

(** The value [u_hi] fails, what is below [u_lo] was passed by, and the
    current value is between them: in the middle, or the failing start. *)
Record uint_search (fails : Z → bool) (start : Z) (t : UintValueTree) : Prop := {
  us_range : 0 ≤ u_lo t ≤ u_curr t ∧ u_curr t ≤ u_hi t ≤ start;
  us_fixed : u_fixed t = false;
  us_hi : fails (u_hi t) = true;
  us_lo : u_lo t = 0 ∨ fails (u_lo t - 1) = false;
  us_curr : u_curr t = u_mid t ∨ u_curr t = u_hi t;
}.

(** The number of halvings left. *)
Definition uint_rounds (t : UintValueTree) : nat :=
  Z.to_nat (if bool_decide (u_hi t = u_lo t) then 0 else Z.log2 (u_hi t - u_lo t) + 1) +
  (if bool_decide (u_curr t = u_mid t) then 0 else 1).

Lemma uint_reposition_spec t :
  0 ≤ u_lo t → u_lo t ≤ u_hi t → u_hi t ≤ u256_max →
  uint_reposition t =
    if bool_decide (u_mid t = u_curr t) then (t, false)
    else (mkUintTree (u_lo t) (u_mid t) (u_hi t) (u_fixed t), true).
Proof.
  intros Hlo Hle Hhi. unfold uint_reposition, u_mid.
  pose proof (Z.div_le_upper_bound (u_hi t - u_lo t) 2 (u_hi t - u_lo t)).
  pose proof (Z.div_pos (u_hi t - u_lo t) 2).
  rewrite !wrap_u256_small; [done|unfold in_u256; lia|].
  rewrite wrap_u256_small; unfold in_u256; lia.
Qed.

Lemma mid_bounds lo hi : lo ≤ hi → lo ≤ lo + (hi - lo) / 2 ≤ hi ∧ (lo < hi → lo + (hi - lo) / 2 < hi).
Proof.
  intros. pose proof (Z.div_pos (hi - lo) 2). pose proof (Z.div_lt (hi - lo) 2).
  destruct (decide (lo = hi)) as [->|]; [rewrite Z.sub_diag, Zdiv_0_l|]; lia.
Qed.

Lemma halved d d' : 0 < d → 0 < d' ≤ d / 2 → Z.log2 d' + 1 ≤ Z.log2 d.
Proof.
  intros Hd Hd'. pose proof (Z.log2_le_mono d' (d / 2)).
  assert (2 ≤ d) by (pose proof (Z.mul_div_le d 2); lia).
  assert (Z.log2 (d / 2) = Z.log2 d - 1) as Hl; [|lia].
  rewrite <- Z.div2_div, Z.div2_spec, Z.log2_shiftr by lia.
  pose proof (Z.log2_pos d). lia.
Qed.

(** What a finished search has found. *)
Definition uint_found (fails : Z → bool) (start : Z) (t : UintValueTree) : Prop :=
  fails (u_curr t) = true ∧ 0 ≤ u_curr t ≤ start ∧
  (u_curr t = 0 ∨ fails (u_curr t - 1) = false).

Lemma uint_simplify_search fails start t :
  start ≤ u256_max → uint_search fails start t → fails (u_curr t) = true →
  let '(t', more) := uint_simplify t in
  if more : bool then uint_search fails start t' ∧ (uint_rounds t' < uint_rounds t)%nat
  else uint_found fails start t'.
Proof.
  intros Hmax [[Hlo Hhi] Hf Hh Hl Hc] Hfail. unfold uint_simplify. rewrite Hf. cbn [orb].
  case_bool_decide as Hle.
  { split_and!; [done|lia|lia|]. by replace (u_curr t) with (u_lo t) by lia. }
  rewrite uint_reposition_spec by (cbn; lia). unfold u_mid. cbn.
  destruct (mid_bounds (u_lo t) (u_curr t)) as (Hm1 & Hm2); [lia|].
  case_bool_decide as Hmid.
  { split_and!; cbn; [done|lia|lia|]. by replace (u_curr t) with (u_lo t) by lia. }
  split; [split; cbn; [lia|done..|by left]|]. unfold uint_rounds, u_mid in *. cbn.
  rewrite (bool_decide_false (u_curr t = u_lo t)) by (intros Heq; rewrite Heq, Z.sub_diag, Zdiv_0_l in Hmid; lia).
  rewrite (bool_decide_false (u_hi t = u_lo t)), bool_decide_true by (done || lia).
  assert (u_curr t ≠ u_lo t) by (intros Heq; rewrite Heq, Z.sub_diag, Zdiv_0_l in Hmid; lia).
  case_bool_decide as Hcm.
  - pose proof (halved (u_hi t - u_lo t) (u_curr t - u_lo t)). pose proof (Z.log2_nonneg (u_curr t - u_lo t)). lia.
  - destruct Hc as [?|Hc]; [done|]. rewrite Hc. pose proof (Z.log2_nonneg (u_hi t - u_lo t)). lia.
Qed.

Lemma uint_complicate_search fails start t :
  start ≤ u256_max → uint_search fails start t → fails (u_curr t) = false →
  let '(t', more) := uint_complicate t in
  more = true ∧ uint_search fails start t' ∧ (uint_rounds t' < uint_rounds t)%nat.
Proof.
  intros Hmax [[Hlo Hhi] Hf Hh Hl Hc] Hpass. unfold uint_complicate. rewrite Hf. cbn [orb].
  assert (u_curr t ≠ u_hi t) as Hne by congruence. destruct Hc as [Hc|]; [|done].
  rewrite bool_decide_false by lia. rewrite wrap_u256_small by (unfold in_u256; lia).
  rewrite uint_reposition_spec by (cbn; lia). unfold u_mid in *. cbn.
  destruct (mid_bounds (u_curr t + 1) (u_hi t)) as (Hm & _); [lia|].
  rewrite bool_decide_false by lia. split; [done|]. split.
  { split; cbn; [lia|done|done| |by left]. right. by replace (u_curr t + 1 - 1) with (u_curr t) by lia. }
  unfold uint_rounds, u_mid. cbn.
  rewrite (bool_decide_false (u_hi t = u_lo t)) by lia.
  rewrite (bool_decide_true (u_curr t + 1 + (u_hi t - (u_curr t + 1)) / 2 = _)) by done.
  rewrite (bool_decide_true (u_curr t = u_lo t + (u_hi t - u_lo t) / 2)) by done.
  pose proof (Z.mul_div_le (u_hi t - u_lo t) 2). pose proof (Z.mod_pos_bound (u_hi t - u_lo t) 2).
  pose proof (Z.div_mod (u_hi t - u_lo t) 2). pose proof (Z.log2_nonneg (u_hi t - u_lo t)).
  case_bool_decide; [lia|].
  pose proof (halved (u_hi t - u_lo t) (u_hi t - (u_curr t + 1))).
  pose proof (Z.log2_nonneg (u_hi t - (u_curr t + 1))). lia.
Qed.

Lemma uint_probe_spec fails start t :
  start ≤ u256_max → uint_search fails start t →
  match uint_probe fails t with
  | Some (inl t') => uint_search fails start t' ∧ (uint_rounds t' < uint_rounds t)%nat
  | Some (inr t') => uint_found fails start t'
  | None => False
  end.
Proof.
  intros Hmax Hs. unfold uint_probe. destruct (fails (u_curr t)) eqn:Hf.
  - pose proof (uint_simplify_search _ _ _ Hmax Hs Hf). by destruct (uint_simplify t) as [t' []].
  - pose proof (uint_complicate_search _ _ _ Hmax Hs Hf) as H.
    destruct (uint_complicate t) as [t' more]. by destruct H as (-> & ? & ?).
Qed.

Lemma uint_new_search fails start :
  0 ≤ start → fails start = true → uint_search fails start (uint_new start false).
Proof. intros. split; cbn; [lia|done|done|by left|by right]. Qed.

(** Shrinking a failing [uint] terminates: after at most two tests more
    than the value has bits it has found a value that fails, is no larger
    than the start, and whose predecessor passes (or it is zero).  For a test
    that fails exactly from some bound on, it is that bound. *)
Lemma uint_shrink_minimal fails start :
  0 ≤ start ≤ u256_max → fails start = true →
  ∃ t, loop (uint_probe fails) (Z.to_nat (Z.log2 start) + 3) (uint_new start false) = Some t ∧
    fails (u_curr t) = true ∧ 0 ≤ u_curr t ≤ start ∧
    (u_curr t = 0 ∨ fails (u_curr t - 1) = false) ∧
    ∀ bound, 0 ≤ bound → (∀ x, 0 ≤ x → fails x = true ↔ bound ≤ x) → u_curr t = bound.
Proof.
  intros [H0 Hmax] Hf.
  destruct (loop_total (uint_probe fails) (uint_search fails start) (uint_found fails start) uint_rounds)
    with (fuel := (Z.to_nat (Z.log2 start) + 3)%nat) (s := uint_new start false)
    as (t & Hl & Hfail & Hr & Hp).
  - intros t Ht. pose proof (uint_probe_spec fails start t Hmax Ht). by destruct (uint_probe fails t) as [[]|].
  - unfold uint_rounds. cbn. rewrite Z.sub_0_r. pose proof (Z.log2_nonneg start).
    repeat case_bool_decide; lia.
  - by apply uint_new_search.
  - exists t. split_and!; [done..|lia|lia|done|]. intros bound Hb Hmono.
    apply Hmono in Hfail; [|lia]. destruct Hp as [Hz|Hp]; [lia|].
    destruct (decide (bound ≤ u_curr t - 1)) as [Hle|]; [|lia].
    apply Hmono in Hle; [congruence|lia].
Qed.

(** ** Signed values shrink like their magnitudes *)
Definition mirror (σ : Z) (t : UintValueTree) : IntValueTree :=
  mkIntTree (σ * u_lo t) (σ * u_curr t) (σ * u_hi t) (u_fixed t).
Definition sign_of (z : Z) : Z := if bool_decide (z < 0) then -1 else 1.
(** [σ] is a sign, and [σ * start] an [I256]. *)
Definition mirrors (σ start : Z) : Prop := (σ = 1 ∧ start ≤ i256_max) ∨ (σ = -1 ∧ start ≤ 2 ^ 255).

Lemma mirrors_sign start : in_i256 start →
  mirrors (sign_of start) (Z.abs start) ∧ sign_of start * Z.abs start = start.
Proof.
  unfold mirrors, sign_of, in_i256, i256_min, i256_max. intros. case_bool_decide; lia.
Qed.

Lemma checked_i256_in z : in_i256 z → checked_i256 z = Some z.
Proof. intros. unfold checked_i256. by rewrite bool_decide_true. Qed.

Lemma mirror_in σ start x : mirrors σ start → 0 ≤ x ≤ start → in_i256 (σ * x).
Proof. unfold mirrors, in_i256, i256_min, i256_max. intros [[-> ?]|[-> ?]]; lia. Qed.

Lemma mirror_reposition σ start t :
  mirrors σ start → 0 ≤ u_lo t → u_lo t ≤ u_hi t ≤ start →
  int_reposition (mirror σ t) = Some (mirror σ (uint_reposition t).1, (uint_reposition t).2).
Proof.
  intros Hσ Hlo Hle. destruct (mid_bounds (u_lo t) (u_hi t)) as (Hm & _); [lia|].
  assert (start ≤ u256_max) as Hmax.
  { unfold mirrors, i256_max, u256_max in *. lia. }
  rewrite uint_reposition_spec by lia. unfold int_reposition, u_mid. cbn [mirror i_lo i_hi i_curr i_fixed].
  rewrite <- Z.mul_sub_distr_l, checked_i256_in by (apply (mirror_in σ start); [done|lia]).
  cbn [mbind option_bind].
  assert ((σ * (u_hi t - u_lo t)) `quot` 2 = σ * ((u_hi t - u_lo t) / 2)) as ->.
  { destruct Hσ as [[-> _]|[-> _]].
    - rewrite !Z.mul_1_l. apply Z.quot_div_nonneg; lia.
    - replace (-1 * (u_hi t - u_lo t)) with (- (u_hi t - u_lo t)) by lia.
      rewrite Z.quot_opp_l, Z.quot_div_nonneg by lia. lia. }
  rewrite <- Z.mul_add_distr_l, checked_i256_in by (apply (mirror_in σ start); [done|lia]).
  cbn [mbind option_bind]. f_equal.
  assert (bool_decide (σ * (u_lo t + (u_hi t - u_lo t) / 2) = σ * u_curr t) =
          bool_decide (u_lo t + (u_hi t - u_lo t) / 2 = u_curr t)) as ->.
  { apply bool_decide_ext. destruct Hσ as [[-> _]|[-> _]]; lia. }
  by case_bool_decide.
Qed.

Lemma mirror_simplify σ start fails t :
  mirrors σ start → uint_search fails start t → fails (u_curr t) = true →
  int_simplify (mirror σ t) = Some (mirror σ (uint_simplify t).1, (uint_simplify t).2).
Proof.
  intros Hσ [[Hlo Hhi] Hf _ _ _] Hfail. unfold int_simplify, uint_simplify. cbn [mirror i_fixed i_hi i_lo].
  rewrite Hf. cbn [orb].
  change (mkIntTree (σ * u_lo t) (i_curr (mirror σ t)) (i_curr (mirror σ t)) false)
    with (mirror σ (mkUintTree (u_lo t) (u_curr t) (u_curr t) false)).
  rewrite (mirror_reposition σ start) by (cbn; done || lia).
  unfold magnitude_greater. case_bool_decide as Hz.
  { rewrite bool_decide_true by (destruct Hσ as [[-> _]|[-> _]]; lia). done. }
  case_bool_decide as Hlt; case_bool_decide as Hneg; cbn [xorb negb].
  all: case_bool_decide as Hle; try done; try (destruct Hσ as [[-> _]|[-> _]]; exfalso; lia).
  rewrite uint_reposition_spec by (unfold mirrors, i256_max, u256_max in *; cbn; lia).
  destruct t as [lo curr hi fixed]. cbn in *. assert (curr = lo) as -> by lia.
  assert (hi = lo) as -> by lia. unfold u_mid. cbn.
  rewrite Z.sub_diag, Zdiv_0_l, Z.add_0_r, bool_decide_true by done. by rewrite Hf.
Qed.

Lemma mirror_complicate σ start fails t :
  mirrors σ start → uint_search fails start t → fails (u_curr t) = false →
  int_complicate (mirror σ t) = Some (mirror σ (uint_complicate t).1, (uint_complicate t).2).
Proof.
  intros Hσ [[Hlo Hhi] Hf Hh _ Hc] Hpass. unfold int_complicate, uint_complicate.
  cbn [mirror i_fixed i_hi i_lo i_curr]. rewrite Hf. cbn [orb].
  assert (u_curr t < u_hi t) as Hlt.
  { assert (u_curr t ≠ u_hi t) by congruence. lia. }
  rewrite (bool_decide_false (u_hi t ≤ u_lo t)) by lia. rewrite wrap_u256_small.
  2: { unfold mirrors, i256_max, in_u256, u256_max in *. lia. }
  assert (magnitude_greater (σ * u_hi t) (σ * u_lo t) = true) as ->.
  { unfold magnitude_greater. destruct Hσ as [[-> _]|[-> _]]; rewrite bool_decide_false by lia.
    - by rewrite bool_decide_true, bool_decide_false by lia.
    - by rewrite bool_decide_false, bool_decide_true by lia. }
  cbn [negb].
  rewrite (bool_decide_false (σ * u_curr t = i256_min)), (bool_decide_false (σ * u_curr t = i256_max))
    by (unfold mirrors, i256_min, i256_max in *; lia). cbn [negb andb].
  assert (σ * u_curr t + (if bool_decide (σ * u_hi t < 0) then -1 else 1) = σ * (u_curr t + 1)) as ->.
  { case_bool_decide; destruct Hσ as [[-> _]|[-> _]]; lia. }
  rewrite checked_i256_in by (apply (mirror_in σ start); [done|lia]). cbn [mbind option_bind].
  change (mkIntTree (σ * (u_curr t + 1)) (σ * u_curr t) (σ * u_hi t) false)
    with (mirror σ (mkUintTree (u_curr t + 1) (u_curr t) (u_hi t) false)).
  by rewrite (mirror_reposition σ start) by (cbn; done || lia).
Qed.

Lemma mirror_loop σ start fails n : ∀ t,
  mirrors σ start → uint_search (λ x, fails (σ * x)) start t →
  loop (int_probe fails) n (mirror σ t) = mirror σ <$> loop (uint_probe (λ x, fails (σ * x))) n t.
Proof.
  induction n as [|n IH]; intros t Hσ Hs; [done|]. cbn [loop].
  assert (start ≤ u256_max) as Hmax by (unfold mirrors, i256_max, u256_max in *; lia).
  pose proof (uint_probe_spec _ start t Hmax Hs) as Hp.
  unfold int_probe, uint_probe in *. cbn [mirror i_curr] in *.
  destruct (fails (σ * u_curr t)) eqn:Hf.
  - rewrite (mirror_simplify σ start _ t Hσ Hs Hf). cbn [mbind option_bind].
    destruct (uint_simplify t) as [t' []]; cbn; [|done]. destruct Hp as [Hp _]. by apply IH.
  - rewrite (mirror_complicate σ start _ t Hσ Hs Hf). cbn [mbind option_bind].
    destruct (uint_complicate t) as [t' []]; cbn; [|done]. destruct Hp as [Hp _]. by apply IH.
Qed.

(** A failing [int] shrinks exactly as its magnitude does as a [uint],
    with the sign of the start kept: the searches take the same steps, and
    the value found fails, is no larger in magnitude and has a neighbour
    towards zero that passes (or it is zero). *)
Lemma int_shrink_mirrors_uint fails start :
  let σ := sign_of start in
  in_i256 start → fails start = true →
  (∀ n, loop (int_probe fails) n (int_new start false) =
    mirror σ <$> loop (uint_probe (λ x, fails (σ * x))) n (uint_new (Z.abs start) false)) ∧
  ∃ t, loop (int_probe fails) (Z.to_nat (Z.log2 (Z.abs start)) + 3) (int_new start false) = Some t ∧
    fails (i_curr t) = true ∧ 0 ≤ σ * i_curr t ≤ Z.abs start ∧
    (i_curr t = 0 ∨ fails (i_curr t - σ) = false).
Proof.
  intros σ Hin Hf. destruct (mirrors_sign start Hin) as [Hσ Heq]. fold σ in Hσ, Heq.
  assert (start = σ * Z.abs start) as Heq' by done. rewrite Heq' in Hf at 1.
  assert (Z.abs start ≤ u256_max) as Hmax by (unfold mirrors, i256_max, u256_max in *; lia).
  pose proof (uint_new_search (λ x, fails (σ * x)) (Z.abs start) (Z.abs_nonneg _) Hf) as Hs.
  assert (int_new start false = mirror σ (uint_new (Z.abs start) false)) as Hnew.
  { unfold int_new, mirror, uint_new. cbn. by rewrite Heq, Z.mul_0_r. }
  assert (∀ n, loop (int_probe fails) n (int_new start false) =
    mirror σ <$> loop (uint_probe (λ x, fails (σ * x))) n (uint_new (Z.abs start) false)) as Hall.
  { intros n. rewrite Hnew. by apply (mirror_loop σ (Z.abs start)). }
  split; [exact Hall|].
  destruct (loop_total (uint_probe (λ x, fails (σ * x))) (uint_search (λ x, fails (σ * x)) (Z.abs start))
    (uint_found (λ x, fails (σ * x)) (Z.abs start)) uint_rounds)
    with (fuel := (Z.to_nat (Z.log2 (Z.abs start)) + 3)%nat) (s := uint_new (Z.abs start) false)
    as (t & Hl & Hfail & Hr & Hp).
  - intros t Ht. pose proof (uint_probe_spec _ _ t Hmax Ht). by destruct (uint_probe _ t) as [[]|].
  - unfold uint_rounds. cbn. rewrite Z.sub_0_r. pose proof (Z.log2_nonneg (Z.abs start)).
    repeat case_bool_decide; lia.
  - done.
  - exists (mirror σ t). rewrite Hall, Hl. cbn [mirror i_curr fmap option_fmap option_map].
    assert (σ * σ = 1) as Hσσ by (destruct Hσ as [[-> _]|[-> _]]; done).
    split_and!; [done|done|nia..|]. destruct Hp as [Hz|Hp]; [left; lia|right].
    by replace (σ * u_curr t - σ) with (σ * (u_curr t - 1)) by lia.
Qed.

(** A signed tree whose bounds meet below zero does not stop: complicating it
    leaves its range, as [magnitude_greater] holds of a negative number and
    itself. *)
Lemma magnitude_greater_itself x : x < 0 → magnitude_greater x x = true.
Proof.
  intros. unfold magnitude_greater. rewrite bool_decide_false by lia.
  by rewrite bool_decide_false, bool_decide_true by lia.
Qed.
Lemma int_complicate_leaves_range :
  int_complicate (mkIntTree (-128) (-128) (-128) false) =
    Some (mkIntTree (-129) (-129) (-128) false, true) ∧
  uint_complicate (mkUintTree 255 255 255 false) = (mkUintTree 255 255 255 false, false).
Proof. split; reflexivity. Qed.

(** ** Generated values are values of the type *)
Section generated.
Context {DynSolValue : Type}.
Variables as_uint as_int : DynSolValue → option (Z * Z).
Implicit Types (s : IntegerStrategy (DynSolValue := DynSolValue)) (d : Draws).

Definition draws_ok s d : Prop :=
  0 ≤ d_offset d < 4 ∧ (d_kind d < 4)%nat ∧
  (fixtures s ≠ [] → (d_index d < length (fixtures s))%nat) ∧
  0 ≤ d_bits d ≤ bits s ∧ in_u128 (d_higher d) ∧ in_u128 (d_lower d).
Definition uint_typed (b n : Z) : Prop := 0 ≤ n < 2 ^ b.
Definition int_typed (b n : Z) : Prop := - 2 ^ (b - 1) ≤ n < 2 ^ (b - 1).

Lemma from_halves_spec higher lower : in_u128 higher → in_u128 lower →
  from_halves higher lower = lower + 2 ^ 128 * higher.
Proof.
  unfold in_u128, u128_max, from_halves, limb, wrap_u64. intros Hh Hl.
  rewrite !Z.shiftr_div_pow2 by lia.
  rewrite (Z.mod_small (lower / 2 ^ 64)), (Z.mod_small (higher / 2 ^ 64)).
  - pose proof (Z.div_mod lower (2 ^ 64)). pose proof (Z.div_mod higher (2 ^ 64)). lia.
  - split; [apply Z.div_pos; lia|apply Z.div_lt_upper_bound; lia].
  - split; [apply Z.div_pos; lia|apply Z.div_lt_upper_bound; lia].
Qed.

Lemma mask_mod z x : 0 ≤ x → Z.land z (Z.shiftl 1 x - 1) = z mod 2 ^ x.
Proof.
  intros. rewrite Z.shiftl_1_l.
  replace (2 ^ x - 1) with (Z.ones x) by (rewrite Z.ones_equiv; lia). by apply Z.land_ones.
Qed.

Lemma cut_spec x higher lower : 0 ≤ x ≤ 256 → in_u128 higher → in_u128 lower →
  let '(h, l) := cut x higher lower in in_u128 h ∧ in_u128 l ∧ l + 2 ^ 128 * h < 2 ^ x.
Proof.
  unfold in_u128, u128_max, cut. intros Hx Hh Hl. case_bool_decide; [|case_bool_decide].
  - rewrite mask_mod by lia. pose proof (Z.mod_pos_bound lower (2 ^ x)).
    assert (2 ^ x ≤ 2 ^ 128) by (apply Z.pow_le_mono_r; lia).
    assert (0 < 2 ^ x) by (apply Z.pow_pos_nonneg; lia). lia.
  - rewrite mask_mod by lia. set (y := x - 128). pose proof (Z.mod_pos_bound higher (2 ^ y)).
    assert (2 ^ y ≤ 2 ^ 128) by (apply Z.pow_le_mono_r; lia).
    assert (0 < 2 ^ y) by (apply Z.pow_pos_nonneg; lia).
    replace (2 ^ x) with (2 ^ 128 * 2 ^ y) by (rewrite <- Z.pow_add_r by lia; f_equal; lia). nia.
  - assert (x = 256) as -> by lia. lia.
Qed.

Lemma halves_below x higher lower : 0 ≤ x ≤ 256 → in_u128 higher → in_u128 lower →
  let '(h, l) := cut x higher lower in 0 ≤ from_halves h l < 2 ^ x.
Proof.
  intros Hx Hh Hl. pose proof (cut_spec x _ _ Hx Hh Hl) as Hc. destruct (cut x higher lower) as [h l].
  destruct Hc as (? & ? & ?). rewrite from_halves_spec by done. unfold in_u128 in *. lia.
Qed.

Lemma pow_bits b : 8 ≤ b ≤ 256 →
  2 ^ b = 2 * 2 ^ (b - 1) ∧ 128 ≤ 2 ^ (b - 1) ≤ 2 ^ 255.
Proof.
  intros. split; [rewrite <- Z.pow_succ_r by lia; f_equal; lia|].
  split; [change 128 with (2 ^ 7)|]; apply Z.pow_le_mono_r; lia.
Qed.

Lemma uint_random_fits s d : 8 ≤ bits s ≤ 256 → draws_ok s d →
  ∃ n, uint_random_tree s d = uint_new n false ∧ uint_typed (bits s) n.
Proof.
  intros Hb (_ & _ & _ & Hd & Hh & Hl). unfold uint_random_tree.
  pose proof (halves_below (d_bits d) _ _ ltac:(lia) Hh Hl) as Hc.
  destruct (cut _ _ _) as [h l]. eexists. split; [done|]. unfold uint_typed.
  pose proof (Z.pow_le_mono_r 2 (d_bits d) (bits s)). lia.
Qed.

Lemma int_random_fits s d : 8 ≤ bits s ≤ 256 → draws_ok s d →
  ∃ n, int_random_tree s d = int_new n false ∧ int_typed (bits s) n.
Proof.
  intros Hb (_ & _ & _ & Hd & Hh & Hl). unfold int_random_tree, int_typed.
  destruct (pow_bits (bits s) Hb) as [_ Hp]. case_bool_decide as Hz; [exists 0; split; [done|lia]|].
  pose proof (halves_below (d_bits d - 1) _ _ ltac:(lia) Hh Hl) as Hc.
  destruct (cut _ _ _) as [h l]. eexists. split; [done|].
  pose proof (Z.pow_le_mono_r 2 (d_bits d - 1) (bits s - 1)).
  unfold from_sign_and_abs. rewrite wrap_signed_small; destruct (d_positive d); cbn [Z.sub] in *; lia.
Qed.

Lemma int_edge_fits s d : 8 ≤ bits s ≤ 256 → draws_ok s d →
  ∃ n, int_edge_tree s d = Some (int_new n false) ∧ int_typed (bits s) n.
Proof.
  intros Hb (Ho & Hk & _). unfold int_edge_tree, int_edge_start, int_typed.
  destruct (pow_bits (bits s) Hb) as [_ Hp]. set (m := 2 ^ (bits s - 1)) in *.
  assert (∀ z, - m ≤ z < m → checked_i256 z = Some z) as Hin.
  { intros z Hz. apply checked_i256_in. unfold in_i256, i256_min, i256_max. lia. }
  destruct (d_kind d) as [|[|[|[|]]]]; [..|lia].
  - unfold from_sign_and_abs. rewrite wrap_signed_small by (cbn; lia). rewrite Hin by lia.
    cbn. eexists. split; [done|lia].
  - rewrite (Hin (- d_offset d)) by lia. cbn. rewrite Hin by lia. cbn. eexists. split; [done|lia].
  - cbn. eexists. split; [done|lia].
  - unfold from_sign_and_abs. rewrite wrap_signed_small by (cbn; lia). rewrite Hin by lia.
    cbn. eexists. split; [done|lia].
Qed.

(** C39: whatever is drawn, and for every width from 8 to 256 bits with
    fixtures that are values of their own type, both strategies give a tree
    that starts at a value of the fuzzed type and may be shrunk. *)
Theorem generated_values_fit s d :
  8 ≤ bits s ≤ 256 → draws_ok s d →
  (∀ f n b, as_uint f = Some (n, b) → uint_typed b n) →
  (∀ f n b, as_int f = Some (n, b) → int_typed b n) →
  (∃ n, uint_new_tree as_uint s d = Some (uint_new n false) ∧ uint_typed (bits s) n) ∧
  (∃ n, int_new_tree as_int s d = Some (int_new n false) ∧ int_typed (bits s) n).
Proof.
  intros Hb Hd Hu Hi. destruct (uint_random_fits s d Hb Hd) as (nu & Hru & Hnu).
  destruct (int_random_fits s d Hb Hd) as (ni & Hri & Hni).
  destruct (int_edge_fits s d Hb Hd) as (ne & Hre & Hne).
  unfold uint_new_tree, int_new_tree, uint_fixtures_tree, int_fixtures_tree. rewrite Hru, Hri, Hre.
  assert (uint_typed (bits s) (u_curr (uint_edge_tree s d))) as Hedge.
  { destruct Hd as (Ho & _). destruct (pow_bits (bits s) Hb) as [Hpow Hp].
    unfold uint_typed, uint_edge_tree, type_max, saturating_sub, u256_max. cbn.
    destruct (d_is_min d); [lia|]. case_bool_decide; [lia|]. assert (bits s = 256) as -> by lia. lia. }
  assert (fixtures s = [] ∨ ∃ f, fixtures s !! d_index d = Some f) as [Hf|[f Hf]].
  { destruct Hd as (_ & _ & Hidx & _). destruct (fixtures s) eqn:Hl; [by left|right].
    apply lookup_lt_is_Some_2. by apply Hidx. }
  { rewrite Hf. split; repeat case_bool_decide; eauto. }
  assert (fixtures s ≠ []) as Hne' by (intros Hf'; by rewrite Hf' in Hf).
  destruct (fixtures s) as [|f0 l] eqn:Hl; [done|]. rewrite Hf. cbn [mbind option_bind].
  specialize (Hu f). specialize (Hi f).
  split; (case_bool_decide; [by eauto|]); (case_bool_decide; [|by eauto]).
  - destruct (as_uint f) as [[n b]|]; [|by eauto]. case_bool_decide as Hbb; [|by eauto].
    exists n. split; [done|]. rewrite <- Hbb. by apply Hu.
  - destruct (as_int f) as [[n b]|]; [|by eauto]. case_bool_decide as Hbb; [|by eauto].
    exists n. split; [done|]. rewrite <- Hbb. by apply Hi.
Qed.
End generated.

(** ** Instances *)
Lemma uint_shrink_minimal_witness :
  ∃ t, loop (uint_probe (λ x, bool_decide (57 ≤ x))) 12 (uint_new 1000 false) = Some t ∧ u_curr t = 57.
Proof.
  destruct (uint_shrink_minimal (λ x, bool_decide (57 ≤ x)) 1000) as (t & Hl & _ & _ & _ & Hb).
  - by split.
  - done.
  - exists t. split; [exact Hl|]. apply Hb; [done|]. intros x _. apply bool_decide_eq_true.
Defined.

Lemma int_shrink_mirrors_uint_witness :
  ∃ t, loop (int_probe (λ x, bool_decide (x ≤ -5))) 9 (int_new (-100) false) = Some t ∧
    0 ≤ -1 * i_curr t ≤ 100.
Proof.
  destruct (int_shrink_mirrors_uint (λ x, bool_decide (x ≤ -5)) (-100)) as (_ & t & Hl & _ & Hr & _).
  - by vm_compute.
  - done.
  - exists t. split; [exact Hl|exact Hr].
Defined.

(** [inl]: a uint with its width, [inr]: an int. *)
Definition sample_uint (v : Z * Z + Z * Z) : option (Z * Z) :=
  match v with inl (n, b) => if bool_decide (uint_typed b n) then Some (n, b) else None | _ => None end.
Definition sample_int (v : Z * Z + Z * Z) : option (Z * Z) :=
  match v with inr (n, b) => if bool_decide (int_typed b n) then Some (n, b) else None | _ => None end.
Lemma generated_values_fit_witness :
  ∃ n, uint_new_tree sample_uint (strategy_new 8 (Some [inl (200, 8)]))
      (mkDraws 12 true 3 0 0 8 77 1000 true) = Some (uint_new n false) ∧ uint_typed 8 n.
Proof.
  refine (proj1 (generated_values_fit sample_uint sample_int (strategy_new 8 (Some [inl (200, 8)]))
    (mkDraws 12 true 3 0 0 8 77 1000 true) _ _ _ _)).
  - by vm_compute.
  - split_and!; cbn; try (vm_compute; done || lia). all: unfold in_u128, u128_max; cbn; lia.
  - intros [[n b]|[n b]] n' b'; unfold sample_uint; [|done]. case_bool_decide; [|done]. by intros [= <- <-].
  - intros [[n b]|[n b]] n' b'; unfold sample_int; [done|]. case_bool_decide; [|done]. by intros [= <- <-].
Defined.
