(* ===== verification/Shrink.v ===== *)
(** * Shrinking a failing call sequence:
    evm/evm/src/executors/invariant/shrink.rs

    [shrink_sequence] removes the calls of a sequence that broke an invariant
    one at a time, over and over, as long as the rest still breaks it.
    Executing a call and calling the invariant are other code, the interface
    [InvariantExecutor], which [InvariantRun] gives; each of them may fail. *)
From stdpp Require Import base list gmap sets.
From Stdlib Require Import ZArith Lia.
From S2P Require Import Prelude.
#[local] Open Scope nat_scope.

(** What executing a call tells is a type of the executor; [call_output] is
    the returned data. *)
Class InvariantExecutor (Executor Tx Bytes Error : Type) := {
  CallResult : Type;
  reverted : CallResult → bool;
  call_output : CallResult → Bytes;
  execute_tx : Executor → Tx → result Error (Executor * CallResult);
  commit : Executor → CallResult → Executor;
  call_invariant : Executor → result Error bool;       (* success *)
  call_after_invariant : Executor → result Error bool;
  MAGIC_ASSUME : Bytes;
}.

(** [VarBitSet]: the ids of the calls that are kept. *)
Definition saturated (n : nat) : gset nat := set_seq 0 n.
Definition current (n : nat) (included : gset nat) : list nat :=
  filter (λ call_id, call_id ∈ included) (seq 0 n).

Section shrink.
Context {Executor Tx Bytes Error : Type} `{!EqDecision Bytes}.
Context `{!InvariantExecutor Executor Tx Bytes Error}.
Implicit Types (calls : list Tx) (e : Executor) (included : gset nat).

(** [check_sequence]: success, and whether all calls were applied; [None] is
    an index out of range. *)
Fixpoint apply_calls calls (fail_on_revert : bool) (sequence : list nat) e
    : option (result Error (Executor * bool)) :=
  match sequence with
  | [] => Some (Ok (e, true))
  | call_index :: sequence =>
      tx ← calls !! call_index;
      match execute_tx e tx with
      | Err err => Some (Err err)
      | Ok (e, call_result) =>
          let e := commit e call_result in
          if reverted call_result && fail_on_revert &&
             negb (bool_decide (call_output call_result = MAGIC_ASSUME))
          then Some (Ok (e, false))
          else apply_calls calls fail_on_revert sequence e
      end
  end.

Definition check_sequence e calls (sequence : list nat) (fail_on_revert after : bool)
    : option (result Error (bool * bool)) :=
  r ← apply_calls calls fail_on_revert sequence e;
  Some ('(e, applied) ← r;
        if negb applied then Ok (false, false)
        else
          success ← call_invariant e;
          success ← (if success && after then call_after_invariant e else Ok success);
          Ok (success, true)).

(** The loop over the runs: run [i] stops when [stop i]. *)
Definition next_call (n call_idx : nat) : nat :=
  if bool_decide (call_idx + 1 = n) then 0 else call_idx + 1.

Fixpoint shrink_loop (check : gset nat → option (result Error (bool * bool))) (n : nat)
    (stop : nat → bool) (runs i : nat) included (call_idx : nat) : option (gset nat) :=
  match runs with
  | 0 => Some included
  | S runs =>
      if stop i then Some included
      else
        let candidate := included ∖ {[call_idx]} in
        verdict ← check candidate;
        let continue kept := shrink_loop check n stop runs (S i) kept (next_call n call_idx) in
        match verdict with
        | Ok (false, _) => if bool_decide (size candidate = 1) then Some candidate else continue candidate
        | Ok (true, _) => continue ({[call_idx]} ∪ candidate)
        | Err _ => continue candidate
        end
  end.

Definition shrink_sequence (run_limit : nat) (fail_on_revert after : bool) e calls (stop : nat → bool)
    : option (result Error (list Tx)) :=
  match call_invariant e with
  | Err err => Some (Err err)
  | Ok false => Some (Ok [])
  | Ok true =>
      let n := length calls in
      let check included := check_sequence e calls (current n included) fail_on_revert after in
      included ← shrink_loop check n stop run_limit 0 (saturated n) 0;
      kept ← mapM (λ idx, calls !! idx) (current n included);
      Some (Ok kept)
  end.

(** ** Correctness, when no candidate's check fails with an error *)
Section loop.
Variables (fails : gset nat → bool) (applied : gset nat → bool) (n : nat) (stop : nat → bool).
Definition pure_check (included : gset nat) : option (result Error (bool * bool)) :=
  Some (Ok (negb (fails included), applied included)).

(** The call [i] cannot be removed. *)
Definition stuck included (i : nat) : Prop := i ∈ included → fails (included ∖ {[i]}) = false.
Definition minimal included : Prop := size included = 1 ∨ ∀ i, i < n → stuck included i.

(** One run that does not end the loop. *)
Definition shrink_once included (i : nat) : gset nat :=
  if fails (included ∖ {[i]}) then included ∖ {[i]} else {[i]} ∪ included ∖ {[i]}.

Lemma without_absent included i : i ∉ included → included ∖ {[i]} = included.
Proof. set_solver. Qed.

Lemma shrink_once_stuck included i :
  fails included = true → stuck included i → shrink_once included i = included.
Proof.
  intros Hf Hs. unfold shrink_once. destruct (decide (i ∈ included)) as [Hi|Hi].
  - rewrite (Hs Hi). symmetry. by apply union_difference_singleton_L.
  - by rewrite without_absent, Hf by done.
Qed.

Lemma shrink_once_cases included i : fails included = true →
  fails (shrink_once included i) = true ∧
  ((shrink_once included i = included ∧ stuck included i) ∨
   (shrink_once included i ⊂ included)).
Proof.
  intros Hf. destruct (decide (i ∈ included)) as [Hi|Hi].
  - destruct (fails (included ∖ {[i]})) eqn:Hr.
    + unfold shrink_once. rewrite Hr. split; [done|right]. clear -Hi. set_solver.
    + assert (stuck included i) as Hs by by intros _. rewrite shrink_once_stuck by done.
      by split; [|left].
  - assert (stuck included i) as Hs by by intros ?. rewrite shrink_once_stuck by done.
    by split; [|left].
Qed.

Lemma shrink_loop_unfold runs i included idx : fails included = true →
  shrink_loop pure_check n stop (S runs) i included idx =
    if stop i then Some included
    else if fails (included ∖ {[idx]}) && bool_decide (size (included ∖ {[idx]}) = 1)
    then Some (shrink_once included idx)
    else shrink_loop pure_check n stop runs (S i) (shrink_once included idx) (next_call n idx).
Proof.
  intros Hf. unfold shrink_once. cbn. destruct (stop i); [done|].
  destruct (fails (included ∖ {[idx]})); cbn; [by case_bool_decide|done].
Qed.

(** What remains fails and consists of calls of the sequence. *)
Lemma shrink_loop_sound runs : ∀ i included idx, fails included = true →
  ∃ kept, shrink_loop pure_check n stop runs i included idx = Some kept ∧
    fails kept = true ∧ kept ⊆ included.
Proof.
  induction runs as [|runs IH]; intros i included idx Hf; [by exists included|].
  rewrite shrink_loop_unfold by done. destruct (stop i); [by exists included|].
  destruct (shrink_once_cases included idx Hf) as [Hf' Hcase].
  assert (shrink_once included idx ⊆ included) as Hsub by (destruct Hcase as [[-> _]|[]]; done).
  destruct (fails (included ∖ {[idx]}) && _); [by exists (shrink_once included idx)|].
  destruct (IH (S i) _ (next_call n idx) Hf') as (kept & -> & ? & ?). exists kept.
  split_and!; [done|done|]. by etrans.
Qed.

Lemma next_call_mod idx k : idx < n → Nat.iter k (next_call n) idx = (idx + k) mod n.
Proof.
  intros Hidx. induction k as [|k IH]; [by rewrite Nat.add_0_r, Nat.mod_small|].
  cbn [Nat.iter nat_rect]. unfold Nat.iter in IH. rewrite IH. unfold next_call.
  pose proof (Nat.mod_upper_bound (idx + k) n ltac:(lia)) as Hlt.
  set (r := (idx + k) mod n) in *. replace (idx + S k) with (idx + k + 1) by lia. rewrite <- (Nat.Div0.add_mod_idemp_l (idx + k) 1 n). fold r.
  case_bool_decide as Hn; [by rewrite Hn, Nat.Div0.mod_same|]. by rewrite Nat.mod_small by lia.
Qed.

(** Over [k] runs either a call goes or the calls tried cannot be removed. *)
Lemma shrink_loop_pass k : ∀ runs i included idx, fails included = true → (∀ j, stop j = false) →
  (∃ kept, shrink_loop pure_check n stop (k + runs) i included idx = Some kept ∧ minimal kept) ∨
  (∃ included' i' idx' k', shrink_loop pure_check n stop (k + runs) i included idx =
      shrink_loop pure_check n stop (k' + runs) i' included' idx' ∧
    fails included' = true ∧ included' ⊂ included ∧ (idx < n → idx' < n)) ∨
  (∃ i', shrink_loop pure_check n stop (k + runs) i included idx =
      shrink_loop pure_check n stop runs i' included (Nat.iter k (next_call n) idx) ∧
    ∀ j, j < k → stuck included (Nat.iter j (next_call n) idx)).
Proof.
  induction k as [|k IH]; intros runs i included idx Hf Hstop.
  { right. right. exists i. split; [done|]. lia. }
  change (S k + runs) with (S (k + runs)). rewrite shrink_loop_unfold, Hstop by done.
  destruct (shrink_once_cases included idx Hf) as [Hf' Hcase].
  assert (idx < n → next_call n idx < n) as Hnext by (unfold next_call; case_bool_decide; lia).
  destruct (fails (included ∖ {[idx]}) && bool_decide (size (included ∖ {[idx]}) = 1)) eqn:Hb.
  - apply andb_true_iff in Hb as [Hb1 Hb2%bool_decide_eq_true]. left. eexists. split; [done|left].
    unfold shrink_once. by rewrite Hb1.
  - destruct Hcase as [[-> Hstuck]|Hlt].
    + destruct (IH runs (S i) included (next_call n idx) Hf Hstop)
        as [?|[(inc' & i' & idx' & k' & -> & ? & ? & ?)|(i' & -> & Hall)]]; [by left|right; left|right; right].
      * exists inc', i', idx', k'. split_and!; auto.
      * exists i'. split; [by rewrite <- Nat.iter_succ_r|]. intros [|j] Hj; [done|].
        rewrite Nat.iter_succ_r. apply Hall. lia.
    + right. left. exists (shrink_once included idx), (S i), (next_call n idx), k. by split_and!.
Qed.

Lemma shrink_loop_stable runs : ∀ i included idx, fails included = true →
  (∀ j, stop j = false) → (∀ j, j < n → stuck included j) → idx < n →
  ∃ kept, shrink_loop pure_check n stop runs i included idx = Some kept ∧ minimal kept.
Proof.
  induction runs as [|runs IH]; intros i included idx Hf Hstop Hall Hidx.
  { exists included. by split; [|right]. }
  rewrite shrink_loop_unfold, Hstop by done.
  rewrite (shrink_once_stuck included idx Hf (Hall idx Hidx)).
  destruct (_ && _); [exists included; by split; [|right]|]. apply IH; [done..|].
  unfold next_call. case_bool_decide; lia.
Qed.

(** [size] rounds over all calls are enough. *)
Lemma shrink_loop_minimal m : ∀ runs i included idx, size included ≤ m → m * n ≤ runs → idx < n →
  fails included = true → (∀ j, stop j = false) →
  ∃ kept, shrink_loop pure_check n stop runs i included idx = Some kept ∧ minimal kept.
Proof.
  induction m as [|m IH]; intros runs i included idx Hm Hruns Hidx Hf Hstop.
  { apply shrink_loop_stable; [done..| |done]. intros j _ Hj.
    assert (size included = 0) as H0 by lia. apply size_empty_inv in H0. by apply H0, not_elem_of_empty in Hj. }
  assert (runs = n + (runs - n)) as -> by lia.
  destruct (shrink_loop_pass n (runs - n) i included idx Hf Hstop)
    as [?|[(inc' & i' & idx' & k' & -> & Hf' & Hsub & Hi')|(i' & -> & Hall)]]; [done| |].
  - apply IH; [|lia|by apply Hi'|done|done].
    pose proof (subset_size inc' included Hsub). lia.
  - apply shrink_loop_stable; [done..| |].
    + intros j Hj. specialize (Hall ((j + n - idx) mod n)). rewrite next_call_mod in Hall by done.
      assert ((idx + (j + n - idx) mod n) mod n = j) as Heq.
      { rewrite Nat.Div0.add_mod_idemp_r. replace (idx + (j + n - idx)) with (j + 1 * n) by lia.
        rewrite Nat.Div0.mod_add. by apply Nat.mod_small. }
      rewrite Heq in Hall. apply Hall. apply Nat.mod_upper_bound. lia.
    + rewrite next_call_mod by done. apply Nat.mod_upper_bound. lia.
Qed.
End loop.

(** ** [shrink_sequence] *)
(** The check of a candidate sequence as a function. *)
Definition checks e calls (fail_on_revert after : bool) (fails applied : gset nat → bool) : Prop :=
  ∀ included, check_sequence e calls (current (length calls) included) fail_on_revert after =
    Some (Ok (negb (fails included), applied included)).

Lemma filter_all {A} (P : A → Prop) `{!∀ x, Decision (P x)} (l : list A) :
  (∀ x, x ∈ l → P x) → filter P l = l.
Proof.
  induction l as [|x l IH]; intros Hl; [done|]. rewrite filter_cons_True by (apply Hl; left).
  f_equal. apply IH. intros y Hy. apply Hl. by right.
Qed.

Lemma current_saturated n : current n (saturated n) = seq 0 n.
Proof.
  apply filter_all. intros i Hi. unfold saturated. rewrite elem_of_set_seq. apply elem_of_seq in Hi. lia.
Qed.

Lemma shrink_loop_ext check check' n stop runs : (∀ x, check x = check' x) →
  ∀ i included idx, shrink_loop check n stop runs i included idx = shrink_loop check' n stop runs i included idx.
Proof.
  intros Hc. induction runs as [|runs IH]; intros i included idx; [done|]. cbn [shrink_loop].
  rewrite Hc. destruct (stop i); [done|]. destruct (check' _) as [[[[] ?]|err]|]; cbn; [|..|done].
  - by rewrite IH.
  - case_bool_decide; [done|by rewrite IH].
  - by rewrite IH.
Qed.

(** Running the transactions themselves. *)
Fixpoint run_calls (fail_on_revert : bool) (txs : list Tx) e : result Error (Executor * bool) :=
  match txs with
  | [] => Ok (e, true)
  | tx :: txs =>
      match execute_tx e tx with
      | Err err => Err err
      | Ok (e, call_result) =>
          let e := commit e call_result in
          if reverted call_result && fail_on_revert &&
             negb (bool_decide (call_output call_result = MAGIC_ASSUME))
          then Ok (e, false)
          else run_calls fail_on_revert txs e
      end
  end.

Lemma apply_calls_run calls fr l txs : mapM (λ idx, calls !! idx) l = Some txs →
  ∀ e, apply_calls calls fr l e = Some (run_calls fr txs e).
Proof.
  revert txs. induction l as [|i l IH]; intros txs; cbn [mapM]; [by intros [= <-]|].
  destruct (calls !! i) as [tx|] eqn:Hi; [|done]. cbn.
  destruct (mapM _ l) as [txs'|] eqn:Hm; [|done]. cbn. intros [= <-] e. rewrite Hi. cbn.
  destruct (execute_tx e tx) as [[e' r]|err]; [|done]. destruct (_ && _); [done|]. by apply IH.
Qed.

Lemma mapM_seq (calls : list Tx) : mapM (λ idx, calls !! idx) (seq 0 (length calls)) = Some calls.
Proof.
  apply mapM_Some. apply Forall2_same_length_lookup. split; [by rewrite length_seq|].
  intros i x y [-> _]%lookup_seq. done.
Qed.

Lemma mapM_sublist {A B} (f : A → option B) l1 l2 : l1 `sublist_of` l2 →
  ∀ k2, mapM f l2 = Some k2 → ∃ k1, mapM f l1 = Some k1 ∧ k1 `sublist_of` k2.
Proof.
  induction 1 as [|x l1 l2 _ IH|x l1 l2 _ IH]; intros k2; cbn [mapM].
  - intros [= <-]. by exists [].
  - destruct (f x) as [y|]; [|done]. cbn. destruct (mapM f l2) as [k|]; [|done]. cbn.
    intros [= <-]. destruct (IH k eq_refl) as (k1 & -> & ?). exists (y :: k1).
    split; [done|by apply sublist_skip].
  - destruct (f x) as [y|]; [|done]. cbn. destruct (mapM f l2) as [k|]; [|done]. cbn.
    intros [= <-]. destruct (IH k eq_refl) as (k1 & -> & ?). exists k1.
    split; [done|by apply sublist_cons].
Qed.

Lemma lookup_current calls included :
  ∃ txs, mapM (λ idx, calls !! idx) (current (length calls) included) = Some txs ∧ txs `sublist_of` calls.
Proof. eapply mapM_sublist; [apply sublist_filter|apply mapM_seq]. Qed.

(** A candidate is checked by running its transactions. *)
Lemma check_sequence_replay e calls l txs fr after : mapM (λ idx, calls !! idx) l = Some txs →
  check_sequence e calls l fr after = check_sequence e txs (seq 0 (length txs)) fr after.
Proof.
  intros Hm. unfold check_sequence. rewrite (apply_calls_run _ _ _ _ Hm).
  by rewrite (apply_calls_run txs fr _ txs (mapM_seq txs)).
Qed.

(** Transactions that break the invariant. *)
Definition breaks e (fr after : bool) (txs : list Tx) : Prop :=
  ∃ applied, check_sequence e txs (seq 0 (length txs)) fr after = Some (Ok (false, applied)).
(** No subsequence's check ends in an error. *)
Definition no_errors e calls (fr after : bool) : Prop :=
  ∀ txs, txs `sublist_of` calls → ∃ v, check_sequence e txs (seq 0 (length txs)) fr after = Some (Ok v).

Definition fails_on e calls (fr after : bool) included : bool :=
  match check_sequence e calls (current (length calls) included) fr after with
  | Some (Ok (success, _)) => negb success
  | _ => false
  end.
Definition applied_on e calls (fr after : bool) included : bool :=
  match check_sequence e calls (current (length calls) included) fr after with
  | Some (Ok (_, applied)) => applied
  | _ => false
  end.

Lemma no_errors_check e calls fr after included : no_errors e calls fr after →
  check_sequence e calls (current (length calls) included) fr after =
    pure_check (fails_on e calls fr after) (applied_on e calls fr after) included.
Proof.
  intros Hne. destruct (lookup_current calls included) as (txs & Hm & Hsub).
  unfold pure_check, fails_on, applied_on. rewrite (check_sequence_replay _ _ _ _ _ _ Hm).
  destruct (Hne txs Hsub) as [[success applied] ->]. by rewrite negb_involutive.
Qed.

Lemma fails_on_breaks e calls fr after included txs :
  mapM (λ idx, calls !! idx) (current (length calls) included) = Some txs →
  fails_on e calls fr after included = true ↔ breaks e fr after txs.
Proof.
  intros Hm. unfold fails_on, breaks. rewrite (check_sequence_replay _ _ _ _ _ _ Hm).
  destruct (check_sequence _ _ _ _ _) as [[[[] b]|err]|]; cbn; split; (done || naive_solver).
Qed.

(** The sequence without its [i]th call. *)
Lemma current_remove n included i :
  current n (included ∖ {[i]}) = filter (λ j, j ≠ i) (current n included).
Proof.
  unfold current. rewrite list_filter_filter. apply list_filter_iff. intros j. set_solver.
Qed.

Lemma mapM_remove {A B} `{!EqDecision A} (f : A → option B) l k j i :
  NoDup l → mapM f l = Some k → l !! j = Some i →
  mapM f (filter (λ x, x ≠ i) l) = Some (delete j k).
Proof.
  revert k j. induction l as [|x l IH]; intros k j Hnd Hm Hj; [done|].
  apply NoDup_cons in Hnd as [Hx Hnd]. cbn [mapM] in Hm. destruct (f x) as [y|] eqn:Hy; [|done].
  cbn in Hm. destruct (mapM f l) as [k'|] eqn:Hk'; [|done]. cbn in Hm. injection Hm as <-.
  destruct j as [|j]; cbn [lookup list_lookup] in Hj.
  - injection Hj as ->. rewrite filter_cons_False by tauto. rewrite filter_all; [done|].
    intros z Hz ->. done.
  - rewrite filter_cons_True.
    + cbn [mapM]. rewrite Hy. cbn. by rewrite (IH k' j Hnd eq_refl Hj).
    + intros ->. apply Hx. by eapply list_elem_of_lookup_2.
Qed.

Lemma length_current n included : included ⊆ saturated n → length (current n included) = size included.
Proof.
  intros Hsub. rewrite <- (size_list_to_set (C := gset nat)) by apply NoDup_filter, NoDup_seq.
  f_equal. apply set_eq. intros i. rewrite elem_of_list_to_set. unfold current.
  rewrite list_elem_of_filter, elem_of_seq. specialize (Hsub i).
  unfold saturated in Hsub. rewrite elem_of_set_seq in Hsub. naive_solver lia.
Qed.

Lemma NoDup_current n included : NoDup (current n included).
Proof. apply NoDup_filter, NoDup_seq. Qed.

(** C36: a call sequence that breaks the invariant, in a state in which the
    invariant holds, shrinks to a part of it, in its order, that breaks the
    invariant when replayed, whatever the number of runs and whenever
    shrinking is interrupted; and with as many runs as the square of its
    length, no single call of the result can be left out (or only one call is
    left). It is required that checking any part of the sequence answers,
    rather than failing with an error: shrinking takes an error for a failure
    of the invariant, and the result may then break nothing. *)
Theorem shrink_sequence_minimal e calls fr after run_limit stop :
  call_invariant e = Ok true → calls ≠ [] → breaks e fr after calls → no_errors e calls fr after →
  ∃ txs, shrink_sequence run_limit fr after e calls stop = Some (Ok txs) ∧
    txs `sublist_of` calls ∧ breaks e fr after txs ∧
    ((∀ i, stop i = false) → length calls * length calls ≤ run_limit →
      length txs = 1 ∨ ∀ j, j < length txs → ¬ breaks e fr after (delete j txs)).
Proof.
  intros Hinv Hne Hbr Herr. unfold shrink_sequence. rewrite Hinv. set (n := length calls).
  assert (0 < n) as Hn by (destruct calls; [done|cbn in *; lia]).
  rewrite (shrink_loop_ext _ (pure_check (fails_on e calls fr after) (applied_on e calls fr after)))
    by (intros; by apply no_errors_check).
  assert (fails_on e calls fr after (saturated n) = true) as Hf.
  { apply (fails_on_breaks _ _ _ _ _ calls); [|done]. fold n. rewrite current_saturated. apply mapM_seq. }
  destruct (shrink_loop_sound (fails_on e calls fr after) (applied_on e calls fr after) n stop
    run_limit 0 (saturated n) 0 Hf) as (kept & Hk & Hfk & Hkn).
  rewrite Hk. cbn [mbind option_bind].
  destruct (lookup_current calls kept) as (txs & Hm & Hsub). fold n in Hm. rewrite Hm. cbn.
  exists txs. split_and!; [done|done|by eapply fails_on_breaks|]. intros Hstop Hlim.
  assert (minimal (fails_on e calls fr after) n kept) as [Hone|Hall].
  { destruct (shrink_loop_minimal (fails_on e calls fr after) (applied_on e calls fr after) n stop n
      run_limit 0 (saturated n) 0) as (kept' & Hk' & ?); try done; [|congruence].
    unfold saturated. by rewrite size_set_seq. }
  - left. rewrite <- (length_mapM _ _ _ Hm). by rewrite length_current.
  - right. intros j Hj Hb. destruct (lookup_lt_is_Some_2 _ _ Hj) as [tx Htx].
    pose proof (proj1 (mapM_Some _ _ _) Hm) as Hm2.
    destruct (Forall2_lookup_r _ _ _ _ _ Hm2 Htx) as (i & Hi & _).
    assert (i < n ∧ i ∈ kept) as [Hin Hik].
    { apply list_elem_of_lookup_2 in Hi. unfold current in Hi.
      apply list_elem_of_filter in Hi as [? ?%elem_of_seq]. split; [lia|done]. }
    specialize (Hall i Hin Hik). apply not_true_iff_false in Hall. apply Hall.
    apply (fails_on_breaks _ _ _ _ _ (delete j txs)); [|done]. fold n. rewrite current_remove.
    apply mapM_remove; [apply NoDup_current|done|done].
Qed.
End shrink.

(** ** A counter that must stay below ten

    A call adds its number; adding seven fails when the counter is below
    five. *)
#[local] Instance counter_executor : InvariantExecutor nat nat unit unit := {|
  CallResult := unit;
  reverted _ := false;
  call_output _ := tt;
  execute_tx e tx := if bool_decide (tx = 7 ∧ e < 5) then Err tt else Ok (e + tx, tt);
  commit e _ := e;
  call_invariant e := Ok (bool_decide (e < 10));
  call_after_invariant _ := Ok true;
  MAGIC_ASSUME := tt;
|}.

Lemma counter_no_errors : no_errors 0 [4; 9; 2; 6] false false.
Proof.
  intros txs Hs. assert (∀ tx, tx ∈ txs → tx ≠ 7) as H7.
  { intros tx Htx. assert (tx ∈ [4; 9; 2; 6]) as H by (eapply elem_of_submseteq; [done|by apply sublist_submseteq]).
    set_solver. }
  clear Hs. unfold check_sequence. rewrite (apply_calls_run txs false _ txs (mapM_seq txs)). cbn.
  assert (∀ e, ∃ e', run_calls false txs e = Ok (e', true)) as Hr.
  { induction txs as [|tx txs IH]; intros e; [by exists e|]. cbn [run_calls execute_tx counter_executor].
    rewrite bool_decide_false by (intros [? _]; by apply (H7 tx); [left|]). cbn [reverted andb].
    apply IH. intros x Hx. apply H7. by right. }
  destruct (Hr 0) as [e' ->]. destruct (bool_decide (e' < 10)) eqn:He; cbn; rewrite He; by eexists.
Qed.

Lemma shrink_sequence_minimal_witness :
  ∃ txs, shrink_sequence 16 false false 0 [4; 9; 2; 6] (λ _, false) = Some (Ok txs) ∧
    txs `sublist_of` [4; 9; 2; 6].
Proof.
  destruct (shrink_sequence_minimal 0 [4; 9; 2; 6] false false 16 (λ _, false)) as (txs & H1 & H2 & _).
  - done.
  - done.
  - exists true. by vm_compute.
  - apply counter_no_errors.
  - exists txs. split; [exact H1|exact H2].
Defined.

(** An error while checking a candidate counts as if it broke the invariant:
    the call is dropped and what is left need not break anything. *)
Lemma error_drops_call :
  shrink_sequence 8 false false 0 [5; 7] (λ _, false) = Some (Ok [7]) ∧
  breaks 0 false false [5; 7] ∧ ¬ breaks 0 false false [7].
Proof.
  split_and!.
  - by vm_compute.
  - exists true. by vm_compute.
  - intros [b Hb]. by vm_compute in Hb.
Qed.
