(* ===== verification/Assert.v ===== *)
(** * Assertion cheatcodes: cheatcodes/src/test/assert.rs

    The comparisons, the approximate ones with their deltas, the messages of
    failed assertions and what a failed assertion does to the test.  How a
    value is printed ([Display], [format_units]) belongs to other crates. *)
From stdpp Require Import base list strings.
From Stdlib Require Import ZArith Lia.
From S2P Require Import Prelude.
#[local] Open Scope string_scope.
#[local] Open Scope Z_scope.

(** [to_string] of a type, [Unit::new] and [format_units] of alloy. *)
Class Display (T : Type) := to_string : T → string.
Class FormatUnits := {
  Unit : Type;
  unit_new : Z → option Unit;
  format_units : Z → Unit → string;
}.

(** ** Kinds and errors *)
Inductive AssertionKind := Eq | Ne | Gt | Ge | Lt | Le.
Definition inverse (k : AssertionKind) : AssertionKind :=
  match k with Eq => Ne | Ne => Eq | Gt => Le | Ge => Lt | Lt => Ge | Le => Gt end.
Definition to_str (k : AssertionKind) : string :=
  match k with Eq => "==" | Ne => "!=" | Gt => ">" | Ge => ">=" | Lt => "<" | Le => "<=" end.

Record ComparisonAssertionError (T : Type) := mkComparisonError {
  ca_kind : AssertionKind; ca_left : T; ca_right : T
}.
Arguments mkComparisonError {T}.
Arguments ca_kind {T}.
Arguments ca_left {T}.
Arguments ca_right {T}.

Record EqAbsAssertionError := mkEqAbsError { ea_left : Z; ea_right : Z; ea_max_delta : Z; ea_real_delta : Z }.

Inductive EqRelDelta := Defined (delta : Z) | Undefined.
Record EqRelAssertionFailure := mkEqRelFailure {
  er_left : Z; er_right : Z; er_max_delta : Z; er_real_delta : EqRelDelta
}.
Inductive EqRelAssertionError := RelFailure (f : EqRelAssertionFailure) | Overflow.

(** ** The assertions; integers of both types are [Z] *)
Definition assert_true (condition : bool) : result unit unit := if condition then Ok tt else Err tt.
Definition assert_false (condition : bool) : result unit unit := assert_true (negb condition).

Definition compare_or {T} (holds : bool) (k : AssertionKind) (left right : T)
    : result (ComparisonAssertionError T) unit :=
  if holds then Ok tt else Err (mkComparisonError k left right).
Definition assert_eq {T} `{!EqDecision T} (left right : T) :=
  compare_or (bool_decide (left = right)) Eq left right.
Definition assert_not_eq {T} `{!EqDecision T} (left right : T) :=
  compare_or (negb (bool_decide (left = right))) Ne left right.
Definition assert_gt (left right : Z) := compare_or (bool_decide (right < left)) Gt left right.
Definition assert_ge (left right : Z) := compare_or (bool_decide (right ≤ left)) Ge left right.
Definition assert_lt (left right : Z) := compare_or (bool_decide (left < right)) Lt left right.
Definition assert_le (left right : Z) := compare_or (bool_decide (left ≤ right)) Le left right.

(** [into_sign_and_abs] of an [I256]: the sign is negative below zero. *)
Definition sign_and_abs (x : Z) : bool * Z := (bool_decide (x < 0), Z.abs x).
Definition abs_diff (left right : Z) : Z :=
  if bool_decide (left < right) then right - left else left - right.

Definition get_delta_int (left right : Z) : Z :=
  let '(left_sign, left_abs) := sign_and_abs left in
  let '(right_sign, right_abs) := sign_and_abs right in
  if bool_decide (left_sign = right_sign)
  then if bool_decide (right_abs < left_abs) then left_abs - right_abs else right_abs - left_abs
  else wrap_u256 (left_abs + right_abs).

Definition EQ_REL_DELTA_RESOLUTION : Z := 18.
Definition u512_max : Z := 2 ^ 512 - 1.

(** The product is a [U512], which wraps; [None] is a division by zero. *)
Definition calc_delta_full (abs_diff right : Z) : option (result EqRelAssertionError Z) :=
  if bool_decide (right = 0) then None
  else
    let delta := (abs_diff * 10 ^ EQ_REL_DELTA_RESOLUTION) mod 2 ^ 512 / right in
    Some (if bool_decide (delta ≤ u256_max) then Ok delta else Err Overflow).

Definition approx_eq_abs (left right max_delta delta : Z) : result EqAbsAssertionError unit :=
  if bool_decide (delta ≤ max_delta) then Ok tt else Err (mkEqAbsError left right max_delta delta).
Definition uint_assert_approx_eq_abs (left right max_delta : Z) :=
  approx_eq_abs left right max_delta (abs_diff left right).
Definition int_assert_approx_eq_abs (left right max_delta : Z) :=
  approx_eq_abs left right max_delta (get_delta_int left right).

Definition approx_eq_rel (left right max_delta diff unsigned_right : Z)
    : option (result EqRelAssertionError unit) :=
  if bool_decide (right = 0) then
    Some (if bool_decide (left = 0) then Ok tt
          else Err (RelFailure (mkEqRelFailure left right max_delta Undefined)))
  else
    delta ← calc_delta_full diff unsigned_right;
    Some (delta ← delta;
          if bool_decide (delta ≤ max_delta) then Ok tt
          else Err (RelFailure (mkEqRelFailure left right max_delta (Defined delta)))).
Definition uint_assert_approx_eq_rel (left right max_delta : Z) :=
  approx_eq_rel left right max_delta (abs_diff left right) right.
Definition int_assert_approx_eq_rel (left right max_delta : Z) :=
  approx_eq_rel left right max_delta (get_delta_int left right) (Z.abs right).

(** ** Messages *)
Section messages.
Context `{!Display Z, !FormatUnits}.

Definition format_units_uint (x decimals : Z) : string :=
  match unit_new (Z.min 255 decimals) with
  | Some units => format_units x units
  | None => to_string x
  end.
Definition format_units_int (x decimals : Z) : string :=
  let '(negative, x) := sign_and_abs x in
  (if negative then "-" else "") +:+ format_units_uint x decimals.

Definition format_values {T} (f : T → string) (e : ComparisonAssertionError T) : string :=
  f (ca_left e) +:+ " " +:+ to_str (inverse (ca_kind e)) +:+ " " +:+ f (ca_right e).
Definition format_for_values {T} `{!Display T} (e : ComparisonAssertionError T) : string :=
  format_values to_string e.
Definition format_for_arrays {T} `{!Display T} (e : ComparisonAssertionError (list T)) : string :=
  format_values (λ v, "[" +:+ String.concat ", " (to_string <$> v) +:+ "]") e.
Definition format_uint_with_decimals (decimals : Z) (e : ComparisonAssertionError Z) : string :=
  format_values (λ v, format_units_uint v decimals) e.
Definition format_int_with_decimals (decimals : Z) (e : ComparisonAssertionError Z) : string :=
  format_values (λ v, format_units_int v decimals) e.

Definition approx_message (left right max_delta real_delta : string) : string :=
  left +:+ " !~= " +:+ right +:+ " (max delta: " +:+ max_delta +:+ ", real delta: " +:+ real_delta +:+ ")".
Definition abs_message (e : EqAbsAssertionError) : string :=
  approx_message (to_string (ea_left e)) (to_string (ea_right e)) (to_string (ea_max_delta e))
    (to_string (ea_real_delta e)).
Definition abs_message_decimals (format : Z → Z → string) (decimals : Z) (e : EqAbsAssertionError) : string :=
  approx_message (format (ea_left e) decimals) (format (ea_right e) decimals)
    (format_units_uint (ea_max_delta e) decimals) (format_units_uint (ea_real_delta e) decimals).

Definition format_delta_percent (delta : Z) : string :=
  format_units_uint delta (EQ_REL_DELTA_RESOLUTION - 2) +:+ "%".
Definition delta_message (d : EqRelDelta) : string :=
  match d with Defined delta => format_delta_percent delta | Undefined => "undefined" end.
Definition rel_message_with (show : Z → string) (e : EqRelAssertionError) : string :=
  match e with
  | RelFailure f =>
      approx_message (show (er_left f)) (show (er_right f)) (format_delta_percent (er_max_delta f))
        (delta_message (er_real_delta f))
  | Overflow => "overflow in delta calculation"
  end.
Definition rel_message := rel_message_with to_string.
Definition rel_message_decimals (format : Z → Z → string) (decimals : Z) :=
  rel_message_with (λ v, format v decimals).
End messages.

(** ** What an assertion does *)
Definition CHEATCODE_ADDRESS : Z := 0x7109709ECfa91a80626fF3989D68f67F5b1DD12D.
Definition GLOBAL_FAIL_SLOT : Z := 0x6661696c65640000000000000000000000000000000000000000000000000000.

(** The journal's [sstore] may fail; [console_log] appends a line. *)
Class Sstore (Journal Error : Type) := sstore : Journal → Z → Z → Z → result Error Journal.

Section outcome.
Context {Journal JError : Type} `{!Sstore Journal JError}.

Record AssertCtx := mkAssertCtx { assertions_revert : bool; console : list string; journal : Journal }.
Inductive AssertError := Message (msg : string) | JournalError (e : JError).
Implicit Types c : AssertCtx.

Definition handle_assertion_result_mono c (msg : string) : AssertCtx * result AssertError unit :=
  if assertions_revert c then (c, Err (Message msg))
  else
    let c := mkAssertCtx (assertions_revert c) (console c ++ [msg])%list (journal c) in
    match sstore (journal c) CHEATCODE_ADDRESS GLOBAL_FAIL_SLOT 1 with
    | Ok j => (mkAssertCtx (assertions_revert c) (console c) j, Ok tt)
    | Err e => (c, Err (JournalError e))
    end.

Definition failure_message {E} (err : E) (formatter : option (E → string)) (error_msg : option string) : string :=
  let error_msg := default "assertion failed" error_msg in
  match formatter with
  | Some f => error_msg +:+ ": " +:+ f err
  | None => error_msg
  end.
Definition handle_assertion_result {E} c (err : E) (formatter : option (E → string))
    (error_msg : option string) : AssertCtx * result AssertError unit :=
  handle_assertion_result_mono c (failure_message err formatter error_msg).

(** [impl_assertions!]: a cheatcode with or without an error message. *)
Definition assertion {E} c (body : result E unit) (formatter : option (E → string))
    (error : option string) : AssertCtx * result AssertError unit :=
  match body with
  | Ok _ => (c, Ok tt)
  | Err err => handle_assertion_result c err formatter error
  end.

(** The families of cheatcodes that compare integers. *)
Section families.
Context `{!Display Z, !FormatUnits}.
Definition compare (k : AssertionKind) (left right : Z) : result (ComparisonAssertionError Z) unit :=
  match k with
  | Eq => assert_eq left right | Ne => assert_not_eq left right
  | Gt => assert_gt left right | Ge => assert_ge left right
  | Lt => assert_lt left right | Le => assert_le left right
  end.
Definition assertTrue c (condition : bool) := assertion c (assert_true condition) None.
Definition assertFalse c (condition : bool) := assertion c (assert_false condition) None.
Definition assert_compare c (k : AssertionKind) (left right : Z) :=
  assertion c (compare k left right) (Some format_for_values).
Definition assert_compare_decimal c (k : AssertionKind) (signed : bool) (left right decimals : Z) :=
  assertion c (compare k left right)
    (Some (if signed then format_int_with_decimals decimals else format_uint_with_decimals decimals)).
Definition assertEq_array c {T} `{!EqDecision T, !Display T} (left right : list T) :=
  assertion c (assert_eq left right) (Some format_for_arrays).
Definition assertNotEq_array c {T} `{!EqDecision T, !Display T} (left right : list T) :=
  assertion c (assert_not_eq left right) (Some format_for_arrays).
Definition assertApproxEqAbs c (signed : bool) (left right maxDelta : Z) :=
  assertion c (if signed then int_assert_approx_eq_abs left right maxDelta
               else uint_assert_approx_eq_abs left right maxDelta) (Some abs_message).
Definition assertApproxEqAbsDecimal c (signed : bool) (left right decimals maxDelta : Z) :=
  assertion c (if signed then int_assert_approx_eq_abs left right maxDelta
               else uint_assert_approx_eq_abs left right maxDelta)
    (Some (abs_message_decimals (if signed then format_units_int else format_units_uint) decimals)).
Definition assertApproxEqRel c (signed : bool) (left right maxPercentDelta : Z) (error : option string) :=
  body ← if signed then int_assert_approx_eq_rel left right maxPercentDelta
         else uint_assert_approx_eq_rel left right maxPercentDelta;
  Some (assertion c body (Some rel_message) error).
Definition assertApproxEqRelDecimal c (signed : bool) (left right decimals maxPercentDelta : Z)
    (error : option string) :=
  body ← if signed then int_assert_approx_eq_rel left right maxPercentDelta
         else uint_assert_approx_eq_rel left right maxPercentDelta;
  Some (assertion c body
    (Some (rel_message_decimals (if signed then format_units_int else format_units_uint) decimals)) error).
End families.
End outcome.
Arguments mkAssertCtx {Journal}.
Arguments assertions_revert {Journal}.
Arguments console {Journal}.
Arguments journal {Journal}.

(** ** Deltas are exact *)
Definition in_int (z : Z) : Prop := - 2 ^ 255 ≤ z < 2 ^ 255.

Lemma abs_diff_spec left right : abs_diff left right = Z.abs (left - right).
Proof. unfold abs_diff. case_bool_decide; lia. Qed.

Lemma get_delta_int_spec left right : in_int left → in_int right →
  get_delta_int left right = Z.abs (left - right).
Proof.
  unfold in_int, get_delta_int, sign_and_abs. intros Hl Hr.
  destruct (bool_decide_reflect (left < 0)), (bool_decide_reflect (right < 0)); cbn.
  all: try (rewrite bool_decide_true by done; case_bool_decide; lia).
  all: rewrite bool_decide_false, wrap_u256_small by (done || (unfold in_u256, u256_max; lia)); lia.
Qed.

Lemma delta_bounds left right : (in_u256 left ∧ in_u256 right) ∨ (in_int left ∧ in_int right) →
  0 ≤ Z.abs (left - right) ≤ u256_max.
Proof. unfold in_u256, in_int, u256_max. intros [[]|[]]; lia. Qed.

Lemma calc_delta_full_spec diff right : 0 ≤ diff ≤ u256_max → 0 < right →
  calc_delta_full diff right = Some (if bool_decide (diff * 10 ^ 18 / right ≤ u256_max)
                                     then Ok (diff * 10 ^ 18 / right) else Err Overflow).
Proof.
  unfold calc_delta_full, EQ_REL_DELTA_RESOLUTION, u256_max. intros Hd Hr.
  rewrite bool_decide_false by lia. rewrite Z.mod_small by lia. done.
Qed.

(** A quotient is at most [m] when the dividend is below [m + 1] divisors. *)
Lemma quotient_le a b m : 0 < b → a / b ≤ m ↔ a < (m + 1) * b.
Proof.
  intros Hb. pose proof (Z.mul_div_le a b Hb). pose proof (Z.mul_succ_div_gt a b Hb). nia.
Qed.

Lemma approx_eq_rel_spec left right max diff unsigned_right :
  0 ≤ diff ≤ u256_max → (right ≠ 0 → 0 < unsigned_right) → max ≤ u256_max →
  ∃ r, approx_eq_rel left right max diff unsigned_right = Some r ∧
    (r = Ok tt ↔ if bool_decide (right = 0) then left = 0
                 else diff * 10 ^ 18 < (max + 1) * unsigned_right) ∧
    (r = Err Overflow ↔ right ≠ 0 ∧ 2 ^ 256 * unsigned_right ≤ diff * 10 ^ 18).
Proof.
  intros Hd Hr Hm. unfold approx_eq_rel. destruct (bool_decide_reflect (right = 0)) as [H0|H0].
  { eexists. split; [done|]. case_bool_decide; naive_solver. }
  specialize (Hr H0). rewrite calc_delta_full_spec by done. cbn [mbind option_bind].
  eexists. split; [done|]. set (q := diff * 10 ^ 18 / unsigned_right).
  assert (q ≤ u256_max ↔ diff * 10 ^ 18 < 2 ^ 256 * unsigned_right) as Hq.
  { unfold q. rewrite quotient_le by done. unfold u256_max. by replace (2 ^ 256 - 1 + 1) with (2 ^ 256) by lia. }
  assert (q ≤ max ↔ diff * 10 ^ 18 < (max + 1) * unsigned_right) as Hqm by by apply quotient_le.
  case_bool_decide as Hb; cbn; [case_bool_decide as Hc|]; cbn; split; split; try done.
  all: try (intros [? ?]; lia). all: intros; try lia.
Qed.

(** ** Properties *)
Section props.
Context `{!Display Z, !FormatUnits}.
Context {Journal JError : Type} `{!Sstore Journal JError}.

(** The relation that a kind stands for. *)
Definition relation (k : AssertionKind) (left right : Z) : Prop :=
  match k with
  | Eq => left = right | Ne => left ≠ right | Gt => right < left
  | Ge => right ≤ left | Lt => left < right | Le => left ≤ right
  end.
#[export] Instance relation_dec k left right : Decision (relation k left right).
Proof. destruct k; cbn; apply _. Defined.

Lemma relation_inverse k left right : relation (inverse k) left right ↔ ¬ relation k left right.
Proof. destruct k; cbn; lia. Qed.

Lemma compare_spec k left right :
  compare k left right = if bool_decide (relation k left right) then Ok tt
                         else Err (mkComparisonError k left right).
Proof. destruct k; cbn; unfold assert_not_eq, compare_or; rewrite ?bool_decide_not; done. Qed.

Lemma assertion_failed {E} (c : AssertCtx (Journal := Journal)) (err : E) formatter error :
  let msg := failure_message err formatter error in
  assertion c (Err err) formatter error =
    if assertions_revert c then (c, Err (Message msg))
    else match sstore (journal c) CHEATCODE_ADDRESS GLOBAL_FAIL_SLOT 1 with
         | Ok j => (mkAssertCtx false (console c ++ [msg])%list j, Ok tt)
         | Err e => (mkAssertCtx false (console c ++ [msg])%list (journal c), Err (JournalError e))
         end.
Proof.
  cbn. unfold handle_assertion_result, handle_assertion_result_mono.
  destruct (assertions_revert c) eqn:Hr; [done|]. cbn. by destruct (sstore _ _ _ _).
Qed.

(** An assertion that compares two numbers passes, and changes nothing,
    exactly when its relation holds; otherwise it prints the values with a
    relation that does hold of them, and either reverts with that message
    or, when assertions do not revert, logs it and sets the global failure
    slot of the cheatcode address to one. *)
Lemma comparison_verdict (c : AssertCtx (Journal := Journal)) k left right error :
  let msg := default "assertion failed" error +:+ ": " +:+ to_string left +:+ " " +:+
             to_str (inverse k) +:+ " " +:+ to_string right in
  (relation k left right ∧ assert_compare c k left right error = (c, Ok tt)) ∨
  (relation (inverse k) left right ∧
    assert_compare c k left right error =
      if assertions_revert c then (c, Err (Message msg))
      else match sstore (journal c) CHEATCODE_ADDRESS GLOBAL_FAIL_SLOT 1 with
           | Ok j => (mkAssertCtx false (console c ++ [msg])%list j, Ok tt)
           | Err e => (mkAssertCtx false (console c ++ [msg])%list (journal c), Err (JournalError e))
           end).
Proof.
  cbn zeta. unfold assert_compare. rewrite compare_spec. case_bool_decide as Hr; [by left|right].
  split; [by apply relation_inverse|]. by rewrite assertion_failed.
Qed.

(** The approximate assertions decide the distance of the values exactly,
    for all values of the type: an absolute one passes when the distance is
    at most the maximum; a relative one when the distance is less than
    [max + 1] millionths of a millionth of a millionth of the right value
    (the quotient is rounded down), or both values are zero; when that
    quotient does not fit in 256 bits it fails with an overflow. *)
Lemma approx_eq_exact (signed : bool) left right max :
  (if signed then in_int left ∧ in_int right else in_u256 left ∧ in_u256 right) → in_u256 max →
  let abs := if signed then int_assert_approx_eq_abs else uint_assert_approx_eq_abs in
  let rel := if signed then int_assert_approx_eq_rel else uint_assert_approx_eq_rel in
  let distance := Z.abs (left - right) in
  (abs left right max = if bool_decide (distance ≤ max) then Ok tt
                        else Err (mkEqAbsError left right max distance)) ∧
  ∃ r, rel left right max = Some r ∧
    (r = Ok tt ↔ if bool_decide (right = 0) then left = 0
                 else distance * 10 ^ 18 < (max + 1) * Z.abs right) ∧
    (r = Err Overflow ↔ right ≠ 0 ∧ 2 ^ 256 * Z.abs right ≤ distance * 10 ^ 18).
Proof.
  intros Hin [_ Hmax]. cbn zeta.
  assert (0 ≤ Z.abs (left - right) ≤ u256_max) as Hd by (apply delta_bounds; destruct signed; auto).
  destruct signed.
  - unfold int_assert_approx_eq_abs, int_assert_approx_eq_rel, approx_eq_abs.
    rewrite get_delta_int_spec by apply Hin. split; [done|].
    apply (approx_eq_rel_spec left right max _ (Z.abs right)); [done|lia|done].
  - unfold uint_assert_approx_eq_abs, uint_assert_approx_eq_rel, approx_eq_abs.
    rewrite abs_diff_spec. split; [done|]. assert (Z.abs right = right) as Heq.
    { destruct Hin as [_ [? _]]. lia. }
    rewrite Heq. apply (approx_eq_rel_spec left right max _ right); [done|lia|done].
Qed.
End props.

Lemma approx_eq_exact_witness :
  int_assert_approx_eq_abs (- 2 ^ 255) (2 ^ 255 - 1) (2 ^ 256 - 2) =
    Err (mkEqAbsError (- 2 ^ 255) (2 ^ 255 - 1) (2 ^ 256 - 2) (2 ^ 256 - 1)) ∧
  uint_assert_approx_eq_rel (2 ^ 256 - 1) 1 7 = Some (Err Overflow).
Proof.
  split.
  - destruct (approx_eq_exact true (- 2 ^ 255) (2 ^ 255 - 1) (2 ^ 256 - 2)) as [H _].
    + unfold in_int. lia.
    + unfold in_u256, u256_max. lia.
    + exact H.
  - destruct (approx_eq_exact false (2 ^ 256 - 1) 1 7) as (_ & r & Hr & _ & Ho).
    + unfold in_u256, u256_max. lia.
    + by vm_compute.
    + rewrite Hr. f_equal. apply Ho. split; [done|]. lia.
Defined.
