(* ===== verification/MultiFork.v ===== *)
(** * The handler of forks: evm/core/src/fork/multi.rs, fork/mod.rs

    [MultiForkHandler] connects forks on behalf of all tests: it receives
    requests over a channel, keeps one task per fork that is being connected,
    answers everyone who asked for it and registers each answer under an
    identifier of its own.  The network, the provider and the backend of a
    connected fork belong to other crates: what a task's future returns when
    it is polled is an argument of the step.  A oneshot sender is a number,
    the step returns what was sent.  The [Arc<AtomicUsize>] that the clones of
    a [CreatedFork] share is an index into a store of counters. *)
From stdpp Require Import base list gmap strings.
From Stdlib Require Import ZArith Lia Ascii.
From Stdlib Require Hexadecimal HexadecimalString HexadecimalN.
From Stdlib Require Decimal DecimalString DecimalN.
From S2P Require Import Prelude.
#[local] Open Scope list_scope.

#[local] Abbreviation Address := Z (only parsing).
#[local] Abbreviation U256 := Z (only parsing).

(** ** Types of other crates *)
Class ForkTypes := {
  BlobPrice : Type;            (* [BlobExcessGasAndPrice] *)
  SpecId : Type;
  CfgRest : Type;              (* the remaining fields of [CfgEnv] *)
  TxRest : Type;
  OptsRest : Type;             (* and of [EvmOpts] *)
  SharedBackend : Type;
  Handler : Type;              (* [BackendHandler] *)
  RpcError : Type;
}.

Section types.
Context `{!ForkTypes}.

Record BlockEnv := mkBlockEnv {
  number : U256;
  beneficiary : Address;
  timestamp : U256;
  block_gas_limit : Z;
  basefee : Z;
  difficulty : U256;
  prevrandao : option U256;
  blob_excess_gas_and_price : option BlobPrice;
}.

Record CfgEnv := mkCfgEnv { cfg_chain_id : Z; spec : SpecId; cfg_rest : CfgRest }.
Inductive TxTarget := Call (to : Address) | Create.
Record TxEnv := mkTxEnv {
  caller : Address; kind : TxTarget; chain_id : option Z; tx_rest : TxRest;
}.

(** [Env], whose [evm_env] is the block and the configuration. *)
Record Env := mkEnv { block_env : BlockEnv; cfg_env : CfgEnv; env_tx : TxEnv }.

Record EvmOpts := mkEvmOpts { fork_block_number : option Z; opts_rest : OptsRest }.

Record CreateFork := mkCreateFork {
  enable_caching : bool; url : string; env : Env; evm_opts : EvmOpts;
}.

Definition set_block (e : Env) (b : BlockEnv) : Env := mkEnv b (cfg_env e) (env_tx e).
Definition set_number_timestamp (b : BlockEnv) (n t : U256) : BlockEnv :=
  mkBlockEnv n (beneficiary b) t (block_gas_limit b) (basefee b) (difficulty b)
    (prevrandao b) (blob_excess_gas_and_price b).
Definition set_env (f : CreateFork) (e : Env) : CreateFork :=
  mkCreateFork (enable_caching f) (url f) e (evm_opts f).
Definition set_fork_block (f : CreateFork) (n : Z) : CreateFork :=
  mkCreateFork (enable_caching f) (url f) (env f)
    (mkEvmOpts (Some n) (opts_rest (evm_opts f))).
End types.

(** ** Fork identifiers *)
Definition ForkId : Type := string.

(** [{:x}] and [{}] of an unsigned integer. *)
Definition lower_hex (n : Z) : string :=
  HexadecimalString.NilEmpty.string_of_uint (N.to_hex_uint (Z.to_N n)).
Definition decimal (n : Z) : string :=
  DecimalString.NilEmpty.string_of_uint (N.to_uint (Z.to_N n)).

Definition fork_id_new (url : string) (num : option Z) : ForkId :=
  url +:+ String "@"%char match num with
                     | Some n => "0x" +:+ lower_hex n
                     | None => "latest"
                     end.

(** [format!("{}-{}", ..)] in [inc_senders]. *)
Definition numbered (id : ForkId) (n : Z) : ForkId := id +:+ String "-"%char (decimal n).

(** ** The handler *)
Section handler.
Context `{!ForkTypes}.

Record CreatedFork := mkCreatedFork {
  opts : CreateFork; backend : SharedBackend; num_senders : nat;
}.

(** What a create request is answered with. *)
Definition Created : Type := result RpcError (ForkId * SharedBackend * Env).

Inductive Answer :=
| CreateAnswer (r : Created)
| ForkAnswer (b : option SharedBackend)
| EnvAnswer (e : option Env)
| UrlAnswer (u : option string)
| ShutDownAnswer.

Inductive Request :=
| CreateForkReq (fork : CreateFork) (sender : nat)
| GetFork (id : ForkId) (sender : nat)
| RollFork (id : ForkId) (block : Z) (sender : nat)
| GetEnv (id : ForkId) (sender : nat)
| UpdateBlock (id : ForkId) (number timestamp : U256)
| UpdateEnv (id : ForkId) (env : BlockEnv)
| ShutDown (sender : nat)
| GetForkUrl (id : ForkId) (sender : nat).

(** [ForkTask::Create]: the future is the request it was made for. *)
Record ForkTask := mkForkTask {
  future : CreateFork; task_id : ForkId; task_sender : nat; additional : list nat;
}.

Record MultiForkHandler := mkHandler {
  incoming_done : bool;
  handlers : list (ForkId * Handler);
  pending_tasks : list ForkTask;
  forks : gmap ForkId CreatedFork;
  counters : list Z;
}.

Definition handler_new : MultiForkHandler := mkHandler false [] [] ∅ [].

Definition with_handlers h x : MultiForkHandler :=
  mkHandler (incoming_done h) x (pending_tasks h) (forks h) (counters h).
Definition with_tasks h x : MultiForkHandler :=
  mkHandler (incoming_done h) (handlers h) x (forks h) (counters h).
Definition with_forks h x : MultiForkHandler :=
  mkHandler (incoming_done h) (handlers h) (pending_tasks h) x (counters h).
Definition with_counters h x : MultiForkHandler :=
  mkHandler (incoming_done h) (handlers h) (pending_tasks h) (forks h) x.

Implicit Types (h : MultiForkHandler) (f : CreatedFork).

Definition created_fork_new h (opts : CreateFork) (b : SharedBackend)
    : MultiForkHandler * CreatedFork :=
  (with_counters h (counters h ++ [1]), mkCreatedFork opts b (length (counters h))).

(** [fetch_add] wraps around. *)
Definition inc_senders h f (id : ForkId) : MultiForkHandler * ForkId :=
  let n := default 0 (counters h !! num_senders f) in
  (with_counters h (<[num_senders f := wrap_u64 (n + 1)]> (counters h)), numbered id n).

(** The first task for the identifier gets one more sender. *)
Fixpoint join_task (ts : list ForkTask) (id : ForkId) (sender : nat)
    : option (list ForkTask) :=
  match ts with
  | [] => None
  | t :: ts =>
      if bool_decide (task_id t = id)
      then Some (mkForkTask (future t) (task_id t) (task_sender t)
                   (additional t ++ [sender]) :: ts)
      else cons t <$> join_task ts id sender
  end.

Definition create_fork h (fork : CreateFork) (sender : nat) : MultiForkHandler :=
  let id := fork_id_new (url fork) (fork_block_number (evm_opts fork)) in
  match join_task (pending_tasks h) id sender with
  | Some ts => with_tasks h ts
  | None => with_tasks h (pending_tasks h ++ [mkForkTask fork id sender []])
  end.

Definition created id f : Created := Ok (id, backend f, env (opts f)).

Fixpoint notify h (id : ForkId) f (senders : list nat)
    : MultiForkHandler * list (nat * Answer) :=
  match senders with
  | [] => (h, [])
  | s :: senders =>
      let '(h, next_id) := inc_senders h f id in
      let h := with_forks h (<[next_id := f]> (forks h)) in
      let '(h, out) := notify h id f senders in
      (h, (s, CreateAnswer (created next_id f)) :: out)
  end.

Definition insert_new_fork h (id : ForkId) f (sender : nat) (senders : list nat)
    : MultiForkHandler * list (nat * Answer) :=
  let h := with_forks h (<[id := f]> (forks h)) in
  let '(h, out) := notify h id f senders in
  (h, (sender, CreateAnswer (created id f)) :: out).

Definition set_fork_env f (e : Env) : CreatedFork :=
  mkCreatedFork (set_env (opts f) e) (backend f) (num_senders f).
Definition update_env h (id : ForkId) (b : BlockEnv) : MultiForkHandler :=
  with_forks h (alter (λ f, set_fork_env f (set_block (env (opts f)) b)) id (forks h)).
Definition update_block h (id : ForkId) (n t : U256) : MultiForkHandler :=
  with_forks h (alter (λ f, set_fork_env f
    (set_block (env (opts f)) (set_number_timestamp (block_env (env (opts f))) n t)))
    id (forks h)).

(** The error of a roll without a fork. *)
Context (no_matching_fork : ForkId → RpcError).

Definition on_request h (req : Request) : MultiForkHandler * list (nat * Answer) :=
  match req with
  | CreateForkReq fork sender => (create_fork h fork sender, [])
  | GetFork id sender => (h, [(sender, ForkAnswer (backend <$> forks h !! id))])
  | RollFork id block sender =>
      match forks h !! id with
      | Some f => (create_fork h (set_fork_block (opts f) block) sender, [])
      | None => (h, [(sender, CreateAnswer (Err (no_matching_fork id)))])
      end
  | GetEnv id sender => (h, [(sender, EnvAnswer (env ∘ opts <$> forks h !! id))])
  | UpdateBlock id n t => (update_block h id n t, [])
  | UpdateEnv id b => (update_env h id b, [])
  | ShutDown sender => (with_handlers (with_forks h ∅) [], [(sender, ShutDownAnswer)])
  | GetForkUrl id sender => (h, [(sender, UrlAnswer (url ∘ opts <$> forks h !! id))])
  end.

Fixpoint on_requests h (reqs : list Request) : MultiForkHandler * list (nat * Answer) :=
  match reqs with
  | [] => (h, [])
  | req :: reqs =>
      let '(h, out) := on_request h req in
      let '(h, out') := on_requests h reqs in
      (h, out ++ out')
  end.

(** The async [create_fork]: connecting gives the environment of the fork, the
    number of its block, a backend and its handler. *)
Record Connection := mkConnection {
  conn_env : Env; conn_number : Z; conn_backend : SharedBackend; conn_handler : Handler;
}.
Definition Network : Type := CreateFork → option (result RpcError Connection).

Definition connected h (fork : CreateFork) (c : Connection)
    : MultiForkHandler * (ForkId * CreatedFork * Handler) :=
  let fork := set_env fork (conn_env c) in
  let '(h, f) := created_fork_new h fork (conn_backend c) in
  (h, (fork_id_new (url fork) (Some (conn_number c)), f, conn_handler c)).

(** [Vec::swap_remove], [None] when the index is out of bounds. *)
Definition swap_remove {A} (l : list A) (n : nat) : option (A * list A) :=
  x ← l !! n; y ← last l;
  Some (x, take (pred (length l)) (<[n := y]> l)).

(** One task of the poll: [None] leaves it pending. *)
Definition poll_task h (net : Network) (t : ForkTask)
    : MultiForkHandler * list (nat * Answer) :=
  match net (future t) with
  | Some (Ok c) =>
      let '(h, (id, f, hd)) := connected h (future t) c in
      match forks h !! id with
      | Some f0 =>
          let '(h, next_id) := inc_senders h f0 id in
          insert_new_fork h next_id f0 (task_sender t) (additional t)
      | None =>
          let h := with_handlers h (handlers h ++ [(id, hd)]) in
          insert_new_fork h id f (task_sender t) (additional t)
      end
  | Some (Err e) =>
      (h, (λ s, (s, CreateAnswer (Err e))) <$> task_sender t :: additional t)
  | None => (with_tasks h (pending_tasks h ++ [t]), [])
  end.

(** The loop over the indices in descending order; [None] is a panic of
    [swap_remove]. *)
Fixpoint poll_tasks h (net : Network) (n : nat)
    : option (MultiForkHandler * list (nat * Answer)) :=
  match n with
  | O => Some (h, [])
  | S n =>
      '(t, ts) ← swap_remove (pending_tasks h) n;
      let '(h, out) := poll_task (with_tasks h ts) net t in
      '(h, out') ← poll_tasks h net n;
      Some (h, out ++ out')
  end.

(** Polling the backends' handlers: [None] when one has completed. *)
Fixpoint poll_handlers (l : list (ForkId * Handler)) (drive : Handler → option Handler)
    (n : nat) : option (list (ForkId * Handler)) :=
  match n with
  | O => Some l
  | S n =>
      '(x, l) ← swap_remove l n;
      poll_handlers (match drive x.2 with Some hd => l ++ [(x.1, hd)] | None => l end)
        drive n
  end.

(** A poll: the requests received, whether the channel was found closed, the
    network and the handlers' progress; the last component is [Poll::Ready].
    The periodic flush of caches to the disk is left out. *)
Record Turn := mkTurn {
  received : list Request; closed : bool; network : Network; drive : Handler → option Handler;
}.

Definition poll h (t : Turn) : option (MultiForkHandler * list (nat * Answer) * bool) :=
  let '(h, out) := on_requests h (received t) in
  let h := mkHandler (incoming_done h || closed t) (handlers h) (pending_tasks h)
             (forks h) (counters h) in
  '(h, out') ← poll_tasks h (network t) (length (pending_tasks h));
  hs ← poll_handlers (handlers h) (drive t) (length (handlers h));
  let h := with_handlers h hs in
  Some (h, out ++ out', bool_decide (hs = []) && incoming_done h).

Fixpoint run h (ts : list Turn) : option (MultiForkHandler * list (nat * Answer)) :=
  match ts with
  | [] => Some (h, [])
  | t :: ts =>
      '(h, out, _) ← poll h t;
      '(h, out') ← run h ts;
      Some (h, out ++ out')
  end.
End handler.
