(* ===== verification/MultiForkProofs.v ===== *)
(** * The handler of forks: identifiers are unique, requests are answered

    An identifier is the rendering of an endpoint, a block and the numbers of
    [inc_senders]; renderings are injective ([render_inj]).  The invariant
    [ids_ok] relates the identifiers in use to the counters, so that the next
    one is always new.  Every sender is answered once or still waits. *)
From stdpp Require Import base list gmap strings.
From Stdlib Require Import ZArith Lia Ascii.
From Stdlib Require Hexadecimal HexadecimalString HexadecimalN.
From Stdlib Require Decimal DecimalString DecimalN.
From S2P Require Import Prelude MultiFork.
#[local] Open Scope list_scope.

#[local] Arguments String.append !_ _ / : simpl nomatch.

(** ** Strings with a separator *)
Fixpoint lacks (c : ascii) (s : string) : Prop :=
  match s with EmptyString => True | String a s => a ≠ c ∧ lacks c s end.

Lemma lacks_app c s t : lacks c (s +:+ t) ↔ lacks c s ∧ lacks c t.
Proof. induction s as [|a s IH]; simpl; [tauto|]. rewrite IH. tauto. Qed.

(** A string splits in one way at its last, and at its first, separator. *)
Lemma split_at_last c s1 s2 t1 t2 :
  lacks c t1 → lacks c t2 → s1 +:+ String c t1 = s2 +:+ String c t2 → s1 = s2 ∧ t1 = t2.
Proof.
  intros H1 H2. revert s2. induction s1 as [|a s1 IH]; intros [|b s2]; simpl; intros [=]; subst.
  - done.
  - apply lacks_app in H1 as [_ []]. done.
  - apply lacks_app in H2 as [_ []]. done.
  - by destruct (IH s2) as [-> ->].
Qed.
Lemma split_at_first c s1 s2 t1 t2 :
  lacks c s1 → lacks c s2 → s1 +:+ String c t1 = s2 +:+ String c t2 → s1 = s2 ∧ t1 = t2.
Proof.
  revert s2. induction s1 as [|a s1 IH]; intros [|b s2]; simpl; intros H1 H2 [=]; subst;
    try tauto.
  destruct (IH s2) as [-> ->]; tauto.
Qed.

(** ** Numbers as strings *)
Lemma hex_lacks n c : c = "@"%char ∨ c = "-"%char → lacks c (lower_hex n).
Proof.
  intros Hc. unfold lower_hex. induction (N.to_hex_uint (Z.to_N n)); simpl; try done;
    (split; [destruct Hc as [-> | ->]; discriminate|done]).
Qed.
Lemma decimal_lacks n c : c = "@"%char ∨ c = "-"%char → lacks c (decimal n).
Proof.
  intros Hc. unfold decimal. induction (N.to_uint (Z.to_N n)); simpl; try done;
    (split; [destruct Hc as [-> | ->]; discriminate|done]).
Qed.

Lemma hex_inj n m : lower_hex n = lower_hex m → Z.to_N n = Z.to_N m.
Proof.
  unfold lower_hex. intros H. apply HexadecimalN.Unsigned.to_uint_inj.
  apply (f_equal HexadecimalString.NilEmpty.uint_of_string) in H.
  rewrite !HexadecimalString.NilEmpty.usu in H. by injection H.
Qed.
Lemma decimal_inj n m : decimal n = decimal m → Z.to_N n = Z.to_N m.
Proof.
  unfold decimal. intros H. apply DecimalN.Unsigned.to_uint_inj.
  apply (f_equal DecimalString.NilEmpty.uint_of_string) in H.
  rewrite !DecimalString.NilEmpty.usu in H. by injection H.
Qed.

(** ** Identifiers *)
Definition suffix (sfx : list Z) : string :=
  foldr (λ i s, String "-"%char (decimal i +:+ s)) EmptyString sfx.
Definition render (id : ForkId) (sfx : list Z) : ForkId := id +:+ suffix sfx.
Definition is_base (id : ForkId) : Prop := ∃ u n, id = fork_id_new u (Some n).

Lemma string_app_assoc (s t u : string) : (s +:+ t) +:+ u = s +:+ (t +:+ u).
Proof. induction s as [|a s IH]; simpl; [done|by rewrite IH]. Qed.
Lemma string_app_nil (s : string) : s +:+ EmptyString = s.
Proof. induction s as [|a s IH]; simpl; [done|by rewrite IH]. Qed.
Lemma string_app_inj (s t u : string) : s +:+ t = s +:+ u → t = u.
Proof. induction s as [|a s IH]; simpl; [done|]. intros [=]. auto. Qed.

Lemma suffix_snoc sfx n : suffix (sfx ++ [n]) = suffix sfx +:+ String "-"%char (decimal n).
Proof.
  induction sfx as [|i sfx IH]; simpl; [by rewrite string_app_nil|].
  by rewrite IH, string_app_assoc.
Qed.
Lemma render_numbered id sfx n : numbered (render id sfx) n = render id (sfx ++ [n]).
Proof. unfold numbered, render. by rewrite suffix_snoc, string_app_assoc. Qed.
Lemma render_nil id : render id [] = id.
Proof. apply string_app_nil. Qed.

Lemma suffix_lacks_at sfx : lacks "@"%char (suffix sfx).
Proof.
  induction sfx as [|i sfx IH]; simpl; [done|]. split; [discriminate|].
  apply lacks_app. split; [apply decimal_lacks; by left|done].
Qed.

(** What precedes the numbers is determined. *)
Lemma split_at_suffix s1 s2 sfx sfx' :
  lacks "-"%char s1 → lacks "-"%char s2 → s1 +:+ suffix sfx = s2 +:+ suffix sfx' →
  s1 = s2 ∧ suffix sfx = suffix sfx'.
Proof.
  intros H1 H2. destruct sfx as [|i sfx], sfx' as [|i' sfx']; simpl;
    rewrite ?string_app_nil.
  - done.
  - intros ->. apply lacks_app in H1 as [_ []]. done.
  - intros <-. apply lacks_app in H2 as [_ []]. done.
  - intros Heq. apply split_at_first in Heq as [-> ->]; done.
Qed.

Lemma suffix_inj sfx sfx' :
  Forall (Z.le 0) sfx → Forall (Z.le 0) sfx' → suffix sfx = suffix sfx' → sfx = sfx'.
Proof.
  intros H. revert sfx'. induction H as [|i sfx Hi _ IH]; intros [|j sfx'] H' Heq;
    simpl in Heq; try done.
  injection Heq as Heq. apply Forall_cons in H' as [Hj H'].
  apply split_at_suffix in Heq as [Hd Hs]; try (apply decimal_lacks; by right).
  apply decimal_inj in Hd. assert (i = j) as -> by lia.
  f_equal. by apply IH.
Qed.

(** Identifiers determine their endpoint, block and numbers. *)
Lemma render_inj id id' sfx sfx' :
  is_base id → is_base id' → Forall (Z.le 0) sfx → Forall (Z.le 0) sfx' →
  render id sfx = render id' sfx' → id = id' ∧ sfx = sfx'.
Proof.
  intros (u & n & ->) (u' & n' & ->) Hs Hs' Heq. unfold render, fork_id_new in *.
  rewrite !string_app_assoc in Heq. simpl in Heq.
  apply split_at_last in Heq as [-> Heq].
  2,3: simpl; split_and!; try discriminate; apply lacks_app;
       split; [apply hex_lacks; by left|apply suffix_lacks_at].
  simpl in Heq. injection Heq as Heq.
  apply split_at_suffix in Heq as [Hn Hsfx]; try (apply hex_lacks; by right).
  rewrite Hn. split; [done|]. by apply suffix_inj.
Qed.

(** ** The counters *)
Section ids.
Implicit Types (m : gmap ForkId nat) (cs : list Z).

(** Every identifier in use is that of a fork in use with numbers below the
    counter the two share. *)
Definition id_ok m cs (k : ForkId) (p : nat) : Prop :=
  ∃ id sfx c, is_base id ∧ k = render id sfx ∧ m !! id = Some p ∧ cs !! p = Some c ∧
    1 ≤ c ≤ Z.of_nat (size m) ∧ Forall (λ i, 0 ≤ i < c) sfx.
Definition ids_ok m cs : Prop := map_Forall (id_ok m cs) m.

Lemma ids_ok_empty cs : ids_ok ∅ cs.
Proof. apply map_Forall_empty. Qed.

Lemma numbers_nonneg c sfx : Forall (λ i, 0 ≤ i < c) sfx → Forall (Z.le 0) sfx.
Proof. intros H. eapply Forall_impl; [exact H|]. simpl. lia. Qed.

Lemma id_ok_mono m cs k p k' p' cs' :
  m !! k' = None → id_ok m cs k p →
  (∀ q c, cs !! q = Some c → ∃ c', cs' !! q = Some c' ∧
     c ≤ c' ≤ Z.max c (Z.of_nat (size m) + 1)) →
  id_ok (<[k' := p']> m) cs' k p.
Proof.
  intros Hk' (id & sfx & c & Hid & -> & Hm & Hc & Hr & Hs) Hcs.
  destruct (Hcs p c Hc) as (c' & Hc' & Hle).
  exists id, sfx, c'. split_and!; try done.
  - rewrite lookup_insert_ne; [done|]. intros ->. congruence.
  - lia.
  - rewrite map_size_insert_None by done. lia.
  - eapply Forall_impl; [exact Hs|]. simpl. lia.
Qed.

(** A fork that is connected for the first time. *)
Lemma ids_ok_new m cs k :
  ids_ok m cs → is_base k → m !! k = None →
  ids_ok (<[k := length cs]> m) (cs ++ [1]).
Proof.
  intros Hok Hk Hm. apply map_Forall_insert_2.
  - exists k, [], 1. rewrite lookup_insert_eq, render_nil, map_size_insert_None by done.
    split_and!; try done; try lia. by rewrite lookup_app_r, Nat.sub_diag by lia.
  - intros k' p' Hk'. eapply id_ok_mono; [done|by apply Hok|].
    intros q c Hc. exists c. rewrite lookup_app_l by (by eapply lookup_lt_Some). split; [done|lia].
Qed.

(** The next number of a fork is a new identifier. *)
Lemma ids_ok_inc m cs k p c :
  ids_ok m cs → m !! k = Some p → cs !! p = Some c → Z.of_nat (size m) < u64_max →
  m !! numbered k c = None ∧
  ids_ok (<[numbered k c := p]> m) (<[p := wrap_u64 (c + 1)]> cs).
Proof.
  intros Hok Hk Hc Hsize.
  destruct (Hok k p Hk) as (id & sfx & c0 & Hid & -> & Hm & Hc0 & Hr & Hs).
  replace c0 with c in * by congruence. rewrite render_numbered.
  assert (Hn : Forall (λ i, 0 ≤ i < c + 1) (sfx ++ [c])).
  { apply Forall_app. split; [|by repeat constructor; lia].
    eapply Forall_impl; [exact Hs|]. simpl. lia. }
  assert (Hnew : m !! render id (sfx ++ [c]) = None).
  { destruct (m !! render id (sfx ++ [c])) as [q|] eqn:Hq; [|done]. exfalso.
    destruct (Hok _ _ Hq) as (id' & sfx' & c' & Hid' & Heq & Hm' & Hc' & _ & Hs').
    apply render_inj in Heq as [<- <-]; eauto using numbers_nonneg.
    apply Forall_app in Hs' as [_ Hs']. rewrite Forall_singleton in Hs'.
    assert (p = q) as -> by congruence. assert (c = c') by congruence. lia. }
  rewrite wrap_u64_small by (unfold in_u64; unfold u64_max in *; lia).
  assert (Hne : id ≠ render id (sfx ++ [c])) by (intros He; rewrite <- He in Hnew; congruence).
  split; [done|]. apply map_Forall_insert_2.
  - exists id, (sfx ++ [c]), (c + 1).
    rewrite map_size_insert_None, list_lookup_insert_eq by (done || by eapply lookup_lt_Some).
    split_and!; try done; try lia. by rewrite lookup_insert_ne.
  - intros k' p' Hk'. eapply id_ok_mono; [done|by apply Hok|].
    intros q c' Hc'. destruct (decide (q = p)) as [->|Hqp].
    + replace c' with c in * by congruence. exists (c + 1).
      rewrite list_lookup_insert_eq by (by eapply lookup_lt_Some). split; [done|lia].
    + exists c'. rewrite list_lookup_insert_ne by done. split; [done|lia].
Qed.
End ids.

(** ** The answers *)
Section proofs.
Context `{!ForkTypes} (no_matching_fork : ForkId → RpcError).
#[local] Abbreviation on_request := (on_request no_matching_fork).
#[local] Abbreviation on_requests := (on_requests no_matching_fork).
#[local] Abbreviation poll := (poll no_matching_fork).
#[local] Abbreviation run := (run no_matching_fork).
Implicit Types (h : MultiForkHandler) (f : CreatedFork) (out : list (nat * Answer)).

Definition created_id (a : nat * Answer) : option ForkId :=
  match a.2 with CreateAnswer (Ok (id, _, _)) => Some id | _ => None end.
Definition created_ids out : list ForkId := omap created_id out.

Definition pointers h : gmap ForkId nat := num_senders <$> forks h.
Definition handler_ok h : Prop := ids_ok (pointers h) (counters h).

(** What was answered was new and is registered. *)
Definition fresh h h' out : Prop :=
  NoDup (created_ids out) ∧ (∀ k, k ∈ created_ids out → forks h !! k = None) ∧
  dom (forks h') = dom (forks h) ∪ list_to_set (created_ids out).

Lemma fresh_refl h h' out : dom (forks h') = dom (forks h) → created_ids out = [] → fresh h h' out.
Proof.
  intros Hd Ho. unfold fresh. rewrite Ho. split_and!; [constructor|by intros ? ?%not_elem_of_nil|].
  simpl. by rewrite (right_id_L ∅ _).
Qed.
Lemma fresh_trans h1 h2 h3 out out' :
  fresh h1 h2 out → fresh h2 h3 out' → fresh h1 h3 (out ++ out').
Proof.
  intros (Hnd & Hnew & Hd) (Hnd' & Hnew' & Hd'). unfold fresh, created_ids in *.
  rewrite omap_app.
  assert (Hin : ∀ k, k ∈ omap created_id out' → k ∉ dom (forks h2)).
  { intros k Hk. by apply not_elem_of_dom, Hnew'. }
  split_and!.
  - apply NoDup_app. split_and!; try done. intros k Hk Hk'. apply (Hin k Hk').
    rewrite Hd. apply elem_of_union_r. by apply elem_of_list_to_set.
  - intros k [Hk|Hk]%elem_of_app; [auto|]. apply not_elem_of_dom.
    intros Hk'. apply (Hin k Hk). rewrite Hd. by apply elem_of_union_l.
  - by rewrite Hd', Hd, list_to_set_app_L, (assoc_L (∪)).
Qed.

Lemma size_pointers h : size (pointers h) = size (forks h).
Proof. apply map_size_fmap. Qed.
Lemma fresh_size h h' out :
  fresh h h' out → size (forks h') = (size (forks h) + length (created_ids out))%nat.
Proof.
  intros (Hnd & Hnew & Hd).
  rewrite <- !size_dom, Hd, size_union, size_list_to_set by
    (done || (intros k Hk Hk'%elem_of_list_to_set; apply Hnew in Hk';
              by apply not_elem_of_dom in Hk')).
  done.
Qed.

Lemma pointers_insert h k f :
  pointers (with_forks h (<[k := f]> (forks h))) = <[k := num_senders f]> (pointers h).
Proof. apply fmap_insert. Qed.
Lemma pointers_Some h k f : forks h !! k = Some f → pointers h !! k = Some (num_senders f).
Proof. intros Hk. unfold pointers. by rewrite lookup_fmap, Hk. Qed.
Lemma pointers_None h k : pointers h !! k = None ↔ forks h !! k = None.
Proof. unfold pointers. rewrite lookup_fmap. by destruct (forks h !! k). Qed.

(** The parts that answering does not touch. *)
Definition same_tasks h h' : Prop :=
  pending_tasks h' = pending_tasks h ∧ incoming_done h' = incoming_done h.

Lemma inc_senders_spec h id f :
  handler_ok h → pointers h !! id = Some (num_senders f) →
  Z.of_nat (size (forks h)) < u64_max →
  ∃ h' id', inc_senders h f id = (h', id') ∧ forks h !! id' = None ∧ forks h' = forks h ∧
    same_tasks h h' ∧
    ids_ok (<[id' := num_senders f]> (pointers h)) (counters h').
Proof.
  intros Hok Hid Hsize. destruct (Hok _ _ Hid) as (b & sfx & c & _ & _ & _ & Hc & _).
  destruct (ids_ok_inc _ _ _ _ _ Hok Hid Hc) as [Hnew Hok'].
  { by rewrite size_pointers. }
  unfold inc_senders. rewrite Hc. do 2 eexists. split_and!; [reflexivity|..]; try done.
  by apply pointers_None.
Qed.

Lemma notify_spec id f ss : ∀ h,
  handler_ok h → pointers h !! id = Some (num_senders f) →
  Z.of_nat (size (forks h)) + Z.of_nat (length ss) ≤ u64_max →
  ∃ h' out, notify h id f ss = (h', out) ∧ handler_ok h' ∧ fresh h h' out ∧
    out.*1 = ss ∧ length (created_ids out) = length ss ∧ same_tasks h h'.
Proof.
  induction ss as [|s ss IH]; intros h Hok Hid Hsize; cbn [notify].
  { exists h, []. split_and!; try done. by apply fresh_refl. }
  simpl in Hsize.
  destruct (inc_senders_spec h id f Hok Hid) as (h1 & k & -> & Hk & Hf & [Ht Hd] & Hok1).
  { lia. }
  set (h2 := with_forks h1 (<[k := f]> (forks h1))).
  assert (Hp : pointers h2 = <[k := num_senders f]> (pointers h)).
  { unfold h2. rewrite pointers_insert. unfold pointers. by rewrite Hf. }
  assert (Hfr : fresh h h2 [(s, CreateAnswer (created k f))]).
  { split_and!.
    - apply NoDup_singleton.
    - by intros ? ->%list_elem_of_singleton.
    - unfold h2. simpl. rewrite Hf, dom_insert_L. set_solver. }
  destruct (IH h2) as (h3 & out & -> & Hok3 & Hfr3 & Hs & Hl & [Ht3 Hd3]).
  { unfold handler_ok. by rewrite Hp. }
  { rewrite Hp. rewrite lookup_insert_ne; [done|]. intros ->.
    apply pointers_None in Hk. congruence. }
  { rewrite (fresh_size _ _ _ Hfr). simpl. lia. }
  exists h3, ((s, CreateAnswer (created k f)) :: out). split_and!; try done.
  - apply (fresh_trans _ _ _ _ _ Hfr Hfr3).
  - simpl. by f_equal.
  - simpl. by f_equal.
  - split; [by rewrite Ht3|by rewrite Hd3].
Qed.

Lemma insert_new_fork_spec h id f s ss :
  ids_ok (<[id := num_senders f]> (pointers h)) (counters h) → forks h !! id = None →
  Z.of_nat (size (forks h)) + 1 + Z.of_nat (length ss) ≤ u64_max →
  ∃ h' out, insert_new_fork h id f s ss = (h', out) ∧ handler_ok h' ∧ fresh h h' out ∧
    out.*1 = s :: ss ∧ length (created_ids out) = S (length ss) ∧ same_tasks h h'.
Proof.
  intros Hok Hid Hsize. unfold insert_new_fork.
  set (h2 := with_forks h (<[id := f]> (forks h))).
  assert (Hfr : fresh h h2 [(s, CreateAnswer (created id f))]).
  { split_and!.
    - apply NoDup_singleton.
    - by intros ? ->%list_elem_of_singleton.
    - unfold h2. simpl. rewrite dom_insert_L. set_solver. }
  destruct (notify_spec id f ss h2) as (h3 & out & -> & Hok3 & Hfr3 & Hs & Hl & Hsame).
  { unfold handler_ok, h2. by rewrite pointers_insert. }
  { unfold h2. rewrite pointers_insert. by rewrite lookup_insert_eq. }
  { rewrite (fresh_size _ _ _ Hfr). simpl. lia. }
  exists h3, ((s, CreateAnswer (created id f)) :: out). split_and!; try done.
  - apply (fresh_trans _ _ _ _ _ Hfr Hfr3).
  - simpl. by f_equal.
  - simpl. by f_equal.
Qed.

(** ** Who waits *)
Definition task_senders (t : ForkTask) : list nat := task_sender t :: additional t.
Definition waiting (ts : list ForkTask) : list nat := ts ≫= task_senders.

Definition request_sender (r : Request) : list nat :=
  match r with
  | CreateForkReq _ s | GetFork _ s | RollFork _ _ s | GetEnv _ s | ShutDown s
  | GetForkUrl _ s => [s]
  | UpdateBlock _ _ _ | UpdateEnv _ _ => []
  end.
Definition senders (reqs : list Request) : list nat := reqs ≫= request_sender.

(** The identifiers in use and those to come. *)
Definition load h : Z :=
  Z.of_nat (size (forks h)) + Z.of_nat (length (waiting (pending_tasks h))).

Lemma waiting_app ts ts' : waiting (ts ++ ts') = waiting ts ++ waiting ts'.
Proof. apply bind_app. Qed.
#[local] Instance waiting_perm : Proper ((≡ₚ) ==> (≡ₚ)) waiting.
Proof. intros ts ts' Hp. unfold waiting. by rewrite Hp. Qed.

Lemma join_task_waiting ts id s ts' :
  join_task ts id s = Some ts' → waiting ts' ≡ₚ s :: waiting ts.
Proof.
  revert ts'. induction ts as [|t ts IH]; intros ts'; simpl; [done|].
  case_bool_decide.
  - intros [= <-]. unfold waiting. cbn [mbind list_bind]. fold (waiting ts).
    set (w := waiting ts). simpl. rewrite Permutation_swap. f_equiv.
    rewrite <- app_assoc. symmetry. apply Permutation_middle.
  - intros (ts'' & Hj & ->)%fmap_Some. unfold waiting. cbn [mbind list_bind]. fold (waiting ts'') (waiting ts).
    rewrite (IH _ Hj). symmetry. apply (Permutation_middle (task_senders t)).
Qed.

Lemma create_fork_waiting h fork s :
  waiting (pending_tasks (create_fork h fork s)) ≡ₚ s :: waiting (pending_tasks h) ∧
  forks (create_fork h fork s) = forks h ∧ counters (create_fork h fork s) = counters h ∧
  incoming_done (create_fork h fork s) = incoming_done h.
Proof.
  unfold create_fork. destruct (join_task _ _ _) as [ts|] eqn:Hj; simpl.
  - by apply join_task_waiting in Hj.
  - split_and!; try done. rewrite waiting_app. simpl. by rewrite <- Permutation_cons_append.
Qed.

(** Only the identifiers answered get a new entry. *)
Definition adds_only h h' out : Prop :=
  ∀ k, k ∉ created_ids out → forks h' !! k = forks h !! k.

Lemma adds_only_trans h1 h2 h3 out out' :
  adds_only h1 h2 out → adds_only h2 h3 out' → adds_only h1 h3 (out ++ out').
Proof.
  intros H1 H2 k. unfold created_ids. rewrite omap_app, not_elem_of_app. intros [? ?].
  by rewrite H2, H1.
Qed.

Lemma notify_adds id f ss : ∀ h h' out, notify h id f ss = (h', out) → adds_only h h' out.
Proof.
  induction ss as [|s ss IH]; intros h h' out; cbn [notify]; [by intros [= <- <-]|].
  destruct (inc_senders h f id) as [h1 k1] eqn:H1. injection H1 as <- <-.
  destruct (notify _ id f ss) as [h2 o2] eqn:H2. intros [= <- <-].
  intros k [Hk Ho]%not_elem_of_cons. rewrite (IH _ _ _ H2 k Ho). simpl.
  by rewrite lookup_insert_ne.
Qed.
Lemma insert_new_fork_adds h id f s ss h' out :
  insert_new_fork h id f s ss = (h', out) → adds_only h h' out.
Proof.
  unfold insert_new_fork. destruct (notify _ id f ss) as [h2 o2] eqn:H2. intros [= <- <-].
  intros k [Hk Ho]%not_elem_of_cons. rewrite (notify_adds _ _ _ _ _ _ H2 k Ho). simpl.
  by rewrite lookup_insert_ne.
Qed.

Lemma poll_task_adds h net t h' out : poll_task h net t = (h', out) → adds_only h h' out.
Proof.
  unfold poll_task, connected, created_fork_new.
  destruct (net (future t)) as [[c|e]|]; [|by intros [= <- <-]..].
  cbn [forks with_counters]. destruct (forks h !! _) as [f0|].
  - destruct (inc_senders _ f0 _) as [h1 k1] eqn:H1. injection H1 as <- <-.
    intros Hi k Hk. by rewrite (insert_new_fork_adds _ _ _ _ _ _ _ Hi k Hk).
  - intros Hi k Hk. by rewrite (insert_new_fork_adds _ _ _ _ _ _ _ Hi k Hk).
Qed.
Lemma poll_tasks_adds net n : ∀ h h' out, poll_tasks h net n = Some (h', out) → adds_only h h' out.
Proof.
  induction n as [|n IH]; intros h h' out; cbn [poll_tasks]; [by intros [= <- <-]|].
  destruct (swap_remove _ n) as [[t ts]|]; [|done]. cbn [mbind option_bind].
  destruct (poll_task (with_tasks h ts) net t) as [h1 o1] eqn:H1.
  destruct (poll_tasks h1 net n) as [[h2 o2]|] eqn:H2; [|done]. cbn. intros [= <- <-].
  eapply (adds_only_trans h h1 h2); [exact (poll_task_adds _ _ _ _ _ H1)|exact (IH _ _ _ H2)].
Qed.

(** ** One request *)
Definition waits h (asked : list nat) h' out : Prop :=
  asked ++ waiting (pending_tasks h) ≡ₚ out.*1 ++ waiting (pending_tasks h').

Lemma waits_trans h1 h2 h3 a a' out out' :
  waits h1 a h2 out → waits h2 a' h3 out' → waits h1 (a ++ a') h3 (out ++ out').
Proof.
  unfold waits. intros H1 H2. rewrite fmap_app, <- !app_assoc, <- H2.
  rewrite (Permutation_app_swap_app a a'), H1. apply Permutation_app_swap_app.
Qed.

Lemma create_fork_waits h fork s : waits h [s] (create_fork h fork s) [].
Proof. unfold waits. simpl. by destruct (create_fork_waiting h fork s) as [-> _]. Qed.

Lemma on_request_waits h req h' out :
  on_request h req = (h', out) → waits h (request_sender req) h' out.
Proof.
  destruct req; simpl; try case_match; intros [= <- <-];
    try apply create_fork_waits; unfold waits; reflexivity.
Qed.

Lemma on_request_no_ids h req h' out : on_request h req = (h', out) → created_ids out = [].
Proof. destruct req; simpl; try case_match; by intros [= <- <-]. Qed.

Definition is_shut_down (r : Request) : bool := match r with ShutDown _ => true | _ => false end.

Lemma create_fork_same h fork s :
  pointers (create_fork h fork s) = pointers h ∧ counters (create_fork h fork s) = counters h.
Proof.
  destruct (create_fork_waiting h fork s) as (_ & Hf & Hc & _).
  unfold pointers. by rewrite Hf.
Qed.

(** Changing environments keeps the pointers. *)
Lemma pointers_alter h (g : CreatedFork → Env) id :
  pointers (with_forks h (alter (λ f, set_fork_env f (g f)) id (forks h))) = pointers h.
Proof.
  unfold pointers. simpl. apply map_eq. intros k. rewrite !lookup_fmap.
  destruct (decide (k = id)) as [->|?].
  - rewrite lookup_alter_eq. by destruct (forks h !! id).
  - by rewrite lookup_alter_ne.
Qed.

Lemma on_request_same h req h' out :
  on_request h req = (h', out) → is_shut_down req = false →
  pointers h' = pointers h ∧ counters h' = counters h.
Proof.
  destruct req; simpl; try case_match; intros [= <- <-]; try done; intros _;
    try apply create_fork_same.
  - split; [apply (pointers_alter h)|done].
  - split; [apply (pointers_alter h)|done].
Qed.

Lemma fresh_same h h' out :
  pointers h' = pointers h → created_ids out = [] → fresh h h' out.
Proof.
  intros Hp. apply fresh_refl. rewrite <- (dom_fmap_L num_senders (forks h')).
  change (dom (pointers h') = dom (forks h)). rewrite Hp. apply dom_fmap_L.
Qed.

(** A step: what it answers is new, and who asked is answered or waits. *)
Record step_ok h (asked : list nat) h' out : Prop := {
  so_inv : handler_ok h';
  so_fresh : fresh h h' out;
  so_waits : waits h asked h' out;
  so_answered : (length (created_ids out) ≤ length out)%nat;
}.

Lemma created_ids_length out : (length (created_ids out) ≤ length out)%nat.
Proof.
  induction out as [|a out IH]; [done|]. unfold created_ids, omap in *. simpl.
  destruct (created_id a); simpl; lia.
Qed.

Lemma step_ok_load h asked h' out :
  step_ok h asked h' out → load h' ≤ load h + Z.of_nat (length asked).
Proof.
  intros [_ Hf Hw Ha]. unfold load. rewrite (fresh_size _ _ _ Hf).
  apply Permutation_length in Hw. rewrite !length_app, length_fmap in Hw. lia.
Qed.
Lemma step_ok_trans h1 h2 h3 a a' out out' :
  step_ok h1 a h2 out → step_ok h2 a' h3 out' → step_ok h1 (a ++ a') h3 (out ++ out').
Proof.
  intros [] []. split; eauto using fresh_trans, waits_trans, created_ids_length.
Qed.
Lemma step_ok_refl h : handler_ok h → step_ok h [] h [].
Proof. intros ?. split; try done; [by apply fresh_same|unfold waits; reflexivity]. Qed.

Lemma on_request_ok h req h' out :
  handler_ok h → is_shut_down req = false → on_request h req = (h', out) →
  step_ok h (request_sender req) h' out.
Proof.
  intros Hok Hs Hr. destruct (on_request_same _ _ _ _ Hr Hs) as [Hp Hc]. split.
  - unfold handler_ok. by rewrite Hp, Hc.
  - apply fresh_same; [done|]. by eapply on_request_no_ids.
  - by apply on_request_waits.
  - apply created_ids_length.
Qed.

Lemma on_requests_ok reqs : ∀ h h' out,
  handler_ok h → forallb (negb ∘ is_shut_down) reqs = true → on_requests h reqs = (h', out) →
  step_ok h (senders reqs) h' out.
Proof.
  induction reqs as [|req reqs IH]; intros h h' out Hok Hs; cbn [MultiFork.on_requests].
  { intros [= <- <-]. by apply step_ok_refl. }
  simpl in Hs. apply andb_prop in Hs as [Hs Hss]. apply negb_true_iff in Hs.
  destruct (on_request h req) as [h1 o1] eqn:H1.
  destruct (on_requests h1 reqs) as [h2 o2] eqn:H2. intros [= <- <-].
  pose proof (on_request_ok h req h1 o1 Hok Hs H1) as Hst.
  eapply (step_ok_trans _ _ _ _ (senders reqs)); [exact Hst|].
  by apply IH; [apply Hst|..].
Qed.

(** ** The tasks of a poll *)
(** Removing the last task not yet polled moves only polled ones. *)
Lemma swap_remove_app {A} (pre rest : list A) x :
  ∃ rest', swap_remove (pre ++ x :: rest) (length pre) = Some (x, pre ++ rest') ∧
    rest' ≡ₚ rest.
Proof.
  unfold swap_remove. rewrite list_lookup_middle by done. cbn [mbind option_bind].
  destruct (rest) as [|y rest0 _] using rev_ind.
  - exists []. rewrite last_snoc. cbn. split; [|done]. do 2 f_equal.
    rewrite length_app. simpl. rewrite Nat.add_1_r. simpl.
    rewrite insert_app_r_alt, Nat.sub_diag by lia. simpl.
    rewrite take_app_length' by done. by rewrite app_nil_r.
  - exists (y :: rest0). split; [|apply Permutation_cons_append].
    change (pre ++ x :: rest0 ++ [y]) with (pre ++ (x :: rest0) ++ [y]).
    rewrite (assoc (++)), last_snoc. cbn. do 2 f_equal.
    rewrite insert_app_r_alt, Nat.sub_diag by lia. simpl.
    rewrite (app_comm_cons rest0 [y] y), (assoc (++)).
    apply take_app_length'. rewrite !length_app. simpl. rewrite length_app. simpl. lia.
Qed.

(** The answers of one task. *)
Lemma notify_tasks id f ss : ∀ h h' out,
  notify h id f ss = (h', out) → same_tasks h h' ∧ out.*1 = ss.
Proof.
  induction ss as [|s ss IH]; intros h h' out; cbn [notify]; [by intros [= <- <-]|].
  destruct (inc_senders h f id) as [h1 k] eqn:H1. injection H1 as <- <-.
  destruct (notify _ id f ss) as [h2 o2] eqn:H2. intros [= <- <-].
  destruct (IH _ _ _ H2) as [[Ht Hd] Ho]. split; [by split|]. simpl. by f_equal.
Qed.

Definition still_pending (net : Network) (t : ForkTask) : list ForkTask :=
  match net (future t) with Some _ => [] | None => [t] end.

Lemma poll_task_tasks h net t h' out :
  poll_task h net t = (h', out) →
  pending_tasks h' = pending_tasks h ++ still_pending net t ∧
  incoming_done h' = incoming_done h ∧
  out.*1 = match net (future t) with Some _ => task_senders t | None => [] end.
Proof.
  unfold poll_task, still_pending, connected, created_fork_new, insert_new_fork.
  destruct (net (future t)) as [[c|e]|]; simpl.
  - destruct (forks h !! _) as [f0|]; simpl;
      destruct (notify _ _ _ _) as [h2 o2] eqn:Hn; intros [= <- <-];
      destruct (notify_tasks _ _ _ _ _ _ Hn) as [[Ht Hd] Ho]; simpl in *;
      (split_and!; [by rewrite Ht, app_nil_r|done|]); unfold task_senders; simpl;
      f_equal; exact Ho.
  - intros [= <- <-]. rewrite app_nil_r. split_and!; try done. unfold task_senders. simpl.
    f_equal. induction (additional t); simpl; by f_equal.
  - intros [= <- <-]. done.
Qed.

Lemma errors_no_ids e ss :
  created_ids ((λ s, (s, CreateAnswer (Err e))) <$> ss) = [].
Proof. by induction ss. Qed.

(** Asking [with_tasks] for a task's senders is polling it. *)
Lemma poll_task_ok h net t ts h' out :
  handler_ok h → pending_tasks h ≡ₚ t :: ts → load h ≤ u64_max →
  poll_task (with_tasks h ts) net t = (h', out) → step_ok h [] h' out.
Proof.
  intros Hok Hts Hload Hp.
  destruct (poll_task_tasks _ _ _ _ _ Hp) as (Ht' & _ & Ho).
  assert (Hw : waits h [] h' out).
  { unfold waits. rewrite Ho, Ht', Hts. simpl. unfold still_pending.
    change (waiting (t :: ts)) with (task_senders t ++ waiting ts). rewrite waiting_app.
    destruct (net (future t)); [by rewrite app_nil_r|].
    change (waiting [t]) with (task_senders t ++ []). rewrite app_nil_r.
    apply (Permutation_app_comm (task_senders t)). }
  assert (Hsz : Z.of_nat (size (forks h)) + 1 + Z.of_nat (length (additional t)) ≤ u64_max).
  { unfold load in Hload. rewrite Hts in Hload.
    change (waiting (t :: ts)) with (task_senders t ++ waiting ts) in Hload.
    rewrite length_app in Hload. simpl in Hload. lia. }
  enough (handler_ok h' ∧ fresh h h' out) as [? ?] by
    (split; [done..|apply created_ids_length]).
  clear Hw Ho Ht'. revert Hp. unfold poll_task.
  destruct (net (future t)) as [[c|e]|].
  - unfold connected, created_fork_new. cbn [forks counters with_counters with_tasks].
    set (u := url _). set (f := mkCreatedFork _ _ _).
    destruct (forks h !! fork_id_new u (Some (conn_number c))) as [f0|] eqn:Hf0.
    + assert (Hp0 := pointers_Some _ _ _ Hf0).
      set (h1 := with_counters (with_tasks h ts) (counters h ++ [1])).
      assert (Hok1 : ids_ok (pointers h) (counters h1)).
      { intros k p Hk. destruct (Hok k p Hk) as (b & sfx & n & ? & ? & ? & Hn & [? ?] & ?).
        exists b, sfx, n. split_and!; try done.
        unfold h1. simpl. rewrite lookup_app_l; [done|]. by eapply lookup_lt_Some. }
      destruct (inc_senders_spec h1 _ f0 Hok1 Hp0) as (h2 & k & -> & Hk & Hf2 & _ & Hok2).
      { simpl. lia. }
      intros Hi.
      destruct (insert_new_fork_spec h2 k f0 (task_sender t) (additional t))
        as (h3 & o3 & Hi' & ? & Hfr & _).
      { unfold pointers. rewrite Hf2. exact Hok2. } { by rewrite Hf2. }
      { rewrite Hf2. simpl. lia. }
      pose proof (eq_trans (eq_sym Hi) Hi') as [= -> ->]. split; [done|].
      unfold fresh in *. rewrite Hf2 in Hfr. exact Hfr.
    + intros Hi.
      set (k := fork_id_new u (Some (conn_number c))) in *.
      destruct (insert_new_fork_spec (with_handlers
          (with_counters (with_tasks h ts) (counters h ++ [1]))
          (handlers h ++ [(k, conn_handler c)])) k f (task_sender t) (additional t))
        as (h3 & o3 & Hi' & ? & Hfr & _).
      { apply ids_ok_new; [done| |by apply pointers_None]. by do 2 eexists. }
      { done. } { simpl. lia. }
      pose proof (eq_trans (eq_sym Hi) Hi') as [= -> ->]. by split.
  - intros [= <- <-]. split; [done|]. by apply fresh_same; [|apply (errors_no_ids _ (_ :: _))].
  - intros [= <- <-]. split; [done|]. by apply fresh_same.
Qed.

Definition ready (net : Network) : Prop := ∀ fork, net fork ≠ None.

Lemma poll_task_waits h net t ts h' out :
  pending_tasks h ≡ₚ t :: ts → poll_task (with_tasks h ts) net t = (h', out) →
  waits h [] h' out.
Proof.
  intros Hts Hp. destruct (poll_task_tasks _ _ _ _ _ Hp) as (Ht & _ & Ho).
  unfold waits. rewrite Ho, Ht, Hts. simpl. unfold still_pending.
  change (waiting (t :: ts)) with (task_senders t ++ waiting ts). rewrite waiting_app.
  destruct (net (future t)); [by rewrite app_nil_r|].
  change (waiting [t]) with (task_senders t ++ []). rewrite app_nil_r.
  apply (Permutation_app_comm (task_senders t)).
Qed.

(** Every task is polled, once, without a panic. *)
Lemma poll_tasks_spec net n : ∀ h pre rest,
  pending_tasks h = pre ++ rest → length pre = n →
  ∃ h' out, poll_tasks h net n = Some (h', out) ∧ waits h [] h' out ∧
    incoming_done h' = incoming_done h ∧
    (ready net → rest = [] → pending_tasks h' = []) ∧
    (handler_ok h → load h ≤ u64_max → step_ok h [] h' out).
Proof.
  induction n as [|n IH]; intros h pre rest Hts Hn.
  { apply nil_length_inv in Hn as ->. exists h, []. split_and!; [done|unfold waits; reflexivity|done| |].
    - intros _ ->. by rewrite Hts.
    - intros. by apply step_ok_refl. }
  destruct pre as [|t pre _] using rev_ind; [done|].
  rewrite length_app in Hn. simpl in Hn. rewrite Nat.add_1_r in Hn. injection Hn as Hn.
  rewrite <- app_assoc in Hts. simpl in Hts. cbn [poll_tasks].
  destruct (swap_remove_app pre rest t) as (rest' & Hsw & Hrest). rewrite Hn in Hsw.
  rewrite Hts, Hsw. cbn [mbind option_bind].
  destruct (poll_task (with_tasks h (pre ++ rest')) net t) as [h1 o1] eqn:H1.
  assert (Hperm : pending_tasks h ≡ₚ t :: pre ++ rest').
  { by rewrite Hts, Hrest, Permutation_middle. }
  destruct (poll_task_tasks _ _ _ _ _ H1) as (Ht1 & Hd1 & _). simpl in Ht1.
  rewrite <- app_assoc in Ht1.
  destruct (IH h1 pre (rest' ++ still_pending net t) Ht1 Hn)
    as (h2 & o2 & -> & Hw & Hd & Hr & Hok2). cbn.
  exists h2, (o1 ++ o2). split_and!; try done.
  - eapply (waits_trans h h1 h2 [] []); [by eapply poll_task_waits|done].
  - by rewrite Hd.
  - intros Hready ->. apply Hr; [done|]. apply Permutation_nil_r in Hrest as ->.
    unfold still_pending. specialize (Hready (future t)). by destruct (net (future t)).
  - intros Hok Hload. pose proof (poll_task_ok _ _ _ _ _ _ Hok Hperm Hload H1) as Hst.
    eapply (step_ok_trans h h1 h2 [] []); [done|]. apply Hok2; [apply Hst|].
    apply step_ok_load in Hst. simpl in Hst. lia.
Qed.

Lemma poll_handlers_total drive n : ∀ pre rest,
  length pre = n → ∃ l, poll_handlers (pre ++ rest) drive n = Some l.
Proof.
  induction n as [|n IH]; intros pre rest Hn; [by eexists|].
  destruct pre as [|x pre _] using rev_ind; [done|].
  rewrite length_app in Hn. simpl in Hn. rewrite Nat.add_1_r in Hn. injection Hn as Hn.
  rewrite <- app_assoc. simpl. cbn [poll_handlers].
  destruct (swap_remove_app pre rest x) as (rest' & Hsw & _). rewrite Hn in Hsw.
  rewrite Hsw. cbn [mbind option_bind].
  destruct (drive x.2) as [hd|]; [rewrite <- app_assoc|]; by apply IH.
Qed.

(** ** Polls *)
Lemma on_requests_waits reqs : ∀ h h' out,
  on_requests h reqs = (h', out) → waits h (senders reqs) h' out.
Proof.
  induction reqs as [|req reqs IH]; intros h h' out; cbn [MultiFork.on_requests].
  { intros [= <- <-]. unfold waits. reflexivity. }
  destruct (on_request h req) as [h1 o1] eqn:H1.
  destruct (on_requests h1 reqs) as [h2 o2] eqn:H2. intros [= <- <-].
  eapply (waits_trans _ _ _ _ (senders reqs)); [by apply on_request_waits|by apply IH].
Qed.

Definition no_shut_down (t : Turn) : bool := forallb (negb ∘ is_shut_down) (received t).

Lemma poll_spec h t :
  ∃ h' out b, poll h t = Some (h', out, b) ∧ waits h (senders (received t)) h' out ∧
    (ready (network t) → pending_tasks h' = []) ∧
    (handler_ok h → load h + Z.of_nat (length (senders (received t))) ≤ u64_max →
     no_shut_down t = true → step_ok h (senders (received t)) h' out).
Proof.
  unfold MultiFork.poll. destruct (on_requests h (received t)) as [h1 o1] eqn:H1.
  set (h2 := mkHandler _ _ _ _ _).
  destruct (poll_tasks_spec (network t) (length (pending_tasks h2)) h2 (pending_tasks h2) [])
    as (h3 & o3 & -> & Hw & _ & Hr & Hok3); [by rewrite app_nil_r|done|].
  cbn [mbind option_bind].
  destruct (poll_handlers_total (drive t) _ (handlers h3) [] eq_refl) as [l Hl].
  rewrite app_nil_r in Hl. rewrite Hl. cbn.
  do 3 eexists. split_and!; [reflexivity|..].
  - rewrite <- (app_nil_r (senders _)).
    eapply (waits_trans h h2 (with_handlers h3 l)); [|exact Hw].
    exact (on_requests_waits _ _ _ _ H1).
  - intros Hready. by apply Hr.
  - intros Hok Hload Hns. pose proof (on_requests_ok _ _ _ _ Hok Hns H1) as Hst.
    destruct Hst as [Hi Hf Hws Ha].
    assert (Hst2 : step_ok h (senders (received t)) h2 o1) by (by split).
    pose proof (step_ok_load _ _ _ _ Hst2) as Hl2.
    destruct (Hok3 Hi) as [Hi3 Hf3 Hw3 Ha3]; [lia|].
    rewrite <- (app_nil_r (senders _)).
    by eapply (step_ok_trans h h2 (with_handlers h3 l)); [|split].
Qed.

Definition asked (ts : list Turn) : list nat := ts ≫= (senders ∘ received).

(** The network answers every task of the last poll. *)
Definition settled h (ts : list Turn) : Prop :=
  match last ts with Some t => ready (network t) | None => pending_tasks h = [] end.

Lemma run_spec ts : ∀ h,
  ∃ h' out, run h ts = Some (h', out) ∧ waits h (asked ts) h' out ∧
    (settled h ts → pending_tasks h' = []) ∧
    (handler_ok h → load h + Z.of_nat (length (asked ts)) ≤ u64_max →
     forallb no_shut_down ts = true → step_ok h (asked ts) h' out).
Proof.
  induction ts as [|t ts IH]; intros h; cbn [MultiFork.run].
  { exists h, []. split_and!; [done|unfold waits; reflexivity|done|].
    intros. by apply step_ok_refl. }
  destruct (poll_spec h t) as (h1 & o1 & b & -> & Hw1 & Hr1 & Hok1). cbn [mbind option_bind].
  destruct (IH h1) as (h2 & o2 & -> & Hw2 & Hr2 & Hok2). cbn.
  exists h2, (o1 ++ o2). split_and!; [done|exact (waits_trans _ _ _ _ (asked ts) _ _ Hw1 Hw2)|..].
  - intros Hs. apply Hr2. unfold settled in *.
    destruct ts as [|t1 ts]; [by apply Hr1|]. rewrite last_cons_cons in Hs.
    by destruct (last (t1 :: ts)) eqn:Hl; [|apply last_None in Hl].
  - intros Hok Hload [Hns Hnss]%andb_prop.
    fold (asked ts) in *. rewrite length_app in Hload.
    assert (Hst : step_ok h (senders (received t)) h1 o1) by (apply Hok1; done || lia).
    eapply step_ok_trans; [done|]. apply Hok2; [apply Hst| |done].
    apply step_ok_load in Hst. lia.
Qed.

Lemma handler_new_ok : handler_ok handler_new.
Proof. unfold handler_ok, pointers. simpl. rewrite fmap_empty. apply ids_ok_empty. Qed.

(** In any sequence of polls without a shutdown, whatever the requests and
    the network, the handler does not panic, no two requests are answered with
    the same fork identifier, and the identifiers answered are those
    registered. *)
Lemma fork_ids_unique (ts : list Turn) :
  forallb no_shut_down ts = true → Z.of_nat (length (asked ts)) ≤ u64_max →
  ∃ h out, run handler_new ts = Some (h, out) ∧ NoDup (created_ids out) ∧
    ∀ id, id ∈ created_ids out ↔ is_Some (forks h !! id).
Proof.
  intros Hns Hlen. destruct (run_spec ts handler_new) as (h & out & Hrun & _ & _ & Hok).
  destruct (Hok handler_new_ok) as [_ (Hnd & _ & Hd) _ _]; [done..|].
  exists h, out. split_and!; [done..|]. intros id.
  rewrite <- elem_of_dom, Hd. simpl. rewrite dom_empty_L, (left_id_L ∅ (∪)).
  by rewrite elem_of_list_to_set.
Qed.

(** C24: Whatever the requests and the network, everyone who sent a request
    with an answer channel is answered exactly once or still waits for a fork
    that is being connected; after a poll in which the network answers, nobody
    waits. *)
Theorem fork_requests_answered (ts : list Turn) :
  ∃ h out, run handler_new ts = Some (h, out) ∧
    asked ts ≡ₚ out.*1 ++ waiting (pending_tasks h) ∧
    (settled handler_new ts → asked ts ≡ₚ out.*1).
Proof.
  destruct (run_spec ts handler_new) as (h & out & Hrun & Hw & Hs & _).
  unfold waits in Hw. simpl in Hw. rewrite app_nil_r in Hw.
  exists h, out. split_and!; [done..|]. intros Hset. rewrite (Hs Hset) in Hw.
  simpl in Hw. by rewrite app_nil_r in Hw.
Qed.
End proofs.

(** ** A handler with one endpoint *)
#[local] Instance sample_fork_types : ForkTypes := {|
  BlobPrice := unit; SpecId := unit; CfgRest := unit; TxRest := unit; OptsRest := unit;
  SharedBackend := nat; Handler := unit; RpcError := unit;
|}.

Definition sample_block (n : Z) : BlockEnv := mkBlockEnv n 0 (n * 12) 30000000 7 0 None None.
Definition sample_env (n : Z) : Env :=
  mkEnv (sample_block n) (mkCfgEnv 1 tt tt) (mkTxEnv 0 Create None tt).
Definition sample_fork (block : option Z) : CreateFork :=
  mkCreateFork true "http://node" (sample_env 0) (mkEvmOpts block tt).
(** The latest block is 255. *)
Definition sample_network : Network := λ fork,
  let n := default 255 (fork_block_number (evm_opts fork)) in
  Some (Ok (mkConnection (sample_env n) n 1%nat tt)).
Definition sample_turn (reqs : list Request) : Turn :=
  mkTurn reqs false sample_network (λ _, Some tt).

Definition sample_error : ForkId → RpcError := λ _, tt.

(** Two forks of the latest block and one of block 255 share a backend under
    three identifiers. *)
Definition sample_turns : list Turn :=
  [sample_turn [CreateForkReq (sample_fork None) 1; CreateForkReq (sample_fork None) 2];
   sample_turn [CreateForkReq (sample_fork (Some 255)) 3; GetForkUrl "http://node@0xff-1" 4]].

Lemma fork_ids_unique_witness :
  ∃ h out, run sample_error handler_new sample_turns = Some (h, out) ∧ NoDup (created_ids out) ∧
    ∀ id, id ∈ created_ids out ↔ is_Some (forks h !! id).
Proof. apply (fork_ids_unique sample_error sample_turns); [reflexivity|vm_compute; discriminate]. Defined.

Lemma fork_requests_answered_witness :
  ∃ h out, run sample_error handler_new sample_turns = Some (h, out) ∧ [1; 2; 3; 4]%nat ≡ₚ out.*1.
Proof.
  destruct (fork_requests_answered sample_error sample_turns) as (h & out & Hr & _ & Hs).
  exists h, out. split; [exact Hr|]. apply Hs. discriminate.
Defined.

Lemma sample_run :
  (created_ids ∘ snd <$> run sample_error handler_new sample_turns) =
  Some ["http://node@0xff"; "http://node@0xff-1"; "http://node@0xff-2"]%string.
Proof. vm_compute. reflexivity. Qed.

(** A fork requested at a block starts with the block number and timestamp
    another user of the same block has set, not with those of the block. *)
Lemma created_fork_inherits_updates :
  ∃ h out, run sample_error handler_new
    [sample_turn [CreateForkReq (sample_fork (Some 255)) 1];
     sample_turn [UpdateBlock "http://node@0xff" 999 12345];
     sample_turn [CreateForkReq (sample_fork (Some 255)) 2]] = Some (h, out) ∧
    out !! 0%nat =
      Some (1%nat, CreateAnswer (Ok ("http://node@0xff"%string, 1%nat, sample_env 255))) ∧
    out !! 1%nat =
      Some (2%nat, CreateAnswer (Ok ("http://node@0xff-1"%string, 1%nat,
        set_block (sample_env 255) (set_number_timestamp (sample_block 255) 999 12345)))).
Proof. do 2 eexists. split; [vm_compute; reflexivity|]. done. Qed.
