(* ===== verification/ForkState.v ===== *)
(** * The state of forks: evm/core/src/backend/mod.rs, backend/snapshot.rs

    A [Fork] is a database over a remote backend and the journal of loaded
    accounts; [BackendInner] keeps the tables from the numbers a test uses to
    fork identifiers and from those to the slots of a vector.  Here are the
    data, the tables' operations and the functions that carry accounts from
    one fork to another.  revm's journal and [CacheDB] have the fields this
    code uses ([StateDb.CacheDB] is the cache); their methods are the
    interface [RevmDb]. *)
From stdpp Require Import base list gmap strings.
From Stdlib Require Import ZArith Lia.
From S2P Require Import Prelude Containers StateDb Snapshots MultiFork.
#[local] Open Scope list_scope.

#[local] Abbreviation Address := Z (only parsing).
#[local] Abbreviation U256 := Z (only parsing).
#[local] Abbreviation B256 := Z (only parsing).
Abbreviation LocalForkId := Z (only parsing).
Abbreviation ForkLookupIndex := nat (only parsing).

(** ** Types of revm *)
Class RevmTypes := {
  Bytecode : Type;
  DbStatus : Type;        (* [AccountState] of the cache *)
  Status : Type;          (* [AccountStatus] of the journal *)
  SlotRest : Type;
  AccountRest : Type;
  JournalRest : Type;
  FLog : Type;
  DbError : Type;
  EmptyDb : Type;
}.

Section types.
Context `{!ForkTypes, !RevmTypes}.

Abbreviation Info := (AccountInfo Bytecode).

Record EvmStorageSlot := mkSlot {
  original_value : U256; present_value : U256; slot_rest : SlotRest;
}.
Record Account := mkAccount {
  acc_info : Info; acc_storage : gmap U256 EvmStorageSlot; status : Status;
  acc_rest : AccountRest;
}.
Record JournaledState := mkJournaledState {
  state : gmap Address Account; logs : list FLog; depth : Z; journal_rest : JournalRest;
}.

(** [CacheDB<ExtDB>]: the cache and the database below it. *)
Record CachedDb (Ext : Type) := mkCachedDb {
  cache : CacheDB Bytecode DbStatus; ext : Ext;
}.
Record Fork := mkFork { db : CachedDb SharedBackend; journaled_state : JournaledState }.
End types.
Arguments mkCachedDb {_ Ext} _ _.
Arguments cache {_ Ext} _.
Arguments ext {_ Ext} _.

(** What is called of revm: the accounts' flags, the default account, and the
    methods of [CacheDB] for any database below. *)
Class RevmDb `{!ForkTypes, !RevmTypes} := {
  is_created : Status → bool;
  is_touched : Status → bool;
  account_from : AccountInfo Bytecode → Account;
  default_info : AccountInfo Bytecode;
  KECCAK_EMPTY : B256;
  db_new {Ext : Type} : Ext → CachedDb Ext;
  empty_db : EmptyDb;
  db_basic {Ext} :
    CachedDb Ext → Address → CachedDb Ext * result DbError (option (AccountInfo Bytecode));
  db_load_account {Ext} :
    CachedDb Ext → Address → CachedDb Ext * result DbError (DbAccount Bytecode DbStatus);
  db_basic_ref {Ext} : CachedDb Ext → Address → result DbError (option (AccountInfo Bytecode));
  db_insert_account_info {Ext} : CachedDb Ext → Address → AccountInfo Bytecode → CachedDb Ext;
  db_commit {Ext} : CachedDb Ext → gmap Address Account → CachedDb Ext;
  db_insert_account_storage {Ext} :
    CachedDb Ext → Address → U256 → U256 → CachedDb Ext * result DbError unit;
  db_replace_account_storage {Ext} :
    CachedDb Ext → Address → gmap U256 U256 → CachedDb Ext * result DbError unit;
  db_storage {Ext} : CachedDb Ext → Address → U256 → CachedDb Ext * result DbError U256;
  db_storage_ref {Ext} : CachedDb Ext → Address → U256 → result DbError U256;
  db_code_by_hash {Ext} : CachedDb Ext → B256 → CachedDb Ext * result DbError Bytecode;
  db_code_by_hash_ref {Ext} : CachedDb Ext → B256 → result DbError Bytecode;
  db_block_hash {Ext} : CachedDb Ext → Z → CachedDb Ext * result DbError B256;
  db_block_hash_ref {Ext} : CachedDb Ext → Z → result DbError B256;
  is_precompile : SpecId → Address → bool;
  journal_new : SpecId → JournaledState;
  (* [JournalInner::load_account], whose result this code ignores *)
  journal_load_account :
    JournaledState → CachedDb SharedBackend → Address → JournaledState * CachedDb SharedBackend;
}.

Section state.
Context `{!ForkTypes, !RevmTypes, !RevmDb, !HashOrder Address}.
Implicit Types (j : JournaledState) (f : Fork) (a : Account).

Definition set_state j s : JournaledState := mkJournaledState s (logs j) (depth j) (journal_rest j).
Definition set_depth j d : JournaledState := mkJournaledState (state j) (logs j) d (journal_rest j).
Definition set_logs j l : JournaledState := mkJournaledState (state j) l (depth j) (journal_rest j).
Definition with_info a i : Account := mkAccount i (acc_storage a) (status a) (acc_rest a).
Definition with_storage a s : Account := mkAccount (acc_info a) s (status a) (acc_rest a).
Definition with_present (s : EvmStorageSlot) (v : U256) : EvmStorageSlot :=
  mkSlot (original_value s) v (slot_rest s).
Definition with_cache {Ext} (d : CachedDb Ext) c : CachedDb Ext := mkCachedDb c (ext d).

(** ** Carrying accounts over *)

(** [storage.extend(..)]: the new entries win. *)
Definition merge_journaled_state_data (addr : Address) (active fork : JournaledState)
    : JournaledState :=
  match state active !! addr with
  | Some acc =>
      let acc :=
        match state fork !! addr with
        | Some fork_account => with_storage acc (acc_storage acc ∪ acc_storage fork_account)
        | None => acc
        end in
      set_state fork (<[addr := acc]> (state fork))
  | None => fork
  end.

Definition merge_db_account_data {Ext} (addr : Address) (active : CachedDb Ext)
    (fork_db : CachedDb SharedBackend) : CachedDb SharedBackend :=
  match accounts (cache active) !! addr with
  | None => fork_db
  | Some acc =>
      let c := cache fork_db in
      let ct :=
        match contracts (cache active) !! code_hash (info acc) with
        | Some code => <[code_hash (info acc) := code]> (contracts c)
        | None => contracts c
        end in
      let acc' :=
        match accounts c !! addr with
        | None => acc
        | Some fork_account =>
            mkDbAccount (info fork_account) (account_state fork_account)
              (storage acc ∪ storage fork_account)
        end in
      with_cache fork_db (mkCacheDB (<[addr := acc']> (accounts c)) ct (block_hashes c))
  end.

Definition merge_account {Ext} (active : CachedDb Ext) j (target : Fork) (addr : Address) : Fork :=
  mkFork (merge_db_account_data addr active (db target))
    (merge_journaled_state_data addr j (journaled_state target)).

(** The second component is the active journal, which becomes the target's. *)
Definition merge_account_data {Ext} (accounts : list Address) (active : CachedDb Ext)
    j (target : Fork) : Fork * JournaledState :=
  let target := foldl (merge_account active j) target accounts in
  (target, journaled_state target).

Definition is_contract_in_state j (acc : Address) : bool :=
  match state j !! acc with
  | Some a => bool_decide (code_hash (acc_info a) ≠ KECCAK_EMPTY)
  | None => false
  end.

Definition is_contract f (acc : Address) : bool :=
  match db_basic_ref (db f) acc with
  | Ok (Some i) =>
      bool_decide (code_hash i ≠ KECCAK_EMPTY) || is_contract_in_state (journaled_state f) acc
  | _ => is_contract_in_state (journaled_state f) acc
  end.

(** [entry(caller).or_insert_with(..)]: the caller is in the journal, and in
    the database. *)
Definition ensure_caller (caller : Address) (current : JournaledState)
    (d : CachedDb SharedBackend) j : CachedDb SharedBackend * JournaledState :=
  match state j !! caller with
  | Some _ => (d, j)
  | None =>
      let caller_account := default default_info (acc_info <$> state current !! caller) in
      let d := match accounts (cache d) !! caller with
               | Some _ => d
               | None => db_insert_account_info d caller caller_account
               end in
      (d, set_state j (<[caller := account_from caller_account]> (state j)))
  end.

(** ** The environment *)
Definition update_current_env_with_fork_env (current fork : Env) : Env :=
  mkEnv (block_env fork) (cfg_env fork)
    (mkTxEnv (caller (env_tx current)) (kind (env_tx current)) (chain_id (env_tx fork))
       (tx_rest (env_tx current))).

(** ** Snapshots *)
Inductive BackendDatabaseSnapshot :=
| InMemory (d : CachedDb EmptyDb)
| Forked (id : LocalForkId) (fork_id : ForkId) (idx : ForkLookupIndex) (fork : Fork).

Record BackendStateSnapshot := mkBackendStateSnapshot {
  snap_db : BackendDatabaseSnapshot; snap_journal : JournaledState; snap_env : Env;
}.

(** The journal with the logs emitted since. *)
Definition snapshot_merge (s : BackendStateSnapshot) (current : JournaledState)
    : BackendStateSnapshot :=
  mkBackendStateSnapshot (snap_db s) (set_logs (snap_journal s) (logs current)) (snap_env s).

(** ** [BackendInner] *)
Record BackendInner := mkInner {
  launched_with_fork : option (ForkId * LocalForkId * ForkLookupIndex);
  issued_local_fork_ids : gmap Z ForkId;
  created_forks : gmap ForkId ForkLookupIndex;
  forks : list (option Fork);
  state_snapshots : StateSnapshots BackendStateSnapshot;
  has_state_snapshot_failure : bool;
  inner_caller : option Address;
  next_fork_id : LocalForkId;
  persistent_accounts : gset Address;
  spec_id : SpecId;
  cheatcode_access_accounts : gset Address;
}.
Implicit Types i : BackendInner.

Definition CHEATCODE_ADDRESS : Address := 0x7109709ECfa91a80626fF3989D68f67F5b1DD12D.
Definition DEFAULT_CREATE2_DEPLOYER : Address := 0x4e59b44847b379578588920ca78fbf26c0b4956c.
Definition CALLER : Address := 0x1804c8AB1F12E6bbf3894d4083f33e07309d1f38.
Definition TEST_CONTRACT_ADDRESS : Address := 0x7FA9385bE102ac3EAc297483Dd6233D62b3e1496.
Definition GLOBAL_FAIL_SLOT : U256 :=
  0x6661696c65640000000000000000000000000000000000000000000000000000.
Definition DEFAULT_PERSISTENT_ACCOUNTS : list Address :=
  [CHEATCODE_ADDRESS; DEFAULT_CREATE2_DEPLOYER; CALLER].

Definition inner_default (default_spec : SpecId) : BackendInner :=
  mkInner None ∅ ∅ [] snapshots_default false None 0 ∅ default_spec
    (list_to_set [CHEATCODE_ADDRESS; TEST_CONTRACT_ADDRESS; CALLER]).

Definition set_tables i issued created fs next : BackendInner :=
  mkInner (launched_with_fork i) issued created fs (state_snapshots i)
    (has_state_snapshot_failure i) (inner_caller i) next (persistent_accounts i)
    (spec_id i) (cheatcode_access_accounts i).
Definition set_forks i fs : BackendInner :=
  set_tables i (issued_local_fork_ids i) (created_forks i) fs (next_fork_id i).
Definition set_snapshots i s : BackendInner :=
  mkInner (launched_with_fork i) (issued_local_fork_ids i) (created_forks i) (forks i) s
    (has_state_snapshot_failure i) (inner_caller i) (next_fork_id i) (persistent_accounts i)
    (spec_id i) (cheatcode_access_accounts i).
Definition set_launched i l : BackendInner :=
  mkInner l (issued_local_fork_ids i) (created_forks i) (forks i) (state_snapshots i)
    (has_state_snapshot_failure i) (inner_caller i) (next_fork_id i) (persistent_accounts i)
    (spec_id i) (cheatcode_access_accounts i).
Definition set_failure i b : BackendInner :=
  mkInner (launched_with_fork i) (issued_local_fork_ids i) (created_forks i) (forks i)
    (state_snapshots i) b (inner_caller i) (next_fork_id i) (persistent_accounts i)
    (spec_id i) (cheatcode_access_accounts i).
Definition set_accounts i caller persistent access : BackendInner :=
  mkInner (launched_with_fork i) (issued_local_fork_ids i) (created_forks i) (forks i)
    (state_snapshots i) (has_state_snapshot_failure i) caller (next_fork_id i) persistent
    (spec_id i) access.
Definition set_spec i s : BackendInner :=
  mkInner (launched_with_fork i) (issued_local_fork_ids i) (created_forks i) (forks i)
    (state_snapshots i) (has_state_snapshot_failure i) (inner_caller i) (next_fork_id i)
    (persistent_accounts i) s (cheatcode_access_accounts i).

(** The errors of this module. *)
Inductive ForkError :=
| NoMatchingFork              (* No matching fork found for .. *)
| ForkDoesNotExist            (* Requested fork .. does not exist *)
| NoForkActive
| MissingAccount (a : Address)
| NoCheats (a : Address)
| Database (e : DbError)
| Remote (e : RpcError)
| MissingTransaction
| EvmError
| DuringBroadcast            (* cannot select forks during a broadcast *)
| ConfigError.               (* an unknown endpoint *)

Definition ok_or {E A} (o : option A) (e : E) : result E A :=
  match o with Some a => Ok a | None => Err e end.

Definition inner_ensure_fork_id i (id : LocalForkId) : result ForkError ForkId :=
  ok_or (issued_local_fork_ids i !! id) NoMatchingFork.
Definition ensure_fork_index i (id : ForkId) : result ForkError ForkLookupIndex :=
  ok_or (created_forks i !! id) NoMatchingFork.
Definition ensure_fork_index_by_local_id i (id : LocalForkId)
    : result ForkError ForkLookupIndex :=
  fork_id ← inner_ensure_fork_id i id; ensure_fork_index i fork_id.

(** [None] is a panic: no such slot, or its fork is taken. *)
Definition get_fork i (idx : ForkLookupIndex) : option Fork := mjoin (forks i !! idx).

Definition take_fork i (idx : ForkLookupIndex) : option (Fork * BackendInner) :=
  f ← mjoin (forks i !! idx); Some (f, set_forks i (<[idx := None]> (forks i))).

(** Also the write through [get_fork_mut]. *)
Definition set_fork i (idx : ForkLookupIndex) f : option BackendInner :=
  if bool_decide (idx < length (forks i))%nat
  then Some (set_forks i (<[idx := Some f]> (forks i))) else None.

(** The forks with their numbers; an index of the maps or of the vector that
    does not exist panics. *)
Definition forks_iter i : option (list (LocalForkId * Fork)) :=
  mapM (λ '(id, fork_id),
          idx ← created_forks i !! fork_id; f ← get_fork i idx; Some (id, f))
    (iter_map (issued_local_fork_ids i)).

Definition next_id i : LocalForkId * LocalForkId :=
  (next_fork_id i, wrap_u256 (next_fork_id i + 1)).

Definition insert_new_fork i (fork_id : ForkId) (d : CachedDb SharedBackend) j
    : BackendInner * (LocalForkId * ForkLookupIndex) :=
  let idx := length (forks i) in
  let '(id, next) := next_id i in
  (set_tables i (<[id := fork_id]> (issued_local_fork_ids i))
     (<[fork_id := idx]> (created_forks i)) (forks i ++ [Some (mkFork d j)]) next,
   (id, idx)).

Definition inner_revert_state_snapshot i (id : LocalForkId) (fork_id : ForkId)
    (idx : ForkLookupIndex) f : option BackendInner :=
  set_fork (set_tables i (<[id := fork_id]> (issued_local_fork_ids i))
              (<[fork_id := idx]> (created_forks i)) (forks i) (next_fork_id i)) idx f.

Definition update_fork_mapping i (id : LocalForkId) (fork_id : ForkId)
    (d : CachedDb SharedBackend) j : BackendInner * ForkLookupIndex :=
  let idx := length (forks i) in
  (set_tables i (<[id := fork_id]> (issued_local_fork_ids i))
     (<[fork_id := idx]> (created_forks i)) (forks i ++ [Some (mkFork d j)]) (next_fork_id i),
   idx).

(** A new database that keeps the persistent accounts. *)
Definition rolled_db i (active : CachedDb SharedBackend) (backend : SharedBackend)
    : CachedDb SharedBackend :=
  foldl (λ new_db addr, merge_db_account_data addr active new_db) (db_new backend)
    (iter_set (persistent_accounts i)).

Definition inner_roll_fork i (id : LocalForkId) (new_fork_id : ForkId) (backend : SharedBackend)
    : option (BackendInner * result ForkError ForkLookupIndex) :=
  match ensure_fork_index_by_local_id i id with
  | Err e => Some (i, Err e)
  | Ok idx =>
      slot ← forks i !! idx;
      let fs :=
        match slot with
        | Some f => <[idx := Some (mkFork (rolled_db i (db f) backend) (journaled_state f))]> (forks i)
        | None => forks i
        end in
      Some (set_tables i (<[id := new_fork_id]> (issued_local_fork_ids i))
              (<[new_fork_id := idx]> (created_forks i)) fs (next_fork_id i), Ok idx)
  end.

Definition inner_len i : nat := size (issued_local_fork_ids i).
Definition inner_is_empty i : bool := bool_decide (issued_local_fork_ids i = ∅).
Definition new_journaled_state i : JournaledState := journal_new (spec_id i).
End state.
