(* ===== verification/ForkBackend.v ===== *)
(** * The test executor's backend: evm/core/src/backend/mod.rs, backend/cow.rs

    [Backend] holds the in-memory database and the forks, one of which may be
    active.  The manager of forks ([MultiFork]) is shared by the clones of a
    backend, so it is not a part of the record but of the context [Ctx],
    beside the environment and the journal of the running call, which the
    operations receive by mutable reference.  An operation is a [call]: it
    changes the context, returns a [result], and [None] is a panic; an error
    keeps the changes made before it. *)
From stdpp Require Import base list gmap strings.
From Stdlib Require Import ZArith Lia.
From S2P Require Import Prelude Containers StateDb Snapshots MultiFork ForkState.
#[local] Open Scope list_scope.

#[local] Abbreviation Address := Z (only parsing).
#[local] Abbreviation U256 := Z (only parsing).
#[local] Abbreviation B256 := Z (only parsing).

(** ** The manager of forks, as the backend calls it *)
Class ForkManager (M : Type) `{!ForkTypes} := {
  fm_create : M → CreateFork → M * result RpcError (ForkId * SharedBackend * Env);
  fm_roll : M → ForkId → Z → M * result RpcError (ForkId * SharedBackend * Env);
  fm_get_env : M → ForkId → M * result RpcError (option Env);
  fm_update_block : M → ForkId → U256 → U256 → M * result RpcError unit;
  fm_update_block_env : M → ForkId → BlockEnv → M * result RpcError unit;
  fm_get_fork_url : M → ForkId → M * result RpcError (option string);
}.

(** The identifiers it has answered with stay registered, with their
    environment, and are never answered again; [fm_room] leaves a number for
    the next one. *)
Class ForkManagerLaws (M : Type) `{!ForkTypes, !ForkManager M} := {
  fm_ok : M → Prop;
  fm_room : M → Prop;
  env_of : M → ForkId → option Env;
  fm_create_law m fork m' r : fm_ok m → fm_room m → fm_create m fork = (m', r) →
    fm_ok m' ∧ (∀ id, is_Some (env_of m id) → env_of m' id = env_of m id) ∧
    (∀ id b e, r = Ok (id, b, e) → env_of m id = None ∧ is_Some (env_of m' id));
  fm_roll_law m id n m' r : fm_ok m → fm_room m → fm_roll m id n = (m', r) →
    fm_ok m' ∧ (∀ id, is_Some (env_of m id) → env_of m' id = env_of m id) ∧
    (∀ id b e, r = Ok (id, b, e) → env_of m id = None ∧ is_Some (env_of m' id));
  fm_get_env_law m id m' r : fm_ok m → fm_get_env m id = (m', r) →
    fm_ok m' ∧ env_of m' = env_of m ∧ r = Ok (env_of m id);
  fm_update_law m id n t m' r : fm_ok m → fm_update_block m id n t = (m', r) →
    fm_ok m' ∧ r = Ok tt ∧
    env_of m' id = (λ e, set_block e (set_number_timestamp (block_env e) n t)) <$> env_of m id ∧
    (∀ id', id' ≠ id → env_of m' id' = env_of m id');
}.

Section types.
Context `{!ForkTypes, !RevmTypes} {M : Type}.

Record Backend := mkBackend {
  mem_db : CachedDb EmptyDb;
  fork_init_journaled_state : JournaledState;
  active_fork_ids : option (LocalForkId * ForkLookupIndex);
  inner : BackendInner;
}.

Record Ctx := mkCtx { manager : M; backend : Backend; env : Env; journal : JournaledState }.

Definition call (A : Type) : Type := Ctx → option (Ctx * result ForkError A).

#[export] Instance call_ret : MRet call := λ A a c, Some (c, Ok a).
#[export] Instance call_bind : MBind call := λ A B f m c,
  match m c with
  | Some (c', Ok a) => f a c'
  | Some (c', Err e) => Some (c', Err e)
  | None => None
  end.

Definition get : call Ctx := λ c, Some (c, Ok c).
Definition fail {A} (e : ForkError) : call A := λ c, Some (c, Err e).
Definition lift {A} (r : result ForkError A) : call A := λ c, Some (c, r).
(** [unwrap] and [expect]. *)
Definition unwrap {A} (o : option A) : call A := λ c, (λ a, (c, Ok a)) <$> o.
Definition set_backend (b : Backend) : call unit := λ c,
  Some (mkCtx (manager c) b (env c) (journal c), Ok tt).
Definition set_env (e : Env) : call unit := λ c,
  Some (mkCtx (manager c) (backend c) e (journal c), Ok tt).
Definition set_journal (j : JournaledState) : call unit := λ c,
  Some (mkCtx (manager c) (backend c) (env c) j, Ok tt).
(** A request to the manager. *)
Definition request {A} (f : M → M * result RpcError A) : call A := λ c,
  let '(m, r) := f (manager c) in
  Some (mkCtx m (backend c) (env c) (journal c),
        match r with Ok a => Ok a | Err e => Err (Remote e) end).

(** Running an operation in a context. *)
Lemma run_bind {A B} (m : call A) (f : A → call B) c :
  (m ≫= f) c = match m c with
               | Some (c', Ok a) => f a c'
               | Some (c', Err e) => Some (c', Err e)
               | None => None
               end.
Proof. done. Qed.
Lemma run_ret {A} (a : A) c : mret (M := call) a c = Some (c, Ok a).
Proof. done. Qed.
Lemma run_get c : get c = Some (c, Ok c).
Proof. done. Qed.
Lemma run_fail {A} e c : fail (A := A) e c = Some (c, Err e).
Proof. done. Qed.
Lemma run_lift {A} (r : result ForkError A) c : lift r c = Some (c, r).
Proof. done. Qed.
Lemma run_unwrap {A} (a : A) c : unwrap (Some a) c = Some (c, Ok a).
Proof. done. Qed.
Lemma run_set_backend b c :
  set_backend b c = Some (mkCtx (manager c) b (env c) (journal c), Ok tt).
Proof. done. Qed.
Lemma run_set_env e c :
  set_env e c = Some (mkCtx (manager c) (backend c) e (journal c), Ok tt).
Proof. done. Qed.
Lemma run_set_journal j c :
  set_journal j c = Some (mkCtx (manager c) (backend c) (env c) j, Ok tt).
Proof. done. Qed.
End types.
Create Rewrite HintDb call.
#[export] Hint Rewrite @run_bind @run_ret @run_get @run_fail @run_lift @run_unwrap
  @run_set_backend @run_set_env @run_set_journal : call.
Arguments Ctx {_ _} M.
Arguments call {_ _} M A.

Section backend.
Context `{!ForkTypes, !RevmTypes, !RevmDb, !HashOrder Address}.
Context {M : Type} `{!ForkManager M}.
Context (create_address : Address → Z → Address).   (* [Address::create] *)
Implicit Types (b : Backend) (i : BackendInner) (j : JournaledState).
#[local] Abbreviation call := (call M).
#[local] Abbreviation Ctx := (Ctx M).

Definition with_inner b i : Backend :=
  mkBackend (mem_db b) (fork_init_journaled_state b) (active_fork_ids b) i.
Definition with_mem_db b d : Backend :=
  mkBackend d (fork_init_journaled_state b) (active_fork_ids b) (inner b).
Definition with_active b a : Backend :=
  mkBackend (mem_db b) (fork_init_journaled_state b) a (inner b).
Definition with_init b j : Backend :=
  mkBackend (mem_db b) j (active_fork_ids b) (inner b).

Definition update_inner (f : BackendInner → BackendInner) : call unit :=
  c ← get; set_backend (with_inner (backend c) (f (inner (backend c)))).

(** ** The active fork *)
Definition is_active_fork b (id : LocalForkId) : bool :=
  match active_fork_ids b with Some (i, _) => bool_decide (i = id) | None => false end.
Definition active_fork_id b : option LocalForkId := fst <$> active_fork_ids b.

(** [active_fork]: the outer option is the panic of [get_fork]. *)
Definition active_fork b : option (option Fork) :=
  match active_fork_ids b with
  | Some (_, idx) => f ← get_fork (inner b) idx; Some (Some f)
  | None => Some None
  end.
Definition is_in_forking_mode b : option bool :=
  f ← active_fork b; Some (bool_decide (is_Some (f : option Fork))).
Definition is_forked_mode b : bool := bool_decide (is_Some (active_fork_id b)).

(** An operation on the database in use: the active fork's or the memory's. *)
Definition on_db {A} (f : ∀ Ext, CachedDb Ext → CachedDb Ext * A) b : option (Backend * A) :=
  match active_fork_ids b with
  | Some (_, idx) =>
      fk ← get_fork (inner b) idx;
      let '(d, a) := f _ (db fk) in
      i ← set_fork (inner b) idx (mkFork d (journaled_state fk));
      Some (with_inner b i, a)
  | None => let '(d, a) := f _ (mem_db b) in Some (with_mem_db b d, a)
  end.
Definition on_db_ref {A} (f : ∀ Ext, CachedDb Ext → A) b : option A :=
  fk ← active_fork b;
  Some (match fk with Some fk => f _ (db fk) | None => f _ (mem_db b) end).

Definition basic_ref (a : Address) b := on_db_ref (λ Ext d, db_basic_ref d a) b.
Definition basic (a : Address) b := on_db (λ Ext d, db_basic d a) b.
Definition storage (a : Address) (index : U256) b := on_db (λ Ext d, db_storage d a index) b.
Definition storage_ref (a : Address) (index : U256) b :=
  on_db_ref (λ Ext d, db_storage_ref d a index) b.
Definition code_by_hash (h : B256) b := on_db (λ Ext d, db_code_by_hash d h) b.
Definition code_by_hash_ref (h : B256) b := on_db_ref (λ Ext d, db_code_by_hash_ref d h) b.
Definition block_hash (n : Z) b := on_db (λ Ext d, db_block_hash d n) b.
Definition block_hash_ref (n : Z) b := on_db_ref (λ Ext d, db_block_hash_ref d n) b.
Definition commit (changes : gmap Address Account) b : option Backend :=
  fst <$> on_db (λ Ext d, (db_commit d changes, tt)) b.
Definition insert_account_info (a : Address) (account : AccountInfo Bytecode) b
    : option Backend :=
  fst <$> on_db (λ Ext d, (db_insert_account_info d a account, tt)) b.
Definition insert_account_storage (a : Address) (slot value : U256) b :=
  on_db (λ Ext d, db_insert_account_storage d a slot value) b.
Definition replace_account_storage (a : Address) (slots : gmap U256 U256) b :=
  on_db (λ Ext d, db_replace_account_storage d a slots) b.
Definition set_blockhash (n : U256) (hash : B256) b : option Backend :=
  fst <$> on_db (λ Ext d,
    let c := cache d in
    (with_cache d (mkCacheDB (accounts c) (contracts c)
       (<[Z.min u64_max n := hash]> (block_hashes c))), tt)) b.

(** ** Accounts *)
Definition is_persistent b (a : Address) : bool := bool_decide (a ∈ persistent_accounts (inner b)).
Definition has_cheatcode_access b (a : Address) : bool :=
  bool_decide (a ∈ cheatcode_access_accounts (inner b)).

Definition set_persistent b (x : gset Address) : Backend :=
  with_inner b (set_accounts (inner b) (inner_caller (inner b)) x
                  (cheatcode_access_accounts (inner b))).
Definition set_access b (x : gset Address) : Backend :=
  with_inner b (set_accounts (inner b) (inner_caller (inner b))
                  (persistent_accounts (inner b)) x).

(** [HashSet::insert] and [remove] tell whether the set changed. *)
Definition add_persistent_account b (a : Address) : Backend * bool :=
  (set_persistent b ({[a]} ∪ persistent_accounts (inner b)), negb (is_persistent b a)).
Definition remove_persistent_account b (a : Address) : Backend * bool :=
  (set_persistent b (persistent_accounts (inner b) ∖ {[a]}), is_persistent b a).
Definition extend_persistent_accounts b (l : list Address) : Backend :=
  foldl (λ b a, (add_persistent_account b a).1) b l.
Definition remove_persistent_accounts b (l : list Address) : Backend :=
  foldl (λ b a, (remove_persistent_account b a).1) b l.
Definition allow_cheatcode_access b (a : Address) : Backend * bool :=
  (set_access b ({[a]} ∪ cheatcode_access_accounts (inner b)), negb (has_cheatcode_access b a)).
Definition revoke_cheatcode_access b (a : Address) : Backend * bool :=
  (set_access b (cheatcode_access_accounts (inner b) ∖ {[a]}), has_cheatcode_access b a).
Definition ensure_cheatcode_access b (a : Address) : result ForkError unit :=
  if has_cheatcode_access b a then Ok tt else Err (NoCheats a).
Definition ensure_cheatcode_access_forking_mode b (a : Address) : result ForkError unit :=
  if is_forked_mode b then ensure_cheatcode_access b a else Ok tt.

Definition set_test_contract b (a : Address) : Backend :=
  (allow_cheatcode_access (add_persistent_account b a).1 a).1.
Definition set_caller b (a : Address) : Backend :=
  let b := with_inner b (set_accounts (inner b) (Some a) (persistent_accounts (inner b))
                           (cheatcode_access_accounts (inner b))) in
  (allow_cheatcode_access b a).1.
Definition set_spec_id b (s : SpecId) : Backend := with_inner b (set_spec (inner b) s).

Definition initialize b (e : Env) : option Backend :=
  let b := set_spec_id (set_caller b (caller (env_tx e))) (spec (cfg_env e)) in
  test_contract ←
    match kind (env_tx e) with
    | Call to => Some to
    | Create =>
        r ← basic_ref (caller (env_tx e)) b;
        let nonce := match r with Ok (Some i) => ai_nonce i | _ => ai_nonce default_info end in
        Some (create_address (caller (env_tx e)) nonce)
    end;
  Some (set_test_contract b test_contract).

(** ** Construction *)
Context (default_spec : SpecId).

Definition initial_inner : BackendInner :=
  let i := inner_default default_spec in
  set_accounts i (inner_caller i) (list_to_set DEFAULT_PERSISTENT_ACCOUNTS)
    (cheatcode_access_accounts i).
Definition in_memory i : Backend :=
  mkBackend (db_new empty_db) (new_journaled_state i) None i.

Definition launch b (fork_id : ForkId) (d : CachedDb SharedBackend) j : Backend :=
  let '(i, ids) := insert_new_fork (inner b) fork_id d j in
  with_active (with_inner b (set_launched i (Some (fork_id, ids.1, ids.2)))) (Some ids).

Definition backend_new (m : M) (fork : option CreateFork) : M * result ForkError Backend :=
  let b := in_memory initial_inner in
  match fork with
  | None => (m, Ok b)
  | Some fork =>
      let '(m, r) := fm_create m fork in
      (m, match r with
          | Ok (fork_id, shared, _) =>
              Ok (launch b fork_id (db_new shared) (new_journaled_state (inner b)))
          | Err e => Err (Remote e)
          end)
  end.

(** [new_with_fork], over a manager of its own. *)
Definition new_with_fork (id : ForkId) (f : Fork) j : Backend :=
  launch (in_memory initial_inner) id (db f) j.

Definition clone_empty b : Backend :=
  mkBackend (db_new empty_db) (new_journaled_state (inner b)) None (inner_default default_spec).

(** ** Looking forks up *)
Definition ensure_fork_id b (id : LocalForkId) : result ForkError ForkId :=
  inner_ensure_fork_id (inner b) id.

Definition ensure_fork b (id : option LocalForkId) : result ForkError LocalForkId :=
  match id with
  | Some id =>
      if bool_decide (is_Some (issued_local_fork_ids (inner b) !! id))
      then Ok id else Err ForkDoesNotExist
  | None => match active_fork_id b with Some id => Ok id | None => Err NoForkActive end
  end.

Definition active_fork_url (m : M) b : option string :=
  id ← active_fork_id b;
  fork ← issued_local_fork_ids (inner b) !! id;
  match (fm_get_fork_url m fork).2 with Ok u => u | Err _ => None end.

(** ** Creating forks *)
Definition create_fork (fork : CreateFork) : call LocalForkId :=
  '(fork_id, shared, _) ← request (λ m, fm_create m fork);
  c ← get;
  let b := backend c in
  let '(i, ids) :=
    insert_new_fork (inner b) fork_id (db_new shared) (fork_init_journaled_state b) in
  _ ← set_backend (with_inner b i);
  mret ids.1.

(** ** Selecting a fork *)

(** The accounts loaded before the first fork was selected take the fork's
    data, unless they were created; the database keeps what was loaded, also
    when an account is missing. *)
Fixpoint init_accounts (d : CachedDb SharedBackend) (s : gmap Address Account)
    (loaded : list Address)
    : option (CachedDb SharedBackend * result ForkError (gmap Address Account)) :=
  match loaded with
  | [] => Some (d, Ok s)
  | a :: loaded =>
      init_account ← s !! a;
      if is_created (status init_account) then init_accounts d s loaded
      else
        let '(d, r) := db_basic d a in
        match r with
        | Ok (Some fork_account) =>
            init_accounts d (<[a := with_info init_account fork_account]> s) loaded
        | Ok None => Some (d, Err (MissingAccount a))
        | Err e => Some (d, Err (Database e))
        end
  end.

Fixpoint init_forks (fs : list (option Fork)) j (loaded : list Address)
    : option (list (option Fork) * result ForkError unit) :=
  match fs with
  | [] => Some ([], Ok tt)
  | None :: fs => '(fs, r) ← init_forks fs j loaded; Some (None :: fs, r)
  | Some f :: fs =>
      '(d, r) ← init_accounts (db f) (state j) loaded;
      match r with
      | Ok s =>
          '(fs, r) ← init_forks fs j loaded;
          Some (Some (mkFork d (set_state j s)) :: fs, r)
      | Err e => Some (Some (mkFork d (journaled_state f)) :: fs, Err e)
      end
  end.

Definition is_existing_precompile b (a : Address) : bool := is_precompile (spec_id (inner b)) a.

Definition loaded_accounts b : list Address :=
  filter (λ a, is_existing_precompile b a = false ∧ is_persistent b a = false)
    (iter_map (state (fork_init_journaled_state b))).*1.

Definition prepare_init_journal_state : call unit :=
  c ← get;
  let b := backend c in
  '(fs, r) ← unwrap (init_forks (forks (inner b)) (fork_init_journaled_state b)
                       (loaded_accounts b));
  _ ← set_backend (with_inner b (set_forks (inner b) fs));
  lift r.

(** The first selection: the journal becomes the one all forks start with. *)
Definition select_first : call unit :=
  c ← get;
  _ ← set_backend (with_init (backend c) (journal c));
  _ ← prepare_init_journal_state;
  c ← get;
  let b := backend c in
  set_backend (with_init b (set_depth (fork_init_journaled_state b) 0)).

(** Leaving the active fork: its journal is recorded; a target that was not
    selected yet gets the caller's account as the fork has it. *)
Definition leave_fork (active idx : ForkLookupIndex) : call unit :=
  c ← get;
  let b := backend c in
  f ← unwrap (get_fork (inner b) active);
  i ← unwrap (set_fork (inner b) active (mkFork (db f) (journal c)));
  _ ← set_backend (with_inner b i);
  let caller := caller (env_tx (env c)) in
  target ← unwrap (get_fork i idx);
  if bool_decide (depth (journaled_state target) = 0)
  then
    match state (journal c) !! caller with
    | Some acc =>
        let '(d, r) := db_basic (db target) caller in
        let write j : call unit :=
          i ← unwrap (set_fork i idx (mkFork d j)); set_backend (with_inner b i) in
        match r with
        | Ok (Some fork_account) =>
            let tj := journaled_state target in
            write (set_state tj (<[caller := with_info acc fork_account]> (state tj)))
        | Ok None => _ ← write (journaled_state target); fail (MissingAccount caller)
        | Err e => _ ← write (journaled_state target); fail (Database e)
        end
    | None => mret tt
    end
  else mret tt.

(** The storage of the persistent accounts in the active database becomes the
    present values of the slots the target has loaded. *)
Definition sync_slots (vals : gmap U256 U256) (slots : gmap U256 EvmStorageSlot)
    : gmap U256 EvmStorageSlot :=
  map_imap (λ k s, Some (match vals !! k with Some v => with_present s v | None => s end)) slots.

Definition sync_account (st : CachedDb SharedBackend * JournaledState) (a : Address)
    : CachedDb SharedBackend * JournaledState :=
  let '(d, j) := st in
  let '(d, r) := db_load_account d a in
  match r with
  | Err _ => (d, j)
  | Ok db_account =>
      match state j !! a with
      | None => (d, j)
      | Some acc =>
          (d, set_state j (<[a := with_storage acc
                (sync_slots (StateDb.storage db_account) (acc_storage acc))]> (state j)))
      end
  end.

(** [update_fork_db]: the persistent accounts move from the database in use
    and the journal to the fork. *)
Definition update_fork_db b j (target : Fork) : option (Fork * JournaledState) :=
  let l := iter_set (persistent_accounts (inner b)) in
  f ← active_fork b;
  Some (match f with
        | Some f => merge_account_data l (db f) j target
        | None => merge_account_data l (mem_db b) j target
        end).

(** Before that, with the target taken out of the vector: the target's journal
    is brought up to date with the active database. *)
Definition sync_persistent b i (fj : JournaledState) : option (BackendInner * JournaledState) :=
  match active_fork_ids b with
  | Some (_, active) =>
      f ← get_fork i active;
      let '(d, fj) := foldl sync_account (db f, fj) (iter_set (persistent_accounts i)) in
      i ← set_fork i active (mkFork d (journaled_state f));
      Some (i, fj)
  | None => Some (i, fj)
  end.

Definition enter_fork (idx : ForkLookupIndex) : call unit :=
  c ← get;
  let b := backend c in
  '(fork, i) ← unwrap (take_fork (inner b) idx);
  '(i, fj) ← unwrap (sync_persistent b i (journaled_state fork));
  let fj := set_depth fj (depth (journal c)) in
  let '(d, fj) := ensure_caller (caller (env_tx (env c))) (journal c) (db fork) fj in
  let b := with_inner b i in
  '(fork, j) ← unwrap (update_fork_db b (journal c) (mkFork d fj));
  i ← unwrap (set_fork i idx fork);
  _ ← set_backend (with_inner b i);
  set_journal j.

(** [forks.update_block] for the active fork, so that [roll] and [warp] are
    kept. *)
Definition keep_block : call unit :=
  c ← get;
  match active_fork_id (backend c) with
  | Some id =>
      fork_id ← lift (ensure_fork_id (backend c) id);
      request (λ m, fm_update_block m fork_id (number (block_env (env c)))
                      (timestamp (block_env (env c))))
  | None => mret tt
  end.

Definition fork_env (id : ForkId) : call Env :=
  e ← request (λ m, fm_get_env m id);
  lift (ok_or e ForkDoesNotExist).

(** Once the environment of the target is known. *)
Definition switch_fork (id : LocalForkId) (idx : ForkLookupIndex) (fork_env : Env) : call unit :=
  c ← get;
  _ ← match active_fork_ids (backend c) with
      | Some (_, active) => leave_fork active idx
      | None => select_first
      end;
  _ ← enter_fork idx;
  c ← get;
  _ ← set_backend (with_active (backend c) (Some (id, idx)));
  set_env (update_current_env_with_fork_env (env c) fork_env).

Definition select_fork (id : LocalForkId) : call unit :=
  c ← get;
  if is_active_fork (backend c) id then mret tt
  else
    _ ← keep_block;
    fork_id ← lift (ensure_fork_id (backend c) id);
    idx ← lift (ensure_fork_index (inner (backend c)) fork_id);
    fork_env ← fork_env fork_id;
    switch_fork id idx fork_env.

Definition create_select_fork (fork : CreateFork) : call LocalForkId :=
  id ← create_fork fork;
  _ ← select_fork id;
  mret id.

(** ** Rolling a fork *)

(** An account that was loaded: what was created and touched is merged, what
    was not created is loaded at the new block. *)
Definition reload_account (from : JournaledState)
    (st : JournaledState * CachedDb SharedBackend) (a : Address * Account)
    : JournaledState * CachedDb SharedBackend :=
  let '(j, d) := st in
  if is_created (status a.2)
  then (if is_touched (status a.2) then merge_journaled_state_data a.1 from j else j, d)
  else journal_load_account j d a.1.

Definition reset_journal (active_idx : ForkLookupIndex) : call unit :=
  c ← get;
  let b := backend c in
  let i := inner b in
  let addrs := persistent_accounts i ∪ option_to_set (inner_caller i) in
  active ← unwrap (get_fork i active_idx);
  let j := set_depth (fork_init_journaled_state b) (depth (journal c)) in
  let j := foldl (λ j a, merge_journaled_state_data a (journal c) j) j (iter_set addrs) in
  let '(j, d) := foldl (reload_account (journal c)) (j, db active)
                   (iter_map (state (journal c))) in
  i ← unwrap (set_fork i active_idx (mkFork d j));
  _ ← set_backend (with_inner b i);
  set_journal j.

Definition roll_fork (id : option LocalForkId) (block_number : Z) : call unit :=
  c ← get;
  id ← lift (ensure_fork (backend c) id);
  fork_id ← lift (ensure_fork_id (backend c) id);
  '(fork_id, shared, fork_env) ← request (λ m, fm_roll m fork_id block_number);
  '(i, r) ← unwrap (inner_roll_fork (inner (backend c)) id fork_id shared);
  _ ← set_backend (with_inner (backend c) i);
  _ ← lift r;
  match active_fork_ids (backend c) with
  | Some (active_id, active_idx) =>
      if bool_decide (active_id = id)
      then
        _ ← set_env (update_current_env_with_fork_env (env c) fork_env);
        reset_journal active_idx
      else mret tt
  | None => mret tt
  end.

(** ** Snapshots *)
Definition create_db_snapshot b : option BackendDatabaseSnapshot :=
  match active_fork_ids b with
  | Some (id, idx) =>
      f ← get_fork (inner b) idx;
      fork_id ← match ensure_fork_id b id with Ok f => Some f | Err _ => None end;
      Some (Forked id fork_id idx f)
  | None => Some (InMemory (mem_db b))
  end.

Definition snapshot_state : call U256 :=
  c ← get;
  let b := backend c in
  d ← unwrap (create_db_snapshot b);
  let '(s, id) := snapshots_insert (state_snapshots (inner b))
                    (mkBackendStateSnapshot d (journal c) (env c)) in
  _ ← set_backend (with_inner b (set_snapshots (inner b) s));
  mret id.

(** The cheatcode address has its failure slot set. *)
Definition failed_slot j : bool :=
  match state j !! CHEATCODE_ADDRESS with
  | Some a =>
      match acc_storage a !! GLOBAL_FAIL_SLOT with
      | Some s => bool_decide (present_value s ≠ 0)
      | None => false
      end
  | None => false
  end.

(** The returned journal is not yet the one of the call. *)
Definition revert_state (id : U256) (action : RevertStateSnapshotAction)
    : call (option JournaledState) :=
  c ← get;
  let b := backend c in
  let '(s, found) := remove_at (state_snapshots (inner b)) id in
  match found with
  | None => mret None
  | Some snapshot =>
      let s := if is_keep action then insert_at s snapshot id else s in
      let i := set_snapshots (inner b) s in
      let i := if failed_slot (journal c) then set_failure i true else i in
      let b := with_inner b i in
      let snapshot := snapshot_merge snapshot (journal c) in
      j ←
        match snap_db snapshot with
        | InMemory d => _ ← set_backend (with_mem_db b d); mret (snap_journal snapshot)
        | Forked id fork_id idx fork =>
            let '(d, j) := ensure_caller (caller (env_tx (env c))) (journal c) (db fork)
                             (snap_journal snapshot) in
            i ← unwrap (inner_revert_state_snapshot i id fork_id idx
                          (mkFork d (journaled_state fork)));
            _ ← set_backend (with_active (with_inner b i) (Some (id, idx)));
            mret j
        end;
      _ ← set_env (update_current_env_with_fork_env (env c) (snap_env snapshot));
      mret (Some j)
  end.

Definition delete_state_snapshot b (id : U256) : Backend * bool :=
  let '(s, found) := remove_at (state_snapshots (inner b)) id in
  (with_inner b (set_snapshots (inner b) s), bool_decide (is_Some found)).
Definition delete_state_snapshots b : Backend :=
  with_inner b (set_snapshots (inner b) (snapshots_clear (state_snapshots (inner b)))).

(** ** Logs and diagnostics *)
Fixpoint merge_logs (fs : list (option Fork)) (idx active : nat) (current : list FLog)
    : list FLog :=
  match fs with
  | [] => []
  | None :: fs => merge_logs fs (S idx) active current
  | Some f :: fs =>
      (if bool_decide (idx = active) then current else logs (journaled_state f))
        ++ merge_logs fs (S idx) active current
  end.
Definition merged_logs b (current : list FLog) : list FLog :=
  match active_fork_ids b with
  | Some (_, active) => merge_logs (forks (inner b)) 0 active current
  | None => current
  end.

Inductive RevertDiagnostic :=
| ContractExistsOnOtherForks (contract : Address) (active : LocalForkId)
    (available_on : list LocalForkId)
| ContractDoesNotExist (contract : Address) (active : LocalForkId) (persistent : bool).

(** [Some None] is no diagnostic, [None] a panic. *)
Definition diagnose_revert b (callee : Address) j : option (option RevertDiagnostic) :=
  match active_fork_id b with
  | None => Some None
  | Some active_id =>
      f ← active_fork b;
      match f with
      | None => Some None
      | Some f =>
          if bool_decide (length (forks (inner b)) = 1%nat) then Some None
          else if is_contract f callee || is_contract_in_state j callee then Some None
          else
            l ← forks_iter (inner b);
            let available_on :=
              (filter (λ x, x.1 ≠ active_id ∧ is_contract x.2 callee = true) l).*1 in
            Some (Some (if bool_decide (available_on = [])
                        then ContractDoesNotExist callee active_id (is_persistent b callee)
                        else ContractExistsOnOtherForks callee active_id available_on))
      end
  end.

(** ** Clones on write: [CowBackend]

    The borrowed backend is cloned by the first change, which also
    initialises it for the environment of the call. *)
Record CowBackend := mkCow { cow_backend : Backend; is_initialized : bool; cow_spec : SpecId }.

Definition new_borrowed b : CowBackend := mkCow b false default_spec.
(** The state in which [inspect] runs its transaction. *)
Definition cow_inspect (w : CowBackend) (e : Env) : CowBackend :=
  mkCow (cow_backend w) false (spec (cfg_env e)).
Definition cow_backend_mut (w : CowBackend) (e : Env) : option CowBackend :=
  if is_initialized w then Some w
  else
    let e := mkEnv (block_env e) (mkCfgEnv (cfg_chain_id (cfg_env e)) (cow_spec w)
                      (cfg_rest (cfg_env e))) (env_tx e) in
    b ← initialize (cow_backend w) e;
    Some (mkCow b true (cow_spec w)).
Definition cow_delete_state_snapshot (w : CowBackend) (id : U256) : CowBackend * bool :=
  if is_initialized w
  then let '(b, r) := delete_state_snapshot (cow_backend w) id in
       (mkCow b (is_initialized w) (cow_spec w), r)
  else (w, false).
Definition cow_delete_state_snapshots (w : CowBackend) : CowBackend :=
  if is_initialized w
  then mkCow (delete_state_snapshots (cow_backend w)) (is_initialized w) (cow_spec w)
  else w.
End backend.

(** Runs the next operation of a call. *)
Ltac call_step :=
  autorewrite with call;
  cbn [manager backend env journal with_inner inner fork_init_journaled_state active_fork_ids].
