(* ===== verification/ForkCheats.v ===== *)
(** * The cheatcodes of forks and snapshots: cheatcodes/src/evm/fork.rs, evm.rs

    The cheatcodes call the backend with the environment and the journal of
    the running call; most of them first make their caller persistent.  The
    endpoints a test may name belong to the configuration.  [Step] is
    everything that happens to a backend during a test: a cheatcode, the EVM
    at work, or a request of another test to the shared manager of forks. *)
From stdpp Require Import base list gmap strings.
From Stdlib Require Import ZArith Lia.
From S2P Require Import Prelude Containers StateDb Snapshots MultiFork ForkState ForkBackend.
#[local] Open Scope list_scope.
#[local] Abbreviation Address := Z (only parsing).
#[local] Abbreviation U256 := Z (only parsing).

(** The configuration: an alias or a URL gives a URL; its retries and headers
    are among the options; whether its responses are cached. *)
Class ForkConfig `{!ForkTypes} := {
  endpoint_url : string → result unit string;
  endpoint_opts : string → OptsRest;
  caching_for : string → bool;
}.

Section cheats.
Context `{!ForkTypes, !RevmTypes, !RevmDb, !HashOrder Address, !ForkConfig}.
Context {M : Type} `{!ForkManager M}.
#[local] Abbreviation call := (call M).

Definition modify (f : Backend → Backend) : call unit :=
  c ← get; set_backend (f (backend c)).
(** A query or change that answers. *)
Definition modify_with {A} (f : Backend → Backend * A) : call A :=
  c ← get; let '(b, a) := f (backend c) in _ ← set_backend b; mret a.

Definition persist_caller (caller : Address) : call unit :=
  modify (λ b, (add_persistent_account b caller).1).

Definition check_broadcast (broadcast : bool) : call unit :=
  if broadcast then fail DuringBroadcast else mret tt.

Definition create_fork_request (caller : Address) (url_or_alias : string) (block : option Z)
    : call CreateFork :=
  _ ← persist_caller caller;
  url ← lift (match endpoint_url url_or_alias with Ok u => Ok u | Err _ => Err ConfigError end);
  c ← get;
  mret (mkCreateFork (caching_for url) url (env c)
          (mkEvmOpts block (endpoint_opts url_or_alias))).

Definition cheat_create_fork (caller : Address) (url_or_alias : string) (block : option Z)
    : call LocalForkId :=
  fork ← create_fork_request caller url_or_alias block;
  create_fork fork.
Definition cheat_create_select_fork (caller : Address) (broadcast : bool)
    (url_or_alias : string) (block : option Z) : call LocalForkId :=
  _ ← check_broadcast broadcast;
  fork ← create_fork_request caller url_or_alias block;
  create_select_fork fork.

(** [saturating_to] and [to], which panics. *)
Definition saturating_to_u64 (n : U256) : Z := Z.min u64_max n.
Definition to_u64 (n : U256) : call Z := unwrap (checked u64_max n).

Definition apply_activeFork : call LocalForkId :=
  c ← get; lift (ok_or (active_fork_id (backend c)) NoForkActive).
Definition apply_createFork_0 caller url := cheat_create_fork caller url None.
Definition apply_createFork_1 caller url (n : U256) :=
  cheat_create_fork caller url (Some (saturating_to_u64 n)).
Definition apply_createSelectFork_0 caller broadcast url :=
  cheat_create_select_fork caller broadcast url None.
Definition apply_createSelectFork_1 caller broadcast url (n : U256) :=
  cheat_create_select_fork caller broadcast url (Some (saturating_to_u64 n)).
Definition apply_rollFork_0 (caller : Address) (n : U256) : call unit :=
  _ ← persist_caller caller; n ← to_u64 n; roll_fork None n.
Definition apply_rollFork_2 (caller : Address) (id n : U256) : call unit :=
  _ ← persist_caller caller; n ← to_u64 n; roll_fork (Some id) n.
Definition apply_selectFork (caller : Address) (broadcast : bool) (id : U256) : call unit :=
  _ ← persist_caller caller; _ ← check_broadcast broadcast; select_fork id.

Definition apply_allowCheatcodes (a : Address) : call unit :=
  modify (λ b, (allow_cheatcode_access b a).1).
Definition apply_makePersistent_0 (a : Address) : call unit :=
  modify (λ b, (add_persistent_account b a).1).
Definition apply_makePersistent_1 (a0 a1 : Address) : call unit :=
  _ ← apply_makePersistent_0 a0; apply_makePersistent_0 a1.
Definition apply_makePersistent_2 (a0 a1 a2 : Address) : call unit :=
  _ ← apply_makePersistent_0 a0; _ ← apply_makePersistent_0 a1; apply_makePersistent_0 a2.
Definition apply_makePersistent_3 (l : list Address) : call unit :=
  modify (λ b, extend_persistent_accounts b l).
Definition apply_revokePersistent_0 (a : Address) : call unit :=
  modify (λ b, (remove_persistent_account b a).1).
Definition apply_revokePersistent_1 (l : list Address) : call unit :=
  modify (λ b, remove_persistent_accounts b l).
Definition apply_isPersistent (a : Address) : call bool :=
  c ← get; mret (is_persistent (backend c) a).

(** ** Snapshots *)
Definition inner_snapshot_state : call U256 := snapshot_state.

(** The journal of the snapshot becomes that of the call. *)
Definition revert_with (action : RevertStateSnapshotAction) (id : U256) : call bool :=
  r ← revert_state id action;
  match r with
  | Some j => _ ← set_journal j; mret true
  | None => mret false
  end.
Definition inner_revert_to_state := revert_with RevertKeep.
Definition inner_revert_to_state_and_delete := revert_with RevertRemove.
Definition inner_delete_state_snapshot (id : U256) : call bool :=
  modify_with (λ b, delete_state_snapshot b id).
Definition inner_delete_state_snapshots : call unit := modify delete_state_snapshots.

(** ** What happens to a backend *)
Inductive Step :=
| CreateFork_0 (caller : Address) (url : string)
| CreateFork_1 (caller : Address) (url : string) (n : U256)
| CreateSelectFork_0 (caller : Address) (broadcast : bool) (url : string)
| CreateSelectFork_1 (caller : Address) (broadcast : bool) (url : string) (n : U256)
| SelectFork (caller : Address) (broadcast : bool) (id : U256)
| RollFork_0 (caller : Address) (n : U256)
| RollFork_2 (caller : Address) (id n : U256)
| MakePersistent (l : list Address)
| RevokePersistent (l : list Address)
| AllowCheatcodes (a : Address)
| SnapshotState
| RevertToState (id : U256)
| RevertToStateAndDelete (id : U256)
| DeleteStateSnapshot (id : U256)
| DeleteStateSnapshots
(* The EVM at work: accounts are read from the database, changes committed,
   the journal and the environment change. *)
| EvmBasic (a : Address)
| EvmStorage (a : Address) (slot : U256)
| EvmCommit (changes : gmap Address Account)
| EvmSetBlockhash (n hash : U256)
| EvmRuns (e : Env) (j : JournaledState)
(* Another test's requests change the manager. *)
| Others (m : M).

Definition ignore {A} (m : call A) : call unit := _ ← m; mret tt.

(** A method of the backend, whose panic is the call's. *)
Definition database {A} (f : Backend → option (Backend * A)) : call A :=
  c ← get; '(b, a) ← unwrap (f (backend c)); _ ← set_backend b; mret a.

Definition run_step (s : Step) : call unit :=
  match s with
  | CreateFork_0 caller url => ignore (apply_createFork_0 caller url)
  | CreateFork_1 caller url n => ignore (apply_createFork_1 caller url n)
  | CreateSelectFork_0 caller b url => ignore (apply_createSelectFork_0 caller b url)
  | CreateSelectFork_1 caller b url n => ignore (apply_createSelectFork_1 caller b url n)
  | SelectFork caller b id => apply_selectFork caller b id
  | RollFork_0 caller n => apply_rollFork_0 caller n
  | RollFork_2 caller id n => apply_rollFork_2 caller id n
  | MakePersistent l => apply_makePersistent_3 l
  | RevokePersistent l => apply_revokePersistent_1 l
  | AllowCheatcodes a => apply_allowCheatcodes a
  | SnapshotState => ignore inner_snapshot_state
  | RevertToState id => ignore (inner_revert_to_state id)
  | RevertToStateAndDelete id => ignore (inner_revert_to_state_and_delete id)
  | DeleteStateSnapshot id => ignore (inner_delete_state_snapshot id)
  | DeleteStateSnapshots => inner_delete_state_snapshots
  | EvmBasic a => ignore (database (basic a))
  | EvmStorage a slot => ignore (database (storage a slot))
  | EvmCommit ch => database (λ b, b ← commit ch b; Some (b, tt))
  | EvmSetBlockhash n h => database (λ b, b ← set_blockhash n h b; Some (b, tt))
  | EvmRuns e j => _ ← set_env e; set_journal j
  | Others m => λ c, Some (mkCtx m (backend c) (env c) (journal c), Ok tt)
  end.

(** A step that fails leaves what it has changed; [None] is a panic. *)
Fixpoint run_steps (l : list Step) (c : Ctx M) : option (Ctx M) :=
  match l with
  | [] => Some c
  | s :: l => '(c, _) ← run_step s c; run_steps l c
  end.
End cheats.
