(* ===== verification/ForkTx.v ===== *)
(** * Transactions on forks: evm/core/src/backend/mod.rs, evm/core/src/utils.rs

    Forking at a transaction: the fork is rolled to the parent of the
    transaction's block and the transactions before it are replayed;
    [transact] replays one transaction.  The EVM is the interface [ForkEvm]:
    what a transaction does to a backend and an inspector; transactions and
    blocks as the node sends them are the interface [RpcTypes].  Also here:
    the accounts of a genesis file written to the journal. *)
From stdpp Require Import base list gmap strings.
From Stdlib Require Import ZArith Lia.
From S2P Require Import Prelude Containers StateDb MultiFork ForkState ForkBackend.
#[local] Open Scope list_scope.
#[local] Abbreviation Address := Z (only parsing).
#[local] Abbreviation U256 := Z (only parsing).
#[local] Abbreviation B256 := Z (only parsing).

(** ** What the node answers *)
Class RpcTypes := {
  RpcTx : Type;
  RpcBlock : Type;
  AccessList : Type;
  AuthorizationList : Type;
}.

Section request.
Context `{!RpcTypes}.

Record TransactionRequest := mkRequest {
  req_type : option Z;
  req_minimal_type : Z;            (* [minimal_tx_type] *)
  req_nonce : option Z;
  req_from : option Address;
  req_to : option TxTarget;
  req_value : option U256;
  req_gas_price : option Z;
  req_gas : option Z;
  req_max_fee_per_gas : option Z;
  req_max_priority_fee_per_gas : option Z;
  req_max_fee_per_blob_gas : option Z;
  req_input : option (list Z);
  req_chain_id : option Z;
  req_blob_versioned_hashes : option (list B256);
  req_access_list : option AccessList;
  req_authorization_list : option AuthorizationList;
}.

(** The remaining fields of [TxEnv] that a request sets. *)
Record TxFields := mkTxFields {
  tx_type : Z; tx_gas_limit : Z; tx_nonce : Z; tx_value : U256; tx_data : list Z;
  tx_access_list : AccessList; tx_gas_price : Z; tx_gas_priority_fee : option Z;
  tx_blob_hashes : list B256; tx_max_fee_per_blob_gas : Z;
  tx_authorization_list : AuthorizationList;
}.
End request.

(** The hard forks of Ethereum that change blobs. *)
Inductive EthereumHardfork :=
| Prague | Osaka | Bpo1 | Bpo2 | Bpo3 | Bpo4 | Bpo5 | Amsterdam | OtherHardfork.

Class RpcDb `{!ForkTypes, !RevmTypes, !RpcTypes} := {
  tx_hash : RpcTx → B256;
  tx_block_number : RpcTx → option Z;
  tx_signer : RpcTx → Address;
  tx_ty : RpcTx → Z;
  (* [TransactionRequest::from_transaction_with_sender], [None] for a
     transaction that is not of Ethereum *)
  tx_from : RpcTx → Address;
  tx_request : RpcTx → option TransactionRequest;
  block_txs : RpcBlock → list RpcTx;
  header_timestamp : RpcBlock → Z;
  header_beneficiary : RpcBlock → Address;
  header_difficulty : RpcBlock → U256;
  header_mix_hash : RpcBlock → option B256;
  header_base_fee : RpcBlock → option Z;
  header_gas_limit : RpcBlock → Z;
  header_number : RpcBlock → Z;
  header_excess_blob_gas : RpcBlock → option Z;
  get_transaction : SharedBackend → B256 → result RpcError RpcTx;
  (* [None] is the latest block *)
  get_full_block : SharedBackend → option Z → result RpcError RpcBlock;
  hardfork_at : Z → Z → option EthereumHardfork;
  default_hardfork : EthereumHardfork;
  BlobParams : Type;
  cancun : BlobParams; prague : BlobParams; osaka : BlobParams; bpo1 : BlobParams;
  bpo2 : BlobParams;
  update_fraction : BlobParams → Z;
  blob_price : Z → Z → BlobPrice;       (* [BlobExcessGasAndPrice::new] *)
  set_tx_fields : TxFields → TxRest → TxRest;
  default_access_list : AccessList;
  default_authorization_list : AuthorizationList;
}.

(** [evm.transact] on a backend, at a call depth and with an inspector. *)
Class ForkEvm `{!ForkTypes, !RevmTypes} (Inspector : Type) := {
  evm_transact : Backend → Env → Z → Inspector → result unit (gmap Address Account) * Inspector;
  no_op : Inspector;
}.

Section transactions.
Context `{!ForkTypes, !RevmTypes, !RevmDb, !HashOrder Address, !RpcTypes, !RpcDb}.
Context {Inspector : Type} `{!ForkEvm Inspector}.
Context {M : Type} `{!ForkManager M} (default_spec : SpecId).
Implicit Types (b : Backend) (j : JournaledState).
#[local] Abbreviation call := (call M).

(** ** utils.rs *)
Definition get_blob_params (chain_id timestamp : Z) : BlobParams :=
  match default default_hardfork (hardfork_at chain_id timestamp) with
  | Prague => prague
  | Osaka => osaka
  | Bpo1 => bpo1
  | Bpo2 => bpo2
  | Bpo3 | Bpo4 | Bpo5 | Amsterdam => bpo2
  | OtherHardfork => cancun
  end.
Definition get_blob_base_fee_update_fraction (chain_id timestamp : Z) : Z :=
  wrap_u64 (update_fraction (get_blob_params chain_id timestamp)).

Definition configure_tx_req_env (e : Env) (tx : TransactionRequest)
    (impersonated_from : option Address) : result ForkError Env :=
  let tx_type := default (req_minimal_type tx) (req_type tx) in
  let kind := default Create (req_to tx) in
  caller ← match impersonated_from with
           | Some caller => Ok caller
           | None => ok_or (req_from tx) EvmError
           end;
  gas_limit ← ok_or (req_gas tx) EvmError;
  let fields :=
    mkTxFields tx_type gas_limit (default 0 (req_nonce tx)) (default 0 (req_value tx))
      (default [] (req_input tx)) (default default_access_list (req_access_list tx))
      (default 0 (match req_gas_price tx with Some p => Some p | None => req_max_fee_per_gas tx end))
      (req_max_priority_fee_per_gas tx)
      (default [] (req_blob_versioned_hashes tx)) (default 0 (req_max_fee_per_blob_gas tx))
      (default default_authorization_list (req_authorization_list tx)) in
  Ok (mkEnv (block_env e) (cfg_env e)
        (mkTxEnv caller kind (req_chain_id tx) (set_tx_fields fields (tx_rest (env_tx e))))).

(** The [expect] panics. *)
Definition configure_tx_env (e : Env) (tx : RpcTx) : option Env :=
  match tx_request tx with
  | Some req =>
      match configure_tx_req_env e req (Some (tx_from tx)) with
      | Ok e => Some e
      | Err _ => None
      end
  | None => Some e
  end.

Definition ARBITRUM_SENDER : Address := 0x00000000000000000000000000000000000a4b05.
Definition OPTIMISM_SYSTEM_ADDRESS : Address := 0xdeaddeaddeaddeaddeaddeaddeaddeaddead0001.
Definition MONAD_SYSTEM_ADDRESS : Address := 0x6f49a8F621353f12378d0046E7d7e4b9B249DC9e.
Definition SYSTEM_TRANSACTION_TYPE : Z := 126.
Definition is_known_system_sender (sender : Address) : bool :=
  bool_decide (sender ∈ [ARBITRUM_SENDER; OPTIMISM_SYSTEM_ADDRESS; MONAD_SYSTEM_ADDRESS; 0]).

(** ** The block of the environment *)
Definition update_env_block (e : Env) (blk : RpcBlock) : Env :=
  let old := block_env e in
  set_block e
    (mkBlockEnv (header_number blk) (header_beneficiary blk) (header_timestamp blk)
       (header_gas_limit blk) (default 0 (header_base_fee blk)) (header_difficulty blk)
       (Some (default 0 (header_mix_hash blk)))
       (match header_excess_blob_gas blk with
        | Some excess =>
            Some (blob_price excess
                    (get_blob_base_fee_update_fraction (cfg_chain_id (cfg_env e))
                       (header_timestamp blk)))
        | None => blob_excess_gas_and_price old
        end)).

(** ** The state after a transaction *)

(** One account takes the database's values; the database may load them. *)
Fixpoint update_slots {Ext} (d : CachedDb Ext) (addr : Address) (acc : Account)
    (slots : list (U256 * EvmStorageSlot)) : CachedDb Ext * Account * result ForkError unit :=
  match slots with
  | [] => (d, acc, Ok tt)
  | (key, val) :: slots =>
      let '(d, r) := db_storage d addr key in
      match r with
      | Ok v =>
          update_slots d addr
            (with_storage acc (<[key := with_present val v]> (acc_storage acc))) slots
      | Err e => (d, acc, Err (Database e))
      end
  end.

Definition update_account {Ext} (d : CachedDb Ext) (addr : Address) (acc : Account)
    : CachedDb Ext * Account * result ForkError unit :=
  let '(d, r) := db_basic d addr in
  match r with
  | Ok i =>
      let acc := with_info acc (default default_info i) in
      update_slots d addr acc (iter_map (acc_storage acc))
  | Err e => (d, acc, Err (Database e))
  end.

Fixpoint update_accounts {Ext} (s : gmap Address Account) (d : CachedDb Ext)
    (persistent : option (gset Address)) (l : list (Address * Account))
    : gmap Address Account * CachedDb Ext * result ForkError unit :=
  match l with
  | [] => (s, d, Ok tt)
  | (addr, acc) :: l =>
      if (match persistent with Some p => bool_decide (addr ∈ p) | None => false end)
      then update_accounts s d persistent l
      else
        let '(d, acc, r) := update_account d addr acc in
        let s := <[addr := acc]> s in
        match r with
        | Ok _ => update_accounts s d persistent l
        | Err e => (s, d, Err e)
        end
  end.

Definition update_state {Ext} (s : gmap Address Account) (d : CachedDb Ext)
    (persistent : option (gset Address)) : gmap Address Account * CachedDb Ext * result ForkError unit :=
  update_accounts s d persistent (iter_map s).

(** The transaction's changes are committed to the fork's database, and both
    journals take their accounts from it. *)
Definition apply_state_changeset (changes : gmap Address Account) j (f : Fork)
    (persistent : gset Address) : JournaledState * Fork * result ForkError unit :=
  let d := db_commit (db f) changes in
  let '(s, d, r) := update_state (state j) d (Some persistent) in
  let j := set_state j s in
  match r with
  | Err e => (j, mkFork d (journaled_state f), Err e)
  | Ok _ =>
      let fj := journaled_state f in
      let '(s, d, r) := update_state (state fj) d (Some persistent) in
      (j, mkFork d (set_state fj s), r)
  end.

(** [commit_transaction], on a backend of its own; [None] is a panic of
    [configure_tx_env]. *)
Definition commit_transaction (tx : RpcTx) (e : Env) j (f : Fork) (fork_id : ForkId)
    (persistent : gset Address) (inspector : Inspector)
    : option (Env * JournaledState * Fork * Inspector * result ForkError unit) :=
  e ← configure_tx_env e tx;
  let b := new_with_fork default_spec fork_id f j in
  let '(r, inspector) := evm_transact b e (depth j + 1) inspector in
  Some match r with
       | Ok changes =>
           let '(j, f, r) := apply_state_changeset changes j f persistent in
           (e, j, f, inspector, r)
       | Err _ => (e, j, f, inspector, Err EvmError)
       end.

(** ** Replaying *)

(** The block of the environment a transaction is replayed in; the numbers
    are those of the parent block and of the block itself.  A transaction of
    block 0 underflows. *)
Definition lift_rpc {A} (r : result RpcError A) : result ForkError A :=
  match r with Ok a => Ok a | Err e => Err (Remote e) end.

Definition get_block_number_and_block_for_transaction (id : LocalForkId) (transaction : B256)
    : call (Z * RpcBlock) :=
  c ← get;
  idx ← lift (ensure_fork_index_by_local_id (inner (backend c)) id);
  fork ← unwrap (get_fork (inner (backend c)) idx);
  tx ← lift (lift_rpc (get_transaction (ext (db fork)) transaction));
  match tx_block_number tx with
  | Some tx_block =>
      block ← lift (lift_rpc (get_full_block (ext (db fork)) (Some tx_block)));
      fork_block ← unwrap (checked u64_max (tx_block - 1));
      mret (fork_block, block)
  | None =>
      block ← lift (lift_rpc (get_full_block (ext (db fork)) None));
      mret (header_number block, block)
  end.

(** The transactions of the block in order: those of the system are skipped,
    the target ends the loop. *)
Definition is_system_tx (tx : RpcTx) : bool :=
  is_known_system_sender (tx_signer tx) || bool_decide (tx_ty tx = SYSTEM_TRANSACTION_TYPE).

Fixpoint replay_txs (txs : list RpcTx) (target : B256) (e : Env) j (f : Fork) (fork_id : ForkId)
    (persistent : gset Address)
    : option (JournaledState * Fork * result ForkError (option RpcTx)) :=
  match txs with
  | [] => Some (j, f, Ok None)
  | tx :: txs =>
      if is_system_tx tx then replay_txs txs target e j f fork_id persistent
      else if bool_decide (tx_hash tx = target) then Some (j, f, Ok (Some tx))
      else
        '(e, j, f, _, r) ← commit_transaction tx e j f fork_id persistent no_op;
        match r with
        | Ok _ => replay_txs txs target e j f fork_id persistent
        | Err er => Some (j, f, Err er)
        end
  end.

Definition replay_until (id : LocalForkId) (e : Env) (target : B256) : call (option RpcTx) :=
  c ← get;
  let b := backend c in
  fork_id ← lift (ensure_fork_id b id);
  idx ← lift (ensure_fork_index_by_local_id (inner b) id);
  fork ← unwrap (get_fork (inner b) idx);
  full_block ← lift (lift_rpc (get_full_block (ext (db fork))
                       (Some (Z.min u64_max (number (block_env e))))));
  '(j, f, r) ← unwrap (replay_txs (block_txs full_block) target e (journal c) fork fork_id
                         (persistent_accounts (inner b)));
  i ← unwrap (set_fork (inner b) idx f);
  _ ← set_backend (with_inner b i);
  _ ← set_journal j;
  lift r.

Definition roll_fork_to_transaction (id : option LocalForkId) (transaction : B256) : call unit :=
  c ← get;
  id ← lift (ensure_fork (backend c) id);
  '(fork_block, block) ← get_block_number_and_block_for_transaction id transaction;
  _ ← roll_fork (Some id) fork_block;
  c ← get;
  let e := update_env_block (env c) block in
  _ ← set_env e;
  fork_id ← lift (ensure_fork_id (backend c) id);
  (* the result is ignored *)
  _ ← (λ c', let '(m, _) := fm_update_block_env (manager c') fork_id (block_env e) in
             Some (mkCtx m (backend c') (env c') (journal c'), Ok tt) : option (Ctx M * result ForkError unit));
  _ ← replay_until id e transaction;
  mret tt.

(** Runs with another environment and journal. *)
Definition with_locals {A} (e : Env) j (m : call A) : call A := λ c,
  match m (mkCtx (manager c) (backend c) e j) with
  | Some (c', r) => Some (mkCtx (manager c') (backend c') (env c) (journal c), r)
  | None => None
  end.

Definition create_fork_at_transaction (fork : CreateFork) (transaction : B256)
    : call LocalForkId :=
  id ← create_fork fork;
  c ← get;
  fork_id ← lift (ensure_fork_id (backend c) id);
  e ← fork_env fork_id;
  _ ← with_locals e (new_journaled_state (inner (backend c)))
        (roll_fork_to_transaction (Some id) transaction);
  mret id.

Definition create_select_fork_at_transaction (fork : CreateFork) (transaction : B256)
    : call LocalForkId :=
  id ← create_fork_at_transaction fork transaction;
  _ ← select_fork id;
  mret id.

(** The environment is a copy; the inspector is returned. *)
Definition transact (maybe_id : option LocalForkId) (transaction : B256) (e : Env)
    (inspector : Inspector) : call Inspector :=
  c ← get;
  let b := backend c in
  id ← lift (ensure_fork b maybe_id);
  fork_id ← lift (ensure_fork_id b id);
  idx ← lift (ensure_fork_index_by_local_id (inner b) id);
  fork ← unwrap (get_fork (inner b) idx);
  tx ← lift (lift_rpc (get_transaction (ext (db fork)) transaction));
  '(_, block) ← get_block_number_and_block_for_transaction id transaction;
  let e := update_env_block e block in
  '(_, j, f, inspector, r) ← unwrap (commit_transaction tx e (journal c) fork fork_id
                                        (persistent_accounts (inner b)) inspector);
  i ← unwrap (set_fork (inner b) idx f);
  _ ← set_backend (with_inner b i);
  _ ← set_journal j;
  _ ← lift r;
  mret inspector.

(** The journal's accounts from the database in use. *)
Definition update_journal (s : gmap Address Account) : call (gmap Address Account) :=
  c ← get;
  let b := backend c in
  match active_fork_ids b with
  | Some (_, idx) =>
      f ← unwrap (get_fork (inner b) idx);
      let '(s, d, r) := update_state s (db f) None in
      i ← unwrap (set_fork (inner b) idx (mkFork d (journaled_state f)));
      _ ← set_backend (with_inner b i);
      _ ← set_journal (set_state (journal c) s);
      _ ← lift r; mret s
  | None =>
      let '(s, d, r) := update_state s (mem_db b) None in
      _ ← set_backend (with_mem_db b d);
      _ ← set_journal (set_state (journal c) s);
      _ ← lift r; mret s
  end.

Definition commit_changes (changes : gmap Address Account) : call unit :=
  c ← get; b ← unwrap (commit changes (backend c)); set_backend b.

Definition transact_from_tx (tx : TransactionRequest) (e : Env) (inspector : Inspector)
    : call Inspector :=
  c ← get;
  _ ← commit_changes (state (journal c));
  e ← lift (configure_tx_req_env e tx None);
  c ← get;
  let '(r, inspector) := evm_transact (backend c) e (depth (journal c) + 1) inspector in
  changes ← lift (match r with Ok s => Ok s | Err _ => Err EvmError end);
  _ ← commit_changes changes;
  _ ← update_journal (state (journal c));
  mret inspector.

(** ** Genesis accounts *)
Record GenesisAccount := mkGenesisAccount {
  gen_nonce : option Z; gen_balance : U256; gen_code : option (list Z);
  gen_storage : option (list (B256 * B256));      (* in the order of the [BTreeMap] *)
}.

(** [load_account_mut] on the backend, and the journalled changes. *)
Context (load_account_mut : Address → call unit) (keccak256 : list Z → B256).
Context (new_raw : list Z → Bytecode).
Context (journal_set_code : JournaledState → Address → B256 → Bytecode → JournaledState).
Context (journal_set_balance : JournaledState → Address → U256 → JournaledState).
Context (journal_touch : JournaledState → Address → JournaledState).
Context (new_changed : U256 → U256 → EvmStorageSlot).

Definition clone_slots (st : gmap U256 EvmStorageSlot) (l : list (B256 * B256))
    : gmap U256 EvmStorageSlot :=
  foldl (λ st '(slot, value),
    <[slot := new_changed (default 0 (present_value <$> st !! slot)) value]> st) st l.

Definition clone_account (source : GenesisAccount) (target : Address) : call unit :=
  _ ← load_account_mut target;
  c ← get;
  let j := journal c in
  let j := match gen_code source with
           | Some code => journal_set_code j target (keccak256 code) (new_raw code)
           | None => j
           end in
  let j := journal_set_balance j target (gen_balance source) in
  let j :=
    match state j !! target with
    | Some acc =>
        let acc := match gen_storage source with
                   | Some l => with_storage acc (clone_slots (acc_storage acc) l)
                   | None => acc
                   end in
        let i := acc_info acc in
        set_state j (<[target := with_info acc
          (mkAccountInfo (ai_balance i) (default 0 (gen_nonce source)) (code_hash i) (code i))]>
          (state j))
    | None => j
    end in
  set_journal (journal_touch j target).

Fixpoint load_allocs (allocs : list (Address * GenesisAccount)) : call unit :=
  match allocs with
  | [] => mret tt
  | (addr, acc) :: allocs => _ ← clone_account acc addr; load_allocs allocs
  end.
End transactions.
