(* ===== verification/ForkSelect.v ===== *)
(** * Selecting, rolling and restoring forks

    The invariant [wf] of a backend and its manager: the numbers of forks are
    the positions in the vector, identifiers lead to the position of their
    fork, and snapshots agree with the tables.  It excludes panics; with it,
    each operation has a specification. *)
From stdpp Require Import base list gmap strings.
From Stdlib Require Import ZArith Lia.
From S2P Require Import Prelude Containers StateDb Snapshots MultiFork ForkState ForkBackend.
#[local] Open Scope list_scope.
#[local] Abbreviation Address := Z (only parsing).

(** ** Carrying accounts over *)
Section merging.
Context `{!ForkTypes, !RevmTypes, !RevmDb}.
Implicit Types j : JournaledState.

(** The account arrives with everything but slots it has not loaded. *)
Definition carried (acc acc' : Account) : Prop :=
  acc_info acc' = acc_info acc ∧ status acc' = status acc ∧ acc_rest acc' = acc_rest acc ∧
  acc_storage acc ⊆ acc_storage acc'.

Lemma carried_refl acc : carried acc acc.
Proof. by split_and!. Qed.

Lemma merge_journal_ne addr b j1 j2 :
  b ≠ addr → state (merge_journaled_state_data addr j1 j2) !! b = state j2 !! b.
Proof.
  intros Hb. unfold merge_journaled_state_data. destruct (state j1 !! addr); [|done].
  simpl. by rewrite lookup_insert_ne.
Qed.
Lemma merge_journal_eq addr j1 j2 acc :
  state j1 !! addr = Some acc →
  ∃ acc', state (merge_journaled_state_data addr j1 j2) !! addr = Some acc' ∧ carried acc acc'.
Proof.
  intros Hacc. unfold merge_journaled_state_data. rewrite Hacc. simpl.
  rewrite lookup_insert_eq. eexists. split; [done|].
  destruct (state j2 !! addr); [|apply carried_refl].
  split_and!; try done. simpl. apply map_union_subseteq_l.
Qed.
Lemma merge_journal_depth addr j1 j2 :
  depth (merge_journaled_state_data addr j1 j2) = depth j2.
Proof. unfold merge_journaled_state_data. by destruct (state j1 !! addr). Qed.

Lemma merge_list_depth l j1 : ∀ j2,
  depth (foldl (λ j a, merge_journaled_state_data a j1 j) j2 l) = depth j2.
Proof.
  induction l as [|a l IH]; intros j2; simpl; [done|]. by rewrite IH, merge_journal_depth.
Qed.
Lemma merge_list_notin l j1 b : ∀ j2,
  b ∉ l → state (foldl (λ j a, merge_journaled_state_data a j1 j) j2 l) !! b = state j2 !! b.
Proof.
  induction l as [|a l IH]; intros j2; simpl; [done|].
  intros [Hb Hl]%not_elem_of_cons. by rewrite IH, merge_journal_ne.
Qed.
Lemma merge_list_in l j1 b acc : state j1 !! b = Some acc → ∀ j2,
  NoDup l → b ∈ l →
  ∃ acc', state (foldl (λ j a, merge_journaled_state_data a j1 j) j2 l) !! b = Some acc' ∧
    carried acc acc'.
Proof.
  intros Hacc. induction l as [|a l IH]; intros j2; simpl.
  { by intros _ ?%not_elem_of_nil. }
  intros [Ha Hnd]%NoDup_cons [->|Hb]%elem_of_cons.
  - rewrite merge_list_notin by done. by apply merge_journal_eq.
  - by apply IH.
Qed.

(** Merging a fork merges its journal. *)
Lemma merge_accounts_journal {Ext} (d : CachedDb Ext) l j : ∀ f,
  journaled_state (foldl (merge_account d j) f l) =
  foldl (λ k a, merge_journaled_state_data a j k) (journaled_state f) l.
Proof. induction l as [|a l IH]; intros f; simpl; [done|]. by rewrite IH. Qed.
End merging.

(** ** Specifications *)
Section proofs.
Context `{!ForkTypes, !RevmTypes, !RevmDb, !HashOrder Address}.
Context {M : Type} `{!ForkManager M, !ForkManagerLaws M}.
Implicit Types (c : Ctx M) (b : Backend) (i : BackendInner) (j : JournaledState).
#[local] Abbreviation call := (call M).

(** The tables: [n] is the number of forks. *)
Record tables_ok (m : M) i (active : option (LocalForkId * ForkLookupIndex)) : Prop := {
  to_next : next_fork_id i = Z.of_nat (length (forks i));
  to_slots : Forall is_Some (forks i);
  to_issued id f : issued_local_fork_ids i !! id = Some f →
    0 ≤ id < Z.of_nat (length (forks i)) ∧ created_forks i !! f = Some (Z.to_nat id);
  to_all id : 0 ≤ id < Z.of_nat (length (forks i)) → is_Some (issued_local_fork_ids i !! id);
  to_created f idx : created_forks i !! f = Some idx →
    (idx < length (forks i))%nat ∧ is_Some (env_of m f);
  to_active id idx : active = Some (id, idx) →
    idx = Z.to_nat id ∧ 0 ≤ id < Z.of_nat (length (forks i));
  to_snapshots k s id f idx fk : Snapshots.state_snapshots (state_snapshots i) !! k = Some s →
    snap_db s = Forked id f idx fk →
    created_forks i !! f = Some idx ∧ idx = Z.to_nat id ∧ 0 ≤ id < Z.of_nat (length (forks i));
}.

Definition wf c : Prop :=
  fm_ok (manager c) ∧ tables_ok (manager c) (inner (backend c)) (active_fork_ids (backend c)).

(** Registered identifiers stay registered. *)
Definition grows (m m' : M) : Prop := ∀ f, is_Some (env_of m f) → is_Some (env_of m' f).

Lemma tables_grow m m' i a : grows m m' → tables_ok m i a → tables_ok m' i a.
Proof.
  intros Hg []. split; try done. intros f idx Hf.
  destruct (to_created0 f idx Hf). split; [done|by apply Hg].
Qed.

(** Slots may change their contents. *)
Lemma tables_set_forks m i a fs :
  tables_ok m i a → length fs = length (forks i) → Forall is_Some fs →
  tables_ok m (set_forks i fs) a.
Proof.
  intros [] Hl Hs. split; simpl; try rewrite Hl; try done.
Qed.

Lemma slot_exists m i a idx :
  tables_ok m i a → (idx < length (forks i))%nat → ∃ f, get_fork i idx = Some f.
Proof.
  intros Hok Hidx. unfold get_fork.
  destruct (lookup_lt_is_Some_2 (forks i) idx Hidx) as [o Ho].
  destruct (Forall_lookup_1 _ _ _ _ (to_slots _ _ _ Hok) Ho) as [f ->].
  exists f. by rewrite Ho.
Qed.

Lemma set_fork_Some i idx f :
  (idx < length (forks i))%nat → set_fork i idx f = Some (set_forks i (<[idx := Some f]> (forks i))).
Proof. intros Hidx. unfold set_fork. by rewrite bool_decide_true. Qed.
Lemma slots_insert fs idx (f : Fork) : Forall is_Some fs → Forall is_Some (<[idx := Some f]> fs).
Proof. intros Hs. apply Forall_insert; [done|by eexists]. Qed.

Lemma get_fork_lookup i idx f : get_fork i idx = Some f ↔ forks i !! idx = Some (Some f).
Proof.
  unfold get_fork. split; [|by intros ->].
  destruct (forks i !! idx) as [[g|]|]; simpl; congruence.
Qed.

Lemma set_forks_same i : set_forks i (forks i) = i.
Proof. by destruct i. Qed.
Lemma set_forks_twice i fs fs' : set_forks (set_forks i fs) fs' = set_forks i fs'.
Proof. done. Qed.

(** *** The block of the fork that is left *)
Definition kept (m m' : M) (f : ForkId) (blk : BlockEnv) : Prop :=
  env_of m' f = (λ e, set_block e (set_number_timestamp (block_env e)
                      (number blk) (timestamp blk))) <$> env_of m f ∧
  (∀ f', f' ≠ f → env_of m' f' = env_of m f').

Lemma kept_grows m m' f blk : kept m m' f blk → grows m m'.
Proof.
  intros [Hf Hne] f' Hs. destruct (decide (f' = f)) as [->|?]; [|by rewrite Hne].
  rewrite Hf. by destruct Hs as [e ->].
Qed.

Definition with_manager c (m : M) : Ctx M := mkCtx m (backend c) (env c) (journal c).

Lemma keep_block_spec c : wf c →
  ∃ m', keep_block c = Some (with_manager c m', Ok tt) ∧ fm_ok m' ∧ grows (manager c) m' ∧
    match active_fork_ids (backend c) with
    | Some (id, _) => ∃ f, issued_local_fork_ids (inner (backend c)) !! id = Some f ∧
        kept (manager c) m' f (block_env (env c))
    | None => m' = manager c
    end.
Proof.
  intros [Hm Hok]. unfold keep_block, active_fork_id, get, mbind, call_bind. simpl.
  destruct (active_fork_ids (backend c)) as [[id idx]|] eqn:Ha; simpl.
  - destruct (to_active _ _ _ Hok id idx) as [_ Hr]; [done|].
    destruct (to_all _ _ _ Hok id Hr) as [f Hf].
    unfold ensure_fork_id, inner_ensure_fork_id, lift, request. rewrite Hf. simpl.
    destruct (fm_update_block _ _ _ _) as [m' r] eqn:Hu.
    destruct (fm_update_law _ _ _ _ _ _ Hm Hu) as (Hm' & -> & He & Hne).
    assert (Hk : kept (manager c) m' f (block_env (env c))) by done.
    exists m'. split_and!; [done|done|by eapply kept_grows|by exists f].
  - exists (manager c). split_and!; [by destruct c|done|by intros ?|done].
Qed.

Lemma fork_env_spec c f : fm_ok (manager c) →
  ∃ m', fork_env f c = Some (with_manager c m', ok_or (env_of (manager c) f) ForkDoesNotExist) ∧
    fm_ok m' ∧ env_of m' = env_of (manager c).
Proof.
  intros Hm. unfold fork_env, mbind, call_bind, request.
  destruct (fm_get_env (manager c) f) as [m' r] eqn:Hg.
  destruct (fm_get_env_law _ _ _ _ Hm Hg) as (Hm' & He & ->). simpl.
  exists m'. by unfold lift.
Qed.

(** *** Leaving and entering forks *)
Definition at_forks c (fs : list (option Fork)) : Ctx M :=
  mkCtx (manager c) (with_inner (backend c) (set_forks (inner (backend c)) fs)) (env c) (journal c).

(** Same length, and no slot taken. *)
Definition same_slots (fs fs' : list (option Fork)) : Prop :=
  length fs' = length fs ∧ (Forall is_Some fs → Forall is_Some fs').

Lemma same_slots_insert fs idx f : same_slots fs (<[idx := Some f]> fs).
Proof. split; [apply length_insert|apply slots_insert]. Qed.
Lemma same_slots_trans fs1 fs2 fs3 :
  same_slots fs1 fs2 → same_slots fs2 fs3 → same_slots fs1 fs3.
Proof. intros [] []. split; [congruence|auto]. Qed.

Lemma tables_same_slots m i a fs :
  tables_ok m i a → same_slots (forks i) fs → tables_ok m (set_forks i fs) a.
Proof. intros Hok [Hl Hs]. apply tables_set_forks; [done..|]. apply Hs, Hok. Qed.

(** The slots after leaving [active], whose fork is [f], for [idx] with [t]. *)
Record left_fork c active idx (f t : Fork) (fs : list (option Fork)) : Prop := {
  lf_slots : same_slots (forks (inner (backend c))) fs;
  lf_active : fs !! active = Some (Some (mkFork (db f) (journal c)));
  lf_target : ∃ d' j', fs !! idx = Some (Some (mkFork d' j')) ∧
    ∀ a, a ≠ caller (env_tx (env c)) → state j' !! a = state (journaled_state t) !! a;
  lf_rest k : k ≠ active → k ≠ idx → fs !! k = forks (inner (backend c)) !! k;
}.

Lemma left_fork_write c active idx f t fs d' j' :
  left_fork c active idx f t fs → active ≠ idx →
  (∀ a, a ≠ caller (env_tx (env c)) → state j' !! a = state (journaled_state t) !! a) →
  left_fork c active idx f t (<[idx := Some (mkFork d' j')]> fs).
Proof.
  intros [Hs Ha (d0 & j0 & Ht & _) Hr] Hne Hj. split.
  - eapply same_slots_trans; [done|]. apply same_slots_insert.
  - by rewrite list_lookup_insert_ne.
  - exists d', j'. rewrite list_lookup_insert_eq; [done|]. by eapply lookup_lt_Some.
  - intros k ? ?. rewrite list_lookup_insert_ne by done. by apply Hr.
Qed.

Lemma leave_fork_spec c active idx f t :
  get_fork (inner (backend c)) active = Some f → get_fork (inner (backend c)) idx = Some t →
  active ≠ idx →
  ∃ fs r, leave_fork active idx c = Some (at_forks c fs, r) ∧ left_fork c active idx f t fs.
Proof.
  intros Hf Ht Hne. destruct c as [m b e j]. simpl in *.
  apply get_fork_lookup in Ht. pose proof Hf as Hf'. apply get_fork_lookup in Hf'.
  pose proof (lookup_lt_Some _ _ _ Hf') as Hl. pose proof (lookup_lt_Some _ _ _ Ht) as Hl'.
  unfold leave_fork. call_step. rewrite Hf. call_step. rewrite set_fork_Some by done. call_step.
  set (fs1 := <[active := _]> (forks (inner b))).
  assert (Ht1 : fs1 !! idx = Some (Some t)) by (unfold fs1; by rewrite list_lookup_insert_ne).
  assert (Hg : get_fork (set_forks (inner b) fs1) idx = Some t) by by apply get_fork_lookup.
  rewrite Hg. call_step.
  assert (Hkeep : left_fork (mkCtx m b e j) active idx f t fs1).
  { split; simpl.
    - apply same_slots_insert.
    - unfold fs1. by rewrite list_lookup_insert_eq.
    - exists (db t), (journaled_state t). rewrite Ht1. by destruct t.
    - intros k ? _. unfold fs1. by rewrite list_lookup_insert_ne. }
  assert (Hset : ∀ g, set_fork (set_forks (inner b) fs1) idx g =
                 Some (set_forks (inner b) (<[idx := Some g]> fs1))).
  { intros g. rewrite set_fork_Some; [done|]. simpl. by eapply lookup_lt_Some. }
  assert (Hstay : ∃ fs r, Some (mkCtx m (with_inner b (set_forks (inner b) fs1)) e j, Ok tt) =
      Some (at_forks (mkCtx m b e j) fs, r : result ForkError unit) ∧
      left_fork (mkCtx m b e j) active idx f t fs).
  { by exists fs1, (Ok tt). }
  case_bool_decide; [|done].
  destruct (state j !! caller (env_tx e)) as [acc|]; [|done].
  destruct (db_basic (db t) (caller (env_tx e))) as [d [[fa|]|er]];
    rewrite Hset; call_step; do 2 eexists; (split; [reflexivity|]);
    apply left_fork_write; try done.
  intros a Ha. simpl. by rewrite lookup_insert_ne.
Qed.

Lemma init_accounts_total loaded : ∀ (d : CachedDb SharedBackend) s,
  (∀ a, a ∈ loaded → is_Some (s !! a)) → ∃ d' r, init_accounts d s loaded = Some (d', r).
Proof.
  induction loaded as [|a loaded IH]; intros d s Hin; cbn [init_accounts]; [by do 2 eexists|].
  destruct (Hin a) as [acc ->]; [apply list_elem_of_here|]. cbn [mbind option_bind].
  assert (Hin' : ∀ x, x ∈ loaded → is_Some (s !! x)) by (intros; by apply Hin, list_elem_of_further).
  destruct (is_created (status acc)); [by apply IH|].
  destruct (db_basic d a) as [d' [[fa|]|er]]; [|by do 2 eexists..].
  apply IH. intros x Hx. destruct (decide (x = a)) as [->|?].
  - rewrite lookup_insert_eq. by eexists.
  - rewrite lookup_insert_ne by done. by apply Hin'.
Qed.

Lemma init_forks_total j loaded fs :
  (∀ a, a ∈ loaded → is_Some (state j !! a)) →
  ∃ fs' r, init_forks fs j loaded = Some (fs', r) ∧ same_slots fs fs'.
Proof.
  intros Hin. induction fs as [|[f|] fs (fs' & r & IH & Hl & Hs)]; cbn [init_forks].
  - by exists [], (Ok tt).
  - destruct (init_accounts_total loaded (db f) (state j) Hin) as (d & [s|er] & ->);
      cbn [mbind option_bind].
    + rewrite IH. cbn [mbind option_bind]. do 2 eexists. split; [done|].
      split; [simpl; by f_equal|]. intros [_ Hfs]%Forall_cons. constructor; [by eexists|auto].
    + do 2 eexists. split; [done|]. split; [done|].
      intros [_ Hfs]%Forall_cons. constructor; [by eexists|done].
  - rewrite IH. cbn [mbind option_bind]. do 2 eexists. split; [done|].
    split; [simpl; by f_equal|]. by intros [[? [=]] _]%Forall_cons.
Qed.

Lemma loaded_accounts_in b a :
  a ∈ loaded_accounts b → is_Some (state (fork_init_journaled_state b) !! a).
Proof.
  unfold loaded_accounts. rewrite list_elem_of_filter, iter_map_keys, elem_of_iter_set, elem_of_dom.
  by intros [_ ?].
Qed.

Lemma select_first_spec c :
  ∃ fs init r, select_first c =
    Some (mkCtx (manager c)
            (with_init (with_inner (backend c) (set_forks (inner (backend c)) fs)) init)
            (env c) (journal c), r) ∧
    same_slots (forks (inner (backend c))) fs.
Proof.
  destruct c as [m b e j]. unfold select_first, prepare_init_journal_state. call_step.
  destruct (init_forks_total j (loaded_accounts (with_init b j)) (forks (inner b)))
    as (fs & r & Hi & Hs).
  { intros a Ha. apply (loaded_accounts_in _ _ Ha). }
  cbn [with_init inner fork_init_journaled_state]. rewrite Hi. call_step.
  exists fs. destruct r as [[]|er]; do 2 eexists; (split; [reflexivity|done]).
Qed.

(** Entering: what the new journal takes from where. *)
Record entered_fork c idx (t : Fork) (fs : list (option Fork)) j' : Prop := {
  ef_slots : same_slots (forks (inner (backend c))) fs;
  ef_depth : depth j' = depth (journal c);
  ef_own a : a ∉ persistent_accounts (inner (backend c)) → a ≠ caller (env_tx (env c)) →
    state j' !! a = state (journaled_state t) !! a;
  ef_persistent a acc : a ∈ persistent_accounts (inner (backend c)) →
    state (journal c) !! a = Some acc → ∃ acc', state j' !! a = Some acc' ∧ carried acc acc';
  ef_target : ∃ d, fs !! idx = Some (Some (mkFork d j'));
  ef_journals k f : k ≠ idx → forks (inner (backend c)) !! k = Some (Some f) →
    ∃ d, fs !! k = Some (Some (mkFork d (journaled_state f)));
}.

Lemma sync_accounts_own l x : ∀ st : CachedDb SharedBackend * JournaledState,
  x ∉ l → state (foldl sync_account st l).2 !! x = state st.2 !! x.
Proof.
  induction l as [|a l IH]; intros [d j]; simpl; [done|]. intros [Hb Hl]%not_elem_of_cons.
  rewrite IH by done. destruct (db_load_account d a) as [d' [y|]]; simpl; [|done].
  destruct (state j !! a); simpl; [|done]. by rewrite lookup_insert_ne.
Qed.

Lemma ensure_caller_own a cl cur (d : CachedDb SharedBackend) j :
  a ≠ cl → state (ensure_caller cl cur d j).2 !! a = state j !! a.
Proof.
  intros Ha. unfold ensure_caller. destruct (state j !! cl); [done|]. simpl.
  by rewrite lookup_insert_ne.
Qed.
Lemma ensure_caller_depth cl cur (d : CachedDb SharedBackend) j :
  depth (ensure_caller cl cur d j).2 = depth j.
Proof. unfold ensure_caller. by destruct (state j !! cl). Qed.

(** The journal the persistent accounts are merged into. *)
Lemma update_fork_db_spec b j (t : Fork) l :
  l = iter_set (persistent_accounts (inner b)) →
  (∃ f, active_fork b = Some f) →
  ∃ d, update_fork_db b j t = Some (mkFork d (foldl (λ k a, merge_journaled_state_data a j k)
      (journaled_state t) l),
    foldl (λ k a, merge_journaled_state_data a j k) (journaled_state t) l).
Proof.
  intros -> [f Hf]. unfold update_fork_db, merge_account_data. rewrite Hf. cbn [mbind option_bind].
  assert (Heta : ∀ g : Fork, g = mkFork (db g) (journaled_state g)) by by intros [].
  set (l := iter_set _). destruct f as [f|].
  - exists (db (foldl (merge_account (db f) j) t l)).
    rewrite <- (merge_accounts_journal (db f) l j t). by rewrite <- Heta.
  - exists (db (foldl (merge_account (mem_db b) j) t l)).
    rewrite <- (merge_accounts_journal (mem_db b) l j t). by rewrite <- Heta.
Qed.

(** With slot [idx] taken out, the active fork's database may load accounts. *)
Lemma sync_persistent_spec b idx tj :
  (∀ id active, active_fork_ids b = Some (id, active) →
     active ≠ idx ∧ ∃ f, get_fork (inner b) active = Some f) →
  ∃ fs fj, sync_persistent b (set_forks (inner b) (<[idx := None]> (forks (inner b)))) tj =
      Some (set_forks (inner b) fs, fj) ∧
    length fs = length (forks (inner b)) ∧
    (∀ a, a ∉ persistent_accounts (inner b) → state fj !! a = state tj !! a) ∧
    (∀ k f, k ≠ idx → forks (inner b) !! k = Some (Some f) →
       ∃ d, fs !! k = Some (Some (mkFork d (journaled_state f)))) ∧
    ∃ f, active_fork (with_inner b (set_forks (inner b) fs)) = Some f.
Proof.
  intros Ha. unfold sync_persistent, active_fork.
  set (fs0 := <[idx := None]> (forks (inner b))).
  assert (Hk0 : ∀ k, k ≠ idx → fs0 !! k = forks (inner b) !! k).
  { intros k Hk. unfold fs0. by rewrite list_lookup_insert_ne. }
  destruct (active_fork_ids b) as [[id active]|] eqn:Hact.
  - destruct (Ha _ _ eq_refl) as (Hne & f & Hf). apply get_fork_lookup in Hf as Hf'.
    pose proof (lookup_lt_Some _ _ _ Hf') as Hl.
    assert (get_fork (set_forks (inner b) fs0) active = Some f) as ->.
    { apply get_fork_lookup. simpl. by rewrite Hk0. }
    cbn [mbind option_bind].
    pose proof (λ x, sync_accounts_own (iter_set (persistent_accounts (inner b))) x
                       (db f, tj)) as Hown.
    cbn [persistent_accounts set_forks set_tables].
    destruct (foldl sync_account _ _) as [d fj]. simpl in Hown.
    rewrite set_fork_Some by (unfold fs0; simpl; by rewrite length_insert).
    cbn [mbind option_bind]. simpl forks. do 2 eexists. split; [reflexivity|].
    unfold fs0. rewrite !length_insert. split_and!; [done|..].
    + intros a Hna. apply Hown. by rewrite elem_of_iter_set.
    + intros k g Hk Hg. destruct (decide (k = active)) as [->|?].
      * rewrite list_lookup_insert_eq by (by rewrite length_insert).
        rewrite Hg in Hf'. injection Hf' as ->. by eexists.
      * rewrite list_lookup_insert_ne, list_lookup_insert_ne, Hg by done.
        exists (db g). by destruct g.
    + cbn [active_fork_ids with_inner]. rewrite Hact. simpl inner.
      eexists. assert (get_fork _ active = Some (mkFork d (journaled_state f))) as ->.
      { apply get_fork_lookup. simpl. rewrite list_lookup_insert_eq; [done|].
        by rewrite length_insert. }
      reflexivity.
  - exists fs0, tj. split_and!; [done|unfold fs0; by rewrite length_insert|done|..].
    + intros k g Hk Hg. rewrite Hk0, Hg by done. exists (db g). by destruct g.
    + cbn [active_fork_ids with_inner]. rewrite Hact. by eexists.
Qed.

Lemma enter_fork_spec c idx t :
  get_fork (inner (backend c)) idx = Some t →
  (∀ id active, active_fork_ids (backend c) = Some (id, active) →
     active ≠ idx ∧ ∃ f, get_fork (inner (backend c)) active = Some f) →
  ∃ fs j', enter_fork idx c = Some (mkCtx (manager c)
      (with_inner (backend c) (set_forks (inner (backend c)) fs)) (env c) j', Ok tt) ∧
    entered_fork c idx t fs j'.
Proof.
  intros Ht Ha. destruct c as [m b e j]. simpl in *.
  apply get_fork_lookup in Ht as Ht'. pose proof (lookup_lt_Some _ _ _ Ht') as Hl.
  destruct (sync_persistent_spec b idx (journaled_state t) Ha)
    as (fs1 & fj & Hs & Hlen & Hfj & Hfs & Hact).
  unfold enter_fork. call_step. unfold take_fork. rewrite Ht'.
  cbn [mjoin option_join mbind option_bind]. call_step. rewrite Hs. call_step.
  pose proof (λ a Hne, ensure_caller_own a (caller (env_tx e)) j (db t) (set_depth fj (depth j)) Hne)
    as Hc.
  pose proof (ensure_caller_depth (caller (env_tx e)) j (db t) (set_depth fj (depth j))) as Hd.
  destruct (ensure_caller _ _ _ _) as [d cj]. simpl in Hc, Hd. call_step.
  destruct (update_fork_db_spec (with_inner b (set_forks (inner b) fs1)) j (mkFork d cj)
    (iter_set (persistent_accounts (inner b))) eq_refl Hact) as [d' ->].
  call_step. rewrite set_fork_Some by (simpl; lia). call_step.
  set (j' := foldl _ _ _). simpl forks.
  exists (<[idx := Some (mkFork d' j')]> fs1), j'. split; [reflexivity|]. split; simpl.
  - split; [by rewrite length_insert, Hlen|]. intros Hall. apply Forall_lookup_2.
    intros k o. destruct (decide (k = idx)) as [->|Hk].
    + rewrite list_lookup_insert_eq by lia. intros [= <-]. by eexists.
    + rewrite list_lookup_insert_ne by done. intros Ho.
      pose proof (lookup_lt_Some _ _ _ Ho) as Hkl. rewrite Hlen in Hkl.
      apply lookup_lt_is_Some in Hkl as [o' Ho'].
      destruct (Forall_lookup_1 _ _ _ _ Hall Ho') as [g ->].
      destruct (Hfs k g Hk Ho') as [x Hx]. rewrite Hx in Ho. injection Ho as <-. by eexists.
  - unfold j'. rewrite merge_list_depth. exact Hd.
  - intros a Hna Hcl. unfold j'. rewrite merge_list_notin by by rewrite elem_of_iter_set.
    rewrite Hc by done. by apply Hfj.
  - intros a acc Hp Hacc. apply (merge_list_in _ j a acc Hacc); [apply NoDup_iter_set|].
    by rewrite elem_of_iter_set.
  - exists d'. rewrite list_lookup_insert_eq by lia. done.
  - intros k f Hk Hf. rewrite list_lookup_insert_ne by done. by apply Hfs.
Qed.

(** *** Selecting *)
Record switched c (id : LocalForkId) (e : Env) c' : Prop := {
  sw_active : active_fork_ids (backend c') = Some (id, Z.to_nat id);
  sw_inner : ∃ fs, inner (backend c') = set_forks (inner (backend c)) fs;
  sw_depth : depth (journal c') = depth (journal c);
  sw_persistent a acc : a ∈ persistent_accounts (inner (backend c)) →
    state (journal c) !! a = Some acc → ∃ acc', state (journal c') !! a = Some acc' ∧ carried acc acc';
  sw_env : env c' = update_current_env_with_fork_env (env c) e;
  (* When another fork was active: the target's own accounts are back, and the
     state of the fork that is left is recorded. *)
  sw_own t aid aidx a : active_fork_ids (backend c) = Some (aid, aidx) →
    get_fork (inner (backend c)) (Z.to_nat id) = Some t →
    a ∉ persistent_accounts (inner (backend c)) → a ≠ caller (env_tx (env c)) →
    state (journal c') !! a = state (journaled_state t) !! a;
  sw_saved aid aidx : active_fork_ids (backend c) = Some (aid, aidx) →
    ∃ d, get_fork (inner (backend c')) aidx = Some (mkFork d (journal c));
}.

(** The environment is that of the target, and the block of the fork that is
    left is kept. *)
Record selected c (id : LocalForkId) c' : Prop := {
  sel_env : ∃ f e, issued_local_fork_ids (inner (backend c)) !! id = Some f ∧
    env_of (manager c) f = Some e ∧ switched c id e c';
  sel_kept : match active_fork_ids (backend c) with
    | Some (aid, _) => ∃ f, issued_local_fork_ids (inner (backend c)) !! aid = Some f ∧
        kept (manager c) (manager c') f (block_env (env c))
    | None => env_of (manager c') = env_of (manager c)
    end;
}.

Lemma wf_forks c c' fs :
  wf c → manager c' = manager c → inner (backend c') = set_forks (inner (backend c)) fs →
  same_slots (forks (inner (backend c))) fs →
  active_fork_ids (backend c') = active_fork_ids (backend c) → wf c'.
Proof.
  intros [Hm Hok] Hg Hi Hs Ha. unfold wf. rewrite Hg, Hi, Ha. split; [done|].
  by apply tables_same_slots.
Qed.

Lemma env_of_grows m m' : env_of m' = env_of m → grows m m'.
Proof. intros He f. by rewrite He. Qed.
Lemma grows_refl m : grows m m.
Proof. by intros ?. Qed.
Lemma grows_trans m1 m2 m3 : grows m1 m2 → grows m2 m3 → grows m1 m3.
Proof. intros H12 H23 f Hf. by apply H23, H12. Qed.

Lemma active_slot m i id idx :
  tables_ok m i (Some (id, idx)) → idx = Z.to_nat id ∧ (idx < length (forks i))%nat.
Proof.
  intros Hok. destruct (to_active _ _ _ Hok id idx eq_refl) as [-> ?]. split; [done|lia].
Qed.

Lemma switch_fork_spec c id e :
  wf c → is_active_fork (backend c) id = false →
  0 ≤ id < Z.of_nat (length (forks (inner (backend c)))) →
  ∃ c' r, switch_fork id (Z.to_nat id) e c = Some (c', r) ∧ wf c' ∧
    manager c' = manager c ∧ (r = Ok tt → switched c id e c').
Proof.
  intros Hwf Hact Hid. pose proof Hwf as [Hm Hok].
  destruct (slot_exists _ _ _ (Z.to_nat id) Hok) as [t Ht]; [lia|].
  unfold switch_fork. call_step.
  unfold is_active_fork in Hact.
  destruct (active_fork_ids (backend c)) as [[aid aidx]|] eqn:Ha.
  - apply bool_decide_eq_false in Hact. destruct (active_slot _ _ _ _ Hok) as [Haidx Hal].
    destruct (slot_exists _ _ _ aidx Hok Hal) as [f Hf].
    assert (Hr := to_active _ _ _ Hok aid aidx eq_refl).
    assert (Hne : aidx ≠ Z.to_nat id) by lia.
    destruct (leave_fork_spec c aidx (Z.to_nat id) f t Hf Ht Hne) as (fs1 & r1 & -> & [Hs1 Ha1 Ht1 Hr1]).
    assert (Hwf1 : wf (at_forks c fs1)) by (eapply wf_forks; done).
    destruct r1 as [[]|er]; [|by do 2 eexists; split_and!]. call_step.
    destruct Ht1 as (d1 & j1 & Ht1 & Hj1).
    destruct (enter_fork_spec (at_forks c fs1) (Z.to_nat id) (mkFork d1 j1))
      as (fs2 & j2 & He & [Hs2 Hd2 Hown Hper Htgt Hjs]).
    { by apply get_fork_lookup. }
    { simpl. rewrite Ha. intros ? ? [= <- <-]. split; [done|].
      exists (mkFork (db f) (journal c)). by apply get_fork_lookup. }
    rewrite He. call_step. simpl. do 2 eexists. split; [reflexivity|]. split_and!; [|done|].
    + split; [done|]. simpl. rewrite set_forks_twice.
      assert (Hok2 : tables_ok (manager c) (set_forks (inner (backend c)) fs2) (Some (aid, aidx))).
      { apply tables_same_slots; [done|]. by eapply same_slots_trans. }
      destruct Hok2. split; try done. intros ? ? [= <- <-]. split; [done|].
      simpl. destruct Hs2 as [-> _]. simpl. destruct Hs1 as [-> _]. done.
    + intros _. split; simpl.
      * done.
      * by exists fs2.
      * done.
      * apply Hper.
      * done.
      * intros t' ? ? a _ Ht' Hna Hcl. rewrite Hown by done. rewrite Ht in Ht'.
        injection Ht' as <-. by apply Hj1.
      * rewrite Ha. intros ? ? [= <- <-]. destruct (Hjs aidx (mkFork (db f) (journal c)) Hne Ha1) as [d Hd].
        exists d. by apply get_fork_lookup.
  - destruct (select_first_spec c) as (fs1 & init & r1 & -> & Hs1).
    set (c1 := mkCtx _ _ _ _).
    assert (Hwf1 : wf c1) by (eapply wf_forks; done).
    destruct r1 as [[]|er]; [|by do 2 eexists; split_and!]. call_step.
    assert (Hidx1 : (Z.to_nat id < length fs1)%nat) by (destruct Hs1; lia).
    destruct Hwf1 as [_ Hok1].
    destruct (slot_exists _ _ _ (Z.to_nat id) Hok1 Hidx1) as [t1 Ht1].
    destruct (enter_fork_spec c1 (Z.to_nat id) t1 Ht1) as (fs2 & j2 & He & [Hs2 Hd2 Hown Hper _ _]).
    { simpl. by rewrite Ha. }
    rewrite He. call_step. simpl. do 2 eexists. split; [reflexivity|]. split_and!; [|done|].
    + split; [done|]. simpl. rewrite set_forks_twice.
      assert (Hok2 : tables_ok (manager c) (set_forks (inner (backend c)) fs2) None).
      { apply tables_same_slots; [done|]. by eapply same_slots_trans. }
      destruct Hok2. split; try done. intros ? ? [= <- <-]. split; [done|].
      simpl. destruct Hs2 as [-> _]. simpl. destruct Hs1 as [-> _]. done.
    + intros _. split; simpl; rewrite ?Ha; try done. by exists fs2.
Qed.

Lemma select_fork_spec c id :
  wf c → is_active_fork (backend c) id = false →
  ∃ c' r, select_fork id c = Some (c', r) ∧ wf c' ∧ grows (manager c) (manager c') ∧
    (r = Ok tt → selected c id c').
Proof.
  intros Hwf Hact. destruct (keep_block_spec c Hwf) as (m1 & Hk & Hm1 & Hg1 & Hkept).
  unfold select_fork. call_step. rewrite Hact. call_step. rewrite Hk. call_step.
  pose proof Hwf as [Hm Hok].
  assert (Hwf1 : wf (with_manager c m1)) by (split; [done|by eapply tables_grow]).
  unfold ensure_fork_id, inner_ensure_fork_id.
  destruct (issued_local_fork_ids _ !! id) as [f|] eqn:Hf; cbn [ok_or]; call_step;
    [|by do 2 eexists; split_and!].
  destruct (to_issued _ _ _ Hok id f Hf) as [Hid Hc]. unfold ensure_fork_index. rewrite Hc. cbn [ok_or]. call_step.
  destruct (fork_env_spec (with_manager c m1) f Hm1) as (m2 & -> & Hm2 & He2). simpl manager in He2.
  assert (Hg2 : grows (manager c) m2) by (eapply grows_trans, env_of_grows; done).
  assert (Hwf2 : wf (with_manager c m2)) by (split; [done|by eapply tables_grow]).
  change (with_manager (with_manager c m1) m2) with (with_manager c m2).
  simpl. destruct (env_of m1 f) as [e|] eqn:Hef; simpl; [|by do 2 eexists; split_and!].
  destruct (switch_fork_spec (with_manager c m2) id e Hwf2 Hact Hid)
    as (c3 & r & -> & Hwf3 & Hm3 & Hsw).
  do 2 eexists. split; [reflexivity|]. rewrite Hm3. split_and!; [done..|].
  intros Hr. destruct (Hsw Hr) as [A B C D E F G]. split.
  - exists f, e. split_and!; [done| |by split].
    destruct (active_fork_ids (backend c)) as [[aid aidx]|] eqn:Ha; [|by subst m1].
    destruct Hkept as (fa & Hfa & _ & Hne). rewrite <- Hef. symmetry. apply Hne.
    intros ->. destruct (to_issued _ _ _ Hok aid fa Hfa) as [Haid Hca].
    rewrite Hc in Hca. injection Hca as Hca. unfold is_active_fork in Hact.
    rewrite Ha in Hact. apply bool_decide_eq_false in Hact. lia.
  - rewrite Hm3. simpl. destruct (active_fork_ids (backend c)) as [[aid aidx]|].
    + destruct Hkept as (fa & Hfa & Hka). exists fa. split; [done|].
      unfold kept in *. by rewrite He2.
    + subst m1. done.
Qed.
End proofs.
