(* ===== verification/ForkCalls.v ===== *)
(** * Sequences of calls to the backend

    The specifications of the operations that create, roll, record and restore
    forks; every sequence of calls, interleaved with what the EVM and other
    tests do, runs without a panic; what a switch to another fork and back, a
    roll and a restored snapshot keep. *)
From stdpp Require Import base list gmap strings.
From Stdlib Require Import ZArith Lia.
From S2P Require Import Prelude Containers StateDb Snapshots MultiFork ForkState ForkBackend.
From S2P Require Import ForkCheats ForkSelect.
#[local] Open Scope list_scope.
#[local] Abbreviation Address := Z (only parsing).

(** What the operations assume of revm's journal: loading an account keeps
    what is loaded. *)
Class RevmLaws `{!ForkTypes, !RevmTypes, !RevmDb} : Prop := {
  load_account_frame j d a b : b ≠ a → state (journal_load_account j d a).1 !! b = state j !! b;
  load_account_keeps j d a acc : state j !! a = Some acc →
    ∃ acc', state (journal_load_account j d a).1 !! a = Some acc' ∧
      acc_info acc' = acc_info acc ∧ acc_storage acc' = acc_storage acc;
}.

Section tables.
Context `{!ForkTypes, !RevmTypes, !RevmDb}.
Context {M : Type} `{!ForkManager M, !ForkManagerLaws M}.
Implicit Types (i : BackendInner) (m : M).

Lemma created_fresh m i a f : tables_ok m i a → env_of m f = None → created_forks i !! f = None.
Proof.
  intros Hok Hf. destruct (created_forks i !! f) as [idx|] eqn:Hc; [|done].
  destruct (to_created _ _ _ Hok f idx Hc) as [_ [e He]]. congruence.
Qed.

Lemma tables_insert m m' i a f d j :
  tables_ok m i a → grows m m' → env_of m f = None → is_Some (env_of m' f) →
  Z.of_nat (length (forks i)) < u256_max →
  tables_ok m' (insert_new_fork i f d j).1 a.
Proof.
  intros Hok Hg Hnew Hf Hlen. pose proof (created_fresh _ _ _ _ Hok Hnew) as Hc.
  pose proof (tables_grow _ _ _ _ Hg Hok) as Hok'. destruct Hok'.
  unfold insert_new_fork. cbn [next_id]. simpl.
  assert (Hlast : length (forks i ++ [Some (mkFork d j)]) = S (length (forks i))).
  { rewrite length_app. simpl. lia. }
  split; cbn [next_fork_id forks issued_local_fork_ids created_forks state_snapshots set_tables];
    rewrite ?Hlast, ?to_next.
  - rewrite wrap_u256_small by (unfold in_u256; lia). lia.
  - apply Forall_app. split; [done|]. repeat constructor. by eexists.
  - intros id g. rewrite lookup_insert_Some. intros [[<- <-]|[Hne Hg']].
    + rewrite lookup_insert_eq. split; [lia|]. f_equal. lia.
    + destruct (to_issued id g Hg') as [? Hcg]. split; [lia|].
      rewrite lookup_insert_ne; [done|]. congruence.
  - intros id Hid. destruct (decide (id = Z.of_nat (length (forks i)))) as [->|?].
    + rewrite lookup_insert_eq. by eexists.
    + rewrite lookup_insert_ne by done. apply to_all. lia.
  - intros g idx. rewrite lookup_insert_Some. intros [[<- <-]|[Hne Hg']].
    + split; [lia|done].
    + destruct (to_created g idx Hg'). split; [lia|done].
  - intros id idx Ha. destruct (to_active id idx Ha). split; [done|lia].
  - intros k s id g idx fk Hk Hs. destruct (to_snapshots k s id g idx fk Hk Hs) as (Hcg & ? & ?).
    split_and!; [|done|lia..]. rewrite lookup_insert_ne; [done|]. congruence.
Qed.

Lemma tables_roll m m' i a id f fs :
  tables_ok m i a → grows m m' → env_of m f = None → is_Some (env_of m' f) →
  0 ≤ id < Z.of_nat (length (forks i)) → same_slots (forks i) fs →
  tables_ok m' (set_tables i (<[id := f]> (issued_local_fork_ids i))
                  (<[f := Z.to_nat id]> (created_forks i)) fs (next_fork_id i)) a.
Proof.
  intros Hok Hg Hnew Hf Hid [Hl Hs]. pose proof (created_fresh _ _ _ _ Hok Hnew) as Hc.
  pose proof (tables_grow _ _ _ _ Hg Hok) as Hok'. destruct Hok'.
  split; cbn [next_fork_id forks issued_local_fork_ids created_forks state_snapshots set_tables];
    rewrite ?Hl; try done.
  - by apply Hs.
  - intros id' g. rewrite lookup_insert_Some. intros [[<- <-]|[Hne Hg']].
    + rewrite lookup_insert_eq. done.
    + destruct (to_issued id' g Hg') as [? Hcg]. split; [lia|].
      rewrite lookup_insert_ne; [done|]. congruence.
  - intros id' Hid'. destruct (decide (id' = id)) as [->|?].
    + rewrite lookup_insert_eq. by eexists.
    + rewrite lookup_insert_ne by done. by apply to_all.
  - intros g idx. rewrite lookup_insert_Some. intros [[<- <-]|[Hne Hg']].
    + split; [lia|done].
    + by apply to_created.
  - intros k s id' g idx fk Hk Hsn.
    destruct (to_snapshots k s id' g idx fk Hk Hsn) as (Hcg & ? & ?).
    split_and!; [|done|lia..]. rewrite lookup_insert_ne; [done|]. congruence.
Qed.

Lemma tables_snapshots m i a s :
  tables_ok m i a →
  (∀ k x, Snapshots.state_snapshots s !! k = Some x →
     Snapshots.state_snapshots (state_snapshots i) !! k = Some x ∨
     ∀ id f idx fk, snap_db x = Forked id f idx fk →
       created_forks i !! f = Some idx ∧ idx = Z.to_nat id ∧ 0 ≤ id < Z.of_nat (length (forks i))) →
  tables_ok m (set_snapshots i s) a.
Proof.
  intros [] Hs. split; try done. simpl. intros k x id f idx fk Hk Hx.
  destruct (Hs k x Hk) as [Hold|Hnew]; [by eapply to_snapshots|by eapply Hnew].
Qed.

Lemma tables_restore m i a id f idx fk :
  tables_ok m i a → created_forks i !! f = Some idx → idx = Z.to_nat id →
  0 ≤ id < Z.of_nat (length (forks i)) →
  tables_ok m (set_tables i (<[id := f]> (issued_local_fork_ids i))
      (<[f := idx]> (created_forks i)) (<[idx := Some fk]> (forks i)) (next_fork_id i))
    (Some (id, idx)).
Proof.
  intros [] Hc -> Hid. rewrite (insert_id (created_forks i)) by done.
  split; cbn [next_fork_id forks issued_local_fork_ids created_forks state_snapshots set_tables];
    rewrite ?length_insert; try done.
  - by apply slots_insert.
  - intros id' g. rewrite lookup_insert_Some. intros [[<- <-]|[Hne Hg']]; [done|].
    by apply to_issued.
  - intros id' Hid'. destruct (decide (id' = id)) as [->|?].
    + rewrite lookup_insert_eq. by eexists.
    + rewrite lookup_insert_ne by done. by apply to_all.
  - by intros ? ? [= <- <-].
Qed.
End tables.

(** ** The remaining operations *)
Section calls.
Context `{!ForkTypes, !RevmTypes, !RevmDb, !HashOrder Address}.
Context {M : Type} `{!ForkManager M, !ForkManagerLaws M}.
Implicit Types (c : Ctx M) (b : Backend) (i : BackendInner) (j : JournaledState) (m : M).

(** A number is left for the next fork. *)
Definition room c : Prop :=
  fm_room (manager c) ∧ Z.of_nat (length (forks (inner (backend c)))) < u256_max.

Lemma create_fork_spec c fork :
  wf c → room c →
  ∃ c' r, create_fork fork c = Some (c', r) ∧ wf c' ∧ grows (manager c) (manager c') ∧
    journal c' = journal c ∧ env c' = env c ∧
    active_fork_ids (backend c') = active_fork_ids (backend c) ∧
    (∀ id, r = Ok id → id = Z.of_nat (length (forks (inner (backend c)))) ∧
       is_Some (issued_local_fork_ids (inner (backend c')) !! id)).
Proof.
  intros [Hm Hok] [Hroom Hlen]. unfold create_fork, request. call_step.
  destruct (fm_create (manager c) fork) as [m' r] eqn:Hc.
  destruct (fm_create_law _ _ _ _ Hm Hroom Hc) as (Hm' & Hold & Hnew).
  assert (Hg : grows (manager c) m') by (intros f Hf; by rewrite Hold).
  destruct r as [[[f shared] e]|er]; call_step.
  - destruct (Hnew f shared e eq_refl) as [Hf Hf'].
    pose proof (tables_insert _ m' _ _ f (db_new shared)
      (fork_init_journaled_state (backend c)) Hok Hg Hf Hf' Hlen) as Hins.
    unfold insert_new_fork, next_id in *. call_step.
    do 2 eexists. split; [reflexivity|]. split_and!; try done. simpl.
    intros id [= <-]. rewrite (to_next _ _ _ Hok), lookup_insert_eq. split; [done|by eexists].
  - do 2 eexists. split; [reflexivity|]. split_and!; try done.
    split; [done|]. by eapply tables_grow.
Qed.

(** *** Rolling *)
Lemma reload_other from l x : ∀ st : JournaledState * CachedDb SharedBackend,
  RevmLaws → x ∉ l.*1 →
  state (foldl (reload_account from) st l).1 !! x = state st.1 !! x.
Proof.
  induction l as [|[a acc] l IH]; intros [j d] HL; simpl; [done|].
  intros [Hx Hl]%not_elem_of_cons. rewrite IH by done. simpl.
  destruct (is_created (status acc)); [|by apply load_account_frame].
  destruct (is_touched (status acc)); [|done]. simpl. by apply merge_journal_ne.
Qed.

(** An account that was carried over keeps its data. *)
Definition arrived (acc acc' : Account) : Prop :=
  acc_info acc' = acc_info acc ∧ acc_storage acc ⊆ acc_storage acc'.

Lemma reload_keeps from l x acc : ∀ st : JournaledState * CachedDb SharedBackend,
  RevmLaws → NoDup l.*1 → state from !! x = Some acc →
  (∃ acc', state st.1 !! x = Some acc' ∧ arrived acc acc') →
  ∃ acc', state (foldl (reload_account from) st l).1 !! x = Some acc' ∧ arrived acc acc'.
Proof.
  induction l as [|[a aacc] l IH]; intros [j d] HL; simpl; [done|].
  intros [Ha Hnd]%NoDup_cons Hx (acc' & Hj & Harr). simpl in Hj. apply IH; try done.
  destruct (decide (x = a)) as [->|Hne].
  - destruct (is_created (status aacc)).
    + destruct (is_touched (status aacc)); simpl; [|by exists acc'].
      destruct (merge_journal_eq a from j acc Hx) as (acc2 & -> & Hi & _ & _ & Hs).
      exists acc2. by split.
    + destruct (load_account_keeps j d a acc' Hj) as (acc2 & -> & Hi & Hs).
      exists acc2. unfold arrived. rewrite Hi, Hs. by split.
  - exists acc'. split; [|done].
    destruct (is_created (status aacc)); [|by rewrite load_account_frame].
    destruct (is_touched (status aacc)); [|done]. simpl. by rewrite merge_journal_ne.
Qed.

(** What is not carried over starts from the initial journal. *)
Lemma reload_fresh from l x acc : ∀ st : JournaledState * CachedDb SharedBackend,
  RevmLaws → NoDup l.*1 → (x, acc) ∈ l → is_created (status acc) = false →
  ∃ j d, state j !! x = state st.1 !! x ∧
    state (foldl (reload_account from) st l).1 !! x = state (journal_load_account j d x).1 !! x.
Proof.
  induction l as [|[a aacc] l IH]; intros [j d] HL; simpl.
  { by intros _ ?%not_elem_of_nil. }
  intros [Ha Hnd]%NoDup_cons [[= -> ->]|Hin]%elem_of_cons Hcr.
  - exists j, d. split; [done|]. rewrite reload_other by done. simpl. by rewrite Hcr.
  - destruct (IH (reload_account from (j, d) (a, aacc)) HL Hnd Hin Hcr) as (j' & d' & Hj' & Hfold).
    exists j', d'. split; [|exact Hfold]. rewrite Hj'. simpl.
    assert (x ≠ a) by (intros ->; apply Ha; apply list_elem_of_fmap; by exists (a, acc)).
    destruct (is_created (status aacc)); [|by apply load_account_frame].
    destruct (is_touched (status aacc)); [|done]. simpl. by apply merge_journal_ne.
Qed.

Definition kept_accounts b : gset Address :=
  persistent_accounts (inner b) ∪ option_to_set (inner_caller (inner b)).

Record rolled c c' : Prop := {
  ro_kept a acc : a ∈ kept_accounts (backend c) → state (journal c) !! a = Some acc →
    ∃ acc', state (journal c') !! a = Some acc' ∧ arrived acc acc';
  ro_fresh a acc : a ∉ kept_accounts (backend c) → state (journal c) !! a = Some acc →
    is_created (status acc) = false →
    ∃ j d, state j !! a = state (fork_init_journaled_state (backend c)) !! a ∧
      state (journal c') !! a = state (journal_load_account j d a).1 !! a;
}.

Lemma reset_journal_spec c idx :
  (idx < length (forks (inner (backend c))))%nat → Forall is_Some (forks (inner (backend c))) →
  ∃ fs j', reset_journal idx c = Some (mkCtx (manager c)
      (with_inner (backend c) (set_forks (inner (backend c)) fs)) (env c) j', Ok tt) ∧
    same_slots (forks (inner (backend c))) fs ∧
    (RevmLaws → rolled c (mkCtx (manager c) (backend c) (env c) j')).
Proof.
  intros Hidx Hs. destruct (lookup_lt_is_Some_2 _ _ Hidx) as [o Ho].
  destruct (Forall_lookup_1 _ _ _ _ Hs Ho) as [f ->].
  unfold reset_journal. call_step. apply get_fork_lookup in Ho. rewrite Ho. call_step.
  fold (kept_accounts (backend c)).
  set (j0 := set_depth _ _). set (j1 := foldl _ j0 _).
  pose proof (λ x acc, reload_keeps (journal c) (iter_map (state (journal c))) x acc (j1, db f))
    as Hk.
  pose proof (λ x acc, reload_fresh (journal c) (iter_map (state (journal c))) x acc (j1, db f))
    as Hf.
  destruct (foldl (reload_account _) _ _) as [j d]. simpl in Hk, Hf.
  rewrite set_fork_Some by done. call_step. do 2 eexists. split; [reflexivity|].
  split; [apply same_slots_insert|]. intros HL. split; simpl.
  - intros a acc Ha Hacc. apply Hk; try done; [apply NoDup_iter_map_keys|].
    destruct (merge_list_in (iter_set (kept_accounts (backend c))) (journal c) a acc Hacc j0)
      as (acc' & Hj1 & Hi & _ & _ & Hst); [apply NoDup_iter_set|by apply elem_of_iter_set|].
    by exists acc'.
  - intros a acc Ha Hacc Hcr.
    destruct (Hf a acc HL (NoDup_iter_map_keys _)) as (j2 & d2 & Hj2 & Hj); [|done|].
    { by apply elem_of_iter_map. }
    exists j2, d2. split; [|done]. rewrite Hj2. unfold j1.
    rewrite merge_list_notin; [done|]. by rewrite elem_of_iter_set.
Qed.

Lemma ensure_fork_issued c oid id :
  wf c → ensure_fork (backend c) oid = Ok id →
  0 ≤ id < Z.of_nat (length (forks (inner (backend c)))) ∧
  ∃ f, issued_local_fork_ids (inner (backend c)) !! id = Some f ∧
    created_forks (inner (backend c)) !! f = Some (Z.to_nat id).
Proof.
  intros [_ Hok] He.
  assert (Hr : 0 ≤ id < Z.of_nat (length (forks (inner (backend c))))).
  { unfold ensure_fork, active_fork_id in He. destruct oid as [i|].
    - case_bool_decide as Hi; [|done]. injection He as <-. destruct Hi as [f Hf].
      by apply (to_issued _ _ _ Hok i f).
    - destruct (active_fork_ids (backend c)) as [[i idx]|] eqn:Ha; [|done].
      injection He as <-. by apply (to_active _ _ _ Hok i idx). }
  split; [done|]. destruct (to_all _ _ _ Hok id Hr) as [f Hf]. exists f.
  split; [done|]. by apply (to_issued _ _ _ Hok).
Qed.

Lemma inner_roll_spec c id f f' shared :
  wf c → 0 ≤ id < Z.of_nat (length (forks (inner (backend c)))) →
  issued_local_fork_ids (inner (backend c)) !! id = Some f' →
  created_forks (inner (backend c)) !! f' = Some (Z.to_nat id) →
  ∃ fs, inner_roll_fork (inner (backend c)) id f shared =
    Some (set_tables (inner (backend c)) (<[id := f]> (issued_local_fork_ids (inner (backend c))))
            (<[f := Z.to_nat id]> (created_forks (inner (backend c)))) fs
            (next_fork_id (inner (backend c))), Ok (Z.to_nat id)) ∧
    same_slots (forks (inner (backend c))) fs.
Proof.
  intros [_ Hok] Hid Hf' Hc. unfold inner_roll_fork, ensure_fork_index_by_local_id,
    inner_ensure_fork_id, ensure_fork_index. rewrite Hf'. simpl. rewrite Hc. simpl.
  destruct (slot_exists _ _ _ (Z.to_nat id) Hok) as [t Ht]; [lia|].
  apply get_fork_lookup in Ht. rewrite Ht. simpl.
  eexists. split; [done|]. apply same_slots_insert.
Qed.

(** The effect on the call's own journal and environment. *)
Definition roll_effect c oid c' : Prop :=
  ∀ id, ensure_fork (backend c) oid = Ok id →
    if bool_decide (active_fork_id (backend c) = Some id)
    then RevmLaws → rolled c c' else journal c' = journal c ∧ env c' = env c.

Lemma roll_fork_spec c oid n :
  wf c → room c →
  ∃ c' r, roll_fork oid n c = Some (c', r) ∧ wf c' ∧ grows (manager c) (manager c') ∧
    active_fork_ids (backend c') = active_fork_ids (backend c) ∧
    (r = Ok tt → roll_effect c oid c').
Proof.
  intros Hwf [Hroom _]. unfold roll_fork. call_step.
  destruct (ensure_fork (backend c) oid) as [id|er] eqn:He; call_step;
    [|do 2 eexists; split_and!; [reflexivity|done|apply grows_refl|done|done]].
  destruct (ensure_fork_issued c oid id Hwf He) as (Hid & f & Hf & Hcr).
  unfold ensure_fork_id, inner_ensure_fork_id. rewrite Hf. cbn [ok_or]. call_step.
  pose proof Hwf as [Hm Hok]. unfold request.
  destruct (fm_roll (manager c) f n) as [m' r] eqn:Hr.
  destruct (fm_roll_law _ _ _ _ _ Hm Hroom Hr) as (Hm' & Hold & Hnew).
  assert (Hg : grows (manager c) m') by (intros g Hg; by rewrite Hold).
  destruct r as [[[f2 shared] e]|er]; call_step.
  2: { do 2 eexists. split; [reflexivity|]. split_and!; try done.
       split; [done|]. by eapply tables_grow. }
  destruct (Hnew f2 shared e eq_refl) as [Hf2 Hf2'].
  destruct (inner_roll_spec c id f2 f shared Hwf Hid Hf Hcr) as (fs & -> & Hs). call_step.
  set (i2 := set_tables _ _ _ _ _).
  assert (Hok2 : tables_ok m' i2 (active_fork_ids (backend c))) by by apply (tables_roll (manager c)).
  assert (Heff : ∀ j, roll_effect c oid (mkCtx m' (with_inner (backend c) i2) (env c) j) ↔
    if bool_decide (active_fork_id (backend c) = Some id)
    then RevmLaws → rolled c (mkCtx m' (with_inner (backend c) i2) (env c) j)
    else j = journal c).
  { intros j. unfold roll_effect. rewrite He. split.
    - intros Hx. specialize (Hx id eq_refl). case_bool_decide; [done|]. by destruct Hx.
    - intros Hx ? [= <-]. by case_bool_decide. }
  destruct (active_fork_ids (backend c)) as [[aid aidx]|] eqn:Ha.
  - destruct (decide (aid = id)) as [Haid|Haid];
      [rewrite bool_decide_true by done|rewrite bool_decide_false by done]; call_step.
    + subst aid. destruct (active_slot _ _ _ _ Hok2) as [_ Hal].
      set (c2 := mkCtx m' (with_inner (backend c) i2) _ (journal c)).
      destruct (reset_journal_spec c2 aidx Hal (to_slots _ _ _ Hok2))
        as (fs2 & j2 & -> & Hs2 & Hro).
      do 2 eexists. split; [reflexivity|]. split_and!; try done.
      * split; [done|]. simpl. rewrite Ha. by apply tables_same_slots.
      * intros _ id' Hid'. rewrite He in Hid'. injection Hid' as <-.
        unfold active_fork_id. rewrite Ha. rewrite bool_decide_true by done.
        intros HL. by destruct (Hro HL) as [Hk Hfr].
    + do 2 eexists. split; [reflexivity|]. split_and!; try done.
      * split; [done|]. simpl. by rewrite Ha.
      * intros _. apply Heff. rewrite bool_decide_false; [done|].
        unfold active_fork_id. rewrite Ha. simpl. congruence.
  - do 2 eexists. split; [reflexivity|]. split_and!; try done.
    + split; [done|]. simpl. by rewrite Ha.
    + intros _. apply Heff. rewrite bool_decide_false; [done|].
      unfold active_fork_id. by rewrite Ha.
Qed.

(** *** Snapshots *)
#[local] Abbreviation snapshots c := (Snapshots.state_snapshots (state_snapshots (inner (backend c)))).

(** What a snapshot of the context holds. *)
Definition snapshot_of c (s : BackendStateSnapshot) : Prop :=
  snap_journal s = journal c ∧ snap_env s = env c ∧
  match active_fork_ids (backend c) with
  | Some (aid, aidx) => ∃ f fk, snap_db s = Forked aid f aidx fk ∧
      issued_local_fork_ids (inner (backend c)) !! aid = Some f ∧
      get_fork (inner (backend c)) aidx = Some fk
  | None => snap_db s = InMemory (mem_db (backend c))
  end.

Lemma create_db_snapshot_spec c :
  wf c → ∃ d, create_db_snapshot (backend c) = Some d ∧
    snapshot_of c (mkBackendStateSnapshot d (journal c) (env c)) ∧
    ∀ id f idx fk, d = Forked id f idx fk →
      created_forks (inner (backend c)) !! f = Some idx ∧ idx = Z.to_nat id ∧
      0 ≤ id < Z.of_nat (length (forks (inner (backend c)))).
Proof.
  intros [_ Hok]. unfold create_db_snapshot, snapshot_of, ensure_fork_id, inner_ensure_fork_id.
  destruct (active_fork_ids (backend c)) as [[aid aidx]|] eqn:Ha; [|by eexists].
  destruct (active_slot _ _ _ _ Hok) as [Haidx Hal].
  destruct (slot_exists _ _ _ aidx Hok Hal) as [fk Hfk].
  pose proof (to_active _ _ _ Hok aid aidx eq_refl) as [_ Hr].
  destruct (to_all _ _ _ Hok aid Hr) as [f Hf]. destruct (to_issued _ _ _ Hok aid f Hf) as [_ Hcr].
  rewrite Hfk, Hf. cbn. eexists. split; [done|]. split.
  - split_and!; [done..|]. by exists f, fk.
  - intros ? ? ? ? [= <- <- <- <-]. rewrite Hcr. by subst aidx.
Qed.

Lemma snapshot_state_spec c :
  wf c → ∃ c' id s, snapshot_state c = Some (c', Ok id) ∧ wf c' ∧ manager c' = manager c ∧
    journal c' = journal c ∧ env c' = env c ∧
    active_fork_ids (backend c') = active_fork_ids (backend c) ∧
    snapshots c' !! id = Some s ∧ snapshot_of c s.
Proof.
  intros Hwf. destruct (create_db_snapshot_spec c Hwf) as (d & Hd & Hs & Hcr).
  unfold snapshot_state. call_step. rewrite Hd. call_step.
  unfold snapshots_insert, snapshots_next_id. call_step.
  set (s := mkBackendStateSnapshot _ _ _). do 2 eexists. exists s.
  split; [reflexivity|]. split_and!; try done.
  - destruct Hwf as [Hm Hok]. split; [done|]. simpl. apply tables_snapshots; [done|].
    simpl. intros k x. rewrite lookup_insert_Some. intros [[_ <-]|[_ ?]]; [by right|by left].
  - simpl. by rewrite lookup_insert_eq.
Qed.

(** The context after a snapshot is reverted, and the journal returned. *)
Record restored c (s : BackendStateSnapshot) c' j : Prop := {
  re_logs : logs j = logs (journal c);
  re_depth : depth j = depth (snap_journal s);
  re_state a : a ≠ caller (env_tx (env c)) ∨ is_Some (state (snap_journal s) !! a) →
    state j !! a = state (snap_journal s) !! a;
  re_env : env c' = update_current_env_with_fork_env (env c) (snap_env s);
  re_db : match snap_db s with
    | InMemory d => mem_db (backend c') = d ∧
        active_fork_ids (backend c') = active_fork_ids (backend c)
    | Forked aid f aidx fk => active_fork_ids (backend c') = Some (aid, aidx) ∧
        issued_local_fork_ids (inner (backend c')) !! aid = Some f ∧
        ∃ d, get_fork (inner (backend c')) aidx = Some (mkFork d (journaled_state fk)) ∧
          (is_Some (state (snap_journal s) !! caller (env_tx (env c))) → d = db fk)
    end;
}.

(** The tables with one snapshot removed, or put back, and the flag set. *)
Lemma tables_reverted m i a id s keep fl :
  tables_ok m i a → Snapshots.state_snapshots (state_snapshots i) !! id = Some s →
  let st := (remove_at (state_snapshots i) id).1 in
  let i1 := set_snapshots i (if keep : bool then insert_at st s id else st) in
  tables_ok m (if fl : bool then set_failure i1 true else i1) a.
Proof.
  intros Hok Hs st i1. assert (Hok1 : tables_ok m i1 a).
  { apply tables_snapshots; [done|]. intros k x Hx. left. destruct keep; simpl in Hx.
    - apply lookup_insert_Some in Hx as [[<- <-]|[? Hx]]; [done|].
      by apply lookup_delete_Some in Hx as [_ ?].
    - by apply lookup_delete_Some in Hx as [_ ?]. }
  destruct fl; [|done]. by destruct Hok1.
Qed.

Lemma revert_state_spec c id action :
  wf c →
  ∃ c' r, revert_state id action c = Some (c', Ok r) ∧ wf c' ∧ manager c' = manager c ∧
    journal c' = journal c ∧
    match snapshots c !! id with
    | None => r = None ∧ c' = c
    | Some s => ∃ j, r = Some j ∧ restored c s c' j ∧
        snapshots c' !! id = if is_keep action then Some s else None
    end.
Proof.
  intros Hwf. pose proof Hwf as [Hm Hok].
  unfold revert_state. call_step. unfold remove_at.
  destruct (snapshots c !! id) as [s|] eqn:Hs; call_step.
  2: { do 2 eexists. split; [reflexivity|]. by split_and!. }
  pose proof (tables_reverted _ _ _ id s (is_keep action) (failed_slot (journal c)) Hok Hs) as Hok1.
  cbn [remove_at fst] in Hok1. set (st := mkStateSnapshots _ _) in *.
  set (i1 := set_snapshots _ _) in *. set (i2 := if failed_slot _ then _ else i1) in *.
  assert (Hsn : Snapshots.state_snapshots (state_snapshots i2) !! id =
            if is_keep action then Some s else None).
  { unfold i2, i1. destruct (failed_slot (journal c)), (is_keep action); simpl;
      rewrite ?lookup_insert_eq, ?lookup_delete_eq; done. }
  assert (Htab : issued_local_fork_ids i2 = issued_local_fork_ids (inner (backend c)) ∧
    created_forks i2 = created_forks (inner (backend c)) ∧ forks i2 = forks (inner (backend c)) ∧
    next_fork_id i2 = next_fork_id (inner (backend c))).
  { unfold i2, i1. by destruct (failed_slot (journal c)). }
  cbn [snapshot_merge snap_db snap_journal snap_env].
  destruct (snap_db s) as [d|aid f aidx fk] eqn:Hdb; call_step.
  - do 2 eexists. split; [reflexivity|]. split_and!; try done.
    eexists. split; [reflexivity|]. split; [|exact Hsn].
    split; try done. by rewrite Hdb.
  - destruct (to_snapshots _ _ _ Hok id s aid f aidx fk Hs Hdb) as (Hcr & Hidx & Hr).
    destruct Htab as (Hi1 & Hi2 & Hi3 & Hi4).
    pose proof (λ a Ha, ensure_caller_own a (caller (env_tx (env c))) (journal c) (db fk)
      (set_logs (snap_journal s) (logs (journal c))) Ha) as Hown.
    pose proof (ensure_caller_depth (caller (env_tx (env c))) (journal c) (db fk)
      (set_logs (snap_journal s) (logs (journal c)))) as Hdep.
    assert (Hpres : is_Some (state (snap_journal s) !! caller (env_tx (env c))) →
      ensure_caller (caller (env_tx (env c))) (journal c) (db fk)
        (set_logs (snap_journal s) (logs (journal c))) =
      (db fk, set_logs (snap_journal s) (logs (journal c)))).
    { intros [x Hx]. unfold ensure_caller. simpl. by rewrite Hx. }
    assert (Hlogs : logs (ensure_caller (caller (env_tx (env c))) (journal c) (db fk)
        (set_logs (snap_journal s) (logs (journal c)))).2 = logs (journal c)).
    { unfold ensure_caller. by destruct (state _ !! _). }
    destruct (ensure_caller _ _ _ _) as [d j]. simpl in Hown, Hdep, Hlogs.
    unfold inner_revert_state_snapshot. rewrite set_fork_Some by (simpl; rewrite Hi3; lia).
    call_step. do 2 eexists. split; [reflexivity|]. split_and!; try done.
    + split; [done|]. apply (tables_restore _ _ _ aid f aidx _ Hok1); [by rewrite Hi2|done|].
      by rewrite Hi3.
    + eexists. split; [reflexivity|]. split; [|exact Hsn]. split; try done.
      * intros a [Ha|Ha]; [by apply Hown|].
        destruct (decide (a = caller (env_tx (env c)))) as [->|?]; [|by apply Hown].
        by injection (Hpres Ha) as -> ->.
      * rewrite Hdb. simpl. rewrite lookup_insert_eq. split_and!; [done..|].
        exists d. split.
        -- apply get_fork_lookup. simpl. rewrite list_lookup_insert_eq; [done|].
           rewrite Hi3. lia.
        -- intros Hp. by injection (Hpres Hp) as -> _.
Qed.
End calls.

(** ** Steps *)
Section steps.
Context `{!ForkTypes, !RevmTypes, !RevmDb, !HashOrder Address, !ForkConfig}.
Context {M : Type} `{!ForkManager M, !ForkManagerLaws M}.
Implicit Types (c : Ctx M) (b : Backend).
#[local] Abbreviation snapshots c := (Snapshots.state_snapshots (state_snapshots (inner (backend c)))).

Definition safe {A} (m : call M A) c : Prop := ∃ c' r, m c = Some (c', r) ∧ wf c'.

Lemma safe_bind {A B} (m : call M A) (f : A → call M B) c c' r :
  m c = Some (c', r) → wf c' → (∀ a, r = Ok a → safe (f a) c') → safe (m ≫= f) c.
Proof.
  intros Hm Hwf Hf. unfold safe. rewrite run_bind, Hm. destruct r as [a|e].
  - by apply Hf.
  - by do 2 eexists.
Qed.
Lemma safe_ret {A} (a : A) c : wf c → safe (mret (M := call M) a) c.
Proof. intros. by do 2 eexists. Qed.
Lemma safe_ignore {A} (m : call M A) c : safe m c → safe (ignore m) c.
Proof. intros (c' & r & Hm & Hwf). eapply safe_bind; [done..|]. intros. by apply safe_ret. Qed.

(** Changes of the accounts and flags keep the tables. *)
Definition same_tables b b' : Prop :=
  active_fork_ids b' = active_fork_ids b ∧
  ∃ x y z, inner b' = set_accounts (inner b) x y z.

Lemma wf_same_tables c b' :
  wf c → same_tables (backend c) b' → wf (mkCtx (manager c) b' (env c) (journal c)).
Proof.
  intros [Hm Hok] (Ha & x & y & z & Hi). split; [done|]. simpl. rewrite Ha, Hi.
  by destruct Hok.
Qed.
Lemma room_same_tables c b' :
  room c → same_tables (backend c) b' → room (mkCtx (manager c) b' (env c) (journal c)).
Proof. intros [? ?] (Ha & x & y & z & Hi). split; [done|]. simpl. by rewrite Hi. Qed.

Lemma same_tables_refl b : same_tables b b.
Proof. split; [done|]. exists (inner_caller (inner b)), (persistent_accounts (inner b)),
  (cheatcode_access_accounts (inner b)). by destruct b as [? ? ? []]. Qed.
Lemma same_tables_trans b1 b2 b3 :
  same_tables b1 b2 → same_tables b2 b3 → same_tables b1 b3.
Proof.
  intros (Ha & x & y & z & Hi) (Ha' & x' & y' & z' & Hi'). split; [congruence|].
  exists x', y', z'. by rewrite Hi', Hi.
Qed.
Lemma same_tables_set b x y z : same_tables b (with_inner b (set_accounts (inner b) x y z)).
Proof. split; [done|]. by exists x, y, z. Qed.

Lemma extend_same_tables l b : same_tables b (extend_persistent_accounts b l).
Proof.
  revert b. induction l as [|a l IH]; intros b; simpl; [apply same_tables_refl|].
  eapply same_tables_trans; [apply same_tables_set|apply IH].
Qed.
Lemma remove_same_tables l b : same_tables b (remove_persistent_accounts b l).
Proof.
  revert b. induction l as [|a l IH]; intros b; simpl; [apply same_tables_refl|].
  eapply same_tables_trans; [apply same_tables_set|apply IH].
Qed.

Lemma modify_run (f : Backend → Backend) c :
  modify f c = Some (mkCtx (manager c) (f (backend c)) (env c) (journal c), Ok tt).
Proof. done. Qed.

Lemma modify_safe (f : Backend → Backend) c :
  wf c → same_tables (backend c) (f (backend c)) → safe (modify f) c.
Proof. intros Hwf Hs. do 2 eexists. split; [done|]. by apply wf_same_tables. Qed.

(** The context after [persist_caller]. *)
Definition persisted c (a : Address) : Ctx M :=
  mkCtx (manager c) (add_persistent_account (backend c) a).1 (env c) (journal c).
Lemma persist_caller_run c a : persist_caller a c = Some (persisted c a, Ok tt).
Proof. done. Qed.
Lemma persisted_wf c a : wf c → wf (persisted c a).
Proof. intros. apply wf_same_tables; [done|]. apply same_tables_set. Qed.
Lemma persisted_room c a : room c → room (persisted c a).
Proof. intros. apply room_same_tables; [done|]. apply same_tables_set. Qed.

(** Operations on the database in use. *)
Lemma on_db_safe {A} (f : ∀ Ext, CachedDb Ext → CachedDb Ext * A) c :
  wf c → ∃ b' a, on_db f (backend c) = Some (b', a) ∧
    wf (mkCtx (manager c) b' (env c) (journal c)).
Proof.
  intros Hwf. pose proof Hwf as [Hm Hok]. unfold on_db.
  destruct (active_fork_ids (backend c)) as [[aid aidx]|] eqn:Ha.
  - destruct (active_slot _ _ _ _ Hok) as [_ Hl].
    destruct (slot_exists _ _ _ aidx Hok Hl) as [fk ->]. cbn [mbind option_bind].
    destruct (f _ (db fk)) as [d a]. rewrite set_fork_Some by done. cbn [mbind option_bind].
    do 2 eexists. split; [done|]. split; [done|]. simpl. rewrite Ha.
    apply tables_same_slots; [done|apply same_slots_insert].
  - destruct (f _ (mem_db (backend c))) as [d a]. do 2 eexists. split; [done|].
    split; [done|]. simpl. by rewrite Ha.
Qed.

Definition step_allowed c (s : Step (M := M)) : Prop :=
  match s with
  | RollFork_0 _ n | RollFork_2 _ _ n => 0 ≤ n ≤ u64_max
  | Others m => fm_ok m ∧ grows (manager c) m
  | _ => True
  end.

Lemma create_request_run c a url n :
  ∃ r, create_fork_request a url n c = Some (persisted c a, r).
Proof.
  unfold create_fork_request. rewrite run_bind, persist_caller_run. call_step.
  destruct (endpoint_url url) as [u|]; call_step; by eexists.
Qed.

Lemma create_safe c a url n :
  wf c → room c → safe (cheat_create_fork a url n) c.
Proof.
  intros Hwf Hr. unfold cheat_create_fork. destruct (create_request_run c a url n) as [r Hrun].
  eapply safe_bind; [exact Hrun|by apply persisted_wf|]. intros fork _.
  destruct (create_fork_spec (persisted c a) fork) as (c' & r' & Hc & Hwf' & _);
    [by apply persisted_wf|by apply persisted_room|]. by exists c', r'.
Qed.

Lemma select_safe c id : wf c → safe (select_fork id) c.
Proof.
  intros Hwf. destruct (is_active_fork (backend c) id) eqn:Ha.
  - unfold safe, select_fork. call_step. rewrite Ha. by do 2 eexists.
  - destruct (select_fork_spec c id Hwf Ha) as (c' & r & Hs & Hwf' & _). by exists c', r.
Qed.

Lemma create_select_safe c a bc url n :
  wf c → room c → safe (cheat_create_select_fork a bc url n) c.
Proof.
  intros Hwf Hr. unfold cheat_create_select_fork, check_broadcast. destruct bc.
  { eapply safe_bind; [reflexivity|done|]. by intros. }
  eapply safe_bind; [reflexivity|done|]. intros _ _.
  destruct (create_request_run c a url n) as [r Hrun].
  eapply safe_bind; [exact Hrun|by apply persisted_wf|]. intros fork _.
  destruct (create_fork_spec (persisted c a) fork) as (c' & r' & Hc & Hwf' & _);
    [by apply persisted_wf|by apply persisted_room|].
  eapply safe_bind; [exact Hc|done|]. intros id _.
  destruct (select_safe c' id Hwf') as (c2 & r2 & Hs & Hwf2).
  eapply safe_bind; [exact Hs|done|]. intros. by apply safe_ret.
Qed.

Lemma roll_safe c oid n : wf c → room c → safe (roll_fork oid n) c.
Proof.
  intros Hwf Hr. destruct (roll_fork_spec c oid n Hwf Hr) as (c' & r & Hs & Hwf' & _).
  by exists c', r.
Qed.

Lemma cheat_roll_safe c a oid n :
  wf c → room c → 0 ≤ n ≤ u64_max →
  safe (_ ← persist_caller a; n ← to_u64 n; roll_fork oid n) c.
Proof.
  intros Hwf Hr Hn. eapply safe_bind; [apply persist_caller_run|by apply persisted_wf|].
  intros _ _. eapply (safe_bind _ _ _ (persisted c a) (Ok n)); [|by apply persisted_wf|].
  - unfold to_u64. rewrite checked_in by done. done.
  - intros ? [= <-]. apply roll_safe; [by apply persisted_wf|by apply persisted_room].
Qed.

Lemma revert_safe c action id : wf c → safe (revert_with action id) c.
Proof.
  intros Hwf. destruct (revert_state_spec c id action Hwf) as (c' & r & Hr & Hwf' & _).
  unfold revert_with. eapply safe_bind; [exact Hr|done|]. intros [j|] _; [|by apply safe_ret].
  do 2 eexists. by split.
Qed.

Lemma tables_fewer_snapshots c s :
  wf c → Snapshots.state_snapshots s ⊆ snapshots c →
  wf (mkCtx (manager c) (with_inner (backend c) (set_snapshots (inner (backend c)) s))
        (env c) (journal c)).
Proof.
  intros [Hm Hok] Hs. split; [done|]. simpl. apply tables_snapshots; [done|].
  intros k x Hx. left. by eapply lookup_weaken.
Qed.

Lemma step_safe c s : wf c → room c → step_allowed c s → safe (run_step s) c.
Proof.
  intros Hwf Hr Hs. destruct s; cbn [run_step step_allowed] in *.
  - by apply safe_ignore, create_safe.
  - by apply safe_ignore, create_safe.
  - by apply safe_ignore, create_select_safe.
  - by apply safe_ignore, create_select_safe.
  - eapply safe_bind; [apply persist_caller_run|by apply persisted_wf|]. intros _ _.
    unfold check_broadcast. destruct broadcast.
    + eapply safe_bind; [reflexivity|by apply persisted_wf|]. by intros.
    + eapply safe_bind; [reflexivity|by apply persisted_wf|]. intros _ _.
      by apply select_safe, persisted_wf.
  - by apply cheat_roll_safe.
  - by apply cheat_roll_safe.
  - apply modify_safe; [done|apply extend_same_tables].
  - apply modify_safe; [done|apply remove_same_tables].
  - apply modify_safe; [done|apply same_tables_set].
  - apply safe_ignore. destruct (snapshot_state_spec c Hwf) as (c' & id & s & Hrun & ? & _).
    by do 2 eexists.
  - by apply safe_ignore, revert_safe.
  - by apply safe_ignore, revert_safe.
  - apply safe_ignore. do 2 eexists. split; [reflexivity|].
    apply tables_fewer_snapshots; [done|]. simpl. apply delete_subseteq.
  - do 2 eexists. split; [reflexivity|]. apply tables_fewer_snapshots; [done|].
    simpl. apply map_empty_subseteq.
  - apply safe_ignore. destruct (on_db_safe (λ _ d, db_basic d a) c Hwf) as (b' & r & Hb & ?).
    unfold safe, database, basic. call_step. rewrite Hb. call_step. by do 2 eexists.
  - apply safe_ignore.
    destruct (on_db_safe (λ _ d, db_storage d a slot) c Hwf) as (b' & r & Hb & ?).
    unfold safe, database, storage. call_step. rewrite Hb. call_step. by do 2 eexists.
  - destruct (on_db_safe (λ _ d, (db_commit d changes, tt)) c Hwf) as (b' & r & Hb & ?).
    unfold safe, database, commit. call_step. rewrite Hb. cbn [fmap option_fmap option_map fst mbind option_bind].
    call_step. by do 2 eexists.
  - edestruct (on_db_safe (A := unit)) as (b' & r & Hb & ?); [exact Hwf|].
    unfold safe, database, set_blockhash. call_step. rewrite Hb.
    cbn [fmap option_fmap option_map fst mbind option_bind]. call_step. by do 2 eexists.
  - by do 2 eexists.
  - destruct Hs as [Hm Hg]. do 2 eexists. split; [reflexivity|]. destruct Hwf as [_ Hok].
    split; [done|]. by eapply tables_grow.
Qed.

(** As long as the manager has numbers left, arguments fit their type and the
    other users of the manager respect its invariant. *)
Fixpoint admissible (l : list (Step (M := M))) c : Prop :=
  match l with
  | [] => True
  | s :: l => room c ∧ step_allowed c s ∧
      ∀ c' r, run_step s c = Some (c', r) → admissible l c'
  end.

Lemma steps_safe (l : list (Step (M := M))) c :
  wf c → admissible l c → ∃ c', run_steps l c = Some c' ∧ wf c'.
Proof.
  revert c. induction l as [|s l IH]; intros c Hwf; cbn [admissible run_steps].
  { intros _. by exists c. }
  intros (Hr & Hs & Hl). destruct (step_safe c s Hwf Hr Hs) as (c' & r & Hrun & Hwf').
  rewrite Hrun. cbn [mbind option_bind]. apply IH; [done|]. by eapply Hl.
Qed.

(** A check of the same, for evaluation. *)
Fixpoint admissible_check (room_check : Ctx M → bool) (l : list (Step (M := M))) c : bool :=
  match l with
  | [] => true
  | s :: l =>
      room_check c &&
      (match s with
       | RollFork_0 _ n | RollFork_2 _ _ n => (0 <=? n) && (n <=? u64_max)
       | Others _ => false
       | _ => true
       end) &&
      (match run_step s c with
       | Some (c', _) => admissible_check room_check l c'
       | None => true
       end)
  end.

Lemma admissible_by_check room_check l : (∀ c, room_check c = true → room c) →
  ∀ c, admissible_check room_check l c = true → admissible l c.
Proof.
  intros Hroom. induction l as [|s l IH]; intros c; cbn [admissible admissible_check]; [done|].
  intros [[Hr Hs]%andb_prop Hl]%andb_prop. split_and!; [by apply Hroom| |].
  - destruct s; try done; apply andb_prop in Hs as [?%Z.leb_le ?%Z.leb_le]; done.
  - intros c' r Hrun. rewrite Hrun in Hl. by apply IH.
Qed.

(** ** Construction *)
Lemma initial_wf (default_spec : SpecId) m e j :
  fm_ok m → wf (mkCtx m (in_memory (initial_inner default_spec)) e j).
Proof. intros Hm. split; [done|]. split; simpl; done || (intros; lia) || constructor. Qed.

Lemma new_wf (default_spec : SpecId) m fork m' b e j :
  fm_ok m → fm_room m → backend_new default_spec m fork = (m', Ok b) →
  wf (mkCtx m' b e j).
Proof.
  intros Hm Hroom. unfold backend_new. destruct fork as [fork|].
  2: { intros [= <- <-]. by apply initial_wf. }
  destruct (fm_create m fork) as [m1 r] eqn:Hc.
  destruct (fm_create_law _ _ _ _ Hm Hroom Hc) as (Hm1 & Hold & Hnew).
  destruct r as [[[f shared] e']|er]; [|done]. intros [= <- <-].
  destruct (Hnew f shared e' eq_refl) as [Hf Hf'].
  destruct (initial_wf default_spec m e j Hm) as [_ Hok]. simpl in Hok.
  pose proof (tables_insert m m1 _ None f (db_new shared)
    (new_journaled_state (initial_inner default_spec)) Hok) as Hins.
  destruct Hins; [intros g Hg; by rewrite Hold|done..|]. split; [done|].
  split; try done. simpl. intros id idx [= <- <-]. split; [done|lia].
Qed.
End steps.
