(* ===== verification/ForkManager.v ===== *)
(** * The handler as the backend's manager of forks

    [MultiFork] sends a request and waits for its answer: a poll in which the
    network answers.  The handler with its invariant satisfies what
    [ForkBackend] asks of the manager, [ForkManagerLaws]. *)
From stdpp Require Import base list gmap strings.
From Stdlib Require Import ZArith Lia.
From S2P Require Import Prelude MultiFork MultiForkProofs ForkState ForkBackend.
#[local] Open Scope list_scope.

Section manager.
Context `{!ForkTypes} (no_matching_fork : ForkId → RpcError).
Context (net : Network) (drv : Handler → option Handler) (Hready : ready net).
Implicit Types h : MultiForkHandler.
#[local] Abbreviation poll := (poll no_matching_fork).

Definition ask h (req : Request) : MultiForkHandler * list (nat * Answer) :=
  match poll h (mkTurn [req] false net drv) with
  | Some (h', out, _) => (h', out)
  | None => (h, [])
  end.

(** An answer of another kind does not occur. *)
Definition created_answer (r : MultiForkHandler * list (nat * Answer)) h
    : MultiForkHandler * Created :=
  match r with
  | (h', [(_, CreateAnswer r)]) => (h', r)
  | _ => (h, Err (no_matching_fork EmptyString))
  end.

#[local] Instance handler_manager : ForkManager MultiForkHandler := {|
  fm_create h fork := created_answer (ask h (CreateForkReq fork 0)) h;
  fm_roll h id n := created_answer (ask h (RollFork id n 0)) h;
  fm_get_env h id :=
    match ask h (GetEnv id 0) with
    | (h', [(_, EnvAnswer e)]) => (h', Ok e)
    | _ => (h, Err (no_matching_fork EmptyString))
    end;
  fm_update_block h id n t := ((ask h (UpdateBlock id n t)).1, Ok tt);
  fm_update_block_env h id e := ((ask h (UpdateEnv id e)).1, Ok tt);
  fm_get_fork_url h id :=
    match ask h (GetForkUrl id 0) with
    | (h', [(_, UrlAnswer u)]) => (h', Ok u)
    | _ => (h, Err (no_matching_fork EmptyString))
    end;
|}.

(** Between two requests nothing is pending. *)
Definition idle h : Prop := handler_ok h ∧ pending_tasks h = [].
Definition numbers_left h : Prop := Z.of_nat (size (MultiFork.forks h)) < u64_max.
Definition registered_env h (id : ForkId) : option Env :=
  MultiFork.env ∘ opts <$> MultiFork.forks h !! id.

(** A request that is answered at once. *)
Lemma ask_now h req h1 out :
  pending_tasks h1 = [] → on_request no_matching_fork h req = (h1, out) →
  ∃ h', ask h req = (h', out) ∧ MultiFork.forks h' = MultiFork.forks h1 ∧
    counters h' = counters h1 ∧ pending_tasks h' = [].
Proof.
  intros Hp Hr. unfold ask, MultiFork.poll. cbn [received on_requests].
  rewrite Hr. cbn [pending_tasks]. rewrite Hp. cbn [length poll_tasks mbind option_bind].
  destruct (poll_handlers_total drv _ (handlers h1) [] eq_refl) as [l Hl].
  rewrite app_nil_r in Hl. cbn [handlers drive network]. rewrite Hl. cbn.
  eexists. rewrite !app_nil_r. split; [reflexivity|]. done.
Qed.

(** A request for a fork. *)
Lemma ask_create h req h1 :
  idle h → numbers_left h → is_shut_down req = false →
  length (request_sender req) = 1%nat → MultiFork.forks h1 = MultiFork.forks h →
  (∃ o, on_request no_matching_fork h req = (h1, o)) →
  ∃ h' s a, ask h req = (h', [(s, a)]) ∧ idle h' ∧ adds_only h h' [(s, a)] ∧
    fresh h h' [(s, a)].
Proof.
  intros [Hok Hp] Hroom Hsd Hlen Hf [o1 Ho1].
  destruct (poll_spec no_matching_fork h (mkTurn [req] false net drv))
    as (h' & out & b & Hpoll & Hw & Hr & Hst).
  specialize (Hr Hready).
  assert (Hsend : senders [req] = request_sender req).
  { unfold senders. simpl. by rewrite app_nil_r. }
  destruct Hst as [Hok' Hfr _ _]; [done| |unfold no_shut_down; simpl; unfold compose; by rewrite Hsd|].
  { simpl received. rewrite Hsend, Hlen. unfold load. rewrite Hp. simpl.
    unfold numbers_left in Hroom. lia. }
  unfold waits in Hw. simpl received in Hw. rewrite Hsend, Hr, Hp in Hw. simpl in Hw.
  rewrite !app_nil_r in Hw. apply Permutation_length in Hw. rewrite Hlen, length_fmap in Hw.
  destruct out as [|[s a] [|? ?]]; try done.
  exists h', s, a. unfold ask. rewrite Hpoll. split_and!; try done.
  revert Hpoll. unfold MultiFork.poll. cbn [received on_requests]. rewrite Ho1.
  set (h2 := mkHandler _ _ _ _ _). cbn [network].
  destruct (poll_tasks h2 net _) as [[h3 o3]|] eqn:Ht; [|done]. cbn [mbind option_bind].
  destruct (poll_handlers _ _ _) as [l|]; [|done]. cbn. rewrite app_nil_r.
  intros [= <- Hout _] k Hk. simpl. rewrite <- Hout in Hk. unfold created_ids in Hk.
  rewrite omap_app, not_elem_of_app in Hk. destruct Hk as [_ Hk].
  rewrite (poll_tasks_adds _ _ _ _ _ Ht k Hk). simpl. by rewrite Hf.
Qed.

Lemma created_laws h req m' r :
  idle h → numbers_left h → is_shut_down req = false →
  length (request_sender req) = 1%nat →
  (∃ h1 o, on_request no_matching_fork h req = (h1, o) ∧
     MultiFork.forks h1 = MultiFork.forks h) →
  created_answer (ask h req) h = (m', r) →
  idle m' ∧ (∀ id, is_Some (registered_env h id) → registered_env m' id = registered_env h id) ∧
  (∀ id b e, r = Ok (id, b, e) → registered_env h id = None ∧ is_Some (registered_env m' id)).
Proof.
  intros Hidle Hroom Hsd Hlen (h1 & o & Ho & Hf).
  destruct (ask_create h req h1 Hidle Hroom Hsd Hlen Hf (ex_intro _ o Ho))
    as (h' & s & a & -> & Hidle' & Hadds & (Hnd & Hnew & Hdom)).
  assert (Hkeep : ∀ id, is_Some (registered_env h id) →
    registered_env h' id = registered_env h id).
  { intros id Hid. unfold registered_env in *. rewrite Hadds; [done|].
    intros Hin%Hnew. rewrite Hin in Hid. by destruct Hid. }
  destruct a as [r0| | | |]; simpl; intros [= <- <-]; try by split_and!.
  split_and!; [done..|]. intros id b e ->.
  assert (Hin : id ∈ created_ids [(s, CreateAnswer (Ok (id, b, e)))]) by apply list_elem_of_here.
  unfold registered_env. split.
  - by rewrite (Hnew id Hin).
  - assert (Hd : id ∈ dom (MultiFork.forks h')).
    { rewrite Hdom. apply elem_of_union_r. by apply elem_of_list_to_set. }
    apply elem_of_dom in Hd as [f ->]. by eexists.
Qed.

Lemma idle_same h h' :
  idle h → pointers h' = pointers h → counters h' = counters h → pending_tasks h' = [] → idle h'.
Proof. intros [Hok _] Hp Hc Ht. split; [|done]. unfold handler_ok. by rewrite Hp, Hc. Qed.

#[export] Instance handler_manager_laws : ForkManagerLaws MultiForkHandler.
Proof.
  refine {| fm_ok := idle; fm_room := numbers_left; env_of := registered_env |}.
  - intros h fork m' r Hi Hr. apply created_laws; try done. do 2 eexists. split; [done|].
    by destruct (create_fork_waiting h fork 0) as (_ & ? & _).
  - intros h id n m' r Hi Hr. apply created_laws; try done. simpl.
    destruct (MultiFork.forks h !! id) as [f|]; do 2 eexists; (split; [done|]); [|done].
    by destruct (create_fork_waiting h (set_fork_block (opts f) n) 0) as (_ & ? & _).
  - intros h id m' r Hi. simpl.
    destruct (ask_now h (GetEnv id 0) h _ (proj2 Hi) eq_refl) as (h' & -> & Hf & Hc & Hp).
    intros [= <- <-]. split_and!; [|unfold registered_env; by rewrite Hf|done].
    eapply idle_same; try done. unfold pointers. by rewrite Hf.
  - intros h id n t m' r Hi. simpl.
    destruct (ask_now h (UpdateBlock id n t) (update_block h id n t) [] (proj2 Hi) eq_refl)
      as (h' & -> & Hf & Hc & Hp).
    intros [= <- <-]. unfold registered_env. rewrite Hf. unfold update_block. simpl.
    split_and!; [|done|..].
    + eapply idle_same; try done. unfold pointers. rewrite Hf. apply (pointers_alter h).
    + rewrite lookup_alter_eq. by destruct (MultiFork.forks h !! id).
    + intros id' Hne. by rewrite lookup_alter_ne.
Defined.
End manager.
