(* ===== verification/ForkProps.v ===== *)
(** * What the backend of forks guarantees

    A test's steps never panic and keep the invariant; selecting another fork
    and coming back restores the accounts that are not persistent and the
    block; a roll keeps the persistent accounts; a snapshot is restored
    whatever happened since, except that one taken in memory does not leave
    the fork selected afterwards. *)
From stdpp Require Import base list gmap strings.
From Stdlib Require Import ZArith Lia.
From S2P Require Import Prelude Containers StateDb Snapshots MultiFork MultiForkProofs ForkState.
From S2P Require Import ForkBackend ForkManager ForkCheats ForkSelect ForkCalls.
#[local] Open Scope list_scope.
#[local] Abbreviation Address := Z (only parsing).

Section props.
Context `{!ForkTypes, !RevmTypes, !RevmDb, !HashOrder Address, !ForkConfig}.
Context {M : Type} `{!ForkManager M, !ForkManagerLaws M}.
Implicit Types (c : Ctx M) (b : Backend).
#[local] Abbreviation snapshots c := (Snapshots.state_snapshots (state_snapshots (inner (backend c)))).

(** C10: From a new backend, in memory or forked, no sequence of steps of a
    test (creating, selecting and rolling forks, snapshots and their reverts,
    persistent accounts, the EVM's reads and writes, other tests' requests in
    between) panics, and the invariant holds afterwards: every number leads
    to its own slot of the vector and no slot is missing.  It is required that
    a fork is rolled to a block number below 2^64, on a larger one [roll_fork]
    panics; that the other tests' requests keep what is registered in the
    manager of the forks; and that the numbers and names of forks do not run
    out. *)
Theorem backend_steps_safe (default_spec : SpecId) (m m' : M) (fork : option CreateFork) b
    (e : Env) (j : JournaledState) (l : list (Step (M := M))) :
  fm_ok m → fm_room m → backend_new default_spec m fork = (m', Ok b) →
  admissible l (mkCtx m' b e j) →
  ∃ c', run_steps l (mkCtx m' b e j) = Some c' ∧ wf c'.
Proof. intros Hm Hroom Hnew. apply steps_safe. by eapply new_wf. Qed.

(** What the EVM does to the backend: any operation on the database in use, a
    read that fills its cache as well as a commit. *)
Inductive evm_step b b' : Prop :=
| evm_on_db (A : Type) (f : ∀ Ext, CachedDb Ext → CachedDb Ext * A) (x : A) :
    on_db f b = Some (b', x) → evm_step b b'.

Lemma insert_account_info_step (a : Address) x b b' : insert_account_info a x b = Some b' → evm_step b b'.
Proof.
  unfold insert_account_info. intros Hb.
  destruct (on_db _ b) as [[b1 u]|] eqn:Hdb; [|done]. injection Hb as <-. by eapply evm_on_db.
Qed.

(** Such operations change the database of the active fork only. *)
Record same_but_active (idx : ForkLookupIndex) b b' : Prop := {
  sb_active : active_fork_ids b' = active_fork_ids b;
  sb_inner : ∃ fs, inner b' = set_forks (inner b) fs;
  sb_others k : k ≠ idx → get_fork (inner b') k = get_fork (inner b) k;
}.
Lemma evm_step_same (m : M) (e : Env) (j : JournaledState) b b' (id : LocalForkId) (idx : ForkLookupIndex) :
  wf (mkCtx m b e j) → active_fork_ids b = Some (id, idx) → evm_step b b' →
  wf (mkCtx m b' e j) ∧ same_but_active idx b b'.
Proof.
  intros Hwf Ha [A f x Hdb]. split.
  - destruct (on_db_safe f _ Hwf) as (b1 & x1 & Hdb' & Hwf'). simpl in Hdb', Hwf'. rewrite Hdb in Hdb'.
    by injection Hdb' as <- <-.
  - unfold on_db in Hdb. rewrite Ha in Hdb. destruct (get_fork (inner b) idx) as [fk|] eqn:Hfk; [|done].
    cbn [mbind option_bind] in Hdb. destruct (f _ (db fk)) as [d a]. rewrite set_fork_Some in Hdb.
    2: { unfold get_fork in Hfk. destruct (forks (inner b) !! idx) eqn:Hl; [by eapply lookup_lt_Some|done]. }
    cbn [mbind option_bind] in Hdb. injection Hdb as <- <-. split; [done|by eexists|].
    intros k Hk. unfold get_fork. simpl. by rewrite list_lookup_insert_ne.
Qed.
Lemma evm_steps_same (m : M) (e : Env) (j : JournaledState) b b' (id : LocalForkId) (idx : ForkLookupIndex) :
  rtc evm_step b b' → wf (mkCtx m b e j) → active_fork_ids b = Some (id, idx) →
  wf (mkCtx m b' e j) ∧ same_but_active idx b b'.
Proof.
  induction 1 as [b|b b1 b2 Hs _ IH]; intros Hwf Ha.
  { split; [done|]. split; [done| |done]. exists (forks (inner b)). by destruct (inner b). }
  destruct (evm_step_same m e j b b1 id idx Hwf Ha Hs) as [Hwf1 [Ha1 [fs1 Hi1] Ho1]].
  destruct IH as [Hwf2 [Ha2 [fs2 Hi2] Ho2]]; [done|congruence|]. split; [done|]. split.
  - congruence.
  - exists fs2. by rewrite Hi2, Hi1.
  - intros k Hk. by rewrite Ho2, Ho1.
Qed.

(** C11: Selecting another fork and later coming back: accounts that are not
    persistent and not the caller are as they were, and so are the number and
    the timestamp of the block, also when they had been changed by roll and
    warp.  In between the EVM may read from and write to the database of the
    other fork and leave any journal and any environment, and other tests may
    use the manager of the forks, as long as they leave the environment of the
    first fork there; no cheatcode that changes the backend itself comes in
    between. *)
Theorem select_round_trip c c1 c2 (m : M) (e : Env) (j : JournaledState) b
    (a_id b_id : LocalForkId) (a_idx : ForkLookupIndex) (a_fork : ForkId) :
  wf c → active_fork_ids (backend c) = Some (a_id, a_idx) → b_id ≠ a_id →
  issued_local_fork_ids (inner (backend c)) !! a_id = Some a_fork →
  select_fork b_id c = Some (c1, Ok tt) → rtc evm_step (backend c1) b →
  fm_ok m → grows (manager c1) m → env_of m a_fork = env_of (manager c1) a_fork →
  select_fork a_id (mkCtx m b e j) = Some (c2, Ok tt) →
  (∀ a, a ∉ persistent_accounts (inner (backend c)) → a ≠ caller (env_tx (env c)) →
     a ≠ caller (env_tx e) → state (journal c2) !! a = state (journal c) !! a) ∧
  number (block_env (env c2)) = number (block_env (env c)) ∧
  timestamp (block_env (env c2)) = timestamp (block_env (env c)) ∧
  depth (journal c2) = depth j.
Proof.
  intros Hwf Ha Hne Hfork Hsel1 Hevm Hm Hg Henv Hsel2.
  destruct (select_fork_spec c b_id Hwf) as (c1' & r1 & Hs1 & Hwf1 & Hg1 & Hok1).
  { unfold is_active_fork. rewrite Ha. by apply bool_decide_false. }
  rewrite Hsel1 in Hs1. injection Hs1 as <- <-.
  destruct (Hok1 eq_refl) as [(f1 & e1 & _ & _ & Hsw1) Hkept1]. destruct Hsw1 as [Ha1 [fs1 Hi1] _ _ _ _ Hsaved1].
  destruct (Hsaved1 a_id a_idx Ha) as [d1 Hd1]. rewrite Ha in Hkept1.
  destruct Hkept1 as (f & Hf & Hkf & _). rewrite Hfork in Hf. injection Hf as <-.
  assert (Hwfm1 : wf (mkCtx m (backend c1) e j)) by (split; [done|by eapply tables_grow, Hwf1]).
  destruct (evm_steps_same m e j _ _ _ _ Hevm Hwfm1 Ha1) as [Hwfm [Hact [fsb Hib] Hother]].
  set (cm := mkCtx m b e j) in *.
  destruct (select_fork_spec cm a_id Hwfm) as (c2' & r2 & Hs2 & _ & _ & Hok2).
  { unfold is_active_fork. simpl. rewrite Hact, Ha1. by apply bool_decide_false. }
  rewrite Hsel2 in Hs2. injection Hs2 as <- <-.
  destruct (Hok2 eq_refl) as [(f2 & e2 & Hf2 & He2 & Hsw2) _].
  destruct Hsw2 as [_ _ Hdepth _ Henv2 Hown2 _].
  simpl in Hf2, He2. rewrite Hib, Hi1 in Hf2. simpl in Hf2. rewrite Hfork in Hf2. injection Hf2 as <-.
  rewrite Henv, Hkf in He2. destruct (env_of (manager c) a_fork) as [e0|]; [|done].
  injection He2 as <-. split_and!; [|by rewrite Henv2..|done].
  intros a Hp Hc Hc'. destruct Hwf as [_ Hok]. rewrite Ha in Hok.
  destruct (active_slot _ _ _ _ Hok) as [-> _]. pose proof (proj2 (to_active _ _ _ Hok _ _ eq_refl)) as Ha0.
  pose proof Hwf1 as [_ Hok1']. rewrite Ha1 in Hok1'. pose proof (proj2 (to_active _ _ _ Hok1' _ _ eq_refl)) as Hb0.
  rewrite (Hown2 (mkFork d1 (journal c)) b_id (Z.to_nat b_id) a); try done.
  - simpl. by rewrite Hact.
  - simpl. rewrite Hother; [done|lia].
  - simpl. by rewrite Hib, Hi1.
Qed.

(** C12: Selecting a fork carries every loaded persistent account over: its
    data and all of its loaded slots are those of the journal before, and the
    call depth is kept. *)
Theorem select_carries_persistent c c' (id : LocalForkId) :
  wf c → is_active_fork (backend c) id = false → select_fork id c = Some (c', Ok tt) →
  active_fork_ids (backend c') = Some (id, Z.to_nat id) ∧
  depth (journal c') = depth (journal c) ∧
  ∀ a acc, is_persistent (backend c) a = true → state (journal c) !! a = Some acc →
    ∃ acc', state (journal c') !! a = Some acc' ∧ carried acc acc'.
Proof.
  intros Hwf Ha Hs. destruct (select_fork_spec c id Hwf Ha) as (c1 & r & Hs' & _ & _ & Hok).
  rewrite Hs in Hs'. injection Hs' as <- <-. destruct (Hok eq_refl) as [(f & e & _ & _ & Hsw) _].
  destruct Hsw as [Hact _ Hd Hp _ _ _]. split_and!; [done..|].
  intros a acc Hper%bool_decide_eq_true. by apply Hp.
Qed.

(** Rolling the active fork keeps the loaded persistent accounts and the
    test's caller; the other accounts, unless created in the test, are loaded
    again on top of the journal that forks start with: nothing of the state at
    the old block is left. *)
Lemma roll_keeps_persistent c c' (n : Z) `{!RevmLaws} :
  wf c → room c → is_Some (active_fork_id (backend c)) → roll_fork None n c = Some (c', Ok tt) →
  (∀ a acc, a ∈ kept_accounts (backend c) → state (journal c) !! a = Some acc →
     ∃ acc', state (journal c') !! a = Some acc' ∧ arrived acc acc') ∧
  (∀ a acc, a ∉ kept_accounts (backend c) → state (journal c) !! a = Some acc →
     is_created (status acc) = false →
     ∃ j d, state j !! a = state (fork_init_journaled_state (backend c)) !! a ∧
       state (journal c') !! a = state (journal_load_account j d a).1 !! a).
Proof.
  intros Hwf Hr [id Hid] Hroll. destruct (roll_fork_spec c None n Hwf Hr) as (c1 & r & Hs & _ & _ & _ & Heff).
  rewrite Hroll in Hs. injection Hs as <- <-. specialize (Heff eq_refl id).
  unfold ensure_fork in Heff. rewrite Hid in Heff. specialize (Heff eq_refl).
  rewrite bool_decide_true in Heff by done. by destruct Heff.
Qed.

(** C25: A snapshot is restored whatever happened since, as long as it was not
    deleted: the accounts of the journal (the caller of today excepted, if the
    journal of the snapshot did not have it) and the call depth are those of
    the snapshot, the logs those of today; the block and configuration are the
    snapshot's; the fork that was active is active again with its journal, or
    the database in memory is back. *)
Theorem snapshot_restored c c1 c2 (id : Z) (action : RevertStateSnapshotAction) :
  wf c → snapshot_state c = Some (c1, Ok id) →
  wf c2 → snapshots c2 !! id = snapshots c1 !! id →
  ∃ c3 j, revert_state id action c2 = Some (c3, Ok (Some j)) ∧ wf c3 ∧
    logs j = logs (journal c2) ∧ depth j = depth (journal c) ∧
    (∀ a, a ≠ caller (env_tx (env c2)) ∨ is_Some (state (journal c) !! a) →
       state j !! a = state (journal c) !! a) ∧
    block_env (env c3) = block_env (env c) ∧ cfg_env (env c3) = cfg_env (env c) ∧
    match active_fork_ids (backend c) with
    | Some (aid, aidx) => active_fork_ids (backend c3) = Some (aid, aidx) ∧
        ∃ f d, get_fork (inner (backend c)) aidx = Some f ∧
          get_fork (inner (backend c3)) aidx = Some (mkFork d (journaled_state f)) ∧
          (is_Some (state (journal c) !! caller (env_tx (env c2))) → d = db f)
    | None => mem_db (backend c3) = mem_db (backend c)
    end ∧
    snapshots c3 !! id = if is_keep action then snapshots c1 !! id else None.
Proof.
  intros Hwf Hsnap Hwf2 Hkeep.
  destruct (snapshot_state_spec c Hwf) as (c1' & id' & s & Hs & _ & _ & _ & _ & _ & Hid & Hj & He & Hdb).
  rewrite Hsnap in Hs. injection Hs as <- <-. rewrite Hid in Hkeep.
  destruct (revert_state_spec c2 id action Hwf2) as (c3 & r & Hr & Hwf3 & _ & _ & Hres).
  rewrite Hkeep in Hres. destruct Hres as (j & -> & [Hlogs Hdep Hst Henv Hre] & Hsn).
  exists c3, j. rewrite Hj, He in *. split_and!; try done; [by rewrite Henv..| |by rewrite Hid].
  destruct (active_fork_ids (backend c)) as [[aid aidx]|].
  - destruct Hdb as (f & fk & Hdb & _ & Hfk). rewrite Hdb in Hre.
    destruct Hre as (Ha & _ & d & Hd & Hp). split; [done|]. by exists fk, d.
  - rewrite Hdb in Hre. by destruct Hre.
Qed.

(** A snapshot taken in memory and reverted while a fork is selected
    brings the journal and the in-memory database back, but the fork stays
    selected: accounts are then read from the fork's database. *)
Lemma memory_snapshot_keeps_fork c c1 c2 (id aid : Z) (aidx : nat)
    (action : RevertStateSnapshotAction) :
  wf c → active_fork_ids (backend c) = None → snapshot_state c = Some (c1, Ok id) →
  wf c2 → snapshots c2 !! id = snapshots c1 !! id →
  active_fork_ids (backend c2) = Some (aid, aidx) →
  ∃ c3 j, revert_state id action c2 = Some (c3, Ok (Some j)) ∧
    mem_db (backend c3) = mem_db (backend c) ∧
    active_fork_ids (backend c3) = Some (aid, aidx).
Proof.
  intros Hwf Ha Hsnap Hwf2 Hkeep Ha2.
  destruct (snapshot_state_spec c Hwf) as (c1' & id' & s & Hs & _ & _ & _ & _ & _ & Hid & _ & _ & Hdb).
  rewrite Hsnap in Hs. injection Hs as <- <-. rewrite Hid in Hkeep. rewrite Ha in Hdb.
  destruct (revert_state_spec c2 id action Hwf2) as (c3 & r & Hr & _ & _ & _ & Hres).
  rewrite Hkeep in Hres. destruct Hres as (j & -> & [_ _ _ _ Hre] & _).
  rewrite Hdb in Hre. destruct Hre as [Hm Hact]. exists c3, j. by rewrite Hact.
Qed.

(** A block number beyond 64 bits panics in [vm.rollFork], where
    [vm.createFork] saturates. *)
Lemma roll_fork_panics c (caller : Address) (n : Z) :
  u64_max < n → apply_rollFork_0 caller n c = None.
Proof.
  intros Hn. unfold apply_rollFork_0. rewrite run_bind, persist_caller_run. cbn iota.
  rewrite run_bind. unfold to_u64, unwrap.
  rewrite (proj2 (checked_None u64_max n)) by lia. done.
Qed.

(** The clone a fuzz run starts with does not delete snapshots of the setup. *)
Lemma cow_keeps_setup_snapshots (default_spec : SpecId) b (e : Env) (id : Z) s :
  Snapshots.state_snapshots (state_snapshots (inner b)) !! id = Some s →
  cow_delete_state_snapshot (cow_inspect (new_borrowed default_spec b) e) id =
    (cow_inspect (new_borrowed default_spec b) e, false) ∧
  (delete_state_snapshot b id).2 = true.
Proof. intros Hs. split; [done|]. simpl. rewrite Hs. by rewrite bool_decide_true. Qed.
End props.
