(* ===== verification/ForkSample.v ===== *)
(** * A test with two forks

    A concrete instance of the interfaces: accounts that are not in the cache
    of a fork have the number of its block as balance.  The theorems about
    the backend are applied to its runs. *)
From stdpp Require Import base list gmap strings.
From Stdlib Require Import ZArith Lia.
From S2P Require Import Prelude Containers StateDb Snapshots MultiFork MultiForkProofs ForkState.
From S2P Require Import ForkBackend ForkManager ForkCheats ForkSelect ForkCalls ForkProps.
#[local] Open Scope list_scope.

#[local] Existing Instance sample_fork_types.

#[local] Instance sample_revm_types : RevmTypes := {|
  Bytecode := unit; DbStatus := unit; Status := bool; SlotRest := unit; AccountRest := unit;
  JournalRest := unit; FLog := string; DbError := unit; EmptyDb := unit;
|}.

Definition sample_spec : @SpecId sample_fork_types := tt.

Definition sample_info (balance : Z) : AccountInfo unit := mkAccountInfo balance 0 7 None.
Definition sample_account (balance : Z) : Account :=
  mkAccount (sample_info balance : AccountInfo Bytecode) ∅ (false : Status) (tt : AccountRest).

Definition sample_basic {Ext} (d : CachedDb Ext) (a : Z)
    : CachedDb Ext * result DbError (option (AccountInfo Bytecode)) :=
  match accounts (cache d) !! a with
  | Some acc => (d, Ok (Some (info acc)))
  | None =>
      let c := cache d in
      let i : AccountInfo Bytecode := sample_info 100 in
      (with_cache d (mkCacheDB (<[a := mkDbAccount i (tt : DbStatus) ∅]> (accounts c))
         (contracts c) (block_hashes c)), Ok (Some i))
  end.

#[local] Instance sample_revm : RevmDb := {|
  is_created s := s;
  is_touched s := s;
  account_from i := mkAccount i ∅ (false : Status) (tt : AccountRest);
  default_info := sample_info 0;
  KECCAK_EMPTY := 7;
  db_new Ext e := mkCachedDb (mkCacheDB ∅ ∅ ∅) e;
  empty_db := tt : EmptyDb;
  db_basic Ext d a := sample_basic d a;
  db_load_account Ext d a :=
    let '(d, _) := sample_basic d a in
    (d, Ok (default (mkDbAccount (sample_info 0 : AccountInfo Bytecode) (tt : DbStatus) ∅)
              (accounts (cache d) !! a)));
  db_basic_ref Ext d a := (sample_basic d a).2;
  db_insert_account_info Ext d a i :=
    let c := cache d in
    with_cache d (mkCacheDB (<[a := mkDbAccount i (tt : DbStatus) ∅]> (accounts c))
      (contracts c) (block_hashes c));
  db_commit Ext d ch := d;
  db_insert_account_storage Ext d a k v := (d, Ok tt);
  db_replace_account_storage Ext d a m := (d, Ok tt);
  db_storage Ext d a k := (d, Ok 0);
  db_storage_ref Ext d a k := Ok 0;
  db_code_by_hash Ext d h := (d, Ok (tt : Bytecode));
  db_code_by_hash_ref Ext d h := Ok (tt : Bytecode);
  db_block_hash Ext d n := (d, Ok 0);
  db_block_hash_ref Ext d n := Ok 0;
  is_precompile s a := (1 <=? a) && (a <=? 9);
  journal_new s := mkJournaledState ∅ [] 0 (tt : JournalRest);
  journal_load_account j d a :=
    match state j !! a with
    | Some _ => (j, d)
    | None => (set_state j (<[a := sample_account 100]> (state j)), d)
    end;
|}.

#[local] Instance sample_revm_laws : RevmLaws.
Proof.
  split; simpl.
  - intros j d a b Hne. destruct (state j !! a); [done|]. simpl. by rewrite lookup_insert_ne.
  - intros j d a acc Hacc. rewrite Hacc. by exists acc.
Qed.

#[local] Instance sample_order : HashOrder Z := elements_order Z.
#[local] Instance sample_config : ForkConfig := {|
  endpoint_url u := Ok u; endpoint_opts u := (tt : @OptsRest sample_fork_types); caching_for u := true;
|}.

Definition sample_drive : Handler → option Handler := λ hd, Some hd.
#[local] Instance sample_manager : ForkManager MultiForkHandler :=
  handler_manager sample_error sample_network sample_drive.
Lemma sample_ready : ready sample_network.
Proof. by intros fork. Qed.
#[local] Instance sample_laws : ForkManagerLaws MultiForkHandler :=
  handler_manager_laws sample_error sample_network sample_drive sample_ready.

Definition sample_room (c : Ctx MultiForkHandler) : bool :=
  (Z.of_nat (size (MultiFork.forks (manager c))) <? u64_max) &&
  (Z.of_nat (length (forks (inner (backend c)))) <? u256_max).
Lemma sample_room_ok c : sample_room c = true → room c.
Proof. intros [?%Z.ltb_lt ?%Z.ltb_lt]%andb_prop. by split. Qed.

Definition sample_journal (l : list (Z * Z)) (d : Z) : JournaledState :=
  mkJournaledState (list_to_map ((λ '(a, x), (a, sample_account x)) <$> l)) [] d (tt : JournalRest).
Definition sample_backend : Backend := in_memory (initial_inner sample_spec).
Definition sample_start : Ctx MultiForkHandler :=
  mkCtx handler_new sample_backend (sample_env 1) (sample_journal [(50, 5)] 1).

(** Two forks; the first is selected; its block is rolled and an account
    changed. *)
Definition sample_steps : list (Step (M := MultiForkHandler)) :=
  [CreateFork_1 77 "http://node" 200; CreateFork_1 77 "http://node" 100;
   SelectFork 77 false 0; SnapshotState;
   EvmRuns (sample_env 999) (sample_journal [(50, 6); (60, 8); (77, 9)] 2)].
Definition run_sample (l : list (Step (M := MultiForkHandler))) : Ctx MultiForkHandler :=
  default sample_start (run_steps l sample_start).

Lemma handler_new_idle : fm_ok handler_new.
Proof. split; [apply handler_new_ok|done]. Qed.

Lemma run_sample_wf l :
  admissible_check sample_room l sample_start = true → wf (run_sample l).
Proof.
  intros Hl. destruct (steps_safe l sample_start) as (c & Hr & Hwf).
  - apply initial_wf, handler_new_idle.
  - by apply (admissible_by_check sample_room _ sample_room_ok).
  - unfold run_sample. by rewrite Hr.
Qed.

Lemma sample_admissible : admissible_check sample_room sample_steps sample_start = true.
Proof. vm_compute. reflexivity. Qed.

Lemma backend_steps_safe_witness :
  ∃ c', run_steps sample_steps sample_start = Some c' ∧ wf c'.
Proof.
  apply (backend_steps_safe sample_spec handler_new handler_new None sample_backend
    (sample_env 1) (sample_journal [(50, 5)] 1) sample_steps).
  - apply handler_new_idle.
  - vm_compute. reflexivity.
  - reflexivity.
  - apply (admissible_by_check sample_room _ sample_room_ok). apply sample_admissible.
Defined.

Definition after {A} (m : call MultiForkHandler A) (c : Ctx MultiForkHandler)
    : Ctx MultiForkHandler := default c (fst <$> m c).

Lemma after_wf {A} (m : call MultiForkHandler A) c : safe m c → wf (after m c).
Proof. intros (c' & r & Hm & Hwf). unfold after. by rewrite Hm. Qed.

(** In the first fork at block 999; over to the second, where the EVM writes
    the account 60, and back. *)
Definition at_first : Ctx MultiForkHandler := run_sample sample_steps.
Definition at_second : Ctx MultiForkHandler := after (select_fork 1) at_first.
Definition backend_written : Backend :=
  default (backend at_second) (insert_account_info 60 (sample_info 1) (backend at_second)).
Definition back_at_first : Ctx MultiForkHandler :=
  after (select_fork 0) (mkCtx (manager at_second) backend_written (env at_second) (journal at_second)).

Lemma at_first_wf : wf at_first.
Proof. apply run_sample_wf, sample_admissible. Qed.
Lemma at_second_wf : wf at_second.
Proof. apply after_wf, select_safe, at_first_wf. Qed.

Lemma select_round_trip_witness :
  state (journal back_at_first) !! 60 = state (journal at_first) !! 60 ∧
  number (block_env (env at_second)) = 100 ∧ number (block_env (env back_at_first)) = 999.
Proof.
  destruct (select_round_trip at_first at_second back_at_first (manager at_second)
    (env at_second) (journal at_second) backend_written 0 1 0 "http://node@0xc8") as (Hs & Hn & _ & _).
  - apply at_first_wf.
  - vm_compute. reflexivity.
  - discriminate.
  - vm_compute. reflexivity.
  - vm_compute. reflexivity.
  - eapply rtc_once, insert_account_info_step with (a := 60) (x := (sample_info 1 : AccountInfo (Bytecode (RevmTypes := sample_revm_types)))).
    vm_compute. reflexivity.
  - apply (proj1 at_second_wf).
  - by intros f Hf.
  - reflexivity.
  - vm_compute. reflexivity.
  - split_and!; [apply Hs|vm_compute; reflexivity|rewrite Hn; vm_compute; reflexivity].
    all: vm_compute; discriminate.
Defined.

Lemma select_carries_persistent_witness :
  active_fork_ids (backend at_second) = Some (1, 1%nat) ∧ depth (journal at_second) = 2 ∧
  ∃ acc', state (journal at_second) !! 77 = Some acc' ∧ carried (sample_account 9) acc'.
Proof.
  destruct (select_carries_persistent at_first at_second 1) as (Ha & Hd & Hp).
  - apply at_first_wf.
  - vm_compute. reflexivity.
  - vm_compute. reflexivity.
  - split_and!; [exact Ha|exact Hd|]. apply (Hp 77 (sample_account 9)); vm_compute; reflexivity.
Defined.

Definition rolled_first : Ctx MultiForkHandler := after (roll_fork None 201) at_first.

Lemma roll_keeps_persistent_witness :
  (∃ acc', state (journal rolled_first) !! 77 = Some acc' ∧ arrived (sample_account 9) acc') ∧
  state (journal rolled_first) !! 60 = Some (sample_account 100).
Proof.
  destruct (roll_keeps_persistent at_first rolled_first 201) as [Hk Hf].
  - apply at_first_wf.
  - apply sample_room_ok. vm_compute. reflexivity.
  - vm_compute. by eexists.
  - vm_compute. reflexivity.
  - split.
    + apply (Hk 77 (sample_account 9)); [by vm_compute|vm_compute; reflexivity].
    + destruct (Hf 60 (sample_account 8)) as (j & d & Hj & ->);
        [by vm_compute|vm_compute; reflexivity|reflexivity|].
      assert (Hi : state (fork_init_journaled_state (backend at_first)) !! 60 = None) by
        (vm_compute; reflexivity).
      simpl. rewrite Hj, Hi. simpl. apply lookup_insert_eq.
Defined.

(** The snapshot of [sample_steps], taken when the first fork was selected. *)
Definition before_snapshot : Ctx MultiForkHandler := run_sample (take 3 sample_steps).
Lemma before_snapshot_wf : wf before_snapshot.
Proof. apply run_sample_wf. vm_compute. reflexivity. Qed.

Lemma snapshot_restored_witness :
  ∃ c3 j, revert_state 0 RevertKeep at_second = Some (c3, Ok (Some j)) ∧
    active_fork_ids (backend c3) = Some (0, 0%nat) ∧
    state j !! 50 = state (journal before_snapshot) !! 50 ∧ number (block_env (env c3)) = 200.
Proof.
  destruct (snapshot_restored before_snapshot (after snapshot_state before_snapshot) at_second 0
    RevertKeep) as (c3 & j & Hr & _ & _ & _ & Hst & Hb & _ & Ha & _).
  - apply before_snapshot_wf.
  - vm_compute. reflexivity.
  - apply at_second_wf.
  - vm_compute. reflexivity.
  - exists c3, j. split_and!; [exact Hr| |apply Hst; left; vm_compute; discriminate|].
    + revert Ha. vm_compute. by intros [? _].
    + rewrite Hb. vm_compute. reflexivity.
Defined.

(** A snapshot in memory, then a fork. *)
Definition memory_then_fork : list (Step (M := MultiForkHandler)) :=
  [SnapshotState; CreateSelectFork_1 77 false "http://node" 200].
Lemma memory_then_fork_wf : wf (run_sample memory_then_fork).
Proof. apply run_sample_wf. vm_compute. reflexivity. Qed.

Lemma memory_snapshot_keeps_fork_witness :
  ∃ c3 j, revert_state 0 RevertRemove (run_sample memory_then_fork) = Some (c3, Ok (Some j)) ∧
    active_fork_ids (backend c3) = Some (0, 0%nat).
Proof.
  destruct (memory_snapshot_keeps_fork sample_start (after snapshot_state sample_start)
    (run_sample memory_then_fork) 0 0 0 RevertRemove) as (c3 & j & Hr & _ & Ha).
  - apply initial_wf, handler_new_idle.
  - reflexivity.
  - vm_compute. reflexivity.
  - apply memory_then_fork_wf.
  - vm_compute. reflexivity.
  - vm_compute. reflexivity.
  - exists c3, j. split; [exact Hr|exact Ha].
Defined.
