(* ===== verification/ForkTxProofs.v ===== *)
(** * Transactions on forks: what is replayed and what changes

    Replaying commits the transactions of the block before the target, without
    those of the system; the accounts marked persistent keep their state; the
    environment of the call takes the block of the transaction even when the
    fork that is rolled is not the active one. *)
From stdpp Require Import base list gmap strings.
From Stdlib Require Import ZArith Lia.
From S2P Require Import Prelude Containers StateDb Snapshots MultiFork MultiForkProofs ForkState.
From S2P Require Import ForkBackend ForkTx ForkManager ForkSelect ForkCalls ForkSample.
#[local] Open Scope list_scope.
#[local] Abbreviation Address := Z (only parsing).

Section proofs.
Context `{!ForkTypes, !RevmTypes, !RevmDb, !HashOrder Address, !RpcTypes, !RpcDb}.
Context {Inspector : Type} `{!ForkEvm Inspector}.
Context {M : Type} `{!ForkManager M, !ForkManagerLaws M} (default_spec : SpecId).
Implicit Types (c : Ctx M) (j : JournaledState) (f : Fork).

(** ** Persistent accounts *)
Lemma update_accounts_keeps {Ext} p l x : ∀ s (d : CachedDb Ext) s' d' r,
  (x ∈ p ∨ x ∉ l.*1) → update_accounts s d (Some p) l = (s', d', r) → s' !! x = s !! x.
Proof.
  induction l as [|[a acc] l IH]; intros s d s' d' r Hx; cbn [update_accounts].
  { by intros [= <- <- <-]. }
  assert (Hx' : x ∈ p ∨ x ∉ l.*1).
  { destruct Hx as [?|Hx]; [by left|]. right. intros ?. apply Hx. by apply list_elem_of_further. }
  case_bool_decide as Ha; [by apply IH|].
  assert (Hne : x ≠ a).
  { destruct Hx as [Hx|Hx]; [congruence|]. intros ->. apply Hx. apply list_elem_of_here. }
  destruct (update_account d a acc) as [[d1 acc1] [[]|er]].
  - intros Hu. rewrite (IH _ _ _ _ _ Hx' Hu). by rewrite lookup_insert_ne.
  - intros [= <- <- <-]. by rewrite lookup_insert_ne.
Qed.

Lemma update_state_keeps {Ext} (p : gset Address) x s (d : CachedDb Ext) s' d' r :
  x ∈ p → update_state s d (Some p) = (s', d', r) → s' !! x = s !! x.
Proof. intros Hx. apply update_accounts_keeps. by left. Qed.

Lemma apply_changeset_keeps changes j f (p : gset Address) j' f' r x :
  x ∈ p → apply_state_changeset changes j f p = (j', f', r) →
  state j' !! x = state j !! x ∧
  state (journaled_state f') !! x = state (journaled_state f) !! x.
Proof.
  intros Hx. unfold apply_state_changeset.
  destruct (update_state (state j) _ _) as [[s1 d1] r1] eqn:Hu1. destruct r1 as [[]|er].
  - destruct (update_state (state (journaled_state f)) _ _) as [[s2 d2] r2] eqn:Hu2.
    intros [= <- <- <-]. simpl.
    split; [exact (update_state_keeps p x _ _ _ _ _ Hx Hu1)|exact (update_state_keeps p x _ _ _ _ _ Hx Hu2)].
  - intros [= <- <- <-]. simpl. split; [exact (update_state_keeps p x _ _ _ _ _ Hx Hu1)|done].
Qed.

Lemma commit_keeps tx e j f id (p : gset Address) (i : Inspector) e' j' f' i' r x :
  x ∈ p → commit_transaction default_spec tx e j f id p i = Some (e', j', f', i', r) →
  state j' !! x = state j !! x ∧
  state (journaled_state f') !! x = state (journaled_state f) !! x.
Proof.
  intros Hx. unfold commit_transaction. destruct (configure_tx_env e tx) as [e1|]; [|done].
  cbn [mbind option_bind]. destruct (evm_transact _ _ _ _) as [[ch|er] i1].
  - destruct (apply_state_changeset ch j f p) as [[j1 f1] r1] eqn:Ha.
    intros [= <- <- <- <- <-]. by eapply apply_changeset_keeps.
  - by intros [= <- <- <- <- <-].
Qed.

(** ** The reference: what a replay commits *)
Fixpoint before_target (txs : list RpcTx) (target : Z) : list RpcTx * option RpcTx :=
  match txs with
  | [] => ([], None)
  | tx :: txs =>
      if bool_decide (tx_hash tx = target) then ([], Some tx)
      else let '(l, r) := before_target txs target in (tx :: l, r)
  end.

Fixpoint commit_all (txs : list RpcTx) e j f id p
    : option (JournaledState * Fork * result ForkError unit) :=
  match txs with
  | [] => Some (j, f, Ok tt)
  | tx :: txs =>
      '(e, j, f, _, r) ← commit_transaction default_spec tx e j f id p (no_op : Inspector);
      match r with
      | Ok _ => commit_all txs e j f id p
      | Err er => Some (j, f, Err er)
      end
  end.

Lemma commit_all_keeps txs id (p : gset Address) x : ∀ e j f j' f' r,
  x ∈ p → commit_all txs e j f id p = Some (j', f', r) →
  state j' !! x = state j !! x ∧
  state (journaled_state f') !! x = state (journaled_state f) !! x.
Proof.
  induction txs as [|tx txs IH]; intros e j f j' f' r Hx; cbn [commit_all].
  { by intros [= <- <- <-]. }
  destruct (commit_transaction _ tx e j f id p no_op) as [[[[[e1 j1] f1] i1] r1]|] eqn:Hc; [|done].
  cbn [mbind option_bind].
  destruct (commit_keeps _ _ _ _ _ _ _ _ _ _ _ _ x Hx Hc) as [<- <-].
  destruct r1 as [[]|er]; [by apply IH|by intros [= <- <- <-]].
Qed.

Lemma before_target_found (l : list RpcTx) tx rest target :
  tx_hash tx = target → Forall (λ t, tx_hash t ≠ target) l → before_target (l ++ tx :: rest) target = (l, Some tx).
Proof.
  intros Ht Hl. induction Hl as [|x l Hx Hl IH]; cbn [app before_target].
  - by rewrite bool_decide_true.
  - by rewrite bool_decide_false, IH.
Qed.
Lemma before_target_absent (l : list RpcTx) target :
  Forall (λ t, tx_hash t ≠ target) l → before_target l target = (l, None).
Proof. induction 1 as [|x l Hx Hl IH]; cbn [before_target]; [done|]. by rewrite bool_decide_false, IH. Qed.

Lemma replay_before_target (txs : list RpcTx) (target : Z) (e : Env) j f (id : ForkId) (p : gset Address) :
  let '(l, found) := before_target (filter (λ tx, is_system_tx tx = false) txs) target in
  replay_txs (Inspector := Inspector) default_spec txs target e j f id p =
    ('(j', f', r) ← commit_all l e j f id p;
     Some (j', f', match r with Ok _ => Ok found | Err er => Err er end)).
Proof.
  destruct (before_target _ _) as [l found] eqn:Hl.
  revert l found Hl e j f. induction txs as [|tx txs IH]; intros l found Hl e j f.
  { injection Hl as <- <-. done. }
  cbn [replay_txs]. destruct (is_system_tx tx) eqn:Hs.
  { rewrite filter_cons_False in Hl by congruence. by apply IH. }
  rewrite filter_cons_True in Hl by done. cbn [before_target] in Hl.
  case_bool_decide as Ht; [by injection Hl as <- <-|].
  destruct (before_target (filter _ txs) target) as [l1 r1] eqn:Hl1. injection Hl as <- <-.
  cbn [commit_all].
  destruct (commit_transaction _ tx e j f id p no_op) as [[[[[e1 j1] f1] i1] r]|]; [|done].
  cbn [mbind option_bind]. destruct r as [[]|er]; [by apply IH|done].
Qed.

(** C26: Replaying a block skips its system transactions.  Of the others it
    commits those before the transaction asked for, in order, with the
    environment of each configured over that of the previous one, stops at the
    first failure, and returns the target without committing it.  If the
    target is not among them, because the block does not hold it or because it
    is a system transaction itself, the whole block is committed and no
    transaction is returned.  Every persistent account of both journals is
    left as it was. *)
Theorem replay_commits_prefix (txs : list RpcTx) (target : Z) (e : Env) j f (id : ForkId)
    (p : gset Address) :
  let counted := filter (λ tx, is_system_tx tx = false) txs in
  (∀ l tx rest, counted = l ++ tx :: rest → tx_hash tx = target → Forall (λ t, tx_hash t ≠ target) l →
     replay_txs (Inspector := Inspector) default_spec txs target e j f id p =
       ('(j', f', r) ← commit_all l e j f id p;
        Some (j', f', match r with Ok _ => Ok (Some tx) | Err er => Err er end))) ∧
  (Forall (λ t, tx_hash t ≠ target) counted →
     replay_txs (Inspector := Inspector) default_spec txs target e j f id p =
       ('(j', f', r) ← commit_all counted e j f id p;
        Some (j', f', match r with Ok _ => Ok None | Err er => Err er end))) ∧
  ∀ j' f' r, replay_txs (Inspector := Inspector) default_spec txs target e j f id p =
    Some (j', f', r) →
    ∀ x, x ∈ p → state j' !! x = state j !! x ∧
      state (journaled_state f') !! x = state (journaled_state f) !! x.
Proof.
  intros counted. pose proof (replay_before_target txs target e j f id p) as Heq. fold counted in Heq. split_and!.
  - intros l tx rest Hc Ht Hl. by rewrite Hc, before_target_found in Heq.
  - intros Hc. by rewrite before_target_absent in Heq.
  - intros j' f' r. destruct (before_target counted target) as [l found]. rewrite Heq.
    destruct (commit_all l e j f id p) as [[[j1 f1] r1]|] eqn:Hc; [|done]. cbn.
    intros [= <- <- _] x Hx. by eapply commit_all_keeps.
Qed.

(** ** Rolling to a transaction *)
Lemma run_bind_Ok {A B} (m : call M A) (g : A → call M B) c c' y :
  (m ≫= g) c = Some (c', Ok y) → ∃ c1 a, m c = Some (c1, Ok a) ∧ g a c1 = Some (c', Ok y).
Proof.
  rewrite run_bind. destruct (m c) as [[c1 [a|er]]|]; [|done..]. intros Hg. by exists c1, a.
Qed.

Lemma get_block_same c id tx c' r :
  get_block_number_and_block_for_transaction id tx c = Some (c', r) → c' = c.
Proof.
  unfold get_block_number_and_block_for_transaction. call_step.
  destruct (ensure_fork_index_by_local_id _ id) as [idx|]; call_step; [|congruence].
  destruct (get_fork _ idx) as [f|]; [|done]. call_step.
  destruct (lift_rpc (get_transaction _ tx)) as [t|]; call_step; [|congruence].
  destruct (tx_block_number t) as [n|].
  - destruct (lift_rpc (get_full_block _ (Some n))) as [blk|]; call_step; [|congruence].
    destruct (checked u64_max (n - 1)); [|done]. call_step. congruence.
  - destruct (lift_rpc (get_full_block _ None)) as [blk|]; call_step; congruence.
Qed.

Lemma replay_until_same c id e tx c' r :
  replay_until (Inspector := Inspector) default_spec id e tx c = Some (c', r) →
  env c' = env c ∧ active_fork_ids (backend c') = active_fork_ids (backend c).
Proof.
  unfold replay_until. call_step.
  destruct (ensure_fork_id _ id) as [fid|]; call_step; [|by intros [= <- _]].
  destruct (ensure_fork_index_by_local_id _ id) as [idx|]; call_step; [|by intros [= <- _]].
  destruct (get_fork _ idx) as [f|]; [|done]. call_step.
  destruct (lift_rpc (get_full_block _ _)) as [blk|]; call_step; [|by intros [= <- _]].
  destruct (replay_txs _ _ _ _ _ _ _ _) as [[[j f'] r']|]; [|done]. call_step.
  destruct (set_fork _ idx f') as [i|]; [|done]. call_step. by intros [= <- _].
Qed.

(** C40: Rolling a fork that is not active to a transaction changes the
    environment of the running call, whose fork stays active: the call sees the
    block number and the timestamp of the other fork's transaction. *)
Theorem roll_to_tx_changes_env c c' (id : LocalForkId) (tx : Z) :
  wf c → room c → active_fork_id (backend c) ≠ Some id →
  roll_fork_to_transaction (Inspector := Inspector) default_spec (Some id) tx c = Some (c', Ok tt) →
  active_fork_ids (backend c') = active_fork_ids (backend c) ∧
  ∃ n blk, get_block_number_and_block_for_transaction id tx c = Some (c, Ok (n, blk)) ∧
    number (block_env (env c')) = header_number blk ∧
    timestamp (block_env (env c')) = header_timestamp blk.
Proof.
  intros Hwf Hroom Hna. unfold roll_fork_to_transaction. call_step.
  destruct (ensure_fork (backend c) (Some id)) as [id'|] eqn:He; call_step; [|done].
  assert (id' = id) as ->.
  { unfold ensure_fork in He. case_bool_decide; [by injection He as <-|done]. }
  destruct (get_block_number_and_block_for_transaction id tx c) as [[c1 [[n blk]|er]]|] eqn:Hb;
    [|done..].
  pose proof (get_block_same _ _ _ _ _ Hb) as ->. call_step.
  destruct (roll_fork_spec c (Some id) n Hwf Hroom) as (c2 & r & Hr & _ & _ & Ha & _).
  rewrite Hr. destruct r as [[]|er]; [|done]. call_step.
  destruct (ensure_fork_id (backend c2) id) as [fid|]; call_step; [|done].
  destruct (fm_update_block_env _ _ _) as [m' r']. call_step.
  destruct (replay_until _ _ _ _ _) as [[c3 [t|er]]|] eqn:Hrep; [|done..]. call_step.
  intros [= <-]. destruct (replay_until_same _ _ _ _ _ _ Hrep) as [Henv Ha3]. simpl in Henv, Ha3.
  split; [congruence|]. exists n, blk. rewrite Henv. done.
Qed.
End proofs.

(** ** A block of three transactions

    Block [n] holds the transactions [10 n + 1], [10 n + 2] and [10 n + 3], of
    which the first is the system's. *)
#[local] Existing Instance sample_fork_types.
#[local] Existing Instance sample_revm_types.
#[local] Existing Instance sample_revm.
#[local] Existing Instance sample_order.
#[local] Existing Instance sample_manager.
#[local] Existing Instance sample_laws.

#[local] Instance sample_rpc_types : RpcTypes :=
  {| RpcTx := Z; RpcBlock := Z; AccessList := unit; AuthorizationList := unit |}.
#[local] Instance sample_rpc : RpcDb := {|
  tx_hash t := t;
  tx_block_number t := Some (t / 10);
  tx_signer t := if t mod 10 =? 1 then ARBITRUM_SENDER else 5;
  tx_ty t := 2;
  tx_from t := 5;
  tx_request t := None;
  block_txs b := [10 * b + 1; 10 * b + 2; 10 * b + 3];
  header_timestamp b := 12 * b;
  header_beneficiary b := 0;
  header_difficulty b := 0;
  header_mix_hash b := None;
  header_base_fee b := Some 7;
  header_gas_limit b := 30000000;
  header_number b := b;
  header_excess_blob_gas b := None;
  get_transaction s t := Ok t;
  get_full_block s n := Ok (default 255 n);
  hardfork_at c t := None;
  default_hardfork := Prague;
  BlobParams := Z;
  cancun := 0; prague := 1; osaka := 2; bpo1 := 3; bpo2 := 4;
  update_fraction p := p;
  blob_price x y := (tt : @BlobPrice sample_fork_types);
  set_tx_fields x r := r;
  default_access_list := tt : AccessList;
  default_authorization_list := tt : AuthorizationList;
|}.
(** Each transaction increments the balance of account 9. *)
#[local] Instance sample_evm : ForkEvm unit := {|
  evm_transact b e d i := (Ok {[ 9 := sample_account d ]}, i);
  no_op := tt;
|}.

Definition block_9 : list RpcTx := block_txs (9 : RpcBlock).
(** Of the block 9 the first transaction is a system's.  Up to its third one
    the second is committed; asked for the first, all but itself are. *)
Definition replay_sample (target : Z) (f : Fork) :=
  replay_txs (Inspector := unit) sample_spec block_9 target (sample_env 1) (journal at_first) f "fork" ∅.
Lemma replay_commits_prefix_witness :
  match get_fork (inner (backend at_first)) 0 with
  | Some f =>
      replay_sample 93 f =
        ('(j, f, r) ← commit_all (Inspector := unit) sample_spec [92] (sample_env 1) (journal at_first) f "fork" ∅;
         Some (j, f, match r with Ok _ => Ok (Some 93) | Err er => Err er end)) ∧
      replay_sample 91 f =
        ('(j, f, r) ← commit_all (Inspector := unit) sample_spec [92; 93] (sample_env 1) (journal at_first) f "fork" ∅;
         Some (j, f, match r with Ok _ => Ok None | Err er => Err er end))
  | None => False
  end.
Proof.
  destruct (get_fork (inner (backend at_first)) 0) as [f|] eqn:Hf; [|by vm_compute in Hf]. split.
  - destruct (replay_commits_prefix (Inspector := unit) sample_spec block_9 93 (sample_env 1) (journal at_first) f "fork" ∅)
      as (Hfound & _).
    apply (Hfound [92] 93 []); [reflexivity|reflexivity|by repeat constructor].
  - destruct (replay_commits_prefix (Inspector := unit) sample_spec block_9 91 (sample_env 1) (journal at_first) f "fork" ∅)
      as (_ & Habsent & _).
    apply Habsent. by repeat constructor.
Defined.

(** The first fork is active; the second is rolled to a transaction of its
    block 90. *)
Definition rolled_second : Ctx MultiForkHandler :=
  after (roll_fork_to_transaction (Inspector := unit) sample_spec (Some 1) 903) at_first.

Lemma roll_to_tx_changes_env_witness :
  active_fork_ids (backend rolled_second) = Some (0, 0%nat) ∧
  number (block_env (env at_first)) = 999 ∧ number (block_env (env rolled_second)) = 90.
Proof.
  destruct (roll_to_tx_changes_env (Inspector := unit) sample_spec at_first rolled_second 1 903)
    as (Ha & n & blk & Hb & Hn & _).
  - apply at_first_wf.
  - apply sample_room_ok. vm_compute. reflexivity.
  - vm_compute. discriminate.
  - vm_compute. reflexivity.
  - split_and!; [exact Ha|vm_compute; reflexivity|]. rewrite Hn. revert Hb. vm_compute. congruence.
Defined.
