(* ===== verification/FoldedTrace.v ===== *)
(** * Folded stack traces: evm/traces/src/folded_stack_trace.rs

    [FoldedStackTraceBuilder] turns a sequence of entering and leaving
    functions into the lines of a flame graph: the path of names and the gas a
    function used by itself.  [EvmFoldedStackTraceBuilder] feeds it from the
    arena of a call trace, which revm-inspectors records; the fields of a node
    that are read here are a record, the printing of a selector a parameter. *)
From stdpp Require Import base list strings pretty.
From Stdlib Require Import ZArith Lia.
From S2P Require Import Prelude.
#[local] Open Scope list_scope.

(** ** The builder *)
Definition wrap_i64 (z : Z) : Z := wrap_signed 64 z.

Record TraceEntry := mkTraceEntry { names : list string; gas : Z }.
Record FoldedStackTraceBuilder := mkBuilder { traces : list TraceEntry; exits : nat }.

Definition fst_default : FoldedStackTraceBuilder := mkBuilder [] 0.

Fixpoint pop_names (exits : nat) (l : list string) : list string :=
  match exits with O => l | S exits => pop_names exits (removelast l) end.

Definition enter (b : FoldedStackTraceBuilder) (label : string) (g : Z)
    : FoldedStackTraceBuilder :=
  let l := match last (traces b) with Some entry => names entry | None => [] end in
  mkBuilder (traces b ++ [mkTraceEntry (pop_names (exits b) l ++ [label]) g]) 0.

Definition exit (b : FoldedStackTraceBuilder) : FoldedStackTraceBuilder :=
  mkBuilder (traces b) (S (exits b)).

(** [parent.gas -= gas] for the first entry that is called [parent]. *)
Fixpoint charge (parent : list string) (g : Z) (l : list TraceEntry) : list TraceEntry :=
  match l with
  | [] => []
  | e :: l =>
      if bool_decide (names e = parent) then mkTraceEntry (names e) (wrap_i64 (gas e - g)) :: l
      else e :: charge parent g l
  end.

Definition subtract_child (left : list TraceEntry) (child : TraceEntry) : list TraceEntry :=
  if bool_decide (1 < length (names child))%nat
  then reverse (charge (removelast (names child)) (gas child) (reverse left))
  else left.

(** The loop over the vector, split at the current entry. *)
Fixpoint subtract_loop (left todo : list TraceEntry) : list TraceEntry :=
  match todo with
  | [] => left
  | child :: todo => subtract_loop (subtract_child left child ++ [child]) todo
  end.
Definition subtract_children (b : FoldedStackTraceBuilder) : FoldedStackTraceBuilder :=
  mkBuilder (subtract_loop [] (traces b)) (exits b).

Definition line (e : TraceEntry) : string :=
  String.concat ";" (names e) +:+ " " +:+ pretty (gas e).
Definition build_without_subtraction (b : FoldedStackTraceBuilder) : list string :=
  line <$> traces b.
Definition fst_build (b : FoldedStackTraceBuilder) : list string :=
  build_without_subtraction (subtract_children b).

(** ** The call trace *)
Section evm.
Context {Selector : Type} (encode_hex_with_prefix : Selector → string).

Record DecodedCallTrace := mkDecoded { label : option string; call_data : option string }.
Inductive DecodedTraceStep := InternalCall (func_name : string) (step_end : nat) | Line (text : string).
Record CallTraceStep := mkStep { step_gas_used : Z; step_decoded : option DecodedTraceStep }.
Inductive TraceMemberOrder := OCall (i : nat) | OStep (i : nat) | OLog (i : nat).
Record CallTraceNode := mkNode {
  is_any_create : bool; selector : option Selector; decoded : option DecodedCallTrace;
  gas_used : Z; steps : list CallTraceStep; children : list nat;
  ordering : list TraceMemberOrder;
}.

Definition func_name (n : CallTraceNode) : string :=
  let node_label := decoded n ≫= label in
  if is_any_create n then "new " +:+ default "Contract" node_label
  else
    let sel := from_option encode_hex_with_prefix "fallback" (selector n) in
    let signature := default sel (decoded n ≫= call_data) in
    match node_label with
    | Some l => l +:+ "." +:+ signature
    | None => signature
    end.

(** [None] is an index out of range. *)
Definition process_step (b : FoldedStackTraceBuilder) (steps : list CallTraceStep) (i : nat)
    (step_exits : list nat) : option (FoldedStackTraceBuilder * list nat) :=
  step ← steps !! i;
  match step_decoded step with
  | Some (InternalCall f step_end) =>
      last_step ← steps !! step_end;
      Some (enter b f (wrap_i64 (saturating_sub (step_gas_used last_step) (step_gas_used step))),
            step_exits ++ [step_end])
  | _ => Some (b, step_exits)
  end.

Definition exit_many (n : nat) (b : FoldedStackTraceBuilder) : FoldedStackTraceBuilder :=
  Nat.iter n exit b.

Definition exit_previous_steps (b : FoldedStackTraceBuilder) (step_exits : list nat) (i : nat)
    : FoldedStackTraceBuilder * list nat :=
  let kept := filter (λ number, i < number)%nat step_exits in
  (exit_many (length step_exits - length kept) b, kept).

(** A member of a node; [call] processes a child. *)
Definition process_member (call : nat → FoldedStackTraceBuilder → option FoldedStackTraceBuilder)
    (n : CallTraceNode) (st : FoldedStackTraceBuilder * list nat) (o : TraceMemberOrder)
    : option (FoldedStackTraceBuilder * list nat) :=
  let '(b, step_exits) := st in
  match o with
  | OCall i => idx ← children n !! i; b ← call idx b; Some (b, step_exits)
  | OStep i =>
      let '(b, step_exits) := exit_previous_steps b step_exits i in
      process_step b (steps n) i step_exits
  | OLog _ => Some (b, step_exits)
  end.

(** The recursion descends the arena: [fuel] bounds the depth of calls. *)
Fixpoint process_call_node (fuel : nat) (nodes : list CallTraceNode) (idx : nat)
    (b : FoldedStackTraceBuilder) : option FoldedStackTraceBuilder :=
  match fuel with
  | O => None
  | S fuel =>
      n ← nodes !! idx;
      let b := enter b (func_name n) (wrap_i64 (gas_used n)) in
      '(b, step_exits) ← fold_m (process_member (process_call_node fuel nodes) n) (b, []) (ordering n);
      Some (exit (exit_many (length step_exits) b))
  end.

Definition build_builder (nodes : list CallTraceNode) : option FoldedStackTraceBuilder :=
  process_call_node (length nodes) nodes 0 fst_default.
Definition build (nodes : list CallTraceNode) : option (list string) :=
  fst_build <$> build_builder nodes.
End evm.
Arguments mkNode {Selector} _ _ _ _ _ _ _.
Arguments CallTraceNode Selector : clear implicits.

(** ** What a folded stack trace is

    The specification is a forest of frames in their order of entry; a line is
    the path of a frame and the gas it used without its callees.  Whatever the
    arena, the builder's events are balanced, so that the lines are those of a
    forest and their gas adds up to that of the root. *)
(** A forest: its first frame with the frames below it, and the frames after. *)
Inductive Forest :=
| Done
| Frame (label : string) (g : Z) (body rest : Forest).

Fixpoint events (f : Forest) (b : FoldedStackTraceBuilder) : FoldedStackTraceBuilder :=
  match f with
  | Done => b
  | Frame l g body rest => events rest (exit (events body (enter b l g)))
  end.

Fixpoint total (f : Forest) : Z :=
  match f with Done => 0 | Frame _ g _ rest => g + total rest end.

(** The entries below the path, with the gas of the whole frame, and of the
    frame without its callees. *)
Fixpoint gross (path : list string) (f : Forest) : list TraceEntry :=
  match f with
  | Done => []
  | Frame l g body rest =>
      mkTraceEntry (path ++ [l]) g :: gross (path ++ [l]) body ++ gross path rest
  end.
Fixpoint net (path : list string) (f : Forest) : list TraceEntry :=
  match f with
  | Done => []
  | Frame l g body rest =>
      mkTraceEntry (path ++ [l]) (wrap_i64 (g - total body)) :: net (path ++ [l]) body ++ net path rest
  end.

Definition in_i64 (z : Z) : Prop := wrap_i64 z = z.
Fixpoint gas_fits (f : Forest) : Prop :=
  match f with
  | Done => True
  | Frame _ g body rest => in_i64 g ∧ gas_fits body ∧ gas_fits rest
  end.

(** ** Entering and leaving *)
Definition path (b : FoldedStackTraceBuilder) : list string :=
  pop_names (exits b) (match last (traces b) with Some entry => names entry | None => [] end).

Lemma pop_names_S n l : pop_names (S n) l = removelast (pop_names n l).
Proof. revert l. induction n as [|n IH]; intros l; [done|]. simpl in *. by rewrite <- IH. Qed.

Lemma path_enter b l g : path (enter b l g) = path b ++ [l].
Proof. unfold path, enter. simpl. by rewrite last_snoc. Qed.
Lemma path_exit b : path (exit b) = removelast (path b).
Proof. unfold path, exit. cbn [exits traces]. by rewrite pop_names_S. Qed.

Lemma events_spec f b :
  path (events f b) = path b ∧ traces (events f b) = traces b ++ gross (path b) f.
Proof.
  revert b. induction f as [|l g body IHb rest IHr]; intros b; simpl.
  { by rewrite app_nil_r. }
  destruct (IHb (enter b l g)) as [Hp Ht]. rewrite path_enter in Hp, Ht.
  destruct (IHr (exit (events body (enter b l g)))) as [Hp' Ht'].
  rewrite path_exit, Hp, removelast_last in Hp', Ht'. split; [done|].
  rewrite Ht'. simpl. rewrite Ht. simpl. by rewrite <- !(assoc_L (++)).
Qed.

(** ** Subtracting *)
Definition clear_of (p : list string) (l : list TraceEntry) : Prop := Forall (λ e, names e ≠ p) l.

Lemma charge_app p g l1 l2 : clear_of p l1 → charge p g (l1 ++ l2) = l1 ++ charge p g l2.
Proof.
  induction 1 as [|e l He _ IH]; simpl; [done|]. rewrite bool_decide_false by done. by rewrite IH.
Qed.

(** The parent is the last entry with its path. *)
Lemma subtract_child_spec pre e post l g :
  names e ≠ [] → clear_of (names e) post →
  subtract_child (pre ++ e :: post) (mkTraceEntry (names e ++ [l]) g)
  = pre ++ mkTraceEntry (names e) (wrap_i64 (gas e - g)) :: post.
Proof.
  intros Hne Hpost. unfold subtract_child. cbn [names gas]. rewrite removelast_last.
  rewrite bool_decide_true.
  2: { rewrite length_app. destruct (names e); [done|simpl; lia]. }
  rewrite reverse_app, reverse_cons, <- (assoc_L (++)), charge_app.
  - cbn [charge app]. rewrite bool_decide_true by done.
    rewrite reverse_app, reverse_cons, !reverse_involutive. by rewrite <- (assoc_L (++)).
  - apply Forall_forall. intros x Hx. rewrite elem_of_reverse in Hx.
    by eapply Forall_forall in Hpost.
Qed.

Lemma gross_below p f : Forall (λ e, length p < length (names e))%nat (gross p f).
Proof.
  revert p. induction f as [|l g body IHb rest IHr]; intros p; simpl; constructor.
  - simpl. rewrite length_app. simpl. lia.
  - apply Forall_app. split; [|done]. eapply Forall_impl; [apply IHb|].
    intros e. simpl. rewrite length_app. simpl. lia.
Qed.
Lemma net_below p f : Forall (λ e, length p < length (names e))%nat (net p f).
Proof.
  revert p. induction f as [|l g body IHb rest IHr]; intros p; simpl; constructor.
  - simpl. rewrite length_app. simpl. lia.
  - apply Forall_app. split; [|done]. eapply Forall_impl; [apply IHb|].
    intros e. simpl. rewrite length_app. simpl. lia.
Qed.
Lemma below_clear p l : Forall (λ e, length p < length (names e))%nat l → clear_of p l.
Proof. intros H. eapply Forall_impl; [apply H|]. intros e Hlt Hn. simpl in *. subst. lia. Qed.

Lemma wrap_i64_eq z : ∃ k, wrap_i64 z = z + k * 2 ^ 64.
Proof.
  exists (- ((z + 2 ^ (64 - 1)) / 2 ^ 64)). unfold wrap_i64, wrap_signed. rewrite Z.mod_eq by lia. lia.
Qed.
Lemma wrap_i64_add z k : wrap_i64 (z + k * 2 ^ 64) = wrap_i64 z.
Proof.
  unfold wrap_i64, wrap_signed.
  replace (z + k * 2 ^ 64 + 2 ^ (64 - 1)) with (z + 2 ^ (64 - 1) + k * 2 ^ 64) by lia.
  by rewrite Z_mod_plus_full.
Qed.
Lemma wrap_i64_wrap_l a b : wrap_i64 (wrap_i64 a + b) = wrap_i64 (a + b).
Proof.
  destruct (wrap_i64_eq a) as [k ->]. replace (a + k * 2 ^ 64 + b) with (a + b + k * 2 ^ 64) by lia.
  apply wrap_i64_add.
Qed.
Lemma wrap_i64_wrap_r a b : wrap_i64 (a + wrap_i64 b) = wrap_i64 (a + b).
Proof. rewrite Z.add_comm, wrap_i64_wrap_l. f_equal. lia. Qed.
Lemma wrap_i64_fits z : in_i64 (wrap_i64 z).
Proof. unfold in_i64. pose proof (wrap_i64_wrap_l z 0) as H. rewrite !Z.add_0_r in H. done. Qed.

(** The frames below [e]. *)
Lemma subtract_below f pre e post more :
  gas_fits f → names e ≠ [] → in_i64 (gas e) → clear_of (names e) post →
  subtract_loop (pre ++ e :: post) (gross (names e) f ++ more)
  = subtract_loop (pre ++ mkTraceEntry (names e) (wrap_i64 (gas e - total f)) :: post ++ net (names e) f)
      more.
Proof.
  revert pre e post more. induction f as [|l g body IHb rest IHr]; intros pre e post more Hf Hne He Hpost.
  { simpl. rewrite Z.sub_0_r, app_nil_r, He. by destruct e. }
  destruct Hf as (Hg & Hb & Hr). cbn [gross app subtract_loop].
  rewrite subtract_child_spec, <- (assoc_L (++) (gross _ _)) by done.
  set (e1 := mkTraceEntry (names e) (wrap_i64 (gas e - g))).
  set (c := mkTraceEntry (names e ++ [l]) g).
  rewrite <- (assoc_L (++)). cbn [app]. rewrite (app_assoc pre (e1 :: post) [c] : pre ++ e1 :: post ++ [c] = _).
  change (names e ++ [l]) with (names c).
  rewrite (IHb (pre ++ e1 :: post) c []).
  2: done. 2: by destruct (names e). 2: done. 2: constructor.
  cbn [app]. rewrite <- (assoc_L (++) pre). cbn [app].
  change (names e) with (names e1). rewrite (IHr pre e1).
  2: done. 2: done. 2: apply wrap_i64_fits.
  2: { apply Forall_app. split; [done|]. apply (below_clear (names e1)). constructor.
       - simpl. rewrite length_app. simpl. lia.
       - eapply Forall_impl; [apply net_below|]. intros x. simpl. rewrite length_app. simpl. lia. }
  cbn [net total names gas e1 c]. f_equal. f_equal. f_equal.
  - f_equal. change (wrap_i64 (gas e - g) - total rest) with (wrap_i64 (gas e - g) + - total rest).
    rewrite wrap_i64_wrap_l. f_equal. lia.
  - by rewrite <- (assoc_L (++)).
Qed.

Lemma subtract_top f left more :
  gas_fits f → subtract_loop left (gross [] f ++ more) = subtract_loop (left ++ net [] f) more.
Proof.
  revert left more. induction f as [|l g body _ rest IHr]; intros left more Hf.
  { simpl. by rewrite app_nil_r. }
  destruct Hf as (Hg & Hb & Hr). cbn [gross app subtract_loop].
  change (subtract_child left (mkTraceEntry [l] g)) with left.
  rewrite <- (assoc_L (++) (gross _ _)).
  rewrite (subtract_below body left (mkTraceEntry [l] g) []) by (done || constructor).
  cbn [names gas app]. rewrite IHr by done. cbn [net app]. by rewrite <- (assoc_L (++)).
Qed.

Definition total_gas (l : list TraceEntry) : Z := foldr (λ e, Z.add (gas e)) 0 l.
Lemma total_gas_app l1 l2 : total_gas (l1 ++ l2) = total_gas l1 + total_gas l2.
Proof. unfold total_gas. induction l1; simpl; lia. Qed.

(** Nothing is counted twice and nothing is lost. *)
Lemma net_total p f : wrap_i64 (total_gas (net p f)) = wrap_i64 (total f).
Proof.
  revert p. induction f as [|l g body IHb rest IHr]; intros p; [done|].
  cbn [net total]. change (total_gas (?e :: ?l)) with (gas e + total_gas l).
  rewrite total_gas_app. cbn [gas].
  rewrite wrap_i64_wrap_l.
  rewrite <- (wrap_i64_wrap_r _ (_ + _)), <- (wrap_i64_wrap_l (total_gas (net (p ++ [l]) body))), IHb.
  rewrite wrap_i64_wrap_l, wrap_i64_wrap_r, Z.add_assoc.
  rewrite <- wrap_i64_wrap_r, IHr, wrap_i64_wrap_r. f_equal. lia.
Qed.

Lemma subtracted_events f :
  gas_fits f → traces (subtract_children (events f fst_default)) = net [] f.
Proof.
  intros Hf. unfold subtract_children. cbn [traces].
  destruct (events_spec f fst_default) as [_ ->]. change (path fst_default) with (@nil string).
  cbn [traces fst_default app]. rewrite <- (app_nil_r (gross [] f)), subtract_top by done. done.
Qed.

(** The lines of a folded stack trace are the frames in the order they
    were entered, each with its path and its gas less that of the frames
    called from it directly; also when sibling frames share their names. *)
Lemma folded_lines_self_gas f :
  gas_fits f → fst_build (events f fst_default) = line <$> net [] f.
Proof. intros Hf. unfold fst_build, build_without_subtraction. by rewrite subtracted_events. Qed.

(** ** The events of an arena are balanced *)
Fixpoint fapp (f f' : Forest) : Forest :=
  match f with Done => f' | Frame l g body rest => Frame l g body (fapp rest f') end.

Lemma events_fapp f f' b : events (fapp f f') b = events f' (events f b).
Proof. revert b. induction f as [|l g body IHb rest IHr]; intros b; simpl; [done|apply IHr]. Qed.
Lemma gas_fits_fapp f f' : gas_fits f → gas_fits f' → gas_fits (fapp f f').
Proof. induction f; simpl; naive_solver. Qed.

(** [b] is [b0] with some frames, of which the last [k], nested, are open. *)
Fixpoint reach (k : nat) (b0 b : FoldedStackTraceBuilder) : Prop :=
  match k with
  | O => ∃ f, gas_fits f ∧ b = events f b0
  | S k => ∃ f l g, gas_fits f ∧ in_i64 g ∧ reach k (enter (events f b0) l g) b
  end.

Lemma reach_frames k f b0 b : gas_fits f → reach k b0 b → reach k b0 (events f b).
Proof.
  intros Hf. revert b0. induction k as [|k IH]; intros b0; simpl.
  - intros (f0 & Hf0 & ->). exists (fapp f0 f). rewrite events_fapp. by auto using gas_fits_fapp.
  - intros (f0 & l & g & Hf0 & Hg & Hr). exists f0, l, g. auto.
Qed.
Lemma reach_enter k b0 b l g : in_i64 g → reach k b0 b → reach (S k) b0 (enter b l g).
Proof.
  intros Hg. revert b0. induction k as [|k IH]; intros b0.
  - intros (f & Hf & ->). exists f, l, g. split_and!; [done..|]. by exists Done.
  - intros (f & l' & g' & Hf & Hg' & Hr). exists f, l', g'. split_and!; [done..|]. by apply IH.
Qed.
Lemma reach_exit k b0 b : reach (S k) b0 b → reach k b0 (exit b).
Proof.
  revert b0. induction k as [|k IH]; intros b0 (f & l & g & Hf & Hg & Hr).
  - destruct Hr as (f' & Hf' & ->). exists (fapp f (Frame l g f' Done)).
    rewrite events_fapp. split; [by apply gas_fits_fapp|done].
  - exists f, l, g. auto.
Qed.
Lemma reach_exits n k b0 b : reach (n + k) b0 b → reach k b0 (exit_many n b).
Proof.
  revert b. induction n as [|n IH]; intros b; simpl; [done|].
  intros Hr. unfold exit_many in *. rewrite <- Nat.iter_succ, Nat.iter_succ_r. by apply IH, reach_exit.
Qed.

Section evm.
Context {Selector : Type} (encode_hex_with_prefix : Selector → string).
#[local] Abbreviation Node := (CallTraceNode Selector).
#[local] Abbreviation process := (process_call_node encode_hex_with_prefix).

(** An arena: children come after their parent, steps are in range. *)
Definition member_ok (nodes : list Node) (idx : nat) (n : Node) (o : TraceMemberOrder) : Prop :=
  match o with
  | OCall i => ∃ c, children n !! i = Some c ∧ idx < c < length nodes
  | OStep i => ∃ s, steps n !! i = Some s ∧
      match step_decoded s with
      | Some (InternalCall _ e) => e < length (steps n)
      | _ => True
      end
  | OLog _ => True
  end%nat.
Definition arena_ok (nodes : list Node) : Prop :=
  ∀ idx n o, nodes !! idx = Some n → o ∈ ordering n → member_ok nodes idx n o.

Definition processed (nodes : list Node) (idx : nat) (b b' : FoldedStackTraceBuilder) : Prop :=
  ∃ n f, nodes !! idx = Some n ∧ gas_fits f ∧
    b' = events (Frame (func_name encode_hex_with_prefix n) (wrap_i64 (gas_used n)) f Done) b.

Lemma process_step_spec nodes idx n i b0 b ends :
  member_ok nodes idx n (OStep i) → reach (length ends) b0 b →
  ∃ b' ends', process_step b (steps n) i ends = Some (b', ends') ∧ reach (length ends') b0 b'.
Proof.
  intros (s & Hs & Hd) Hr. unfold process_step. rewrite Hs. cbn.
  destruct (step_decoded s) as [[f e|]|]; [|by eauto..].
  apply lookup_lt_is_Some in Hd as [s' ->]. cbn. do 2 eexists. split; [done|].
  rewrite length_app, Nat.add_1_r. apply reach_enter; [apply wrap_i64_fits|done].
Qed.

Lemma exit_previous_spec b0 b ends i b' ends' :
  exit_previous_steps b ends i = (b', ends') → reach (length ends) b0 b → reach (length ends') b0 b'.
Proof.
  intros [= <- <-] Hr. apply reach_exits.
  pose proof (length_filter (λ number, i < number)%nat ends).
  by rewrite Nat.sub_add.
Qed.

Lemma process_members nodes idx n call b0 b :
  (∀ c b, (idx < c < length nodes)%nat → ∃ b', call c b = Some b' ∧ processed nodes c b b') →
  (∀ o, o ∈ ordering n → member_ok nodes idx n o) → reach 0 b0 b →
  ∃ b' ends, fold_m (process_member call n) (b, []) (ordering n) = Some (b', ends) ∧
    reach (length ends) b0 b'.
Proof.
  intros Hcall Hok Hr.
  destruct (fold_m_total (process_member call n)
    (λ l st, (∀ o, o ∈ l → member_ok nodes idx n o) ∧ reach (length st.2) b0 st.1)) with
    (l := ordering n) (b := (b, @nil nat)) as ([b' ends] & Hf & _ & Hr'); [|by split|by eauto].
  intros o l [b1 ends] [Hl Hr1].
  assert (Ho : member_ok nodes idx n o) by (apply Hl; constructor).
  assert (Hl' : ∀ o, o ∈ l → member_ok nodes idx n o) by (intros; apply Hl; by constructor).
  destruct o as [i|i|i]; cbn [process_member].
  - destruct Ho as (c & Hc & Hlt). rewrite Hc. cbn.
    destruct (Hcall c b1 Hlt) as (b2 & -> & m & f & _ & Hf & ->). cbn.
    eexists. split; [done|]. split; [done|]. cbn [snd fst] in *.
    apply (reach_frames _ (Frame _ _ f Done)); [|done]. split_and!; [apply wrap_i64_fits|done..].
  - destruct (exit_previous_steps b1 ends i) as [b2 ends2] eqn:He.
    destruct (process_step_spec nodes idx n i b0 b2 ends2) as (b3 & ends3 & Hs & Hr3); [done| |by eauto].
    by eapply exit_previous_spec.
  - by eauto.
Qed.

Lemma process_spec nodes fuel idx b :
  arena_ok nodes → (idx < length nodes ≤ idx + fuel)%nat →
  ∃ b', process fuel nodes idx b = Some b' ∧ processed nodes idx b b'.
Proof.
  intros Hok. revert idx b. induction fuel as [|fuel IH]; intros idx b Hlt; [lia|].
  destruct (lookup_lt_is_Some_2 nodes idx) as [n Hn]; [lia|]. cbn [process_call_node]. rewrite Hn. cbn.
  set (b0 := enter b _ _).
  destruct (process_members nodes idx n (process fuel nodes) b0 b0) as (b' & ends & Hm & Hr).
  - intros c b1 Hc. apply IH. lia.
  - intros o Ho. by eapply Hok.
  - by exists Done.
  - rewrite Hm. cbn. eexists. split; [done|]. rewrite <- (Nat.add_0_r (length ends)) in Hr.
    apply reach_exits in Hr as (f & Hf & Heq). exists n, f. split_and!; [done..|]. cbn [events]. by rewrite Heq.
Qed.

(** For every well-formed arena the folded stack trace is built: its lines
    are those of a tree whose root is the first call, and their gas adds up
    to the gas that call used, modulo the width of [i64]. *)
Lemma folded_trace_conserves_gas nodes root :
  arena_ok nodes → nodes !! 0%nat = Some root →
  ∃ f b, build_builder encode_hex_with_prefix nodes = Some b ∧
    let tree := Frame (func_name encode_hex_with_prefix root) (wrap_i64 (gas_used root)) f Done in
    traces (subtract_children b) = net [] tree ∧
    build encode_hex_with_prefix nodes = Some (line <$> net [] tree) ∧
    wrap_i64 (total_gas (net [] tree)) = wrap_i64 (gas_used root).
Proof.
  intros Hok Hroot. pose proof (lookup_lt_Some _ _ _ Hroot).
  destruct (process_spec nodes (length nodes) 0 fst_default Hok) as (b & Hb & n & f & Hn & Hf & Heq); [lia|].
  rewrite Hroot in Hn. injection Hn as <-. exists f, b. split; [done|]. cbn zeta.
  assert (Hfits : gas_fits (Frame (func_name encode_hex_with_prefix root) (wrap_i64 (gas_used root)) f Done))
    by (split_and!; [apply wrap_i64_fits|done..]).
  rewrite Heq. split; [by apply subtracted_events|]. split.
  - unfold build, build_builder. rewrite Hb, Heq. cbn [fmap option_fmap option_map].
    unfold fst_build, build_without_subtraction. by rewrite subtracted_events.
  - rewrite net_total. cbn [total]. rewrite Z.add_0_r. apply wrap_i64_fits.
Qed.
End evm.

(** ** A small arena: a call with an internal function, in which it calls a
    constructor. *)
Definition small_arena : list (CallTraceNode nat) :=
  [mkNode false (Some 7%nat) None 1000
     [mkStep 100 (Some (InternalCall "inner" 2)); mkStep 300 None; mkStep 700 None] [1%nat]
     [OStep 0; OCall 0; OStep 1; OStep 2];
   mkNode true None (Some (mkDecoded (Some "Token"%string) None)) 250 [] [] [OLog 0]].

Lemma folded_trace_conserves_gas_witness :
  arena_ok small_arena ∧ build (λ _, "0x07"%string) small_arena
    = Some ["0x07 400"; "0x07;inner 350"; "0x07;inner;new Token 250"]%string ∧
  ∃ root f b, small_arena !! 0%nat = Some root ∧
    build_builder (λ _, "0x07"%string) small_arena = Some b ∧
    traces (subtract_children b) = net [] (Frame "0x07" 1000 f Done).
Proof.
  assert (Hok : arena_ok small_arena).
  { intros [|[|idx]] n o; intros [= <-]; cbn [ordering].
    - intros Ho. repeat (apply elem_of_cons in Ho as [->|Ho]); [..|by apply elem_of_nil in Ho].
      + eexists. split; [reflexivity|]. cbn. lia.
      + eexists. split; [reflexivity|]. cbn. lia.
      + eexists. split; [reflexivity|done].
      + eexists. split; [reflexivity|done].
    - intros Ho. apply elem_of_cons in Ho as [->|Ho]; [done|by apply elem_of_nil in Ho]. }
  split; [exact Hok|]. split; [reflexivity|].
  destruct (folded_trace_conserves_gas (λ _, "0x07"%string) small_arena _ Hok eq_refl)
    as (f & b & Hb & Ht & _).
  eexists _, f, b. split; [reflexivity|]. split; [exact Hb|exact Ht].
Defined.

Lemma folded_lines_self_gas_witness :
  let f := Frame "top" 500 (Frame "child_a" 300 (Frame "child_b" 100 Done Done)
             (Frame "child_c" 100 Done Done)) Done in
  gas_fits f ∧ fst_build (events f fst_default)
    = ["top 100"; "top;child_a 200"; "top;child_a;child_b 100"; "top;child_c 100"]%string.
Proof.
  cbn zeta. assert (Hf : gas_fits (Frame "top" 500 (Frame "child_a" 300 (Frame "child_b" 100 Done Done)
             (Frame "child_c" 100 Done Done)) Done)) by (repeat split).
  split; [exact Hf|]. rewrite (folded_lines_self_gas _ Hf). reflexivity.
Defined.
