(* ===== verification/GasMetering.v ===== *)
(** * Gas metering and gas snapshots: cheatcodes/src/evm.rs, inspector.rs

    [pauseGasMetering] keeps the gas of the running frames constant,
    [startSnapshotGas]/[stopSnapshotGas] measure a section of a test, and
    [forge test] compares the snapshots with those on disk
    (forge/src/cmd/test/mod.rs).  The hooks see the interpreter's gas counter,
    a type of revm with its accessors. *)
From stdpp Require Import base list gmap strings sorting pretty.
From Stdlib Require Import ZArith Lia.
From S2P Require Import Prelude.
#[local] Open Scope list_scope.

(** revm's [Gas], [InterpreterAction] and [InstructionResult]. *)
Class GasTypes := {
  Gas : Type;
  InstructionResult : Type;
  limit : Gas → Z;
  remaining : Gas → Z;
  refunded : Gas → Z;
  total_gas_spent : Gas → Z;
  words_num : Gas → Z;                       (* of [memory()] *)
  expansion_cost : Gas → Z;
  set_memory : Gas → Z → Z → Gas;            (* both fields of [memory_mut()] *)
  gas_new : Z → Gas;
  is_ok_or_revert : InstructionResult → bool;
  is_halt : InstructionResult → bool;
}.

Class GasLaws `{!GasTypes} := {
  set_memory_same g : set_memory g (words_num g) (expansion_cost g) = g;
  spent_set_memory g w c : total_gas_spent (set_memory g w c) = total_gas_spent g;
  refunded_set_memory g w c : refunded (set_memory g w c) = refunded g;
  limit_set_memory g w c : limit (set_memory g w c) = limit g;
  spent_new l : total_gas_spent (gas_new l) = 0;
  refunded_new l : refunded (gas_new l) = 0;
  limit_new l : limit (gas_new l) = l;
}.

Section metering.
Context `{!GasTypes}.

Inductive InterpreterAction := Return (result : InstructionResult) | NewFrame.

(** What is read of the interpreter. *)
Record Interpreter := mkInterpreter { gas : Gas; action : option InterpreterAction }.

Record GasRecord := mkGasRecord { group : string; name : string; gas_used : Z; depth : nat }.

(** [Vm::Gas]. *)
Record VmGas := mkVmGas {
  gasLimit : Z; gasTotalUsed : Z; gasMemoryUsed : Z; gasRefunded : Z; gasRemaining : Z;
}.

Record GasMetering := mkGasMetering {
  paused : bool; touched : bool; reset : bool; paused_frames : list Gas;
  active_gas_snapshot : option (string * string); last_call_gas : option VmGas;
  recording : bool; last_gas_used : Z; gas_records : list GasRecord;
}.
Definition metering_default : GasMetering := mkGasMetering false false false [] None None false 0 [].

Implicit Types (m : GasMetering) (i : Interpreter).

Definition with_paused_frames m fs : GasMetering :=
  mkGasMetering (paused m) (touched m) (reset m) fs (active_gas_snapshot m) (last_call_gas m)
    (recording m) (last_gas_used m) (gas_records m).
Definition with_active m a : GasMetering :=
  mkGasMetering (paused m) (touched m) (reset m) (paused_frames m) a (last_call_gas m)
    (recording m) (last_gas_used m) (gas_records m).
Definition with_recorded m last records : GasMetering :=
  mkGasMetering (paused m) (touched m) (reset m) (paused_frames m) (active_gas_snapshot m)
    (last_call_gas m) (recording m) last records.
Definition with_recording m r : GasMetering :=
  mkGasMetering (paused m) (touched m) (reset m) (paused_frames m) (active_gas_snapshot m)
    (last_call_gas m) r (last_gas_used m) (gas_records m).
Definition with_last_call m g : GasMetering :=
  mkGasMetering (paused m) (touched m) (reset m) (paused_frames m) (active_gas_snapshot m) g
    (recording m) (last_gas_used m) (gas_records m).
Definition with_flags m p t r : GasMetering :=
  mkGasMetering p t r (paused_frames m) (active_gas_snapshot m) (last_call_gas m)
    (recording m) (last_gas_used m) (gas_records m).

Definition start m : GasMetering := with_recording m true.
Definition stop m : GasMetering := with_recording m false.
Definition resume m : GasMetering :=
  let m := if paused m then with_flags m false true (reset m) else m in
  with_paused_frames m [].
Definition reset_metering m : GasMetering := with_paused_frames (with_flags m false true true) [].

(** ** The hooks *)
Definition will_exit (a : InterpreterAction) : bool :=
  match a with Return r => is_ok_or_revert r || is_halt r | NewFrame => false end.
Definition exits i : bool := from_option will_exit false (action i).

Definition meter_gas m i : GasMetering * Interpreter :=
  match last (paused_frames m) with
  | Some paused_gas =>
      (m, mkInterpreter (set_memory paused_gas (words_num (gas i)) (expansion_cost (gas i))) (action i))
  | None => (with_paused_frames m (paused_frames m ++ [gas i]), i)
  end.

Definition meter_gas_reset m i : GasMetering * Interpreter :=
  (with_flags m (paused m) (touched m) false,
   mkInterpreter (set_memory (gas_new (limit (gas i))) (words_num (gas i)) (expansion_cost (gas i)))
     (action i)).

(** One record: the first component is [last_gas_used]. *)
Definition meter_record (spent : Z) (curr_depth : nat) (st : Z * list GasRecord) (r : GasRecord)
    : Z * list GasRecord :=
  let '(last, done) := st in
  if bool_decide (curr_depth = depth r) then
    let used :=
      if bool_decide (last ≠ 0)
      then saturating_add u64_max (gas_used r) (saturating_sub spent last)
      else gas_used r in
    (spent, done ++ [mkGasRecord (group r) (name r) used (depth r)])
  else (last, done ++ [r]).

Definition meter_gas_record m i (curr_depth : nat) : GasMetering :=
  match action i with
  | Some (Return _) => m
  | _ =>
      let '(last, records) :=
        foldl (meter_record (total_gas_spent (gas i)) curr_depth) (last_gas_used m, []) (gas_records m) in
      with_recorded m last records
  end.

Definition meter_gas_end m i : GasMetering :=
  if exits i then with_paused_frames m (take (pred (length (paused_frames m))) (paused_frames m)) else m.

Definition meter_gas_check i : Interpreter :=
  if exits i && bool_decide (total_gas_spent (gas i) < Z.max 0 (refunded (gas i)))
  then mkInterpreter (gas_new (limit (gas i))) (action i)
  else i.

(** The parts of [initialize_interp], [step], [step_end] and [call_end] that
    meter gas. *)
Definition initialize_interp m i : GasMetering :=
  if paused m then with_paused_frames m (paused_frames m ++ [gas i]) else m.

Definition step m i (curr_depth : nat) : GasMetering * Interpreter :=
  let '(m, i) := if paused m then meter_gas m i else (m, i) in
  let '(m, i) := if reset m then meter_gas_reset m i else (m, i) in
  (if recording m then meter_gas_record m i curr_depth else m, i).

Definition step_end m i : GasMetering * Interpreter :=
  let m := if paused m then meter_gas_end m i else m in
  (m, if touched m then meter_gas_check i else i).

Definition call_end m (g : Gas) : GasMetering :=
  with_last_call m (Some (mkVmGas (limit g) (total_gas_spent g) 0 (refunded g) (remaining g))).

(** ** The cheatcodes *)
Record Cheatcodes := mkCheatcodes {
  gas_metering : GasMetering;
  gas_snapshots : gmap string (gmap string string);
  running_artifact : option string;
}.
Implicit Types (st : Cheatcodes).

Inductive GasError :=
| NoCallYet                                 (* no external call was made yet *)
| AlreadyStarted (group name : string)
| NotStarted (name group : string).
Inductive Returned := Nothing | ReturnedU64 (z : Z) | ReturnedGas (g : VmGas).

(** [None] is a panic. *)
Definition Outcome : Type := option (Cheatcodes * result GasError Returned).

Definition with_metering st m : Cheatcodes := mkCheatcodes m (gas_snapshots st) (running_artifact st).
Definition record_snapshot st (group name value : string) : Cheatcodes :=
  mkCheatcodes (gas_metering st)
    (<[group := <[name := value]> (default ∅ (gas_snapshots st !! group))]> (gas_snapshots st))
    (running_artifact st).

Definition apply_pauseGasMetering st : Outcome :=
  let m := gas_metering st in
  Some (with_metering st (with_flags m true (touched m) (reset m)), Ok Nothing).
Definition apply_resumeGasMetering st : Outcome :=
  Some (with_metering st (resume (gas_metering st)), Ok Nothing).
Definition apply_resetGasMetering st : Outcome :=
  Some (with_metering st (reset_metering (gas_metering st)), Ok Nothing).
Definition apply_lastCallGas st : Outcome :=
  Some (st, match last_call_gas (gas_metering st) with
            | Some g => Ok (ReturnedGas g)
            | None => Err NoCallYet
            end).

Definition derive_snapshot_name st (group name : option string) : option (string * string) :=
  group ← match group with Some g => Some g | None => running_artifact st end;
  Some (group, default "default"%string name).

Definition inner_value_snapshot st (group name : option string) (value : string) : Outcome :=
  '(group, name) ← derive_snapshot_name st group name;
  Some (record_snapshot st group name value, Ok Nothing).

Definition inner_last_gas_snapshot st (group name : option string) (value : Z) : Outcome :=
  '(group, name) ← derive_snapshot_name st group name;
  Some (record_snapshot st group name (pretty value), Ok (ReturnedU64 value)).

Definition inner_start_gas_snapshot st (curr_depth : nat) (group name : option string) : Outcome :=
  match active_gas_snapshot (gas_metering st) with
  | Some (group, name) => Some (st, Err (AlreadyStarted group name))
  | None =>
      '(group, name) ← derive_snapshot_name st group name;
      let m := gas_metering st in
      let m := with_recorded m (last_gas_used m)
                 (gas_records m ++ [mkGasRecord group name 0 curr_depth]) in
      Some (with_metering st (start (with_active m (Some (group, name)))), Ok Nothing)
  end.

Definition inner_stop_gas_snapshot st (group_arg name_arg : option string) : Outcome :=
  '(g, n) ← match group_arg, name_arg with
            | Some g, Some n => Some (g, n)
            | _, _ => active_gas_snapshot (gas_metering st)
            end;
  match find (λ r, bool_decide (group r = g) && bool_decide (name r = n))
          (gas_records (gas_metering st)) with
  | Some r =>
      let value := saturating_sub (gas_used r) 171 in
      let st := record_snapshot st g n (pretty value) in
      let m := stop (gas_metering st) in
      let m := with_recorded m (last_gas_used m)
                 (filter (λ r, group r ≠ g ∧ name r ≠ n) (gas_records m)) in
      let m := if bool_decide (active_gas_snapshot m = Some (g, n)) then with_active m None else m in
      Some (with_metering st m, Ok (ReturnedU64 value))
  | None => Some (st, Err (NotStarted n g))
  end.

Definition apply_snapshotValue_0 st (name : string) (value : Z) : Outcome :=
  inner_value_snapshot st None (Some name) (pretty value).
Definition apply_snapshotValue_1 st (group name : string) (value : Z) : Outcome :=
  inner_value_snapshot st (Some group) (Some name) (pretty value).
Definition apply_snapshotGasLastCall_0 st (name : string) : Outcome :=
  match last_call_gas (gas_metering st) with
  | Some g => inner_last_gas_snapshot st None (Some name) (gasTotalUsed g)
  | None => Some (st, Err NoCallYet)
  end.
Definition apply_snapshotGasLastCall_1 st (group name : string) : Outcome :=
  match last_call_gas (gas_metering st) with
  | Some g => inner_last_gas_snapshot st (Some group) (Some name) (gasTotalUsed g)
  | None => Some (st, Err NoCallYet)
  end.
Definition apply_startSnapshotGas_0 st (curr_depth : nat) (name : string) : Outcome :=
  inner_start_gas_snapshot st curr_depth None (Some name).
Definition apply_startSnapshotGas_1 st (curr_depth : nat) (group name : string) : Outcome :=
  inner_start_gas_snapshot st curr_depth (Some group) (Some name).
Definition apply_stopSnapshotGas_0 st : Outcome := inner_stop_gas_snapshot st None None.
Definition apply_stopSnapshotGas_1 st (name : string) : Outcome :=
  inner_stop_gas_snapshot st None (Some name).
Definition apply_stopSnapshotGas_2 st (group name : string) : Outcome :=
  inner_stop_gas_snapshot st (Some group) (Some name).
End metering.

(** ** [forge test]: comparing with the snapshots on disk *)
Definition Snapshots : Type := gmap string string.

(** [diff.is_empty()] negated: some value differs from the previous one. *)
Definition group_differs (previous snapshots : Snapshots) : bool :=
  existsb (λ '(k, v), match previous !! k with Some p => bool_decide (p ≠ v) | None => false end)
    (map_to_list snapshots).

(** The fold over the groups; [disk] is the files of the snapshot directory. *)
Definition check_group (disk : gmap string Snapshots) (found : bool) (g : string * Snapshots) : bool :=
  match disk !! g.1 with
  | None => false
  | Some previous => if group_differs previous g.2 then true else found
  end.
Definition differences_found (disk : gmap string Snapshots) (groups : list (string * Snapshots)) : bool :=
  foldl (check_group disk) false groups.

(** Collecting the snapshots of a test: [extend] of every group. *)
Definition merge_snapshots (all new : gmap string Snapshots) : gmap string Snapshots :=
  union_with (λ old new, Some (new ∪ old)) all new.

(** ** What pausing, measuring and comparing gas do *)
(** ** Paused metering *)
Section paused.
Context `{!GasTypes}.

(** The rest of a frame: an instruction starts with the counter [g] and ends
    with [g'], the last one exits; a call runs another frame. *)
Inductive Frame :=
| Exit (g g' : Gas) (r : InstructionResult)
| Op (g g' : Gas) (rest : Frame)
| Sub (first : Gas) (body rest : Frame).

Definition instruction (m : GasMetering) (g g' : Gas) (a : option InterpreterAction) (d : nat)
    : GasMetering * Gas :=
  let '(m, i) := step m (mkInterpreter g None) d in
  ((step_end m (mkInterpreter g' a)).1, gas i).

(** The state afterwards, and the counter every instruction was given. *)
Fixpoint run_frame (d : nat) (m : GasMetering) (f : Frame) : GasMetering * list Gas :=
  match f with
  | Exit g g' r => let '(m, seen) := instruction m g g' (Some (Return r)) d in (m, [seen])
  | Op g g' rest =>
      let '(m, seen) := instruction m g g' None d in
      let '(m, l) := run_frame d m rest in (m, seen :: l)
  | Sub first body rest =>
      let '(m, l) := run_frame (S d) (initialize_interp m (mkInterpreter first None)) body in
      let '(m, l') := run_frame d m rest in (m, l ++ l')
  end.

Fixpoint frames_exit (f : Frame) : Prop :=
  match f with
  | Exit _ _ r => is_ok_or_revert r || is_halt r = true
  | Op _ _ rest => frames_exit rest
  | Sub _ body rest => frames_exit body ∧ frames_exit rest
  end.

(** The counter stands still, only the memory is charged. *)
Definition frozen (g0 g : Gas) : Gas := set_memory g0 (words_num g) (expansion_cost g).
Fixpoint frozen_frame (g0 : Gas) (f : Frame) : list Gas :=
  match f with
  | Exit g _ _ => [frozen g0 g]
  | Op g _ rest => frozen g0 g :: frozen_frame g0 rest
  | Sub first body rest => frozen_frame first body ++ frozen_frame g0 rest
  end.
Definition first_gas (f : Frame) : option Gas :=
  match f with Exit g _ _ | Op g _ _ => Some g | Sub _ _ _ => None end.

Definition pausing (m : GasMetering) (fs : list Gas) : Prop :=
  paused m = true ∧ reset m = false ∧ paused_frames m = fs.

Lemma record_pausing m i d fs : pausing m fs → pausing (meter_gas_record m i d) fs.
Proof. unfold meter_gas_record. intros Hm. destruct (action i) as [[]|]; [done|by case_match..]. Qed.

Lemma step_pausing m g a d fs g0 :
  pausing m (fs ++ [g0]) →
  ∃ m', step m (mkInterpreter g a) d = (m', mkInterpreter (frozen g0 g) a) ∧ pausing m' (fs ++ [g0]).
Proof.
  intros Hm. destruct (Hm) as (Hp & Hr & Hf). unfold step. rewrite Hp. unfold meter_gas.
  rewrite Hf, last_snoc, Hr. cbn [gas action]. eexists. split; [done|].
  destruct (recording m); [by apply record_pausing|done].
Qed.

Lemma instruction_pausing m g g' a d fs g0 :
  pausing m (fs ++ [g0]) →
  ∃ m', instruction m g g' a d = (m', frozen g0 g) ∧
    pausing m' (if from_option will_exit false a then fs else fs ++ [g0]).
Proof.
  intros Hm. unfold instruction. destruct (step_pausing m g None d fs g0 Hm) as (m' & -> & Hm').
  eexists. split; [done|]. destruct (Hm') as (Hp & Hr & Hf).
  unfold step_end. rewrite Hp. unfold meter_gas_end, exits. cbn [action fst].
  destruct (from_option will_exit false a); [|done].
  rewrite Hf, length_app. cbn. rewrite Nat.add_1_r. cbn. by rewrite take_app_length.
Qed.

Lemma run_frame_pausing f d m fs g0 :
  frames_exit f → pausing m (fs ++ [g0]) →
  ∃ m', run_frame d m f = (m', frozen_frame g0 f) ∧ pausing m' fs.
Proof.
  revert d m fs g0. induction f as [g g' r|g g' rest IH|first body IHb rest IHr];
    intros d m fs g0 Hf Hm; cbn [run_frame frozen_frame frames_exit] in *.
  - destruct (instruction_pausing m g g' (Some (Return r)) d fs g0 Hm) as (m' & -> & Hm').
    cbn in Hm'. rewrite Hf in Hm'. by eexists.
  - destruct (instruction_pausing m g g' None d fs g0 Hm) as (m' & -> & Hm').
    destruct (IH d m' fs g0 Hf Hm') as (m'' & -> & Hm''). by eexists.
  - destruct Hf as [Hb Hr]. destruct (Hm) as (Hp & Hre & Hfs).
    unfold initialize_interp. rewrite Hp. cbn [gas].
    destruct (IHb (S d) (with_paused_frames m (paused_frames m ++ [first])) (fs ++ [g0]) first Hb)
      as (m' & -> & Hm'); [by rewrite Hfs|].
    destruct (IHr d m' fs g0 Hr Hm') as (m'' & -> & Hm''). by eexists.
Qed.

(** The frame in which metering was paused notes its counter at the first
    instruction. *)
Lemma first_pausing `{!GasLaws} f d m g0 :
  pausing m [] → first_gas f = Some g0 →
  run_frame d m f = run_frame d (with_paused_frames m [g0]) f.
Proof.
  intros (Hp & Hr & Hf) Hfirst.
  assert (Hs : ∀ a, step m (mkInterpreter g0 a) d
                    = step (with_paused_frames m [g0]) (mkInterpreter g0 a) d).
  { intros a. unfold step. cbn [paused with_paused_frames]. rewrite Hp. unfold meter_gas.
    rewrite Hf. cbn. by rewrite set_memory_same. }
  destruct f; cbn in Hfirst; simplify_eq; cbn [run_frame]; unfold instruction; by rewrite Hs.
Qed.

(** While metering is paused every instruction of a frame starts with the
    gas the frame was entered with (or at which it was paused), except for
    the memory it has expanded, however calls nest; a frame that exits
    leaves the counters of its callers in place. *)
Lemma paused_gas_constant `{!GasLaws} f d m fs g0 :
  frames_exit f →
  pausing m (fs ++ [g0]) ∨ (pausing m [] ∧ fs = [] ∧ first_gas f = Some g0) →
  ∃ m', run_frame d m f = (m', frozen_frame g0 f) ∧ pausing m' fs.
Proof.
  intros Hf [Hm|(Hm & -> & Hfirst)]; [by apply run_frame_pausing|].
  rewrite (first_pausing f d m g0 Hm Hfirst).
  destruct Hm as (? & ? & ?). by apply run_frame_pausing.
Qed.
End paused.

(** ** Gas snapshots *)
Section snapshots.
Context `{!GasTypes}.
Implicit Types (m : GasMetering) (st : Cheatcodes).

(** At most one snapshot is being taken, and its record is the only one. *)
Definition metering_wf m : Prop :=
  match active_gas_snapshot m with
  | Some (g, n) => ∃ used d, gas_records m = [mkGasRecord g n used d] ∧ recording m = true
  | None => gas_records m = [] ∧ recording m = false
  end.

Inductive Event :=
| Pause | Resume | Reset | LastCallGas
| SnapshotValue (group : option string) (name : string) (value : Z)
| SnapshotGasLastCall (group : option string) (name : string)
| StartSnapshotGas (depth : nat) (group : option string) (name : string)
| StopSnapshotGas (group name : option string)
| InitializeInterp (i : Interpreter)
| Step (i : Interpreter) (depth : nat)
| StepEnd (i : Interpreter)
| CallEnd (g : Gas).

Definition hook st m : option Cheatcodes := Some (with_metering st m).

(** [None] is a panic. *)
Definition run_event st (e : Event) : option Cheatcodes :=
  let m := gas_metering st in
  match e with
  | Pause => fst <$> apply_pauseGasMetering st
  | Resume => fst <$> apply_resumeGasMetering st
  | Reset => fst <$> apply_resetGasMetering st
  | LastCallGas => fst <$> apply_lastCallGas st
  | SnapshotValue None n v => fst <$> apply_snapshotValue_0 st n v
  | SnapshotValue (Some g) n v => fst <$> apply_snapshotValue_1 st g n v
  | SnapshotGasLastCall None n => fst <$> apply_snapshotGasLastCall_0 st n
  | SnapshotGasLastCall (Some g) n => fst <$> apply_snapshotGasLastCall_1 st g n
  | StartSnapshotGas d None n => fst <$> apply_startSnapshotGas_0 st d n
  | StartSnapshotGas d (Some g) n => fst <$> apply_startSnapshotGas_1 st d g n
  | StopSnapshotGas (Some g) (Some n) => fst <$> apply_stopSnapshotGas_2 st g n
  | StopSnapshotGas None (Some n) => fst <$> apply_stopSnapshotGas_1 st n
  | StopSnapshotGas _ None => fst <$> apply_stopSnapshotGas_0 st
  | InitializeInterp i => hook st (initialize_interp m i)
  | Step i d => hook st (step m i d).1
  | StepEnd i => hook st (step_end m i).1
  | CallEnd g => hook st (call_end m g)
  end.
Definition run_events st (l : list Event) : option Cheatcodes := fold_m run_event st l.

(** What panics: stopping the latest snapshot when there is none. *)
Definition stops_nothing st (e : Event) : Prop :=
  match e with
  | StopSnapshotGas (Some _) (Some _) => False
  | StopSnapshotGas _ _ => active_gas_snapshot (gas_metering st) = None
  | _ => False
  end.

#[local] Instance stops_nothing_dec st e : Decision (stops_nothing st e).
Proof.
  destruct e as [| | | | | | |[g|] [n|]| | | |]; cbn [stops_nothing]; try exact False_dec;
    (destruct (active_gas_snapshot (gas_metering st)); [by right|by left]).
Defined.

Lemma wf_same m m' :
  active_gas_snapshot m' = active_gas_snapshot m → gas_records m' = gas_records m →
  recording m' = recording m → metering_wf m → metering_wf m'.
Proof. unfold metering_wf. by intros -> -> ->. Qed.

Lemma meter_record_wf m i d : metering_wf m → metering_wf (meter_gas_record m i d).
Proof.
  intros Hwf. unfold meter_gas_record.
  assert (metering_wf (let '(last, records) :=
     foldl (meter_record (total_gas_spent (gas i)) d) (last_gas_used m, []) (gas_records m) in
     with_recorded m last records)).
  { unfold metering_wf in *. destruct (active_gas_snapshot m) as [[g n]|] eqn:Ha.
    - destruct Hwf as (used & d' & Hrec & Hr). rewrite Hrec. cbn.
      case_bool_decide; cbn; rewrite Ha; eauto.
    - destruct Hwf as [Hrec Hr]. rewrite Hrec. cbn. by rewrite Ha. }
  by destruct (action i) as [[]|].
Qed.

Lemma step_wf m i d : metering_wf m → metering_wf (step m i d).1.
Proof.
  intros Hwf. unfold step.
  assert (Hm : ∀ i, metering_wf (if paused m then meter_gas m i else (m, i)).1).
  { intros i'. destruct (paused m); [|done]. unfold meter_gas. case_match; [done|by eapply wf_same]. }
  specialize (Hm i). destruct (if paused m then _ else _) as [m1 i1]. cbn in Hm.
  assert (Hr : metering_wf (if reset m1 then meter_gas_reset m1 i1 else (m1, i1)).1).
  { destruct (reset m1); [by eapply wf_same|done]. }
  destruct (if reset m1 then _ else _) as [m2 i2]. cbn in *.
  destruct (recording m2); [by apply meter_record_wf|done].
Qed.
Lemma step_end_wf m i : metering_wf m → metering_wf (step_end m i).1.
Proof.
  intros Hwf. unfold step_end, meter_gas_end. destruct (paused m); [|done].
  cbn. destruct (exits i); [by eapply wf_same|done].
Qed.

Lemma derive_total st group name :
  running_artifact st ≠ None → ∃ gn, derive_snapshot_name st group name = Some gn.
Proof.
  intros Ha. unfold derive_snapshot_name. destruct group; [cbn; eauto|].
  destruct (running_artifact st); [cbn; eauto|done].
Qed.

Lemma start_wf st d group name st' r :
  metering_wf (gas_metering st) → inner_start_gas_snapshot st d group name = Some (st', r) →
  metering_wf (gas_metering st').
Proof.
  intros Hwf. unfold inner_start_gas_snapshot. unfold metering_wf in Hwf.
  destruct (active_gas_snapshot (gas_metering st)) as [[g n]|] eqn:Ha.
  { intros [= <- <-]. unfold metering_wf. by rewrite Ha. }
  destruct Hwf as [Hrec Hr]. intros ([g n] & _ & [= <- <-])%bind_Some. cbn.
  rewrite Hrec. cbn. eauto.
Qed.

(** Stopping the snapshot that is taken; any other name is an error. *)
Lemma stop_active st g n used d group_arg name_arg :
  active_gas_snapshot (gas_metering st) = Some (g, n) →
  gas_records (gas_metering st) = [mkGasRecord g n used d] →
  group_arg = Some g ∧ name_arg = Some n ∨ group_arg = None ∨ name_arg = None →
  ∃ m', inner_stop_gas_snapshot st group_arg name_arg
    = Some (with_metering (record_snapshot st g n (pretty (saturating_sub used 171))) m',
            Ok (ReturnedU64 (saturating_sub used 171))) ∧
    active_gas_snapshot m' = None ∧ gas_records m' = [] ∧ recording m' = false ∧
    last_gas_used m' = last_gas_used (gas_metering st).
Proof.
  intros Ha Hrec Hargs. unfold inner_stop_gas_snapshot.
  assert ((match group_arg, name_arg with
           | Some g, Some n => Some (g, n)
           | _, _ => active_gas_snapshot (gas_metering st) end) = Some (g, n)) as ->.
  { destruct Hargs as [[-> ->]|[->| ->]]; [done|done|by destruct group_arg]. }
  cbn [mbind option_bind]. rewrite Hrec. cbn [find group name].
  rewrite !bool_decide_true by done. cbn [andb].
  cbn [record_snapshot gas_metering stop with_recording with_recorded active_gas_snapshot gas_records].
  rewrite Ha, Hrec, bool_decide_true by done. eexists. split; [done|]. cbn.
  by rewrite decide_False by naive_solver.
Qed.

Lemma stop_wf st group_arg name_arg :
  metering_wf (gas_metering st) →
  match inner_stop_gas_snapshot st group_arg name_arg with
  | Some (st', _) => metering_wf (gas_metering st') ∧ running_artifact st' = running_artifact st
  | None => (group_arg = None ∨ name_arg = None) ∧ active_gas_snapshot (gas_metering st) = None
  end.
Proof.
  intros Hwf. destruct (inner_stop_gas_snapshot st group_arg name_arg) as [[st' r]|] eqn:Hs.
  - unfold metering_wf in Hwf.
    destruct (active_gas_snapshot (gas_metering st)) as [[g n]|] eqn:Ha.
    + destruct Hwf as (used & d & Hrec & Hr).
      destruct (decide (group_arg = Some g ∧ name_arg = Some n ∨ group_arg = None ∨ name_arg = None)) as [Hargs|Hargs].
      * destruct (stop_active st g n used d group_arg name_arg Ha Hrec Hargs) as (m' & Hm & Ha' & Hr' & Hrec' & _).
        rewrite Hs in Hm. injection Hm as -> ->. split; [|done]. unfold metering_wf. cbn. by rewrite Ha'.
      * unfold inner_stop_gas_snapshot in Hs. destruct group_arg as [g'|], name_arg as [n'|]; [|naive_solver..].
        cbn in Hs. rewrite Hrec in Hs. cbn [find group name] in Hs.
        destruct (bool_decide (g = g') && bool_decide (n = n')) eqn:Hb.
        { apply andb_true_iff in Hb as [Hg%bool_decide_eq_true Hn%bool_decide_eq_true].
          subst. destruct Hargs. by left. }
        injection Hs as <- <-. split; [|done]. unfold metering_wf. rewrite Ha. eauto.
    + destruct Hwf as [Hrec Hr]. unfold inner_stop_gas_snapshot in Hs.
      apply bind_Some in Hs as ([g n] & Hgn & Hs). rewrite Hrec in Hs. cbn in Hs.
      injection Hs as <- <-. split; [|done]. unfold metering_wf. by rewrite Ha.
  - unfold inner_stop_gas_snapshot in Hs. apply bind_None in Hs as [Hs|([g n] & _ & Hs)].
    + destruct group_arg, name_arg; naive_solver.
    + cbn in Hs. by destruct (find _ _).
Qed.

Lemma event_safe st e :
  metering_wf (gas_metering st) → running_artifact st ≠ None → ¬ stops_nothing st e →
  ∃ st', run_event st e = Some st' ∧ metering_wf (gas_metering st') ∧
    running_artifact st' = running_artifact st.
Proof.
  intros Hwf Hart Hok.
  assert (Hvalue : ∀ g n v, ∃ st', fst <$> inner_value_snapshot st g n v = Some st' ∧
    metering_wf (gas_metering st') ∧ running_artifact st' = running_artifact st).
  { intros g n v. unfold inner_value_snapshot. destruct (derive_total st g n Hart) as [[g' n'] ->].
    cbn. by eexists. }
  assert (Hlast : ∀ g n v, ∃ st', fst <$> inner_last_gas_snapshot st g n v = Some st' ∧
    metering_wf (gas_metering st') ∧ running_artifact st' = running_artifact st).
  { intros g n v. unfold inner_last_gas_snapshot. destruct (derive_total st g n Hart) as [[g' n'] ->].
    cbn. by eexists. }
  assert (Hstart : ∀ d g n, ∃ st', fst <$> inner_start_gas_snapshot st d g n = Some st' ∧
    metering_wf (gas_metering st') ∧ running_artifact st' = running_artifact st).
  { intros d g n. destruct (inner_start_gas_snapshot st d g n) as [[st' r]|] eqn:Hs.
    - eexists. split; [done|]. split; [by eapply start_wf|]. unfold inner_start_gas_snapshot in Hs.
      destruct (active_gas_snapshot (gas_metering st)) as [[??]|]; [by injection Hs as <- <-|].
      by apply bind_Some in Hs as ([g' n'] & _ & [= <- <-]).
    - unfold inner_start_gas_snapshot in Hs. destruct (derive_total st g n Hart) as [[g' n'] Hd].
      rewrite Hd in Hs. by destruct (active_gas_snapshot (gas_metering st)) as [[??]|]. }
  assert (Hstop : ∀ g n, ¬ ((g = None ∨ n = None) ∧ active_gas_snapshot (gas_metering st) = None) →
    ∃ st', fst <$> inner_stop_gas_snapshot st g n = Some st' ∧
    metering_wf (gas_metering st') ∧ running_artifact st' = running_artifact st).
  { intros g n Hn. pose proof (stop_wf st g n Hwf) as Hs.
    destruct (inner_stop_gas_snapshot st g n) as [[st' r]|]; [|done]. by exists st'. }
  destruct e as [| | | |[g|] n v|[g|] n|d [g|] n|[g|] [n|]|i|i d|i|g]; cbn [run_event stops_nothing] in *;
    unfold apply_snapshotGasLastCall_0, apply_snapshotGasLastCall_1;
    try solve [apply Hvalue|apply Hstart|apply Hstop; naive_solver];
    try (destruct (last_call_gas (gas_metering st)); [apply Hlast|by eexists]).
  all: eexists; split; [done|]; split; [|done]; cbn; try done.
  - unfold resume. by destruct (paused (gas_metering st)).
  - unfold initialize_interp. by destruct (paused (gas_metering st)).
  - by apply step_wf.
  - by apply step_end_wf.
Qed.

(** Whatever a test does, at most one gas snapshot is being taken, its
    record is the only one and recording is on exactly then; the cheatcodes
    panic on nothing but stopping the latest snapshot when there is none. *)
Lemma metering_events_safe artifact l :
  artifact ≠ None →
  let st0 := mkCheatcodes metering_default ∅ artifact in
  match run_events st0 l with
  | Some st => metering_wf (gas_metering st)
  | None => ∃ l1 e l2 st, l = l1 ++ e :: l2 ∧ run_events st0 l1 = Some st ∧ stops_nothing st e
  end.
Proof.
  intros Hart st0.
  assert (Hall : ∀ l st1, metering_wf (gas_metering st1) → running_artifact st1 ≠ None →
    match run_events st1 l with
    | Some st => metering_wf (gas_metering st)
    | None => ∃ l1 e l2 st, l = l1 ++ e :: l2 ∧ run_events st1 l1 = Some st ∧ stops_nothing st e
    end).
  { clear. induction l as [|e l IH]; intros st1 Hwf Hart; [done|]. cbn [run_events fold_m].
    unfold run_events in *. cbn [fold_m].
    destruct (decide (stops_nothing st1 e)) as [Hs|Hs].
    - assert (run_event st1 e = None) as ->.
      { unfold stops_nothing in Hs.
        destruct e as [| | | | | | |[g|] [n|]| | | |]; try done; cbn [run_event];
          unfold apply_stopSnapshotGas_0, apply_stopSnapshotGas_1, inner_stop_gas_snapshot; by rewrite Hs. }
      exists [], e, l, st1. done.
    - destruct (event_safe st1 e Hwf Hart Hs) as (st2 & Hrun & Hwf2 & Hart2). rewrite Hrun.
      specialize (IH st2 Hwf2 ltac:(by rewrite Hart2)).
      destruct (fold_m run_event st2 l); [done|].
      destruct IH as (l1 & e' & l2 & st & -> & Hl1 & Hst). exists (e :: l1), e', l2, st.
      split_and!; [done| |done]. cbn. by rewrite Hrun. }
  by apply Hall.
Qed.

(** ** What is measured *)
Definition run_steps m (l : list (nat * Gas)) : GasMetering :=
  foldl (λ m x, (step m (mkInterpreter x.2 None) x.1).1) m l.
Definition spent_at (d : nat) (l : list (nat * Gas)) : list Z :=
  (λ x, total_gas_spent x.2) <$> filter (λ x, x.1 = d) l.

Definition measure (st : Z * Z) (spent : Z) : Z * Z :=
  (spent, if bool_decide (st.1 ≠ 0) then saturating_add u64_max st.2 (saturating_sub spent st.1) else st.2).

(** A snapshot of [g], [n] at depth [d] is being taken and has used [used]. *)
Definition taking m (g n : string) (d : nat) (last used : Z) : Prop :=
  paused m = false ∧ reset m = false ∧ recording m = true ∧
  active_gas_snapshot m = Some (g, n) ∧ gas_records m = [mkGasRecord g n used d] ∧ last_gas_used m = last.

Lemma run_steps_taking l m g n d last used :
  taking m g n d last used →
  let r := foldl measure (last, used) (spent_at d l) in
  taking (run_steps m l) g n d r.1 r.2.
Proof.
  revert m last used. induction l as [|[d' x] l IH]; intros m last used Hm; [done|].
  unfold run_steps, spent_at in *. cbn [foldl].
  assert (Hstep : let r := if decide (d' = d) then measure (last, used) (total_gas_spent x) else (last, used) in
    taking (step m (mkInterpreter x None) d').1 g n d r.1 r.2).
  { destruct Hm as (Hp & Hr & Hrec & Ha & Hrs & Hl). unfold step. rewrite Hp, Hr, Hrec.
    cbn [fst]. unfold meter_gas_record. cbn [action gas]. rewrite Hrs, Hl. cbn [foldl meter_record depth].
    destruct (decide (d' = d)) as [->|Hd]; [rewrite bool_decide_true by done|rewrite bool_decide_false by done];
      by split_and!. }
  rewrite filter_cons. cbn [fst snd]. destruct (decide (d' = d)) as [->|Hd]; apply IH in Hstep; [|exact Hstep].
  cbn [fmap list_fmap foldl snd]. by destruct (measure (last, used) (total_gas_spent x)).
Qed.

Lemma measure_fold l last used :
  0 < last → used ≤ last → 0 ≤ used → Sorted Z.le (last :: l) → Forall (λ s, s ≤ u64_max) l →
  foldl measure (last, used) l = (default last (list.last l), used + (default last (list.last l) - last)).
Proof.
  revert last used. induction l as [|s l IH]; intros last used Hl Hu Hu0 Hs Hmax.
  { simpl. f_equal. lia. }
  apply Sorted_inv in Hs as [Hs Hle]. apply HdRel_inv in Hle. apply Forall_cons in Hmax as [Hm Hmax].
  cbn [foldl measure fst snd]. unfold measure at 2. cbn [fst snd].
  rewrite bool_decide_true by lia. unfold saturating_add, saturating_sub.
  rewrite Z.max_r, Z.min_r by lia. rewrite IH by (done || lia).
  rewrite last_cons. destruct (list.last l); cbn; f_equal; lia.
Qed.

(** The gas of a section: from its first instruction, or from what was last
    seen by an earlier snapshot. *)
Definition section_gas (last first final : Z) : Z :=
  final - (if bool_decide (last = 0) then first else Z.min last first).

Lemma measure_section l last first final :
  0 ≤ last → 0 < first → Sorted Z.le (first :: l) → Forall (λ s, s ≤ u64_max) (first :: l) →
  list.last (first :: l) = Some final →
  foldl measure (last, 0) (first :: l) = (final, section_gas last first final).
Proof.
  intros Hl Hf Hs Hmax Hlast. apply Forall_cons in Hmax as [Hm Hmax]. cbn [foldl]. unfold measure at 2.
  cbn [fst snd]. assert (default first (list.last l) = final) as Hd.
  { rewrite last_cons in Hlast. destruct (list.last l); by injection Hlast as <-. }
  unfold section_gas, saturating_add, saturating_sub.
  destruct (decide (last = 0)) as [->|Hne].
  - rewrite bool_decide_false, bool_decide_true by lia.
    rewrite measure_fold by (done || lia). by rewrite Hd.
  - rewrite bool_decide_true, bool_decide_false by lia.
    rewrite measure_fold by (done || lia). rewrite Hd. f_equal. lia.
Qed.

(** C32: A gas snapshot of a section of a frame, in which metering is neither
    paused nor reset and no other snapshot is being taken, stores the gas
    spent from the section's first instruction to its last one, calls
    included, less the 171 that taking it costs; but when an earlier snapshot
    of the test saw less gas spent than that, the section starts there. *)
Theorem gas_snapshot_measures st g n d l first rest final :
  metering_wf (gas_metering st) → active_gas_snapshot (gas_metering st) = None →
  paused (gas_metering st) = false → reset (gas_metering st) = false →
  spent_at d l = first :: rest → 0 < first → Sorted Z.le (first :: rest) →
  Forall (λ s, s ≤ u64_max) (first :: rest) → list.last (first :: rest) = Some final →
  0 ≤ last_gas_used (gas_metering st) →
  let value := Z.max 0 (section_gas (last_gas_used (gas_metering st)) first final - 171) in
  ∃ st1 st2, apply_startSnapshotGas_1 st d g n = Some (st1, Ok Nothing) ∧
    apply_stopSnapshotGas_0 (with_metering st1 (run_steps (gas_metering st1) l))
      = Some (st2, Ok (ReturnedU64 value)) ∧
    gas_snapshots st2 !! g ≫= (.!! n) = Some (pretty value) ∧
    active_gas_snapshot (gas_metering st2) = None ∧ last_gas_used (gas_metering st2) = final.
Proof.
  intros Hwf Ha Hp Hr Hspent Hfirst Hsort Hmax Hlast Hl0 value.
  unfold metering_wf in Hwf. rewrite Ha in Hwf. destruct Hwf as [Hrecs _].
  set (m1 := start (with_active (with_recorded (gas_metering st) (last_gas_used (gas_metering st))
               [mkGasRecord g n 0 d]) (Some (g, n)))).
  assert (Hm1 : taking m1 g n d (last_gas_used (gas_metering st)) 0).
  { by split_and!. }
  apply (run_steps_taking l) in Hm1. rewrite Hspent, (measure_section rest _ first final) in Hm1 by done.
  destruct Hm1 as (_ & _ & _ & Ha1 & Hr1 & Hlast1). cbn [fst snd] in *.
  edestruct (stop_active (with_metering (with_metering st m1) (run_steps m1 l)) g n) as (m2 & Hs & Ha2 & _ & _ & Hl2);
    [exact Ha1|exact Hr1|by right; left|].
  exists (with_metering st m1). eexists. split.
  { unfold apply_startSnapshotGas_1, inner_start_gas_snapshot. by rewrite Ha, Hrecs. }
  unfold apply_stopSnapshotGas_0. split; [exact Hs|]. cbn. rewrite lookup_insert_eq. cbn.
  rewrite lookup_insert_eq. split_and!; [done..|]. rewrite Hl2. exact Hlast1.
Qed.

(** Stopping a snapshot by its name alone stops the latest, whatever it is
    called. *)
Lemma stop_by_name_ignores_name st name : apply_stopSnapshotGas_1 st name = apply_stopSnapshotGas_0 st.
Proof. done. Qed.
Lemma stop_without_start_panics st :
  active_gas_snapshot (gas_metering st) = None → apply_stopSnapshotGas_0 st = None.
Proof. unfold apply_stopSnapshotGas_0, inner_stop_gas_snapshot. by intros ->. Qed.
End snapshots.

(** ** Comparing with the disk *)
Lemma group_differs_true previous snapshots :
  group_differs previous snapshots = true ↔
  ∃ k p v, previous !! k = Some p ∧ snapshots !! k = Some v ∧ p ≠ v.
Proof.
  unfold group_differs. rewrite existsb_exists. split.
  - intros ([k v] & Hin%list_elem_of_In%elem_of_map_to_list & Hd).
    destruct (previous !! k) as [p|] eqn:Hp; [|done]. apply bool_decide_eq_true in Hd. by exists k, p, v.
  - intros (k & p & v & Hp & Hv & Hd). exists (k, v). split.
    + by apply list_elem_of_In, elem_of_map_to_list.
    + rewrite Hp. by apply bool_decide_eq_true.
Qed.

(** A run with the snapshot check fails exactly if some group differs from
    its file in a value both have, and every later group has a file too: a
    group without a file forgets the differences found before it. *)
Lemma snapshot_check_verdict disk groups :
  differences_found disk groups = true ↔
  ∃ before g s previous after, groups = before ++ (g, s) :: after ∧
    disk !! g = Some previous ∧
    (∃ k p v, previous !! k = Some p ∧ s !! k = Some v ∧ p ≠ v) ∧
    Forall (λ x, is_Some (disk !! x.1)) after.
Proof.
  unfold differences_found. induction groups as [|[g s] groups IH] using rev_ind.
  { split; [done|]. by intros ([] & ? & ? & ? & ? & ? & _). }
  rewrite foldl_app. cbn [foldl]. unfold check_group at 1. cbn [fst snd]. split.
  - destruct (disk !! g) as [prev|] eqn:Hg; [|done]. destruct (group_differs prev s) eqn:Hd.
    + intros _. apply group_differs_true in Hd. by exists groups, g, s, prev, [].
    + intros (b & g' & s' & p & a & -> & Hp & Hk & Ha)%IH.
      exists b, g', s', p, (a ++ [(g, s)]). split_and!; [by rewrite <- (assoc_L (++))|done..|].
      apply Forall_app. split; [done|]. apply Forall_singleton. cbn. by rewrite Hg.
  - intros (b & g' & s' & p & a & Heq & Hp & Hk & Ha).
    destruct a as [|y a _] using rev_ind.
    + apply app_inj_tail in Heq as [-> [= -> ->]]. rewrite Hp.
      by apply group_differs_true in Hk as ->.
    + rewrite app_comm_cons, (assoc_L (++)) in Heq. apply app_inj_tail in Heq as [-> <-].
      apply Forall_app in Ha as [Ha [prev Hg]%Forall_singleton]. cbn in Hg. rewrite Hg.
      destruct (group_differs prev s); [done|]. apply IH. by exists b, g', s', p, a.
Qed.

(** ** Concrete counters *)
Record SampleGas := mkSampleGas { s_limit : Z; s_spent : Z; s_refunded : Z; s_words : Z; s_cost : Z }.
#[local] Instance sample_gas_types : GasTypes := {|
  Gas := SampleGas; InstructionResult := bool;
  limit := s_limit; remaining g := s_limit g - s_spent g; refunded := s_refunded;
  total_gas_spent := s_spent; words_num := s_words; expansion_cost := s_cost;
  set_memory g w c := mkSampleGas (s_limit g) (s_spent g) (s_refunded g) w c;
  gas_new l := mkSampleGas l 0 0 0 0;
  is_ok_or_revert b := b; is_halt b := negb b;
|}.
#[local] Instance sample_gas_laws : GasLaws.
Proof. by split; try (intros []). Defined.

Definition spent (n : Z) : SampleGas := mkSampleGas 10000 n 0 0 0.

(** Paused at 100 spent, a call of 40 in between. *)
Definition sample_frame : Frame :=
  Op (spent 100) (spent 103)
    (Sub (spent 5) (Op (spent 5) (spent 30) (Exit (spent 30) (spent 40) true))
       (Exit (mkSampleGas 10000 150 0 2 6) (spent 160) true)).

Lemma paused_gas_constant_witness :
  let m := with_flags metering_default true false false in
  frames_exit sample_frame ∧ pausing m [] ∧
  ∃ m', run_frame 1 m sample_frame
    = (m', [spent 100; spent 5; spent 5; mkSampleGas 10000 100 0 2 6]) ∧ pausing m' [].
Proof.
  cbn zeta. assert (Hf : frames_exit sample_frame) by (split_and!; reflexivity).
  assert (Hm : pausing (with_flags metering_default true false false) []) by (split_and!; reflexivity).
  split; [exact Hf|]. split; [exact Hm|].
  apply (paused_gas_constant sample_frame 1 _ [] (spent 100) Hf). right.
  split; [exact Hm|split; reflexivity].
Defined.

Definition sample_cheats : Cheatcodes := mkCheatcodes metering_default ∅ (Some "Test"%string).

Lemma metering_events_safe_witness :
  Some "Test"%string ≠ None ∧
  match run_events sample_cheats [StartSnapshotGas 1 None "a"; Step (mkInterpreter (spent 10) None) 1;
          Step (mkInterpreter (spent 50) None) 1; StopSnapshotGas None None] with
  | Some st => metering_wf (gas_metering st)
  | None => False
  end.
Proof.
  assert (Ha : Some "Test"%string ≠ None) by discriminate. split; [exact Ha|].
  pose proof (metering_events_safe _ [StartSnapshotGas 1 None "a"; Step (mkInterpreter (spent 10) None) 1;
          Step (mkInterpreter (spent 50) None) 1; StopSnapshotGas None None] Ha) as H.
  cbn zeta in H. change (mkCheatcodes metering_default ∅ (Some "Test"%string)) with sample_cheats in H.
  revert H. vm_compute. done.
Defined.

(** After a snapshot that ended at 500, work up to 3000; the second section
    runs from 3000 to 3400 but is said to have cost 2729. *)
Definition sample_between : Cheatcodes :=
  with_metering sample_cheats (with_recorded metering_default 500 []).

Lemma gas_snapshot_measures_witness :
  ∃ st1 st2, apply_startSnapshotGas_1 sample_between 1 "group" "second" = Some (st1, Ok Nothing) ∧
    apply_stopSnapshotGas_0
      (with_metering st1 (run_steps (gas_metering st1) [(1%nat, spent 3000); (2%nat, spent 7); (1%nat, spent 3400)]))
      = Some (st2, Ok (ReturnedU64 2729)) ∧
    gas_snapshots st2 !! "group"%string ≫= (.!! "second"%string) = Some (pretty 2729) ∧
    active_gas_snapshot (gas_metering st2) = None ∧ last_gas_used (gas_metering st2) = 3400.
Proof.
  apply (gas_snapshot_measures sample_between "group" "second" 1
           [(1%nat, spent 3000); (2%nat, spent 7); (1%nat, spent 3400)] 3000 [3400] 3400).
  - by split.
  - reflexivity.
  - reflexivity.
  - reflexivity.
  - reflexivity.
  - lia.
  - repeat constructor; lia.
  - repeat constructor; vm_compute; done.
  - reflexivity.
  - cbn. lia.
Defined.
