(* ===== verification/Linking.v ===== *)
(** * Linking libraries: linking/src/lib.rs

    [Linker] finds the libraries a contract needs, gives each an address and
    links the bytecode.  Artifacts, bytecode and its linking belong to
    foundry-compilers, addresses to alloy: a class gives what is called of
    them.  A path is the list of its components; the ordered maps and sets of
    the code are finite maps, listed in the order of an interface (the code's
    is the ascending one, theorems hold for any). *)
From stdpp Require Import base list gmap strings.
From Stdlib Require Import ZArith Lia Ascii.
From S2P Require Import Prelude Containers.
#[local] Open Scope list_scope.

#[local] Abbreviation Path := (list string) (only parsing).

Class LinkTypes := {
  ArtifactId : Type;
  #[global] id_eq_dec :: EqDecision ArtifactId;
  #[global] id_countable :: Countable ArtifactId;
  source : ArtifactId → Path;
  name : ArtifactId → string;
  Version : Type;
  #[global] version_eq_dec :: EqDecision Version;
  version : ArtifactId → Version;
  CompactBytecode : Type;
  Bytes : Type;
  link_references : CompactBytecode → gmap Path (gset string);
  bytecode_link : CompactBytecode → Path → string → Z → CompactBytecode;
  is_unlinked : CompactBytecode → bool;
  bytes : CompactBytecode → option Bytes;
  create : Z → Z → Z;                          (* of a sender and a nonce *)
  create2_from_code : Z → Z → Bytes → Z;
  to_checksum : Z → string;
  address_from_str : string → option Z;
}.

(** [Libraries]: the addresses of libraries, by file and name. *)
Abbreviation Libraries := (gmap (list string) (gmap string string)) (only parsing).

Section linker.
Context `{!LinkTypes, !HashOrder ArtifactId, !HashOrder Path, !HashOrder string}.

(** [CompactContractBytecode]. *)
Record Contract := mkContract {
  bytecode : option CompactBytecode;
  deployed_bytecode : option (option CompactBytecode);
}.
Record Linker := mkLinker { root : Path; contracts : gmap ArtifactId Contract }.
Record LinkOutput := mkLinkOutput { libraries : Libraries; libs_to_deploy : list Bytes }.

Inductive LinkerError :=
| MissingLibraryArtifact (file : Path) (name : string)
| MissingTargetArtifact
| InvalidAddress
| CyclicDependency
| LinkingFailed (source : Path).

Implicit Types (l : Linker) (libs : Libraries).

(** [Path::strip_prefix]. *)
Fixpoint strip_prefix (prefix p : Path) : option Path :=
  match prefix, p with
  | [], _ => Some p
  | c :: prefix, c' :: p => if bool_decide (c = c') then strip_prefix prefix p else None
  | _ :: _, [] => None
  end.
(** [split('.').next()]. *)
Fixpoint before_dot (s : string) : string :=
  match s with
  | EmptyString => EmptyString
  | String c s => if Ascii.eqb c "."%char then EmptyString else String c (before_dot s)
  end.

Definition convert_artifact_id_to_lib_path l (id : ArtifactId) : Path * string :=
  (default (source id) (strip_prefix (root l) (source id)), before_dot (name id)).

Definition find_artifact_id_by_library_path l (file : Path) (lib : string) (v : option Version)
    : option ArtifactId :=
  find (λ id, match v with Some v => bool_decide (version id = v) | None => true end
              && bool_decide (convert_artifact_id_to_lib_path l id = (file, lib)))
    (iter_set (dom (contracts l))).

(** The references of both bytecodes, merged. *)
Definition extend (refs : gmap Path (gset string)) (b : option CompactBytecode) : gmap Path (gset string) :=
  match b with
  | Some b => union_with (λ x y, Some (x ∪ y)) refs (link_references b)
  | None => refs
  end.
Definition references (c : Contract) : list (Path * string) :=
  let refs := extend (extend ∅ (bytecode c)) (default None (deployed_bytecode c)) in
  '(file, libs) ← iter_map refs; pair file <$> iter_set libs.

(** The loop over the references: [collect] is the recursive call. *)
Fixpoint visit_references l
    (collect : ArtifactId → gset ArtifactId → option (result LinkerError (gset ArtifactId)))
    (v : Version) (refs : list (Path * string)) (deps : gset ArtifactId)
    : option (result LinkerError (gset ArtifactId)) :=
  match refs with
  | [] => Some (Ok deps)
  | (file, lib) :: refs =>
      match find_artifact_id_by_library_path l file lib (Some v) with
      | None => Some (Err (MissingLibraryArtifact file lib))
      | Some id =>
          if bool_decide (id ∈ deps) then visit_references l collect v refs deps
          else
            r ← collect id ({[id]} ∪ deps);
            match r with
            | Ok deps => visit_references l collect v refs deps
            | Err e => Some (Err e)
            end
      end
  end.

(** A depth-first search; every recursive call has added an artifact, so that
    their number bounds the depth. *)
Fixpoint collect_dependencies (fuel : nat) l (target : ArtifactId) (deps : gset ArtifactId)
    : option (result LinkerError (gset ArtifactId)) :=
  match fuel with
  | O => None
  | S fuel =>
      match contracts l !! target with
      | None => Some (Err MissingTargetArtifact)
      | Some c =>
          visit_references l (collect_dependencies fuel l) (version target) (references c) deps
      end
  end.
Definition collect_fuel l : nat := S (size (dom (contracts l))).

Fixpoint collect_targets l (targets : list ArtifactId) (deps : gset ArtifactId)
    : option (result LinkerError (gset ArtifactId)) :=
  match targets with
  | [] => Some (Ok deps)
  | t :: targets =>
      r ← collect_dependencies (collect_fuel l) l t deps;
      match r with Ok deps => collect_targets l targets deps | Err e => Some (Err e) end
  end.

(** ** Linking one contract *)
Definition link_contract (c : Contract) (file : Path) (lib : string) (address : Z) : Contract :=
  let relink := fmap (M:=option) (λ b, bytecode_link b file lib address) in
  mkContract (relink (bytecode c)) (relink <$> deployed_bytecode c).

Definition library_list libs : list (Path * string * string) :=
  '(file, names) ← iter_map libs; '(lib, address) ← iter_map names; [(file, lib, address)].

Fixpoint link_all (c : Contract) (ls : list (Path * string * string)) : result LinkerError Contract :=
  match ls with
  | [] => Ok c
  | (file, lib, address) :: ls =>
      match address_from_str address with
      | Some a => link_all (link_contract c file lib a) ls
      | None => Err InvalidAddress
      end
  end.

Definition link l (target : ArtifactId) libs : result LinkerError Contract :=
  match contracts l !! target with
  | Some c => link_all c (library_list libs)
  | None => Err MissingTargetArtifact
  end.

Definition ensure_linked (c : Contract) (target : ArtifactId) : result LinkerError unit :=
  if from_option is_unlinked false (bytecode c)
     || from_option is_unlinked false (default None (deployed_bytecode c))
  then Err (LinkingFailed (source target)) else Ok tt.

Definition get_library libs (p : Path * string) : option string := libs !! p.1 ≫= (.!! p.2).
Definition insert_library libs (p : Path * string) (address : string) : Libraries :=
  <[p.1 := <[p.2 := address]> (default ∅ (libs !! p.1))]> libs.

(** ** Linking with the sender's nonce *)
Record Assigned := mkAssigned {
  as_libraries : Libraries; as_deploy : list (ArtifactId * Z); as_nonce : Z;
}.

(** [or_insert_with]; the addition to the nonce may overflow. *)
Definition assign_address l (sender : Z) (st : Assigned) (id : ArtifactId) : option Assigned :=
  let p := convert_artifact_id_to_lib_path l id in
  match get_library (as_libraries st) p with
  | Some _ => Some st
  | None =>
      let address := create sender (as_nonce st) in
      nonce ← checked u64_max (as_nonce st + 1);
      Some (mkAssigned (insert_library (as_libraries st) p (to_checksum address))
              (as_deploy st ++ [(id, address)]) nonce)
  end.

(** [self.link(..)?.get_bytecode_bytes().unwrap()]. *)
Definition linked_bytes l libs (id : ArtifactId) : option (result LinkerError Bytes) :=
  match link l id libs with
  | Err e => Some (Err e)
  | Ok c => b ← bytecode c ≫= bytes; Some (Ok b)
  end.
Fixpoint linked_all l libs (ids : list (ArtifactId * Z)) : option (result LinkerError (list Bytes)) :=
  match ids with
  | [] => Some (Ok [])
  | (id, _) :: ids =>
      r ← linked_bytes l libs id;
      rs ← linked_all l libs ids;
      Some (b ← r; bs ← rs; Ok (b :: bs))
  end.

Context (with_stripped_file_prefixes : Libraries → Path → Libraries).

Definition link_with_nonce_or_address l libs (sender nonce : Z) (targets : list ArtifactId)
    : option (result LinkerError LinkOutput) :=
  let libs := with_stripped_file_prefixes libs (root l) in
  r ← collect_targets l targets ∅;
  match r with
  | Err e => Some (Err e)
  | Ok needed =>
      st ← fold_m (assign_address l sender) (mkAssigned libs [] nonce) (iter_set needed);
      bs ← linked_all l (as_libraries st) (as_deploy st);
      Some (bs ← bs; Ok (mkLinkOutput (as_libraries st) bs))
  end.

(** ** Linking with CREATE2 *)
(** [self.link(id, ..).unwrap().bytecode.unwrap()]. *)
Definition linked_bytecode l libs (id : ArtifactId) : option (ArtifactId * CompactBytecode) :=
  match link l id libs with
  | Ok c => b ← bytecode c; Some (id, b)
  | Err _ => None
  end.

Record Deploying := mkDeploying {
  de_needed : list (ArtifactId * CompactBytecode); de_codes : list Bytes; de_libraries : Libraries;
}.

(** The [while] loop: deploy the first library that is fully linked. *)
Definition deploy_step l (sender salt : Z) (st : Deploying)
    : option (Deploying + result LinkerError LinkOutput) :=
  match de_needed st with
  | [] => Some (inr (Ok (mkLinkOutput (de_libraries st) (de_codes st))))
  | _ =>
      match position (λ x, negb (is_unlinked x.2)) (de_needed st) with
      | None => Some (inr (Err CyclicDependency))
      | Some index =>
          '(id, b) ← de_needed st !! index;
          code ← bytes b;
          let address := create2_from_code sender salt code in
          let p := convert_artifact_id_to_lib_path l id in
          let needed := (λ x, (x.1, bytecode_link x.2 p.1 p.2 address))
                          <$> swap_remove (de_needed st) index in
          Some (inl (mkDeploying needed (de_codes st ++ [code])
                       (insert_library (de_libraries st) p (to_checksum address))))
      end
  end.

Definition link_with_create2 l libs (sender salt : Z) (target : ArtifactId)
    : option (result LinkerError LinkOutput) :=
  let libs := with_stripped_file_prefixes libs (root l) in
  r ← collect_dependencies (collect_fuel l) l target ∅;
  match r with
  | Err e => Some (Err e)
  | Ok deps =>
      let missing := filter (λ id, get_library libs (convert_artifact_id_to_lib_path l id) = None)
                       (iter_set deps) in
      needed ← mapM (linked_bytecode l libs) missing;
      loop (deploy_step l sender salt) (S (length needed)) (mkDeploying needed [] libs)
  end.

Fixpoint get_linked l libs (ids : list ArtifactId) : result LinkerError (list (ArtifactId * Contract)) :=
  match ids with
  | [] => Ok []
  | id :: ids => c ← link l id libs; cs ← get_linked l libs ids; Ok ((id, c) :: cs)
  end.
Definition get_linked_artifacts l libs : result LinkerError (gmap ArtifactId Contract) :=
  list_to_map <$> get_linked l libs (iter_set (dom (contracts l))).
End linker.
