(* ===== verification/LinkingProofs.v ===== *)
(** * Which libraries are linked, and in which order they are deployed *)
From stdpp Require Import base list gmap strings relations.
From Stdlib Require Import ZArith Lia.
From S2P Require Import Prelude Containers Linking.
#[local] Open Scope list_scope.

#[local] Abbreviation Path := (list string) (only parsing).

Section dependencies.
Context `{!LinkTypes, !HashOrder ArtifactId, !HashOrder Path, !HashOrder string}.
Implicit Types (l : Linker) (a b t id : ArtifactId) (deps : gset ArtifactId).

(** ** The graph of references *)
Definition resolves l a (p : Path * string) : option ArtifactId :=
  find_artifact_id_by_library_path l p.1 p.2 (Some (version a)).
Definition refers_to l a (p : Path * string) : Prop :=
  ∃ c, contracts l !! a = Some c ∧ p ∈ references c.
Definition edge l a b : Prop := ∃ p, refers_to l a p ∧ resolves l a p = Some b.
Definition resolved l a : Prop :=
  is_Some (contracts l !! a) ∧ ∀ p, refers_to l a p → is_Some (resolves l a p).

Lemma find_elem_of {A} (f : A → bool) (xs : list A) x : find f xs = Some x → x ∈ xs ∧ f x = true.
Proof. intros [Hin Hf]%find_some. split; [by apply list_elem_of_In|done]. Qed.

Lemma resolves_in l a p b :
  resolves l a p = Some b →
  b ∈ dom (contracts l) ∧ convert_artifact_id_to_lib_path l b = p ∧ version b = version a.
Proof.
  intros [Hin Hf]%find_elem_of. apply elem_of_iter_set in Hin.
  apply andb_true_iff in Hf as [Hv%bool_decide_eq_true Hp%bool_decide_eq_true]. by destruct p.
Qed.
Lemma edge_in l a b : edge l a b → b ∈ dom (contracts l).
Proof. intros (p & _ & Hb). by eapply resolves_in. Qed.

(** What a search from [t] that started with [deps] has found. *)
Definition unexplored l deps : nat := size (dom (contracts l) ∖ deps).
Definition searched l t deps deps' : Prop :=
  deps ⊆ deps' ∧
  ∀ a, a ∈ deps' → a ∉ deps → tc (edge l) t a ∧ resolved l a ∧ ∀ b, edge l a b → b ∈ deps'.
Definition search_error l t (e : LinkerError) : Prop :=
  ∃ a p, rtc (edge l) t a ∧ refers_to l a p ∧ resolves l a p = None ∧ e = MissingLibraryArtifact p.1 p.2.

Lemma searched_refl l t deps : searched l t deps deps.
Proof. split; [done|]. intros a Ha Hn. done. Qed.

Lemma unexplored_insert l deps id :
  id ∈ dom (contracts l) → id ∉ deps → (unexplored l ({[id]} ∪ deps) < unexplored l deps)%nat.
Proof. intros Hin Hn. apply subset_size. set_solver. Qed.
Lemma unexplored_mono l deps deps' : deps ⊆ deps' → (unexplored l deps' ≤ unexplored l deps)%nat.
Proof. intros Hs. apply subseteq_size. set_solver. Qed.

(** The search of an edge, then of the rest. *)
Lemma searched_edge l t id deps deps1 deps' :
  edge l t id → resolved l id → (∀ b, edge l id b → b ∈ deps1) →
  searched l id ({[id]} ∪ deps) deps1 → searched l t deps1 deps' → searched l t deps deps'.
Proof.
  intros He Hid Hedges [Hs1 H1] [Hs2 H2]. split; [set_solver|]. intros a Ha Hn.
  destruct (decide (a ∈ deps1)) as [Ha1|Ha1]; [|by apply H2].
  destruct (decide (a = id)) as [->|Hne].
  - split_and!; [by apply tc_once|done|]. intros b Hb. apply Hs2. auto.
  - destruct (H1 a Ha1) as (Htc & Hr & Hc); [set_solver|].
    split_and!; [by eapply tc_l|done|]. intros b Hb. apply Hs2. auto.
Qed.

Lemma visit_spec l collect t refs deps fuel :
  (∀ id deps, id ∈ dom (contracts l) → (unexplored l deps < fuel)%nat →
     match collect id deps with
     | Some (Ok deps') => resolved l id ∧ (∀ b, edge l id b → b ∈ deps') ∧ searched l id deps deps'
     | Some (Err e) => search_error l id e
     | None => False
     end) →
  (∀ p, p ∈ refs → refers_to l t p) → (unexplored l deps ≤ fuel)%nat →
  match visit_references l collect (version t) refs deps with
  | Some (Ok deps') => searched l t deps deps' ∧
      ∀ p, p ∈ refs → ∃ b, resolves l t p = Some b ∧ b ∈ deps'
  | Some (Err e) => search_error l t e
  | None => False
  end.
Proof.
  intros Hcollect. revert deps. induction refs as [|[file lib] refs IH]; intros deps Hrefs Hfuel.
  { split; [apply searched_refl|]. by intros p ?%elem_of_nil. }
  cbn [visit_references]. assert (Ht : refers_to l t (file, lib)) by (apply Hrefs; constructor).
  assert (Hrefs' : ∀ p, p ∈ refs → refers_to l t p) by (intros; apply Hrefs; by constructor).
  destruct (find_artifact_id_by_library_path l file lib (Some (version t))) as [id|] eqn:Hid.
  2: { by exists t, (file, lib). }
  pose proof (resolves_in l t (file, lib) id Hid) as (Hin & _ & _).
  assert (He : edge l t id) by by exists (file, lib).
  destruct (bool_decide (id ∈ deps)) eqn:Hd.
  - apply bool_decide_eq_true in Hd. specialize (IH deps Hrefs' Hfuel).
    destruct (visit_references l collect (version t) refs deps) as [[deps'|e]|]; [|done..].
    destruct IH as [Hs Hp]. split; [done|]. intros p [->|Hin']%elem_of_cons; [|by apply Hp].
    exists id. split; [done|]. by apply Hs.
  - apply bool_decide_eq_false in Hd. pose proof (unexplored_insert l deps id Hin Hd) as Hlt.
    pose proof (Hcollect id ({[id]} ∪ deps) Hin ltac:(lia)) as Hc.
    destruct (collect id ({[id]} ∪ deps)) as [[deps1|e]|]; [| |done]; cbn [mbind option_bind].
    + destruct Hc as (Hres & Hedges & Hs1). specialize (IH deps1 Hrefs').
      pose proof (unexplored_mono l _ _ (proj1 Hs1)) as Hm. specialize (IH ltac:(lia)).
      destruct (visit_references l collect (version t) refs deps1) as [[deps'|e]|]; [|done..].
      destruct IH as [Hs2 Hp]. split; [by eapply searched_edge|].
      intros p [->|Hin']%elem_of_cons; [|by apply Hp]. exists id. split; [done|].
      apply Hs2, Hs1. set_solver.
    + destruct Hc as (a & p & Hr & Hc). exists a, p. split; [by eapply rtc_l|done].
Qed.

Lemma collect_spec l fuel t deps :
  (unexplored l deps < fuel)%nat →
  match collect_dependencies fuel l t deps with
  | Some (Ok deps') => resolved l t ∧ (∀ b, edge l t b → b ∈ deps') ∧ searched l t deps deps'
  | Some (Err e) => (e = MissingTargetArtifact ∧ t ∉ dom (contracts l)) ∨
      t ∈ dom (contracts l) ∧ search_error l t e
  | None => False
  end.
Proof.
  revert t deps. induction fuel as [|fuel IH]; intros t deps Hfuel; [lia|]. cbn [collect_dependencies].
  destruct (contracts l !! t) as [c|] eqn:Hc.
  2: { left. split; [done|]. by apply not_elem_of_dom. }
  assert (Hin : t ∈ dom (contracts l)) by (by eapply elem_of_dom_2).
  pose proof (visit_spec l (collect_dependencies fuel l) t (references c) deps fuel) as Hv.
  destruct (visit_references l _ _ _ _) as [[deps'|e]|]; [| |apply Hv; [|by eexists|lia]].
  - destruct Hv as [Hs Hp]; [|by eexists|lia|].
    { intros id d Hid Hlt. specialize (IH id d Hlt).
      destruct (collect_dependencies fuel l id d) as [[?|e]|]; [done| |done].
      by destruct IH as [[_ []]|[_ ?]]. }
    split_and!.
    + split; [by eexists|]. intros p (c' & Hc' & Hpin). rewrite Hc in Hc'. injection Hc' as <-.
      destruct (Hp p Hpin) as (b & -> & _). done.
    + intros b (p & (c' & Hc' & Hpin) & Hb). rewrite Hc in Hc'. injection Hc' as <-.
      destruct (Hp p Hpin) as (b' & Hb' & Hin'). rewrite Hb in Hb'. by injection Hb' as ->.
    + done.
  - right. split; [done|]. apply Hv; [|by eexists|lia]. intros id d Hid Hlt. specialize (IH id d Hlt).
    destruct (collect_dependencies fuel l id d) as [[?|e']|]; [done| |done].
    by destruct IH as [[_ []]|[_ ?]].
  - intros id d Hid Hlt. specialize (IH id d Hlt).
    destruct (collect_dependencies fuel l id d) as [[?|e']|]; [done| |done].
    by destruct IH as [[_ []]|[_ ?]].
Qed.

Definition closed l deps : Prop := ∀ a b, a ∈ deps → edge l a b → b ∈ deps.

Lemma closed_tc l deps a b : closed l deps → a ∈ deps → tc (edge l) a b → b ∈ deps.
Proof. intros Hc Ha Ht. induction Ht as [a b He|a b c He Ht IH]; [by eapply Hc|]. apply IH. by eapply Hc. Qed.

Lemma searched_closed l t deps deps' :
  closed l deps → (∀ b, edge l t b → b ∈ deps') → searched l t deps deps' →
  closed l deps' ∧ ∀ b, b ∈ deps' ↔ b ∈ deps ∨ tc (edge l) t b.
Proof.
  intros Hc Ht [Hs Hn]. assert (Hc' : closed l deps').
  { intros a b Ha He. destruct (decide (a ∈ deps)) as [Hd|Hd].
    - apply Hs. by eapply Hc.
    - by eapply Hn. }
  split; [done|]. intros b. split.
  - intros Hb. destruct (decide (b ∈ deps)); [by left|right]. by apply Hn.
  - intros [Hb|Hb]; [by apply Hs|]. inversion Hb as [? ? He|? c ? He Hr]; subst; [by apply Ht|].
    eapply closed_tc; [done| |done]. by apply Ht.
Qed.

(** Every reference of what was found is found. *)
Lemma collect_targets_closed l targets deps deps' :
  closed l deps → (∀ a, a ∈ deps → resolved l a) →
  collect_targets l targets deps = Some (Ok deps') →
  closed l deps' ∧ ∀ a, a ∈ deps' → resolved l a.
Proof.
  revert deps. induction targets as [|t targets IH]; intros deps Hc Hr; cbn [collect_targets].
  { by intros [= <-]. }
  pose proof (collect_spec l (collect_fuel l) t deps) as Hs. unfold collect_fuel in *.
  specialize (Hs ltac:(unfold unexplored; apply Nat.lt_succ_r, subseteq_size; set_solver)).
  destruct (collect_dependencies _ l t deps) as [[deps1|e]|]; [|done..]; cbn [mbind option_bind].
  destruct Hs as (_ & Ht & Hs). apply IH.
  - by eapply searched_closed.
  - intros a Ha. destruct (decide (a ∈ deps)); [auto|]. by apply Hs.
Qed.

(** The search for the libraries of some targets ends, whatever cycles the
    references have.  It finds the artifacts that a chain of references
    leads to; it fails only for a target or a referenced library that does
    not exist. *)
Lemma dependencies_are_reachable l (targets : list ArtifactId) :
  match collect_targets l targets ∅ with
  | Some (Ok deps) => ∀ b, b ∈ deps ↔ ∃ t, t ∈ targets ∧ tc (edge l) t b
  | Some (Err MissingTargetArtifact) => ∃ t, t ∈ targets ∧ t ∉ dom (contracts l)
  | Some (Err (MissingLibraryArtifact file lib)) =>
      ∃ t a, t ∈ targets ∧ rtc (edge l) t a ∧ refers_to l a (file, lib) ∧
        resolves l a (file, lib) = None
  | _ => False
  end.
Proof.
  assert (Hall : ∀ deps, closed l deps →
    match collect_targets l targets deps with
    | Some (Ok deps') => ∀ b, b ∈ deps' ↔ b ∈ deps ∨ ∃ t, t ∈ targets ∧ tc (edge l) t b
    | Some (Err MissingTargetArtifact) => ∃ t, t ∈ targets ∧ t ∉ dom (contracts l)
    | Some (Err (MissingLibraryArtifact file lib)) =>
        ∃ t a, t ∈ targets ∧ rtc (edge l) t a ∧ refers_to l a (file, lib) ∧
          resolves l a (file, lib) = None
    | _ => False
    end).
  { induction targets as [|t targets IH]; intros deps Hc; cbn [collect_targets].
    { intros b. set_solver. }
    pose proof (collect_spec l (collect_fuel l) t deps) as Hs. unfold collect_fuel in *.
    specialize (Hs ltac:(unfold unexplored; apply Nat.lt_succ_r, subseteq_size; set_solver)).
    destruct (collect_dependencies _ l t deps) as [[deps1|e]|]; [| |done]; cbn [mbind option_bind].
    - destruct Hs as (_ & Ht & Hs). destruct (searched_closed l t deps deps1 Hc Ht Hs) as [Hc1 Hin].
      specialize (IH deps1 Hc1).
      destruct (collect_targets l targets deps1) as [[deps'|[]]|]; [|set_solver..].
      intros b. rewrite IH, Hin. set_solver.
    - destruct Hs as [[-> Hn]|[_ (a & p & Hr & Hp & Hres & ->)]].
      + exists t. split; [constructor|done].
      + exists t, a. destruct p. split_and!; [constructor|done..]. }
  specialize (Hall ∅ ltac:(intros a b Ha; set_solver)).
  destruct (collect_targets l targets ∅) as [[deps'|[]]|]; [|done..]. set_solver.
Qed.
End dependencies.

(** ** The order of deployment: linking with CREATE2 and with a nonce

    Of the bytecode it is assumed that linking a library removes exactly its
    reference, and that code without references is linked and has bytes. *)
Definition refers `{!LinkTypes} (b : CompactBytecode) (p : Path * string) : Prop :=
  ∃ names, link_references b !! p.1 = Some names ∧ p.2 ∈ names.

Class LinkLaws `{!LinkTypes} := {
  refers_link b file lib a p :
    refers (bytecode_link b file lib a) p ↔ refers b p ∧ p ≠ (file, lib);
  is_unlinked_spec b : is_unlinked b = true ↔ ∃ p, refers b p;
  bytes_linked b : is_unlinked b = false → is_Some (bytes b);
  checksum_parses a : is_Some (address_from_str (to_checksum a));
}.

Section linking.
Context `{!LinkTypes, !HashOrder ArtifactId, !HashOrder Path, !HashOrder string, !LinkLaws}.
Implicit Types (l : Linker) (id : ArtifactId) (libs : Libraries) (p : Path * string).

Definition key l id : Path * string := convert_artifact_id_to_lib_path l id.

(** ** Libraries *)
Lemma get_insert_eq libs p a : get_library (insert_library libs p a) p = Some a.
Proof. unfold get_library, insert_library. by rewrite lookup_insert_eq; cbn; rewrite lookup_insert_eq. Qed.
Lemma get_insert_ne libs p q a : p ≠ q → get_library (insert_library libs p a) q = get_library libs q.
Proof.
  intros Hne. unfold get_library, insert_library. destruct (decide (p.1 = q.1)) as [He|He].
  - rewrite He, lookup_insert_eq. cbn. rewrite lookup_insert_ne.
    + by destruct (libs !! q.1); cbn; [|rewrite lookup_empty].
    + intros He'. apply Hne. by destruct p, q; cbn in *; subst.
  - by rewrite lookup_insert_ne.
Qed.

Lemma elem_of_library_list libs p a : (p, a) ∈ library_list libs ↔ get_library libs p = Some a.
Proof.
  unfold library_list, get_library. rewrite list_elem_of_bind. split.
  - intros ([file names] & Hin & Hf%elem_of_iter_map). cbn in Hin.
    apply list_elem_of_bind in Hin as ([lib a'] & Hin & Hn%elem_of_iter_map).
    apply list_elem_of_singleton in Hin as [= -> ->]. cbn. by rewrite Hf.
  - intros (names & Hf & Hn)%bind_Some. exists (p.1, names). split; [|by apply elem_of_iter_map].
    apply list_elem_of_bind. exists (p.2, a). split; [|by apply elem_of_iter_map].
    apply list_elem_of_singleton. by destruct p.
Qed.

Definition addresses_parse libs : Prop :=
  ∀ p a, get_library libs p = Some a → is_Some (address_from_str a).

Lemma link_all_spec c ls :
  (∀ p a, (p, a) ∈ ls → is_Some (address_from_str a)) →
  ∃ c', link_all c ls = Ok c' ∧
    match bytecode c with
    | Some b => ∃ b', bytecode c' = Some b' ∧ ∀ p, refers b' p ↔ refers b p ∧ p ∉ ls.*1
    | None => bytecode c' = None
    end.
Proof.
  revert c. induction ls as [|[[file lib] address] ls IH]; intros c Hls; cbn [link_all].
  { exists c. split; [done|]. destruct (bytecode c) as [b|]; [|done]. exists b. split; [done|].
    intros p. cbn. set_solver. }
  destruct (Hls (file, lib) address) as [a ->]; [constructor|].
  destruct (IH (link_contract c file lib a)) as (c' & Hc' & Hb); [set_solver|].
  exists c'. split; [done|]. unfold link_contract in Hb. cbn in Hb.
  destruct (bytecode c) as [b|]; [|done]. cbn in Hb. destruct Hb as (b' & Hb' & Hr).
  exists b'. split; [done|]. intros p. rewrite Hr, refers_link. cbn. set_solver.
Qed.

(** What is open in an artifact, given some libraries. *)
Definition opens l libs id p : Prop :=
  ∃ c b, contracts l !! id = Some c ∧ bytecode c = Some b ∧ refers b p ∧ get_library libs p = None.
Definition has_bytecode l id : Prop := ∃ c b, contracts l !! id = Some c ∧ bytecode c = Some b.

Lemma link_spec l libs id :
  addresses_parse libs → has_bytecode l id →
  ∃ c b, link l id libs = Ok c ∧ bytecode c = Some b ∧ ∀ p, refers b p ↔ opens l libs id p.
Proof.
  intros Hp (c & b & Hc & Hb). unfold link. rewrite Hc.
  destruct (link_all_spec c (library_list libs)) as (c' & -> & Hb').
  { intros p a Hin%elem_of_library_list. by eapply Hp. }
  rewrite Hb in Hb'. destruct Hb' as (b' & Hb' & Hr). exists c', b'. split_and!; [done..|].
  intros p. rewrite Hr. assert (p ∉ (library_list libs).*1 ↔ get_library libs p = None) as ->.
  { rewrite list_elem_of_fmap, eq_None_not_Some. split.
    - intros Hn [a Ha]. apply Hn. exists (p, a). split; [done|]. by apply elem_of_library_list.
    - intros Hn ([p' a] & -> & Hin%elem_of_library_list). apply Hn. by eexists. }
  split; [by intros [? ?]; exists c, b|]. intros (c1 & b1 & Hc1 & Hb1 & Hr1 & Hl). by simplify_eq.
Qed.

(** ** CREATE2 *)
Section create2.
Context (l : Linker) (libs0 : Libraries) (sender salt : Z).

(** Each library comes after those it refers to. *)
Inductive in_order : list ArtifactId → Prop :=
| in_order_nil : in_order []
| in_order_snoc order id :
    in_order order → (∀ p, opens l libs0 id p → p ∈ key l <$> order) → in_order (order ++ [id]).

Definition linked_so_far (order : list ArtifactId) (x : ArtifactId * CompactBytecode) : Prop :=
  ∀ p, refers x.2 p ↔ opens l libs0 x.1 p ∧ p ∉ key l <$> order.

Definition deploying (missing order : list ArtifactId) (st : Deploying) : Prop :=
  in_order order ∧ missing ≡ₚ order ++ (de_needed st).*1 ∧
  Forall (linked_so_far order) (de_needed st) ∧ length (de_codes st) = length order ∧
  (∀ id, id ∈ order → is_Some (get_library (de_libraries st) (key l id))) ∧
  (∀ p, p ∉ key l <$> order → get_library (de_libraries st) p = get_library libs0 p).

(** Libraries of which each waits for another one of them. *)
Definition stuck (missing S : list ArtifactId) : Prop :=
  S ≠ [] ∧ S ⊆ missing ∧
  ∀ id, id ∈ S → ∃ p, opens l libs0 id p ∧ ∀ id', id' ∈ missing → id' ∉ S → key l id' ≠ p.

Definition deployed (missing : list ArtifactId) (r : result LinkerError LinkOutput) : Prop :=
  match r with
  | Ok out => ∃ order, order ≡ₚ missing ∧ in_order order ∧
      length (libs_to_deploy out) = length order ∧
      (∀ id, id ∈ order → is_Some (get_library (libraries out) (key l id))) ∧
      (∀ p, p ∉ key l <$> order → get_library (libraries out) p = get_library libs0 p)
  | Err e => e = CyclicDependency ∧ ∃ S, stuck missing S
  end.

Lemma linked_so_far_link order x id a :
  linked_so_far order x →
  linked_so_far (order ++ [id]) (x.1, bytecode_link x.2 (key l id).1 (key l id).2 a).
Proof.
  intros Hx p. destruct (key l id) as [file lib] eqn:Hk. cbn [fst snd].
  rewrite refers_link, (Hx p), fmap_app, not_elem_of_app. cbn [fmap list_fmap].
  rewrite Hk, not_elem_of_cons. pose proof (not_elem_of_nil p). tauto.
Qed.

Lemma deploy_step_spec missing order st :
  NoDup missing → deploying missing order st →
  match deploy_step l sender salt st with
  | Some (inl st') => (∃ order', deploying missing order' st') ∧
      (length (de_needed st') < length (de_needed st))%nat
  | Some (inr r) => deployed missing r
  | None => False
  end.
Proof.
  intros Hnd (Hord & Hperm & Hneeded & Hlen & Hlibs & Hother). unfold deploy_step.
  destruct (de_needed st) as [|x0 xs] eqn:Hst.
  { exists order. cbn in Hperm. rewrite app_nil_r in Hperm. by rewrite Hperm. }
  rewrite <- Hst in *. destruct (position _ _) as [i|] eqn:Hpos.
  - apply position_Some in Hpos as ([id b] & Hi & Hb%negb_true_iff). cbn in Hb. rewrite Hi.
    destruct (bytes_linked b Hb) as [code Hcode]. cbn [mbind option_bind]. rewrite Hcode.
    cbn [mbind option_bind]. change (convert_artifact_id_to_lib_path l id) with (key l id).
    pose proof (swap_remove_Permutation (de_needed st) i (id, b) Hi) as Hsw.
    assert (Hx : linked_so_far order (id, b)).
    { eapply Forall_forall in Hneeded; [done|]. by eapply list_elem_of_lookup_2. }
    split.
    + exists (order ++ [id]). split_and!; cbn [de_needed de_codes de_libraries].
      * constructor; [done|]. intros p Hp. destruct (decide (p ∈ key l <$> order)) as [|Hn]; [done|].
        assert (is_unlinked b = true) as Hu; [|congruence].
        apply is_unlinked_spec. exists p. by apply (Hx p).
      * rewrite <- list_fmap_compose. apply (fmap_Permutation fst) in Hsw.
        rewrite Hperm, <- (assoc_L (++)). apply Permutation_app_head, Hsw.
      * apply Forall_fmap, Forall_forall. intros x Hin. apply linked_so_far_link.
        eapply Forall_forall in Hneeded; [done|]. rewrite Hsw. by constructor.
      * rewrite !length_app, Hlen. done.
      * intros id' [Hin| ->%list_elem_of_singleton]%elem_of_app.
        -- destruct (decide (key l id = key l id')) as [->|Hne].
           ++ by rewrite get_insert_eq.
           ++ rewrite get_insert_ne by done. by apply Hlibs.
        -- by rewrite get_insert_eq.
      * intros p Hp. rewrite fmap_app, not_elem_of_app in Hp. cbn in Hp.
        rewrite get_insert_ne by set_solver. apply Hother. set_solver.
    + cbn [de_needed]. rewrite length_fmap.
      apply Permutation_length in Hsw. cbn in Hsw. rewrite Hsw. lia.
  - split; [done|]. exists ((de_needed st).*1). split_and!.
    + by rewrite Hst.
    + rewrite Hperm. set_solver.
    + intros id ([id0 b] & -> & Hin)%list_elem_of_fmap. cbn [fst].
      pose proof (position_None _ _ _ Hpos Hin) as Hu. apply negb_false_iff in Hu.
      apply is_unlinked_spec in Hu as [p Hp].
      eapply Forall_forall in Hneeded as Hx; [|done]. apply (Hx p) in Hp as [Ho Hn].
      exists p. split; [done|]. intros id' Hid' Hns Heq. apply Hn. rewrite <- Heq.
      apply list_elem_of_fmap_2. rewrite Hperm in Hid'. set_solver.
Qed.
End create2.

Lemma mapM_linked l libs ids :
  addresses_parse libs → Forall (has_bytecode l) ids →
  ∃ needed, mapM (linked_bytecode l libs) ids = Some needed ∧ needed.*1 = ids ∧
    Forall (linked_so_far l libs []) needed.
Proof.
  intros Hp. induction 1 as [|id ids Hid _ (needed & Hm & Hfst & Hall)]; [by exists []|].
  destruct (link_spec l libs id Hp Hid) as (c & b & Hl & Hb & Hr).
  assert (Hlb : linked_bytecode l libs id = Some (id, b)) by (unfold linked_bytecode; by rewrite Hl, Hb).
  exists ((id, b) :: needed). cbn [mapM]. rewrite Hlb. cbn [mbind option_bind]. rewrite Hm. cbn.
  split_and!; [done|by rewrite Hfst|]. constructor; [|done]. intros p. cbn. rewrite Hr. set_solver.
Qed.

(** The needed libraries that no address was given for. *)
Definition missing_libraries l libs (deps : gset ArtifactId) : list ArtifactId :=
  filter (λ id, get_library libs (key l id) = None) (iter_set deps).


(** ** The sender's nonce *)
Lemma elem_of_references c p :
  p ∈ references c ↔
  ∃ names, extend (extend ∅ (bytecode c)) (default None (deployed_bytecode c)) !! p.1 = Some names ∧ p.2 ∈ names.
Proof.
  unfold references. rewrite list_elem_of_bind. split.
  - intros ([file names] & (lib & -> & Hl%elem_of_iter_set)%list_elem_of_fmap & Hin%elem_of_iter_map).
    by exists names.
  - intros (names & Hin & Hl). exists (p.1, names). split; [|by apply elem_of_iter_map].
    apply list_elem_of_fmap. exists p.2. split; [by destruct p|by apply elem_of_iter_set].
Qed.

Lemma refers_in_references c b p : bytecode c = Some b → refers b p → p ∈ references c.
Proof.
  intros Hb (names & Hn & Hin). apply elem_of_references. rewrite Hb. cbn [extend].
  assert (He : union_with (λ x y : gset string, Some (x ∪ y)) ∅ (link_references b) !! p.1 = Some names)
    by (by rewrite lookup_union_with, lookup_empty, Hn).
  destruct (default None (deployed_bytecode c)) as [b'|]; cbn [extend]; [|by eexists].
  rewrite lookup_union_with, He. destruct (link_references b' !! p.1) as [names'|]; cbn.
  - eexists. split; [done|]. set_solver.
  - by eexists.
Qed.

Section nonce.
Context (l : Linker) (libs0 : gmap Path (gmap string string)) (sender nonce : Z).

Definition address_at (i : nat) : Z := create sender (nonce + Z.of_nat i).

(** After the artifacts [done]. *)
Definition assigned (done : list ArtifactId) (st : Assigned) : Prop :=
  (as_deploy st).*2 = address_at <$> seq 0 (length (as_deploy st)) ∧
  as_nonce st = nonce + Z.of_nat (length (as_deploy st)) ∧
  (length (as_deploy st) ≤ length done)%nat ∧
  (∀ x, x ∈ as_deploy st → x.1 ∈ done ∧ get_library libs0 (key l x.1) = None ∧
     get_library (as_libraries st) (key l x.1) = Some (to_checksum x.2)) ∧
  NoDup (key l <$> (as_deploy st).*1) ∧
  (∀ id, id ∈ done → is_Some (get_library (as_libraries st) (key l id))) ∧
  (∀ p a, get_library libs0 p = Some a → get_library (as_libraries st) p = Some a) ∧
  (∀ p a, get_library (as_libraries st) p = Some a →
     get_library libs0 p = Some a ∨ ∃ x, x ∈ as_deploy st ∧ a = to_checksum x.2).

Lemma assign_spec done id st :
  0 ≤ nonce → nonce + Z.of_nat (length done) < u64_max →
  assigned done st → ∃ st', assign_address l sender st id = Some st' ∧ assigned (done ++ [id]) st'.
Proof.
  intros Hn0 Hmax (Haddr & Hnonce & Hlen & Hdep & Hnd & Hdone & Hold & Hnew). unfold assign_address.
  change (convert_artifact_id_to_lib_path l id) with (key l id).
  destruct (get_library (as_libraries st) (key l id)) as [a|] eqn:Hg.
  - eexists. split; [done|]. split_and!; try done.
    + rewrite length_app. lia.
    + intros x Hx. destruct (Hdep x Hx) as (? & ? & ?). split_and!; [set_solver|done..].
    + intros id' [?| ->%list_elem_of_singleton]%elem_of_app; [by apply Hdone|by eexists].
  - rewrite checked_in by lia. cbn [mbind option_bind]. eexists. split; [done|].
    assert (Hfresh : ∀ q a, get_library (as_libraries st) q = Some a → key l id ≠ q)
      by (intros q a Hq Hk; subst q; congruence).
    unfold assigned. cbn [as_deploy as_nonce as_libraries].
    rewrite !length_app. cbn [length]. split_and!.
    + rewrite fmap_app, Haddr, seq_app, fmap_app. cbn. by rewrite Hnonce.
    + lia.
    + lia.
    + intros x [Hx| ->%list_elem_of_singleton]%elem_of_app.
      * destruct (Hdep x Hx) as (Hin & Hl & Hl'). split_and!; [set_solver|done|].
        rewrite get_insert_ne; [done|by eapply Hfresh].
      * cbn. split_and!; [set_solver| |by rewrite get_insert_eq].
        destruct (get_library libs0 (key l id)) as [a|] eqn:Ha; [|done]. apply Hold in Ha. congruence.
    + rewrite !fmap_app. apply NoDup_app. split_and!; [done| |apply NoDup_singleton].
      intros q Hq ->%list_elem_of_singleton.
      apply list_elem_of_fmap in Hq as (id' & Hk & (x & -> & Hx)%list_elem_of_fmap).
      destruct (Hdep x Hx) as (_ & _ & Hx'). cbn in Hk. rewrite <- Hk in Hx'. congruence.
    + intros id' [Hin| ->%list_elem_of_singleton]%elem_of_app.
      * destruct (Hdone id' Hin) as [a Ha]. rewrite get_insert_ne; [by eexists|by eapply Hfresh].
      * by rewrite get_insert_eq.
    + intros p a Ha. apply Hold in Ha. rewrite get_insert_ne; [done|by eapply Hfresh].
    + intros p a. destruct (decide (key l id = p)) as [->|Hne].
      * rewrite get_insert_eq. intros [= <-]. right. exists (id, create sender (as_nonce st)). split; [set_solver|done].
      * rewrite get_insert_ne by done. intros [?|(x & Hx & ->)]%Hnew; [by left|].
        right. exists x. set_solver.
Qed.

Lemma assign_all ids done st :
  0 ≤ nonce → nonce + Z.of_nat (length (done ++ ids)) ≤ u64_max → assigned done st →
  ∃ st', fold_m (assign_address l sender) st ids = Some st' ∧ assigned (done ++ ids) st'.
Proof.
  intros Hn0. revert done st. induction ids as [|id ids IH]; intros done st Hmax Hst; cbn [fold_m].
  { exists st. by rewrite app_nil_r. }
  rewrite length_app in Hmax. cbn in Hmax.
  destruct (assign_spec done id st Hn0 ltac:(lia) Hst) as (st1 & -> & Hst1).
  destruct (IH (done ++ [id]) st1) as (st2 & -> & Hst2); [|done|].
  - rewrite !length_app. cbn. lia.
  - exists st2. by rewrite <- (assoc_L (++)) in Hst2.
Qed.

Lemma linked_all_spec libs (ids : list (ArtifactId * Z)) :
  addresses_parse libs → (∀ x, x ∈ ids → has_bytecode l x.1 ∧ ∀ p, ¬ opens l libs x.1 p) →
  ∃ bs, linked_all l libs ids = Some (Ok bs) ∧ length bs = length ids.
Proof.
  intros Hp. induction ids as [|[id a] ids IH]; intros Hids; [by exists []|]. cbn [linked_all].
  destruct (Hids (id, a)) as [Hb Ho]; [constructor|]. cbn in Hb, Ho.
  destruct (link_spec l libs id Hp Hb) as (c & b & Hl & Hc & Hr).
  destruct (bytes_linked b) as [code Hcode].
  { apply not_true_is_false. intros [p Hr']%is_unlinked_spec. by apply Hr, Ho in Hr'. }
  unfold linked_bytes. rewrite Hl, Hc. cbn [mbind option_bind]. rewrite Hcode. cbn [mbind option_bind].
  destruct IH as (bs & Hbs & Hlen); [intros x Hx; apply Hids; by constructor|].
  rewrite Hbs. cbn. eexists. split; [done|]. cbn. by rewrite Hlen.
Qed.
End nonce.

(** Linking by nonce succeeds when every needed library has bytecode: the
    libraries that were given keep their addresses, the others get those of
    the sender's consecutive nonces in the order they are deployed, no two
    for the same library, and their bytecode is fully linked. *)
Lemma nonce_addresses_consecutive stripped l libs sender nonce targets deps :
  let libs0 := stripped libs (root l) in
  collect_targets l targets ∅ = Some (Ok deps) → addresses_parse libs0 →
  (∀ id, id ∈ deps → has_bytecode l id) → 0 ≤ nonce → nonce + Z.of_nat (size deps) ≤ u64_max →
  ∃ out order, link_with_nonce_or_address stripped l libs sender nonce targets = Some (Ok out) ∧
    length (libs_to_deploy out) = length order ∧ NoDup (key l <$> order) ∧
    (∀ i id, order !! i = Some id → id ∈ deps ∧ get_library libs0 (key l id) = None ∧
       get_library (libraries out) (key l id) = Some (to_checksum (address_at sender nonce i))) ∧
    (∀ id, id ∈ deps → is_Some (get_library (libraries out) (key l id))) ∧
    (∀ p a, get_library libs0 p = Some a → get_library (libraries out) p = Some a).
Proof.
  intros libs0 Hc Hp Hb Hn0 Hmax. unfold link_with_nonce_or_address. rewrite Hc. cbn [mbind option_bind].
  destruct (collect_targets_closed l targets ∅ deps) as [Hclosed Hres]; [by intros a b ?%elem_of_empty|by intros a ?%elem_of_empty|done|].
  destruct (assign_all l libs0 sender nonce (iter_set deps) [] (mkAssigned libs0 [] nonce)) as (st & Hst & Has);
    [done| | |].
  { cbn. rewrite iter_set_perm. exact Hmax. }
  { split_and!; cbn; try done; [lia|intros x Hx; set_solver|constructor|intros id Hx; set_solver|by left]. }
  cbn [app] in Has. destruct Has as (Haddr & _ & _ & Hdep & Hnd & Hdone & Hold & Hnew).
  change (stripped libs (root l)) with libs0. rewrite Hst. cbn [mbind option_bind].
  assert (Hdone' : ∀ id, id ∈ deps → is_Some (get_library (as_libraries st) (key l id)))
    by (intros id Hid; by apply Hdone, elem_of_iter_set).
  destruct (linked_all_spec l (as_libraries st) (as_deploy st)) as (bs & -> & Hlen).
  - intros p a [Ha|(x & _ & ->)]%Hnew; [by eapply Hp|apply checksum_parses].
  - intros x Hx. destruct (Hdep x Hx) as (Hin%elem_of_iter_set & _). split; [by apply Hb|].
    intros p (c & b & Hcx & Hbx & Hr & Hnone).
    assert (Href : refers_to l x.1 p) by (exists c; split; [done|by eapply refers_in_references]).
    destruct (proj2 (Hres _ Hin) p Href) as [d Hd]. pose proof (resolves_in l x.1 p d Hd) as (_ & Hk & _).
    destruct (Hdone' d) as [a Ha]; [eapply Hclosed; [exact Hin|by exists p]|].
    unfold key in Ha. rewrite Hk in Ha. congruence.
  - cbn [mbind option_bind result_bind]. exists (mkLinkOutput (as_libraries st) bs), ((as_deploy st).*1).
    cbn [libs_to_deploy libraries]. split_and!; [done|by rewrite length_fmap|done| |done..].
    intros i id Hi. apply list_lookup_fmap_Some in Hi as ([id' a] & -> & Hi). cbn [fst].
    destruct (Hdep (id', a)) as (Hin & Hl & Ha); [by eapply list_elem_of_lookup_2|]. cbn in *.
    split_and!; [by apply elem_of_iter_set|done|]. rewrite Ha. f_equal. f_equal.
    assert (Hi2 : (as_deploy st).*2 !! i = Some a) by (by rewrite list_lookup_fmap, Hi).
    rewrite Haddr, list_lookup_fmap, lookup_seq_lt in Hi2 by (by eapply lookup_lt_Some). by injection Hi2.
Qed.
End linking.

(** ** A contract with two libraries, one of which uses the other *)
Definition refs_link (b : gmap Path (gset string)) (file : Path) (lib : string) (_ : Z) : gmap Path (gset string) :=
  alter (λ names, names ∖ {[lib]}) file b.
Definition refs_open (b : gmap Path (gset string)) : bool :=
  existsb (λ x : Path * gset string, negb (bool_decide (x.2 = ∅))) (map_to_list b).

#[local] Instance sample_link_types : LinkTypes := {|
  ArtifactId := nat; source _ := ["src"; "Libs.sol"]%string;
  name n := match n with 0%nat => "Token" | 1%nat => "Pool.0.8.18" | _ => "Math" end%string;
  Version := unit; version _ := tt;
  CompactBytecode := gmap Path (gset string); Bytes := unit;
  link_references b := b; bytecode_link := refs_link; is_unlinked := refs_open;
  bytes b := if refs_open b then None else Some tt;
  create s n := s + n; create2_from_code s salt _ := s + salt;
  to_checksum a := "0x"%string; address_from_str _ := Some 0;
|}.
#[local] Instance sample_id_order : HashOrder ArtifactId := elements_order nat.
#[local] Instance sample_path_order : HashOrder Path := elements_order Path.
#[local] Instance sample_string_order : HashOrder string := elements_order string.

#[local] Instance sample_link_laws : LinkLaws.
Proof.
  split.
  - intros b file lib a p. unfold refers. cbn. unfold refs_link. split.
    + intros (names & Hl & Hin). destruct (decide (p.1 = file)) as [<-|Hne].
      * rewrite lookup_alter_eq in Hl. apply fmap_Some in Hl as (names' & Hl & ->).
        split; [exists names'; set_solver|]. intros Heq. rewrite Heq in Hin. cbn in Hin. set_solver.
      * rewrite lookup_alter_ne in Hl by done. split; [by exists names|]. by intros ->.
    + intros [(names & Hl & Hin) Hne]. destruct (decide (p.1 = file)) as [<-|Hf].
      * rewrite lookup_alter_eq, Hl. eexists. split; [done|]. apply elem_of_difference. split; [done|].
        intros <-%elem_of_singleton. apply Hne. by destruct p.
      * rewrite lookup_alter_ne by done. by exists names.
  - intros b. cbn. unfold refs_open. rewrite existsb_exists. split.
    + intros ([file names] & Hin%list_elem_of_In%elem_of_map_to_list & Hn%negb_true_iff%bool_decide_eq_false).
      apply set_choose_L in Hn as [lib Hlib]. by exists (file, lib), names.
    + intros ([file lib] & names & Hl & Hin). exists (file, names). split.
      * by apply list_elem_of_In, elem_of_map_to_list.
      * apply negb_true_iff, bool_decide_eq_false. cbn in *. set_solver.
  - intros b. cbn. by intros ->.
  - by intros a.
Defined.

Definition needs (l : list string) : Contract :=
  mkContract (Some (if l is [] then ∅ else {[["src"; "Libs.sol"]%string := list_to_set l]})) None.
Definition sample_linker : Linker :=
  mkLinker ["project"%string]
    (list_to_map [(0%nat, needs ["Pool"]); (1%nat, needs ["Math"]); (2%nat, needs [])]%string).
Definition sample_targets : list ArtifactId := [0%nat].
Definition sample_deps : gset ArtifactId := {[1%nat; 2%nat]}.
Definition kept (libs : gmap Path (gmap string string)) (_ : Path) := libs.

Lemma sample_collected : collect_targets sample_linker sample_targets ∅ = Some (Ok sample_deps).
Proof. vm_compute. reflexivity. Qed.
Lemma sample_parse libs : addresses_parse libs.
Proof. by intros p a _. Qed.
Lemma sample_bytecode id : id ∈ sample_deps → has_bytecode sample_linker id.
Proof.
  intros [->%elem_of_singleton| ->%elem_of_singleton]%elem_of_union; eexists _, _; split; reflexivity.
Qed.

Definition sample_missing : list ArtifactId := missing_libraries sample_linker ∅ sample_deps.


Lemma nonce_addresses_consecutive_witness :
  ∃ out order, link_with_nonce_or_address kept sample_linker ∅ 7 5 sample_targets = Some (Ok out) ∧
    length (libs_to_deploy out) = length order ∧ NoDup (key sample_linker <$> order).
Proof.
  destruct (nonce_addresses_consecutive kept sample_linker ∅ 7 5 sample_targets sample_deps)
    as (out & order & Hl & Hlen & Hnd & _).
  - exact sample_collected.
  - apply sample_parse.
  - apply sample_bytecode.
  - lia.
  - vm_compute. discriminate.
  - exists out, order. split; [exact Hl|]. split; [exact Hlen|exact Hnd].
Defined.

(** Two libraries that refer to each other. *)
Lemma cyclic_libraries_fail :
  link_with_create2 kept
    (mkLinker [] (list_to_map [(0%nat, needs ["Pool"]); (1%nat, needs ["Math"]); (2%nat, needs ["Pool"])]%string))
    ∅ 7 1 0%nat = Some (Err CyclicDependency).
Proof.
  set (o := link_with_create2 _ _ _ _ _ _).
  assert (match o with Some (Err CyclicDependency) => True | _ => False end) as Ho by (vm_compute; exact I).
  by destruct o as [[|[]]|].
Qed.

(** An address that is not one is an error when linking by nonce, and a panic
    with CREATE2. *)
Lemma create2_panics_on_invalid_address `{!LinkTypes, !HashOrder ArtifactId, !HashOrder Path, !HashOrder string}
    l (id : ArtifactId) libs e : link l id libs = Err e → linked_bytecode l libs id = None.
Proof. unfold linked_bytecode. by intros ->. Qed.
