(* ===== verification/Filters.v ===== *)
(** * Filters and subscriptions: anvil/src/filter.rs, pubsub.rs

    A client installs a filter and polls it for what is new, or subscribes and
    is sent it.  Both read the notifications of new blocks from an unbounded
    channel of their own; the backend holds the senders
    (anvil/src/eth/backend/mem/mod.rs).  A channel is an entry of a store that
    a receiver and a sender name; it is closed for the sender when its
    receiver is dropped.  What the storage has of blocks is an argument of each
    poll, and the runs of the proofs change it between polls: by mining, and
    by rollbacks, reverts, resets and pruning.  The logs of a block are matched
    by alloy's [FilteredParams], the clock and the random identifiers are
    arguments. *)
From stdpp Require Import base list gmap strings.
From Stdlib Require Import ZArith Lia.
From S2P Require Import Prelude.
#[local] Open Scope list_scope.

#[local] Abbreviation B256 := Z (only parsing).
#[local] Abbreviation Instant := Z (only parsing).

Class LogTypes := {
  RawLog : Type;
  log_address : RawLog → Z;
  log_topics : RawLog → list B256;
  Filter : Type;
  FilteredParams : Type;
  params_new : option Filter → FilteredParams;
  params_filter : FilteredParams → option Filter;
  filter_block_range : FilteredParams → Z → bool;
  filter_block_hash : FilteredParams → B256 → bool;
  filter_address : FilteredParams → Z → bool;
  filter_topics : FilteredParams → list B256 → bool;
}.

Section filters.
Context `{!LogTypes}.

(** ** The logs of a block *)
Record Block := mkBlock {
  block_hash : B256; block_number : Z; block_timestamp : Z; block_transactions : list B256;
}.
(** A receipt is its logs. *)
Abbreviation Receipt := (list RawLog).

Record Log := mkLog {
  inner : RawLog; log_block_hash : B256; log_block_number : Z; transaction_hash : B256;
  transaction_index : Z; log_index : Z; log_timestamp : Z;
}.

Definition u32_max : Z := 2 ^ 32 - 1.

Definition add_log (l : RawLog) (b : Block) (params : FilteredParams) : bool :=
  match params_filter params with
  | Some _ =>
      filter_block_range params (block_number b) && filter_block_hash params (block_hash b)
      && filter_address params (log_address l) && filter_topics params (log_topics l)
  | None => true
  end.

(** The logs of one receipt; [None] is an overflow of the index. *)
Fixpoint receipt_logs (b : Block) (params : FilteredParams) (tx : B256) (receipt_index : nat)
    (ls : list RawLog) (st : list Log * Z) : option (list Log * Z) :=
  match ls with
  | [] => Some st
  | l :: ls =>
      let '(logs, index) := st in
      let logs :=
        if add_log l b params
        then logs ++ [mkLog l (block_hash b) (block_number b) tx (Z.of_nat receipt_index) index
                        (block_timestamp b)]
        else logs in
      index ← checked u32_max (index + 1);
      receipt_logs b params tx receipt_index ls (logs, index)
  end.

(** The receipts from an index on; [None] also when there is no transaction
    for a receipt. *)
Fixpoint receipts_logs (b : Block) (params : FilteredParams) (receipt_index : nat)
    (rs : list Receipt) (st : list Log * Z) : option (list Log * Z) :=
  match rs with
  | [] => Some st
  | r :: rs =>
      tx ← block_transactions b !! receipt_index;
      st ← receipt_logs b params tx receipt_index r st;
      receipts_logs b params (S receipt_index) rs st
  end.
Definition filter_logs (b : Block) (rs : list Receipt) (params : FilteredParams) : option (list Log) :=
  fst <$> receipts_logs b params 0 rs ([], 0).

(** ** Notifications *)
Record Channel := mkChannel { queue : list B256; receiving : bool }.
Record Hub := mkHub {
  channels : gmap nat Channel; next_channel : nat; new_block_listeners : list nat;
}.
Definition hub_default : Hub := mkHub ∅ 0 [].
Implicit Types (h : Hub).

Definition is_closed h (tx : nat) : bool :=
  match channels h !! tx with Some c => negb (receiving c) | None => true end.
Definition unbounded_send h (tx : nat) (x : B256) : Hub :=
  mkHub (alter (λ c, mkChannel (queue c ++ [x]) (receiving c)) tx (channels h)) (next_channel h)
    (new_block_listeners h).

Definition new_block_notifications h : Hub * nat :=
  let n := next_channel h in
  (mkHub (<[n := mkChannel [] true]> (channels h)) (S n) (new_block_listeners h ++ [n]), n).

(** A channel that something else than the backend sends to. *)
Definition new_channel h : Hub * nat :=
  let n := next_channel h in
  (mkHub (<[n := mkChannel [] true]> (channels h)) (S n) (new_block_listeners h), n).

(** [retain]: a send to a closed channel fails. *)
Fixpoint send_all (h : Hub) (l : list nat) (x : B256) : Hub * list nat :=
  match l with
  | [] => (h, [])
  | tx :: l =>
      if is_closed h tx then send_all h l x
      else let '(h, kept) := send_all (unbounded_send h tx x) l x in (h, tx :: kept)
  end.
Definition notify_on_new_block h (hash : B256) : Hub :=
  let open := filter (λ tx, is_closed h tx = false) (new_block_listeners h) in
  let '(h, kept) := send_all h open hash in
  mkHub (channels h) (next_channel h) kept.

(** Dropping a receiver, and receiving everything that is there. *)
Definition drop_receiver h (rx : nat) : Hub :=
  mkHub (alter (λ c, mkChannel [] false) rx (channels h)) (next_channel h) (new_block_listeners h).
Definition received h (rx : nat) : list B256 := from_option queue [] (channels h !! rx).
Definition set_queue h (rx : nat) (q : list B256) : Hub :=
  mkHub (alter (λ c, mkChannel q (receiving c)) rx (channels h)) (next_channel h) (new_block_listeners h).

(** ** Filters *)
(** [StorageInfo]: what the storage of the backend has of a block at the moment
    it is asked.  It is an argument of every poll: mining adds to it, a
    rollback, a revert or a reset replaces it between two polls. *)
Definition Storage : Type := B256 → option Block * option (list Receipt).
Context (storage : Storage).

Record LogsFilter := mkLogsFilter {
  blocks : nat; filter : FilteredParams; historic : option (list Log);
}.
Inductive EthFilter :=
| Logs (f : LogsFilter)
| Blocks (rx : nat)
| PendingTransactions (rx : nat).

Definition receiver (f : EthFilter) : nat :=
  match f with Logs f => blocks f | Blocks rx | PendingTransactions rx => rx end.

Definition block_logs (params : FilteredParams) (hash : B256) : option (list Log) :=
  match storage hash with
  | (Some b, Some rs) => filter_logs b rs params
  | _ => Some []
  end.

(** The [while let] loop over what the channel holds. *)
Fixpoint extend_logs (params : FilteredParams) (logs : list Log) (q : list B256) : option (list Log) :=
  match q with
  | [] => Some logs
  | hash :: q => ls ← block_logs params hash; extend_logs params (logs ++ ls) q
  end.

Inductive Changes := NewLogs (l : list Log) | NewHashes (l : list B256).

Definition filter_poll h (f : EthFilter) : option (Hub * EthFilter * Changes) :=
  match f with
  | Logs lf =>
      logs ← extend_logs (filter lf) (default [] (historic lf)) (received h (blocks lf));
      Some (set_queue h (blocks lf) [], Logs (mkLogsFilter (blocks lf) (filter lf) None), NewLogs logs)
  | Blocks rx | PendingTransactions rx => Some (set_queue h rx [], f, NewHashes (received h rx))
  end.

Definition ACTIVE_FILTER_TIMEOUT_SECS : Z := 60 * 5.

Record Filters := mkFilters { active_filters : gmap string (EthFilter * Instant); keepalive : Z }.
Definition filters_default : Filters := mkFilters ∅ ACTIVE_FILTER_TIMEOUT_SECS.

Record Server := mkServer { hub : Hub; filters : Filters }.
Implicit Types (s : Server).

Definition next_deadline s (now : Instant) : Instant := now + keepalive (filters s).
Definition with_active s h m : Server := mkServer h (mkFilters m (keepalive (filters s))).

(** An entry that is replaced or removed drops its receiver. *)
Definition drop_entry h (e : option (EthFilter * Instant)) : Hub :=
  match e with Some (f, _) => drop_receiver h (receiver f) | None => h end.

Definition add_filter s (id : string) (f : EthFilter) (now : Instant) : Server :=
  let m := active_filters (filters s) in
  with_active s (drop_entry (hub s) (m !! id)) (<[id := (f, next_deadline s now)]> m).

Definition get_filter_changes s (id : string) (now : Instant) : option (Server * Changes) :=
  match active_filters (filters s) !! id with
  | Some (f, _) =>
      '(h, f, changes) ← filter_poll (hub s) f;
      Some (with_active s h (<[id := (f, next_deadline s now)]> (active_filters (filters s))), changes)
  | None => Some (s, NewHashes [])
  end.

Definition get_log_filter s (id : string) : option Filter :=
  match active_filters (filters s) !! id with
  | Some (Logs lf, _) => params_filter (filter lf)
  | _ => None
  end.

Definition uninstall_filter s (id : string) : Server * bool :=
  let m := active_filters (filters s) in
  (with_active s (drop_entry (hub s) (m !! id)) (delete id m), bool_decide (is_Some (m !! id))).

(** [retain]: the entries whose deadline has passed are dropped. *)
Definition evict s (now : Instant) : Server :=
  let m := active_filters (filters s) in
  let stale := base.filter (λ x, x.2.2 < now) (map_to_list m) in
  with_active s (foldl (λ h x, drop_entry h (Some x.2)) (hub s) stale)
    (base.filter (λ x, ¬ x.2.2 < now) m).

(** ** The API *)
(** [existing] is what [backend.logs] finds, which is asked when the filter has
    a first block. *)
Definition new_filter s (id : string) (f : Filter) (existing : list Log) (has_from_block : bool)
    (now : Instant) : Server :=
  let '(h, rx) := new_block_notifications (hub s) in
  let historic := if has_from_block then existing else [] in
  add_filter (mkServer h (filters s)) id
    (Logs (mkLogsFilter rx (params_new (Some f)) (Some historic))) now.
Definition new_block_filter s (id : string) (now : Instant) : Server :=
  let '(h, rx) := new_block_notifications (hub s) in
  add_filter (mkServer h (filters s)) id (Blocks rx) now.
Definition new_pending_transaction_filter s (id : string) (now : Instant) : Server :=
  let '(h, rx) := new_channel (hub s) in
  add_filter (mkServer h (filters s)) id (PendingTransactions rx) now.
Definition get_filter_logs s (id : string) (logs : Filter → list Log) : list Log :=
  match get_log_filter s id with Some f => logs f | None => [] end.

(** ** Subscriptions *)
Record LogsSubscription := mkLogsSubscription {
  sub_blocks : nat; sub_filter : FilteredParams; queued : list Log;
}.

(** [Ready(None)] is the end of a channel that is closed. *)
Inductive Poll (A : Type) := Pending | Ready (a : option A).
Arguments Pending {A}.
Arguments Ready {A} a.

(** The loop of [poll] over what the channel holds; [closed] says that the
    sender is gone. *)
Fixpoint subscription_poll (closed : bool) (params : FilteredParams) (queued : list Log) (q : list B256)
    : option (Poll Log * list Log * list B256) :=
  match queued with
  | log :: queued => Some (Ready (Some log), queued, q)
  | [] =>
      match q with
      | [] => Some (if closed then Ready None else Pending, [], [])
      | hash :: q =>
          match storage hash with
          | (Some b, Some rs) =>
              logs ← filter_logs b rs params;
              match logs with
              | [] => subscription_poll closed params [] q
              | log :: queued => Some (Ready (Some log), queued, q)
              end
          | _ => Some (Pending, [], q)
          end
      end
  end.

Definition logs_subscription_poll h (closed : bool) (sub : LogsSubscription)
    : option (Hub * LogsSubscription * Poll Log) :=
  '(p, queued, q) ← subscription_poll closed (sub_filter sub) (queued sub) (received h (sub_blocks sub));
  Some (set_queue h (sub_blocks sub) q, mkLogsSubscription (sub_blocks sub) (sub_filter sub) queued, p).

(** The headers: a block that is gone is skipped. *)
Fixpoint header_poll (closed : bool) (q : list B256) : Poll Block * list B256 :=
  match q with
  | [] => (if closed then Ready None else Pending, [])
  | hash :: q =>
      match fst (storage hash) with
      | Some b => (Ready (Some b), q)
      | None => header_poll closed q
      end
  end.
End filters.
Arguments Pending {A}.
Arguments Ready {A} a.

(** ** What clients are told *)
Section proofs.
Context `{!LogTypes} (storage : Storage).
Implicit Types (s : Server) (h : Hub) (id : string) (params : FilteredParams).

(** ** The logs of a block *)
Definition made_log (b : Block) (params : FilteredParams) (index : nat) (x : nat * RawLog) : option Log :=
  if add_log x.2 b params
  then Some (mkLog x.2 (block_hash b) (block_number b) (default 0 (block_transactions b !! x.1))
               (Z.of_nat x.1) (Z.of_nat index) (block_timestamp b))
  else None.

(** All logs of a block with the index of their receipt, in order. *)
Definition tagged (i : nat) (r : list RawLog) : list (nat * RawLog) := pair i <$> r.
Definition all_logs (n : nat) (rs : list (list RawLog)) : list (nat * RawLog) :=
  concat (imap (λ i, tagged (n + i)) rs).
Definition selected (b : Block) (params : FilteredParams) (n : nat) (l : list (nat * RawLog)) : list Log :=
  omap id (imap (λ k, made_log b params (n + k)) l).

Lemma length_tagged i r : length (tagged i r) = length r.
Proof. apply length_fmap. Qed.
Lemma selected_app b params n l1 l2 :
  selected b params n (l1 ++ l2) = selected b params n l1 ++ selected b params (n + length l1) l2.
Proof.
  unfold selected. rewrite imap_app, omap_app. f_equal. f_equal. apply imap_ext. intros k x _.
  unfold compose. by rewrite Nat.add_assoc.
Qed.
Lemma selected_cons b params n x l :
  selected b params n (x :: l) = option_list (made_log b params n x) ++ selected b params (S n) l.
Proof.
  change (x :: l) with ([x] ++ l). rewrite selected_app. f_equal.
  - unfold selected. cbn. rewrite Nat.add_0_r. by destruct (made_log b params n x).
  - cbn. by rewrite Nat.add_1_r.
Qed.
Lemma all_logs_cons n r rs : all_logs n (r :: rs) = tagged n r ++ all_logs (S n) rs.
Proof.
  unfold all_logs. cbn. rewrite Nat.add_0_r. f_equal. f_equal. apply imap_ext. intros i x _.
  unfold compose. by rewrite Nat.add_succ_r.
Qed.

Lemma receipt_logs_spec b params i ls logs n tx :
  block_transactions b !! i = Some tx → Z.of_nat (n + length ls) ≤ u32_max →
  receipt_logs b params tx i ls (logs, Z.of_nat n)
  = Some (logs ++ selected b params n (tagged i ls), Z.of_nat (n + length ls)).
Proof.
  intros Htx. revert logs n. induction ls as [|l ls IH]; intros logs n Hn; cbn [receipt_logs].
  { cbn. by rewrite app_nil_r, Nat.add_0_r. }
  cbn [length] in *. rewrite checked_in by lia. cbn [mbind option_bind].
  replace (Z.of_nat n + 1) with (Z.of_nat (S n)) by lia. rewrite IH by lia.
  unfold tagged. rewrite fmap_cons, selected_cons. f_equal. f_equal; [|lia].
  unfold made_log. cbn [fst snd]. rewrite Htx. cbn [default].
  destruct (add_log l b params); cbn [option_list]; by rewrite <- ?(assoc_L (++)).
Qed.

Lemma receipts_logs_spec b params i rs logs n :
  (i + length rs ≤ length (block_transactions b))%nat →
  Z.of_nat (n + length (concat rs)) ≤ u32_max →
  receipts_logs b params i rs (logs, Z.of_nat n)
  = Some (logs ++ selected b params n (all_logs i rs), Z.of_nat (n + length (concat rs))).
Proof.
  revert i logs n. induction rs as [|r rs IH]; intros i logs n Hi Hn; cbn [receipts_logs].
  { cbn. by rewrite app_nil_r, Nat.add_0_r. }
  cbn [length concat] in *. rewrite length_app in Hn.
  destruct (lookup_lt_is_Some_2 (block_transactions b) i) as [tx Htx]; [lia|]. rewrite Htx.
  cbn [mbind option_bind]. rewrite receipt_logs_spec by (done || lia). cbn [mbind option_bind].
  rewrite IH by lia. rewrite all_logs_cons, selected_app, length_app, length_tagged. f_equal. f_equal; [by rewrite <- (assoc_L (++))|lia].
Qed.

(** What the storage gives: a transaction for every receipt, and fewer logs
    than their index can count. *)
Definition receipts_ok (b : Block) (rs : list (list RawLog)) : Prop :=
  (length rs ≤ length (block_transactions b))%nat ∧ Z.of_nat (length (concat rs)) ≤ u32_max.
Definition storage_ok : Prop :=
  ∀ hash b rs, storage hash = (Some b, Some rs) → receipts_ok b rs.

Lemma filter_logs_total b rs params :
  receipts_ok b rs → filter_logs b rs params = Some (selected b params 0 (all_logs 0 rs)).
Proof.
  intros [Hl Hn]. unfold filter_logs. change 0 with (Z.of_nat 0) at 1.
  by rewrite (receipts_logs_spec b params 0 rs [] 0).
Qed.

(** The logs of a block that match a filter are those of its receipts in
    order, each with its transaction and the number of logs before it in the
    block, counting those that do not match. *)
Lemma filter_logs_spec b rs params :
  receipts_ok b rs →
  ∃ logs, filter_logs b rs params = Some logs ∧
    ∀ l, l ∈ logs ↔ ∃ k i raw tx, all_logs 0 rs !! k = Some (i, raw) ∧
      block_transactions b !! i = Some tx ∧ add_log raw b params = true ∧
      l = mkLog raw (block_hash b) (block_number b) tx (Z.of_nat i) (Z.of_nat k) (block_timestamp b).
Proof.
  intros Hok. eexists. split; [by apply filter_logs_total|]. destruct Hok as [Hlen _]. intros l.
  assert (Htx : ∀ k i raw, all_logs 0 rs !! k = Some (i, raw) → ∃ tx, block_transactions b !! i = Some tx).
  { intros k i raw Hk. apply list_elem_of_lookup_2 in Hk. unfold all_logs in Hk.
    apply list_elem_of_In, in_concat in Hk as (t & Ht%list_elem_of_In & Hin%list_elem_of_In).
    apply elem_of_lookup_imap_1 in Ht as (j & r & -> & Hj). cbn in Hin.
    apply list_elem_of_fmap in Hin as (raw' & [= -> ->] & _). apply lookup_lt_Some in Hj.
    apply lookup_lt_is_Some_2. lia. }
  unfold selected. rewrite list_elem_of_omap. split.
  - intros (o & (k & [i raw] & -> & Hk)%elem_of_lookup_imap_1 & Ho). cbn in Ho.
    unfold made_log in Ho. cbn [fst snd] in Ho. destruct (Htx _ _ _ Hk) as [tx Hi]. rewrite Hi in Ho.
    destruct (add_log raw b params) eqn:Ha; [|done]. injection Ho as <-. by exists k, i, raw, tx.
  - intros (k & i & raw & tx & Hk & Hi & Ha & ->). eexists. split.
    + apply elem_of_lookup_imap_2, Hk.
    + unfold made_log. cbn. by rewrite Ha, Hi.
Qed.
(** ** Channels *)
Lemma extend_logs_app params l q : extend_logs storage params l q = (l ++.) <$> extend_logs storage params [] q.
Proof.
  revert l. induction q as [|hash q IH]; intros l; cbn [extend_logs]; [by cbn; rewrite app_nil_r|].
  destruct (block_logs storage params hash) as [ls|]; [|done]. cbn [mbind option_bind app].
  rewrite (IH (l ++ ls)), (IH ls). destruct (extend_logs storage params [] q); cbn; [|done].
  by rewrite (assoc_L (++)).
Qed.

(** The logs of some blocks. *)
Definition logs_of params (q : list B256) : list Log := default [] (extend_logs storage params [] q).

Lemma extend_logs_total params l q :
  storage_ok → extend_logs storage params l q = Some (l ++ logs_of params q).
Proof.
  intros Hok. rewrite extend_logs_app. unfold logs_of.
  assert (is_Some (extend_logs storage params [] q)) as [ls ->]; [|done].
  induction q as [|hash q [ls IH]]; [by eexists|]. cbn [extend_logs].
  assert (is_Some (block_logs storage params hash)) as [ls' ->].
  { unfold block_logs. destruct (storage hash) as [[b|] [rs|]] eqn:Hs; [|by eexists..].
    rewrite filter_logs_total by (by eapply Hok). by eexists. }
  cbn [mbind option_bind]. rewrite extend_logs_app, IH. by eexists.
Qed.
Lemma logs_of_app params q1 q2 :
  storage_ok → logs_of params (q1 ++ q2) = logs_of params q1 ++ logs_of params q2.
Proof.
  intros Hok. assert (He : ∀ l, extend_logs storage params l (q1 ++ q2)
    = extend_logs storage params (l ++ logs_of params q1) q2).
  { induction q1 as [|hash q1 IH]; intros l.
    - by cbn; rewrite app_nil_r.
    - pose proof (extend_logs_total params l (hash :: q1) Hok) as Ht. cbn [app extend_logs] in *.
      destruct (block_logs storage params hash) as [ls|] eqn:Hb; [|done]. cbn [mbind option_bind] in *.
      rewrite IH. rewrite (extend_logs_total params (l ++ ls) q1 Hok) in Ht. by injection Ht as ->. }
  unfold logs_of at 1. rewrite He, extend_logs_total by done. done.
Qed.

Definition alive h (rx : nat) : Prop := ∃ q, channels h !! rx = Some (mkChannel q true).

Lemma is_closed_false h rx : is_closed h rx = false ↔ alive h rx.
Proof.
  unfold is_closed, alive. destruct (channels h !! rx) as [[q []]|]; cbn; naive_solver.
Qed.

(** [h'] differs from [h] on the channels of [D] only. *)
Definition untouched (D : nat → Prop) h h' : Prop :=
  next_channel h = next_channel h' ∧ new_block_listeners h = new_block_listeners h' ∧
  ∀ n, ¬ D n → channels h' !! n = channels h !! n.

Lemma drop_entry_untouched h e :
  untouched (λ n, ∃ f d, e = Some (f, d) ∧ receiver f = n) h (drop_entry h e).
Proof.
  destruct e as [[f d]|]; [|by split_and!]. split_and!; [done..|]. intros n Hn. cbn.
  apply lookup_alter_ne. intros <-. apply Hn. by exists f, d.
Qed.
Lemma drop_entries_untouched h (l : list (string * (EthFilter * Z))) :
  untouched (λ n, ∃ id f d, (id, (f, d)) ∈ l ∧ receiver f = n) h
    (foldl (λ h x, drop_entry h (Some x.2)) h l).
Proof.
  revert h. induction l as [|[id [f d]] l IH]; intros h; [by split_and!|]. cbn [foldl snd].
  destruct (IH (drop_entry h (Some (f, d)))) as (H1 & H2 & H3).
  destruct (drop_entry_untouched h (Some (f, d))) as (G1 & G2 & G3).
  split_and!; [by rewrite G1|by rewrite G2|]. intros n Hn. rewrite H3, G3; [done|..].
  - intros (f' & d' & [= <- <-] & <-). apply Hn. exists id, f, d. split; [constructor|done].
  - intros (id' & f' & d' & Hin & <-). apply Hn. exists id', f', d'. split; [by constructor|done].
Qed.

Lemma send_all_spec h l x :
  NoDup l → Forall (alive h) l →
  let '(h', kept) := send_all h l x in
  kept = l ∧ next_channel h' = next_channel h ∧ new_block_listeners h' = new_block_listeners h ∧
  (∀ n, n ∈ l → received h' n = received h n ++ [x] ∧ alive h' n) ∧
  (∀ n, n ∉ l → channels h' !! n = channels h !! n).
Proof.
  revert h. induction l as [|tx l IH]; intros h Hnd Hal; cbn [send_all].
  { split_and!; try done. by intros n ?%elem_of_nil. }
  apply NoDup_cons in Hnd as [Hn Hnd]. apply Forall_cons in Hal as [[q Hq] Hal].
  assert (is_closed h tx = false) as -> by (apply is_closed_false; by exists q).
  specialize (IH (unbounded_send h tx x) Hnd).
  destruct (send_all (unbounded_send h tx x) l x) as [h' kept].
  destruct IH as (-> & Hnext & Hlis & Hin & Hout).
  { eapply Forall_impl; [|intros n Hn'; exact Hn']. apply Forall_forall. intros n Hnl.
    eapply Forall_forall in Hal as [q' Hq']; [|done]. exists q'. cbn.
    rewrite lookup_alter_ne; [done|]. intros ->. done. }
  split_and!; [done..| |].
  - intros n [->|Hnl]%elem_of_cons.
    + unfold received, alive. rewrite Hout by done. cbn. rewrite lookup_alter_eq, Hq. cbn. eauto.
    + destruct (Hin n Hnl) as [Hr Ha]. split; [|done]. rewrite Hr. unfold received. cbn.
      rewrite lookup_alter_ne; [done|]. by intros ->.
  - intros n [Hne Hnl]%not_elem_of_cons. rewrite Hout by done. cbn. by rewrite lookup_alter_ne.
Qed.

Lemma notify_block_spec h x :
  NoDup (new_block_listeners h) →
  next_channel (notify_on_new_block h x) = next_channel h ∧
  (∀ n, n ∈ new_block_listeners (notify_on_new_block h x) ↔ n ∈ new_block_listeners h ∧ alive h n) ∧
  NoDup (new_block_listeners (notify_on_new_block h x)) ∧
  (∀ n, n ∈ new_block_listeners h → alive h n →
     received (notify_on_new_block h x) n = received h n ++ [x] ∧ alive (notify_on_new_block h x) n) ∧
  (∀ n, n ∉ new_block_listeners h ∨ ¬ alive h n →
     channels (notify_on_new_block h x) !! n = channels h !! n).
Proof.
  intros Hnd. unfold notify_on_new_block. set (open := base.filter _ _).
  assert (Hopen : ∀ n, n ∈ open ↔ n ∈ new_block_listeners h ∧ alive h n).
  { intros n. unfold open. rewrite list_elem_of_filter, is_closed_false. tauto. }
  pose proof (send_all_spec h open x) as Hs. destruct (send_all h open x) as [h' kept].
  destruct Hs as (-> & Hnext & _ & Hin & Hout).
  - by apply NoDup_filter.
  - apply Forall_forall. intros n Hn. by apply Hopen.
  - cbn. split_and!; [done|done|by apply NoDup_filter| |].
    + intros n Hn Ha. by apply Hin, Hopen.
    + intros n Hn. apply Hout. rewrite Hopen. tauto.
Qed.

(** ** The server *)
Abbreviation entries s := (active_filters (filters s)).

Definition listens (f : EthFilter) : bool :=
  match f with PendingTransactions _ => false | _ => true end.

(** Every filter has an open channel of its own, and a sender in the list of
    the backend if it is told of blocks; a sender whose channel is open
    belongs to a filter. *)
Record server_wf s : Prop := {
  wf_alive id f d : entries s !! id = Some (f, d) → alive (hub s) (receiver f);
  wf_bound id f d : entries s !! id = Some (f, d) → (receiver f < next_channel (hub s))%nat;
  wf_listens id f d : entries s !! id = Some (f, d) →
    (receiver f ∈ new_block_listeners (hub s) ↔ listens f = true);
  wf_own id id' f f' d d' : entries s !! id = Some (f, d) → entries s !! id' = Some (f', d') →
    receiver f = receiver f' → id = id';
  wf_nodup : NoDup (new_block_listeners (hub s));
  wf_listener n : n ∈ new_block_listeners (hub s) → (n < next_channel (hub s))%nat;
  wf_owner n : n ∈ new_block_listeners (hub s) → alive (hub s) n →
    ∃ id f d, entries s !! id = Some (f, d) ∧ receiver f = n;
}.

(** Everything that happens to the server and to the storage: a block is mined
    into the storage and notified; the storage is replaced by a rollback, a
    revert, a reset or a pruning, of which nobody is notified. *)
Inductive Event :=
| Mine (hash : B256) (b : Block) (rs : list (list RawLog))
| ReplaceStorage (st : Storage)
| NewFilter id (f : Filter) (existing : list Log) (has_from_block : bool) (now : Z)
| NewBlockFilter id (now : Z)
| NewPendingTransactionFilter id (now : Z)
| ReadyTransaction id (hash : B256)
| GetFilterChanges id (now : Z)
| UninstallFilter id
| Evict (now : Z).

Definition run_event s (e : Event) : option (Server * option (string * Changes)) :=
  match e with
  | Mine hash _ _ => Some (mkServer (notify_on_new_block (hub s) hash) (filters s), None)
  | ReplaceStorage _ => Some (s, None)
  | NewFilter id f existing from now => Some (new_filter s id f existing from now, None)
  | NewBlockFilter id now => Some (new_block_filter s id now, None)
  | NewPendingTransactionFilter id now => Some (new_pending_transaction_filter s id now, None)
  | ReadyTransaction id hash =>
      Some (match entries s !! id with
            | Some (PendingTransactions rx, _) => mkServer (unbounded_send (hub s) rx hash) (filters s)
            | _ => s
            end, None)
  | GetFilterChanges id now =>
      '(s, c) ← get_filter_changes storage s id now; Some (s, Some (id, c))
  | UninstallFilter id => Some ((uninstall_filter s id).1, None)
  | Evict now => Some (evict s now, None)
  end.

(** The state keeps its channels open and its filters their receivers. *)
Definition same_filters s s' : Prop :=
  ∀ id f d, entries s' !! id = Some (f, d) →
    ∃ f' d', entries s !! id = Some (f', d') ∧ receiver f = receiver f' ∧ listens f = listens f'.
Definition same_alive h h' : Prop := ∀ n, alive h' n ↔ alive h n.

Lemma same_wf s s' :
  server_wf s → same_filters s s' → same_filters s' s →
  same_alive (hub s) (hub s') → next_channel (hub s') = next_channel (hub s) →
  NoDup (new_block_listeners (hub s')) →
  (∀ n, n ∈ new_block_listeners (hub s') ↔ n ∈ new_block_listeners (hub s) ∧ alive (hub s) n
        ∨ n ∈ new_block_listeners (hub s) ∧ n ∈ new_block_listeners (hub s')) →
  (∀ n, n ∈ new_block_listeners (hub s) → alive (hub s) n → n ∈ new_block_listeners (hub s')) →
  server_wf s'.
Proof.
  intros Hwf Hsub Hsup Hal Hnext Hnd Hlis Hkeep. split.
  - intros id f d Hf. destruct (Hsub id f d Hf) as (f' & d' & Hf' & -> & _).
    by eapply Hal, wf_alive.
  - intros id f d Hf. destruct (Hsub id f d Hf) as (f' & d' & Hf' & -> & _).
    rewrite Hnext. by eapply wf_bound.
  - intros id f d Hf. destruct (Hsub id f d Hf) as (f' & d' & Hf' & Hr & Hl). rewrite Hr, Hl.
    rewrite <- (wf_listens s Hwf id f' d' Hf'). split.
    + intros Hin%Hlis. tauto.
    + intros Hin. apply Hkeep; [done|]. by eapply wf_alive.
  - intros id id' f f' d d' Hf Hf' Heq.
    destruct (Hsub id f d Hf) as (g & e & Hg & Hr & _), (Hsub id' f' d' Hf') as (g' & e' & Hg' & Hr' & _).
    eapply wf_own; [done..|]. congruence.
  - done.
  - intros n Hn%Hlis. rewrite Hnext. apply wf_listener; [done|]. tauto.
  - intros n Hn Ha. apply Hlis in Hn. apply Hal in Ha.
    destruct (wf_owner s Hwf n) as (id & f & d & Hf & <-); [tauto|done|].
    destruct (Hsup id f d Hf) as (f' & d' & Hf' & Hr & _). exists id, f', d'. by rewrite <- Hr.
Qed.

Lemma mine_wf s hash :
  server_wf s → server_wf (mkServer (notify_on_new_block (hub s) hash) (filters s)).
Proof.
  intros Hwf. destruct (notify_block_spec (hub s) hash (wf_nodup s Hwf)) as (Hn & Hl & Hnd & Hin & Hout).
  apply (same_wf s); cbn [hub filters]; try done.
  - intros id f d Hf. by exists f, d.
  - intros id f d Hf. by exists f, d.
  - intros n. destruct (decide (n ∈ new_block_listeners (hub s))) as [Hd|Hd].
    + split.
      * intros [q Hq]. destruct (is_closed (hub s) n) eqn:Hc; [|by apply is_closed_false].
        exfalso. assert (¬ alive (hub s) n) as Hna by (intros Ha%is_closed_false; congruence).
        rewrite Hout in Hq by tauto. apply Hna. by exists q.
      * intros Ha. by apply Hin.
    + unfold alive. rewrite Hout by tauto. done.
  - intros n. rewrite Hl. tauto.
  - intros n Hd Ha. by apply Hl.
Qed.

Lemma alter_alive h n rx q g :
  (∀ c, receiving (g c) = receiving c) →
  same_alive h (mkHub (alter g rx (channels h)) n q).
Proof.
  intros Hg m. unfold alive. cbn. destruct (decide (rx = m)) as [<-|Hne].
  - rewrite lookup_alter_eq. destruct (channels h !! rx) as [c|] eqn:Hc; cbn; [|naive_solver].
    specialize (Hg c). destruct (g c) as [q' []], c as [q'' []]; cbn in *; naive_solver.
  - by rewrite lookup_alter_ne.
Qed.

Lemma same_entries s m :
  (∀ id, m !! id = entries s !! id) → ∀ h, same_filters s (with_active s h m) ∧ same_filters (with_active s h m) s.
Proof.
  intros Hm h. split; intros id f d Hf; exists f, d; cbn in *; rewrite ?Hm in *; done.
Qed.

(** The filter is polled: its entry changes, its channel is emptied. *)
Lemma filter_poll_spec s id f d :
  storage_ok → entries s !! id = Some (f, d) →
  ∃ f', filter_poll storage (hub s) f
      = Some (set_queue (hub s) (receiver f) [], f',
              match f with
              | Logs lf => NewLogs (default [] (historic lf)
                                    ++ logs_of (filter lf) (received (hub s) (blocks lf)))
              | _ => NewHashes (received (hub s) (receiver f))
              end) ∧
    match f with
    | Logs lf => f' = Logs (mkLogsFilter (blocks lf) (filter lf) None)
    | _ => f' = f
    end.
Proof.
  intros Hok Hf. destruct f as [lf|rx|rx]; cbn [filter_poll receiver].
  - rewrite extend_logs_total by done. cbn. by eexists.
  - by eexists.
  - by eexists.
Qed.

Lemma get_changes_wf s id now :
  storage_ok → server_wf s → ∃ s' c, get_filter_changes storage s id now = Some (s', c) ∧ server_wf s'.
Proof.
  intros Hok Hwf. unfold get_filter_changes. destruct (entries s !! id) as [[f d]|] eqn:Hf; [|by exists s; eexists].
  destruct (filter_poll_spec s id f d Hok Hf) as (f' & -> & Hf'). cbn [mbind option_bind].
  do 2 eexists. split; [done|].
  assert (Hr : receiver f' = receiver f ∧ listens f' = listens f) by (by destruct f; subst).
  apply (same_wf s); cbn [hub filters with_active active_filters]; try done.
  - intros id' g e. cbn. destruct (decide (id = id')) as [<-|Hne].
    + rewrite lookup_insert_eq. intros [= <- <-]. exists f, d. tauto.
    + rewrite lookup_insert_ne by done. intros Hg. by exists g, e.
  - intros id' g e Hg. cbn. destruct (decide (id = id')) as [<-|Hne].
    + rewrite lookup_insert_eq. do 2 eexists. split; [done|]. rewrite Hf in Hg. injection Hg as <- <-. by destruct Hr.
    + rewrite lookup_insert_ne by done. by exists g, e.
  - by apply alter_alive.
  - apply (wf_nodup s Hwf).
  - intros n. tauto.
Qed.

(** Filters are removed, and their channels closed. *)
Definition closes (D : nat → Prop) h h' : Prop :=
  untouched D h h' ∧ ∀ n, alive h' n → alive h n ∧ ¬ D n.

Lemma closes_refl D h : (∀ n, ¬ D n) → closes D h h.
Proof. intros HD. split; [by split_and!|]. intros n Ha. by split. Qed.
Lemma closes_mono (D D' : nat → Prop) h h' :
  (∀ n, D n ↔ D' n) → closes D h h' → closes D' h h'.
Proof.
  intros HD [(Hn & Hl & Hc) Ha]. split.
  - split_and!; [done..|]. intros n Hn'. apply Hc. by rewrite HD.
  - intros n. rewrite <- HD. apply Ha.
Qed.
Lemma drop_receiver_closes h rx : closes (λ n, n = rx) h (drop_receiver h rx).
Proof.
  split; [split_and!; [done..|]|].
  - intros n Hn. cbn. by apply lookup_alter_ne.
  - intros n (q & Hq). cbn in Hq. destruct (decide (n = rx)) as [->|Hne].
    + rewrite lookup_alter_eq in Hq. by apply fmap_Some in Hq as (c & _ & ?).
    + rewrite lookup_alter_ne in Hq by done. split; [by exists q|done].
Qed.
Lemma closes_trans (D1 D2 : nat → Prop) h1 h2 h3 :
  closes D1 h1 h2 → closes D2 h2 h3 → closes (λ n, D1 n ∨ D2 n) h1 h3.
Proof.
  intros [(Hn & Hl & Hc) Ha] [(Hn' & Hl' & Hc') Ha']. split; [split_and!; [congruence..|]|].
  - intros n Hn2. rewrite Hc', Hc; [done|tauto..].
  - intros n [Hn2 HD]%Ha'. apply Ha in Hn2. tauto.
Qed.

Lemma drop_entry_closes h e :
  closes (λ n, ∃ f d, e = Some (f, d) ∧ receiver f = n) h (drop_entry h e).
Proof.
  destruct e as [[f d]|]; cbn.
  - eapply closes_mono; [|apply drop_receiver_closes]. intros n. cbn. split.
    + intros ->. by exists f, d.
    + by intros (f' & d' & [= <- <-] & <-).
  - apply closes_refl. by intros n (f & d & ? & _).
Qed.
Lemma drop_entries_closes h (l : list (string * (EthFilter * Z))) :
  closes (λ n, ∃ id f d, (id, (f, d)) ∈ l ∧ receiver f = n) h
    (foldl (λ h x, drop_entry h (Some x.2)) h l).
Proof.
  revert h. induction l as [|[id [f d]] l IH]; intros h; cbn [foldl snd].
  { apply closes_refl. by intros n (id & f & d & ?%elem_of_nil & _). }
  eapply closes_mono; [|eapply closes_trans; [apply (drop_entry_closes h (Some (f, d)))|apply IH]].
  intros n. cbn. split.
  - intros [(f' & d' & [= <- <-] & <-)|(id' & f' & d' & Hin & <-)].
    + exists id, f, d. split; [constructor|done].
    + exists id', f', d'. split; [by constructor|done].
  - intros (id' & f' & d' & [Heq|Hin]%elem_of_cons & <-).
    + injection Heq as -> -> ->. left. by exists f, d.
    + right. by exists id', f', d'.
Qed.

Definition removed s (m' : gmap string (EthFilter * Z)) (n : nat) : Prop :=
  ∃ id f d, entries s !! id = Some (f, d) ∧ m' !! id = None ∧ receiver f = n.

Lemma remove_wf s h' m' :
  server_wf s → (∀ id x, m' !! id = Some x → entries s !! id = Some x) →
  closes (removed s m') (hub s) h' → server_wf (with_active s h' m').
Proof.
  intros Hwf Hsub [(Hnext & Hlis & Hch) Hal].
  assert (Hkept : ∀ id f d, m' !! id = Some (f, d) →
            channels h' !! receiver f = channels (hub s) !! receiver f).
  { intros id f d Hf. apply Hch. intros (id' & f' & d' & Hf' & Hnone & Heq).
    assert (id = id') as <- by (by eapply wf_own; [..|symmetry]; eauto). congruence. }
  split; cbn [hub filters with_active active_filters].
  - intros id f d Hf. unfold alive. rewrite (Hkept id f d Hf). eapply wf_alive; eauto.
  - intros id f d Hf. rewrite <- Hnext. eapply wf_bound; eauto.
  - intros id f d Hf. rewrite <- Hlis. eapply wf_listens; eauto.
  - intros id id' f f' d d' Hf Hf'. eapply wf_own; eauto.
  - rewrite <- Hlis. by apply wf_nodup.
  - intros n. rewrite <- Hlis, <- Hnext. by apply wf_listener.
  - intros n Hn [Ha HD]%Hal. rewrite <- Hlis in Hn.
    destruct (wf_owner s Hwf n Hn Ha) as (id & f & d & Hf & <-). exists id, f, d. split; [|done].
    destruct (m' !! id) as [x|] eqn:Hm; [|exfalso; apply HD; by exists id, f, d].
    apply Hsub in Hm as Hm'. congruence.
Qed.

Lemma uninstall_wf s id : server_wf s → server_wf (uninstall_filter s id).1.
Proof.
  intros Hwf. apply remove_wf; [done| |].
  - intros id' x [Hne Hx]%lookup_delete_Some. done.
  - eapply closes_mono; [|apply drop_entry_closes]. intros n. unfold removed. split.
    + intros (f & d & Hf & <-). exists id, f, d. by rewrite lookup_delete_eq.
    + intros (id' & f & d & Hf & [->|Hn]%lookup_delete_None & <-); [by exists f, d|congruence].
Qed.

Lemma evict_lookup s now id :
  entries (evict s now) !! id =
    match entries s !! id with
    | Some (f, d) => if decide (d < now) then None else Some (f, d)
    | None => None
    end.
Proof.
  cbn. destruct (entries s !! id) as [[f d]|] eqn:Hf.
  - destruct (decide (d < now)) as [Hd|Hd].
    + apply map_lookup_filter_None. right. intros x Hx. rewrite Hf in Hx. injection Hx as <-. cbn. tauto.
    + apply map_lookup_filter_Some. by split.
  - apply map_lookup_filter_None. by left.
Qed.

Lemma evict_wf s now : server_wf s → server_wf (evict s now).
Proof.
  intros Hwf. unfold evict. apply remove_wf; [done| |].
  - intros id x [Hx _]%map_lookup_filter_Some. done.
  - eapply closes_mono; [|apply drop_entries_closes]. intros n. unfold removed.
    setoid_rewrite list_elem_of_filter. setoid_rewrite elem_of_map_to_list. cbn. split.
    + intros (id & f & d & [Hd Hf] & <-). exists id, f, d. split_and!; [done| |done].
      apply map_lookup_filter_None. right. intros x Hx. rewrite Hf in Hx. injection Hx as <-. cbn. tauto.
    + intros (id & f & d & Hf & [Hn|Hn]%map_lookup_filter_None & <-); [congruence|].
      exists id, f, d. split; [|done]. split; [|done]. specialize (Hn (f, d) Hf). cbn in Hn. lia.
Qed.

(** A filter with a fresh channel replaces the entry of its identifier. *)
Lemma add_wf s id f now lis :
  server_wf s → receiver f = next_channel (hub s) →
  lis = new_block_listeners (hub s) ++ (if listens f then [next_channel (hub s)] else []) →
  let n := next_channel (hub s) in
  let h := mkHub (<[n := mkChannel [] true]> (channels (hub s))) (S n) lis in
  server_wf (add_filter (mkServer h (filters s)) id f now).
Proof.
  intros Hwf Hr Hlis n h. unfold add_filter. cbn [hub filters].
  destruct (drop_entry_closes h (entries s !! id)) as [(Hnext & Hl & Hch) Hal].
  set (h' := drop_entry h (entries s !! id)) in *.
  assert (Hold : ∀ id' f' d', entries s !! id' = Some (f', d') → receiver f' ≠ n).
  { intros id' f' d' Hf' Heq. pose proof (wf_bound s Hwf id' f' d' Hf'). unfold n in Heq. lia. }
  assert (Hn : alive h' n).
  { unfold alive. rewrite Hch.
    - exists []. cbn. by rewrite lookup_insert_eq.
    - intros (f' & d' & Hf' & Heq). by eapply Hold. }
  assert (Hkept : ∀ id' f' d', id ≠ id' → entries s !! id' = Some (f', d') →
            channels h' !! receiver f' = channels (hub s) !! receiver f').
  { intros id' f' d' Hne Hf'. rewrite Hch.
    - cbn. rewrite lookup_insert_ne; [done|]. intros Heq. by eapply Hold.
    - intros (g & e & Hg & Heq). apply Hne. by eapply wf_own. }
  assert (Hnin : n ∉ new_block_listeners (hub s)).
  { intros Hin. apply wf_listener in Hin; [|done]. unfold n in Hin. lia. }
  split; cbn [hub filters with_active active_filters].
  - intros id' f' d'. destruct (decide (id = id')) as [<-|Hne].
    + rewrite lookup_insert_eq. intros [= <- <-]. by rewrite Hr.
    + rewrite lookup_insert_ne by done. intros Hf'. unfold alive. rewrite (Hkept id' f' d') by done.
      eapply wf_alive; eauto.
  - intros id' f' d'. rewrite <- Hnext. cbn. destruct (decide (id = id')) as [<-|Hne].
    + rewrite lookup_insert_eq. intros [= <- <-]. rewrite Hr. unfold n. lia.
    + rewrite lookup_insert_ne by done. intros Hf'. pose proof (wf_bound s Hwf id' f' d' Hf'). unfold n. lia.
  - intros id' f' d'. rewrite <- Hl. cbn [h new_block_listeners]. rewrite Hlis, elem_of_app.
    destruct (decide (id = id')) as [<-|Hne].
    + rewrite lookup_insert_eq. intros [= <- <-]. rewrite Hr. fold n. destruct (listens f); set_solver.
    + rewrite lookup_insert_ne by done. intros Hf'. rewrite <- (wf_listens s Hwf id' f' d' Hf').
      pose proof (Hold id' f' d' Hf'). fold n. destruct (listens f); set_solver.
  - intros id1 id2 f1 f2 d1 d2. destruct (decide (id = id1)) as [<-|Hne1], (decide (id = id2)) as [<-|Hne2];
      rewrite ?lookup_insert_eq, ?(lookup_insert_ne _ id id1), ?(lookup_insert_ne _ id id2) by done; try done.
    + intros [= <- <-] Hf2. rewrite Hr. intros Heq. by destruct (Hold id2 f2 d2 Hf2).
    + intros Hf1 [= <- <-]. rewrite Hr. intros Heq. by destruct (Hold id1 f1 d1 Hf1).
    + by eapply wf_own.
  - rewrite <- Hl. cbn [h new_block_listeners]. rewrite Hlis. apply NoDup_app. split_and!.
    + by apply wf_nodup.
    + intros m Hm. fold n. destruct (listens f); set_solver.
    + destruct (listens f); [apply NoDup_singleton|constructor].
  - intros m. rewrite <- Hl, <- Hnext. cbn. rewrite Hlis, elem_of_app. fold n.
    intros [Hm|Hm]; [apply wf_listener in Hm; [unfold n; lia|done]|]. destruct (listens f); set_solver by lia.
  - intros m Hm Ha. rewrite <- Hl in Hm. cbn [h new_block_listeners] in Hm. rewrite Hlis in Hm.
    destruct (decide (m = n)) as [->|Hmn].
    { exists id. do 2 eexists. by rewrite lookup_insert_eq. }
    apply elem_of_app in Hm as [Hm|Hm]; [|fold n in Hm; destruct (listens f); set_solver].
    apply Hal in Ha as [[q Hq] HD]. cbn in Hq. rewrite lookup_insert_ne in Hq by done.
    destruct (wf_owner s Hwf m Hm) as (id' & f' & d' & Hf' & <-); [by exists q|].
    destruct (decide (id = id')) as [<-|Hne]; [exfalso; apply HD; by exists f', d'|].
    exists id', f', d'. by rewrite lookup_insert_ne.
Qed.

Lemma event_total s e :
  storage_ok → server_wf s → ∃ s' r, run_event s e = Some (s', r) ∧ server_wf s'.
Proof.
  intros Hok Hwf. destruct e as [hash b rs|st|id f ex from now|id now|id now|id hash|id now|id|now]; cbn [run_event].
  - do 2 eexists. split; [done|by apply mine_wf].
  - by exists s, None.
  - do 2 eexists. split; [done|]. by apply add_wf.
  - do 2 eexists. split; [done|]. by apply add_wf.
  - do 2 eexists. split; [done|]. apply add_wf; [done..|]. cbn. by rewrite app_nil_r.
  - do 2 eexists. split; [done|]. destruct (entries s !! id) as [[[]]|]; try done.
    apply (same_wf s); cbn [hub filters]; try done.
    + intros id' f d Hf. by exists f, d.
    + intros id' f d Hf. by exists f, d.
    + by apply alter_alive.
    + apply (wf_nodup s Hwf).
    + intros n. tauto.
  - destruct (get_changes_wf s id now Hok Hwf) as (s' & c & -> & Hwf'). cbn. by do 2 eexists.
  - do 2 eexists. split; [done|by apply uninstall_wf].
  - do 2 eexists. split; [done|by apply evict_wf].
Qed.

(** ** Delivery *)
Definition adds (e : Event) : option string :=
  match e with
  | NewFilter id _ _ _ _ | NewBlockFilter id _ | NewPendingTransactionFilter id _ => Some id
  | _ => None
  end.

(** What one client of a log filter is entitled to: the logs that were there
    when it installed the filter, until its first poll, and the blocks mined
    since its last poll. *)
Record Client := mkClient { unread : option (list Log); since : list B256 }.
Definition client_pending params (c : Client) : list Log := default [] (unread c) ++ logs_of params (since c).

(** Only blocks and the polls of this client concern it. *)
Definition client_step id params (c : Client) (e : Event) : Client * option (list Log) :=
  match e with
  | Mine hash _ _ => (mkClient (unread c) (since c ++ [hash]), None)
  | GetFilterChanges id' _ =>
      if decide (id' = id) then (mkClient None [], Some (client_pending params c)) else (c, None)
  | _ => (c, None)
  end.

Definition answer_for id (r : string * Changes) : option (list Log) :=
  if decide (r.1 = id) then Some (match r.2 with NewLogs l => l | NewHashes _ => [] end) else None.

(** The server holds the client's filter. *)
Definition tracked s id params (c : Client) : Prop :=
  ∃ rx d, entries s !! id = Some (Logs (mkLogsFilter rx params (unread c)), d) ∧ received (hub s) rx = since c.

Lemma tracked_same s s' id params c rx d d' :
  entries s !! id = Some (Logs (mkLogsFilter rx params (unread c)), d) → received (hub s) rx = since c →
  entries s' !! id = Some (Logs (mkLogsFilter rx params (unread c)), d') →
  channels (hub s') !! rx = channels (hub s) !! rx → tracked s' id params c.
Proof. intros Hs Hq Hs' Hc. exists rx, d'. split; [done|]. unfold received in *. by rewrite Hc. Qed.

Lemma add_other s h id id' f now params c n :
  server_wf s → tracked s id params c → id' ≠ id →
  channels h = <[next_channel (hub s) := n]> (channels (hub s)) →
  tracked (add_filter (mkServer h (filters s)) id' f now) id params c.
Proof.
  intros Hwf (rx & d & Hf & Hq) Hne Hh. unfold add_filter. cbn [hub filters].
  eapply tracked_same; [exact Hf|exact Hq|cbn; by rewrite lookup_insert_ne|]. cbn.
  destruct (drop_entry_closes h (entries s !! id')) as [(_ & _ & Hch) _]. rewrite Hch.
  - rewrite Hh, lookup_insert_ne; [done|]. pose proof (wf_bound s Hwf id _ _ Hf). cbn in *. lia.
  - intros (g & e & Hg & Heq). apply Hne. eapply wf_own; [done|exact Hg|exact Hf|done].
Qed.

Lemma poll_delivers s id id' now params c s' r :
  storage_ok → server_wf s → tracked s id params c →
  run_event s (GetFilterChanges id' now) = Some (s', r) →
  let '(c', a) := client_step id params c (GetFilterChanges id' now) in
  tracked s' id params c' ∧ omap (answer_for id) (option_list r) = option_list a.
Proof.
  intros Hok Hwf (rx & d & Hf & Hq) Hrun. cbn [client_step run_event] in *. unfold get_filter_changes in Hrun.
  destruct (decide (id' = id)) as [->|Hne].
  - rewrite Hf in Hrun. destruct (filter_poll_spec s id _ d Hok Hf) as (g & Hpoll & ->). rewrite Hpoll in Hrun.
    cbn in Hrun. injection Hrun as <- <-. split.
    + exists rx. eexists. cbn. rewrite lookup_insert_eq. split; [done|]. unfold received. cbn.
      rewrite lookup_alter_eq. destruct (wf_alive s Hwf id _ _ Hf) as [q Hq']. cbn in Hq'. by rewrite Hq'.
    + cbn. unfold answer_for. cbn. rewrite Hq. by destruct (decide (id = id)).
  - destruct (entries s !! id') as [[f' d']|] eqn:Hf'; cbn [mbind option_bind] in Hrun.
    + destruct (filter_poll_spec s id' f' d' Hok Hf') as (g & Hpoll & Hg). rewrite Hpoll in Hrun.
      cbn [mbind option_bind] in Hrun. injection Hrun as <- <-. split.
      * eapply tracked_same; [exact Hf|exact Hq|cbn; by rewrite lookup_insert_ne|]. cbn. apply lookup_alter_ne.
        intros Heq. apply Hne. eapply wf_own; [done|exact Hf'|exact Hf|done].
      * cbn. unfold answer_for. cbn. by destruct (decide (id' = id)).
    + injection Hrun as <- <-. split; [by exists rx, d|]. cbn. unfold answer_for. cbn. by destruct (decide (id' = id)).
Qed.

(** One event: the server does to the filter what the client is entitled to. *)
Lemma event_delivers s e id params c s' r :
  storage_ok → server_wf s → tracked s id params c → adds e ≠ Some id →
  run_event s e = Some (s', r) → is_Some (entries s' !! id) →
  let '(c', a) := client_step id params c e in
  tracked s' id params c' ∧ omap (answer_for id) (option_list r) = option_list a.
Proof.
  intros Hok Hwf Ht Hadd Hrun Hin.
  destruct e as [hash b rs|st|id' f ex from now|id' now|id' now|id' hash|id' now|id'|now].
  7: by eapply poll_delivers.
  all: cbn [run_event adds client_step] in *; injection Hrun as <- <-; split; try done.
  - destruct Ht as (rx & d & Hf & Hq). exists rx, d. split; [done|].
    pose proof (wf_alive s Hwf id _ _ Hf) as Ha. pose proof (proj2 (wf_listens s Hwf id _ _ Hf) eq_refl) as Hl.
    destruct (notify_block_spec (hub s) hash (wf_nodup s Hwf)) as (_ & _ & _ & Hrec & _).
    destruct (Hrec rx Hl Ha) as [Hr _]. cbn [hub since]. by rewrite Hr, Hq.
  - refine (add_other s (new_block_notifications (hub s)).1 id id' _ now params c _ Hwf Ht _ eq_refl). congruence.
  - refine (add_other s (new_block_notifications (hub s)).1 id id' _ now params c _ Hwf Ht _ eq_refl). congruence.
  - refine (add_other s (new_channel (hub s)).1 id id' _ now params c _ Hwf Ht _ eq_refl). congruence.
  - destruct Ht as (rx & d & Hf & Hq). destruct (entries s !! id') as [[[?|?|rx'] ?]|] eqn:Hf'; try by exists rx, d.
    eapply tracked_same; [exact Hf|exact Hq|exact Hf|]. cbn. apply lookup_alter_ne. intros ->.
    assert (id' = id) as -> by (eapply wf_own; [done|exact Hf'|exact Hf|done]). congruence.
  - destruct Ht as (rx & d & Hf & Hq). destruct (decide (id' = id)) as [->|Hne].
    { cbn in Hin. rewrite lookup_delete_eq in Hin. by destruct Hin. }
    eapply tracked_same; [exact Hf|exact Hq|cbn; by rewrite lookup_delete_ne|]. cbn.
    destruct (drop_entry_closes (hub s) (entries s !! id')) as [(_ & _ & Hch) _]. apply Hch.
    intros (g & e & Hg & Heq). apply Hne. eapply wf_own; [done|exact Hg|exact Hf|done].
  - destruct Ht as (rx & d & Hf & Hq). pose proof (evict_lookup s now id) as He. rewrite Hf in He.
    destruct (decide (d < now)) as [Hd|Hd]; [rewrite He in Hin; by destruct Hin|].
    eapply tracked_same; [exact Hf|exact Hq|exact He|]. cbn.
    destruct (drop_entries_closes (hub s) (base.filter (λ x, x.2.2 < now) (map_to_list (entries s))))
      as [(_ & _ & Hch) _]. apply Hch.
    intros (id' & g & e & [Hlt Hg%elem_of_map_to_list]%list_elem_of_filter & Heq). cbn in Hlt.
    assert (id' = id) as -> by (eapply wf_own; [done|exact Hg|exact Hf|done]). rewrite Hf in Hg.
    injection Hg as <- <-. lia.
Qed.

(** ** Subscriptions *)
Lemma logs_of_cons params hash q :
  storage_ok → logs_of params (hash :: q) = default [] (block_logs storage params hash) ++ logs_of params q.
Proof.
  intros Hok. change (hash :: q) with ([hash] ++ q). rewrite logs_of_app by done. f_equal.
  unfold logs_of. cbn. by destruct (block_logs storage params hash).
Qed.

(** The blocks whose receipts the storage has. *)
Definition stored (hash : B256) : Prop := ∃ b rs, storage hash = (Some b, Some rs).

(** What a subscription has yet to send. *)
Definition outstanding params (queued : list Log) (q : list B256) : list Log := queued ++ logs_of params q.

(** A subscription to logs sends the same logs as the polls of a filter: of
    blocks that are in storage, each poll yields the first log still to be
    sent and leaves the rest, and it is pending, or at the end of the stream
    when the sender is gone, only when there is none. *)
Lemma subscription_sends_next closed params queued q :
  storage_ok → Forall stored q →
  ∃ queued' q', Forall stored q' ∧
    subscription_poll storage closed params queued q = Some
      (match outstanding params queued q with
       | log :: _ => Ready (Some log)
       | [] => if closed then Ready None else Pending
       end, queued', q') ∧
    outstanding params queued' q' = tail (outstanding params queued q).
Proof.
  intros Hok Hq. unfold outstanding. revert queued.
  induction Hq as [|hash q (b & rs & Hs) Hq IH]; intros [|log queued].
  - exists [], []. split_and!; [constructor|done|done].
  - exists queued, []. split_and!; [constructor|done|done].
  - cbn [subscription_poll app]. rewrite logs_of_cons by done. unfold block_logs. rewrite Hs.
    rewrite filter_logs_total by (by eapply Hok). cbn [mbind option_bind default].
    destruct (selected b params 0 (all_logs 0 rs)) as [|log ls]; [exact (IH [])|].
    exists ls, q. by split_and!.
  - exists queued, (hash :: q). split_and!; [constructor; [by exists b, rs|done]|done|done].
Qed.

(** A block that is not in storage holds up the logs behind it until the next
    notification: the subscription is pending with blocks still to read. *)
Lemma subscription_stalls closed params hash q :
  ¬ stored hash → subscription_poll storage closed params [] (hash :: q) = Some (Pending, [], q).
Proof.
  intros Hs. cbn [subscription_poll].
  destruct (storage hash) as [[b|] [rs|]] eqn:Hh; [|done..]. exfalso. apply Hs. by exists b, rs.
Qed.

(** A filter whose client polls in time is never evicted, and one that it
    forgets is dropped by the first eviction after its deadline. *)
Lemma polled_filter_stays s s' id now now' c :
  get_filter_changes storage s id now = Some (s', c) → is_Some (entries s !! id) →
  is_Some (entries (evict s' now') !! id) ↔ now' ≤ now + keepalive (filters s).
Proof.
  intros Hget [[f d] Hf]. unfold get_filter_changes in Hget. rewrite Hf in Hget. cbn [mbind option_bind] in Hget.
  destruct (filter_poll storage (hub s) f) as [[[h g] x]|]; [|done]. cbn [mbind option_bind] in Hget.
  injection Hget as <- <-. rewrite evict_lookup. cbn [with_active filters active_filters].
  rewrite lookup_insert_eq. unfold next_deadline.
  destruct (decide (now + keepalive (filters s) < now')); split; try done; intros; try lia; by eapply is_Some_None.
Qed.
End proofs.

(** ** Runs *)
Section runs.
Context `{!LogTypes}.
Implicit Types (st : Storage) (s : Server) (id : string) (params : FilteredParams) (e : Event).
#[local] Abbreviation entries s := (active_filters (filters s)).

Definition storage_after st e : Storage :=
  match e with
  | Mine hash b rs => λ h, if decide (h = hash) then (Some b, Some rs) else st h
  | ReplaceStorage st => st
  | _ => st
  end.

(** Every event finds the storage as the events before it left it. *)
Fixpoint run_events st s (l : list Event) : option (Storage * Server * list (string * Changes)) :=
  match l with
  | [] => Some (st, s, [])
  | e :: l =>
      '(s, r) ← run_event st s e;
      '(st, s, rs) ← run_events (storage_after st e) s l;
      Some (st, s, option_list r ++ rs)
  end.

(** What is put into the storage is well formed. *)
Definition event_ok e : Prop :=
  match e with Mine _ b rs => receipts_ok b rs | ReplaceStorage st => storage_ok st | _ => True end.
Lemma storage_after_ok st e : storage_ok st → event_ok e → storage_ok (storage_after st e).
Proof.
  intros Hok He. destruct e; try done. cbn in *. intros h b' rs'. destruct (decide (h = hash)); [|apply Hok].
  by intros [= <- <-].
Qed.

(** The filter is neither replaced, uninstalled nor evicted. *)
Fixpoint keeps st s (l : list Event) id : Prop :=
  match l with
  | [] => True
  | e :: l =>
      adds e ≠ Some id ∧
      match run_event st s e with
      | Some (s', _) => is_Some (entries s' !! id) ∧ keeps (storage_after st e) s' l id
      | None => False
      end
  end.

(** The polls of one client, from the storage at each of them. *)
Fixpoint client_run id params st (c : Client) (l : list Event) : list (list Log) * Client :=
  match l with
  | [] => ([], c)
  | e :: l =>
      let '(c, a) := client_step st id params c e in
      let '(answers, c) := client_run id params (storage_after st e) c l in
      (option_list a ++ answers, c)
  end.

(** No block mined since the client's last poll leaves the storage or changes
    in it before the next. *)
Fixpoint lasts id params st (c : Client) (l : list Event) : Prop :=
  match l with
  | [] => True
  | e :: l =>
      (∀ h, h ∈ since c → storage_after st e h = st h) ∧
      lasts id params (storage_after st e) (client_step st id params c e).1 l
  end.

(** The matching logs of the blocks that are mined, as they are mined. *)
Definition mined_logs params (l : list Event) : list Log :=
  concat (omap (λ e, match e with Mine _ b rs => Some (selected b params 0 (all_logs 0 rs)) | _ => None end) l).

Lemma logs_of_ext st st' params q :
  (∀ h, h ∈ q → st' h = st h) → logs_of st' params q = logs_of st params q.
Proof.
  intros Hq. unfold logs_of. f_equal. generalize (@nil Log).
  induction q as [|h q IH]; intros acc; [done|]. cbn [extend_logs].
  assert (block_logs st' params h = block_logs st params h) as ->.
  { unfold block_logs. by rewrite Hq by left. }
  destruct (block_logs st params h); [|done]. cbn [mbind option_bind]. apply IH.
  intros h' Hh. apply Hq. by right.
Qed.

Lemma client_step_once id params st c e :
  storage_ok st → event_ok e → (∀ h, h ∈ since c → storage_after st e h = st h) →
  concat (option_list (client_step st id params c e).2)
    ++ client_pending (storage_after st e) params (client_step st id params c e).1
  = client_pending st params c ++ mined_logs params [e].
Proof.
  intros Hok He Hl. pose proof (storage_after_ok st e Hok He) as Hok'.
  pose proof (logs_of_ext st (storage_after st e) params (since c) Hl) as Hext. unfold client_pending, mined_logs in *.
  destruct e; cbn [client_step fst snd option_list concat app since unread omap list_omap]; try (by rewrite Hext, app_nil_r).
  - change (concat (option_list None)) with (@nil Log). cbn [app concat]. rewrite logs_of_app, Hext by done.
    rewrite app_nil_r, <- (assoc_L (++)). f_equal. f_equal.
    unfold logs_of. cbn [extend_logs]. unfold block_logs. cbn [storage_after].
    destruct (decide (hash = hash)); [|done]. by rewrite filter_logs_total by exact He.
  - destruct (decide (id0 = id)); cbn; [|by rewrite app_nil_r]. unfold client_pending. by rewrite !app_nil_r.
Qed.

(** Of blocks that stay until they are polled for, a client is told once. *)
Lemma client_run_once id params st c l :
  storage_ok st → Forall event_ok l → lasts id params st c l →
  concat (client_run id params st c l).1
    ++ client_pending (foldl storage_after st l) params (client_run id params st c l).2
  = client_pending st params c ++ mined_logs params l.
Proof.
  intros Hok Hl. revert st c Hok. induction Hl as [|e l He _ IH]; intros st c Hok.
  { intros _. cbn. by rewrite app_nil_r. }
  cbn [client_run lasts foldl]. intros [Hs Hk].
  pose proof (client_step_once id params st c e Hok He Hs) as Hone.
  destruct (client_step st id params c e) as [c1 a]. cbn [fst snd] in *.
  specialize (IH (storage_after st e) c1 (storage_after_ok _ _ Hok He) Hk).
  destruct (client_run id params (storage_after st e) c1 l) as [rs c2]. cbn [fst snd] in *.
  rewrite concat_app, <- (assoc_L (++)), IH, (assoc_L (++)), Hone, <- (assoc_L (++)). f_equal.
  unfold mined_logs. change (e :: l) with ([e] ++ l). by rewrite omap_app, concat_app.
Qed.

(** C21: A log filter, next to any other filters that are installed, polled,
    uninstalled or evicted, answers each poll of its client with the logs it
    was created with, if it is the first, and the matching logs of the blocks
    mined since the last poll, in order, as the storage has them at the poll: a
    block that a rollback or a revert has removed by then has none.  When every
    block that is mined stays in storage until the client has polled for it,
    the answers, and what the next poll will answer, are exactly those first
    logs and the matching logs of all blocks mined.  Presupposed is that the
    filter is not uninstalled, evicted or replaced in between, and that a
    block in storage has a transaction for every receipt and at most 2^32 - 1
    logs. *)
Theorem logs_delivered_once st s id params c l :
  storage_ok st → Forall event_ok l → server_wf s → tracked s id params c → keeps st s l id →
  ∃ s' answers c', run_events st s l = Some (foldl storage_after st l, s', answers) ∧
    server_wf s' ∧ tracked s' id params c' ∧
    client_run id params st c l = (omap (answer_for id) answers, c') ∧
    (lasts id params st c l →
     concat (omap (answer_for id) answers) ++ client_pending (foldl storage_after st l) params c'
     = client_pending st params c ++ mined_logs params l).
Proof.
  intros Hok Hl Hwf Ht Hk.
  cut (∃ s' answers c', run_events st s l = Some (foldl storage_after st l, s', answers) ∧
    server_wf s' ∧ tracked s' id params c' ∧ client_run id params st c l = (omap (answer_for id) answers, c')).
  { intros (s' & answers & c' & Hrun & Hwf' & Ht' & Hc). exists s', answers, c'. split_and!; [done..|].
    intros Hlast. pose proof (client_run_once id params st c l Hok Hl Hlast) as Hone. by rewrite Hc in Hone. }
  revert st s c Hok Hwf Ht Hk. induction Hl as [|e l He _ IH]; intros st s c Hok Hwf Ht Hk;
    cbn [run_events keeps client_run foldl] in *.
  { exists s, [], c. by split_and!. }
  destruct Hk as [Hadd Hk]. destruct (event_total st s e Hok Hwf) as (s1 & r & Hrun & Hwf1).
  rewrite Hrun in *. cbn [mbind option_bind]. destruct Hk as [Hin Hk].
  pose proof (event_delivers st s e id params c s1 r Hok Hwf Ht Hadd Hrun Hin) as Hdel.
  destruct (client_step st id params c e) as [c1 a]. destruct Hdel as [Ht1 Ha].
  destruct (IH (storage_after st e) s1 c1) as (s2 & rs & c2 & -> & Hwf2 & Ht2 & ->); [by apply storage_after_ok|done..|].
  cbn [mbind option_bind]. exists s2, (option_list r ++ rs), c2. split_and!; [done..|]. by rewrite omap_app, Ha.
Qed.

(** Any sequence of events from a fresh server succeeds; afterwards every
    filter has an open channel of its own, and after the next block the
    backend holds senders for the block and log filters only: an evicted or
    uninstalled filter leaks nothing. *)
Lemma filters_leak_nothing st l hash :
  storage_ok st → Forall event_ok l →
  ∃ st' s answers, run_events st (mkServer hub_default filters_default) l = Some (st', s, answers) ∧ server_wf s ∧
    ∀ n, n ∈ new_block_listeners (notify_on_new_block (hub s) hash) ↔
      ∃ id f d, entries s !! id = Some (f, d) ∧ listens f = true ∧ receiver f = n.
Proof.
  intros Hok Hl.
  assert (Hall : ∀ st s, storage_ok st → server_wf s →
    ∃ st' s' answers, run_events st s l = Some (st', s', answers) ∧ server_wf s').
  { clear Hok st. induction Hl as [|e l He _ IH]; intros st s Hok Hwf; cbn [run_events]; [by exists st, s, []|].
    destruct (event_total st s e Hok Hwf) as (s1 & r & -> & Hwf1).
    destruct (IH (storage_after st e) s1) as (st2 & s2 & rs & Hrs & Hwf2); [by apply storage_after_ok|done|].
    cbn [mbind option_bind]. rewrite Hrs. cbn. by do 3 eexists. }
  assert (H0 : server_wf (mkServer hub_default filters_default)).
  { split; cbn; try (intros *; rewrite lookup_empty; done); [constructor|intros n; set_solver..]. }
  destruct (Hall st _ Hok H0) as (st' & s & answers & Hrun & Hwf). exists st', s, answers. split_and!; [done..|]. intros n.
  destruct (notify_block_spec (hub s) hash (wf_nodup s Hwf)) as (_ & -> & _). split.
  - intros [Hin Ha]. destruct (wf_owner s Hwf n Hin Ha) as (id & f & d & Hf & <-). exists id, f, d.
    split_and!; [done| |done]. by eapply wf_listens.
  - intros (id & f & d & Hf & Hl' & <-). split; [by eapply wf_listens|by eapply wf_alive].
Qed.
End runs.

(** ** A node with two blocks *)
(** A log is its address and topics, a filter one address. *)
#[local] Instance sample_logs : LogTypes := {
  RawLog := Z * list Z; log_address := fst; log_topics := snd;
  Filter := Z; FilteredParams := option Z; params_new f := f; params_filter f := f;
  filter_block_range _ _ := true; filter_block_hash _ _ := true;
  filter_address f a := match f with Some x => bool_decide (x = a) | None => true end;
  filter_topics _ _ := true;
}.
Definition sample_block (hash : Z) : Block := mkBlock hash (hash - 100) (1000 + hash) [hash * 10; hash * 10 + 1].
Definition sample_storage (hash : Z) : option Block * option (list (list RawLog)) :=
  if decide (hash = 101) then (Some (sample_block 101), Some [[(7, []); (8, [1])]; [(7, [2])]])
  else if decide (hash = 102) then (Some (sample_block 102), Some [[]; [(8, []); (7, [3])]])
  else (None, None).

Lemma sample_ok : storage_ok sample_storage.
Proof.
  intros hash b rs. unfold sample_storage. destruct (decide (hash = 101)), (decide (hash = 102)); intros [= <- <-];
    by split; [cbn; lia|vm_compute].
Defined.

Definition start : Server := new_filter (mkServer hub_default filters_default) "0x1" 7 [] false 0.
(** The storage before anything is mined, and after block 102 is rolled back. *)
Definition no_blocks : Storage := λ _, (None, None).
Definition only_101 : Storage :=
  λ hash, if decide (hash = 101) then sample_storage 101 else (None, None).
Definition mine_sample (hash : Z) : Event :=
  match sample_storage hash with
  | (Some b, Some rs) => Mine hash b rs
  | _ => Evict 0
  end.
Definition trace : list Event :=
  [mine_sample 101; NewFilter "0x2" (8 : Filter) [] false 10; GetFilterChanges "0x1" 200; mine_sample 102; Evict 350;
   GetFilterChanges "0x1" 400; ReplaceStorage only_101].
Definition rolled_back_trace : list Event :=
  [mine_sample 101; mine_sample 102; ReplaceStorage only_101; GetFilterChanges "0x1" 200].

Lemma sample_start_wf : server_wf start.
Proof.
  replace start with (mkServer (mkHub (<[0%nat := mkChannel [] true]> ∅) 1 [0%nat])
    (mkFilters (<["0x1" := (Logs (mkLogsFilter 0 (Some 7) (Some [])), 300)]> ∅) 300)) by reflexivity.
  split; cbn.
  - intros id f d [[<- [= <- <-]]|[_ Hf]]%lookup_insert_Some; [by exists []|by rewrite lookup_empty in Hf].
  - intros id f d [[<- [= <- <-]]|[_ Hf]]%lookup_insert_Some; [cbn; lia|by rewrite lookup_empty in Hf].
  - intros id f d [[<- [= <- <-]]|[_ Hf]]%lookup_insert_Some; [cbn; set_solver|by rewrite lookup_empty in Hf].
  - intros id id' f f' d d' [[<- [= <- <-]]|[_ Hf]]%lookup_insert_Some
      [[<- [= <- <-]]|[_ Hf']]%lookup_insert_Some; [done|by rewrite lookup_empty in *..].
  - apply NoDup_singleton.
  - intros n ->%list_elem_of_singleton. lia.
  - intros n ->%list_elem_of_singleton _. do 3 eexists. split; [by rewrite lookup_insert_eq|done].
Defined.

Lemma mine_sample_ok hash : event_ok (mine_sample hash).
Proof.
  unfold mine_sample. destruct (sample_storage hash) as [[b|] [rs|]] eqn:Hs; try exact I. exact (sample_ok hash b rs Hs).
Defined.
Lemma only_101_ok : storage_ok only_101.
Proof. intros hash b rs. unfold only_101. destruct (decide (hash = 101)); [apply sample_ok|done]. Defined.
Lemma no_blocks_ok : storage_ok no_blocks.
Proof. done. Defined.
Lemma start_tracked : tracked start "0x1" (Some 7) (mkClient (Some []) []).
Proof. exists 0%nat. eexists. by split; vm_compute. Defined.

(** Both polls of the first filter answer the logs of address 7 in their
    blocks, numbered among all logs of the block; the second filter, which
    nobody polls, is evicted.  The rollback after the second poll takes
    nothing back. *)
Lemma logs_delivered_once_witness :
  ∃ s answers c, run_events no_blocks start trace = Some (foldl storage_after no_blocks trace, s, answers) ∧
    is_Some (active_filters (filters s) !! "0x1") ∧ active_filters (filters s) !! "0x2" = None ∧
    fmap (λ l, (transaction_hash l, log_index l)) <$> omap (answer_for "0x1") answers
    = [[(1010, 0); (1011, 2)]; [(1021, 1)]] ∧
    concat (omap (answer_for "0x1") answers) ++ client_pending (foldl storage_after no_blocks trace) (Some 7) c
    = mined_logs (Some 7) trace.
Proof.
  destruct (logs_delivered_once no_blocks start "0x1" (Some 7) (mkClient (Some []) []) trace)
    as (s & answers & c & Hrun & _ & _ & _ & Hone).
  - apply no_blocks_ok.
  - repeat first [apply Forall_nil; exact I | apply Forall_cons; split;
      [first [exact I|exact (mine_sample_ok _)|exact only_101_ok]|]].
  - apply sample_start_wf.
  - apply start_tracked.
  - vm_compute. repeat split; first [done|by eexists].
  - exists s, answers, c. split; [done|]. vm_compute in Hrun. injection Hrun as <- <-.
    split; [by eexists|]. split; [done|]. split; [done|]. apply Hone.
    cbn. split_and!; try done; intros h; rewrite ?list_elem_of_singleton; try set_solver; by intros ->.
Defined.

(** Without a poll before the rollback, the logs of the block that was rolled
    back are lost: the poll answers those of block 101 only. *)
Lemma rolled_back_block_not_told :
  ∃ st s answers, run_events no_blocks start rolled_back_trace = Some (st, s, answers) ∧
    fmap (λ l, (transaction_hash l, log_index l)) <$> omap (answer_for "0x1") answers = [[(1010, 0); (1011, 2)]] ∧
    length (mined_logs (Some 7) rolled_back_trace) = 3%nat.
Proof. do 3 eexists. split; [vm_compute; reflexivity|]. by split. Qed.

Lemma filters_leak_nothing_witness :
  ∃ st s answers, run_events sample_storage (mkServer hub_default filters_default)
      [NewBlockFilter "0x1" 0; NewBlockFilter "0x2" 0; NewPendingTransactionFilter "0x3" 0; UninstallFilter "0x1"; Evict 301;
       NewBlockFilter "0x4" 400] = Some (st, s, answers) ∧
    new_block_listeners (notify_on_new_block (hub s) 101) = [3%nat] ∧ server_wf s.
Proof.
  destruct (filters_leak_nothing sample_storage [NewBlockFilter "0x1" 0; NewBlockFilter "0x2" 0;
    NewPendingTransactionFilter "0x3" 0; UninstallFilter "0x1"; Evict 301; NewBlockFilter "0x4" 400] 101)
    as (st & s & answers & Hrun & Hwf & _).
  - apply sample_ok.
  - by repeat constructor.
  - exists st, s, answers. split; [done|]. vm_compute in Hrun. injection Hrun as <- <- <-. split; [done|exact Hwf].
Defined.

(** The first log of address 8 is sent; that of the next block is left. *)
Lemma subscription_sends_next_witness :
  ∃ queued q, subscription_poll sample_storage false (Some 8) [] [101; 102]
    = Some (Ready (Some (mkLog (8, [1]) 101 1 1010 0 1 1101)), queued, q) ∧
    outstanding sample_storage (Some 8) queued q = [mkLog (8, []) 102 2 1021 1 0 1102].
Proof.
  destruct (subscription_sends_next sample_storage false (Some 8) [] [101; 102]) as (queued & q & _ & Heq & Hout).
  - apply sample_ok.
  - repeat constructor; do 2 eexists; done.
  - exists queued, q. rewrite Heq, Hout. by split.
Defined.
