(* ===== verification/ReadyLinks.v ===== *)
(** * The links between ready transactions lead from nonce to nonce

    A node's transactions carry a nonce of a sender: they provide the marker
    of it and require at most that of the nonce before.  Then whatever the
    ready queue recorded as unlocked by a transaction, stale or not, is the
    sender's next transaction, so that the iterator over the ready
    transactions, which follows these links, comes to an end.  [place] is
    the nonce and sender of the transaction with a hash. *)
From stdpp Require Import base list gmap strings sorting.
From Stdlib Require Import ZArith Lia.
From S2P Require Import Prelude Containers PoolTx PendingQueue ReadyQueue ReadyInvariant.
From S2P Require Import ReadyProofs Pool PoolProofs PoolProps Miner PoolContent.
Section links.
Context {Tx : Type} `{TxEnvelope Tx}.
Context `{!HashOrder TxHash} `{!HashOrder TxMarker}.
Implicit Types (s : ReadyTransactions Tx) (tx : PoolTransaction Tx) (p : PoolInner Tx).
Implicit Types (r : ReadyTransaction Tx) (x y : PoolTransactionRef Tx).
Implicit Types (ready : gmap TxHash (ReadyTransaction Tx)).
Variable place : TxHash → Z * Address.

Definition follows (h u : TxHash) : Prop :=
  (place u).1 = (place h).1 + 1 ∧ (place u).2 = (place h).2.

(** What [node_transaction] makes. *)
Record placed tx : Prop := {
  pl_nonce : in_u64 (place (hash tx)).1;
  pl_sender : is_address (place (hash tx)).2;
  pl_provides : provides tx = [to_marker (place (hash tx)).1 (place (hash tx)).2];
  pl_requires m : m ∈ requires tx →
    1 ≤ (place (hash tx)).1 ∧ m = to_marker ((place (hash tx)).1 - 1) (place (hash tx)).2;
}.

Lemma placed_follows tx tx' m :
  placed tx → placed tx' → m ∈ provides tx → m ∈ requires tx' → follows (hash tx) (hash tx').
Proof.
  intros [Hn Ha Hp _] [Hn' Ha' _ Hr] Hm [Hge ->]%Hr. rewrite Hp in Hm.
  apply list_elem_of_singleton, to_marker_inj in Hm as [Heq ?]; [|unfold in_u64 in *; lia|done..].
  split; [lia|congruence].
Qed.
Lemma placed_same tx tx' m :
  placed tx → placed tx' → m ∈ provides tx → m ∈ provides tx' → place (hash tx) = place (hash tx').
Proof.
  intros [Hn Ha Hp _] [Hn' Ha' Hp' _]. rewrite Hp, Hp'. intros ->%list_elem_of_singleton Hm.
  apply list_elem_of_singleton, to_marker_inj in Hm as [??]; [|done..].
  by rewrite (surjective_pairing (place (hash tx))), (surjective_pairing (place (hash tx'))), H0, H1.
Qed.

Definition linked ready : Prop := ∀ h r u, ready !! h = Some r → u ∈ unlocks r → follows h u.

(** Every link of [ready'] is one of [ready]. *)
Definition fewer_links ready ready' : Prop :=
  ∀ h r', ready' !! h = Some r' → ∃ r, ready !! h = Some r ∧ ∀ u, u ∈ unlocks r' → u ∈ unlocks r.
Lemma fewer_refl ready : fewer_links ready ready.
Proof. intros h r Hr. by exists r. Qed.
Lemma fewer_trans m1 m2 m3 : fewer_links m1 m2 → fewer_links m2 m3 → fewer_links m1 m3.
Proof.
  intros H12 H23 h r3 Hr3. destruct (H23 h r3 Hr3) as (r2 & Hr2 & Hu2).
  destruct (H12 h r2 Hr2) as (r1 & Hr1 & Hu1). exists r1. auto.
Qed.
Lemma fewer_linked ready ready' : fewer_links ready ready' → linked ready → linked ready'.
Proof. intros Hf Hl h r u Hr Hu. destruct (Hf h r Hr) as (r0 & Hr0 & Hsub). eapply Hl; eauto. Qed.
Lemma fewer_delete ready h : fewer_links ready (delete h ready).
Proof. intros h' r [_ Hr]%lookup_delete_Some. by exists r. Qed.
Lemma fewer_insert ready h r r' :
  ready !! h = Some r → (∀ u, u ∈ unlocks r' → u ∈ unlocks r) → fewer_links ready (<[h := r']> ready).
Proof. intros Hr Hs h' r0 [[<- <-]|[_ Hr0]]%lookup_insert_Some; [by exists r|by exists r0]. Qed.

(** ** Removing and pruning only drop links *)
Lemma swap_remove_position (l : list TxHash) f i u :
  position f l = Some i → u ∈ swap_remove l i → u ∈ l.
Proof.
  intros (v & Hv%lookup_lt_Some & _)%position_Some. by apply swap_remove_subset.
Qed.
Lemma unlink_fewer provided ready m : fewer_links ready (unlink provided ready m).
Proof.
  unfold unlink. destruct (provided !! m) as [h|]; [|apply fewer_refl].
  destruct (ready !! h) as [r|] eqn:Hr; [|apply fewer_refl].
  destruct (position _ _) as [i|] eqn:Hi; [|apply fewer_refl].
  eapply fewer_insert; [done|]. intros u. by eapply swap_remove_position.
Qed.
Lemma foldl_unlink_fewer provided ms : ∀ ready, fewer_links ready (foldl (unlink provided) ready ms).
Proof.
  induction ms as [|m ms IH]; intros ready; cbn [foldl]; [apply fewer_refl|].
  eapply fewer_trans; [apply unlink_fewer|apply IH].
Qed.

Lemma remove_fewer s hs f s' removed :
  remove_with_markers s hs f = Some (s', removed) → fewer_links (ready_tx s) (ready_tx s').
Proof.
  unfold remove_with_markers. intros Hl.
  refine (loop_post (remove_step f) (λ st, fewer_links (ready_tx s) (ready_tx st.1.2))
    (λ res, fewer_links (ready_tx s) (ready_tx res.1)) _ _ _ _ _ Hl); [|apply fewer_refl].
  intros [[stack s1] rem] Hf. unfold remove_step. destruct (vec_pop stack) as [[h stack']|]; [|done].
  destruct (ready_tx s1 !! h) as [r|]; [|done]. cbn in *. eapply fewer_trans; [done|].
  eapply fewer_trans; [apply fewer_delete|apply foldl_unlink_fewer].
Qed.

Lemma prune_previous_fewer provided h ms : ∀ remove ready,
  fewer_links ready (foldl (prune_previous provided h) (remove, ready) ms).2.
Proof.
  induction ms as [|m ms IH]; intros remove ready; cbn [foldl]; [apply fewer_refl|].
  destruct (prune_previous provided h (remove, ready) m) as [remove1 ready1] eqn:Hp.
  eapply fewer_trans; [|apply IH]. unfold prune_previous in Hp.
  destruct (provided !! m) as [h'|]; [|injection Hp as <- <-; apply fewer_refl].
  destruct (ready !! h') as [r|] eqn:Hr; [|injection Hp as <- <-; apply fewer_refl].
  injection Hp as <- <-. eapply fewer_insert; [done|]. cbn.
  destruct (position _ _) as [i|] eqn:Hi; [|done]. intros u. by eapply swap_remove_position.
Qed.
Lemma prune_unlock_fewer hs : ∀ ready indep,
  fewer_links ready (foldl prune_unlock (ready, indep) hs).1.
Proof.
  induction hs as [|h hs IH]; intros ready indep; cbn [foldl]; [apply fewer_refl|].
  destruct (prune_unlock (ready, indep) h) as [ready1 indep1] eqn:Hp.
  eapply fewer_trans; [|apply IH]. unfold prune_unlock in Hp.
  destruct (ready !! h) as [r|] eqn:Hr; [|injection Hp as <- <-; apply fewer_refl].
  injection Hp as <- <-. by eapply fewer_insert.
Qed.
Lemma prune_fewer s m s' pruned :
  prune_tags s m = Some (s', pruned) → fewer_links (ready_tx s) (ready_tx s').
Proof.
  unfold prune_tags. intros Hl.
  refine (loop_post prune_step (λ st, fewer_links (ready_tx s) (ready_tx st.1.2))
    (λ res, fewer_links (ready_tx s) (ready_tx res.1)) _ _ _ _ _ Hl); [|apply fewer_refl].
  intros [[remove s1] rem] Hf. unfold prune_step. destruct (vec_pop remove) as [[m' remove']|]; [|done].
  destruct (_ ≫= _) as [[h r]|]; [|done]. cbn in Hf.
  pose proof (prune_previous_fewer (delete m' (provided_markers s1)) (hash (rt_pool_tx r))
    (requires (rt_pool_tx r)) remove' (delete h (ready_tx s1))) as Hp.
  destruct (foldl (prune_previous _ _) _ _) as [remove2 ready2].
  pose proof (prune_unlock_fewer (unlocks r) ready2
    (bt_remove ref_cmp (rt_transaction r) (independent_transactions s1))) as Hu.
  destruct (foldl prune_unlock _ _) as [ready3 indep3]. cbn in Hp, Hu.
  destruct (fold_m _ _ _) as [provided|]; [|done]. cbn.
  eapply fewer_trans; [done|]. eapply fewer_trans; [apply fewer_delete|]. by eapply fewer_trans.
Qed.

(** ** Adding links a transaction to those it requires *)
Definition all_placed ready : Prop := ∀ h r, ready !! h = Some r → placed (rt_pool_tx r).

Lemma provider_lookup F s m h :
  ready_inv_upto F s → provided_markers s !! m = Some h → m ∉ F →
  ∃ r, ready_tx s !! h = Some r ∧ hash (rt_pool_tx r) = h ∧ m ∈ provides (rt_pool_tx r).
Proof.
  intros Hinv Hm HF. destruct (ri_provided _ _ _ _ _ Hinv _ _ Hm) as [?|(x & Hx & Hp)]; [done|].
  pose proof (ri_hash _ _ _ _ _ Hinv _ _ Hx) as Hh. rewrite ready_refs_lookup in Hx.
  apply fmap_Some in Hx as (r & Hr & ->). by exists r.
Qed.
Lemma ready_key F s h r : ready_inv_upto F s → ready_tx s !! h = Some r → hash (rt_pool_tx r) = h.
Proof.
  intros Hinv Hr. apply (ri_hash _ _ _ _ _ Hinv h (rt_transaction r)). by rewrite ready_refs_lookup, Hr.
Qed.

Lemma replaced_links s tx s1 removed unl :
  ready_wf s → replaced_transactions s tx = Some (s1, Ok (removed, unl)) →
  fewer_links (ready_tx s) (ready_tx s1) ∧
  ∀ u, u ∈ unl → ∃ h r m, ready_tx s !! h = Some r ∧ u ∈ unlocks r ∧ m ∈ provides tx ∧
    m ∈ provides (rt_pool_tx r).
Proof.
  intros Hwf. unfold replaced_transactions. destruct (decide _) as [|_].
  { intros [= <- <- <-]. split; [apply fewer_refl|]. by intros u ?%not_elem_of_nil. }
  pose proof (collect_unlocked_spec tx (omap (λ h, ready_tx s !! h) (iter_set (remove_hashes s tx))) []) as Hc.
  destruct (collect_unlocked _ _ _) as [l|]; [|done]. subst l.
  destruct (remove_with_markers _ _ _) as [[s' rem]|] eqn:Hrm; [|done]. cbn.
  intros [= <- <- <-]. split; [by eapply remove_fewer|]. intros u Hu.
  apply list_elem_of_In, in_concat in Hu as (us & Hus%list_elem_of_In & Hu%list_elem_of_In).
  apply list_elem_of_fmap in Hus as (r & -> & Hr).
  apply list_elem_of_omap in Hr as (h & Hh & Hr).
  apply elem_of_iter_set, elem_of_remove_hashes in Hh as (m & Hm & Hp).
  destruct (provider_lookup ∅ s m h Hwf Hp) as (r' & Hr' & _ & Hp'); [set_solver|].
  exists h, r, m. rewrite Hr in Hr'. injection Hr' as <-. done.
Qed.

Lemma link_fold_links provided h ms : ∀ ready i o ready' i' o',
  fold_m (link_step provided h) (ready, i, o) ms = Some (ready', i', o') →
  ∀ k r' u, ready' !! k = Some r' → u ∈ unlocks r' →
    (∃ r, ready !! k = Some r ∧ u ∈ unlocks r) ∨ (u = h ∧ ∃ m, m ∈ ms ∧ provided !! m = Some k).
Proof.
  induction ms as [|m ms IH]; intros ready i o ready' i' o'; cbn [fold_m].
  { intros [= <- <- <-] k r' u Hr Hu. left. by exists r'. }
  destruct (link_step provided h (ready, i, o) m) as [[[ready1 i1] o1]|] eqn:Hs; [|done]. cbn [mbind option_bind].
  intros Hf k r' u Hr' Hu. unfold link_step in Hs.
  destruct (IH _ _ _ _ _ _ Hf k r' u Hr' Hu) as [(r1 & Hr1 & Hu1)|(-> & m' & Hm' & Hp)].
  2: { right. split; [done|]. exists m'. split; [by right|done]. }
  destruct (provided !! m) as [other|] eqn:Hp.
  - destruct (ready !! other) as [r|] eqn:Hr; [|done]. cbn in Hs. injection Hs as <- <- <-.
    apply lookup_insert_Some in Hr1 as [[<- <-]|[_ Hr1]]; [|left; by exists r1].
    cbn in Hu1. apply elem_of_app in Hu1 as [Hu1| ->%list_elem_of_singleton]; [left; by exists r|].
    right. split; [done|]. exists m. split; [by left|done].
  - injection Hs as <- <- <-. left. by exists r1.
Qed.

Lemma ready_add_linked s (ptx : PendingPoolTransaction Tx) s' res :
  ready_wf s → tx_wf (pp_transaction ptx) → placed (pp_transaction ptx) →
  all_placed (ready_tx s) → linked (ready_tx s) →
  ready_add_transaction s ptx = Some (s', res) → linked (ready_tx s').
Proof.
  intros Hwf Htx Hpl Hall Hl. unfold ready_add_transaction.
  destruct (negb (is_ready ptx)); [done|]. destruct (ready_contains _ _); [done|].
  set (tx := pp_transaction ptx) in *.
  destruct (replaced_transactions_spec s tx Hwf) as (s1 & r & Hr & Hres). rewrite Hr. cbn [mbind option_bind].
  destruct r as [[removed unl]|e]; [|by destruct Hres as (-> & _); intros [= <- _]].
  destruct (replaced_links s tx s1 removed unl Hwf Hr) as [Hfew Hunl].
  destruct Hres as [(Hinv & _ & Hrefs) _]. cbn [next_id provided_markers ready_tx].
  destruct (fold_m _ _ _) as [[[ready' i'] o']|] eqn:Hf; [|done]. cbn [mbind option_bind].
  intros [= <- _]. cbn [ready_tx].
  assert (Hp1 : ∀ h r, ready_tx s1 !! h = Some r → placed (rt_pool_tx r)).
  { intros h r1 Hr1. specialize (Hrefs h (rt_transaction r1)). rewrite !ready_refs_lookup, Hr1 in Hrefs.
    destruct (Hrefs eq_refl) as [Hx _]. apply fmap_Some in Hx as (r0 & Hr0 & Heq).
    unfold rt_pool_tx. rewrite Heq. by eapply Hall. }
  intros h r0 u [[<- <-]|[Hne Hr0]]%lookup_insert_Some Hu.
  - cbn in Hu. destruct (Hunl u Hu) as (h0 & r & m & Hr1 & Hu0 & Hm & Hm0).
    pose proof (Hl h0 r u Hr1 Hu0) as Hfol.
    rewrite <- (ready_key _ _ _ _ Hwf Hr1) in Hfol. unfold follows in *.
    by rewrite (placed_same tx (rt_pool_tx r) m Hpl (Hall _ _ Hr1) Hm Hm0).
  - destruct (link_fold_links _ _ _ _ _ _ _ _ _ Hf h r0 u Hr0 Hu) as [(r1 & Hr1 & Hu1)|(-> & m & Hm & Hp)].
    + destruct (Hfew h r1 Hr1) as (r2 & Hr2 & Hsub). eapply Hl; eauto.
    + destruct (provider_lookup _ s1 m h Hinv Hp) as (r1 & Hr1 & <- & Hm1).
      { intros Hm'%elem_of_list_to_set. by eapply tw_disjoint. }
      eapply placed_follows; [by eapply Hp1|done|done|done].
Qed.

(** ** Every operation of the pool keeps the links *)
#[local] Abbreviation pool_placed := (pool_all placed).
#[local] Abbreviation pool_linked p := (linked (ready_tx (ready_transactions p))).

Lemma pool_all_placed p : pool_placed p → all_placed (ready_tx (ready_transactions p)).
Proof. intros [_ Hr]. exact Hr. Qed.

Lemma add_ready_step_linked p0 ptx0 k (st : queue_state) :
  queue_inv p0 ptx0 k st → pool_placed st.2 → transit_all placed st.1.1.1 → pool_linked st.2 →
  match add_ready_step st with
  | Some (inl st') => pool_linked st'.2
  | Some (inr res) => pool_linked res.1
  | None => True
  end.
Proof.
  destruct st as [[[queue is_new] rd] p]. intros [Hwf Htr _ _ _ _ _] Hp Hq Hl. simpl in *.
  destruct queue as [|ptx queue]; [done|]. cbn [add_ready_step].
  destruct (mark_and_unlock _ _) as [[pending' unl]|]; [|done]. cbn [mbind option_bind].
  destruct (ready_add_transaction _ _) as [[rts res]|] eqn:Hra; [|done]. cbn [mbind option_bind].
  assert (linked (ready_tx rts)) as Hl'.
  { destruct Htr as [_ Htr]. destruct (Htr ptx) as (_ & Htx & _); [auto with anvil|].
    eapply (ready_add_linked _ ptx); [apply Hwf|done|apply Hq; auto with anvil|by apply pool_all_placed|done|done]. }
  destruct res; [done|]. by destruct is_new.
Qed.

Lemma add_ready_linked p ptx k p' res :
  pool_wf p → in_transit p [ptx] → id_room p (S k) → pool_placed p → placed (pp_transaction ptx) →
  pool_linked p → add_ready_transaction p ptx = Some (p', res) → pool_linked p'.
Proof.
  intros Hwf Htr Hroom Hp HP Hl. unfold add_ready_transaction.
  set (st := ([ptx], true, new_added (pp_hash ptx), p)).
  assert (queue_inv p ptx k st) as Hinit.
  { split; simpl; try done.
    - split; [done|]. by auto.
    - intros t ->%list_elem_of_singleton. by left. }
  destruct (loop_total add_ready_step
    (λ st, queue_inv p ptx k st ∧ pool_placed st.2 ∧ transit_all placed st.1.1.1 ∧ pool_linked st.2)
    (λ res, pool_linked res.1) queue_measure)
    with (fuel := S (queue_measure st)) (s := st) as ([p1 r1] & -> & Hl1); [|lia| |].
  { intros st' (Hi & Ha & Ht & Hl'). pose proof (add_ready_step_spec _ _ _ _ Hi) as Hstep.
    pose proof (add_ready_step_all placed _ _ _ _ Hi Ha Ht) as Hall.
    pose proof (add_ready_step_linked _ _ _ _ Hi Ha Ht Hl') as Hlink.
    destruct (add_ready_step st') as [[]|]; [|done|done]. destruct Hstep. tauto. }
  { split_and!; [done|done| |done]. by intros t ->%list_elem_of_singleton. }
  cbn [mbind option_bind fst snd] in *. destruct r1 as [a|e]; [|by intros [= <- _]].
  case_bool_decide; [|by intros [= <- _]]. unfold clear_transactions.
  destruct (remove_with_markers _ _ _) as [[rts rem]|] eqn:Hrm; [|done].
  cbn. intros [= <- _]. eapply fewer_linked; [by eapply remove_fewer|done].
Qed.

Lemma add_transaction_linked p tx now k p' res :
  pool_wf p → tx_wf tx → id_room p (S k) → pool_placed p → placed tx → pool_linked p →
  add_transaction p tx now = Some (p', res) → pool_linked p'.
Proof.
  intros Hwf Htx Hroom Hp HP Hl. unfold add_transaction.
  destruct (pool_contains p (hash tx)) eqn:Hc; [by intros [= <- _]|].
  apply pool_contains_false in Hc as [Hw Hr]. destruct (is_ready _) eqn:Hready; simpl.
  - apply (add_ready_linked p _ k); [done| |done..]. split; [apply NoDup_singleton|].
    by intros t ->%list_elem_of_singleton.
  - destruct (pending_add_transaction _ _) as [[pend r]|]; [|done]. cbn. by destruct r; intros [= <- _].
Qed.

Lemma prune_marker_linked (st st' : PoolInner Tx * list (PendingPoolTransaction Tx) * list (PoolTransaction Tx)) m :
  pool_linked st.1.1 → prune_marker st m = Some st' → pool_linked st'.1.1.
Proof.
  destruct st as [[p imports] pruned]. unfold prune_marker. intros Hl.
  destruct (mark_and_unlock _ _) as [[pend unl]|]; [|done]. cbn [mbind option_bind].
  destruct (prune_tags (ready_transactions p) m) as [[rts txs]|] eqn:Hp; [|done].
  cbn [mbind option_bind]. intros [= <-]. cbn [fst ready_transactions].
  eapply fewer_linked; [by eapply prune_fewer|done].
Qed.

Lemma promote_import_linked k ptx imports st :
  promote_inv k (ptx :: imports) st → pool_placed st.1.1 → placed (pp_transaction ptx) → pool_linked st.1.1 →
  ∀ st', promote_import st ptx = Some st' → pool_linked st'.1.1.
Proof.
  destruct st as [[p promoted] failed]. intros (Hwf & Htr & Hroom) Hp HP Hl st'. simpl in *.
  destruct (add_ready_transaction p ptx) as [[p' res]|] eqn:Ha; [|done]. cbn. intros Hst'.
  assert (st'.1.1 = p') as -> by (by destruct res; injection Hst' as <-).
  eapply (add_ready_linked p ptx _); [done| |exact Hroom|done|done|done|exact Ha].
  split; [apply NoDup_singleton|]. intros t ->%list_elem_of_singleton. apply Htr. auto with anvil.
Qed.

Lemma prune_markers_linked p ms k p' res :
  pool_wf p → id_room p k → pool_placed p → pool_linked p → prune_markers p ms = Some (p', res) →
  pool_linked p'.
Proof.
  intros Hwf Hroom Hp Hl. unfold prune_markers.
  destruct (fold_m_total prune_marker (λ _ st, prune_loop_inv p k st ∧ pool_placed st.1.1 ∧
    transit_all placed st.1.2 ∧ pool_linked st.1.1)) with
    (l := ms) (b := (p, [] : list (PendingPoolTransaction Tx), [] : list (PoolTransaction Tx)))
    as ([[p1 imports] pruned] & -> & Hinv & Hp1 & Hi & Hl1).
  { intros m l st (Hi & Ha & Ht & Hl'). destruct (prune_marker_spec _ _ _ m Hi) as (st' & Hst' & Hi').
    exists st'. split; [done|]. destruct (prune_marker_all placed p k st m Hi Ha Ht st' Hst').
    split_and!; [done..|]. by eapply prune_marker_linked. }
  { split_and!; simpl; [|done|by intros ? ?%not_elem_of_nil|done].
    split_and!; simpl; [done| |done|split; by auto|by intros ? ?%not_elem_of_nil].
    split; [constructor|]. by intros ? ?%not_elem_of_nil. }
  destruct Hinv as (Hwf1 & Htr1 & Hroom1 & _). simpl in *.
  destruct (fold_m_total promote_import (λ l st, promote_inv k l st ∧ pool_placed st.1.1 ∧
    transit_all placed l ∧ pool_linked st.1.1)) with
    (l := imports) (b := (p1, [] : list (AddedTransaction Tx), [] : list TxHash))
    as ([[p2 promoted] failed] & -> & _ & _ & _ & Hl2).
  { intros ptx l st (Hpi & Ha & Ht & Hl'). destruct (promote_import_spec k ptx l st Hpi) as (st' & Hst' & Hi').
    assert (placed (pp_transaction ptx)) as HP by (apply Ht; auto with anvil).
    exists st'. split; [done|]. split_and!; [done| | |].
    - by eapply promote_import_all.
    - intros t Hin. apply Ht. auto with anvil.
    - by eapply promote_import_linked. }
  { by split_and!. }
  simpl. by intros [= <- _].
Qed.

Lemma remove_invalid_linked p hs p' removed :
  pool_linked p → remove_invalid p hs = Some (p', removed) → pool_linked p'.
Proof.
  intros Hl. unfold remove_invalid. destruct hs as [|h hs]; [by intros [= <- _]|].
  destruct (remove_with_markers _ _ _) as [[rts rm]|] eqn:Hrm; [|done]. cbn [mbind option_bind].
  destruct (pending_remove _ _) as [pend rem]. intros [= <- _]. eapply fewer_linked; [by eapply remove_fewer|done].
Qed.
Lemma drop_transaction_linked p h p' t :
  pool_linked p → drop_transaction p h = Some (p', t) → pool_linked p'.
Proof.
  intros Hl. unfold drop_transaction. destruct (remove_with_markers _ _ _) as [[rts rm]|] eqn:Hrm; [|done].
  cbn. intros [= <- _]. eapply fewer_linked; [by eapply remove_fewer|done].
Qed.

Lemma on_mined_block_linked p o k p' res :
  pool_wf p → id_room p k → pool_placed p → pool_linked p → on_mined_block p o = Some (p', res) →
  pool_linked p'.
Proof.
  intros Hwf Hroom Hp Hl. unfold on_mined_block.
  destruct (remove_invalid_total p (hash <$> invalid o) k Hwf Hroom)
    as (p1 & rem & Hri & Hwf1 & Hroom1 & _). rewrite Hri. cbn [mbind option_bind].
  intros Hpm. eapply (prune_markers_linked p1 _ k); [done..| | |exact Hpm].
  - by eapply (remove_invalid_all placed p _ k).
  - by eapply remove_invalid_linked.
Qed.

Definition call_placed (c : PoolCall Tx) : Prop := match c with PAdd tx _ => placed tx | _ => True end.

Record pool_chained p : Prop := {
  pc_placed : pool_placed p;
  pc_linked : pool_linked p;
}.

Lemma pool_call_chained p c k p' :
  pool_wf p → call_wf c → id_room p (S k) → call_placed c → pool_chained p →
  pool_call p c = Some p' → pool_chained p'.
Proof.
  intros Hwf Hc Hroom Hpl [Hp Hl].
  assert (id_room p k) as Hroom' by (unfold id_room in *; lia).
  destruct c as [tx now|ms|o|hs|h|]; cbn [pool_call]; try intros ([q res] & Hcall & ->)%fmap_Some.
  - split; [by eapply (add_transaction_all placed p tx now k)|by eapply (add_transaction_linked p tx now k)].
  - split; [by eapply (prune_markers_all placed p ms k)|by eapply (prune_markers_linked p ms k)].
  - split; [by eapply (on_mined_block_all placed p o k)|by eapply (on_mined_block_linked p o k)].
  - split; [by eapply (remove_invalid_all placed p hs k)|by eapply remove_invalid_linked].
  - split; [by eapply (drop_transaction_all placed p h)|by eapply drop_transaction_linked].
  - intros [= <-]. split; [split|]; intros; by simplify_map_eq.
Qed.
End links.

(** ** The iterator over the ready transactions ends

    [TransactionsIterator::next] follows the links between ready
    transactions, and the miner collects it until it is exhausted.  On the
    node's transactions each link leads to the sender's next nonce
    (ReadyLinks.v), so that the sum of the nonces still above the
    independent transactions falls with every transaction handed out. *)
Section ends.
Context {Tx : Type} `{TxEnvelope Tx}.
Context `{!HashOrder TxHash} `{!HashOrder TxMarker}.
Implicit Types (it : TransactionsIterator Tx) (p : PoolInner Tx).
Implicit Types (x y : PoolTransactionRef Tx) (r : ReadyTransaction Tx).
Variable place : TxHash → Z * Address.

(** The nonces above that of a transaction, itself included. *)
Definition above (h : TxHash) : Z := 2 ^ 64 - (place h).1.
Definition potential (l : list (PoolTransactionRef Tx)) : Z :=
  foldr (λ x n, above (ref_hash x) + n) 0 l.

Lemma potential_nonneg l : (∀ x, x ∈ l → 0 < above (ref_hash x)) → 0 ≤ potential l.
Proof.
  induction l as [|x l IH]; intros Hl; cbn; [lia|]. pose proof (Hl x (list_elem_of_here _ _)).
  assert (0 ≤ potential l) by (apply IH; intros y Hy; apply Hl; by right). unfold potential in *. lia.
Qed.
Lemma potential_insert x l : 0 < above (ref_hash x) →
  potential (bt_insert ref_cmp x l) ≤ above (ref_hash x) + potential l.
Proof.
  intros Hx. induction l as [|y l IH]; cbn; [lia|]. destruct (ref_cmp x y); cbn; unfold potential in *; lia.
Qed.
Lemma potential_take x y l : bt_take ref_cmp x l = Some y →
  potential l = above (ref_hash y) + potential (bt_remove ref_cmp x l).
Proof.
  induction l as [|z l IH]; cbn; [done|]. destruct (ref_cmp x z).
  - by intros [= ->].
  - done.
  - intros Ht%IH. cbn. unfold potential in *. lia.
Qed.
Lemma bt_insert_twice x l :
  bt_insert ref_cmp x (bt_insert ref_cmp x l) = bt_insert (A := PoolTransactionRef Tx) ref_cmp x l.
Proof.
  induction l as [|y l IH]; cbn; [by rewrite (cmp_refl ref_cmp)|].
  destruct (ref_cmp x y) eqn:Hxy; cbn; rewrite ?(cmp_refl ref_cmp), ?Hxy; [done..|]. by rewrite IH.
Qed.

(** The references of an iterator are those of the pool it looks at. *)
Record iter_chained it : Prop := {
  ic_sorted : bt_sorted ref_cmp (independent it);
  ic_hash h x : ready_refs (all it) !! h = Some x → ref_hash x = h;
  ic_indep x : x ∈ independent it → ready_refs (all it) !! ref_hash x = Some x;
  ic_await h n x : awaiting it !! h = Some (n, x) → ready_refs (all it) !! h = Some x;
  ic_placed : all_placed place (all it);
  ic_linked : linked place (all it);
  ic_inj h h' r r' : all it !! h = Some r → all it !! h' = Some r' → place h = place h' → h = h';
}.

Lemma ic_ref_placed it h x : iter_chained it → ready_refs (all it) !! h = Some x →
  ref_hash x = h ∧ placed place (ref_transaction x).
Proof.
  intros Hic Hx. split; [by apply (ic_hash _ Hic)|]. rewrite ready_refs_lookup in Hx.
  apply fmap_Some in Hx as (r & Hr & ->). by apply (ic_placed _ Hic h).
Qed.
Lemma ic_above it h x : iter_chained it → ready_refs (all it) !! h = Some x → 0 < above (ref_hash x).
Proof.
  intros Hic Hx. destruct (ic_ref_placed it h x Hic Hx) as [_ [Hn _ _ _]].
  unfold above, ref_hash, in_u64, u64_max in *. lia.
Qed.

(** Unlocking [x0] leaves the independent set or adds [x0] to it. *)
Definition unlocked (x0 : PoolTransactionRef Tx) it it' : Prop :=
  iter_chained it' ∧ all it' = all it ∧
  (independent it' = independent it ∨ independent it' = bt_insert ref_cmp x0 (independent it)).

Lemma independent_or_awaiting_chained it n x h :
  iter_chained it → ready_refs (all it) !! h = Some x → unlocked x it (independent_or_awaiting it n x).
Proof.
  intros Hic Hx. pose proof Hic as [Hs Hh Hi Ha Hp Hl Hj]. pose proof (Hh _ _ Hx) as Hk. subst h.
  unfold independent_or_awaiting. case_match; split_and!; cbn; auto; split; cbn; try done.
  - by apply (bt_insert_sorted ref_cmp).
  - intros y [->|Hy]%bt_insert_elem; [done|by apply Hi].
  - intros h m y [[<- [= <- <-]]|[_ Hy]]%lookup_insert_Some; [done|by eapply Ha].
Qed.

Lemma unlock_next_chained it h x0 :
  iter_chained it → (∀ x, ready_refs (all it) !! h = Some x → x = x0) → unlocked x0 it (unlock_next it h).
Proof.
  intros Hic Hone. unfold unlock_next. destruct (awaiting it !! h) as [[n x]|] eqn:Hw.
  - pose proof (ic_await _ Hic _ _ _ Hw) as Hx. rewrite <- (Hone x Hx).
    refine (independent_or_awaiting_chained (mkTransactionsIterator _ _ _) _ _ h _ Hx).
    destruct Hic as [Hs Hh Hi Ha Hp Hl Hj]. split; cbn; try done.
    intros h' m y [_ Hy]%lookup_delete_Some. by eapply Ha.
  - destruct (all it !! h) as [r|] eqn:Hr; [|by split_and!; auto].
    assert (ready_refs (all it) !! h = Some (rt_transaction r)) as Hx by (by rewrite ready_refs_lookup, Hr).
    rewrite <- (Hone _ Hx). by eapply independent_or_awaiting_chained.
Qed.

Lemma unlock_all_chained x0 hs : ∀ it,
  iter_chained it → (∀ h x, h ∈ hs → ready_refs (all it) !! h = Some x → x = x0) →
  unlocked x0 it (foldl unlock_next it hs).
Proof.
  induction hs as [|h hs IH]; intros it Hic Hone; cbn [foldl]; [by split_and!; auto|].
  destruct (unlock_next_chained it h x0 Hic) as (Hic1 & Ha1 & Hi1).
  { intros x. apply Hone. by left. }
  destruct (IH (unlock_next it h) Hic1) as (Hic2 & Ha2 & Hi2).
  { intros h' x Hin. rewrite Ha1. apply Hone. by right. }
  split_and!; [done|congruence|].
  destruct Hi1 as [<-|Hi1]; [done|]. right. rewrite Hi1, bt_insert_twice in Hi2. by destruct Hi2.
Qed.

(** The links of one transaction lead to one transaction. *)
Lemma one_follower it h r : iter_chained it → all it !! h = Some r →
  (∀ u x, u ∈ unlocks r → ready_refs (all it) !! u = Some x → False) ∨
  ∃ u x0, ready_refs (all it) !! u = Some x0 ∧ follows place h u ∧
    ∀ u' x, u' ∈ unlocks r → ready_refs (all it) !! u' = Some x → x = x0.
Proof.
  intros Hic Hr. destruct (decide (Exists (λ u, is_Some (all it !! u)) (unlocks r))) as [He|Hn].
  - right. apply Exists_exists in He as (u & Hu & [ru Hru]).
    pose proof (ic_linked _ Hic _ _ _ Hr Hu) as Hf. exists u, (rt_transaction ru).
    rewrite ready_refs_lookup, Hru. split_and!; [done..|]. intros u' x Hu' Hx.
    pose proof (ic_linked _ Hic _ _ _ Hr Hu') as Hf'. rewrite ready_refs_lookup in Hx.
    apply fmap_Some in Hx as (rx & Hrx & ->). unfold follows in *.
    assert (u' = u) as ->; [|by rewrite Hru in Hrx; injection Hrx as ->].
    eapply (ic_inj _ Hic); [done..|]. rewrite (surjective_pairing (place u)), (surjective_pairing (place u')).
    by destruct Hf as [-> ->], Hf' as [-> ->].
  - left. intros u x Hu Hx. rewrite ready_refs_lookup in Hx. apply fmap_Some in Hx as (ru & Hru & _).
    apply Hn, Exists_exists. by exists u.
Qed.

Definition steps_down it (res : option (PoolTransaction Tx) * TransactionsIterator Tx) : Prop :=
  iter_chained res.2 ∧ (res.1 = None ∨ potential (independent res.2) < potential (independent it)).

Lemma next_step_chained it : iter_chained it →
  ∃ res, next_step it = Some (inr res) ∧ steps_down it res.
Proof.
  intros Hic. unfold next_step. destruct (last (independent it)) as [best|] eqn:Hl; cbn [mbind option_bind].
  2: { eexists. split; [done|]. by split; [|left]. }
  pose proof (bt_take_last ref_cmp best _ (ic_sorted _ Hic) Hl) as Ht. rewrite Ht.
  apply last_Some_elem_of in Hl as Hb. pose proof (ic_indep _ Hic _ Hb) as Hrb.
  pose proof (ic_above _ _ _ Hic Hrb) as Hab.
  rewrite ready_refs_lookup in Hrb. apply fmap_Some in Hrb as (r & Hr & Hbr). cbn [all]. rewrite Hr.
  eexists. split; [done|]. set (it1 := mkTransactionsIterator _ _ _).
  assert (iter_chained it1) as Hic1.
  { destruct Hic as [Hs Hh Hi Ha Hp Hlk Hj]. split; cbn; try done.
    - by apply (bt_remove_sorted ref_cmp).
    - intros y Hy%bt_remove_elem. by apply Hi. }
  pose proof (potential_take _ _ _ Ht) as Hpot.
  change (potential (independent it) = above (ref_hash best) + potential (independent it1)) in Hpot.
  destruct (one_follower it1 (ref_hash best) r Hic1 Hr) as [Hno|(u & x0 & Hx0 & Hf & Hone)].
  - destruct (unlock_all_chained best (unlocks r) it1 Hic1) as (Hic2 & _ & Hi2).
    { intros u x Hu Hx. by destruct (Hno u x Hu Hx). }
    split; [done|]. right. cbn [snd].
    destruct Hi2 as [->|Hi2]; [lia|].
    assert (foldl unlock_next it1 (unlocks r) = it1) as ->; [|lia].
    clear Hi2 Hic2. revert Hno. generalize (unlocks r) as us. intros us.
    induction us as [|u us IH]; intros Hno; [done|]. cbn [foldl].
    assert (unlock_next it1 u = it1) as ->.
    { unfold unlock_next. destruct (awaiting it1 !! u) as [[n x]|] eqn:Hw.
      - destruct (Hno u x); [by left|by eapply (ic_await _ Hic1)].
      - destruct (all it1 !! u) as [ru|] eqn:Hru; [|done].
        destruct (Hno u (rt_transaction ru)); [by left|by rewrite ready_refs_lookup, Hru]. }
    apply IH. intros u' x Hu'. apply Hno. by right.
  - destruct (unlock_all_chained x0 (unlocks r) it1 Hic1 Hone) as (Hic2 & _ & Hi2).
    split; [done|]. right. cbn [snd]. destruct Hi2 as [->| ->]; [lia|].
    pose proof (ic_above _ _ _ Hic1 Hx0) as Hax.
    pose proof (potential_insert x0 (independent it1) Hax). pose proof (ic_hash _ Hic1 _ _ Hx0) as Hk.
    destruct Hf as [Hf _]. unfold above in *. rewrite Hk in *. lia.
Qed.

Lemma next_chained it : iter_chained it → ∃ res, next it = Some res ∧ steps_down it res.
Proof.
  intros Hic. destruct (next_step_chained it Hic) as (res & Hs & Hd). exists res. split; [|done].
  unfold next. cbn [loop]. by rewrite Hs.
Qed.

Lemma iter_collect_ends (n : nat) : ∀ it, iter_chained it → potential (independent it) < Z.of_nat n →
  ∃ l, (length l < n)%nat ∧ ∀ fuel, (n ≤ fuel)%nat → iter_collect fuel it = Some l.
Proof.
  induction n as [|n IH]; intros it Hic Hn.
  { pose proof (potential_nonneg (independent it)) as Hp. rewrite Nat2Z.inj_0 in Hn.
    exfalso. assert (0 ≤ potential (independent it)); [|lia]. apply Hp. intros x Hx.
    by eapply ic_above, (ic_indep _ Hic). }
  destruct (next_chained it Hic) as ([o it'] & Hnx & Hic' & Hd). cbn [fst snd] in *.
  destruct o as [tx|].
  - destruct Hd as [|Hd]; [done|]. destruct (IH it' Hic') as (l & Hlen & Hl); [lia|].
    exists (tx :: l). split; [cbn; lia|]. intros [|fuel] Hf; [lia|]. cbn [iter_collect]. rewrite Hnx.
    cbn [mbind option_bind]. rewrite Hl by lia. done.
  - exists []. split; [cbn; lia|]. intros [|fuel] Hf; [lia|]. cbn [iter_collect]. by rewrite Hnx.
Qed.

Lemma ready_iterator_chained p : pool_wf p → pool_chained place p → iter_chained (ready_iterator p).
Proof.
  intros Hwf [[_ Hp] Hl]. pose proof (pool_ready _ Hwf) as Hr. destruct Hr as [Hh _ _ _ Hpr _ Hi Hs].
  split; cbn; try done. intros h h' r r' Hr Hr' Hpl.
  set (m := to_marker (place h).1 (place h).2).
  assert (∀ k q, ready_tx (ready_transactions p) !! k = Some q → place k = place h →
    provided_markers (ready_transactions p) !! m = Some k) as Hm.
  { intros k q Hq Hk. apply (Hpr k (rt_transaction q)); [by rewrite ready_refs_lookup, Hq|].
    pose proof (Hp k q Hq) as Hplq. pose proof (pl_provides _ _ Hplq) as Hprov.
    assert (hash (rt_pool_tx q) = k) as Hkey by (apply Hh; by rewrite ready_refs_lookup, Hq).
    rewrite Hkey, Hk in Hprov. unfold rt_pool_tx in Hprov. rewrite Hprov. by apply list_elem_of_singleton. }
  pose proof (Hm h r Hr eq_refl) as H1. rewrite (Hm h' r' Hr' (eq_sym Hpl)) in H1. by injection H1.
Qed.

(** The transactions that [EthApi] hands to the pool: [place] is their nonce
    and sender. *)
Definition node_call (c : PoolCall Tx) : Prop :=
  match c with
  | PAdd tx _ => ∃ order t nonce on_chain, tx = node_transaction order t nonce on_chain ∧
      place (pt_hash t) = (nonce, sender t) ∧ in_u64 nonce ∧ in_u64 on_chain ∧ is_address (sender t)
  | _ => True
  end.

Lemma node_call_wf c : node_call c → call_wf c.
Proof.
  destruct c; cbn; try done. intros (order & t & n & oc & -> & _ & Hn & Ho & Ha).
  by apply node_transaction_wf.
Qed.
Lemma node_call_placed c : node_call c → call_placed place c.
Proof.
  destruct c as [tx now|?|?|?|?|]; cbn; try done. intros (order & t & n & oc & -> & Hpl & Hn & Ho & Ha).
  split; cbn; unfold hash; cbn; rewrite Hpl; cbn; try done.
  unfold required_marker, saturating_sub. intros m Hm. unfold in_u64, u64_max in *.
  destruct (n =? oc) eqn:Heq; [by apply not_elem_of_nil in Hm|]. apply Z.eqb_neq in Heq.
  destruct (oc <=? Z.max 0 (n - 1)) eqn:Hle; [|by apply not_elem_of_nil in Hm]. apply Z.leb_le in Hle.
  apply list_elem_of_singleton in Hm as ->. assert (1 ≤ n) by lia. split; [done|].
  by rewrite Z.max_r by lia.
Qed.

Lemma pool_calls_chained cs : ∀ p p', pool_wf p → Forall node_call cs → id_room p (length cs) →
  pool_chained place p → fold_m pool_call p cs = Some p' → pool_wf p' ∧ pool_chained place p'.
Proof.
  induction cs as [|c cs IH]; intros p p' Hwf Hcs Hid Hch; cbn [fold_m]; [by intros [= <-]|].
  apply Forall_cons in Hcs as [Hc Hcs]. cbn [length] in Hid.
  destruct (pool_call_total p c _ Hwf (node_call_wf _ Hc) Hid) as (p1 & Hp1 & Hwf1 & Hid1).
  rewrite Hp1. cbn [mbind option_bind]. apply IH; [done..|].
  by eapply (pool_call_chained place p c _ _ Hwf (node_call_wf _ Hc) Hid (node_call_placed _ Hc)).
Qed.

Lemma polls_end p n l : pool_wf p → (∀ fuel, (n ≤ fuel)%nat → iter_collect fuel (ready_iterator p) = Some l) →
  ∀ fuel m, (n ≤ fuel)%nat → is_Some (miner_poll fuel m p).
Proof.
  intros Hwf Hl fuel m Hf.
  assert (∀ a, is_Some (auto_poll a p)) as Ha.
  { intros a. unfold auto_poll. case_bool_decide; [done|].
    destruct (iter_take_spec (max_transactions a) (ready_iterator p)) as (l' & -> & _);
      [by apply ready_iterator_sorted|done]. }
  assert (∀ f, is_Some (fixed_poll fuel f p)) as Hx.
  { intros f. unfold fixed_poll. destruct (tick f); [by rewrite (Hl fuel Hf)|done]. }
  assert (is_Some (mode_poll fuel (mode m) p)) as [[md nxt] Hm].
  { destruct (mode m) as [|a|f|a f]; cbn [mode_poll]; [done| | |].
    - by destruct (Ha a) as [[? ?] ->].
    - by destruct (Hx f) as [[? ?] ->].
    - destruct (Ha a) as [[? ?] ->], (Hx f) as [[? ?] ->]. done. }
  unfold miner_poll. rewrite Hm. cbn [mbind option_bind]. destruct nxt; [|done].
  by destruct (force_transactions m).
Qed.

(** C19: whatever was sent to the pool and happened to it, the iterator over
    the ready transactions ends, although it follows links that are not
    removed with the transactions they lead to: from some number of rounds
    on, collecting it gives the same list, of ready transactions of the
    pool, and a poll of any miner returns. *)
Theorem ready_iterator_ends cs :
  Forall node_call cs → Z.of_nat (length cs) ≤ u64_max →
  ∃ p n l, fold_m pool_call (pool_default (Tx := Tx)) cs = Some p ∧
    (∀ fuel, (n ≤ fuel)%nat → iter_collect fuel (ready_iterator p) = Some l) ∧
    (∀ fuel m, (n ≤ fuel)%nat → is_Some (miner_poll fuel m p)) ∧
    ∀ tx, tx ∈ l → ∃ h r, ready_tx (ready_transactions p) !! h = Some r ∧ rt_pool_tx r = tx.
Proof.
  intros Hcs Hlen. assert (id_room (pool_default (Tx := Tx)) (length cs)) as Hroom.
  { unfold id_room. cbn. rewrite map_size_empty. lia. }
  destruct (pool_calls_total cs pool_default) as (p & Hp & Hwf & _);
    [apply pool_default_wf|by eapply Forall_impl; [|apply node_call_wf]|done|].
  destruct (pool_calls_chained cs pool_default p) as [_ Hch]; [apply pool_default_wf|done..| |done|].
  { split; [apply pool_default_all|]. intros h r u Hr. cbn in Hr; by rewrite lookup_empty in Hr. }
  pose proof (ready_iterator_chained p Hwf Hch) as Hic.
  set (n := Z.to_nat (Z.max 0 (potential (independent (ready_iterator p)) + 1))).
  destruct (iter_collect_ends n (ready_iterator p) Hic) as (l & _ & Hl); [unfold n; lia|].
  exists p, n, l. split_and!; [done..|by apply polls_end with (l := l)|].
  apply Forall_forall, (iter_collect_all (λ tx, ∃ h r, ready_tx (ready_transactions p) !! h = Some r ∧ rt_pool_tx r = tx)
    n (ready_iterator p)); [|by apply Hl].
  split_and!; [| |by eauto].
  - intros x Hx%(ic_indep _ Hic). rewrite ready_refs_lookup in Hx. apply fmap_Some in Hx as (r & Hr & ->).
    by exists (ref_hash (rt_transaction r)), r.
  - intros h k x Hx. cbn in Hx. by rewrite lookup_empty in Hx.
Qed.
End ends.

#[local] Existing Instance fee_envelope.
#[local] Existing Instance hash_order.
#[local] Existing Instance marker_order.

(** Transaction 102 comes first and waits for 101; 103 replaces 101 and
    takes its links. *)
Definition sample_calls : list (PoolCall Z) :=
  [PAdd (sample_tx 102 1 5) 0; PAdd (sample_tx 101 0 5) 0; PAdd (sample_tx 103 0 6) 0; PDrop 102].
Definition sample_place (h : TxHash) : Z * Address := (if decide (h = 102) then 1 else 0, 7).

Lemma ready_iterator_ends_witness :
  ∃ p n, fold_m pool_call pool_default sample_calls = Some p ∧
    ∀ fuel m, (n ≤ fuel)%nat → is_Some (miner_poll fuel m p).
Proof.
  destruct (ready_iterator_ends sample_place sample_calls) as (p & n & l & Hp & _ & Hm & _).
  - repeat constructor; do 4 eexists; (split; [reflexivity|by vm_compute]).
  - by vm_compute.
  - exists p, n. split; [exact Hp|exact Hm].
Defined.
