(* ===== verification/GasOracle.v ===== *)
(** * Gas for clients: estimates, suggested prices and the fee history,
    anvil/src/eth/api.rs

    [do_estimate_gas_with_state] searches for the least gas limit with which a
    call succeeds; [gas_price], [lowest_suggestion_tip] and the fees that
    [build_tx_request] fills in suggest what to pay; [fee_history] answers
    [eth_feeHistory] from the cache.  A call on revm and reads of accounts are
    the interface [CallEnv].  A percentile is the rational number that an f64
    of a request denotes: JSON has neither infinities nor NaN, and clamping,
    rounding and doubling are exact in its range. *)
From stdpp Require Import base list gmap.
From Stdlib Require Import ZArith Lia QArith Qround.
From S2P Require Import Prelude Containers Fees StateDb Executor Backend Validation.
From S2P Require Import ExecutorProofs SampleNode.
#[local] Open Scope list_scope.
#[local] Open Scope Z_scope.

#[local] Abbreviation B256 := Z (only parsing).
#[local] Abbreviation Bytes := (list Z) (only parsing).
#[local] Abbreviation Address := Z (only parsing).

#[local] Arguments item_base_fee {Float} _.
#[local] Arguments gas_used_ratio {Float} _.
#[local] Arguments item_base_fee_per_blob_gas {Float} _.
#[local] Arguments blob_gas_used_ratio {Float} _.

(** ** Estimating the gas of a call *)
(** [InstructionResult] of revm. *)
Inductive InstructionResult :=
| Stop | Return | SelfDestruct
| RevertOp | CallTooDeep | OutOfFunds | CreateInitCodeStartingEF00 | InvalidEOFInitCode
| InvalidExtDelegateCallTarget
| OutOfGasOp | MemoryOOG | MemoryLimitOOG | PrecompileOOG | InvalidOperandOOG | ReentrancySentryOOG
| OpcodeNotFound | CallNotAllowedInsideStatic | StateChangeDuringStaticCall | InvalidFEOpcode
| InvalidJump | NotActivated | StackUnderflow | StackOverflow | OutOfOffset | CreateCollision
| OverflowPayment | PrecompileError | NonceOverflow | CreateContractSizeLimit
| CreateContractStartingWithEF | CreateInitCodeSizeLimit | InvalidImmediateEncoding
| FatalExternalError.

Inductive CallKind := Call (to : Address) | Create.

(** The fields of a request that are read here. *)
Record TransactionRequest := mkRequest {
  rq_to : option CallKind;
  rq_input : option Bytes;
  rq_authorization_list : option nat;      (* its length *)
  rq_access_list : bool;
  rq_blob_versioned_hashes : bool;
  rq_gas_price : option Z;
  rq_max_fee_per_gas : option Z;
  rq_max_priority_fee_per_gas : option Z;
  rq_max_fee_per_blob_gas : option Z;
  rq_from : option Address;
  rq_value : option Z;
  rq_gas : option Z;
}.
Definition with_gas (r : TransactionRequest) (g : Z) : TransactionRequest :=
  mkRequest (rq_to r) (rq_input r) (rq_authorization_list r) (rq_access_list r)
    (rq_blob_versioned_hashes r) (rq_gas_price r) (rq_max_fee_per_gas r)
    (rq_max_priority_fee_per_gas r) (rq_max_fee_per_blob_gas r) (rq_from r) (rq_value r) (Some g).

(** The errors of the API that are made or looked at here. *)
Inductive RpcError :=
| FeeErr (e : FeeError)
| InsufficientFunds
| GasTooHigh
| BasicOutOfGas (gas_limit : Z)
| Revert (output : option Bytes)
| EvmErr (exit : InstructionResult)
| InvalidBlockRange
| OtherErr (what : Z).

Class CallEnv := {
  CallCode : Type;
  basic_ref : Address → result RpcError (option (AccountInfo CallCode));
  code_by_hash_ref : B256 → result RpcError CallCode;
  code_bytes : CallCode → Bytes;
  KECCAK_EMPTY : B256;
  call_with_state : TransactionRequest → FeeDetails → result RpcError (InstructionResult * option Bytes * Z);
}.

Inductive GasEstimationCallResult :=
| Success (gas : Z)
| OutOfGas
| Reverted (output : option Bytes)
| EvmError (exit : InstructionResult).

Definition try_from (res : result RpcError (InstructionResult * option Bytes * Z))
    : result RpcError GasEstimationCallResult :=
  match res with
  | Err GasTooHigh => Ok OutOfGas
  | Err err => Err err
  | Ok (exit, output, gas) =>
      match exit with
      | Stop | Return | SelfDestruct => Ok (Success gas)
      | RevertOp => Ok (Reverted output)
      | OutOfGasOp | MemoryOOG | MemoryLimitOOG | PrecompileOOG | InvalidOperandOOG
      | ReentrancySentryOOG => Ok OutOfGas
      | _ => Ok (EvmError exit)
      end
  end.

Definition MIN_CREATE_GAS : Z := 53000.
Definition PER_EMPTY_ACCOUNT_COST : Z := 25000.

Definition determine_base_gas_by_kind (r : TransactionRequest) : Z :=
  match rq_to r with
  | Some (Call _) =>
      MIN_TRANSACTION_GAS +
        match rq_authorization_list r with
        | Some n => Z.of_nat n * PER_EMPTY_ACCOUNT_COST
        | None => 0
        end
  | Some Create => MIN_CREATE_GAS
  | None => MIN_CREATE_GAS
  end.

Section estimate.
Context `{!CallEnv}.
Implicit Types r : TransactionRequest.

Definition get_code_with_state (a : Address) : result RpcError Bytes :=
  acc ← basic_ref a;
  match acc with
  | None => Ok []
  | Some acc =>
      if bool_decide (code_hash acc = KECCAK_EMPTY) then Ok []
      else
        c ← match code acc with Some c => Ok c | None => code_by_hash_ref (code_hash acc) end;
        Ok (code_bytes c)
  end.
Definition get_balance_with_state (a : Address) : result RpcError Z :=
  acc ← basic_ref a; Ok (from_option ai_balance 0 acc).

(** A plain transfer, to an account without code. *)
Definition is_transfer r : bool :=
  match rq_to r with
  | Some (Call to) =>
      bool_decide (default [] (rq_input r) = []) && bool_decide (rq_authorization_list r = None)
      && negb (rq_access_list r) && negb (rq_blob_versioned_hashes r)
      && match get_code_with_state to with Ok c => bool_decide (c = []) | Err _ => false end
  | _ => false
  end.

(** The limit that the sender can pay for. *)
Definition affordable_gas r (price limit : Z) : result RpcError Z :=
  match rq_from r with
  | Some from =>
      if bool_decide (0 < price) then
        available ← get_balance_with_state from;
        available ← match rq_value r with
                    | Some value =>
                        if bool_decide (available < value) then Err InsufficientFunds
                        else Ok (available - value)
                    | None => Ok available
                    end;
        Ok (Z.min limit (Z.min u128_max (available / price)))
      else Ok limit
  | None => Ok limit
  end.

(** A call with a gas limit, which is cast to [u64]. *)
Definition exec r (fees : FeeDetails) (g : Z) : result RpcError GasEstimationCallResult :=
  try_from (call_with_state (with_gas r (wrap_u64 g)) fees).

(** The loop: lowest, highest and middle limit. *)
Definition search_step r (fees : FeeDetails) (st : Z * Z * Z)
    : option (Z * Z * Z + result RpcError Z) :=
  let '(lowest, highest, mid) := st in
  gap ← checked u128_max (highest - lowest);
  if bool_decide (1 < gap) then
    match exec r fees mid with
    | Err e => Some (inr (Err e))
    | Ok res =>
        let '(lowest, highest) := match res with Success _ => (lowest, mid) | _ => (mid, highest) end in
        sum ← checked u128_max (highest + lowest);
        Some (inl (lowest, highest, sum / 2))
    end
  else Some (inr (Ok highest)).
Definition search_fuel (highest : Z) : nat := S (S (Z.to_nat (Z.log2_up highest))).

Definition do_estimate_gas_with_state r (block_gas_limit : Z) : option (result RpcError Z) :=
  if is_transfer r then Some (Ok MIN_TRANSACTION_GAS)
  else
    match fees_new (rq_gas_price r) (rq_max_fee_per_gas r) (rq_max_priority_fee_per_gas r)
            (rq_max_fee_per_blob_gas r) with
    | Err e => Some (Err (FeeErr e))
    | Ok fees =>
        let fees := or_zero_fees fees in
        match affordable_gas r (default 0 (Fees.gas_price fees)) (default block_gas_limit (rq_gas r)) with
        | Err e => Some (Err e)
        | Ok highest =>
            match exec r fees highest with
            | Err e => Some (Err e)
            | Ok OutOfGas => Some (Err (BasicOutOfGas highest))
            | Ok (Reverted output) => Some (Err (Revert output))
            | Ok (EvmError exit) => Some (Err (EvmErr exit))
            | Ok (Success gas_used) =>
                let lowest := determine_base_gas_by_kind r in
                triple ← checked u128_max (gas_used * 3);
                sum ← checked u128_max (highest + lowest);
                loop (search_step r fees) (search_fuel highest) (lowest, highest, Z.min triple (sum / 2))
            end
        end
    end.
End estimate.

(** ** Suggested prices *)
Section prices.
Context {Float BaseFeeParams BlobParams : Type} `{!FeeRules Float BaseFeeParams BlobParams}.
Implicit Types (f : FeeManager Float BaseFeeParams BlobParams).
Implicit Types (cache : gmap Z (FeeHistoryCacheItem Float)).

Definition min_of (l : list Z) : option Z :=
  match l with [] => None | x :: l => Some (foldl Z.min x l) end.

Definition lowest_suggestion_tip cache (best_number : Z) : Z :=
  let fee := match cache !! best_number with
             | Some block => min_of (rewards block)
             | None => min_of (concat (rewards <$> (map_to_list cache).*2))
             end in
  from_option (Z.max MIN_SUGGESTED_PRIORITY_FEE) MIN_SUGGESTED_PRIORITY_FEE fee.

(** [is_eip1559] is the backend's. *)
Definition gas_price cache (best_number : Z) (eip1559 : bool) f : Z :=
  if eip1559 then
    if fm_min_priority_fee_enforced f
    then saturating_add u128_max (base_fee f) (lowest_suggestion_tip cache best_number)
    else base_fee f
  else raw_gas_price f.

(** The fields of a request that [build_tx_request] fills in by the type its
    missing keys call for. *)
Record RequestFees := mkRequestFees {
  rf_gas_price : option Z;
  rf_max_fee_per_gas : option Z;
  rf_max_priority_fee_per_gas : option Z;
  rf_max_fee_per_blob_gas : option Z;
  rf_access_list : bool;
}.

Definition fill_fees cache (best_number : Z) (eip1559 : bool) f (missing : option TxKind)
    (r : RequestFees) : RequestFees :=
  let price := gas_price cache best_number eip1559 f in
  let or_fill (c : bool) (o : option Z) (v : Z) := if c then Some (default v o) else o in
  match missing with
  | None => r
  | Some ty =>
      let legacy := bool_decide (ty = Legacy) || bool_decide (ty = Eip2930) in
      let dynamic := bool_decide (ty = Eip1559) || bool_decide (ty = Eip4844) || bool_decide (ty = Eip7702) in
      mkRequestFees (or_fill legacy (rf_gas_price r) price)
        (or_fill dynamic (rf_max_fee_per_gas r) price)
        (or_fill dynamic (rf_max_priority_fee_per_gas r) MIN_SUGGESTED_PRIORITY_FEE)
        (or_fill (bool_decide (ty = Eip4844)) (rf_max_fee_per_blob_gas r)
           (get_next_block_blob_base_fee_per_gas f))
        (rf_access_list r || bool_decide (ty = Eip2930))
  end.
End prices.

(** ** The fee history *)
Section fee_history.
Context {Float BaseFeeParams BlobParams : Type} `{!FeeRules Float BaseFeeParams BlobParams}.
Implicit Types (f : FeeManager Float BaseFeeParams BlobParams).
Implicit Types (cache : gmap Z (FeeHistoryCacheItem Float)).

Inductive BlockNumber := Latest | Pending | Earliest | Number (n : Z) | Safe | Finalized.

Record FeeHistory := mkFeeHistory {
  oldest_block : Z;
  fh_base_fee_per_gas : list Z;
  fh_gas_used_ratio : list Float;
  fh_base_fee_per_blob_gas : list Z;
  fh_blob_gas_used_ratio : list Float;
  reward : list (list Z);
}.

(** The code's [u64] subtractions and products. *)
Definition requested_block (current : Z) (newest : BlockNumber) : Z :=
  match newest with
  | Latest | Pending => current
  | Earliest => 0
  | Number n => n
  | Safe => saturating_sub current 32
  | Finalized => saturating_sub current (32 * 2)
  end.

(** [p.round()], half away from zero, of a percentile that is not negative. *)
Definition round_percentile (p : Q) : Z := Qfloor (p + (1 # 2)).
Definition clamp_percentile (p : Q) : Q :=
  if Qle_bool p 0 then 0%Q else if Qle_bool 100 p then 100%Q else p.
Definition reward_index (p : Q) : nat := Z.to_nat (round_percentile (clamp_percentile p) * 2).
Definition block_rewards (percentiles : list Q) (block : FeeHistoryCacheItem Float) : list Z :=
  (λ p, default 0 (rewards block !! reward_index p)) <$> percentiles.

Definition push_block (percentiles : list Q) (h : FeeHistory) (block : FeeHistoryCacheItem Float)
    : FeeHistory :=
  mkFeeHistory (oldest_block h) (fh_base_fee_per_gas h ++ [item_base_fee block])
    (fh_gas_used_ratio h ++ [gas_used_ratio block])
    (fh_base_fee_per_blob_gas h ++ [default 0 (item_base_fee_per_blob_gas block)])
    (fh_blob_gas_used_ratio h ++ [blob_gas_used_ratio block])
    (match percentiles with [] => reward h | _ => reward h ++ [block_rewards percentiles block] end).
Definition push_number cache (percentiles : list Q) (h : FeeHistory) (n : Z) : FeeHistory :=
  match cache !! n with Some block => push_block percentiles h block | None => h end.

Definition MAX_BLOCK_COUNT : Z := 1024.
Definition first_block (highest block_count : Z) : Z :=
  saturating_sub highest (saturating_sub (Z.min block_count MAX_BLOCK_COUNT) 1).

(** Of a node that is not forked; a count that is no [u64] panics. *)
Definition fee_history cache (limit current : Z) f (block_count : Z) (newest : BlockNumber)
    (percentiles : list Q) : option (result RpcError FeeHistory) :=
  let highest := requested_block current newest in
  count ← checked u64_max block_count;
  let lowest := first_block highest count in
  if bool_decide (lowest < saturating_sub current limit) then Some (Err InvalidBlockRange)
  else
    let h := foldl (push_number cache percentiles) (mkFeeHistory lowest [] [] [] [] [])
               (seqZ lowest (highest - lowest + 1)) in
    Some (Ok (mkFeeHistory (oldest_block h) (fh_base_fee_per_gas h ++ [base_fee f]) (fh_gas_used_ratio h)
                (fh_base_fee_per_blob_gas h ++ [base_fee_per_blob_gas f]) (fh_blob_gas_used_ratio h)
                (reward h))).
End fee_history.

(** ** Estimates are least, suggestions are accepted, and what the fee history
    answers *)
(** ** Gas estimation *)
(** What the EVM documents: a call that succeeds was given the gas that every
    transaction of its kind costs, and amounts of gas are [u64]. *)
Class CallLaws `{!CallEnv} := {
  call_base r g fees exit out gas :
    call_with_state (with_gas r g) fees = Ok (exit, out, gas) →
    try_from (Ok (exit, out, gas)) = Ok (Success gas) →
    determine_base_gas_by_kind r ≤ g ∧ in_u64 gas;
}.

Section estimate.
Context `{!CallEnv, !CallLaws}.
Implicit Types r : TransactionRequest.

Definition succeeds r fees (g : Z) : Prop := ∃ gas, exec r fees g = Ok (Success gas).
Definition base r : Z := determine_base_gas_by_kind r.

Lemma base_nonneg r : 0 ≤ base r.
Proof.
  unfold base, determine_base_gas_by_kind, MIN_TRANSACTION_GAS, PER_EMPTY_ACCOUNT_COST, MIN_CREATE_GAS.
  destruct (rq_to r) as [[to|]|]; try lia. destruct (rq_authorization_list r); lia.
Qed.
Lemma exec_success r fees g gas :
  in_u64 g → exec r fees g = Ok (Success gas) → base r ≤ g ∧ in_u64 gas.
Proof.
  intros Hg. unfold exec. replace (wrap_u64 g) with g by (symmetry; apply wrap_u64_small; done).
  destruct (call_with_state (with_gas r g) fees) as [[[exit out] u]|e] eqn:Hc; [|by destruct e].
  intros Hs. assert (u = gas) as -> by (destruct exit; cbn in Hs; congruence). by eapply call_base.
Qed.
Lemma succeeds_dec r fees g : succeeds r fees g ∨ ¬ succeeds r fees g.
Proof.
  unfold succeeds. destruct (exec r fees g) as [[gas| |?|?]|e]; [left; by eexists|right; by intros []..].
Qed.

(** The interval of the search: its highest limit succeeds, its lowest one
    fails unless it is the base cost. *)
Record searching r fees (h0 : Z) (st : Z * Z * Z) : Prop := {
  sr_range : 0 ≤ st.1.1 ≤ st.1.2 ∧ st.1.2 ≤ h0;
  sr_high : succeeds r fees st.1.2;
  sr_low : st.1.1 = base r ∨ ¬ succeeds r fees st.1.1;
}.
Definition middle (st : Z * Z * Z) : Prop := st.2 = (st.1.2 + st.1.1) / 2.

Definition found r fees (h0 : Z) (res : result RpcError Z) : Prop :=
  match res with
  | Ok g => succeeds r fees g ∧ g ≤ h0 ∧ (g ≤ base r + 1 ∨ ¬ succeeds r fees (g - 1))
  | Err e => ∃ g, 0 ≤ g < h0 ∧ exec r fees g = Err e
  end.

(** A round with any middle below the highest limit. *)
Lemma search_step_spec r fees h0 st :
  in_u64 h0 → searching r fees h0 st → (1 < st.1.2 - st.1.1 → 0 ≤ st.2 < st.1.2 ∧ (st.1.1 ≤ st.2 ∨ st.1.1 = base r)) →
  match search_step r fees st with
  | Some (inl st') =>
      searching r fees h0 st' ∧ middle st' ∧ 1 < st.1.2 - st.1.1 ∧
      (st'.1 = (st.1.1, st.2) ∨ st'.1 = (st.2, st.1.2))
  | Some (inr res) => found r fees h0 res
  | None => False
  end.
Proof.
  destruct st as [[l h] m]. intros Hh0 [Hr Hh Hl] Hmid. unfold in_u64, u64_max in Hh0. cbn [fst snd] in *.
  unfold search_step. rewrite checked_in by (unfold u128_max; lia). cbn [mbind option_bind].
  case_bool_decide as Hgap.
  - specialize (Hmid Hgap).
    assert (Hm64 : in_u64 m) by (unfold in_u64, u64_max; lia).
    destruct (exec r fees m) as [res|e] eqn:He; [|by exists m; split; [lia|]].
    destruct res as [gas| |?|?].
    1: { destruct (exec_success r fees m gas Hm64 He) as [Hb _]. assert (l ≤ m) by lia.
         rewrite checked_in by (unfold u128_max; lia). cbn [mbind option_bind].
         split_and!; [split; cbn; [lia|by exists gas|done]|done|lia|by left]. }
    all: rewrite checked_in by (unfold u128_max; lia); cbn [mbind option_bind];
      (split_and!; [split; cbn; [lia|done|]|done|lia|by right]);
      right; unfold succeeds; rewrite He; by intros [].
  - split_and!; [done|lia|]. destruct Hl as [->|Hl]; [left; lia|].
    destruct (decide (h = l)) as [->|]; [done|]. right. by replace (h - 1) with l by lia.
Qed.

(** The first round may have a middle that is far off; from then on the
    interval is halved. *)
Lemma search_total r fees h mid :
  in_u64 h → succeeds r fees h → 0 ≤ mid ≤ (h + base r) / 2 →
  ∃ res, loop (search_step r fees) (search_fuel h) (base r, h, mid) = Some res ∧ found r fees h res.
Proof.
  intros Hh Hs Hmid. pose proof Hs as [gas Hg]. apply exec_success in Hg as [Hb _]; [|done].
  pose proof (base_nonneg r). unfold in_u64 in Hh.
  assert (Hst0 : searching r fees h (base r, h, mid)) by (split; cbn; [lia|done|by left]).
  unfold search_fuel. set (fuel := S (Z.to_nat (Z.log2_up h))). cbn [loop].
  pose proof (search_step_spec r fees h (base r, h, mid) Hh Hst0) as Hstep. cbn [fst snd] in Hstep.
  specialize (Hstep ltac:(intros; split; [split; [lia|]|by right];
    eapply Z.le_lt_trans; [apply Hmid|apply Z.div_lt_upper_bound; lia])).
  destruct (search_step r fees (base r, h, mid)) as [[st1|res]|]; [|by exists res|done].
  destruct Hstep as (Hst1 & Hm1 & _ & _).
  apply (loop_total (search_step r fees) (λ st, searching r fees h st ∧ middle st) (found r fees h)
    (λ st, Z.to_nat (Z.log2_up (st.1.2 - st.1.1)))).
  - intros st [Hst Hmst]. pose proof Hst as [Hr _ _]. destruct st as [[l k] m]. unfold middle in Hmst.
    cbn [fst snd] in *.
    pose proof (search_step_spec r fees h (l, k, m) Hh Hst) as Hstep. cbn [fst snd] in Hstep.
    assert (Hb2 : 1 < k - l → l < m < k).
    { intros. subst m. split; [apply (Z.lt_le_trans _ (l + 1)); [lia|]; apply Z.div_le_lower_bound; lia
                              |apply Z.div_lt_upper_bound; lia]. }
    specialize (Hstep ltac:(intros ?%Hb2; lia)).
    destruct (search_step r fees (l, k, m)) as [[[[l' k'] m']|res]|]; [|done..].
    destruct Hstep as (H' & Hm' & Hgap & Hc). split; [by split|]. cbn [fst snd] in *.
    assert (2 * (k' - l') ≤ (k - l) + 1).
    { pose proof (Z.div_mod (k + l) 2 ltac:(lia)). pose proof (Z.mod_pos_bound (k + l) 2 ltac:(lia)).
      destruct Hc as [[= -> ->]|[= -> ->]]; lia. }
    pose proof (log2_up_half (k - l) (k' - l') Hgap ltac:(lia)). pose proof (Z.log2_up_nonneg (k' - l')). lia.
  - destruct Hst1 as [Hr _ _]. pose proof (Z.log2_up_le_mono (st1.1.2 - st1.1.1) h ltac:(lia)).
    pose proof (Z.log2_up_nonneg h). unfold fuel. lia.
  - by split.
Qed.

(** The fees that the call is made with. *)
Definition fees_of r : result FeeError FeeDetails :=
  or_zero_fees <$> fees_new (rq_gas_price r) (rq_max_fee_per_gas r) (rq_max_priority_fee_per_gas r)
    (rq_max_fee_per_blob_gas r).
(** More gas does not make a call fail. *)
Definition monotone r fees (h : Z) : Prop := ∀ g g', 0 ≤ g ≤ g' → g' ≤ h → succeeds r fees g → succeeds r fees g'.

(** C17: A plain transfer is estimated at 21000 gas without being run, whether
    or not its sender can pay for it.  For any other call whose fees are valid
    and whose sender has the value it sends, an estimate is found, unless the
    call fails with the most gas that its sender can pay for and the request
    or the block allows, which is below 2^64, or cannot be executed: it suffices and is
    within that limit, and one less does not suffice or is the base cost.  When
    more gas never makes the call fail, it is the least limit above the base
    cost that suffices. *)
Theorem estimate_gas_minimal r limit :
  (is_transfer r = true → do_estimate_gas_with_state r limit = Some (Ok MIN_TRANSACTION_GAS)) ∧
  ∀ fees h, is_transfer r = false → fees_of r = Ok fees →
  affordable_gas r (default 0 (Fees.gas_price fees)) (default limit (rq_gas r)) = Ok h → in_u64 h →
  ∃ res, do_estimate_gas_with_state r limit = Some res ∧
    match res with
    | Ok g => succeeds r fees g ∧ g ≤ h ∧ (g ≤ base r + 1 ∨ ¬ succeeds r fees (g - 1)) ∧
        (monotone r fees h → ∀ g', base r < g' → succeeds r fees g' → g ≤ g')
    | Err e => ¬ succeeds r fees h ∨ ∃ g, 0 ≤ g < h ∧ exec r fees g = Err e
    end.
Proof.
  split; [intros Ht; unfold do_estimate_gas_with_state; by rewrite Ht|].
  intros fees h Ht Hf Ha Hh. unfold do_estimate_gas_with_state. rewrite Ht. unfold fees_of in Hf.
  destruct (fees_new _ _ _ _) as [fees0|]; [|done]. cbn [fmap result_fmap] in Hf. injection Hf as <-.
  rewrite Ha. destruct (succeeds_dec r (or_zero_fees fees0) h) as [Hs|Hs].
  2: { destruct (exec r (or_zero_fees fees0) h) as [[gas| |?|?]|e] eqn:He;
      [exfalso; apply Hs; by exists gas|eexists; split; [done|by left]..]. }
  pose proof Hs as [gas He]. rewrite He. pose proof He as [Hb Hg]%exec_success; [|done].
  pose proof (base_nonneg r). unfold in_u64, u64_max in *.
  fold (base r). rewrite (checked_in _ (gas * 3)), (checked_in _ (h + base r)) by (unfold u128_max; lia).
  cbn [mbind option_bind].
  destruct (search_total r (or_zero_fees fees0) h (Z.min (gas * 3) ((h + base r) / 2))) as (res & -> & Hres);
    [done|done| |].
  { pose proof (Z.div_pos (h + base r) 2 ltac:(lia) ltac:(lia)). lia. }
  exists res. split; [done|]. destruct res as [g|e]; [|by right]. destruct Hres as (Hsg & Hle & Hmin).
  split_and!; [done..|]. intros Hmono g' Hb' Hs'. destruct (decide (g ≤ g')); [done|exfalso].
  destruct Hmin as [Hmin|Hmin]; [lia|]. apply Hmin, (Hmono g'); [lia|lia|done].
Qed.
End estimate.

(** ** Suggested fees *)
Section prices.
Context {Float BaseFeeParams BlobParams : Type} `{!FeeRules Float BaseFeeParams BlobParams}.
Context `{!EvmTypes, !Evm}.
Implicit Types (f : FeeManager Float BaseFeeParams BlobParams).
Implicit Types (cache : gmap Z (FeeHistoryCacheItem Float)).

Lemma suggestion_min cache n : MIN_SUGGESTED_PRIORITY_FEE ≤ lowest_suggestion_tip cache n.
Proof.
  unfold lowest_suggestion_tip. destruct (match cache !! n with Some _ => _ | None => _ end); cbn; lia.
Qed.
Lemma gas_price_spec cache n f : in_u64 (base_fee f) →
  base_fee f ≤ gas_price cache n true f ∧
  (MIN_SUGGESTED_PRIORITY_FEE ≤ gas_price cache n true f ↔
     fm_min_priority_fee_enforced f = true ∨ MIN_SUGGESTED_PRIORITY_FEE ≤ base_fee f).
Proof.
  intros Hb. pose proof (suggestion_min cache n). unfold in_u64, u64_max in Hb. unfold gas_price.
  destruct (fm_min_priority_fee_enforced f); [|naive_solver lia].
  unfold saturating_add, u128_max, MIN_SUGGESTED_PRIORITY_FEE in *. split; [lia|]. split; [by left|lia].
Qed.

Lemma fill_dynamic cache n f r :
  rf_max_fee_per_gas r = None → rf_max_priority_fee_per_gas r = None →
  let filled := fill_fees cache n true f (Some Eip1559) r in
  rf_max_fee_per_gas filled = Some (gas_price cache n true f) ∧
  rf_max_priority_fee_per_gas filled = Some MIN_SUGGESTED_PRIORITY_FEE.
Proof. intros Hm Hp. unfold fill_fees. cbn. by rewrite Hm, Hp. Qed.

(** C33: A dynamic-fee transaction whose fees the node filled in passes the fee
    checks of the next block if the node enforces a minimum tip or the base
    fee has not fallen below it; otherwise its own tip exceeds its fee cap
    and the node refuses it. *)
Theorem suggested_fees_verdict cache n f (r : RequestFees) (e : Envelope) (env : TxContext) :
  in_u64 (base_fee f) → be_basefee (tx_block env) = base_fee f → SPEC_LONDON ≤ tx_spec env →
  rf_max_fee_per_gas r = None → rf_max_priority_fee_per_gas r = None →
  let filled := fill_fees cache n true f (Some Eip1559) r in
  Some (tx_max_fee e) = rf_max_fee_per_gas filled →
  tx_max_priority_fee e = rf_max_priority_fee_per_gas filled →
  check_fees e env =
    if fm_min_priority_fee_enforced f || bool_decide (MIN_SUGGESTED_PRIORITY_FEE ≤ base_fee f)
    then Ok tt else Err TipAboveFeeCap.
Proof.
  intros Hb Hbase Hl Hm Hp filled Hfee Htip. destruct (fill_dynamic cache n f r Hm Hp) as [Hf1 Hf2].
  fold filled in Hf1, Hf2. clearbody filled. rewrite Hf1 in Hfee. rewrite Hf2 in Htip.
  destruct (gas_price_spec cache n f Hb) as [Hge Hiff].
  remember (gas_price cache n true f) as price eqn:Hprice. clear Hprice. injection Hfee as Hfee. unfold check_fees. rewrite bool_decide_true by done.
  rewrite Hbase, Htip, Hfee. rewrite (bool_decide_false (price < base_fee f)) by lia. cbn [andb negb ensure mbind result_bind].
  destruct (fm_min_priority_fee_enforced f || bool_decide (MIN_SUGGESTED_PRIORITY_FEE ≤ base_fee f)) eqn:Hc.
  - apply orb_true_iff in Hc as [Hc|Hc%bool_decide_eq_true];
      by rewrite bool_decide_false by (apply Z.nlt_ge, Hiff; auto).
  - apply orb_false_iff in Hc as [Hc Hc'%bool_decide_eq_false].
    rewrite bool_decide_true; [done|]. apply Z.nle_gt. intros [?|?]%Hiff; [congruence|done].
Qed.
End prices.

(** ** The fee history *)
Section fee_history.
Context {Float BaseFeeParams BlobParams : Type} `{!FeeRules Float BaseFeeParams BlobParams}.
Implicit Types (f : FeeManager Float BaseFeeParams BlobParams).
Implicit Types (cache : gmap Z (FeeHistoryCacheItem Float)).

(** The blocks of a range that the cache has. *)
Definition cached cache (l : list Z) : list (FeeHistoryCacheItem Float) := omap (λ n, cache !! n) l.

Lemma push_numbers cache ps l h :
  foldl (push_number cache ps) h l =
  mkFeeHistory (oldest_block h) (fh_base_fee_per_gas h ++ (item_base_fee <$> cached cache l))
    (fh_gas_used_ratio h ++ (gas_used_ratio <$> cached cache l))
    (fh_base_fee_per_blob_gas h ++ ((λ b, default 0 (item_base_fee_per_blob_gas b)) <$> cached cache l))
    (fh_blob_gas_used_ratio h ++ (blob_gas_used_ratio <$> cached cache l))
    (reward h ++ match ps with [] => [] | _ => block_rewards ps <$> cached cache l end).
Proof.
  revert h. induction l as [|n l IH]; intros h; cbn [foldl].
  { cbn. destruct h, ps; cbn; by rewrite !app_nil_r. }
  rewrite IH. unfold push_number. unfold cached at 6 7 8 9 10. cbn [omap list_omap].
  fold (cached cache l). destruct (cache !! n) as [b|]; [|done].
  unfold push_block. cbn [oldest_block fh_base_fee_per_gas fh_gas_used_ratio fh_base_fee_per_blob_gas
    fh_blob_gas_used_ratio reward fmap list_fmap]. rewrite <- !app_assoc. cbn [app].
  destruct ps; cbn [fmap list_fmap]; by rewrite <- ?app_assoc.
Qed.


(** A whole percentile [k] and the half percent after it. *)
Lemma reward_index_whole (k : Z) : 0 ≤ k ≤ 100 → reward_index (inject_Z k) = Z.to_nat (2 * k).
Proof.
  intros Hk. unfold reward_index, clamp_percentile, round_percentile. rewrite (Z.mul_comm 2). f_equal. f_equal.
  assert (∀ j, Qfloor (inject_Z j + (1 # 2)) = j) as Hfl.
  { intros j. apply (Z.le_antisymm); [|rewrite <- (Qfloor_Z j) at 1; apply Qfloor_resp_le].
    - pose proof (Qfloor_le (inject_Z j + (1 # 2))) as Hle. apply Z.lt_succ_r.
      rewrite Zlt_Qlt. eapply Qle_lt_trans; [exact Hle|]. unfold Z.succ. rewrite inject_Z_plus.
      apply Qplus_lt_r. done.
    - rewrite <- (Qplus_0_r (inject_Z j)) at 1. apply Qplus_le_r. done. }
  destruct (Qle_bool (inject_Z k) 0) eqn:H0.
  { apply Qle_bool_imp_le in H0. change 0%Q with (inject_Z 0) in H0. rewrite <- Zle_Qle in H0.
    replace k with 0 by lia. done. }
  destruct (Qle_bool 100 (inject_Z k)) eqn:H1; [|apply Hfl].
  apply Qle_bool_imp_le in H1. change 100%Q with (inject_Z 100) in H1. rewrite <- Zle_Qle in H1.
  replace k with 100 by lia. done.
Qed.

(** The fee history of a range in reach has, for every cached block of the
    range in order, its base fee, ratios and the rewards at the requested
    percentiles, and then the fees of the next block; a whole percentile [k]
    reads the reward of [k] percent. *)
Lemma fee_history_answer cache limit current f count newest ps :
  in_u64 count →
  let highest := requested_block current newest in
  let blocks := cached cache (seqZ (first_block highest count) (highest - first_block highest count + 1)) in
  saturating_sub current limit ≤ first_block highest count →
  fee_history cache limit current f count newest ps = Some (Ok (mkFeeHistory (first_block highest count)
    ((item_base_fee <$> blocks) ++ [base_fee f]) (gas_used_ratio <$> blocks)
    (((λ b, default 0 (item_base_fee_per_blob_gas b)) <$> blocks) ++ [base_fee_per_blob_gas f])
    (blob_gas_used_ratio <$> blocks)
    (match ps with [] => [] | _ => block_rewards ps <$> blocks end))) ∧
  (∀ (b : FeeHistoryCacheItem Float) k, 0 ≤ k ≤ 100 → block_rewards [inject_Z k] b = [default 0 (rewards b !! Z.to_nat (2 * k))]).
Proof.
  intros Hc highest blocks Hl. split.
  - unfold fee_history. rewrite checked_in by done. cbn [mbind option_bind].
    fold highest. rewrite bool_decide_false by lia. by rewrite push_numbers.
  - intros b k Hk. unfold block_rewards. cbn [fmap list_fmap]. by rewrite reward_index_whole.
Qed.
(** The rewards of half percents are not read: they are rounded first. *)
Lemma half_percent_rounded (b : FeeHistoryCacheItem Float) :
  block_rewards [(1 # 2)%Q] b = block_rewards [1%Q] b.
Proof. done. Qed.
(** A number of blocks that does not fit [u64] panics. *)
Lemma fee_history_panics cache limit current f count newest ps :
  u64_max < count → fee_history cache limit current f count newest ps = None.
Proof. intros Hc. unfold fee_history. by rewrite (proj2 (checked_None _ _)) by lia. Qed.
End fee_history.

(** ** Calls that cost sixteen a byte *)
#[local] Instance sample_calls : CallEnv := {
  CallCode := list Z;
  basic_ref a :=
    Ok (if decide (a = 1) then Some (mkAccountInfo (10 ^ 18) 0 7 None)
        else if decide (a = 2) then Some (mkAccountInfo 0 1 8 (Some [0])) else None);
  code_by_hash_ref _ := Ok [];
  code_bytes c := c;
  KECCAK_EMPTY := 7;
  call_with_state r _ :=
    let needed := determine_base_gas_by_kind r + 16 * Z.of_nat (length (default [] (rq_input r))) in
    match rq_gas r with
    | Some g => if decide (needed ≤ g) then Ok (Return, None, Z.min u64_max needed) else Err GasTooHigh
    | None => Err GasTooHigh
    end;
}.
#[local] Instance sample_call_laws : CallLaws.
Proof.
  split. intros r g fees exit out gas. cbn [call_with_state sample_calls rq_gas with_gas].
  destruct (decide _) as [Hd|]; [|done]. intros [= <- <- <-] _.
  pose proof (base_nonneg r) as Hb. unfold base in Hb. cbn in Hd.
  change (determine_base_gas_by_kind (with_gas r g)) with (determine_base_gas_by_kind r) in *.
  split; [lia|]. unfold in_u64, u64_max. lia.
Defined.
Definition sample_request (input : option (list Z)) : TransactionRequest :=
  mkRequest (Some (Call 2)) input None false false (Some 5) None None None (Some 1) (Some 100) None.
Definition sample_fees : FeeDetails := mkFeeDetails (Some 5) (Some 5) (Some 5) None.

Lemma estimate_gas_minimal_witness :
  do_estimate_gas_with_state (sample_request (Some [1; 2; 3])) 30000000 = Some (Ok 21048) ∧
  ∀ g, 21000 < g → succeeds (sample_request (Some [1; 2; 3])) sample_fees g → 21048 ≤ g.
Proof.
  destruct (proj2 (estimate_gas_minimal (sample_request (Some [1; 2; 3])) 30000000) sample_fees 30000000)
    as (res & Hres & Hmin); [done..|unfold in_u64, u64_max; lia|].
  assert (Heq : do_estimate_gas_with_state (sample_request (Some [1; 2; 3])) 30000000 = Some (Ok 21048)) by (by vm_compute).
  split; [done|]. rewrite Heq in Hres. injection Hres as <-. destruct Hmin as (_ & _ & _ & Hmin). apply Hmin.
  intros g g' Hg Hle [u Hs]. unfold exec in *. rewrite wrap_u64_small in * by (unfold in_u64, u64_max; lia).
  cbn [call_with_state sample_calls rq_gas with_gas] in *.
  destruct (decide _) as [Hd|]; [|done]. cbn in Hd. eexists. unfold exec.
  rewrite wrap_u64_small by (unfold in_u64, u64_max; lia).
  cbn [call_with_state sample_calls rq_gas with_gas]. by rewrite decide_True by (cbn; lia).
Defined.

(** The base cost itself is never tried: a call of a contract that stops at
    once needs 21000. *)
Lemma estimate_one_too_much :
  do_estimate_gas_with_state (sample_request None) 30000000 = Some (Ok 21001) ∧
  succeeds (sample_request None) sample_fees 21000.
Proof. split; [by vm_compute|]. exists 21000. by vm_compute. Qed.

(** ** Transactions that are their fee cap and tip *)
#[local] Instance priced_tx : ConsensusTx (Z * Z) := {|
  tx_kind _ := Eip1559; tx_gas_limit _ := 21000; tx_nonce _ := 0; tx_chain_id _ := None; tx_to _ := None;
  tx_value _ := 0; tx_max_fee e := e.1; tx_max_priority_fee e := Some e.2;
  tx_blob_gas_used _ := None; tx_blob_count _ := 0%nat; tx_max_fee_per_blob_gas _ := None;
  tx_blobs_valid _ := true; tx_mint _ := 0; tx_hash e := e.1; impersonated_hash e s := e.1 + s;
  tx_recover e := Some 1;
|}.
#[local] Instance priced_evm : Evm := {|
  envelope_tx := priced_tx; SPURIOUS_DRAGON := 4; MERGE := 15; SHANGHAI := 16; PRAGUE := 18;
  SPEC_LONDON := 12; SPEC_CANCUN := 17; Executor.Revert := 16; Executor.SelfDestruct := 3; status_u8 s := s;
  account_default := small_account; tx_gas_limit_cap _ := u64_max;
  from_recovered_tx e s := (e, s); te_gas_limit e := e.1.2; te_authorization_list _ := [];
  with_authorization_list e _ := e; with_enveloped_tx e _ := e; signed_authorization_list _ := [];
  auth_authority _ := None; auth_with_authority a _ := a; auth_signature _ := None;
  db_basic d a := (d, Ok (d !! a)); transact_commit _ env d := small_commit (env_tx env) d;
  maybe_state_root _ := None; bloom_default := []; accrue b i := b ++ [i];
  log_address l := [l]; log_topics _ := [];
|}.
Definition sample_fee_manager (enforced : bool) (base : Z) : FeeManager unit unit unit :=
  fee_manager_new 20 base enforced base (mkBlobExcessGasAndPrice 0 1) tt tt.
Definition sample_env (base : Z) : TxContext :=
  mkEnv (mkEvmEnv (mkBlockEnv 1 9 1000 0 (Some 0) 100000 base None) (mkCfgEnv 31337 20 false false None))
    (0, 0, 0) false.
Definition no_fees : RequestFees := mkRequestFees None None None None false.

(** A base fee of 7: refused, and accepted by a node that enforces a tip. *)
Lemma suggested_fees_verdict_witness :
  check_fees ((7, MIN_SUGGESTED_PRIORITY_FEE) : @Envelope small_types) (sample_env 7) = Err TipAboveFeeCap ∧
  check_fees ((7 + MIN_SUGGESTED_PRIORITY_FEE, MIN_SUGGESTED_PRIORITY_FEE) : @Envelope small_types) (sample_env 7) = Ok tt.
Proof.
  split.
  - exact (suggested_fees_verdict (∅ : gmap Z (FeeHistoryCacheItem unit)) 3 (sample_fee_manager false 7) no_fees
      (7, MIN_SUGGESTED_PRIORITY_FEE) (sample_env 7) ltac:(by vm_compute) eq_refl ltac:(by vm_compute)
      eq_refl eq_refl eq_refl eq_refl).
  - exact (suggested_fees_verdict (∅ : gmap Z (FeeHistoryCacheItem unit)) 3 (sample_fee_manager true 7) no_fees
      (7 + MIN_SUGGESTED_PRIORITY_FEE, MIN_SUGGESTED_PRIORITY_FEE) (sample_env 7)
      ltac:(by vm_compute) eq_refl ltac:(by vm_compute) eq_refl eq_refl eq_refl eq_refl).
Defined.

Definition sample_item (base : Z) : FeeHistoryCacheItem unit :=
  mkItem base tt None tt None None (seqZ 0 201).
Lemma fee_history_answer_witness :
  ∃ h, fee_history (<[4 := sample_item 40]> (<[5 := sample_item 50]> ∅)) 2048 5 (sample_fee_manager false 60) 2 Latest
    [inject_Z 25; (1 # 2)%Q] = Some (Ok h) ∧
    fh_base_fee_per_gas h = [40; 50; 60] ∧ reward h = [[50; 2]; [50; 2]] ∧ oldest_block h = 4.
Proof.
  destruct (fee_history_answer (<[4 := sample_item 40]> (<[5 := sample_item 50]> ∅)) 2048 5
    (sample_fee_manager false 60) 2 Latest [inject_Z 25; (1 # 2)%Q]) as [-> _].
  - unfold in_u64, u64_max. lia.
  - by vm_compute.
  - eexists. split; [done|]. by vm_compute.
Defined.
