(* ===== verification/ChainQueries.v ===== *)
(** * Reading the chain: blocks, receipts, logs and states of
    anvil/src/eth/backend/mem/mod.rs

    What a node that is not forked answers from its storage and its states.
    The answers are the RPC types of alloy, as records of the fields that the
    code fills in (the uncles and withdrawals of a block, which are always
    empty, and the serialized fields of a deposit are left out).  Matching a
    log, the price of a blob and the price that a transaction pays are alloy's:
    the interface [RpcTypes].  [None] is a panic; an answer that the code
    leaves out is an option inside. *)
From stdpp Require Import base list gmap.
From Stdlib Require Import ZArith Lia.
From S2P Require Import Prelude Containers PoolTx Fees Time Snapshots StateDb BlockStates.
From S2P Require Import Blockchain Executor Backend Mining.
#[local] Open Scope list_scope.

#[local] Abbreviation B256 := Z (only parsing).
#[local] Abbreviation Bytes := (list Z) (only parsing).

Class RpcTypes `{!EvmTypes} := {
  Filter : Type;
  filter_matches : Filter → Log → bool;
  get_block_hash : Filter → option B256;
  get_from_block : Filter → option BlockNumberOrTag;
  get_to_block : Filter → option BlockNumberOrTag;
  effective_gas_price : Envelope → option Z → Z;
  calc_blob_gasprice : Z → Z;
  block_size : Header → list (MaybeImpersonated Envelope) → Z;    (* of the RLP encoding *)
}.

(** ** The answers *)
Record RpcLog `{EvmTypes} := mkRpcLog {
  rl_inner : Log; rl_block_hash : B256; rl_block_number : Z; rl_block_timestamp : Z;
  rl_transaction_hash : TxHash; rl_transaction_index : Z; rl_log_index : Z;
}.
Arguments mkRpcLog {_}.

Record RpcTransaction `{EvmTypes} := mkRpcTransaction {
  rx_envelope : Envelope; rx_hash : TxHash; rx_from : Address;
  rx_block_hash : option B256; rx_block_number : option Z; rx_block_timestamp : option Z;
  rx_transaction_index : option Z; rx_effective_gas_price : option Z;
}.
Arguments mkRpcTransaction {_}.

Inductive BlockTransactions `{EvmTypes} :=
| Full (txs : list RpcTransaction)
| Hashes (hs : list TxHash).
Record RpcBlock `{EvmTypes} := mkRpcBlock {
  rb_header : Header; rb_hash : B256; rb_total_difficulty : Z; rb_size : Z;
  rb_transactions : BlockTransactions; rb_l1_block_number : option Z;
}.
Arguments mkRpcBlock {_}.

Record RpcReceipt `{EvmTypes} := mkRpcReceipt {
  rr_kind : TxKind; rr_status : bool; rr_cumulative_gas_used : Z; rr_logs : list RpcLog;
  rr_deposit : option (Z * Z);
  rr_transaction_hash : TxHash; rr_transaction_index : Z; rr_block_number : Z; rr_gas_used : Z;
  rr_contract_address : option Address; rr_effective_gas_price : Z; rr_block_hash : B256;
  rr_from : Address; rr_to : option Address; rr_blob_gas_price : Z; rr_blob_gas_used : option Z;
}.
Arguments mkRpcReceipt {_}.

(** [FoundryReceiptEnvelope::convert_logs_rpc] (primitives): the logs of a
    receipt, numbered from the given index on. *)
Definition convert_logs_rpc `{EvmTypes} (r : Receipt) (block_hash : B256) (h : Header)
    (tx_hash : TxHash) (tx_index : Z) (next_log_index : nat) : list RpcLog :=
  imap (λ i l, mkRpcLog l block_hash (h_number h) (h_timestamp h) tx_hash tx_index
                 (wrap_u64 (Z.of_nat (next_log_index + i)))) (receipt_logs r).

Inductive BlockRequest (Tx : Type) :=
| ReqPending (txs : list (PoolTransaction Tx))
| ReqNumber (n : Z).
Arguments ReqPending {Tx} txs.
Arguments ReqNumber {Tx} n.

Section queries.
Context {Float BaseFeeParams BlobParams Snap : Type}.
Context `{!FeeRules Float BaseFeeParams BlobParams, !EvmTypes, !Evm, !BlockHashing, !NodeEnv BlobParams}.
Context `{!FullDatabase Db Snap, !HashOrder Address, !RpcTypes}.
#[local] Abbreviation Node := (Backend Float BaseFeeParams BlobParams Snap).
#[local] Abbreviation NodeTx := (MaybeImpersonated Envelope) (only parsing).
#[local] Abbreviation NodeBlock := (Block Header (MaybeImpersonated Envelope)) (only parsing).
Implicit Types (b : Node) (block : Block Header (MaybeImpersonated Envelope)).

Definition block_req_number (r : BlockRequest NodeTx) : BlockNumberOrTag :=
  match r with ReqPending _ => Pending | ReqNumber n => Number n end.

(** ** Blocks *)
Definition get_block_with_hash b (id : BlockId) : option (NodeBlock * B256) :=
  let s := bk_storage b in
  let slots := bk_slots_in_an_epoch b in
  h ← match id with
      | IdHash h => Some h
      | IdNumber Latest => Some (best_hash s)
      | IdNumber Earliest => Some (genesis_hash s)
      | IdNumber Pending => None
      | IdNumber (Number n) => hashes s !! n
      | IdNumber Safe =>
          if bool_decide (slots < best_number s) then hashes s !! (best_number s - slots)
          else Some (genesis_hash s)
      | IdNumber Finalized =>
          if bool_decide (slots * 2 < best_number s) then hashes s !! (best_number s - slots * 2)
          else Some (genesis_hash s)
      end;
  block ← get_block_by_hash s h;
  Some (block, h).
Definition get_block b (id : BlockId) : option NodeBlock := fst <$> get_block_with_hash b id.

Definition convert_block_with_hash b block (known_hash : option B256) : RpcBlock :=
  let h := header block in
  mkRpcBlock h (default (header_hash h) known_hash) (total_difficulty (bk_storage b))
    (block_size h (body_transactions block) `mod` 2 ^ 32)
    (Hashes (maybe_hash <$> body_transactions block))
    (if is_arbitrum (cfg_chain_id (cfg_env (bk_env b))) then Some (h_number h) else None).
Definition convert_block b block : RpcBlock := convert_block_with_hash b block None.

Definition mined_block_by_hash b (h : B256) : option RpcBlock :=
  block ← get_block_by_hash (bk_storage b) h;
  Some (convert_block_with_hash b block (Some h)).
Definition mined_block_by_number b (n : BlockNumberOrTag) : option RpcBlock :=
  '(block, h) ← get_block_with_hash b (IdNumber n);
  Some (convert_block_with_hash b block (Some h)).

(** [transaction_build]; the conversion of a Tempo transaction panics. *)
Definition transaction_build (tx_hash : option TxHash) (t : NodeTx) (block : option NodeBlock)
    (info : option TransactionInfo) (base_fee : option Z) : option RpcTransaction :=
  let e := envelope t in
  let build hash from price :=
    Some (mkRpcTransaction e hash from ((λ bl : NodeBlock, header_hash (header bl)) <$> block)
            ((λ bl : NodeBlock, h_number (header bl)) <$> block)
            ((λ bl : NodeBlock, h_timestamp (header bl)) <$> block) (ti_index <$> info) price) in
  match tx_kind e with
  | Deposit => build (maybe_hash t) (default 0 (tx_recover e)) None
  | Tempo => None
  | _ => build (default (maybe_hash t) tx_hash) (default 0 (maybe_recover t))
           (Some (effective_gas_price e base_fee))
  end.

(** The loop of [mined_transactions_in_block], from a hash on. *)
Fixpoint build_block_txs b block (hs : list TxHash) (txs : list RpcTransaction)
    : option (option (list RpcTransaction)) :=
  match hs with
  | [] => Some (Some txs)
  | h :: hs =>
      match transactions (bk_storage b) !! h with
      | None => Some None
      | Some m =>
          match body_transactions block !! Z.to_nat (ti_index (mt_info m)) with
          | None => Some None
          | Some t =>
              rx ← transaction_build (Some h) t (Some block) (Some (mt_info m))
                     (h_base_fee_per_gas (header block));
              build_block_txs b block hs (txs ++ [rx])
          end
      end
  end.
Definition mined_transactions_in_block b block : option (option (list RpcTransaction)) :=
  build_block_txs b block (maybe_hash <$> body_transactions block) [].
Definition mined_transactions_by_block_number b (n : BlockNumberOrTag)
    : option (option (list RpcTransaction)) :=
  match get_block b (IdNumber n) with
  | Some block => mined_transactions_in_block b block
  | None => Some None
  end.

Definition get_full_block b (id : BlockId) : option (option RpcBlock) :=
  match get_block_with_hash b id with
  | None => Some None
  | Some (block, h) =>
      txs ← mined_transactions_in_block b block;
      Some (match txs with
            | None => None
            | Some txs =>
                let rb := convert_block_with_hash b block (Some h) in
                Some (mkRpcBlock (rb_header rb) (rb_hash rb) (rb_total_difficulty rb) (rb_size rb)
                        (Full txs) (rb_l1_block_number rb))
            end)
  end.

Definition mined_transaction_by_hash b (h : TxHash) : option (option RpcTransaction) :=
  match transactions (bk_storage b) !! h with
  | None => Some None
  | Some m =>
      match blocks (bk_storage b) !! mt_block_hash m with
      | None => Some None
      | Some block =>
          match body_transactions block !! Z.to_nat (ti_index (mt_info m)) with
          | None => Some None
          | Some t => Some <$> transaction_build (Some (ti_hash (mt_info m))) t (Some block)
                                 (Some (mt_info m)) (h_base_fee_per_gas (header block))
          end
      end
  end.
Definition mined_transaction_by_block_hash_and_index b (h : B256) (index : nat)
    : option (option RpcTransaction) :=
  match blocks (bk_storage b) !! h ≫= λ block, (block,.) <$> body_transactions block !! index with
  | None => Some None
  | Some (block, t) =>
      match transactions (bk_storage b) !! maybe_hash t with
      | None => Some None
      | Some m => Some <$> transaction_build (Some (ti_hash (mt_info m))) t (Some block)
                             (Some (mt_info m)) (h_base_fee_per_gas (header block))
      end
  end.
Definition transaction_by_block_number_and_index b (n : BlockNumberOrTag) (index : nat)
    : option (option RpcTransaction) :=
  match mined_block_by_number b n with
  | Some rb => mined_transaction_by_block_hash_and_index b (rb_hash rb) index
  | None => Some None
  end.

(** ** Block numbers *)
Definition ensure_block_number b (id : option BlockId) : result BlockchainError Z :=
  let current := bk_best_number b in
  requested ← match default (IdNumber Latest) id with
              | IdHash h => match mined_block_by_hash b h with
                            | Some rb => Ok (h_number (rb_header rb))
                            | None => Err BlockNotFound
                            end
              | IdNumber Latest | IdNumber Pending => Ok current
              | IdNumber Earliest => Ok 0
              | IdNumber (Number n) => Ok n
              | IdNumber Safe => Ok (saturating_sub current (bk_slots_in_an_epoch b))
              | IdNumber Finalized => Ok (saturating_sub current (bk_slots_in_an_epoch b * 2))
              end;
  if bool_decide (current < requested) then Err (BlockOutOfRange current requested)
  else Ok requested.

Definition convert_block_number b (n : option BlockNumberOrTag) : Z :=
  let current := bk_best_number b in
  match default Latest n with
  | Latest | Pending => current
  | Earliest => 0
  | Number n => n
  | Safe => saturating_sub current (bk_slots_in_an_epoch b)
  | Finalized => saturating_sub current (bk_slots_in_an_epoch b * 2)
  end.

(** ** Receipts *)
Definition get_receipts b (hs : list TxHash) : list Receipt :=
  omap (λ h, mt_receipt <$> transactions (bk_storage b) !! h) hs.

Definition mined_transaction_receipt b (h : TxHash) : option (option (RpcReceipt * option Bytes)) :=
  match get_transaction_by_hash (bk_storage b) h with
  | None => Some None
  | Some m =>
      let info := mt_info m in
      let index := Z.to_nat (ti_index info) in
      match get_block_by_hash (bk_storage b) (mt_block_hash m) with
      | None => Some None
      | Some block =>
          t ← body_transactions block !! index;
          let receipts := get_receipts b (maybe_hash <$> body_transactions block) in
          if bool_decide (length receipts < index)%nat then None else
          let next_log_index := list_sum (length ∘ receipt_logs <$> take index receipts) in
          let hd := header block in
          let r := mt_receipt m in
          Some (Some (mkRpcReceipt (receipt_kind r) (receipt_status r)
            (receipt_cumulative_gas_used r)
            (convert_logs_rpc r (mt_block_hash m) hd (ti_hash info) (ti_index info) next_log_index)
            (receipt_deposit r) (ti_hash info) (ti_index info) (h_number hd) (ti_gas_used info)
            (ti_contract_address info)
            (effective_gas_price (envelope t) (h_base_fee_per_gas hd)) (mt_block_hash m)
            (ti_from info) (ti_to info) (calc_blob_gasprice (default 0 (h_excess_blob_gas hd)))
            (tx_blob_gas_used (envelope t)), ti_out info))
      end
  end.

(** The loop of [mined_block_receipts], from a transaction on. *)
Fixpoint collect_receipts b (hs : list TxHash) (receipts : list RpcReceipt)
    : option (option (list RpcReceipt)) :=
  match hs with
  | [] => Some (Some receipts)
  | h :: hs =>
      r ← mined_transaction_receipt b h;
      match r with
      | None => Some None
      | Some (r, _) => collect_receipts b hs (receipts ++ [r])
      end
  end.
Definition mined_block_receipts b (id : BlockId) : option (option (list RpcReceipt)) :=
  match get_block b id with
  | None => Some None
  | Some block => collect_receipts b (maybe_hash <$> body_transactions block) []
  end.
(** [mined_receipts]: the receipts of a block as they are stored. *)
Definition mined_receipts b (h : B256) : option (list Receipt) :=
  rb ← mined_block_by_hash b h;
  match rb_transactions rb with
  | Hashes hs => mapM (λ t, mt_receipt <$> transactions (bk_storage b) !! t) hs
  | Full _ => Some []
  end.

(** ** Logs *)
(** The logs of one transaction, with the index of the first; [None] is an
    overflow of the index. *)
Fixpoint match_logs (f : Filter) (mk : Log → Z → RpcLog) (ls : list Log) (st : list RpcLog * Z)
    : option (list RpcLog * Z) :=
  match ls with
  | [] => Some st
  | l :: ls =>
      let '(all_logs, index) := st in
      let all_logs := if filter_matches f l then all_logs ++ [mk l index] else all_logs in
      index ← checked (2 ^ 32 - 1) (index + 1);
      match_logs f mk ls (all_logs, index)
  end.
Definition tx_logs b (f : Filter) block (block_hash : B256) (st : list RpcLog * Z) (t : NodeTx)
    : option (list RpcLog * Z) :=
  match transactions (bk_storage b) !! maybe_hash t with
  | None => Some st
  | Some m =>
      let hd := header block in
      match_logs f (λ l i, mkRpcLog l block_hash (h_number hd) (h_timestamp hd)
                             (ti_hash (mt_info m)) (ti_index (mt_info m)) i)
        (receipt_logs (mt_receipt m)) st
  end.
Definition mined_logs_for_block b (f : Filter) block (block_hash : B256) : option (list RpcLog) :=
  fst <$> fold_m (tx_logs b f block block_hash) ([], 0) (body_transactions block).

Definition logs_for_block b (f : Filter) (h : B256) : option (list RpcLog) :=
  match get_block_by_hash (bk_storage b) h with
  | Some block => mined_logs_for_block b f block h
  | None => Some []
  end.

Definition extend_range b (f : Filter) (all_logs : list RpcLog) (n : Z) : option (list RpcLog) :=
  match get_block_with_hash b (IdNumber (Number n)) with
  | Some (block, h) => logs ← mined_logs_for_block b f block h; Some (all_logs ++ logs)
  | None => Some all_logs
  end.
Definition logs_for_range b (f : Filter) (from to : Z) : option (list RpcLog) :=
  fold_m (extend_range b f) [] (seqZ from (to - from + 1)).

Definition logs b (f : Filter) : option (list RpcLog) :=
  match get_block_hash f with
  | Some h => logs_for_block b f h
  | None =>
      let best := bk_best_number b in
      let to_block := convert_block_number b (get_to_block f) `min` best in
      let from_block := convert_block_number b (get_from_block f) in
      if bool_decide (best < from_block) then Some [] else logs_for_range b f from_block to_block
  end.

(** ** States *)
(** The environment of a block ([get_block_env] and the closure of
    [with_database_at]). *)
Definition block_env_of (n : Z) (h : Header) : BlockEnv :=
  mkBlockEnv n (h_beneficiary h) (h_timestamp h) (h_difficulty h) (Some (h_mix_hash h))
    (h_gas_limit h) (default 0 (h_base_fee_per_gas h)) default_blob.

(** [now] is the clock of a pending block. *)
Definition with_database_at {A} b (now : Z) (req : option (BlockRequest NodeTx))
    (f : Db → BlockEnv → A) : option (Node * result BlockchainError A) :=
  match req with
  | Some (ReqPending txs) =>
      '(info, d) ← pending_block b now txs;
      Some (b, Ok (f d (block_env_of (h_number (bi_header info)) (bi_header info))))
  | _ =>
      let n := convert_block_number b
                 (match req with Some (ReqNumber n) => Some (Number n) | _ => None end) in
      let current := saturating_to_u64 (be_number (block_env (bk_env b))) in
      if bool_decide (n < current) then
        match get_block_with_hash b (IdNumber (Number n)) with
        | Some (block, h) =>
            let env := block_env_of n (header block) in
            match get_state (bk_states b) h with
            | Some d => Some (b, Ok (f d env))
            | None =>
                let '(states, d) := get_on_disk_state (bk_states b) h in
                Some (with_states b states,
                      match d with Some d => Ok (f d env) | None => Err (BlockOutOfRange current n) end)
            end
        | None => Some (b, Err (BlockOutOfRange current n))
        end
      else Some (b, Ok (f (inner (bk_db b)) (block_env (bk_env b))))
  end.

(** An account of a state; the read of [DatabaseRef] gives what that of
    [Database] does, without keeping it. *)
Definition account_of (d : Db) (a : Address) : result BlockchainError (AccountInfo Code) :=
  match (db_basic d a).2 with
  | Ok acc => Ok (default account_default acc)
  | Err e => Err (DatabaseErr e)
  end.
(** The [?] of a result inside the answer of [with_database_at]. *)
Definition flatten {A} (r : option (Node * result BlockchainError (result BlockchainError A)))
    : option (Node * result BlockchainError A) :=
  '(b, r) ← r; Some (b, match r with Ok r => r | Err e => Err e end).

Definition get_balance b (now : Z) (a : Address) (req : option (BlockRequest NodeTx))
    : option (Node * result BlockchainError Z) :=
  flatten (with_database_at b now req (λ d _, acc ← account_of d a; Ok (ai_balance acc))).

(** [get_pool_transactions_nonce]. *)
Definition pool_nonces (txs : list (PoolTransaction NodeTx)) (a : Address) : list Z :=
  (λ tx, tx_nonce (envelope (transaction (pending_transaction tx)))) <$>
    filter (λ tx, sender (pending_transaction tx) = a) txs.
Definition get_pool_transactions_nonce (txs : list (PoolTransaction NodeTx)) (a : Address) : option Z :=
  match pool_nonces txs a with
  | [] => None
  | n :: ns => Some (saturating_add u64_max (foldl Z.max n ns) 1)
  end.

Definition get_nonce b (now : Z) (a : Address) (req : BlockRequest NodeTx)
    : option (Node * result BlockchainError Z) :=
  match (match req with ReqPending txs => get_pool_transactions_nonce txs a | _ => None end) with
  | Some n => Some (b, Ok n)
  | None =>
      let final := match req with ReqPending _ => ReqNumber (bk_best_number b) | req => req end in
      flatten (with_database_at b now (Some final) (λ d _, acc ← account_of d a; Ok (ai_nonce acc)))
  end.
End queries.
