(* ===== verification/QueriesProofs.v ===== *)
(** * Correctness of the answers about the chain

    [eth_getLogs] gives the matching logs of the chain in its order, numbered
    through each block, and agrees with the receipts: the logs in the receipts
    of a mined block are the logs of the block. *)
From stdpp Require Import base list gmap.
From Stdlib Require Import ZArith Lia.
From S2P Require Import Prelude Containers PoolTx Pool Fees Time Snapshots StateDb BlockStates.
From S2P Require Import Blockchain Executor ExecutorProofs Backend SampleNode Validation Mining.
From S2P Require Import ChainInvariant MiningProofs ChainQueries.
#[local] Open Scope list_scope.
#[local] Abbreviation B256 := Z (only parsing).

Section queries_proofs.
Context {Float BaseFeeParams BlobParams Snap : Type}.
Context `{!FeeRules Float BaseFeeParams BlobParams, !EvmTypes, !Evm, !BlockHashing, !NodeEnv BlobParams}.
Context `{!FullDatabase Db Snap, !HashOrder Address, !RpcTypes}.
#[local] Abbreviation Node := (Backend Float BaseFeeParams BlobParams Snap).
#[local] Abbreviation NodeTx := (MaybeImpersonated Envelope) (only parsing).
#[local] Abbreviation NodeBlock := (Block Header (MaybeImpersonated Envelope)) (only parsing).
Implicit Types (b : Node) (block : Block Header (MaybeImpersonated Envelope)).

(** ** The logs of a block, all of them *)
Definition tx_log_list b (t : NodeTx) : list Log :=
  match transactions (bk_storage b) !! maybe_hash t with
  | Some m => receipt_logs (mt_receipt m)
  | None => []
  end.
Definition tx_numbered b block (h : B256) (t : NodeTx) (i : nat) : list RpcLog :=
  match transactions (bk_storage b) !! maybe_hash t with
  | Some m => imap (λ k l, mkRpcLog l h (h_number (header block)) (h_timestamp (header block))
                (ti_hash (mt_info m)) (ti_index (mt_info m)) (Z.of_nat (i + k))) (receipt_logs (mt_receipt m))
  | None => []
  end.
Fixpoint numbered b block (h : B256) (ts : list NodeTx) (i : nat) : list RpcLog :=
  match ts with
  | [] => []
  | t :: ts => tx_numbered b block h t i ++ numbered b block h ts (i + length (tx_log_list b t))
  end.
Definition log_count b (ts : list NodeTx) : nat := list_sum (length ∘ tx_log_list b <$> ts).

(** The logs of the block with a hash. *)
Definition logs_of b (h : B256) : list RpcLog :=
  match blocks (bk_storage b) !! h with
  | Some block => numbered b block h (body_transactions block) 0
  | None => []
  end.
Definition logs_at b (n : Z) : list RpcLog :=
  match hashes (bk_storage b) !! n with Some h => logs_of b h | None => [] end.

Definition matching (f : Filter) (l : list RpcLog) : list RpcLog :=
  filter (λ r, filter_matches f (rl_inner r) = true) l.
Lemma matching_app f l1 l2 : matching f (l1 ++ l2) = matching f l1 ++ matching f l2.
Proof. apply filter_app. Qed.

(** The 32 bit index of a log does not overflow. *)
Definition logs_fit b : Prop :=
  ∀ h block, blocks (bk_storage b) !! h = Some block →
    Z.of_nat (log_count b (body_transactions block)) < 2 ^ 32.

Lemma imap_S_shift {A} (mk : A → Z → RpcLog) (i : nat) ls :
  imap (λ k l, mk l (Z.of_nat (i + S k))) ls = imap (λ k l, mk l (Z.of_nat (S i + k))) ls.
Proof. apply imap_ext. intros k l _. cbn. by rewrite Nat.add_succ_r. Qed.

Lemma match_logs_spec f (mk : Log → Z → RpcLog) ls :
  (∀ l k, rl_inner (mk l k) = l) → ∀ acc i, Z.of_nat (i + length ls) < 2 ^ 32 →
  match_logs f mk ls (acc, Z.of_nat i) =
    Some (acc ++ matching f (imap (λ k l, mk l (Z.of_nat (i + k))) ls), Z.of_nat (i + length ls)).
Proof.
  intros Hmk. induction ls as [|l ls IH]; intros acc i Hi.
  { cbn. by rewrite app_nil_r, Nat.add_0_r. }
  cbn [length] in Hi. cbn [match_logs]. rewrite (checked_in _ (Z.of_nat i + 1)) by lia. cbn [mbind option_bind].
  replace (Z.of_nat i + 1) with (Z.of_nat (S i)) by lia. rewrite IH by lia.
  cbn [imap length]. unfold matching. rewrite filter_cons, Hmk, Nat.add_0_r. unfold compose.
  rewrite (imap_S_shift mk), Nat.add_succ_r. cbn [Nat.add].
  destruct (filter_matches f l); [|done].
  rewrite decide_True by done. by rewrite <- app_assoc.
Qed.

Lemma tx_logs_spec b f block h t acc (i : nat) :
  Z.of_nat (i + length (tx_log_list b t)) < 2 ^ 32 →
  tx_logs b f block h (acc, Z.of_nat i) t =
    Some (acc ++ matching f (tx_numbered b block h t i), Z.of_nat (i + length (tx_log_list b t))).
Proof.
  unfold tx_logs, tx_log_list, tx_numbered. destruct (transactions _ !! _) as [m|]; intros Hi.
  - by apply match_logs_spec.
  - cbn. by rewrite app_nil_r, Nat.add_0_r.
Qed.

Lemma log_count_cons b t ts : log_count b (t :: ts) = (length (tx_log_list b t) + log_count b ts)%nat.
Proof. done. Qed.

Lemma tx_logs_fold b f block h ts : ∀ acc (i : nat), Z.of_nat (i + log_count b ts) < 2 ^ 32 →
  fold_m (tx_logs b f block h) (acc, Z.of_nat i) ts =
    Some (acc ++ matching f (numbered b block h ts i), Z.of_nat (i + log_count b ts)).
Proof.
  induction ts as [|t ts IH]; intros acc i Hi; cbn [fold_m numbered].
  { cbn. by rewrite app_nil_r, Nat.add_0_r. }
  rewrite log_count_cons in *. rewrite tx_logs_spec by lia. cbn [mbind option_bind]. rewrite IH by lia.
  by rewrite matching_app, <- app_assoc, Nat.add_assoc.
Qed.

Lemma mined_logs_spec b f block h :
  Z.of_nat (log_count b (body_transactions block)) < 2 ^ 32 →
  mined_logs_for_block b f block h = Some (matching f (numbered b block h (body_transactions block) 0)).
Proof. intros Hl. unfold mined_logs_for_block. by rewrite (tx_logs_fold _ _ _ _ _ [] 0). Qed.

Lemma logs_for_block_spec b f h : logs_fit b → logs_for_block b f h = Some (matching f (logs_of b h)).
Proof.
  intros Hfit. unfold logs_for_block, logs_of, get_block_by_hash.
  destruct (blocks _ !! h) as [block|] eqn:Hb; [|done]. by apply mined_logs_spec, (Hfit h).
Qed.

Lemma extend_range_spec b f acc n : logs_fit b →
  extend_range b f acc n = Some (acc ++ matching f (logs_at b n)).
Proof.
  intros Hfit. unfold extend_range, get_block_with_hash, logs_at, logs_of, get_block_by_hash.
  destruct (hashes _ !! n) as [h|]; cbn [mbind option_bind]; [|by rewrite app_nil_r].
  destruct (blocks _ !! h) as [block|] eqn:Hb; cbn [mbind option_bind]; [|by rewrite app_nil_r].
  by rewrite (mined_logs_spec b f block h (Hfit _ _ Hb)).
Qed.

Lemma logs_range_fold b f ns : logs_fit b → ∀ acc,
  fold_m (extend_range b f) acc ns = Some (acc ++ matching f (mjoin (logs_at b <$> ns))).
Proof.
  intros Hfit. induction ns as [|n ns IH]; intros acc; cbn [fold_m fmap list_fmap mjoin list_join].
  { by rewrite app_nil_r. }
  rewrite extend_range_spec by done. cbn [mbind option_bind]. by rewrite IH, matching_app, <- app_assoc.
Qed.

Lemma tx_numbered_length b block h t i : length (tx_numbered b block h t i) = length (tx_log_list b t).
Proof.
  unfold tx_numbered, tx_log_list. destruct (transactions (bk_storage b) !! maybe_hash t); [|done].
  apply length_imap.
Qed.

Lemma numbered_lookup b block h ts : ∀ i j r, numbered b block h ts i !! j = Some r →
  rl_block_hash r = h ∧ rl_log_index r = Z.of_nat (i + j) ∧ rl_block_number r = h_number (header block) ∧
  ∃ t m, t ∈ ts ∧ transactions (bk_storage b) !! maybe_hash t = Some m ∧
    rl_transaction_hash r = ti_hash (mt_info m) ∧ rl_inner r ∈ receipt_logs (mt_receipt m).
Proof.
  induction ts as [|t ts IH]; intros i j r; cbn [numbered]; [done|].
  intros [Hj|[Hlen Hj]]%lookup_app_Some.
  - unfold tx_numbered in Hj. destruct (transactions _ !! _) as [m|] eqn:Hm; [|done].
    rewrite list_lookup_imap in Hj. apply fmap_Some in Hj as (l & Hl & ->). cbn.
    split_and!; [done..|]. exists t, m. split_and!; [by left|done|done|]. by eapply list_elem_of_lookup_2.
  - apply IH in Hj as (? & -> & ? & t' & m & Ht & ?).
    pose proof (tx_numbered_length b block h t i) as Hl.
    split_and!; [done|f_equal; lia|done|]. exists t', m. split; [by right|done].
Qed.

(** C8: [eth_getLogs] answers with the logs that match the filter and no
    others, in the order of the chain: those of the block that a filter
    names, or those of the blocks of the range from its first block to its
    last or the best, whatever tags it uses (none when the range lies ahead).
    Each log carries the hash of its block and its position among all logs of
    the block, whether or not those before it match. *)
Theorem logs_answer b f :
  logs_fit b →
  logs b f = Some (matching f
    (match get_block_hash f with
     | Some h => logs_of b h
     | None =>
         let from := convert_block_number b (get_from_block f) in
         let to := convert_block_number b (get_to_block f) `min` bk_best_number b in
         mjoin (logs_at b <$> seqZ from (to - from + 1))
     end)) ∧
  ∀ h i r, logs_of b h !! i = Some r →
    rl_block_hash r = h ∧ rl_log_index r = Z.of_nat i ∧
    ∃ block t m, blocks (bk_storage b) !! h = Some block ∧ t ∈ body_transactions block ∧
      rl_block_number r = h_number (header block) ∧
      transactions (bk_storage b) !! maybe_hash t = Some m ∧
      rl_transaction_hash r = ti_hash (mt_info m) ∧ rl_inner r ∈ receipt_logs (mt_receipt m).
Proof.
  intros Hfit. split.
  - unfold logs. destruct (get_block_hash f) as [h|]; [by apply logs_for_block_spec|]. cbn zeta.
    set (from := convert_block_number b (get_from_block f)).
    set (to := _ `min` _). case_bool_decide as Hb.
    + replace (Z.to_nat (to - from + 1)) with 0%nat by lia.
      unfold seqZ. replace (Z.to_nat (to - from + 1)) with 0%nat by lia. done.
    + by apply (logs_range_fold b f _ Hfit []).
  - intros h i r. unfold logs_of. destruct (blocks _ !! h) as [block|] eqn:Hb; [|done].
    intros (? & ? & ? & t & m & Ht & ? & ? & ?)%numbered_lookup. split_and!; [done..|].
    by exists block, t, m.
Qed.

(** ** Receipts *)
(** Each transaction of the block is recorded with its position in it. *)
Definition block_indexed b (h : B256) block : Prop :=
  ∀ i t, body_transactions block !! i = Some t →
    ∃ m, transactions (bk_storage b) !! maybe_hash t = Some m ∧ mt_block_hash m = h ∧
      ti_hash (mt_info m) = maybe_hash t ∧ ti_index (mt_info m) = Z.of_nat i.

Lemma log_count_app b ts ts' : log_count b (ts ++ ts') = (log_count b ts + log_count b ts')%nat.
Proof. unfold log_count. rewrite fmap_app. apply list_sum_app. Qed.

Lemma get_receipts_recorded b ts :
  (∀ t, t ∈ ts → is_Some (transactions (bk_storage b) !! maybe_hash t)) →
  length ∘ receipt_logs <$> get_receipts b (maybe_hash <$> ts) = length ∘ tx_log_list b <$> ts.
Proof.
  unfold get_receipts. induction ts as [|t ts IH]; intros Hrec; [done|]. cbn.
  destruct (Hrec t) as [m Hm]; [by left|]. unfold tx_log_list. rewrite Hm. cbn. f_equal.
  apply IH. intros t' Ht. apply Hrec. by right.
Qed.

Lemma indexed_recorded b h block t :
  block_indexed b h block → t ∈ body_transactions block → is_Some (transactions (bk_storage b) !! maybe_hash t).
Proof. intros Hix [i Hi]%list_elem_of_lookup_1. destruct (Hix i t Hi) as (m & -> & _). done. Qed.

Lemma receipt_of_block b h block i t :
  blocks (bk_storage b) !! h = Some block → block_indexed b h block → logs_fit b →
  body_transactions block !! i = Some t →
  ∃ r out, mined_transaction_receipt b (maybe_hash t) = Some (Some (r, out)) ∧
    rr_logs r = tx_numbered b block h t (log_count b (take i (body_transactions block))) ∧
    rr_transaction_hash r = maybe_hash t ∧ rr_transaction_index r = Z.of_nat i ∧
    rr_block_hash r = h ∧ rr_block_number r = h_number (header block).
Proof.
  intros Hb Hix Hfit Hi. destruct (Hix i t Hi) as (m & Hm & Hh & Hth & Hti).
  unfold mined_transaction_receipt, get_transaction_by_hash, get_block_by_hash. rewrite Hm, Hh, Hb, Hti, Nat2Z.id, Hi.
  cbn [mbind option_bind]. set (receipts := get_receipts b _).
  pose proof (get_receipts_recorded b (body_transactions block) (λ t, indexed_recorded b h block t Hix)) as Hrec.
  fold receipts in Hrec. assert (length receipts = length (body_transactions block)) as Hlen.
  { apply (f_equal length) in Hrec. by rewrite !length_fmap in Hrec. }
  rewrite bool_decide_false by (apply lookup_lt_Some in Hi; lia).
  do 2 eexists. split; [reflexivity|]. cbn. split_and!; [|done..].
  unfold convert_logs_rpc, tx_numbered. rewrite Hm. apply imap_ext. intros k l Hl. cbn. f_equal; [by rewrite Hti|].
  rewrite fmap_take, Hrec, <- fmap_take. change (list_sum (length ∘ tx_log_list b <$> ?ts)) with (log_count b ts).
  apply wrap_u64_small. specialize (Hfit h block Hb). unfold in_u64, u64_max.
  rewrite <- (take_drop i (body_transactions block)), log_count_app in Hfit.
  rewrite (drop_S _ t i Hi), log_count_cons in Hfit. unfold tx_log_list in Hfit. rewrite Hm in Hfit.
  apply lookup_lt_Some in Hl. lia.
Qed.

Lemma collect_receipts_spec b h block :
  blocks (bk_storage b) !! h = Some block → block_indexed b h block → logs_fit b →
  ∀ ts pre acc, body_transactions block = pre ++ ts →
  ∃ rs, collect_receipts b (maybe_hash <$> ts) acc = Some (Some (acc ++ rs)) ∧
    rr_transaction_hash <$> rs = maybe_hash <$> ts ∧
    mjoin (rr_logs <$> rs) = numbered b block h ts (log_count b pre) ∧
    ∀ i r, rs !! i = Some r → rr_transaction_index r = Z.of_nat (length pre + i) ∧ rr_block_hash r = h.
Proof.
  intros Hb Hix Hfit ts. induction ts as [|t ts IH]; intros pre acc Hbody; cbn [fmap list_fmap collect_receipts].
  { exists []. rewrite app_nil_r. split_and!; [done..|]. intros i r Hr. by rewrite lookup_nil in Hr. }
  destruct (receipt_of_block b h block (length pre) t Hb Hix Hfit) as (r & out & -> & Hl & Hth & Hti & Hbh & _).
  { rewrite Hbody. by apply list_lookup_middle. }
  cbn [mbind option_bind]. destruct (IH (pre ++ [t]) (acc ++ [r])) as (rs & -> & Hrs & Hj & Hall).
  { by rewrite Hbody, <- app_assoc. }
  exists (r :: rs). rewrite <- app_assoc. split_and!; [done|cbn; by rewrite Hth, Hrs| |].
  - change (mjoin (rr_logs <$> r :: rs)) with (rr_logs r ++ mjoin (rr_logs <$> rs)).
    cbn [numbered]. rewrite Hj, Hl, log_count_app, log_count_cons, Hbody.
    rewrite take_app_length. unfold log_count at 3. cbn. by rewrite Nat.add_0_r.
  - intros [|i] r'; cbn.
    + intros [= <-]. by rewrite Nat.add_0_r.
    + intros [Hr ?]%Hall. split; [|done]. rewrite Hr, length_app. cbn. lia.
Qed.

Lemma block_receipts_logs b h block :
  blocks (bk_storage b) !! h = Some block → block_indexed b h block → logs_fit b →
  ∃ rs, mined_block_receipts b (IdHash h) = Some (Some rs) ∧
    rr_transaction_hash <$> rs = maybe_hash <$> body_transactions block ∧
    mjoin (rr_logs <$> rs) = logs_of b h ∧
    ∀ i r, rs !! i = Some r → rr_transaction_index r = Z.of_nat i ∧ rr_block_hash r = h.
Proof.
  intros Hb Hix Hfit. unfold mined_block_receipts, logs_of.
  assert (get_block b (IdHash h) = Some block) as ->.
  { unfold get_block, get_block_with_hash, get_block_by_hash. cbn [mbind option_bind]. by rewrite Hb. }
  destruct (collect_receipts_spec b h block Hb Hix Hfit (body_transactions block) [] [] eq_refl)
    as (rs & ? & ? & ? & Hr). exists rs.
  rewrite Hb. by split_and!.
Qed.

(** ** The block just mined *)
Context `{!EvmLaws, !HashLaws, !NodeLaws BlobParams}.

Lemma included_sublist os : included_of os `sublist_of` (outcome_tx <$> os).
Proof.
  induction os as [|o os IH]; [constructor|]. unfold included_of in *. cbn.
  by destruct o; cbn; constructor.
Qed.

Lemma zip_lookup {A B} (l : list A) (k : list B) i p :
  zip l k !! i = Some p → l !! i = Some p.1 ∧ k !! i = Some p.2.
Proof. revert k i. induction l as [|x l IH]; intros [|y k] [|i]; cbn; try done; [by intros [= <-]|apply IH]. Qed.

Lemma mine_block_indexed g b now txs outcome b' :
  node_wf g b → txs_ok txs → bk_best_number b < u64_max → bk_transaction_block_keeper b = None →
  NoDup (hash <$> txs) → Z.of_nat (length txs) ≤ u64_max → do_mine_block b now txs = Some (outcome, b') →
  ∃ hd, let block := mkBlock hd ((λ ptx, transaction (pending_transaction ptx)) <$> included outcome) in
    blocks (bk_storage b') !! bk_best_hash b' = Some block ∧ block_indexed b' (bk_best_hash b') block ∧
    included outcome `sublist_of` txs.
Proof.
  intros [Hg Hchain Hst Hgl Hhd] Htxs Hbest Hkeep Hnd Hlen. unfold do_mine_block.
  destruct (states_kept b Hst) as (states & -> & _). cbn [mbind option_bind].
  destruct (next_timestamp (bk_time b) now) as [[time ts]|]; [|done]. cbn [mbind option_bind].
  rewrite next_number by done.
  destruct (@execute_total _ _ (backend_validator b) _ _
    (executor_for b (inner (bk_db b)) (env_at (mining_env b) ts) txs))
    as (os & x' & res & -> & _ & _ & Hos & Hblock & _); [done|apply max_blob_gas_nonneg| |by intros _|].
  { apply (Forall_impl _ _ _ Htxs). by intros ptx [? _]. }
  cbn [mbind option_bind]. destruct Hblock as (Hinc & _ & Hbody & Hinfo & Hindex & Hrec & _).
  destruct (negb _); [done|]. intros [= <- <-]. exists (bi_header (ex_block res)). cbn zeta.
  cbn [included bk_storage bk_best_hash]. unfold keep_transactions. rewrite Hkeep.
  unfold bk_best_hash, store_block. cbn [bk_storage best_hash blocks transactions].
  set (h := header_hash (bi_header (ex_block res))). cbn in Hos.
  assert (Hsub : included_of os `sublist_of` txs) by (rewrite <- Hos; apply included_sublist).
  assert (Hwf : Forall (λ ptx, pending_wf (pending_transaction ptx)) (included_of os)).
  { apply included_sub. rewrite Hos. apply (Forall_impl _ _ _ Htxs). by intros ptx [_ ?]. }
  split_and!; [by rewrite Hbody, Hinc, lookup_insert_eq| |by rewrite Hinc].
  intros i t. cbn [body_transactions]. rewrite Hinc, list_lookup_fmap. intros (ptx & Hptx & ->)%fmap_Some.
  pose proof (body_hashes (included_of os) Hwf) as Hbh.
  assert (maybe_hash (transaction (pending_transaction ptx)) = hash ptx) as Ht.
  { apply (f_equal (.!! i)) in Hbh. rewrite !list_lookup_fmap, Hptx in Hbh. by injection Hbh. }
  rewrite Ht. destruct (insert_mined_lookup h (bk_best_number b + 1)
    (zip (bi_transactions (ex_block res)) (bi_receipts (ex_block res))) (transactions (bk_storage b)) (hash ptx))
    as [Hi _].
  assert (Hzip : ti_hash ∘ fst <$> zip (bi_transactions (ex_block res)) (bi_receipts (ex_block res)) =
    hash <$> included_of os).
  { rewrite list_fmap_compose, fst_zip; [done|]. rewrite Hrec, <- (length_fmap ti_hash), Hinfo. by rewrite length_fmap. }
  rewrite Hzip in Hi. destruct Hi as (p & Hp & Hpt & Hm).
  { by eapply list_elem_of_fmap_2, list_elem_of_lookup_2. }
  cbn [bk_storage transactions]. eexists. split; [exact Hm|]. cbn. split_and!; [done|done|].
  apply list_elem_of_lookup_1 in Hp as [j Hj].
  assert (hash <$> included_of os !! j = Some (hash ptx)) as Hjh.
  { rewrite <- list_lookup_fmap, <- Hzip, list_lookup_fmap, Hj. cbn. by rewrite Hpt. }
  assert (j = i) as ->.
  { eapply (NoDup_lookup (hash <$> included_of os)); [|by rewrite list_lookup_fmap|by rewrite list_lookup_fmap, Hptx].
    eapply sublist_NoDup; [exact Hnd|by apply fmap_sublist]. }
  apply zip_lookup in Hj as [Hj _]. rewrite (Hindex _ _ Hj). apply wrap_u64_small.
  apply lookup_lt_Some in Hptx. apply sublist_length in Hsub. unfold in_u64. lia.
Qed.

Lemma transaction_build_some h t block info fee :
  tx_kind (envelope t) ≠ Tempo →
  ∃ rx, transaction_build h t (Some block) (Some info) fee = Some rx ∧
    rx_hash rx = (if bool_decide (tx_kind (envelope t) = Deposit) then maybe_hash t
                  else default (maybe_hash t) h) ∧
    rx_block_hash rx = Some (header_hash (header block)) ∧ rx_transaction_index rx = Some (ti_index info).
Proof.
  intros Hk. unfold transaction_build. destruct (tx_kind (envelope t)); try done; by eexists; split_and!.
Qed.

(** C7: once a block is mined, from transactions with distinct hashes and on a
    node that keeps the transactions of all blocks, the node answers about it
    consistently: the receipts of the block are those of the transactions that
    were included, in their order and with their positions; the logs in the
    receipts are, in order, all logs of the block (fewer than their index can
    count), so that [eth_getLogs] of the block's hash gives those of them that
    match; and each included transaction is found by its hash, in this block
    and at its position. *)
Theorem mined_block_answers g b now txs outcome b' :
  node_wf g b → txs_ok txs → bk_best_number b < u64_max → bk_transaction_block_keeper b = None →
  NoDup (hash <$> txs) → Z.of_nat (length txs) ≤ u64_max → do_mine_block b now txs = Some (outcome, b') →
  logs_fit b' →
  ∃ rs, mined_block_receipts b' (IdNumber Latest) = Some (Some rs) ∧
    rr_transaction_hash <$> rs = hash <$> included outcome ∧
    (∀ f, get_block_hash f = Some (bk_best_hash b') →
       logs b' f = Some (matching f (mjoin (rr_logs <$> rs)))) ∧
    ∀ i ptx, included outcome !! i = Some ptx →
      (∃ r, rs !! i = Some r ∧ rr_transaction_index r = Z.of_nat i ∧ rr_block_hash r = bk_best_hash b') ∧
      ∃ rx, mined_transaction_by_hash b' (hash ptx) = Some (Some rx) ∧ rx_hash rx = hash ptx ∧
        rx_block_hash rx = Some (bk_best_hash b') ∧ rx_transaction_index rx = Some (Z.of_nat i).
Proof.
  intros Hwf Htxs Hbest Hkeep Hnd Hlen Hmine Hfit.
  destruct (mine_block_indexed g b now txs outcome b' Hwf Htxs Hbest Hkeep Hnd Hlen Hmine)
    as (hd & Hb & Hix & Hsub). set (block := mkBlock hd _) in *.
  destruct (block_receipts_logs b' (bk_best_hash b') block Hb Hix Hfit) as (rs & Hrs & Hrh & Hrl & Hri).
  assert (Htxs' : txs_ok (included outcome)).
  { unfold txs_ok in *. rewrite Forall_forall in *. intros ptx Hin. by eapply Htxs, elem_of_sublist. }
  assert (Hbh : maybe_hash <$> body_transactions block = hash <$> included outcome).
  { apply body_hashes, (Forall_impl _ _ _ Htxs'). by intros ptx [_ ?]. }
  assert (header_hash hd = bk_best_hash b') as Hhd.
  { destruct (mine_block_clock g b now txs _ Hwf Htxs Hbest Hmine) as (time & ts & Hc).
    destruct (mine_block_total g b now txs time ts Hwf Htxs Hbest Hc) as (o2 & b2 & Hm2 & Hd).
    rewrite Hmine in Hm2. injection Hm2 as <- <-.
    destruct (m_block _ _ _ _ _ _ _ Hd) as (hd2 & body2 & Hb2 & _ & -> & _).
    rewrite Hb in Hb2. by injection Hb2 as -> _. }
  exists rs. split_and!; [exact Hrs|by rewrite Hrh| |].
  - intros f Hf. unfold logs. rewrite Hf, Hrl. by apply logs_for_block_spec.
  - intros i ptx Hi. set (t := transaction (pending_transaction ptx)).
    assert (body_transactions block !! i = Some t) as Ht by (cbn; by rewrite list_lookup_fmap, Hi).
    assert (maybe_hash t = hash ptx) as Hth.
    { apply (f_equal (.!! i)) in Hbh. rewrite !list_lookup_fmap, Ht, Hi in Hbh. by injection Hbh. }
    split.
    + assert (is_Some (rs !! i)) as [r Hr].
      { apply lookup_lt_is_Some. apply lookup_lt_Some in Ht. rewrite <- (length_fmap rr_transaction_hash), Hrh.
        by rewrite length_fmap. }
      exists r. split; [done|]. by apply Hri.
    + destruct (Hix i t Ht) as (m & Hm & Hmb & Hmh & Hmi). rewrite Hth in *.
      destruct (transaction_build_some (Some (ti_hash (mt_info m))) t block (mt_info m)
        (h_base_fee_per_gas (header block))) as (rx & Hrx & Hrxh & Hrxb & Hrxi).
      { eapply (proj1 (Forall_forall _ _)) in Htxs' as [Hnt _]; [exact Hnt|]. by eapply list_elem_of_lookup_2. }
      exists rx. unfold mined_transaction_by_hash. rewrite Hm, Hmb, Hb, Hmi, Nat2Z.id, Ht, Hrx.
      cbn in Hrxb. split_and!; [done| |by rewrite Hrxb, Hhd|by rewrite Hrxi, Hmi].
      rewrite Hrxh. case_bool_decide; [done|]. by rewrite Hmh.
Qed.
End queries_proofs.

(** ** The small node *)
(** A filter is a block hash and the number of the log to match. *)
#[export] Instance small_rpc : RpcTypes := {|
  Filter := option Z * Z; filter_matches f l := f.2 =? l; get_block_hash := fst;
  get_from_block _ := Some Earliest; get_to_block _ := None;
  effective_gas_price _ fee := default 0 fee; calc_blob_gasprice _ := 1;
  block_size _ body := 500 + Z.of_nat (length body);
|}.

Definition any_block (l : Z) : Filter := (None, l).
Definition in_block (h l : Z) : Filter := (Some h, l).
Definition queried : Backend unit unit unit (gmap Z (AccountInfo unit)) :=
  match do_mine_block small_backend 1005 [small_ptx 1 0 21000; small_ptx 1 5 21000; small_ptx 2 0 21000] with
  | Some (_, b) => b | None => small_backend end.
Lemma queried_fit : logs_fit queried.
Proof.
  assert (bool_decide (map_Forall (λ _ block, Z.of_nat (log_count queried (body_transactions block)) < 2 ^ 32)
    (blocks (bk_storage queried))) = true) as Hd by (vm_compute; reflexivity).
  apply bool_decide_eq_true in Hd. intros h block Hb. by apply (Hd h block).
Qed.

Lemma logs_answer_witness :
  rl_log_index <$> default [] (logs queried (any_block 1)) = [1] ∧
  logs queried (any_block 1) = Some (matching (any_block 1) (mjoin (logs_at queried <$> seqZ 0 2))).
Proof.
  split; [vm_compute; reflexivity|]. destruct (logs_answer queried (any_block 1) queried_fit) as [Hl _].
  rewrite Hl. replace (bk_best_number queried) with 1 by (vm_compute; reflexivity). reflexivity.
Defined.

Lemma mined_block_answers_witness :
  ∃ rs, mined_block_receipts queried (IdNumber Latest) = Some (Some rs) ∧
    logs queried (in_block (bk_best_hash queried) 1) =
      Some (matching (in_block (bk_best_hash queried) 1) (mjoin (rr_logs <$> rs))).
Proof.
  set (txs := [small_ptx 1 0 21000; small_ptx 1 5 21000; small_ptx 2 0 21000]).
  assert (∃ o, do_mine_block small_backend 1005 txs = Some (o, queried)) as [o Ho].
  { unfold queried. fold txs. destruct (mine_block_total 0 small_backend 1005 txs (mkTimeManager 0 1005 None None) 1005)
      as (o & b' & -> & _); [apply small_backend_wf|by repeat constructor|done..|by exists o]. }
  destruct (mined_block_answers 0 small_backend 1005 txs o queried) as (rs & Hrs & _ & Hl & _).
  - apply small_backend_wf.
  - by repeat constructor.
  - done.
  - done.
  - apply (bool_decide_unpack _). vm_compute. exact I.
  - done.
  - exact Ho.
  - exact queried_fit.
  - exists rs. split; [exact Hrs|by apply Hl].
Defined.
