(* ===== verification/EthApi.v ===== *)
(** * The RPC handlers over the pool and the backend: anvil/src/eth/api.rs

    [EthApi] of a node that is not forked: the handlers that send
    transactions, mine, rewind, read the pool and set up the node, composed
    from the pool, the miner, the backend and the answers of the file
    [ChainQueries].  Decoding a transaction and making bytecode belong to
    other crates: the interface [ApiEnv].  [now] and [clock] are readings of
    the system clock; [fuel] bounds the transactions that are collected from
    the ready queue.  [None] is a panic.  A panic of a handler's blocking task
    is the error [Internal], with the state it left behind when the task
    panicked at once and [None] when it panicked halfway. *)
From stdpp Require Import base list gmap.
From Stdlib Require Import ZArith Lia.
From S2P Require Import Prelude Containers PoolTx PendingQueue ReadyQueue Pool Miner Fees Time.
From S2P Require Import Snapshots StateDb BlockStates Blockchain Executor Backend Validation Mining.
From S2P Require Import ChainQueries Service.
#[local] Open Scope list_scope.

#[local] Abbreviation B256 := Z (only parsing).
#[local] Abbreviation Bytes := (list Z) (only parsing).

Class ApiEnv `{!EvmTypes} := {
  decode_2718 : Bytes → option Envelope;
  BERLIN : Z;
  CODE_HASH_EMPTY : B256;              (* [KECCAK_EMPTY] *)
  bytecode_new_raw : Bytes → Code;
}.

(** ** Writing to accounts: the default methods of [Db]
    (anvil/src/eth/backend/db.rs) *)
Section db_writes.
Context {BlobParams : Type} `{!EvmTypes, !Evm, !NodeEnv BlobParams, !ApiEnv}.
Implicit Types d : Db.

Definition update_account d (a : Address) (f : AccountInfo Code → AccountInfo Code)
    : Db * result DatabaseError unit :=
  let '(d, acc) := db_basic d a in
  match acc with
  | Ok acc => (node_insert_account d a (f (default account_default acc)), Ok tt)
  | Err e => (d, Err e)
  end.
Definition db_set_nonce d (a : Address) (nonce : Z) : Db * result DatabaseError unit :=
  update_account d a (λ i, mkAccountInfo (ai_balance i) nonce (code_hash i) (code i)).
Definition db_set_balance d (a : Address) (balance : Z) : Db * result DatabaseError unit :=
  update_account d a (λ i, mkAccountInfo balance (ai_nonce i) (code_hash i) (code i)).
Definition db_set_code d (a : Address) (bytes : Bytes) : Db * result DatabaseError unit :=
  update_account d a (λ i, mkAccountInfo (ai_balance i) (ai_nonce i)
    (if bool_decide (bytes = []) then CODE_HASH_EMPTY else keccak256 bytes) (Some (bytecode_new_raw bytes))).
End db_writes.

Record EthApi (Float BaseFeeParams BlobParams Snap : Type) `{EvmTypes} := mkEthApi {
  api_pool : PoolInner (MaybeImpersonated Envelope);
  api_backend : Backend Float BaseFeeParams BlobParams Snap;
  api_miner : Miner (MaybeImpersonated Envelope);
  api_transaction_order : TransactionOrder;
}.
Arguments mkEthApi {_ _ _ _ _}.
Arguments api_pool {_ _ _ _ _}.
Arguments api_backend {_ _ _ _ _}.
Arguments api_miner {_ _ _ _ _}.
Arguments api_transaction_order {_ _ _ _ _}.

(** The summary of a transaction in [txpool_inspect]. *)
Record TxpoolInspectSummary := mkSummary {
  sm_to : option Address; sm_value : Z; sm_gas : Z; sm_gas_price : Z;
}.
(** Transactions by sender and nonce (in decimal in the code). *)
Record Txpool (A : Type) := mkTxpool {
  tp_pending : gmap Address (gmap Z A);
  tp_queued : gmap Address (gmap Z A);
}.
Arguments mkTxpool {A}.
Arguments tp_pending {A}.
Arguments tp_queued {A}.

Inductive MineOptions :=
| OptTimestamp (timestamp : option Z)
| Options (timestamp blocks : option Z).

Section api.
Context {Float BaseFeeParams BlobParams Snap : Type}.
Context `{!FeeRules Float BaseFeeParams BlobParams, !EvmTypes, !Evm, !BlockHashing, !NodeEnv BlobParams}.
Context `{!FullDatabase Db Snap, !HashOrder Address, !HashOrder TxMarker, !RpcTypes, !ApiEnv}.
#[local] Abbreviation Api := (EthApi Float BaseFeeParams BlobParams Snap).
#[local] Abbreviation Node := (Backend Float BaseFeeParams BlobParams Snap).
#[local] Abbreviation NodeTx := (MaybeImpersonated Envelope) (only parsing).
Implicit Types (api : Api) (b : Node).

Definition set_pool api p : Api :=
  mkEthApi p (api_backend api) (api_miner api) (api_transaction_order api).
Definition set_backend api b : Api :=
  mkEthApi (api_pool api) b (api_miner api) (api_transaction_order api).
Definition set_miner api m : Api :=
  mkEthApi (api_pool api) (api_backend api) m (api_transaction_order api).
Definition set_transaction_order api order : Api :=
  mkEthApi (api_pool api) (api_backend api) (api_miner api) order.

(** ** The ready transactions and the nonce of an account *)
Definition ready_list (fuel : nat) api : option (list (PoolTransaction NodeTx)) :=
  iter_collect fuel (ready_iterator (api_pool api)).
(** [Pool::pending_transactions]: those that wait for markers. *)
Definition waiting_list api : list (PoolTransaction NodeTx) :=
  (pp_transaction ∘ snd) <$> iter_map (waiting_queue (pending_transactions (api_pool api))).

Definition block_request (fuel : nat) api (id : option BlockId)
    : option (result BlockchainError (BlockRequest NodeTx)) :=
  match id with
  | Some (IdNumber Pending) => txs ← ready_list fuel api; Some (Ok (ReqPending txs))
  | _ => Some (n ← ensure_block_number (api_backend api) id; Ok (ReqNumber n))
  end.

(** A read of the backend, which may load a state from disk. *)
Definition on_backend {A} api (r : option (Node * result BlockchainError A))
    : option (Api * result BlockchainError A) :=
  '(b, r) ← r; Some (set_backend api b, r).

Definition get_transaction_count (fuel : nat) api (now : Z) (a : Address) (id : option BlockId)
    : option (Api * result BlockchainError Z) :=
  req ← block_request fuel api id;
  match req with
  | Err e => Some (api, Err e)
  | Ok req => on_backend api (get_nonce (api_backend api) now a req)
  end.
Definition balance (fuel : nat) api (now : Z) (a : Address) (id : option BlockId)
    : option (Api * result BlockchainError Z) :=
  req ← block_request fuel api id;
  match req with
  | Err e => Some (api, Err e)
  | Ok req => on_backend api (get_balance (api_backend api) now a (Some req))
  end.

(** The nonce of a request, given or that of the pending block, and that of
    the pending block. *)
Definition request_nonce (fuel : nat) api (now : Z) (nonce : option Z) (from : Address)
    : option (Api * result BlockchainError (Z * Z)) :=
  '(api, highest) ← get_transaction_count fuel api now from (Some (IdNumber Pending));
  Some (api, highest ← highest; Ok (default highest nonce, highest)).

(** ** Sending transactions *)
(** [Pool::add_transaction], which notifies the miner, as the handlers call
    it. *)
Definition pool_add api (tx : PoolTransaction NodeTx) (now : Z)
    : option (Api * result BlockchainError TxHash) :=
  '(p, res) ← add_transaction (api_pool api) tx now;
  let hs := match res with Ok (AddedToReady r) => ar_hash r :: promoted r | _ => [] end in
  let m := api_miner api in
  let api := mkEthApi p (api_backend api) (mkMiner (notify_mode hs (mode m)) (force_transactions m) (woken m))
               (api_transaction_order api) in
  Some (api, match res with Ok added => Ok (added_hash added) | Err e => Err (PoolErr e) end).

Definition transaction_priority api (e : NodeTx) : Z := priority (api_transaction_order api) e.

Definition add_pending_transaction api (t : PendingTransaction NodeTx) (requires provides : list TxMarker)
    (now : Z) : option (Api * result BlockchainError TxHash) :=
  pool_add api (mkPoolTransaction t requires provides (transaction_priority api (transaction t))) now.

(** The checks against the hardfork; a Tempo transaction is a [todo!]. *)
Definition ensure_typed_transaction_supported b (e : Envelope) : option (result BlockchainError unit) :=
  let spec := cfg_spec (cfg_env (bk_env b)) in
  match tx_kind e with
  | Legacy => Some (Ok tt)
  | Eip2930 => Some (ensure (bool_decide (BERLIN ≤ spec)) EIP2930TransactionUnsupportedAtHardfork)
  | Eip1559 => Some (ensure (bool_decide (SPEC_LONDON ≤ spec)) EIP1559TransactionUnsupportedAtHardfork)
  | Eip4844 => Some (ensure (bool_decide (SPEC_CANCUN ≤ spec)) EIP4844TransactionUnsupportedAtHardfork)
  | Eip7702 => Some (ensure (bool_decide (PRAGUE ≤ spec)) EIP7702TransactionUnsupportedAtHardfork)
  | Deposit => Some (ensure (bk_is_optimism b) DepositTransactionUnsupported)
  | Tempo => None
  end.

Definition current_nonce b (a : Address) : result BlockchainError Z :=
  acc ← account_of (inner (bk_db b)) a; Ok (ai_nonce acc).
Definition current_balance b (a : Address) : result BlockchainError Z :=
  acc ← account_of (inner (bk_db b)) a; Ok (ai_balance acc).

Definition send_raw_transaction api (now : Z) (data : Bytes) : option (Api * result BlockchainError TxHash) :=
  let b := api_backend api in
  if bool_decide (data = []) then Some (api, Err EmptyRawTransactionData) else
  match decode_2718 data with
  | None => Some (api, Err FailedToDecodeSignedTransaction)
  | Some e =>
      supported ← ensure_typed_transaction_supported b e;
      match supported with
      | Err err => Some (api, Err err)
      | Ok _ =>
          match pending_new e with
          | None => Some (api, Err RecoveryError)
          | Some t =>
              valid ← validate_pool_transaction b t now;
              match (_ ← valid; current_nonce b (sender t)) with
              | Err err => Some (api, Err err)
              | Ok on_chain_nonce =>
                  let from := sender t in
                  let nonce := tx_nonce (envelope (transaction t)) in
                  pool_add api (mkPoolTransaction t (required_marker nonce on_chain_nonce from)
                                  [to_marker nonce from] (transaction_priority api (transaction t))) now
              end
          end
      end
  end.

(** The end of [send_transaction] and [eth_send_unsigned_transaction], once
    the request is built and signed: [nonces] is the answer of
    [request_nonce]. *)
Definition send_built api (now : Z) (t : PendingTransaction NodeTx) (from : Address) (nonces : Z * Z)
    : option (Api * result BlockchainError TxHash) :=
  supported ← ensure_typed_transaction_supported (api_backend api) (envelope (transaction t));
  match supported with
  | Err err => Some (api, Err err)
  | Ok _ =>
      valid ← validate_pool_transaction (api_backend api) t now;
      match valid with
      | Err err => Some (api, Err err)
      | Ok _ => add_pending_transaction api t (required_marker nonces.1 nonces.2 from)
                  [to_marker nonces.1 from] now
      end
  end.

(** ** Mining *)
Definition mine_one (fuel : nat) api (now : Z) : option Api :=
  txs ← ready_list fuel api;
  '(outcome, b) ← do_mine_block (api_backend api) now txs;
  '(p, _) ← on_mined_block (api_pool api) outcome;
  Some (mkEthApi p b (api_miner api) (api_transaction_order api)).

(** Blocks [i], [i + 1], ... of a request; the clock is read for each. *)
Fixpoint mine_blocks (n : nat) (fuel : nat) api (interval : option Z) (clock : nat → Z) (i : nat)
    : option Api :=
  match n with
  | O => Some api
  | S n =>
      let api := match interval with
                 | Some secs => set_backend api (with_time (api_backend api)
                                  (increase_time (bk_time (api_backend api)) secs).1)
                 | None => api
                 end in
      api ← mine_one fuel api (clock i);
      mine_blocks n fuel api interval clock (S i)
  end.

Definition anvil_mine (fuel : nat) api (num_blocks interval : option Z) (clock : nat → Z)
    : option (Api * result BlockchainError unit) :=
  interval ← match interval with
             | Some i => if bool_decide (i ≤ u64_max) then Some (Some i) else None
             | None => Some None
             end;
  let blocks := default 1 num_blocks in
  if bool_decide (blocks = 0) then Some (api, Ok tt)
  else if bool_decide (u64_max < blocks) then Some (api, Err Internal)
  else
    api ← mine_blocks (Z.to_nat blocks) fuel api interval clock 0;
    Some (api, Ok tt).

Definition evm_set_next_block_timestamp api (seconds : Z) : Api * result BlockchainError unit :=
  let b := api_backend api in
  let '(t, res) := set_next_block_timestamp (bk_time b) seconds in
  (set_backend api (with_time b t), match res with Ok _ => Ok tt | Err e => Err (TimestampErr e) end).

(** [do_evm_mine], which [evm_mine] answers with a placeholder. *)
Definition do_evm_mine (fuel : nat) api (opts : option MineOptions) (clock : nat → Z)
    : option (Api * result BlockchainError Z) :=
  let '(timestamp, blocks) := match opts with
                              | None => (None, 1)
                              | Some (OptTimestamp ts) => (ts, 1)
                              | Some (Options ts blocks) => (ts, default 1 blocks)
                              end in
  let '(api, res) := match timestamp with
                     | Some ts => evm_set_next_block_timestamp api ts
                     | None => (api, Ok tt)
                     end in
  match res with
  | Err e => Some (api, Err e)
  | Ok _ =>
      api ← mine_blocks (Z.to_nat blocks) fuel api None clock 0;
      Some (api, Ok blocks)
  end.

(** ** The miner *)
Definition anvil_set_auto_mine api (enable : bool) : Api :=
  if is_auto_mine (api_miner api) then
    if enable then api else set_miner api (set_mining_mode (api_miner api) MNone)
  else if enable then set_miner api (set_mining_mode (api_miner api) (instant 1000 []))
  else api.

Definition anvil_set_interval_mining api (secs : Z) : option Api :=
  if bool_decide (secs = 0) then Some (set_miner api (set_mining_mode (api_miner api) MNone))
  else
    states ← update_interval_mine_block_time (bk_states (api_backend api)) secs;
    Some (set_miner (set_backend api (with_states (api_backend api) states))
            (set_mining_mode (api_miner api) (interval_mode secs))).

(** ** The pool *)
Definition of_sender (a : Address) (txs : list (PoolTransaction NodeTx)) : list (PoolTransaction NodeTx) :=
  filter (λ tx, sender (pending_transaction tx) = a) txs.
(** [PoolInner::remove_transactions_by_address] (anvil/src/eth/pool/mod.rs). *)
Definition anvil_remove_pool_transactions (fuel : nat) api (a : Address) : option Api :=
  ready ← ready_list fuel api;
  let hs := hash <$> (of_sender a (waiting_list api) ++ of_sender a ready) in
  '(p, _) ← remove_invalid (api_pool api) hs;
  Some (set_pool api p).
Definition anvil_drop_transaction api (h : TxHash) : option (Api * option TxHash) :=
  '(p, dropped) ← drop_transaction (api_pool api) h;
  Some (set_pool api p, option_map hash dropped).
Definition anvil_drop_all_transactions api : Api := set_pool api (pool_clear (api_pool api)).

Definition nonce_of (tx : PoolTransaction NodeTx) : Z :=
  tx_nonce (envelope (transaction (pending_transaction tx))).
(** The loops of [txpool_inspect] and [txpool_content] insert under
    [pending], the second as well. *)
Definition insert_pending {A} (convert : PoolTransaction NodeTx → A) (tp : Txpool A)
    (tx : PoolTransaction NodeTx) : Txpool A :=
  let from := sender (pending_transaction tx) in
  mkTxpool (<[from := <[nonce_of tx := convert tx]> (default ∅ (tp_pending tp !! from))]> (tp_pending tp))
    (tp_queued tp).
Definition txpool {A} (convert : PoolTransaction NodeTx → A) (fuel : nat) api : option (Txpool A) :=
  ready ← ready_list fuel api;
  let tp := foldl (insert_pending convert) (mkTxpool ∅ ∅) ready in
  Some (foldl (insert_pending convert) tp (waiting_list api)).
Definition inspect_summary (tx : PoolTransaction NodeTx) : TxpoolInspectSummary :=
  let e := envelope (transaction (pending_transaction tx)) in
  mkSummary (tx_to e) (tx_value e) (tx_gas_limit e) (tx_max_fee e).
Definition txpool_inspect (fuel : nat) api : option (Txpool TxpoolInspectSummary) :=
  txpool inspect_summary fuel api.

(** A transaction of the pool as an answer, from the sender that the pool
    keeps. *)
Definition pool_answer api (t : PendingTransaction NodeTx) : option RpcTransaction :=
  rx ← transaction_build (Some (pt_hash t)) (transaction t) None None (Some (bk_base_fee (api_backend api)));
  Some (mkRpcTransaction (rx_envelope rx) (rx_hash rx) (sender t) (rx_block_hash rx)
          (rx_block_number rx) (rx_block_timestamp rx) (rx_transaction_index rx)
          (rx_effective_gas_price rx)).

Definition transaction_by_hash api (h : TxHash) : option (option RpcTransaction) :=
  match get_transaction (api_pool api) h with
  | Some t => Some <$> pool_answer api t
  | None => mined_transaction_by_hash (api_backend api) h
  end.

(** ** [transaction_by_sender_and_nonce] *)
Definition is_sent_with (a : Address) (nonce : Z) (tx : PoolTransaction NodeTx) : bool :=
  bool_decide (nonce_of tx = nonce) && bool_decide (sender (pending_transaction tx) = a).

(** One round of the search for the block; the bounds of the search come with
    the node, whose states are read. *)
Definition search_round (fuel : nat) (now : Z) (a : Address) (target : Z) (st : Api * Z * Z)
    : option (Api * Z * Z + Api * result BlockchainError Z) :=
  let '(api, low, high) := st in
  if bool_decide (low ≤ high) then
    let mid := low + (high - low) / 2 in
    '(api, count) ← get_transaction_count fuel api now a (Some (IdNumber (Number mid)));
    match count with
    | Err e => Some (inr (api, Err e))
    | Ok count =>
        if bool_decide (target < count) then Some (inl (api, low, mid - 1))
        else Some (inl (api, mid + 1, high))
    end
  else Some (inr (api, Ok low)).
Definition search_rounds (latest : Z) : nat := S (S (Z.to_nat (Z.log2_up (latest + 1)))).

(** The transaction among those of the block; one that the storage has
    dropped is passed over. *)
Fixpoint find_in_block api (a : Address) (target : Z) (txs : list RpcTransaction)
    : option (option RpcTransaction) :=
  match txs with
  | [] => Some None
  | rx :: txs =>
      if bool_decide (rx_from rx = a) && bool_decide (tx_nonce (rx_envelope rx) = target) then
        found ← mined_transaction_by_hash (api_backend api) (rx_hash rx);
        match found with
        | Some mined => Some (Some mined)
        | None => find_in_block api a target txs
        end
      else find_in_block api a target txs
  end.

Definition transaction_by_sender_and_nonce (fuel : nat) api (now : Z) (a : Address) (nonce : Z)
    : option (Api * result BlockchainError (option RpcTransaction)) :=
  ready ← ready_list fuel api;
  match list_find (λ tx, is_sent_with a nonce tx = true) (ready ++ waiting_list api) with
  | Some (_, tx) => rx ← pool_answer api (pending_transaction tx); Some (api, Ok (Some rx))
  | None =>
      '(api, highest) ← get_transaction_count fuel api now a None;
      match highest with
      | Err e => Some (api, Err e)
      | Ok highest =>
          let target := saturating_to_u64 nonce in
          let latest := bk_best_number (api_backend api) in
          if bool_decide (highest ≤ target) then Some (api, Ok None)
          else if bool_decide (latest = 0) then Some (api, Ok None)
          else
            '(api, low) ← loop (search_round fuel now a target) (search_rounds latest) (api, 1, latest);
            match low with
            | Err e => Some (api, Err e)
            | Ok low =>
                if bool_decide (low ≤ latest) then
                  txs ← mined_transactions_by_block_number (api_backend api) (Number low);
                  match txs with
                  | Some txs => found ← find_in_block api a target txs; Some (api, Ok found)
                  | None => Some (api, Ok None)
                  end
                else Some (api, Ok None)
            end
      end
  end.

(** ** Blocks *)
Definition api_pending_block (fuel : nat) api (now : Z) : option RpcBlock :=
  txs ← ready_list fuel api;
  '(info, _) ← pending_block (api_backend api) now txs;
  Some (convert_block (api_backend api) (mkBlock (bi_header info) (bi_body info))).
Definition block_by_number (fuel : nat) api (now : Z) (n : BlockNumberOrTag) : option (option RpcBlock) :=
  match n with
  | Pending => Some <$> api_pending_block fuel api now
  | _ => Some (mined_block_by_number (api_backend api) n)
  end.
Definition transactions_len (txs : BlockTransactions) : nat :=
  match txs with Full txs => length txs | Hashes hs => length hs end.
Definition block_transaction_count_by_hash api (h : B256) : option nat :=
  (λ rb, transactions_len (rb_transactions rb)) <$> mined_block_by_hash (api_backend api) h.
Definition block_transaction_count_by_number (fuel : nat) api (now : Z) (n : BlockNumberOrTag)
    : option (result BlockchainError (option nat)) :=
  req ← block_request fuel api (Some (IdNumber n));
  match req with
  | Err e => Some (Err e)
  | Ok (ReqPending txs) =>
      '(info, _) ← pending_block (api_backend api) now txs; Some (Ok (Some (length (bi_body info))))
  | Ok (ReqNumber _) =>
      Some (Ok ((λ rb, transactions_len (rb_transactions rb)) <$> mined_block_by_number (api_backend api) n))
  end.

(** ** Snapshots and rollbacks *)
Definition evm_snapshot api : Api * Z :=
  let '(b, id) := create_state_snapshot (api_backend api) in (set_backend api b, id).
Definition evm_revert api (now id : Z) : option (Api * result BlockchainError bool) :=
  on_backend api (revert_state_snapshot (api_backend api) now id).
Definition anvil_rollback api (now : Z) (depth : option Z) : option (Api * result BlockchainError unit) :=
  let b := api_backend api in
  match checked u64_max (bk_best_number b - default 1 depth) with
  | None => Some (api, Err RpcInvalidParams)
  | Some common_height =>
      match get_block b (IdNumber (Number common_height)) with
      | None => Some (api, Err BlockNotFound)
      | Some common => on_backend api (rollback b now common)
      end
  end.

(** ** Time *)
(** [evm_increaseTime]: the answer is cast to a signed integer. *)
Definition evm_increase_time api (seconds : Z) : Api * Z :=
  let b := api_backend api in
  let '(t, off) := increase_time (bk_time b) (saturating_to_u64 seconds) in
  (set_backend api (with_time b t), wrap_signed 64 off).
Definition evm_set_time api (now timestamp : Z) : option (Api * Z) :=
  let b := api_backend api in
  current ← current_call_timestamp (bk_time b) now;
  let offset := saturating_sub timestamp current in
  Some (set_backend api (with_time b (reset (bk_time b) now timestamp)), offset / 1000).
Definition evm_set_block_timestamp_interval api (seconds : Z) : Api :=
  let b := api_backend api in
  set_backend api (with_time b (set_block_timestamp_interval (bk_time b) seconds)).
Definition evm_remove_block_timestamp_interval api : Api * bool :=
  let b := api_backend api in
  let '(t, res) := remove_block_timestamp_interval (bk_time b) in
  (set_backend api (with_time b t), res).

(** ** Settings and accounts *)
Definition evm_set_block_gas_limit api (gas_limit : Z) : option (Api * bool) :=
  if bool_decide (gas_limit ≤ u64_max)
  then Some (set_backend api (set_gas_limit (api_backend api) gas_limit), true) else None.
Definition bk_is_eip1559 b : bool := bool_decide (SPEC_LONDON ≤ cfg_spec (cfg_env (bk_env b))).
Definition anvil_set_min_gas_price api (gas : Z) : option (Api * result BlockchainError unit) :=
  let b := api_backend api in
  if bk_is_eip1559 b then Some (api, Err RpcInvalidParams)
  else if bool_decide (gas ≤ u128_max)
  then Some (set_backend api (with_fees b (set_gas_price (bk_fees b) gas)), Ok tt) else None.
Definition anvil_set_next_block_base_fee_per_gas api (basefee : Z)
    : option (Api * result BlockchainError unit) :=
  let b := api_backend api in
  if negb (bk_is_eip1559 b) then Some (api, Err RpcInvalidParams)
  else if bool_decide (basefee ≤ u64_max)
  then Some (set_backend api (bk_set_base_fee b basefee), Ok tt) else None.
Definition anvil_set_coinbase api (a : Address) : Api :=
  set_backend api (set_coinbase (api_backend api) a).
Definition anvil_set_chain_id api (chain_id : Z) : Api :=
  let b := api_backend api in
  let c := cfg_env (bk_env b) in
  set_backend api (with_env b (mkEvmEnv (block_env (bk_env b))
    (mkCfgEnv chain_id (cfg_spec c) (disable_block_gas_limit c) (disable_base_fee c)
       (cfg_tx_gas_limit_cap c)))).

Definition write_db api (w : Db → Db * result DatabaseError unit) : Api * result BlockchainError unit :=
  let b := api_backend api in
  let '(d, res) := w (inner (bk_db b)) in
  (set_backend api (with_db b (mkMemDb d (db_snapshots (bk_db b)))),
   match res with Ok _ => Ok tt | Err e => Err (DatabaseErr e) end).
Definition anvil_set_nonce api (a : Address) (nonce : Z) : Api * result BlockchainError unit :=
  write_db api (λ d, db_set_nonce d a (saturating_to_u64 nonce)).
Definition anvil_set_balance api (a : Address) (balance : Z) : Api * result BlockchainError unit :=
  write_db api (λ d, db_set_balance d a balance).
Definition anvil_set_code api (a : Address) (bytes : Bytes) : Api * result BlockchainError unit :=
  write_db api (λ d, db_set_code d a bytes).
Definition anvil_set_storage_at api (a : Address) (slot val : Z) : Api * result BlockchainError bool :=
  let '(api, res) := write_db api (λ d, node_set_storage_at d a slot val) in
  (api, _ ← res; Ok true).
(** The balance of the latest block, plus the given amount in 256 bits. *)
Definition anvil_add_balance api (now : Z) (a : Address) (amount : Z)
    : option (Api * result BlockchainError unit) :=
  '(api, current) ← on_backend api (get_balance (api_backend api) now a None);
  Some (match current with
        | Err e => (api, Err e)
        | Ok current => anvil_set_balance api a (wrap_u256 (current + amount))
        end).
Definition anvil_impersonate_account api (a : Address) : Api :=
  set_backend api (bk_impersonate (api_backend api) a).1.
Definition anvil_stop_impersonating_account api (a : Address) : Api :=
  set_backend api (bk_stop_impersonating (api_backend api) a).
Definition anvil_auto_impersonate_account api (enabled : bool) : Api :=
  set_backend api (bk_auto_impersonate (api_backend api) enabled).
Definition anvil_impersonate_signature api (sig : Bytes) (a : Address) : Api :=
  let b := api_backend api in set_backend api (with_cheats b (add_recover_override (bk_cheats b) sig a)).
End api.
