(* ===== verification/EthApiProofs.v ===== *)
(** * The node behind its RPC handlers stays well formed

    Whatever clients call, the pool and the chain of the node stay well
    formed, its transactions stay those of the node, and a call returns,
    unless a clock runs out; [anvil_mine] mines the blocks that it is asked
    for. *)
From stdpp Require Import base list gmap.
From Stdlib Require Import ZArith Lia.
From S2P Require Import Prelude Containers PoolTx PendingQueue ReadyQueue ReadyInvariant ReadyProofs.
From S2P Require Import Pool PoolProofs PoolProps Miner PoolContent ReadyLinks.
From S2P Require Import Fees Time Snapshots StateDb BlockStates Blockchain Executor ExecutorProofs Backend.
From S2P Require Import SampleNode Validation Mining ChainInvariant MiningProofs Service ChainQueries.
From S2P Require Import QueriesProofs EthApi.
#[local] Open Scope list_scope.

Section api_proofs.
Context {Float BaseFeeParams BlobParams Snap : Type}.
Context `{!FeeRules Float BaseFeeParams BlobParams, !EvmTypes, !Evm, !BlockHashing, !NodeEnv BlobParams}.
Context `{!FullDatabase Db Snap, !HashOrder Address, !HashOrder TxMarker, !RpcTypes, !ApiEnv}.
Context `{!EvmLaws, !HashLaws, !NodeLaws BlobParams}.
#[local] Abbreviation Api := (EthApi Float BaseFeeParams BlobParams Snap).
#[local] Abbreviation NodeTx := (MaybeImpersonated Envelope) (only parsing).
Implicit Types (api : Api) (b : Backend Float BaseFeeParams BlobParams Snap).
Variable place : TxHash → Z * Address.

Record api_wf (g : Z) api : Prop := {
  aw_pool : pool_wf (api_pool api);
  aw_txs : pool_all node_tx_ok (api_pool api);
  aw_chained : pool_chained place (api_pool api);
  aw_node : node_wf g (api_backend api);
}.

(** [f] gives [y] with enough fuel. *)
Definition eventually {A} (f : nat → option A) (y : A) : Prop := ∃ n, ∀ fuel, (n ≤ fuel)%nat → f fuel = Some y.
Lemma eventually_pure {A} (y : A) (o : option A) : o = Some y → eventually (λ _, o) y.
Proof. intros Ho. by exists 0%nat. Qed.
Lemma eventually_bind {A B} (f : nat → option A) (k : A → nat → option B) x y :
  eventually f x → eventually (k x) y → eventually (λ fuel, a ← f fuel; k a fuel) y.
Proof.
  intros [n Hn] [m Hm]. exists (n `max` m)%nat. intros fuel Hf. rewrite Hn by lia. cbn. apply Hm. lia.
Qed.
(** The ready transactions can be collected, and are the node's. *)
Lemma ready_list_total g api : api_wf g api → ∃ txs, eventually (λ fuel, ready_list fuel api) txs ∧ txs_ok txs.
Proof.
  intros [Hp Ht Hc _]. pose proof (ready_iterator_chained place _ Hp Hc) as Hic.
  set (n := Z.to_nat (Z.max 0 (potential place (independent (ready_iterator (api_pool api))) + 1))).
  destruct (iter_collect_ends place n _ Hic) as (l & _ & Hl); [unfold n; lia|].
  exists l. split; [exists n; exact Hl|].
  eapply (iter_collect_all node_tx_ok); [by apply ready_iterator_all|by apply Hl].
Qed.

(** ** Mining *)
(** The clock gives a printable timestamp to each block of a request. *)
Fixpoint mining_clock (n : nat) (t : TimeManager) (interval : option Z) (clock : nat → Z) (i : nat) : bool :=
  match n with
  | O => true
  | S n =>
      let t := match interval with Some secs => (increase_time t secs).1 | None => t end in
      match next_timestamp t (clock i) with
      | Some (t, ts) => chrono_in_range (saturating_to_u64 ts) && mining_clock n t interval clock (S i)
      | None => false
      end
  end.

Lemma set_time_wf g api t : api_wf g api → api_wf g (set_backend api (with_time (api_backend api) t)).
Proof. intros [Hp Ht Hc [? ? ? ? ?]]. by split. Qed.

Lemma mine_one_total g api now time ts k :
  api_wf g api → id_room (api_pool api) k → bk_best_number (api_backend api) < u64_max →
  clock_ok (api_backend api) now time ts →
  ∃ api', eventually (λ fuel, mine_one fuel api now) api' ∧ api_wf g api' ∧ id_room (api_pool api') k ∧
    bk_best_number (api_backend api') = bk_best_number (api_backend api) + 1 ∧
    bk_time (api_backend api') = time ∧
    ∀ n, n ≤ bk_best_number (api_backend api) →
      hashes (bk_storage (api_backend api')) !! n = hashes (bk_storage (api_backend api)) !! n.
Proof.
  intros Hwf Hroom Hlt Hc. destruct (ready_list_total g api Hwf) as (txs & Hr & Htxs).
  destruct Hwf as [Hp Ht Hch Hn].
  destruct (mine_block_total g (api_backend api) now txs time ts Hn Htxs Hlt Hc) as (o & b' & Hm & Hmined).
  destruct (on_mined_block_total (api_pool api) o k Hp Hroom) as (p' & res & Hom & Hp' & Hroom').
  exists (mkEthApi p' b' (api_miner api) (api_transaction_order api)). split_and!; cbn; [| |done| | |].
  - eapply eventually_bind; [exact Hr|]. apply eventually_pure. rewrite Hm. cbn. by rewrite Hom.
  - split; cbn; [done|by eapply (on_mined_block_all node_tx_ok (api_pool api) o k)| |apply (m_wf _ _ _ _ _ _ _ Hmined)].
    destruct Hch as [Hpl Hl]. split; [by eapply (on_mined_block_all (placed place) (api_pool api) o k)|].
    by eapply (on_mined_block_linked place (api_pool api) o k).
  - apply (m_best _ _ _ _ _ _ _ Hmined).
  - apply (m_time _ _ _ _ _ _ _ Hmined).
  - apply (m_chain _ _ _ _ _ _ _ Hmined).
Qed.

Lemma mine_blocks_total g k interval clock n : ∀ api i,
  api_wf g api → id_room (api_pool api) k → bk_best_number (api_backend api) + Z.of_nat n ≤ u64_max →
  mining_clock n (bk_time (api_backend api)) interval clock i = true →
  ∃ api', eventually (λ fuel, mine_blocks n fuel api interval clock i) api' ∧ api_wf g api' ∧
    id_room (api_pool api') k ∧
    bk_best_number (api_backend api') = bk_best_number (api_backend api) + Z.of_nat n ∧
    ∀ m, m ≤ bk_best_number (api_backend api) →
      hashes (bk_storage (api_backend api')) !! m = hashes (bk_storage (api_backend api)) !! m.
Proof.
  induction n as [|n IH]; intros api i Hwf Hroom Hlt Hclock; cbn [mine_blocks mining_clock] in *.
  { exists api. split_and!; [by exists 0%nat|done..|lia|done]. }
  set (api1 := match interval with Some _ => _ | None => _ end).
  assert (api_wf g api1 ∧ api_pool api1 = api_pool api ∧ bk_storage (api_backend api1) = bk_storage (api_backend api) ∧
    bk_time (api_backend api1) = match interval with
      Some secs => (increase_time (bk_time (api_backend api)) secs).1 | None => bk_time (api_backend api) end)
    as (Hwf1 & Hp1 & Hs1 & Ht1).
  { unfold api1. destruct interval; [|done]. by split_and!; [apply set_time_wf|..]. }
  rewrite <- Ht1 in Hclock. destruct (next_timestamp (bk_time (api_backend api1)) (clock i)) as [[t ts]|] eqn:Hnt; [|done].
  apply andb_true_iff in Hclock as [Hchr Hclock].
  assert (bk_best_number (api_backend api1) = bk_best_number (api_backend api)) as Hb1.
  { unfold bk_best_number. by rewrite Hs1. }
  destruct (mine_one_total g api1 (clock i) t ts k Hwf1) as (api2 & Hm & Hwf2 & Hroom2 & Hb2 & Ht2 & Hh2);
    [by rewrite Hp1|lia|by split|].
  rewrite <- Ht2 in Hclock.
  destruct (IH api2 (S i) Hwf2 Hroom2 ltac:(lia) Hclock) as (api' & Hm' & Hwf' & Hroom' & Hb' & Hh').
  exists api'. split_and!; [|done|done|lia|].
  - by eapply eventually_bind.
  - intros m Hle. rewrite Hh' by lia. rewrite Hh2 by lia. by rewrite Hs1.
Qed.

(** C18: [anvil_mine] returns, with any number of ready transactions, and
    mines exactly as many blocks as it is asked for, one if it is not told, on
    top of the chain, whose blocks it keeps; the node stays well formed. The
    interval fits in 64 bits, the block numbers have room, and the clock gives
    every block a timestamp that neither overflows nor is too large to print.
    *)
Theorem anvil_mine_mines g api num interval clock :
  let blocks := default 1 num in
  api_wf g api → id_room (api_pool api) 0 → 0 ≤ blocks → bk_best_number (api_backend api) + blocks ≤ u64_max →
  (∀ i, interval = Some i → i ≤ u64_max) →
  mining_clock (Z.to_nat blocks) (bk_time (api_backend api)) interval clock 0 = true →
  ∃ api', eventually (λ fuel, anvil_mine fuel api num interval clock) (api', Ok tt) ∧ api_wf g api' ∧
    bk_best_number (api_backend api') = bk_best_number (api_backend api) + blocks ∧
    ∀ m, m ≤ bk_best_number (api_backend api) →
      hashes (bk_storage (api_backend api')) !! m = hashes (bk_storage (api_backend api)) !! m.
Proof.
  cbn zeta. intros Hwf Hroom Hblk Hlt Hi Hclock.
  destruct (mine_blocks_total g 0 interval clock (Z.to_nat (default 1 num)) api 0 Hwf Hroom ltac:(lia) Hclock)
    as (api' & Hm & Hwf' & _ & Hb & Hh).
  exists api'. split_and!; [|done|lia|done]. unfold anvil_mine.
  assert ((match interval with Some i => if bool_decide (i ≤ u64_max) then Some (Some i) else None
           | None => Some None end) = Some interval) as ->.
  { destruct interval as [i|]; [|done]. by rewrite bool_decide_true by (by apply Hi). }
  cbn [mbind option_bind]. pose proof (nw_genesis _ _ (aw_node _ _ Hwf)).
  case_bool_decide as Hz.
  - destruct Hm as [n Hn]. specialize (Hn n ltac:(lia)). rewrite Hz in Hn. cbn in Hn. injection Hn as <-.
    by exists 0%nat.
  - rewrite bool_decide_false.
    + eapply eventually_bind; [exact Hm|]. by exists 0%nat.
    + pose proof (cw_range _ _ (nw_chain _ _ (aw_node _ _ Hwf)) _ _ (cw_best _ _ (nw_chain _ _ (aw_node _ _ Hwf)))).
      unfold bk_best_number in *. lia.
Qed.

(** ** Any sequence of calls *)
Inductive ApiCall :=
| ASendRaw (now : Z) (data : list Z)
| AMine (num interval : option Z) (clock : nat → Z)
| AEvmMine (opts : option MineOptions) (clock : nat → Z)
| ADrop (h : TxHash)
| ADropAll
| ARemoveSender (a : Address)
| ASetAutoMine (enable : bool)
| AIncreaseTime (seconds : Z)
| ASetNextTimestamp (seconds : Z)
| ASetTimestampInterval (seconds : Z)
| ARemoveTimestampInterval
| ASetNonce (a : Address) (nonce : Z)
| ASetBalance (a : Address) (balance : Z)
| ASetCode (a : Address) (bytes : list Z)
| ASetStorageAt (a : Address) (slot val : Z)
| ASetCoinbase (a : Address)
| ASetChainId (id : Z)
| ASetGasLimit (gas : Z)
| ASetMinGasPrice (gas : Z)
| ASetNextBaseFee (fee : Z)
| AImpersonate (a : Address)
| AStopImpersonating (a : Address)
| AAutoImpersonate (enabled : bool)
| AImpersonateSignature (sig : list Z) (a : Address).

Definition api_call (fuel : nat) api (c : ApiCall) : option Api :=
  match c with
  | ASendRaw now data => fst <$> send_raw_transaction api now data
  | AMine num interval clock => fst <$> anvil_mine fuel api num interval clock
  | AEvmMine opts clock => fst <$> do_evm_mine fuel api opts clock
  | ADrop h => fst <$> anvil_drop_transaction api h
  | ADropAll => Some (anvil_drop_all_transactions api)
  | ARemoveSender a => anvil_remove_pool_transactions fuel api a
  | ASetAutoMine enable => Some (anvil_set_auto_mine api enable)
  | AIncreaseTime s => Some (evm_increase_time api s).1
  | ASetNextTimestamp s => Some (evm_set_next_block_timestamp api s).1
  | ASetTimestampInterval s => Some (evm_set_block_timestamp_interval api s)
  | ARemoveTimestampInterval => Some (evm_remove_block_timestamp_interval api).1
  | ASetNonce a n => Some (anvil_set_nonce api a n).1
  | ASetBalance a n => Some (anvil_set_balance api a n).1
  | ASetCode a bytes => Some (anvil_set_code api a bytes).1
  | ASetStorageAt a slot val => Some (anvil_set_storage_at api a slot val).1
  | ASetCoinbase a => Some (anvil_set_coinbase api a)
  | ASetChainId id => Some (anvil_set_chain_id api id)
  | ASetGasLimit gas => fst <$> evm_set_block_gas_limit api gas
  | ASetMinGasPrice gas => fst <$> anvil_set_min_gas_price api gas
  | ASetNextBaseFee fee => fst <$> anvil_set_next_block_base_fee_per_gas api fee
  | AImpersonate a => Some (anvil_impersonate_account api a)
  | AStopImpersonating a => Some (anvil_stop_impersonating_account api a)
  | AAutoImpersonate enabled => Some (anvil_auto_impersonate_account api enabled)
  | AImpersonateSignature sig a => Some (anvil_impersonate_signature api sig a)
  end.

(** The blocks that a call may mine. *)
Definition blocks_of (c : ApiCall) : Z :=
  match c with
  | AMine num _ _ => default 1 num
  | AEvmMine (Some (Options _ blocks)) _ => default 1 blocks
  | AEvmMine _ _ => 1
  | _ => 0
  end.

(** Arguments of the right width, and no Tempo transactions, which the node
    does not support; [place] knows the transactions that are sent. *)
Definition raw_ok (data : list Z) : Prop :=
  ∀ e s, decode_2718 data = Some e → tx_kind e ≠ Tempo ∧
    (tx_recover e = Some s → place (tx_hash e) = (tx_nonce e, s) ∧ in_u64 (tx_nonce e) ∧ is_address s).
Definition call_ok (c : ApiCall) : Prop :=
  match c with
  | ASendRaw _ data => raw_ok data
  | AMine _ (Some i) _ => i ≤ u64_max
  | ASetGasLimit gas => in_u64 gas
  | ASetMinGasPrice gas => gas ≤ u128_max
  | ASetNextBaseFee fee => fee ≤ u64_max
  | _ => True
  end ∧ 0 ≤ blocks_of c.

(** The clock serves the call: timestamps neither overflow nor become too
    large to print. *)
Definition call_runs api (c : ApiCall) : bool :=
  let t := bk_time (api_backend api) in
  match c with
  | ASendRaw now _ => bool_decide (is_Some (current_call_timestamp t now))
  | AMine num interval clock => mining_clock (Z.to_nat (default 1 num)) t interval clock 0
  | AEvmMine opts clock =>
      let ts := match opts with Some (OptTimestamp ts) | Some (Options ts _) => ts | None => None end in
      match (match ts with Some ts => set_next_block_timestamp t ts | None => (t, Ok tt) end) with
      | (t, Ok _) => mining_clock (Z.to_nat (blocks_of c)) t None clock 0
      | (_, Err _) => true
      end
  | _ => true
  end.

(** Nonces are 64 bits wide. *)
Class ApiLaws : Prop := {
  nonce_u64 (d : Db) (a : Address) acc : (db_basic d a).2 = Ok acc → in_u64 (ai_nonce (default account_default acc));
}.
Context `{!ApiLaws}.

Record kept_well (g : Z) (k : nat) api (blocks : Z) api' : Prop := {
  kw_wf : api_wf g api';
  kw_room : id_room (api_pool api') k;
  kw_best : bk_best_number (api_backend api') ≤ bk_best_number (api_backend api) + blocks;
}.

(** A handler that only touches the backend outside of the chain. *)
Lemma backend_kept g k api b :
  api_wf g api → id_room (api_pool api) k → bk_storage b = bk_storage (api_backend api) →
  bk_states b = bk_states (api_backend api) → 0 ≤ be_gas_limit (block_env (bk_env b)) →
  kept_well g k api 0 (set_backend api b).
Proof.
  intros [Hp Ht Hc [Hg Hch Hst Hgl Hhd]] Hroom Hs Hss Hgas. split; cbn; [|done|].
  - split; [done..|]. split; cbn; [done|by rewrite Hs|by rewrite Hss|done|by rewrite Hs].
  - unfold bk_best_number. rewrite Hs. lia.
Qed.
Lemma pool_kept g k api c p :
  api_wf g api → call_wf c → call_placed place c → id_room (api_pool api) (S k) →
  (∀ tx now, c = PAdd tx now → node_tx_ok tx) → pool_call (api_pool api) c = Some p →
  ∀ m, kept_well g k api 0 (mkEthApi p (api_backend api) m (api_transaction_order api)).
Proof.
  intros [Hp Ht Hch Hn] Hc Hpl Hroom Hok Hcall m.
  destruct (pool_call_total (api_pool api) c k Hp Hc Hroom) as (p' & Hcall' & Hp' & Hroom').
  rewrite Hcall in Hcall'. injection Hcall' as <-.
  split; cbn; [|done|lia]. split; cbn; [done| |by eapply (pool_call_chained place (api_pool api) c k)|done].
  assert (id_room (api_pool api) k) as Hrk by (unfold id_room in *; lia).
  destruct c as [tx now|ms|o|hs|h|]; cbn [pool_call] in Hcall; try apply fmap_Some in Hcall as ([q res] & Hcall & ->).
  - eapply (add_transaction_all node_tx_ok (api_pool api) tx now k); [done..|by eapply Hok|done].
  - by eapply (prune_markers_all node_tx_ok (api_pool api) ms k).
  - by eapply (on_mined_block_all node_tx_ok (api_pool api) o k).
  - by eapply (remove_invalid_all node_tx_ok (api_pool api) hs k).
  - by eapply (drop_transaction_all node_tx_ok (api_pool api) h).
  - injection Hcall as <-. split; intros; by simplify_map_eq.
Qed.

Lemma unchanged_kept g k api blocks :
  api_wf g api → id_room (api_pool api) (S k) → 0 ≤ blocks → kept_well g k api blocks api.
Proof. intros Hwf Hroom Hb. split; [done|unfold id_room in *; lia|lia]. Qed.

(** [eth_sendRawTransaction]. *)
Lemma send_raw_total g k api now data :
  api_wf g api → id_room (api_pool api) (S k) → raw_ok data →
  is_Some (current_call_timestamp (bk_time (api_backend api)) now) →
  ∃ api' res, send_raw_transaction api now data = Some (api', res) ∧ kept_well g k api 0 api'.
Proof.
  intros Hwf Hroom Hraw [ts Hts]. unfold send_raw_transaction.
  pose proof (unchanged_kept g k api 0 Hwf Hroom ltac:(lia)) as Hsame.
  case_bool_decide; [by do 2 eexists|]. destruct (decode_2718 data) as [e|] eqn:Hd; [|by do 2 eexists].
  destruct (ensure_typed_transaction_supported (api_backend api) e) as [sup|] eqn:Hs.
  2: { unfold ensure_typed_transaction_supported in Hs. by destruct (tx_kind e) eqn:Hk; [..|destruct (Hraw e 0 Hd)]. }
  cbn [mbind option_bind]. destruct sup; [|by do 2 eexists].
  unfold pending_new. destruct (tx_recover e) as [s|] eqn:Hrec; [|by do 2 eexists]. cbn [mbind option_bind].
  set (t := mkPendingTransaction _ _ _).
  assert (∃ v, validate_pool_transaction (api_backend api) t now = Some v) as [valid Hv].
  { unfold validate_pool_transaction. destruct (_.2); [|by eexists]. unfold next_env. rewrite Hts.
    cbn [mbind option_bind]. by eexists. }
  rewrite Hv. cbn [mbind option_bind].
  destruct (_ ← valid; current_nonce (api_backend api) (sender t)) as [on_chain|err] eqn:Hn; [|by do 2 eexists].
  destruct valid; [|done]. cbn [mbind result_bind] in Hn. unfold current_nonce, account_of in Hn.
  destruct ((db_basic (inner (bk_db (api_backend api))) (sender t)).2) as [acc|] eqn:Hacc; [|done].
  cbn [mbind result_bind] in Hn. injection Hn as Hn. pose proof (nonce_u64 _ _ _ Hacc) as Hon. rewrite Hn in Hon.
  destruct (Hraw e s Hd) as (Hk & Hpl). destruct (Hpl Hrec) as (Hplace & Hnu & Hsa).
  set (order := api_transaction_order api).
  change (mkPoolTransaction t (required_marker (tx_nonce (envelope (transaction t))) on_chain (sender t))
    [to_marker (tx_nonce (envelope (transaction t))) (sender t)] (transaction_priority api (transaction t)))
    with (node_transaction order t (tx_nonce e) on_chain).
  set (ptx := node_transaction order t (tx_nonce e) on_chain).
  assert (node_call place (PAdd ptx now)) as Hcall by (by exists order, t, (tx_nonce e), on_chain).
  destruct (add_transaction_total (api_pool api) ptx now k (aw_pool _ _ Hwf) (node_call_wf place _ Hcall) Hroom)
    as (p' & res & Ha & _).
  unfold pool_add. rewrite Ha. cbn [mbind option_bind]. do 2 eexists. split; [reflexivity|].
  apply (pool_kept g k api (PAdd ptx now)); [done|exact (node_call_wf place _ Hcall)|exact (node_call_placed place _ Hcall)|done| |].
  - intros tx now' [= <- <-]. split; [exact Hk|]. unfold Executor.pending_wf, maybe_recover. cbn. by rewrite Hrec.
  - cbn [pool_call]. by rewrite Ha.
Qed.

Lemma api_fields api : mkEthApi (api_pool api) (api_backend api) (api_miner api) (api_transaction_order api) = api.
Proof. by destruct api. Qed.
Lemma miner_kept g k api m :
  api_wf g api → id_room (api_pool api) (S k) → kept_well g k api 0 (set_miner api m).
Proof.
  intros [? ? ? ?] Hroom. split; cbn; [by split|unfold id_room in *; lia|lia].
Qed.

Lemma write_kept g k api w :
  api_wf g api → id_room (api_pool api) (S k) → kept_well g k api 0 (write_db api w).1.
Proof.
  intros Hwf Hroom. unfold write_db. destruct (w _) as [d res]. cbn [fst].
  apply backend_kept; [done|unfold id_room in *; lia|done|done|apply Hwf].
Qed.

Lemma mining_kept g k api n interval clock :
  api_wf g api → id_room (api_pool api) (S k) → bk_best_number (api_backend api) + Z.of_nat n ≤ u64_max →
  mining_clock n (bk_time (api_backend api)) interval clock 0 = true →
  ∃ api', eventually (λ fuel, mine_blocks n fuel api interval clock 0) api' ∧
    kept_well g k api (Z.of_nat n) api'.
Proof.
  intros Hwf Hroom Hlt Hclock.
  destruct (mine_blocks_total g k interval clock n api 0 Hwf) as (api' & Hm & Hwf' & Hroom' & Hb & _);
    [unfold id_room in *; lia|done..|].
  exists api'. split; [done|]. split; [done|done|lia].
Qed.

Lemma eventually_fmap {A B} (h : A → B) f x : eventually f x → eventually (λ n, h <$> f n) (h x).
Proof. intros [n Hn]. exists n. intros fuel Hf. by rewrite (Hn fuel Hf). Qed.

Lemma anvil_mine_kept g k api num interval clock :
  api_wf g api → id_room (api_pool api) (S k) → 0 ≤ default 1 num →
  match interval with Some i => i ≤ u64_max | None => True end →
  bk_best_number (api_backend api) + default 1 num ≤ u64_max →
  mining_clock (Z.to_nat (default 1 num)) (bk_time (api_backend api)) interval clock 0 = true →
  ∃ api', eventually (λ fuel, fst <$> anvil_mine fuel api num interval clock) api' ∧
    kept_well g k api (default 1 num) api'.
Proof.
  intros Hwf Hroom Hnb Hok Hlt Hruns.
  unfold anvil_mine.
  assert ((match interval with Some i => if bool_decide (i ≤ u64_max) then Some (Some i) else None
           | None => Some None end) = Some interval) as ->.
  { destruct interval as [i|]; [|done]. by rewrite bool_decide_true. }
  cbn [mbind option_bind]. case_bool_decide.
  { exists api. split; [by exists 0%nat|by apply unchanged_kept]. }
  case_bool_decide; [exists api; split; [by exists 0%nat|by apply unchanged_kept]|].
  destruct (mining_kept g k api (Z.to_nat (default 1 num)) interval clock Hwf Hroom ltac:(lia) Hruns) as (api' & Hm & Hkept).
  exists api'. rewrite Z2Nat.id in Hkept by done. split; [|done].
  apply (eventually_fmap fst _ (api', Ok tt)). eapply eventually_bind; [exact Hm|by exists 0%nat].
Qed.

Lemma evm_mine_kept g k api opts clock :
  api_wf g api → id_room (api_pool api) (S k) → id_room (api_pool api) k → 0 ≤ blocks_of (AEvmMine opts clock) →
  bk_best_number (api_backend api) + blocks_of (AEvmMine opts clock) ≤ u64_max →
  call_runs api (AEvmMine opts clock) = true →
  ∃ api', eventually (λ fuel, fst <$> do_evm_mine fuel api opts clock) api' ∧
    kept_well g k api (blocks_of (AEvmMine opts clock)) api'.
Proof.
  intros Hwf Hroom Hrk Hnb Hlt.
  cbn [call_runs]. intros Hruns. unfold do_evm_mine. set (sel := match opts with None => _ | Some _ => _ end).
  assert (sel = (match opts with Some (OptTimestamp ts) | Some (Options ts _) => ts | None => None end,
                 blocks_of (AEvmMine opts clock))) as -> by (by destruct opts as [[]|]).
  set (ts := match opts with Some (OptTimestamp ts) | Some (Options ts _) => ts | None => None end) in *.
  change (match opts with Some (Options _ blocks) => default 1 blocks | _ => 1 end)
    with (blocks_of (AEvmMine opts clock)) in *.
  set (n := blocks_of (AEvmMine opts clock)) in *. cbv beta iota zeta.
  set (st := match ts with Some ts => evm_set_next_block_timestamp api ts | None => (api, Ok tt) end).
  assert (∃ t res, st = (set_backend api (with_time (api_backend api) t), res) ∧
    (res = Ok tt → mining_clock (Z.to_nat n) t None clock 0 = true)) as (t & res & -> & Hc).
  { unfold st. destruct ts as [ts|]; [|exists (bk_time (api_backend api)), (Ok tt); split; [|done]; by destruct api as [? [] ? ?]].
    unfold evm_set_next_block_timestamp. destruct (set_next_block_timestamp _ ts) as [t res] eqn:Hset.
    exists t, (match res with Ok _ => Ok tt | Err e => Err (TimestampErr e) end). split; [done|]. by destruct res. }
  cbv beta iota zeta. set (api1 := set_backend api _). assert (api_wf g api1) as Hwf1 by (by apply set_time_wf).
  assert (bk_best_number (api_backend api1) = bk_best_number (api_backend api)) as Hb1 by done.
  destruct res as [[]|e].
  - destruct (mining_kept g k api1 (Z.to_nat n) None clock Hwf1 Hroom ltac:(lia) (Hc eq_refl)) as (api' & Hm & [Hw Hr Hb]).
    exists api'. split; [|split; [done|done|lia]].
    apply (eventually_fmap fst _ (api', Ok n)). eapply eventually_bind; [exact Hm|by exists 0%nat].
  - exists api1. split; [by exists 0%nat|]. split; [done|done|lia].
Qed.

Lemma api_call_total g k api c :
  api_wf g api → call_ok c → id_room (api_pool api) (S k) →
  bk_best_number (api_backend api) + blocks_of c ≤ u64_max → call_runs api c = true →
  ∃ api', eventually (λ fuel, api_call fuel api c) api' ∧ kept_well g k api (blocks_of c) api'.
Proof.
  intros Hwf [Hok Hnb] Hroom Hlt Hruns. assert (id_room (api_pool api) k) as Hrk by (unfold id_room in *; lia).
  pose proof (nw_gas_limit _ _ (aw_node _ _ Hwf)) as Hgl.
  assert (Hbk : ∀ b, bk_storage b = bk_storage (api_backend api) → bk_states b = bk_states (api_backend api) →
    0 ≤ be_gas_limit (block_env (bk_env b)) → kept_well g k api 0 (set_backend api b)).
  { intros b. by apply backend_kept. }
  destruct c; cbn [api_call blocks_of] in *.
  - apply bool_decide_eq_true in Hruns. destruct (send_raw_total g k api now data Hwf Hroom Hok Hruns) as (api' & res & -> & Hk).
    exists api'. split; [by exists 0%nat|done].
  - by apply anvil_mine_kept.
  - by apply evm_mine_kept.
  - unfold anvil_drop_transaction.
    destruct (drop_transaction_total (api_pool api) h k (aw_pool _ _ Hwf) Hrk) as (p & res & Hd & _).
    rewrite Hd. cbn. eexists. split; [by exists 0%nat|].
    apply (pool_kept g k api (PDrop h)); [done..|cbn [pool_call]; by rewrite Hd].
  - eexists. split; [by exists 0%nat|]. by apply (pool_kept g k api PClear).
  - unfold anvil_remove_pool_transactions. destruct (ready_list_total g api Hwf) as (txs & Hr & _).
    set (hs := λ ready : list (PoolTransaction NodeTx), hash <$> (of_sender a (waiting_list api) ++ of_sender a ready)).
    destruct (remove_invalid_total (api_pool api) (hs txs) k (aw_pool _ _ Hwf) Hrk) as (p & res & Hi & _).
    exists (set_pool api p). split.
    + eapply eventually_bind; [exact Hr|]. exists 0%nat. intros fuel _. cbn zeta. unfold hs in Hi. by rewrite Hi.
    + apply (pool_kept g k api (PRemoveInvalid (hs txs))); [done..|cbn [pool_call]; by rewrite Hi].
  - unfold anvil_set_auto_mine. eexists. split; [by exists 0%nat|].
    destruct (is_auto_mine _), enable; first [by apply miner_kept|by apply unchanged_kept].
  - eexists. split; [by exists 0%nat|]. unfold evm_increase_time. destruct (increase_time _ _). by apply Hbk.
  - eexists. split; [by exists 0%nat|]. unfold evm_set_next_block_timestamp.
    destruct (set_next_block_timestamp _ _). by apply Hbk.
  - eexists. split; [by exists 0%nat|]. by apply Hbk.
  - eexists. split; [by exists 0%nat|]. unfold evm_remove_block_timestamp_interval.
    destruct (remove_block_timestamp_interval _). by apply Hbk.
  - eexists. split; [by exists 0%nat|]. by apply write_kept.
  - eexists. split; [by exists 0%nat|]. by apply write_kept.
  - eexists. split; [by exists 0%nat|]. by apply write_kept.
  - eexists. split; [by exists 0%nat|]. unfold anvil_set_storage_at.
    pose proof (write_kept g k api (λ d, node_set_storage_at d a slot val) Hwf Hroom).
    by destruct (write_db _ _).
  - eexists. split; [by exists 0%nat|]. by apply Hbk.
  - eexists. split; [by exists 0%nat|]. by apply Hbk.
  - unfold evm_set_block_gas_limit. unfold in_u64 in Hok. rewrite bool_decide_true by lia.
    eexists. split; [by exists 0%nat|]. apply Hbk; [done..|cbn; lia].
  - unfold anvil_set_min_gas_price. destruct (bk_is_eip1559 _); [exists api; split; [by exists 0%nat|by apply unchanged_kept]|].
    rewrite bool_decide_true by done. eexists. split; [by exists 0%nat|]. by apply Hbk.
  - unfold anvil_set_next_block_base_fee_per_gas.
    destruct (negb _); [exists api; split; [by exists 0%nat|by apply unchanged_kept]|].
    rewrite bool_decide_true by done. eexists. split; [by exists 0%nat|]. by apply Hbk.
  - eexists. split; [by exists 0%nat|]. by apply Hbk.
  - eexists. split; [by exists 0%nat|]. by apply Hbk.
  - eexists. split; [by exists 0%nat|]. by apply Hbk.
  - eexists. split; [by exists 0%nat|]. by apply Hbk.
Qed.

Definition total_blocks (cs : list ApiCall) : Z := foldr (λ c n, blocks_of c + n) 0 cs.

(** All calls return, or all calls before one that the clock does not serve. *)
Definition served (g : Z) api (cs : list ApiCall) : Prop :=
  (∃ api', eventually (λ fuel, fold_m (api_call fuel) api cs) api' ∧ api_wf g api' ∧
     bk_best_number (api_backend api') ≤ bk_best_number (api_backend api) + total_blocks cs) ∨
  ∃ cs1 c cs2 api1, cs = cs1 ++ c :: cs2 ∧ eventually (λ fuel, fold_m (api_call fuel) api cs1) api1 ∧
    api_wf g api1 ∧ call_runs api1 c = false.

Lemma total_blocks_nonneg cs : Forall call_ok cs → 0 ≤ total_blocks cs.
Proof. induction 1 as [|c cs [_ Hc] _ IH]; cbn; [lia|]. unfold total_blocks in IH. lia. Qed.

(** C6: whatever the clients of a well-formed node send, mine, drop or set, in
    any order, each call returns, whether it succeeds or fails, and leaves the
    node well formed: the pool's queues are consistent and hold the node's
    transactions, linked from nonce to nonce, and the chain is unbroken. The
    exception is a call that the clock does not serve, because a timestamp
    overflows or is too large to print, which panics. The calls are those
    whose 256-bit arguments fit the width that the handler converts them to
    (intervals, gas limits and fees; the conversion of a larger one panics)
    and whose raw transactions are not Tempo transactions (which the handler
    leaves to do), have hashes that tell their senders and nonces, and nonces
    of 64 bits; and the pool's identifiers and the block numbers have room for
    them. *)
Theorem api_calls_safe g cs : ∀ api,
  api_wf g api → Forall call_ok cs → id_room (api_pool api) (length cs) →
  bk_best_number (api_backend api) + total_blocks cs ≤ u64_max → served g api cs.
Proof.
  induction cs as [|c cs IH]; intros api Hwf Hok Hroom Hlt.
  { left. exists api. split_and!; [by exists 0%nat|done|cbn; lia]. }
  apply Forall_cons in Hok as [Hc Hok]. cbn [length total_blocks foldr] in *.
  change (foldr (λ c n, blocks_of c + n) 0 cs) with (total_blocks cs) in *.
  pose proof (total_blocks_nonneg cs Hok) as Hnn.
  destruct (call_runs api c) eqn:Hruns.
  2: { right. exists [], c, cs, api. split_and!; [done|by exists 0%nat|done|done]. }
  destruct (api_call_total g (length cs) api c Hwf Hc Hroom ltac:(lia) Hruns) as (api1 & Hcall & [Hwf1 Hroom1 Hb1]).
  destruct (IH api1 Hwf1 Hok Hroom1 ltac:(lia)) as [(api' & Hf & Hwf' & Hb')|(cs1 & c' & cs2 & api2 & -> & Hf & Hwf2 & Hr2)].
  - left. exists api'. split_and!; [by eapply eventually_bind|done|].
    change (total_blocks (c :: cs)) with (blocks_of c + total_blocks cs). lia.
  - right. exists (c :: cs1), c', cs2, api2. split_and!; [done|by eapply eventually_bind|done|done].
Qed.
End api_proofs.

(** ** The small node behind its handlers *)
#[export] Instance small_marker_order : HashOrder TxMarker := elements_order TxMarker.
(** A raw transaction is its nonce and its gas limit. *)
#[export] Instance small_api_env : ApiEnv := {|
  decode_2718 l := match l with [nonce; gas] => Some (nonce, gas) | _ => None end;
  BERLIN := 11; CODE_HASH_EMPTY := 0; bytecode_new_raw _ := tt;
|}.
#[export] Instance small_api_laws : ApiLaws.
Proof.
  split. intros d a acc [= <-]. destruct (lookup a (d : gmap Z (AccountInfo unit))) as [i|]; [|done].
  apply wrap_u64_range.
Qed.

Definition small_place (h : TxHash) : Z * Address := (h / 1000, 1).
Definition small_api : EthApi unit unit unit (gmap Z (AccountInfo unit)) :=
  mkEthApi pool_default small_backend (miner_new (instant 1000 [])) Fees.
Lemma small_api_wf : api_wf small_place 0 small_api.
Proof.
  split; [apply pool_default_wf|apply pool_default_all| |apply small_backend_wf].
  split; [apply pool_default_all|]. intros h r u Hr. cbn in Hr. by rewrite lookup_empty in Hr.
Qed.

(** The later nonce comes first and waits; both are mined in two blocks. *)
Definition sample_api_calls : list ApiCall :=
  [ASendRaw 1001 [1; 21000]; ASendRaw 1002 [0; 21000]; AMine (Some 2) (Some 5) (λ i, 1003 + Z.of_nat i);
   ADropAll; AEvmMine (Some (OptTimestamp (Some 5000))) (λ _, 1010)].

Lemma anvil_mine_mines_witness :
  ∃ api', eventually (λ fuel, anvil_mine fuel small_api (Some 2) (Some 5) (λ i, 1003 + Z.of_nat i)) (api', Ok tt) ∧
    bk_best_number (api_backend api') = 2.
Proof.
  destruct (anvil_mine_mines small_place 0 small_api (Some 2) (Some 5) (λ i, 1003 + Z.of_nat i))
    as (api' & Hm & _ & Hb & _).
  - apply small_api_wf.
  - by vm_compute.
  - done.
  - by vm_compute.
  - by intros i [= <-].
  - by vm_compute.
  - exists api'. split; [exact Hm|exact Hb].
Defined.

Lemma api_calls_safe_witness :
  (bk_best_number ∘ api_backend) <$> fold_m (api_call 10) small_api sample_api_calls = Some 3 ∧
  served small_place 0 small_api sample_api_calls.
Proof.
  split; [vm_compute; reflexivity|]. apply (api_calls_safe small_place 0 sample_api_calls small_api).
  - apply small_api_wf.
  - assert (∀ n gas, n = 0 ∨ n = 1 → raw_ok small_place [n; gas]) as Hraw.
    { intros n gas Hn e s [= <-]. split; [done|]. intros [= <-]. destruct Hn as [-> | ->]; by vm_compute. }
    unfold sample_api_calls. rewrite !Forall_cons. unfold call_ok. cbn.
    split_and!; try done; try apply Forall_nil; apply Hraw; auto.
  - by vm_compute.
  - by vm_compute.
Defined.
