(* ===== verification/SenderSearch.v ===== *)
(** * Finding the transaction of a sender with a nonce

    [transaction_by_sender_and_nonce] (anvil/src/eth/api.rs) looks through
    the pool, then searches the chain for the first block after which the
    sender's nonce is above the one asked for.  Nonces do not fall along the
    chain and past states are in memory. *)
From stdpp Require Import base list gmap.
From Stdlib Require Import ZArith Lia.
From S2P Require Import Prelude Containers PoolTx PendingQueue ReadyQueue ReadyInvariant ReadyProofs.
From S2P Require Import Pool PoolProofs PoolProps Miner PoolContent ReadyLinks.
From S2P Require Import Fees Time Snapshots StateDb BlockStates Blockchain Executor ExecutorProofs Backend.
From S2P Require Import SampleNode Validation Mining ChainInvariant MiningProofs Service ChainQueries.
From S2P Require Import QueriesProofs EthApi EthApiProofs.
#[local] Open Scope list_scope.
#[local] Abbreviation B256 := Z (only parsing).

Section search.
Context {Float BaseFeeParams BlobParams Snap : Type}.
Context `{!FeeRules Float BaseFeeParams BlobParams, !EvmTypes, !Evm, !BlockHashing, !NodeEnv BlobParams}.
Context `{!FullDatabase Db Snap, !HashOrder Address, !HashOrder TxMarker, !RpcTypes, !ApiEnv}.
#[local] Abbreviation Api := (EthApi Float BaseFeeParams BlobParams Snap).
#[local] Abbreviation NodeTx := (MaybeImpersonated Envelope) (only parsing).
Implicit Types (api : Api) (b : Backend Float BaseFeeParams BlobParams Snap) (rx : RpcTransaction).
Implicit Types (block : Block Header (MaybeImpersonated Envelope)).

#[local] Abbreviation latest api := (bk_best_number (api_backend api)).

(** The sender's nonce [count n] after each block [n] of the chain. *)
Record history api (a : Address) (count : Z → Z) : Prop := {
  hi_height : saturating_to_u64 (be_number (block_env (bk_env (api_backend api)))) = latest api;
  hi_past n : 1 ≤ n < latest api → ∃ block h d acc,
    get_block_with_hash (api_backend api) (IdNumber (Number n)) = Some (block, h) ∧
    get_state (bk_states (api_backend api)) h = Some d ∧ account_of d a = Ok acc ∧ ai_nonce acc = count n;
  hi_now : current_nonce (api_backend api) a = Ok (count (latest api));
  hi_mono m n : 1 ≤ m ≤ n → n ≤ latest api → count m ≤ count n;
  hi_block n : 1 ≤ n ≤ latest api → ∃ h block, hashes (bk_storage (api_backend api)) !! n = Some h ∧
    blocks (bk_storage (api_backend api)) !! h = Some block ∧ block_indexed (api_backend api) h block ∧
    header_hash (header block) = h ∧ ∀ t, t ∈ body_transactions block → tx_kind (envelope t) ≠ Tempo;
}.

Lemma set_backend_same api : set_backend api (api_backend api) = api.
Proof. by destruct api. Qed.

Lemma count_at_number api now a count n : history api a count → 1 ≤ n ≤ latest api ∨ n = latest api →
  on_backend api (get_nonce (api_backend api) now a (ReqNumber n)) = Some (api, Ok (count n)).
Proof.
  intros Hh Hn. unfold get_nonce, with_database_at.
  change (convert_block_number _ (Some (Number n))) with n. rewrite (hi_height _ _ _ Hh).
  case_bool_decide as Hlt.
  - destruct (hi_past _ _ _ Hh n) as (block & h & d & acc & Hb & Hs & Ha & Hc); [lia|].
    rewrite Hb, Hs. cbn. rewrite Ha. cbn. by rewrite Hc, set_backend_same.
  - assert (n = latest api) as -> by lia. pose proof (hi_now _ _ _ Hh) as Hc. unfold current_nonce in Hc.
    cbn in *. destruct (account_of _ a) as [acc|]; [|done]. cbn in *. injection Hc as Hc. by rewrite Hc, set_backend_same.
Qed.

Lemma ensure_number b n : n ≤ bk_best_number b → ensure_block_number b (Some (IdNumber (Number n))) = Ok n.
Proof. intros Hn. unfold ensure_block_number. cbn. by rewrite bool_decide_false by lia. Qed.
Lemma ensure_latest b : ensure_block_number b None = Ok (bk_best_number b).
Proof. unfold ensure_block_number. cbn. by rewrite bool_decide_false by lia. Qed.

Lemma count_at fuel api now a count n : history api a count → 1 ≤ n ≤ latest api →
  get_transaction_count fuel api now a (Some (IdNumber (Number n))) = Some (api, Ok (count n)).
Proof.
  intros Hh Hn. unfold get_transaction_count, block_request. rewrite ensure_number by lia.
  cbn [mbind result_bind option_bind]. by apply count_at_number; [|left].
Qed.
Lemma count_latest fuel api now a count : history api a count →
  get_transaction_count fuel api now a None = Some (api, Ok (count (latest api))).
Proof.
  intros Hh. unfold get_transaction_count, block_request. rewrite ensure_latest.
  cbn [mbind result_bind option_bind]. by apply count_at_number; [|right].
Qed.

(** Checks of a history on a concrete chain. *)
Definition past_ok api (a : Address) (count : Z → Z) (n : Z) : bool :=
  match get_block_with_hash (api_backend api) (IdNumber (Number n)) with
  | Some (_, h) =>
      match get_state (bk_states (api_backend api)) h with
      | Some d => match account_of d a with Ok acc => ai_nonce acc =? count n | Err _ => false end
      | None => false
      end
  | None => false
  end.
Lemma past_ok_spec api a count n : past_ok api a count n = true → ∃ block h d acc,
  get_block_with_hash (api_backend api) (IdNumber (Number n)) = Some (block, h) ∧
  get_state (bk_states (api_backend api)) h = Some d ∧ account_of d a = Ok acc ∧ ai_nonce acc = count n.
Proof.
  unfold past_ok. destruct (get_block_with_hash _ _) as [[block h]|]; [|done].
  destruct (get_state _ h) as [d|] eqn:Hd; [|done]. destruct (account_of d a) as [acc|] eqn:Ha; [|done].
  intros ?%Z.eqb_eq. by exists block, h, d, acc.
Qed.

Definition tx_indexed b (h : B256) (i : nat) (t : NodeTx) : bool :=
  match transactions (bk_storage b) !! maybe_hash t with
  | Some m => (mt_block_hash m =? h) && (ti_hash (mt_info m) =? maybe_hash t) && (ti_index (mt_info m) =? Z.of_nat i)
  | None => false
  end && bool_decide (tx_kind (envelope t) ≠ Tempo).
Definition block_ok api (n : Z) : bool :=
  match hashes (bk_storage (api_backend api)) !! n with
  | Some h =>
      match blocks (bk_storage (api_backend api)) !! h with
      | Some block => (header_hash (header block) =? h) &&
          forallb id (imap (tx_indexed (api_backend api) h) (body_transactions block))
      | None => false
      end
  | None => false
  end.
Lemma block_ok_spec api n : block_ok api n = true →
  ∃ h block, hashes (bk_storage (api_backend api)) !! n = Some h ∧
    blocks (bk_storage (api_backend api)) !! h = Some block ∧ block_indexed (api_backend api) h block ∧
    header_hash (header block) = h ∧ ∀ t, t ∈ body_transactions block → tx_kind (envelope t) ≠ Tempo.
Proof.
  unfold block_ok. destruct (hashes _ !! n) as [h|] eqn:Hn; [|done].
  destruct (blocks _ !! h) as [block|] eqn:Hb; [|done]. intros [Hh%Z.eqb_eq Hall]%andb_true_iff.
  assert (∀ i t, body_transactions block !! i = Some t → tx_indexed (api_backend api) h i t = true) as Hix.
  { intros i t Ht. rewrite forallb_forall in Hall. apply Hall, list_elem_of_In, (list_elem_of_lookup_2 _ i).
    by rewrite list_lookup_imap, Ht. }
  exists h, block. split_and!; [done|done| |done|].
  - intros i t [Hm _]%Hix%andb_true_iff. destruct (transactions _ !! _) as [m|]; [|done]. exists m.
    rewrite !andb_true_iff, !Z.eqb_eq in Hm. tauto.
  - intros t [i Hi]%list_elem_of_lookup_1. apply Hix, andb_true_iff in Hi as [_ Hk]. by apply bool_decide_eq_true in Hk.
Qed.

(** ** The search for the block *)
Definition first_above (count : Z → Z) (target low : Z) : Prop :=
  target < count low ∧ ∀ m, 1 ≤ m < low → count m ≤ target.

Lemma search_rounds_end fuel api now a count target :
  history api a count → 1 ≤ latest api → target < count (latest api) →
  ∃ low, loop (search_round fuel now a target) (search_rounds (latest api)) (api, 1, latest api) =
      Some (api, Ok low) ∧ 1 ≤ low ≤ latest api ∧ first_above count target low.
Proof.
  intros Hh Hl Ht.
  set (inv := λ st : Api * Z * Z, st.1.1 = api ∧ 1 ≤ st.1.2 ∧ st.1.2 ≤ st.2 + 1 ∧ st.2 ≤ latest api ∧
    (∀ m, 1 ≤ m < st.1.2 → count m ≤ target) ∧ (∀ m, st.2 < m ≤ latest api → target < count m)).
  destruct (loop_total (search_round fuel now a target) inv
    (λ res, res.1 = api ∧ ∃ low, res.2 = Ok low ∧ 1 ≤ low ≤ latest api ∧ first_above count target low)
    (λ st, if bool_decide (st.1.2 ≤ st.2) then S (Z.to_nat (Z.log2_up (st.2 - st.1.2 + 2))) else 0%nat))
    with (fuel := search_rounds (latest api)) (s := (api, 1, latest api)) as ([api' res] & Hloop & Hres).
  - intros [[api' low] high] Hinv. unfold inv in Hinv. cbn in Hinv. destruct Hinv as (-> & Hlow & Hgap & Htop & Hlo & Hhi). unfold search_round.
    case_bool_decide as Hle.
    + set (mid := low + (high - low) / 2).
      assert (low ≤ mid ≤ high) as Hmid.
      { pose proof (Z.div_pos (high - low) 2 ltac:(lia) ltac:(lia)).
        pose proof (Z.div_le_upper_bound (high - low) 2 (high - low) ltac:(lia) ltac:(lia)). lia. }
      pose proof (Z.div_mod (high - low) 2 ltac:(lia)) as Hdm. pose proof (Z.mod_pos_bound (high - low) 2 ltac:(lia)).
      rewrite (count_at fuel api now a count mid Hh ltac:(lia)). cbn [mbind option_bind].
      rewrite (bool_decide_true (low ≤ high)) by done.
      pose proof (log2_up_half (high - low + 2)) as Hhalf.
      case_bool_decide as Hc; (split; [split_and!; cbn; try done; try lia|]).
      * intros m Hm. destruct (decide (high < m)); [apply Hhi; lia|].
        pose proof (hi_mono _ _ _ Hh mid m). lia.
      * cbn. case_bool_decide; [|lia]. apply le_n_S. enough (Z.log2_up (mid - 1 - low + 2) < Z.log2_up (high - low + 2)).
        { pose proof (Z.log2_up_nonneg (mid - 1 - low + 2)). lia. }
        apply Hhalf; lia.
      * intros m Hm. pose proof (hi_mono _ _ _ Hh m mid). lia.
      * cbn. case_bool_decide; [|lia]. apply le_n_S. enough (Z.log2_up (high - (mid + 1) + 2) < Z.log2_up (high - low + 2)).
        { pose proof (Z.log2_up_nonneg (high - (mid + 1) + 2)). lia. }
        apply Hhalf; lia.
    + split; [done|]. exists low. assert (low ≤ latest api).
      { destruct (decide (low ≤ latest api)); [done|]. specialize (Hlo (latest api)). lia. }
      split_and!; [done|lia|done|]. split; [apply Hhi; lia|done].
  - cbn. rewrite bool_decide_true by lia. unfold search_rounds.
    replace (latest api - 1 + 2) with (latest api + 1) by lia. lia.
  - split_and!; cbn; try done; try lia. 
  - cbn in Hres. destruct Hres as (-> & low & -> & Hr). by exists low.
Qed.

(** ** The transactions of the block *)
Definition sent_by (a : Address) (nonce : Z) (t : NodeTx) : Prop :=
  tx_nonce (envelope t) = nonce ∧
  default 0 (if bool_decide (tx_kind (envelope t) = Deposit) then tx_recover (envelope t) else maybe_recover t) = a.

(** The answer about a transaction of a block. *)
Definition mined_answer b block (t : NodeTx) rx : Prop :=
  (∀ a nonce, sent_by a nonce t ↔ rx_from rx = a ∧ tx_nonce (rx_envelope rx) = nonce) ∧
  rx_hash rx = maybe_hash t ∧ rx_block_hash rx = Some (header_hash (header block)) ∧
  mined_transaction_by_hash b (rx_hash rx) = Some (Some rx).

#[local] Instance sent_by_dec a nonce (t : NodeTx) : Decision (sent_by a nonce t).
Proof. unfold sent_by. apply _. Defined.

Lemma build_from h t bl info fee rx :
  transaction_build h t bl info fee = Some rx → rx_envelope rx = envelope t ∧
  ∀ a nonce, sent_by a nonce t ↔ rx_from rx = a ∧ tx_nonce (rx_envelope rx) = nonce.
Proof.
  unfold transaction_build, sent_by. destruct (tx_kind (envelope t)); intros [= <-]; cbn; (split; [done|tauto]).
Qed.

Lemma mined_answers b h block : block_indexed b h block → blocks (bk_storage b) !! h = Some block →
  (∀ t, t ∈ body_transactions block → tx_kind (envelope t) ≠ Tempo) →
  ∀ ts pre acc, body_transactions block = pre ++ ts →
  ∃ rxs, build_block_txs b block (maybe_hash <$> ts) acc = Some (Some (acc ++ rxs)) ∧
    Forall2 (mined_answer b block) ts rxs.
Proof.
  intros Hix Hb Hk ts. induction ts as [|t ts IH]; intros pre acc Hbody; cbn [fmap list_fmap build_block_txs].
  { exists []. by rewrite app_nil_r. }
  assert (body_transactions block !! length pre = Some t) as Hi.
  { rewrite Hbody. by apply list_lookup_middle. }
  destruct (Hix _ _ Hi) as (m & Hm & Hmh & Hth & Hti).
  destruct (transaction_build_some (Some (maybe_hash t)) t block (mt_info m) (h_base_fee_per_gas (header block)))
    as (rx & Hrx & Hh & Hbh & _); [by apply Hk, (list_elem_of_lookup_2 _ (length pre))|].
  rewrite Hm, Hti, Nat2Z.id, Hi, Hrx. cbn [mbind option_bind].
  destruct (IH (pre ++ [t]) (acc ++ [rx])) as (rxs & -> & Hall); [by rewrite Hbody, <- app_assoc|].
  assert (rx_hash rx = maybe_hash t) as Hxh by (rewrite Hh; by case_bool_decide).
  exists (rx :: rxs). rewrite <- app_assoc. split; [done|]. constructor; [|done]. split_and!; [|done..|].
  - by eapply build_from.
  - unfold mined_transaction_by_hash. by rewrite Hxh, Hm, Hmh, Hb, Hti, Nat2Z.id, Hi, Hth, Hrx.
Qed.

Lemma find_in_block_spec api block a target ts rxs :
  Forall2 (mined_answer (api_backend api) block) ts rxs →
  ∃ res, find_in_block api a target rxs = Some res ∧
  match res with
  | Some rx => ∃ t, t ∈ ts ∧ sent_by a target t ∧ mined_answer (api_backend api) block t rx
  | None => ∀ t, t ∈ ts → ~ sent_by a target t
  end.
Proof.
  induction 1 as [|t rx ts rxs Hrx Hall IH]; cbn [find_in_block].
  { exists None. split; [done|]. by intros t ?%not_elem_of_nil. }
  pose proof Hrx as (Hs & _ & _ & Hfound). specialize (Hs a target).
  destruct (decide (sent_by a target t)) as [Hst|Hst].
  - apply Hs in Hst as Heq. destruct Heq as [-> ->]. rewrite !bool_decide_true by done. cbn [andb].
    rewrite Hfound. exists (Some rx). split; [done|]. exists t. split; [by left|done].
  - assert (bool_decide (rx_from rx = a) && bool_decide (tx_nonce (rx_envelope rx) = target) = false) as ->.
    { apply not_true_iff_false. rewrite andb_true_iff, !bool_decide_eq_true. tauto. }
    destruct IH as (res & -> & Hres). exists res. split; [done|]. destruct res.
    + destruct Hres as (t' & ? & ?). exists t'. split; [by right|done].
    + intros t' [-> |?]%elem_of_cons; [done|by apply Hres].
Qed.

Lemma target_block api a count target n : history api a count → 1 ≤ n ≤ latest api →
  ∃ h block, hashes (bk_storage (api_backend api)) !! n = Some h ∧ blocks (bk_storage (api_backend api)) !! h = Some block ∧
    header_hash (header block) = h ∧
    ∃ rxs, mined_transactions_by_block_number (api_backend api) (Number n) = Some (Some rxs) ∧
      ∃ res, find_in_block api a target rxs = Some res ∧
      match res with
      | Some rx => ∃ t, t ∈ body_transactions block ∧ sent_by a target t ∧ mined_answer (api_backend api) block t rx
      | None => ∀ t, t ∈ body_transactions block → ~ sent_by a target t
      end.
Proof.
  intros Hh Hn. destruct (hi_block _ _ _ Hh n Hn) as (h & block & Hnh & Hb & Hix & Hhh & Hk).
  exists h, block. split_and!; [done..|].
  destruct (mined_answers _ h block Hix Hb Hk (body_transactions block) [] [] eq_refl) as (rxs & Hrxs & Hall).
  exists rxs. split.
  - unfold mined_transactions_by_block_number, get_block, get_block_with_hash, get_block_by_hash.
    rewrite Hnh. cbn [mbind option_bind]. by rewrite Hb.
  - by apply (find_in_block_spec api block).
Qed.

(** Where the search of the chain ends. *)
Definition search_verdict api (a : Address) (count : Z → Z) (nonce : Z) (res : option RpcTransaction) : Prop :=
  match res with
  | Some rx => ∃ n h block t, hashes (bk_storage (api_backend api)) !! n = Some h ∧
      blocks (bk_storage (api_backend api)) !! h = Some block ∧ first_above count nonce n ∧
      t ∈ body_transactions block ∧ sent_by a nonce t ∧
      rx_hash rx = maybe_hash t ∧ rx_from rx = a ∧ tx_nonce (rx_envelope rx) = nonce ∧ rx_block_hash rx = Some h
  | None => latest api = 0 ∨ count (latest api) ≤ nonce ∨
      ∃ n h block, hashes (bk_storage (api_backend api)) !! n = Some h ∧
        blocks (bk_storage (api_backend api)) !! h = Some block ∧ first_above count nonce n ∧
        ∀ t, t ∈ body_transactions block → ~ sent_by a nonce t
  end.

Lemma first_above_unique count target m n : 1 ≤ m → 1 ≤ n →
  first_above count target m → first_above count target n → m = n.
Proof.
  intros Hm Hn [Hcm Hbm] [Hcn Hbn]. destruct (Z.lt_trichotomy m n) as [Hlt|[->|Hlt]]; [|done|].
  - specialize (Hbn m). lia.
  - specialize (Hbm n). lia.
Qed.

(** The search once the pool has nothing. *)
Lemma chain_search api now a count nonce :
  history api a count → 0 ≤ latest api → nonce ≤ u64_max →
  ∃ res, search_verdict api a count nonce res ∧ ∀ fuel ready, ready_list fuel api = Some ready →
    list_find (λ tx, is_sent_with a nonce tx = true) (ready ++ waiting_list api) = None →
    transaction_by_sender_and_nonce fuel api now a nonce = Some (api, Ok res).
Proof.
  intros Hh Hl Hn. assert (saturating_to_u64 nonce = nonce) as Hsat by (unfold saturating_to_u64; lia).
  destruct (decide (count (latest api) ≤ nonce)) as [Hc|Hc]; [exists None; split; [by right; left|]|].
  { intros fuel ready Hready Hpool. unfold transaction_by_sender_and_nonce. rewrite Hready. cbn [mbind option_bind].
    rewrite Hpool, (count_latest fuel api now a count Hh). cbn [mbind option_bind].
    by rewrite Hsat, bool_decide_true. }
  destruct (decide (latest api = 0)) as [Hz|Hz]; [exists None; split; [by left|]|].
  { intros fuel ready Hready Hpool. unfold transaction_by_sender_and_nonce. rewrite Hready. cbn [mbind option_bind].
    rewrite Hpool, (count_latest fuel api now a count Hh). cbn [mbind option_bind].
    by rewrite Hsat, bool_decide_false, bool_decide_true. }
  destruct (search_rounds_end 0 api now a count nonce Hh ltac:(lia) ltac:(lia)) as (low & _ & Hlow & Hfirst).
  destruct (target_block api a count nonce low Hh Hlow) as (h & block & Hnh & Hb & Hhh & rxs & Hrxs & res & Hf & Hres).
  exists res. split.
  2: { intros fuel ready Hready Hpool. unfold transaction_by_sender_and_nonce. rewrite Hready. cbn [mbind option_bind].
    rewrite Hpool, (count_latest fuel api now a count Hh). cbn [mbind option_bind].
    rewrite Hsat, !bool_decide_false by lia.
    destruct (search_rounds_end fuel api now a count nonce Hh ltac:(lia) ltac:(lia)) as (low' & -> & Hlow' & Hfirst').
    rewrite (first_above_unique count nonce low' low) by (done || lia).
    cbn [mbind option_bind]. rewrite bool_decide_true by lia. rewrite Hrxs. cbn [mbind option_bind]. by rewrite Hf. }
  destruct res as [rx|]; cbn [search_verdict].
  - destruct Hres as (t & Ht & Hst & Hrx & Hhash & Hrb & _). apply Hrx in Hst as Heq. destruct Heq.
    exists low, h, block, t. rewrite <- Hhh at 3. by split_and!.
  - right. right. by exists low, h, block.
Qed.

Variable place : TxHash → Z * Address.
Context `{!EvmLaws, !HashLaws, !NodeLaws BlobParams}.

Lemma waiting_ok g api tx : api_wf place g api → tx ∈ waiting_list api → node_tx_ok tx.
Proof.
  intros Hwf. unfold waiting_list. intros ([h ptx] & -> & Hin)%list_elem_of_fmap.
  apply elem_of_iter_map in Hin. by apply (pa_waiting _ _ (aw_txs _ _ _ Hwf) h).
Qed.

Lemma pool_answer_some api tx : node_tx_ok tx →
  ∃ rx, pool_answer api (pending_transaction tx) = Some rx ∧ rx_hash rx = hash tx ∧
    rx_from rx = sender (pending_transaction tx) ∧ tx_nonce (rx_envelope rx) = nonce_of tx ∧
    rx_block_hash rx = None.
Proof.
  intros [Hk [Hh _]]. unfold pool_answer, transaction_build.
  unfold not_tempo in Hk. unfold nonce_of, hash. destruct (tx_kind _); try done; eexists; by split_and!.
Qed.

(** C9: on a node that still holds the state of every block of its chain in
    memory, whose databases answer, whose environment is at the height of the
    chain, and that has no Tempo transaction,
    [eth_getTransactionBySenderAndNonce] ends without an error. A transaction
    of the pool with the sender and the nonce, ready or waiting, is answered
    first, as one outside of every block. Otherwise, along a chain on which
    the sender's nonce does not fall, the answer is a transaction of the
    sender with the nonce in the first block after which the sender's nonce is
    above the one asked for; and there is no answer only on an empty chain,
    for a nonce not yet used, or when that first block has no such
    transaction. Where a past state was pruned or moved away, the search may
    fail with an error instead. *)
Theorem sender_nonce_search g api now a count nonce :
  api_wf place g api → history api a count → 0 ≤ latest api → nonce ≤ u64_max →
  ∃ ready res, eventually (λ fuel, ready_list fuel api) ready ∧
    eventually (λ fuel, transaction_by_sender_and_nonce fuel api now a nonce) (api, Ok res) ∧
    match list_find (λ tx, is_sent_with a nonce tx = true) (ready ++ waiting_list api) with
    | Some (_, tx) => ∃ rx, res = Some rx ∧ rx_hash rx = hash tx ∧ rx_from rx = a ∧
        tx_nonce (rx_envelope rx) = nonce ∧ rx_block_hash rx = None
    | None => search_verdict api a count nonce res
    end.
Proof.
  intros Hwf Hh Hl Hn. destruct (ready_list_total place g api Hwf) as (ready & [n Hr] & Htxs).
  exists ready. destruct (list_find (λ tx, is_sent_with a nonce tx = true) (ready ++ waiting_list api)) as [[i tx]|] eqn:Hfind.
  - pose proof Hfind as (Hi%list_elem_of_lookup_2 & Hs & _)%list_find_Some.
    unfold is_sent_with in Hs. apply andb_true_iff in Hs as [<-%bool_decide_eq_true <-%bool_decide_eq_true].
    assert (node_tx_ok tx) as Hok.
    { apply elem_of_app in Hi as [Hi|Hi]; [|by eapply waiting_ok]. by eapply (proj1 (Forall_forall _ _)) in Htxs. }
    destruct (pool_answer_some api tx Hok) as (rx & Hrx & Hxh & Hxf & Hxn & Hxb).
    exists (Some rx). split; [by exists n|]. split; [|by exists rx].
    exists n. intros fuel Hfuel. unfold transaction_by_sender_and_nonce. rewrite (Hr fuel Hfuel). cbn [mbind option_bind].
    by rewrite Hfind, Hrx.
  - destruct (chain_search api now a count nonce Hh Hl Hn) as (res & Hres & Hrun).
    exists res. split_and!; [by exists n| |done]. exists n. intros fuel Hfuel. by apply (Hrun fuel ready); [apply Hr|].
Qed.
(** ** More fuel changes no answer *)
Definition fuel_mono {A} (f : nat → option A) : Prop :=
  ∀ n m y, (n ≤ m)%nat → f n = Some y → f m = Some y.
Lemma mono_const {A} (o : option A) : fuel_mono (λ _, o).
Proof. by intros n m y _. Qed.
Lemma mono_bind {A B} (f : nat → option A) (k : A → nat → option B) :
  fuel_mono f → (∀ a, fuel_mono (k a)) → fuel_mono (λ fuel, a ← f fuel; k a fuel).
Proof.
  intros Hf Hk n m y Hle (a & Ha & Hy)%bind_Some. apply bind_Some. exists a.
  split; [by apply (Hf n)|by apply (Hk a n)].
Qed.
Lemma mono_fmap {A B} (h : A → B) (f : nat → option A) : fuel_mono f → fuel_mono (λ fuel, h <$> f fuel).
Proof. intros Hf n m y Hle (a & Ha & ->)%fmap_Some. by rewrite (Hf n m a Hle Ha). Qed.

Lemma iter_collect_mono it : fuel_mono (λ fuel, iter_collect fuel (it : TransactionsIterator NodeTx)).
Proof.
  intros n. revert it. induction n as [|n IH]; intros it [|m] y Hle; [done|done|lia|]. cbn [iter_collect].
  destruct (next it) as [[[tx|] it']|]; cbn [mbind option_bind]; [|done|done].
  intros (l & Hl & Hy)%bind_Some. rewrite (IH it' m l ltac:(lia) Hl). exact Hy.
Qed.
Lemma mine_one_mono api now : fuel_mono (λ fuel, mine_one fuel api now).
Proof.
  unfold mine_one. apply (mono_bind (λ fuel, ready_list fuel api)); [apply iter_collect_mono|by intros ? ? ? ? _].
Qed.
Lemma mine_blocks_mono n interval clock : ∀ api i, fuel_mono (λ fuel, mine_blocks n fuel api interval clock i).
Proof.
  induction n as [|n IH]; intros api i; [by intros p q y _|].
  apply (mono_bind (λ fuel, mine_one fuel _ (clock i))); [apply mine_one_mono|intros api'; apply IH].
Qed.
Lemma api_call_mono api c : fuel_mono (λ fuel, api_call fuel api c).
Proof.
  destruct c; cbn [api_call]; try by intros ? ? ? _.
  - apply mono_fmap. unfold anvil_mine. destruct (match interval with Some _ => _ | None => _ end); [|by intros ? ? ? _].
    cbn [mbind option_bind]. destruct (bool_decide _); [by intros ? ? ? _|]. destruct (bool_decide _); [by intros ? ? ? _|].
    apply (mono_bind (λ fuel, mine_blocks _ fuel api _ clock 0)); [apply mine_blocks_mono|by intros ? ? ? ? _].
  - apply mono_fmap. unfold do_evm_mine. destruct (match opts with Some _ => _ | None => _ end) as [ts blocks].
    destruct (match ts with Some _ => _ | None => _ end) as [api' [[]|]]; [|by intros ? ? ? _].
    apply (mono_bind (λ fuel, mine_blocks _ fuel api' _ clock 0)); [apply mine_blocks_mono|by intros ? ? ? ? _].
  - unfold anvil_remove_pool_transactions. apply (mono_bind (λ fuel, ready_list fuel api));
      [apply iter_collect_mono|by intros ? ? ? ? _].
Qed.

(** The calls run with this fuel, and the clock serves them. *)
Fixpoint calls_run (fuel : nat) api (cs : list ApiCall) : bool :=
  match cs with
  | [] => true
  | c :: cs => call_runs api c && match api_call fuel api c with Some api => calls_run fuel api cs | None => false end
  end.
Lemma calls_kept `{!ApiLaws} g fuel cs : ∀ api api',
  api_wf place g api → Forall (call_ok place) cs → id_room (api_pool api) (length cs) →
  bk_best_number (api_backend api) + total_blocks cs ≤ u64_max → calls_run fuel api cs = true →
  fold_m (api_call fuel) api cs = Some api' → api_wf place g api'.
Proof.
  induction cs as [|c cs IH]; intros api api' Hwf Hok Hroom Hlt Hrun; [by intros [= <-]|].
  apply Forall_cons in Hok as [Hc Hok]. cbn [length calls_run fold_m] in *.
  change (total_blocks (c :: cs)) with (blocks_of c + total_blocks cs) in Hlt.
  pose proof (total_blocks_nonneg place cs Hok) as Hnn. apply andb_true_iff in Hrun as [Hruns Hrun].
  destruct (api_call_total place g (length cs) api c Hwf Hc Hroom ltac:(lia) Hruns) as (api1 & [n Hn] & [Hwf1 Hroom1 Hb1]).
  destruct (api_call fuel api c) as [api2|] eqn:Hcall; [|done]. cbn [mbind option_bind].
  assert (api2 = api1) as ->.
  { pose proof (api_call_mono api c fuel (n `max` fuel)%nat api2 ltac:(lia) Hcall) as Hm. cbn in Hm.
    rewrite Hn in Hm by lia. by injection Hm. }
  apply IH; [done|done|done|lia|done].
Qed.
End search.

(** ** A chain of two blocks *)
(** One transaction of account 1 in each block; a third waits in the pool. *)
Definition search_calls : list ApiCall :=
  [ASendRaw 1001 [0; 21000]; AMine None None (λ _, 1003); ASetNextBaseFee 5; ASendRaw 1004 [1; 21000];
   AMine None None (λ _, 1005); ASetNextBaseFee 5; ASendRaw 1006 [2; 21000]].
Definition searched_api : EthApi unit unit unit (gmap Z (AccountInfo unit)) :=
  default small_api (fold_m (api_call 10) small_api search_calls).

Lemma searched_run : fold_m (api_call 10) small_api search_calls = Some searched_api.
Proof.
  assert (match fold_m (api_call 10) small_api search_calls with Some _ => true | None => false end = true) as Hr
    by (vm_compute; reflexivity).
  unfold searched_api. by destruct (fold_m (api_call 10) small_api search_calls).
Qed.
Lemma search_raw n gas : n = 0 ∨ n = 1 ∨ n = 2 → raw_ok small_place [n; gas].
Proof.
  intros Hn e s [= <-]. split; [done|]. intros [= <-]. destruct Hn as [-> |[-> | ->]]; by vm_compute.
Qed.
Lemma searched_wf : api_wf small_place 0 searched_api.
Proof.
  apply (calls_kept small_place 0 10 search_calls small_api searched_api).
  - apply small_api_wf.
  - unfold search_calls. rewrite !Forall_cons. unfold call_ok. cbn.
    split_and!; try done; try apply Forall_nil; apply search_raw; auto.
  - by vm_compute.
  - by vm_compute.
  - by vm_compute.
  - exact searched_run.
Qed.

Lemma searched_best : bk_best_number (api_backend searched_api) = 2.
Proof. vm_compute. reflexivity. Qed.
Lemma searched_history : history searched_api 1 (λ n, n).
Proof.
  split; [by vm_compute| |by vm_compute|by intros m n [_ Hmn] _|]; rewrite searched_best; intros n Hn.
  - apply (past_ok_spec searched_api 1 (λ n, n)). assert (n = 1) as -> by lia. vm_compute. reflexivity.
  - apply block_ok_spec. assert (n = 1 ∨ n = 2) as [-> | ->] by lia; vm_compute; reflexivity.
Qed.

Lemma sender_nonce_search_witness :
  (λ r, match r.2 with Ok (Some rx) => Some (rx_hash rx, rx_block_number rx) | _ => None end) <$>
    transaction_by_sender_and_nonce 10 searched_api 1007 1 1 = Some (Some (1000, Some 2)) ∧
  ∃ res, eventually (λ fuel, transaction_by_sender_and_nonce fuel searched_api 1007 1 1) (searched_api, Ok res).
Proof.
  split; [vm_compute; reflexivity|].
  destruct (sender_nonce_search small_place 0 searched_api 1007 1 (λ n, n) 1) as (ready & res & _ & Hs & _).
  - apply searched_wf.
  - apply searched_history.
  - by rewrite searched_best.
  - done.
  - exists res. exact Hs.
Defined.
