(* ===== verification/Recording.v ===== *)
(** * What a test records: accesses, logs, mapping slots and state diffs

    The recorders of cheatcodes/src/inspector.rs and their cheatcodes
    (cheatcodes/src/evm.rs, evm/mapping.rs, common/src/mapping_slots.rs): the
    storage slots that are read and written, the logs, the keys behind the
    slots of mappings, and the account accesses of [startStateDiffRecording],
    which are kept on a stack of call depths and merged as calls end.

    A hook is the part of the inspector's hook that records.  The running
    context is abstract: loading an account or a slot may change it (an
    account becomes warm), so a hook returns it.  ABI and JSON coding of the
    answers are left out. *)
From stdpp Require Import base list gmap.
From Stdlib Require Import ZArith Lia.
From S2P Require Import Prelude.
#[local] Open Scope list_scope.

#[local] Abbreviation Address := Z (only parsing).
#[local] Abbreviation U256 := Z (only parsing).
#[local] Abbreviation B256 := Z (only parsing).
#[local] Abbreviation Bytes := (list Z) (only parsing).

(** What is read of a loaded account. *)
Record LoadedAccount := mkLoaded {
  exists_ : bool;           (* [info.exists()] *)
  acc_balance : U256;
  acc_nonce : Z;
  original_bytes : Bytes;   (* of its code *)
}.

(** The running context and the hash function. *)
Class RecEnv := {
  Ecx : Type;
  journal_depth : Ecx → Z;
  load_account : Ecx → Address → Ecx * option LoadedAccount;
  sload : Ecx → Address → U256 → Ecx * option U256;
  ecx_balance : Ecx → Address → Ecx * option U256;
  active_fork_id : Ecx → option U256;
  cfg_chain_id : Ecx → Z;
  keccak256 : Bytes → B256;
}.

(** ** The data of the specification (cheatcodes/spec/src/vm.rs) *)
Inductive AccountAccessKind :=
| Call | DelegateCall | CallCode | StaticCall | Create | SelfDestruct | Resume
| Balance | Extcodesize | Extcodehash | Extcodecopy.
#[export] Instance AccountAccessKind_eq_dec : EqDecision AccountAccessKind.
Proof. solve_decision. Defined.

Record ChainInfo := mkChainInfo { forkId : U256; chainId : U256 }.
Record StorageAccess := mkStorageAccess {
  sa_account : Address; sa_slot : B256; isWrite : bool;
  previousValue : B256; newValue : B256; sa_reverted : bool;
}.
Record AccountAccess := mkAccountAccess {
  chainInfo : ChainInfo; kind : AccountAccessKind; account : Address; accessor : Address;
  initialized : bool; oldBalance : U256; newBalance : U256; deployedCode : Bytes;
  value : U256; data : Bytes; reverted : bool; storageAccesses : list StorageAccess;
  depth : Z; oldNonce : Z; newNonce : Z;
}.
Record VmLog := mkVmLog { topics : list B256; log_data : Bytes; emitter : Address }.

(** ** Storage accesses: [RecordAccess] *)
Record RecordAccess := mkRecordAccess {
  reads : gmap Address (list U256);
  writes : gmap Address (list U256);
}.
Definition access_default : RecordAccess := mkRecordAccess ∅ ∅.

(** [entry(k).or_default().push(x)]. *)
Definition push_at (m : gmap Z (list Z)) (k x : Z) : gmap Z (list Z) :=
  <[k := default [] (m !! k) ++ [x]]> m.
Definition record_read (a : RecordAccess) (target : Address) (slot : U256) : RecordAccess :=
  mkRecordAccess (push_at (reads a) target slot) (writes a).
Definition record_write (a : RecordAccess) (target : Address) (slot : U256) : RecordAccess :=
  let a := record_read a target slot in
  mkRecordAccess (reads a) (push_at (writes a) target slot).

(** ** Mapping slots: common/src/mapping_slots.rs *)
Record MappingSlots := mkMappingSlots {
  parent_slots : gmap B256 B256;
  keys : gmap B256 B256;
  children : gmap B256 (list B256);
  seen_sha3 : gmap B256 (B256 * B256);
}.
Definition mapping_default : MappingSlots := mkMappingSlots ∅ ∅ ∅ ∅.

(** The recursion follows the parents; [insert_fuel] is one more than the
    hashes that were seen. *)
Fixpoint insert (fuel : nat) (m : MappingSlots) (slot : B256) : option (MappingSlots * bool) :=
  match fuel with
  | O => None
  | S fuel =>
      match seen_sha3 m !! slot with
      | Some (key, parent) =>
          let known := bool_decide (is_Some (keys m !! slot)) in
          let m := mkMappingSlots (parent_slots m) (<[slot := key]> (keys m)) (children m) (seen_sha3 m) in
          if known then Some (m, false)
          else
            let m := mkMappingSlots (<[slot := parent]> (parent_slots m)) (keys m)
                       (push_at (children m) parent slot) (seen_sha3 m) in
            '(m, _) ← insert fuel m parent;
            Some (m, true)
      | None => Some (m, false)
      end
  end.
Definition insert_fuel (m : MappingSlots) : nat := S (size (seen_sha3 m)).

(** ** The interpreter, as the hooks read it: the stack top first *)
Definition SLOAD : Z := 84.
Definition SSTORE : Z := 85.
Definition SELFDESTRUCT : Z := 255.
Definition BALANCE : Z := 49.
Definition EXTCODESIZE : Z := 59.
Definition EXTCODECOPY : Z := 60.
Definition EXTCODEHASH : Z := 63.
Definition KECCAK256 : Z := 32.
Record Interp := mkInterp {
  opcode : Z;
  stack : list U256;
  interp_target : Address;
  (* Of the memory as the last instruction left it: [None] where the range is
     not within it, which [SharedMemory::slice_len] of revm does not survive. *)
  slice_len : Z → Z → option Bytes;
}.
Definition from_word (w : U256) : Address := w `mod` 2 ^ 160.
Definition from_be_bytes (l : Bytes) : Z := foldl (λ n b, n * 256 + b) 0 l.

(** ** The recorder, a part of the state of the cheatcodes *)
Record Recorder := mkRecorder {
  accesses : RecordAccess;
  recording_accesses : bool;
  recorded_account_diffs_stack : option (list (list AccountAccess));
  recorded_logs : option (list VmLog);
  mapping_slots : option (gmap Address MappingSlots);
}.
Definition recorder_default : Recorder := mkRecorder access_default false None None None.
Definition with_accesses (s : Recorder) a : Recorder :=
  mkRecorder a (recording_accesses s) (recorded_account_diffs_stack s) (recorded_logs s) (mapping_slots s).
Definition with_stack (s : Recorder) st : Recorder :=
  mkRecorder (accesses s) (recording_accesses s) st (recorded_logs s) (mapping_slots s).
Definition with_logs (s : Recorder) l : Recorder :=
  mkRecorder (accesses s) (recording_accesses s) (recorded_account_diffs_stack s) l (mapping_slots s).
Definition with_mappings (s : Recorder) m : Recorder :=
  mkRecorder (accesses s) (recording_accesses s) (recorded_account_diffs_stack s) (recorded_logs s) m.

(** ** Changes of an access *)
Definition with_storage (a : AccountAccess) l : AccountAccess :=
  mkAccountAccess (chainInfo a) (kind a) (account a) (accessor a) (initialized a) (oldBalance a)
    (newBalance a) (deployedCode a) (value a) (data a) (reverted a) l (depth a) (oldNonce a) (newNonce a).
Definition mark_storage (s : StorageAccess) : StorageAccess :=
  mkStorageAccess (sa_account s) (sa_slot s) (isWrite s) (previousValue s) (newValue s) true.
(** A call that reverts marks every access in it. *)
Definition mark_reverted (a : AccountAccess) : AccountAccess :=
  mkAccountAccess (chainInfo a) (kind a) (account a) (accessor a) (initialized a) (oldBalance a)
    (newBalance a) (deployedCode a) (value a) (data a) true (mark_storage <$> storageAccesses a)
    (depth a) (oldNonce a) (newNonce a).
Definition with_result (a : AccountAccess) (balance nonce : Z) (code : Bytes) : AccountAccess :=
  mkAccountAccess (chainInfo a) (kind a) (account a) (accessor a) (initialized a) (oldBalance a)
    balance code (value a) (data a) (reverted a) (storageAccesses a) (depth a) (oldNonce a) nonce.

(** [first_mut], [last_mut] and what is done with them. *)
Definition update_head {A} (f : A → A) (l : list A) : list A :=
  match l with [] => [] | x :: l => f x :: l end.
Definition update_last {A} (f : A → A) (l : list A) : list A :=
  reverse (update_head f (reverse l)).

Definition resume_record (entry : AccountAccess) (s : StorageAccess) : AccountAccess :=
  mkAccountAccess (mkChainInfo (forkId (chainInfo entry)) (chainId (chainInfo entry))) Resume
    (account entry) (accessor entry) (initialized entry) 0 0 [] 0 [] (reverted entry) [s]
    (depth entry) 0 0.
Definition push_storage (s : StorageAccess) (a : AccountAccess) : AccountAccess :=
  with_storage a (storageAccesses a ++ [s]).

Definition append_storage_access (l : list AccountAccess) (s : StorageAccess) (storage_depth : Z)
    : list AccountAccess :=
  match l with
  | [] => l
  | entry :: _ =>
      if bool_decide (depth entry < storage_depth) then
        if bool_decide (length l = 1)%nat then update_head (push_storage s) l
        else
          match last l with
          | Some r =>
              if bool_decide (kind r = Resume) then update_last (push_storage s) l
              else l ++ [resume_record entry s]
          | None => l
          end
      else l
  end.

Section recording.
Context `{!RecEnv}.
Implicit Types (s : Recorder) (e : Ecx) (i : Interp).

Definition chain_info e : ChainInfo := mkChainInfo (default 0 (active_fork_id e)) (cfg_chain_id e).

(** ** Instructions *)
Definition record_accesses s i : Recorder :=
  let a := accesses s in
  let a := if bool_decide (opcode i = SLOAD) then
             match stack i !! 0%nat with Some key => record_read a (interp_target i) key | None => a end
           else if bool_decide (opcode i = SSTORE) then
             match stack i !! 0%nat with Some key => record_write a (interp_target i) key | None => a end
           else a in
  with_accesses s a.

(** The value in a slot, zero if it cannot be read. *)
Definition slot_value e (a : Address) (key : U256) : Ecx * U256 :=
  let '(e, acc) := load_account e a in
  match acc with
  | Some _ => let '(e, v) := sload e a key in (e, default 0 v)
  | None => (e, 0)
  end.

Definition ext_kind (op : Z) : option AccountAccessKind :=
  if bool_decide (op = EXTCODECOPY) then Some Extcodecopy
  else if bool_decide (op = EXTCODESIZE) then Some Extcodesize
  else if bool_decide (op = EXTCODEHASH) then Some Extcodehash
  else if bool_decide (op = BALANCE) then Some Balance
  else None.

Definition record_state_diffs s i e : Recorder * Ecx :=
  match recorded_account_diffs_stack s with
  | None => (s, e)
  | Some st =>
      let keep := (s, e) in
      let update f := with_stack s (Some (update_last f st)) in
      if bool_decide (opcode i = SELFDESTRUCT) then
        match last st, stack i !! 0%nat with
        | Some _, Some w =>
            let target := from_word w in
            let '(e, acc) := load_account e target in
            let '(init, old_balance, old_nonce) :=
              match acc with Some a => (exists_ a, acc_balance a, acc_nonce a) | None => (false, 0, 0) end in
            let '(e, b) := ecx_balance e (interp_target i) in
            let v := default 0 b in
            let a := mkAccountAccess (chain_info e) SelfDestruct target (interp_target i) init old_balance
                       (wrap_u256 (old_balance + v)) [] v [] false [] (journal_depth e) old_nonce old_nonce in
            (update (λ l, l ++ [a]), e)
        | _, _ => keep
        end
      else if bool_decide (opcode i = SLOAD) then
        match last st, stack i !! 0%nat with
        | Some _, Some key =>
            let '(e, present) := slot_value e (interp_target i) key in
            let a := mkStorageAccess (interp_target i) key false present present false in
            (update (λ l, append_storage_access l a (journal_depth e)), e)
        | _, _ => keep
        end
      else if bool_decide (opcode i = SSTORE) then
        match last st, stack i !! 0%nat, stack i !! 1%nat with
        | Some _, Some key, Some new =>
            let '(e, previous) := slot_value e (interp_target i) key in
            let a := mkStorageAccess (interp_target i) key true previous new false in
            (update (λ l, append_storage_access l a (journal_depth e)), e)
        | _, _, _ => keep
        end
      else
        match ext_kind (opcode i), stack i !! 0%nat with
        | Some k, Some w =>
            let address := from_word w in
            let '(e, acc) := load_account e address in
            let '(init, balance, nonce) :=
              match acc with Some a => (exists_ a, acc_balance a, acc_nonce a) | None => (false, 0, 0) end in
            let a := mkAccountAccess (chain_info e) k address (interp_target i) init balance balance []
                       0 [] false [] (journal_depth e) nonce nonce in
            (with_stack s (Some (match last st with
                                 | Some _ => update_last (λ l, l ++ [a]) st
                                 | None => st ++ [[a]]
                                 end)), e)
        | _, _ => keep
        end
  end.

(** [mapping_slots::step]; [None] is a panic.  The hook runs before the
    instruction that expands the memory. *)
Definition mapping_step (m : gmap Address MappingSlots) i : option (gmap Address MappingSlots) :=
  let a := interp_target i in
  if bool_decide (opcode i = KECCAK256 ∧ stack i !! 1%nat = Some 64) then
    offset ← stack i !! 0%nat;
    bytes ← slice_len i (u64_max `min` offset) 64;
    let low := from_be_bytes (take 32 bytes) in
    let high := from_be_bytes (drop 32 bytes) in
    let ms := default mapping_default (m !! a) in
    Some (<[a := mkMappingSlots (parent_slots ms) (keys ms) (children ms)
                   (<[keccak256 bytes := (low, high)]> (seen_sha3 ms))]> m)
  else if bool_decide (opcode i = SSTORE) then
    match m !! a, stack i !! 0%nat with
    | Some ms, Some slot => '(ms, _) ← insert (insert_fuel ms) ms slot; Some (<[a := ms]> m)
    | _, _ => Some m
    end
  else Some m.

(** The part of [step] that records. *)
Definition step s i e : option (Recorder * Ecx) :=
  let s := if recording_accesses s then record_accesses s i else s in
  let '(s, e) := record_state_diffs s i e in
  match mapping_slots s with
  | Some m => m ← mapping_step m i; Some (with_mappings s (Some m), e)
  | None => Some (s, e)
  end.
(** [record_logs]. *)
Definition record_logs s (l : VmLog) : Recorder :=
  with_logs s (option_map (λ logs, logs ++ [l]) (recorded_logs s)).

(** ** Calls and creates *)
Inductive CallScheme := SCall | SCallCode | SDelegateCall | SStaticCall.
Record CallInputs := mkCallInputs {
  ci_scheme : CallScheme; ci_caller : Address; ci_target_address : Address;
  ci_bytecode_address : Address; ci_value : U256; ci_input : Bytes;
}.
Definition scheme_kind (k : CallScheme) : AccountAccessKind :=
  match k with SCall => Call | SCallCode => CallCode | SDelegateCall => DelegateCall | SStaticCall => StaticCall end.

(** The end of [call_with_executor], for a call that is neither a cheatcode
    nor mocked. *)
Definition call s e (c : CallInputs) : Recorder * Ecx :=
  match recorded_account_diffs_stack s with
  | None => (s, e)
  | Some st =>
      let '(e, acc) := load_account e (ci_target_address c) in
      let '(init, old_balance, old_nonce) :=
        match acc with Some a => (exists_ a, acc_balance a, acc_nonce a) | None => (false, 0, 0) end in
      let a := mkAccountAccess (chain_info e) (scheme_kind (ci_scheme c)) (ci_bytecode_address c)
                 (ci_caller c) init old_balance 0 [] (ci_value c) (ci_input c) false []
                 (journal_depth e) old_nonce 0 in
      (with_stack s (Some (st ++ [[a]])), e)
  end.

Record CreateInputs := mkCreateInputs { cr_caller : Address; cr_value : U256; cr_init_code : Bytes }.
(** [create_common], [address] being the address of the new contract. *)
Definition create s e (c : CreateInputs) (address : Address) : Recorder :=
  match recorded_account_diffs_stack s with
  | None => s
  | Some st =>
      let a := mkAccountAccess (chain_info e) Create address (cr_caller c) true 0 0 [] (cr_value c)
                 (cr_init_code c) false [] (journal_depth e) 0 1 in
      with_stack s (Some (st ++ [[a]]))
  end.

Inductive CallResult := ResOk | ResRevert | ResHalt.

(** What both ends do with the accesses of the call that ends: mark them,
    write its outcome ([settle]) and merge them into those below. *)
Definition merge_last (st : list (list AccountAccess)) (l : list AccountAccess)
    : list (list AccountAccess) :=
  match last st with
  | Some _ => update_last (λ x, x ++ l) st
  | None => st ++ [l]
  end.
Definition marked (r : CallResult) (l : list AccountAccess) : list AccountAccess :=
  match r with ResRevert => mark_reverted <$> l | _ => l end.
Definition end_frame s e (r : CallResult)
    (settle : Ecx → AccountAccess → Ecx * AccountAccess) : Recorder * Ecx :=
  match recorded_account_diffs_stack s with
  | None => (s, e)
  | Some st =>
      if bool_decide (0 < journal_depth e) then
        match last st with
        | None => (s, e)
        | Some l =>
            let st := removelast st in
            match marked r l with
            | [] => (with_stack s (Some st), e)
            | a :: l =>
                let '(e, a) := if bool_decide (depth a = journal_depth e) then settle e a else (e, a) in
                (with_stack s (Some (merge_last st (a :: l))), e)
            end
        end
      else (s, e)
  end.

(** [call_end]; [returned] tells that the hook has left before it looks at
    what is recorded: for a cheatcode or the console, or as it judged an
    expected or assumed revert. *)
Definition call_end s e (returned : bool) (c : CallInputs) (r : CallResult) : Recorder * Ecx :=
  if returned then (s, e) else
  end_frame s e r (λ e a,
    let '(e, acc) := load_account e (ci_target_address c) in
    match acc with
    | Some acc => (e, with_result a (acc_balance acc) (acc_nonce acc) (deployedCode a))
    | None => (e, a)
    end).
Definition create_end s e (returned : bool) (address : option Address) (r : CallResult) : Recorder * Ecx :=
  if returned then (s, e) else
  end_frame s e r (λ e a,
    match address with
    | Some address =>
        let '(e, acc) := load_account e address in
        match acc with
        | Some acc => (e, with_result a (acc_balance acc) (acc_nonce acc) (original_bytes acc))
        | None => (e, a)
        end
    | None => (e, a)
    end).
End recording.

(** ** Cheatcodes *)
Definition apply_record (s : Recorder) : Recorder :=
  mkRecorder access_default true (recorded_account_diffs_stack s) (recorded_logs s) (mapping_slots s).
Definition apply_stopRecord (s : Recorder) : Recorder :=
  mkRecorder (accesses s) false (recorded_account_diffs_stack s) (recorded_logs s) (mapping_slots s).
(** The lookup leaves empty entries behind. *)
Definition apply_accesses (s : Recorder) (target : Address) : Recorder * (list U256 * list U256) :=
  let a := accesses s in
  let r := default [] (reads a !! target) in
  let w := default [] (writes a !! target) in
  (with_accesses s (mkRecordAccess (<[target := r]> (reads a)) (<[target := w]> (writes a))), (r, w)).
Definition apply_recordLogs (s : Recorder) : Recorder := with_logs s (Some []).
Definition apply_getRecordedLogs (s : Recorder) : Recorder * list VmLog :=
  (with_logs s (Some []), default [] (recorded_logs s)).
Definition apply_startStateDiffRecording (s : Recorder) : Recorder :=
  mkRecorder (accesses s) (recording_accesses s) (Some []) (recorded_logs s)
    (Some (default ∅ (mapping_slots s))).
Definition get_state_diff (s : Recorder) : Recorder * list AccountAccess :=
  (with_stack s (Some []), mjoin (default [] (recorded_account_diffs_stack s))).
Definition apply_getStorageAccesses (s : Recorder) : list StorageAccess :=
  mjoin (storageAccesses <$> mjoin (default [] (recorded_account_diffs_stack s))).

Definition apply_startMappingRecording (s : Recorder) : Recorder :=
  with_mappings s (Some (default ∅ (mapping_slots s))).
Definition apply_stopMappingRecording (s : Recorder) : Recorder := with_mappings s None.
Definition mapping_slot (s : Recorder) (target : Address) : option MappingSlots :=
  m ← mapping_slots s; m !! target.
Definition slot_child (s : Recorder) (target : Address) (slot : B256) : option (list B256) :=
  m ← mapping_slot s target; children m !! slot.
Definition apply_getMappingLength (s : Recorder) (target : Address) (slot : B256) : Z :=
  Z.of_nat (default 0%nat (length <$> slot_child s target slot)).
Definition apply_getMappingSlotAt (s : Recorder) (target : Address) (slot : B256) (idx : U256) : B256 :=
  default 0 (l ← slot_child s target slot; l !! Z.to_nat (u64_max `min` idx)).
(** [None] is the panic of an index of [parent_slots]. *)
Definition apply_getMappingKeyAndParentOf (s : Recorder) (target : Address) (slot : B256)
    : option (bool * B256 * B256) :=
  match mapping_slot s target with
  | None => Some (false, 0, 0)
  | Some m =>
      match keys m !! slot with
      | Some key => parent ← parent_slots m !! slot; Some (true, key, parent)
      | None =>
          match seen_sha3 m !! slot with
          | Some (key, parent) => Some (true, key, parent)
          | None => Some (false, 0, 0)
          end
      end
  end.

(** ** State diffs: [get_recorded_state_diffs]

    A diff is its previous and its new value.  The variable that a slot holds
    and its decoded values are left out. *)
Record AccountStateDiffs (Name : Type) := mkDiffs {
  label : option Name;
  contract : option Name;
  balance_diff : option (U256 * U256);
  nonce_diff : option (Z * Z);
  state_diff : gmap B256 (B256 * B256);
}.
Arguments mkDiffs {Name}.
Arguments label {Name}.
Arguments contract {Name}.
Arguments balance_diff {Name}.
Arguments nonce_diff {Name}.
Arguments state_diff {Name}.

Section diffs.
Context {Name : Type} (labels : gmap Address Name).
(** The name of the artifact behind the code of an address. *)
Context (get_contract_data : Address → option Name).
#[local] Abbreviation Diffs := (gmap Z (AccountStateDiffs Name)).

Definition kept_write (s : StorageAccess) : bool := isWrite s && negb (sa_reverted s).
Definition lookup_wanted (a : AccountAccess) : bool :=
  bool_decide (storageAccesses a ≠ []) || bool_decide (oldBalance a ≠ newBalance a).
Definition addresses_to_lookup (records : list AccountAccess) : gset Address :=
  foldl (λ g a,
    if lookup_wanted a
    then foldl (λ g s, if kept_write s then {[sa_account s]} ∪ g else g) ({[account a]} ∪ g) (storageAccesses a)
    else g) ∅ records.
Definition contract_names (records : list AccountAccess) (a : Address) : option Name :=
  if decide (a ∈ addresses_to_lookup records) then get_contract_data a else None.

(** [entry(a).or_insert_with(..)]. *)
Definition diffs_entry (names : Address → option Name) (m : Diffs) (a : Address) : AccountStateDiffs Name :=
  default (mkDiffs (labels !! a) (names a) None None ∅) (m !! a).
Definition update_diff {V} (d : option (V * V)) (old new : V) : option (V * V) :=
  Some (match d with Some (previous, _) => (previous, new) | None => (old, new) end).

Definition changed (a : AccountAccess) : bool :=
  bool_decide (storageAccesses a ≠ []) || bool_decide (oldBalance a ≠ newBalance a)
  || bool_decide (oldNonce a ≠ newNonce a).
Definition slot_step (names : Address → option Name) (m : Diffs) (s : StorageAccess) : Diffs :=
  if kept_write s then
    let d := diffs_entry names m (sa_account s) in
    let entry := match state_diff d !! sa_slot s with
                 | Some (previous, _) => (previous, newValue s)
                 | None => (previousValue s, newValue s)
                 end in
    <[sa_account s := mkDiffs (label d) (contract d) (balance_diff d) (nonce_diff d)
                        (<[sa_slot s := entry]> (state_diff d))]> m
  else m.
Definition diff_step (names : Address → option Name) (m : Diffs) (a : AccountAccess) : Diffs :=
  let m := if bool_decide (oldBalance a = newBalance a) then m else
    let d := diffs_entry names m (account a) in
    <[account a := mkDiffs (label d) (contract d) (update_diff (balance_diff d) (oldBalance a) (newBalance a))
                     (nonce_diff d) (state_diff d)]> m in
  let m := if bool_decide (oldNonce a = newNonce a) then m else
    let d := diffs_entry names m (account a) in
    <[account a := mkDiffs (label d) (contract d) (balance_diff d)
                     (update_diff (nonce_diff d) (oldNonce a) (newNonce a)) (state_diff d)]> m in
  foldl (slot_step names) m (storageAccesses a).

Definition get_recorded_state_diffs (s : Recorder) : Diffs :=
  match recorded_account_diffs_stack s with
  | None => ∅
  | Some st =>
      let records := mjoin st in
      foldl (diff_step (contract_names records)) ∅ (filter (λ a, changed a = true) records)
  end.
End diffs.
