(* ===== verification/RecordingProofs.v ===== *)
(** * Correctness of the recorders

    What is recorded is compared with the tree of calls that ran: the accesses
    come in the order of execution, each marked as reverted when a call around
    it reverted, and the state diff is the difference of the storage before
    and after. *)
From stdpp Require Import base list gmap.
From Stdlib Require Import ZArith Lia.
From S2P Require Import Prelude Recording.
#[local] Open Scope list_scope.

#[local] Abbreviation Address := Z (only parsing).
#[local] Abbreviation U256 := Z (only parsing).

(** ** The last element of a vector *)
Lemma update_last_snoc {A} (f : A → A) (l : list A) x : update_last f (l ++ [x]) = l ++ [f x].
Proof. unfold update_last. rewrite reverse_snoc. cbn [update_head]. by rewrite reverse_cons, reverse_involutive. Qed.
Lemma merge_last_snoc st l l' : merge_last (st ++ [l]) l' = st ++ [l ++ l'].
Proof. unfold merge_last. by rewrite last_snoc, update_last_snoc. Qed.

Section recording_proofs.
Context `{!RecEnv}.
Implicit Types (s : Recorder) (e : Ecx) (i : Interp) (l : list AccountAccess) (a : AccountAccess).

(** ** The tree of what runs *)
Inductive Opening :=
| OCall (e : Ecx) (c : CallInputs)
| OCreate (e : Ecx) (c : CreateInputs) (address : Address).
Inductive Closing :=
| CCall (e : Ecx) (c : CallInputs) (r : CallResult)
| CCreate (e : Ecx) (address : option Address) (r : CallResult).
Inductive Item :=
| IStep (i : Interp) (e : Ecx)
| IFrame (o : Opening) (items : list Item) (c : Closing).

Definition Item_ind' (P : Item → Prop) (Hs : ∀ i e, P (IStep i e))
    (Hf : ∀ o items c, Forall P items → P (IFrame o items c)) : ∀ it, P it :=
  fix go it := match it with
  | IStep i e => Hs i e
  | IFrame o items c => Hf o items c
      ((fix all items := match items return Forall P items with
                         | [] => Forall_nil_2 P
                         | it :: items => Forall_cons_2 P it items (go it) (all items)
                         end) items)
  end.

Definition run_opening s o : Recorder :=
  match o with OCall e c => (call s e c).1 | OCreate e c address => create s e c address end.
Definition run_closing s c : Recorder :=
  match c with
  | CCall e ci r => (call_end s e false ci r).1
  | CCreate e address r => (create_end s e false address r).1
  end.
(** The hooks over a tree. *)
Fixpoint run s (it : Item) {struct it} : option Recorder :=
  match it with
  | IStep i e => fst <$> step s i e
  | IFrame o items c =>
      let fix go s items := match items with
                            | [] => Some s
                            | it :: items => s ← run s it; go s items
                            end in
      s ← go (run_opening s o) items;
      Some (run_closing s c)
  end.
Definition run_all s (items : list Item) : option Recorder := fold_m run s items.
Lemma run_frame s o items c :
  run s (IFrame o items c) = s ← run_all (run_opening s o) items; Some (run_closing s c).
Proof.
  cbn [run]. generalize (run_opening s o). clear s. unfold run_all.
  induction items as [|it items IH]; intros s; cbn [fold_m mbind option_bind]; [done|].
  destruct (run s it) as [s'|]; cbn [mbind option_bind]; [apply IH|done].
Qed.

(** ** The effect of an instruction on the account accesses *)
Inductive Added := AStorage (a : StorageAccess) | AAccount (a : AccountAccess) | ANothing.

Definition added i e : Added :=
  if bool_decide (opcode i = SELFDESTRUCT) then
    match stack i !! 0%nat with
    | Some w =>
        let '(e, acc) := load_account e (from_word w) in
        let '(init, old_balance, old_nonce) :=
          match acc with Some a => (exists_ a, acc_balance a, acc_nonce a) | None => (false, 0, 0) end in
        let '(e, b) := ecx_balance e (interp_target i) in
        let v := default 0 b in
        AAccount (mkAccountAccess (chain_info e) SelfDestruct (from_word w) (interp_target i) init old_balance
                    (wrap_u256 (old_balance + v)) [] v [] false [] (journal_depth e) old_nonce old_nonce)
    | None => ANothing
    end
  else if bool_decide (opcode i = SLOAD) then
    match stack i !! 0%nat with
    | Some key => let v := (slot_value e (interp_target i) key).2 in
                  AStorage (mkStorageAccess (interp_target i) key false v v false)
    | None => ANothing
    end
  else if bool_decide (opcode i = SSTORE) then
    match stack i !! 0%nat, stack i !! 1%nat with
    | Some key, Some new =>
        AStorage (mkStorageAccess (interp_target i) key true (slot_value e (interp_target i) key).2 new false)
    | _, _ => ANothing
    end
  else
    match ext_kind (opcode i), stack i !! 0%nat with
    | Some k, Some w =>
        let '(e, acc) := load_account e (from_word w) in
        let '(init, balance, nonce) :=
          match acc with Some a => (exists_ a, acc_balance a, acc_nonce a) | None => (false, 0, 0) end in
        AAccount (mkAccountAccess (chain_info e) k (from_word w) (interp_target i) init balance balance []
                    0 [] false [] (journal_depth e) nonce nonce)
    | _, _ => ANothing
    end.

(** Reading the journal does not change its depth. *)
Class RecLaws : Prop := {
  load_depth e x : journal_depth (load_account e x).1 = journal_depth e;
  sload_depth e x k : journal_depth (sload e x k).1 = journal_depth e;
  balance_depth e x : journal_depth (ecx_balance e x).1 = journal_depth e;
}.
Context `{!RecLaws}.
Lemma slot_value_depth e x k : journal_depth (slot_value e x k).1 = journal_depth e.
Proof.
  unfold slot_value. pose proof (load_depth e x) as Hl. destruct (load_account e x) as [e1 [acc|]]; cbn in *; [|done].
  pose proof (sload_depth e1 x k) as Hs. destruct (sload e1 x k) as [e2 v]. cbn in *. congruence.
Qed.

(** What an instruction adds to the vector of its call. *)
Definition add l (x : Added) (d : Z) : list AccountAccess :=
  match x with
  | AStorage x => append_storage_access l x d
  | AAccount a => l ++ [a]
  | ANothing => l
  end.
(** The part of the state that [record_state_diffs] changes. *)
#[local] Abbreviation diffs s := (recorded_account_diffs_stack s) (only parsing).
Lemma record_state_diffs_open s i e st l : diffs s = Some (st ++ [l]) →
  diffs (record_state_diffs s i e).1 = Some (st ++ [add l (added i e) (journal_depth e)]).
Proof.
  intros Hs. unfold record_state_diffs, added. rewrite Hs, last_snoc.
  destruct (bool_decide (opcode i = SELFDESTRUCT)).
  { destruct (stack i !! 0%nat) as [w|]; cbn [add]; [|exact Hs].
    destruct (load_account e (from_word w)) as [e1 acc].
    destruct (match acc with Some _ => _ | None => _ end) as [[init ob] on].
    destruct (ecx_balance e1 (interp_target i)) as [e2 b]. cbn. by rewrite update_last_snoc. }
  destruct (bool_decide (opcode i = SLOAD)).
  { destruct (stack i !! 0%nat) as [key|]; cbn [add]; [|exact Hs].
    pose proof (slot_value_depth e (interp_target i) key) as Hd.
    destruct (slot_value e (interp_target i) key) as [e1 v]. cbn in Hd |- *. by rewrite update_last_snoc, Hd. }
  destruct (bool_decide (opcode i = SSTORE)).
  { destruct (stack i !! 0%nat) as [key|]; cbn [add]; [|exact Hs].
    destruct (stack i !! 1%nat) as [new|]; cbn [add]; [|exact Hs].
    pose proof (slot_value_depth e (interp_target i) key) as Hd.
    destruct (slot_value e (interp_target i) key) as [e1 v]. cbn in Hd |- *. by rewrite update_last_snoc, Hd. }
  destruct (ext_kind (opcode i)) as [k|]; cbn [add]; [|exact Hs].
  destruct (stack i !! 0%nat) as [w|]; cbn [add]; [|exact Hs].
  destruct (load_account e (from_word w)) as [e1 acc].
  destruct (match acc with Some _ => _ | None => _ end) as [[init ob] on]. cbn. by rewrite update_last_snoc.
Qed.

(** ** Mapping slots: the recursion of [insert] ends *)
Definition unknown (m : MappingSlots) : gset Z := dom (seen_sha3 m) ∖ dom (keys m).
Record mapping_wf (m : MappingSlots) : Prop := {
  mp_dom slot : is_Some (keys m !! slot) ↔ is_Some (parent_slots m !! slot);
  mp_children p slot : (∃ ls : list Z, children m !! p = Some ls ∧ slot ∈ ls) ↔ parent_slots m !! slot = Some p;
  mp_nodup p (ls : list Z) : children m !! p = Some ls → NoDup ls;
}.
Lemma mapping_default_wf : mapping_wf mapping_default.
Proof. split; cbn; intros; rewrite ?lookup_empty in *; try done. split; [by intros (l & ? & _)|done]. Qed.

Lemma elem_of_push_at m (k x y p : Z) :
  (∃ ls : list Z, push_at m k x !! p = Some ls ∧ y ∈ ls) ↔ (∃ ls : list Z, m !! p = Some ls ∧ y ∈ ls) ∨ (p = k ∧ y = x).
Proof.
  unfold push_at. destruct (decide (p = k)) as [->|Hne].
  - rewrite lookup_insert_eq. split.
    + intros (l & [= <-] & [Hy|Hy%list_elem_of_singleton]%elem_of_app); [|by right].
      left. destruct (m !! k) as [l|]; [by exists l|by apply not_elem_of_nil in Hy].
    + intros [(l & -> & Hy)|[_ ->]]; eexists; (split; [done|]); apply elem_of_app; [by left|right; by left].
  - rewrite lookup_insert_ne by done. naive_solver.
Qed.

Lemma insert_total fuel : ∀ m slot, mapping_wf m → (size (unknown m) < fuel)%nat →
  ∃ m' b, insert fuel m slot = Some (m', b) ∧ mapping_wf m' ∧ seen_sha3 m' = seen_sha3 m ∧
    (b = true ↔ is_Some (seen_sha3 m !! slot) ∧ keys m !! slot = None) ∧
    (is_Some (seen_sha3 m !! slot) → is_Some (keys m' !! slot)) ∧
    (∀ x, is_Some (keys m !! x) → is_Some (keys m' !! x) ∧ parent_slots m' !! x = parent_slots m !! x) ∧
    ∀ x, (∀ k, keys m' !! x = Some k → keys m !! x = Some k ∨ fst <$> seen_sha3 m !! x = Some k) ∧
         (∀ p, parent_slots m' !! x = Some p → parent_slots m !! x = Some p ∨ snd <$> seen_sha3 m !! x = Some p).
Proof.
  induction fuel as [|fuel IH]; intros m slot Hwf Hfuel; [lia|]. cbn [insert].
  destruct (seen_sha3 m !! slot) as [[key parent]|] eqn:Hseen.
  2: { exists m, false. split_and!; [done|done|done|naive_solver|naive_solver|done|naive_solver]. }
  case_bool_decide as Hknown.
  - eexists _, false. split; [done|]. cbn. split_and!.
    + destruct Hwf as [Hd Hc Hn]. split; cbn; [|done|done]. intros x. destruct (decide (x = slot)) as [->|Hne].
      * rewrite lookup_insert_eq, <- Hd. naive_solver.
      * by rewrite lookup_insert_ne.
    + done.
    + destruct Hknown as [? Hk]. rewrite Hk. naive_solver.
    + intros _. rewrite lookup_insert_eq. by eexists.
    + intros x Hx. split; [|done]. destruct (decide (x = slot)) as [->|Hne]; [rewrite lookup_insert_eq; by eexists|].
      by rewrite lookup_insert_ne.
    + intros x. split; [|by left]. intros k. destruct (decide (x = slot)) as [->|Hne].
      * rewrite lookup_insert_eq, Hseen. intros [= ->]. by right.
      * rewrite lookup_insert_ne by done. by left.
  - apply eq_None_not_Some in Hknown as Hnone. cbn [parent_slots keys children seen_sha3].
    set (m1 := mkMappingSlots _ _ _ _).
    assert (parent_slots m !! slot = None) as Hpn.
    { apply eq_None_not_Some. by rewrite <- (mp_dom _ Hwf). }
    assert (mapping_wf m1) as Hwf1.
    { destruct Hwf as [Hd Hc Hn]. split; cbn.
      - intros x. destruct (decide (x = slot)) as [->|Hne]; [rewrite !lookup_insert_eq; split; intros; by eexists|].
        by rewrite !lookup_insert_ne.
      - intros p x. rewrite elem_of_push_at, Hc. destruct (decide (x = slot)) as [->|Hne].
        + rewrite lookup_insert_eq, Hpn. naive_solver.
        + rewrite lookup_insert_ne by done. naive_solver.
      - intros p l. unfold push_at. destruct (decide (p = parent)) as [->|Hne].
        + rewrite lookup_insert_eq. intros [= <-]. apply NoDup_app. split_and!; [| |apply NoDup_singleton].
          * destruct (children m !! parent) as [l|] eqn:Hl; [by apply (Hn parent)|constructor].
          * intros y Hy ->%list_elem_of_singleton. destruct (children m !! parent) as [l|] eqn:Hl; [|by apply not_elem_of_nil in Hy].
            assert (parent_slots m !! slot = Some parent) as Hp by (apply Hc; by exists l). by rewrite Hpn in Hp.
        + rewrite lookup_insert_ne by done. apply Hn. }
    assert (size (unknown m1) < size (unknown m))%nat as Hsz.
    { apply subset_size. split.
      - unfold unknown. cbn. intros x. rewrite dom_insert. set_solver.
      - intros Hsub. assert (slot ∈ unknown m) as Hin.
        { unfold unknown. apply elem_of_difference. rewrite !elem_of_dom. split; [by eexists|done]. }
        apply Hsub in Hin. unfold unknown, m1 in Hin. cbn in Hin. rewrite dom_insert in Hin. set_solver. }
    destruct (IH m1 parent Hwf1 ltac:(lia)) as (m' & b & -> & Hwf' & Hseen' & _ & _ & Hkeep & Hsrc).
    cbn [mbind option_bind]. exists m', true. split_and!; [done|done|done|naive_solver| | |].
    + intros _. apply Hkeep. cbn. rewrite lookup_insert_eq. by eexists.
    + intros x Hx. assert (x ≠ slot) as Hne by (intros ->; by rewrite Hnone in Hx; destruct Hx).
      destruct (Hkeep x) as [Hk Hp]; [cbn; by rewrite lookup_insert_ne|].
      split; [done|]. cbn in Hp. by rewrite Hp, lookup_insert_ne.
    + intros x. destruct (Hsrc x) as [Hk Hp]. cbn in Hk, Hp. split; intros y Hy; [apply Hk in Hy|apply Hp in Hy].
      * destruct (decide (x = slot)) as [->|Hne]; [|by rewrite lookup_insert_ne in Hy].
        right. rewrite lookup_insert_eq in Hy. rewrite Hseen in *. by destruct Hy as [[= ->]|].
      * destruct (decide (x = slot)) as [->|Hne]; [|by rewrite lookup_insert_ne in Hy].
        right. rewrite lookup_insert_eq in Hy. rewrite Hseen in *. by destruct Hy as [[= ->]|].
Qed.

Definition mappings_wf (m : gmap Address MappingSlots) : Prop := ∀ (x : Z) ms, m !! x = Some ms → mapping_wf ms.
Definition recorder_wf s : Prop := ∀ m, mapping_slots s = Some m → mappings_wf m.

Lemma insert_fuel_enough ms slot : mapping_wf ms →
  ∃ ms' b, insert (insert_fuel ms) ms slot = Some (ms', b) ∧ mapping_wf ms'.
Proof.
  intros Hwf. destruct (insert_total (insert_fuel ms) ms slot Hwf) as (ms' & b & ? & ? & _); [|by exists ms', b].
  unfold insert_fuel, unknown. rewrite <- (size_dom (seen_sha3 ms)).
  pose proof (subseteq_size (dom (seen_sha3 ms) ∖ dom (keys ms)) (dom (seen_sha3 ms)) ltac:(set_solver)). lia.
Qed.

(** What an instruction hashes as the slot of a mapping is in memory already
    when its hook runs. *)
Definition hash_in_memory i : bool :=
  if bool_decide (opcode i = KECCAK256 ∧ stack i !! 1%nat = Some 64) then
    match stack i !! 0%nat with
    | Some offset => bool_decide (is_Some (slice_len i (u64_max `min` offset) 64))
    | None => true
    end
  else true.
Lemma mapping_step_outside m i : hash_in_memory i = false → mapping_step m i = None.
Proof.
  unfold hash_in_memory, mapping_step. destruct (bool_decide (opcode i = KECCAK256 ∧ _)); [|done].
  destruct (stack i !! 0%nat) as [offset|]; [|done]. intros Hs%bool_decide_eq_false. cbn.
  destruct (slice_len i _ 64); [|done]. exfalso. apply Hs. by eexists.
Qed.
Lemma mapping_step_total m i :
  hash_in_memory i = true → mappings_wf m → ∃ m', mapping_step m i = Some m' ∧ mappings_wf m'.
Proof.
  intros Hmem Hwf. unfold mapping_step. unfold hash_in_memory in Hmem. case_bool_decide as Hk.
  - destruct Hk as [_ Hk]. destruct (stack i) as [|offset rest]; [done|]. cbn in Hmem |- *.
    apply bool_decide_eq_true in Hmem as [bytes ->]. cbn. eexists. split; [done|].
    intros x ms. destruct (decide (x = interp_target i)) as [->|Hne]; [|rewrite lookup_insert_ne by done; apply Hwf].
    rewrite lookup_insert_eq. intros [= <-].
    assert (mapping_wf (default mapping_default (m !! interp_target i))) as [Hd Hc Hn].
    { destruct (m !! interp_target i) as [ms|] eqn:Hm; [by eapply Hwf|apply mapping_default_wf]. }
    by split.
  - case_bool_decide; [|by exists m]. destruct (m !! interp_target i) as [ms|] eqn:Hm; [|by exists m].
    destruct (stack i !! 0%nat) as [slot|]; [|by exists m].
    destruct (insert_fuel_enough ms slot) as (ms' & b & -> & Hwf'); [by eapply Hwf|]. cbn. eexists. split; [done|].
    intros x ms0. destruct (decide (x = interp_target i)) as [->|Hne].
    + rewrite lookup_insert_eq. by intros [= <-].
    + rewrite lookup_insert_ne by done. apply Hwf.
Qed.

Lemma record_accesses_fields s i : mapping_slots (record_accesses s i) = mapping_slots s ∧
  diffs (record_accesses s i) = diffs s.
Proof. done. Qed.
Lemma record_state_diffs_fields s i e : mapping_slots (record_state_diffs s i e).1 = mapping_slots s.
Proof.
  unfold record_state_diffs. destruct (diffs s) as [st|]; [|done].
  repeat case_match; done.
Qed.

(** The hook of an instruction returns, and what it does to the accesses. *)
Lemma step_total s i e : hash_in_memory i = true → recorder_wf s → ∃ s' e', step s i e = Some (s', e') ∧ recorder_wf s' ∧
  diffs s' = diffs (record_state_diffs s i e).1.
Proof.
  intros Hmem Hwf. unfold step. set (s1 := if recording_accesses s then _ else s).
  assert (mapping_slots s1 = mapping_slots s ∧ diffs (record_state_diffs s1 i e).1 = diffs (record_state_diffs s i e).1)
    as [Hm1 Hd1].
  { unfold s1. destruct (recording_accesses s); [|done]. split; [done|]. unfold record_state_diffs.
    rewrite (proj2 (record_accesses_fields s i)). destruct (diffs s) as [st|]; [|done].
    repeat case_match; done. }
  pose proof (record_state_diffs_fields s1 i e) as Hm2. destruct (record_state_diffs s1 i e) as [s2 e2]. cbn in *.
  destruct (mapping_slots s2) as [m|] eqn:Hm.
  - destruct (mapping_step_total m i Hmem) as (m' & -> & Hwf'); [apply Hwf; congruence|]. cbn.
    eexists _, _. split_and!; [done| |done]. by intros m0 [= <-].
  - eexists _, _. split_and!; [done| |done]. intros m0. by rewrite Hm.
Qed.

(** ** A call as a function of its tree *)
Definition opened (o : Opening) : AccountAccess :=
  match o with
  | OCall e c =>
      let '(e, acc) := load_account e (ci_target_address c) in
      let '(init, old_balance, old_nonce) :=
        match acc with Some a => (exists_ a, acc_balance a, acc_nonce a) | None => (false, 0, 0) end in
      mkAccountAccess (chain_info e) (scheme_kind (ci_scheme c)) (ci_bytecode_address c) (ci_caller c) init
        old_balance 0 [] (ci_value c) (ci_input c) false [] (journal_depth e) old_nonce 0
  | OCreate e c address =>
      mkAccountAccess (chain_info e) Create address (cr_caller c) true 0 0 [] (cr_value c) (cr_init_code c)
        false [] (journal_depth e) 0 1
  end.
Definition closing_result (c : Closing) : CallResult :=
  match c with CCall _ _ r => r | CCreate _ _ r => r end.
Definition settled (c : Closing) a : AccountAccess :=
  match c with
  | CCall e ci _ =>
      match (load_account e (ci_target_address ci)).2 with
      | Some acc => with_result a (acc_balance acc) (acc_nonce acc) (deployedCode a)
      | None => a
      end
  | CCreate e address _ =>
      match address ≫= λ x, (load_account e x).2 with
      | Some acc => with_result a (acc_balance acc) (acc_nonce acc) (original_bytes acc)
      | None => a
      end
  end.
Definition closed (c : Closing) l : list AccountAccess :=
  update_head (settled c) (marked (closing_result c) l).
(** The accesses of a call after an item in it. *)
Fixpoint body l (it : Item) : list AccountAccess :=
  match it with
  | IStep i e => add l (added i e) (journal_depth e)
  | IFrame o items c => l ++ closed c (foldl body [opened o] items)
  end.

Definition opening_depth (o : Opening) : Z :=
  match o with OCall e _ => journal_depth e | OCreate e _ _ => journal_depth e end.
Definition closing_depth (c : Closing) : Z :=
  match c with CCall e _ _ => journal_depth e | CCreate e _ _ => journal_depth e end.
(** What runs at a depth: calls are opened and closed there and their items
    run one deeper.  What is hashed as the slot of a mapping is in memory, and
    a call is one that is neither mocked nor reverts as it is expected or
    assumed to: [run_opening] and [run_closing] record it. *)
Inductive item_at : Z → Item → Prop :=
| at_step d i e : journal_depth e = d → hash_in_memory i = true → item_at d (IStep i e)
| at_frame d o items c : 0 < d → opening_depth o = d → closing_depth c = d →
    Forall (item_at (d + 1)) items → item_at d (IFrame o items c).

Lemma opened_depth o : depth (opened o) = opening_depth o.
Proof.
  destruct o as [e c|e c x]; cbn; [|done]. pose proof (load_depth e (ci_target_address c)) as Hd.
  destruct (load_account e _) as [e' acc]. destruct (match acc with Some _ => _ | None => _ end) as [[? ?] ?]. exact Hd.
Qed.
Lemma run_opening_diffs s o st : diffs s = Some st → diffs (run_opening s o) = Some (st ++ [[opened o]]) ∧
  mapping_slots (run_opening s o) = mapping_slots s.
Proof.
  intros Hs. destruct o as [e c|e c x]; cbn [run_opening]; [unfold call|unfold create]; rewrite Hs; [|done]. cbn [opened].
  destruct (load_account e _) as [e' acc]. by destruct (match acc with Some _ => _ | None => _ end) as [[? ?] ?].
Qed.

(** The first access of a vector is that of its call. *)
Definition head_depth l (d : Z) : Prop := ∃ a l', l = a :: l' ∧ depth a = d ∧ kind a ≠ Resume.
Lemma closed_head c l d : head_depth l d → head_depth (closed c l) d.
Proof.
  assert (∀ a, depth (settled c a) = depth a ∧ kind (settled c a) = kind a) as Hs.
  { intros a. destruct c as [e ci r|e x r]; cbn; by case_match. }
  intros (a & l' & -> & Hd). unfold closed, marked. destruct (closing_result c); cbn; do 2 eexists; (split; [done|]);
    rewrite (proj1 (Hs _)), (proj2 (Hs _)); exact Hd.
Qed.
Lemma append_head l x k d : head_depth l d → head_depth (append_storage_access l x k) d.
Proof.
  intros (a & l' & -> & Hd). unfold append_storage_access. case_bool_decide; [|by eexists _, _].
  case_bool_decide; [cbn; by eexists _, _|]. destruct l' as [|b l'] using rev_ind; [done|]. clear IHl'.
  rewrite app_comm_cons, last_snoc. case_bool_decide; [rewrite update_last_snoc|]; cbn; by eexists _, _.
Qed.
Lemma body_head l it d : head_depth l d → head_depth (body l it) d.
Proof.
  intros Hl. destruct it as [i e|o items c]; cbn [body].
  - unfold add. destruct (added i e); [by apply append_head| |done]. destruct Hl as (a' & l' & -> & Hd). by eexists _, _.
  - destruct Hl as (a' & l' & -> & Hd). by eexists _, _.
Qed.
Lemma foldl_body_head items : ∀ l d, head_depth l d → head_depth (foldl body l items) d.
Proof. induction items as [|it items IH]; intros l d Hl; [done|]. cbn. by apply IH, body_head. Qed.

(** A frame that ends is merged into what is below. *)
Lemma run_closing_diffs s c st l : diffs s = Some (st ++ [l]) → 0 < closing_depth c →
  head_depth l (closing_depth c) →
  diffs (run_closing s c) = Some (merge_last st (closed c l)) ∧ mapping_slots (run_closing s c) = mapping_slots s.
Proof.
  intros Hs Hd (a & l' & -> & Ha & _). unfold closed.
  assert (∀ e r f, journal_depth e = closing_depth c → closing_result c = r →
    (∀ a, (f e a).2 = settled c a) →
    diffs (end_frame s e r f).1 = Some (merge_last st (update_head (settled c) (marked (closing_result c) (a :: l')))) ∧
    mapping_slots (end_frame s e r f).1 = mapping_slots s) as Hend.
  { intros e r f He Hr Hf. unfold end_frame. rewrite Hs, last_snoc, removelast_last, bool_decide_true by lia.
    rewrite Hr. destruct (marked r (a :: l')) as [|b l2] eqn:Hm; [by destruct r|].
    assert (depth b = journal_depth e) as Hb.
    { unfold marked in Hm. destruct r; cbn in Hm; injection Hm as <- _; cbn; congruence. }
    rewrite bool_decide_true by done. pose proof (Hf b) as Hfb. destruct (f e b) as [e' b']. cbn in *. by subst b'. }
  destruct c as [e ci r|e x r]; cbn [run_closing]; [unfold call_end|unfold create_end]; apply Hend; try done; intros b; cbn.
  - by destruct (load_account e _) as [? []].
  - destruct x as [x|]; [|done]. cbn. by destruct (load_account e x) as [? []].
Qed.

(** ** The hooks compute the tree's accesses *)
Lemma run_all_body items : ∀ s st l d,
  Forall (λ it, ∀ s st l d, item_at d it → recorder_wf s → diffs s = Some (st ++ [l]) →
    ∃ s', run s it = Some s' ∧ recorder_wf s' ∧ diffs s' = Some (st ++ [body l it])) items →
  Forall (item_at d) items → recorder_wf s → diffs s = Some (st ++ [l]) →
  ∃ s', run_all s items = Some s' ∧ recorder_wf s' ∧ diffs s' = Some (st ++ [foldl body l items]).
Proof.
  induction items as [|it items IH]; intros s st l d Hall Hat Hwf Hs; [by exists s|].
  apply Forall_cons in Hall as [Hit Hall]. apply Forall_cons in Hat as [Hd Hat].
  destruct (Hit s st l d Hd Hwf Hs) as (s1 & Hr & Hwf1 & Hs1).
  destruct (IH s1 st (body l it) d Hall Hat Hwf1 Hs1) as (s' & Hr' & ? & ?). exists s'. split; [|done].
  unfold run_all in *. cbn [fold_m]. by rewrite Hr.
Qed.

Lemma opened_head o : head_depth [opened o] (opening_depth o).
Proof.
  exists (opened o), []. split_and!; [done|apply opened_depth|]. destruct o as [e c|e c x]; cbn; [|done].
  destruct (load_account e _) as [e' acc]. destruct (match acc with Some _ => _ | None => _ end) as [[? ?] ?].
  by destruct (ci_scheme c).
Qed.

Lemma item_frame d o items c : item_at d (IFrame o items c) →
  0 < d ∧ opening_depth o = d ∧ closing_depth c = d ∧ Forall (item_at (d + 1)) items.
Proof. by inversion 1. Qed.

(** A frame, over whatever is below it. *)
Lemma run_frame_closed o items c d s st : item_at d (IFrame o items c) → recorder_wf s → diffs s = Some st →
  Forall (λ it, ∀ s st l d, item_at d it → recorder_wf s → diffs s = Some (st ++ [l]) →
    ∃ s', run s it = Some s' ∧ recorder_wf s' ∧ diffs s' = Some (st ++ [body l it])) items →
  ∃ s', run s (IFrame o items c) = Some s' ∧ recorder_wf s' ∧
    diffs s' = Some (merge_last st (closed c (foldl body [opened o] items))).
Proof.
  intros (Hd & Ho & Hc & Hitems)%item_frame Hwf Hs Hall.
  destruct (run_opening_diffs s o st Hs) as [Hs1 Hm1].
  destruct (run_all_body items (run_opening s o) st [opened o] (d + 1) Hall) as (s2 & Hr2 & Hwf2 & Hs2); [done| |exact Hs1|].
  { intros m. rewrite Hm1. apply Hwf. }
  destruct (run_closing_diffs s2 c st (foldl body [opened o] items) Hs2) as [Hs3 Hm3]; [lia| |].
  { apply foldl_body_head. rewrite Hc, <- Ho. apply opened_head. }
  exists (run_closing s2 c). rewrite run_frame, Hr2. split_and!; [done| |done]. intros m. rewrite Hm3. apply Hwf2.
Qed.

Lemma run_body it : ∀ s st l d, item_at d it → recorder_wf s → diffs s = Some (st ++ [l]) →
  ∃ s', run s it = Some s' ∧ recorder_wf s' ∧ diffs s' = Some (st ++ [body l it]).
Proof.
  induction it as [i e|o items c IH] using Item_ind'; intros s st l d Hat Hwf Hs.
  - destruct (step_total s i e) as (s' & e' & Hst & Hwf' & Hd'); [by inversion Hat|done|]. exists s'.
    cbn [run body]. rewrite Hst. split_and!; [done|done|]. rewrite Hd'. by apply record_state_diffs_open.
  - destruct (run_frame_closed o items c d s (st ++ [l]) Hat Hwf Hs IH) as (s' & ? & ? & Hd').
    exists s'. split_and!; [done..|]. by rewrite Hd', merge_last_snoc.
Qed.

(** ** The storage accesses, in order *)
Definition storage_of l : list StorageAccess := mjoin (storageAccesses <$> l).
Lemma storage_of_app l1 l2 : storage_of (l1 ++ l2) = storage_of l1 ++ storage_of l2.
Proof. unfold storage_of. by rewrite fmap_app, join_app. Qed.
Lemma storage_of_cons a l : storage_of (a :: l) = storageAccesses a ++ storage_of l.
Proof. done. Qed.

Definition mark_if {A} (r : CallResult) (f : A → A) (ls : list A) : list A :=
  match r with ResRevert => f <$> ls | _ => ls end.
(** The accesses that ran in a call, marked when a call around them reverted. *)
Fixpoint trace (it : Item) : list StorageAccess :=
  match it with
  | IStep i e => match added i e with AStorage x => [x] | _ => [] end
  | IFrame o items c => mark_if (closing_result c) mark_storage (mjoin (trace <$> items))
  end.

Lemma added_account i e a : added i e = AAccount a →
  storageAccesses a = [] ∧ depth a = journal_depth e ∧ kind a ≠ Resume ∧
  (kind a = SelfDestruct ↔ opcode i = SELFDESTRUCT).
Proof.
  unfold added. case_bool_decide as Hsd.
  { destruct (stack i !! 0%nat) as [w|]; [|done]. pose proof (load_depth e (from_word w)) as H1'.
    destruct (load_account e (from_word w)) as [e1 acc].
    destruct (match acc with Some _ => _ | None => _ end) as [[init ob] on].
    pose proof (balance_depth e1 (interp_target i)) as H2'. destruct (ecx_balance e1 (interp_target i)) as [e2 b]. cbn in *.
    intros [= <-]. cbn. split_and!; [done|congruence|done|done]. }
  case_bool_decide; [by destruct (stack i !! 0%nat)|].
  case_bool_decide; [destruct (stack i !! 0%nat); [by destruct (stack i !! 1%nat)|done]|].
  destruct (ext_kind (opcode i)) as [k|] eqn:Hk; [|done]. destruct (stack i !! 0%nat) as [w|]; [|done].
  pose proof (load_depth e (from_word w)) as H1'. destruct (load_account e (from_word w)) as [e1 acc].
  destruct (match acc with Some _ => _ | None => _ end) as [[init ob] on]. cbn in *.
  assert (k ≠ Resume ∧ k ≠ SelfDestruct) as [? ?].
  { unfold ext_kind in Hk. repeat case_bool_decide; by simplify_eq. }
  intros [= <-]. cbn. split_and!; [done|congruence|done|naive_solver].
Qed.

Lemma append_storage l x d k : head_depth l k → k < d →
  storage_of (append_storage_access l x d) = storage_of l ++ [x].
Proof.
  intros (a & l' & -> & <- & _) Hk. unfold append_storage_access. rewrite bool_decide_true by done.
  case_bool_decide as Hlen.
  - destruct l'; [|done]. cbn. by rewrite !app_nil_r.
  - destruct l' as [|b l' _] using rev_ind; [done|]. rewrite app_comm_cons, last_snoc. case_bool_decide.
    + rewrite update_last_snoc, !storage_of_app. cbn. rewrite !app_nil_r. by rewrite app_assoc.
    + by rewrite storage_of_app.
Qed.
Lemma storage_marked r l : storage_of (marked r l) = mark_if r mark_storage (storage_of l).
Proof.
  destruct r; [done| |done]. unfold marked, mark_if. induction l as [|a l IH]; [done|].
  rewrite fmap_cons, !storage_of_cons, fmap_app. f_equal. exact IH.
Qed.
Lemma settled_storage c a : storageAccesses (settled c a) = storageAccesses a.
Proof. destruct c as [e ci r|e x r]; cbn; by case_match. Qed.
Lemma storage_closed c l : storage_of (closed c l) = mark_if (closing_result c) mark_storage (storage_of l).
Proof.
  unfold closed. rewrite <- storage_marked. destruct (marked _ l) as [|a l']; [done|].
  cbn [update_head]. by rewrite !storage_of_cons, settled_storage.
Qed.

Lemma body_storage it : ∀ l d k, item_at d it → head_depth l k → k < d →
  storage_of (body l it) = storage_of l ++ trace it.
Proof.
  induction it as [i e|o items c IH] using Item_ind'; intros l d k Hat Hl Hk; cbn [body trace].
  - inversion Hat; subst. unfold add. destruct (added i e) as [x|a|] eqn:Ha; [by eapply append_storage| |by rewrite app_nil_r].
    apply added_account in Ha as [Ha _]. rewrite storage_of_app. cbn. by rewrite Ha.
  - apply item_frame in Hat as (_ & Ho & _ & Hitems). rewrite storage_of_app, storage_closed. f_equal. f_equal.
    assert (storage_of [opened o] = []) as Hnil.
    { destruct o as [e ci|e ci x]; cbn; [|done]. destruct (load_account e _) as [e' acc].
      by destruct (match acc with Some _ => _ | None => _ end) as [[? ?] ?]. }
    rewrite <- (app_nil_l (mjoin _)), <- Hnil. assert (head_depth [opened o] d) as Hh by (rewrite <- Ho; apply opened_head).
    clear Hnil. revert Hh. generalize [opened o]. induction items as [|it items IHi]; intros l0 Hh; cbn [foldl fmap list_fmap mjoin list_join]; [by rewrite app_nil_r|].
    apply Forall_cons in IH as [Hit IH]. apply Forall_cons in Hitems as [Hd Hitems].
    rewrite (IHi IH Hitems) by by apply body_head. rewrite (Hit l0 (d + 1) d Hd Hh) by lia. by rewrite <- app_assoc.
Qed.

(** ** The calls, creates and reads of accounts, in order *)
Definition no_storage a : AccountAccess := with_storage a [].
Definition shown l : list AccountAccess := no_storage <$> filter (λ a, kind a ≠ Resume) l.
Lemma shown_app l1 l2 : shown (l1 ++ l2) = shown l1 ++ shown l2.
Proof. unfold shown. by rewrite filter_app, fmap_app. Qed.
Lemma shown_cons a l : shown (a :: l) = (if decide (kind a ≠ Resume) then [no_storage a] else []) ++ shown l.
Proof. unfold shown. rewrite filter_cons. by case_decide. Qed.

(** A call comes before what runs in it and carries its outcome; if it
    reverted it and all in it are marked. *)
Fixpoint entries (it : Item) : list AccountAccess :=
  match it with
  | IStep i e => match added i e with AAccount a => [a] | _ => [] end
  | IFrame o items c =>
      update_head (settled c) (mark_if (closing_result c) mark_reverted (opened o :: mjoin (entries <$> items)))
  end.

Lemma append_shown l x d k : head_depth l k → shown (append_storage_access l x d) = shown l.
Proof.
  assert (∀ a l1, shown (push_storage x a :: l1) = shown (a :: l1)) as Hpush.
  { intros a l1. by rewrite !shown_cons. }
  intros (a & l' & -> & _ & _). unfold append_storage_access. case_bool_decide; [|done].
  case_bool_decide; [apply Hpush|]. destruct l' as [|b l' _] using rev_ind; [done|]. rewrite app_comm_cons, last_snoc.
  case_bool_decide as Hk; [by rewrite update_last_snoc, !shown_app, Hpush|]. rewrite shown_app. apply app_nil_r.
Qed.
Lemma settled_no_storage c a : no_storage (settled c a) = settled c (no_storage a) ∧ kind (settled c a) = kind a.
Proof. destruct c as [e ci r|e x r]; cbn; by case_match. Qed.
Lemma shown_marked r l : shown (marked r l) = mark_if r mark_reverted (shown l).
Proof.
  destruct r; [done| |done]. unfold marked, mark_if. induction l as [|a l IH]; [done|].
  rewrite fmap_cons, !shown_cons, fmap_app, IH. f_equal. cbn. by case_decide.
Qed.
Lemma shown_closed c l k : head_depth l k →
  shown (closed c l) = update_head (settled c) (mark_if (closing_result c) mark_reverted (shown l)).
Proof.
  intros (a & l' & -> & _ & Hk). unfold closed. rewrite <- shown_marked.
  assert (∀ b l2, kind b ≠ Resume → shown (settled c b :: l2) = update_head (settled c) (shown (b :: l2))) as Hs.
  { intros b l2 Hb. rewrite !shown_cons, (proj2 (settled_no_storage c b)), !decide_True by done. cbn.
    by rewrite (proj1 (settled_no_storage c b)). }
  unfold marked. by destruct (closing_result c); apply Hs.
Qed.
Lemma with_nil_storage a : storageAccesses a = [] → no_storage a = a.
Proof. destruct a; cbn. by intros ->. Qed.
Lemma opened_no_storage o : no_storage (opened o) = opened o.
Proof.
  apply with_nil_storage. destruct o as [e c|e c x]; cbn; [|done]. destruct (load_account e _) as [e' acc].
  by destruct (match acc with Some _ => _ | None => _ end) as [[? ?] ?].
Qed.

Lemma body_shown it : ∀ l d k, item_at d it → head_depth l k → shown (body l it) = shown l ++ entries it.
Proof.
  induction it as [i e|o items c IH] using Item_ind'; intros l d k Hat Hl; cbn [body entries].
  - unfold add. destruct (added i e) as [x|a|] eqn:Ha; [rewrite app_nil_r; by eapply append_shown| |by rewrite app_nil_r].
    apply added_account in Ha as (Ha & _ & Hk & _). rewrite shown_app, shown_cons, decide_True by done. cbn.
    by rewrite with_nil_storage.
  - apply item_frame in Hat as (_ & Ho & _ & Hitems). rewrite shown_app. f_equal.
    assert (head_depth [opened o] d) as Hh by (rewrite <- Ho; apply opened_head).
    rewrite (shown_closed c _ d) by by apply foldl_body_head. f_equal. f_equal.
    assert (shown [opened o] = [opened o]) as Hone.
    { destruct Hh as (a & l' & [= <- <-] & _ & Hk). rewrite shown_cons, decide_True by done. by rewrite opened_no_storage. }
    change (opened o :: mjoin (entries <$> items)) with ([opened o] ++ mjoin (entries <$> items)). rewrite <- Hone at 2. clear Hone.
    revert Hh. generalize [opened o]. induction items as [|it items IHi]; intros l0 Hh;
      cbn [foldl fmap list_fmap mjoin list_join]; [by rewrite app_nil_r|].
    apply Forall_cons in IH as [Hit IH]. apply Forall_cons in Hitems as [Hd Hitems].
    rewrite (IHi IH Hitems) by by apply body_head. rewrite (Hit l0 (d + 1) d Hd Hh). by rewrite <- app_assoc.
Qed.

(** ** The call in which recording starts *)
(** Its own storage accesses are not recorded. *)
Definition top l (it : Item) : list AccountAccess :=
  match it with
  | IStep i e => match added i e with AAccount a => l ++ [a] | _ => l end
  | IFrame o items c => l ++ closed c (foldl body [opened o] items)
  end.
Definition top_trace (it : Item) : list StorageAccess :=
  match it with IStep _ _ => [] | IFrame _ _ _ => trace it end.
Definition vectors l : list (list AccountAccess) := match l with [] => [] | _ => [l] end.
(** The recording call itself does not self-destruct. *)
Definition top_ok (it : Item) : Prop :=
  match it with IStep i _ => opcode i ≠ SELFDESTRUCT | IFrame _ _ _ => True end.
Definition empty_or_headed l (d : Z) : Prop := l = [] ∨ head_depth l d.

Lemma record_state_diffs_top s i e l : opcode i ≠ SELFDESTRUCT → diffs s = Some (vectors l) →
  empty_or_headed l (journal_depth e) →
  diffs (record_state_diffs s i e).1 = Some (vectors (top l (IStep i e))).
Proof.
  intros Hsd Hs [-> | Hl].
  - unfold record_state_diffs, top, added. rewrite Hs, bool_decide_false by done. cbn [vectors last].
    repeat case_match; simplify_eq; first [exact Hs|done].
  - pose proof Hl as (a & l' & -> & Ha & _). rewrite (record_state_diffs_open s i e [] (a :: l') Hs). cbn [top app].
    unfold add. destruct (added i e) as [x|b|]; [|done..]. unfold append_storage_access. by rewrite bool_decide_false by lia.
Qed.
Lemma merge_vectors l a l' : merge_last (vectors l) (a :: l') = vectors (l ++ a :: l').
Proof. destruct l as [|b l]; [done|]. exact (merge_last_snoc [] (b :: l) (a :: l')). Qed.

Lemma run_top it s l d : item_at d it → top_ok it → recorder_wf s → diffs s = Some (vectors l) → empty_or_headed l d →
  ∃ s', run s it = Some s' ∧ recorder_wf s' ∧ diffs s' = Some (vectors (top l it)) ∧ empty_or_headed (top l it) d ∧
    storage_of (top l it) = storage_of l ++ top_trace it ∧ shown (top l it) = shown l ++ entries it.
Proof.
  intros Hat Hok Hwf Hs Hl. destruct it as [i e|o items c].
  - destruct (step_total s i e) as (s' & e' & Hst & Hwf' & Hd'); [by inversion Hat|done|].
    exists s'. cbn [run]. rewrite Hst.
    assert (journal_depth e = d) as He by by inversion Hat. split_and!; [done|done| | | |].
    + rewrite Hd'. apply record_state_diffs_top; [done..|by rewrite He].
    + cbn [top]. destruct (added i e) as [x|a|] eqn:Ha; [done| |done]. apply added_account in Ha as (_ & Hda & Hk & _).
      right. destruct Hl as [-> |(b & l' & -> & Hb)]; [exists a, []|by exists b, (l' ++ [a])]. split; [done|]. split; [congruence|done].
    + cbn [top top_trace]. rewrite app_nil_r. destruct (added i e) as [x|a|] eqn:Ha; [done| |done].
      apply added_account in Ha as [Ha _]. rewrite storage_of_app, storage_of_cons, Ha. cbn. by rewrite app_nil_r.
    + cbn [top entries]. destruct (added i e) as [x|a|] eqn:Ha; [by rewrite app_nil_r| |by rewrite app_nil_r].
      apply added_account in Ha as (Ha & _ & Hk & _). rewrite shown_app, shown_cons, decide_True by done. cbn.
      by rewrite with_nil_storage.
  - destruct (run_frame_closed o items c d s (vectors l) Hat Hwf Hs) as (s' & Hr & Hwf' & Hd').
    { apply Forall_forall. intros it _. apply run_body. }
    exists s'. pose proof (item_frame _ _ _ _ Hat) as (_ & Ho & _ & Hitems).
    assert (head_depth (closed c (foldl body [opened o] items)) d) as Hh.
    { apply closed_head, foldl_body_head. rewrite <- Ho. apply opened_head. }
    assert (∀ l0, head_depth l0 (d - 1) → storage_of (body l0 (IFrame o items c)) = storage_of l0 ++ trace (IFrame o items c)) as Hst.
    { intros l0 H0'. by apply (body_storage _ l0 d (d - 1)); [| |lia]. }
    assert (∀ l0, head_depth l0 (d - 1) → shown (body l0 (IFrame o items c)) = shown l0 ++ entries (IFrame o items c)) as Hsh.
    { intros l0 H0'. by apply (body_shown _ l0 d (d - 1)). }
    assert (∃ l0, head_depth l0 (d - 1)) as [l0 Hl0].
    { destruct Hh as (a & l' & _ & _ & Hk).
      exists [mkAccountAccess (chainInfo a) Call 0 0 false 0 0 [] 0 [] false [] (d - 1) 0 0]. by eexists _, []. }
    specialize (Hst l0 Hl0). specialize (Hsh l0 Hl0). cbn [body] in Hst, Hsh. rewrite storage_of_app in Hst. rewrite shown_app in Hsh.
    apply app_inv_head in Hst, Hsh. cbn [top top_trace]. rewrite storage_of_app, shown_app, Hst, Hsh.
    split_and!; [done|done| | |done|done].
    + rewrite Hd'. destruct Hh as (a & l' & -> & _). f_equal. apply merge_vectors.
    + right. destruct Hl as [-> |(b & l' & -> & Hb)]; [exact Hh|]. by eexists _, _.
Qed.

Lemma run_tops items : ∀ s l d, Forall (item_at d) items → Forall top_ok items → recorder_wf s →
  diffs s = Some (vectors l) → empty_or_headed l d →
  ∃ s', run_all s items = Some s' ∧ recorder_wf s' ∧ diffs s' = Some (vectors (foldl top l items)) ∧
    storage_of (foldl top l items) = storage_of l ++ mjoin (top_trace <$> items) ∧
    shown (foldl top l items) = shown l ++ mjoin (entries <$> items).
Proof.
  induction items as [|it items IH]; intros s l d Hat Hok Hwf Hs Hl.
  { exists s. cbn. by rewrite !app_nil_r. }
  apply Forall_cons in Hat as [Hd Hat]. apply Forall_cons in Hok as [Ho Hok].
  destruct (run_top it s l d Hd Ho Hwf Hs Hl) as (s1 & Hr & Hwf1 & Hs1 & Hl1 & Hst & Hsh).
  destruct (IH s1 (top l it) d Hat Hok Hwf1 Hs1 Hl1) as (s' & Hr' & ? & ? & Hst' & Hsh').
  exists s'. unfold run_all in *. cbn [fold_m foldl fmap list_fmap mjoin list_join]. rewrite Hr. cbn [mbind option_bind].
  split_and!; [done|done|done| |]; [by rewrite Hst', Hst, <- app_assoc|by rewrite Hsh', Hsh, <- app_assoc].
Qed.
Lemma join_vectors l : mjoin (vectors l) = l.
Proof. destruct l; [done|]. cbn. by rewrite app_nil_r. Qed.

(** C27: after [startStateDiffRecording] the hooks neither panic nor loop over
    any tree of calls and creates, at any depth, that end by success, revert
    or halt, and what they keep on their stack of call depths is what a
    recursion over the calls gives: the storage accesses of the calls that
    were made come in the order of execution, and the calls, creates and reads
    of accounts come in that order too, each call before what runs in it and
    with its outcome; an access is marked as reverted exactly if a call around
    it ended by revert.  The calls are those that the hooks record: none is
    mocked and none reverts as [expectRevert] or an assumption expects, for
    which this fails; the recording call itself does not self-destruct; and 64
    bytes that an instruction hashes are in memory before it. *)
Theorem accesses_follow_calls s items d :
  recorder_wf s → Forall (item_at d) items → Forall top_ok items →
  ∃ s', run_all (apply_startStateDiffRecording s) items = Some s' ∧ recorder_wf s' ∧
    apply_getStorageAccesses s' = mjoin (top_trace <$> items) ∧
    shown (get_state_diff s').2 = mjoin (entries <$> items).
Proof.
  intros Hwf Hat Hok.
  destruct (run_tops items (apply_startStateDiffRecording s) [] d Hat Hok) as (s' & Hr & Hwf' & Hs' & Hst & Hsh).
  - intros m [= <-]. destruct (mapping_slots s) as [m|] eqn:Hm; [by apply Hwf|]. intros x ms. cbn. by rewrite lookup_empty.
  - done.
  - by left.
  - exists s'. split_and!; [done|done| |].
    + unfold apply_getStorageAccesses. rewrite Hs'. change (default [] (Some ?x)) with x. rewrite join_vectors. exact Hst.
    + unfold get_state_diff. cbn [snd]. rewrite Hs'. change (default [] (Some ?x)) with x. rewrite join_vectors. exact Hsh.
Qed.
End recording_proofs.

(** ** What the recorded accesses say: mapping slots and state diffs

    The keys behind the slots of mappings are consistent, and the state diff
    of the recorded calls is the difference between the storage before them
    and after them. *)
Section state_diffs.
Context `{!RecEnv, !RecLaws}.
Implicit Types (s : Recorder) (e : Ecx) (i : Interp).

(** ** Mapping slots *)
Lemma child_parent s target p (ls : list Z) slot : recorder_wf s → slot_child s target p = Some ls → slot ∈ ls →
  ∃ key, apply_getMappingKeyAndParentOf s target slot = Some (true, key, p).
Proof.
  unfold slot_child, apply_getMappingKeyAndParentOf, mapping_slot. intros Hwf.
  destruct (mapping_slots s) as [m|] eqn:Hm; [|done]. cbn [mbind option_bind].
  destruct (m !! target) as [ms|] eqn:Ht; [|done]. cbn [mbind option_bind]. intros Hc Hin.
  pose proof (Hwf m Hm target ms Ht) as Hms. assert (parent_slots ms !! slot = Some p) as Hp.
  { apply (mp_children ms Hms). by exists ls. }
  destruct (proj2 (mp_dom ms Hms slot)) as [key Hk]; [by rewrite Hp|]. exists key. by rewrite Hk, Hp.
Qed.
Lemma key_and_parent_total s target slot : recorder_wf s → is_Some (apply_getMappingKeyAndParentOf s target slot).
Proof.
  intros Hwf. unfold apply_getMappingKeyAndParentOf, mapping_slot.
  destruct (mapping_slots s) as [m|] eqn:Hm; [|by eexists]. cbn [mbind option_bind].
  destruct (m !! target) as [ms|] eqn:Ht; [|by eexists]. destruct (keys ms !! slot) as [key|] eqn:Hk.
  - destruct (proj1 (mp_dom ms (Hwf m Hm target ms Ht) slot)) as [p Hp]; [by rewrite Hk|]. rewrite Hp. by eexists.
  - destruct (seen_sha3 ms !! slot) as [[? ?]|]; by eexists.
Qed.

Lemma step_mappings s i e s' e' : step s i e = Some (s', e') →
  match mapping_slots s with
  | Some m => ∃ m', mapping_step m i = Some m' ∧ mapping_slots s' = Some m'
  | None => mapping_slots s' = None
  end.
Proof.
  unfold step. set (s1 := if recording_accesses s then _ else s).
  assert (mapping_slots s1 = mapping_slots s) as H1'. { unfold s1. by destruct (recording_accesses s). }
  pose proof (record_state_diffs_fields s1 i e) as H2'. destruct (record_state_diffs s1 i e) as [s2 e2]. cbn in H2'.
  rewrite H2', H1'. destruct (mapping_slots s) as [m|] eqn:Hms; [|intros [= <- _]; congruence].
  destruct (mapping_step m i) as [m'|]; [|done]. intros [= <- _]. by exists m'.
Qed.

(** The hook fails exactly on a hash of what is not in memory yet. *)
Lemma step_none s i e :
  recorder_wf s → step s i e = None ↔ is_Some (mapping_slots s) ∧ hash_in_memory i = false.
Proof.
  intros Hwf. destruct (hash_in_memory i) eqn:Hmem.
  - destruct (step_total s i e Hmem Hwf) as (s' & e' & -> & _). split; [done|by intros [_ ?]].
  - unfold step. set (s1 := if recording_accesses s then _ else s).
    assert (mapping_slots s1 = mapping_slots s) as H1'. { unfold s1. by destruct (recording_accesses s). }
    pose proof (record_state_diffs_fields s1 i e) as H2'. destruct (record_state_diffs s1 i e) as [s2 e2]. cbn in H2'.
    rewrite H2', H1'. destruct (mapping_slots s) as [m|].
    + rewrite mapping_step_outside by done. split; [intros _; split; [by eexists|done]|done].
    + split; [done|]. by intros [[? ?] _].
Qed.
Lemma recorder_step_wf s i e s' e' : recorder_wf s → step s i e = Some (s', e') → recorder_wf s'.
Proof.
  intros Hwf Hst. destruct (hash_in_memory i) eqn:Hmem.
  - destruct (step_total s i e Hmem Hwf) as (s1 & e1 & Hst' & Hwf' & _). rewrite Hst in Hst'. by injection Hst' as -> _.
  - pose proof (step_mappings s i e s' e' Hst) as Hm. destruct (mapping_slots s) as [m|] eqn:Hms.
    + destruct Hm as (m' & Hm & _). by rewrite mapping_step_outside in Hm.
    + intros m. by rewrite Hm.
Qed.

(** C29: recording the keys of mappings does not loop, even when hashes refer
    to each other; its hook panics exactly if an instruction hashes 64 bytes
    that are not in memory before it runs, since the memory is read before it
    is expanded; and what is recorded is consistent: the slots under a
    mapping's slot are distinct and each answers with that slot as its parent;
    no question about a slot panics; and a store to a slot whose hash was seen
    is recorded under the key and the parent that were hashed. *)
Theorem mapping_slots_consistent s i e :
  recorder_wf s →
  (step s i e = None ↔ is_Some (mapping_slots s) ∧ hash_in_memory i = false) ∧
  ∀ s' e', step s i e = Some (s', e') → recorder_wf s' ∧
    (∀ target slot, is_Some (apply_getMappingKeyAndParentOf s' target slot)) ∧
    (∀ target p ls, slot_child s' target p = Some ls → NoDup ls ∧
       apply_getMappingLength s' target p = Z.of_nat (length ls) ∧
       ∀ slot, slot ∈ ls → ∃ key, apply_getMappingKeyAndParentOf s' target slot = Some (true, key, p)) ∧
    ∀ m ms slot key parent, opcode i = SSTORE → mapping_slots s = Some m → m !! interp_target i = Some ms →
      stack i !! 0%nat = Some slot → seen_sha3 ms !! slot = Some (key, parent) → keys ms !! slot = None →
      apply_getMappingKeyAndParentOf s' (interp_target i) slot = Some (true, key, parent) ∧
      ∃ ls, slot_child s' (interp_target i) parent = Some ls ∧ slot ∈ ls.
Proof.
  intros Hwf. split; [by apply step_none|]. intros s' e' Hst.
  assert (recorder_wf s') as Hwf' by (by eapply recorder_step_wf).
  split_and!; [done|intros; by apply key_and_parent_total| |].
  - intros target p ls Hc. split_and!; [|unfold apply_getMappingLength; by rewrite Hc|intros slot; by apply child_parent].
    unfold slot_child, mapping_slot in Hc. destruct (mapping_slots s') as [m|] eqn:Hm; [|done]. cbn in Hc.
    destruct (m !! target) as [ms|] eqn:Ht; [|done]. cbn in Hc. by apply (mp_nodup ms (Hwf' m Hm target ms Ht) p).
  - intros m ms slot key parent Hop Hm Ht Hslot Hseen Hkey.
    pose proof (step_mappings s i e s' e' Hst) as Hmap. rewrite Hm in Hmap. destruct Hmap as (m' & Hms & Hm').
    unfold mapping_step in Hms. rewrite Hop in Hms. rewrite bool_decide_false in Hms by (by intros [? _]).
    rewrite bool_decide_true, Ht, Hslot in Hms by done.
    destruct (insert_total (insert_fuel ms) ms slot) as (ms' & b & Hins & Hwf1 & _ & _ & Hnew & _ & Hsrc).
    { by eapply Hwf. }
    { unfold insert_fuel, unknown. rewrite <- (size_dom (seen_sha3 ms)).
      pose proof (subseteq_size (dom (seen_sha3 ms) ∖ dom (keys ms)) (dom (seen_sha3 ms)) ltac:(set_solver)). lia. }
    rewrite Hins in Hms. cbn in Hms. injection Hms as <-.
    destruct Hnew as [k Hk]; [by rewrite Hseen|]. destruct (Hsrc slot) as [Hks Hps].
    destruct (Hks k Hk) as [Hk'|Hk']; [by rewrite Hkey in Hk'|]. rewrite Hseen in Hk'. injection Hk' as <-.
    destruct (proj1 (mp_dom ms' Hwf1 slot)) as [p Hp]; [by rewrite Hk|].
    assert (p = parent) as ->.
    { destruct (Hps p Hp) as [Hp'|Hp'].
      - destruct (proj2 (mp_dom ms (Hwf m Hm _ ms Ht) slot)) as [? Hx]; [by rewrite Hp'|]. by rewrite Hkey in Hx.
      - rewrite Hseen in Hp'. by injection Hp'. }
    unfold apply_getMappingKeyAndParentOf, slot_child, mapping_slot. rewrite Hm'. cbn [mbind option_bind].
    rewrite lookup_insert_eq. cbn [mbind option_bind]. rewrite Hk, Hp. split; [done|].
    by apply (mp_children ms' Hwf1).
Qed.

(** ** State diffs *)
#[local] Abbreviation Storage := (Z → Z → Z).
Definition write (σ : Storage) (a k v : Z) : Storage :=
  λ a' k', if decide (a' = a ∧ k' = k) then v else σ a' k'.

(** The storage as the calls run: the previous value of a store is what is in
    the slot, and a call that does not succeed undoes what ran in it. *)
Fixpoint ran (σ : Storage) (it : Item) (σ' : Storage) : Prop :=
  match it with
  | IStep i e =>
      match added i e with
      | AStorage x =>
          if isWrite x
          then previousValue x = σ (sa_account x) (sa_slot x) ∧ σ' = write σ (sa_account x) (sa_slot x) (newValue x)
          else σ' = σ
      | _ => σ' = σ
      end
  | IFrame o items c =>
      ∃ σ1, (fix go σ items := match items with
                               | [] => σ1 = σ
                               | it :: items => ∃ σ2, ran σ it σ2 ∧ go σ2 items
                               end) σ items ∧
        match closing_result c with ResOk => σ' = σ1 | _ => σ' = σ end
  end.
Fixpoint ran_all (σ : Storage) (items : list Item) (σ' : Storage) : Prop :=
  match items with
  | [] => σ' = σ
  | it :: items => ∃ σ2, ran σ it σ2 ∧ ran_all σ2 items σ'
  end.
Lemma ran_frame σ o items c σ' :
  ran σ (IFrame o items c) σ' ↔
  ∃ σ1, ran_all σ items σ1 ∧ match closing_result c with ResOk => σ' = σ1 | _ => σ' = σ end.
Proof.
  cbn [ran]. split; intros (σ1 & Hr & He); exists σ1; (split; [|done]); clear He; revert σ Hr;
    (induction items as [|it items IH]; intros σ; [done|]); intros (σ2 & Hit & Hr); exists σ2; (split; [done|by apply IH]).
Qed.

(** No call ends with an exceptional halt. *)
Inductive no_halt : Item → Prop :=
| nh_step i e : no_halt (IStep i e)
| nh_frame o items c : closing_result c ≠ ResHalt → Forall no_halt items → no_halt (IFrame o items c).

(** Stores that are kept, each on the storage that those before it leave. *)
Fixpoint chain (σ : Storage) (ws : list StorageAccess) (σ' : Storage) : Prop :=
  match ws with
  | [] => σ' = σ
  | w :: ws => previousValue w = σ (sa_account w) (sa_slot w) ∧
      chain (write σ (sa_account w) (sa_slot w) (newValue w)) ws σ'
  end.
Lemma chain_app σ ws1 σ1 ws2 σ2 : chain σ ws1 σ1 → chain σ1 ws2 σ2 → chain σ (ws1 ++ ws2) σ2.
Proof.
  revert σ. induction ws1 as [|w ws1 IH]; intros σ; cbn; [by intros ->|].
  intros [? ?] ?. split; [done|]. by apply IH.
Qed.
Definition kept (l : list StorageAccess) : list StorageAccess := filter (λ x, kept_write x = true) l.
Lemma kept_marked l : kept (mark_storage <$> l) = [].
Proof. unfold kept. induction l as [|x l IH]; [done|]. cbn. unfold kept_write. cbn. by rewrite andb_false_r. Qed.
Lemma kept_app l1 l2 : kept (l1 ++ l2) = kept l1 ++ kept l2.
Proof. apply filter_app. Qed.

Lemma ran_chain it : ∀ σ σ', no_halt it → ran σ it σ' → chain σ (kept (trace it)) σ'.
Proof.
  induction it as [i e|o items c IH] using Item_ind'; intros σ σ' Hn.
  - cbn [ran trace]. destruct (added i e) as [x|a|] eqn:Ha; [|done..].
    assert (sa_reverted x = false) as Hr.
    { unfold added in Ha. repeat case_match; by simplify_eq. }
    assert (kept_write x = isWrite x) as Hk by (unfold kept_write; by rewrite Hr, andb_true_r).
    unfold kept. rewrite filter_cons. case_decide as Hd; rewrite Hk in Hd.
    + rewrite Hd. by intros [? ->].
    + apply not_true_is_false in Hd. rewrite Hd. by intros ->.
  - rewrite ran_frame. intros (σ1 & Hran & Hend). inversion Hn as [|? ? ? Hc Hitems]; subst. cbn [trace].
    destruct (closing_result c); cbn [mark_if]; [|by rewrite kept_marked|done]. subst σ'. cbn [mark_if]. clear Hn.
    revert σ Hran. induction items as [|it items IHi]; intros σ; [done|]. intros (σ2 & Hit & Hran).
    apply Forall_cons in IH as [IHit IH]. apply Forall_cons in Hitems as [Hnit Hitems].
    cbn [fmap list_fmap mjoin list_join]. rewrite kept_app. eapply chain_app; [by apply IHit|by apply IHi].
Qed.

(** The entry of a slot in the diffs. *)
Section view.
Context {Name : Type} (labels : gmap Address Name) (names : Address → option Name).
Implicit Types (m : gmap Z (AccountStateDiffs Name)) (a k : Z) (r : AccountAccess) (x : StorageAccess).
Definition view m (a k : Z) : option (Z * Z) := d ← m !! a; state_diff d !! k.
Definition slot_view (a k : Z) (v : option (Z * Z)) x : option (Z * Z) :=
  if kept_write x && bool_decide (sa_account x = a ∧ sa_slot x = k)
  then Some (match v with Some (previous, _) => (previous, newValue x) | None => (previousValue x, newValue x) end)
  else v.

Lemma view_entry m a k : state_diff (diffs_entry labels names m a) !! k = view m a k.
Proof. unfold diffs_entry, view. by destruct (m !! a); [|cbn; rewrite lookup_empty]. Qed.
Lemma view_insert m (a' : Z) d (a k : Z) :
  view (<[a' := d]> m) a k = if decide (a' = a) then state_diff d !! k else view m a k.
Proof. unfold view. case_decide; [subst; by rewrite lookup_insert_eq|by rewrite lookup_insert_ne]. Qed.

Lemma view_slot_step m x a k : view (slot_step labels names m x) a k = slot_view a k (view m a k) x.
Proof.
  unfold slot_step, slot_view. destruct (kept_write x); cbn [andb]; [|done]. rewrite view_insert. cbn [state_diff].
  case_decide as Ha; [|by rewrite bool_decide_false by (by intros [? _])]. subst a.
  destruct (decide (sa_slot x = k)) as [<-|Hk].
  - rewrite bool_decide_true by done. rewrite lookup_insert_eq, view_entry. by destruct (view m _ _) as [[? ?]|].
  - rewrite bool_decide_false by (by intros [_ ?]). by rewrite lookup_insert_ne, view_entry.
Qed.
Lemma view_slot_steps xs a k : ∀ m, view (foldl (slot_step labels names) m xs) a k = foldl (slot_view a k) (view m a k) xs.
Proof. induction xs as [|x xs IH]; intros m; [done|]. cbn. by rewrite IH, view_slot_step. Qed.

Lemma view_update m (a' : Z) l c b n (a k : Z) :
  view (<[a' := mkDiffs l c b n (state_diff (diffs_entry labels names m a'))]> m) a k = view m a k.
Proof. rewrite view_insert. case_decide; [subst; cbn; apply view_entry|done]. Qed.
Lemma view_diff_step m r a k :
  view (diff_step labels names m r) a k = foldl (slot_view a k) (view m a k) (storageAccesses r).
Proof.
  unfold diff_step. rewrite view_slot_steps. f_equal. case_bool_decide; case_bool_decide; by rewrite ?view_update.
Qed.
Lemma view_diff_steps rs a k : ∀ m,
  view (foldl (diff_step labels names) m (filter (λ r, changed r = true) rs)) a k =
  foldl (slot_view a k) (view m a k) (storage_of rs).
Proof.
  induction rs as [|r rs IH]; intros m; [done|]. rewrite filter_cons, storage_of_cons, foldl_app. case_decide as Hch.
  - cbn [foldl]. by rewrite IH, view_diff_step.
  - rewrite IH. f_equal. assert (storageAccesses r = []) as ->; [|done]. unfold changed in Hch.
    apply not_true_is_false in Hch. rewrite !orb_false_iff in Hch. destruct Hch as [[Hch _] _].
    apply bool_decide_eq_false in Hch. by apply dec_stable in Hch.
Qed.
Lemma slot_views_kept xs (a k : Z) : ∀ v, foldl (slot_view a k) v xs = foldl (slot_view a k) v (kept xs).
Proof.
  unfold kept. induction xs as [|x xs IH]; intros v; [done|]. rewrite filter_cons. case_decide as Hk; cbn [foldl]; [apply IH|].
  rewrite IH. f_equal. unfold slot_view. apply not_true_is_false in Hk. by rewrite Hk.
Qed.

(** Along a chain of stores: the previous value is the first one's. *)
Lemma chain_view ws : ∀ σ0 σ σ' v (a k : Z), chain σ ws σ' → (∀ w, w ∈ ws → kept_write w = true) →
  match v with Some (p, n) => p = σ0 a k ∧ n = σ a k | None => σ a k = σ0 a k end →
  match foldl (slot_view a k) v ws with
  | Some (p, n) => p = σ0 a k ∧ n = σ' a k
  | None => σ' a k = σ0 a k
  end.
Proof.
  induction ws as [|w ws IH]; intros σ0 σ σ' v a k; cbn [chain foldl]; [by intros ->|].
  intros [Hp Hc] Hk Hv. apply (IH σ0 _ σ' _ a k Hc); [intros w' Hw; apply Hk; by right|].
  unfold slot_view. rewrite (Hk w) by by left. cbn [andb]. unfold write. case_bool_decide as Hd.
  - destruct Hd as [<- <-]. rewrite decide_True by done. destruct v as [[p n]|]; cbn; [by destruct Hv|].
    split; [congruence|done].
  - rewrite decide_False by (intros [-> ->]; by apply Hd). exact Hv.
Qed.
End view.

(** Only calls store: the storage accesses of the recording call itself are
    not recorded. *)
Definition top_stores_nothing (it : Item) : Prop :=
  match it with
  | IStep i e => match added i e with AStorage x => isWrite x = false | _ => True end
  | IFrame _ _ _ => True
  end.

Lemma ran_tops items : ∀ σ σ', Forall no_halt items → Forall top_stores_nothing items → ran_all σ items σ' →
  chain σ (kept (mjoin (top_trace <$> items))) σ'.
Proof.
  induction items as [|it items IH]; intros σ σ' Hn Ht; [done|]. intros (σ2 & Hit & Hran).
  apply Forall_cons in Hn as [Hnit Hn]. apply Forall_cons in Ht as [Htit Ht].
  cbn [fmap list_fmap mjoin list_join]. rewrite kept_app. eapply chain_app; [|by apply IH].
  destruct it as [i e|o its c]; [|by apply ran_chain]. cbn in Htit, Hit |- *.
  destruct (added i e) as [x|a|]; [|done..]. by rewrite Htit in Hit.
Qed.

(** C28: the state diff of the calls made since [startStateDiffRecording] is
    the difference of the storage: a slot is listed exactly with its value
    before the calls and its value after them, however calls nest and
    whichever of them revert, and a slot that is not listed has not changed.
    It is required that every call ends by success or by a revert that is
    neither expected by [expectRevert] nor assumed, that none is mocked, that
    the recording call neither stores itself nor self-destructs, and that 64
    bytes that an instruction hashes are in memory before it; after expected
    reverts, halts and mocked calls the diff is wrong. *)
Theorem state_diff_is_difference {Name : Type} (labels : gmap Address Name) (data : Address → option Name)
    s items d σ σ' :
  recorder_wf s → Forall (item_at d) items → Forall top_ok items → Forall no_halt items →
  Forall top_stores_nothing items → ran_all σ items σ' →
  ∃ s', run_all (apply_startStateDiffRecording s) items = Some s' ∧
    ∀ a k, match view (get_recorded_state_diffs labels data s') a k with
           | Some (previous, new) => previous = σ a k ∧ new = σ' a k
           | None => σ' a k = σ a k
           end.
Proof.
  intros Hwf Hat Hok Hn Ht Hran.
  destruct (run_tops items (apply_startStateDiffRecording s) [] d Hat Hok) as (s' & Hr & _ & Hs' & Hst & _).
  - intros m [= <-]. destruct (mapping_slots s) as [m|] eqn:Hm; [by apply Hwf|]. intros x ms. cbn. by rewrite lookup_empty.
  - done.
  - by left.
  - exists s'. split; [done|]. intros a k. unfold get_recorded_state_diffs. rewrite Hs', join_vectors, view_diff_steps, Hst.
    cbn [storage_of app]. rewrite slot_views_kept. apply (chain_view _ σ σ).
    + by apply ran_tops.
    + intros w Hw. unfold kept in Hw. by apply list_elem_of_filter in Hw as [? _].
    + unfold view. by rewrite lookup_empty.
Qed.
End state_diffs.

(** ** A small context: a depth, a storage and the balances *)
Record SmallEcx := mkSmall { sm_depth : Z; sm_store : Z → Z → Z; sm_balance : Z → Z }.
#[export] Instance small_env : RecEnv := {|
  Ecx := SmallEcx; journal_depth := sm_depth;
  load_account e x := (e, Some (mkLoaded true (sm_balance e x) 1 []));
  sload e x k := (e, Some (sm_store e x k)); ecx_balance e x := (e, Some (sm_balance e x));
  active_fork_id _ := None; cfg_chain_id _ := 31337; keccak256 l := 1000 + foldl Z.add 0 l;
|}.
#[export] Instance small_laws : RecLaws.
Proof. by split. Qed.

Definition no_value : Z → Z → Z := λ _ _, 0.
Definition small_at (d : Z) (σ : Z → Z → Z) : Ecx := mkSmall d σ (λ a, a * 100).
Definition store_at (a k v : Z) : Interp := mkInterp SSTORE [k; v] a (λ _ _, None).
Definition load_at (a k : Z) : Interp := mkInterp SLOAD [k] a (λ _ _, None).
Definition call_to (a : Z) : CallInputs := mkCallInputs SCall 1 a a 0 [].
(** Account 10 stores, calls account 20, whose store is reverted, and stores
    again. *)
Definition sample_calls : list Item :=
  let σ1 := write no_value 10 1 5 in
  [IFrame (OCall (small_at 1 no_value) (call_to 10))
     [IStep (store_at 10 1 5) (small_at 2 no_value);
      IFrame (OCall (small_at 2 σ1) (call_to 20)) [IStep (store_at 20 7 8) (small_at 3 σ1)]
        (CCall (small_at 2 σ1) (call_to 20) ResRevert);
      IStep (load_at 10 1) (small_at 2 σ1);
      IStep (store_at 10 1 6) (small_at 2 σ1)]
     (CCall (small_at 1 (write σ1 10 1 6)) (call_to 10) ResOk)].
Lemma sample_at : Forall (item_at 1) sample_calls.
Proof. repeat constructor. Qed.
Lemma recorder_default_wf : recorder_wf recorder_default.
Proof. by intros m. Qed.

Definition storage_summary (x : StorageAccess) : Z * bool * bool := (newValue x, isWrite x, sa_reverted x).
Lemma accesses_follow_calls_witness :
  ∃ s', run_all (apply_startStateDiffRecording recorder_default) sample_calls = Some s' ∧
    storage_summary <$> apply_getStorageAccesses s' =
      [(5, true, false); (8, true, true); (5, false, false); (6, true, false)] ∧
    (λ a, (kind a, account a, reverted a)) <$> shown (get_state_diff s').2 = [(Call, 10, false); (Call, 20, true)].
Proof.
  destruct (accesses_follow_calls recorder_default sample_calls 1) as (s' & Hr & _ & Hst & Hsh).
  - exact recorder_default_wf.
  - exact sample_at.
  - by repeat constructor.
  - exists s'. split; [exact Hr|]. split; [rewrite Hst; vm_compute; reflexivity|rewrite Hsh; vm_compute; reflexivity].
Defined.

Lemma state_diff_is_difference_witness :
  ∃ s', run_all (apply_startStateDiffRecording recorder_default) sample_calls = Some s' ∧
    match view (get_recorded_state_diffs (∅ : gmap Z nat) (λ _, None) s') 10 1 with
    | Some (previous, new) => previous = 0 ∧ new = 6
    | None => False
    end.
Proof.
  set (σ1 := write no_value 10 1 5).
  destruct (state_diff_is_difference (∅ : gmap Z nat) (λ _, None) recorder_default sample_calls 1 no_value (write σ1 10 1 6))
    as (s' & Hr & Hd).
  - exact recorder_default_wf.
  - exact sample_at.
  - by repeat constructor.
  - by repeat constructor.
  - by repeat constructor.
  - exists (write σ1 10 1 6). split; [|done]. apply ran_frame. exists (write σ1 10 1 6). split; [|done].
    exists σ1. split; [by split|]. exists σ1. split.
    + apply ran_frame. exists (write σ1 20 7 8). split; [|done]. exists (write σ1 20 7 8). by split.
    + exists σ1. split; [done|]. exists (write σ1 10 1 6). by split.
  - exists s'. split; [exact Hr|]. specialize (Hd 10 1). destruct (view _ 10 1) as [[p n]|]; [exact Hd|]. discriminate Hd.
Defined.

(** The hash of key 3 in the mapping at slot 4, in 64 bytes of memory, then a
    store to it. *)
Definition hash_from (offset : Z) : Interp :=
  mkInterp KECCAK256 [offset; 64] 10
    (λ o n, if decide (o + n ≤ 64) then Some (take (Z.to_nat n) (drop (Z.to_nat o) (repeat 0 31 ++ [3] ++ repeat 0 31 ++ [4])))
            else None).
Definition hash_at : Interp := hash_from 0.
Definition hashed : Recorder :=
  match step (apply_startMappingRecording recorder_default) hash_at (small_at 2 no_value) with
  | Some (s, _) => s | None => recorder_default end.
Lemma mapping_slots_consistent_witness :
  ∃ s' e', step hashed (store_at 10 1007 5) (small_at 2 no_value) = Some (s', e') ∧
    apply_getMappingKeyAndParentOf s' 10 1007 = Some (true, 3, 4).
Proof.
  destruct (mapping_slots_consistent hashed (store_at 10 1007 5) (small_at 2 no_value)) as [Hnone Hsome].
  - destruct (step_total (apply_startMappingRecording recorder_default) hash_at (small_at 2 no_value)) as (s1 & e1 & Hs1 & Hwf & _).
    + reflexivity.
    + intros m [= <-] x ms. cbn. by rewrite lookup_empty.
    + unfold hashed. rewrite Hs1. exact Hwf.
  - destruct (step hashed (store_at 10 1007 5) (small_at 2 no_value)) as [[s' e']|] eqn:Hst.
    2: { exfalso. destruct (proj1 Hnone eq_refl) as [_ Hx]. discriminate Hx. }
    destruct (Hsome s' e' eq_refl) as (_ & _ & _ & Hnew).
    exists s', e'. split; [done|]. destruct (mapping_slots hashed) as [m|] eqn:Hm; [|by vm_compute in Hm].
    destruct (m !! 10) as [ms|] eqn:Ht.
    + eapply (proj1 (Hnew m ms 1007 3 4 eq_refl eq_refl Ht eq_refl _ _)).
      Unshelve.
      * vm_compute in Hm. injection Hm as <-. vm_compute in Ht. injection Ht as <-. vm_compute. reflexivity.
      * vm_compute in Hm. injection Hm as <-. vm_compute in Ht. injection Ht as <-. vm_compute. reflexivity.
    + vm_compute in Hm. injection Hm as <-. vm_compute in Ht. discriminate Ht.
Defined.

(** ** Where the hooks lose track *)
Definition recording : Recorder := apply_startStateDiffRecording recorder_default.
Definition step_ (s : Recorder) (i : Interp) (e : Ecx) : Recorder := match step s i e with Some (s, _) => s | None => s end.

(** The hook of a hash of memory that is not there yet panics, while the
    instruction itself would expand the memory. *)
Lemma hash_outside_memory_panics : step recording (hash_from 4096) (small_at 2 no_value) = None.
Proof. vm_compute. reflexivity. Qed.

(** [call_end] returns where it judges an expected revert, so what a call
    did that reverted as expected is not marked as reverted. *)
Lemma expected_revert_not_marked :
  let s := (call recording (small_at 1 no_value) (call_to 10)).1 in
  let s := step_ s (store_at 10 1 5) (small_at 2 no_value) in
  let s := (call_end s (small_at 1 no_value) true (call_to 10) ResRevert).1 in
  storage_summary <$> apply_getStorageAccesses s = [(5, true, false)].
Proof. vm_compute. reflexivity. Qed.

(** A call that ends with an exceptional halt is undone and not marked. *)
Lemma halted_call_not_marked :
  let s := (call recording (small_at 1 no_value) (call_to 10)).1 in
  let s := step_ s (store_at 10 1 5) (small_at 2 no_value) in
  let s := (call_end s (small_at 1 no_value) false (call_to 10) ResHalt).1 in
  storage_summary <$> apply_getStorageAccesses s = [(5, true, false)].
Proof. vm_compute. reflexivity. Qed.

(** A mocked call is answered before it is recorded, yet its end is handled
    as one that was: account 20's next store is then recorded under account
    10, its caller, and 20's balance stays zero. *)
Lemma mocked_call_ends_caller :
  let s := (call recording (small_at 1 no_value) (call_to 10)).1 in
  let s := (call s (small_at 2 no_value) (call_to 20)).1 in
  let s := (call_end s (small_at 3 no_value) false (call_to 30) ResOk).1 in
  let s := step_ s (store_at 20 7 8) (small_at 3 no_value) in
  let s := (call_end s (small_at 2 no_value) false (call_to 20) ResOk).1 in
  (λ a, (kind a, account a, newBalance a, length (storageAccesses a))) <$> (get_state_diff s).2 =
    [(Call, 10, 0, 0%nat); (Call, 20, 0, 0%nat); (Resume, 10, 0, 1%nat)].
Proof. vm_compute. reflexivity. Qed.

(** The balances of a delegate call are those of the calling account, and are
    listed under the account whose code ran. *)
Lemma delegate_call_balances :
  let c := mkCallInputs SDelegateCall 1 10 20 0 [] in
  let s := (call recording (small_at 1 no_value) c).1 in
  let s := (call_end s (mkSmall 1 no_value (λ _, 7)) false c ResOk).1 in
  balance_diff <$> get_recorded_state_diffs (∅ : gmap Z nat) (λ _, None) s !! 20 = Some (Some (1000, 7)) ∧
  get_recorded_state_diffs (∅ : gmap Z nat) (λ _, None) s !! 10 = None.
Proof. vm_compute. by split. Qed.

(** A call that is still running is listed as having lost its balance. *)
Lemma running_call_balance :
  let s := (call recording (small_at 1 no_value) (call_to 10)).1 in
  balance_diff <$> get_recorded_state_diffs (∅ : gmap Z nat) (λ _, None) s !! 10 = Some (Some (1000, 0)).
Proof. vm_compute. reflexivity. Qed.
