(* ===== verification/TestExec.v ===== *)
(** * The executor of tests: evm/evm/src/executors/mod.rs

    [Executor] runs calls and deployments of a test over a database, an
    environment and a stack of inspectors, and judges whether a call counts as
    a success.  The database (whose forks [ForkBackend] models), revm with the
    inspectors, and ABI coding are the interface [ExecEnv].  A method that
    takes [&mut self] is a program over the executor; [None] is a panic, and
    an [eyre::Report] is its message. *)
From stdpp Require Import base list gmap strings.
From Stdlib Require Import ZArith Lia.
From S2P Require Import Prelude.
#[local] Open Scope list_scope.

#[local] Abbreviation Address := Z (only parsing).
#[local] Abbreviation U256 := Z (only parsing).
#[local] Abbreviation B256 := Z (only parsing).
#[local] Abbreviation Bytes := (list Z) (only parsing).
Abbreviation Report := string (only parsing).

(** ** Constants (evm/core/src/constants.rs, backend/mod.rs) *)
Definition CHEATCODE_ADDRESS : Address := 0x7109709ECfa91a80626fF3989D68f67F5b1DD12D.
Definition CHEATCODE_CONTRACT_HASH : B256 :=
  0xb0450508e5a2349057c3b4c9c84524d62be4bb17e565dbe2df34725a26872291.
Definition CALLER : Address := 0x1804c8AB1F12E6bbf3894d4083f33e07309d1f38.
Definition DEFAULT_CREATE2_DEPLOYER : Address := 0x4e59b44847b379578588920ca78fbf26c0b4956c.
Definition DEFAULT_CREATE2_DEPLOYER_DEPLOYER : Address := 0x3fAB184622Dc19b6109349B94811493BF2a45362.
Definition GLOBAL_FAIL_SLOT : U256 :=
  0x6661696c65640000000000000000000000000000000000000000000000000000.
Definition bytes_of (s : string) : Bytes :=
  (λ a, Z.of_N (Ascii.N_of_ascii a)) <$> String.list_ascii_of_string s.
Definition MAGIC_ASSUME : Bytes := bytes_of "FOUNDRY::ASSUME".
Definition MAGIC_SKIP : Bytes := bytes_of "FOUNDRY::SKIP".

(** ** Environments *)
Class ExecTypes := {
  Backend : Type; Changeset : Type; Code : Type; SpecId : Type; InstructionResult : Type;
  BlockRest : Type; CfgRest : Type; TxRest : Type; Authorization : Type;
  Tracer : Type; StackRest : Type; CheatsRest : Type; Breakpoints : Type;
  Log : Type; Arena : Type; HitMaps : Type; BroadcastableTransaction : Type; ChiselState : Type;
  RevertDecoder : Type; DynSolValue : Type;
}.

Section environments.
Context `{!ExecTypes}.

Record AccountInfo := mkAccountInfo
  { balance : U256; nonce : Z; code_hash : B256; code : option Code }.
Record BlockEnv := mkBlockEnv
  { number : U256; timestamp : U256; basefee : Z; block_gas_limit : Z; block_rest : BlockRest }.
Record CfgEnv := mkCfgEnv { cfg_chain_id : Z; spec : SpecId; cfg_rest : CfgRest }.
Record EvmEnv := mkEvmEnv { cfg_env : CfgEnv; block_env : BlockEnv }.
Inductive TxKind := TxCreate | TxCall (to : Address).
Record TxEnv := mkTxEnv
  { caller : Address; tx_kind : TxKind; tx_data : Bytes; tx_value : U256; gas_price : Z;
    gas_priority_fee : option Z; tx_gas_limit : Z; tx_chain_id : option Z; tx_nonce : Z;
    tx_type : Z; authorization_list : list Authorization; tx_rest : TxRest }.
Record Env := mkEnv { evm_env : EvmEnv; tx : TxEnv }.

(** The parts of the inspectors that the executor touches. *)
Record Cheatcodes := mkCheatcodes
  { cheats_block : option BlockEnv; cheats_gas_price : option Z;
    broadcastable_transactions : list BroadcastableTransaction;
    ignored : gmap (Z * Z) (Z * Z); last_pause_call : option (Z * Z);
    breakpoints : Breakpoints; gas_snapshots : gmap string (gmap string string);
    deprecated : gmap string (option string); cheats_seed : option U256; cheats_rest : CheatsRest }.
Record InspectorStack := mkStack
  { cheatcodes : option Cheatcodes; tracer : option Tracer; stack_rest : StackRest }.
Record InspectorData := mkInspectorData
  { data_logs : list Log; data_labels : gmap Address string; data_traces : option Arena;
    data_line_coverage : option HitMaps; data_edge_coverage : option (list Z);
    data_cheatcodes : option Cheatcodes; data_chisel_state : option ChiselState;
    data_reverter : option Address }.

Inductive Output := OutCall (data : Bytes) | OutCreate (data : Bytes) (address : option Address).
Inductive ExecutionResult :=
| ExecSuccess (reason : InstructionResult) (refunded gas_used : Z) (output : Output) (logs : list Log)
| ExecRevert (gas_used : Z) (output : Bytes) (logs : list Log)
| ExecHalt (reason : InstructionResult) (gas_used : Z) (logs : list Log).

Record Param := mkParam { param_name : string; param_type : string }.
Record Function := mkFunction
  { fn_name : string; inputs : list Param; selector : Bytes; signature : string }.
End environments.

Class ExecEnv `{!ExecTypes} := {
  basic_ref : Backend → Address → result Report (option AccountInfo);
  storage_ref : Backend → Address → U256 → result Report U256;
  insert_account_info : Backend → Address → AccountInfo → Backend;
  replace_account_storage : Backend → Address → gmap U256 U256 → Backend * result Report unit;
  insert_account_storage : Backend → Address → U256 → U256 → Backend * result Report unit;
  backend_commit : Backend → Changeset → Backend;
  clone_empty : Backend → Backend;
  has_state_snapshot_failure : Backend → bool;
  add_persistent_account : Backend → Address → Backend;
  set_test_contract : Backend → Address → Backend;
  backend_set_caller : Backend → Address → Backend;
  (** The transaction of an environment, on the database and on a copy of it
      (whose failure flag it tells). *)
  inspect : Backend → Env → InspectorStack →
    Backend * result Report (Env * InspectorStack * ExecutionResult * Changeset);
  inspect_cow : Backend → Env → InspectorStack →
    result Report (Env * InspectorStack * ExecutionResult * Changeset * bool);
  collect : InspectorStack → InspectorData;
  set_tracing_mode : InspectorStack → InspectorStack;
  networks_is_base : InspectorStack → bool;
  base_precompile_sentinel_addresses : InspectorStack → list Address;
  (** The value that a change of state leaves in a slot, if it has one. *)
  changed_slot : Changeset → Address → U256 → option U256;
  no_changes : Changeset;
  no_breakpoints : Breakpoints;
  initial_total_gas : Env → Z;
  result_revert : InstructionResult;
  is_ok : InstructionResult → bool;
  bytecode_new_raw : Bytes → Code;
  code_is_empty : Code → bool;
  code_bytes : Code → Bytes;
  keccak256 : Bytes → B256;
  KECCAK_EMPTY : B256;
  DEFAULT_CREATE2_DEPLOYER_CODE : Bytes;
  missing_account : Address → Report;
  (** [String::from_utf8_lossy], decimal numbers, and the decoding of errors. *)
  from_utf8_lossy : Bytes → string;
  decimal : Z → string;
  decode_error : option RevertDecoder → Bytes → option InstructionResult → option string;
  default_reason : Bytes → string;
  abi_encode_input : Function → list DynSolValue → result Report Bytes;
  abi_decode_output : Function → Bytes → result Report (list DynSolValue);
  sol_tuple : list DynSolValue → DynSolValue;
  sol_uint : Z → DynSolValue;
  sol_array : list DynSolValue → DynSolValue;
  setUp_selector : Bytes;
  failed_selector : Bytes;
  decode_bool : Bytes → result Report bool;
  merge_opt : option HitMaps → option HitMaps → option HitMaps;
}.

Section executor.
Context `{!ExecTypes, !ExecEnv}.

(** ** Skipping (evm/core/src/decode.rs) *)
Fixpoint strip_prefix (p s : string) : option string :=
  match p, s with
  | EmptyString, _ => Some s
  | String a p, String b s => if bool_decide (a = b) then strip_prefix p s else None
  | _, _ => None
  end.
Fixpoint strip_bytes (p s : Bytes) : option Bytes :=
  match p, s with
  | [], _ => Some s
  | a :: p, b :: s => if bool_decide (a = b) then strip_bytes p s else None
  | _, _ => None
  end.
Definition SkipReason : Type := option string.
Definition SkipReason_decode (raw : Bytes) : option SkipReason :=
  (λ reason, let reason := from_utf8_lossy reason in
             if bool_decide (reason = "") then None else Some reason) <$> strip_bytes MAGIC_SKIP raw.
Definition SkipReason_decode_self (s : string) : option SkipReason :=
  strip_prefix ": " <$> strip_prefix "skipped" s.
Definition SkipReason_fmt (r : SkipReason) : string :=
  match r with Some reason => "skipped" +:+ ": " +:+ reason | None => "skipped" end.
Definition maybe_decode (rd : option RevertDecoder) (err : Bytes) (status : option InstructionResult)
    : option string :=
  match SkipReason_decode err with
  | Some reason => Some (SkipReason_fmt reason)
  | None => decode_error rd err status
  end.
Definition decode (rd : option RevertDecoder) (err : Bytes) (status : option InstructionResult) : string :=
  default (default_reason err) (maybe_decode rd err status).

(** ** Results of calls *)
Record RawCallResult := mkRaw
  { exit_reason : option InstructionResult; reverted : bool; snapshot_failure : bool;
    call_result : Bytes; gas_used : Z; gas_refunded : Z; stipend : Z; logs : list Log;
    labels : gmap Address string; traces : option Arena; line_coverage : option HitMaps;
    edge_coverage : option (list Z); transactions : option (list BroadcastableTransaction);
    state_changeset : Changeset; res_env : Env; res_cheatcodes : option Cheatcodes;
    out : option Output; chisel_state : option ChiselState; reverter : option Address }.

Inductive EvmError :=
| Execution (raw : RawCallResult) (reason : string)
| Abi (e : Report)
| Skip (reason : SkipReason)
| Eyre (e : Report).
Definition EvmError_fmt (e : EvmError) : string :=
  match e with
  | Execution raw reason => "execution reverted: " +:+ reason +:+ " (gas: " +:+ decimal (gas_used raw) +:+ ")"
  | Abi e => e
  | Skip reason => SkipReason_fmt reason
  | Eyre e => e
  end.

Definition from_evm_result (r : result EvmError RawCallResult) : result Report (RawCallResult * option string) :=
  match r with
  | Ok r => Ok (r, None)
  | Err (Execution raw reason) => Ok (raw, Some reason)
  | Err e => Err (EvmError_fmt e)
  end.
Definition into_execution_error (r : RawCallResult) (reason : string) : EvmError := Execution r reason.
Definition into_evm_error (r : RawCallResult) (rd : option RevertDecoder) : EvmError :=
  match SkipReason_decode (call_result r) with
  | Some reason => Skip reason
  | None => into_execution_error r (decode rd (call_result r) (exit_reason r))
  end.
Definition into_result (r : RawCallResult) (rd : option RevertDecoder) : result EvmError RawCallResult :=
  match exit_reason r with
  | Some reason => if is_ok reason then Ok r else Err (into_evm_error r rd)
  | None => Err (into_evm_error r rd)
  end.
Record CallResult := mkCallResult { raw : RawCallResult; decoded_result : DynSolValue }.
Definition into_decoded_result (r : RawCallResult) (func : Function) (rd : option RevertDecoder)
    : result EvmError CallResult :=
  r ← into_result r rd;
  match abi_decode_output func (call_result r) with
  | Err e => Err (Abi e)
  | Ok [v] => Ok (mkCallResult r v)
  | Ok vs => Ok (mkCallResult r (sol_tuple vs))
  end.

(** The buckets of hit counts. *)
Definition bucket (curr : Z) : Z :=
  if bool_decide (curr = 0) then 0 else if bool_decide (curr = 1) then 1
  else if bool_decide (curr = 2) then 2 else if bool_decide (curr = 3) then 4
  else if bool_decide (curr ≤ 7) then 8 else if bool_decide (curr ≤ 15) then 16
  else if bool_decide (curr ≤ 31) then 32 else if bool_decide (curr ≤ 127) then 64 else 128.
(** The zip of the counts and the history: both as they are left, whether
    there is new coverage, and whether an edge is new. *)
Fixpoint merge_edges (x history_map : list Z) : list Z * list Z * bool * bool :=
  match x, history_map with
  | curr :: x, hist :: history_map =>
      let '(x, history_map, new, edge) := merge_edges x history_map in
      if bool_decide (0 < curr) then
        let fresh := bool_decide (hist < bucket curr) in
        (0 :: x, (if fresh then bucket curr else hist) :: history_map,
         fresh || new, (fresh && bool_decide (hist = 0)) || edge)
      else (curr :: x, hist :: history_map, new, edge)
  | _, _ => (x, history_map, false, false)
  end.
Definition with_edges (r : RawCallResult) (edges : option (list Z)) : RawCallResult :=
  mkRaw (exit_reason r) (reverted r) (snapshot_failure r) (call_result r) (gas_used r)
    (gas_refunded r) (stipend r) (logs r) (labels r) (traces r) (line_coverage r) edges
    (transactions r) (state_changeset r) (res_env r) (res_cheatcodes r) (out r) (chisel_state r)
    (reverter r).
Definition merge_edge_coverage (r : RawCallResult) (history_map : list Z)
    : RawCallResult * list Z * (bool * bool) :=
  match edge_coverage r with
  | Some x => let '(x, history_map, new, edge) := merge_edges x history_map in
              (with_edges r (Some x), history_map, (new, edge))
  | None => (r, history_map, (false, false))
  end.

(** The results of an execution and of the inspectors, together. *)
Definition convert_executed_result (env : Env) (inspector : InspectorStack) (result : ExecutionResult)
    (state_changeset : Changeset) (has_state_snapshot_failure : bool) : RawCallResult :=
  let '(exit_reason, gas_refunded, gas_used, out, exec_logs) :=
    match result with
    | ExecSuccess reason refunded gas output logs => (reason, refunded, gas, Some output, logs)
    | ExecRevert gas output logs => (result_revert, 0, gas, Some (OutCall output), logs)
    | ExecHalt reason gas logs => (reason, 0, gas, None, logs)
    end in
  let d := collect inspector in
  let txs := broadcastable_transactions <$> data_cheatcodes d in
  mkRaw (Some exit_reason) (negb (is_ok exit_reason)) has_state_snapshot_failure
    (match out with Some (OutCall data) => data | _ => [] end)
    gas_used gas_refunded (initial_total_gas env)
    (match data_logs d with [] => exec_logs | logs => logs end) (data_labels d) (data_traces d)
    (data_line_coverage d) (data_edge_coverage d)
    (match txs with Some [] => None | txs => txs end)
    state_changeset env (data_cheatcodes d) out (data_chisel_state d) (data_reverter d).

(** ** [Executor] *)
Record Executor := mkExecutor
  { backend : Backend; ex_env : Env; inspector : InspectorStack; gas_limit : Z;
    legacy_assertions : bool }.
Definition with_backend (e : Executor) (b : Backend) : Executor :=
  mkExecutor b (ex_env e) (inspector e) (gas_limit e) (legacy_assertions e).
Definition with_env (e : Executor) (env : Env) : Executor :=
  mkExecutor (backend e) env (inspector e) (gas_limit e) (legacy_assertions e).
Definition with_inspector (e : Executor) (i : InspectorStack) : Executor :=
  mkExecutor (backend e) (ex_env e) i (gas_limit e) (legacy_assertions e).

Definition executor_new (b : Backend) (env : Env) (i : InspectorStack) (gas_limit : Z) (legacy : bool)
    : Executor :=
  let b := insert_account_info b CHEATCODE_ADDRESS
             (mkAccountInfo 0 0 CHEATCODE_CONTRACT_HASH (Some (bytecode_new_raw [0]))) in
  let b :=
    if networks_is_base i then
      let sentinel := bytecode_new_raw [0xef] in
      foldl (λ b addr, insert_account_info b addr
                         (mkAccountInfo 0 1 (keccak256 (code_bytes sentinel)) (Some sentinel)))
            b (base_precompile_sentinel_addresses i)
    else b in
  mkExecutor b env i gas_limit legacy.
Definition clone_with_backend (e : Executor) (b : Backend) : Executor :=
  executor_new b (ex_env e) (inspector e) (gas_limit e) (legacy_assertions e).

Definition default_account : AccountInfo := mkAccountInfo 0 0 KECCAK_EMPTY None.
Definition set_balance (e : Executor) (address : Address) (amount : U256) : Executor * result Report unit :=
  match basic_ref (backend e) address with
  | Err err => (e, Err err)
  | Ok a =>
      let a := default default_account a in
      (with_backend e (insert_account_info (backend e) address
         (mkAccountInfo amount (nonce a) (code_hash a) (code a))), Ok tt)
  end.
Definition get_balance (e : Executor) (address : Address) : result Report U256 :=
  a ← basic_ref (backend e) address; Ok (default 0 (balance <$> a)).
Definition set_tx_nonce (env : Env) (n : Z) : Env :=
  let t := tx env in
  mkEnv (evm_env env) (mkTxEnv (caller t) (tx_kind t) (tx_data t) (tx_value t) (gas_price t)
    (gas_priority_fee t) (tx_gas_limit t) (tx_chain_id t) n (tx_type t) (authorization_list t) (tx_rest t)).
Definition set_nonce (e : Executor) (address : Address) (n : Z) : Executor * result Report unit :=
  match basic_ref (backend e) address with
  | Err err => (e, Err err)
  | Ok a =>
      let a := default default_account a in
      let e := with_backend e (insert_account_info (backend e) address
                 (mkAccountInfo (balance a) n (code_hash a) (code a))) in
      (with_env e (set_tx_nonce (ex_env e) n), Ok tt)
  end.
Definition get_nonce (e : Executor) (address : Address) : result Report Z :=
  a ← basic_ref (backend e) address; Ok (default 0 (nonce <$> a)).
Definition set_code (e : Executor) (address : Address) (c : Code) : Executor * result Report unit :=
  match basic_ref (backend e) address with
  | Err err => (e, Err err)
  | Ok a =>
      let a := default default_account a in
      (with_backend e (insert_account_info (backend e) address
         (mkAccountInfo (balance a) (nonce a) (keccak256 (code_bytes c)) (Some c))), Ok tt)
  end.
Definition set_storage (e : Executor) (address : Address) (storage : gmap U256 U256)
    : Executor * result Report unit :=
  let '(b, r) := replace_account_storage (backend e) address storage in (with_backend e b, r).
Definition set_storage_slot (e : Executor) (address : Address) (slot value : U256)
    : Executor * result Report unit :=
  let '(b, r) := insert_account_storage (backend e) address slot value in (with_backend e b, r).
Definition is_empty_code (e : Executor) (address : Address) : result Report bool :=
  a ← basic_ref (backend e) address;
  Ok (match a with Some a => bool_decide (code_hash a = KECCAK_EMPTY) | None => true end).
Definition set_tracing (e : Executor) : Executor := with_inspector e (set_tracing_mode (inspector e)).
Definition with_tracer (e : Executor) (t : option Tracer) : Executor :=
  with_inspector e (mkStack (cheatcodes (inspector e)) t (stack_rest (inspector e))).

(** ** Calls *)
Definition build_test_env (e : Executor) (from : Address) (kind : TxKind) (data : Bytes) (value : U256) : Env :=
  let cfg := cfg_env (evm_env (ex_env e)) in
  let b := block_env (evm_env (ex_env e)) in
  let t := tx (ex_env e) in
  mkEnv (mkEvmEnv cfg (mkBlockEnv (number b) (timestamp b) 0 (gas_limit e) (block_rest b)))
    (mkTxEnv from kind data value 0 None (gas_limit e) (Some (cfg_chain_id cfg)) (tx_nonce t)
       (tx_type t) (authorization_list t) (tx_rest t)).

Definition call_with_env (e : Executor) (env : Env) : result Report RawCallResult :=
  '(env, stack, result, changes, failure) ← inspect_cow (backend e) env (inspector e);
  Ok (convert_executed_result env stack result changes failure).

(** [commit] takes the cheatcodes out of the result. *)
Definition clear_cheats (c : Cheatcodes) : Cheatcodes :=
  mkCheatcodes (cheats_block c) (cheats_gas_price c) [] ∅
    (match last_pause_call c with Some _ => Some (0, 0) | None => None end)
    (breakpoints c) (gas_snapshots c) (deprecated c) (cheats_seed c) (cheats_rest c).
Definition set_env_cheats (env : Env) (c : Cheatcodes) : Cheatcodes :=
  mkCheatcodes (Some (block_env (evm_env env))) (Some (gas_price (tx env)))
    (broadcastable_transactions c) (ignored c) (last_pause_call c) (breakpoints c) (gas_snapshots c)
    (deprecated c) (cheats_seed c) (cheats_rest c).
Definition without_cheats (r : RawCallResult) : RawCallResult :=
  mkRaw (exit_reason r) (reverted r) (snapshot_failure r) (call_result r) (gas_used r)
    (gas_refunded r) (stipend r) (logs r) (labels r) (traces r) (line_coverage r) (edge_coverage r)
    (transactions r) (state_changeset r) (res_env r) None (out r) (chisel_state r) (reverter r).
Definition commit (e : Executor) (r : RawCallResult) : Executor * RawCallResult :=
  let e := with_backend e (backend_commit (backend e) (state_changeset r)) in
  let cheats := set_env_cheats (res_env r) ∘ clear_cheats <$> res_cheatcodes r in
  (with_inspector e (mkStack cheats (tracer (inspector e)) (stack_rest (inspector e))), without_cheats r).

Definition transact_with_env (e : Executor) (env : Env) : Executor * result Report RawCallResult :=
  let '(b, r) := inspect (backend e) env (inspector e) in
  let e := with_backend e b in
  match r with
  | Err err => (e, Err err)
  | Ok (env, stack, result, changes) =>
      let r := convert_executed_result env stack result changes (has_state_snapshot_failure b) in
      let '(e, r) := commit e r in (e, Ok r)
  end.

Definition call_raw (e : Executor) (from to : Address) (calldata : Bytes) (value : U256)
    : result Report RawCallResult :=
  call_with_env e (build_test_env e from (TxCall to) calldata value).
Definition with_authorization (env : Env) (l : list Authorization) : Env :=
  let t := tx env in
  mkEnv (evm_env env) (mkTxEnv (caller t) (tx_kind t) (tx_data t) (tx_value t) (gas_price t)
    (gas_priority_fee t) (tx_gas_limit t) (tx_chain_id t) (tx_nonce t) 4 l (tx_rest t)).
Definition call_raw_with_authorization (e : Executor) (from to : Address) (calldata : Bytes) (value : U256)
    (l : list Authorization) : result Report RawCallResult :=
  call_with_env e (with_authorization (build_test_env e from (TxCall to) calldata value) l).
Definition transact_raw (e : Executor) (from to : Address) (calldata : Bytes) (value : U256)
    : Executor * result Report RawCallResult :=
  transact_with_env e (build_test_env e from (TxCall to) calldata value).
Definition transact_raw_with_authorization (e : Executor) (from to : Address) (calldata : Bytes)
    (value : U256) (l : list Authorization) : Executor * result Report RawCallResult :=
  transact_with_env e (with_authorization (build_test_env e from (TxCall to) calldata value) l).

Definition as_eyre {A} (r : result Report A) : result EvmError A :=
  match r with Ok a => Ok a | Err e => Err (Eyre e) end.
Definition call (e : Executor) (from to : Address) (func : Function) (args : list DynSolValue)
    (value : U256) (rd : option RevertDecoder) : result EvmError CallResult :=
  match abi_encode_input func args with
  | Err err => Err (Abi err)
  | Ok calldata => r ← as_eyre (call_raw e from to calldata value); into_decoded_result r func rd
  end.
Definition transact (e : Executor) (from to : Address) (func : Function) (args : list DynSolValue)
    (value : U256) (rd : option RevertDecoder) : Executor * result EvmError CallResult :=
  match abi_encode_input func args with
  | Err err => (e, Err (Abi err))
  | Ok calldata =>
      let '(e, r) := transact_raw e from to calldata value in
      (e, r ← as_eyre r; into_decoded_result r func rd)
  end.
(** [call_sol]: the encoded call and the decoder of its return values stand
    for the type [C]. *)
Definition call_sol {R} (e : Executor) (from to : Address) (calldata : Bytes)
    (decode_returns : Bytes → result Report R) (value : U256) (rd : option RevertDecoder)
    : result EvmError (RawCallResult * R) :=
  r ← as_eyre (call_raw e from to calldata value);
  r ← into_result r rd;
  match decode_returns (call_result r) with
  | Err err => Err (Abi err)
  | Ok a => Ok (r, a)
  end.
Definition call_sol_default {R} (e : Executor) (to : Address) (calldata : Bytes)
    (decode_returns : Bytes → result Report R) (d : R) : R :=
  match call_sol e CALLER to calldata decode_returns 0 None with Ok (_, a) => a | Err _ => d end.

(** ** Success *)
Definition is_nonzero (v : U256) : bool := negb (bool_decide (v = 0)).
Definition is_success_raw (e : Executor) (address : Address) (call_reverted : bool) (changes : Changeset) : bool :=
  if call_reverted then false
  else if has_state_snapshot_failure (backend e) then false
  else if match changed_slot changes CHEATCODE_ADDRESS GLOBAL_FAIL_SLOT with
          | Some v => is_nonzero v | None => false end then false
  else if match storage_ref (backend e) CHEATCODE_ADDRESS GLOBAL_FAIL_SLOT with
          | Ok v => is_nonzero v | Err _ => false end then false
  else if negb (legacy_assertions e) then true
  else
    let b := clone_empty (backend e) in
    match basic_ref (backend e) address with
    | Err _ => false
    | Ok a =>
        let b := insert_account_info b address (default default_account a) in
        match basic_ref (backend e) CHEATCODE_ADDRESS with
        | Err _ => false
        | Ok a =>
            let b := insert_account_info b CHEATCODE_ADDRESS (default default_account a) in
            let b := backend_commit b changes in
            match call_sol (clone_with_backend e b) CALLER address failed_selector decode_bool 0 None with
            | Ok (_, failed) => negb failed
            | Err _ => true
            end
        end
    end.
Definition is_success (e : Executor) (address : Address) (call_reverted : bool) (changes : Changeset)
    (should_fail : bool) : bool :=
  xorb should_fail (is_success_raw e address call_reverted changes).
Definition is_raw_call_success (e : Executor) (address : Address) (changes : Changeset)
    (r : RawCallResult) (should_fail : bool) : bool :=
  if snapshot_failure r then should_fail else is_success e address (reverted r) changes should_fail.
Definition without_changes (r : RawCallResult) : RawCallResult :=
  mkRaw (exit_reason r) (reverted r) (snapshot_failure r) (call_result r) (gas_used r)
    (gas_refunded r) (stipend r) (logs r) (labels r) (traces r) (line_coverage r) (edge_coverage r)
    (transactions r) no_changes (res_env r) (res_cheatcodes r) (out r) (chisel_state r) (reverter r).
Definition is_raw_call_mut_success (e : Executor) (address : Address) (r : RawCallResult)
    (should_fail : bool) : RawCallResult * bool :=
  (without_changes r, is_raw_call_success e address (state_changeset r) (without_changes r) should_fail).

(** ** Deployments and [setUp] *)
Record DeployResult := mkDeployResult { deployed_raw : RawCallResult; deployed_address : Address }.
Definition deploy_with_env (e : Executor) (env : Env) (rd : option RevertDecoder)
    : option (Executor * result EvmError DeployResult) :=
  match tx_kind (tx env) with
  | TxCall _ => None
  | TxCreate =>
      let '(e, r) := transact_with_env e env in
      match (r ← as_eyre r; into_result r rd) with
      | Err err => Some (e, Err err)
      | Ok r =>
          match out r with
          | Some (OutCreate _ (Some address)) =>
              Some (with_backend e (add_persistent_account (backend e) address),
                    Ok (mkDeployResult r address))
          | _ => None
          end
      end
  end.
Definition deploy (e : Executor) (from : Address) (code : Bytes) (value : U256) (rd : option RevertDecoder)
    : option (Executor * result EvmError DeployResult) :=
  deploy_with_env e (build_test_env e from TxCreate code value) rd.

Definition deploy_create2_deployer (e : Executor) : option (Executor * result Report unit) :=
  match basic_ref (backend e) DEFAULT_CREATE2_DEPLOYER with
  | Err err => Some (e, Err err)
  | Ok None => Some (e, Err (missing_account DEFAULT_CREATE2_DEPLOYER))
  | Ok (Some account) =>
      if match code account with Some c => code_is_empty c | None => true end then
        let creator := DEFAULT_CREATE2_DEPLOYER_DEPLOYER in
        match get_balance e creator with
        | Err err => Some (e, Err err)
        | Ok initial_balance =>
            match set_balance e creator u256_max with
            | (e, Err err) => Some (e, Err err)
            | (e, Ok _) =>
                '(e, res) ← deploy e creator DEFAULT_CREATE2_DEPLOYER_CODE 0 None;
                match res with
                | Err err => Some (e, Err (EvmError_fmt err))
                | Ok _ => Some (set_balance e creator initial_balance)
                end
            end
        end
      else Some (e, Ok tt)
  end.

Definition record_setup_env (e : Executor) (r : RawCallResult) : Executor :=
  let env := ex_env e in
  let cfg := cfg_env (evm_env env) in
  with_env e (mkEnv (mkEvmEnv (mkCfgEnv (cfg_chain_id (cfg_env (evm_env (res_env r)))) (spec cfg) (cfg_rest cfg))
                              (block_env (evm_env (res_env r)))) (tx env)).
Definition setup (e : Executor) (from : option Address) (to : Address) (rd : option RevertDecoder)
    : Executor * result EvmError RawCallResult :=
  let from := default CALLER from in
  let e := with_backend e (backend_set_caller (set_test_contract (backend e) to) from) in
  let '(e, r) := transact_raw e from to setUp_selector 0 in
  match (r ← as_eyre r; into_result r rd) with
  | Err err => (e, Err err)
  | Ok r =>
      let e := record_setup_env e r in
      if is_raw_call_success e to (state_changeset r) r false then (e, Ok r)
      else (e, Err (into_execution_error r "execution error"))
  end.

(** ** Calls of a fuzzed sequence (executors/invariant/mod.rs, fuzz/src/lib.rs) *)
Record CallDetails := mkCallDetails { target : Address; calldata : Bytes }.
Record BasicTxDetails := mkTxDetails
  { warp : option U256; roll : option U256; tx_sender : Address; call_details : CallDetails }.
Definition advance (t : BasicTxDetails) (env : Env) : Env :=
  let b := block_env (evm_env env) in
  mkEnv (mkEvmEnv (cfg_env (evm_env env))
           (mkBlockEnv (match roll t with Some r => wrap_u256 (number b + r) | None => number b end)
              (match warp t with Some w => wrap_u256 (timestamp b + w) | None => timestamp b end)
              (basefee b) (block_gas_limit b) (block_rest b))) (tx env).
Definition with_res_env (r : RawCallResult) (env : Env) : RawCallResult :=
  mkRaw (exit_reason r) (reverted r) (snapshot_failure r) (call_result r) (gas_used r)
    (gas_refunded r) (stipend r) (logs r) (labels r) (traces r) (line_coverage r) (edge_coverage r)
    (transactions r) (state_changeset r) env (res_cheatcodes r) (out r) (chisel_state r) (reverter r).
Definition execute_tx (e : Executor) (t : BasicTxDetails) : Executor * result Report RawCallResult :=
  let e := with_env e (advance t (ex_env e)) in
  match call_raw e (tx_sender t) (target (call_details t)) (calldata (call_details t)) 0 with
  | Err err => (e, Err ("Could not make raw evm call: " +:+ err))
  | Ok r => (e, Ok (with_res_env r (advance t (res_env r))))
  end.
Definition call_invariant_function (e : Executor) (address : Address) (calldata : Bytes)
    : result Report (RawCallResult * bool) :=
  r ← call_raw e CALLER address calldata 0;
  Ok (is_raw_call_mut_success e address r false).
Definition call_after_invariant_function (e : Executor) (to : Address) (afterInvariant_selector : Bytes)
    : result EvmError (RawCallResult * bool) :=
  r ← as_eyre (call_raw e CALLER to afterInvariant_selector 0);
  Ok (is_raw_call_mut_success e to r false).
End executor.

(** ** [EarlyExit]: a flag that the tests of a run share *)
Record EarlyExit := mkEarlyExit { stop_flag : bool; fail_fast : bool }.
Definition early_exit_new (fail_fast : bool) : EarlyExit := mkEarlyExit false fail_fast.
Definition record_failure (x : EarlyExit) : EarlyExit :=
  if fail_fast x then mkEarlyExit true (fail_fast x) else x.
Definition record_ctrl_c (x : EarlyExit) : EarlyExit := mkEarlyExit true (fail_fast x).
Definition should_stop (x : EarlyExit) : bool := stop_flag x.
