(* ===== verification/InvariantRun.v ===== *)
(** * Invariant campaigns: evm/evm/src/executors/invariant/mod.rs and result.rs

    [invariant_fuzz] makes runs of generated calls and asserts the invariant
    after them.  What generates the calls (the corpus, the dictionary and the
    targeted contracts) is the interface [InputSource]; the clock and the
    early exit are read once per [tick].  [None] is a panic. *)
From stdpp Require Import base list gmap strings.
From Stdlib Require Import ZArith Lia.
From S2P Require Import Prelude TestExec.
From S2P Require Shrink.
#[local] Open Scope list_scope.

#[local] Abbreviation Address := Z (only parsing).
#[local] Abbreviation Bytes := (list Z) (only parsing).

Record InvariantConfig := mkConfig
  { runs : Z; depth : Z; fail_on_revert : bool; max_assume_rejects : Z; check_interval : Z;
    gas_report_samples : Z; shrink_run_limit : Z; show_metrics : bool; timeout : option Z }.

(** The test contract; [afterInvariant] is called if it is declared. *)
Record InvariantContract := mkInvariantContract
  { address : Address; invariant_name : string; invariant_calldata : Bytes;
    invariant_has_inputs : bool; call_after_invariant : bool; after_calldata : Bytes }.

(** [FuzzCase] and [FuzzedCases]: the cases of a run by their gas. *)
Record FuzzCase := mkFuzzCase { case_calldata : Bytes; case_gas : Z; case_stipend : Z }.
Fixpoint insert_case (c : FuzzCase) (l : list FuzzCase) : list FuzzCase :=
  match l with
  | [] => [c]
  | x :: l => if bool_decide (case_gas c ≤ case_gas x) then c :: x :: l else x :: insert_case c l
  end.
Definition fuzzed_cases (cases : list FuzzCase) : list FuzzCase := foldr insert_case [] cases.

Record InvariantMetrics := mkMetrics { m_calls : Z; m_reverts : Z; m_discards : Z }.

(** The executor of tests is one that [shrink_sequence] can use. *)
Definition campaign_executor `{!ExecTypes, !ExecEnv} (contract : InvariantContract) :
    Shrink.InvariantExecutor Executor BasicTxDetails (list Z) string := {|
  Shrink.CallResult := RawCallResult;
  Shrink.reverted := reverted;
  Shrink.call_output := call_result;
  Shrink.execute_tx e t :=
    match execute_tx e t with (e, Ok r) => Ok (e, r) | (_, Err err) => Err err end;
  Shrink.commit e r := (commit e r).1;
  Shrink.call_invariant e := snd <$> call_invariant_function e (address contract) (invariant_calldata contract);
  Shrink.call_after_invariant e :=
    match call_after_invariant_function e (address contract) (after_calldata contract) with
    | Ok (_, success) => Ok success
    | Err err => Err (EvmError_fmt err)
    end;
  Shrink.MAGIC_ASSUME := MAGIC_ASSUME;
|}.

Class InputSource `{!ExecTypes} := {
  Source : Type;
  new_inputs : Source → Source * result Report (list BasicTxDetails);
  generate_next_input : Source → list BasicTxDetails → bool → Z → Source * result Report BasicTxDetails;
  merge_source_coverage : Source → RawCallResult → Source * RawCallResult * bool;
  process_inputs : Source → list BasicTxDetails → bool → Source;
  collect_values_from_call : Source → BasicTxDetails → Bytes → list Log → Changeset → Z → Source;
  collect_created_contracts : Source → Changeset → list Address → Source * list Address;
  clear_created_contracts : Source → list Address → Source;
  revert_values : Source → Source;
  target_addresses : Source → list Address;
  fuzzed_metric_key : Source → BasicTxDetails → option string;
  (** The calls that the last call was overridden with. *)
  last_sequence : Executor → list (option BasicTxDetails);
  targets_decoder : Source → RevertDecoder;
  has_code : Changeset → Address → bool;
  without_account : Changeset → Address → Changeset;
}.

(** What a turn of a loop does: go on, leave the campaign's loop
    ([break 'stop]), or return an error. *)
Inductive Flow (A : Type) := Next (a : A) | Break (a : A) | Return (e : Report).
Arguments Next {A}.
Arguments Break {A}.
Arguments Return {A}.

Section campaign.
Context `{!ExecTypes, !ExecEnv, !InputSource}.

(** ** Failures (invariant/error.rs) *)
Record FailedInvariantCaseData := mkCaseData
  { test_reason : string; test_calls : list BasicTxDetails; case_revert_reason : string;
    addr : Address; case_invariant : Bytes; inner_sequence : list (option BasicTxDetails);
    case_shrink_run_limit : Z; case_fail_on_revert : bool }.
Inductive InvariantFuzzError :=
| Revert (c : FailedInvariantCaseData)
| BrokenInvariant (c : FailedInvariantCaseData)
| MaxAssumeRejects (allowed : Z).
Definition error_revert_reason (e : InvariantFuzzError) : option string :=
  match e with
  | BrokenInvariant c | Revert c =>
      if bool_decide (case_revert_reason c = "") then None else Some (case_revert_reason c)
  | MaxAssumeRejects allowed =>
      Some ("`vm.assume` rejected too many inputs (" +:+ decimal allowed +:+ " allowed)")
  end.
Record InvariantFailures := mkFailures
  { reverts : Z; revert_reason : option string; error : option InvariantFuzzError }.
Definition no_failures : InvariantFailures := mkFailures 0 None None.
Definition failures_with (f : InvariantFailures) (e : InvariantFuzzError) : InvariantFailures :=
  mkFailures (reverts f) (revert_reason f) (Some e).

Definition case_data_new (contract : InvariantContract) (config : InvariantConfig) (src : Source)
    (calls : list BasicTxDetails) (r : RawCallResult) (inner : list (option BasicTxDetails))
    : FailedInvariantCaseData :=
  let reason := decode (Some (targets_decoder src)) (call_result r) (exit_reason r) in
  mkCaseData (invariant_name contract +:+ ", reason: " +:+ reason) calls reason (address contract)
    (invariant_calldata contract) inner (shrink_run_limit config) (fail_on_revert config).

(** ** State of a campaign and of a run *)
Record InvariantTestData := mkTestData
  { fuzz_cases : list (list FuzzCase); failures : InvariantFailures;
    last_run_inputs : list BasicTxDetails; gas_report_traces : list (list Arena);
    last_call_results : option RawCallResult; data_coverage : option HitMaps;
    metrics : gmap string InvariantMetrics }.
Record InvariantTestRun := mkRun
  { run_inputs : list BasicTxDetails; run_executor : Executor; fuzz_runs : list FuzzCase;
    created_contracts : list Address; run_traces : list Arena; run_depth : Z; rejects : Z;
    new_coverage : bool }.
Record St := mkSt { src : Source; data : InvariantTestData; tick : nat }.

Definition with_src (s : St) (x : Source) : St := mkSt x (data s) (tick s).
Definition with_failures (s : St) (f : InvariantFailures) : St :=
  let d := data s in
  mkSt (src s) (mkTestData (fuzz_cases d) f (last_run_inputs d) (gas_report_traces d)
    (last_call_results d) (data_coverage d) (metrics d)) (tick s).
Definition set_error (s : St) (e : InvariantFuzzError) : St :=
  with_failures s (failures_with (failures (data s)) e).
Definition has_errors (s : St) : bool := bool_decide (is_Some (error (failures (data s)))).
Definition set_last_call_results (s : St) (r : option RawCallResult) : St :=
  let d := data s in
  mkSt (src s) (mkTestData (fuzz_cases d) (failures d) (last_run_inputs d) (gas_report_traces d) r
    (data_coverage d) (metrics d)) (tick s).
Definition set_last_run_inputs (s : St) (l : list BasicTxDetails) : St :=
  let d := data s in
  mkSt (src s) (mkTestData (fuzz_cases d) (failures d) l (gas_report_traces d) (last_call_results d)
    (data_coverage d) (metrics d)) (tick s).
Definition merge_line_coverage (s : St) (c : option HitMaps) : St :=
  let d := data s in
  mkSt (src s) (mkTestData (fuzz_cases d) (failures d) (last_run_inputs d) (gas_report_traces d)
    (last_call_results d) (merge_opt (data_coverage d) c) (metrics d)) (tick s).
Definition record_metrics (s : St) (t : BasicTxDetails) (call_reverted discarded : bool) : St :=
  match fuzzed_metric_key (src s) t with
  | Some key =>
      let d := data s in
      let m := default (mkMetrics 0 0 0) (metrics d !! key) in
      let m := mkMetrics (m_calls m + 1)
                 (if negb discarded && call_reverted then m_reverts m + 1 else m_reverts m)
                 (if discarded then m_discards m + 1 else m_discards m) in
      mkSt (src s) (mkTestData (fuzz_cases d) (failures d) (last_run_inputs d) (gas_report_traces d)
        (last_call_results d) (data_coverage d) (<[key := m]> (metrics d))) (tick s)
  | None => s
  end.
Definition end_run (s : St) (run : InvariantTestRun) (gas_samples : Z) : St :=
  let d := data s in
  let x := match created_contracts run with
           | [] => src s | created => clear_created_contracts (src s) created end in
  let gas := if bool_decide (Z.of_nat (length (gas_report_traces d)) < gas_samples)
             then gas_report_traces d ++ [run_traces run] else gas_report_traces d in
  mkSt (revert_values x)
    (mkTestData (fuzz_cases d ++ [fuzzed_cases (fuzz_runs run)]) (failures d) (last_run_inputs d) gas
       (last_call_results d) (data_coverage d) (metrics d)) (tick s).

Definition run_new (first_input : BasicTxDetails) (e : Executor) : InvariantTestRun :=
  mkRun [first_input] e [] [] [] 0 0 false.
Definition with_inputs (r : InvariantTestRun) (l : list BasicTxDetails) : InvariantTestRun :=
  mkRun l (run_executor r) (fuzz_runs r) (created_contracts r) (run_traces r) (run_depth r)
    (rejects r) (new_coverage r).
Definition pop_input (r : InvariantTestRun) : InvariantTestRun := with_inputs r (removelast (run_inputs r)).
Definition with_executor (r : InvariantTestRun) (e : Executor) : InvariantTestRun :=
  mkRun (run_inputs r) e (fuzz_runs r) (created_contracts r) (run_traces r) (run_depth r)
    (rejects r) (new_coverage r).

(** ** Assertions (invariant/result.rs) *)
Definition assert_invariants (contract : InvariantContract) (config : InvariantConfig) (x : Source)
    (e : Executor) (calls : list BasicTxDetails) (f : InvariantFailures)
    : result Report (InvariantFailures * option RawCallResult) :=
  '(r, success) ← call_invariant_function e (address contract) (invariant_calldata contract);
  if (success : bool) then Ok (f, Some r)
  else match error f with
       | None => Ok (failures_with f (BrokenInvariant (case_data_new contract config x calls r (last_sequence e))), None)
       | Some _ => Ok (f, Some r)
       end.

Definition handlers_succeeded (s : St) (run : InvariantTestRun) (changes : Changeset) : bool :=
  forallb (λ a, is_success (run_executor run) a false changes false) (target_addresses (src s)).

(** A failed handler, or a reverted call, under [fail_on_revert]. *)
Definition revert_failure (contract : InvariantContract) (config : InvariantConfig) (s : St)
    (run : InvariantTestRun) (r : RawCallResult) : InvariantFailures :=
  let c := case_data_new contract config (src s) (run_inputs run) r [] in
  mkFailures (reverts (failures (data s)) + 1) (Some (case_revert_reason c)) (Some (Revert c)).
Definition count_revert (s : St) : St :=
  let f := failures (data s) in with_failures s (mkFailures (reverts f + 1) (revert_reason f) (error f)).

Definition push_traces (run : InvariantTestRun) (t : option Arena) : InvariantTestRun :=
  match t with
  | Some t => mkRun (run_inputs run) (run_executor run) (fuzz_runs run) (created_contracts run)
                (run_traces run ++ [t]) (run_depth run) (rejects run) (new_coverage run)
  | None => run
  end.

(** [can_continue]: the state, the run, whether the campaign goes on, and the
    result of the invariant's call. *)
Definition can_continue (contract : InvariantContract) (config : InvariantConfig) (s : St)
    (run : InvariantTestRun) (r : RawCallResult) (changes : Changeset)
    : result Report (St * InvariantTestRun * bool * option RawCallResult) :=
  if negb (reverted r) && handlers_succeeded s run changes then
    let run := push_traces run (traces r) in
    '(f, call_results) ← assert_invariants contract config (src s) (run_executor run) (run_inputs run)
                           (failures (data s));
    let s := with_failures s f in
    match call_results : option RawCallResult with
    | None => Ok (s, run, false, None)
    | Some _ => Ok (s, run, true, call_results)
    end
  else if fail_on_revert config then
    Ok (with_failures s (revert_failure contract config s run r), run, false, None)
  else
    let s := count_revert s in
    Ok (s, if reverted r then pop_input run else run, true, None).

(** Where the invariant is not checked. *)
Definition skip_check (contract : InvariantContract) (config : InvariantConfig) (s : St)
    (run : InvariantTestRun) (r : RawCallResult) : St * InvariantTestRun * bool * option RawCallResult :=
  if reverted r then
    if fail_on_revert config then
      (with_failures s (revert_failure contract config s run r), run, false, None)
    else (count_revert s, pop_input run, true, None)
  else (s, run, true, None).

Definition is_multiple_of (n m : Z) : bool :=
  if bool_decide (m = 0) then bool_decide (n = 0) else bool_decide (n mod m = 0).
Definition should_check_invariant (config : InvariantConfig) (d : Z) : bool :=
  let is_last_call := bool_decide (d = depth config - 1) in
  if bool_decide (check_interval config = 0) then is_last_call
  else bool_decide (check_interval config = 1) || is_multiple_of (d + 1) (check_interval config) || is_last_call.

Definition assert_after_invariant (contract : InvariantContract) (config : InvariantConfig) (s : St)
    (run : InvariantTestRun) : result Report St :=
  match call_after_invariant_function (run_executor run) (address contract) (after_calldata contract) with
  | Err _ => Err "Failed to call afterInvariant"
  | Ok (_, true) => Ok s
  | Ok (r, false) =>
      Ok (set_error s (BrokenInvariant (case_data_new contract config (src s) (run_inputs run) r [])))
  end.

(** ** The campaign *)
(** The clock and the early exit, as they read at each tick. *)
Variables (config : InvariantConfig) (contract : InvariantContract).
Variables (clock : nat → bool) (stop : nat → bool).
Definition ticked (s : St) : St := mkSt (src s) (data s) (S (tick s)).
Definition is_timed_out (s : St) : bool :=
  match timeout config with Some _ => clock (tick s) | None => false end.
Definition continue_campaign (s : St) (n : Z) : bool :=
  if stop (tick s) then false
  else match timeout config with Some _ => negb (is_timed_out s) | None => bool_decide (n < runs config) end.

(** The values of a call, without those of a sender that has no code. *)
Definition collect_data (s : St) (changes : Changeset) (t : BasicTxDetails) (r : RawCallResult) : St :=
  let changes := if has_code changes (tx_sender t) then changes else without_account changes (tx_sender t) in
  with_src s (collect_values_from_call (src s) t (call_result r) (logs r) changes (depth config)).

(** A call that is kept: it is committed and judged. *)
Definition kept_call (s : St) (run : InvariantTestRun) (t : BasicTxDetails) (r : RawCallResult)
    : Flow (St * InvariantTestRun) :=
  let '(e, r) := commit (run_executor run) r in
  let changes := state_changeset r in
  let s := if reverted r then s else collect_data s changes t r in
  let '(x, created) := collect_created_contracts (src s) changes (created_contracts run) in
  let s := with_src s x in
  let run := mkRun (run_inputs run) e
               (fuzz_runs run ++ [mkFuzzCase (calldata (call_details t)) (gas_used r) (stipend r)])
               created (run_traces run) (run_depth run) (rejects run) (new_coverage run) in
  let checked :=
    if should_check_invariant config (run_depth run)
    then can_continue contract config s run r changes
    else Ok (skip_check contract config s run r) in
  match checked with
  | Err err => Return err
  | Ok (s, run, goes_on, res) =>
      let s := if negb goes_on || bool_decide (run_depth run = depth config - 1)
               then set_last_run_inputs s (run_inputs run) else s in
      if goes_on then
        Next (set_last_call_results s res,
              mkRun (run_inputs run) (run_executor run) (fuzz_runs run) (created_contracts run)
                (run_traces run) (run_depth run + 1) (rejects run) (new_coverage run))
      else Break (s, run)
  end.
(** A call that [vm.assume] discarded. *)
Definition discarded_call (s : St) (run : InvariantTestRun) : Flow (St * InvariantTestRun) :=
  let run := mkRun (removelast (run_inputs run)) (run_executor run) (fuzz_runs run)
               (created_contracts run) (run_traces run) (run_depth run) (rejects run + 1) (new_coverage run) in
  if bool_decide (max_assume_rejects config < rejects run)
  then Break (set_error s (MaxAssumeRejects (max_assume_rejects config)), run)
  else Next (s, run).

Definition run_call (initial_seq : list BasicTxDetails) (s : St) (run : InvariantTestRun)
    : Flow (St * InvariantTestRun) :=
  if is_timed_out s then Break (ticked s, run) else
  let s := ticked s in
  match last (run_inputs run) with
  | None => Return "no input generated to call fuzzed target."
  | Some t =>
      match execute_tx (run_executor run) t with
      | (_, Err err) => Return err
      | (e, Ok r) =>
          let discarded := bool_decide (call_result r = MAGIC_ASSUME) in
          let s := if show_metrics config then record_metrics s t (reverted r) discarded else s in
          let s := merge_line_coverage s (line_coverage r) in
          let '(x, r, new) := merge_source_coverage (src s) r in
          let s := with_src s x in
          let run := mkRun (run_inputs run) e (fuzz_runs run) (created_contracts run) (run_traces run)
                       (run_depth run) (rejects run) (new_coverage run || new) in
          match (if discarded then discarded_call s run else kept_call s run t r) with
          | Next (s, run) =>
              match generate_next_input (src s) initial_seq discarded (run_depth run) with
              | (_, Err err) => Return err
              | (x, Ok t) => Next (with_src s x, with_inputs run (run_inputs run ++ [t]))
              end
          | other => other
          end
      end
  end.

Fixpoint run_calls (fuel : nat) (initial_seq : list BasicTxDetails) (s : St) (run : InvariantTestRun)
    : option (Flow (St * InvariantTestRun)) :=
  if bool_decide (run_depth run < depth config) then
    match fuel with
    | O => None
    | S fuel =>
        match run_call initial_seq s run with
        | Next (s, run) => run_calls fuel initial_seq s run
        | other => Some other
        end
    end
  else Some (Next (s, run)).
Definition calls_fuel : nat := Z.to_nat (depth config) + Z.to_nat (max_assume_rejects config) + 1.

(** One run; [None] is also [initial_seq[0]] of no inputs. *)
Definition one_run (e : Executor) (s : St) : option (Flow St) :=
  match new_inputs (src s) with
  | (_, Err err) => Some (Return err)
  | (x, Ok initial_seq) =>
      let s := with_src s x in
      first ← head initial_seq;
      if fail_on_revert config && bool_decide (0 < reverts (failures (data s)))
      then Some (Return "call reverted") else
      calls ← run_calls calls_fuel initial_seq s (run_new first e);
      Some (match calls with
            | Return err => Return err
            | Break (s, _) => Break s
            | Next (s, run) =>
                let s := with_src s (process_inputs (src s) (run_inputs run) (new_coverage run)) in
                match (if call_after_invariant contract && negb (has_errors s)
                       then assert_after_invariant contract config s run else Ok s) with
                | Err err => Return err
                | Ok s => Next (end_run s run (gas_report_samples config))
                end
            end)
  end.

Fixpoint campaign (fuel : nat) (e : Executor) (s : St) (n : Z) : option (result Report InvariantTestData) :=
  if continue_campaign s n then
    match fuel with
    | O => None
    | S fuel =>
        turn ← one_run e (ticked s);
        match turn with
        | Next s => campaign fuel e s (n + 1)
        | Break s => Some (Ok (data s))
        | Return err => Some (Err err)
        end
    end
  else Some (Ok (data s)).

(** [prepare_test] after the contracts were selected: the invariant is
    asserted in the state before the campaign. *)
Definition prepare_test (e : Executor) (x : Source) : result Report St :=
  '(f, last_call_results) ← assert_invariants contract config x e [] no_failures;
  match error f with
  | Some err => Err (default "" (error_revert_reason err))
  | None =>
      let cases := match last_call_results with None => [fuzzed_cases []] | Some _ => [] end in
      Ok (mkSt x (mkTestData cases f [] [] last_call_results None ∅) 0)
  end.

Definition invariant_fuzz (fuel : nat) (e : Executor) (x : Source) : option (result Report InvariantTestData) :=
  if invariant_has_inputs contract then Some (Err "Invariant test function should have no inputs") else
  match prepare_test e x with
  | Err err => Some (Err err)
  | Ok s => campaign fuel e s 0
  end.
End campaign.

(** ** What invariant campaigns report

    The sequence that a campaign reports for a broken invariant breaks it
    when it is replayed by [check_sequence], up to calls that reverted; and a
    campaign makes the runs and calls it is configured for. *)
Definition undelayed (t : BasicTxDetails) : Prop := warp t = None ∧ roll t = None.

(** What is relied on of the generation of calls: there is a first call, and
    collecting edge coverage changes nothing else of a result. *)
Class InputLaws `{!ExecTypes, !ExecEnv, !InputSource} : Prop := {
  new_inputs_nonempty x x' l : new_inputs x = (x', Ok l) → l ≠ [];
  merge_keeps x r x' r' new : merge_source_coverage x r = (x', r', new) → ∃ edges, r' = with_edges r edges;
}.
(** Without configured delays no call is delayed. *)
Class NoDelays `{!ExecTypes, !InputSource} : Prop := {
  new_undelayed x x' l t : new_inputs x = (x', Ok l) → t ∈ l → undelayed t;
  next_undelayed x l b d x' t : generate_next_input x l b d = (x', Ok t) → undelayed t;
}.

Section proofs.
Context `{!ExecTypes, !ExecEnv, !InputSource}.
Variables (config : InvariantConfig) (contract : InvariantContract) (clock stop : nat → bool).
#[local] Instance inv_exec : Shrink.InvariantExecutor Executor BasicTxDetails (list Z) string :=
  campaign_executor contract.
#[local] Abbreviation fr := (fail_on_revert config).
#[local] Abbreviation after := (call_after_invariant contract).
#[local] Abbreviation replay := (Shrink.run_calls fr).
#[local] Abbreviation breaks e := (Shrink.breaks e fr after).

(** ** Single steps *)
Lemma execute_undelayed e t : undelayed t →
  execute_tx e t =
    (e, match call_raw e (tx_sender t) (target (call_details t)) (calldata (call_details t)) 0 with
        | Ok r => Ok r | Err err => Err ("Could not make raw evm call: " +:+ err) end).
Proof.
  intros [Hw Hr]. unfold execute_tx, advance. rewrite Hw, Hr.
  assert (∀ env : Env, mkEnv (mkEvmEnv (cfg_env (evm_env env))
    (mkBlockEnv (number (block_env (evm_env env))) (timestamp (block_env (evm_env env)))
       (basefee (block_env (evm_env env))) (block_gas_limit (block_env (evm_env env)))
       (block_rest (block_env (evm_env env))))) (tx env) = env) as Heq by (by intros [[? []] ?]).
  rewrite Heq. assert (with_env e (ex_env e) = e) as -> by by destruct e.
  destruct (call_raw _ _ _ _ _) as [r|err]; [|done]. rewrite Heq. by destruct r.
Qed.

Lemma commit_edges e r edges : (commit e (with_edges r edges)).1 = (commit e r).1.
Proof. by destruct r. Qed.

Lemma replay_app l1 : ∀ l2 e e', replay l1 e = Ok (e', true) → replay (l1 ++ l2) e = replay l2 e'.
Proof.
  induction l1 as [|t l1 IH]; intros l2 e e'; cbn [Shrink.run_calls app]; [by intros [= ->]|].
  destruct (Shrink.execute_tx e t) as [[e1 r]|err]; [|done]. destruct (_ && _); [done|]. apply IH.
Qed.
Lemma replay_one e t r :
  undelayed t → execute_tx e t = (e, Ok r) →
  replay [t] e = Ok ((commit e r).1, negb (reverted r && fr && negb (bool_decide (call_result r = MAGIC_ASSUME)))).
Proof.
  intros Hu Hx. cbn [Shrink.run_calls Shrink.execute_tx inv_exec campaign_executor]. rewrite Hx.
  cbn [Shrink.reverted Shrink.call_output Shrink.MAGIC_ASSUME Shrink.commit inv_exec campaign_executor].
  by destruct (reverted r && fr && _).
Qed.

(** [check_sequence] of all calls is their replay, then the assertions. *)
Lemma check_replay e l :
  Shrink.check_sequence e l (seq 0 (length l)) fr after =
    Some ('(e, applied) ← replay l e;
          if negb (applied : bool) then Ok (false, false)
          else
            success ← Shrink.call_invariant e;
            success ← (if (success : bool) && after then Shrink.call_after_invariant e else Ok success);
            Ok (success, true)).
Proof.
  unfold Shrink.check_sequence. by rewrite (Shrink.apply_calls_run l fr _ l (Shrink.mapM_seq l)).
Qed.

Lemma breaks_invariant e l e' r : replay l e = Ok (e', true) →
  call_invariant_function e' (address contract) (invariant_calldata contract) = Ok (r, false) → breaks e l.
Proof.
  intros Hl Hi. exists true. rewrite check_replay, Hl. cbn [mbind result_bind negb].
  cbn [Shrink.call_invariant inv_exec campaign_executor]. by rewrite Hi.
Qed.
Lemma breaks_after e l e' r v : replay l e = Ok (e', true) → after = true →
  call_invariant_function e' (address contract) (invariant_calldata contract) = Ok v →
  call_after_invariant_function e' (address contract) (after_calldata contract) = Ok (r, false) → breaks e l.
Proof.
  intros Hl Ha Hi Hf. exists true. rewrite check_replay, Hl. cbn [mbind result_bind negb].
  cbn [Shrink.call_invariant inv_exec campaign_executor]. rewrite Hi. destruct v as [r' [|]]; cbn [fmap result_fmap snd]; [|done].
  cbn [mbind result_bind]. rewrite Ha. cbn [andb Shrink.call_after_invariant inv_exec campaign_executor]. by rewrite Hf.
Qed.

(** ** A run *)
Context `{!InputLaws, !NoDelays}.
Variable e0 : Executor.
Hypothesis invariant_answers : ∀ e, ∃ v,
  call_invariant_function e (address contract) (invariant_calldata contract) = Ok v.

(** ** The calls that a campaign makes *)
Variable x0 : Source.
(** The states between the runs of the campaign. *)
Inductive campaign_at : St → Prop :=
| at_prepared s : prepare_test config contract e0 x0 = Ok s → campaign_at s
| at_next s s' : campaign_at s → one_run config contract clock e0 (ticked s) = Some (Next s') → campaign_at s'.

(** The call that a turn of a run makes: none if the time is over, if the call
    cannot be executed, or if [vm.assume] discards it. *)
Definition turn_made (s : St) (run : InvariantTestRun) : list BasicTxDetails :=
  if is_timed_out config clock s then [] else
  match last (run_inputs run) with
  | Some t => match execute_tx (run_executor run) t with
              | (_, Ok r) => if bool_decide (call_result r = MAGIC_ASSUME) then [] else [t]
              | _ => []
              end
  | None => []
  end.
(** A run of the campaign after some turns, with the calls they made. *)
Inductive run_made : list BasicTxDetails → St → InvariantTestRun → list BasicTxDetails → Prop :=
| made_start s x t l : campaign_at s → new_inputs (src (ticked s)) = (x, Ok (t :: l)) →
    run_made (t :: l) (with_src (ticked s) x) (run_new t e0) []
| made_turn seq s run s' run' h : run_made seq s run h → run_depth run < depth config →
    run_call config contract clock seq s run = Next (s', run') →
    run_made seq s' run' (h ++ turn_made s run).
(** The calls that one run of the campaign made, up to some turn of it. *)
Definition campaign_made (h : list BasicTxDetails) : Prop :=
  ∃ seq s run h0, run_made seq s run h0 ∧
    (h = h0 ∨ run_depth run < depth config ∧ h = h0 ++ turn_made s run).

(** The calls that made the state of a run, and those of its inputs. *)
Definition follows (n : Z) (e : Executor) (kept hist : list BasicTxDetails) : Prop :=
  replay hist e0 = Ok (e, true) ∧ kept `sublist_of` hist ∧ (n = 0 → kept = hist).
Definition run_ok seq (s : St) (run : InvariantTestRun) : Prop :=
  0 ≤ reverts (failures (data s)) ∧ ∃ kept hist t, run_inputs run = kept ++ [t] ∧ undelayed t ∧
    follows (reverts (failures (data s))) (run_executor run) kept hist ∧ run_made seq s run hist.

(** What an error of a broken invariant says. *)
Definition reproducible (n : Z) (c : FailedInvariantCaseData) : Prop :=
  ∃ kept hist, campaign_made hist ∧ breaks e0 hist ∧ kept `sublist_of` hist ∧ (n = 0 → kept = hist) ∧
    (test_calls c = kept ∨ after = true ∧ ∃ next, test_calls c = kept ++ [next]).
Definition reports_ok (f : InvariantFailures) : Prop :=
  0 ≤ reverts f ∧ ∀ c, error f = Some (BrokenInvariant c) → reproducible (reverts f) c.

Lemma reproducible_more n m c : 0 ≤ n → n ≤ m → reproducible n c → reproducible m c.
Proof. intros Hn Hm (kept & hist & ? & ? & ? & Hk & ?). exists kept, hist. split_and!; try done. intros. apply Hk. lia. Qed.
Lemma reports_more n f : reports_ok f → reverts f ≤ n → reports_ok (mkFailures n (revert_reason f) (error f)).
Proof. intros [Hn Hc] Hle. split; [cbn; lia|]. intros c Hf. eapply reproducible_more, Hc, Hf; done. Qed.

(** What is known after a call was judged: [run] has the executor after it. *)
Definition judged (run : InvariantTestRun) (hist : list BasicTxDetails) (x : result Report (St * InvariantTestRun * bool * option RawCallResult)) : Prop :=
  match x with
  | Err _ => True
  | Ok (s', run', goes_on, _) =>
      reports_ok (failures (data s')) ∧
      (goes_on = true → run_depth run' = run_depth run ∧ rejects run' = rejects run ∧
         follows (reverts (failures (data s'))) (run_executor run') (run_inputs run') hist)
  end.
(** The inputs of [run] end with the call that made its executor. *)
Definition called (s : St) (run : InvariantTestRun) (hist : list BasicTxDetails) (r : RawCallResult) : Prop :=
  reports_ok (failures (data s)) ∧ campaign_made hist ∧
  ∃ kept h t, hist = h ++ [t] ∧ run_inputs run = kept ++ [t] ∧
    (reverted r = false ∨ fr = false → replay hist e0 = Ok (run_executor run, true)) ∧
    kept `sublist_of` h ∧ (reverts (failures (data s)) = 0 → kept = h).

Lemma called_grows s run hist r : called s run hist r → reverted r = false ∨ fr = false →
  follows (reverts (failures (data s))) (run_executor run) (run_inputs run) hist.
Proof.
  intros (_ & _ & kept & h & t & -> & Hi & Hr & Hsub & Heq) Hc. rewrite Hi.
  split; [by apply Hr|]. split; [by apply sublist_app|]. intros Hn. by rewrite Heq.
Qed.

(** A reverted call, or a failed handler, that is only counted. *)
Lemma called_counted s run hist r goes : called s run hist r → fr = false → goes = true →
  judged run hist (Ok (count_revert s, if reverted r then pop_input run else run, goes, None)).
Proof.
  intros Hc Hf _. pose proof (called_grows s run hist r Hc (or_intror Hf)) as Hg.
  destruct Hc as (Hrep & _ & kept & h & t & -> & Hi & Hr & Hsub & Heq).
  assert (0 ≤ reverts (failures (data s))) as Hn by apply Hrep. split.
  - apply (reports_more (reverts (failures (data s)) + 1)); [done|lia].
  - intros _. split; [by destruct (reverted r)|]. split; [by destruct (reverted r)|]. destruct (reverted r).
    + cbn [run_executor pop_input with_inputs run_inputs count_revert with_failures data failures reverts].
      rewrite Hi, removelast_last. split; [by apply Hr; right|]. split; [|intros; lia].
      etrans; [exact Hsub|]. by apply sublist_inserts_r.
    + destruct Hg as (Hx & Hs & _). split; [done|]. split; [done|].
      cbn [count_revert with_failures data failures reverts]. intros; lia.
Qed.
(** One that ends the campaign. *)
Lemma called_fails s run hist r : called s run hist r →
  judged run hist (Ok (with_failures s (revert_failure contract config s run r), run, false, None)).
Proof.
  intros [[Hn _] _]. split; [|done]. split; [cbn; lia|]. cbn. done.
Qed.

Lemma can_continue_judged s run hist r changes : called s run hist r →
  judged run hist (can_continue contract config s run r changes).
Proof.
  intros Hc. unfold can_continue. destruct (negb (reverted r) && handlers_succeeded s run changes) eqn:Hb.
  - apply andb_true_iff in Hb as [Hr%negb_true_iff _].
    assert (judged run hist (Ok (s, push_traces run (traces r), true, Some r))) as Hgo.
    { split; [apply Hc|]. intros _. pose proof (called_grows s run hist r Hc (or_introl Hr)) as Hf.
      destruct (traces r); by split_and!. }
    unfold assert_invariants. set (run' := push_traces run (traces r)) in *.
    assert (run_executor run' = run_executor run ∧ run_inputs run' = run_inputs run) as [He Hin]
      by by unfold run'; destruct (traces r).
    rewrite He, Hin. destruct (invariant_answers (run_executor run)) as [[r' success] Hi]. rewrite Hi.
    cbn [mbind result_bind]. destruct success; [by destruct s as [? [] ?]|].
    destruct (error (failures (data s))) as [err|] eqn:Herr; cbn [mbind result_bind]; [by destruct s as [? [] ?]|].
    split; [|done]. destruct Hc as ([Hn _] & Hmade & kept & h & t & -> & Hi' & Hrep & Hsub & Heq).
    split; [exact Hn|]. cbn [with_failures data failures failures_with error reverts]. intros c [= <-].
    exists (kept ++ [t]), (h ++ [t]). split_and!; [done| | | |].
    + eapply breaks_invariant; [by apply Hrep; left|exact Hi].
    + by apply sublist_app.
    + intros H0n. by rewrite Heq.
    + left. cbn. by rewrite Hi'.
  - destruct fr eqn:Hf; [by apply called_fails|]. by apply called_counted.
Qed.
Lemma skip_check_judged s run hist r : called s run hist r →
  judged run hist (Ok (skip_check contract config s run r)).
Proof.
  intros Hc. unfold skip_check. destruct (reverted r) eqn:Hr.
  - destruct fr eqn:Hf; [by apply called_fails|]. pose proof (called_counted s run hist r true Hc Hf eq_refl) as Hj.
    by rewrite Hr in Hj.
  - split; [apply Hc|]. intros _. pose proof (called_grows s run hist r Hc (or_introl Hr)). by split_and!.
Qed.
(** ** The loops *)
Definition inputs_undelayed (l : list BasicTxDetails) : Prop := ∀ t, last l = Some t → undelayed t.
(** After a call, before the next input is generated. *)
Definition settled (s : St) (run : InvariantTestRun) (hist : list BasicTxDetails) : Prop :=
  reports_ok (failures (data s)) ∧ follows (reverts (failures (data s))) (run_executor run) (run_inputs run) hist.
Definition budget (run : InvariantTestRun) : Z :=
  (depth config - run_depth run) + (max_assume_rejects config - rejects run).
Definition turn_ok (run : InvariantTestRun) (hist : list BasicTxDetails) (x : Flow (St * InvariantTestRun)) : Prop :=
  match x with
  | Next (s', run') => settled s' run' hist ∧ budget run' = budget run - 1 ∧
      run_depth run' ≤ run_depth run + 1 ∧ (rejects run ≤ max_assume_rejects config → rejects run' ≤ max_assume_rejects config)
  | Break (s', _) => reports_ok (failures (data s'))
  | Return _ => True
  end.

Lemma kept_call_ok s run t r kept hist edges :
  run_inputs run = kept ++ [t] → undelayed t → reports_ok (failures (data s)) →
  follows (reverts (failures (data s))) (run_executor run) kept hist →
  execute_tx (run_executor run) t = (run_executor run, Ok r) → campaign_made (hist ++ [t]) →
  turn_ok run (hist ++ [t]) (kept_call config contract s run t (with_edges r edges)).
Proof.
  intros Hi Hu Hrep (Hh & Hsub & Heq) Hx Hmade. unfold kept_call.
  pose proof (commit_edges (run_executor run) r edges) as Hce.
  destruct (commit (run_executor run) (with_edges r edges)) as [e1 r1] eqn:Hc.
  assert (reverted r1 = reverted r) as Hrr.
  { assert (r1 = (commit (run_executor run) (with_edges r edges)).2) as -> by by rewrite Hc. by destruct r. }
  cbn [fst] in Hce. set (s1 := if reverted r1 then s else _).
  assert (failures (data s1) = failures (data s)) as Hs1 by by unfold s1, collect_data; destruct (reverted r1).
  clearbody s1. destruct (collect_created_contracts _ _ _) as [x created].
  set (s2 := with_src s1 x). set (run2 := mkRun _ _ _ _ _ _ _ _).
  assert (called s2 run2 (hist ++ [t]) r1) as Hcalled.
  { split; [cbn; by rewrite Hs1|]. split; [done|]. exists kept, hist, t. split; [done|]. cbn [run2 run_inputs run_executor s2 with_src data]. rewrite Hs1.
    split; [done|]. split; [|done]. intros Hor. rewrite (replay_app _ _ _ _ Hh), (replay_one _ _ r Hu Hx), <- Hce.
    rewrite <- Hrr. destruct Hor as [-> | ->]; [done|]. by rewrite andb_false_r. }
  set (ch := if should_check_invariant config (run_depth run2) then _ else _).
  assert (judged run2 (hist ++ [t]) ch) as Hj.
  { unfold ch. destruct (should_check_invariant _ _); [by apply can_continue_judged|by apply skip_check_judged]. }
  clearbody ch. destruct ch as [[[[s3 run3] goes] res]|err]; [|done]. destruct Hj as [Hr3 Hg].
  set (s4 := if _ || _ then _ else _).
  assert (failures (data s4) = failures (data s3)) as Hs4 by by unfold s4; destruct (_ || _).
  clearbody s4. destruct goes; cbn [turn_ok].
  - destruct (Hg eq_refl) as (Hd & Hrj & Hf). cbn [run2 run_depth rejects] in Hd, Hrj.
    split; [split|].
    + cbn. by rewrite Hs4.
    + cbn. by rewrite Hs4.
    + unfold budget. cbn. split; [lia|]. split; [lia|]. by rewrite Hrj.
  - by rewrite Hs4.
Qed.

Lemma discarded_call_ok s run t kept hist :
  run_inputs run = kept ++ [t] → reports_ok (failures (data s)) →
  follows (reverts (failures (data s))) (run_executor run) kept hist →
  turn_ok run hist (discarded_call config s run).
Proof.
  intros Hi Hrep Hf. unfold discarded_call. cbn [rejects].
  case_bool_decide as Hm; cbn [turn_ok].
  - split; [apply Hrep|]. cbn. done.
  - split; [split; [done|]|].
    + cbn. by rewrite Hi, removelast_last.
    + unfold budget. cbn. lia.
Qed.

Lemma recorded_failures s t b d : failures (data (record_metrics s t b d)) = failures (data s).
Proof. unfold record_metrics. by destruct (fuzzed_metric_key _ _). Qed.

Definition step_ok seq (run : InvariantTestRun) (x : Flow (St * InvariantTestRun)) : Prop :=
  match x with
  | Next (s', run') => run_ok seq s' run' ∧ reports_ok (failures (data s')) ∧ budget run' = budget run - 1 ∧
      run_depth run' ≤ run_depth run + 1 ∧ (rejects run ≤ max_assume_rejects config → rejects run' ≤ max_assume_rejects config)
  | Break (s', _) => reports_ok (failures (data s'))
  | Return _ => True
  end.
Lemma run_call_ok seq s run : run_ok seq s run → run_depth run < depth config → reports_ok (failures (data s)) →
  step_ok seq run (run_call config contract clock seq s run).
Proof.
  intros (Hn & kept & hist & t & Hi & Hu & Hf & Hmade) Hdep Hrep.
  assert (∀ s' run', run_call config contract clock seq s run = Next (s', run') →
    run_made seq s' run' (hist ++ turn_made s run)) as Hturn by (intros; by eapply made_turn).
  assert (campaign_made (hist ++ turn_made s run)) as Hcm by (exists seq, s, run, hist; auto).
  revert Hturn Hcm. unfold run_call, turn_made.
  destruct (is_timed_out _ _ _); [intros _ _; exact Hrep|]. rewrite Hi, last_snoc.
  rewrite (execute_undelayed (run_executor run) t Hu).
  destruct (call_raw _ _ _ _ _) as [r|err] eqn:Hcall; [|done].
  intros Hturn Hcm. assert (execute_tx (run_executor run) t = (run_executor run, Ok r)) as Hx by by rewrite execute_undelayed, Hcall.
  set (s1 := if show_metrics config then _ else _) in *.
  assert (failures (data s1) = failures (data s)) as Hs1.
  { unfold s1. destruct (show_metrics config); [by rewrite recorded_failures|done]. }
  clearbody s1. set (discarded := bool_decide _) in *.
  revert Hturn. destruct (merge_source_coverage _ _) as [[x r'] new] eqn:Hm.
  destruct (merge_keeps _ _ _ _ _ Hm) as [edges ->].
  set (s2 := with_src _ x). assert (failures (data s2) = failures (data s)) as Hs2 by done. clearbody s2.
  set (run1 := mkRun _ _ _ _ _ _ _ _).
  assert (turn_ok run1 (hist ++ (if discarded then [] else [t])) (if discarded then discarded_call config s2 run1
                        else kept_call config contract s2 run1 t (with_edges r edges))) as Ht.
  { destruct discarded.
    - rewrite app_nil_r. eapply (discarded_call_ok s2 run1 t kept hist); [by cbn; rewrite ?Hi|by rewrite Hs2|by rewrite Hs2].
    - eapply (kept_call_ok s2 run1 t r kept hist); [by cbn; rewrite ?Hi|done|by rewrite Hs2|by rewrite Hs2|done|done]. }
  revert Ht. generalize (if discarded then discarded_call config s2 run1
                        else kept_call config contract s2 run1 t (with_edges r edges)).
  intros [[s3 run3]|[s3 run3]|err] Ht Hturn; [|exact Ht|done]. destruct Ht as ([Hr3 Hf3] & Hb & Hd & Hrj).
  destruct (generate_next_input _ _ _ _) as [x' [t'|err]] eqn:Hg; [|done].
  split; [|split; [exact Hr3|]].
  - split; [apply Hr3|]. eexists (run_inputs run3), _, t'. split; [done|].
    split; [by eapply next_undelayed|]. split; [exact Hf3|by apply Hturn].
  - done.
Qed.
Definition calls_ok seq (x : Flow (St * InvariantTestRun)) : Prop :=
  match x with
  | Next (s', run') => run_ok seq s' run' ∧ reports_ok (failures (data s')) ∧ depth config ≤ run_depth run'
  | Break (s', _) => reports_ok (failures (data s'))
  | Return _ => True
  end.
(** Enough fuel for a run: one more than its calls and rejects. *)
Lemma run_calls_ok fuel : ∀ seq s run, run_ok seq s run → reports_ok (failures (data s)) →
  rejects run ≤ max_assume_rejects config → budget run < Z.of_nat fuel →
  ∃ x, run_calls config contract clock fuel seq s run = Some x ∧ calls_ok seq x.
Proof.
  induction fuel as [|fuel IH]; intros seq s run Hok Hrep Hrj Hb; cbn [run_calls].
  - case_bool_decide as Hd; [unfold budget in Hb; lia|]. eexists. split; [done|]. split_and!; [done|done|lia].
  - case_bool_decide as Hd; [|eexists; split; [done|]; split_and!; [done|done|lia]].
    pose proof (run_call_ok seq s run Hok Hd Hrep) as Hs.
    destruct (run_call _ _ _ _ _ _) as [[s' run']|[s' run']|err]; [|by eexists|by eexists].
    destruct Hs as (Hok' & Hrep' & Hb' & Hd' & Hrj'). apply IH; [done|done|by apply Hrj'|lia].
Qed.

Lemma after_ok seq s s' run : run_ok seq s run → data s' = data s → reports_ok (failures (data s)) → after = true →
  match assert_after_invariant contract config s' run with
  | Ok s2 => reports_ok (failures (data s2))
  | Err _ => True
  end.
Proof.
  intros (Hn & kept & hist & t & Hi & _ & (Hh & Hsub & Heq) & Hmade) Hs Hrep Ha. unfold assert_after_invariant.
  destruct (call_after_invariant_function _ _ _) as [[r []]|err] eqn:Hf; [by rewrite Hs| |done].
  cbn [set_error with_failures data failures failures_with reverts error]. rewrite Hs. split; [done|]. cbn. intros c [= <-]. exists kept, hist.
  split; [exists seq, s, run, hist; auto|]. split; [|split; [done|split; [done|]]].
  - destruct (invariant_answers (run_executor run)) as [v Hv]. by eapply breaks_after.
  - right. split; [done|]. exists t. by cbn.
Qed.

Hypothesis rejects_nonneg : 0 ≤ max_assume_rejects config.

Lemma one_run_ok s0 : campaign_at s0 → reports_ok (failures (data s0)) →
  ∃ x, one_run config contract clock e0 (ticked s0) = Some x ∧
    match x with Next s' | Break s' => reports_ok (failures (data s')) | Return _ => True end.
Proof.
  intros Hat Hrep. set (s := ticked s0). unfold one_run. destruct (new_inputs (src s)) as [x [l|err]] eqn:Hl; [|by eexists].
  assert (∃ t l', l = t :: l') as (t & l' & ->).
  { destruct l as [|t l']; [by apply new_inputs_nonempty in Hl|by exists t, l']. }
  cbn [head mbind option_bind]. destruct (_ && _); [by eexists|].
  set (s1 := with_src s x). assert (run_ok (t :: l') s1 (run_new t e0)) as Hok.
  { split; [apply Hrep|]. exists [], [], t. split; [done|]. split; [eapply new_undelayed; [exact Hl|left]|].
    split; [done|]. by apply made_start. }
  destruct (run_calls_ok (calls_fuel config) (t :: l') s1 (run_new t e0) Hok Hrep) as (y & Hy & Hyok).
  { done. }
  { unfold budget, calls_fuel. cbn. lia. }
  rewrite Hy. cbn [mbind option_bind]. destruct y as [[s2 run]|[s2 run]|err]; [|by eexists|by eexists].
  destruct Hyok as (Hok2 & Hrep2 & _). set (s3 := with_src s2 _).
  assert (match (if after && negb (has_errors s3) then assert_after_invariant contract config s3 run else Ok s3) with
          | Ok s' => reports_ok (failures (data s')) | Err _ => True end) as Hafter.
  { destruct after eqn:Ha; cbn [andb]; [|done]. destruct (negb (has_errors s3)); [|done].
    by apply (after_ok (t :: l') s2). }
  destruct (if after && negb (has_errors s3) then _ else _) as [s4|err]; [|by eexists].
  eexists. split; [done|]. exact Hafter.
Qed.

Lemma campaign_ok fuel : ∀ s n r, campaign_at s → reports_ok (failures (data s)) →
  campaign config contract clock stop fuel e0 s n = Some r →
  match r with Ok d => reports_ok (failures d) | Err _ => True end.
Proof.
  induction fuel as [|fuel IH]; intros s n r Hat Hrep; cbn [campaign].
  - destruct (continue_campaign _ _ _ _ _); [done|]. by intros [= <-].
  - destruct (continue_campaign _ _ _ _ _); [|by intros [= <-]].
    destruct (one_run_ok s Hat Hrep) as (x & Hrun & Hx). rewrite Hrun. cbn [mbind option_bind].
    destruct x as [s'|s'|err]; [|by intros [= <-]|by intros [= <-]]. apply IH; [by eapply at_next|done].
Qed.

(** C15: the sequence that a campaign reports for a broken invariant can be
    replayed: the calls that one of its runs made from the state after the
    set-up, up to some turn and without those that [vm.assume] discarded,
    break the invariant (or [afterInvariant]) under [check_sequence]; the
    reported ones are among them in their order, and they are the same if no
    call of the campaign reverted; the report of a failing [afterInvariant]
    ends with one more call that was never made.  This is for campaigns that
    are not configured to delay calls by time or by blocks, and supposes that
    the call of the invariant itself can always be executed, whatever it
    answers. *)
Theorem reported_sequence_breaks fuel d c :
  invariant_fuzz config contract clock stop fuel e0 x0 = Some (Ok d) →
  error (failures d) = Some (BrokenInvariant c) →
  ∃ kept hist, campaign_made hist ∧ breaks e0 hist ∧ kept `sublist_of` hist ∧
    (reverts (failures d) = 0 → kept = hist) ∧
    (test_calls c = kept ∨ after = true ∧ ∃ next, test_calls c = kept ++ [next]).
Proof.
  unfold invariant_fuzz. destruct (invariant_has_inputs contract); [done|].
  destruct (prepare_test config contract e0 x0) as [s|err] eqn:Hp; [|done].
  intros Hc He. apply campaign_ok in Hc; [by apply Hc|by apply at_prepared|].
  revert Hp. unfold prepare_test, assert_invariants.
  destruct (invariant_answers e0) as [[r []] ->]; cbn [mbind result_bind no_failures error failures_with]; [|done].
  intros [= <-]. by split.
Qed.
End proofs.

(** ** How many calls a campaign makes *)
Section counts.
Context `{!ExecTypes, !ExecEnv, !InputSource, !InputLaws}.
Variables (config : InvariantConfig) (contract : InvariantContract) (clock stop : nat → bool) (e0 : Executor).
Hypothesis no_timeout : timeout config = None.
Hypothesis never_stopped : ∀ n, stop n = false.

Definition failed (s : St) : Prop := error (failures (data s)) ≠ None.
Definition same_cases (s s' : St) : Prop := fuzz_cases (data s') = fuzz_cases (data s).
Definition run_size (run : InvariantTestRun) : Z := Z.of_nat (length (fuzz_runs run)) - run_depth run.

Lemma can_continue_size s run r changes : match can_continue contract config s run r changes with
  | Ok (s', run', goes, _) => same_cases s s' ∧ (goes = false → failed s') ∧
      fuzz_runs run' = fuzz_runs run ∧ run_depth run' = run_depth run ∧ rejects run' = rejects run
  | Err _ => True
  end.
Proof.
  unfold can_continue, assert_invariants, same_cases, failed.
  destruct (negb (reverted r) && _).
  - assert (∀ t, fuzz_runs (push_traces run t) = fuzz_runs run ∧ run_depth (push_traces run t) = run_depth run ∧
      rejects (push_traces run t) = rejects run) as Hp by by intros [].
    destruct (Hp (traces r)) as (? & ? & ?).
    destruct (call_invariant_function _ _ _) as [[r' []]|err]; cbn [mbind result_bind]; [|destruct (error _)|]; cbn [mbind result_bind]; by split_and?.
  - destruct (fail_on_revert config); cbn; [done|]. destruct (reverted r); by split_and?.
Qed.
Lemma skip_check_size s run r : match skip_check contract config s run r with
  | (s', run', goes, _) => same_cases s s' ∧ (goes = false → failed s') ∧
      fuzz_runs run' = fuzz_runs run ∧ run_depth run' = run_depth run ∧ rejects run' = rejects run
  end.
Proof.
  unfold skip_check, same_cases, failed. destruct (reverted r); [|by split_and?].
  destruct (fail_on_revert config); by split_and?.
Qed.

(** A turn keeps the size and spends the budget, or the campaign has failed. *)
Definition turn_size (s : St) (run : InvariantTestRun) (x : Flow (St * InvariantTestRun)) : Prop :=
  match x with
  | Next (s', run') => same_cases s s' ∧ run_size run' = run_size run ∧
      budget config run' = budget config run - 1 ∧ run_depth run' ≤ run_depth run + 1 ∧
      (rejects run ≤ max_assume_rejects config → rejects run' ≤ max_assume_rejects config)
  | Break (s', _) => failed s'
  | Return _ => True
  end.

Lemma kept_call_size s run t r : turn_size s run (kept_call config contract s run t r).
Proof.
  unfold kept_call. destruct (commit _ _) as [e1 r1]. set (s1 := if reverted r1 then s else _).
  assert (same_cases s s1) as Hs1 by by unfold s1, collect_data; destruct (reverted r1).
  clearbody s1. destruct (collect_created_contracts _ _ _) as [x created].
  set (s2 := with_src s1 x). set (run2 := mkRun _ _ _ _ _ _ _ _).
  assert (same_cases s s2) as Hs2 by exact Hs1.
  set (ch := if should_check_invariant config (run_depth run2) then _ else _).
  assert (match ch with
          | Ok (s', run', goes, _) => same_cases s2 s' ∧ (goes = false → failed s') ∧
              fuzz_runs run' = fuzz_runs run2 ∧ run_depth run' = run_depth run2 ∧ rejects run' = rejects run2
          | Err _ => True end) as Hch.
  { unfold ch. destruct (should_check_invariant _ _); [apply can_continue_size|apply skip_check_size]. }
  clearbody ch. destruct ch as [[[[s3 run3] goes] res]|err]; [|done]. destruct Hch as (Hc & Hg & Hf & Hd & Hr).
  set (s4 := if _ || _ then _ else _).
  assert (same_cases s3 s4 ∧ failures (data s4) = failures (data s3)) as [Hs4 Hs4f] by by unfold s4; destruct (_ || _).
  clearbody s4. unfold same_cases, failed in *. destruct goes.
  - unfold turn_size, run_size, budget, same_cases. cbn. rewrite Hf, Hd, Hr. cbn. rewrite length_app. cbn.
    split; [congruence|]. lia.
  - unfold turn_size, failed. rewrite Hs4f. by apply Hg.
Qed.
Lemma discarded_call_size s run : turn_size s run (discarded_call config s run).
Proof.
  unfold discarded_call. case_bool_decide as Hm; [done|]. cbn in Hm.
  unfold turn_size, run_size, budget, same_cases. cbn. split; [done|]. lia.
Qed.
Lemma run_call_size seq s run : turn_size s run (run_call config contract clock seq s run).
Proof.
  unfold run_call, is_timed_out. rewrite no_timeout. destruct (last _) as [t|]; [|done].
  destruct (execute_tx _ _) as [e [r|err]]; [|done].
  set (s1 := if show_metrics config then _ else _).
  assert (same_cases s s1) as Hs1.
  { unfold s1, record_metrics. destruct (show_metrics config); [|done]. by destruct (fuzzed_metric_key _ _). }
  clearbody s1. destruct (merge_source_coverage _ _) as [[x r'] new].
  set (s2 := with_src _ x). assert (same_cases s s2) as Hs2 by exact Hs1. clearbody s2.
  set (run1 := mkRun _ _ _ _ _ _ _ _). set (discarded := bool_decide _).
  assert (turn_size s2 run1 (if discarded then discarded_call config s2 run1 else kept_call config contract s2 run1 t r')) as Ht
    by (destruct discarded; [apply discarded_call_size|apply kept_call_size]).
  revert Ht. generalize (if discarded then discarded_call config s2 run1 else kept_call config contract s2 run1 t r').
  intros [[s3 run3]|[s3 run3]|err] Ht; [|exact Ht|done].
  destruct (generate_next_input _ _ _ _) as [x' [t'|err]]; [|done].
  unfold turn_size, same_cases in *. cbn in *. split; [etrans; [apply Ht|exact Hs2]|]. apply Ht.
Qed.

Lemma run_calls_size fuel : ∀ seq s run, rejects run ≤ max_assume_rejects config →
  run_depth run ≤ depth config → budget config run < Z.of_nat fuel →
  ∃ x, run_calls config contract clock fuel seq s run = Some x ∧
    match x with
    | Next (s', run') => same_cases s s' ∧ run_size run' = run_size run ∧ run_depth run' = depth config
    | Break (s', _) => failed s'
    | Return _ => True
    end.
Proof.
  induction fuel as [|fuel IH]; intros seq s run Hrj Hle Hb; cbn [run_calls].
  - case_bool_decide as Hd; [unfold budget in Hb; lia|]. eexists. split; [done|]. split_and!; [done|done|lia].
  - case_bool_decide as Hd; [|eexists; split; [done|]; split_and!; [done|done|lia]].
    pose proof (run_call_size seq s run) as Hs.
    destruct (run_call _ _ _ _ _ _) as [[s' run']|[s' run']|err]; [|by eexists|by eexists].
    destruct Hs as (Hc & Hsz & Hb' & Hd' & Hrj').
    destruct (IH seq s' run') as (x & -> & Hx); [by apply Hrj'|lia|lia|]. exists x. split; [done|].
    destruct x as [[s'' run'']|[s'' run'']|err]; [|done|done]. unfold same_cases in *. destruct Hx as (? & ? & ?).
    split_and!; [congruence|lia|lia].
Qed.

Hypothesis runs_nonneg : 0 ≤ runs config.
Hypothesis depth_nonneg : 0 ≤ depth config.
Hypothesis rejects_nonneg : 0 ≤ max_assume_rejects config.

Lemma length_insert_case c l : length (insert_case c l) = S (length l).
Proof. induction l as [|x l IH]; [done|]. cbn. case_bool_decide; cbn; by rewrite ?IH. Qed.
Lemma length_fuzzed_cases l : length (fuzzed_cases l) = length l.
Proof. induction l as [|x l IH]; [done|]. cbn [fuzzed_cases foldr length]. by rewrite length_insert_case, <- IH. Qed.

(** The runs that were made, each of the configured depth. *)
Definition made (s : St) (n : Z) : Prop :=
  Z.of_nat (length (fuzz_cases (data s))) = n ∧
  Forall (λ cases : list FuzzCase, Z.of_nat (length cases) = depth config) (fuzz_cases (data s)).

Lemma one_run_size s n : made s n → ∃ x, one_run config contract clock e0 s = Some x ∧
  match x with Next s' => made s' (n + 1) | Break s' => failed s' | Return _ => True end.
Proof.
  intros [Hn Hall]. unfold one_run. destruct (new_inputs (src s)) as [x [l|err]] eqn:Hl; [|by eexists].
  assert (∃ t l', l = t :: l') as (t & l' & ->).
  { destruct l as [|t l']; [by apply new_inputs_nonempty in Hl|by exists t, l']. }
  cbn [head mbind option_bind]. destruct (_ && _); [by eexists|]. set (s1 := with_src s x).
  destruct (run_calls_size (calls_fuel config) (t :: l') s1 (run_new t e0)) as (y & -> & Hy).
  { done. } { done. } { unfold budget, calls_fuel. cbn. lia. }
  cbn [mbind option_bind]. destruct y as [[s2 run]|[s2 run]|err]; [|by eexists|by eexists].
  destruct Hy as (Hc & Hsz & Hd). set (s3 := with_src s2 _).
  assert (match (if call_after_invariant contract && negb (has_errors s3) then assert_after_invariant contract config s3 run else Ok s3) with
          | Ok s' => same_cases s s' | Err _ => True end) as Hafter.
  { destruct (_ && _); [|exact Hc]. unfold assert_after_invariant.
    destruct (call_after_invariant_function _ _ _) as [[r []]|err]; [exact Hc|exact Hc|done]. }
  destruct (if _ && _ then _ else _) as [s4|err]; [|by eexists].
  eexists. split; [done|]. unfold same_cases, made, end_run in *. cbn [data fuzz_cases].
  rewrite length_app, Hafter, Forall_app, Forall_singleton, length_fuzzed_cases. cbn [length].
  unfold run_size in Hsz. cbn in Hsz. split; [lia|]. split; [done|lia].
Qed.

Lemma campaign_size fuel : ∀ s n, made s n → n ≤ runs config → runs config - n ≤ Z.of_nat fuel →
  ∃ r, campaign config contract clock stop fuel e0 s n = Some r ∧
    match r with
    | Ok d => error (failures d) = None → made (mkSt (src s) d 0) (runs config)
    | Err _ => True
    end.
Proof.
  induction fuel as [|fuel IH]; intros s n Hm Hn Hf; cbn [campaign];
    unfold continue_campaign; rewrite never_stopped, no_timeout; case_bool_decide as Hlt; try lia;
    try (eexists; split; [done|]; intros _; by replace (runs config) with n by lia).
  destruct (one_run_size (ticked s) n Hm) as (x & -> & Hx). cbn [mbind option_bind]. destruct x as [s'|s'|err].
  - destruct (IH s' (n + 1) Hx) as (r & -> & Hr); [lia|lia|]. exists r. split; [done|]. by destruct r.
  - eexists. split; [done|]. by intros.
  - by eexists.
Qed.

(** C16: without a timeout or an interruption a campaign ends (fuel for its
    runs is enough: a run takes at most its depth and the rejects that are
    allowed) without a panic, and one that reports no failure has made all
    its runs, each with exactly the configured number of calls that were not
    discarded. *)
Theorem campaign_makes_its_runs fuel x : runs config ≤ Z.of_nat fuel →
  ∃ r, invariant_fuzz config contract clock stop fuel e0 x = Some r ∧
    ∀ d, r = Ok d → error (failures d) = None →
      Z.of_nat (length (fuzz_cases d)) = runs config ∧
      Forall (λ cases : list FuzzCase, Z.of_nat (length cases) = depth config) (fuzz_cases d).
Proof.
  intros Hf. unfold invariant_fuzz. destruct (invariant_has_inputs contract); [by eexists|].
  destruct (prepare_test config contract e0 x) as [s|err] eqn:Hp; [|by eexists].
  assert (made s 0) as Hm.
  { unfold prepare_test, assert_invariants in Hp.
    destruct (call_invariant_function _ _ _) as [[r []]|err]; cbn in Hp; [|done|done].
    injection Hp as <-. split; [done|constructor]. }
  destruct (campaign_size fuel s 0 Hm) as (r & Hr & Hok); [lia|lia|]. exists r. split; [done|].
  intros d -> He. exact (Hok He).
Qed.
End counts.
