(* ===== verification/TestSample.v ===== *)
(** * A small world for the tests of [TestExec] and what is built on it

    The test contract keeps a counter.  Its calls, by their first byte: add a
    number, revert, be discarded by [vm.assume], the invariant (the counter is
    below ten), [afterInvariant] (it is not seven), tell the time, raise the
    failure flag, be skipped,
    revert with a reason, or log a number. *)
From stdpp Require Import base list gmap strings pretty.
From Stdlib Require Import ZArith Lia.
From S2P Require Import Prelude TestExec InvariantRun.
From S2P Require Shrink.
#[local] Open Scope list_scope.

(** The database: the counter, and the failure flag. *)
#[export] Instance sample_types : ExecTypes := {|
  Backend := Z * Z; Changeset := option (Z * Z); Code := unit; SpecId := unit; InstructionResult := bool;
  BlockRest := unit; CfgRest := unit; TxRest := unit; Authorization := unit; Tracer := unit;
  StackRest := unit; CheatsRest := unit; Breakpoints := unit; Log := Z; Arena := Z; HitMaps := Z;
  BroadcastableTransaction := unit; ChiselState := unit; RevertDecoder := unit; DynSolValue := Z;
|}.

(** The hook of the cheatcodes that puts the recorded block in place. *)
Definition enter (env : Env) (s : InspectorStack) : Env * InspectorStack :=
  match cheatcodes s with
  | Some c =>
      let clear := mkCheatcodes None None (broadcastable_transactions c) (ignored c) (last_pause_call c)
                     (breakpoints c) (gas_snapshots c) (deprecated c) (cheats_seed c) (cheats_rest c) in
      (mkEnv (mkEvmEnv (cfg_env (evm_env env)) (default (block_env (evm_env env)) (cheats_block c))) (tx env),
       mkStack (Some clear) (tracer s) (stack_rest s))
  | None => (env, s)
  end.
Definition ok (data : list Z) : ExecutionResult := ExecSuccess true 0 100 (OutCall data) [].
Definition run_data (b : Z * Z) (time : Z) (data : list Z) : ExecutionResult * option (Z * Z) :=
  match data with
  | [0; n] => (ok [], Some (b.1 + n, b.2))
  | [1] => (ExecRevert 100 [] [], None)
  | [2] => (ExecRevert 100 MAGIC_ASSUME [], None)
  | [3] => (if bool_decide (b.1 < 10) then ok [] else ExecRevert 100 [7] [], None)
  | [4] => (if bool_decide (b.1 = 7) then ExecRevert 100 [8] [] else ok [], None)
  | [5] => (ok [time], None)
  | [6] => (ok [], Some (b.1, 1))
  | 7 :: reason => (ExecRevert 100 (MAGIC_SKIP ++ reason) [], None)
  | 8 :: reason => (ExecRevert 100 reason [8], None)
  | [10; n] => (ExecSuccess true 0 100 (OutCall []) [n], None)
  | _ => (ok [], None)
  end.
Definition apply_changes (b : Z * Z) (c : option (Z * Z)) : Z * Z := default b c.

#[export] Instance sample_env : ExecEnv := {|
  basic_ref _ _ := Ok (Some (mkAccountInfo 0 0 0 None));
  storage_ref b a k := Ok (if bool_decide (a = CHEATCODE_ADDRESS ∧ k = GLOBAL_FAIL_SLOT) then b.2 else 0);
  insert_account_info b _ _ := b;
  replace_account_storage b _ _ := (b, Ok tt);
  insert_account_storage b _ _ _ := (b, Ok tt);
  backend_commit := apply_changes;
  clone_empty _ := (0, 0);
  has_state_snapshot_failure _ := false;
  add_persistent_account b _ := b;
  set_test_contract b _ := b;
  backend_set_caller b _ := b;
  inspect b env s :=
    let '(env, s) := enter env s in
    match tx_kind (tx env) with
    | TxCreate => (b, Ok (env, s, ExecSuccess true 0 100 (OutCreate [] (Some 1)) [], None))
    | TxCall _ => let '(r, c) := run_data b (timestamp (block_env (evm_env env))) (tx_data (tx env)) in
                  (b, Ok (env, s, r, c))
    end;
  inspect_cow b env s :=
    let '(env, s) := enter env s in
    let '(r, c) := run_data b (timestamp (block_env (evm_env env))) (tx_data (tx env)) in
    Ok (env, s, r, c, false);
  collect s := mkInspectorData [] ∅ (Some 1) None None (cheatcodes s) None None;
  set_tracing_mode s := s;
  networks_is_base _ := false;
  base_precompile_sentinel_addresses _ := [];
  changed_slot c a k :=
    if bool_decide (a = CHEATCODE_ADDRESS ∧ k = GLOBAL_FAIL_SLOT) then snd <$> c else None;
  no_changes := None;
  no_breakpoints := tt;
  initial_total_gas _ := 21;
  result_revert := false;
  is_ok b := b;
  bytecode_new_raw _ := tt;
  code_is_empty _ := true;
  code_bytes _ := [];
  keccak256 _ := 5;
  KECCAK_EMPTY := 0;
  DEFAULT_CREATE2_DEPLOYER_CODE := [9];
  missing_account _ := "failed to fetch account info";
  from_utf8_lossy l := String.string_of_list_ascii (Ascii.ascii_of_N ∘ Z.to_N <$> l);
  decimal := pretty;
  decode_error _ l _ := match l with [] => None | l => Some (String.string_of_list_ascii (Ascii.ascii_of_N ∘ Z.to_N <$> l)) end;
  default_reason _ := "<empty revert data>";
  abi_encode_input f args := Ok (selector f ++ args);
  abi_decode_output _ l := Ok l;
  sol_tuple _ := 0;
  sol_uint n := n;
  sol_array _ := 0;
  setUp_selector := [0; 1];
  failed_selector := [9];
  decode_bool _ := Ok false;
  merge_opt a b := match a, b with Some a, Some b => Some (a + b) | None, b => b | a, None => a end;
|}.

Definition small_env (time : Z) : Env :=
  mkEnv (mkEvmEnv (mkCfgEnv 1 tt tt) (mkBlockEnv 1 time 0 1000 tt))
    (mkTxEnv 0 TxCreate [] 0 0 None 1000 None 0 0 [] tt).
Definition small_cheats : Cheatcodes := mkCheatcodes None None [] ∅ None tt ∅ ∅ None tt.
Definition small_executor (counter : Z) : Executor :=
  mkExecutor (counter, 0) (small_env 100) (mkStack (Some small_cheats) None tt) 1000 false.

(** Calls that are generated from a list, and then do nothing. *)
Definition small_call (data : list Z) : BasicTxDetails := mkTxDetails None None 5 (mkCallDetails 1 data).
Definition next_of (l : list (list Z)) : list (list Z) * BasicTxDetails :=
  (tail l, small_call (default [9] (head l))).
#[export] Instance sample_source : InputSource := {|
  Source := list (list Z);
  new_inputs l := ((next_of l).1, Ok [(next_of l).2]);
  generate_next_input l _ _ _ := ((next_of l).1, Ok (next_of l).2);
  merge_source_coverage l r := (l, r, false);
  process_inputs l _ _ := l;
  collect_values_from_call l _ _ _ _ _ := l;
  collect_created_contracts l _ created := (l, created);
  clear_created_contracts l _ := l;
  revert_values l := l;
  target_addresses _ := [1];
  fuzzed_metric_key _ _ := Some "Counter.add";
  last_sequence _ := [];
  targets_decoder _ := tt;
  has_code _ _ := false;
  without_account c _ := c;
|}.

Definition small_contract (after : bool) : InvariantContract :=
  mkInvariantContract 1 "invariant_small" [3] false after [4].

(** ** Campaigns on a small contract: the claims at work, and where the code
    departs from what it means to do *)
#[local] Instance sample_laws : InputLaws.
Proof.
  split.
  - intros x x' l [= <- <-]. done.
  - intros x r x' r' new [= <- <- <-]. exists (edge_coverage r). by destruct r.
Qed.
#[local] Instance sample_undelayed : NoDelays.
Proof.
  split.
  - intros x x' l t [= <- <-] ->%list_elem_of_singleton. done.
  - intros x l b d x' t [= <- <-]. done.
Qed.

Definition small_config (runs depth max_rejects : Z) (fail_on_revert : bool) : InvariantConfig :=
  mkConfig runs depth fail_on_revert max_rejects 1 0 100 false None.
Definition never (_ : nat) : bool := false.

Lemma small_answers after e : ∃ v,
  call_invariant_function e (address (small_contract after)) (invariant_calldata (small_contract after)) = Ok v.
Proof.
  unfold call_invariant_function, call_raw, call_with_env. destruct e as [b env s g l].
  cbn [TestExec.backend inspector inspect_cow sample_env]. destruct (enter _ _) as [env' s'] eqn:He.
  destruct (run_data _ _ _) as [r c]. cbn [mbind result_bind]. by eexists.
Qed.

(** The data of a campaign that ends without an error of its own. *)
Definition campaign_data (config : InvariantConfig) (after : bool) (script : list (list Z)) : option InvariantTestData :=
  match invariant_fuzz config (small_contract after) never never 10 (small_executor 0) script with
  | Some (Ok d) => Some d
  | _ => None
  end.
Definition reported (d : InvariantTestData) : option (list (list Z)) :=
  match error (failures d) with
  | Some (BrokenInvariant c) | Some (Revert c) => Some ((λ t, calldata (call_details t)) <$> test_calls c)
  | _ => None
  end.

Definition broken_script : Source (InputSource := sample_source) := [[0; 4]; [2]; [1]; [0; 7]].
Lemma reported_sequence_breaks_witness :
  ∃ d c, campaign_data (small_config 2 5 3 false) false broken_script = Some d ∧
    error (failures d) = Some (BrokenInvariant c) ∧
    ∃ kept hist, campaign_made (small_config 2 5 3 false) (small_contract false) never (small_executor 0)
        broken_script hist ∧ Shrink.breaks (EqDecision0 := list_eq_dec) (InvariantExecutor0 := campaign_executor (small_contract false))
        (small_executor 0) false false hist ∧ kept `sublist_of` hist ∧ test_calls c = kept.
Proof.
  assert (0 ≤ 3) as Hrejects by lia.
  assert (∃ d, invariant_fuzz (small_config 2 5 3 false) (small_contract false) never never 10
            (small_executor 0) broken_script = Some (Ok d) ∧
          ∃ c, error (failures d) = Some (BrokenInvariant c)) as (d & Hd & c & Hc).
  { eexists. split; [vm_compute; reflexivity|]. eexists. reflexivity. }
  exists d, c. split; [unfold campaign_data; rewrite Hd; reflexivity|]. split; [exact Hc|].
  destruct (reported_sequence_breaks (small_config 2 5 3 false) (small_contract false) never never
              (small_executor 0) (small_answers false) broken_script Hrejects 10%nat d c Hd Hc)
    as (kept & hist & Hm & Hb & Hsub & _ & Hk).
  exists kept, hist. split; [exact Hm|]. split; [exact Hb|]. split; [exact Hsub|].
  destruct Hk as [Hk|[Ha _]]; [exact Hk|discriminate Ha].
Defined.

Lemma campaign_makes_its_runs_witness :
  ∃ r, invariant_fuzz (small_config 2 3 3 false) (small_contract false) never never 2
         (small_executor 0) [[0; 4]; [2]; [1]; [0; 5]] = Some r ∧
    match r with Ok d => map length (fuzz_cases d) = [3; 3]%nat | Err _ => False end.
Proof.
  destruct (campaign_makes_its_runs (small_config 2 3 3 false) (small_contract false) never never (small_executor 0)
              eq_refl (λ _, eq_refl) ltac:(done) ltac:(done) ltac:(done) 2 [[0; 4]; [2]; [1]; [0; 5]] ltac:(done)) as (r & Hr & _).
  exists r. split; [exact Hr|]. vm_compute in Hr. injection Hr as <-. reflexivity.
Defined.

(** ** Departures *)
(** The sequence that is reported for a failing [afterInvariant] ends with a
    call that was generated but never made. *)
Lemma after_failure_reports_unmade_call :
  match campaign_data (small_config 1 1 3 false) true [[0; 7]; [0; 1]] with
  | Some d => reported d = Some [[0; 7]; [0; 1]] ∧ map length (fuzz_cases d) = [1]%nat
  | None => False
  end.
Proof. vm_compute. done. Qed.

(** After [afterInvariant] failed the campaign goes on, and a later run that
    rejects too many inputs replaces the failure. *)
Lemma after_failure_replaced :
  match campaign_data (small_config 3 1 0 false) true [[0; 7]; [9]; [2]] with
  | Some d => error (failures d) = Some (MaxAssumeRejects 0)
  | None => False
  end ∧
  match campaign_data (small_config 1 1 0 false) true [[0; 7]; [9]; [2]] with
  | Some d => reported d = Some [[0; 7]; [9]]
  | None => False
  end.
Proof. vm_compute. done. Qed.

(** Under [fail_on_revert] a handler that raises the failure flag without
    reverting ends the campaign, but its sequence is none that
    [check_sequence] finds to fail. *)
Lemma failed_handler_not_replayed :
  match campaign_data (small_config 1 1 3 true) false [[6]] with
  | Some d => reported d = Some [[6]]
  | None => False
  end ∧
  Shrink.check_sequence (EqDecision0 := list_eq_dec) (InvariantExecutor0 := campaign_executor (small_contract false))
    (small_executor 0) [small_call [5]] [0%nat] true false = Some (Ok (true, true)).
Proof. split; vm_compute; done. Qed.

(** What a result's environment adds to the block is put in place of the
    executor's at the next call, as the block after the set-up was: a delay
    before a call is only seen by the call after it. *)
Definition set_up (e : Executor) : Executor := (commit e (mkRaw None false false [] 0 0 0 [] ∅ None None None None None
  (ex_env e) (cheatcodes (inspector e)) None None None)).1.
Definition delayed (w : Z) : BasicTxDetails := mkTxDetails (Some w) None 5 (mkCallDetails 1 [5]).
Definition time_of (x : Executor * result string RawCallResult) : list Z :=
  match x.2 with Ok r => call_result r | Err _ => [] end.
Definition after_tx (e : Executor) (t : BasicTxDetails) : Executor :=
  match execute_tx e t with (e, Ok r) => (commit e r).1 | (e, Err _) => e end.
Lemma delays_late :
  let e := set_up (small_executor 0) in
  time_of (execute_tx e (delayed 10)) = [100] ∧
  time_of (execute_tx (after_tx e (delayed 10)) (delayed 7)) = [110] ∧
  time_of (execute_tx (after_tx (after_tx e (delayed 10)) (delayed 7)) (delayed 0)) = [117].
Proof. vm_compute. done. Qed.
