(* ===== verification/FuzzRun.v ===== *)
(** * Fuzz tests: evm/evm/src/executors/fuzz/mod.rs

    [FuzzedExecutor] runs a function on generated inputs in several workers
    that share counters, the first failure and two stop flags.  A worker's
    loop is split where it touches what is shared: [step] interleaves the
    workers, and other tests that raise the global flag.  The corpus that
    generates inputs is the interface [FuzzSource]; [None] is a panic. *)
From stdpp Require Import base list gmap strings.
From Stdlib Require Import ZArith Lia.
From S2P Require Import Prelude TestExec.
#[local] Open Scope list_scope.

#[local] Abbreviation Address := Z (only parsing).
#[local] Abbreviation Bytes := (list Z) (only parsing).

Record FuzzConfig := mkFuzzConfig
  { runs : Z; max_test_rejects : Z; seed : option Z; fail_on_revert : bool;
    gas_report_samples : Z; show_logs : bool; timeout : option Z }.
Record FuzzCase := mkFuzzCase { case_calldata : Bytes; case_gas : Z; case_stipend : Z }.

(** proptest's errors, with the messages of [FuzzError] (evm/fuzz/src/error.rs). *)
Inductive TestCaseError := Fail_ (reason : string) | Reject (reason : string).

Class FuzzSource `{!ExecTypes} := {
  Corpus : Type;
  (** A worker's corpus, which may fail; what else it generates is any of
      what it may generate. *)
  corpus_new : nat → result Report Corpus;
  sync : Corpus → result Report Corpus;
  generates : Corpus → Corpus → result Report Bytes → Prop;
  merge_corpus_coverage : Corpus → RawCallResult → Corpus * RawCallResult * bool;
  process_input : Corpus → BasicTxDetails → bool → Corpus;
  failed_replays : Corpus → Z;
  (** Arguments of a call, decoded and printed. *)
  abi_decode_input : Function → Bytes → result Report (list DynSolValue);
  format_tokens : list DynSolValue → string;
  format_tokens_raw : list DynSolValue → string;
  worker_seed : Z → nat → Z;
}.

Section fuzz.
Context `{!ExecTypes, !ExecEnv, !FuzzSource}.

Definition AssumeReject : string := "`vm.assume` reject".
Definition TooManyRejects (max : Z) : string :=
  "`vm.assume` rejected too many inputs (" +:+ decimal max +:+ " allowed)".

(** ** Results (evm/fuzz/src/lib.rs, fuzz/types.rs) *)
Record BaseCounterExample := mkExample
  { ex_warp : option Z; ex_roll : option Z; ex_sender : option Address; ex_addr : option Address;
    ex_calldata : Bytes; contract_name : option string; func_name : option string;
    ex_signature : option string; ex_args : option string; raw_args : option string;
    ex_traces : option Arena; show_solidity : bool }.
Definition from_fuzz_call (bytes : Bytes) (args : list DynSolValue) (t : option Arena) : BaseCounterExample :=
  mkExample None None None None bytes None None None (Some (format_tokens args))
    (Some (format_tokens_raw args)) t false.
Inductive CounterExample :=
| Single (e : BaseCounterExample)
| Sequence (original : nat) (calls : list BaseCounterExample).

Record CaseOutcome := mkCase
  { oc_case : FuzzCase; oc_traces : option Arena; oc_coverage : option HitMaps;
    oc_breakpoints : Breakpoints; oc_logs : list Log; oc_deprecated : gmap string (option string) }.
Inductive FuzzOutcome :=
| Case (c : CaseOutcome)
| CounterExampleOutcome (exit : option InstructionResult) (calldata : Bytes) (call : RawCallResult)
    (b : Breakpoints).

Record FuzzTestResult := mkFuzzResult
  { first_case : FuzzCase; gas_by_case : list (Z * Z); success : bool; skipped : bool;
    reason : option string; counterexample : option CounterExample; fr_logs : list Log;
    fr_labels : gmap Address string; fr_traces : option Arena; fr_gas_report_traces : list Arena;
    fr_line_coverage : option HitMaps; fr_breakpoints : option Breakpoints;
    fr_deprecated : gmap string (option string); fr_failed_corpus_replays : Z }.
Definition default_case : FuzzCase := mkFuzzCase [] 0 0.
Definition fuzz_result_default : FuzzTestResult :=
  mkFuzzResult default_case [] false false None None [] ∅ None [] None None ∅ 0.

(** ** A single input *)
Definition single_fuzz (config : FuzzConfig) (sender : Address) (e : Executor) (address : Address)
    (input : Bytes) (corpus : Corpus) : Corpus * result TestCaseError FuzzOutcome :=
  match call_raw e sender address input 0 with
  | Err err => (corpus, Err (Fail_ err))
  | Ok call =>
      let '(corpus, call, new_coverage) := merge_corpus_coverage corpus call in
      let corpus := process_input corpus (mkTxDetails None None sender (mkCallDetails address input)) new_coverage in
      if bool_decide (call_result call = MAGIC_ASSUME) then (corpus, Err (Reject AssumeReject))
      else
        let '(b, d) := match res_cheatcodes call with
                       | Some c => (breakpoints c, deprecated c)
                       | None => (no_breakpoints, ∅) end in
        let outer := match reverter call with
                     | Some r => negb (bool_decide (r = address)) && negb (bool_decide (r = CHEATCODE_ADDRESS))
                     | None => false end in
        let '(call, ok) := if negb (fail_on_revert config) && outer then (call, true)
                           else is_raw_call_mut_success e address call false in
        (corpus, Ok (if (ok : bool)
           then Case (mkCase (mkFuzzCase input (gas_used call) (stipend call)) (traces call)
                        (line_coverage call) b (logs call) d)
           else CounterExampleOutcome (exit_reason call) input call b))
  end.

(** ** Workers *)
Record WorkerState := mkWorker
  { w_id : nat; w_first_case : option (Z * FuzzCase); w_gas_by_case : list (Z * Z);
    w_counterexample : option (Bytes * RawCallResult); w_traces : list Arena;
    w_breakpoints : option Breakpoints; w_coverage : option HitMaps; w_logs : list Log;
    w_deprecated : gmap string (option string); w_runs : Z; w_failure : option TestCaseError;
    w_last_run : Z; w_failed_replays : Z }.
Definition worker_new (worker_id : nat) : WorkerState :=
  mkWorker worker_id None [] None [] None None [] ∅ 0 None 0 0.

Record SharedFuzzState := mkShared
  { total_runs : Z; failed_worker_id : option nat; total_rejects : Z;
    global_early_exit : EarlyExit; local_early_exit : EarlyExit }.
Definition shared_new (early_exit : EarlyExit) : SharedFuzzState :=
  mkShared 0 None 0 early_exit (early_exit_new true).
Definition increment_runs (s : SharedFuzzState) : SharedFuzzState * Z :=
  (mkShared (total_runs s + 1) (failed_worker_id s) (total_rejects s) (global_early_exit s) (local_early_exit s),
   total_runs s + 1).
Definition increment_rejects (s : SharedFuzzState) : SharedFuzzState * Z :=
  (mkShared (total_runs s) (failed_worker_id s) (total_rejects s + 1) (global_early_exit s) (local_early_exit s),
   total_rejects s + 1).
Definition should_continue (s : SharedFuzzState) (timed_out : bool) : bool :=
  negb (should_stop (global_early_exit s) || should_stop (local_early_exit s) || timed_out).
Definition try_claim_failure (s : SharedFuzzState) (worker_id : nat) : SharedFuzzState :=
  match failed_worker_id s with
  | Some _ => s
  | None => mkShared (total_runs s) (Some worker_id) (total_rejects s) (global_early_exit s)
              (record_failure (local_early_exit s))
  end.

Definition SYNC_INTERVAL : Z := 1000.
Definition MIN_RUNS_PER_WORKER : Z := 64.

(** [FuzzedExecutor]; its number of workers. *)
Record FuzzedExecutor := mkFuzzed
  { executor_f : Executor; sender : Address; config : FuzzConfig; persisted_failure : option Bytes;
    num_workers : nat }.
Definition fuzzed_new (e : Executor) (s : Address) (c : FuzzConfig) (persisted : option Bytes) (threads : nat)
    : FuzzedExecutor :=
  let max_workers := if bool_decide (runs c = 0) then 0 else Z.max 1 (runs c / MIN_RUNS_PER_WORKER) in
  mkFuzzed e s c persisted (Nat.min threads (Z.to_nat max_workers)).
Definition runs_per_worker (f : FuzzedExecutor) (worker_id : nat) : Z :=
  let n := Z.of_nat (num_workers f) in
  let quota := runs (config f) / n in
  let remainder := runs (config f) mod n in
  if bool_decide (Z.of_nat worker_id < remainder) then quota + 1 else quota.

(** Where a worker's thread is: not started, at the head of its loop, with an
    input that it has run and not yet recorded, done, or ended by an error. *)
Inductive Phase :=
| Starting
| Running (corpus : Corpus)
| Judging (corpus : Corpus) (input : Bytes)
| Finished (corpus : Corpus)
| Errored (e : Report).
Record Thread := mkThread
  { phase : Phase; worker : WorkerState; executor : Executor; persisted : option Bytes; runs_since_sync : Z }.
Record Pool := mkPool { shared : SharedFuzzState; threads : list Thread }.

Section run_worker.
Variables (f : FuzzedExecutor) (func : Function) (address : Address) (rd : RevertDecoder).
#[local] Abbreviation cfg := (config f).

Definition sync_threshold (worker_id : nat) : Z := SYNC_INTERVAL + Z.of_nat worker_id * 100.
Definition thread_new (worker_id : nat) : Thread :=
  mkThread Starting (worker_new worker_id) (executor_f f)
    (if bool_decide (worker_id = 0%nat) then persisted_failure f else None) (sync_threshold worker_id).
Definition pool_new (early_exit : EarlyExit) : Pool :=
  mkPool (shared_new early_exit) (thread_new <$> seq 0 (num_workers f)).

Definition with_phase (t : Thread) (p : Phase) : Thread :=
  mkThread p (worker t) (executor t) (persisted t) (runs_since_sync t).
Definition with_worker (t : Thread) (w : WorkerState) : Thread :=
  mkThread (phase t) w (executor t) (persisted t) (runs_since_sync t).

(** The head of the loop. *)
Definition goes_on (s : SharedFuzzState) (w : WorkerState) (timed_out : bool) : bool :=
  should_continue s timed_out && bool_decide (w_runs w < runs_per_worker f (w_id w)).

(** The counterexample of an earlier run, for the first worker and once. *)
Definition take_persisted (t : Thread) : Thread * option Bytes :=
  if bool_decide (w_id (worker t) = 0%nat) then
    (mkThread (phase t) (worker t) (executor t) None (runs_since_sync t),
     match persisted t with
     | Some input => if bool_decide (take 4 input = selector func ∧ 4 ≤ length input)%nat then Some input else None
     | None => None
     end)
  else (t, None).

(** Before an input is generated: the corpus is synced when it is due, and
    the seed of the cheatcodes is set. *)
Definition set_seed (e : Executor) (n : Z) : Executor :=
  match cheatcodes (inspector e), seed cfg with
  | Some c, Some sd =>
      with_inspector e (mkStack (Some (mkCheatcodes (cheats_block c) (cheats_gas_price c)
        (broadcastable_transactions c) (ignored c) (last_pause_call c) (breakpoints c) (gas_snapshots c)
        (deprecated c) (Some (wrap_u256 (sd + n))) (cheats_rest c))) (tracer (inspector e)) (stack_rest (inspector e)))
  | _, _ => e
  end.
Definition prepare_input (t : Thread) (corpus : Corpus) : Thread * result Report Corpus :=
  let n := runs_since_sync t + 1 in
  let due := bool_decide (sync_threshold (w_id (worker t)) ≤ n) in
  let '(n, r) := if due then (0, sync corpus) else (n, Ok corpus) in
  (mkThread (phase t) (worker t) (set_seed (executor t) (w_runs (worker t))) (persisted t) n, r).

Definition with_failure (w : WorkerState) (e : TestCaseError) : WorkerState :=
  mkWorker (w_id w) (w_first_case w) (w_gas_by_case w) (w_counterexample w) (w_traces w) (w_breakpoints w)
    (w_coverage w) (w_logs w) (w_deprecated w) (w_runs w) (Some e) (w_last_run w) (w_failed_replays w).
Definition with_last_run (w : WorkerState) (now : Z) : WorkerState :=
  mkWorker (w_id w) (w_first_case w) (w_gas_by_case w) (w_counterexample w) (w_traces w) (w_breakpoints w)
    (w_coverage w) (w_logs w) (w_deprecated w) (w_runs w) (w_failure w) now (w_failed_replays w).
Definition with_replays (w : WorkerState) (n : Z) : WorkerState :=
  mkWorker (w_id w) (w_first_case w) (w_gas_by_case w) (w_counterexample w) (w_traces w) (w_breakpoints w)
    (w_coverage w) (w_logs w) (w_deprecated w) (w_runs w) (w_failure w) (w_last_run w) n.

(** A failure ends the worker and is claimed if no other was. *)
Definition fail_worker (s : SharedFuzzState) (t : Thread) (w : WorkerState) (corpus : Corpus) (e : TestCaseError)
    : SharedFuzzState * Thread :=
  (try_claim_failure s (w_id w), with_phase (with_worker t (with_failure w e)) (Finished corpus)).

Definition max_traces_to_collect : Z :=
  Z.max 1 (gas_report_samples cfg / Z.of_nat (num_workers f)).
Definition record_case (w : WorkerState) (total : Z) (c : CaseOutcome) : WorkerState :=
  let collected := match oc_traces c with
                   | Some tr => (if bool_decide (Z.of_nat (length (w_traces w)) = max_traces_to_collect)
                                 then removelast (w_traces w) else w_traces w) ++ [tr]
                   | None => w_traces w end in
  mkWorker (w_id w) (match w_first_case w with None => Some (total, oc_case c) | x => x end)
    (w_gas_by_case w ++ [(case_gas (oc_case c), case_stipend (oc_case c))]) (w_counterexample w) collected
    (match oc_traces c with Some _ => Some (oc_breakpoints c) | None => w_breakpoints w end)
    (merge_opt (w_coverage w) (oc_coverage c))
    (if show_logs cfg then w_logs w ++ oc_logs c else oc_logs c)
    (oc_deprecated c) (w_runs w + 1) (w_failure w) (w_last_run w) (w_failed_replays w).
Definition record_counterexample (w : WorkerState) (input : Bytes) (call : RawCallResult) : WorkerState :=
  mkWorker (w_id w) (w_first_case w) (w_gas_by_case w) (Some (input, call)) (w_traces w) (w_breakpoints w)
    (w_coverage w) (w_logs w ++ logs call) (w_deprecated w) (w_runs w + 1) (w_failure w) (w_last_run w)
    (w_failed_replays w).

(** What the loop does with the outcome of an input; [now] is the clock. *)
Definition judge (s : SharedFuzzState) (t : Thread) (corpus : Corpus) (input : Bytes) (now : Z)
    : SharedFuzzState * Thread :=
  let w := with_last_run (worker t) now in
  let '(corpus, outcome) := single_fuzz cfg (sender f) (executor t) address input corpus in
  match outcome with
  | Ok (Case c) =>
      let '(s, total) := increment_runs s in
      (s, with_phase (with_worker t (record_case w total c)) (Running corpus))
  | Ok (CounterExampleOutcome status calldata call _) =>
      let '(s, _) := increment_runs s in
      let reason := default "" (maybe_decode (Some rd) (call_result call) status) in
      fail_worker s t (record_counterexample w calldata call) corpus (Fail_ reason)
  | Err (Fail_ reason) => fail_worker s t w corpus (Fail_ reason)
  | Err (Reject _) =>
      let '(s, total) := increment_rejects s in
      if bool_decide (0 < max_test_rejects cfg) && bool_decide (max_test_rejects cfg < total)
      then fail_worker s t w corpus (Reject (TooManyRejects (max_test_rejects cfg)))
      else (s, with_phase (with_worker t w) (Running corpus))
  end.
Definition generation_failed (w : WorkerState) (err : Report) : TestCaseError :=
  Fail_ ("failed to generate fuzzed input in worker " +:+ decimal (Z.of_nat (w_id w)) +:+ ": " +:+ err).

(** At the end the first worker tells how many replays failed. *)
Definition finish (t : Thread) (corpus : Corpus) : WorkerState :=
  if bool_decide (w_id (worker t) = 0%nat) then with_replays (worker t) (failed_replays corpus) else worker t.

(** ** Interleavings *)
Inductive turn (s : SharedFuzzState) (t : Thread) : SharedFuzzState → Thread → Prop :=
| turn_start : phase t = Starting →
    turn s t s (with_phase t (match corpus_new (w_id (worker t)) with Ok c => Running c | Err e => Errored e end))
| turn_leave corpus timed_out : phase t = Running corpus →
    (timed_out = true → is_Some (timeout cfg)) → goes_on s (worker t) timed_out = false →
    turn s t s (with_phase t (Finished corpus))
| turn_replay corpus timed_out t' input : phase t = Running corpus → goes_on s (worker t) timed_out = true →
    take_persisted t = (t', Some input) → turn s t s (with_phase t' (Judging corpus input))
| turn_sync_failed corpus timed_out t' t'' err : phase t = Running corpus → goes_on s (worker t) timed_out = true →
    take_persisted t = (t', None) → prepare_input t' corpus = (t'', Err err) →
    turn s t s (with_phase t'' (Errored err))
| turn_generate corpus timed_out t' t'' corpus' corpus'' input :
    phase t = Running corpus → goes_on s (worker t) timed_out = true →
    take_persisted t = (t', None) → prepare_input t' corpus = (t'', Ok corpus') →
    generates corpus' corpus'' (Ok input) → turn s t s (with_phase t'' (Judging corpus'' input))
| turn_generation_failed corpus timed_out t' t'' corpus' corpus'' err :
    phase t = Running corpus → goes_on s (worker t) timed_out = true →
    take_persisted t = (t', None) → prepare_input t' corpus = (t'', Ok corpus') →
    generates corpus' corpus'' (Err err) →
    turn s t (fail_worker s t'' (worker t'') corpus'' (generation_failed (worker t'') err)).1
      (fail_worker s t'' (worker t'') corpus'' (generation_failed (worker t'') err)).2
| turn_judge corpus input now : phase t = Judging corpus input →
    turn s t (judge s t corpus input now).1 (judge s t corpus input now).2.

Inductive step (p : Pool) : Pool → Prop :=
| step_turn i t s' t' : threads p !! i = Some t → turn (shared p) t s' t' →
    step p (mkPool s' (<[i := t']> (threads p)))
| step_interrupted :
    let s := shared p in
    step p (mkPool (mkShared (total_runs s) (failed_worker_id s) (total_rejects s)
                      (record_ctrl_c (global_early_exit s)) (local_early_exit s)) (threads p)).
Definition steps : Pool → Pool → Prop := rtc step.

(** ** The result of all workers *)
Definition result_of (t : Thread) : option (result Report WorkerState) :=
  match phase t with
  | Finished corpus => Some (Ok (finish t corpus))
  | Errored e => Some (Err e)
  | _ => None
  end.
(** Collecting the results: the workers, or an error of one of them. *)
Fixpoint collect_workers (l : list Thread) : option (result Report (list WorkerState)) :=
  match l with
  | [] => Some (Ok [])
  | t :: l =>
      r ← result_of t;
      rest ← collect_workers l;
      Some (w ← r; ws ← rest; Ok (w :: ws))
  end.

(** The least run among the first cases, and the worker that ran last. *)
Definition first_step (acc : option (Z * FuzzCase)) (w : WorkerState) : option (Z * FuzzCase) :=
  match w_first_case w, acc with
  | Some (run, case), None => Some (run, case)
  | Some (run, case), Some (r, _) => if bool_decide (run < r) then Some (run, case) else acc
  | None, _ => acc
  end.
Definition last_step (acc : option (Z * WorkerState)) (w : WorkerState) : option (Z * WorkerState) :=
  match acc with
  | Some (t, _) => if bool_decide (t < w_last_run w) then Some (w_last_run w, w) else acc
  | None => Some (w_last_run w, w)
  end.

Definition failure_result (r : FuzzTestResult) (w : WorkerState) : FuzzTestResult :=
  let call := snd <$> w_counterexample w in
  let calldata := default [] (fst <$> w_counterexample w) in
  let tr := c ← call; traces c in
  let opt_reason (s : string) := if bool_decide (s = "") then None else Some s in
  let '(reason, ex) :=
    match w_failure w with
    | Some (Fail_ s) =>
        let args := if bool_decide (4 ≤ length calldata)%nat
                    then match abi_decode_input func (drop 4 calldata) with Ok a => a | Err _ => [] end
                    else [] in
        (opt_reason s, Some (Single (from_fuzz_call calldata args tr)))
    | Some (Reject s) => (opt_reason s, None)
    | None => (None, None)
    end in
  mkFuzzResult (first_case r) [] false false reason ex [] (default ∅ (labels <$> call)) tr [] None
    (c ← call; breakpoints <$> res_cheatcodes c) ∅ (fr_failed_corpus_replays r).

Definition aggregate_results (workers : list WorkerState) (s : SharedFuzzState) : option FuzzTestResult :=
  match workers with
  | [] => Some (mkFuzzResult default_case [] true false None None [] ∅ None [] None None ∅ 0)
  | _ =>
      let first := default default_case (snd <$> foldl first_step None workers) in
      '(_, last_run_worker) ← foldl last_step None workers;
      let replays := foldl (λ n w, if bool_decide (w_id w = 0%nat) then w_failed_replays w else n) 0 workers in
      let r := mkFuzzResult first [] false false None None [] ∅ None [] None None ∅ replays in
      r ← match failed_worker_id s with
          | Some id =>
              '(_, w) ← list_find (λ w, w_id w = id) workers;
              Some (failure_result r w)
          | None => Some (mkFuzzResult first [] true false None None [] ∅ (last (w_traces last_run_worker)) []
                            None (w_breakpoints last_run_worker) ∅ replays)
          end;
      let lg := if show_logs cfg then mjoin (w_logs <$> workers) else w_logs last_run_worker in
      let '(skipped, reason) :=
        match r_reason ← reason r; SkipReason_decode_self r_reason with
        | Some skip => (true, skip)
        | None => (false, reason r)
        end in
      Some (mkFuzzResult (first_case r) (mjoin (w_gas_by_case <$> workers)) (success r) skipped reason
              (counterexample r) lg (fr_labels r) (fr_traces r) (mjoin (w_traces <$> workers))
              (foldl (λ c w, merge_opt c (w_coverage w)) None workers) (fr_breakpoints r)
              (foldl (λ d w, w_deprecated w ∪ d) ∅ workers) (fr_failed_corpus_replays r))
  end.

(** [fuzz], for a run of the workers that ends in [p]. *)
Definition fuzz (p : Pool) : option (result Report FuzzTestResult) :=
  ws ← collect_workers (threads p);
  match ws with
  | Err e => Some (Err e)
  | Ok ws => r ← aggregate_results ws (shared p); Some (Ok r)
  end.
End run_worker.
End fuzz.

(** ** What a fuzz test reports, however its workers interleave *)
(** ** Sums over lists that are updated *)
Fixpoint sum_of {A} (g : A → Z) (l : list A) : Z :=
  match l with [] => 0 | x :: l => g x + sum_of g l end.
Lemma sum_insert {A} (g : A → Z) (l : list A) i x y :
  l !! i = Some x → sum_of g (<[i := y]> l) = sum_of g l - g x + g y.
Proof.
  revert i. induction l as [|z l IH]; intros [|i]; [done|done| |]; cbn.
  - intros [= ->]. lia.
  - intros Hi. etrans; [exact (f_equal (Z.add (g z)) (IH i Hi))|]. lia.
Qed.
Lemma sum_le {A} (g h : A → Z) (l : list A) : (∀ x, x ∈ l → g x ≤ h x) → sum_of g l ≤ sum_of h l.
Proof.
  induction l as [|x l IH]; intros Hl; cbn; [lia|]. pose proof (Hl x (list_elem_of_here _ _)).
  specialize (IH (λ y Hy, Hl y (list_elem_of_further _ _ _ Hy))). lia.
Qed.
Lemma sum_ext {A} (g h : A → Z) (l : list A) : (∀ x, x ∈ l → g x = h x) → sum_of g l = sum_of h l.
Proof. intros Hl. apply Z.le_antisymm; apply sum_le; intros x Hx; rewrite (Hl x Hx); lia. Qed.

Section proofs.
Context `{!ExecTypes, !ExecEnv, !FuzzSource}.
Variables (f : FuzzedExecutor) (func : Function) (address : Z) (rd : RevertDecoder).
#[local] Abbreviation cfg := (config f).
Hypothesis runs_nonneg : 0 ≤ runs cfg.

(** ** The quotas of the workers *)
Lemma quota_sum k : (k ≤ num_workers f)%nat →
  sum_of (runs_per_worker f) (seq 0 k) =
    Z.of_nat k * (runs cfg / Z.of_nat (num_workers f)) + Z.min (Z.of_nat k) (runs cfg mod Z.of_nat (num_workers f)).
Proof.
  intros Hk. assert (∀ (g : nat → Z) l x, sum_of g (l ++ [x]) = sum_of g l + g x) as Hsnoc.
  { intros g l x. induction l as [|y l IH]; cbn; [lia|]. rewrite IH. lia. }
  induction k as [|k IH].
  - cbn. pose proof (Z.mod_pos_bound (runs cfg) (Z.of_nat (num_workers f))). destruct (num_workers f); cbn; [|lia].
    rewrite Z.mod_0_r. lia.
  - rewrite seq_S, Hsnoc, IH by lia. cbn [Nat.add]. unfold runs_per_worker. case_bool_decide; lia.
Qed.
Lemma quotas : (0 < num_workers f)%nat → sum_of (runs_per_worker f) (seq 0 (num_workers f)) = runs cfg.
Proof.
  intros Hn. rewrite quota_sum by done.
  pose proof (Z.mod_pos_bound (runs cfg) (Z.of_nat (num_workers f)) ltac:(lia)).
  pose proof (Z.div_mod (runs cfg) (Z.of_nat (num_workers f)) ltac:(lia)). lia.
Qed.
Lemma quota_nonneg i : (i < num_workers f)%nat → 0 ≤ runs_per_worker f i.
Proof.
  intros Hi. unfold runs_per_worker. pose proof (Z.div_pos (runs cfg) (Z.of_nat (num_workers f)) runs_nonneg ltac:(lia)).
  case_bool_decide; lia.
Qed.

(** ** The invariant *)
Definition genuine (input : list Z) (call : RawCallResult) : Prop :=
  ∃ e corpus corpus' status b,
    single_fuzz cfg (sender f) e address input corpus = (corpus', Ok (CounterExampleOutcome status input call b)).
(** What a worker has recorded. *)
Record recorded (w : WorkerState) : Prop := mkRecorded {
  rc_runs : 0 ≤ w_runs w ≤ runs_per_worker f (w_id w);
  rc_cases : w_failure w = None → Z.of_nat (length (w_gas_by_case w)) = w_runs w;
  rc_example : ∀ input call, w_counterexample w = Some (input, call) → w_failure w ≠ None ∧ genuine input call;
}.
Definition in_loop (t : Thread) : Prop :=
  match phase t with Starting | Running _ => True | Judging _ _ => w_runs (worker t) < runs_per_worker f (w_id (worker t)) | _ => False end.
Record thread_ok (s : SharedFuzzState) (i : nat) (t : Thread) : Prop := mkThreadOk {
  to_id : w_id (worker t) = i;
  to_recorded : recorded (worker t);
  to_going : match phase t with
             | Starting | Running _ => w_failure (worker t) = None
             | Judging _ _ => w_failure (worker t) = None ∧ w_runs (worker t) < runs_per_worker f i
             | Finished _ =>
                 w_failure (worker t) ≠ None ∨ w_runs (worker t) = runs_per_worker f i ∨
                 should_stop (global_early_exit s) = true ∨ failed_worker_id s ≠ None ∨ is_Some (timeout cfg)
             | Errored _ => w_failure (worker t) = None
             end;
  to_claimed : w_failure (worker t) ≠ None → failed_worker_id s ≠ None;
}.
Record pool_ok (p : Pool) : Prop := mkPoolOk {
  po_length : length (threads p) = num_workers f;
  po_threads : ∀ i t, threads p !! i = Some t → thread_ok (shared p) i t;
  po_total : total_runs (shared p) = sum_of (w_runs ∘ worker) (threads p);
  po_failed : ∀ i, failed_worker_id (shared p) = Some i →
    ∃ t, threads p !! i = Some t ∧ w_failure (worker t) ≠ None;
  po_flag : should_stop (local_early_exit (shared p)) = true ↔ failed_worker_id (shared p) ≠ None;
  po_fast : fail_fast (local_early_exit (shared p)) = true;
}.
(** The shared state moves on: what was claimed or stopped stays so. *)
Definition later (s s' : SharedFuzzState) : Prop :=
  (should_stop (global_early_exit s) = true → should_stop (global_early_exit s') = true) ∧
  (∀ i, failed_worker_id s = Some i → failed_worker_id s' = Some i).
Lemma thread_later s s' i t : later s s' → thread_ok s i t → thread_ok s' i t.
Proof.
  intros [Hg Hf] [Hid Hrec Hgo Hcl]. assert (failed_worker_id s ≠ None → failed_worker_id s' ≠ None) as Hf'.
  { destruct (failed_worker_id s) as [j|] eqn:Hj; [|done]. intros _. by rewrite (Hf j eq_refl). }
  split; [done|done| |by auto]. destruct (phase t); [done|done|done| |done].
  destruct Hgo as [?|[?|[?|[?|?]]]]; auto 10.
Qed.

Lemma pool_new_ok early : pool_ok (pool_new f early).
Proof.
  split.
  - cbn. by rewrite length_fmap, length_seq.
  - intros i t Ht. cbn in Ht. apply list_lookup_fmap_Some in Ht as (j & -> & [-> Hj]%lookup_seq).
    split; cbn; [done| |done|done]. split; cbn; [|done|done]. split; [done|]. by apply quota_nonneg.
  - cbn. induction (seq 0 (num_workers f)) as [|i l IH]; [done|]. cbn in *. lia.
  - done.
  - done.
  - done.
Qed.
(** ** What a turn does to the shared state and to its worker *)
Definition claims (s : SharedFuzzState) (i : nat) (s' : SharedFuzzState) : Prop :=
  should_stop (global_early_exit s') = should_stop (global_early_exit s) ∧
  ((failed_worker_id s' = failed_worker_id s ∧ local_early_exit s' = local_early_exit s) ∨
   (failed_worker_id s = None ∧ failed_worker_id s' = Some i ∧
    local_early_exit s' = record_failure (local_early_exit s))).
Record effect (s : SharedFuzzState) (i : nat) (t : Thread) (s' : SharedFuzzState) (t' : Thread) : Prop := mkEffect {
  ef_claims : claims s i s';
  ef_ok : thread_ok s' i t';
  ef_total : total_runs s' - total_runs s = w_runs (worker t') - w_runs (worker t);
  ef_failed : failed_worker_id s' ≠ failed_worker_id s → w_failure (worker t') ≠ None;
  ef_keeps : w_failure (worker t) ≠ None → w_failure (worker t') ≠ None;
}.
Lemma claims_same s i : claims s i s.
Proof. split; [done|]. by left. Qed.
Lemma claims_later s i s' : claims s i s' → later s s'.
Proof. intros [Hg [[Hf _]|(Hn & _ & _)]]; split; rewrite ?Hg; try done; [by rewrite Hf|by rewrite Hn]. Qed.
Lemma claim_claims s i : claims s i (try_claim_failure s i).
Proof.
  unfold try_claim_failure. destruct (failed_worker_id s) as [j|] eqn:Hj; [apply claims_same|].
  split; [done|]. right. by split_and!.
Qed.
Lemma claim_failed s i : failed_worker_id (try_claim_failure s i) ≠ None.
Proof. unfold try_claim_failure. by destruct (failed_worker_id s) as [j|] eqn:Hj; [rewrite Hj|]. Qed.
Lemma claim_total s i : total_runs (try_claim_failure s i) = total_runs s.
Proof. unfold try_claim_failure. by destruct (failed_worker_id s). Qed.

(** Recording keeps what is recorded. *)
Lemma recorded_last_run w now : recorded w → recorded (with_last_run w now).
Proof. by intros []. Qed.
Lemma recorded_failure w e : recorded w → recorded (with_failure w e).
Proof. intros [? ? He]. split; [done|done|]. intros input call Hc. split; [done|]. by apply (He input call). Qed.
Lemma recorded_case w total c : recorded w → w_failure w = None → w_runs w < runs_per_worker f (w_id w) →
  recorded (record_case f w total c).
Proof.
  intros [Hr Hc He] Hf Hlt. split; cbn; [lia| |].
  - intros _. rewrite length_app. cbn. rewrite Nat2Z.inj_add, (Hc Hf). lia.
  - intros input call Hi. by destruct (He input call Hi).
Qed.
Lemma recorded_example w input call : recorded w → w_runs w < runs_per_worker f (w_id w) →
  genuine input call → ∀ e, recorded (with_failure (record_counterexample w input call) e).
Proof. intros [Hr Hc He] Hlt Hg e. split; cbn; [lia|done|]. by intros ? ? [= <- <-]. Qed.

(** Failing ends a worker and claims the failure. *)
Lemma fail_effect s i t s1 w corpus e : thread_ok s i t → w_id w = i → recorded (with_failure w e) →
  total_runs s1 - total_runs s = w_runs w - w_runs (worker t) →
  failed_worker_id s1 = failed_worker_id s → local_early_exit s1 = local_early_exit s →
  global_early_exit s1 = global_early_exit s →
  effect s i t (fail_worker s1 t w corpus e).1 (fail_worker s1 t w corpus e).2.
Proof.
  intros Hok Hid Hrec Htot Hf Hl Hg. cbn [fst snd fail_worker]. rewrite Hid. split.
  - unfold try_claim_failure, claims. destruct (failed_worker_id s1) as [j|] eqn:Hj; cbn.
    + split; [congruence|left; split; congruence].
    + split; [congruence|right]. rewrite Hl. split_and!; congruence.
  - split; cbn; [done|done|by left|]. intros _. apply claim_failed.
  - rewrite claim_total. cbn. done.
  - done.
  - done.
Qed.

Lemma judge_effect s i t corpus input now : thread_ok s i t → phase t = Judging corpus input →
  effect s i t (judge f address rd s t corpus input now).1 (judge f address rd s t corpus input now).2.
Proof.
  intros Hok Hp. pose proof (to_going _ _ _ Hok) as Hgo. rewrite Hp in Hgo. destruct Hgo as [Hnf Hlt].
  pose proof (to_id _ _ _ Hok) as Hid. pose proof (recorded_last_run _ now (to_recorded _ _ _ Hok)) as Hrec.
  set (w := with_last_run (worker t) now) in *. assert (w_id w = i) as Hw by done.
  unfold judge. fold w. destruct (single_fuzz _ _ _ _ _ _) as [corpus' [[c|status calldata call b]|[why|why]]] eqn:Hs.
  - cbn [fst snd increment_runs]. split; cbn; [split; [done|by left]| |lia|done|done].
    split; cbn; [done| |done|done]. apply recorded_case; [done|done|]. cbn. by rewrite Hid.
  - cbn [increment_runs]. apply fail_effect; [done|done| |cbn; lia|done|done|done].
    apply recorded_example; [done|cbn; by rewrite Hid|].
    assert (calldata = input) as ->.
    { unfold single_fuzz in Hs. destruct (call_raw _ _ _ _ _); [|done].
      destruct (merge_corpus_coverage _ _) as [[? ?] ?]. case_bool_decide; [done|].
      destruct (match res_cheatcodes _ with Some _ => _ | None => _ end) as [? ?].
      destruct (if _ && _ then _ else _) as [? []]; [done|]. by injection Hs. }
    by exists (executor t), corpus, corpus', status, b.
  - apply fail_effect; [done|done|by apply recorded_failure|cbn; lia|done|done|done].
  - cbn [increment_rejects]. destruct (_ && _).
    + apply fail_effect; [done|done|by apply recorded_failure|cbn; lia|done|done|done].
    + split; cbn; [split; [done|by left]| |lia|done|done]. split; cbn; [done|done|done|done].
Qed.

(** Turns that only prepare an input. *)
Lemma quiet_effect s i t t' : thread_ok s i t → worker t' = worker t → thread_ok s i t' → effect s i t s t'.
Proof. intros Hok Hw Hok'. split; [apply claims_same|done|rewrite Hw; lia|done|by rewrite Hw]. Qed.
Lemma take_worker t t' o : take_persisted func t = (t', o) → worker t' = worker t ∧ phase t' = phase t.
Proof. unfold take_persisted. case_bool_decide; by intros [= <- _]. Qed.
Lemma prepare_worker t corpus t' r : prepare_input f t corpus = (t', r) → worker t' = worker t ∧ phase t' = phase t.
Proof. unfold prepare_input. case_bool_decide; by intros [= <- _]. Qed.
Lemma going_on s w b : goes_on f s w b = true →
  w_runs w < runs_per_worker f (w_id w) ∧ should_stop (local_early_exit s) = false.
Proof.
  unfold goes_on, should_continue. rewrite andb_true_iff, bool_decide_eq_true, negb_true_iff, !orb_false_iff. tauto.
Qed.

Lemma turn_effect s i t s' t' :
  (should_stop (local_early_exit s) = true → failed_worker_id s ≠ None) →
  thread_ok s i t → turn f func address rd s t s' t' → effect s i t s' t'.
Proof.
  intros Hflag Hok Ht. pose proof (to_id _ _ _ Hok) as Hid. pose proof (to_recorded _ _ _ Hok) as Hrec.
  pose proof (to_going _ _ _ Hok) as Hgo.
  destruct Ht as [Hp|corpus b Hp Hb Hg|corpus b t1 input Hp Hg Htk|corpus b t1 t2 err Hp Hg Htk Hpr
    |corpus b t1 t2 c1 c2 input Hp Hg Htk Hpr Hgen|corpus b t1 t2 c1 c2 err Hp Hg Htk Hpr Hgen|corpus input now Hp];
    rewrite Hp in Hgo.
  - apply quiet_effect; [done|done|]. split; cbn; [done|done| |apply Hok]. by destruct (corpus_new _).
  - apply quiet_effect; [done|done|]. split; cbn; [done|done| |apply Hok]. right.
    unfold goes_on, should_continue in Hg. rewrite andb_false_iff, bool_decide_eq_false, negb_false_iff, !orb_true_iff, Hid in Hg.
    pose proof (rc_runs _ Hrec) as Hr. rewrite Hid in Hr.
    destruct Hg as [[[?|?]|?]|?]; [by auto|by auto|by auto 10|left; lia].
  - destruct (take_worker _ _ _ Htk) as [Hw Hph]. apply quiet_effect; [done|done|].
    apply going_on in Hg as [Hlt _]. rewrite Hid in Hlt. split; cbn; rewrite ?Hw; [done|done|done|apply Hok].
  - destruct (take_worker _ _ _ Htk) as [Hw Hph]. destruct (prepare_worker _ _ _ _ Hpr) as [Hw2 Hph2].
    apply quiet_effect; [done|cbn; congruence|]. split; cbn; rewrite ?Hw2, ?Hw; [done|done|done|apply Hok].
  - destruct (take_worker _ _ _ Htk) as [Hw Hph]. destruct (prepare_worker _ _ _ _ Hpr) as [Hw2 Hph2].
    apply going_on in Hg as [Hlt _]. rewrite Hid in Hlt.
    apply quiet_effect; [done|cbn; congruence|]. split; cbn; rewrite ?Hw2, ?Hw; [done|done|done|apply Hok].
  - destruct (take_worker _ _ _ Htk) as [Hw Hph]. destruct (prepare_worker _ _ _ _ Hpr) as [Hw2 Hph2].
    assert (worker t2 = worker t) as Hw3 by congruence. set (e := generation_failed _ _).
    assert (effect s i t2 (fail_worker s t2 (worker t2) c2 e).1 (fail_worker s t2 (worker t2) c2 e).2) as He.
    { apply fail_effect; rewrite ?Hw3; [|done|by apply recorded_failure|lia|done|done|done].
      split; rewrite ?Hw3; [done|done| |apply Hok]. rewrite Hph2, Hph, Hp. done. }
    destruct He as [He1 He2 He3 He4 He5]. split; [done|done|by rewrite <- Hw3|done|by rewrite <- Hw3].
  - by apply judge_effect.
Qed.
Lemma step_ok p p' : pool_ok p → step f func address rd p p' → pool_ok p'.
Proof.
  intros [Hlen Hth Htot Hfail Hflag Hfast] [i t s' t' Ht Hturn|].
  - pose proof (Hth i t Ht) as Hok. destruct (turn_effect _ _ _ _ _ (proj1 Hflag) Hok Hturn) as [Hc Hok' Hr Hf Hk].
    pose proof (claims_later _ _ _ Hc) as Hlater. assert (i < length (threads p))%nat as Hi by by apply lookup_lt_Some in Ht.
    split; cbn [shared threads].
    + by rewrite length_insert.
    + intros j u Hj. destruct (decide (i = j)) as [<-|Hne].
      * rewrite list_lookup_insert_eq in Hj by done. by injection Hj as <-.
      * rewrite list_lookup_insert_ne in Hj by done. by eapply thread_later, Hth.
    + rewrite (sum_insert _ _ _ _ _ Ht), <- Htot. cbn. lia.
    + intros j Hj. destruct Hc as [_ [[Hs _]|(_ & Hs & _)]].
      * destruct (Hfail j) as (u & Hu & Hn); [congruence|]. destruct (decide (i = j)) as [<-|Hne].
        -- exists t'. split; [by rewrite list_lookup_insert_eq|]. apply Hk. congruence.
        -- exists u. by rewrite list_lookup_insert_ne.
      * assert (j = i) as -> by congruence. exists t'. split; [by rewrite list_lookup_insert_eq|].
        destruct (decide (failed_worker_id s' = failed_worker_id (shared p))) as [He|He]; [|by apply Hf].
        destruct (Hfail i) as (u & Hu & Hn); [congruence|]. apply Hk. congruence.
    + destruct Hc as [_ [[Hs ->]|(_ & -> & ->)]]; [by rewrite Hs|]. unfold record_failure. by rewrite Hfast.
    + destruct Hc as [_ [[_ ->]|(_ & _ & ->)]]; [done|]. unfold record_failure. by rewrite Hfast.
  - split; cbn; [done| |done|done|done|done]. intros i t Ht. eapply thread_later, Hth, Ht. split; [done|done].
Qed.
Lemma steps_ok early p : steps f func address rd (pool_new f early) p → pool_ok p.
Proof. intros Hs. pose proof (pool_new_ok early) as Hok. induction Hs as [|x y z Hxy _ IH]; [done|]. apply IH. by eapply step_ok. Qed.

Lemma total_bounded p : pool_ok p → (0 < num_workers f)%nat → total_runs (shared p) ≤ runs cfg.
Proof.
  intros Hok Hn. rewrite (po_total _ Hok), <- (quotas Hn), <- (po_length _ Hok).
  assert (∀ l k, (∀ i t, l !! i = Some t → w_runs (worker t) ≤ runs_per_worker f (k + i)%nat) →
            sum_of (w_runs ∘ worker) l ≤ sum_of (runs_per_worker f) (seq k (length l))) as Hsum.
  { induction l as [|t l IH]; intros k Hl; cbn; [done|]. pose proof (Hl 0%nat t eq_refl) as H0t.
    rewrite Nat.add_0_r in H0t. specialize (IH (S k)). assert (sum_of (w_runs ∘ worker) l ≤ sum_of (runs_per_worker f) (seq (S k) (length l))).
    { apply IH. intros i u Hu. replace (S k + i)%nat with (k + S i)%nat by lia. by apply Hl. } lia. }
  apply Hsum. intros i t Ht. pose proof (po_threads _ Hok i t Ht) as Hto.
  pose proof (rc_runs _ (to_recorded _ _ _ Hto)) as Hr. rewrite (to_id _ _ _ Hto) in Hr. cbn. lia.
Qed.

(** ** The result *)
Definition finished (t : Thread) : Prop := ∃ corpus, phase t = Finished corpus.
Lemma collect_finished l : (∀ t, t ∈ l → finished t) →
  ∃ ws, collect_workers l = Some (Ok ws) ∧ Forall2 (λ t w, ∃ corpus, w = finish t corpus) l ws.
Proof.
  induction l as [|t l IH]; intros Hl; [by exists []|].
  destruct (Hl t (list_elem_of_here _ _)) as [corpus Hp].
  destruct IH as (ws & Hc & Hf); [intros u Hu; apply Hl; by right|].
  exists (finish t corpus :: ws). cbn. unfold result_of. rewrite Hp. cbn. rewrite Hc. cbn.
  split; [done|]. constructor; [by exists corpus|done].
Qed.
Lemma finish_keeps t corpus :
  w_id (finish t corpus) = w_id (worker t) ∧ w_failure (finish t corpus) = w_failure (worker t) ∧
  w_gas_by_case (finish t corpus) = w_gas_by_case (worker t) ∧ w_counterexample (finish t corpus) = w_counterexample (worker t).
Proof. unfold finish. by case_bool_decide. Qed.
Lemma last_step_some ws acc : (ws ≠ [] ∨ acc ≠ None) → foldl last_step acc ws ≠ None.
Proof.
  revert acc. induction ws as [|w ws IH]; intros acc [Hw|Ha]; cbn; try done.
  - apply IH. right. destruct acc as [[? ?]|]; cbn; [by case_bool_decide|done].
  - apply IH. right. destruct acc as [[? ?]|]; cbn; [by case_bool_decide|done].
Qed.

Lemma length_cases l ws : Forall2 (λ t w, ∃ corpus, w = finish t corpus) l ws →
  Z.of_nat (length (mjoin (w_gas_by_case <$> ws))) = sum_of (λ t, Z.of_nat (length (w_gas_by_case (worker t)))) l.
Proof.
  induction 1 as [|t w l ws [corpus ->] _ IH]; [done|]. cbn [fmap list_fmap mjoin list_join sum_of].
  destruct (finish_keeps t corpus) as (_ & _ & -> & _). by rewrite length_app, Nat2Z.inj_add, <- IH.
Qed.

(** Without a failure, a timeout or an interruption all runs were made. *)
Lemma all_runs_made p : pool_ok p → (0 < num_workers f)%nat → (∀ t, t ∈ threads p → finished t) →
  failed_worker_id (shared p) = None → timeout cfg = None → should_stop (global_early_exit (shared p)) = false →
  sum_of (λ t, Z.of_nat (length (w_gas_by_case (worker t)))) (threads p) = runs cfg.
Proof.
  intros Hok Hn Hfin Hnf Hto Hg. rewrite <- (quotas Hn), <- (po_length _ Hok).
  assert (∀ l k, (∀ i t, l !! i = Some t → Z.of_nat (length (w_gas_by_case (worker t))) = runs_per_worker f (k + i)%nat) →
            sum_of (λ t, Z.of_nat (length (w_gas_by_case (worker t)))) l = sum_of (runs_per_worker f) (seq k (length l))) as Hsum.
  { induction l as [|t l IH]; intros k Hl; cbn; [done|]. pose proof (Hl 0%nat t eq_refl) as H0t.
    rewrite Nat.add_0_r in H0t. rewrite H0t, (IH (S k)); [done|].
    intros i u Hu. replace (S k + i)%nat with (k + S i)%nat by lia. by apply Hl. }
  apply Hsum. intros i t Ht. pose proof (po_threads _ Hok i t Ht) as Hthr.
  assert (w_failure (worker t) = None) as Hf.
  { destruct (w_failure (worker t)) eqn:He; [|done]. exfalso. apply (to_claimed _ _ _ Hthr); congruence. }
  rewrite (rc_cases _ (to_recorded _ _ _ Hthr) Hf). pose proof (to_going _ _ _ Hthr) as Hgo.
  destruct (Hfin t) as [corpus Hp]; [by eapply list_elem_of_lookup_2|]. rewrite Hp in Hgo.
  destruct Hgo as [?|[?|[?|[?|[x Hx]]]]]; [done|done|congruence|done|congruence].
Qed.

End proofs.
