(* ===== verification/FuzzSample.v ===== *)
(** * Fuzz tests of the small contract: schedules that run, the claim at
    work, and where the code departs from what it means to do *)
From stdpp Require Import base list gmap strings.
From Stdlib Require Import ZArith Lia.
From S2P Require Import Prelude TestExec FuzzRun InvariantRun TestSample.
#[local] Open Scope list_scope.

(** ** Schedules

    With a function that generates inputs, the list of the workers that take
    turns is a run. *)
Section schedule.
Context `{!ExecTypes, !ExecEnv, !FuzzSource}.
Variables (f : FuzzedExecutor) (func : Function) (address : Z) (rd : RevertDecoder).
Variable gen : Corpus → Corpus * result string (list Z).
Hypothesis gen_generates : ∀ c, generates c (gen c).1 (gen c).2.

Definition auto_turn (s : SharedFuzzState) (t : Thread) : option (SharedFuzzState * Thread) :=
  match phase t with
  | Starting =>
      Some (s, with_phase t (match corpus_new (w_id (worker t)) with Ok c => Running c | Err e => Errored e end))
  | Running corpus =>
      if goes_on f s (worker t) false then
        match take_persisted func t with
        | (t', Some input) => Some (s, with_phase t' (Judging corpus input))
        | (t', None) =>
            match prepare_input f t' corpus with
            | (t'', Err err) => Some (s, with_phase t'' (Errored err))
            | (t'', Ok corpus) =>
                match gen corpus with
                | (corpus, Ok input) => Some (s, with_phase t'' (Judging corpus input))
                | (corpus, Err err) => Some (fail_worker s t'' (worker t'') corpus (generation_failed (worker t'') err))
                end
            end
        end
      else Some (s, with_phase t (Finished corpus))
  | Judging corpus input => Some (judge f address rd s t corpus input 0)
  | _ => None
  end.
Lemma auto_turn_sound s t s' t' : auto_turn s t = Some (s', t') → turn f func address rd s t s' t'.
Proof.
  unfold auto_turn. destruct (phase t) as [|corpus|corpus input|corpus|err] eqn:Hp; [| | |done|done].
  - intros [= <- <-]. by apply turn_start.
  - destruct (goes_on _ _ _ _) eqn:Hg.
    + destruct (take_persisted func t) as [t1 [input|]] eqn:Htk.
      * intros [= <- <-]. by eapply turn_replay.
      * destruct (prepare_input f t1 corpus) as [t2 [c1|err]] eqn:Hpr.
        -- pose proof (gen_generates c1) as Hgen. destruct (gen c1) as [c2 [input|err]].
           ++ intros [= <- <-]. by eapply turn_generate.
           ++ intros Heq. pose proof (turn_generation_failed f func address rd s t corpus false t1 t2 c1 c2 err Hp Hg Htk Hpr Hgen) as Ht.
              injection Heq as <- <-. exact Ht.
        -- intros [= <- <-]. by eapply turn_sync_failed.
    + intros [= <- <-]. by apply (turn_leave f func address rd s t corpus false).
  - intros Heq. assert (judge f address rd s t corpus input 0 = (s', t')) as Hj by congruence.
    pose proof (turn_judge f func address rd s t corpus input 0 Hp) as Ht. by rewrite Hj in Ht.
Qed.

Fixpoint run_schedule (turns : list nat) (p : Pool) : option Pool :=
  match turns with
  | [] => Some p
  | i :: turns =>
      t ← threads p !! i;
      '(s', t') ← auto_turn (shared p) t;
      run_schedule turns (mkPool s' (<[i := t']> (threads p)))
  end.
Lemma run_schedule_sound turns : ∀ p p', run_schedule turns p = Some p' → steps f func address rd p p'.
Proof.
  induction turns as [|i turns IH]; intros p p'; cbn; [by intros [= ->]|].
  destruct (threads p !! i) as [t|] eqn:Ht; [|done]. cbn.
  destruct (auto_turn (shared p) t) as [[s' t']|] eqn:Ha; [|done]. cbn. intros Hr.
  eapply rtc_l; [|by apply IH]. eapply step_turn; [done|by apply auto_turn_sound].
Qed.
End schedule.

(** ** The sample: inputs from a list, one list per worker *)
Definition scripts (worker_id : nat) : list (list Z) :=
  match worker_id with 0%nat => [[0; 1]; [10; 3]; [0; 2]] | _ => [[0; 5]; [2]; [8; 115; 107; 105; 112; 112; 101; 100; 33]] end.
#[export] Instance sample_fuzz : FuzzSource := {|
  Corpus := list (list Z);
  corpus_new i := Ok (scripts i);
  sync c := Ok c;
  generates c c' r := c' = tail c ∧ r = Ok (default [9] (head c));
  merge_corpus_coverage c r := (c, r, false);
  process_input c _ _ := c;
  failed_replays _ := 0;
  abi_decode_input _ l := Ok l;
  format_tokens _ := "";
  format_tokens_raw _ := "";
  worker_seed s i := s + Z.of_nat i;
|}.
Definition small_gen (c : list (list Z)) : list (list Z) * result string (list Z) := (tail c, Ok (default [9] (head c))).
Definition small_func : Function := mkFunction "testFuzz_small" [] [0; 1; 2; 3] "testFuzz_small(uint256)".
Definition fuzz_config (runs : Z) (logs : bool) : FuzzConfig := mkFuzzConfig runs 10 None true 0 logs None.
Definition fuzzed (runs : Z) (persisted : option (list Z)) : FuzzedExecutor :=
  mkFuzzed (small_executor 0) 5 (fuzz_config runs false) persisted 2.
Definition schedule (f : FuzzedExecutor) (turns : list nat) : option Pool :=
  run_schedule f small_func 1 tt small_gen turns (pool_new f (early_exit_new false)).
Lemma schedule_sound f turns p : schedule f turns = Some p → steps f small_func 1 tt (pool_new f (early_exit_new false)) p.
Proof. apply run_schedule_sound. by split. Qed.

Definition finishedb (p : Pool) : bool :=
  forallb (λ t, match phase t with Finished _ => true | _ => false end) (threads p).
Lemma finishedb_sound p : finishedb p = true → ∀ t, t ∈ threads p → finished t.
Proof.
  unfold finishedb. rewrite forallb_forall. intros Hall t Ht. apply list_elem_of_In in Ht. specialize (Hall t Ht).
  unfold finished. destruct (phase t) as [| | |corpus|]; try done. by exists corpus.
Qed.

(** Three runs, in two workers that take turns: two and one. *)
Definition passing_turns : list nat := [0; 1; 0; 1; 0; 1; 0; 1; 0; 0]%nat.

(** ** Departures *)
Definition outcome_of (f : FuzzedExecutor) (turns : list nat) : option FuzzTestResult :=
  match schedule f turns with
  | Some p => if finishedb p then match fuzz f small_func p with Some (Ok r) => Some r | _ => None end else None
  | None => None
  end.
(** A test that fails with a revert reason that begins with [skipped] is
    reported as skipped. *)
Definition failing_turns : list nat := [1; 0; 1; 1; 1; 1; 1; 1; 0]%nat.
Lemma failure_reported_as_skipped :
  match schedule (fuzzed 4 None) failing_turns with
  | Some p => (w_failure ∘ worker) <$> threads p !! 1%nat = Some (Some (Fail_ "skipped!"))
  | None => False
  end ∧
  match outcome_of (fuzzed 4 None) failing_turns with
  | Some r => success r = false ∧ skipped r = true ∧ reason r = None
  | None => False
  end.
Proof. split; vm_compute; done. Qed.

(** The logs of a failed test are those of the worker that ran last, to the
    millisecond, which need not be the one that failed. *)
Definition mixed_turns : list nat := [1; 0; 0; 0; 0; 0; 0; 1; 1; 1; 1; 1; 1]%nat.
Lemma logs_of_another_worker :
  match outcome_of (fuzzed 4 None) mixed_turns with
  | Some r => success r = false ∧ fr_logs r = [3]
  | None => False
  end.
Proof. vm_compute. done. Qed.

(** A recorded counterexample that is replayed counts as a run. *)
Lemma replay_counts_as_run :
  match schedule (fuzzed 3 (Some [0; 1; 2; 3])) [0; 0; 0]%nat with
  | Some p => total_runs (shared p) = 1
  | None => False
  end.
Proof. vm_compute. done. Qed.
