(* ===== verification/TestResults.v ===== *)
(** * Results of tests: forge/src/result.rs

    The result of a test, of a suite (a contract) and of a whole run, what a
    run's verdict is, and the filter that reruns its failures
    (forge/src/cmd/test/mod.rs).  A [BTreeMap] is the list of its entries in
    the order of their keys.  Last, the replay of the calls that made a
    campaign fail (evm/evm/src/executors/invariant/replay.rs). *)
From stdpp Require Import base list gmap strings sorting.
From Stdlib Require Import ZArith Lia.
From S2P Require Import Prelude TestExec.
From S2P Require Shrink FuzzRun InvariantRun.
#[local] Open Scope list_scope.

#[local] Abbreviation Address := Z (only parsing).

(** ** Calculations (common/src/calc.rs) *)
Definition mean (values : list Z) : Z :=
  match values with [] => 0 | _ => wrap_u64 (foldr Z.add 0 values / Z.of_nat (length values)) end.
(** The sum of the two middle values may overflow. *)
Definition median_sorted (values : list Z) : option Z :=
  let mid := (length values / 2)%nat in
  match values with
  | [] => Some 0
  | _ =>
      if Nat.even (length values) then
        a ← values !! (mid - 1)%nat; b ← values !! mid; s ← checked u64_max (a + b); Some (s / 2)
      else values !! mid
  end.

Inductive TraceKind := Deployment | Setup | Execution_.
Inductive TestStatus := Success | Failure | Skipped.
#[export] Instance TestStatus_eq_dec : EqDecision TestStatus.
Proof. solve_decision. Defined.
Definition is_success (s : TestStatus) : bool := bool_decide (s = Success).
Definition is_failure (s : TestStatus) : bool := bool_decide (s = Failure).
Definition is_skipped (s : TestStatus) : bool := bool_decide (s = Skipped).

Inductive TestKind :=
| Unit (gas : Z)
| Fuzz (first_case : FuzzRun.FuzzCase) (runs mean_gas median_gas failed_corpus_replays : Z)
| Invariant (runs calls reverts : Z) (metrics : gmap string InvariantRun.InvariantMetrics)
    (failed_corpus_replays : Z)
| Table (runs mean_gas median_gas : Z).
Inductive TestKindReport :=
| UnitReport (gas : Z)
| FuzzReport (runs mean_gas median_gas failed_corpus_replays : Z)
| InvariantReport (runs calls reverts failed_corpus_replays : Z)
| TableReport (runs mean_gas median_gas : Z).
Definition report (k : TestKind) : TestKindReport :=
  match k with
  | Unit gas => UnitReport gas
  | Fuzz _ runs mean median failed => FuzzReport runs mean median failed
  | Invariant runs calls reverts _ failed => InvariantReport runs calls reverts failed
  | Table runs mean median => TableReport runs mean median
  end.
Definition report_gas (r : TestKindReport) : Z :=
  match r with
  | UnitReport gas => gas
  | FuzzReport _ _ median _ | TableReport _ _ median => median
  | InvariantReport _ _ _ _ => 0
  end.

Section results.
Context `{!ExecTypes, !ExecEnv, !FuzzRun.FuzzSource}.
#[local] Abbreviation Traces := (list (TraceKind * Arena)) (only parsing).

Definition gas_values (gas_by_case : list (Z * Z)) (with_stipend : bool) : list Z :=
  (λ g, if with_stipend then g.1 else saturating_sub g.1 g.2) <$> gas_by_case.
Definition median_gas (gas_by_case : list (Z * Z)) (with_stipend : bool) : option Z :=
  median_sorted (merge_sort Z.le (gas_values gas_by_case with_stipend)).
Definition mean_gas_of (gas_by_case : list (Z * Z)) (with_stipend : bool) : Z :=
  mean (merge_sort Z.le (gas_values gas_by_case with_stipend)).

Record TestResult := mkResult
  { status : TestStatus; reason : option string; counterexample : option FuzzRun.CounterExample;
    tr_logs : list Log; decoded_logs : list string; kind : TestKind; tr_traces : Traces;
    gas_report_traces : list (list Arena); tr_line_coverage : option HitMaps;
    tr_labels : gmap Address string; tr_breakpoints : Breakpoints;
    tr_gas_snapshots : gmap string (gmap string string);
    deprecated_cheatcodes : gmap string (option string) }.
Definition result_default : TestResult :=
  mkResult Failure None None [] [] (Unit 0) [] [] None ∅ no_breakpoints ∅ ∅.

Record TestSetup := mkSetup
  { setup_address : Address; fuzz_fixtures : gmap string DynSolValue; setup_logs : list Log;
    setup_labels : gmap Address string; setup_traces : Traces; setup_coverage : option HitMaps;
    deployed_libs : list Address; setup_reason : option string; setup_skipped : bool;
    deployment_failure : bool }.
Definition setup_default : TestSetup := mkSetup 0 ∅ [] ∅ [] None [] None false false.
Definition setup_failed (reason : string) : TestSetup :=
  mkSetup 0 ∅ [] ∅ [] None [] (Some reason) false false.
Definition setup_skip (reason : string) : TestSetup :=
  mkSetup 0 ∅ [] ∅ [] None [] (Some reason) true false.
Definition setup_extend (s : TestSetup) (raw : RawCallResult) (k : TraceKind) : TestSetup :=
  mkSetup (setup_address s) (fuzz_fixtures s) (setup_logs s ++ logs raw) (labels raw ∪ setup_labels s)
    (setup_traces s ++ match traces raw with Some t => [(k, t)] | None => [] end)
    (merge_opt (setup_coverage s) (line_coverage raw)) (deployed_libs s) (setup_reason s)
    (setup_skipped s) (deployment_failure s).

(** ** Making a result *)
Definition result_new (s : TestSetup) : TestResult :=
  mkResult Failure None None (setup_logs s) [] (Unit 0) (setup_traces s) [] (setup_coverage s)
    (setup_labels s) no_breakpoints ∅ ∅.
Definition result_fail (reason : string) : TestResult :=
  mkResult Failure (Some reason) None [] [] (Unit 0) [] [] None ∅ no_breakpoints ∅ ∅.
Definition setup_result (s : TestSetup) : TestResult :=
  mkResult (if setup_skipped s then Skipped else Failure) (setup_reason s) None (setup_logs s) [] (Unit 0)
    (setup_traces s) [] (setup_coverage s) (setup_labels s) no_breakpoints ∅ ∅.
Definition with_status (r : TestResult) (st : TestStatus) (reason : option string) : TestResult :=
  mkResult st reason (counterexample r) (tr_logs r) (decoded_logs r) (kind r) (tr_traces r)
    (gas_report_traces r) (tr_line_coverage r) (tr_labels r) (tr_breakpoints r) (tr_gas_snapshots r)
    (deprecated_cheatcodes r).
Definition with_kind (r : TestResult) (k : TestKind) : TestResult :=
  mkResult (status r) (reason r) (counterexample r) (tr_logs r) (decoded_logs r) k (tr_traces r)
    (gas_report_traces r) (tr_line_coverage r) (tr_labels r) (tr_breakpoints r) (tr_gas_snapshots r)
    (deprecated_cheatcodes r).
Definition single_skip (r : TestResult) (why : SkipReason) : TestResult := with_status r Skipped why.
Definition single_fail (r : TestResult) (why : option string) : TestResult := with_status r Failure why.

(** [extend!]. *)
Definition extend_with (r : TestResult) (lg : list Log) (lb : gmap Address string) (t : option Arena)
    (c : option HitMaps) (k : TraceKind) : TestResult :=
  mkResult (status r) (reason r) (counterexample r) (tr_logs r ++ lg) (decoded_logs r) (kind r)
    (tr_traces r ++ match t with Some t => [(k, t)] | None => [] end) (gas_report_traces r)
    (merge_opt (tr_line_coverage r) c) (lb ∪ tr_labels r) (tr_breakpoints r) (tr_gas_snapshots r)
    (deprecated_cheatcodes r).
Definition extend (r : TestResult) (raw : RawCallResult) : TestResult :=
  extend_with r (logs raw) (labels raw) (traces raw) (line_coverage raw) Execution_.
Definition merge_coverages (r : TestResult) (c : option HitMaps) : TestResult :=
  mkResult (status r) (reason r) (counterexample r) (tr_logs r) (decoded_logs r) (kind r) (tr_traces r)
    (gas_report_traces r) (merge_opt (tr_line_coverage r) c) (tr_labels r) (tr_breakpoints r)
    (tr_gas_snapshots r) (deprecated_cheatcodes r).

Definition single_result (r : TestResult) (success : bool) (why : option string) (raw : RawCallResult) : TestResult :=
  let r := extend (with_kind r (Unit (saturating_sub (gas_used raw) (stipend raw)))) raw in
  let '(b, g, d) := match res_cheatcodes raw with
                    | Some c => (breakpoints c, gas_snapshots c, deprecated c)
                    | None => (tr_breakpoints r, tr_gas_snapshots r, deprecated_cheatcodes r) end in
  mkResult (if success then Success else Failure) why (counterexample r) (tr_logs r) (decoded_logs r)
    (kind r) (tr_traces r) [] (tr_line_coverage r) (tr_labels r) b g d.

(** Fuzz and table tests; the median may overflow. *)
Definition fuzzed_status (res : FuzzRun.FuzzTestResult) : TestStatus :=
  if FuzzRun.skipped res then Skipped else if FuzzRun.success res then Success else Failure.
Definition of_fuzz (r : TestResult) (k : TestKind) (res : FuzzRun.FuzzTestResult) : TestResult :=
  let r := extend_with (with_kind r k) (FuzzRun.fr_logs res) (FuzzRun.fr_labels res) (FuzzRun.fr_traces res)
             (FuzzRun.fr_line_coverage res) Execution_ in
  mkResult (fuzzed_status res) (FuzzRun.reason res) (FuzzRun.counterexample res) (tr_logs r) (decoded_logs r)
    (kind r) (tr_traces r) ((λ t, [t]) <$> FuzzRun.fr_gas_report_traces res) (tr_line_coverage r) (tr_labels r)
    (default no_breakpoints (FuzzRun.fr_breakpoints res)) (tr_gas_snapshots r) (FuzzRun.fr_deprecated res).
Definition fuzz_result (r : TestResult) (res : FuzzRun.FuzzTestResult) : option TestResult :=
  median ← median_gas (FuzzRun.gas_by_case res) false;
  Some (of_fuzz r (Fuzz (FuzzRun.first_case res) (Z.of_nat (length (FuzzRun.gas_by_case res)))
                     (mean_gas_of (FuzzRun.gas_by_case res) false) median (FuzzRun.fr_failed_corpus_replays res)) res).
Definition table_result (r : TestResult) (res : FuzzRun.FuzzTestResult) : option TestResult :=
  median ← median_gas (FuzzRun.gas_by_case res) false;
  Some (of_fuzz r (Table (Z.of_nat (length (FuzzRun.gas_by_case res)))
                     (mean_gas_of (FuzzRun.gas_by_case res) false) median) res).
Definition fuzz_setup_fail (r : TestResult) (e : Report) : TestResult :=
  with_status (with_kind r (Fuzz FuzzRun.default_case 0 0 0 0)) Failure
    (Some ("failed to set up fuzz testing environment: " +:+ e)).

Definition invariant_skip (r : TestResult) (why : SkipReason) : TestResult :=
  with_status (with_kind r (Invariant 1 1 1 ∅ 0)) Skipped why.
Definition with_counterexample (r : TestResult) (c : option FuzzRun.CounterExample) : TestResult :=
  mkResult (status r) (reason r) c (tr_logs r) (decoded_logs r) (kind r) (tr_traces r)
    (gas_report_traces r) (tr_line_coverage r) (tr_labels r) (tr_breakpoints r) (tr_gas_snapshots r)
    (deprecated_cheatcodes r).
Definition invariant_replay_fail (r : TestResult) (replayed_entirely : bool) (invariant_name : string)
    (calls : list FuzzRun.BaseCounterExample) : TestResult :=
  with_counterexample
    (with_status (with_kind r (Invariant 1 1 1 ∅ 0)) Failure
       (Some (invariant_name +:+ if replayed_entirely then " replay failure" else " persisted failure revert")))
    (Some (FuzzRun.Sequence (length calls) calls)).
Definition invariant_setup_fail (r : TestResult) (e : Report) : TestResult :=
  with_status (with_kind r (Invariant 0 0 0 ∅ 0)) Failure
    (Some ("failed to set up invariant testing environment: " +:+ e)).
Definition invariant_result (r : TestResult) (gas_traces : list (list Arena)) (success : bool)
    (why : option string) (c : option FuzzRun.CounterExample) (cases : list (list InvariantRun.FuzzCase))
    (reverts : Z) (m : gmap string InvariantRun.InvariantMetrics) (failed_corpus_replays : Z) : TestResult :=
  let calls := foldr Z.add 0 ((λ l, Z.of_nat (length l)) <$> cases) in
  let r := with_counterexample
             (with_status (with_kind r (Invariant (Z.of_nat (length cases)) calls reverts m failed_corpus_replays))
                (if success then Success else Failure) why) c in
  mkResult (status r) (reason r) (counterexample r) (tr_logs r) (decoded_logs r) (kind r) (tr_traces r)
    gas_traces (tr_line_coverage r) (tr_labels r) (tr_breakpoints r) (tr_gas_snapshots r)
    (deprecated_cheatcodes r).

(** ** Suites and runs *)
Record SuiteResult := mkSuite { test_results : list (string * TestResult); warnings : list string }.
Definition deprecation_line (d : string * option string) : string :=
  String (Ascii.ascii_of_nat 10) ("  " +:+ d.1 +:+ match d.2 with Some why => ": " +:+ why | None => "" end).
Definition suite_new (tests : list (string * TestResult)) (warnings : list string) : SuiteResult :=
  let deprecated := foldl (λ d t, deprecated_cheatcodes t.2 ∪ d) ∅ tests in
  mkSuite tests
    (if bool_decide (deprecated = ∅) then warnings
     else warnings ++ ["the following cheatcode(s) are deprecated and will be removed in future versions:" +:+
                       foldr (λ d s, deprecation_line d +:+ s) "" (map_to_list deprecated)]).
Definition suite_successes (s : SuiteResult) : list (string * TestResult) :=
  filter (λ t, is_success (status t.2) = true) (test_results s).
Definition suite_skips (s : SuiteResult) : list (string * TestResult) :=
  filter (λ t, is_skipped (status t.2) = true) (test_results s).
Definition suite_failures (s : SuiteResult) : list (string * TestResult) :=
  filter (λ t, is_failure (status t.2) = true) (test_results s).
Definition suite_failed (s : SuiteResult) : nat := length (suite_failures s).

Record TestOutcome := mkOutcome { results : list (string * SuiteResult); allow_failure : bool }.
Definition tests (o : TestOutcome) : list (string * TestResult) := mjoin ((test_results ∘ snd) <$> results o).
Definition successes (o : TestOutcome) : list (string * TestResult) :=
  filter (λ t, is_success (status t.2) = true) (tests o).
Definition skips (o : TestOutcome) : list (string * TestResult) :=
  filter (λ t, is_skipped (status t.2) = true) (tests o).
Definition failures (o : TestOutcome) : list (string * TestResult) :=
  filter (λ t, is_failure (status t.2) = true) (tests o).
Definition passed (o : TestOutcome) : nat := length (successes o).
Definition skipped (o : TestOutcome) : nat := length (skips o).
Definition failed (o : TestOutcome) : nat := length (failures o).
(** Flattened, with the suite. *)
Definition into_tests (o : TestOutcome) : list (string * string * TestResult) :=
  mjoin ((λ s, (λ t, (s.1, t.1, t.2)) <$> test_results s.2) <$> results o).
(** [ensure_ok]: whether the process goes on, or exits with code 1. *)
Definition ensure_ok (o : TestOutcome) : bool := allow_failure o || bool_decide (failed o = 0%nat).
(** [remove_first]. *)
Fixpoint remove_first_of (l : list (string * SuiteResult))
    : list (string * SuiteResult) * option (string * string * TestResult) :=
  match l with
  | [] => ([], None)
  | (name, s) :: l =>
      match test_results s with
      | t :: rest => ((name, mkSuite rest (warnings s)) :: l, Some (name, t.1, t.2))
      | [] => let '(l, r) := remove_first_of l in ((name, s) :: l, r)
      end
  end.
Definition remove_first (o : TestOutcome) : TestOutcome * option (string * string * TestResult) :=
  let '(l, r) := remove_first_of (results o) in (mkOutcome l (allow_failure o), r).
End results.

(** ** Names of tests (common/src/traits.rs) *)
Definition lower (a : Ascii.ascii) : Ascii.ascii :=
  let n := Ascii.nat_of_ascii a in
  if (65 <=? n)%nat && (n <=? 90)%nat then Ascii.ascii_of_nat (n + 32) else a.
Fixpoint to_lower (s : string) : string :=
  match s with EmptyString => EmptyString | String a s => String (lower a) (to_lower s) end.
Definition eq_ignore_ascii_case (a b : string) : bool := bool_decide (to_lower a = to_lower b).
Definition starts_with (s p : string) : bool := String.prefix p s.

Inductive TestFunctionKind :=
| KSetup | KUnitTest (should_fail : bool) | KFuzzTest (should_fail : bool) | KInvariantTest | KTableTest
| KAfterInvariant | KFixture | KUnknown.
Definition classify (name : string) (has_inputs : bool) : TestFunctionKind :=
  if starts_with name "test" then
    let should_fail := starts_with name "testFail" in
    if has_inputs then KFuzzTest should_fail else KUnitTest should_fail
  else if starts_with name "invariant" || starts_with name "statefulFuzz" then KInvariantTest
  else if starts_with name "table" then KTableTest
  else if eq_ignore_ascii_case name "setup" then KSetup
  else if eq_ignore_ascii_case name "afterinvariant" then KAfterInvariant
  else if starts_with name "fixture" then KFixture
  else KUnknown.
Definition kind_is_any_test (k : TestFunctionKind) : bool :=
  match k with KUnitTest _ | KFuzzTest _ | KTableTest | KInvariantTest => true | _ => false end.
Definition kind_is_any_test_fail (k : TestFunctionKind) : bool :=
  match k with KUnitTest true | KFuzzTest true => true | _ => false end.
Definition kind_is_setup (k : TestFunctionKind) : bool := match k with KSetup => true | _ => false end.
Definition kind_is_after_invariant (k : TestFunctionKind) : bool :=
  match k with KAfterInvariant => true | _ => false end.
Definition kind_is_invariant_test (k : TestFunctionKind) : bool :=
  match k with KInvariantTest => true | _ => false end.
Definition kind_is_fixture (k : TestFunctionKind) : bool := match k with KFixture => true | _ => false end.
Definition test_function_kind (f : Function) : TestFunctionKind :=
  classify (fn_name f) (negb (bool_decide (inputs f = []))).
Definition is_before_test_setup (name : string) : bool := eq_ignore_ascii_case name "beforetestsetup".
Definition is_any_test (name : string) : bool := kind_is_any_test (classify name false).

(** ** Rerunning failures: [persist_run_failures]

    The text that is written as the filter of the next run, if any test
    failed. *)
Fixpoint until_paren (s : string) : string :=
  match s with
  | EmptyString => EmptyString
  | String a s => if bool_decide (a = Ascii.ascii_of_nat 40) then EmptyString else String a (until_paren s)
  end.
Fixpoint rerun_filter (names : list string) : string :=
  match names with
  | [] => ""
  | name :: names =>
      (if is_any_test name
       then until_paren name +:+ match names with [] => "" | _ => "|" end
       else "") +:+ rerun_filter names
  end.
Definition persist_run_failures `{!ExecTypes} (o : TestOutcome) : option string :=
  if bool_decide (0 < failed o)%nat then Some (rerun_filter (fst <$> failures o)) else None.

(** ** Replaying a call sequence: evm/evm/src/executors/invariant/replay.rs

    A failing sequence is shrunk and made again to collect its logs, traces
    and the counterexample that is shown.  Contracts are identified by their
    traces, the interface [Identify]; [None] is a panic. *)
Class Identify `{!ExecTypes} := {
  Contracts : Type;
  load_contracts : option Arena → Contracts → Contracts;
  (** The name and the functions of a contract. *)
  identified : Contracts → Address → option (string * list Function);
  set_up_inner_replay : Executor → list (option BasicTxDetails) → Executor;
}.

Section replay.
Context `{!ExecTypes, !ExecEnv, !FuzzRun.FuzzSource, !Identify}.
Variables (config : InvariantRun.InvariantConfig) (contract : InvariantRun.InvariantContract) (show_solidity : bool).
#[local] Instance replay_exec : Shrink.InvariantExecutor Executor BasicTxDetails (list Z) Report :=
  InvariantRun.campaign_executor contract.

(** [from_invariant_call]; a calldata shorter than a selector panics where it
    is compared with one. *)
Definition from_invariant_call (t : BasicTxDetails) (contracts : Contracts) (tr : option Arena)
    : option FuzzRun.BaseCounterExample :=
  let bytes := calldata (call_details t) in
  let target := target (call_details t) in
  let plain := FuzzRun.mkExample (warp t) (roll t) (Some (tx_sender t)) (Some target) bytes None None None None None tr false in
  match identified contracts target with
  | Some (name, functions) =>
      if bool_decide (functions ≠ [] ∧ (length bytes < 4)%nat) then None
      else match list_find (λ f, selector f = take 4 bytes) functions with
           | Some (_, func) =>
               match FuzzRun.abi_decode_input func (drop 4 bytes) with
               | Ok args => Some (FuzzRun.mkExample (warp t) (roll t) (Some (tx_sender t)) (Some target) bytes
                   (Some name) (Some (fn_name func)) (Some (signature func))
                   (Some (FuzzRun.format_tokens args)) (Some (FuzzRun.format_tokens_raw args)) tr show_solidity)
               | Err _ => Some plain
               end
           | None => Some plain
           end
  | None => Some plain
  end.

(** What a replay adds to a test's result: [logs], [traces], [line_coverage]
    and [deprecated_cheatcodes]. *)
Definition collect_call (r : TestResult) (raw : RawCallResult) : option TestResult :=
  t ← traces raw;
  Some (mkResult (status r) (reason r) (counterexample r) (tr_logs r ++ logs raw) (decoded_logs r) (kind r)
    (tr_traces r ++ [(Execution_, t)]) (gas_report_traces r) (tr_line_coverage r) (tr_labels r)
    (tr_breakpoints r) (tr_gas_snapshots r) (deprecated_cheatcodes r)).
Definition collect_deprecated (r : TestResult) (raw : RawCallResult) : TestResult :=
  mkResult (status r) (reason r) (counterexample r) (tr_logs r) (decoded_logs r) (kind r) (tr_traces r)
    (gas_report_traces r) (tr_line_coverage r) (tr_labels r) (tr_breakpoints r) (tr_gas_snapshots r)
    (match res_cheatcodes raw with Some c => deprecated c ∪ deprecated_cheatcodes r | None => deprecated_cheatcodes r end).

Fixpoint replay_calls (e : Executor) (contracts : Contracts) (r : TestResult) (calls : list BasicTxDetails)
    : option (TestResult * result Report (Executor * list FuzzRun.BaseCounterExample)) :=
  match calls with
  | [] => Some (r, Ok (e, []))
  | t :: calls =>
      match execute_tx e t with
      | (_, Err err) => Some (r, Err err)
      | (e, Ok raw) =>
          r ← collect_call r raw;
          let r := merge_coverages r (line_coverage raw) in
          let '(e, raw) := commit e raw in
          let contracts := load_contracts (traces raw) contracts in
          ex ← from_invariant_call t contracts (traces raw);
          '(r, rest) ← replay_calls e contracts r calls;
          Some (r, '(e, exs) ← rest; Ok (e, ex :: exs))
      end
  end.
Definition replay_run (e : Executor) (contracts : Contracts) (r : TestResult) (calls : list BasicTxDetails)
    : option (TestResult * result Report (list FuzzRun.BaseCounterExample)) :=
  let e := match tracer (inspector e) with None => set_tracing e | Some _ => e end in
  '(r, out) ← replay_calls e contracts r calls;
  match out with
  | Err err => Some (r, Err err)
  | Ok (e, exs) =>
      match call_invariant_function e (InvariantRun.address contract) (InvariantRun.invariant_calldata contract) with
      | Err err => Some (r, Err err)
      | Ok (raw, success) =>
          r ← collect_call r raw;
          let r := collect_deprecated r raw in
          if InvariantRun.call_after_invariant contract && success then
            match call_after_invariant_function e (InvariantRun.address contract) (InvariantRun.after_calldata contract) with
            | Err err => Some (r, Err (EvmError_fmt err))
            | Ok (raw, _) => r ← collect_call r raw; Some (r, Ok exs)
            end
          else Some (r, Ok exs)
      end
  end.

(** [replay_error]: the sequence is shrunk first; [stop] tells when shrinking
    is interrupted. *)
Definition replay_error (stop : nat → bool) (e : Executor) (calls : list BasicTxDetails)
    (inner : option (list (option BasicTxDetails))) (contracts : Contracts) (r : TestResult)
    : option (TestResult * result Report (list FuzzRun.BaseCounterExample)) :=
  calls ← Shrink.shrink_sequence (Z.to_nat (InvariantRun.shrink_run_limit config))
            (InvariantRun.fail_on_revert config) (InvariantRun.call_after_invariant contract) e calls stop;
  match calls with
  | Err err => Some (r, Err err)
  | Ok calls =>
      let e := match inner with Some l => set_up_inner_replay e l | None => e end in
      replay_run e contracts r calls
  end.
End replay.

(** ** What the filter of the failures matches *)
Lemma append_assoc (a b c : string) : (a +:+ b) +:+ c = a +:+ (b +:+ c).
Proof. induction a as [|x a IH]; [done|]. exact (f_equal (String x) IH). Qed.
Lemma append_nil (a : string) : a +:+ "" = a.
Proof. induction a as [|x a IH]; [done|]. exact (f_equal (String x) IH). Qed.
(** If every failure has the name of a test, the filter is their names with
    bars between them. *)
Lemma rerun_filter_of_tests names : Forall (λ n, is_any_test n = true) names →
  rerun_filter names = String.concat "|" (until_paren <$> names).
Proof.
  induction 1 as [|name names Hn Hl IH]; [done|]. cbn [rerun_filter]. rewrite Hn, IH.
  destruct names as [|m names].
  - cbn [rerun_filter]. by rewrite !append_nil.
  - by rewrite append_assoc.
Qed.
(** A last failure that is not one leaves an alternative that is empty, and a
    failed set-up alone an empty filter. *)
Lemma rerun_filter_after_setup : rerun_filter ["testA()"; "setUp()"] = "testA|".
Proof. reflexivity. Qed.
Lemma rerun_filter_of_setup : rerun_filter ["setUp()"] = "".
Proof. reflexivity. Qed.
