(* ===== verification/TestRunner.v ===== *)
(** * The test runner: forge/src/runner.rs and multi_runner.rs

    A [ContractRunner] deploys a test contract, runs its [setUp] and then its
    test functions, in parallel; a [FunctionRunner] runs one of them on a copy
    of the executor after the set-up.  How the workers of a fuzz test
    interleaved and what a campaign's clock read are arguments.  Inline
    configuration, the identification of contracts and the files of earlier
    failures are the interface [RunnerEnv]; [None] is a panic. *)
From stdpp Require Import base list gmap strings.
From Stdlib Require Import ZArith Lia.
From S2P Require Import Prelude TestExec.
From S2P Require Shrink FuzzRun InvariantRun.
From S2P Require Import TestResults.
#[local] Open Scope list_scope.

#[local] Abbreviation Address := Z (only parsing).
#[local] Abbreviation Bytes := (list Z) (only parsing).

Definition LIBRARY_DEPLOYER : Address := 0x1F95D37F27EA0dEA9C252FC09D5A6eaA97647353.

Record TestContract := mkContract { abi_functions : list Function; bytecode : Bytes }.
Record TestRunnerConfig := mkTcfg
  { tc_sender : Address; tc_initial_balance : Z; tc_fuzz : FuzzRun.FuzzConfig;
    tc_invariant : InvariantRun.InvariantConfig; tc_show_solidity : bool;
    (** Whether the corpora of fuzz tests and of campaigns use edge coverage. *)
    tc_fuzz_edges : bool; tc_invariant_edges : bool }.

Class RunnerEnv `{!ExecTypes, !InvariantRun.InputSource} := {
  (** The inline configuration of a function merged into a configuration; that
      of the contract is under the empty name. *)
  inline_config : string → TestRunnerConfig → option (result Report TestRunnerConfig);
  configure_executor : TestRunnerConfig → Executor → Executor;
  collect_edge_coverage : bool → Executor → Executor;
  create_address : Address → Z → Address;
  as_array : DynSolValue → option (list DynSolValue);
  (** The calls before a test, as [beforeTestSetup] returns them. *)
  before_test_calldata : Bytes → Bytes;
  decode_calldatas : Bytes → result Report (list Bytes);
  (** The targets of a campaign and how many replays of its corpus failed. *)
  select_targets : Executor → Address → result Report InvariantRun.Source;
  source_failed_replays : InvariantRun.Source → Z;
  after_invariant_selector : Bytes;
  (** Failures that earlier runs recorded, by the name of the test. *)
  persisted_input : string → option Bytes;
  persisted_failure : string → option (list FuzzRun.BaseCounterExample * option Bytes);
  rayon_threads : nat;
  (** [matches_test] of the filter, on a signature. *)
  matches_test : string → bool;
}.

Section runner.
Context `{!ExecTypes, !ExecEnv, !FuzzRun.FuzzSource, !Identify, !InvariantRun.InputSource, !RunnerEnv}.
Variables (contract : TestContract) (libs_to_deploy : list Bytes) (revert_decoder : RevertDecoder).

(** ** Set-up *)
Fixpoint trim_underscores (l : list Ascii.ascii) : list Ascii.ascii :=
  match l with a :: l' => if bool_decide (Ascii.nat_of_ascii a = 95%nat) then trim_underscores l' else l | [] => [] end.
Definition normalize_fixture (param_name : string) : string :=
  to_lower (String.string_of_list_ascii
    (rev (trim_underscores (rev (trim_underscores (String.list_ascii_of_string param_name)))))).
Definition fixture_name (function_name : string) : option string :=
  normalize_fixture <$> strip_prefix "fixture" function_name.
Definition param_fixtures (fixtures : gmap string DynSolValue) (param : string) : option (list DynSolValue) :=
  v ← fixtures !! normalize_fixture param; as_array v.

(** The values of a storage array, by calls with growing indices until one
    fails; [None] is also an array that has no end within the fuel. *)
Fixpoint read_fixture (fuel : nat) (e : Executor) (address : Address) (func : Function) (index : Z)
    : option (list DynSolValue) :=
  match fuel with
  | O => None
  | S fuel =>
      match call e CALLER address func [sol_uint index] 0 None with
      | Ok r => rest ← read_fixture fuel e address func (index + 1); Some (decoded_result r :: rest)
      | Err _ => Some []
      end
  end.
Definition fixture_step (fuel : nat) (e : Executor) (address : Address) (acc : gmap string DynSolValue)
    (func : Function) : option (gmap string DynSolValue) :=
  match inputs func with
  | [] =>
      match call e CALLER address func [] 0 None with
      | Ok r => name ← fixture_name (fn_name func); Some (<[name := decoded_result r]> acc)
      | Err _ => Some acc
      end
  | _ =>
      vals ← read_fixture fuel e address func 0;
      name ← fixture_name (fn_name func);
      Some (<[name := sol_array vals]> acc)
  end.
Definition fixtures_of (fuel : nat) (e : Executor) (address : Address) : option (gmap string DynSolValue) :=
  fold_m (fixture_step fuel e address) ∅
    (filter (λ func, kind_is_fixture (test_function_kind func) = true) (abi_functions contract)).

Definition apply_contract_inline_config (tcfg : TestRunnerConfig) (e : Executor)
    : result Report (TestRunnerConfig * Executor) :=
  match inline_config "" tcfg with
  | None => Ok (tcfg, e)
  | Some (Err err) => Err err
  | Some (Ok tcfg) =>
      let prev_tracer := tracer (inspector e) in
      Ok (tcfg, with_tracer (configure_executor tcfg (with_tracer e None)) prev_tracer)
  end.

Definition with_libs (s : TestSetup) (a : Address) : TestSetup :=
  mkSetup (setup_address s) (fuzz_fixtures s) (setup_logs s) (setup_labels s) (setup_traces s)
    (setup_coverage s) (deployed_libs s ++ [a]) (setup_reason s) (setup_skipped s) (deployment_failure s).
Definition with_reason (s : TestSetup) (why : option string) : TestSetup :=
  mkSetup (setup_address s) (fuzz_fixtures s) (setup_logs s) (setup_labels s) (setup_traces s)
    (setup_coverage s) (deployed_libs s) why (setup_skipped s) (deployment_failure s).
Definition with_address (s : TestSetup) (a : Address) : TestSetup :=
  mkSetup a (fuzz_fixtures s) (setup_logs s) (setup_labels s) (setup_traces s)
    (setup_coverage s) (deployed_libs s) (setup_reason s) (setup_skipped s) (deployment_failure s).
Definition with_deployment_failure (s : TestSetup) (b : bool) : TestSetup :=
  mkSetup (setup_address s) (fuzz_fixtures s) (setup_logs s) (setup_labels s) (setup_traces s)
    (setup_coverage s) (deployed_libs s) (setup_reason s) (setup_skipped s) b.
Definition with_fixtures (s : TestSetup) (f : gmap string DynSolValue) : TestSetup :=
  mkSetup (setup_address s) f (setup_logs s) (setup_labels s) (setup_traces s)
    (setup_coverage s) (deployed_libs s) (setup_reason s) (setup_skipped s) (deployment_failure s).
Definition deployed_as_raw (r : result EvmError DeployResult) : result EvmError RawCallResult :=
  deployed_raw <$> r.

(** A part of the set-up: it goes on, has its setup, or fails. *)
Inductive Part := Going (e : Executor) (s : TestSetup) | Done (e : Executor) (s : TestSetup) | Failed (e : Executor) (why : Report).
(** [?] on an operation of the executor. *)
Definition attempt (x : Executor * result Report unit) (k : Executor → option Part) : option Part :=
  match x with
  | (e, Ok _) => k e
  | (e, Err why) => Some (Failed e why)
  end.
(** Recording the outcome of a call: [from_evm_result] with [?]. *)
Definition record_part (e : Executor) (s : TestSetup) (r : result EvmError RawCallResult) (k : TraceKind)
    (next : TestSetup → option string → option Part) : option Part :=
  match from_evm_result r with
  | Err why => Some (Failed e why)
  | Ok (raw, why) => next (setup_extend s raw k) why
  end.
Fixpoint deploy_libs (libs : list Bytes) (e : Executor) (s : TestSetup) : option Part :=
  match libs with
  | [] => Some (Going e s)
  | code :: libs =>
      '(e, r) ← deploy e LIBRARY_DEPLOYER code 0 (Some revert_decoder);
      let s := match (r : result EvmError DeployResult) with Ok d => with_libs s (deployed_address d) | Err _ => s end in
      record_part e s (deployed_as_raw r) Deployment (λ s why,
        match why with
        | Some _ => Some (Done e (with_reason s why))
        | None => deploy_libs libs e s
        end)
  end.

Definition call_setup_part (fuel : nat) (call_setup : bool) (e : Executor) (s : TestSetup) : option Part :=
  let address := setup_address s in
  let finish (e : Executor) (s : TestSetup) : option Part :=
    f ← fixtures_of fuel e address; Some (Done e (with_fixtures s f)) in
  if call_setup then
    let '(e, r) := setup e None address (Some revert_decoder) in
    record_part e s r Setup (λ s why, finish e (with_reason s why))
  else finish e s.
Definition deploy_part (fuel : nat) (call_setup : bool) (tcfg : TestRunnerConfig) (e : Executor) (s : TestSetup)
    : option Part :=
  match get_nonce e (tc_sender tcfg) with
  | Err why => Some (Failed e why)
  | Ok n =>
      let address := create_address (tc_sender tcfg) n in
      let s := with_address s address in
      attempt (set_balance e address (tc_initial_balance tcfg)) (λ e,
      '(e, r) ← deploy e (tc_sender tcfg) (bytecode contract) 0 (Some revert_decoder);
      let s := with_deployment_failure s (match (r : result EvmError DeployResult) with Ok _ => false | Err _ => true end) in
      record_part e s (deployed_as_raw r) Deployment (λ s why,
        match why with
        | Some _ => Some (Done e (with_reason s why))
        | None =>
            attempt (set_balance e (tc_sender tcfg) (tc_initial_balance tcfg)) (λ e,
            attempt (set_balance e CALLER (tc_initial_balance tcfg)) (λ e,
            attempt (set_balance e LIBRARY_DEPLOYER (tc_initial_balance tcfg)) (λ e,
            d ← deploy_create2_deployer e;
            attempt d (λ e, call_setup_part fuel call_setup e s))))
        end))
  end.
Definition inner_setup (fuel : nat) (call_setup : bool) (tcfg : TestRunnerConfig) (e : Executor)
    : option (TestRunnerConfig * Part) :=
  match apply_contract_inline_config tcfg e with
  | Err why => Some (tcfg, Failed e why)
  | Ok (tcfg, e) =>
      part ← attempt (set_balance e (tc_sender tcfg) u256_max) (λ e,
        attempt (set_balance e CALLER u256_max) (λ e,
        attempt (set_nonce e (tc_sender tcfg) 1) (λ e,
        attempt (set_balance e LIBRARY_DEPLOYER u256_max) (λ e,
        part ← deploy_libs libs_to_deploy e setup_default;
        match part with
        | Going e s => deploy_part fuel call_setup tcfg e s
        | other => Some other
        end))));
      Some (tcfg, part)
  end.
Fixpoint contains (sub s : string) : bool :=
  String.prefix sub s || match s with EmptyString => false | String _ s => contains sub s end.
Definition setup_contract (fuel : nat) (call_setup : bool) (tcfg : TestRunnerConfig) (e : Executor)
    : option (TestRunnerConfig * Executor * TestSetup) :=
  '(tcfg, part) ← inner_setup fuel call_setup tcfg e;
  match part with
  | Going e s | Done e s => Some (tcfg, e, s)
  | Failed e why => Some (tcfg, e, if contains "skipped" why then setup_skip why else setup_failed why)
  end.
End runner.

(** ** Running one test function: the [FunctionRunner] of forge/src/runner.rs

    Each test runs on a copy of the executor as the set-up left it.  A fuzz
    test is given the state its workers ended in ([FuzzRun.Pool]), and [Reads]
    are what the clock and the early exit are read as.  The result comes with
    what is written for the next run; [None] is a panic. *)
(** Reads of the early exit, and of a campaign's clock, by their number. *)
Record Reads := mkReads
  { stop_table : nat → bool; stop_campaign : nat → bool; stop_replay : nat → bool; clock : nat → bool }.

Section function.
Context `{!ExecTypes, !ExecEnv, !FuzzRun.FuzzSource, !Identify, !InvariantRun.InputSource, !RunnerEnv}.
Variables (contract : TestContract) (revert_decoder : RevertDecoder).

(** What a test leaves on disk: the input of a failed fuzz test, or the calls
    that break an invariant, with the bytecode of the contract. *)
Inductive Persist :=
| PersistInput (test : string) (e : FuzzRun.BaseCounterExample)
| PersistSequence (test : string) (calls : list FuzzRun.BaseCounterExample) (driver_bytecode : Bytes).

(** [FunctionRunner], and the parts of it that do not change. *)
Record Runner := mkRunner { tcfg : TestRunnerConfig; executor : Executor; result_r : TestResult }.
Variables (setup : TestSetup) (func : Function) (reads : Reads).
#[local] Abbreviation address := (setup_address setup).

Definition runner_new (tcfg : TestRunnerConfig) (e : Executor) : Runner := mkRunner tcfg e (result_new setup).
Definition with_result (r : Runner) (res : TestResult) : Runner := mkRunner (tcfg r) (executor r) res.
Definition apply_function_inline_config (r : Runner) : result Report Runner :=
  match inline_config (fn_name func) (tcfg r) with
  | None => Ok r
  | Some (Err err) => Err err
  | Some (Ok c) => Ok (mkRunner c (configure_executor c (executor r)) (result_r r))
  end.

(** ** Calls before a test *)
Fixpoint apply_before_calls (r : Runner) (calls : list Bytes) : Runner * bool :=
  match calls with
  | [] => (r, true)
  | data :: calls =>
      match transact_raw (executor r) (tc_sender (tcfg r)) address data 0 with
      | (e, Err _) => (mkRunner (tcfg r) e (single_fail (result_r r) None), false)
      | (e, Ok raw) =>
          let res := extend (result_r r) raw in
          if reverted raw then (mkRunner (tcfg r) e (single_fail res None), false)
          else apply_before_calls (mkRunner (tcfg r) e res) calls
      end
  end.
Definition prepare_test (r : Runner) : Runner * bool :=
  if existsb (λ f, is_before_test_setup (fn_name f)) (abi_functions contract) then
    apply_before_calls r
      (call_sol_default (executor r) address (before_test_calldata (selector func)) decode_calldatas [])
  else (r, true).

(** ** Unit tests

    The outcome of calling the test: its raw result, or the test's result. *)
Definition call_test (r : Runner) (args : list DynSolValue) : (RawCallResult * option string) + TestResult :=
  match call (executor r) (tc_sender (tcfg r)) address func args 0 (Some revert_decoder) with
  | Ok c => inl (raw c, None)
  | Err (Execution raw why) => inl (raw, Some why)
  | Err (Skip why) => inr (single_skip (result_r r) why)
  | Err err => inr (single_fail (result_r r) (Some (EvmError_fmt err)))
  end.
Definition run_unit_test (r : Runner) : TestResult :=
  let '(r, prepared) := prepare_test r in
  if negb prepared then result_r r else
  match call_test r [] with
  | inr res => res
  | inl (raw, why) =>
      let '(raw, success) := is_raw_call_mut_success (executor r) address raw false in
      single_result (result_r r) success why raw
  end.

(** ** Table tests *)
Definition table_case (res : FuzzRun.FuzzTestResult) (raw : RawCallResult) : FuzzRun.FuzzTestResult :=
  FuzzRun.mkFuzzResult (FuzzRun.first_case res) (FuzzRun.gas_by_case res ++ [(gas_used raw, stipend raw)])
    (FuzzRun.success res) (FuzzRun.skipped res) (FuzzRun.reason res) (FuzzRun.counterexample res)
    (FuzzRun.fr_logs res ++ logs raw) (labels raw ∪ FuzzRun.fr_labels res) (FuzzRun.fr_traces res)
    (FuzzRun.fr_gas_report_traces res) (merge_opt (FuzzRun.fr_line_coverage res) (line_coverage raw))
    (FuzzRun.fr_breakpoints res) (FuzzRun.fr_deprecated res) (FuzzRun.fr_failed_corpus_replays res).
Definition table_end (res : FuzzRun.FuzzTestResult) (success : bool) (why : option string)
    (ex : option FuzzRun.CounterExample) (t : option Arena) : FuzzRun.FuzzTestResult :=
  FuzzRun.mkFuzzResult (FuzzRun.first_case res) (FuzzRun.gas_by_case res) success (FuzzRun.skipped res)
    why ex (FuzzRun.fr_logs res) (FuzzRun.fr_labels res) t (FuzzRun.fr_gas_report_traces res)
    (FuzzRun.fr_line_coverage res) (FuzzRun.fr_breakpoints res) (FuzzRun.fr_deprecated res)
    (FuzzRun.fr_failed_corpus_replays res).

(** The columns of the table, or why there are none. *)
Fixpoint other_columns (fixtures : gmap string DynSolValue) (n : nat) (params : list Param)
    : result string (list (list DynSolValue)) :=
  match params with
  | [] => Ok []
  | p :: params =>
      match param_fixtures fixtures (param_name p) with
      | None => Err ("No fixture defined for param " +:+ param_name p)
      | Some column =>
          if bool_decide (length column ≠ n)
          then Err (decimal (Z.of_nat (length column)) +:+ " fixtures defined for " +:+ param_name p +:+
                    " (expected " +:+ decimal (Z.of_nat n) +:+ ")")
          else rest ← other_columns fixtures n params; Ok (column :: rest)
      end
  end.
Definition table_columns (fixtures : gmap string DynSolValue) : result string (nat * list (list DynSolValue)) :=
  match inputs func with
  | [] => Err "Table test should have at least one parameter"
  | p :: params =>
      match param_fixtures fixtures (param_name p) with
      | None => Err "Table test should have fixtures defined"
      | Some [] => Err "Table test should have at least one fixture"
      | Some column =>
          rest ← other_columns fixtures (length column) params; Ok (length column, column :: rest)
      end
  end.

(** The loop over the rows, [todo] of them left from row [i]. *)
Fixpoint table_rows (r : Runner) (table : list (list DynSolValue)) (i todo : nat)
    (res : FuzzRun.FuzzTestResult) : option TestResult :=
  match todo with
  | O => Some (result_r r)
  | S todo =>
      if stop_table reads i then Some (result_r r) else
      args ← mapM (λ column : list DynSolValue, column !! i) table;
      match call_test r args with
      | inr test => Some test
      | inl (raw, why) =>
          let res := table_case res raw in
          let '(raw, success) := is_raw_call_mut_success (executor r) address raw false in
          if negb success then
            match abi_encode_input func args with
            | Err _ => None
            | Ok data =>
                table_result (result_r r) (table_end res false why
                  (Some (FuzzRun.Single (FuzzRun.from_fuzz_call data args (traces raw)))) (traces raw))
            end
          else match todo with
               | O => table_result (result_r r)
                        (table_end res true (FuzzRun.reason res) (FuzzRun.counterexample res) (traces raw))
               | S _ => table_rows r table (S i) todo res
               end
      end
  end.
Definition run_table_test (r : Runner) : option TestResult :=
  let '(r, prepared) := prepare_test r in
  if negb prepared then Some (result_r r) else
  match table_columns (fuzz_fixtures setup) with
  | Err why => Some (single_fail (result_r r) (Some why))
  | Ok (n, table) => table_rows r table 0 n FuzzRun.fuzz_result_default
  end.

(** ** Fuzz tests *)
Definition fuzzed_executor (r : Runner) : FuzzRun.FuzzedExecutor :=
  FuzzRun.fuzzed_new (collect_edge_coverage (tc_fuzz_edges (tcfg r)) (executor r)) (tc_sender (tcfg r))
    (tc_fuzz (tcfg r)) (persisted_input (fn_name func)) rayon_threads.
Definition run_fuzz_test (r : Runner) (p : FuzzRun.Pool) : option (TestResult * list Persist) :=
  let '(r, prepared) := prepare_test r in
  if negb prepared then Some (result_r r, []) else
  out ← FuzzRun.fuzz (fuzzed_executor r) func p;
  match out with
  | Err err => Some (fuzz_setup_fail (result_r r) err, [])
  | Ok res =>
      test ← fuzz_result (result_r r) res;
      Some (test, match FuzzRun.counterexample res with
                  | Some (FuzzRun.Single ex) => [PersistInput (fn_name func) ex]
                  | _ => []
                  end)
  end.

(** ** Invariant tests *)
Variable call_after_invariant : bool.
Definition invariant_contract : InvariantRun.InvariantContract :=
  InvariantRun.mkInvariantContract address (fn_name func) (selector func)
    (negb (bool_decide (inputs func = []))) call_after_invariant after_invariant_selector.
#[local] Instance runner_exec : Shrink.InvariantExecutor Executor BasicTxDetails (list Z) Report :=
  InvariantRun.campaign_executor invariant_contract.
Definition persisted_call_sequence (test : string) (code : Bytes) : option (list FuzzRun.BaseCounterExample) :=
  '(calls, persisted_bytecode) ← persisted_failure test;
  match persisted_bytecode with
  | Some b => if bool_decide (b = code) then Some calls else None
  | None => Some calls
  end.
Definition with_show (show : bool) (e : FuzzRun.BaseCounterExample) : FuzzRun.BaseCounterExample :=
  FuzzRun.mkExample (FuzzRun.ex_warp e) (FuzzRun.ex_roll e) (FuzzRun.ex_sender e) (FuzzRun.ex_addr e)
    (FuzzRun.ex_calldata e) (FuzzRun.contract_name e) (FuzzRun.func_name e) (FuzzRun.ex_signature e)
    (FuzzRun.ex_args e) (FuzzRun.raw_args e) (FuzzRun.ex_traces e) show.
Definition persisted_tx (e : FuzzRun.BaseCounterExample) : BasicTxDetails :=
  mkTxDetails (FuzzRun.ex_warp e) (FuzzRun.ex_roll e) (default 0 (FuzzRun.ex_sender e))
    (mkCallDetails (default 0 (FuzzRun.ex_addr e)) (FuzzRun.ex_calldata e)).

(** What is persisted of a replay, if it has calls. *)
Definition record_failure_of (calls : list FuzzRun.BaseCounterExample) : list Persist :=
  match calls with [] => [] | _ => [PersistSequence (fn_name func) calls (bytecode contract)] end.
Definition replay_failed (r : Runner) (contracts : Contracts) (calls : list BasicTxDetails)
    (inner : option (list (option BasicTxDetails)))
    : option (TestResult * result Report (list FuzzRun.BaseCounterExample)) :=
  replay_error (tc_invariant (tcfg r)) invariant_contract (tc_show_solidity (tcfg r)) (stop_replay reads)
    (executor r) calls inner contracts (result_r r).

(** A failure of an earlier run that is one still; the outer [None] is a
    panic. *)
Definition replay_persisted (r : Runner) (contracts : Contracts) : option (option (TestResult * list Persist)) :=
  match persisted_call_sequence (fn_name func) (bytecode contract) with
  | None => Some None
  | Some calls =>
      let calls := with_show (tc_show_solidity (tcfg r)) <$> calls in
      let txes := persisted_tx <$> calls in
      out ← Shrink.check_sequence (executor r) txes
              (seq 0 (Nat.min (length txes) (Z.to_nat (InvariantRun.depth (tc_invariant (tcfg r))))))
              (InvariantRun.fail_on_revert (tc_invariant (tcfg r))) call_after_invariant;
      match out with
      | Ok (false, replayed_entirely) =>
          '(test, replayed) ← replay_failed r contracts txes None;
          let '(calls, persist) := match (replayed : result Report (list FuzzRun.BaseCounterExample)) with
                                   | Ok [] => (calls, [])
                                   | Ok replayed => (replayed, record_failure_of replayed)
                                   | Err _ => (calls, [])
                                   end in
          Some (Some (invariant_replay_fail test replayed_entirely (fn_name func) calls, persist))
      | _ => Some None
      end
  end.

(** The replay of the sequence that failed, or of the last run. *)
Definition replay_campaign (r : Runner) (contracts : Contracts) (d : InvariantRun.InvariantTestData)
    : option (TestResult * option FuzzRun.CounterExample * list Persist) :=
  match InvariantRun.error (InvariantRun.failures d) with
  | Some (InvariantRun.BrokenInvariant c) | Some (InvariantRun.Revert c) =>
      '(test, replayed) ← replay_failed r contracts (InvariantRun.test_calls c) (Some (InvariantRun.inner_sequence c));
      Some (match (replayed : result Report (list FuzzRun.BaseCounterExample)) with
            | Ok (ex :: exs) =>
                (test, Some (FuzzRun.Sequence (length (InvariantRun.test_calls c)) (ex :: exs)),
                 record_failure_of (ex :: exs))
            | _ => (test, None, [])
            end)
  | Some _ => Some (result_r r, None, [])
  | None =>
      '(test, _) ← replay_run invariant_contract (tc_show_solidity (tcfg r)) (executor r) contracts (result_r r)
                     (InvariantRun.last_run_inputs d);
      Some (test, None, [])
  end.
Definition campaign_result (r : Runner) (contracts : Contracts) (failed_replays : Z)
    (d : InvariantRun.InvariantTestData) : option (TestResult * list Persist) :=
  let err := InvariantRun.error (InvariantRun.failures d) in
  let r := with_result r (merge_coverages (result_r r) (InvariantRun.data_coverage d)) in
  '(test, ex, persist) ← replay_campaign r contracts d;
  Some (invariant_result test (InvariantRun.gas_report_traces d)
          (negb (bool_decide (is_Some err))) (e ← err; InvariantRun.error_revert_reason e) ex
          (InvariantRun.fuzz_cases d) (InvariantRun.reverts (InvariantRun.failures d))
          (InvariantRun.metrics d) failed_replays, persist).

Definition is_skip (x : result EvmError CallResult) : option SkipReason :=
  match x with Err (Skip why) => Some why | _ => None end.
Definition run_invariant_test (fuel : nat) (r : Runner) (contracts : Contracts) : option (TestResult * list Persist) :=
  match is_skip (call (executor r) (tc_sender (tcfg r)) address func [] 0 (Some revert_decoder)) with
  | Some why => Some (invariant_skip (result_r r) why, [])
  | None =>
      let e := collect_edge_coverage (tc_invariant_edges (tcfg r)) (executor r) in
      persisted ← replay_persisted r contracts;
      match persisted with
      | Some out => Some out
      | None =>
          match (if InvariantRun.invariant_has_inputs invariant_contract
                 then Err "Invariant test function should have no inputs" else select_targets e address) with
          | Err err => Some (invariant_setup_fail (result_r r) err, [])
          | Ok x =>
              out ← InvariantRun.invariant_fuzz (tc_invariant (tcfg r)) invariant_contract (clock reads)
                      (stop_campaign reads) fuel e x;
              match out with
              | Err err => Some (invariant_setup_fail (result_r r) err, [])
              | Ok d => campaign_result r contracts (source_failed_replays x) d
              end
          end
      end
  end.

(** ** The dispatch; [contracts] are identified if the contract has invariants *)
Definition run (fuel : nat) (r : Runner) (k : TestFunctionKind) (contracts : option Contracts) (p : FuzzRun.Pool)
    : option (TestResult * list Persist) :=
  match apply_function_inline_config r with
  | Err err => Some (single_fail (result_r r) (Some err), [])
  | Ok r =>
      match k with
      | KUnitTest _ => Some (run_unit_test r, [])
      | KFuzzTest _ => run_fuzz_test r p
      | KTableTest => test ← run_table_test r; Some (test, [])
      | KInvariantTest => c ← contracts; run_invariant_test fuel r c
      | _ => None
      end
  end.
End function.
