(* ===== verification/SuiteRun.v ===== *)
(** * Running suites: [run_tests] of forge/src/runner.rs, forge/src/multi_runner.rs
      and the loop over results of forge/src/cmd/test/mod.rs

    The contracts that match the filter are set up and their test functions
    run in parallel.  [step] is one move of a thread: it opens a suite, skips
    or begins a function, or ends it; all of them share one [EarlyExit]. *)
From stdpp Require Import base list gmap strings.
From Stdlib Require Import ZArith Lia.
From S2P Require Import Prelude TestExec.
From S2P Require Shrink FuzzRun InvariantRun.
From S2P Require Import TestResults TestRunner.
#[local] Open Scope list_scope.

#[local] Abbreviation Address := Z (only parsing).

(** A [BTreeMap] by name. *)
Fixpoint insert_named {A} (name : string) (a : A) (l : list (string * A)) : list (string * A) :=
  match l with
  | [] => [(name, a)]
  | (n, b) :: l' =>
      match String.compare name n with
      | Lt => (name, a) :: l
      | Eq => (name, a) :: l'
      | Gt => (n, b) :: insert_named name a l'
      end
  end.
Definition btree {A} (l : list (string * A)) : list (string * A) :=
  foldl (λ m x, insert_named x.1 x.2 m) [] l.

Section suites.
Context `{!ExecTypes, !ExecEnv, !FuzzRun.FuzzSource, !Identify, !InvariantRun.InputSource, !RunnerEnv}.
Variables (libs_to_deploy : list (list Z)) (revert_decoder : RevertDecoder).
(** The contracts that the traces of the set-up identify. *)
Variable identified_contracts : list Arena → Contracts.

Definition matches_test_function (f : Function) : bool :=
  kind_is_any_test (test_function_kind f) && matches_test (signature f).

(** ** Up to the test functions

    What [run_tests] needs for the functions, after the set-up. *)
Record Plan := mkPlan
  { p_contract : TestContract; p_tcfg : TestRunnerConfig; p_executor : Executor; p_setup : TestSetup;
    p_functions : list Function; p_after_invariant : bool; p_identified : option Contracts;
    p_warnings : list string }.
Inductive Opened := Closed (s : SuiteResult) | Running (p : Plan).
Definition single_test (name : string) (r : TestResult) (warnings : list string) : Opened :=
  Closed (suite_new [(name, r)] warnings).
Definition setup_warning (f : Function) : list string :=
  if bool_decide (fn_name f = "setUp") then []
  else ["Found invalid setup function " +:+ String (Ascii.ascii_of_nat 34) (signature f) +:+
        String (Ascii.ascii_of_nat 34) " did you mean " +:+
        String (Ascii.ascii_of_nat 34) "setUp()" +:+ String (Ascii.ascii_of_nat 34) "?"].
Definition after_warning (f : Function) : list string :=
  if bool_decide (fn_name f = "afterInvariant") then []
  else ["Found invalid afterInvariant function " +:+ String (Ascii.ascii_of_nat 34) (signature f) +:+
        String (Ascii.ascii_of_nat 34) " did you mean " +:+
        String (Ascii.ascii_of_nat 34) "afterInvariant()" +:+ String (Ascii.ascii_of_nat 34) "?"].
Definition removed_fail : TestResult :=
  result_fail "`testFail*` has been removed. Consider changing to test_Revert[If|When]_Condition and expecting a revert".
Definition test_fails (functions : list Function) : list Function :=
  filter (λ f, kind_is_any_test_fail (test_function_kind f) = true) functions.
Definition named_kind (f : Function) : TestFunctionKind := classify (fn_name f) false.

(** After the set-up. *)
Definition plan_functions (contract : TestContract) (tcfg : TestRunnerConfig) (e : Executor) (s : TestSetup)
    (after has_invariants : bool) (warnings : list string) : Opened :=
  match setup_reason s with
  | Some _ => single_test (if deployment_failure s then "constructor()" else "setUp()") (setup_result s) warnings
  | None =>
      let functions := filter (λ f, matches_test_function f = true) (abi_functions contract) in
      let identified := if has_invariants : bool then Some (identified_contracts (snd <$> setup_traces s)) else None in
      match test_fails functions with
      | [] => Running (mkPlan contract tcfg e s functions after identified warnings)
      | fails => Closed (suite_new (btree ((λ f, (signature f, removed_fail)) <$> fails)) warnings)
      end
  end.
Definition open_suite (fuel : nat) (contract : TestContract) (tcfg : TestRunnerConfig) (e : Executor) : option Opened :=
  let functions := abi_functions contract in
  let setup_fns := filter (λ f, kind_is_setup (named_kind f) = true) functions in
  let call_setup := match setup_fns with [f] => bool_decide (fn_name f = "setUp") | _ => false end in
  let warnings := mjoin (setup_warning <$> setup_fns) in
  if bool_decide (1 < length setup_fns)%nat
  then Some (single_test "setUp()" (result_fail "multiple setUp functions") warnings) else
  let after_fns := filter (λ f, kind_is_after_invariant (named_kind f) = true) functions in
  if bool_decide (1 < length after_fns)%nat
  then Some (single_test "afterInvariant()" (result_fail "multiple afterInvariant functions") warnings) else
  let after := match after_fns with f :: _ => bool_decide (fn_name f = "afterInvariant") | [] => false end in
  let warnings := warnings ++ match after_fns with f :: _ => after_warning f | [] => [] end in
  let has_invariants := existsb (λ f, kind_is_invariant_test (test_function_kind f)) functions in
  let prev_tracer := tracer (inspector e) in
  let e := with_tracer e None in
  let e := if bool_decide (is_Some prev_tracer) || has_invariants then set_tracing e else e in
  '(tcfg, e, s) ← setup_contract contract libs_to_deploy revert_decoder fuel call_setup tcfg e;
  Some (plan_functions contract tcfg (with_tracer e prev_tracer) s after has_invariants warnings).

(** ** The test functions, in parallel *)
Inductive Task := Pending | Started | Ended (out : option (TestResult * list Persist)).
Inductive Suite :=
| Waiting (contract : TestContract) (e : Executor)
| SuiteClosed (s : SuiteResult)
| Tasks (p : Plan) (tasks : list Task).
Record Run := mkRunState { early : EarlyExit; suites : list Suite }.
Definition run_new (fail_fast : bool) (contracts : list (TestContract * Executor)) : Run :=
  mkRunState (early_exit_new fail_fast) ((λ c, Waiting c.1 c.2) <$> contracts).

Definition suite_of (o : Opened) : Suite :=
  match o with Closed s => SuiteClosed s | Running p => Tasks p ((λ _, Pending) <$> p_functions p) end.
(** What the executions of a test read of the early exit is what it was, and
    so are the reads of the workers of a fuzz test. *)
Definition reads_of (x : EarlyExit) (r : Reads) : Prop :=
  should_stop x = false →
  ∀ n, stop_table r n = false ∧ stop_campaign r n = false ∧ stop_replay r n = false.
Definition prepared_runner (p : Plan) (f : Function) : option Runner :=
  match apply_function_inline_config f (runner_new (p_setup p) (p_tcfg p) (p_executor p)) with
  | Ok r => let '(r, ok) := prepare_test (p_contract p) (p_setup p) f r in if ok then Some r else None
  | Err _ => None
  end.
Definition workers_of (x : EarlyExit) (p : Plan) (f : Function) (q : FuzzRun.Pool) : Prop :=
  (should_stop x = false → should_stop (FuzzRun.global_early_exit (FuzzRun.shared q)) = false) ∧
  match test_function_kind f, prepared_runner p f with
  | KFuzzTest _, Some r =>
      ∃ x0, FuzzRun.steps (fuzzed_executor f r) f (setup_address (p_setup p)) revert_decoder
              (FuzzRun.pool_new (fuzzed_executor f r) x0) q
  | _, _ => True
  end.
Definition run_function (fuel : nat) (p : Plan) (f : Function) (reads : Reads) (q : FuzzRun.Pool)
    : option (TestResult * list Persist) :=
  run (p_contract p) revert_decoder (p_setup p) f reads (p_after_invariant p) fuel
    (runner_new (p_setup p) (p_tcfg p) (p_executor p)) (test_function_kind f) (p_identified p) q.
(** A result of the function, while the early exit was [x]. *)
Definition outcome (x : EarlyExit) (p : Plan) (f : Function) (out : TestResult * list Persist) : Prop :=
  ∃ fuel reads q, reads_of x reads ∧ workers_of x p f q ∧ run_function fuel p f reads q = Some out.

Definition set_task (r : Run) (i j : nat) (p : Plan) (tasks : list Task) (t : Task) (x : EarlyExit) : Run :=
  mkRunState x (<[i := Tasks p (<[j := t]> tasks)]> (suites r)).
Definition after_result (x : EarlyExit) (r : TestResult) : EarlyExit :=
  if is_failure (status r) then record_failure x else x.

(** [base] is the configuration that every suite starts with; Ctrl-C is
    listened to when the progress is shown. *)
Variables (base : TestRunnerConfig) (show_progress : bool).
Inductive step (r : Run) : Run → Prop :=
| step_open i contract e fuel o :
    suites r !! i = Some (Waiting contract e) → open_suite fuel contract base e = Some o →
    step r (mkRunState (early r) (<[i := suite_of o]> (suites r)))
| step_skip i p tasks j :
    suites r !! i = Some (Tasks p tasks) → tasks !! j = Some Pending → should_stop (early r) = true →
    step r (set_task r i j p tasks (Ended None) (early r))
| step_begin i p tasks j :
    suites r !! i = Some (Tasks p tasks) → tasks !! j = Some Pending → should_stop (early r) = false →
    step r (set_task r i j p tasks Started (early r))
| step_end i p tasks j f out :
    suites r !! i = Some (Tasks p tasks) → tasks !! j = Some Started → p_functions p !! j = Some f →
    outcome (early r) p f out →
    step r (set_task r i j p tasks (Ended (Some out)) (after_result (early r) out.1))
| step_ctrl_c : show_progress = true → step r (mkRunState (record_ctrl_c (early r)) (suites r)).
Definition steps : Run → Run → Prop := rtc step.

(** ** The results *)
Definition task_result (f : Function) (t : Task) : list (string * TestResult) :=
  match t with Ended (Some (res, _)) => [(signature f, res)] | _ => [] end.
Definition task_ended (t : Task) : bool := match t with Ended _ => true | _ => false end.
Definition suite_result (s : Suite) : option SuiteResult :=
  match s with
  | SuiteClosed s => Some s
  | Tasks p tasks =>
      if forallb task_ended tasks
      then Some (suite_new (btree (mjoin (zip_with task_result (p_functions p) tasks))) (p_warnings p))
      else None
  | Waiting _ _ => None
  end.
(** The loop over the results, in the order in which they arrive. *)
Fixpoint collect_outcome (fail_fast any_test_failed : bool) (rx : list (string * SuiteResult))
    (acc : list (string * SuiteResult)) : list (string * SuiteResult) :=
  match rx with
  | [] => acc
  | (name, s) :: rx =>
      let any_test_failed := any_test_failed || existsb (λ t, is_failure (status t.2)) (test_results s) in
      let acc := insert_named name s acc in
      if fail_fast && any_test_failed then acc else collect_outcome fail_fast any_test_failed rx acc
  end.
Definition run_outcome (fail_fast allow_failure : bool) (rx : list (string * SuiteResult)) : TestOutcome :=
  mkOutcome (collect_outcome fail_fast false rx []) allow_failure.
End suites.

(** ** Runs of suites: proofs

    A run that nothing interrupts and in which fail-fast has nothing to stop
    for gives every selected function a result, the one it has alone. *)
Section proofs.
Context `{!ExecTypes, !ExecEnv, !FuzzRun.FuzzSource, !Identify, !InvariantRun.InputSource, !RunnerEnv}.
Variables (libs : list (list Z)) (rd : RevertDecoder) (ident : list Arena → Contracts).
Variables (base : TestRunnerConfig).
#[local] Abbreviation open_suite := (open_suite libs rd ident).
#[local] Abbreviation outcome := (outcome rd).
#[local] Abbreviation step := (step libs rd ident base).
#[local] Abbreviation steps := (steps libs rd ident base).
Implicit Types (r : Run) (p : Plan) (f : Function) (t : Task) (c : TestContract * Executor) (x : EarlyExit).

Definition has_failure r : Prop :=
  ∃ i p tasks j out, suites r !! i = Some (Tasks p tasks) ∧ tasks !! j = Some (Ended (Some out)) ∧
    status out.1 = Failure.

(** ** The invariant of a run that is not interrupted *)
Definition task_ok (stopped : bool) p f t : Prop :=
  match t with
  | Ended None => stopped = true
  | Ended (Some out) => ∃ x, (should_stop x = true → stopped = true) ∧ outcome x p f out
  | _ => True
  end.
Definition suite_ok (stopped : bool) c (s : Suite) : Prop :=
  match s with
  | Waiting contract e => c = (contract, e)
  | SuiteClosed s => ∃ fuel, open_suite fuel c.1 base c.2 = Some (Closed s)
  | Tasks p tasks =>
      (∃ fuel, open_suite fuel c.1 base c.2 = Some (Running p)) ∧
      Forall2 (task_ok stopped p) (p_functions p) tasks
  end.
Definition run_ok (ff : bool) (contracts : list (TestContract * Executor)) r : Prop :=
  Forall2 (suite_ok (should_stop (early r))) contracts (suites r) ∧ fail_fast (early r) = ff ∧
  (should_stop (early r) = true → ff = true ∧ has_failure r).

Lemma task_ok_mono (b b' : bool) p f t : (b = true → b' = true) → task_ok b p f t → task_ok b' p f t.
Proof. intros Hb. destruct t as [| |[out|]]; simpl; [done|done| |naive_solver]. intros (x & Hx & ?). exists x. naive_solver. Qed.
Lemma suite_ok_mono (b b' : bool) c s : (b = true → b' = true) → suite_ok b c s → suite_ok b' c s.
Proof.
  intros Hb. destruct s as [contract e|s|p tasks]; simpl; [done|done|]. intros [? ?]. split; [done|].
  eapply Forall2_impl; [done|]. intros ??. by apply task_ok_mono.
Qed.
Lemma suites_ok_mono (b b' : bool) contracts l : (b = true → b' = true) →
  Forall2 (suite_ok b) contracts l → Forall2 (suite_ok b') contracts l.
Proof. intros Hb Hl. eapply Forall2_impl; [done|]. intros ??. by apply suite_ok_mono. Qed.

Lemma run_new_ok ff contracts : run_ok ff contracts (run_new ff contracts).
Proof.
  split; [|done]. unfold run_new; simpl. induction contracts as [|[contract e] l IH]; simpl; constructor; done.
Qed.

Lemma suite_lookup b contracts l i s : Forall2 (suite_ok b) contracts l → l !! i = Some s →
  ∃ c, contracts !! i = Some c ∧ suite_ok b c s.
Proof. intros Hl Hi. destruct (Forall2_lookup_r _ _ _ _ _ Hl Hi) as (c & ? & ?). eauto. Qed.
Lemma suites_insert b contracts l i s s' :
  Forall2 (suite_ok b) contracts l → l !! i = Some s →
  (∀ c, suite_ok b c s → suite_ok b c s') → Forall2 (suite_ok b) contracts (<[i := s']> l).
Proof.
  intros Hl Hi Hs. destruct (suite_lookup _ _ _ _ _ Hl Hi) as (c & Hc & Hok).
  rewrite <- (list_insert_id contracts i c) by done. apply Forall2_insert; [done|]. by apply Hs.
Qed.
(** A task that changes, in a suite that is running. *)
Lemma suites_set_task b contracts l i p tasks j t t' :
  Forall2 (suite_ok b) contracts l → l !! i = Some (Tasks p tasks) → tasks !! j = Some t →
  (∀ f, p_functions p !! j = Some f → task_ok b p f t') →
  Forall2 (suite_ok b) contracts (<[i := Tasks p (<[j := t']> tasks)]> l).
Proof.
  intros Hl Hi Hj Ht. eapply suites_insert; [done|done|]. intros c [Ho Hts]. split; [done|].
  destruct (Forall2_lookup_r _ _ _ _ _ Hts Hj) as (f & Hf & _).
  rewrite <- (list_insert_id (p_functions p) j f) by done. apply Forall2_insert; auto.
Qed.

(** A result stays while a task that has none changes. *)
Lemma has_failure_insert r i s x : has_failure r →
  (∀ p tasks, suites r !! i = Some (Tasks p tasks) → ∃ j t, s = Tasks p (<[j := t]> tasks) ∧ ∀ out, tasks !! j ≠ Some (Ended (Some out))) →
  has_failure (mkRunState x (<[i := s]> (suites r))).
Proof.
  intros (i0 & p & tasks & j & out & Hi & Hj & Hf) Hs. destruct (decide (i = i0)) as [->|Hne].
  - destruct (Hs _ _ Hi) as (j' & t & -> & Hout).
    assert (j ≠ j') by (intros ->; by apply (Hout out)).
    exists i0, p, (<[j' := t]> tasks), j, out. simpl. repeat split; [|by rewrite list_lookup_insert_ne|done].
    apply list_lookup_insert_eq. by eapply lookup_lt_Some.
  - exists i0, p, tasks, j, out. simpl. by rewrite list_lookup_insert_ne.
Qed.
Lemma has_failure_task r i p tasks j t t' x : has_failure r → suites r !! i = Some (Tasks p tasks) →
  tasks !! j = Some t → task_ended t = false → has_failure (set_task r i j p tasks t' x).
Proof.
  intros Hr Hi Hj Ht. apply has_failure_insert; [done|]. intros p0 tasks0 Hi0. simplify_eq.
  exists j, t'. split; [done|]. intros out Hout. by simplify_eq.
Qed.

Lemma suite_of_ok b c fuel o : open_suite fuel c.1 base c.2 = Some o → suite_ok b c (suite_of o).
Proof.
  intros Ho. destruct o as [s|p]; simpl; [by exists fuel|]. split; [by exists fuel|].
  induction (p_functions p) as [|f l IH]; simpl; constructor; done.
Qed.

Lemma run_step_ok ff contracts r r' : run_ok ff contracts r → step false r r' → run_ok ff contracts r'.
Proof.
  intros (Hl & Hff & Hstop) Hstep. destruct Hstep as
    [i contract e fuel o Hi Ho|i p tasks j Hi Hj Hs|i p tasks j Hi Hj Hs|i p tasks j f out Hi Hj Hf Hout|Hp];
    [..|done].
  - split_and!; simpl; [|done|].
    + eapply suites_insert; [done|done|]. intros c Hc. simpl in Hc. subst c. by eapply (suite_of_ok _ (contract, e)).
    + intros Hst. destruct (Hstop Hst) as [? Hfail]. split; [done|]. apply has_failure_insert; [done|]. naive_solver.
  - split_and!; simpl; [|done|].
    + eapply suites_set_task; [done..|]. by intros.
    + intros Hst. destruct (Hstop Hst) as [? Hfail]. split; [done|]. by eapply has_failure_task.
  - split_and!; simpl; [|done|].
    + eapply suites_set_task; [done..|]. by intros.
    + intros Hst. destruct (Hstop Hst) as [? Hfail]. split; [done|]. by eapply has_failure_task.
  - assert (Hmono : should_stop (early r) = true → should_stop (after_result (early r) out.1) = true).
    { intros Hst. unfold after_result, record_failure. destruct (is_failure _), (fail_fast _); done. }
    split_and!; simpl.
    + eapply suites_set_task; [eapply suites_ok_mono; done|done|done|]. intros f' Hf'. simplify_eq. by exists (early r).
    + unfold after_result, record_failure. destruct (is_failure _), (fail_fast (early r)) eqn:?; simpl; congruence.
    + intros Hst. destruct (should_stop (early r)) eqn:Hold.
      { destruct (Hstop eq_refl) as [? Hfail]. split; [done|]. by eapply has_failure_task. }
      unfold after_result in Hst. destruct (is_failure (status out.1)) eqn:Hfl; [|congruence].
      unfold record_failure in Hst. destruct (fail_fast (early r)) eqn:Hfast; [|congruence]. split; [congruence|].
      exists i, p, (<[j := Ended (Some out)]> tasks), j, out. simpl. split_and!.
      * apply list_lookup_insert_eq. by eapply lookup_lt_Some.
      * apply list_lookup_insert_eq. by eapply lookup_lt_Some.
      * unfold is_failure in Hfl. by apply bool_decide_eq_true in Hfl.
Qed.
Lemma run_steps_ok ff contracts r r' : run_ok ff contracts r → steps false r r' → run_ok ff contracts r'.
Proof. intros Hok Hs. induction Hs; [done|]. eauto using run_step_ok. Qed.

(** ** The result a function has alone *)
Definition alone p f (out : TestResult * list Persist) : Prop := ∃ x, should_stop x = false ∧ outcome x p f out.
Definition one_result f : Prop :=
  match test_function_kind f with KUnitTest _ | KTableTest => True | _ => False end.

Lemma table_rows_reads setup f (reads reads' : Reads) rn table todo i res :
  (∀ n, stop_table reads n = stop_table reads' n) →
  table_rows rd setup f reads rn table i todo res = table_rows rd setup f reads' rn table i todo res.
Proof.
  intros Hr. revert i res. induction todo as [|todo IH]; intros i res; [done|].
  cbn [table_rows]. rewrite Hr. destruct (stop_table reads' i); [done|].
  destruct (mapM _ table) as [args|]; [|done]. cbn [mbind option_bind].
  destruct (call_test _ _ _ _) as [[raw why]|]; [|done].
  destruct (is_raw_call_mut_success _ _ _ _) as [raw' success]. destruct success; [|done]. simpl.
  destruct todo; [done|]. apply IH.
Qed.
(** A table test that is interrupted is left as its result began: failed. *)
Lemma interrupted_table_fails setup f (reads : Reads) tcfg e table n res : stop_table reads 0 = true →
  option_map (λ q : TestResult, (status q, reason q))
    (table_rows rd setup f reads (runner_new setup tcfg e) table 0 (S n) res) = Some (Failure, None).
Proof. intros Hs. cbn [table_rows]. by rewrite Hs. Qed.
Lemma alone_unique p f out out' : one_result f → alone p f out → alone p f out' → out' = out.
Proof.
  unfold one_result. intros Hk (x & Hx & fuel & reads & q & Hr & _ & Hrun) (x' & Hx' & fuel' & reads' & q' & Hr' & _ & Hrun').
  specialize (Hr Hx). specialize (Hr' Hx'). revert Hrun Hrun'. unfold run_function, run.
  destruct (apply_function_inline_config _ _) as [rn|err]; [|congruence].
  destruct (test_function_kind f); try done; [congruence|].
  unfold run_table_test. destruct (prepare_test _ _ _ _) as [rn' [|]]; simpl; [|congruence].
  destruct (table_columns _ _) as [[n table]|err]; [|simpl; congruence].
  rewrite (table_rows_reads _ _ reads' reads) by (intros i; destruct (Hr i) as (-> & _), (Hr' i) as (-> & _); done).
  congruence.
Qed.

Lemma ended_tasks p tasks : forallb task_ended tasks = true → (∀ j, tasks !! j ≠ Some (Ended None)) →
  ∃ outs, tasks = (λ out, Ended (Some out)) <$> outs.
Proof.
  induction tasks as [|t tasks IH]; simpl; [by exists []|]. intros [Ht Hl]%andb_prop Hn.
  destruct (IH Hl (λ j, Hn (S j))) as [outs ->]. specialize (Hn 0%nat).
  destruct t as [| |[out|]]; [done|done| |done]. by exists (out :: outs).
Qed.

(** C13: with a run of suites in which Ctrl-C cannot be pressed, and in which
    fail-fast is off or no function failed, once every suite has a result
    each contract's suite is the one that its set-up gives; and if that is to
    run functions, each selected function was run: it has a result that it
    also has alone, in whatever order the threads took the functions, and for
    unit tests and table tests it is the only one.  So fail-fast leaves out
    functions only after a failure. *)
Theorem undisturbed_run_is_complete ff contracts r :
  steps false (run_new ff contracts) r →
  Forall (λ s, is_Some (suite_result s)) (suites r) →
  ff = false ∨ ¬ has_failure r →
  ∀ i contract e, contracts !! i = Some (contract, e) →
  ∃ fuel o, open_suite fuel contract base e = Some o ∧
    match o with
    | Closed s => suites r !! i = Some (SuiteClosed s)
    | Running p => ∃ outs,
        suites r !! i = Some (Tasks p ((λ out, Ended (Some out)) <$> outs)) ∧
        Forall2 (λ f out, alone p f out ∧ (one_result f → ∀ out', alone p f out' → out' = out))
          (p_functions p) outs
    end.
Proof.
  intros Hs Hall Hff i contract e Hi.
  destruct (run_steps_ok _ _ _ _ (run_new_ok ff contracts) Hs) as (Hl & _ & Hstop).
  destruct (Forall2_lookup_l _ _ _ _ _ Hl Hi) as (s & Hsi & Hok).
  assert (Hrun : should_stop (early r) = false).
  { destruct (should_stop (early r)); [|done]. destruct (Hstop eq_refl) as [? ?]. naive_solver. }
  pose proof (Forall_lookup_1 _ _ _ _ Hall Hsi) as [sr Hsr].
  destruct s as [|s|p tasks]; [done| |]; simpl in Hok.
  - destruct Hok as [fuel Ho]. by exists fuel, (Closed s).
  - destruct Hok as [[fuel Ho] Hts]. exists fuel, (Running p). split; [done|].
    simpl in Hsr. destruct (forallb task_ended tasks) eqn:Hended; [|done].
    destruct (ended_tasks p tasks Hended) as [outs ->].
    { intros j Hj. destruct (Forall2_lookup_r _ _ _ _ _ Hts Hj) as (f & _ & Hn). simpl in Hn. congruence. }
    exists outs. split; [done|]. rewrite Forall2_fmap_r in Hts. eapply Forall2_impl; [done|].
    intros f out (x & Hx & Hout). assert (Ha : alone p f out).
    { exists x. split; [|done]. destruct (should_stop x); [|done]. rewrite Hrun in Hx. by specialize (Hx eq_refl). }
    split; [done|]. intros Hone out' Hout'. by eapply alone_unique.
Qed.
End proofs.
