(* ===== verification/SuiteSample.v ===== *)
(** * A suite of the small contract: the claim at work *)
From stdpp Require Import base list gmap strings.
From Stdlib Require Import ZArith Lia.
From S2P Require Import Prelude TestExec.
From S2P Require FuzzRun InvariantRun.
From S2P Require Import TestSample FuzzSample.
From S2P Require Import TestResults TestRunner SuiteRun.
#[local] Open Scope list_scope.

#[local] Instance sample_identify : Identify := {|
  Contracts := unit;
  load_contracts _ c := c;
  identified _ _ := None;
  set_up_inner_replay e _ := e;
|}.
#[local] Instance sample_runner : RunnerEnv := {|
  inline_config _ _ := None;
  configure_executor _ e := e;
  collect_edge_coverage _ e := e;
  create_address _ _ := 1;
  as_array _ := None;
  before_test_calldata s := s;
  decode_calldatas _ := Ok [];
  select_targets _ _ := Ok [];
  source_failed_replays _ := 0;
  after_invariant_selector := [4];
  persisted_input _ := None;
  persisted_failure _ := None;
  rayon_threads := 2;
  matches_test _ := true;
|}.
Definition small_tcfg : TestRunnerConfig :=
  mkTcfg 5 1000 (FuzzRun.mkFuzzConfig 0 0 None false 0 false None)
    (InvariantRun.mkConfig 0 0 false 0 0 0 0 false None) false false false.
Definition unit_function (name : string) (sel : list Z) : Function := mkFunction name [] sel (name +:+ "()").
Definition bad : Function := unit_function "testBad" [1].
Definition good : Function := unit_function "testOk" [3].
Definition two_tests : TestContract := mkContract [bad; good] [9].
Definition decoder : RevertDecoder := tt.
Definition ident (l : list Z) : Contracts := tt.
#[local] Abbreviation small_open :=
  (open_suite [] decoder ident 5 two_tests small_tcfg (small_executor 3)) (only parsing).
Definition small_plan : Plan :=
  match small_open with
  | Some (Running p) => p
  | _ => mkPlan two_tests small_tcfg (small_executor 3) setup_default [] false None []
  end.
Lemma small_opens : small_open = Some (Running small_plan).
Proof.
  unfold small_plan.
  assert (match small_open with Some (Running _) => true | _ => false end = true) as Hb by (vm_compute; reflexivity).
  destruct small_open as [[|p]|]; [discriminate Hb|reflexivity|discriminate Hb].
Qed.
Lemma small_functions : p_functions small_plan = abi_functions two_tests.
Proof. vm_compute. reflexivity. Qed.
Definition never : Reads := mkReads (λ _, false) (λ _, false) (λ _, false) (λ _, false).
Definition no_workers : FuzzRun.Pool := FuzzRun.mkPool (FuzzRun.shared_new (early_exit_new false)) [].
Definition statuses (outs : list (TestResult * list Persist)) : list TestStatus := (λ out, status out.1) <$> outs.
Definition small_out (f : Function) : TestResult * list Persist :=
  default (result_default, []) (run_function decoder 5 small_plan f never no_workers).
Lemma small_runs f : In f (abi_functions two_tests) →
  run_function decoder 5 small_plan f never no_workers = Some (small_out f).
Proof.
  unfold small_out. intros Hf.
  assert (match run_function decoder 5 small_plan f never no_workers with Some _ => true | None => false end = true) as Hb.
  { destruct Hf as [<-|[<-|[]]]; vm_compute; reflexivity. }
  destruct (run_function decoder 5 small_plan f never no_workers); [reflexivity|discriminate Hb].
Qed.
Lemma small_outcome f x : In f (abi_functions two_tests) → outcome decoder x small_plan f (small_out f).
Proof.
  intros Hf. exists 5%nat, never, no_workers. split_and!; [by intros ? ?| |].
  - split; [done|]. destruct Hf as [<-|[<-|[]]]; exact I.
  - by apply small_runs.
Qed.
Definition small_run (tasks : list Task) : Run := mkRunState (early_exit_new false) [Tasks small_plan tasks].
Definition out_of (f : Function) : Task := Ended (Some (small_out f)).

#[local] Abbreviation small_step := (step [] decoder ident small_tcfg false) (only parsing).
Lemma small_begins tasks j : tasks !! j = Some Pending →
  small_step (small_run tasks) (small_run (<[j := Started]> tasks)).
Proof. intros Hj. by apply (step_begin _ _ _ _ _ (small_run tasks) 0 small_plan tasks j). Qed.
Lemma small_ends tasks j f : tasks !! j = Some Started → abi_functions two_tests !! j = Some f →
  small_step (small_run tasks) (small_run (<[j := out_of f]> tasks)).
Proof.
  intros Hj Hf.
  assert (after_result (early_exit_new false) (small_out f).1 = early_exit_new false) as Hx.
  { unfold after_result. by destruct (is_failure (status (small_out f).1)). }
  pose proof (step_end [] decoder ident small_tcfg false (small_run tasks) 0 small_plan tasks j f (small_out f)
                eq_refl Hj (eq_trans (f_equal (λ l, l !! j) small_functions) Hf)) as Hs.
  cbn [early small_run] in Hs. rewrite Hx in Hs. apply Hs, small_outcome, list_elem_of_In.
  by eapply list_elem_of_lookup_2.
Qed.

Lemma small_opening : small_step (run_new false [(two_tests, small_executor 3)]) (small_run [Pending; Pending]).
Proof.
  pose proof (step_open [] decoder ident small_tcfg false (run_new false [(two_tests, small_executor 3)])
    0 two_tests (small_executor 3) 5 (Running small_plan) eq_refl small_opens) as Hs.
  unfold suite_of in Hs. rewrite small_functions in Hs. exact Hs.
Qed.
(** The second function begins first; the first one fails. *)
Lemma small_steps : steps [] decoder ident small_tcfg false
  (run_new false [(two_tests, small_executor 3)]) (small_run [out_of bad; out_of good]).
Proof.
  apply (rtc_l _ _ _ _ small_opening).
  apply (rtc_l _ _ _ _ (small_begins [Pending; Pending] 1 eq_refl)).
  apply (rtc_l _ _ _ _ (small_begins [Pending; Started] 0 eq_refl)).
  apply (rtc_l _ _ _ _ (small_ends [Started; Started] 0 bad eq_refl eq_refl)).
  apply rtc_once. exact (small_ends [out_of bad; Started] 1 good eq_refl eq_refl).
Qed.

Lemma undisturbed_run_is_complete_witness :
  (λ out, status out.1) <$> [small_out bad; small_out good]
    = [Failure; Success] ∧
  ∃ fuel o, open_suite [] decoder ident fuel two_tests small_tcfg (small_executor 3) = Some o ∧
    match o with
    | Closed s => suites (small_run [out_of bad; out_of good]) !! 0%nat = Some (SuiteClosed s)
    | Running p => ∃ outs,
        suites (small_run [out_of bad; out_of good]) !! 0%nat = Some (Tasks p ((λ out, Ended (Some out)) <$> outs)) ∧
        Forall2 (λ f out, alone decoder p f out ∧ (one_result f → ∀ out', alone decoder p f out' → out' = out))
          (p_functions p) outs
    end.
Proof.
  split; [reflexivity|].
  apply (undisturbed_run_is_complete [] decoder ident small_tcfg false [(two_tests, small_executor 3)]
           (small_run [out_of bad; out_of good]) small_steps).
  - constructor; [|constructor]. eexists. reflexivity.
  - by left.
  - reflexivity.
Defined.
